(* ===== verification/_CoqProject ===== *)
-Q . S2P
Prelude.v
StorageCommon.v
SpaceSaving.v
SpaceSavingInv.v
SpaceSavingSim.v
SpaceSavingFree.v
SlottedPage.v
SlottedPageInv.v
SlottedPageCompact.v
SlottedPageOps.v
SlottedPageShift.v
SlottedPageDelete.v
SlottedPageUpdate.v
SlottedPageRead.v
SlottedPageSpec.v
SlottedPageProps.v
Bitset.v
BinaryHeap.v
LockTable.v
LockManager.v
LockManagerInv.v
LockManagerSteps.v
LockManagerProps.v
Deadlock.v
DeadlockSearch.v
DeadlockVictim.v
DeadlockVisit.v
DeadlockLoop.v
DeadlockGraph.v
DeadlockLocks.v
DeadlockWaits.v
DeadlockProps.v
DeadlockFaults.v
Numeric.v
NumericValue.v
NumericArith.v
NumericDiv.v
NumericString.v
NumericCoerce.v
NumericOps.v
NumericQuotient.v
NumericText.v
NumericProps.v
Floats.v
HashFunctions.v
MemoryHash.v
MemoryHashSize.v
MemoryHashLists.v
MemoryHashInv.v
MemoryHashOps.v
MemoryHashRehash.v
MemoryHashRem.v
MemoryHashSpec.v
HashFunctionsProps.v
MemoryHashProps.v
Doubles.v
Dates.v
DatesExact.v
DatesCalendar.v
DatesWeeks.v
DateText.v
DateTextRead.v
DatesProps.v
OrBuf.v
Collation.v
OrBufSpec.v
Primitive.v
PrimitiveDisk.v
PrimitiveCompare.v
PrimitiveProps.v
TopN.v
Btree.v
BtreeKey.v
BtreeRecord.v
BtreeSearch.v
BtreeUpdate.v
BtreeSplit.v
BtreeSplitSpec.v
BtreeSplitTree.v
BtreeProps.v
