(* ===== verification/Prelude.v ===== *)
(** * A verification development for RYE, a native sharding RDBMS

    RYE is a relational database server in C.  Its clients send SQL through a
    broker; the server parses and optimises a statement, executes the plan over
    heap files and B+-trees, isolates transactions with locks and makes their
    changes durable with a write-ahead log.  The heap files, the B+-trees and
    the catalogs all keep their records in slotted pages.  This development
    models thirteen parts of that server and proves what the others rely on.

    ** The parts and their files

    - Constants, alignment, page sizes, record descriptors and object
      identifiers (src/base/memory_alloc.h, src/storage/storage_common.[ch],
      src/storage/oid.c): [StorageCommon].
    - The slotted page and the table of saved space (src/storage/slotted_page.c
      and the end of a transaction in src/transaction/log_manager.c).
      [SpaceSaving] has the data and operations of the table: a hash table of
      heads, doubly linked lists of entries per page and a chain of entries per
      transaction, with pointers as integers and a dereference of a freed
      object as None.  A head that mht_put fails to enter in the hash table
      stays allocated, and no reader finds it.  [SpaceSavingInv],
      [SpaceSavingSim] and [SpaceSavingFree] have its invariant, which admits
      such heads, and the simulation by a map from pages and transactions to
      bytes when there are none.  [SlottedPage] has the page: the header as a
      record, the body as a function from addresses to bytes, a slot as the
      three bit fields of a 32-bit word.  [SlottedPageInv] defines the abstract
      contents [views] and the page invariant; [SlottedPageCompact],
      [SlottedPageOps], [SlottedPageShift], [SlottedPageDelete],
      [SlottedPageUpdate] and [SlottedPageRead] prove what each operation does;
      [SlottedPageSpec] collects them in one simulation theorem and
      [SlottedPageProps] states the properties.  The page uses the table
      through the class SavedSpaces, whose laws SavedSpacesLaws the linked
      structure satisfies (the instances in [SpaceSavingFree]).
    - The bit sets of the optimizer (src/optimizer/query_bitset.c): [Bitset].
    - The binary heap (src/base/binaryheap.c) in [BinaryHeap], and its client,
      the top-N sort of ORDER BY ... LIMIT (src/query/query_executor.c,
      qexec_setup_topn_proc to qexec_topn_tuples_to_list_id), in [TopN].  The
      heap is proved against the laws CmpLaws of a comparison function, which
      [TopN] discharges for qexec_topn_compare on the values of [Primitive].
    - The lock tables and the lock manager (src/transaction/lock_table.c,
      src/transaction/lock_manager.c): [LockTable] has the compatibility and
      conversion tables, [LockManager] the lists of holders and waiters, every
      operation on them and the state machine of requests, releases, wakeups
      and aborted waits.  [LockManagerInv] and [LockManagerSteps] have the
      invariants, [LockManagerProps] the properties.
    - Deadlock detection, in the same source file: [Deadlock] has the wait-for
      graph, arrays of nodes and edges that are linked by indices, its
      construction from the lock table (lock_add_WFG_edge), the search for
      cycles (lock_detect_local_deadlock) and the choice of a victim
      (lock_select_deadlock_victim).  [DeadlockSearch], [DeadlockVictim],
      [DeadlockVisit] and [DeadlockLoop] have the invariants of the search and
      its termination, [DeadlockGraph] is about the graph of a list of waits,
      [DeadlockLocks] and [DeadlockWaits] are about the waits of a lock table,
      and [DeadlockProps] and [DeadlockFaults] have the properties.
    - The exact numeric values of SQL, NUMERIC (p, s) (src/query/numeric_opfunc.c
      and the construction of values in src/compat/db_macro.c): [Numeric] has
      the arithmetic on the buffers of 16 or 32 bytes, most significant byte
      first in two's complement, a buffer as a list of bytes, and the decimal
      strings; [NumericValue] has the operations on DB_VALUE.  [NumericArith],
      [NumericDiv] and [NumericString] relate each operation on buffers to the
      integer a buffer stands for; [NumericCoerce], [NumericOps],
      [NumericQuotient] and [NumericText] relate the operations on values to
      their exact value; [NumericProps] states the properties.
    - The memory hash table that the server uses for its tables in memory
      (src/base/memory_hash.c): [HashFunctions] has the hash functions of
      strings, numbers, pointers and database values, the comparison functions
      and the choice of a table size; [MemoryHash] has the table, a vector of
      chains whose entries are also on a doubly linked list in the order of
      insertion and, on request, on one in the order of use, as a heap of
      entries with pointers as integers, and every operation on it.
      [MemoryHashSize] bounds the sizes that the single and double precision
      arithmetic of the rehashing gives; [MemoryHashLists] is about the doubly linked
      lists, [MemoryHashInv] has the invariant, [MemoryHashOps],
      [MemoryHashRehash] and [MemoryHashRem] prove that the operations keep it,
      and [MemoryHashSpec] has the specification as a map with two orders, the
      class MhtKeys of what the hash and comparison functions promise, and the
      simulation.  [HashFunctionsProps] discharges MhtKeys for the functions of
      the source and [MemoryHashProps] states the properties of the table.
    - Dates and times (src/compat/db_date.c): [Dates] has the numbering of days
      with its floating-point expressions, times of the day, arithmetic on
      dates with times, and the days and weeks of a year; [DateText] has
      printing and the functions db_string_to_date, db_string_to_time and
      db_string_to_datetime.  [DatesExact] shows that the expressions in double
      are exact enough, [DatesCalendar] has the calendar as a specification and
      relates the numbering to it, [DatesWeeks] is about the weeks,
      [DateTextRead] about reading, and [DatesProps] states the properties.
    - The buffers through which values are written to records and messages
      (src/object/object_representation.c and the macros of
      src/base/object_representation.h): [OrBuf] has a buffer as a memory with
      a start, a position and an end, and the functions that write, read and
      skip values of fixed size, strings and bit strings; [OrBufSpec] says what
      each of them writes, and that a read behind the same write gives the
      value back.
    - The comparison of strings (src/base/language_support.c,
      src/base/intl_support.c): [Collation] has the built-in collations and
      shows that each compares lists of weights.
    - The primitive types (src/object/object_primitive.c,
      src/object/object_domain.c): [Primitive] has the values and, for each
      type, the functions that write, read and compare it in index records and
      in heap records, the comparison in memory, tp_value_compare and
      pr_clone_value.  [PrimitiveDisk] has the formats and their round trips,
      [PrimitiveCompare] the keys by which values are ordered, and
      [PrimitiveProps] the properties.  [TopN] and the B+-trees compare and
      copy their values with these functions.
    - The pages of B+-trees (src/storage/btree.c, src/storage/btree_insert.c),
      on the slotted pages and the primitive types: [Btree] has keys, records,
      node headers, the searches of a page, and insertion into and deletion
      from a leaf; [BtreeSplit] has the separator of two keys, the split point
      and the split of a node.  [BtreeKey] is about the order of keys,
      [BtreeRecord] about records, [BtreeSearch] says what a leaf and an inner
      page hold and what the searches find, [BtreeUpdate] is about the changes
      of a leaf, [BtreeSplitSpec] and [BtreeSplitTree] about the split, and
      [BtreeProps] states the properties.
    - The arithmetic of float and double that these use: [Floats] has
      the operations of the standard library's SpecFloat at both precisions,
      with the conversions to and from integers, and [Doubles] the real value
      of a double and the error of each operation.

    Definitions keep the names of the C functions.  A loop of a function is a
    Fixpoint of its own; a function that changes its arguments returns them; a
    status and an output argument are a pair.  The definitions follow the
    release build of the server: assert is a no-op, the code under !NDEBUG and
    ENABLE_UNUSED_FUNCTION is left out (spage_check_num_slots is modelled all
    the same), and SERVER_MODE is on.  Whether an allocation succeeds is a
    boolean argument, or a field of the thread entry where a function allocates
    in several places.

    ** What is proved

    - Slotted pages: every operation, whatever allocations fail, is simulated
      by its abstract counterpart on the list of slot contents and keeps the
      page invariant (spage_refines, reachable_safe), for records of any length;
      deletion and update are covered only on pages without empty records,
      since an empty record can get lost by them (spage_faults); compaction; insertion and
      reading, insertion and deletion, update, failed update; the promise of
      spage_max_space_for_new_record; the reservation of freed space; scans;
      spage_check; the encoding of slots.  One theorem exhibits faults: a
      consistent full page that spage_check rejects, a deletion that reports a
      failure after it was done, an empty record that is lost.
    - Saved space: reading, adding and releasing agree with the abstract map as
      long as every head is in the hash table; when mht_put fails a saving is
      reported but not seen (saved_space_refines), and an end of a transaction
      can then lose the savings of others (hidden_head_release), but no pointer
      dangles (reachable_safe).
    - Bit sets: every operation is the one of finite sets for operands of any
      length when the array is long enough or can be extended, and otherwise
      writes out of bounds; iteration is complete.
    - Heap and top-N: insertion, sorting, and that the result of a top-N sort
      is N smallest rows in order, for sort keys that are not bit strings.
    - Locks: the tables are consistent and a group of locks may be replaced by
      one mode; the holders of a value are compatible when woken threads remove
      their requests promptly, and are not when they are late; hold lists agree
      with holders; granted requests, releases and counts; no wakeup is lost.
    - Deadlocks: on every reachable lock table the detector terminates within
      its arrays, reports only transactions of cycles of waits, prefers victims
      as its comment says, and misses no cycle of the waits it records
      (deadlock_detection_correct).  One theorem exhibits faults: a standstill
      whose waits are not recorded, a failed allocation, and a thread that is
      resumed during the search.
    - Numeric values: addition, subtraction and comparison are exact for all
      values of all types, multiplication is exact or truncated, division and the
      conversions to NUMERIC and BIGINT round half away from zero; every overflow
      that is reported is characterised; printing and reading, and the decimal
      strings, are inverse.  Multiplication, division and the conversion to BIGINT
      have conditions, and the example numeric_faults has inputs outside of them
      that give a wrong number, a number too long for its type, or a trap.
    - Memory hash table: every sequence of operations from the creation on is
      simulated by the map, whatever allocations fail, with rehashing hidden
      (mht_refines); several entries of one key with mht_get2; iteration that
      removes entries; clearing; the hash functions stay within the string and
      the table and agree with the comparison functions; the size that is
      chosen.  The example mht_faults has faults of the error paths and the
      tables of constants.
    - Dates: db_date_encode and db_date_decode are inverse on exactly the dates
      of the calendar between the years 1 and 9999, Julian until October 1582
      and Gregorian from then on, and consecutive days have consecutive
      numbers; adding milliseconds and weeks is exact or fails; the weeks of a
      year in the eight modes, with the exception of mode 7; what is printed is
      read back.  The example dates_faults shows where the functions
      disagree.
    - Primitive types: a value that is written in either format is read back
      and has the announced size, and a buffer that is too small is not
      overrun (value_disk_roundtrip); the comparisons on disk and in memory
      agree (comparisons_agree) and order the values of a column
      (column_values_ordered), except bit strings and NaN (value_faults).
    - B+-tree pages: keys are ordered column by column (index_keys_ordered);
      records are read back (btree_record_roundtrip); the searches find the
      slot or the child of a key in a page with sorted keys
      (btree_search_correct); insertion and deletion keep a leaf sorted and
      counted and a unique leaf unique (btree_insert_leaf_correct,
      btree_delete_leaf_correct); the split of a leaf divides its keys at a
      separator, links the halves and keeps the parent a sorted inner page in
      which the search for the new key leads to the page that is returned
      (btree_split_leaf_correct).  One theorem exhibits faults: a key that is
      too long for an inner record, and a separator that lets a unique index
      take a duplicate (btree_faults).
    - Page sizes and the order of object identifiers.

    ** Fuel

    A loop over the slots of a page runs on a count that the source computes
    itself (num_slots or a difference of slot numbers).  The loops that follow
    pointers in the saving table run on the size of the map of entries: on a
    well-formed table no pointer is followed twice, and running out would be
    None, which the theorems exclude.  up_heap and down_heap run on the index
    and on the number of elements, since the index at least halves or grows;
    word_card runs 8 times (a nibble a time), bit_scan 32 times; the loop
    that clears the bits of a page size runs once per bit.  lock_unlock_all
    runs on the length of the hold list, which every iteration shortens, and
    grant_holders on the number of holders plus one, since every iteration
    passes over or grants one blocked entry; that both bounds are enough is
    proved (lock_unlock_all_releases, lock_release_grants).  The
    search for deadlocks runs on search_fuel, one iteration for each edge that
    is passed or dropped and each step along a path of at most num_trans nodes,
    and the loops along a path on num_trans; deadlock_detection_correct proves
    that they end.  The loops over a numeric buffer are structural; div_loop runs on the number of bits as in
    the source, chunk_loop on the length of the string, of which every
    iteration consumes a digit, and digit_loop 20 times, since a 64-bit integer
    has at most 19 digits.  The loops over the entries of a hash table run on
    the number of allocated entries plus one: on a well-formed table no entry
    is visited twice, and running out is None, which the theorems exclude.  The
    search in the table of primes runs once per prime and the loop over the
    bits of a size once per bit; both are proved to be enough
    (mht_htsize_suffices).  The theorems about whole tables are for requests
    below 2 ^ 28 slots and fewer than 2 ^ 26 insertions, which keeps the vector
    below the 2 ^ 29 slots from which its size in bytes wraps around.  The
    readers of dates are structural on the rest of the text, and the loop over
    weeks runs once per week as in the source; dec_digits, the decimal digits
    of a number, runs on a bound of the digits of an int.  The comparison of
    strings by characters runs on the length of both strings, of which every
    iteration consumes a byte.  The binary searches of a B+-tree page run on
    the number of keys plus one, since every iteration shortens the range, and
    running out is None, which btree_search_correct excludes; the loops over
    the records of a page run on a count as in the source.

    ** Assumptions

    The conversion of a value to another type, tp_value_coerce, is the class
    TP_COERCE, about which nothing is assumed: the theorems are about values of
    one type, which are not converted.  They exclude NaN, which equals every
    double, and bit strings where tp_value_compare orders them
    (value_faults).  The page of a B+-tree is latched by the
    thread that works on it; er_errid is an argument, as are the contents of
    local buffers and other variables that are not initialised.  The theorem on
    splits is for a parent with room for the separator, as its caller ensures,
    and for keys that leave room for the child in a record.
    The keys of the lock table are a countable type with decidable equality,
    which stands for DB_VALUE with db_value_compare.  A transaction of the lock
    manager runs in one thread: it asks for nothing while it is suspended.
    The mutexes of the lock manager make each operation on a resource atomic.
    The deadlock detector asks the table of transactions through TRAN_TABLE; its
    correctness is for a search during which no thread is suspended or resumed
    and no transaction ends, and [interfere] is what these do to the graph.
    The hash function of a collation is an argument of mht_get_hash_number.
    The words for am and pm, which the source takes from strftime, and the
    current year are arguments of the functions that read dates and times.

    ** What is not modelled

    The page buffer, the log records and the latches around the operations on
    a page; spage_split, spage_take_out, spage_append, spage_put, spage_merge
    and the overwriting of parts of a record, which are compiled out, and the
    dump functions; lock escalation, the thread queues of several threads of
    one transaction and the allocation lists of the lock manager, and the end of
    lock_detect_local_deadlock, which wakes a thread up when all of them are
    suspended (the resolution of deadlocks is compiled out); bitset_delset and printing; the conversion of the sorted tuples
    of a top-N sort to a list file; mht_valhash and the comparison of database
    values as keys, mht_destroy and mht_dump; the second family of readers of
    dates (db_date_parse_date, db_date_parse_time, db_date_parse_datetime and
    the functions they use), the conversions between dates and the time of the
    C library (tm_encode, db_mktime, db_strftime, db_localtime) and
    db_check_time_date_format; the conversions between numeric values and
    double (numeric_internal_real_to_num, numeric_coerce_num_to_double) with
    the branches that use them, which need a model of the formatting and
    reading of doubles; tp_value_coerce, the functions on
    the memory of objects, sequences and the cache of domains; the log records
    of the B+-tree, the split of its root, merging, the descent from the root,
    range scans, bulk loading and recovery.  The heap files, extendible
    hashing, file and disk management, logging and recovery, the query
    compiler and the rest of the executor, the broker, the drivers, the
    replication and the utilities are not modelled yet. *)
From Stdlib Require Import ZArith Lia ZifyBool Sorting.Sorted.
From stdpp Require Import base list numbers gmap sorting.

Declare Scope rye_scope.
Delimit Scope rye_scope with rye.

Create HintDb rye.

Open Scope Z_scope.

(** ** Tactics *)

(** [zcase] destructs the condition of one conditional of the goal or of a
    hypothesis and keeps the equation, which [lia] reads. *)
Ltac zcase :=
  match goal with
  | |- context [if ?b then _ else _] => let E := fresh "E" in destruct b eqn:E
  | H : context [if ?b then _ else _] |- _ => let E := fresh "E" in destruct b eqn:E
  end.

(** [lia] on goals with division and modulo by constants. *)
Ltac dlia := Z.div_mod_to_equations; lia.

Ltac zcases := repeat (zcase; try lia; try discriminate; simplify_eq).

(** One step of a computation in the option monad. *)
Ltac obind := cbn [mbind option_bind].

(** ** Status codes shared by the modules of the server *)

Definition NO_ERROR : Z := 0.
Definition ER_FAILED : Z := -1.
Definition ER_OUT_OF_VIRTUAL_MEMORY : Z := -3.

(** Results of a comparison of values. *)
Definition DB_UNK : Z := -2.
Definition DB_LT : Z := -1.
Definition DB_EQ : Z := 0.
Definition DB_GT : Z := 1.

(** The quotient rounded up. *)
Definition CEIL_PTVDIV (dividend divisor : Z) : Z :=
  if dividend =? 0 then 0 else Z.quot (dividend - 1) divisor + 1.

(** ** Integers of a given width *)

(** [uwrap w x] is the value of [x] stored in an unsigned field of [w] bits
    and [swrap w x] its value in a signed one. *)
Definition uwrap (w x : Z) : Z := x mod 2 ^ w.
Definition swrap (w x : Z) : Z := (x + 2 ^ (w - 1)) mod 2 ^ w - 2 ^ (w - 1).

Lemma uwrap_small w x : 0 <= x < 2 ^ w -> uwrap w x = x.
Proof. apply Z.mod_small. Qed.

Lemma uwrap_range w x : 0 <= w -> 0 <= uwrap w x < 2 ^ w.
Proof. intros. apply Z.mod_pos_bound. lia. Qed.

Lemma swrap_small w x : 0 < w -> - 2 ^ (w - 1) <= x < 2 ^ (w - 1) -> swrap w x = x.
Proof.
  intros Hw H. unfold swrap. rewrite Z.mod_small; [lia|].
  replace (2 ^ w) with (2 * 2 ^ (w - 1)); [lia|].
  rewrite <- Z.pow_succ_r by lia. f_equal. lia.
Qed.

Lemma swrap_range w x : 0 < w -> - 2 ^ (w - 1) <= swrap w x < 2 ^ (w - 1).
Proof.
  intros Hw. unfold swrap.
  pose proof (Z.mod_pos_bound (x + 2 ^ (w - 1)) (2 ^ w) ltac:(lia)).
  replace (2 ^ w) with (2 * 2 ^ (w - 1)) in *; [lia|].
  rewrite <- Z.pow_succ_r by lia. f_equal. lia.
Qed.

(** A test of one bit. *)
Lemma land_bit w k : 0 <= k -> negb (Z.land w (Z.shiftl 1 k) =? 0) = Z.testbit w k.
Proof.
  intros Hk. rewrite Z.shiftl_1_l. destruct (Z.testbit w k) eqn:E.
  - apply negb_true_iff, Z.eqb_neq. intros H.
    assert (Z.testbit (Z.land w (2 ^ k)) k = false) as Hb by (by rewrite H, Z.bits_0).
    by rewrite Z.land_spec, E, Z.pow2_bits_true in Hb.
  - apply negb_false_iff, Z.eqb_eq, Z.bits_inj'. intros j Hj.
    rewrite Z.land_spec, Z.bits_0, Z.pow2_bits_eqb by done.
    destruct (k =? j) eqn:Ej; [|by rewrite andb_false_r].
    apply Z.eqb_eq in Ej as <-. by rewrite E.
Qed.

(** ** Sums over a list *)

Fixpoint sumZ (l : list Z) : Z :=
  match l with
  | [] => 0
  | x :: l => x + sumZ l
  end.

Lemma sumZ_app l1 l2 : sumZ (l1 ++ l2) = sumZ l1 + sumZ l2.
Proof. induction l1; simpl; lia. Qed.

Lemma sumZ_nonneg l : Forall (fun x => 0 <= x) l -> 0 <= sumZ l.
Proof. induction 1; simpl; lia. Qed.

Lemma sumZ_perm l1 l2 : l1 ≡ₚ l2 -> sumZ l1 = sumZ l2.
Proof. induction 1; simpl; lia. Qed.

#[export] Instance sumZ_proper : Proper ((≡ₚ) ==> (=)) sumZ.
Proof. intros l1 l2. apply sumZ_perm. Qed.

(** A sum in which one term changes. *)
Lemma sumZ_fmap_change {A} (f g : A -> Z) (l : list A) p :
  NoDup l -> p ∈ l -> (forall q, q ∈ l -> q <> p -> f q = g q) ->
  sumZ (f <$> l) = sumZ (g <$> l) + (f p - g p).
Proof.
  induction 1 as [|q l Hq Hn IH]; [by intros ?%not_elem_of_nil|].
  rewrite !fmap_cons. cbn [sumZ]. intros [->|Hp]%elem_of_cons Hfg.
  - rewrite (list_fmap_ext f g l); [lia|]. intros i x Hi.
    assert (x ∈ l) by (by eapply list_elem_of_lookup_2).
    apply Hfg; [by right|]. by intros ->.
  - rewrite (Hfg q) by (left || by intros ->).
    rewrite IH; [lia|done|]. intros x Hx. apply Hfg. by right.
Qed.

Lemma sumZ_insert l i x y :
  l !! i = Some x -> sumZ (<[i := y]> l) = sumZ l - x + y.
Proof.
  revert i. induction l as [|z l IH]; intros [|i] Hi; simplify_eq/=; [lia|].
  rewrite (IH i) by done. lia.
Qed.

Lemma sumZ_delete l i x :
  l !! i = Some x -> sumZ (delete i l) = sumZ l - x.
Proof.
  revert i. induction l as [|z l IH]; intros [|i] Hi; simplify_eq/=; [lia|].
  rewrite (IH i) by done. lia.
Qed.

(** Filters with the same effect on the elements of a list. *)
Lemma filter_iff_in {A} (P Q : A -> Prop)
    `{forall x, Decision (P x), forall x, Decision (Q x)} (l : list A) :
  (forall x, x ∈ l -> P x <-> Q x) -> filter P l = filter Q l.
Proof.
  induction l as [|x l IH]; intros HPQ; [done|]. rewrite !filter_cons.
  rewrite IH by (intros y Hy; apply HPQ; by right).
  specialize (HPQ x ltac:(by left)). repeat destruct (decide _); tauto.
Qed.

Lemma filter_of_fmap {A B} (f : A -> B) (P : B -> Prop) `{forall x, Decision (P x)} (l : list A) :
  filter P (f <$> l) = f <$> filter (fun x => P (f x)) l.
Proof.
  induction l as [|x l IH]; [done|]. rewrite fmap_cons, !filter_cons, IH. by destruct (decide _).
Qed.

(** The first element a filter keeps. *)
Lemma filter_cons_inv {A} (P : A -> Prop) `{forall x, Decision (P x)} (l : list A) x k :
  filter P l = x :: k -> exists l1 l2, l = l1 ++ x :: l2 /\ filter P l2 = k.
Proof.
  induction l as [|y l IH]; [done|]. rewrite filter_cons. destruct (decide (P y)).
  - intros [= -> <-]. by exists [], l.
  - intros (l1 & l2 & -> & Hk)%IH. by exists (y :: l1), l2.
Qed.

(** ** Sorted lists *)

Lemma StronglySorted_impl_in {A} (R R' : A -> A -> Prop) l :
  (forall a b, a ∈ l -> b ∈ l -> R a b -> R' a b) ->
  StronglySorted R l -> StronglySorted R' l.
Proof.
  intros HR Hl. induction Hl as [|x l Hl IH Hx]; constructor.
  - apply IH. intros a b Ha Hb. apply HR; by right.
  - rewrite Forall_forall in *. intros y Hy. apply HR; [by left|by right|by apply Hx].
Qed.

(** For a symmetric relation [StronglySorted R l] says that any two elements
    at different positions are related; the order of the list is irrelevant. *)
Lemma StronglySorted_sym_perm {A} (R : A -> A -> Prop) l1 l2 :
  (forall a b, R a b -> R b a) -> l1 ≡ₚ l2 -> StronglySorted R l1 -> StronglySorted R l2.
Proof.
  intros HR Hp. induction Hp as [|x l1 l2 Hp IH|x y l|l1 l2 l3 _ IH1 _ IH2].
  - done.
  - intros [Hs Hx]%StronglySorted_inv. constructor; [by apply IH|by rewrite <- Hp].
  - intros [[Hs Hx]%StronglySorted_inv Hy]%StronglySorted_inv.
    inversion Hy; subst. constructor; [by constructor|]. constructor; [by apply HR|done].
  - intros H. by apply IH2, IH1.
Qed.

Lemma StronglySorted_lookup {A} (R : A -> A -> Prop) l :
  (forall a b, R a b -> R b a) ->
  StronglySorted R l <->
  (forall i j a b, i <> j -> l !! i = Some a -> l !! j = Some b -> R a b).
Proof.
  intros HR. split.
  - induction 1 as [|x l Hs IH Hx]; intros i j a b Hij Ha Hb; [done|].
    rewrite Forall_forall in Hx. destruct i as [|i], j as [|j]; simplify_eq/=.
    + apply Hx. by eapply list_elem_of_lookup_2.
    + apply HR, Hx. by eapply list_elem_of_lookup_2.
    + eapply (IH i j); [lia|done..].
  - induction l as [|x l IH]; intros H; constructor.
    + apply IH. intros i j a b Hij Ha Hb. eapply (H (S i) (S j)); [lia|done..].
    + apply Forall_forall. intros y [j Hj]%list_elem_of_lookup.
      by eapply (H 0%nat (S j)).
Qed.

(** ** Byte memory

    A memory maps addresses to bytes; the operations are those of the C
    library the code uses, and an out-of-range write is visible as a change
    outside the object. *)

Definition mem := Z -> Z.

Definition load_bytes (m : mem) (a : Z) (n : nat) : list Z :=
  (fun i : nat => m (a + Z.of_nat i)) <$> seq 0 n.

Definition store_bytes (m : mem) (a : Z) (bs : list Z) : mem :=
  fun x =>
    if (a <=? x) && (x <? a + Z.of_nat (length bs))
    then nth (Z.to_nat (x - a)) bs 0 else m x.

(** memcpy and memmove of [n] bytes: the source is read before the
    destination is written. *)
Definition memmove (m : mem) (dst src : Z) (n : nat) : mem :=
  store_bytes m dst (load_bytes m src n).

Definition bytes32 (w : Z) : list Z :=
  [w mod 256; (w / 256) mod 256; (w / 65536) mod 256; (w / 16777216) mod 256].

Definition store32 (m : mem) (a w : Z) : mem := store_bytes m a (bytes32 w).

Definition load32 (m : mem) (a : Z) : Z :=
  m a + 256 * m (a + 1) + 65536 * m (a + 2) + 16777216 * m (a + 3).

Lemma length_load_bytes m a n : length (load_bytes m a n) = n.
Proof. unfold load_bytes. by rewrite length_fmap, length_seq. Qed.

Lemma load_bytes_ext m1 m2 a n :
  (forall x, a <= x < a + Z.of_nat n -> m1 x = m2 x) ->
  load_bytes m1 a n = load_bytes m2 a n.
Proof.
  intros H. apply list_fmap_ext. intros i x Hx.
  apply lookup_seq in Hx. apply H. lia.
Qed.

Lemma load_bytes_0 m a : load_bytes m a 0 = [].
Proof. done. Qed.

Lemma store_bytes_outside m a bs x :
  x < a \/ a + Z.of_nat (length bs) <= x -> store_bytes m a bs x = m x.
Proof. intros H. unfold store_bytes. zcase; [lia|done]. Qed.

Lemma store_bytes_nil m a x : store_bytes m a [] x = m x.
Proof. apply store_bytes_outside. simpl. lia. Qed.

Lemma load_store_same m a bs :
  load_bytes (store_bytes m a bs) a (length bs) = bs.
Proof.
  apply list_eq. intros i. unfold load_bytes. rewrite list_lookup_fmap.
  destruct (decide (i < length bs)%nat) as [Hi|Hi].
  - rewrite lookup_seq_lt by done. simpl. unfold store_bytes.
    replace (Z.to_nat _) with i by lia.
    zcase; [|lia]. destruct (lookup_lt_is_Some_2 bs i Hi) as [b Hb].
    rewrite Hb. f_equal. by apply nth_lookup_Some.
  - rewrite lookup_seq_ge by lia. simpl. symmetry. apply lookup_ge_None. lia.
Qed.

Lemma load_store_disjoint m a bs x n :
  x + Z.of_nat n <= a \/ a + Z.of_nat (length bs) <= x ->
  load_bytes (store_bytes m a bs) x n = load_bytes m x n.
Proof. intros H. apply load_bytes_ext. intros y Hy. apply store_bytes_outside. lia. Qed.

Lemma load_bytes_app m a n k :
  load_bytes m a (n + k) = load_bytes m a n ++ load_bytes m (a + Z.of_nat n) k.
Proof.
  unfold load_bytes. rewrite seq_app, fmap_app. f_equal.
  replace (seq (0 + n) k) with (Nat.add n <$> seq 0 k) by (rewrite fmap_add_seq; f_equal; lia).
  rewrite <- list_fmap_compose.
  apply list_fmap_ext. intros i x _. simpl. f_equal. lia.
Qed.

(** A write of fewer bytes than are read back. *)
Lemma load_store_prefix m a bs n :
  (length bs <= n)%nat ->
  load_bytes (store_bytes m a bs) a n = bs ++ drop (length bs) (load_bytes m a n).
Proof.
  intros Hn. replace n with (length bs + (n - length bs))%nat by lia.
  rewrite !load_bytes_app, load_store_same. f_equal.
  rewrite drop_app_length' by (by rewrite length_load_bytes).
  apply load_store_disjoint. lia.
Qed.

Lemma load32_ext m1 m2 a :
  (forall x, a <= x < a + 4 -> m1 x = m2 x) -> load32 m1 a = load32 m2 a.
Proof. intros H. unfold load32. rewrite !H by lia. done. Qed.

Lemma load32_store32_same m a w : load32 (store32 m a w) a = w mod 2 ^ 32.
Proof.
  unfold load32, store32, store_bytes, bytes32. simpl length.
  replace (Z.to_nat (a - a)) with 0%nat by lia.
  replace (Z.to_nat (a + 1 - a)) with 1%nat by lia.
  replace (Z.to_nat (a + 2 - a)) with 2%nat by lia.
  replace (Z.to_nat (a + 3 - a)) with 3%nat by lia.
  repeat (zcase; [|lia]). simpl nth. dlia.
Qed.

Lemma load32_store_disjoint m a bs x :
  x + 4 <= a \/ a + Z.of_nat (length bs) <= x ->
  load32 (store_bytes m a bs) x = load32 m x.
Proof. intros H. apply load32_ext. intros y Hy. apply store_bytes_outside. lia. Qed.

#[export] Hint Rewrite length_load_bytes load_store_same : rye.
