(* ===== verification/StorageCommon.v ===== *)
(** * Definitions shared by the storage modules

    Alignment macros (src/base/memory_alloc.h), the page sizes
    (src/storage/storage_common.c), record descriptors
    (src/storage/storage_common.h) and object identifiers
    (src/storage/oid.c). *)
From Stdlib Require Import ZArith Lia ZifyBool.
From stdpp Require Import base list numbers gmap.
From S2P Require Import Prelude.

(** ** Alignment *)

Definition CHAR_ALIGNMENT : Z := 1.
Definition SHORT_ALIGNMENT : Z := 2.
Definition INT_ALIGNMENT : Z := 4.
Definition LONG_ALIGNMENT : Z := 8.
Definition FLOAT_ALIGNMENT : Z := 4.
Definition DOUBLE_ALIGNMENT : Z := 8.

Definition DB_ALIGN (offset align : Z) : Z :=
  Z.land (offset + align - 1) (Z.lnot (align - 1)).

Definition DB_ALIGN_BELOW (offset align : Z) : Z :=
  Z.land offset (Z.lnot (align - 1)).

Definition DB_WASTED_ALIGN (offset align : Z) : Z := DB_ALIGN offset align - offset.

(** The alignments the assertion of spage_initialize admits. *)
Definition valid_alignment (align : Z) : Prop :=
  align = 1 \/ align = 2 \/ align = 4 \/ align = 8.

(** ** Page sizes *)

Definition ONE_K : Z := 1024.
Definition IO_DEFAULT_PAGE_SIZE : Z := 16 * ONE_K.
Definition IO_MIN_PAGE_SIZE : Z := IO_DEFAULT_PAGE_SIZE.
Definition IO_MAX_PAGE_SIZE : Z := IO_DEFAULT_PAGE_SIZE.

(** sizeof (FILEIO_PAGE_RESERVED): one LOG_LSA, two bit fields of 49 and 15
    bits. *)
Definition RESERVED_SIZE_IN_PAGE : Z := 8.

Definition IS_POWER_OF_2 (x : Z) : bool := Z.land x (x - 1) =? 0.

(** The static variables of storage_common.c. *)
Record PAGE_SIZES := mkPageSizes {
  db_Io_page_size : Z;
  db_Log_page_size : Z;
  db_User_page_size : Z }.

Definition initial_page_sizes : PAGE_SIZES :=
  mkPageSizes IO_DEFAULT_PAGE_SIZE IO_DEFAULT_PAGE_SIZE
    (IO_DEFAULT_PAGE_SIZE - RESERVED_SIZE_IN_PAGE).

(** The loop of find_valid_page_size that clears the lowest bits; an INT16
    has at most 16 of them. *)
Fixpoint round_down_loop (fuel : nat) (power2_page_size : Z) : Z :=
  match fuel with
  | O => power2_page_size
  | S fuel =>
      if IS_POWER_OF_2 power2_page_size then power2_page_size
      else if power2_page_size <? IO_MIN_PAGE_SIZE then IO_MIN_PAGE_SIZE
      else round_down_loop fuel (Z.land power2_page_size (power2_page_size - 1))
  end.

Definition find_valid_page_size (page_size : Z) : Z :=
  if page_size <? IO_MIN_PAGE_SIZE then IO_MIN_PAGE_SIZE
  else if page_size >? IO_MAX_PAGE_SIZE then IO_MAX_PAGE_SIZE
  else if negb (IS_POWER_OF_2 page_size) then
    let power2_page_size := swrap 16 (Z.shiftl (round_down_loop 16 page_size) 1) in
    if power2_page_size <? IO_MIN_PAGE_SIZE then IO_MIN_PAGE_SIZE
    else if power2_page_size >? IO_MAX_PAGE_SIZE then IO_MAX_PAGE_SIZE
    else power2_page_size
  else page_size.

Definition db_set_page_size (io_page_size log_page_size : Z) (st : PAGE_SIZES)
    : Z * PAGE_SIZES :=
  if (io_page_size <? IO_MIN_PAGE_SIZE) || (log_page_size <? IO_MIN_PAGE_SIZE)
  then (ER_FAILED, st)
  else
    let io := find_valid_page_size io_page_size in
    let user := swrap 16 (io - RESERVED_SIZE_IN_PAGE) in
    let log := find_valid_page_size log_page_size in
    let st := mkPageSizes io log user in
    if negb (io =? io_page_size) || negb (log =? log_page_size)
    then (ER_FAILED, st)
    else (NO_ERROR, st).

(** DB_PAGESIZE is db_page_size (), the user page size; [db_set_page_size_user]
    shows that no call of db_set_page_size changes it. *)
Definition db_page_size (st : PAGE_SIZES) : Z := db_User_page_size st.

Definition DB_PAGESIZE : Z := 16376.

(** ** Record descriptors *)

(** The data pointer of a record descriptor: a work area of the caller, or an
    address of the page for a peeked record. *)
Inductive REC_DATA :=
| Area (bytes : list Z)
| InPage (offset : Z).

Record RECDES := mkRecdes {
  area_size : Z;
  length_ : Z;
  type_ : Z;
  data : REC_DATA }.

(** ** Object identifiers *)

Record OID := mkOid { o_pageid : Z; o_slotid : Z; o_volid : Z; o_groupid : Z }.

(** Subtraction of two ints. *)
Definition int_sub (x y : Z) : Z := swrap 32 (x - y).

Definition oid_compare (oid1_p oid2_p : OID) : Z :=
  let diff := int_sub (o_volid oid1_p) (o_volid oid2_p) in
  if diff >? 0 then 1
  else if diff <? 0 then -1
  else
    let diff := int_sub (o_pageid oid1_p) (o_pageid oid2_p) in
    if diff >? 0 then 1
    else if diff <? 0 then -1
    else
      let diff := int_sub (o_slotid oid1_p) (o_slotid oid2_p) in
      if diff >? 0 then 1
      else if diff <? 0 then -1
      else 0.

(** ** Lemmas on alignment *)

Lemma land_lnot_ones x k : 0 <= k -> Z.land x (Z.lnot (2 ^ k - 1)) = x - x mod 2 ^ k.
Proof.
  intros Hk. replace (2 ^ k - 1) with (Z.ones k) by (rewrite Z.ones_equiv; lia).
  rewrite <- Z.ldiff_land, Z.ldiff_ones_r by done.
  rewrite Z.shiftl_mul_pow2, Z.shiftr_div_pow2 by done.
  pose proof (Z.div_mod x (2 ^ k) ltac:(lia)). lia.
Qed.

Lemma DB_ALIGN_BELOW_mod x a : valid_alignment a -> DB_ALIGN_BELOW x a = x - x mod a.
Proof.
  unfold DB_ALIGN_BELOW, valid_alignment.
  intros [->|[->|[->| ->]]];
    [apply (land_lnot_ones x 0)|apply (land_lnot_ones x 1)
    |apply (land_lnot_ones x 2)|apply (land_lnot_ones x 3)]; lia.
Qed.

Lemma DB_ALIGN_mod x a :
  valid_alignment a -> DB_ALIGN x a = (x + a - 1) - (x + a - 1) mod a.
Proof. intros Ha. by apply (DB_ALIGN_BELOW_mod (x + a - 1)). Qed.

(** The value is the least multiple of the alignment not below the offset. *)
Lemma DB_ALIGN_spec x a :
  valid_alignment a ->
  x <= DB_ALIGN x a < x + a /\ DB_ALIGN x a mod a = 0.
Proof.
  intros Ha. rewrite DB_ALIGN_mod by done.
  destruct Ha as [->|[->|[->| ->]]]; dlia.
Qed.

Lemma DB_ALIGN_fix x a : valid_alignment a -> x mod a = 0 -> DB_ALIGN x a = x.
Proof.
  intros Ha Hx. rewrite DB_ALIGN_mod by done.
  destruct Ha as [->|[->|[->| ->]]]; dlia.
Qed.

Lemma DB_ALIGN_le x y a :
  valid_alignment a -> x <= y -> y mod a = 0 -> DB_ALIGN x a <= y.
Proof.
  intros Ha Hx. rewrite DB_ALIGN_mod by done.
  destruct Ha as [->|[->|[->| ->]]]; dlia.
Qed.

Lemma DB_ALIGN_mono x y a : valid_alignment a -> x <= y -> DB_ALIGN x a <= DB_ALIGN y a.
Proof.
  intros Ha Hx. pose proof (DB_ALIGN_spec y a Ha). apply DB_ALIGN_le; [done|lia|apply H].
Qed.

Lemma DB_ALIGN_add x y a :
  valid_alignment a -> x mod a = 0 -> DB_ALIGN (x + y) a = x + DB_ALIGN y a.
Proof.
  intros Ha Hx. rewrite !DB_ALIGN_mod by done.
  destruct Ha as [->|[->|[->| ->]]]; dlia.
Qed.

Lemma aligned_add x y a :
  valid_alignment a -> x mod a = 0 -> y mod a = 0 -> (x + y) mod a = 0.
Proof. intros [->|[->|[->| ->]]]; dlia. Qed.

Lemma aligned_sub x y a :
  valid_alignment a -> x mod a = 0 -> y mod a = 0 -> (x - y) mod a = 0.
Proof. intros [->|[->|[->| ->]]]; dlia. Qed.

Lemma DB_ALIGN_BELOW_spec x a :
  valid_alignment a ->
  DB_ALIGN_BELOW x a <= x /\ DB_ALIGN_BELOW x a mod a = 0.
Proof.
  intros Ha. rewrite DB_ALIGN_BELOW_mod by done.
  destruct Ha as [->|[->|[->| ->]]]; dlia.
Qed.

(** ** Page sizes never change *)

Lemma find_valid_page_size_const x : find_valid_page_size x = IO_DEFAULT_PAGE_SIZE.
Proof.
  unfold find_valid_page_size, IO_MIN_PAGE_SIZE, IO_MAX_PAGE_SIZE.
  zcase; [done|]. zcase; [done|].
  assert (x = IO_DEFAULT_PAGE_SIZE) as -> by lia. done.
Qed.

Lemma db_set_page_size_user io log st :
  db_page_size st = DB_PAGESIZE ->
  db_page_size (db_set_page_size io log st).2 = DB_PAGESIZE.
Proof.
  intros Hst. unfold db_set_page_size. rewrite !find_valid_page_size_const.
  zcase; [done|]. by zcase.
Qed.

(** The only sizes db_set_page_size accepts are the default page size for
    data and log pages, and whatever the arguments, accepted or not, the size
    of a data page stays the one the slotted pages are laid out for. *)
Theorem page_size_fixed io log st :
  db_page_size st = DB_PAGESIZE ->
  db_page_size (db_set_page_size io log st).2 = DB_PAGESIZE
  /\ ((db_set_page_size io log st).1 = NO_ERROR
      <-> io = IO_DEFAULT_PAGE_SIZE /\ log = IO_DEFAULT_PAGE_SIZE).
Proof.
  intros Hst. split; [by apply db_set_page_size_user|].
  unfold db_set_page_size. rewrite !find_valid_page_size_const.
  unfold IO_MIN_PAGE_SIZE, IO_DEFAULT_PAGE_SIZE, ONE_K, NO_ERROR, ER_FAILED.
  repeat zcase; cbn; lia.
Qed.

Lemma page_size_fixed_witness :
  db_page_size (db_set_page_size 8192 16384 initial_page_sizes).2 = DB_PAGESIZE
  /\ (db_set_page_size 16384 16384 initial_page_sizes).1 = NO_ERROR.
Proof.
  split.
  - by apply (page_size_fixed 8192 16384 initial_page_sizes).
  - by apply (page_size_fixed 16384 16384 initial_page_sizes).
Defined.

(** ** Object identifiers *)

(** Identifiers of objects that are stored: no field is negative, and each is
    of the width of its field. *)
Definition oid_ok (o : OID) : Prop :=
  0 <= o_pageid o < 2 ^ 31 /\ 0 <= o_slotid o < 2 ^ 15 /\ 0 <= o_volid o < 2 ^ 15.

Lemma int_sub_exact x y : 0 <= x < 2 ^ 31 -> 0 <= y < 2 ^ 31 -> int_sub x y = x - y.
Proof. intros. apply swrap_small; lia. Qed.

(** Oid_compare orders the identifiers of stored objects by volume, then
    page, then slot: its value is the sign of the first difference, and the
    differences it computes do not overflow. *)
Theorem oid_compare_lexicographic a b :
  oid_ok a -> oid_ok b ->
  oid_compare a b =
    if negb (o_volid a =? o_volid b) then Z.sgn (o_volid a - o_volid b)
    else if negb (o_pageid a =? o_pageid b) then Z.sgn (o_pageid a - o_pageid b)
    else Z.sgn (o_slotid a - o_slotid b).
Proof.
  intros (Ha1 & Ha2 & Ha3) (Hb1 & Hb2 & Hb3). unfold oid_compare.
  rewrite !int_sub_exact by lia. repeat zcase; lia.
Qed.

Lemma oid_compare_lexicographic_witness :
  oid_compare (mkOid 2147483647 3 0 0) (mkOid 0 5 0 0) = 1.
Proof.
  rewrite (oid_compare_lexicographic (mkOid 2147483647 3 0 0) (mkOid 0 5 0 0));
    [done|unfold oid_ok; cbn; lia..].
Defined.
