(* ===== verification/SpaceSaving.v ===== *)
(** * Space saved for undo (src/storage/slotted_page.c, the saving table)

    The interface the slotted page module uses, and the pointer structure that
    implements it: a hash table from page identifiers to heads, a doubly linked
    list of entries per head, and a singly linked chain of entries per
    transaction.  Pointers are integers, an object that has been freed is not
    in its map any more, and a dereference of such a pointer gives None. *)
From Stdlib Require Import ZArith Lia ZifyBool.
From stdpp Require Import base list numbers gmap.
From S2P Require Import Prelude StorageCommon.

(** What the code reads of the running thread: the identifier and state of
    its transaction (logtb_find_current_tranid, logtb_is_active,
    logtb_get_current_tdes), whether the server is in restart recovery
    (log_is_in_crash_recovery) and whether the allocations of the call succeed:
    every malloc of spage_save_space, the calloc of a compaction, and the
    allocation of mht_put for the entry of the hash table. *)
Record THREAD_ENTRY := mkThread {
  th_tranid : Z;
  th_active : bool;
  th_crash_recovery : bool;
  th_tdes : bool;
  th_malloc : bool;
  th_calloc : bool;
  th_mht_put : bool }.

(** Volume and page identifier. *)
Definition VPID : Type := Z * Z.

(** ** Interface *)

Class SavedSpaces (S : Type) := {
  (** spage_get_saved_spaces: total saved space of the page, and the part
      saved by other transactions *)
  get_saved_spaces : THREAD_ENTRY -> VPID -> S -> Z * Z;
  (** spage_save_space *)
  save_space : THREAD_ENTRY -> VPID -> Z -> S -> Z * S }.

Class SavedSpacesLaws (S : Type) `{SavedSpaces S} := {
  saved_ok : S -> Prop;
  saved_nonneg th v s :
    saved_ok s -> 0 <= (get_saved_spaces th v s).2 <= (get_saved_spaces th v s).1;
  saved_recovery th v s :
    th_crash_recovery th = true -> get_saved_spaces th v s = (0, 0);
  save_space_ok th v n s : saved_ok s -> saved_ok (save_space th v n s).2;
  save_space_status th v n s :
    saved_ok s -> th_malloc th = true -> (save_space th v n s).1 = NO_ERROR;
  save_space_total th v n s :
    saved_ok s -> th_malloc th = true -> th_mht_put th = true ->
    th_crash_recovery th = false -> th_active th = true -> 0 <= n ->
    (get_saved_spaces th v (save_space th v n s).2).1
    = (get_saved_spaces th v s).1 + n;
  save_space_inactive th v n s :
    th_active th = false -> save_space th v n s = (NO_ERROR, s);
  save_space_nonpos th v n s :
    n <= 0 -> save_space th v n s = (NO_ERROR, s) }.

(** ** Data of the implementation *)

Record SPAGE_SAVE_ENTRY := mkEntry {
  e_tranid : Z;
  e_saved : Z;
  e_next : option Z;
  e_prev : option Z;
  e_tran_next : option Z;
  e_head : Z }.

Record SPAGE_SAVE_HEAD := mkHead {
  h_vpid : VPID;
  h_total : Z;
  h_first : option Z }.

(** The heap objects, the hash table (mht_get and mht_rem as lookup and
    delete, mht_put as an insertion that may find no memory), the field first_save_entry of every transaction
    descriptor and the next address malloc returns. *)
Record SAVING := mkSaving {
  ents : gmap Z SPAGE_SAVE_ENTRY;
  heads : gmap Z SPAGE_SAVE_HEAD;
  spage_Mht_saving : gmap VPID Z;
  first_save_entry : gmap Z Z;
  brk : Z }.

Definition set_ents (s : SAVING) (m : gmap Z SPAGE_SAVE_ENTRY) : SAVING :=
  mkSaving m (heads s) (spage_Mht_saving s) (first_save_entry s) (brk s).
Definition set_heads (s : SAVING) (m : gmap Z SPAGE_SAVE_HEAD) : SAVING :=
  mkSaving (ents s) m (spage_Mht_saving s) (first_save_entry s) (brk s).

Definition e_set_saved (e : SPAGE_SAVE_ENTRY) (n : Z) : SPAGE_SAVE_ENTRY :=
  mkEntry (e_tranid e) n (e_next e) (e_prev e) (e_tran_next e) (e_head e).
Definition e_set_next (e : SPAGE_SAVE_ENTRY) (p : option Z) : SPAGE_SAVE_ENTRY :=
  mkEntry (e_tranid e) (e_saved e) p (e_prev e) (e_tran_next e) (e_head e).
Definition e_set_prev (e : SPAGE_SAVE_ENTRY) (p : option Z) : SPAGE_SAVE_ENTRY :=
  mkEntry (e_tranid e) (e_saved e) (e_next e) p (e_tran_next e) (e_head e).

(** spage_boot on a fresh server. *)
Definition spage_boot : SAVING := mkSaving ∅ ∅ ∅ ∅ 1.

(** ** Operations *)

(** The loop that looks for the entry of a transaction; [n] bounds the number
    of entries. *)
Fixpoint find_tran (n : nat) (m : gmap Z SPAGE_SAVE_ENTRY) (tranid : Z) (entry_p : option Z)
    : option (option Z) :=
  match entry_p with
  | None => Some None
  | Some p =>
      match n with
      | O => None
      | S n =>
          e ← m !! p;
          if tranid =? e_tranid e then Some (Some p)
          else find_tran n m tranid (e_next e)
      end
  end.

Definition spage_get_saved_spaces (th : THREAD_ENTRY) (v : VPID) (s : SAVING)
    : option (Z * Z) :=
  if th_crash_recovery th then Some (0, 0)
  else
    match spage_Mht_saving s !! v with
    | None => Some (0, 0)
    | Some head_p =>
        h ← heads s !! head_p;
        found ← find_tran (size (ents s)) (ents s) (th_tranid th) (h_first h);
        my_saved_space ←
          match found with
          | None => Some 0
          | Some p => e ← ents s !! p; Some (e_saved e)
          end;
        Some (h_total h, h_total h - my_saved_space)
    end.

(** The entry of the current transaction, put in front of its chain. *)
Definition new_entry (th : THREAD_ENTRY) (s : SAVING) (space : Z) (next : option Z)
    (head_p : Z) : SPAGE_SAVE_ENTRY :=
  mkEntry (th_tranid th) space next None
    (if th_tdes th then first_save_entry s !! th_tranid th else None) head_p.

Definition link_tran (th : THREAD_ENTRY) (s : SAVING) (entry_p : Z) : gmap Z Z :=
  if th_tdes th then <[th_tranid th := entry_p]> (first_save_entry s)
  else first_save_entry s.

(** mht_put; without memory for an entry the table stays as it is. *)
Definition mht_put_saving (th : THREAD_ENTRY) (v : VPID) (head_p : Z) (ht : gmap VPID Z) : gmap VPID Z :=
  if th_mht_put th then <[v := head_p]> ht else ht.

(** The part of spage_save_space for a page without a head in the table; the
    status of mht_put is not looked at. *)
Definition save_first (th : THREAD_ENTRY) (v : VPID) (space : Z) (s : SAVING) : SAVING :=
  let head_p := brk s in
  let entry_p := brk s + 1 in
  mkSaving (<[entry_p := new_entry th s space None head_p]> (ents s))
    (<[head_p := mkHead v space (Some entry_p)]> (heads s))
    (mht_put_saving th v head_p (spage_Mht_saving s))
    (link_tran th s entry_p) (brk s + 2).

(** The part for a page whose list has no entry of the transaction. *)
Definition save_push (th : THREAD_ENTRY) (space head_p : Z) (h : SPAGE_SAVE_HEAD) (s : SAVING)
    : option SAVING :=
  let entry_p := brk s in
  m ← match h_first h with
      | None => Some (ents s)
      | Some f => e ← ents s !! f; Some (<[f := e_set_prev e (Some entry_p)]> (ents s))
      end;
  Some (mkSaving (<[entry_p := new_entry th s space (h_first h) head_p]> m)
          (<[head_p := mkHead (h_vpid h) (h_total h + space) (Some entry_p)]> (heads s))
          (spage_Mht_saving s) (link_tran th s entry_p) (brk s + 1)).

(** The part for a page whose list has one. *)
Definition save_add (space head_p p : Z) (h : SPAGE_SAVE_HEAD) (s : SAVING) : option SAVING :=
  e ← ents s !! p;
  Some (mkSaving (<[p := e_set_saved e (e_saved e + space)]> (ents s))
          (<[head_p := mkHead (h_vpid h) (h_total h + space) (h_first h)]> (heads s))
          (spage_Mht_saving s) (first_save_entry s) (brk s)).

Definition spage_save_space (th : THREAD_ENTRY) (v : VPID) (space : Z) (s : SAVING)
    : option (Z * SAVING) :=
  if (space =? 0) || th_crash_recovery th then Some (NO_ERROR, s)
  else if (space <? 0) || negb (th_active th) then Some (NO_ERROR, s)
  else
    match spage_Mht_saving s !! v with
    | None =>
        if negb (th_malloc th) then Some (ER_FAILED, s)
        else Some (NO_ERROR, save_first th v space s)
    | Some head_p =>
        h ← heads s !! head_p;
        found ← find_tran (size (ents s)) (ents s) (th_tranid th) (h_first h);
        match found with
        | Some p => s' ← save_add space head_p p h s; Some (NO_ERROR, s')
        | None =>
            if negb (th_malloc th) then Some (ER_FAILED, s)
            else s' ← save_push th space head_p h s; Some (NO_ERROR, s')
        end
    end.

(** One iteration of the loop of spage_free_saved_spaces: the new state and
    the next entry of the chain. *)
Definition free_entry (s : SAVING) (current : Z) : option (SAVING * option Z) :=
  c ← ents s !! current;
  h ← heads s !! e_head c;
  match e_prev c, e_next c with
  | None, None =>
      Some (mkSaving (delete current (ents s)) (delete (e_head c) (heads s))
              (delete (h_vpid h) (spage_Mht_saving s)) (first_save_entry s) (brk s),
            e_tran_next c)
  | prev, next =>
      let first := match prev with None => next | Some _ => h_first h end in
      m ← match prev with
          | None => Some (ents s)
          | Some q => e ← ents s !! q; Some (<[q := e_set_next e next]> (ents s))
          end;
      m ← match next with
          | None => Some m
          | Some q => e ← m !! q; Some (<[q := e_set_prev e prev]> m)
          end;
      let total :=
        if e_saved c >? 0
        then if h_total h - e_saved c <? 0 then 0 else h_total h - e_saved c
        else h_total h in
      Some (mkSaving (delete current m)
              (<[e_head c := mkHead (h_vpid h) total first]> (heads s))
              (spage_Mht_saving s) (first_save_entry s) (brk s),
            e_tran_next c)
  end.

Fixpoint spage_free_saved_spaces (n : nat) (s : SAVING) (entry : option Z) : option SAVING :=
  match entry with
  | None => Some s
  | Some p =>
      match n with
      | O => None
      | S n => '(s, entry) ← free_entry s p; spage_free_saved_spaces n s entry
      end
  end.

(** The end of a transaction (log_manager.c): its savings are released and
    its descriptor forgets them. *)
Definition log_free_savings (tranid : Z) (s : SAVING) : option SAVING :=
  match first_save_entry s !! tranid with
  | None => Some s
  | Some p =>
      s ← spage_free_saved_spaces (size (ents s)) s (Some p);
      Some (mkSaving (ents s) (heads s) (spage_Mht_saving s)
              (delete tranid (first_save_entry s)) (brk s))
  end.
