(* ===== verification/SpaceSavingInv.v ===== *)
(** * Space saved for undo: the invariant of the pointer structure, the
    abstract state it represents and the simulation of every operation *)
From Stdlib Require Import ZArith Lia ZifyBool.
From stdpp Require Import base list numbers gmap.
From S2P Require Import Prelude StorageCommon SpaceSaving.

(** ** The abstract state: for every page, the space saved per transaction *)

Notation SAVED := (gmap VPID (gmap Z Z)).

Definition saved_on (A : SAVED) (v : VPID) : gmap Z Z := default ∅ (A !! v).

Definition total_of (a : gmap Z Z) : Z := sumZ (map_to_list a).*2.

Definition spec_get (th : THREAD_ENTRY) (v : VPID) (A : SAVED) : Z * Z :=
  if th_crash_recovery th then (0, 0)
  else
    let a := saved_on A v in
    (total_of a, total_of a - default 0 (a !! th_tranid th)).

Definition spec_save (th : THREAD_ENTRY) (v : VPID) (n : Z) (A : SAVED) : SAVED :=
  if (n <=? 0) || th_crash_recovery th || negb (th_active th) then A
  else
    let a := saved_on A v in
    <[v := <[th_tranid th := default 0 (a !! th_tranid th) + n]> a]> A.

(** Only the transactions with a descriptor forget their savings. *)
Definition spec_free (t : Z) (A : SAVED) : SAVED :=
  omap (fun a => let a' := delete t a in if decide (a' = ∅) then None else Some a') A.

(** ** The invariant *)

Notation heap := (gmap Z SPAGE_SAVE_ENTRY).

(** The entries [l] form the list of the head [h]. *)
Fixpoint dll (m : heap) (h : Z) (prev : option Z) (l : list Z) : Prop :=
  match l with
  | [] => True
  | p :: l' =>
      exists e, m !! p = Some e /\ e_prev e = prev /\ e_next e = head l' /\ e_head e = h
        /\ dll m h (Some p) l'
  end.

(** The entries [c] form the chain of transaction [t]. *)
Fixpoint chain (m : heap) (t : Z) (first : option Z) (c : list Z) : Prop :=
  match c with
  | [] => first = None
  | p :: c' =>
      first = Some p /\ exists e, m !! p = Some e /\ e_tranid e = t
        /\ chain m t (e_tran_next e) c'
  end.

Definition tran_of (m : heap) (p : Z) : Z := default 0 (e_tranid <$> m !! p).
Definition saved_of (m : heap) (p : Z) : Z := default 0 (e_saved <$> m !! p).
Definition pair_of (m : heap) (p : Z) : Z * Z := (tran_of m p, saved_of m p).

(** The savings behind the heads: the page of every head and the space saved
    per transaction in its list.  A page may have several heads, because a head
    that mht_put has not entered in the hash table is not found by the next
    saving on the page. *)
Notation BOOKS := (gmap Z (VPID * gmap Z Z)).

(** What the hash table makes of them. *)
Definition visible (ht : gmap VPID Z) (B : BOOKS) : SAVED :=
  omap (fun hp => snd <$> B !! hp) ht.

(** The list of the head [hp] of page [v] represents the map [a]. *)
Record head_rep (s : SAVING) (hp : Z) (v : VPID) (l : list Z) (a : gmap Z Z) : Prop := {
  hr_head : exists h, heads s !! hp = Some h /\ h_vpid h = v /\ h_first h = head l
    /\ dll (ents s) hp None l /\ h_total h = sumZ (saved_of (ents s) <$> l);
  hr_nonempty : l <> [];
  hr_trans : NoDup (tran_of (ents s) <$> l);
  hr_map : forall t n, a !! t = Some n <-> exists p, p ∈ l /\ pair_of (ents s) p = (t, n) }.

Record rep (s : SAVING) (B : BOOKS) (G : gmap Z (list Z)) : Prop := {
  rep_heads : forall hp l, G !! hp = Some l ->
    hp < brk s /\ exists v a, B !! hp = Some (v, a) /\ head_rep s hp v l a;
  rep_none : forall hp, G !! hp = None -> B !! hp = None /\ heads s !! hp = None;
  rep_mht : forall v hp, spage_Mht_saving s !! v = Some hp -> exists a, B !! hp = Some (v, a);
  rep_ents : forall p e, ents s !! p = Some e ->
    p < brk s /\ 0 < e_saved e /\ exists hp l, G !! hp = Some l /\ p ∈ l }.

(** The chains of the transactions other than those in [X]. *)
Definition chains_ok (s : SAVING) (X : gset Z) : Prop :=
  forall t, t ∉ X -> exists c, NoDup c /\ chain (ents s) t (first_save_entry s !! t) c.

(** Every entry is in the chain of its transaction. *)
Definition complete (s : SAVING) : Prop :=
  forall t c, chain (ents s) t (first_save_entry s !! t) c ->
    forall p e, ents s !! p = Some e -> e_tranid e = t -> p ∈ c.

(** The structure is sound: it can be followed to its ends. *)
Definition saving_books (s : SAVING) (B : BOOKS) : Prop := (exists G, rep s B G) /\ chains_ok s ∅.

(** Every head is in the hash table. *)
Definition all_visible (s : SAVING) (B : BOOKS) : Prop :=
  forall hp v a, B !! hp = Some (v, a) -> spage_Mht_saving s !! v = Some hp.

(** The structure represents [A]: it is sound and nothing is hidden. *)
Definition saving_wf (s : SAVING) (A : SAVED) : Prop :=
  exists B, saving_books s B /\ all_visible s B /\ A = visible (spage_Mht_saving s) B.

(** ** Lists and chains depend on the fields they follow *)

Definition links (e : SPAGE_SAVE_ENTRY) : option Z * option Z * Z :=
  (e_prev e, e_next e, e_head e).
Definition tlinks (e : SPAGE_SAVE_ENTRY) : Z * option Z := (e_tranid e, e_tran_next e).

Lemma dll_ext m m' h l : forall prev,
  (forall p, p ∈ l -> links <$> m' !! p = links <$> m !! p) ->
  dll m h prev l -> dll m' h prev l.
Proof.
  induction l as [|p l IH]; intros prev Hm; [done|]. simpl. intros (e & He & H1 & H2 & H3 & H4).
  pose proof (Hm p ltac:(left)) as Hp. rewrite He in Hp.
  destruct (m' !! p) as [e'|] eqn:E; [|done]. simpl in Hp. injection Hp as Hp1 Hp2 Hp3.
  exists e'. split_and!; [done|congruence..|]. apply IH; [|done]. intros q Hq. apply Hm. by right.
Qed.

Lemma chain_ext m m' t c : forall first,
  (forall p, p ∈ c -> tlinks <$> m' !! p = tlinks <$> m !! p) ->
  chain m t first c -> chain m' t first c.
Proof.
  induction c as [|p c IH]; intros first Hm; [done|]. simpl. intros (-> & e & He & H1 & H2).
  pose proof (Hm p ltac:(left)) as Hp. rewrite He in Hp.
  destruct (m' !! p) as [e'|] eqn:E; [|done]. simpl in Hp. injection Hp as Hp1 Hp2.
  split; [done|]. exists e'. rewrite Hp1, Hp2. split_and!; [done|done|].
  apply IH; [|done]. intros q Hq. apply Hm. by right.
Qed.

Lemma chain_det m t c : forall first c',
  chain m t first c -> chain m t first c' -> c = c'.
Proof.
  induction c as [|p c IH]; intros first [|p' c']; simpl; [done|intros -> [? _]; done|intros [-> _]; done|].
  intros (-> & e & He & _ & Hc) ([= <-] & e' & He' & _ & Hc'). simplify_eq. f_equal. eauto.
Qed.

Lemma chain_tran m t c : forall first p,
  chain m t first c -> p ∈ c -> exists e, m !! p = Some e /\ e_tranid e = t.
Proof.
  induction c as [|q c IH]; intros first p; simpl; [by intros _ ?%not_elem_of_nil|].
  intros (_ & e & He & Ht & Hc) [->|Hp]%elem_of_cons; [eauto|]. by eapply IH.
Qed.

Lemma dll_elem m h l : forall prev p,
  dll m h prev l -> p ∈ l -> exists e, m !! p = Some e /\ e_head e = h.
Proof.
  induction l as [|q l IH]; intros prev p; simpl; [by intros _ ?%not_elem_of_nil|].
  intros (e & He & _ & _ & Hh & Hc) [->|Hp]%elem_of_cons; [eauto|]. by eapply IH.
Qed.

(** The pointers around an element of the list. *)
Lemma dll_app m h l2 p l1 : forall prev,
  dll m h prev (l1 ++ p :: l2) ->
  exists e, m !! p = Some e /\ e_head e = h /\ e_next e = head l2
    /\ e_prev e = match last l1 with Some q => Some q | None => prev end.
Proof.
  induction l1 as [|q l1 IH]; intros prev; simpl.
  - intros (e & He & Hp & Hn & Hh & _). exists e. by rewrite Hp.
  - intros (e0 & _ & _ & _ & _ & Hd). destruct (IH _ Hd) as (e & He & Hh & Hn & Hp).
    exists e. split_and!; [done..|]. rewrite Hp. destruct l1 as [|q' l1]; [done|].
    rewrite last_cons_cons. by destruct (last (q' :: l1)) eqn:E; [|apply last_None in E].
Qed.

(** A list of distinct entries is no longer than the heap. *)
Lemma length_le_size (m : heap) (l : list Z) :
  NoDup l -> (forall p, p ∈ l -> is_Some (m !! p)) -> (length l <= size m)%nat.
Proof.
  intros Hn Hin. rewrite <- size_dom. rewrite <- (size_list_to_set (C := gset Z) l) by done.
  apply subseteq_size. intros p. rewrite elem_of_list_to_set, elem_of_dom. apply Hin.
Qed.

Lemma find_tran_spec m h t l : forall n prev,
  dll m h prev l -> (length l <= n)%nat ->
  find_tran n m t (head l) = Some (head (filter (fun p => tran_of m p = t) l)).
Proof.
  induction l as [|p l IH]; intros n prev; [by destruct n|].
  simpl. intros (e & He & _ & Hn & _ & Hd) Hle. destruct n as [|n]; [simpl in Hle; lia|].
  assert (tran_of m p = e_tranid e) as Ht by (unfold tran_of; by rewrite He).
  simpl. rewrite He. simpl. rewrite filter_cons.
  destruct (t =? e_tranid e) eqn:Et.
  - by rewrite decide_True by lia.
  - rewrite decide_False by lia. rewrite Hn. eapply IH; [done|simpl in Hle; lia].
Qed.

Lemma dll_intro m h l : forall prev,
  (forall l1 p l2, l = l1 ++ p :: l2 ->
     exists e, m !! p = Some e /\ e_head e = h /\ e_next e = head l2
       /\ e_prev e = match last l1 with Some q => Some q | None => prev end) ->
  dll m h prev l.
Proof.
  induction l as [|p l IH]; intros prev Hl; [done|].
  destruct (Hl [] p l eq_refl) as (e & He & Hh & Hn & Hp). exists e. split_and!; try done.
  apply IH. intros l1 q l2 ->. destruct (Hl (p :: l1) q l2 eq_refl) as (e' & ? & ? & ? & Hp').
  exists e'. split_and!; [done..|]. rewrite Hp', last_cons. by destruct (last l1).
Qed.

(** ** Facts about one head *)

Section Head.
Context (s : SAVING) (hp : Z) (v : VPID) (l : list Z) (a : gmap Z Z) (R : head_rep s hp v l a).

Lemma head_rep_NoDup : NoDup l.
Proof. eapply NoDup_fmap_1, (hr_trans _ _ _ _ _ R). Qed.

Lemma head_rep_elem p : p ∈ l -> is_Some (ents s !! p).
Proof.
  intros Hp. destruct (hr_head _ _ _ _ _ R) as (h & _ & _ & _ & Hd & _).
  destruct (dll_elem _ _ _ _ _ Hd Hp) as (e & -> & _). by eexists.
Qed.

Lemma head_rep_size : (length l <= size (ents s))%nat.
Proof. apply length_le_size; [apply head_rep_NoDup|apply head_rep_elem]. Qed.

Lemma head_rep_inj p q : p ∈ l -> q ∈ l -> tran_of (ents s) p = tran_of (ents s) q -> p = q.
Proof.
  intros [i Hi]%list_elem_of_lookup [j Hj]%list_elem_of_lookup Ht.
  assert (i = j) as ->; [|congruence].
  eapply NoDup_lookup; [apply (hr_trans _ _ _ _ _ R)|..]; rewrite list_lookup_fmap, ?Hi, ?Hj; simpl;
    [done|by rewrite Ht].
Qed.

Lemma head_rep_find t :
  match head (filter (fun p => tran_of (ents s) p = t) l) with
  | Some p => p ∈ l /\ tran_of (ents s) p = t /\ a !! t = Some (saved_of (ents s) p)
  | None => a !! t = None /\ forall p, p ∈ l -> tran_of (ents s) p <> t
  end.
Proof.
  destruct (head _) as [p|] eqn:E.
  - apply head_Some_elem_of in E. apply list_elem_of_filter in E as [Ht Hp].
    split_and!; [done|done|]. apply (hr_map _ _ _ _ _ R). exists p. by unfold pair_of; rewrite Ht.
  - apply head_None in E.
    assert (forall p, p ∈ l -> tran_of (ents s) p <> t) as Hn.
    { intros p Hp Ht. assert (p ∈ filter (fun p => tran_of (ents s) p = t) l) as Hf
        by (by apply list_elem_of_filter). rewrite E in Hf. by apply not_elem_of_nil in Hf. }
    split; [|done]. destruct (a !! t) as [n|] eqn:Ea; [|done].
    apply (hr_map _ _ _ _ _ R) in Ea as (p & Hp & [= Hpt _]). by destruct (Hn p Hp).
Qed.

Lemma head_rep_total : total_of a = sumZ (saved_of (ents s) <$> l).
Proof.
  assert (a = list_to_map (pair_of (ents s) <$> l)) as ->.
  { apply map_eq. intros t. destruct (a !! t) as [n|] eqn:Ea.
    - apply (hr_map _ _ _ _ _ R) in Ea as (p & Hp & Hpn). symmetry. apply elem_of_list_to_map_1.
      + rewrite <- list_fmap_compose. apply (hr_trans _ _ _ _ _ R).
      + rewrite <- Hpn. by apply list_elem_of_fmap_2.
    - symmetry. apply not_elem_of_list_to_map_1. rewrite <- list_fmap_compose.
      intros (p & Hpt & Hp)%list_elem_of_fmap.
      assert (a !! t = Some (saved_of (ents s) p)) as Ha; [|congruence].
      apply (hr_map _ _ _ _ _ R). exists p. split; [done|]. by rewrite Hpt. }
  unfold total_of. rewrite map_to_list_to_map.
  - by rewrite <- list_fmap_compose.
  - rewrite <- list_fmap_compose. apply (hr_trans _ _ _ _ _ R).
Qed.
End Head.

Lemma head_rep_ext s s' hp v l a :
  head_rep s hp v l a -> heads s' !! hp = heads s !! hp ->
  (forall p, p ∈ l -> ents s' !! p = ents s !! p) -> head_rep s' hp v l a.
Proof.
  intros R Hh He.
  assert (forall p, p ∈ l -> pair_of (ents s') p = pair_of (ents s) p) as Hp.
  { intros p Hp. unfold pair_of, tran_of, saved_of. by rewrite He. }
  destruct R as [(h & H2 & H3 & H4 & H5 & H6) ? Ht Ha]. constructor; [|done| |].
  - exists h. rewrite Hh. split_and!; try done.
    + eapply dll_ext; [|done]. intros p Hq. by rewrite He.
    + rewrite H6. f_equal. apply list_fmap_ext. intros i p Hi.
      assert (pair_of (ents s') p = pair_of (ents s) p) as [= ? ?]
        by (apply Hp; by eapply list_elem_of_lookup_2). done.
  - erewrite list_fmap_ext; [exact Ht|]. intros i p Hi.
    assert (pair_of (ents s') p = pair_of (ents s) p) as [= ? ?]
      by (apply Hp; by eapply list_elem_of_lookup_2). done.
  - intros t n. rewrite Ha. split; intros (p & Hin & Hq); exists p; (split; [done|]);
      by rewrite <- Hq, Hp || rewrite Hp.
Qed.

(** ** Facts about the whole structure *)

Section Rep.
Context (s : SAVING) (B : BOOKS) (G : gmap Z (list Z)) (R : rep s B G).

Lemma rep_elem_lt hp l p : G !! hp = Some l -> p ∈ l -> p < brk s.
Proof.
  intros Hl Hp. destruct (rep_heads _ _ _ R hp l Hl) as (_ & v & a & _ & P).
  destruct (head_rep_elem _ _ _ _ _ P p Hp) as [e He]. by destruct (rep_ents _ _ _ R p e He).
Qed.

(** An entry is in the list of one head. *)
Lemma rep_disjoint hp hp' l l' p :
  G !! hp = Some l -> G !! hp' = Some l' -> p ∈ l -> p ∈ l' -> hp = hp'.
Proof.
  assert (forall hp l, G !! hp = Some l -> p ∈ l -> exists e, ents s !! p = Some e /\ e_head e = hp) as He.
  { intros hp0 l0 Hl Hp. destruct (rep_heads _ _ _ R hp0 l0 Hl) as (_ & v & a & _ & P).
    destruct (hr_head _ _ _ _ _ P) as (h & _ & _ & _ & Hd & _). by apply (dll_elem _ _ _ _ _ Hd). }
  intros Hl Hl' Hp Hp'. destruct (He hp l Hl Hp) as (e & ? & ?).
  destruct (He hp' l' Hl' Hp') as (e' & ? & ?). congruence.
Qed.

(** A head in the books has a list. *)
Lemma rep_books hp v a :
  B !! hp = Some (v, a) -> exists l, G !! hp = Some l /\ hp < brk s /\ head_rep s hp v l a.
Proof.
  intros Hb. destruct (G !! hp) as [l|] eqn:Hl.
  - destruct (rep_heads _ _ _ R hp l Hl) as (Hlt & v' & a' & Hb' & P). simplify_eq. by exists l.
  - destruct (rep_none _ _ _ R hp Hl). congruence.
Qed.

Lemma rep_mht_Some v hp :
  spage_Mht_saving s !! v = Some hp ->
  exists l a h, G !! hp = Some l /\ B !! hp = Some (v, a) /\ head_rep s hp v l a
    /\ heads s !! hp = Some h /\ h_vpid h = v /\ h_first h = head l
    /\ dll (ents s) hp None l /\ h_total h = sumZ (saved_of (ents s) <$> l).
Proof.
  intros Hv. destruct (rep_mht _ _ _ R v hp Hv) as (a & Hb).
  destruct (rep_books hp v a Hb) as (l & Hl & _ & P).
  destruct (hr_head _ _ _ _ _ P) as (h & H2 & H3 & H4 & H5 & H6). by exists l, a, h.
Qed.

Lemma visible_Some v hp a :
  spage_Mht_saving s !! v = Some hp -> B !! hp = Some (v, a) ->
  visible (spage_Mht_saving s) B !! v = Some a.
Proof. intros Hv Hb. unfold visible. rewrite lookup_omap, Hv. simpl. by rewrite Hb. Qed.

Lemma visible_None v :
  spage_Mht_saving s !! v = None -> visible (spage_Mht_saving s) B !! v = None.
Proof. intros Hv. unfold visible. by rewrite lookup_omap, Hv. Qed.

(** A change of the list of one head. *)
Lemma rep_change s' hp v l' a' :
  head_rep s' hp v l' a' -> hp < brk s' -> brk s <= brk s' ->
  (forall hp', hp' <> hp -> heads s' !! hp' = heads s !! hp') ->
  (forall hp' l p, hp' <> hp -> G !! hp' = Some l -> p ∈ l -> ents s' !! p = ents s !! p) ->
  (forall w hp', spage_Mht_saving s' !! w = Some hp' ->
     hp' = hp /\ w = v \/ hp' <> hp /\ spage_Mht_saving s !! w = Some hp') ->
  (forall p e, ents s' !! p = Some e -> p < brk s' /\ 0 < e_saved e
     /\ (p ∈ l' \/ exists hp' l, hp' <> hp /\ G !! hp' = Some l /\ p ∈ l)) ->
  rep s' (<[hp := (v, a')]> B) (<[hp := l']> G).
Proof.
  intros P Hlt Hb Hh He Hm Hes. constructor.
  - intros hp' l. destruct (decide (hp' = hp)) as [->|Hw].
    + rewrite lookup_insert_eq. intros [= <-]. split; [done|]. exists v, a'. by rewrite lookup_insert_eq.
    + rewrite lookup_insert_ne by done. intros Hl.
      destruct (rep_heads _ _ _ R hp' l Hl) as (? & w & a & Ha & Pw). split; [lia|]. exists w, a.
      rewrite lookup_insert_ne by done. split; [done|].
      eapply head_rep_ext; [done|by apply Hh|]. intros p Hp. by eapply He.
  - intros hp'. destruct (decide (hp' = hp)) as [->|Hw]; [by rewrite lookup_insert_eq|].
    rewrite !lookup_insert_ne, Hh by done. apply (rep_none _ _ _ R).
  - intros w hp' [[-> ->]|[Hne Hw]]%Hm; [rewrite lookup_insert_eq; by eexists|].
    rewrite lookup_insert_ne by done. by apply (rep_mht _ _ _ R).
  - intros p e Hpe. destruct (Hes p e Hpe) as (? & ? & [Hp|(w & l & Hw & Hl & Hp)]).
    + split_and!; [done..|]. exists hp, l'. by rewrite lookup_insert_eq.
    + split_and!; [done..|]. exists w, l. by rewrite lookup_insert_ne.
Qed.

(** ** spage_get_saved_spaces *)

Lemma get_saved_spaces_sim th v :
  spage_get_saved_spaces th v s = Some (spec_get th v (visible (spage_Mht_saving s) B)).
Proof.
  unfold spage_get_saved_spaces, spec_get, saved_on. destruct (th_crash_recovery th); [done|].
  destruct (spage_Mht_saving s !! v) as [hp|] eqn:Hv.
  - destruct (rep_mht_Some v hp Hv) as (l & a & h & Hl & Ha & P & Hh & _ & Hf & Hd & Ht).
    rewrite Hh, (visible_Some v hp a) by done. simpl. rewrite Hf.
    rewrite (find_tran_spec _ _ _ _ _ _ Hd (head_rep_size _ _ _ _ _ P)). simpl.
    pose proof (head_rep_find _ _ _ _ _ P (th_tranid th)) as Hfind.
    rewrite (head_rep_total _ _ _ _ _ P), Ht.
    destruct (head (filter _ _)) as [p|].
    + destruct Hfind as (Hp & _ & ->). destruct (head_rep_elem _ _ _ _ _ P p Hp) as [e He].
      assert (saved_of (ents s) p = e_saved e) as -> by (unfold saved_of; by rewrite He).
      by rewrite He.
    + by destruct Hfind as [-> _].
  - by rewrite visible_None.
Qed.
End Rep.
