(* ===== verification/SpaceSavingSim.v ===== *)
(** * Space saved for undo: simulation of the operations that change the
    structure, and the interface of the slotted pages implemented by it *)
From Stdlib Require Import ZArith Lia ZifyBool.
From stdpp Require Import base list numbers gmap.
From S2P Require Import Prelude StorageCommon SpaceSaving SpaceSavingInv.

(** ** Chains after a new entry *)

Lemma chain_dom m t c first p : chain m t first c -> p ∈ c -> is_Some (m !! p).
Proof. intros Hc Hp. destruct (chain_tran _ _ _ _ _ Hc Hp) as (e & -> & _). by eexists. Qed.

(** The chains after an entry [p] has been put in front of the one of the
    current transaction; the other entries keep their fields. *)
Section NewEntry.
Context (th : THREAD_ENTRY) (s s' : SAVING) (p space head_p : Z) (next : option Z).
Context (Hfresh : ents s !! p = None).
Context (Hp : ents s' !! p = Some (new_entry th s space next head_p)).
Context (Hother : forall q, q <> p -> tlinks <$> ents s' !! q = tlinks <$> ents s !! q).
Context (Hfirst : first_save_entry s' = link_tran th s p).

#[local] Lemma ne_chain t c first :
  chain (ents s) t first c -> chain (ents s') t first c.
Proof.
  intros Hc. eapply chain_ext; [|done]. intros q Hq. apply Hother. intros ->.
  destruct (chain_dom _ _ _ _ _ Hc Hq). congruence.
Qed.

Lemma new_entry_chains : chains_ok s ∅ -> chains_ok s' ∅.
Proof.
  intros Hc t _. destruct (Hc t) as (c & Hn & Hch); [set_solver|]. rewrite Hfirst.
  unfold link_tran. destruct (th_tdes th) eqn:Ht; [|exists c; split; [done|by apply ne_chain]].
  destruct (decide (t = th_tranid th)) as [->|Hne].
  - exists (p :: c). rewrite lookup_insert_eq. split.
    + apply NoDup_cons. split; [|done]. intros Hin.
      destruct (chain_dom _ _ _ _ _ Hch Hin). congruence.
    + split; [done|]. eexists. split_and!; [exact Hp|done|]. simpl. rewrite Ht.
      by apply ne_chain.
  - exists c. rewrite lookup_insert_ne by done. split; [done|by apply ne_chain].
Qed.

Lemma new_entry_complete : th_tdes th = true -> chains_ok s ∅ -> complete s -> complete s'.
Proof.
  intros Ht Hc Hcm t c' Hc' q e He Hqt. destruct (Hc t) as (c & _ & Hch); [set_solver|].
  destruct (decide (q = p)) as [->|Hne].
  - rewrite Hp in He. injection He as <-. simpl in Hqt. subst t.
    rewrite Hfirst in Hc'. unfold link_tran in Hc'. rewrite Ht, lookup_insert_eq in Hc'.
    destruct c' as [|r c']; [done|]. destruct Hc' as [[= ->] _]. left.
  - pose proof (Hother q Hne) as Ho. rewrite He in Ho.
    destruct (ents s !! q) as [e0|] eqn:He0; [|done]. simpl in Ho. injection Ho as Ho _.
    assert (q ∈ c) as Hq by (eapply Hcm; [done|done|congruence]).
    rewrite Hfirst in Hc'. unfold link_tran in Hc'. rewrite Ht in Hc'.
    apply ne_chain in Hch. destruct (decide (t = th_tranid th)) as [->|Hnt].
    + rewrite lookup_insert_eq in Hc'. destruct c' as [|r c']; [done|].
      destruct Hc' as ([= ->] & e1 & He1 & _ & Hc'). rewrite Hp in He1. injection He1 as <-.
      simpl in Hc'. rewrite Ht in Hc'. right. by rewrite (chain_det _ _ _ _ _ Hc' Hch).
    + rewrite lookup_insert_ne in Hc' by done. by rewrite (chain_det _ _ _ _ _ Hc' Hch).
Qed.
End NewEntry.

(** ** Entries that keep what they record *)

Definition pay (e : SPAGE_SAVE_ENTRY) : Z * Z * option Z :=
  (e_tranid e, e_saved e, e_tran_next e).

Lemma pay_pair (m m' : gmap Z SPAGE_SAVE_ENTRY) q :
  pay <$> m' !! q = pay <$> m !! q -> pair_of m' q = pair_of m q.
Proof.
  unfold pair_of, tran_of, saved_of. destruct (m' !! q), (m !! q); try done.
  unfold pay. simpl. by intros [= -> -> _].
Qed.

Lemma pay_tlinks (m m' : gmap Z SPAGE_SAVE_ENTRY) q :
  pay <$> m' !! q = pay <$> m !! q -> tlinks <$> m' !! q = tlinks <$> m !! q.
Proof. unfold tlinks. destruct (m' !! q), (m !! q); try done. unfold pay. simpl.
  by intros [= -> _ ->].
Qed.

(** The record of a page after entries have been relinked, with an entry put
    in front or one taken away. *)
Section Relinked.
Context (m m' : gmap Z SPAGE_SAVE_ENTRY) (l : list Z).
Context (Hpay : forall q, q ∈ l -> pay <$> m' !! q = pay <$> m !! q).

Lemma relinked_tran : tran_of m' <$> l = tran_of m <$> l.
Proof.
  apply list_fmap_ext. intros i q Hi. assert (pair_of m' q = pair_of m q) as [= ? ?]; [|done].
  apply pay_pair, Hpay. by eapply list_elem_of_lookup_2.
Qed.

Lemma relinked_saved : saved_of m' <$> l = saved_of m <$> l.
Proof.
  apply list_fmap_ext. intros i q Hi. assert (pair_of m' q = pair_of m q) as [= ? ?]; [|done].
  apply pay_pair, Hpay. by eapply list_elem_of_lookup_2.
Qed.

Lemma relinked_pair q : q ∈ l -> pair_of m' q = pair_of m q.
Proof. intros Hq. by apply pay_pair, Hpay. Qed.
End Relinked.

(** ** What the hash table shows after a change of one head *)

Lemma visible_insert (ht ht' : gmap VPID Z) (B : BOOKS) v hp a :
  ht' !! v = Some hp -> (forall w, w <> v -> ht' !! w = ht !! w /\ ht !! w <> Some hp) ->
  visible ht' (<[hp := (v, a)]> B) = <[v := a]> (visible ht B).
Proof.
  intros Hv Hw. apply map_eq. intros w. unfold visible. destruct (decide (w = v)) as [->|Hne].
  - by rewrite lookup_insert_eq, lookup_omap, Hv; simpl; rewrite lookup_insert_eq.
  - rewrite lookup_insert_ne, !lookup_omap by done. destruct (Hw w Hne) as [-> Hn].
    destruct (ht !! w) as [hp'|]; [|done]. simpl. rewrite lookup_insert_ne; [done|]. congruence.
Qed.

Lemma visible_other (ht : gmap VPID Z) (B : BOOKS) hp b :
  (forall w, ht !! w <> Some hp) -> visible ht (<[hp := b]> B) = visible ht B.
Proof.
  intros Hn. apply map_eq. intros w. unfold visible. rewrite !lookup_omap.
  destruct (ht !! w) as [hp'|] eqn:Hw; [|done]. simpl. rewrite lookup_insert_ne; [done|].
  intros ->. by apply (Hn w).
Qed.

(** ** spage_save_space *)

Section Save.
Context (th : THREAD_ENTRY) (v : VPID) (n : Z) (s : SAVING) (B : BOOKS) (G : gmap Z (list Z)).
Context (R : rep s B G) (Hn : 0 < n).
Notation t := (th_tranid th).

Lemma brk_fresh_ent p : brk s <= p -> ents s !! p = None.
Proof.
  intros Hp. destruct (ents s !! p) as [e|] eqn:He; [|done].
  destruct (rep_ents _ _ _ R p e He). lia.
Qed.

Lemma mht_lt w hp : spage_Mht_saving s !! w = Some hp -> hp < brk s.
Proof.
  intros (a & Hb)%(rep_mht _ _ _ R). by destruct (rep_books _ _ _ R hp w a Hb) as (l & _ & ? & _).
Qed.

Lemma list_lt hp l : G !! hp = Some l -> hp < brk s.
Proof. intros Hl. by destruct (rep_heads _ _ _ R hp l Hl). Qed.

Lemma save_first_rep :
  rep (save_first th v n s) (<[brk s := (v, {[t := n]})]> B) (<[brk s := [brk s + 1]]> G).
Proof.
  apply (rep_change s B G R); simpl; [|lia|lia|..].
  - constructor; simpl.
    + exists (mkHead v n (Some (brk s + 1))). rewrite lookup_insert_eq. split_and!; try done.
      * eexists. rewrite lookup_insert_eq. by split_and!.
      * unfold saved_of. rewrite lookup_insert_eq. simpl. lia.
    + done.
    + apply NoDup_singleton.
    + intros t' k. rewrite lookup_singleton_Some. split.
      * intros [<- <-]. exists (brk s + 1). split; [left|]. unfold pair_of, tran_of, saved_of.
        by rewrite lookup_insert_eq.
      * intros (p & ->%list_elem_of_singleton & [= <- <-]). unfold tran_of, saved_of.
        by rewrite lookup_insert_eq.
  - intros hp' Hw. by rewrite lookup_insert_ne.
  - intros hp' l p Hw Hl Hp. pose proof (rep_elem_lt _ _ _ R hp' l p Hl Hp).
    by rewrite lookup_insert_ne by lia.
  - intros w hp' Hw. unfold mht_put_saving in Hw.
    assert (spage_Mht_saving s !! w = Some hp' -> hp' <> brk s) as Hlt by (intros ?%mht_lt; lia).
    destruct (th_mht_put th); [|by right; split; [apply Hlt|]].
    apply lookup_insert_Some in Hw as [[<- <-]|[_ Hw]]; [by left|by right; split; [apply Hlt|]].
  - intros p e [[<- <-]|[Hne He]]%lookup_insert_Some.
    + simpl. split_and!; [lia|done|]. left. by left.
    + destruct (rep_ents _ _ _ R p e He) as (? & ? & w & l & Hl & Hp).
      split_and!; [lia|done|]. right. exists w, l. split_and!; try done.
      pose proof (list_lt w l Hl). lia.
Qed.

Section HasHead.
Context (hp : Z) (l : list Z) (a : gmap Z Z) (h : SPAGE_SAVE_HEAD).
Context (Hb : B !! hp = Some (v, a)) (Hl : G !! hp = Some l).
Context (P : head_rep s hp v l a) (Hhv : h_vpid h = v).
Context (Hf : h_first h = head l) (Hd : dll (ents s) hp None l).
Context (Ht : h_total h = sumZ (saved_of (ents s) <$> l)).

(** A change that stays within the list of the head. *)
Lemma hh_change s' h' l' a' :
  head_rep s' hp v l' a' -> spage_Mht_saving s' = spage_Mht_saving s ->
  heads s' = <[hp := h']> (heads s) -> brk s <= brk s' ->
  (forall p, p ∉ l -> p < brk s -> ents s' !! p = ents s !! p) ->
  (forall p e, p ∈ l' -> ents s' !! p = Some e -> p < brk s' /\ 0 < e_saved e) ->
  (forall p, p ∈ l \/ brk s <= p -> p ∉ l' -> ents s' !! p = None) ->
  rep s' (<[hp := (v, a')]> B) (<[hp := l']> G).
Proof.
  intros P' Hm Hhs Hbk Hout Hin Hgone. pose proof (list_lt hp l Hl).
  assert (forall hp' lw p, hp' <> hp -> G !! hp' = Some lw -> p ∈ lw -> p ∉ l /\ p < brk s) as Hsep.
  { intros hp' lw p Hw Hlw Hp. split; [|by eapply rep_elem_lt].
    intros Hpl. apply Hw. by eapply (rep_disjoint _ _ _ R). }
  apply (rep_change s B G R); [done|lia|done|..].
  - intros hp' Hw. by rewrite Hhs, lookup_insert_ne.
  - intros hp' lw p Hw Hlw Hp. by destruct (Hsep hp' lw p Hw Hlw Hp); apply Hout.
  - intros w hp' Hw. rewrite Hm in Hw. destruct (decide (hp' = hp)) as [->|]; [left|by right].
    destruct (rep_mht _ _ _ R w hp Hw) as (a0 & Hb0). rewrite Hb in Hb0. by injection Hb0 as <- _.
  - intros p e He. destruct (decide (p ∈ l')) as [Hp|Hp].
    { destruct (Hin p e Hp He). split_and!; auto. }
    destruct (decide (p ∈ l)) as [Hpl|Hpl]; [rewrite Hgone in He by auto; done|].
    destruct (decide (p < brk s)) as [Hpb|]; [|rewrite Hgone in He by (done || right; lia); done].
    rewrite Hout in He by done. destruct (rep_ents _ _ _ R p e He) as (? & ? & w & lw & Hlw & Hp').
    split_and!; [lia|done|]. right. exists w, lw. split_and!; [|done|done]. congruence.
Qed.

(** The head of a saving added to an entry. *)
#[local] Lemma save_add_page p e :
  p ∈ l -> ents s !! p = Some e -> tran_of (ents s) p = t ->
  head_rep
    (mkSaving (<[p := e_set_saved e (e_saved e + n)]> (ents s))
       (<[hp := mkHead (h_vpid h) (h_total h + n) (h_first h)]> (heads s))
       (spage_Mht_saving s) (first_save_entry s) (brk s))
    hp v l (<[t := saved_of (ents s) p + n]> a).
Proof.
  intros Hp He Htp. set (m := <[p := e_set_saved e (e_saved e + n)]> (ents s)).
  assert (saved_of (ents s) p = e_saved e) as Hes by (unfold saved_of; by rewrite He).
  assert (forall q, q <> p -> m !! q = ents s !! q) as Hne
    by (intros q Hq; unfold m; by rewrite lookup_insert_ne).
  assert (m !! p = Some (e_set_saved e (e_saved e + n))) as Hmp by apply lookup_insert_eq.
  assert (forall q, tran_of m q = tran_of (ents s) q) as Htr.
  { intros q. unfold tran_of. destruct (decide (q = p)) as [->|];
      [by rewrite Hmp, He|by rewrite Hne]. }
  assert (forall q, q <> p -> saved_of m q = saved_of (ents s) q) as Hsv
    by (intros q Hq; unfold saved_of; by rewrite Hne).
  assert (saved_of m p = e_saved e + n) as Hsp by (unfold saved_of; by rewrite Hmp).
  constructor; simpl; fold m.
  - eexists. rewrite lookup_insert_eq. split_and!; try done.
    + eapply dll_ext; [|exact Hd]. intros q Hq.
      destruct (decide (q = p)) as [->|]; [by rewrite Hmp, He|by rewrite Hne].
    + simpl. rewrite Ht, (sumZ_fmap_change (saved_of m) (saved_of (ents s)) l p);
        [lia|by eapply head_rep_NoDup|done|]. intros q _. apply Hsv.
  - apply (hr_nonempty _ _ _ _ _ P).
  - erewrite list_fmap_ext; [apply (hr_trans _ _ _ _ _ P)|]. intros. apply Htr.
  - intros t' k. rewrite lookup_insert_Some, (hr_map _ _ _ _ _ P). unfold pair_of. split.
    + intros [[<- <-]|(Hnt & q & Hq & [= <- <-])].
      * exists p. rewrite Htr, Hsp, Htp, Hes. done.
      * exists q. split; [done|]. rewrite Htr, Hsv; [done|]. by intros ->.
    + intros (q & Hq & [= <- <-]). rewrite Htr. destruct (decide (q = p)) as [->|Hqp].
      * left. split; [done|]. rewrite Hsp. lia.
      * right. split; [|exists q; by rewrite Hsv].
        intros Heq. apply Hqp. eapply head_rep_inj; [done|done|done|congruence].
Qed.

(** The head of a saving put in front of the list. *)
#[local] Lemma save_push_page f l0 e :
  l = f :: l0 -> ents s !! f = Some e -> (forall p, p ∈ l -> tran_of (ents s) p <> t) ->
  head_rep
    (mkSaving (<[brk s := new_entry th s n (Some f) hp]>
                 (<[f := e_set_prev e (Some (brk s))]> (ents s)))
       (<[hp := mkHead (h_vpid h) (h_total h + n) (Some (brk s))]> (heads s))
       (spage_Mht_saving s) (link_tran th s (brk s)) (brk s + 1))
    hp v (brk s :: l) (<[t := n]> a).
Proof.
  intros El He Hnt. set (new := new_entry th s n (Some f) hp).
  set (m := <[brk s := new]> _).
  assert (forall q, q ∈ l -> q <> brk s) as Hlt
    by (intros q Hq; pose proof (rep_elem_lt _ _ _ R hp l q Hl Hq); lia).
  assert (m !! brk s = Some new) as Hnew by apply lookup_insert_eq.
  assert (m !! f = Some (e_set_prev e (Some (brk s)))) as Hmf.
  { unfold m. rewrite lookup_insert_ne, lookup_insert_eq; [done|].
    intros Hbf. apply (Hlt f); [rewrite El; left|done]. }
  assert (forall q, q <> brk s -> q <> f -> m !! q = ents s !! q) as Hne
    by (intros q Hq Hqf; unfold m; by rewrite !lookup_insert_ne).
  assert (forall q, q ∈ l -> pay <$> m !! q = pay <$> ents s !! q) as Hpl.
  { intros q Hq. destruct (decide (q = f)) as [->|]; [by rewrite Hmf, He|].
    by rewrite Hne by auto. }
  assert (pair_of m (brk s) = (t, n)) as Hnp
    by (unfold pair_of, tran_of, saved_of; by rewrite Hnew).
  constructor; simpl; fold m.
  - eexists. rewrite lookup_insert_eq. split_and!; try done.
    + exists new. rewrite El. split_and!; try done. simpl.
      pose proof Hd as Hdl. rewrite El in Hdl. destruct Hdl as (e0 & He0 & _ & Hn0 & Hh0 & Hd0).
      rewrite He in He0. injection He0 as <-. eexists. split_and!; [exact Hmf|done..|].
      eapply dll_ext; [|exact Hd0]. intros q Hq.
      pose proof (head_rep_NoDup _ _ _ _ _ P) as Hnd. rewrite El in Hnd.
      apply NoDup_cons in Hnd as [Hnf _].
      rewrite Hne; [done| |by intros ->]. apply Hlt. rewrite El. by right.
    + simpl. injection Hnp as _ ->. rewrite Ht, (relinked_saved (ents s) m) by done. lia.
  - done.
  - rewrite (relinked_tran (ents s) m) by done.
    apply NoDup_cons. split; [|apply (hr_trans _ _ _ _ _ P)]. injection Hnp as -> _.
    intros (q & Hqt & Hq)%list_elem_of_fmap. by apply (Hnt q).
  - intros t' k. rewrite lookup_insert_Some, (hr_map _ _ _ _ _ P). split.
    + intros [[<- <-]|(_ & q & Hq & Hqk)]; [exists (brk s); by split; [left|]|].
      exists q. split; [by right|]. by rewrite (relinked_pair (ents s) m l).
    + intros (q & [->|Hq]%elem_of_cons & Hqk);
        [left; rewrite Hnp in Hqk; by injection Hqk|right].
      rewrite (relinked_pair (ents s) m l) in Hqk by done. split; [|by exists q].
      intros <-. unfold pair_of in Hqk. injection Hqk as Hqk _. by apply (Hnt q).
Qed.

Lemma save_add_rep p :
  p ∈ l -> tran_of (ents s) p = t ->
  exists s', save_add n hp p h s = Some s' /\
    rep s' (<[hp := (v, <[t := saved_of (ents s) p + n]> a)]> B) (<[hp := l]> G)
    /\ spage_Mht_saving s' = spage_Mht_saving s
    /\ (forall q, tlinks <$> ents s' !! q = tlinks <$> ents s !! q)
    /\ first_save_entry s' = first_save_entry s.
Proof.
  intros Hp Htp. destruct (head_rep_elem _ _ _ _ _ P p Hp) as [e He].
  assert (saved_of (ents s) p = e_saved e) as Hes by (unfold saved_of; by rewrite He).
  unfold save_add. rewrite He. simpl. eexists. split; [done|].
  set (m := <[p := e_set_saved e (e_saved e + n)]> (ents s)).
  assert (forall q, q <> p -> m !! q = ents s !! q) as Hne
    by (intros q Hq; unfold m; by rewrite lookup_insert_ne).
  assert (m !! p = Some (e_set_saved e (e_saved e + n))) as Hmp by apply lookup_insert_eq.
  assert (forall q, links <$> m !! q = links <$> ents s !! q
                    /\ tlinks <$> m !! q = tlinks <$> ents s !! q) as Hlk.
  { intros q. destruct (decide (q = p)) as [->|]; [by rewrite Hmp, He|by rewrite Hne]. }
  split_and!; [|done|intros q; apply Hlk|done].
  eapply (hh_change _ (mkHead (h_vpid h) (h_total h + n) (h_first h))); try done; simpl.
  - by apply (save_add_page p e).
  - intros q Hq _. apply Hne. by intros ->.
  - fold m. intros q e' Hq He'. split; [by eapply (rep_elem_lt _ _ _ R)|].
    destruct (decide (q = p)) as [->|].
    + rewrite Hmp in He'. injection He' as <-. simpl.
      destruct (rep_ents _ _ _ R p e He) as (_ & ? & _). lia.
    + rewrite Hne in He' by done. by destruct (rep_ents _ _ _ R q e' He') as (_ & ? & _).
  - fold m. intros q [?|Hq] Hql; [done|]. rewrite Hne by (intros ->; done).
    by apply brk_fresh_ent.
Qed.

Lemma save_push_rep :
  (forall p, p ∈ l -> tran_of (ents s) p <> t) ->
  exists s', save_push th n hp h s = Some s' /\
    rep s' (<[hp := (v, <[t := n]> a)]> B) (<[hp := brk s :: l]> G)
    /\ spage_Mht_saving s' = spage_Mht_saving s
    /\ (exists next, ents s' !! brk s = Some (new_entry th s n next hp))
    /\ (forall q, q <> brk s -> tlinks <$> ents s' !! q = tlinks <$> ents s !! q)
    /\ first_save_entry s' = link_tran th s (brk s).
Proof.
  intros Hnt.
  assert (exists f l0, l = f :: l0) as (f & l0 & El)
    by (pose proof (hr_nonempty _ _ _ _ _ P); destruct l as [|f l0]; [done|by exists f, l0]).
  assert (h_first h = Some f) as Hff by (by rewrite Hf, El).
  destruct (head_rep_elem _ _ _ _ _ P f ltac:(rewrite El; left)) as [e He].
  unfold save_push. rewrite Hff, He. simpl. eexists. split; [done|].
  set (m := <[brk s := _]> _).
  assert (m !! brk s = Some (new_entry th s n (Some f) hp)) as Hnew by apply lookup_insert_eq.
  assert (forall q, q <> brk s -> q <> f -> m !! q = ents s !! q) as Hne
    by (intros q Hq Hqf; unfold m; by rewrite !lookup_insert_ne).
  assert (forall q, q <> brk s -> pay <$> m !! q = pay <$> ents s !! q) as Hpay.
  { intros q Hq. destruct (decide (q = f)) as [->|]; [|by rewrite Hne].
    unfold m. by rewrite lookup_insert_ne, lookup_insert_eq, He. }
  split_and!; [|done|by exists (Some f)|intros q Hq; by apply pay_tlinks, Hpay|done].
  eapply (hh_change _ (mkHead (h_vpid h) (h_total h + n) (Some (brk s)))); try done; simpl; fold m.
  - by eapply save_push_page.
  - lia.
  - intros q Hq Hqb. apply Hne; [lia|]. intros ->. apply Hq. rewrite El. left.
  - intros q e' Hq He'. destruct (decide (q = brk s)) as [->|Hqb].
    { rewrite Hnew in He'. injection He' as <-. simpl. lia. }
    apply elem_of_cons in Hq as [?|Hq]; [done|].
    pose proof (rep_elem_lt _ _ _ R hp l q Hl Hq). split; [lia|].
    pose proof (Hpay q Hqb) as Hpq. rewrite He' in Hpq.
    destruct (ents s !! q) as [e0|] eqn:He0; [|done]. injection Hpq as _ Hs0 _.
    destruct (rep_ents _ _ _ R q e0 He0) as (_ & ? & _). lia.
  - intros q Hq Hql. apply not_elem_of_cons in Hql as [Hqb Hql].
    destruct Hq as [?|Hq]; [done|]. rewrite Hne; [by apply brk_fresh_ent|done|].
    intros ->. apply Hql. rewrite El. left.
Qed.
End HasHead.
End Save.

Lemma chains_tlinks s s' X :
  (forall q, tlinks <$> ents s' !! q = tlinks <$> ents s !! q) ->
  first_save_entry s' = first_save_entry s -> chains_ok s X -> chains_ok s' X.
Proof.
  intros Ht Hf Hc t Ht'. destruct (Hc t Ht') as (c & Hn & Hch). exists c. split; [done|].
  rewrite Hf. eapply chain_ext; [|done]. intros q _. apply Ht.
Qed.

Lemma complete_tlinks s s' :
  (forall q, tlinks <$> ents s' !! q = tlinks <$> ents s !! q) ->
  first_save_entry s' = first_save_entry s -> complete s -> complete s'.
Proof.
  intros Ht Hf Hc t c Hch p e He Het. pose proof (Ht p) as Hp. rewrite He in Hp.
  destruct (ents s !! p) as [e0|] eqn:He0; [|done]. unfold tlinks in Hp. simpl in Hp.
  injection Hp as Hp _. eapply (Hc t c); [|done|congruence]. rewrite <- Hf.
  eapply chain_ext; [|done]. intros q _. by rewrite Ht.
Qed.

(** What a successful call has saved: the space is added to what the hash table
    shows, or the head of the page is new and mht_put has not entered it. *)
Definition saved_in (th : THREAD_ENTRY) (v : VPID) (n : Z) (s s' : SAVING) (B B' : BOOKS) : Prop :=
  let A := visible (spage_Mht_saving s) B in
  (visible (spage_Mht_saving s') B' = spec_save th v n A /\ (all_visible s B -> all_visible s' B'))
  \/ (th_mht_put th = false /\ A !! v = None /\ visible (spage_Mht_saving s') B' = A).

Section Effect.
Context (th : THREAD_ENTRY) (v : VPID) (n : Z) (s : SAVING) (B : BOOKS) (G : gmap Z (list Z)).
Context (R : rep s B G) (Hact : (n <=? 0) || th_crash_recovery th || negb (th_active th) = false).

Lemma saved_in_head s' hp a :
  spage_Mht_saving s !! v = Some hp -> B !! hp = Some (v, a) ->
  spage_Mht_saving s' = spage_Mht_saving s ->
  saved_in th v n s s' B (<[hp := (v, <[th_tranid th := default 0 (a !! th_tranid th) + n]> a)]> B).
Proof.
  intros Hv Hb Hm. left. unfold spec_save, saved_on. rewrite Hact, (visible_Some s B v hp a), Hm by done.
  split.
  - apply visible_insert; [done|]. intros w Hw. split; [done|]. intros Hw'.
    destruct (rep_mht _ _ _ R w hp Hw') as (a0 & Hb0). congruence.
  - intros Hall hp' w a' [[<- [= <- <-]]|[_ Hb']]%lookup_insert_Some; rewrite Hm; [done|by eapply Hall].
Qed.

Lemma saved_in_new :
  spage_Mht_saving s !! v = None ->
  saved_in th v n s (save_first th v n s) B (<[brk s := (v, {[th_tranid th := n]})]> B).
Proof.
  intros Hv. assert (forall w, spage_Mht_saving s !! w <> Some (brk s)) as Hn
    by (intros w Hw%(mht_lt s B G R); lia).
  unfold saved_in, spec_save, saved_on. rewrite Hact, (visible_None s B v Hv). simpl.
  unfold mht_put_saving. destruct (th_mht_put th) eqn:Ep; [left|right].
  - rewrite lookup_empty, insert_empty. simpl. split.
    + apply visible_insert; [apply lookup_insert_eq|]. intros w Hw. by rewrite lookup_insert_ne.
    + intros Hall hp' w a'. simpl. unfold mht_put_saving. rewrite Ep, !lookup_insert_Some.
      intros [[<- [= <- <-]]|[_ Hb']]; [by left|].
      right. split; [|by eapply Hall]. intros <-. specialize (Hall hp' v a' Hb'). congruence.
  - split_and!; [done|done|]. by apply visible_other.
Qed.
End Effect.

(** Saving space: the structure is sound after the call, which has saved the
    space, or nothing has changed and an allocation failed. *)
Lemma save_books th v n s B :
  saving_books s B ->
  exists r s', spage_save_space th v n s = Some (r, s')
    /\ ((r = NO_ERROR /\ (exists B', saving_books s' B' /\ saved_in th v n s s' B B')
         /\ (th_tdes th = true -> complete s -> complete s'))
        \/ (r = ER_FAILED /\ th_malloc th = false /\ s' = s)).
Proof.
  intros [[G R] Hc]. unfold spage_save_space.
  assert ((n <=? 0) || th_crash_recovery th || negb (th_active th) = true ->
    exists r s', Some (NO_ERROR, s) = Some (r, s')
    /\ ((r = NO_ERROR /\ (exists B', saving_books s' B' /\ saved_in th v n s s' B B')
         /\ (th_tdes th = true -> complete s -> complete s'))
        \/ (r = ER_FAILED /\ th_malloc th = false /\ s' = s))) as Hsame.
  { intros Hin. exists NO_ERROR, s. split; [done|]. left. split_and!; try done.
    exists B. split; [split; [by exists G|done]|]. left. unfold spec_save. by rewrite Hin. }
  destruct ((n =? 0) || th_crash_recovery th) eqn:E1; [apply Hsame; lia|].
  destruct ((n <? 0) || negb (th_active th)) eqn:E2; [apply Hsame; lia|].
  clear Hsame. assert ((n <=? 0) || th_crash_recovery th || negb (th_active th) = false) as Hact by lia.
  destruct (spage_Mht_saving s !! v) as [hp|] eqn:Hv.
  - destruct (rep_mht_Some _ _ _ R v hp Hv) as (l & a & h & Hl & Hb & P & Hh & Hhv & Hf & Hd & Ht).
    rewrite Hh. simpl. rewrite Hf.
    rewrite (find_tran_spec _ _ _ _ _ _ Hd (head_rep_size _ _ _ _ _ P)). simpl.
    pose proof (head_rep_find _ _ _ _ _ P (th_tranid th)) as Hfind.
    pose proof (fun s' => saved_in_head th v n s B G R Hact s' hp a Hv Hb) as Hsaved.
    destruct (head (filter _ _)) as [p|].
    + destruct Hfind as (Hp & Hpt & Ha). rewrite Ha in Hsaved.
      destruct (save_add_rep th v n s B G R ltac:(lia) hp l a h Hb Hl P Hhv Hf Hd Ht p Hp Hpt)
        as (s' & -> & R' & Hm & Htl & Hfs).
      exists NO_ERROR, s'. split; [done|]. left. split_and!; [done| |intros _; by eapply complete_tlinks].
      eexists. split; [split; [by eexists|by eapply chains_tlinks]|by apply Hsaved].
    + destruct Hfind as [Ha Hnt]. rewrite Ha in Hsaved. destruct (th_malloc th); [|exists ER_FAILED, s; auto].
      destruct (save_push_rep th v n s B G R ltac:(lia) hp l a h Hb Hl P Hhv Hf Hd Ht Hnt)
        as (s' & -> & R' & Hm & (next & Hnew) & Htl & Hfs).
      pose proof (brk_fresh_ent s B G R (brk s) ltac:(lia)).
      exists NO_ERROR, s'. split; [done|]. left.
      split_and!; [done| |intros ? ?; by eapply new_entry_complete].
      eexists. split; [split; [by eexists|by eapply new_entry_chains]|by apply Hsaved].
  - destruct (th_malloc th); [|exists ER_FAILED, s; auto].
    pose proof (save_first_rep th v n s B G R ltac:(lia)) as R'.
    pose proof (brk_fresh_ent s B G R (brk s + 1) ltac:(lia)).
    assert (forall q, q <> brk s + 1 ->
      tlinks <$> ents (save_first th v n s) !! q = tlinks <$> ents s !! q) as Htl
      by (intros q Hq; simpl; by rewrite lookup_insert_ne).
    assert (ents (save_first th v n s) !! (brk s + 1)
            = Some (new_entry th s n None (brk s))) as Hnew by apply lookup_insert_eq.
    exists NO_ERROR, (save_first th v n s). split; [done|]. left.
    split_and!; [done| |intros ? ?; by eapply new_entry_complete].
    eexists. split; [split; [by eexists|by eapply new_entry_chains]|by eapply saved_in_new].
Qed.

(** Nothing is hidden as long as mht_put finds memory: the structure
    represents the state with the space added.  Otherwise the space is saved
    where no reader finds it. *)
Lemma save_space_sim th v n s A :
  saving_wf s A ->
  exists r s', spage_save_space th v n s = Some (r, s')
    /\ ((r = NO_ERROR /\ saving_wf s' (spec_save th v n A)
         /\ (th_tdes th = true -> complete s -> complete s'))
        \/ (r = ER_FAILED /\ th_malloc th = false /\ s' = s)
        \/ (r = NO_ERROR /\ th_mht_put th = false /\ A !! v = None
            /\ exists B', saving_books s' B' /\ visible (spage_Mht_saving s') B' = A)).
Proof.
  intros (B & W & Hall & ->).
  destruct (save_books th v n s B W) as (r & s' & -> & [(-> & (B' & W' & Hin) & Hc)|Hf]).
  - exists NO_ERROR, s'. split; [done|]. destruct Hin as [(Hv & Hall')|(Hp & Hn & Hv)].
    + left. split_and!; [done| |done]. exists B'. rewrite Hv. auto.
    + right. right. split_and!; [done..|]. by exists B'.
  - exists r, s'. auto.
Qed.
