(* ===== verification/SpaceSavingFree.v ===== *)
(** * Space saved for undo: the release of the savings of a transaction, and
    the interface of the slotted pages implemented by the structure *)
From Stdlib Require Import ZArith Lia ZifyBool.
From stdpp Require Import base list numbers gmap.
From S2P Require Import Prelude StorageCommon SpaceSaving SpaceSavingInv SpaceSavingSim.

(** ** Taking an element out of a doubly linked list *)

Definition relink (l1 l2 : list Z) (q : Z) (e : SPAGE_SAVE_ENTRY) : SPAGE_SAVE_ENTRY :=
  let e := if decide (last l1 = Some q) then e_set_next e (head l2) else e in
  if decide (head l2 = Some q) then e_set_prev e (last l1) else e.

Lemma relink_pay l1 l2 q e : pay (relink l1 l2 q e) = pay e.
Proof. unfold relink. by repeat case_decide. Qed.

Lemma relink_head l1 l2 q e : e_head (relink l1 l2 q e) = e_head e.
Proof. unfold relink. by repeat case_decide. Qed.

Section Unlink.
Context (m m' : gmap Z SPAGE_SAVE_ENTRY) (h p : Z) (l1 l2 : list Z).
Context (Hd : dll m h None (l1 ++ p :: l2)) (Hnd : NoDup (l1 ++ p :: l2)).
Context (Hm : forall q, q <> p -> m' !! q = relink l1 l2 q <$> m !! q).

#[local] Lemma ul_entry k1 q k2 :
  l1 ++ p :: l2 = k1 ++ q :: k2 -> q <> p ->
  exists e, m !! q = Some e /\ e_head e = h /\ e_next e = head k2 /\ e_prev e = last k1
    /\ m' !! q = Some (relink l1 l2 q e).
Proof.
  intros Hl Hq. rewrite Hl in Hd. destruct (dll_app _ _ _ _ _ _ Hd) as (e & He & Hh & Hn & Hp).
  exists e. split_and!; [done..| |by rewrite Hm, He].
  rewrite Hp. by destruct (last k1).
Qed.

#[local] Lemma ul_last q : last l1 = Some q -> q ∈ l1.
Proof. apply last_Some_elem_of. Qed.

#[local] Lemma ul_head q : head l2 = Some q -> q ∈ l2.
Proof. apply head_Some_elem_of. Qed.

#[local] Lemma ul_NoDup :
  NoDup l1 /\ NoDup l2 /\ p ∉ l1 /\ p ∉ l2 /\ (forall q, q ∈ l1 -> q ∉ l2).
Proof.
  apply NoDup_app in Hnd as (H1 & H12 & H2). apply NoDup_cons in H2 as [H2 H3].
  split_and!; [done|done| |done|].
  - intros Hp. apply (H12 p Hp). left.
  - intros q Hq1 Hq2. apply (H12 q Hq1). by right.
Qed.

(** An element after the removed one. *)
#[local] Lemma ul_after k q k2 :
  l2 = k ++ q :: k2 ->
  exists e, m' !! q = Some e /\ e_head e = h /\ e_next e = head k2 /\ e_prev e = last (l1 ++ k).
Proof.
  intros Hl2. destruct ul_NoDup as (_ & N2 & _ & Hp2 & H12).
  assert (q ∈ l2) as Hq by (rewrite Hl2; apply elem_of_app; right; left).
  destruct (ul_entry (l1 ++ p :: k) q k2) as (e & _ & Hh & Hn & Hp & Hm').
  { by rewrite Hl2, <- app_assoc. }
  { by intros ->. }
  exists (relink l1 l2 q e). rewrite relink_head. split_and!; [done|done|..];
    unfold relink; rewrite (decide_False (P := last l1 = Some q)) by (intros ?%ul_last; by apply (H12 q)).
  - by case_decide.
  - destruct k as [|k0 k].
    + rewrite decide_True by (by rewrite Hl2). simpl. by rewrite app_nil_r.
    + rewrite decide_False; [rewrite Hp, !last_app, last_cons; by destruct (last (k0 :: k)) eqn:E; [|apply last_None in E]|].
      rewrite Hl2. simpl. intros [= ->]. rewrite Hl2 in N2.
      apply NoDup_cons in N2 as [N2 _]. apply N2, elem_of_app. right. left.
Qed.

(** An element before it. *)
#[local] Lemma ul_before k1 q k :
  l1 = k1 ++ q :: k ->
  exists e, m' !! q = Some e /\ e_head e = h /\ e_next e = head (k ++ l2) /\ e_prev e = last k1.
Proof.
  intros Hl1. destruct ul_NoDup as (N1 & _ & Hp1 & _ & H12).
  assert (q ∈ l1) as Hq by (rewrite Hl1; apply elem_of_app; right; left).
  destruct (ul_entry k1 q (k ++ p :: l2)) as (e & _ & Hh & Hn & Hp & Hm').
  { by rewrite Hl1, <- app_assoc. }
  { by intros ->. }
  exists (relink l1 l2 q e). rewrite relink_head. split_and!; [done|done|..];
    unfold relink; rewrite (decide_False (P := head l2 = Some q)) by (intros ?%ul_head; by apply (H12 q)).
  - destruct k as [|k0 k].
    + by rewrite decide_True by (by rewrite Hl1, last_snoc).
    + rewrite decide_False; [by rewrite Hn|]. rewrite Hl1, last_app, last_cons_cons.
      destruct (last (k0 :: k)) as [z|] eqn:E; [|by apply last_None in E].
      intros [= ->]. apply last_Some_elem_of in E. rewrite Hl1 in N1.
      apply NoDup_app in N1 as (_ & _ & [N1 _]%NoDup_cons). done.
  - by case_decide.
Qed.

Lemma dll_unlink : dll m' h None (l1 ++ l2).
Proof.
  apply dll_intro. intros k1 q k2 Hk.
  assert (forall o : option Z, match o with Some q => Some q | None => None end = o) as ->
    by (by intros []).
  apply app_eq_inv in Hk as [(k & Hl1 & Hk)|(k & -> & Hl2)]; [|by apply ul_after].
  destruct k as [|k0 k].
  - rewrite app_nil_r in Hl1. destruct (ul_after [] q k2) as (e & He); [by rewrite Hk|].
    exists e. by rewrite app_nil_r, Hl1 in He.
  - injection Hk as <- ->. by apply ul_before.
Qed.
End Unlink.

(** ** One iteration of spage_free_saved_spaces *)

(** The books without the savings of [t] at one head and at all of them; a head
    without savings is gone. *)
Definition free_savings (t : Z) (b : VPID * gmap Z Z) : option (VPID * gmap Z Z) :=
  if decide (delete t b.2 = ∅) then None else Some (b.1, delete t b.2).

Definition free_head (t hp : Z) (B : BOOKS) : BOOKS := partial_alter (fun o => o ≫= free_savings t) hp B.

Definition free_books (t : Z) (B : BOOKS) : BOOKS := omap (free_savings t) B.

(** The hash table after the release at one head: when the head goes, the head
    that the table has for its page goes too. *)
Definition free_mht (t hp : Z) (B : BOOKS) (ht : gmap VPID Z) : gmap VPID Z :=
  match B !! hp with
  | Some b => if decide (free_savings t b = None) then delete b.1 ht else ht
  | None => ht
  end.

Section FreeEntry.
Context (s : SAVING) (B : BOOKS) (G : gmap Z (list Z)) (R : rep s B G).
Context (p : Z) (c : SPAGE_SAVE_ENTRY) (Hc : ents s !! p = Some c).
Context (hp : Z) (v : VPID) (l1 l2 : list Z) (a : gmap Z Z) (h : SPAGE_SAVE_HEAD).
Notation l := (l1 ++ p :: l2).
Notation t := (e_tranid c).
Context (Hl : G !! hp = Some l) (Hb : B !! hp = Some (v, a)) (P : head_rep s hp v l a).
Context (Hh : heads s !! hp = Some h).
Context (Hhv : h_vpid h = v) (Hf : h_first h = head l) (Hd : dll (ents s) hp None l).
Context (Ht : h_total h = sumZ (saved_of (ents s) <$> l)).

#[local] Lemma fe_in : p ∈ l.
Proof. apply elem_of_app. right. left. Qed.

#[local] Lemma fe_pair : pair_of (ents s) p = (t, e_saved c).
Proof. unfold pair_of, tran_of, saved_of. by rewrite Hc. Qed.

#[local] Lemma fe_fields : e_head c = hp /\ e_prev c = last l1 /\ e_next c = head l2.
Proof.
  destruct (dll_app _ _ _ _ _ _ Hd) as (e & He & ? & ? & Hp). simplify_eq.
  split_and!; [done| |done]. rewrite Hp. by destruct (last l1).
Qed.

(** The map of the page without the entry. *)
#[local] Lemma fe_map (m' : gmap Z SPAGE_SAVE_ENTRY) :
  (forall q, q ∈ l1 ++ l2 -> pair_of m' q = pair_of (ents s) q) ->
  forall t' n, delete t a !! t' = Some n <-> exists q, q ∈ l1 ++ l2 /\ pair_of m' q = (t', n).
Proof.
  intros Hm t' n. rewrite lookup_delete_Some, (hr_map _ _ _ _ _ P). split.
  - intros (Hne & q & Hq & Hqn). exists q.
    assert (q ∈ l1 ++ l2) as Hq'.
    { apply elem_of_app in Hq as [Hq|[->|Hq]%elem_of_cons]; apply elem_of_app; [by left| |by right].
      rewrite fe_pair in Hqn. congruence. }
    by rewrite Hm.
  - intros (q & Hq & Hqn). rewrite Hm in Hqn by done.
    assert (q ∈ l) as Hql.
    { apply elem_of_app in Hq as [Hq|Hq]; apply elem_of_app; [by left|right; by right]. }
    split; [|by exists q]. intros <-.
    assert (q = p) as ->.
    { eapply head_rep_inj; [done|done|apply fe_in|]. pose proof fe_pair as Hp.
      unfold pair_of in Hp, Hqn. congruence. }
    pose proof (head_rep_NoDup _ _ _ _ _ P) as (_ & H12 & [H2 _]%NoDup_cons)%NoDup_app.
    apply elem_of_app in Hq as [Hq|Hq]; [|done]. apply (H12 p Hq). left.
Qed.

(** The last entry of a head: the head goes with it. *)
Lemma free_entry_last :
  l1 = [] -> l2 = [] ->
  exists s', free_entry s p = Some (s', e_tran_next c)
    /\ rep s' (free_head t hp B) (delete hp G)
    /\ spage_Mht_saving s' = free_mht t hp B (spage_Mht_saving s)
    /\ ents s' = delete p (ents s) /\ first_save_entry s' = first_save_entry s.
Proof.
  intros E1 E2. destruct fe_fields as (Hch & Hcp & Hcn).
  assert (free_savings t (v, a) = None) as Hemp.
  { unfold free_savings. rewrite decide_True; [done|]. simpl.
    apply map_eq. intros t'. rewrite lookup_empty. destruct (delete t a !! t') eqn:E; [|done].
    apply (fe_map (ents s)) in E as (q & Hq & _); [|done].
    rewrite E1, E2 in Hq. by apply not_elem_of_nil in Hq. }
  unfold free_entry. rewrite Hc. simpl. rewrite Hch, Hh. simpl. rewrite Hcp, Hcn, E1, E2. simpl.
  eexists. split; [done|]. split_and!; [| |done|done]; simpl.
  2: { unfold free_mht. by rewrite Hb, decide_True, Hhv by done. }
  rewrite Hhv. unfold free_head.
  assert (forall hp', partial_alter (fun o => o ≫= free_savings t) hp B !! hp' = delete hp B !! hp') as HB.
  { intros hp'. destruct (decide (hp' = hp)) as [->|Hne].
    - by rewrite lookup_partial_alter_eq, Hb, lookup_delete_eq.
    - by rewrite lookup_partial_alter_ne, lookup_delete_ne by done. }
  constructor; simpl.
  - intros w lw. destruct (decide (w = hp)) as [->|Hw]; [by rewrite lookup_delete_eq|].
    rewrite lookup_delete_ne by done. intros Hlw.
    destruct (rep_heads _ _ _ R w lw Hlw) as (? & vw & aw & Haw & Pw). split; [done|].
    exists vw, aw. rewrite HB, lookup_delete_ne by done. split; [done|].
    eapply head_rep_ext; [done|..]; simpl; [by rewrite lookup_delete_ne|].
    intros q Hq. apply lookup_delete_ne. intros Hpq. apply Hw.
    eapply (rep_disjoint _ _ _ R); [done|done|done|rewrite <- Hpq; apply fe_in].
  - intros w. rewrite HB. destruct (decide (w = hp)) as [->|Hw]; [by rewrite !lookup_delete_eq|].
    rewrite !lookup_delete_ne by done. apply (rep_none _ _ _ R).
  - intros w hp' [Hne Hm]%lookup_delete_Some. destruct (rep_mht _ _ _ R w hp' Hm) as (aw & Hw).
    exists aw. rewrite HB, lookup_delete_ne; [done|]. congruence.
  - intros q e [Hne He]%lookup_delete_Some.
    destruct (rep_ents _ _ _ R q e He) as (? & ? & w & lw & Hlw & Hq). split_and!; [done|done|].
    exists w, lw. split; [|done]. rewrite lookup_delete_ne; [done|]. intros <-.
    rewrite Hl, E1, E2 in Hlw. injection Hlw as <-. by apply list_elem_of_singleton in Hq.
Qed.

(** The other entries: the neighbours of the entry are linked. *)
#[local] Lemma fe_relink :
  exists m2,
    (match last l1 with
     | None => Some (ents s)
     | Some q => e ← ents s !! q; Some (<[q := e_set_next e (head l2)]> (ents s))
     end ≫= fun m => match head l2 with
     | None => Some m
     | Some q => e ← m !! q; Some (<[q := e_set_prev e (last l1)]> m)
     end) = Some m2
    /\ forall q, m2 !! q = relink l1 l2 q <$> ents s !! q.
Proof using P.
  assert (forall q, q ∈ l -> exists e, ents s !! q = Some e) as Hin.
  { intros q Hq. destruct (head_rep_elem _ _ _ _ _ P q Hq) as [e He]. by exists e. }
  assert (forall q, last l1 = Some q -> q ∈ l) as Hla.
  { intros q Hq%last_Some_elem_of. apply elem_of_app. by left. }
  assert (forall q, head l2 = Some q -> q ∈ l) as Hhe.
  { intros q Hq%head_Some_elem_of. apply elem_of_app. right. by right. }
  set (o := match last l1 with Some _ => _ | None => _ end).
  assert (exists m1, o = Some m1 /\ forall q, m1 !! q
    = (fun e => if decide (last l1 = Some q) then e_set_next e (head l2) else e) <$> ents s !! q)
    as (m1 & -> & Hm1).
  { unfold o. destruct (last l1) as [q0|] eqn:E.
    - destruct (Hin q0 (Hla q0 eq_refl)) as [e He]. rewrite He. eexists. split; [done|].
      intros q. destruct (decide (q = q0)) as [->|Hne].
      + by rewrite lookup_insert_eq, He; simpl; rewrite decide_True.
      + rewrite lookup_insert_ne by done. destruct (ents s !! q); [|done]. simpl.
        by rewrite decide_False by congruence.
    - eexists. split; [done|]. intros q. by destruct (ents s !! q). }
  simpl. unfold relink. destruct (head l2) as [q0|] eqn:E.
  - destruct (Hin q0 (Hhe q0 eq_refl)) as [e He]. rewrite Hm1, He. simpl.
    eexists. split; [done|]. intros q. destruct (decide (q = q0)) as [->|Hne].
    + rewrite lookup_insert_eq, He. simpl. by rewrite (decide_True (P := Some q0 = Some q0)).
    + rewrite lookup_insert_ne, Hm1 by done. destruct (ents s !! q); [|done]. simpl.
      by rewrite (decide_False (P := Some q0 = Some q)) by congruence.
  - eexists. split; [done|]. intros q. rewrite Hm1. by destruct (ents s !! q).
Qed.

#[local] Lemma fe_saved q : q ∈ l -> 0 < saved_of (ents s) q.
Proof.
  intros Hq. destruct (head_rep_elem _ _ _ _ _ P q Hq) as [e He].
  unfold saved_of. rewrite He. by destruct (rep_ents _ _ _ R q e He) as (_ & ? & _).
Qed.

#[local] Lemma fe_total :
  (if e_saved c >? 0
   then if h_total h - e_saved c <? 0 then 0 else h_total h - e_saved c
   else h_total h) = sumZ (saved_of (ents s) <$> l1 ++ l2).
Proof.
  pose proof fe_pair as [= _ Hsc]. pose proof (fe_saved p fe_in).
  rewrite Ht, !fmap_app, fmap_cons, !sumZ_app. cbn [sumZ].
  assert (forall k, (forall q, q ∈ k -> q ∈ l) -> 0 <= sumZ (saved_of (ents s) <$> k)) as Hk.
  { intros k Hk. apply sumZ_nonneg, Forall_fmap, Forall_forall. intros q Hq. simpl.
    pose proof (fe_saved q (Hk q Hq)). lia. }
  assert (0 <= sumZ (saved_of (ents s) <$> l1)) by (apply Hk; intros; apply elem_of_app; by left).
  assert (0 <= sumZ (saved_of (ents s) <$> l2))
    by (apply Hk; intros; apply elem_of_app; right; by right).
  zcase; [|lia]. zcase; lia.
Qed.

(** The head after the entry has been unlinked. *)
#[local] Lemma fe_head s' h' m2 :
  l1 ++ l2 <> [] -> (forall q, m2 !! q = relink l1 l2 q <$> ents s !! q) ->
  ents s' = delete p m2 -> heads s' = <[hp := h']> (heads s) -> h_vpid h' = v -> h_first h' = head (l1 ++ l2) ->
  h_total h' = sumZ (saved_of (ents s) <$> l1 ++ l2) ->
  head_rep s' hp v (l1 ++ l2) (delete t a).
Proof.
  intros Hne Hm2 He' Hhs Hv' Hf' Ht'. pose proof (head_rep_NoDup _ _ _ _ _ P) as Hnd.
  assert (forall q, q ∈ l1 ++ l2 -> q <> p) as Hqp.
  { intros q Hq ->. apply NoDup_app in Hnd as (_ & H12 & [H2 _]%NoDup_cons).
    apply elem_of_app in Hq as [Hq|Hq]; [|done]. apply (H12 p Hq). left. }
  assert (forall q, q ∈ l1 ++ l2 -> pay <$> ents s' !! q = pay <$> ents s !! q) as Hpay.
  { intros q Hq. rewrite He', lookup_delete_ne, Hm2 by (intros ->; by apply (Hqp q)).
    destruct (ents s !! q); [|done]. simpl. by rewrite relink_pay. }
  constructor.
  - exists h'. rewrite Hhs, lookup_insert_eq. split_and!; try done.
    + eapply dll_unlink; [exact Hd|done|]. intros q Hq.
      by rewrite He', lookup_delete_ne, Hm2.
    + by rewrite Ht', (relinked_saved (ents s) (ents s')).
  - done.
  - rewrite (relinked_tran (ents s) (ents s')) by done.
    pose proof (hr_trans _ _ _ _ _ P) as Hpt. rewrite fmap_app, fmap_cons in Hpt. rewrite fmap_app.
    apply NoDup_app in Hpt as (? & Hd12 & [? ?]%NoDup_cons). apply NoDup_app.
    split_and!; [done| |done]. intros x Hx Hx'. apply (Hd12 x Hx). by right.
  - apply fe_map. intros q Hq. by apply (relinked_pair (ents s) (ents s') (l1 ++ l2)).
Qed.

Lemma free_entry_other :
  l1 ++ l2 <> [] ->
  exists s', free_entry s p = Some (s', e_tran_next c)
    /\ rep s' (free_head t hp B) (<[hp := l1 ++ l2]> G)
    /\ spage_Mht_saving s' = free_mht t hp B (spage_Mht_saving s)
    /\ ents s' !! p = None
    /\ (forall q, q <> p -> pay <$> ents s' !! q = pay <$> ents s !! q)
    /\ first_save_entry s' = first_save_entry s.
Proof.
  intros Hne. destruct fe_fields as (Hch & Hcp & Hcn). destruct fe_relink as (m2 & Hm & Hm2).
  set (h' := mkHead (h_vpid h) (sumZ (saved_of (ents s) <$> l1 ++ l2)) (head (l1 ++ l2))).
  set (s' := mkSaving (delete p m2) (<[hp := h']> (heads s)) (spage_Mht_saving s)
               (first_save_entry s) (brk s)).
  assert (head_rep s' hp v (l1 ++ l2) (delete t a)) as P' by (by eapply fe_head).
  assert (forall q, q <> p -> pay <$> ents s' !! q = pay <$> ents s !! q) as Hpay.
  { intros q Hq. simpl. rewrite lookup_delete_ne, Hm2 by done.
    destruct (ents s !! q); [|done]. simpl. by rewrite relink_pay. }
  assert (free_savings t (v, a) = Some (v, delete t a)) as Hsome.
  { unfold free_savings. rewrite decide_False; [done|]. simpl. intros Hemp.
    destruct (l1 ++ l2) as [|q k] eqn:E; [done|].
    assert (delete t a !! (pair_of (ents s') q).1 = Some (pair_of (ents s') q).2) as Hq.
    { apply (hr_map _ _ _ _ _ P'). exists q. split; [left|]. by destruct (pair_of _ _). }
    by rewrite Hemp, lookup_empty in Hq. }
  exists s'. split_and!; [| | |apply lookup_delete_eq|done|done].
  - unfold free_entry. rewrite Hc. simpl. rewrite Hch, Hh. simpl. rewrite Hcp, Hcn.
    assert (match last l1 with Some _ => h_first h | None => head l2 end = head (l1 ++ l2)) as Hfst.
    { rewrite Hf. destruct l1 as [|x l1']; [done|].
      by destruct (last (x :: l1')) eqn:E; [|apply last_None in E]. }
    rewrite fe_total.
    destruct (last l1) as [q1|] eqn:E1; [|destruct (head l2) as [q2|] eqn:E2].
    + destruct (ents s !! q1) as [e1|]; [|done]. simpl in Hm |- *. rewrite Hm. simpl. by rewrite Hfst.
    + simpl in Hm |- *. rewrite Hm. simpl. by rewrite Hfst.
    + apply last_None in E1. apply head_None in E2. by rewrite E1, E2 in Hne.
  - assert (free_head t hp B = <[hp := (v, delete t a)]> B) as ->.
    { unfold free_head. apply map_eq. intros hp'. destruct (decide (hp' = hp)) as [->|Hn].
      - by rewrite lookup_partial_alter_eq, Hb, lookup_insert_eq; simpl.
      - by rewrite lookup_partial_alter_ne, lookup_insert_ne by done. }
    eapply (hh_change v s B G R hp l a Hb Hl s' h'); try done; simpl.
    + intros q Hq _. rewrite lookup_delete_ne by (intros <-; by apply Hq, fe_in). rewrite Hm2.
      destruct (ents s !! q) as [e|]; [|done]. simpl. unfold relink.
      rewrite !decide_False; [done| |];
        [intros Hq2%last_Some_elem_of|intros Hq2%head_Some_elem_of]; apply Hq, elem_of_app;
        [by left|right; by right].
    + intros q e Hq He. assert (q <> p) as Hqp by (by intros ->; rewrite lookup_delete_eq in He).
      pose proof (Hpay q Hqp) as Hpq. simpl in Hpq. rewrite He in Hpq.
      destruct (ents s !! q) as [e0|] eqn:He0; [|done]. injection Hpq as _ Hs0 _.
      destruct (rep_ents _ _ _ R q e0 He0) as (? & ? & _). lia.
    + intros q Hq Hnq. destruct (decide (q = p)) as [->|Hqp]; [apply lookup_delete_eq|].
      rewrite lookup_delete_ne, Hm2 by done. destruct Hq as [Hq|Hq].
      * exfalso. apply Hnq, elem_of_app. apply elem_of_app in Hq as [?|[?|?]%elem_of_cons]; auto.
        done.
      * by rewrite (brk_fresh_ent s B G R q Hq).
  - unfold free_mht. by rewrite Hb, Hsome.
Qed.
End FreeEntry.

Lemma free_entry_sim s B G p c :
  rep s B G -> ents s !! p = Some c ->
  exists s' G', free_entry s p = Some (s', e_tran_next c)
    /\ rep s' (free_head (e_tranid c) (e_head c) B) G'
    /\ spage_Mht_saving s' = free_mht (e_tranid c) (e_head c) B (spage_Mht_saving s)
    /\ ents s' !! p = None
    /\ (forall q, q <> p -> pay <$> ents s' !! q = pay <$> ents s !! q)
    /\ first_save_entry s' = first_save_entry s.
Proof.
  intros R Hc. destruct (rep_ents _ _ _ R p c Hc) as (_ & _ & hp & l & Hl & Hp).
  destruct (rep_heads _ _ _ R hp l Hl) as (_ & v & a & Hb & P).
  destruct (hr_head _ _ _ _ _ P) as (h & Hh & Hhv & Hf & Hd & Ht).
  assert (e_head c = hp) as -> by (destruct (dll_elem _ _ _ _ _ Hd Hp) as (? & ? & ?); by simplify_eq).
  apply list_elem_of_split in Hp as (l1 & l2 & ->).
  destruct (decide (l1 ++ l2 = [])) as [He|He].
  - apply app_eq_nil in He as [E1 E2].
    destruct (free_entry_last s B G R p c Hc hp v l1 l2 a h Hl Hb P Hh Hhv Hd E1 E2)
      as (s' & Hs & R' & Hm & Hent & Hfs).
    exists s', (delete hp G). rewrite Hent. split_and!; [done|done|done|..|done].
    + apply lookup_delete_eq.
    + intros q Hq. by rewrite lookup_delete_ne.
  - destruct (free_entry_other s B G R p c Hc hp v l1 l2 a h Hl Hb P Hh Hhv Hf Hd Ht He)
      as (s' & Hs & R' & Hm & Hp & Hpay & Hfs).
    exists s', (<[hp := l1 ++ l2]> G). split_and!; done.
Qed.

(** ** The whole chain of a transaction *)

Lemma free_savings_idem t b : free_savings t b ≫= free_savings t = free_savings t b.
Proof.
  unfold free_savings. case_decide as Hd; [done|]. simpl. by rewrite delete_delete_eq, decide_False.
Qed.

Lemma free_head_idem t hp B : free_books t (free_head t hp B) = free_books t B.
Proof.
  apply map_eq. intros w. unfold free_books, free_head. rewrite !lookup_omap.
  destruct (decide (w = hp)) as [->|Hw]; [|by rewrite lookup_partial_alter_ne].
  rewrite lookup_partial_alter_eq. destruct (B !! hp) as [b|]; [|done]. simpl. apply free_savings_idem.
Qed.

(** Without an entry of the transaction there is nothing to release. *)
Lemma free_books_none s B G t :
  rep s B G -> (forall p e, ents s !! p = Some e -> e_tranid e <> t) -> free_books t B = B.
Proof.
  intros R Hno. apply map_eq. intros hp. unfold free_books. rewrite lookup_omap.
  destruct (B !! hp) as [[v a]|] eqn:Hb; [|done]. simpl.
  destruct (rep_books _ _ _ R hp v a Hb) as (l & Hl & _ & P).
  assert (a !! t = None) as Hat.
  { pose proof (head_rep_find _ _ _ _ _ P t) as Hf. destruct (head (filter _ _)) as [p|]; [|apply Hf].
    destruct Hf as (Hp & Htp & _). destruct (head_rep_elem _ _ _ _ _ P p Hp) as [e He].
    unfold tran_of in Htp. rewrite He in Htp. by destruct (Hno p e He). }
  unfold free_savings. simpl. rewrite delete_id by done. rewrite decide_False; [done|]. intros ->.
  destruct l as [|p l]; [by destruct (hr_nonempty _ _ _ _ _ P)|].
  assert ((∅ : gmap Z Z) !! (pair_of (ents s) p).1 = Some (pair_of (ents s) p).2) as Hp.
  { apply (hr_map _ _ _ _ _ P). exists p. split; [left|]. by destruct (pair_of _ _). }
  by rewrite lookup_empty in Hp.
Qed.

(** *** What the hash table shows *)

Lemma spec_free_visible t ht B : spec_free t (visible ht B) = visible ht (free_books t B).
Proof.
  apply map_eq. intros v. unfold spec_free, visible, free_books. rewrite !lookup_omap.
  destruct (ht !! v) as [hp|]; [|done]. simpl. rewrite lookup_omap.
  destruct (B !! hp) as [[w a]|]; [|done]. simpl. unfold free_savings. simpl. by case_decide.
Qed.

Lemma free_mht_visible t hp s B :
  all_visible s B ->
  visible (free_mht t hp B (spage_Mht_saving s)) (free_books t B)
  = visible (spage_Mht_saving s) (free_books t B).
Proof.
  intros Hall. unfold free_mht. destruct (B !! hp) as [[v a]|] eqn:Hb; [|done].
  case_decide as Hd; [|done]. apply map_eq. intros w. unfold visible, free_books. rewrite !lookup_omap.
  simpl. destruct (decide (w = v)) as [->|Hw]; [|by rewrite lookup_delete_ne].
  rewrite lookup_delete_eq, (Hall hp v a Hb). simpl. by rewrite lookup_omap, Hb; simpl; rewrite Hd.
Qed.

Lemma free_mht_all t hp s s' B :
  all_visible s B -> spage_Mht_saving s' = free_mht t hp B (spage_Mht_saving s) ->
  all_visible s' (free_head t hp B).
Proof.
  intros Hall Hm hp' w a'. rewrite Hm. unfold free_head, free_mht.
  destruct (decide (hp' = hp)) as [->|Hne].
  - rewrite lookup_partial_alter_eq. destruct (B !! hp) as [[v a]|] eqn:Hb; [|done]. simpl.
    intros Hs. rewrite decide_False by congruence. unfold free_savings in Hs.
    case_decide; [done|]. simplify_eq. by eapply Hall.
  - rewrite lookup_partial_alter_ne by done. intros Hb'. pose proof (Hall hp' w a' Hb') as Hw.
    destruct (B !! hp) as [[v a]|] eqn:Hb; [|done]. case_decide; [|done]. simpl.
    rewrite lookup_delete_ne; [done|]. intros ->. specialize (Hall hp w a Hb). congruence.
Qed.

(** [owned s t c]: the entries of [t] are exactly those of its chain [c]. *)
Definition owned (s : SAVING) (t : Z) (c : list Z) : Prop :=
  forall p e, ents s !! p = Some e -> e_tranid e = t -> p ∈ c.

(** What the release of the savings of [t] leaves. *)
Definition released (t : Z) (s s' : SAVING) (B : BOOKS) : Prop :=
  (exists G', rep s' (free_books t B) G')
  /\ (all_visible s B -> all_visible s' (free_books t B)
      /\ visible (spage_Mht_saving s') (free_books t B)
         = visible (spage_Mht_saving s) (free_books t B)).

Lemma free_saved_spaces_sim t c : forall n s B G first,
  rep s B G -> chain (ents s) t first c -> NoDup c -> owned s t c -> (length c <= n)%nat ->
  exists s', spage_free_saved_spaces n s first = Some s'
    /\ released t s s' B
    /\ (forall q, q ∉ c -> tlinks <$> ents s' !! q = tlinks <$> ents s !! q)
    /\ (forall q, q ∈ c -> ents s' !! q = None)
    /\ first_save_entry s' = first_save_entry s.
Proof.
  induction c as [|p c IH]; intros n s B G first R Hc Hn Ho Hlen.
  { simpl in Hc. subst first. exists s. split_and!; [by destruct n| |done| |done].
    - unfold released. rewrite (free_books_none s B G); [by split; [exists G|]|done|].
      intros p e He Ht. by apply (Ho p e He), not_elem_of_nil in Ht.
    - by intros q ?%not_elem_of_nil. }
  destruct Hc as (-> & e & He & Hte & Hc). apply NoDup_cons in Hn as [Hpc Hn].
  destruct n as [|n]; [simpl in Hlen; lia|]. simpl.
  destruct (free_entry_sim s B G p e R He) as (s1 & G1 & -> & R1 & Hm1 & Hp1 & Hpay & Hfs).
  simpl. rewrite Hte in R1, Hm1. set (hp := e_head e) in *.
  assert (forall q, q <> p -> tlinks <$> ents s1 !! q = tlinks <$> ents s !! q) as Htl
    by (intros q Hq; by apply pay_tlinks, Hpay).
  destruct (IH n s1 (free_head t hp B) G1 (e_tran_next e)) as (s' & -> & [[G' R'] Hv'] & Htl' & Hg & Hfs').
  - done.
  - eapply chain_ext; [|done]. intros q Hq. apply Htl. by intros ->.
  - done.
  - intros q e1 He1 Ht1. assert (q <> p) as Hqp by congruence.
    pose proof (Hpay q Hqp) as Hpq. rewrite He1 in Hpq.
    destruct (ents s !! q) as [e0|] eqn:He0; [|done]. injection Hpq as Ht0 _ _.
    pose proof (Ho q e0 He0 ltac:(congruence)) as [?|?]%elem_of_cons; [done|done].
  - simpl in Hlen. lia.
  - exists s'. rewrite free_head_idem in R', Hv'. split_and!; [done| |..|congruence].
    + split; [by exists G'|]. intros Hall. destruct Hv' as [H1 H2]; [by eapply free_mht_all|].
      split; [done|]. rewrite H2, Hm1. by apply free_mht_visible.
    + intros q [Hqp Hqc]%not_elem_of_cons. by rewrite Htl', Htl.
    + intros q [->|Hq]%elem_of_cons; [|by apply Hg].
      pose proof (Htl' p Hpc) as Hp'. rewrite Hp1 in Hp'. by destruct (ents s' !! p).
Qed.

Lemma rep_same s s' B G :
  ents s' = ents s -> heads s' = heads s -> spage_Mht_saving s' = spage_Mht_saving s ->
  brk s' = brk s -> rep s B G -> rep s' B G.
Proof.
  intros He Hh Hm Hb R. constructor; rewrite ?He, ?Hh, ?Hm, ?Hb; try apply R.
  intros hp l Hl. destruct (rep_heads _ _ _ R hp l Hl) as (? & v & a & Ha & P). split; [done|].
  exists v, a. split; [done|]. eapply head_rep_ext; [done|by rewrite Hh|by rewrite He].
Qed.

(** The chains after the entries of the chain [c] of [t] have been freed. *)
Section Chains.
Context (t : Z) (s s1 : SAVING) (c : list Z).
Context (Hc : chains_ok s ∅) (Hcm : complete s) (Hch : chain (ents s) t (first_save_entry s !! t) c).
Context (Htl : forall q, q ∉ c -> tlinks <$> ents s1 !! q = tlinks <$> ents s !! q).
Context (Hg : forall q, q ∈ c -> ents s1 !! q = None) (Hfs : first_save_entry s1 = first_save_entry s).
Notation s' := (mkSaving (ents s1) (heads s1) (spage_Mht_saving s1)
                  (delete t (first_save_entry s1)) (brk s1)).

#[local] Lemma ch_kept t' c' :
  t' <> t -> chain (ents s) t' (first_save_entry s !! t') c' ->
  chain (ents s1) t' (first_save_entry s !! t') c'.
Proof.
  intros Ht' Hc'. eapply chain_ext; [|done]. intros q Hq. apply Htl. intros Hqc.
  destruct (chain_tran _ _ _ _ _ Hc' Hq) as (e & He & <-).
  destruct (chain_tran _ _ _ _ _ Hch Hqc) as (e' & He' & <-). congruence.
Qed.

Lemma freed_chains : chains_ok s' ∅.
Proof.
  intros t' _. simpl. rewrite Hfs. destruct (decide (t' = t)) as [->|Hne].
  - exists []. rewrite lookup_delete_eq. split; [apply NoDup_nil_2|done].
  - destruct (Hc t') as (c' & Hn' & Hch'); [set_solver|]. exists c'.
    rewrite lookup_delete_ne by done. split; [done|by apply ch_kept].
Qed.

Lemma freed_complete : complete s'.
Proof.
  intros t' c' Hch' q e He Ht'. simpl in Hch', He.
  assert (q ∉ c) as Hqc by (intros Hq; rewrite Hg in He by done; done).
  pose proof (Htl q Hqc) as Hq. rewrite He in Hq.
  destruct (ents s !! q) as [e0|] eqn:He0; [|done]. unfold tlinks in Hq. simpl in Hq.
  injection Hq as Hq _.
  assert (t' <> t) as Hne by (intros ->; apply Hqc; eapply Hcm; [exact Hch|done|congruence]).
  destruct (Hc t') as (c0 & _ & Hch0); [set_solver|].
  rewrite Hfs, lookup_delete_ne in Hch' by done.
  rewrite (chain_det _ _ _ _ _ Hch' (ch_kept t' c0 Hne Hch0)). eapply Hcm; [done|done|congruence].
Qed.
End Chains.

(** The end of a transaction: its savings are gone, at every head. *)
Lemma log_free_books t s B :
  saving_books s B -> complete s ->
  exists s', log_free_savings t s = Some s' /\ saving_books s' (free_books t B) /\ complete s'
    /\ released t s s' B.
Proof.
  intros [[G R] Hc] Hcm. destruct (Hc t) as (c & Hn & Hch); [set_solver|].
  assert (owned s t c) as Ho by (intros p e He Ht; by eapply Hcm).
  assert (length c <= size (ents s))%nat as Hlen
    by (apply length_le_size; [done|intros p Hp; by eapply chain_dom]).
  destruct (free_saved_spaces_sim t c (size (ents s)) s B G _ R Hch Hn Ho Hlen)
    as (s1 & Hs1 & [[G1 R1] Hv1] & Htl & Hg & Hfs).
  unfold log_free_savings. destruct (first_save_entry s !! t) as [p|] eqn:Hf.
  2: { destruct c as [|? ?]; [|by destruct Hch]. exists s. split; [done|].
       unfold released. rewrite (free_books_none s B G); [|done|].
       - split_and!; [split; [by exists G|done]|done|by exists G|done].
       - intros p e He Ht. by apply (Ho p e He), not_elem_of_nil in Ht. }
  rewrite Hs1. simpl. eexists. split; [done|]. rewrite <- Hf in Hch.
  assert (rep (mkSaving (ents s1) (heads s1) (spage_Mht_saving s1) (delete t (first_save_entry s1))
                 (brk s1)) (free_books t B) G1) as R' by (by apply (rep_same s1)).
  split_and!; [split; [by exists G1|by eapply freed_chains]|by eapply freed_complete|].
  split; [by exists G1|exact Hv1].
Qed.

(** When nothing is hidden, exactly the savings of the transaction are gone. *)
Lemma log_free_savings_sim t s A :
  saving_wf s A -> complete s ->
  exists s', log_free_savings t s = Some s' /\ saving_wf s' (spec_free t A) /\ complete s'.
Proof.
  intros (B & W & Hall & ->) Hcm.
  destruct (log_free_books t s B W Hcm) as (s' & Hs & W' & Hcm' & _ & Hv).
  destruct (Hv Hall) as [Hall' Hv']. exists s'. split_and!; [done| |done].
  exists (free_books t B). by rewrite spec_free_visible, Hv'.
Qed.

(** ** The structure implements the interface of the slotted pages *)

Lemma total_of_delete (a : gmap Z Z) t x :
  a !! t = Some x -> total_of a = x + total_of (delete t a).
Proof.
  intros Ha. unfold total_of. rewrite <- (map_to_list_delete a t x Ha). done.
Qed.

Lemma total_of_insert (a : gmap Z Z) t n :
  total_of (<[t := default 0 (a !! t) + n]> a) = total_of a + n.
Proof.
  rewrite (total_of_delete (<[t := _]> a) t (default 0 (a !! t) + n)) by apply lookup_insert_eq.
  rewrite delete_insert_eq. destruct (a !! t) as [x|] eqn:Ha; simpl.
  - rewrite (total_of_delete a t x Ha). lia.
  - rewrite delete_id by done. lia.
Qed.

Lemma total_of_nonneg (a : gmap Z Z) : map_Forall (fun _ x => 0 <= x) a -> 0 <= total_of a.
Proof.
  intros Ha. apply sumZ_nonneg, Forall_fmap, Forall_forall.
  intros [t x] Hx%elem_of_map_to_list. by apply (Ha t x).
Qed.

Lemma rep_saved_pos s B G v :
  rep s B G -> map_Forall (fun _ x => 0 < x) (saved_on (visible (spage_Mht_saving s) B) v).
Proof.
  intros R t x. unfold saved_on. destruct (spage_Mht_saving s !! v) as [hp|] eqn:Hv.
  - destruct (rep_mht_Some _ _ _ R v hp Hv) as (l & a & h & Hl & Hb & P & _).
    rewrite (visible_Some s B v hp a) by done. simpl.
    intros (p & Hp & [= _ <-])%(hr_map _ _ _ _ _ P).
    destruct (head_rep_elem _ _ _ _ _ P p Hp) as [e He]. unfold saved_of. rewrite He.
    by destruct (rep_ents _ _ _ R p e He) as (_ & ? & _).
  - rewrite (visible_None s B v Hv). simpl. by rewrite lookup_empty.
Qed.

#[export] Instance saving_spaces : SavedSpaces SAVING := {
  get_saved_spaces th v s := default (0, 0) (spage_get_saved_spaces th v s);
  save_space th v n s := default (NO_ERROR, s) (spage_save_space th v n s) }.

Definition saving_ok (s : SAVING) : Prop := exists B, saving_books s B.

Lemma spec_get_bounds s B G th v :
  rep s B G ->
  let r := spec_get th v (visible (spage_Mht_saving s) B) in 0 <= r.2 <= r.1.
Proof.
  intros R. unfold spec_get. destruct (th_crash_recovery th); [simpl; lia|]. simpl.
  pose proof (rep_saved_pos s B G v R) as Hpos. set (a := saved_on _ v) in *.
  assert (map_Forall (fun _ x => 0 <= x) a) as Hnn
    by (intros t x Hx; pose proof (Hpos t x Hx); simpl in *; lia).
  destruct (a !! th_tranid th) as [x|] eqn:Hx; simpl.
  - pose proof (Hpos _ x Hx). simpl in *. rewrite (total_of_delete _ _ _ Hx).
    assert (0 <= total_of (delete (th_tranid th) a)); [|lia].
    by apply total_of_nonneg, map_Forall_delete.
  - pose proof (total_of_nonneg _ Hnn). lia.
Qed.

#[export] Program Instance saving_spaces_laws : SavedSpacesLaws SAVING := {
  saved_ok := saving_ok }.
Next Obligation.
  intros th v s (B & [[G R] _]). simpl. rewrite (get_saved_spaces_sim s B G R).
  by apply (spec_get_bounds s B G).
Qed.
Next Obligation. intros th v s Hr. simpl. unfold spage_get_saved_spaces. by rewrite Hr. Qed.
Next Obligation.
  intros th v n s (B & W). simpl.
  destruct (save_books th v n s B W) as (r & s' & -> & [(_ & (B' & W' & _) & _)|(_ & _ & ->)]);
    [by eexists|by exists B].
Qed.
Next Obligation.
  intros th v n s (B & W) Hm. simpl.
  destruct (save_books th v n s B W) as (r & s' & -> & [(-> & _)|(_ & ? & _)]);
    [done|congruence].
Qed.
Next Obligation.
  intros th v n s (B & W) Hm Hp Hr Ha Hn. simpl.
  destruct (save_books th v n s B W)
    as (r & s' & -> & [(-> & (B' & W' & [[Hv _]|(? & _)]) & _)|(_ & ? & _)]); [|congruence..]. simpl.
  destruct W as [[G R] _], W' as [[G' R'] _].
  rewrite (get_saved_spaces_sim s B G R), (get_saved_spaces_sim _ _ G' R'), Hv. simpl.
  unfold spec_get, spec_save. rewrite Hr. simpl. rewrite Ha.
  destruct (n <=? 0) eqn:En; simpl; [lia|].
  unfold saved_on at 1. rewrite lookup_insert_eq. apply total_of_insert.
Qed.
Next Obligation.
  intros th v n s Ha. simpl. unfold spage_save_space. zcase; [done|].
  rewrite Ha. by rewrite orb_true_r.
Qed.
Next Obligation.
  intros th v n s Hn. simpl. unfold spage_save_space. zcase; [done|]. zcase; [done|]. lia.
Qed.
