(* ===== verification/SlottedPage.v ===== *)
(** * Slotted pages (src/storage/slotted_page.c): data and operations

    A page is its header and its bytes.  The records grow upward from the end
    of the header and the slot array grows downward from the end of the page;
    a slot is one 32-bit word of three bit fields.  A pointer to a slot is
    represented by its slot identifier, since slot [i] lives at the address
    DB_PAGESIZE - 4 - 4 * i of every page.  The operations follow the release
    build: assert is a no-op and the blocks under !NDEBUG or
    ENABLE_UNUSED_FUNCTION are left out. *)
From Stdlib Require Import ZArith Lia ZifyBool.
From stdpp Require Import base list numbers gmap.
From S2P Require Import Prelude StorageCommon SpaceSaving.

(** ** Constants of slotted_page.h *)

Definition ANCHORED : Z := 1.
Definition UNANCHORED_KEEP_SEQUENCE : Z := 2.
Definition UNANCHORED_KEEP_SEQUENCE_BTREE : Z := 3.

Definition REC_UNKNOWN : Z := 0.
Definition REC_ASSIGN_ADDRESS : Z := 1.
Definition REC_HOME : Z := 2.
Definition REC_NEWHOME : Z := 3.
Definition REC_RELOCATION : Z := 4.
Definition REC_BIGONE : Z := 5.
Definition REC_MARKDELETED : Z := 6.
Definition REC_DELETED_WILL_REUSE : Z := 7.
Definition REC_4BIT_USED_TYPE_MAX : Z := 7.

Definition SP_ERROR : Z := -1.
Definition SP_SUCCESS : Z := 1.
Definition SP_DOESNT_FIT : Z := 3.

Definition S_END : Z := 0.
Definition S_SUCCESS : Z := 1.
Definition S_DOESNT_FIT : Z := 2.
Definition S_DOESNT_EXIST : Z := 3.

Definition PEEK : bool := true.
Definition COPY : bool := false.

Definition NULL_SLOTID : Z := -1.
Definition SPAGE_SEARCH_NEXT : Z := 1.
Definition SPAGE_SEARCH_PREV : Z := -1.
Definition SPAGE_EMPTY_OFFSET : Z := 0.

(** ** Data *)

Record SPAGE_SLOT := mkSlot {
  offset_to_record : Z;
  record_length : Z;
  record_type : Z }.

(** The reserved fields of the header are left out: no operation reads them. *)
Record SPAGE_HEADER := mkHeader {
  num_slots : Z;
  num_records : Z;
  anchor_type : Z;
  alignment : Z;
  total_free : Z;
  cont_free : Z;
  offset_to_free_area : Z;
  is_saving : bool }.

(** sizeof (SPAGE_HEADER) and sizeof (SPAGE_SLOT). *)
Definition SPAGE_HEADER_SIZE : Z := 40.
Definition SPAGE_SLOT_SIZE : Z := 4.
Definition TRANID_SIZE : Z := 4.

(** A fixed page: header, bytes, identifier and dirty mark of its buffer. *)
Record PAGE := mkPage {
  p_hdr : SPAGE_HEADER;
  p_mem : mem;
  p_vpid : VPID;
  p_dirty : bool }.

Definition pgbuf_set_dirty (p : PAGE) : PAGE := mkPage (p_hdr p) (p_mem p) (p_vpid p) true.
Definition set_mem (p : PAGE) (m : mem) : PAGE := mkPage (p_hdr p) m (p_vpid p) (p_dirty p).
Definition set_hdr (p : PAGE) (h : SPAGE_HEADER) : PAGE :=
  mkPage h (p_mem p) (p_vpid p) (p_dirty p).

Definition p_num_slots (p : PAGE) : Z := num_slots (p_hdr p).
Definition p_num_records (p : PAGE) : Z := num_records (p_hdr p).

(** Assignments to the counters of the header. *)
Definition with_counts (h : SPAGE_HEADER) (nslots nrecs : Z) : SPAGE_HEADER :=
  mkHeader nslots nrecs (anchor_type h) (alignment h) (total_free h) (cont_free h)
    (offset_to_free_area h) (is_saving h).
Definition with_free (h : SPAGE_HEADER) (total cont off : Z) : SPAGE_HEADER :=
  mkHeader (num_slots h) (num_records h) (anchor_type h) (alignment h) total cont off
    (is_saving h).
Definition set_counts (p : PAGE) (nslots nrecs : Z) : PAGE :=
  set_hdr p (with_counts (p_hdr p) nslots nrecs).
Definition set_free (p : PAGE) (total cont off : Z) : PAGE :=
  set_hdr p (with_free (p_hdr p) total cont off).

(** ** Slots as bit fields *)

Definition slot_addr (slot_id : Z) : Z := DB_PAGESIZE - SPAGE_SLOT_SIZE - SPAGE_SLOT_SIZE * slot_id.

(** offset_to_record:14, record_length:14, record_type:4, lowest bits first. *)
Definition slot_decode (w : Z) : SPAGE_SLOT :=
  mkSlot (w mod 16384) ((w / 16384) mod 16384) ((w / 268435456) mod 16).

Definition slot_encode (s : SPAGE_SLOT) : Z :=
  uwrap 14 (offset_to_record s) + 16384 * uwrap 14 (record_length s)
  + 268435456 * uwrap 4 (record_type s).

(** *slot_p *)
Definition slot (p : PAGE) (slot_p : Z) : SPAGE_SLOT :=
  slot_decode (load32 (p_mem p) (slot_addr slot_p)).

Definition put_slot (p : PAGE) (slot_p : Z) (s : SPAGE_SLOT) : PAGE :=
  set_mem p (store32 (p_mem p) (slot_addr slot_p) (slot_encode s)).

Definition spage_set_slot (p : PAGE) (slot_p offset length type : Z) : PAGE :=
  put_slot p slot_p (mkSlot offset length type).

Definition slot_set_offset (p : PAGE) (slot_p offset : Z) : PAGE :=
  put_slot p slot_p
    (mkSlot offset (record_length (slot p slot_p)) (record_type (slot p slot_p))).
Definition slot_set_length (p : PAGE) (slot_p length : Z) : PAGE :=
  put_slot p slot_p
    (mkSlot (offset_to_record (slot p slot_p)) length (record_type (slot p slot_p))).
Definition slot_set_type (p : PAGE) (slot_p type : Z) : PAGE :=
  put_slot p slot_p
    (mkSlot (offset_to_record (slot p slot_p)) (record_length (slot p slot_p)) type).

(** The bytes memcpy reads through the data pointer of a descriptor. *)
Definition recdes_bytes (m : mem) (rd : RECDES) (n : Z) : list Z :=
  match data rd with
  | Area bytes => take (Z.to_nat n) bytes
  | InPage off => load_bytes m off (Z.to_nat n)
  end.

Definition set_type (rd : RECDES) (t : Z) : RECDES :=
  mkRecdes (area_size rd) (length_ rd) t (data rd).
Definition set_length (rd : RECDES) (n : Z) : RECDES :=
  mkRecdes (area_size rd) n (type_ rd) (data rd).

(** ** Header checks and sizes *)

(** The conditions of SPAGE_VERIFY_HEADER and spage_verify_header. *)
Definition spage_verify_header (p : PAGE) : bool :=
  let h := p_hdr p in
  negb ((total_free h <? 0) || (cont_free h <? 0) || (cont_free h >? total_free h)
        || (offset_to_free_area h >=? DB_PAGESIZE) || (num_records h <? 0)
        || (num_slots h <? 0) || (num_records h >? num_slots h)).

Definition spage_is_valid_anchor_type (anchor_type : Z) : bool :=
  (anchor_type =? ANCHORED) || (anchor_type =? UNANCHORED_KEEP_SEQUENCE)
  || (anchor_type =? UNANCHORED_KEEP_SEQUENCE_BTREE).

Definition spage_slot_size : Z := SPAGE_SLOT_SIZE.
Definition spage_header_size : Z := SPAGE_HEADER_SIZE.
Definition spage_max_record_size : Z := DB_PAGESIZE - SPAGE_HEADER_SIZE - SPAGE_SLOT_SIZE.
Definition spage_number_of_records (p : PAGE) : Z := num_records (p_hdr p).
Definition spage_number_of_slots (p : PAGE) : Z := num_slots (p_hdr p).

(** ** Finding a slot *)

Definition spage_is_unknown_slot (slot_id : Z) (p : PAGE) : bool :=
  let max_offset := DB_PAGESIZE - p_num_slots p * SPAGE_SLOT_SIZE in
  let s := slot p slot_id in
  (slot_id <? 0) || (slot_id >=? p_num_slots p)
  || (offset_to_record s =? SPAGE_EMPTY_OFFSET)
  || (offset_to_record s <? SPAGE_HEADER_SIZE)
  || (offset_to_record s >? max_offset).

Definition spage_find_slot (p : PAGE) (slot_id : Z) (is_unknown_slot_check : bool)
    : option Z :=
  if is_unknown_slot_check
  then if spage_is_unknown_slot slot_id p then None else Some slot_id
  else Some slot_id.

(** ** Initialisation *)

Definition spage_initialize (p : PAGE) (slot_type align : Z) (saving : bool) : PAGE :=
  let total := DB_ALIGN (DB_PAGESIZE - SPAGE_HEADER_SIZE) align in
  pgbuf_set_dirty
    (set_hdr p (mkHeader 0 0 slot_type align total total
                  (DB_ALIGN SPAGE_HEADER_SIZE align) saving)).

(** ** Compaction *)

(** First loop of spage_compact: the slots that hold a record, in slot order;
    None when a slot has an undefined type. *)
Fixpoint collect_slots (p : PAGE) (i : Z) (n : nat) : option (list Z) :=
  match n with
  | O => Some []
  | S n =>
      if record_type (slot p i) >? REC_4BIT_USED_TYPE_MAX then None
      else
        rest ← collect_slots p (i + 1) n;
        Some (if negb (offset_to_record (slot p i) =? SPAGE_EMPTY_OFFSET)
              then i :: rest else rest)
  end.

Definition spage_compare_slot_offset (p : PAGE) (s1 s2 : Z) : Z :=
  offset_to_record (slot p s1) - offset_to_record (slot p s2).

(** qsort with a comparison function, as an insertion sort. *)
Fixpoint qsort_insert (cmp : Z -> Z -> Z) (x : Z) (l : list Z) : list Z :=
  match l with
  | [] => [x]
  | y :: l' => if cmp x y <=? 0 then x :: l else y :: qsort_insert cmp x l'
  end.

Fixpoint qsort (cmp : Z -> Z -> Z) (l : list Z) : list Z :=
  match l with
  | [] => []
  | x :: l => qsort_insert cmp x (qsort cmp l)
  end.

(** Second loop of spage_compact: moves the records of the sorted slot array
    down; the flag is false when a record would leave the page. *)
Fixpoint compact_records (p : PAGE) (to_offset : Z) (slot_array : list Z)
    : bool * Z * PAGE :=
  match slot_array with
  | [] => (true, to_offset, p)
  | s :: rest =>
      let to_offset := DB_ALIGN to_offset (alignment (p_hdr p)) in
      if to_offset =? offset_to_record (slot p s)
      then compact_records p (to_offset + record_length (slot p s)) rest
      else if to_offset + record_length (slot p s) >? DB_PAGESIZE
      then (false, to_offset, p)
      else
        let len := record_length (slot p s) in
        let p := set_mem p (memmove (p_mem p) to_offset (offset_to_record (slot p s))
                              (Z.to_nat len)) in
        let p := slot_set_offset p s to_offset in
        compact_records p (to_offset + record_length (slot p s)) rest
  end.

(** Last part of spage_compact: the header after the move. *)
Definition compact_header (p : PAGE) (to_offset : Z) : PAGE :=
  let to_offset := DB_ALIGN to_offset (alignment (p_hdr p)) in
  let total := DB_PAGESIZE - to_offset - p_num_slots p * SPAGE_SLOT_SIZE in
  set_free p total total to_offset.

Definition spage_compact (th : THREAD_ENTRY) (p : PAGE) : Z * PAGE :=
  if p_num_records p >? 0 then
    if negb (th_calloc th) then (ER_FAILED, p)
    else
      match collect_slots p 0 (Z.to_nat (p_num_slots p)) with
      | None => (ER_FAILED, p)
      | Some slot_array =>
          if negb (p_num_records p =? Z.of_nat (length slot_array))
          then (ER_FAILED, p)
          else
            let sorted := qsort (spage_compare_slot_offset p) slot_array in
            match compact_records p SPAGE_HEADER_SIZE sorted with
            | (false, _, p) => (ER_FAILED, p)
            | (true, to_offset, p) => (NO_ERROR, compact_header p to_offset)
            end
      end
  else (NO_ERROR, compact_header p SPAGE_HEADER_SIZE).

(** Free space that is added at the end of the used part of the page. *)
Definition spage_add_contiguous_free_space (p : PAGE) (space : Z) : PAGE :=
  let h := p_hdr p in
  set_free p (total_free h + space) (cont_free h + space) (offset_to_free_area h - space).

(** ** Operations that depend on the space saved by transactions *)

Section Operations.
Context {ST : Type} `{SavedSpaces ST}.

Definition spage_get_total_saved_spaces (th : THREAD_ENTRY) (st : ST) (p : PAGE) : Z :=
  if is_saving (p_hdr p) then (get_saved_spaces th (p_vpid p) st).1 else 0.

Definition spage_get_free_space (th : THREAD_ENTRY) (st : ST) (p : PAGE) : Z :=
  let free_space := total_free (p_hdr p) - spage_get_total_saved_spaces th st p in
  if free_space <? 0 then 0 else free_space.

Definition spage_get_free_space_without_saving (p : PAGE) : Z :=
  if total_free (p_hdr p) <? 0 then 0 else total_free (p_hdr p).

Definition spage_max_space_for_new_record (th : THREAD_ENTRY) (st : ST) (p : PAGE) : Z :=
  let h := p_hdr p in
  let total := total_free h - spage_get_total_saved_spaces th st p in
  let total :=
    if negb (anchor_type h =? ANCHORED) && (num_slots h >? num_records h)
    then if total <? 0 then 0 else total
    else
      let total := total - SPAGE_SLOT_SIZE in
      if total <? SPAGE_SLOT_SIZE then 0 else total in
  let total := DB_ALIGN_BELOW total (alignment h) in
  if total <? 0 then 0 else total.

Definition spage_has_enough_total_space (th : THREAD_ENTRY) (st : ST) (p : PAGE)
    (space : Z) : bool :=
  if space <=? 0 then true
  else if is_saving (p_hdr p) then
    let total_saved :=
      if th_active th then spage_get_total_saved_spaces th st p else 0 in
    space <=? total_free (p_hdr p) - total_saved
  else space <=? total_free (p_hdr p).

Definition spage_has_enough_contiguous_space (th : THREAD_ENTRY) (p : PAGE) (space : Z)
    : bool * PAGE :=
  if space <=? cont_free (p_hdr p) then (true, p)
  else let '(r, p) := spage_compact th p in (r =? NO_ERROR, p).

Definition spage_check_space (th : THREAD_ENTRY) (st : ST) (p : PAGE) (space : Z)
    : Z * PAGE :=
  if negb (spage_has_enough_total_space th st p space) then (SP_DOESNT_FIT, p)
  else
    let '(b, p) := spage_has_enough_contiguous_space th p space in
    if negb b then (SP_ERROR, p) else (SP_SUCCESS, p).

(** The loop of spage_find_free_slot. *)
Fixpoint find_free_slot_loop (p : PAGE) (slot_id : Z) (n : nat) : Z :=
  match n with
  | O => slot_id
  | S n =>
      if record_type (slot p slot_id) =? REC_DELETED_WILL_REUSE then slot_id
      else find_free_slot_loop p (slot_id + 1) n
  end.

Definition spage_find_free_slot (p : PAGE) (start_slot : Z) : Z :=
  if p_num_slots p =? p_num_records p then p_num_slots p
  else find_free_slot_loop p start_slot (Z.to_nat (p_num_slots p - start_slot)).

(** The header after an area of [length + waste] bytes has been set apart for
    a record that uses [space] bytes with its slot. *)
Definition take_area (p : PAGE) (space used : Z) : PAGE :=
  let h := p_hdr p in
  set_free (set_counts p (num_slots h) (num_records h + 1))
    (total_free h - space) (cont_free h - space) (offset_to_free_area h + used).

(** Result: status, page and, on success, the slot and the space used. *)
Definition spage_find_empty_slot (th : THREAD_ENTRY) (st : ST) (p : PAGE)
    (rec_length rec_type : Z) : Z * PAGE * option (Z * Z) :=
  let waste := DB_WASTED_ALIGN rec_length (alignment (p_hdr p)) in
  let space := rec_length + waste in
  if negb (spage_has_enough_total_space th st p space) then (SP_DOESNT_FIT, p, None)
  else
    let slot_id := spage_find_free_slot p 0 in
    if slot_id >? p_num_slots p then (SP_ERROR, p, None)
    else
      let '(status, p, space) :=
        if slot_id =? p_num_slots p then
          let space := space + SPAGE_SLOT_SIZE in
          let '(status, p) := spage_check_space th st p space in
          if negb (status =? SP_SUCCESS) then (status, p, space)
          else (SP_SUCCESS, set_counts p (p_num_slots p + 1) (p_num_records p), space)
        else
          let '(b, p) := spage_has_enough_contiguous_space th p space in
          ((if negb b then SP_ERROR else SP_SUCCESS), p, space) in
      if negb (status =? SP_SUCCESS) then (status, p, None)
      else
        let p := spage_set_slot p slot_id (offset_to_free_area (p_hdr p))
                   rec_length rec_type in
        (SP_SUCCESS, take_area p space (rec_length + waste), Some (slot_id, space)).

(** The loop of spage_shift_slot_up: [n] slots, from the one after the last
    down to the one after [slot_p], receive the contents of their predecessor. *)
Fixpoint shift_up_loop (p : PAGE) (last_slot_p : Z) (n : nat) : PAGE :=
  match n with
  | O => p
  | S n => shift_up_loop (put_slot p last_slot_p (slot p (last_slot_p - 1)))
             (last_slot_p - 1) n
  end.

Definition spage_shift_slot_up (p : PAGE) (slot_p : Z) : PAGE :=
  let p := shift_up_loop p (p_num_slots p) (Z.to_nat (p_num_slots p - slot_p)) in
  spage_set_slot p slot_p SPAGE_EMPTY_OFFSET 0 REC_UNKNOWN.

Fixpoint shift_down_loop (p : PAGE) (slot_p : Z) (n : nat) : PAGE :=
  match n with
  | O => p
  | S n => shift_down_loop (put_slot p slot_p (slot p (slot_p + 1))) (slot_p + 1) n
  end.

Definition spage_shift_slot_down (p : PAGE) (slot_p : Z) : PAGE :=
  let last_slot_p := p_num_slots p - 1 in
  let p := shift_down_loop p slot_p (Z.to_nat (last_slot_p - slot_p)) in
  spage_set_slot p last_slot_p SPAGE_EMPTY_OFFSET 0 REC_UNKNOWN.

Definition spage_add_new_slot (th : THREAD_ENTRY) (st : ST) (p : PAGE) (space : Z)
    : Z * PAGE * Z :=
  let space := space + SPAGE_SLOT_SIZE in
  let '(status, p) := spage_check_space th st p space in
  if negb (status =? SP_SUCCESS) then (status, p, space)
  else
    let p := set_counts p (p_num_slots p + 1) (p_num_records p) in
    (SP_SUCCESS,
     spage_set_slot p (p_num_slots p - 1) SPAGE_EMPTY_OFFSET 0 REC_UNKNOWN, space).

Definition spage_take_slot_in_use (th : THREAD_ENTRY) (st : ST) (p : PAGE)
    (slot_p space : Z) : Z * PAGE * Z :=
  if record_type (slot p slot_p) =? REC_DELETED_WILL_REUSE then
    let '(status, p) := spage_check_space th st p space in (status, p, space)
  else if anchor_type (p_hdr p) =? ANCHORED then (SP_ERROR, p, space)
  else
    let space := space + SPAGE_SLOT_SIZE in
    let '(status, p) := spage_check_space th st p space in
    if negb (status =? SP_SUCCESS) then (status, p, space)
    else
      let p := spage_shift_slot_up p slot_p in
      (SP_SUCCESS, set_counts p (p_num_slots p + 1) (p_num_records p), space).

Definition spage_find_empty_slot_at (th : THREAD_ENTRY) (st : ST) (p : PAGE)
    (slot_id rec_length rec_type : Z) : Z * PAGE :=
  let waste := DB_WASTED_ALIGN rec_length (alignment (p_hdr p)) in
  let space := rec_length + waste in
  if slot_id >? p_num_slots p then (SP_ERROR, p)
  else
    let '(status, p, space) :=
      if slot_id =? p_num_slots p then spage_add_new_slot th st p space
      else spage_take_slot_in_use th st p slot_id space in
    if negb (status =? SP_SUCCESS) then (status, p)
    else
      let p := spage_set_slot p slot_id (offset_to_free_area (p_hdr p))
                 rec_length rec_type in
      (SP_SUCCESS, take_area p space (rec_length + waste)).

Definition spage_check_record_for_insert (rd : RECDES) : Z * RECDES :=
  if length_ rd >? spage_max_record_size then (SP_DOESNT_FIT, rd)
  else if (type_ rd =? REC_MARKDELETED) || (type_ rd =? REC_DELETED_WILL_REUSE)
  then (SP_SUCCESS, set_type rd REC_HOME)
  else (SP_SUCCESS, rd).

(** Result: status, page, descriptor, slot identifier. *)
Definition spage_find_slot_for_insert (th : THREAD_ENTRY) (st : ST) (p : PAGE)
    (rd : RECDES) : Z * PAGE * RECDES * Z :=
  let '(status, rd) := spage_check_record_for_insert rd in
  if negb (status =? SP_SUCCESS) then (status, p, rd, NULL_SLOTID)
  else
    let '(status, p, out) := spage_find_empty_slot th st p (length_ rd) (type_ rd) in
    match out with
    | Some (slot_id, _) => (status, p, rd, slot_id)
    | None => (status, p, rd, NULL_SLOTID)
    end.

Definition spage_insert_data (th : THREAD_ENTRY) (p : PAGE) (rd : RECDES) (slot_p : Z)
    : Z * PAGE :=
  if length_ rd <? 0 then (SP_ERROR, p)
  else
    let off := offset_to_record (slot p slot_p) in
    if negb (type_ rd =? REC_ASSIGN_ADDRESS) then
      if off + length_ rd >? DB_PAGESIZE then (SP_ERROR, p)
      else
        (SP_SUCCESS,
         pgbuf_set_dirty
           (set_mem p (store_bytes (p_mem p) off (recdes_bytes (p_mem p) rd (length_ rd)))))
    else if off + TRANID_SIZE >? DB_PAGESIZE then (SP_ERROR, p)
    else (SP_SUCCESS, pgbuf_set_dirty (set_mem p (store32 (p_mem p) off (th_tranid th)))).

Definition spage_insert (th : THREAD_ENTRY) (st : ST) (p : PAGE) (rd : RECDES)
    : Z * PAGE * RECDES * Z :=
  let '(status, p, rd, slot_id) := spage_find_slot_for_insert th st p rd in
  if status =? SP_SUCCESS then
    let '(status, p) := spage_insert_data th p rd slot_id in (status, p, rd, slot_id)
  else (status, p, rd, slot_id).

Definition spage_insert_at (th : THREAD_ENTRY) (st : ST) (p : PAGE) (slot_id : Z)
    (rd : RECDES) : Z * PAGE * RECDES :=
  if length_ rd <? 0 then (SP_ERROR, p, rd)
  else
    let '(status, rd) := spage_check_record_for_insert rd in
    if negb (status =? SP_SUCCESS) then (status, p, rd)
    else if slot_id >? p_num_slots p then (SP_ERROR, p, rd)
    else
      let '(status, p) :=
        spage_find_empty_slot_at th st p slot_id (length_ rd) (type_ rd) in
      if status =? SP_SUCCESS then
        let '(status, p) := spage_insert_data th p rd slot_id in (status, p, rd)
      else (status, p, rd).

Definition spage_insert_for_recovery (th : THREAD_ENTRY) (st : ST) (p : PAGE)
    (slot_id : Z) (rd : RECDES) : Z * PAGE * RECDES :=
  if length_ rd <? 0 then (SP_ERROR, p, rd)
  else if negb (anchor_type (p_hdr p) =? ANCHORED) then spage_insert_at th st p slot_id rd
  else
    let '(status, rd) := spage_check_record_for_insert rd in
    if negb (status =? SP_SUCCESS) then (status, p, rd)
    else
      let p := if slot_id <? p_num_slots p
               then slot_set_type p slot_id REC_DELETED_WILL_REUSE else p in
      let '(status, p) :=
        spage_find_empty_slot_at th st p slot_id (length_ rd) (type_ rd) in
      if status =? SP_SUCCESS then
        let off := offset_to_record (slot p slot_id) in
        if negb (type_ rd =? REC_ASSIGN_ADDRESS) then
          if off + length_ rd >? DB_PAGESIZE then (SP_ERROR, p, rd)
          else
            (status,
             pgbuf_set_dirty
               (set_mem p (store_bytes (p_mem p) off
                             (recdes_bytes (p_mem p) rd (length_ rd)))), rd)
        else (status, pgbuf_set_dirty p, rd)
      else (status, p, rd).

(** ** Deletion *)

Definition spage_is_record_located_at_end (p : PAGE) (slot_p : Z) : bool :=
  let s := slot p slot_p in
  let waste := DB_WASTED_ALIGN (record_length s) (alignment (p_hdr p)) in
  offset_to_record s + record_length s + waste =? offset_to_free_area (p_hdr p).

Definition spage_reduce_a_slot (p : PAGE) : PAGE :=
  let p := spage_set_slot p (p_num_slots p - 1) SPAGE_EMPTY_OFFSET 0 REC_UNKNOWN in
  let p := set_counts p (p_num_slots p - 1) (p_num_records p) in
  let h := p_hdr p in
  set_free p (total_free h + SPAGE_SLOT_SIZE) (cont_free h + SPAGE_SLOT_SIZE)
    (offset_to_free_area h).

(** The body of spage_delete up to the switch on the anchor type. *)
Definition delete_free_space (p : PAGE) (slot_p : Z) : PAGE * Z :=
  let p := set_counts p (p_num_slots p) (p_num_records p - 1) in
  let s := slot p slot_p in
  let waste := DB_WASTED_ALIGN (record_length s) (alignment (p_hdr p)) in
  let free_space := record_length s + waste in
  let h := p_hdr p in
  let p := set_free p (total_free h + free_space) (cont_free h) (offset_to_free_area h) in
  let p :=
    if spage_is_record_located_at_end p slot_p then
      let h := p_hdr p in
      set_free p (total_free h) (cont_free h + free_space)
        (offset_to_free_area h - free_space)
    else p in
  (p, free_space).

Definition spage_delete (th : THREAD_ENTRY) (st : ST) (p : PAGE) (slot_id : Z)
    : Z * PAGE * ST :=
  match spage_find_slot p slot_id true with
  | None => (NULL_SLOTID, p, st)
  | Some slot_p =>
      let '(p, free_space) := delete_free_space p slot_p in
      let anchor := anchor_type (p_hdr p) in
      if negb (spage_is_valid_anchor_type anchor) then (NULL_SLOTID, p, st)
      else
        let '(p, free_space) :=
          if anchor =? ANCHORED then
            (slot_set_type (slot_set_offset p slot_p SPAGE_EMPTY_OFFSET) slot_p
               REC_MARKDELETED, free_space)
          else
            (spage_reduce_a_slot (spage_shift_slot_down p slot_p),
             free_space + SPAGE_SLOT_SIZE) in
        let '(r, st) :=
          if is_saving (p_hdr p) then save_space th (p_vpid p) free_space st
          else (NO_ERROR, st) in
        if negb (r =? NO_ERROR) then (NULL_SLOTID, p, st)
        else (slot_id, pgbuf_set_dirty p, st)
  end.

Definition spage_delete_for_recovery (th : THREAD_ENTRY) (st : ST) (p : PAGE)
    (slot_id : Z) : Z * PAGE * ST :=
  let '(r, p, st) := spage_delete th st p slot_id in
  if negb (r =? slot_id) then (NULL_SLOTID, p, st) else (slot_id, p, st).

(** ** Update *)

(** Result: status and, on success, slot, space, old waste and new waste. *)
Definition spage_check_updatable (th : THREAD_ENTRY) (st : ST) (p : PAGE) (slot_id : Z)
    (rd : RECDES) : Z * option (Z * Z * Z * Z) :=
  if length_ rd <? 0 then (SP_ERROR, None)
  else if length_ rd >? spage_max_record_size then (SP_DOESNT_FIT, None)
  else
    match spage_find_slot p slot_id true with
    | None => (SP_ERROR, None)
    | Some slot_p =>
        let len := record_length (slot p slot_p) in
        let old_waste := DB_WASTED_ALIGN len (alignment (p_hdr p)) in
        let new_waste := DB_WASTED_ALIGN (length_ rd) (alignment (p_hdr p)) in
        let space := length_ rd + new_waste - len - old_waste in
        if negb (spage_has_enough_total_space th st p space) then (SP_DOESNT_FIT, None)
        else (SP_SUCCESS, Some (slot_p, space, old_waste, new_waste))
    end.

Definition spage_is_updatable (th : THREAD_ENTRY) (st : ST) (p : PAGE) (slot_id : Z)
    (rd : RECDES) : bool :=
  (spage_check_updatable th st p slot_id rd).1 =? SP_SUCCESS.

Definition spage_update_record_in_place (p : PAGE) (slot_p : Z) (rd : RECDES) (space : Z)
    : Z * PAGE :=
  if length_ rd <? 0 then (SP_ERROR, p)
  else
    let is_located_end := spage_is_record_located_at_end p slot_p in
    let p := slot_set_length p slot_p (length_ rd) in
    let off := offset_to_record (slot p slot_p) in
    if off + length_ rd >? DB_PAGESIZE then (SP_ERROR, p)
    else
      let p := set_mem p (store_bytes (p_mem p) off
                            (recdes_bytes (p_mem p) rd (length_ rd))) in
      let h := p_hdr p in
      let p := set_free p (total_free h - space) (cont_free h) (offset_to_free_area h) in
      let h := p_hdr p in
      (SP_SUCCESS,
       if is_located_end
       then set_free p (total_free h) (cont_free h - space) (offset_to_free_area h + space)
       else p).

(** The three cases of spage_update_record_after_compact that make room for
    the new image: status, page and the space to account for. *)
Definition update_make_room (th : THREAD_ENTRY) (p : PAGE) (slot_p : Z) (rd : RECDES)
    (space old_waste new_waste : Z) : Z * PAGE * Z :=
  let h := p_hdr p in
  let len := record_length (slot p slot_p) in
  if spage_is_record_located_at_end p slot_p && (space <=? cont_free h) then
    (SP_SUCCESS, spage_add_contiguous_free_space p (old_waste + len),
     length_ rd + new_waste)
  else if length_ rd + new_waste >? cont_free h then
    let old_offset := offset_to_record (slot p slot_p) in
    let p := slot_set_offset p slot_p SPAGE_EMPTY_OFFSET in
    let p := set_free p (total_free h + (old_waste + len)) (cont_free h)
               (offset_to_free_area h) in
    let p := set_counts p (p_num_slots p) (p_num_records p - 1) in
    let '(r, p) := spage_compact th p in
    if negb (r =? NO_ERROR) then
      let p := slot_set_offset p slot_p old_offset in
      let h := p_hdr p in
      let p := set_free p (total_free h - (old_waste + record_length (slot p slot_p)))
                 (cont_free h) (offset_to_free_area h) in
      (SP_ERROR, set_counts p (p_num_slots p) (p_num_records p + 1), space)
    else
      (SP_SUCCESS, set_counts p (p_num_slots p) (p_num_records p + 1),
       length_ rd + new_waste)
  else (SP_SUCCESS, p, space).

Definition spage_update_record_after_compact (th : THREAD_ENTRY) (p : PAGE) (slot_p : Z)
    (rd : RECDES) (space old_waste new_waste : Z) : Z * PAGE :=
  if length_ rd <? 0 then (SP_ERROR, p)
  else
    let '(status, p, space) := update_make_room th p slot_p rd space old_waste new_waste in
    if negb (status =? SP_SUCCESS) then (status, p)
    else
      let off := offset_to_free_area (p_hdr p) in
      let p := spage_set_slot p slot_p off (length_ rd) (record_type (slot p slot_p)) in
      if off + length_ rd >? DB_PAGESIZE then (SP_ERROR, p)
      else
        let p := set_mem p (store_bytes (p_mem p) off
                              (recdes_bytes (p_mem p) rd (length_ rd))) in
        let h := p_hdr p in
        (SP_SUCCESS,
         set_free p (total_free h - space) (cont_free h - (length_ rd + new_waste))
           (off + (length_ rd + new_waste))).

Definition spage_update (th : THREAD_ENTRY) (st : ST) (p : PAGE) (slot_id : Z)
    (rd : RECDES) : Z * PAGE * ST :=
  if length_ rd <? 0 then (SP_ERROR, p, st)
  else
    let total_free_save := total_free (p_hdr p) in
    match spage_check_updatable th st p slot_id rd with
    | (_, Some (slot_p, space, old_waste, new_waste)) =>
        let '(status, p) :=
          if length_ rd <=? record_length (slot p slot_p)
          then spage_update_record_in_place p slot_p rd space
          else spage_update_record_after_compact th p slot_p rd space old_waste new_waste in
        if negb (status =? SP_SUCCESS) then (status, p, st)
        else
          let '(r, st) :=
            if is_saving (p_hdr p)
            then save_space th (p_vpid p) (total_free (p_hdr p) - total_free_save) st
            else (NO_ERROR, st) in
          if negb (r =? NO_ERROR) then (SP_ERROR, p, st)
          else (SP_SUCCESS, pgbuf_set_dirty p, st)
    | (status, None) => (status, p, st)
    end.

Definition spage_update_record_type (p : PAGE) (slot_id rec_type : Z) : PAGE :=
  match spage_find_slot p slot_id true with
  | None => p
  | Some slot_p => pgbuf_set_dirty (slot_set_type p slot_p rec_type)
  end.

End Operations.

(** ** Reading records *)

Definition spage_get_record_data (p : PAGE) (slot_p : Z) (rd : RECDES) (is_peeking : bool)
    : Z * RECDES :=
  let s := slot p slot_p in
  if is_peeking then
    (S_SUCCESS, mkRecdes (-1) (record_length s) (record_type s) (InPage (offset_to_record s)))
  else if (area_size rd <? 0) || (area_size rd <? record_length s) then
    (S_DOESNT_FIT, set_length rd (record_length s * -1))
  else if offset_to_record s + record_length s >? DB_PAGESIZE then (SP_ERROR, rd)
  else
    let n := Z.to_nat (record_length s) in
    let bytes := load_bytes (p_mem p) (offset_to_record s) n in
    let area := match data rd with Area old => drop n old | InPage _ => [] end in
    (S_SUCCESS, mkRecdes (area_size rd) (record_length s) (record_type s)
                  (Area (bytes ++ area))).

Definition spage_get_record (p : PAGE) (slot_id : Z) (rd : RECDES) (is_peeking : bool)
    : Z * RECDES :=
  match spage_find_slot p slot_id true with
  | None => (S_DOESNT_EXIST, set_length rd 0)
  | Some sptr => spage_get_record_data p sptr rd is_peeking
  end.

(** The loop of spage_search_record; a slot identifier leaves the range after
    at most num_slots steps. *)
Fixpoint search_loop (p : PAGE) (slot_id direction : Z) (n : nat) : Z :=
  match n with
  | O => slot_id
  | S n =>
      if (slot_id >=? 0) && (slot_id <? p_num_slots p)
         && (offset_to_record (slot p slot_id) =? SPAGE_EMPTY_OFFSET)
      then search_loop p (slot_id + direction) direction n
      else slot_id
  end.

(** Result: scan code, slot identifier, descriptor. *)
Definition spage_search_record (p : PAGE) (slot_id : Z) (rd : RECDES) (is_peeking : bool)
    (direction : Z) : Z * Z * RECDES :=
  let slot_id :=
    if (slot_id <? 0) || (slot_id >? p_num_slots p)
    then if direction =? SPAGE_SEARCH_NEXT then 0 else p_num_slots p - 1
    else slot_id + direction in
  let slot_id := search_loop p slot_id direction (Z.to_nat (p_num_slots p)) in
  if (slot_id >=? 0) && (slot_id <? p_num_slots p)
  then let '(code, rd) := spage_get_record_data p slot_id rd is_peeking in
       (code, slot_id, rd)
  else (S_END, -1, set_length rd 0).

Definition spage_next_record (p : PAGE) (slot_id : Z) (rd : RECDES) (is_peeking : bool)
    : Z * Z * RECDES :=
  spage_search_record p slot_id rd is_peeking SPAGE_SEARCH_NEXT.

Definition spage_previous_record (p : PAGE) (slot_id : Z) (rd : RECDES) (is_peeking : bool)
    : Z * Z * RECDES :=
  spage_search_record p slot_id rd is_peeking SPAGE_SEARCH_PREV.

Definition spage_get_record_length (p : PAGE) (slot_id : Z) : Z :=
  match spage_find_slot p slot_id true with
  | None => -1
  | Some slot_p => record_length (slot p slot_p)
  end.

Definition spage_get_space_for_record (p : PAGE) (slot_id : Z) : Z :=
  match spage_find_slot p slot_id true with
  | None => -1
  | Some slot_p =>
      record_length (slot p slot_p)
      + DB_WASTED_ALIGN (record_length (slot p slot_p)) (alignment (p_hdr p))
      + spage_slot_size
  end.

Definition spage_get_record_type (p : PAGE) (slot_id : Z) : Z :=
  match spage_find_slot p slot_id true with
  | None => REC_UNKNOWN
  | Some slot_p =>
      let t := record_type (slot p slot_p) in
      if (t =? REC_MARKDELETED) || (t =? REC_DELETED_WILL_REUSE) then REC_UNKNOWN else t
  end.

Definition spage_check_slot_owner (th : THREAD_ENTRY) (p : PAGE) (slot_id : Z) : bool :=
  match spage_find_slot p slot_id false with
  | None => false
  | Some slot_p =>
      swrap 32 (load32 (p_mem p) (offset_to_record (slot p slot_p))) =? th_tranid th
  end.

(** The loop of spage_collect_statistics, over [n] slots from [i] down; the
    slot with identifier 0 is not visited. *)
Fixpoint statistics_loop (p : PAGE) (i : Z) (n : nat) (pages records len : Z)
    : Z * Z * Z :=
  match n with
  | O => (pages, records, len)
  | S n =>
      let s := slot p i in
      if offset_to_record s =? SPAGE_EMPTY_OFFSET
      then statistics_loop p (i - 1) n pages records len
      else
        let '(pages, len) :=
          if record_type s =? REC_BIGONE then (pages + 2, len + DB_PAGESIZE * 2)
          else (pages, len) in
        let records := if negb (record_type s =? REC_NEWHOME) then records + 1 else records in
        let len :=
          if (record_type s =? REC_HOME) || (record_type s =? REC_NEWHOME)
          then len + record_length s else len in
        statistics_loop p (i - 1) n pages records len
  end.

Definition spage_collect_statistics (p : PAGE) : Z * Z * Z :=
  let last_slot_id := p_num_slots p - 1 in
  statistics_loop p last_slot_id (Z.to_nat last_slot_id) 1 0 0.

(** ** Consistency checks *)

Fixpoint count_records (p : PAGE) (i : Z) (n : nat) : Z :=
  match n with
  | O => 0
  | S n =>
      (if negb (offset_to_record (slot p i) =? SPAGE_EMPTY_OFFSET) then 1 else 0)
      + count_records p (i + 1) n
  end.

Definition spage_check_num_slots (p : PAGE) : bool :=
  p_num_records p =? count_records p 0 (Z.to_nat (p_num_slots p)).

(** The loop of spage_check: length used by the records and their number. *)
Fixpoint check_loop (p : PAGE) (i : Z) (n : nat) : Z * Z :=
  match n with
  | O => (0, 0)
  | S n =>
      let '(used, nrecs) := check_loop p (i + 1) n in
      match spage_find_slot p i true with
      | Some slot_p =>
          (used + DB_ALIGN (record_length (slot p slot_p)) (alignment (p_hdr p)), nrecs + 1)
      | None => (used, nrecs)
      end
  end.

(** Result of spage_check, and whether its assertion on the number of records
    holds. *)
Definition spage_check {ST} `{SavedSpaces ST} (th : THREAD_ENTRY) (st : ST) (p : PAGE)
    : Z * bool :=
  let h := p_hdr p in
  let '(used, nrecs) := check_loop p 0 (Z.to_nat (num_slots h)) in
  let used_length := SPAGE_HEADER_SIZE + SPAGE_SLOT_SIZE * num_slots h + used in
  let ret := NO_ERROR in
  let ret := if used_length + total_free h >? DB_PAGESIZE then ER_FAILED else ret in
  let ret :=
    if cont_free h + offset_to_free_area h + SPAGE_SLOT_SIZE * num_slots h >? DB_PAGESIZE
    then ER_FAILED else ret in
  let ret := if cont_free h <=? - (alignment h - 1) then ER_FAILED else ret in
  let ret :=
    if is_saving h then
      let '(total_saved, other_saved_spaces) := get_saved_spaces th (p_vpid p) st in
      let ret := if other_saved_spaces <? 0 then ER_FAILED else ret in
      if total_saved <? 0 then ER_FAILED else ret
    else ret in
  (ret, num_records h =? nrecs).
