(* ===== verification/SlottedPageInv.v ===== *)
(** * Slotted pages: the slot array, the abstract view and the page invariant *)
From Stdlib Require Import ZArith Lia ZifyBool Sorting.Sorted.
From stdpp Require Import base list numbers gmap sorting.
From S2P Require Import Prelude StorageCommon SpaceSaving SlottedPage.

(** ** Reading and writing one slot *)

Definition slot_fits (s : SPAGE_SLOT) : Prop :=
  0 <= offset_to_record s < 16384 /\ 0 <= record_length s < 16384
  /\ 0 <= record_type s < 16.

Lemma slot_decode_fits w : slot_fits (slot_decode w).
Proof.
  unfold slot_fits, slot_decode; simpl.
  pose proof (Z.mod_pos_bound w 16384); pose proof (Z.mod_pos_bound (w / 16384) 16384);
  pose proof (Z.mod_pos_bound (w / 268435456) 16); lia.
Qed.

Lemma slot_slot_fits p i : slot_fits (slot p i).
Proof. apply slot_decode_fits. Qed.

Lemma slot_decode_encode s : slot_fits s -> slot_decode (slot_encode s mod 2 ^ 32) = s.
Proof.
  destruct s as [o n t]; unfold slot_fits, slot_decode, slot_encode, uwrap; cbn [offset_to_record record_length record_type].
  intros (Ho & Hn & Ht).
  change (2 ^ 14) with 16384; change (2 ^ 4) with 16; change (2 ^ 32) with 4294967296.
  rewrite (Z.mod_small o), (Z.mod_small n), (Z.mod_small t), (Z.mod_small _ 4294967296) by lia.
  f_equal; dlia.
Qed.

Lemma slot_put_same p i s : slot_fits s -> slot (put_slot p i s) i = s.
Proof.
  intros Hs. unfold slot, put_slot; simpl.
  rewrite load32_store32_same. by apply slot_decode_encode.
Qed.

Lemma slot_put_other p i j s : i <> j -> slot (put_slot p i s) j = slot p j.
Proof.
  intros Hij. unfold slot, put_slot, store32; simpl. f_equal.
  apply load32_store_disjoint. unfold slot_addr, SPAGE_SLOT_SIZE. simpl. lia.
Qed.

(** A write below the slot array leaves the slots alone. *)
Lemma slot_store_below p a bs i :
  a + Z.of_nat (length bs) <= slot_addr i ->
  slot (set_mem p (store_bytes (p_mem p) a bs)) i = slot p i.
Proof.
  intros H. unfold slot; simpl. f_equal. apply load32_store_disjoint. lia.
Qed.

Lemma slot_mem_ext p q i : p_mem p = p_mem q -> slot p i = slot q i.
Proof. unfold slot. by intros ->. Qed.

(** From here on a slot is only read and written through these lemmas. *)
#[global] Opaque slot put_slot.

Lemma put_slot_hdr p i s : p_hdr (put_slot p i s) = p_hdr p.
Proof. done. Qed.

Lemma put_slot_num_slots p i s : p_num_slots (put_slot p i s) = p_num_slots p.
Proof. done. Qed.

Lemma put_slot_mem p i s :
  p_mem (put_slot p i s) = store32 (p_mem p) (slot_addr i) (slot_encode s).
Proof. done. Qed.

Lemma load_put_slot p i s a n :
  a + Z.of_nat n <= slot_addr i ->
  load_bytes (p_mem (put_slot p i s)) a n = load_bytes (p_mem p) a n.
Proof. intros H. rewrite put_slot_mem. apply load_store_disjoint. by left. Qed.

Lemma slot_addr_le p i : 0 <= i < p_num_slots p -> DB_PAGESIZE - 4 * p_num_slots p <= slot_addr i.
Proof. unfold slot_addr, SPAGE_SLOT_SIZE. lia. Qed.

(** ** What an operation may touch *)

(** The bytes of the header and those outside the page are not written, and
    the page stays in its buffer. *)
Definition frame (p q : PAGE) : Prop :=
  p_vpid q = p_vpid p
  /\ forall x, x < SPAGE_HEADER_SIZE \/ DB_PAGESIZE <= x -> p_mem q x = p_mem p x.

Lemma frame_refl p : frame p p.
Proof. done. Qed.

Lemma frame_trans p q r : frame p q -> frame q r -> frame p r.
Proof. intros [Hv Hm] [Hv' Hm']. split; [congruence|]. intros x Hx. by rewrite Hm', Hm. Qed.

Lemma frame_mem p q r : frame p q -> p_mem r = p_mem q -> p_vpid r = p_vpid q -> frame p r.
Proof. intros [Hv Hm] Hr Hw. split; [congruence|]. by rewrite Hr. Qed.

Lemma frame_store p a bs :
  SPAGE_HEADER_SIZE <= a -> a + Z.of_nat (length bs) <= DB_PAGESIZE ->
  frame p (set_mem p (store_bytes (p_mem p) a bs)).
Proof. intros Ha Hb. split; [done|]. intros x Hx. apply store_bytes_outside. lia. Qed.

Lemma frame_put_slot p i s :
  0 <= i -> SPAGE_HEADER_SIZE <= slot_addr i -> frame p (put_slot p i s).
Proof.
  intros Hi Ha. split; [done|]. intros x Hx. rewrite put_slot_mem. unfold store32.
  apply store_bytes_outside. simpl. unfold slot_addr, SPAGE_SLOT_SIZE in *. lia.
Qed.

#[export] Hint Resolve frame_refl frame_put_slot : rye.

(** ** The slot array as a list *)

Definition slots_n (p : PAGE) (n : nat) : list SPAGE_SLOT :=
  (fun i : nat => slot p (Z.of_nat i)) <$> seq 0 n.

Definition slots (p : PAGE) : list SPAGE_SLOT := slots_n p (Z.to_nat (p_num_slots p)).

Lemma slots_n_lookup p n i : (i < n)%nat -> slots_n p n !! i = Some (slot p (Z.of_nat i)).
Proof. intros H. unfold slots_n. by rewrite list_lookup_fmap, lookup_seq_lt. Qed.

Lemma slots_n_lookup_Some p n i s :
  slots_n p n !! i = Some s <-> (i < n)%nat /\ s = slot p (Z.of_nat i).
Proof.
  split.
  - intros H. assert (i < n)%nat.
    { apply lookup_lt_Some in H. unfold slots_n in H.
      by rewrite length_fmap, length_seq in H. }
    rewrite slots_n_lookup in H by done. by simplify_eq.
  - intros [H ->]. by apply slots_n_lookup.
Qed.

Lemma length_slots_n p n : length (slots_n p n) = n.
Proof. unfold slots_n. by rewrite length_fmap, length_seq. Qed.

Lemma length_slots p : length (slots p) = Z.to_nat (p_num_slots p).
Proof. apply length_slots_n. Qed.

Lemma slots_n_ext p q n :
  (forall i, 0 <= i < Z.of_nat n -> slot p i = slot q i) -> slots_n p n = slots_n q n.
Proof.
  intros H. apply list_fmap_ext. intros i x Hx. apply lookup_seq in Hx. apply H. lia.
Qed.

Lemma slots_n_put p n i s :
  slot_fits s -> 0 <= i < Z.of_nat n ->
  slots_n (put_slot p i s) n = <[Z.to_nat i := s]> (slots_n p n).
Proof.
  intros Hs Hi. apply list_eq. intros j.
  destruct (decide (j = Z.to_nat i)) as [->|Hj].
  - rewrite list_lookup_insert_eq by (rewrite length_slots_n; lia).
    rewrite slots_n_lookup by lia. rewrite Z2Nat.id by lia. by rewrite slot_put_same.
  - rewrite list_lookup_insert_ne by done.
    destruct (decide (j < n)%nat).
    + rewrite !slots_n_lookup by done. f_equal. apply slot_put_other. lia.
    + rewrite !lookup_ge_None_2; [done|..]; rewrite length_slots_n; lia.
Qed.

Lemma slots_n_S p n : slots_n p (S n) = slots_n p n ++ [slot p (Z.of_nat n)].
Proof. unfold slots_n. by rewrite seq_S, fmap_app. Qed.

Lemma slots_lookup p i :
  0 <= i < p_num_slots p -> slots p !! Z.to_nat i = Some (slot p i).
Proof.
  intros H. unfold slots. rewrite slots_n_lookup by lia. by rewrite Z2Nat.id by lia.
Qed.

Lemma slots_lookup_Some p i s :
  slots p !! i = Some s -> 0 <= Z.of_nat i < p_num_slots p /\ s = slot p (Z.of_nat i).
Proof. intros H. apply slots_n_lookup_Some in H as [? ->]. split; [lia|done]. Qed.

Lemma slots_put p i s :
  slot_fits s -> 0 <= i < p_num_slots p ->
  slots (put_slot p i s) = <[Z.to_nat i := s]> (slots p).
Proof.
  intros. unfold slots. rewrite put_slot_num_slots. apply slots_n_put; [done|lia].
Qed.

(** Two pages with the same number of slots and the same slots. *)
Lemma slots_ext p q :
  p_num_slots p = p_num_slots q ->
  (forall i, 0 <= i < p_num_slots p -> slot p i = slot q i) -> slots p = slots q.
Proof.
  intros Hn H. unfold slots. rewrite <- Hn. apply slots_n_ext. intros i Hi. apply H. lia.
Qed.

(** ** The abstract view of a page: what every slot describes *)

Inductive SLOT_VIEW :=
| Rec (type : Z) (bytes : list Z)
| Dead (type : Z).

Definition live (s : SPAGE_SLOT) : bool := negb (offset_to_record s =? SPAGE_EMPTY_OFFSET).

Definition view (m : mem) (s : SPAGE_SLOT) : SLOT_VIEW :=
  if live s
  then Rec (record_type s) (load_bytes m (offset_to_record s) (Z.to_nat (record_length s)))
  else Dead (record_type s).

Definition views (p : PAGE) : list SLOT_VIEW := view (p_mem p) <$> slots p.

Lemma live_true s : live s = true <-> offset_to_record s <> 0.
Proof. unfold live, SPAGE_EMPTY_OFFSET. lia. Qed.

Lemma length_views p : length (views p) = Z.to_nat (p_num_slots p).
Proof. unfold views. by rewrite length_fmap, length_slots. Qed.

Lemma views_lookup p i :
  0 <= i < p_num_slots p -> views p !! Z.to_nat i = Some (view (p_mem p) (slot p i)).
Proof. intros H. unfold views. by rewrite list_lookup_fmap, slots_lookup. Qed.

Lemma views_ext p q :
  p_num_slots p = p_num_slots q ->
  (forall i, 0 <= i < p_num_slots p ->
     view (p_mem p) (slot p i) = view (p_mem q) (slot q i)) -> views p = views q.
Proof.
  intros Hn H. apply list_eq. intros i.
  destruct (decide (Z.of_nat i < p_num_slots p)) as [Hi|Hi].
  - specialize (H (Z.of_nat i)). rewrite <- (Nat2Z.id i), !views_lookup by lia.
    f_equal. apply H. lia.
  - rewrite !lookup_ge_None_2; [done|..]; rewrite length_views; lia.
Qed.

(** ** The page invariant *)

(** Bytes of the record area a slot uses: its record rounded up. *)
Definition alen (al : Z) (s : SPAGE_SLOT) : Z := DB_ALIGN (record_length s) al.
Definition used (al : Z) (s : SPAGE_SLOT) : Z := if live s then alen al s else 0.

(** The areas of two records do not overlap; an empty record has no area. *)
Definition sep (al : Z) (a b : SPAGE_SLOT) : Prop :=
  alen al a = 0 \/ alen al b = 0
  \/ offset_to_record a + alen al a <= offset_to_record b
  \/ offset_to_record b + alen al b <= offset_to_record a.

(** A slot that holds a record points into the record area [40, hi). *)
Definition placed (al hi : Z) (s : SPAGE_SLOT) : Prop :=
  SPAGE_HEADER_SIZE <= offset_to_record s /\ offset_to_record s mod al = 0
  /\ offset_to_record s + alen al s <= hi
  /\ record_type s <> REC_MARKDELETED /\ record_type s <> REC_DELETED_WILL_REUSE.

Record layout (al hi : Z) (l : list SPAGE_SLOT) : Prop := {
  lay_fits : forall i s, l !! i = Some s -> slot_fits s /\ record_type s <= 7;
  lay_placed : forall i s, l !! i = Some s -> live s = true -> placed al hi s;
  lay_sep : forall i j a b, i <> j -> l !! i = Some a -> l !! j = Some b ->
      live a = true -> live b = true -> sep al a b }.

(** The accounting of the header agrees with the slot array. *)
Record page_ok (p : PAGE) : Prop := {
  wf_anchor : spage_is_valid_anchor_type (anchor_type (p_hdr p)) = true;
  wf_align : valid_alignment (alignment (p_hdr p));
  wf_nslots : 0 <= p_num_slots p;
  wf_off : SPAGE_HEADER_SIZE <= offset_to_free_area (p_hdr p) <= DB_PAGESIZE - 4;
  wf_off_al : offset_to_free_area (p_hdr p) mod alignment (p_hdr p) = 0;
  wf_cont : cont_free (p_hdr p)
            = DB_PAGESIZE - offset_to_free_area (p_hdr p) - 4 * p_num_slots p;
  wf_cont_pos : 0 <= cont_free (p_hdr p);
  wf_layout : layout (alignment (p_hdr p)) (offset_to_free_area (p_hdr p)) (slots p);
  wf_total : total_free (p_hdr p)
             = DB_PAGESIZE - SPAGE_HEADER_SIZE - 4 * p_num_slots p
               - sumZ (used (alignment (p_hdr p)) <$> slots p);
  wf_nrecs : p_num_records p = sumZ ((fun s => if live s then 1 else 0) <$> slots p) }.

(** In a page that keeps the sequence of its records every slot holds one. *)
Definition dense (p : PAGE) : Prop :=
  anchor_type (p_hdr p) <> ANCHORED ->
  forall i, 0 <= i < p_num_slots p -> live (slot p i) = true.

Definition page_wf (p : PAGE) : Prop := page_ok p /\ dense p.

Lemma alen_nonneg al s : valid_alignment al -> 0 <= record_length s -> 0 <= alen al s.
Proof.
  intros Hal Hs. unfold alen. pose proof (DB_ALIGN_spec (record_length s) al Hal). lia.
Qed.

Lemma alen_ge al s : valid_alignment al -> record_length s <= alen al s.
Proof.
  intros Hal. unfold alen. pose proof (DB_ALIGN_spec (record_length s) al Hal). lia.
Qed.

Lemma alen_aligned al s : valid_alignment al -> alen al s mod al = 0.
Proof. intros Hal. apply DB_ALIGN_spec. done. Qed.

Lemma used_nonneg al s : valid_alignment al -> slot_fits s -> 0 <= used al s.
Proof.
  intros Hal (_ & Hs & _). unfold used. zcase; [|done]. apply alen_nonneg; [done|lia].
Qed.

Lemma sep_sym al a b : sep al a b -> sep al b a.
Proof. unfold sep. tauto. Qed.

Lemma align_waste n al : n + DB_WASTED_ALIGN n al = DB_ALIGN n al.
Proof. unfold DB_WASTED_ALIGN. lia. Qed.

#[export] Hint Resolve slot_slot_fits sep_sym : rye.

(** ** The layout does not depend on the order of the slots *)

Definition live_sep (al : Z) (a b : SPAGE_SLOT) : Prop :=
  live a = true -> live b = true -> sep al a b.

Definition slot_ok (al hi : Z) (s : SPAGE_SLOT) : Prop :=
  slot_fits s /\ record_type s <= 7 /\ (live s = true -> placed al hi s).

Lemma live_sep_sym al a b : live_sep al a b -> live_sep al b a.
Proof. unfold live_sep. auto using sep_sym. Qed.

Lemma layout_alt al hi l :
  layout al hi l <-> Forall (slot_ok al hi) l /\ StronglySorted (live_sep al) l.
Proof.
  rewrite StronglySorted_lookup by apply live_sep_sym. split.
  - intros L. split; [|intros i j a b Hij Ha Hb ? ?; by eapply lay_sep].
    apply Forall_lookup. intros i s Hi. destruct (lay_fits _ _ _ L i s Hi).
    split_and!; [done|done|]. by eapply lay_placed.
  - intros [Hf Hs]. rewrite Forall_lookup in Hf. constructor.
    + intros i s Hi. by destruct (Hf i s Hi) as (? & ? & _).
    + intros i s Hi. by destruct (Hf i s Hi) as (_ & _ & ?).
    + intros i j a b Hij Ha Hb ? ?. by eapply (Hs i j).
Qed.

#[export] Instance layout_proper al hi : Proper ((≡ₚ) ==> iff) (layout al hi).
Proof.
  intros l1 l2 Hp. rewrite !layout_alt.
  split; intros [Hf Hs]; (split; [by rewrite Hp in Hf || rewrite <- Hp in Hf|]); revert Hs;
    apply StronglySorted_sym_perm; try apply live_sep_sym; by rewrite Hp.
Qed.

Lemma layout_cons al hi s l :
  layout al hi (s :: l) <->
  slot_ok al hi s /\ (forall x, x ∈ l -> live_sep al s x) /\ layout al hi l.
Proof.
  rewrite !layout_alt, Forall_cons. split.
  - intros [[? ?] [Hs Hx]%StronglySorted_inv]. rewrite Forall_forall in Hx. auto.
  - intros (? & Hx & ? & ?). split; [done|]. constructor; [done|]. by apply Forall_forall.
Qed.

Lemma slot_ok_mono al hi hi' s : hi <= hi' -> slot_ok al hi s -> slot_ok al hi' s.
Proof.
  intros Hle (? & ? & Hp). split_and!; [done|done|]. intros Hl.
  destruct (Hp Hl) as (? & ? & ? & ?). unfold placed. split_and!; try done; lia.
Qed.

Lemma layout_mono al hi hi' l : hi <= hi' -> layout al hi l -> layout al hi' l.
Proof.
  intros Hle. rewrite !layout_alt. intros [Hf ?]. split; [|done].
  eapply Forall_impl; [exact Hf|]. intros s. by apply slot_ok_mono.
Qed.

(** A record at the end of the record area. *)
Lemma layout_alloc al hi l len type :
  valid_alignment al -> layout al hi l ->
  SPAGE_HEADER_SIZE <= hi < 16384 -> hi mod al = 0 ->
  0 <= len < 16384 -> 0 <= type <= 5 ->
  layout al (hi + DB_ALIGN len al) (mkSlot hi len type :: l).
Proof.
  intros Hal L Hhi Hha Hlen Ht.
  pose proof (DB_ALIGN_spec len al Hal) as [Hge _].
  apply layout_cons. unfold SPAGE_HEADER_SIZE in *. split_and!.
  - unfold slot_ok, slot_fits, placed, alen, REC_MARKDELETED, REC_DELETED_WILL_REUSE. simpl. 
    unfold SPAGE_HEADER_SIZE. split_and!; try lia.
  - intros x Hx Hl Hlx. right; right; right. simpl.
    rewrite layout_alt, Forall_forall in L. destruct L as [L _].
    destruct (L x Hx) as (_ & _ & Hp). by destruct (Hp Hlx) as (_ & _ & ? & _).
  - eapply layout_mono; [|done]. lia.
Qed.
