(* ===== verification/SlottedPageCompact.v ===== *)
(** * Slotted pages: compaction

    The second loop of spage_compact moves the records down in the order of
    their offsets.  The loop invariant [cinv] says that the records already
    moved lie below the current offset and the others above it, so that no move
    overwrites a record that has not been moved. *)
From Stdlib Require Import ZArith Lia ZifyBool Sorting.Sorted.
From stdpp Require Import base list numbers gmap sorting.
From S2P Require Import Prelude StorageCommon SpaceSaving SlottedPage SlottedPageInv.

(** ** qsort returns a sorted permutation *)

Section Qsort.
Context (cmp : Z -> Z -> Z) (key : Z -> Z).
Context (Hcmp : forall x y, cmp x y = key x - key y).

Lemma qsort_insert_perm x l : qsort_insert cmp x l ≡ₚ x :: l.
Proof.
  induction l as [|y l IH]; simpl; [done|]. zcase; [done|].
  rewrite IH. apply Permutation_swap.
Qed.

Lemma qsort_perm l : qsort cmp l ≡ₚ l.
Proof. induction l as [|x l IH]; simpl; [done|]. by rewrite qsort_insert_perm, IH. Qed.

Lemma qsort_insert_sorted x l :
  StronglySorted (fun a b => key a <= key b) l ->
  StronglySorted (fun a b => key a <= key b) (qsort_insert cmp x l).
Proof.
  induction 1 as [|y l Hs IH Hy]; simpl; [by repeat constructor|].
  zcase; rewrite Hcmp in *.
  - constructor; [by constructor|]. constructor; [lia|].
    eapply Forall_impl; [exact Hy|]. simpl. lia.
  - constructor; [done|]. rewrite qsort_insert_perm. constructor; [lia|done].
Qed.

Lemma qsort_sorted l : StronglySorted (fun a b => key a <= key b) (qsort cmp l).
Proof. induction l; simpl; [constructor|]. by apply qsort_insert_sorted. Qed.
End Qsort.

(** ** The slots the first loop collects *)

Definition live_slots (p : PAGE) (i : Z) (n : nat) : list Z :=
  filter (fun k => live (slot p k) = true) (seqZ i (Z.of_nat n)).

Lemma live_slots_S p i n :
  live_slots p i (S n)
  = if live (slot p i) then i :: live_slots p (i + 1) n else live_slots p (i + 1) n.
Proof.
  unfold live_slots. rewrite seqZ_cons by lia.
  replace (Z.pred (Z.of_nat (S n))) with (Z.of_nat n) by lia.
  rewrite filter_cons, Z.add_1_r. by destruct (live (slot p i)).
Qed.

Lemma collect_slots_spec p i n :
  (forall k, i <= k < i + Z.of_nat n -> record_type (slot p k) <= 7) ->
  collect_slots p i n = Some (live_slots p i n).
Proof.
  revert i. induction n as [|n IH]; intros i Ht; [done|].
  rewrite live_slots_S. simpl. unfold REC_4BIT_USED_TYPE_MAX, live.
  destruct (_ >? 7) eqn:E; [specialize (Ht i); lia|].
  rewrite IH by (intros; apply Ht; lia). simpl. by zcase.
Qed.

Lemma elem_of_live_slots p n k :
  k ∈ live_slots p 0 n <-> 0 <= k < Z.of_nat n /\ live (slot p k) = true.
Proof. unfold live_slots. rewrite list_elem_of_filter, elem_of_seqZ. lia. Qed.

Lemma NoDup_live_slots p i n : NoDup (live_slots p i n).
Proof. apply NoDup_filter, NoDup_seqZ. Qed.

(** A sum over the slots that hold a record is a sum over the slot array. *)
Lemma sumZ_live_slots p f n i :
  sumZ ((fun k => f (slot p k)) <$> live_slots p i n)
  = sumZ ((fun j : nat => let s := slot p (i + Z.of_nat j) in if live s then f s else 0)
            <$> seq 0 n).
Proof.
  revert i. induction n as [|n IH]; intros i; [done|].
  rewrite live_slots_S. cbn [seq]. rewrite <- fmap_S_seq, fmap_cons. cbn [sumZ].
  rewrite <- list_fmap_compose. replace (i + Z.of_nat 0) with i by lia.
  erewrite (list_fmap_ext (_ ∘ S)).
  2: { intros k x _. simpl. replace (i + Z.of_nat (S x)) with (i + 1 + Z.of_nat x) by lia.
       reflexivity. }
  rewrite <- IH. by destruct (live (slot p i)).
Qed.

Lemma sumZ_live_slots_all p f :
  sumZ ((fun k => f (slot p k)) <$> live_slots p 0 (Z.to_nat (p_num_slots p)))
  = sumZ ((fun s => if live s then f s else 0) <$> slots p).
Proof.
  rewrite sumZ_live_slots. unfold slots, slots_n. by rewrite <- list_fmap_compose.
Qed.

(** ** The loop invariant *)

Record cinv (p : PAGE) (to hi : Z) (ord : list Z) : Prop := {
  ci_al : valid_alignment (alignment (p_hdr p));
  ci_nodup : NoDup ord;
  ci_range : forall k, k ∈ ord -> 0 <= k < p_num_slots p /\ live (slot p k) = true;
  ci_sorted : StronglySorted
    (fun a b => offset_to_record (slot p a) <= offset_to_record (slot p b)) ord;
  ci_to : SPAGE_HEADER_SIZE <= DB_ALIGN to (alignment (p_hdr p)) <= hi;
  ci_hi : hi <= DB_PAGESIZE - 4 * p_num_slots p;
  ci_lay : layout (alignment (p_hdr p)) hi (slots p);
  ci_done : forall i, 0 <= i < p_num_slots p -> live (slot p i) = true -> i ∉ ord ->
    offset_to_record (slot p i) + alen (alignment (p_hdr p)) (slot p i)
    <= DB_ALIGN to (alignment (p_hdr p));
  ci_rest : forall k, k ∈ ord ->
    alen (alignment (p_hdr p)) (slot p k) = 0
    \/ DB_ALIGN to (alignment (p_hdr p)) <= offset_to_record (slot p k) }.

Definition moved (s : SPAGE_SLOT) (to : Z) : SPAGE_SLOT :=
  mkSlot to (record_length s) (record_type s).

(** Layout facts at slot identifiers. *)
Lemma layout_slot al hi p i :
  layout al hi (slots p) -> 0 <= i < p_num_slots p -> live (slot p i) = true ->
  placed al hi (slot p i).
Proof. intros H Hi. eapply lay_placed; [done|]. by apply slots_lookup. Qed.

Lemma layout_sep al hi p i j :
  layout al hi (slots p) -> 0 <= i < p_num_slots p -> 0 <= j < p_num_slots p ->
  i <> j -> live (slot p i) = true -> live (slot p j) = true ->
  sep al (slot p i) (slot p j).
Proof.
  intros H Hi Hj Hij. eapply lay_sep; [done| |by apply slots_lookup..]. lia.
Qed.

Lemma layout_slot_intro al hi p :
  (forall i, 0 <= i < p_num_slots p -> record_type (slot p i) <= 7) ->
  (forall i, 0 <= i < p_num_slots p -> live (slot p i) = true -> placed al hi (slot p i)) ->
  (forall i j, 0 <= i < p_num_slots p -> 0 <= j < p_num_slots p -> i <> j ->
     live (slot p i) = true -> live (slot p j) = true -> sep al (slot p i) (slot p j)) ->
  layout al hi (slots p).
Proof.
  intros Ht Hp Hs. constructor.
  - intros i s Hi. apply slots_lookup_Some in Hi as [Hi ->]. split; [|by apply Ht].
    apply slot_slot_fits.
  - intros i s Hi. apply slots_lookup_Some in Hi as [Hi ->]. by apply Hp.
  - intros i j a b Hij Ha Hb. apply slots_lookup_Some in Ha as [Ha ->].
    apply slots_lookup_Some in Hb as [Hb ->]. apply Hs; lia.
Qed.

Lemma layout_type al hi p i :
  layout al hi (slots p) -> 0 <= i < p_num_slots p -> record_type (slot p i) <= 7.
Proof. intros H Hi. eapply lay_fits; [done|]. by apply slots_lookup. Qed.

Section Step.
Context (p p1 : PAGE) (to hi s : Z) (rest : list Z).
Notation al := (alignment (p_hdr p)).
Notation A := (DB_ALIGN to al).
Context (C : cinv p to hi (s :: rest)).
Context (Hhdr : p_hdr p1 = p_hdr p).
Context (Hs : slot p1 s = moved (slot p s) A).
Context (Ho : forall j, 0 <= j < p_num_slots p -> j <> s -> slot p1 j = slot p j).

#[local] Lemma step_n : p_num_slots p1 = p_num_slots p.
Proof. unfold p_num_slots. by rewrite Hhdr. Qed.

#[local] Lemma step_s : 0 <= s < p_num_slots p /\ live (slot p s) = true.
Proof. apply (ci_range _ _ _ _ C). by left. Qed.

#[local] Lemma step_rest k : k ∈ rest -> k <> s /\ 0 <= k < p_num_slots p
  /\ live (slot p k) = true /\ offset_to_record (slot p s) <= offset_to_record (slot p k).
Proof.
  intros Hk. pose proof (ci_nodup _ _ _ _ C) as Hnd. apply NoDup_cons in Hnd as [Hn _].
  split; [by intros ->|].
  destruct (ci_range _ _ _ _ C k) as [? ?]; [by right|]. split_and!; [lia..|done|].
  pose proof (ci_sorted _ _ _ _ C) as Hso. apply StronglySorted_inv in Hso as [_ Hso].
  rewrite Forall_forall in Hso. by apply Hso.
Qed.

#[local] Lemma step_A : 40 <= A <= hi /\ A mod al = 0
  /\ A + alen al (slot p s) <= hi /\ 0 <= alen al (slot p s)
  /\ (alen al (slot p s) = 0 \/ A <= offset_to_record (slot p s)).
Proof.
  pose proof (ci_al _ _ _ _ C) as Hal.
  pose proof (ci_to _ _ _ _ C). unfold SPAGE_HEADER_SIZE in *.
  destruct step_s as [Hr Hl].
  destruct (layout_slot _ _ _ _ (ci_lay _ _ _ _ C) Hr Hl) as (? & ? & ? & _).
  pose proof (alen_nonneg al (slot p s) Hal).
  destruct (slot_slot_fits p s) as (_ & ? & _).
  pose proof (ci_rest _ _ _ _ C s ltac:(by left)).
  pose proof (DB_ALIGN_spec to al Hal). lia.
Qed.

(** A record above the moved one stays above it. *)
#[local] Lemma step_above k : k ∈ rest -> alen al (slot p k) = 0
  \/ A + alen al (slot p s) <= offset_to_record (slot p k).
Proof.
  intros Hk. destruct (step_rest k Hk) as (Hne & Hr & Hl & Hle).
  destruct step_s as [Hsr Hsl]. destruct step_A as (_ & _ & _ & ? & ?).
  pose proof (ci_rest _ _ _ _ C k ltac:(by right)) as Hck.
  destruct (layout_sep _ _ _ s k (ci_lay _ _ _ _ C) Hsr Hr ltac:(done) Hsl Hl)
    as [|[|[|]]]; [lia..|].
  destruct (slot_slot_fits p k) as (_ & ? & _).
  pose proof (alen_nonneg al (slot p k) (ci_al _ _ _ _ C)). lia.
Qed.

#[local] Lemma step_moved_sep j : 0 <= j < p_num_slots p -> j <> s ->
  live (slot p j) = true -> sep al (moved (slot p s) A) (slot p j).
Proof.
  intros Hj Hne Hl. unfold sep.
  replace (alen al (moved (slot p s) A)) with (alen al (slot p s)) by done. simpl.
  destruct (decide (j ∈ rest)) as [Hin|Hin].
  - destruct (step_above j Hin); lia.
  - right; right; right. apply (ci_done _ _ _ _ C); [done..|].
    rewrite not_elem_of_cons. done.
Qed.

#[local] Lemma step_live j : 0 <= j < p_num_slots p -> live (slot p1 j) = live (slot p j).
Proof.
  intros Hj. destruct (decide (j = s)) as [->|Hne]; [|by rewrite Ho].
  rewrite Hs. destruct step_s as [_ ->]. destruct step_A as (? & _).
  apply live_true. simpl. lia.
Qed.

#[local] Lemma cinv_step_layout : layout al hi (slots p1).
Proof.
  destruct step_s as [Hsr Hsl]. destruct step_A as (HA & HAa & HAb & Hap & HAo).
  pose proof (ci_lay _ _ _ _ C) as L.
  apply layout_slot_intro; rewrite step_n.
  - intros i Hi. destruct (decide (i = s)) as [->|Hne].
    + rewrite Hs. simpl. eapply layout_type; [exact L|done].
    + rewrite Ho by done. eapply layout_type; [exact L|done].
  - intros i Hi Hl. rewrite step_live in Hl by done.
    destruct (decide (i = s)) as [->|Hne]; [|rewrite Ho by done; by apply layout_slot].
    rewrite Hs. destruct (layout_slot _ _ _ _ L Hsr Hsl) as (? & ? & ? & ? & ?).
    unfold placed, SPAGE_HEADER_SIZE. simpl.
    replace (alen al (moved (slot p s) A)) with (alen al (slot p s)) by done. lia.
  - intros i j Hi Hj Hij Hli Hlj. rewrite step_live in Hli, Hlj by done.
    destruct (decide (i = s)) as [->|Hi']; destruct (decide (j = s)) as [->|Hj'];
      [done| | |].
    + rewrite Hs, Ho by done. by apply step_moved_sep.
    + rewrite Hs, Ho by done. by apply sep_sym, step_moved_sep.
    + rewrite !Ho by done. by eapply layout_sep.
Qed.

Lemma cinv_step : cinv p1 (A + record_length (slot p s)) hi rest.
Proof.
  pose proof (ci_al _ _ _ _ C) as Hal. destruct step_s as [Hsr Hsl].
  destruct step_A as (HA & HAa & HAb & Hap & HAo).
  assert (DB_ALIGN (A + record_length (slot p s)) al = A + alen al (slot p s)) as HA'
    by (unfold alen; by rewrite DB_ALIGN_add).
  constructor; rewrite ?Hhdr, ?step_n; rewrite ?HA'; try done.
  - eapply NoDup_cons_1_2, (ci_nodup _ _ _ _ C).
  - intros k Hk. destruct (step_rest k Hk) as (Hne & Hr & Hl & _).
    by rewrite Ho by done.
  - pose proof (ci_sorted _ _ _ _ C) as Hso. apply StronglySorted_inv in Hso as [Hso _].
    revert Hso. apply StronglySorted_impl_in. intros a b Ha Hb.
    destruct (step_rest a Ha) as (? & ? & _). destruct (step_rest b Hb) as (? & ? & _).
    by rewrite !Ho.
  - unfold SPAGE_HEADER_SIZE. lia.
  - apply (ci_hi _ _ _ _ C).
  - apply cinv_step_layout.
  - intros i Hi Hl Hn. rewrite step_live in Hl by done.
    destruct (decide (i = s)) as [->|Hne]; [by rewrite Hs|].
    rewrite Ho by done. trans A; [|lia].
    apply (ci_done _ _ _ _ C); [done..|]. by rewrite not_elem_of_cons.
  - intros k Hk. destruct (step_rest k Hk) as (Hne & Hr & _).
    rewrite Ho by done. by apply step_above.
Qed.

End Step.

(** ** One move *)

Lemma view_live m m' s :
  live s = true ->
  load_bytes m (offset_to_record s) (Z.to_nat (record_length s))
  = load_bytes m' (offset_to_record s) (Z.to_nat (record_length s)) ->
  view m s = view m' s.
Proof. unfold view. by intros -> ->. Qed.

(** Two areas that do not overlap. *)
Lemma sep_load al a b m bs :
  valid_alignment al -> slot_fits a -> slot_fits b -> sep al a b ->
  length bs = Z.to_nat (record_length a) ->
  load_bytes (store_bytes m (offset_to_record a) bs) (offset_to_record b)
    (Z.to_nat (record_length b))
  = load_bytes m (offset_to_record b) (Z.to_nat (record_length b)).
Proof.
  intros Hal (_ & Ha & _) (_ & Hb & _) Hs Hbs.
  pose proof (alen_ge al a Hal). pose proof (alen_ge al b Hal).
  destruct Hs as [Hs|[Hs|Hs]].
  - assert (record_length a = 0) as Ha0 by lia. rewrite Ha0 in Hbs.
    destruct bs; [|done]. apply load_bytes_ext. intros. apply store_bytes_nil.
  - assert (record_length b = 0) as -> by lia. done.
  - apply load_store_disjoint. lia.
Qed.

Definition move_record (p : PAGE) (s to : Z) : PAGE :=
  slot_set_offset
    (set_mem p (memmove (p_mem p) to (offset_to_record (slot p s))
                  (Z.to_nat (record_length (slot p s))))) s to.

Section Move.
Context (p : PAGE) (to hi s : Z) (rest : list Z).
Notation al := (alignment (p_hdr p)).
Notation A := (DB_ALIGN to al).
Context (C : cinv p to hi (s :: rest)).

#[local] Lemma move_below i : 0 <= i < p_num_slots p ->
  A + record_length (slot p s) <= slot_addr i.
Proof.
  intros Hi. destruct (step_A p to hi s rest C) as (_ & _ & HAb & _).
  pose proof (alen_ge al (slot p s) (ci_al _ _ _ _ C)).
  pose proof (ci_hi _ _ _ _ C). pose proof (slot_addr_le p i Hi). lia.
Qed.

#[local] Lemma move_mem_slot i : 0 <= i < p_num_slots p ->
  slot (set_mem p (memmove (p_mem p) A (offset_to_record (slot p s))
                     (Z.to_nat (record_length (slot p s))))) i = slot p i.
Proof.
  intros Hi. apply slot_store_below. rewrite length_load_bytes.
  pose proof (move_below i Hi). destruct (slot_slot_fits p s) as (_ & ? & _). lia.
Qed.

#[local] Lemma move_fits : slot_fits (moved (slot p s) A).
Proof.
  destruct (step_A p to hi s rest C) as (? & _ & _).
  pose proof (ci_hi _ _ _ _ C). destruct (step_s p to hi s rest C) as [? _].
  destruct (slot_slot_fits p s) as (_ & ? & ?).
  unfold slot_fits, moved, DB_PAGESIZE in *. simpl. lia.
Qed.

Lemma move_record_slot : slot (move_record p s A) s = moved (slot p s) A.
Proof.
  destruct (step_s p to hi s rest C) as [? _].
  unfold move_record, slot_set_offset. rewrite move_mem_slot by done.
  apply slot_put_same, move_fits.
Qed.

Lemma move_record_other j : 0 <= j < p_num_slots p -> j <> s ->
  slot (move_record p s A) j = slot p j.
Proof.
  intros Hj Hne. unfold move_record, slot_set_offset.
  rewrite slot_put_other by done. by apply move_mem_slot.
Qed.

Lemma move_record_views : views (move_record p s A) = views p.
Proof.
  destruct (step_s p to hi s rest C) as [Hs Hl].
  symmetry. apply views_ext; [done|]. intros i Hi.
  assert (forall a n, a + Z.of_nat n <= slot_addr s ->
    load_bytes (p_mem (move_record p s A)) a n
    = load_bytes (memmove (p_mem p) A (offset_to_record (slot p s))
                    (Z.to_nat (record_length (slot p s)))) a n) as Hld
    by (intros; apply load_put_slot; done).
  destruct (slot_slot_fits p s) as (_ & Hfs & _).
  destruct (slot_slot_fits p i) as (_ & Hfi & _).
  destruct (decide (i = s)) as [->|Hne].
  - rewrite move_record_slot. unfold view. rewrite Hl.
    replace (live (moved (slot p s) A)) with true.
    2: { symmetry. apply live_true. simpl. destruct (step_A p to hi s rest C). lia. }
    simpl. f_equal. rewrite Hld by (pose proof (move_below s Hs); lia).
    unfold memmove. symmetry.
    rewrite <- (length_load_bytes (p_mem p) (offset_to_record (slot p s))
                  (Z.to_nat (record_length (slot p s)))) at 2.
    apply load_store_same.
  - rewrite move_record_other by done.
    destruct (live (slot p i)) eqn:Hli; [|unfold view; by rewrite Hli].
    apply view_live; [done|]. symmetry.
    destruct (layout_slot _ _ _ _ (ci_lay _ _ _ _ C) Hi Hli) as (_ & _ & Hpi & _).
    pose proof (alen_ge al (slot p i) (ci_al _ _ _ _ C)).
    pose proof (ci_hi _ _ _ _ C). pose proof (slot_addr_le p s Hs).
    rewrite Hld by lia. unfold memmove.
    apply (sep_load al (moved (slot p s) A)).
    + apply (ci_al _ _ _ _ C).
    + apply move_fits.
    + apply slot_slot_fits.
    + by eapply step_moved_sep.
    + apply length_load_bytes.
Qed.

Lemma move_record_frame : frame p (move_record p s A).
Proof.
  destruct (step_s p to hi s rest C) as [Hs Hl].
  destruct (step_A p to hi s rest C) as (HA & _).
  destruct (slot_slot_fits p s) as (_ & Hfs & _). pose proof (move_below s Hs).
  unfold move_record, slot_set_offset.
  eapply frame_trans; [|apply frame_put_slot; unfold SPAGE_HEADER_SIZE; lia].
  apply frame_store; [unfold SPAGE_HEADER_SIZE; lia|]. rewrite length_load_bytes.
  unfold slot_addr, SPAGE_SLOT_SIZE in *. lia.
Qed.

Lemma move_record_cinv : cinv (move_record p s A) (A + record_length (slot p s)) hi rest.
Proof. eapply cinv_step; [done|done|apply move_record_slot|apply move_record_other]. Qed.

(** A record already in place. *)
Lemma stay_record_cinv :
  A = offset_to_record (slot p s) -> cinv p (A + record_length (slot p s)) hi rest.
Proof.
  intros HA. eapply cinv_step; [done|done| |done].
  rewrite HA. by destruct (slot p s).
Qed.
End Move.

(** ** The second loop *)

(** The slots differ at most in their offsets. *)
Definition same_shape (p q : PAGE) : Prop :=
  forall i, 0 <= i < p_num_slots p ->
    record_length (slot q i) = record_length (slot p i)
    /\ record_type (slot q i) = record_type (slot p i)
    /\ live (slot q i) = live (slot p i).

Lemma same_shape_refl p : same_shape p p.
Proof. done. Qed.

Lemma same_shape_trans p q r :
  p_num_slots q = p_num_slots p -> same_shape p q -> same_shape q r -> same_shape p r.
Proof.
  intros Hn H1 H2 i Hi. destruct (H1 i Hi) as (? & ? & ?).
  destruct (H2 i) as (? & ? & ?); [by rewrite Hn|]. split_and!; congruence.
Qed.

Lemma same_shape_used p q :
  p_num_slots q = p_num_slots p -> same_shape p q ->
  forall f : Z -> Z, 
  sumZ ((fun s => if live s then f (record_length s) else 0) <$> slots q)
  = sumZ ((fun s => if live s then f (record_length s) else 0) <$> slots p).
Proof.
  intros Hn H f. unfold slots, slots_n. rewrite Hn, <- !list_fmap_compose. f_equal.
  apply list_fmap_ext. intros i x Hx. apply lookup_seq in Hx as [-> Hx]. simpl.
  destruct (H (Z.of_nat i)) as (-> & _ & ->); [lia|done].
Qed.

Lemma move_record_shape p to hi s rest :
  cinv p to hi (s :: rest) ->
  same_shape p (move_record p s (DB_ALIGN to (alignment (p_hdr p)))).
Proof.
  intros C i Hi. destruct (decide (i = s)) as [->|Hne].
  - erewrite move_record_slot by done. simpl. split_and!; [done..|].
    destruct (step_s _ _ _ _ _ C) as [_ ->]. apply live_true. simpl.
    destruct (step_A _ _ _ _ _ C). lia.
  - by erewrite move_record_other by done.
Qed.

Lemma compact_records_spec ord : forall p to hi,
  cinv p to hi ord ->
  exists to' p', compact_records p to ord = (true, to', p')
    /\ cinv p' to' hi [] /\ p_hdr p' = p_hdr p /\ p_dirty p' = p_dirty p
    /\ views p' = views p /\ frame p p' /\ same_shape p p'
    /\ DB_ALIGN to' (alignment (p_hdr p))
       = DB_ALIGN to (alignment (p_hdr p))
         + sumZ ((fun k => alen (alignment (p_hdr p)) (slot p k)) <$> ord).
Proof.
  induction ord as [|s rest IH]; intros p to hi C.
  { exists to, p. split_and!; try done. simpl. lia. }
  pose proof (ci_al _ _ _ _ C) as Hal.
  destruct (step_A _ _ _ _ _ C) as (HA & HAa & HAb & _).
  destruct (step_s _ _ _ _ _ C) as [Hs _].
  cbn [compact_records]. set (A := DB_ALIGN to (alignment (p_hdr p))) in *.
  destruct (A =? offset_to_record (slot p s)) eqn:Eeq.
  - assert (A = offset_to_record (slot p s)) as HAs by lia.
    destruct (IH p (A + record_length (slot p s)) hi) as (to' & p' & ? & ? & ? & ? & ? & ? & ? & Hto).
    { by eapply stay_record_cinv. }
    exists to', p'. split_and!; try done. rewrite Hto, fmap_cons. cbn [sumZ].
    rewrite DB_ALIGN_add by done. unfold alen. lia.
  - pose proof (alen_ge (alignment (p_hdr p)) (slot p s) Hal).
    pose proof (ci_hi _ _ _ _ C).
    zcase; [lia|]. fold (move_record p s A).
    destruct (IH (move_record p s A) (A + record_length (slot p s)) hi)
      as (to' & p' & Hc & ? & Hh & Hd & Hv & ? & Hsh & Hto).
    { by eapply move_record_cinv. }
    replace (record_length (slot (move_record p s A) s)) with (record_length (slot p s))
      by (unfold A; by erewrite move_record_slot by done).
    exists to', p'. split_and!; try done.
    + rewrite Hv. by eapply move_record_views.
    + eapply frame_trans; [|done]. by eapply move_record_frame.
    + apply (same_shape_trans _ (move_record p s A)); [done| |done]. by eapply move_record_shape.
    + change (p_hdr (move_record p s A)) with (p_hdr p) in *.
      rewrite Hto, fmap_cons. cbn [sumZ]. rewrite DB_ALIGN_add by done.
      rewrite <- Z.add_assoc. do 3 f_equal.
      apply list_fmap_ext. intros i k Hk. simpl. f_equal.
      apply list_elem_of_lookup_2 in Hk.
      destruct (step_rest _ _ _ _ _ C k Hk) as (? & ? & _).
      by eapply move_record_other.
Qed.

(** ** spage_compact *)

Definition sorted_slots (p : PAGE) : list Z :=
  qsort (spage_compare_slot_offset p) (live_slots p 0 (Z.to_nat (p_num_slots p))).

Lemma sorted_slots_perm p :
  sorted_slots p ≡ₚ live_slots p 0 (Z.to_nat (p_num_slots p)).
Proof. apply qsort_perm. Qed.

Lemma DB_ALIGN_header al : valid_alignment al -> DB_ALIGN SPAGE_HEADER_SIZE al = SPAGE_HEADER_SIZE.
Proof. by intros [->|[->|[->| ->]]]. Qed.

Lemma cinv_init p :
  page_ok p -> cinv p SPAGE_HEADER_SIZE (offset_to_free_area (p_hdr p)) (sorted_slots p).
Proof.
  intros W. pose proof (wf_align _ W) as Hal.
  assert (forall k, k ∈ sorted_slots p <-> 0 <= k < p_num_slots p /\ live (slot p k) = true) as Hin.
  { intros k. rewrite sorted_slots_perm, elem_of_live_slots.
    pose proof (wf_nslots _ W). rewrite Z2Nat.id by done. done. }
  constructor; rewrite ?DB_ALIGN_header by done; try done.
  - rewrite sorted_slots_perm. apply NoDup_live_slots.
  - intros k. by apply Hin.
  - by apply qsort_sorted.
  - pose proof (wf_off _ W). lia.
  - pose proof (wf_cont _ W). pose proof (wf_cont_pos _ W). lia.
  - apply (wf_layout _ W).
  - intros i Hi Hl Hn. exfalso. by apply Hn, Hin.
  - intros k [Hk Hl]%Hin. right.
    by destruct (layout_slot _ _ _ _ (wf_layout _ W) Hk Hl).
Qed.

Lemma sumZ_sorted_slots p f :
  sumZ ((fun k => f (slot p k)) <$> sorted_slots p)
  = sumZ ((fun s => if live s then f s else 0) <$> slots p).
Proof. rewrite <- sumZ_live_slots_all. apply sumZ_perm. by rewrite sorted_slots_perm. Qed.

(** The records fit side by side in the record area: the contiguous free
    space is part of the total free space. *)
Lemma page_ok_cont_le_total p : page_ok p -> cont_free (p_hdr p) <= total_free (p_hdr p).
Proof.
  intros W. destruct (compact_records_spec _ _ _ _ (cinv_init p W))
    as (to' & p' & _ & C & Hh & _ & _ & _ & _ & Hto).
  pose proof (ci_to _ _ _ _ C) as [_ Hle]. rewrite Hh in Hle.
  rewrite Hto, DB_ALIGN_header, sumZ_sorted_slots in Hle by apply (wf_align _ W).
  rewrite (wf_total _ W), (wf_cont _ W). unfold used. lia.
Qed.

Lemma live_count_nonneg l : 0 <= sumZ ((fun s => if live s then 1 else 0) <$> l).
Proof. apply sumZ_nonneg, Forall_fmap, Forall_true. intros s. simpl. zcase; lia. Qed.

Lemma num_records_nonneg p : page_ok p -> 0 <= p_num_records p.
Proof. intros W. rewrite (wf_nrecs _ W). apply live_count_nonneg. Qed.

Lemma num_records_le p : page_ok p -> p_num_records p <= p_num_slots p.
Proof.
  intros W. rewrite (wf_nrecs _ W). pose proof (wf_nslots _ W).
  replace (p_num_slots p) with (Z.of_nat (length (slots p))) by (rewrite length_slots; lia).
  induction (slots p) as [|s l IH]; [done|]. rewrite fmap_cons. cbn [sumZ length].
  destruct (live s); lia.
Qed.

Lemma length_live_slots p :
  page_ok p -> Z.of_nat (length (live_slots p 0 (Z.to_nat (p_num_slots p)))) = p_num_records p.
Proof.
  intros W. rewrite (wf_nrecs _ W), <- (sumZ_live_slots_all p (fun _ => 1)).
  induction (live_slots _ _ _) as [|x l IH]; [done|].
  rewrite fmap_cons. cbn [sumZ length]. lia.
Qed.

(** The header fields compaction leaves alone, and the free space it leaves. *)
Definition compacted (p q : PAGE) : Prop :=
  p_num_slots q = p_num_slots p /\ p_num_records q = p_num_records p
  /\ anchor_type (p_hdr q) = anchor_type (p_hdr p)
  /\ alignment (p_hdr q) = alignment (p_hdr p)
  /\ is_saving (p_hdr q) = is_saving (p_hdr p)
  /\ total_free (p_hdr q) = total_free (p_hdr p)
  /\ cont_free (p_hdr q) = total_free (p_hdr p)
  /\ p_dirty q = p_dirty p.

Lemma compact_header_ok p p' to :
  page_ok p -> cinv p' to (offset_to_free_area (p_hdr p)) [] -> p_hdr p' = p_hdr p ->
  p_dirty p' = p_dirty p -> same_shape p p' ->
  DB_ALIGN to (alignment (p_hdr p))
  = SPAGE_HEADER_SIZE + sumZ (used (alignment (p_hdr p)) <$> slots p) ->
  page_ok (compact_header p' to) /\ compacted p (compact_header p' to).
Proof.
  intros W C Hh Hd Hsh Hto.
  pose proof (ci_to _ _ _ _ C) as Hr. rewrite Hh in Hr.
  pose proof (wf_off _ W). pose proof (wf_align _ W) as Hal.
  pose proof (DB_ALIGN_spec to _ Hal) as [_ Hta].
  assert (p_num_slots p' = p_num_slots p) as Hn by (unfold p_num_slots; by rewrite Hh).
  assert (slots (compact_header p' to) = slots p') as Hsl by done.
  assert (sumZ (used (alignment (p_hdr p)) <$> slots p')
          = sumZ (used (alignment (p_hdr p)) <$> slots p)) as Hu
    by (apply (same_shape_used p p' Hn Hsh (fun n => DB_ALIGN n (alignment (p_hdr p))))).
  assert (sumZ ((fun s => if live s then 1 else 0) <$> slots p')
          = sumZ ((fun s => if live s then 1 else 0) <$> slots p)) as Hc
    by (apply (same_shape_used p p' Hn Hsh (fun _ => 1))).
  pose proof (wf_cont _ W). pose proof (wf_cont_pos _ W). pose proof (wf_total _ W).
  pose proof (wf_nrecs _ W). pose proof (wf_nslots _ W).
  assert (DB_ALIGN to (alignment (p_hdr p)) + sumZ [] <= offset_to_free_area (p_hdr p)) by (simpl; lia).
  unfold SPAGE_HEADER_SIZE, SPAGE_SLOT_SIZE in *. split.
  - constructor; rewrite ?Hsl; unfold compact_header, p_num_slots, p_num_records in *; simpl;
      rewrite ?Hh; unfold SPAGE_HEADER_SIZE, SPAGE_SLOT_SIZE; try done; try lia.
    + apply (wf_anchor _ W).
    + pose proof (ci_lay _ _ _ _ C) as L. rewrite Hh in L. constructor.
      * apply L.
      * intros i s Hi Hl. destruct (lay_placed _ _ _ L i s Hi Hl) as (? & ? & ? & ? & ?).
        split_and!; try done. apply slots_lookup_Some in Hi as [Hi ->].
        pose proof (ci_done _ _ _ _ C (Z.of_nat i) Hi Hl) as Hdn.
        rewrite Hh in Hdn. apply Hdn. by apply not_elem_of_nil.
      * apply L.
  - unfold compacted, compact_header, p_num_slots, p_num_records in *; simpl.
    rewrite Hh. unfold SPAGE_SLOT_SIZE. split_and!; try done; lia.
Qed.

Lemma page_ok_no_records p : page_ok p -> p_num_records p = 0 -> sorted_slots p = [].
Proof.
  intros W H0. apply length_zero_iff_nil.
  rewrite (Permutation_length (sorted_slots_perm p)).
  pose proof (length_live_slots p W). lia.
Qed.

(** Compaction succeeds on every well-formed page, keeps what the slots
    describe and gathers the free space. *)
Lemma spage_compact_spec th p :
  page_ok p -> th_calloc th = true ->
  exists q, spage_compact th p = (NO_ERROR, q) /\ page_ok q /\ compacted p q
    /\ views q = views p /\ frame p q /\ same_shape p q.
Proof.
  intros W Hc. destruct (compact_records_spec _ _ _ _ (cinv_init p W))
    as (to & p' & Hcr & C & Hh & Hd & Hv & Hf & Hsh & Hto).
  pose proof (wf_align _ W) as Hal. pose proof (num_records_nonneg p W).
  rewrite DB_ALIGN_header, sumZ_sorted_slots in Hto by done.
  destruct (compact_header_ok p p' to W C Hh Hd Hsh Hto) as [Wq Hq].
  exists (compact_header p' to).
  assert (views (compact_header p' to) = views p') as -> by done.
  split_and!; [|done|done|done|done|done].
  unfold spage_compact. destruct (p_num_records p >? 0) eqn:Er.
  - rewrite Hc. simpl negb. cbn iota. rewrite collect_slots_spec.
    2: { intros k Hk. pose proof (wf_nslots _ W).
         eapply layout_type; [apply (wf_layout _ W)|lia]. }
    rewrite length_live_slots, Z.eqb_refl by done. simpl negb. cbn iota.
    fold (sorted_slots p). by rewrite Hcr.
  - rewrite (page_ok_no_records p W) in Hcr by lia. simpl in Hcr. by simplify_eq.
Qed.

(** Without memory for the array of slots compaction fails and the page is
    not changed. *)
Lemma spage_compact_nomem th p :
  th_calloc th = false -> 0 < p_num_records p -> spage_compact th p = (ER_FAILED, p).
Proof. intros Hc Hp. unfold spage_compact. rewrite Hc. zcase; [done|lia]. Qed.
