(* ===== verification/SlottedPageOps.v ===== *)
(** * Slotted pages: lemmas on the operations *)
From Stdlib Require Import ZArith Lia ZifyBool Sorting.Sorted.
From stdpp Require Import base list numbers gmap sorting.
From S2P Require Import Prelude StorageCommon SpaceSaving.
From S2P Require Import SlottedPage SlottedPageInv SlottedPageCompact.

(** ** Pages that differ in the position of their records only *)

Record same_page (p q : PAGE) : Prop := {
  sp_ok : page_ok q;
  sp_views : views q = views p;
  sp_frame : frame p q;
  sp_shape : same_shape p q;
  sp_nslots : p_num_slots q = p_num_slots p;
  sp_nrecs : p_num_records q = p_num_records p;
  sp_anchor : anchor_type (p_hdr q) = anchor_type (p_hdr p);
  sp_align : alignment (p_hdr q) = alignment (p_hdr p);
  sp_saving : is_saving (p_hdr q) = is_saving (p_hdr p);
  sp_total : total_free (p_hdr q) = total_free (p_hdr p);
  sp_dirty : p_dirty q = p_dirty p }.

Lemma same_page_refl p : page_ok p -> same_page p p.
Proof. by constructor. Qed.

Lemma same_page_dense p q : same_page p q -> dense p -> dense q.
Proof.
  intros S D Ha i Hi. rewrite (sp_nslots _ _ S) in Hi. rewrite (sp_anchor _ _ S) in Ha.
  destruct (sp_shape _ _ S i Hi) as (_ & _ & ->). by apply D.
Qed.

#[export] Hint Resolve same_page_refl same_page_dense : rye.

Lemma same_page_compact th p :
  page_ok p -> th_calloc th = true ->
  exists q, spage_compact th p = (NO_ERROR, q) /\ same_page p q
    /\ cont_free (p_hdr q) = total_free (p_hdr p).
Proof.
  intros W Hc. destruct (spage_compact_spec th p W Hc)
    as (q & Hq & Wq & (? & ? & ? & ? & ? & ? & ? & ?) & ? & ? & ?).
  exists q. split_and!; [done|by constructor|done].
Qed.

Lemma total_free_nonneg p : page_ok p -> 0 <= total_free (p_hdr p).
Proof. intros W. pose proof (page_ok_cont_le_total p W). pose proof (wf_cont_pos _ W). lia. Qed.

(** With room for [space] bytes in all, contiguous room can be made unless the
    array of slots cannot be allocated. *)
Lemma contiguous_spec th p space :
  page_ok p -> space <= total_free (p_hdr p) ->
  exists b q, spage_has_enough_contiguous_space th p space = (b, q) /\ same_page p q
    /\ (b = true -> space <= cont_free (p_hdr q))
    /\ (b = false -> q = p /\ th_calloc th = false).
Proof.
  intros W Hs. unfold spage_has_enough_contiguous_space.
  destruct (space <=? cont_free (p_hdr p)) eqn:Ec.
  { exists true, p. split_and!; [done|by apply same_page_refl|intros; lia|done]. }
  destruct (th_calloc th) eqn:Hc.
  - destruct (same_page_compact th p W Hc) as (q & -> & S & Hq).
    exists true, q. split_and!; [done|done|intros; lia|done].
  - unfold spage_compact. rewrite Hc. simpl negb. cbn iota.
    destruct (p_num_records p >? 0) eqn:Er.
    + exists false, p. split_and!; [done|by apply same_page_refl|done|done].
    + destruct (spage_compact_spec (mkThread 0 true true true true true true) p W)
        as (q & Hq & Wq & (? & ? & ? & ? & ? & ? & ? & ?) & ? & ? & ?); [done|].
      unfold spage_compact in Hq. rewrite Er in Hq. simplify_eq.
      eexists true, _. split_and!; [done|by constructor|intros; lia|done].
Qed.

Section Saving.
Context {ST : Type} `{SavedSpacesLaws ST}.
Context (th : THREAD_ENTRY) (st : ST) (Hst : saved_ok st).

Lemma total_saved_nonneg p : 0 <= spage_get_total_saved_spaces th st p.
Proof.
  unfold spage_get_total_saved_spaces. pose proof (saved_nonneg th (p_vpid p) st Hst).
  zcase; lia.
Qed.

Lemma enough_total_le p space :
  page_ok p -> spage_has_enough_total_space th st p space = true ->
  space <= total_free (p_hdr p).
Proof.
  intros W. pose proof (total_free_nonneg p W). pose proof (total_saved_nonneg p).
  unfold spage_has_enough_total_space. zcases.
Qed.

Lemma check_space_spec p space :
  page_ok p ->
  exists status q, spage_check_space th st p space = (status, q) /\ same_page p q
    /\ ((status = SP_SUCCESS /\ spage_has_enough_total_space th st p space = true
         /\ space <= cont_free (p_hdr q))
        \/ (status = SP_DOESNT_FIT /\ spage_has_enough_total_space th st p space = false
            /\ q = p)
        \/ (status = SP_ERROR /\ spage_has_enough_total_space th st p space = true
            /\ th_calloc th = false /\ q = p)).
Proof.
  intros W. unfold spage_check_space.
  destruct (spage_has_enough_total_space th st p space) eqn:Et; simpl.
  2: { exists SP_DOESNT_FIT, p. split_and!; auto with rye. }
  destruct (contiguous_spec th p space W) as (b & q & -> & S & Ht & Hf);
    [by apply enough_total_le|].
  destruct b; simpl.
  - exists SP_SUCCESS, q. split_and!; auto.
  - destruct (Hf eq_refl) as [-> ?]. exists SP_ERROR, p. split_and!; auto 6.
Qed.
End Saving.

(** ** The free slot of an insertion *)

Lemma find_free_slot_loop_spec p n : forall i,
  let id := find_free_slot_loop p i n in
  i <= id <= i + Z.of_nat n
  /\ (forall j, i <= j < id -> record_type (slot p j) <> REC_DELETED_WILL_REUSE)
  /\ (id = i + Z.of_nat n \/ record_type (slot p id) = REC_DELETED_WILL_REUSE).
Proof.
  induction n as [|n IH]; intros i; cbn [find_free_slot_loop].
  { split_and!; [lia|lia|lia|left; lia]. }
  zcase; [split_and!; [lia..|right; lia]|].
  destruct (IH (i + 1)) as (? & Hj & ?). split_and!; [lia..| |].
  - intros j Hj'. destruct (decide (j = i)) as [->|]; [lia|]. apply Hj. lia.
  - destruct (decide (find_free_slot_loop p (i + 1) n = i + 1 + Z.of_nat n)); [left; lia|].
    right. lia.
Qed.

Lemma reuse_dead p i :
  page_ok p -> 0 <= i < p_num_slots p ->
  record_type (slot p i) = REC_DELETED_WILL_REUSE -> live (slot p i) = false.
Proof.
  intros W Hi Ht. destruct (live (slot p i)) eqn:Hl; [|done].
  destruct (layout_slot _ _ _ _ (wf_layout _ W) Hi Hl) as (_ & _ & _ & _ & ?). done.
Qed.

(** All slots hold a record when the two counters agree. *)
Lemma full_live p i :
  page_ok p -> p_num_slots p = p_num_records p -> 0 <= i < p_num_slots p ->
  live (slot p i) = true.
Proof.
  intros W Hn Hi. rewrite (wf_nrecs _ W) in Hn.
  replace (p_num_slots p) with (Z.of_nat (length (slots p))) in Hn
    by (rewrite length_slots; lia).
  assert (forall l, Z.of_nat (length l) = sumZ ((fun s => if live s then 1 else 0) <$> l) ->
            forall s, s ∈ l -> live s = true) as Hall.
  { clear. induction l as [|x l IH]; intros Hs s Hin; [by apply not_elem_of_nil in Hin|].
    rewrite fmap_cons in Hs. cbn [sumZ length] in Hs.
    assert (forall l, sumZ ((fun s => if live s then 1 else 0) <$> l) <= Z.of_nat (length l)).
    { clear. induction l as [|y l IH]; [done|]. rewrite fmap_cons. cbn [sumZ length].
      destruct (live y); lia. }
    specialize (H l). apply elem_of_cons in Hin as [->|Hin]; destruct (live x) eqn:E;
      try done; try lia. apply IH; [lia|done]. }
  eapply Hall; [done|]. eapply list_elem_of_lookup_2. by apply slots_lookup.
Qed.

Lemma find_free_slot_spec p :
  page_ok p ->
  let id := spage_find_free_slot p 0 in
  0 <= id <= p_num_slots p
  /\ (forall j, 0 <= j < id -> record_type (slot p j) <> REC_DELETED_WILL_REUSE)
  /\ (id = p_num_slots p \/ record_type (slot p id) = REC_DELETED_WILL_REUSE).
Proof.
  intros W. pose proof (wf_nslots _ W). unfold spage_find_free_slot.
  destruct (p_num_slots p =? p_num_records p) eqn:E.
  - split_and!; [done|done| |by left]. intros j Hj Hr.
    pose proof (full_live p j W ltac:(lia) Hj) as Hl.
    by rewrite (reuse_dead p j W Hj Hr) in Hl.
  - destruct (find_free_slot_loop_spec p (Z.to_nat (p_num_slots p - 0)) 0) as (? & ? & ?).
    split_and!; [lia|lia|done|]. lia.
Qed.

Lemma dense_free_slot p :
  page_ok p -> dense p -> anchor_type (p_hdr p) <> ANCHORED ->
  spage_find_free_slot p 0 = p_num_slots p.
Proof.
  intros W D Ha. destruct (find_free_slot_spec p W) as (Hr & _ & [Hn|Ht]); [done|].
  destruct (decide (spage_find_free_slot p 0 = p_num_slots p)) as [|Hne]; [done|].
  pose proof (D Ha (spage_find_free_slot p 0) ltac:(lia)) as Hl.
  by rewrite (reuse_dead p (spage_find_free_slot p 0) W ltac:(lia) Ht) in Hl.
Qed.

(** ** Memory below a bound *)

(** The bytes below [hi] and those after the page are not changed. *)
Definition agree (hi : Z) (p q : PAGE) : Prop :=
  p_vpid q = p_vpid p
  /\ forall x, x < hi \/ DB_PAGESIZE <= x -> p_mem q x = p_mem p x.

Lemma agree_trans hi p q r : agree hi p q -> agree hi q r -> agree hi p r.
Proof. intros [? Hm] [? Hm']. split; [congruence|]. intros x Hx. by rewrite Hm', Hm. Qed.

Lemma agree_src p' hi p q :
  p_mem p' = p_mem p -> p_vpid p' = p_vpid p -> agree hi p' q -> agree hi p q.
Proof. unfold agree. by intros -> ->. Qed.

Lemma agree_frame hi p q : SPAGE_HEADER_SIZE <= hi -> agree hi p q -> frame p q.
Proof. intros Hh [? Hm]. split; [done|]. intros x Hx. apply Hm. lia. Qed.

Lemma agree_put_slot hi p i s :
  0 <= i -> hi <= slot_addr i -> agree hi p (put_slot p i s).
Proof.
  intros Hi Ha. split; [done|]. intros x Hx. rewrite put_slot_mem. unfold store32.
  apply store_bytes_outside. simpl. unfold slot_addr, SPAGE_SLOT_SIZE in *. lia.
Qed.

Lemma agree_store hi p a bs :
  hi <= a -> a + Z.of_nat (length bs) <= DB_PAGESIZE ->
  agree hi p (set_mem p (store_bytes (p_mem p) a bs)).
Proof. intros Ha Hb. split; [done|]. intros x Hx. apply store_bytes_outside. lia. Qed.

Lemma view_agree al hi p q s :
  valid_alignment al -> agree hi p q -> slot_ok al hi s ->
  view (p_mem q) s = view (p_mem p) s.
Proof.
  intros Hal [_ Hm] ((_ & Hl & _) & _ & Hp). unfold view.
  destruct (live s) eqn:E; [|done]. f_equal. apply load_bytes_ext. intros x Hx.
  destruct (Hp eq_refl) as (_ & _ & ? & _). pose proof (alen_ge al s Hal). apply Hm. lia.
Qed.

Lemma view_list_agree al hi p q l :
  valid_alignment al -> agree hi p q -> layout al hi l ->
  view (p_mem q) <$> l = view (p_mem p) <$> l.
Proof.
  intros Hal Ha [Hf _]%layout_alt. apply list_fmap_ext. intros i s Hi.
  rewrite Forall_lookup in Hf. by eapply view_agree; [..|eapply Hf].
Qed.

(** ** Setting apart an area *)

Lemma used_dead al s : live s = false -> used al s = 0.
Proof. unfold used. by intros ->. Qed.

(** [rest] is the slot array without the slot of the new record: the header
    of [p] accounts for it. *)
Lemma take_area_ok p q rest len type d :
  page_ok p ->
  p_hdr q = with_counts (p_hdr p) (p_num_slots p + d) (p_num_records p) ->
  slots q ≡ₚ mkSlot (offset_to_free_area (p_hdr p)) len type :: rest ->
  layout (alignment (p_hdr p)) (offset_to_free_area (p_hdr p)) rest ->
  sumZ (used (alignment (p_hdr p)) <$> rest) = sumZ (used (alignment (p_hdr p)) <$> slots p) ->
  sumZ ((fun s => if live s then 1 else 0) <$> rest)
  = sumZ ((fun s => if live s then 1 else 0) <$> slots p) ->
  0 <= len < 16384 -> 0 <= type <= 5 -> 0 <= d -> 1 <= p_num_slots p + d ->
  DB_ALIGN len (alignment (p_hdr p)) + 4 * d <= cont_free (p_hdr p) ->
  page_ok (take_area q (DB_ALIGN len (alignment (p_hdr p)) + 4 * d)
             (DB_ALIGN len (alignment (p_hdr p)))).
Proof.
  intros W Hh Hsl L Hu Hc Hlen Ht Hd Hn Hfit.
  pose proof (wf_align _ W) as Hal. pose proof (wf_off _ W) as Ho.
  pose proof (wf_cont _ W). pose proof (wf_nslots _ W). pose proof (wf_total _ W).
  pose proof (wf_nrecs _ W). pose proof (wf_off_al _ W).
  pose proof (DB_ALIGN_spec len _ Hal) as [Hge Hga].
  set (al := alignment (p_hdr p)) in *. set (hi := offset_to_free_area (p_hdr p)) in *.
  set (new := mkSlot hi len type) in *.
  assert (live new = true) as Hl by (apply live_true; unfold SPAGE_HEADER_SIZE in *; simpl; lia).
  set (r := take_area q _ _).
  assert (slots r = slots q) as Hr by done.
  assert (p_hdr r = mkHeader (p_num_slots p + d) (p_num_records p + 1)
    (anchor_type (p_hdr p)) al (total_free (p_hdr p) - (DB_ALIGN len al + 4 * d))
    (cont_free (p_hdr p) - (DB_ALIGN len al + 4 * d)) (hi + DB_ALIGN len al)
    (is_saving (p_hdr p))) as Hrh by (unfold r, take_area; simpl; by rewrite Hh).
  clearbody r. unfold p_num_slots, p_num_records in *.
  constructor; rewrite ?Hr; unfold p_num_slots, p_num_records; rewrite ?Hrh; simpl;
    unfold SPAGE_HEADER_SIZE in *.
  - apply (wf_anchor _ W).
  - done.
  - lia.
  - lia.
  - by apply aligned_add.
  - lia.
  - lia.
  - rewrite Hsl. apply layout_alloc; try done; unfold SPAGE_HEADER_SIZE, DB_PAGESIZE in *; lia.
  - rewrite Hsl, fmap_cons. cbn [sumZ]. rewrite Hu. unfold used at 1. rewrite Hl.
    unfold alen. simpl. lia.
  - rewrite Hsl, fmap_cons. cbn [sumZ]. rewrite Hc, Hl. lia.
Qed.

Lemma insert_perm {A} (l : list A) i x y :
  l !! i = Some y -> <[i := x]> l ≡ₚ x :: delete i l.
Proof.
  intros Hi. rewrite insert_take_drop by (by eapply lookup_lt_Some).
  rewrite delete_take_drop. by rewrite Permutation_middle.
Qed.

(** A dead slot accounts for nothing. *)
Lemma delete_dead_layout al hi l i s :
  l !! i = Some s -> layout al hi l -> layout al hi (delete i l).
Proof. intros Hi. rewrite (delete_Permutation l i s Hi) at 1. by intros [_ [_ ?]]%layout_cons. Qed.

Lemma delete_dead_sum {A} (f : A -> Z) l i s :
  l !! i = Some s -> f s = 0 -> sumZ (f <$> delete i l) = sumZ (f <$> l).
Proof.
  intros Hi Hf. rewrite (delete_Permutation l i s Hi) at 2.
  rewrite fmap_cons. cbn [sumZ]. lia.
Qed.

Lemma dense_alt p :
  0 <= p_num_slots p ->
  dense p <-> (anchor_type (p_hdr p) <> ANCHORED ->
               forall s, s ∈ slots p -> live s = true).
Proof.
  intros Hn. split.
  - intros D Ha s [i Hi]%list_elem_of_lookup. apply slots_lookup_Some in Hi as [Hi ->].
    by apply D.
  - intros D Ha i Hi. apply D; [done|]. eapply list_elem_of_lookup_2.
    by apply slots_lookup.
Qed.

(** The page [q] is [p] with an area of [len] bytes set apart for slot [id];
    [vs v] is the view of [p] with [v] in that slot. *)
Record allocated (p q : PAGE) (id len type space : Z) (vs : SLOT_VIEW -> list SLOT_VIEW)
    : Prop := {
  al_ok : page_ok q;
  al_dense : dense q;
  al_frame : frame p q;
  al_range : 0 <= id < p_num_slots q;
  al_len : record_length (slot q id) = len;
  al_type : record_type (slot q id) = type;
  al_live : live (slot q id) = true;
  al_views : views q = vs (view (p_mem q) (slot q id));
  al_nslots : p_num_slots q = Z.of_nat (length (vs (Dead 0)));
  al_total : total_free (p_hdr q) = total_free (p_hdr p) - space;
  al_nrecs : p_num_records q = p_num_records p + 1;
  al_anchor : anchor_type (p_hdr q) = anchor_type (p_hdr p);
  al_align : alignment (p_hdr q) = alignment (p_hdr p);
  al_saving : is_saving (p_hdr q) = is_saving (p_hdr p) }.

Section Alloc.
Context (p p1 q0 : PAGE) (rest : list SPAGE_SLOT) (id len type d : Z).
Notation al := (alignment (p_hdr p1)).
Notation hi := (offset_to_free_area (p_hdr p1)).
Notation new := (mkSlot hi len type).
Context (S : same_page p p1) (D : dense p).
Context (Hh : p_hdr q0 = with_counts (p_hdr p1) (p_num_slots p1 + d) (p_num_records p1)).
Context (Hag : agree hi p1 q0).
Context (Hsl : slots q0 ≡ₚ new :: rest).
Context (L : layout al hi rest).
Context (Hu : sumZ (used al <$> rest) = sumZ (used al <$> slots p1)).
Context (Hc : sumZ ((fun s => if live s then 1 else 0) <$> rest)
              = sumZ ((fun s => if live s then 1 else 0) <$> slots p1)).
Context (Hin : forall s, s ∈ rest -> s ∈ slots p1).
Context (Hid : 0 <= id) (Hat : slots q0 !! Z.to_nat id = Some new).
Context (Hlen : 0 <= len < 16384) (Ht : 0 <= type <= 5).
Context (Hd : 0 <= d) (Hn : 1 <= p_num_slots p1 + d).
Context (Hfit : DB_ALIGN len al + 4 * d <= cont_free (p_hdr p1)).

#[local] Lemma alloc_new_live : live new = true.
Proof.
  apply live_true. simpl. pose proof (wf_off _ (sp_ok _ _ S)).
  unfold SPAGE_HEADER_SIZE in *. lia.
Qed.

Lemma alloc_core vs :
  (view (p_mem q0) <$> slots q0) = vs (view (p_mem q0) new) ->
  (forall v w, length (vs v) = length (vs w)) ->
  allocated p (take_area q0 (DB_ALIGN len al + 4 * d) (DB_ALIGN len al))
    id len type (DB_ALIGN len al + 4 * d) vs.
Proof.
  intros Hv Hvl. pose proof (sp_ok _ _ S) as W1.
  pose proof (take_area_ok p1 q0 rest len type d W1 Hh Hsl L Hu Hc Hlen Ht Hd Hn Hfit) as W.
  set (r := take_area q0 _ _) in *.
  assert (slots r = slots q0) as Hr by done.
  assert (p_mem r = p_mem q0) as Hm by done.
  assert (p_hdr r = mkHeader (p_num_slots p1 + d) (p_num_records p1 + 1)
    (anchor_type (p_hdr p1)) al (total_free (p_hdr p1) - (DB_ALIGN len al + 4 * d))
    (cont_free (p_hdr p1) - (DB_ALIGN len al + 4 * d)) (hi + DB_ALIGN len al)
    (is_saving (p_hdr p1))) as Hrh by (unfold r, take_area; simpl; by rewrite Hh).
  assert (p_vpid r = p_vpid q0) as Hvp by done. clearbody r.
  rewrite <- Hr in Hat. apply slots_lookup_Some in Hat as [Hir Hir'].
  rewrite Z2Nat.id in Hir, Hir' by done.
  constructor; rewrite <- ?Hir'; try done.
  - apply dense_alt; [apply (wf_nslots _ W)|]. rewrite Hrh. simpl. intros Ha s.
    rewrite Hr, Hsl, elem_of_cons. intros [->|Hs]; [apply alloc_new_live|].
    pose proof (same_page_dense _ _ S D) as D1.
    rewrite dense_alt in D1 by apply (wf_nslots _ W1). by apply D1; [|apply Hin].
  - eapply frame_trans; [apply (sp_frame _ _ S)|].
    eapply frame_mem; [eapply agree_frame; [|exact Hag]|done|done].
    apply (wf_off _ W1).
  - apply alloc_new_live.
  - unfold views. by rewrite Hr, Hm.
  - rewrite (Hvl _ (view (p_mem q0) new)), <- Hv, length_fmap, <- Hr, length_slots.
    pose proof (wf_nslots _ W). lia.
  - rewrite Hrh. simpl. by rewrite (sp_total _ _ S).
  - unfold p_num_records at 1. rewrite Hrh. simpl. by rewrite (sp_nrecs _ _ S).
  - rewrite Hrh. simpl. apply (sp_anchor _ _ S).
  - rewrite Hrh. simpl. apply (sp_align _ _ S).
  - rewrite Hrh. simpl. apply (sp_saving _ _ S).
Qed.
End Alloc.

Lemma new_slot_fits p len type :
  page_ok p -> 0 <= len < 16384 -> 0 <= type <= 5 ->
  slot_fits (mkSlot (offset_to_free_area (p_hdr p)) len type).
Proof.
  intros W Hl Ht. pose proof (wf_off _ W).
  unfold slot_fits, SPAGE_HEADER_SIZE, DB_PAGESIZE in *. simpl. lia.
Qed.

Lemma slots_append p s k :
  0 <= p_num_slots p -> slot_fits s ->
  slots (put_slot (set_counts p (p_num_slots p + 1) k) (p_num_slots p) s) = slots p ++ [s].
Proof.
  intros Hn Hs. unfold slots. rewrite put_slot_num_slots.
  replace (Z.to_nat (p_num_slots (set_counts p (p_num_slots p + 1) k)))
    with (S (Z.to_nat (p_num_slots p))) by (unfold p_num_slots in *; simpl; lia).
  rewrite slots_n_S, Z2Nat.id, slot_put_same by done. f_equal.
  apply slots_n_ext. intros i Hi. rewrite slot_put_other by lia. by apply slot_mem_ext.
Qed.

(** The address of the slot after the last one. *)
Lemma next_slot_addr p :
  page_ok p -> 4 <= cont_free (p_hdr p) ->
  offset_to_free_area (p_hdr p) <= slot_addr (p_num_slots p).
Proof. intros W Hc. pose proof (wf_cont _ W). unfold slot_addr, SPAGE_SLOT_SIZE. lia. Qed.

Section AllocCases.
Context (p p1 : PAGE) (len type : Z).
Notation al := (alignment (p_hdr p1)).
Notation hi := (offset_to_free_area (p_hdr p1)).
Notation n := (p_num_slots p1).
Notation new := (mkSlot hi len type).
Context (S : same_page p p1) (D : dense p).
Context (Hlen : 0 <= len < 16384) (Ht : 0 <= type <= 5).

#[local] Lemma ac_wf : page_ok p1.
Proof. apply (sp_ok _ _ S). Qed.

#[local] Lemma ac_align_nonneg : 0 <= DB_ALIGN len al.
Proof. pose proof (DB_ALIGN_spec len al (wf_align _ ac_wf)). lia. Qed.

(** A new slot after the last one. *)
Lemma alloc_append q0 :
  DB_ALIGN len al + 4 <= cont_free (p_hdr p1) ->
  p_hdr q0 = with_counts (p_hdr p1) (n + 1) (p_num_records p1) ->
  agree hi p1 q0 -> slots q0 = slots p1 ++ [new] ->
  allocated p (take_area q0 (DB_ALIGN len al + 4) (DB_ALIGN len al)) n len type
    (DB_ALIGN len al + 4) (fun v => views p ++ [v]).
Proof.
  intros Hfit Hh Hag Hsl. pose proof ac_wf as W. pose proof (wf_nslots _ W).
  replace (DB_ALIGN len al + 4) with (DB_ALIGN len al + 4 * 1) in * by lia.
  apply (alloc_core p p1 q0 (slots p1)); try done; try lia.
  - rewrite Hsl. symmetry. apply Permutation_cons_append.
  - apply (wf_layout _ W).
  - rewrite Hsl. apply lookup_snoc_Some. right. by rewrite length_slots.
  - rewrite Hsl, fmap_app. simpl.
    rewrite (view_list_agree al hi p1); [|apply (wf_align _ W)|done|apply (wf_layout _ W)].
    by rewrite <- (sp_views _ _ S).
  - intros v w. by rewrite !length_app.
Qed.

(** A dead slot taken again. *)
Lemma alloc_reuse id q0 :
  0 <= id < n -> live (slot p1 id) = false ->
  DB_ALIGN len al <= cont_free (p_hdr p1) ->
  p_hdr q0 = p_hdr p1 -> agree hi p1 q0 -> slots q0 = <[Z.to_nat id := new]> (slots p1) ->
  allocated p (take_area q0 (DB_ALIGN len al) (DB_ALIGN len al)) id len type
    (DB_ALIGN len al) (fun v => <[Z.to_nat id := v]> (views p)).
Proof.
  intros Hid Hdead Hfit Hh Hag Hsl. pose proof ac_wf as W.
  pose proof (slots_lookup p1 id Hid) as Hlk.
  pose proof (alloc_core p p1 q0 (delete (Z.to_nat id) (slots p1)) id len type 0) as HA.
  rewrite Z.mul_0_r, !Z.add_0_r in HA.
  apply HA; clear HA; try done; try lia.
  - rewrite Hh. unfold p_num_slots, p_num_records. by destruct (p_hdr p1).
  - rewrite Hsl. by eapply insert_perm.
  - eapply delete_dead_layout; [done|]. apply (wf_layout _ W).
  - eapply delete_dead_sum; [done|]. by apply used_dead.
  - eapply delete_dead_sum; [done|]. by rewrite Hdead.
  - intros s. rewrite (delete_Permutation (slots p1) (Z.to_nat id) _ Hlk) at 2.
    rewrite elem_of_cons. by right.
  - rewrite Hsl. apply list_lookup_insert_eq. by eapply lookup_lt_Some.
  - rewrite Hsl, list_fmap_insert.
    rewrite (view_list_agree al hi p1); [|apply (wf_align _ W)|done|apply (wf_layout _ W)].
    by rewrite <- (sp_views _ _ S).
  - intros v w. by rewrite !length_insert.
Qed.

(** A slot inserted before slot [id], the following ones shifted. *)
Lemma alloc_shift id q0 :
  0 <= id < n -> DB_ALIGN len al + 4 <= cont_free (p_hdr p1) ->
  p_hdr q0 = with_counts (p_hdr p1) (n + 1) (p_num_records p1) ->
  agree hi p1 q0 ->
  slots q0 = take (Z.to_nat id) (slots p1) ++ new :: drop (Z.to_nat id) (slots p1) ->
  allocated p (take_area q0 (DB_ALIGN len al + 4) (DB_ALIGN len al)) id len type
    (DB_ALIGN len al + 4)
    (fun v => take (Z.to_nat id) (views p) ++ v :: drop (Z.to_nat id) (views p)).
Proof.
  intros Hid Hfit Hh Hag Hsl. pose proof ac_wf as W.
  replace (DB_ALIGN len al + 4) with (DB_ALIGN len al + 4 * 1) in * by lia.
  apply (alloc_core p p1 q0 (slots p1)); try done; try lia.
  - rewrite Hsl, <- Permutation_middle. by rewrite take_drop.
  - apply (wf_layout _ W).
  - rewrite Hsl, lookup_app_r; rewrite length_take, length_slots; [|lia].
    replace (_ - _)%nat with 0%nat by lia. done.
  - rewrite Hsl, fmap_app, fmap_cons, fmap_take, fmap_drop.
    rewrite (view_list_agree al hi p1); [|apply (wf_align _ W)|done|apply (wf_layout _ W)].
    by rewrite <- (sp_views _ _ S).
  - intros v w. by rewrite !length_app.
Qed.
End AllocCases.

(** ** spage_find_empty_slot *)

(** Space an insertion at the free slot [id] needs. *)
Definition need (p : PAGE) (id len : Z) : Z :=
  DB_ALIGN len (alignment (p_hdr p)) + (if id =? p_num_slots p then SPAGE_SLOT_SIZE else 0).

(** The views after a record has been put at the free slot [id]. *)
Definition put_view (p : PAGE) (id : Z) (v : SLOT_VIEW) : list SLOT_VIEW :=
  if id =? p_num_slots p then views p ++ [v] else <[Z.to_nat id := v]> (views p).

Lemma enough_total_mono {ST} `{SavedSpaces ST} th (st : ST) p n m :
  n <= m -> 0 <= n -> 0 <= total_free (p_hdr p) ->
  spage_has_enough_total_space th st p n = false ->
  spage_has_enough_total_space th st p m = false.
Proof. unfold spage_has_enough_total_space. intros. zcases. Qed.

Section FindEmpty.
Context {ST : Type} `{SavedSpacesLaws ST}.
Context (th : THREAD_ENTRY) (st : ST) (Hst : saved_ok st).
Context (p : PAGE) (W : page_ok p) (D : dense p).

Lemma find_empty_slot_spec len type :
  0 <= len < 16384 -> 0 <= type <= 5 ->
  let id := spage_find_free_slot p 0 in
  let fits := spage_has_enough_total_space th st p (need p id len) in
  exists status q out, spage_find_empty_slot th st p len type = (status, q, out)
    /\ ((fits = true /\ status = SP_SUCCESS /\ out = Some (id, need p id len)
         /\ allocated p q id len type (need p id len) (put_view p id))
        \/ (fits = false /\ status = SP_DOESNT_FIT /\ out = None /\ q = p)
        \/ (fits = true /\ status = SP_ERROR /\ th_calloc th = false /\ out = None
            /\ q = p)).
Proof.
  intros Hlen Ht id fits. unfold spage_find_empty_slot. rewrite align_waste.
  destruct (find_free_slot_spec p W) as (Hid & _ & Hfree). fold id in Hid, Hfree |- *.
  pose proof (DB_ALIGN_spec len _ (wf_align _ W)) as [Hal _].
  pose proof (total_free_nonneg p W). unfold need, put_view in *.
  destruct (spage_has_enough_total_space th st p (DB_ALIGN len (alignment (p_hdr p)))) eqn:E0.
  2: { cbn [negb]. exists SP_DOESNT_FIT, p, None. split; [done|]. right; left.
       split_and!; try done. eapply enough_total_mono, E0; [unfold SPAGE_SLOT_SIZE; zcase; lia|lia|done]. }
  cbn [negb]. zcase; [lia|]. destruct (id =? p_num_slots p) eqn:Ei.
  - destruct (check_space_spec th st Hst p (DB_ALIGN len (alignment (p_hdr p)) + SPAGE_SLOT_SIZE) W)
      as (status & p1 & -> & S & Hs).
    unfold fits, SPAGE_SLOT_SIZE in *.
    destruct Hs as [(-> & Hf & Hc)|[(-> & Hf & ->)|(-> & Hf & Hc & ->)]]; cbn.
    + eexists _, _, _. split; [done|]. left. split_and!; try done.
      rewrite <- (sp_align _ _ S) in *.
      assert (id = p_num_slots p1) as -> by (rewrite (sp_nslots _ _ S); lia).
      apply alloc_append; try done.
      * eapply agree_src; [..|apply agree_put_slot]; [done..|apply (wf_nslots _ (sp_ok _ _ S))|].
        apply next_slot_addr; [apply S|]. lia.
      * apply slots_append; [apply (wf_nslots _ (sp_ok _ _ S))|].
        apply new_slot_fits; [apply S|done|done].
    + eexists _, _, _. split; [done|]. by right; left.
    + eexists _, _, _. split; [done|]. by right; right.
  - destruct Hfree as [|Hr]; [lia|].
    assert (fits = true) as -> by (unfold fits; by rewrite Z.add_0_r).
    rewrite Z.add_0_r.
    destruct (contiguous_spec th p (DB_ALIGN len (alignment (p_hdr p))) W)
      as (b & p1 & -> & S & Hb & Hb'); [by eapply enough_total_le|].
    destruct b; cbn.
    + eexists _, _, _. split; [done|]. left. split_and!; try done.
      rewrite <- (sp_align _ _ S) in *. specialize (Hb eq_refl).
      pose proof (sp_ok _ _ S) as W1. pose proof (wf_cont _ W1).
      apply alloc_reuse; try done.
      * rewrite (sp_nslots _ _ S). lia.
      * destruct (sp_shape _ _ S id) as (_ & _ & ->); [lia|]. by apply reuse_dead; [|lia|].
      * apply agree_put_slot; [lia|]. rewrite (sp_nslots _ _ S) in *.
        unfold slot_addr, SPAGE_SLOT_SIZE. lia.
      * apply slots_put; [by apply new_slot_fits|]. rewrite (sp_nslots _ _ S). lia.
    + destruct (Hb' eq_refl) as [-> Hc]. eexists _, _, _. split; [done|]. by right; right.
Qed.
End FindEmpty.

(** ** Writing the data of a record *)

Lemma write_in_record q id bs :
  page_ok q -> 0 <= id < p_num_slots q -> live (slot q id) = true ->
  Z.of_nat (length bs) <= record_length (slot q id) ->
  let r := set_mem q (store_bytes (p_mem q) (offset_to_record (slot q id)) bs) in
  slots r = slots q /\ frame q r
  /\ views r = <[Z.to_nat id :=
       Rec (record_type (slot q id))
         (bs ++ drop (length bs) (load_bytes (p_mem q) (offset_to_record (slot q id))
                                    (Z.to_nat (record_length (slot q id)))))]> (views q).
Proof.
  intros W Hid Hl Hbs r. pose proof (wf_align _ W) as Hal.
  destruct (layout_slot _ _ _ _ (wf_layout _ W) Hid Hl) as (Ho & _ & Hp & _).
  pose proof (alen_ge _ (slot q id) Hal). pose proof (wf_cont _ W).
  pose proof (wf_cont_pos _ W). pose proof (wf_off _ W).
  assert (p_num_slots r = p_num_slots q) as Hnr by done.
  assert (forall i, 0 <= i < p_num_slots q -> slot r i = slot q i) as Hslot.
  { intros i Hi. apply slot_store_below. pose proof (slot_addr_le q i Hi). lia. }
  split_and!.
  - by apply slots_ext.
  - apply frame_store; [done|lia].
  - apply list_eq. intros i.
    destruct (decide (Z.of_nat i < p_num_slots q)) as [Hi|Hi].
    2: { rewrite !lookup_ge_None_2; [done|..]; rewrite ?length_insert, length_views; lia. }
    rewrite <- (Nat2Z.id i) at 1.
    replace (views r !! Z.to_nat (Z.of_nat i)) with (Some (view (p_mem r) (slot q (Z.of_nat i)))).
    2: { rewrite views_lookup by lia. by rewrite Hslot by lia. }
    destruct (decide (i = Z.to_nat id)) as [->|Hne].
    + rewrite list_lookup_insert_eq by (rewrite length_views; lia). f_equal.
      rewrite Z2Nat.id by lia. unfold view. rewrite Hl. f_equal.
      apply load_store_prefix. lia.
    + rewrite list_lookup_insert_ne by done.
      rewrite <- (Nat2Z.id i) at 2. rewrite views_lookup by lia. f_equal.
      destruct (live (slot q (Z.of_nat i))) eqn:Hli; [|unfold view; by rewrite Hli].
      apply view_live; [done|].
      assert (sep (alignment (p_hdr q)) (slot q id) (slot q (Z.of_nat i))) as Hs
        by (eapply layout_sep; [apply (wf_layout _ W)|lia..|done|done]).
      destruct (slot_slot_fits q (Z.of_nat i)) as (_ & ? & _).
      destruct (slot_slot_fits q id) as (_ & ? & _).
      pose proof (alen_ge _ (slot q (Z.of_nat i)) Hal).
      destruct Hs as [Hs|[Hs|Hs]].
      * destruct bs; [|simpl in *; lia]. apply load_bytes_ext. intros. apply store_bytes_nil.
      * assert (record_length (slot q (Z.of_nat i)) = 0) as -> by lia. done.
      * apply load_store_disjoint. lia.
Qed.

(** A page whose header and slots are those of a well-formed page. *)
Lemma page_ok_eq p q : page_ok p -> p_hdr q = p_hdr p -> slots q = slots p -> page_ok q.
Proof.
  intros W Hh Hs. destruct W.
  constructor; rewrite ?Hs; unfold p_num_slots, p_num_records in *; rewrite ?Hh; done.
Qed.

Lemma dense_eq p q :
  page_ok p -> dense p -> p_hdr q = p_hdr p -> slots q = slots p -> dense q.
Proof.
  intros W D Hh Hs. pose proof (wf_nslots _ W).
  rewrite dense_alt in D |- *; rewrite ?Hs, ?Hh; unfold p_num_slots in *;
    rewrite ?Hh; done.
Qed.

(** A descriptor whose data can be stored: for an address to be assigned the
    server stores the transaction identifier, otherwise the caller's bytes. *)
Definition recdes_ok (rd : RECDES) : Prop :=
  0 <= length_ rd /\ 0 <= type_ rd <= 7
  /\ (type_ rd = REC_ASSIGN_ADDRESS -> TRANID_SIZE <= length_ rd)
  /\ (type_ rd <> REC_ASSIGN_ADDRESS ->
      exists bs, data rd = Area bs /\ length_ rd <= Z.of_nat (length bs)).

(** The bytes the record has after the insertion. *)
Definition image (th : THREAD_ENTRY) (rd : RECDES) (bytes : list Z) : Prop :=
  Z.of_nat (length bytes) = length_ rd
  /\ (type_ rd = REC_ASSIGN_ADDRESS -> take 4 bytes = bytes32 (th_tranid th))
  /\ (type_ rd <> REC_ASSIGN_ADDRESS ->
      forall bs, data rd = Area bs -> bytes = take (Z.to_nat (length_ rd)) bs).

Lemma insert_data_spec th q rd id :
  page_ok q -> 0 <= id < p_num_slots q -> live (slot q id) = true ->
  record_length (slot q id) = length_ rd -> record_type (slot q id) = type_ rd ->
  recdes_ok rd ->
  exists r bytes, spage_insert_data th q rd id = (SP_SUCCESS, r)
    /\ slots r = slots q /\ p_hdr r = p_hdr q /\ frame q r /\ p_dirty r = true
    /\ image th rd bytes /\ views r = <[Z.to_nat id := Rec (type_ rd) bytes]> (views q).
Proof.
  intros W Hid Hl Hlen Hty (Hn & _ & Has & Hda). unfold spage_insert_data.
  pose proof (wf_align _ W) as Hal.
  destruct (layout_slot _ _ _ _ (wf_layout _ W) Hid Hl) as (Ho & _ & Hp & _).
  pose proof (alen_ge _ (slot q id) Hal). pose proof (wf_off _ W).
  zcase; [lia|]. destruct (type_ rd =? REC_ASSIGN_ADDRESS) eqn:Ea; cbn [negb].
  - specialize (Has ltac:(lia)). unfold TRANID_SIZE in *. zcase; [lia|].
    destruct (write_in_record q id (bytes32 (th_tranid th)) W Hid Hl) as (Hs & Hf & Hv);
      [simpl; lia|].
    eexists _, _. split; [done|]. rewrite Hty in Hv. split_and!; try done.
    split_and!; [|done|lia]. rewrite length_app, length_drop, length_load_bytes. simpl. lia.
  - destruct Hda as (bs & Hbs & Hbl); [lia|]. zcase; [lia|].
    unfold recdes_bytes. rewrite Hbs.
    destruct (write_in_record q id (take (Z.to_nat (length_ rd)) bs) W Hid Hl)
      as (Hs & Hf & Hv); [rewrite length_take; lia|].
    rewrite Hty, drop_ge, app_nil_r in Hv by (rewrite length_load_bytes, length_take; lia).
    eexists _, _. split; [done|]. split_and!; try done.
    split_and!; [rewrite length_take; lia|lia|]. intros _ bs'. by rewrite Hbs; intros [= ->].
Qed.

(** ** Insertion *)

(** The page [q] is [p] with the record [Rec type bytes] inserted at slot [id]. *)
Record inserted (p q : PAGE) (id type : Z) (bytes : list Z) (space : Z)
    (vs : SLOT_VIEW -> list SLOT_VIEW) : Prop := {
  ins_wf : page_wf q;
  ins_frame : frame p q;
  ins_views : views q = vs (Rec type bytes);
  ins_slot : 0 <= id < p_num_slots q /\ views q !! Z.to_nat id = Some (Rec type bytes);
  ins_total : total_free (p_hdr q) = total_free (p_hdr p) - space;
  ins_nrecs : p_num_records q = p_num_records p + 1;
  ins_anchor : anchor_type (p_hdr q) = anchor_type (p_hdr p);
  ins_align : alignment (p_hdr q) = alignment (p_hdr p);
  ins_saving : is_saving (p_hdr q) = is_saving (p_hdr p);
  ins_dirty : p_dirty q = true }.

(** The write of the data after an area has been set apart, for either of the
    two functions that do it. *)
Lemma inserted_data p q r id rd bytes space vs :
  allocated p q id (length_ rd) (type_ rd) space vs ->
  (forall v w, <[Z.to_nat id := v]> (vs w) = vs v) ->
  slots r = slots q -> p_hdr r = p_hdr q -> frame q r -> p_dirty r = true ->
  views r = <[Z.to_nat id := Rec (type_ rd) bytes]> (views q) ->
  inserted p r id (type_ rd) bytes space vs.
Proof.
  intros A Hvs Hs Hh Hf Hd Hv. pose proof (al_ok _ _ _ _ _ _ _ A) as W.
  pose proof (al_range _ _ _ _ _ _ _ A).
  constructor; unfold p_num_slots, p_num_records; rewrite ?Hh; try apply A; try done.
  - split; [by eapply page_ok_eq|]. eapply dense_eq; [exact W|apply A|done|done].
  - eapply frame_trans; [apply A|done].
  - rewrite Hv, (al_views _ _ _ _ _ _ _ A). apply Hvs.
  - split; [done|]. rewrite Hv. apply list_lookup_insert_eq. rewrite length_views. lia.
Qed.

Lemma insert_data_inserted th p q id rd space vs :
  allocated p q id (length_ rd) (type_ rd) space vs ->
  (forall v w, <[Z.to_nat id := v]> (vs w) = vs v) -> recdes_ok rd ->
  exists r bytes, spage_insert_data th q rd id = (SP_SUCCESS, r)
    /\ image th rd bytes /\ inserted p r id (type_ rd) bytes space vs.
Proof.
  intros A Hvs Hrd.
  destruct (insert_data_spec th q rd id) as (r & bytes & -> & ? & ? & ? & ? & ? & ?);
    [by destruct A..|done|].
  exists r, bytes. split_and!; [done|done|]. by eapply inserted_data.
Qed.

(** The descriptor spage_check_record_for_insert leaves. *)
Definition norm_rd (rd : RECDES) : RECDES :=
  if (type_ rd =? REC_MARKDELETED) || (type_ rd =? REC_DELETED_WILL_REUSE)
  then set_type rd REC_HOME else rd.

Lemma norm_rd_length rd : length_ (norm_rd rd) = length_ rd.
Proof. unfold norm_rd. by zcase. Qed.

Lemma norm_rd_data rd : data (norm_rd rd) = data rd.
Proof. unfold norm_rd. by zcase. Qed.

Lemma norm_rd_ok rd : recdes_ok rd -> recdes_ok (norm_rd rd) /\ 0 <= type_ (norm_rd rd) <= 5.
Proof.
  unfold recdes_ok, norm_rd, REC_MARKDELETED, REC_DELETED_WILL_REUSE, REC_ASSIGN_ADDRESS.
  intros (? & ? & ? & Hd). zcase; simpl; [|split_and!; auto; lia].
  unfold REC_HOME. split_and!; try lia. intros _. apply Hd. lia.
Qed.

Lemma check_record_spec rd :
  spage_check_record_for_insert rd
  = if length_ rd >? spage_max_record_size then (SP_DOESNT_FIT, rd)
    else (SP_SUCCESS, norm_rd rd).
Proof. unfold spage_check_record_for_insert, norm_rd. zcase; [done|]. by zcase. Qed.

Lemma put_view_insert p id v w :
  0 <= id <= p_num_slots p -> <[Z.to_nat id := v]> (put_view p id w) = put_view p id v.
Proof.
  intros Hid. unfold put_view. zcase.
  - replace (Z.to_nat id) with (length (views p) + 0)%nat by (rewrite length_views; lia).
    by rewrite insert_app_r.
  - by rewrite list_insert_insert_eq.
Qed.

Lemma max_record_fits n : 0 <= n -> n <= spage_max_record_size -> 0 <= n < 16384.
Proof. unfold spage_max_record_size, DB_PAGESIZE, SPAGE_HEADER_SIZE, SPAGE_SLOT_SIZE. lia. Qed.

Section Insert.
Context {ST : Type} `{SavedSpacesLaws ST}.
Context (th : THREAD_ENTRY) (st : ST) (Hst : saved_ok st).
Context (p : PAGE) (W : page_wf p) (rd : RECDES) (Hrd : recdes_ok rd).
Notation id := (spage_find_free_slot p 0).
Notation space := (need p id (length_ rd)).

(** The outcome of spage_insert on each of its paths. *)
Lemma spage_insert_cases :
  (spage_max_record_size < length_ rd
   /\ spage_insert th st p rd = (SP_DOESNT_FIT, p, rd, NULL_SLOTID))
  \/ (length_ rd <= spage_max_record_size
      /\ spage_has_enough_total_space th st p space = true
      /\ exists q bytes, spage_insert th st p rd = (SP_SUCCESS, q, norm_rd rd, id)
         /\ image th (norm_rd rd) bytes
         /\ inserted p q id (type_ (norm_rd rd)) bytes space (put_view p id))
  \/ (length_ rd <= spage_max_record_size
      /\ spage_has_enough_total_space th st p space = false
      /\ spage_insert th st p rd = (SP_DOESNT_FIT, p, norm_rd rd, NULL_SLOTID))
  \/ (length_ rd <= spage_max_record_size
      /\ spage_has_enough_total_space th st p space = true /\ th_calloc th = false
      /\ spage_insert th st p rd = (SP_ERROR, p, norm_rd rd, NULL_SLOTID)).
Proof.
  destruct (norm_rd_ok rd Hrd) as [Hrd' Ht]. destruct W as [Wp Dp].
  unfold spage_insert, spage_find_slot_for_insert. rewrite check_record_spec.
  destruct (length_ rd >? spage_max_record_size) eqn:Em; cbn [negb Z.eqb SP_DOESNT_FIT SP_SUCCESS].
  { left. split; [lia|done]. }
  right. cbn. rewrite norm_rd_length.
  destruct (find_empty_slot_spec th st Hst p Wp Dp (length_ rd) (type_ (norm_rd rd)))
    as (status & q & out & -> & Hcase); [by apply max_record_fits; [destruct Hrd|lia]|done|].
  destruct Hcase as [(Hf & -> & -> & A)|[(Hf & -> & -> & ->)|(Hf & -> & Hc & -> & ->)]]; cbn.
  - left. split_and!; [lia|done|]. rewrite <- (norm_rd_length rd) in A at 1.
    destruct (insert_data_inserted th p q id (norm_rd rd) space (put_view p id) A)
      as (r & bytes & -> & Him & I); [|done|by exists r, bytes].
    intros. apply put_view_insert. apply (find_free_slot_spec p Wp).
  - right; left. split_and!; [lia|done|done].
  - right; right. split_and!; [lia|done|done|done].
Qed.
End Insert.
