(* ===== verification/SlottedPageShift.v ===== *)
(** * Slotted pages: the operations that shift the slot array *)
From Stdlib Require Import ZArith Lia ZifyBool Sorting.Sorted.
From stdpp Require Import base list numbers gmap sorting.
From S2P Require Import Prelude StorageCommon SpaceSaving.
From S2P Require Import SlottedPage SlottedPageInv SlottedPageCompact SlottedPageOps.

(** ** The shift loops *)

Lemma shift_up_loop_hdr n : forall p last, p_hdr (shift_up_loop p last n) = p_hdr p.
Proof. induction n as [|n IH]; intros p last; [done|]. cbn [shift_up_loop]. by rewrite IH. Qed.

Lemma shift_up_loop_slot n : forall p last j,
  slot (shift_up_loop p last n) j
  = if (last - Z.of_nat n <? j) && (j <=? last) then slot p (j - 1) else slot p j.
Proof.
  induction n as [|n IH]; intros p last j; cbn [shift_up_loop]; [zcase; [lia|done]|].
  rewrite IH. destruct (decide (j = last)) as [->|Hj].
  - zcase; [lia|]. zcase; [|lia]. apply slot_put_same, slot_slot_fits.
  - zcase.
    + zcase; [|lia]. by rewrite slot_put_other by lia.
    + zcase; [lia|]. by rewrite slot_put_other by lia.
Qed.

Lemma shift_up_loop_agree n : forall p last hi,
  0 <= last - Z.of_nat n -> hi <= slot_addr last -> agree hi p (shift_up_loop p last n).
Proof.
  induction n as [|n IH]; intros p last hi Hl Ha; cbn [shift_up_loop]; [done|].
  eapply agree_trans; [|apply IH; [lia|]].
  - apply agree_put_slot; [lia|done].
  - unfold slot_addr, SPAGE_SLOT_SIZE in *. lia.
Qed.

Lemma shift_down_loop_hdr n : forall p i, p_hdr (shift_down_loop p i n) = p_hdr p.
Proof. induction n as [|n IH]; intros p i; [done|]. cbn [shift_down_loop]. by rewrite IH. Qed.

Lemma shift_down_loop_slot n : forall p i j,
  slot (shift_down_loop p i n) j
  = if (i <=? j) && (j <? i + Z.of_nat n) then slot p (j + 1) else slot p j.
Proof.
  induction n as [|n IH]; intros p i j; cbn [shift_down_loop]; [zcase; [lia|done]|].
  rewrite IH. destruct (decide (j = i)) as [->|Hj].
  - zcase; [lia|]. zcase; [|lia]. apply slot_put_same, slot_slot_fits.
  - zcase.
    + zcase; [|lia]. by rewrite slot_put_other by lia.
    + zcase; [lia|]. by rewrite slot_put_other by lia.
Qed.

Lemma shift_down_loop_agree n : forall p i hi,
  0 <= i -> (forall j, i <= j < i + Z.of_nat n -> hi <= slot_addr j) ->
  agree hi p (shift_down_loop p i n).
Proof.
  induction n as [|n IH]; intros p i hi Hi Ha; cbn [shift_down_loop]; [done|].
  eapply agree_trans; [|apply IH; [lia|intros j Hj; apply Ha; lia]].
  apply agree_put_slot; [lia|]. apply Ha. lia.
Qed.

(** ** The slot array after a shift *)

Lemma slot_fits_empty : slot_fits (mkSlot SPAGE_EMPTY_OFFSET 0 REC_UNKNOWN).
Proof. unfold slot_fits, SPAGE_EMPTY_OFFSET, REC_UNKNOWN. simpl. lia. Qed.

(** A list given by its elements. *)
Lemma slots_list p l :
  Z.of_nat (length l) = p_num_slots p ->
  (forall i s, l !! i = Some s -> slot p (Z.of_nat i) = s) -> slots p = l.
Proof.
  intros Hlen Hl. apply list_eq. intros i.
  destruct (l !! i) as [s|] eqn:Hi.
  - pose proof (lookup_lt_Some _ _ _ Hi). rewrite <- (Hl i s Hi), <- (Nat2Z.id i) at 1.
    apply slots_lookup. lia.
  - apply lookup_ge_None in Hi. apply lookup_ge_None. rewrite length_slots. lia.
Qed.

Section ShiftUp.
Context (p : PAGE) (id k : Z) (new : SPAGE_SLOT).
Context (Hid : 0 <= id < p_num_slots p) (Hnew : slot_fits new).
Notation q := (put_slot (set_counts (spage_shift_slot_up p id) (p_num_slots p + 1) k) id new).

Lemma shift_up_hdr :
  p_hdr q = with_counts (p_hdr p) (p_num_slots p + 1) k.
Proof.
  rewrite put_slot_hdr. unfold spage_shift_slot_up, spage_set_slot. simpl.
  by rewrite put_slot_hdr, shift_up_loop_hdr.
Qed.

Lemma shift_up_slots :
  slots q = take (Z.to_nat id) (slots p) ++ new :: drop (Z.to_nat id) (slots p).
Proof.
  apply slots_list.
  - unfold p_num_slots at 1. rewrite shift_up_hdr. simpl.
    rewrite length_app, length_take, length_cons, length_drop, length_slots. lia.
  - assert (forall j, j <> id -> slot q j
              = if (id <? j) && (j <=? p_num_slots p) then slot p (j - 1) else slot p j) as Ho.
    { intros j Hj. rewrite slot_put_other by done.
      etransitivity; [by apply (slot_mem_ext _ (spage_shift_slot_up p id))|].
      unfold spage_shift_slot_up, spage_set_slot. rewrite slot_put_other by done.
      rewrite shift_up_loop_slot. zcase; (zcase; [done||lia|done||lia]). }
    intros i s. destruct (lt_eq_lt_dec i (Z.to_nat id)) as [[Hi| ->]|Hi].
    + rewrite lookup_app_l, lookup_take_lt by (rewrite ?length_take, ?length_slots; lia).
      intros Hs. rewrite Ho by lia. zcase; [lia|].
      by apply slots_lookup_Some in Hs as [_ ->].
    + rewrite lookup_app_r by (rewrite length_take; lia).
      rewrite length_take, length_slots.
      replace (_ - _)%nat with 0%nat by lia. intros [= <-].
      rewrite Z2Nat.id by lia. by apply slot_put_same.
    + rewrite lookup_app_r by (rewrite length_take, length_slots; lia).
      rewrite length_take, length_slots.
      replace (i - _)%nat with (S (i - 1 - Z.to_nat id)) by lia. simpl.
      rewrite lookup_drop. replace (Z.to_nat id + _)%nat with (i - 1)%nat by lia.
      intros Hs. apply slots_lookup_Some in Hs as [Hs ->].
      rewrite Ho by lia. zcase; [|lia]. f_equal. lia.
Qed.

Lemma shift_up_agree hi : hi <= slot_addr (p_num_slots p) -> agree hi p q.
Proof.
  intros Ha. assert (hi <= slot_addr id) by (unfold slot_addr, SPAGE_SLOT_SIZE in *; lia).
  apply (agree_trans _ _ (spage_shift_slot_up p id)).
  - unfold spage_shift_slot_up, spage_set_slot.
    eapply agree_trans; [|apply agree_put_slot; [lia|done]].
    apply shift_up_loop_agree; [lia|done].
  - by eapply agree_src; [..|apply agree_put_slot]; [done..|lia|].
Qed.
End ShiftUp.

(** ** spage_find_empty_slot_at *)

(** Space an insertion at slot [id] needs, and the views after it. *)
Definition reused (p : PAGE) (id : Z) : bool :=
  (id <? p_num_slots p) && (record_type (slot p id) =? REC_DELETED_WILL_REUSE).

Definition need_at (p : PAGE) (id len : Z) : Z :=
  DB_ALIGN len (alignment (p_hdr p)) + (if reused p id then 0 else SPAGE_SLOT_SIZE).

Definition put_view_at (p : PAGE) (id : Z) (v : SLOT_VIEW) : list SLOT_VIEW :=
  if reused p id then <[Z.to_nat id := v]> (views p)
  else take (Z.to_nat id) (views p) ++ v :: drop (Z.to_nat id) (views p).

(** An insertion at [id] is refused in an anchored page whose slot is taken. *)
Definition slot_taken (p : PAGE) (id : Z) : bool :=
  (id <? p_num_slots p) && negb (reused p id) && (anchor_type (p_hdr p) =? ANCHORED).

Lemma put_view_at_insert p id v w :
  0 <= id <= p_num_slots p -> <[Z.to_nat id := v]> (put_view_at p id w) = put_view_at p id v.
Proof.
  intros Hid. unfold put_view_at. zcase.
  - by rewrite list_insert_insert_eq.
  - replace (Z.to_nat id) with (length (take (Z.to_nat id) (views p)) + 0)%nat at 1
      by (rewrite length_take, length_views; lia).
    by rewrite insert_app_r.
Qed.

Lemma allocated_ext p q id len type space vs vs' :
  (forall v, vs v = vs' v) ->
  allocated p q id len type space vs -> allocated p q id len type space vs'.
Proof. intros Hv A. destruct A. constructor; try done; by rewrite <- Hv. Qed.

(** The end of spage_find_empty_slot_at, from a page with room for the record
    in each of the three cases. *)
Section AtCases.
Context (p p1 : PAGE) (len type : Z).
Context (S : same_page p p1) (D : dense p).
Context (Hlen : 0 <= len < 16384) (Ht : 0 <= type <= 5).
Notation A := (DB_ALIGN len (alignment (p_hdr p1))).
Notation hi := (offset_to_free_area (p_hdr p1)).
Notation new := (mkSlot hi len type).

Lemma at_append :
  A + 4 <= cont_free (p_hdr p1) ->
  allocated p
    (take_area
       (put_slot (put_slot (set_counts p1 (p_num_slots p1 + 1) (p_num_records p1))
                    (p_num_slots p1) (mkSlot SPAGE_EMPTY_OFFSET 0 REC_UNKNOWN))
          (p_num_slots p1) new) (A + 4) A)
    (p_num_slots p1) len type (A + 4) (fun v => views p ++ [v]).
Proof.
  intros Hfit. pose proof (sp_ok _ _ S) as W1. pose proof (wf_nslots _ W1) as Hn.
  pose proof (DB_ALIGN_spec len _ (wf_align _ W1)) as [Hal _].
  apply alloc_append; try done.
  - eapply agree_trans; [|apply agree_put_slot; [done|apply next_slot_addr; [done|lia]]].
    by eapply agree_src; [..|apply agree_put_slot; [done|apply next_slot_addr; [done|lia]]].
  - rewrite slots_put; [|by apply new_slot_fits|rewrite put_slot_num_slots; unfold p_num_slots in *; simpl; lia].
    rewrite slots_append by (done || apply slot_fits_empty).
    replace (Z.to_nat (p_num_slots p1)) with (length (slots p1) + 0)%nat
      by (rewrite length_slots; lia).
    by rewrite insert_app_r.
Qed.

Lemma at_reuse id :
  0 <= id < p_num_slots p1 -> live (slot p1 id) = false -> A <= cont_free (p_hdr p1) ->
  allocated p (take_area (put_slot p1 id new) A A) id len type A
    (fun v => <[Z.to_nat id := v]> (views p)).
Proof.
  intros Hid Hd Hfit. pose proof (sp_ok _ _ S) as W1. pose proof (wf_cont _ W1).
  pose proof (DB_ALIGN_spec len _ (wf_align _ W1)) as [Hal _].
  apply alloc_reuse; try done.
  - apply agree_put_slot; [lia|]. pose proof (slot_addr_le p1 id Hid). lia.
  - apply slots_put; [by apply new_slot_fits|done].
Qed.

Lemma at_shift id :
  0 <= id < p_num_slots p1 -> A + 4 <= cont_free (p_hdr p1) ->
  allocated p
    (take_area
       (put_slot (set_counts (spage_shift_slot_up p1 id) (p_num_slots p1 + 1)
                    (p_num_records p1)) id new) (A + 4) A)
    id len type (A + 4)
    (fun v => take (Z.to_nat id) (views p) ++ v :: drop (Z.to_nat id) (views p)).
Proof.
  intros Hid Hfit. pose proof (sp_ok _ _ S) as W1.
  pose proof (DB_ALIGN_spec len _ (wf_align _ W1)) as [Hal _].
  apply alloc_shift; try done.
  - apply shift_up_hdr.
  - apply shift_up_agree; [done|]. apply next_slot_addr; [done|lia].
  - apply shift_up_slots; [done|by apply new_slot_fits].
Qed.
End AtCases.

Lemma shift_up_fields p id :
  p_hdr (spage_shift_slot_up p id) = p_hdr p.
Proof.
  unfold spage_shift_slot_up, spage_set_slot. by rewrite put_slot_hdr, shift_up_loop_hdr.
Qed.

Section FindEmptyAt.
Context {ST : Type} `{SavedSpacesLaws ST}.
Context (th : THREAD_ENTRY) (st : ST) (Hst : saved_ok st).
Context (p : PAGE) (W : page_ok p) (D : dense p).

Lemma find_empty_slot_at_spec id len type :
  0 <= id <= p_num_slots p -> slot_taken p id = false ->
  0 <= len < 16384 -> 0 <= type <= 5 ->
  let fits := spage_has_enough_total_space th st p (need_at p id len) in
  exists status q, spage_find_empty_slot_at th st p id len type = (status, q)
    /\ ((fits = true /\ status = SP_SUCCESS
         /\ allocated p q id len type (need_at p id len) (put_view_at p id))
        \/ (fits = false /\ status = SP_DOESNT_FIT /\ q = p)
        \/ (fits = true /\ status = SP_ERROR /\ th_calloc th = false /\ q = p)).
Proof.
  intros Hid Hta Hlen Ht fits. unfold spage_find_empty_slot_at. rewrite align_waste.
  pose proof (DB_ALIGN_spec len _ (wf_align _ W)) as [Hal _].
  destruct (check_space_spec th st Hst p (need_at p id len) W) as (status & p1 & Hck & S & Hs).
  fold fits in Hs. pose proof (sp_ok _ _ S) as W1. clearbody fits.
  rewrite <- (sp_align _ _ S) in *.
  unfold need_at in *. rewrite <- ?(sp_align _ _ S) in *.
  destruct (id >? p_num_slots p) eqn:Eg; [lia|].
  destruct (id =? p_num_slots p) eqn:En.
  - assert (reused p id = false) as Hr by (unfold reused; lia).
    rewrite Hr in *. unfold spage_add_new_slot, SPAGE_SLOT_SIZE in *. rewrite Hck.
    destruct Hs as [(-> & Hf & Hc)|[(-> & Hf & ->)|(-> & Hf & Hc & ->)]]; cbn;
      eexists _, _; (split; [done|]); [left|by right; left|by right; right].
    split_and!; [done..|].
    assert (id = p_num_slots p1) as -> by (rewrite (sp_nslots _ _ S); lia).
    replace (p_num_slots p1 + 1 - 1) with (p_num_slots p1) by lia.
    unfold spage_set_slot. rewrite put_slot_hdr.
    eapply allocated_ext; [|by apply (at_append p p1)]. intros v. simpl.
    unfold put_view_at. rewrite Hr, (sp_nslots _ _ S).
    by rewrite take_ge, drop_ge by (rewrite length_views; lia).
  - unfold spage_take_slot_in_use. unfold slot_taken in Hta.
    assert (reused p id = (record_type (slot p id) =? REC_DELETED_WILL_REUSE)) as Hr
      by (unfold reused; lia).
    destruct (record_type (slot p id) =? REC_DELETED_WILL_REUSE) eqn:Et.
    + rewrite Hr, ?Z.add_0_r in *. rewrite Hck.
      destruct Hs as [(-> & Hf & Hc)|[(-> & Hf & ->)|(-> & Hf & Hc & ->)]]; cbn;
        eexists _, _; (split; [done|]); [left|by right; left|by right; right].
      split_and!; [done..|]. eapply allocated_ext; [|apply (at_reuse p p1); try done].
      * intros v. unfold put_view_at. by rewrite Hr.
      * rewrite (sp_nslots _ _ S). lia.
      * apply reuse_dead; [done|rewrite (sp_nslots _ _ S); lia|].
        destruct (sp_shape _ _ S id) as (? & -> & _); lia.
    + destruct (anchor_type (p_hdr p) =? ANCHORED) eqn:Ea; [lia|].
      rewrite Hr in *. unfold SPAGE_SLOT_SIZE in *. rewrite Hck.
      destruct Hs as [(-> & Hf & Hc)|[(-> & Hf & ->)|(-> & Hf & Hc & ->)]]; cbn;
        eexists _, _; (split; [done|]); [left|by right; left|by right; right].
      split_and!; [done..|]. rewrite shift_up_fields.
      unfold p_num_slots at 1, p_num_records. rewrite shift_up_fields.
      eapply allocated_ext; [|apply (at_shift p p1); try done].
      * intros v. unfold put_view_at. by rewrite Hr.
      * rewrite (sp_nslots _ _ S). lia.
Qed.
End FindEmptyAt.

(** ** spage_insert_at and spage_insert_for_recovery *)

(** In an anchored page the recovery of an insertion first marks the slot as
    one to reuse; the slot must not hold a record. *)
Definition mark_reuse (p : PAGE) (id : Z) : PAGE :=
  if id <? p_num_slots p then slot_set_type p id REC_DELETED_WILL_REUSE else p.

Lemma set_type_slots p id t :
  0 <= id < p_num_slots p -> 0 <= t < 16 ->
  slots (slot_set_type p id t)
  = <[Z.to_nat id := mkSlot (offset_to_record (slot p id)) (record_length (slot p id)) t]>
      (slots p).
Proof.
  intros Hid Ht. apply slots_put; [|done].
  destruct (slot_slot_fits p id) as (? & ? & ?). done.
Qed.

(** Changing the type of a slot keeps the accounting, as long as the slot of
    a record does not become that of a deleted one. *)
Lemma set_type_ok p id t :
  page_ok p -> 0 <= id < p_num_slots p -> 0 <= t <= 7 ->
  (live (slot p id) = true -> t <= 5) -> page_ok (slot_set_type p id t).
Proof.
  intros W Hid Ht Hl. pose proof (set_type_slots p id t Hid ltac:(lia)) as Hs.
  pose proof (slots_lookup p id Hid) as Hlk.
  set (s' := mkSlot _ _ _) in Hs.
  assert (live s' = live (slot p id)) as Hl' by done.
  assert (slots (slot_set_type p id t) ≡ₚ s' :: delete (Z.to_nat id) (slots p)) as Hp
    by (rewrite Hs; by eapply insert_perm).
  pose proof (delete_Permutation _ _ _ Hlk) as Hp0.
  destruct W. rewrite Hp0 in wf_layout, wf_total, wf_nrecs.
  constructor; try done; rewrite Hp.
  - simpl. apply layout_cons in wf_layout as (Hok & Hsep & L).
    apply layout_cons. split_and!; [|done|done].
    destruct Hok as ((? & ? & ?) & ? & Hpl). split; [unfold slot_fits; simpl; lia|].
    split; [simpl; lia|]. intros Hli. rewrite Hl' in Hli.
    destruct (Hpl Hli) as (? & ? & ? & ?). specialize (Hl Hli).
    unfold placed, REC_MARKDELETED, REC_DELETED_WILL_REUSE. simpl. split_and!; try done; lia.
  - etrans; [exact wf_total|]. rewrite !fmap_cons. cbn [sumZ]. unfold used. by rewrite Hl'.
  - etrans; [exact wf_nrecs|]. rewrite !fmap_cons. cbn [sumZ]. by rewrite Hl'.
Qed.

Section InsertAt.
Context {ST : Type} `{SavedSpacesLaws ST}.
Context (th : THREAD_ENTRY) (st : ST) (Hst : saved_ok st).
Context (rd : RECDES) (Hrd : recdes_ok rd).

(** The outcome of spage_insert_at on each of its paths. *)
Lemma spage_insert_at_cases p id :
  page_wf p -> 0 <= id ->
  let space := need_at p id (length_ rd) in
  (spage_max_record_size < length_ rd
   /\ spage_insert_at th st p id rd = (SP_DOESNT_FIT, p, rd))
  \/ (length_ rd <= spage_max_record_size
      /\ (p_num_slots p < id \/ slot_taken p id = true)
      /\ spage_insert_at th st p id rd = (SP_ERROR, p, norm_rd rd))
  \/ (length_ rd <= spage_max_record_size /\ id <= p_num_slots p
      /\ slot_taken p id = false
      /\ ((spage_has_enough_total_space th st p space = true
           /\ exists q bytes, spage_insert_at th st p id rd = (SP_SUCCESS, q, norm_rd rd)
              /\ image th (norm_rd rd) bytes
              /\ inserted p q id (type_ (norm_rd rd)) bytes space (put_view_at p id))
          \/ (spage_has_enough_total_space th st p space = false
              /\ spage_insert_at th st p id rd = (SP_DOESNT_FIT, p, norm_rd rd))
          \/ (spage_has_enough_total_space th st p space = true /\ th_calloc th = false
              /\ spage_insert_at th st p id rd = (SP_ERROR, p, norm_rd rd)))).
Proof.
  intros [Wp Dp] Hid space. destruct (norm_rd_ok rd Hrd) as [Hrd' Ht].
  pose proof (proj1 Hrd) as Hn. unfold spage_insert_at. rewrite check_record_spec.
  zcase; [lia|]. destruct (length_ rd >? spage_max_record_size) eqn:Em; cbn.
  { left. split; [lia|done]. }
  right. destruct (id >? p_num_slots p) eqn:Eg.
  { left. split_and!; [lia|left; lia|done]. }
  rewrite norm_rd_length. destruct (slot_taken p id) eqn:Est.
  { left. split_and!; [lia|by right|]. unfold slot_taken, reused in Est.
    unfold spage_find_empty_slot_at, spage_take_slot_in_use. rewrite Eg.
    destruct (id =? p_num_slots p) eqn:?; [lia|].
    destruct (record_type (slot p id) =? REC_DELETED_WILL_REUSE) eqn:?; [lia|].
    by destruct (anchor_type (p_hdr p) =? ANCHORED); [|lia]. }
  right. split_and!; [lia..|done|].
  destruct (find_empty_slot_at_spec th st Hst p Wp Dp id (length_ rd) (type_ (norm_rd rd)))
    as (status & q & -> & Hcase); [lia|done|apply max_record_fits; lia|done|].
  fold space in Hcase.
  destruct Hcase as [(Hf & -> & A)|[(Hf & -> & ->)|(Hf & -> & Hc & ->)]]; cbn.
  - left. split; [done|]. rewrite <- (norm_rd_length rd) in A at 1.
    destruct (insert_data_inserted th p q id (norm_rd rd) space (put_view_at p id) A)
      as (r & bytes & -> & Him & I); [|done|by exists r, bytes].
    intros. apply put_view_at_insert. lia.
  - right; left. by split.
  - right; right. by split_and!.
Qed.
End InsertAt.

Lemma mark_reuse_hdr p id : p_hdr (mark_reuse p id) = p_hdr p.
Proof. unfold mark_reuse. by zcase. Qed.

Lemma mark_reuse_num_slots p id : p_num_slots (mark_reuse p id) = p_num_slots p.
Proof. unfold p_num_slots. by rewrite mark_reuse_hdr. Qed.

Section MarkReuse.
Context (p : PAGE) (id : Z).
Context (W : page_ok p) (Ha : anchor_type (p_hdr p) = ANCHORED).
Context (Hid : 0 <= id <= p_num_slots p).
Context (Hdead : id < p_num_slots p -> live (slot p id) = false).

Lemma mark_reuse_wf : page_wf (mark_reuse p id).
Proof.
  split.
  - unfold mark_reuse. zcase; [|done]. apply set_type_ok; [done|lia|done|].
    rewrite Hdead by lia. done.
  - intros Hne. by rewrite mark_reuse_hdr in Hne.
Qed.

Lemma mark_reuse_frame : frame p (mark_reuse p id).
Proof.
  unfold mark_reuse. zcase; [|done].
  pose proof (wf_cont _ W). pose proof (wf_cont_pos _ W). pose proof (wf_off _ W).
  pose proof (slot_addr_le p id ltac:(lia)).
  apply frame_put_slot; lia.
Qed.

Lemma mark_reuse_reused : reused (mark_reuse p id) id = (id <? p_num_slots p).
Proof.
  unfold reused. rewrite mark_reuse_num_slots. unfold mark_reuse. zcase; [|done].
  unfold slot_set_type. rewrite slot_put_same; [done|].
  destruct (slot_slot_fits p id) as (? & ? & ?). done.
Qed.

Lemma mark_reuse_views :
  views (mark_reuse p id)
  = if id <? p_num_slots p then <[Z.to_nat id := Dead REC_DELETED_WILL_REUSE]> (views p)
    else views p.
Proof.
  unfold mark_reuse. destruct (id <? p_num_slots p) eqn:E; [|done].
  pose proof (wf_cont _ W). pose proof (wf_cont_pos _ W).
  unfold views. rewrite set_type_slots, list_fmap_insert by (unfold REC_DELETED_WILL_REUSE; lia). f_equal.
  - unfold view. change (live (mkSlot _ _ _)) with (live (slot p id)).
    by rewrite Hdead by lia.
  - eapply view_list_agree; [apply (wf_align _ W)| |apply (wf_layout _ W)].
    apply agree_put_slot; [lia|]. pose proof (slot_addr_le p id ltac:(lia)). lia.
Qed.
End MarkReuse.

Lemma inserted_src p p' q id type bytes space vs vs' :
  p_hdr p' = p_hdr p -> frame p p' -> (forall v, vs' v = vs v) ->
  inserted p' q id type bytes space vs' -> inserted p q id type bytes space vs.
Proof.
  intros Hh Hf Hv I. destruct I.
  constructor; try done; rewrite <- ?Hv; try done; unfold p_num_records in *; rewrite <- ?Hh; try done.
  by eapply frame_trans.
Qed.

(** Recovery does not store the transaction identifier of an address to be
    assigned: the record then keeps the bytes of its area. *)
Definition recovered (rd : RECDES) (bytes : list Z) : Prop :=
  Z.of_nat (length bytes) = length_ rd
  /\ (type_ rd <> REC_ASSIGN_ADDRESS ->
      forall bs, data rd = Area bs -> bytes = take (Z.to_nat (length_ rd)) bs).

(** The write of spage_insert_for_recovery. *)
Lemma recovery_write p q id rd space vs :
  allocated p q id (length_ rd) (type_ rd) space vs ->
  (forall v w, <[Z.to_nat id := v]> (vs w) = vs v) -> recdes_ok rd ->
  let off := offset_to_record (slot q id) in
  exists r bytes,
    (if negb (type_ rd =? REC_ASSIGN_ADDRESS) then
       if off + length_ rd >? DB_PAGESIZE then (SP_ERROR, q, rd)
       else (SP_SUCCESS,
             pgbuf_set_dirty (set_mem q (store_bytes (p_mem q) off
                                           (recdes_bytes (p_mem q) rd (length_ rd)))), rd)
     else (SP_SUCCESS, pgbuf_set_dirty q, rd)) = (SP_SUCCESS, r, rd)
    /\ recovered rd bytes /\ inserted p r id (type_ rd) bytes space vs.
Proof.
  intros A Hvs Hrd off. pose proof (al_ok _ _ _ _ _ _ _ A) as W.
  pose proof (al_range _ _ _ _ _ _ _ A) as Hid. pose proof (al_live _ _ _ _ _ _ _ A) as Hl.
  pose proof (proj1 Hrd).
  destruct (type_ rd =? REC_ASSIGN_ADDRESS) eqn:Ea; cbn [negb].
  - set (bytes := load_bytes (p_mem q) off (Z.to_nat (length_ rd))).
    exists (pgbuf_set_dirty q), bytes. split_and!; [done| |].
    + split; [|lia]. unfold bytes. rewrite length_load_bytes. lia.
    + eapply inserted_data; [done|done|done|done|done|done|].
      transitivity (views q); [done|]. symmetry. apply list_insert_id.
      rewrite views_lookup by done. unfold view. rewrite Hl.
      by rewrite (al_len _ _ _ _ _ _ _ A), (al_type _ _ _ _ _ _ _ A).
  - destruct (insert_data_spec (mkThread 0 true true true true true true) q rd id)
      as (r & bytes & He & ? & ? & ? & ? & (? & _ & ?) & ?); [by destruct A..|done|].
    unfold spage_insert_data in He. rewrite Ea in He. cbn [negb] in He. fold off in He.
    destruct (length_ rd <? 0) eqn:?; [lia|].
    destruct (off + length_ rd >? DB_PAGESIZE) eqn:?; [done|].
    injection He as <-. eexists _, bytes. split_and!; [done|by split|].
    by eapply inserted_data.
Qed.

Section InsertForRecovery.
Context {ST : Type} `{SavedSpacesLaws ST}.
Context (th : THREAD_ENTRY) (st : ST) (Hst : saved_ok st).
Context (rd : RECDES) (Hrd : recdes_ok rd).

(** Insertion of recovery in an anchored page, at a slot without record. *)
Lemma insert_for_recovery_cases p id :
  page_ok p -> anchor_type (p_hdr p) = ANCHORED -> 0 <= id <= p_num_slots p ->
  (id < p_num_slots p -> live (slot p id) = false) ->
  length_ rd <= spage_max_record_size ->
  let space := DB_ALIGN (length_ rd) (alignment (p_hdr p))
               + (if id <? p_num_slots p then 0 else SPAGE_SLOT_SIZE) in
  let fits := spage_has_enough_total_space th st p space in
  let vs v := if id <? p_num_slots p then <[Z.to_nat id := v]> (views p)
              else views p ++ [v] in
  (fits = true
   /\ exists q bytes, spage_insert_for_recovery th st p id rd = (SP_SUCCESS, q, norm_rd rd)
      /\ recovered (norm_rd rd) bytes
      /\ inserted p q id (type_ (norm_rd rd)) bytes space vs)
  \/ (fits = false
      /\ spage_insert_for_recovery th st p id rd
         = (SP_DOESNT_FIT, mark_reuse p id, norm_rd rd))
  \/ (fits = true /\ th_calloc th = false
      /\ spage_insert_for_recovery th st p id rd
         = (SP_ERROR, mark_reuse p id, norm_rd rd)).
Proof.
  intros W Ha Hid Hd Hm space fits vs. destruct (norm_rd_ok rd Hrd) as [Hrd' Ht].
  pose proof (proj1 Hrd). destruct (mark_reuse_wf p id W Ha Hid Hd) as [W' D'].
  unfold spage_insert_for_recovery. rewrite check_record_spec, Ha.
  destruct (length_ rd <? 0) eqn:?; [lia|].
  destruct (length_ rd >? spage_max_record_size) eqn:?; [lia|]. cbn.
  rewrite norm_rd_length. fold (mark_reuse p id).
  pose proof (mark_reuse_reused p id) as Hr.
  assert (slot_taken (mark_reuse p id) id = false) as Hta
    by (unfold slot_taken; rewrite Hr, mark_reuse_num_slots; lia).
  destruct (find_empty_slot_at_spec th st Hst _ W' D' id (length_ rd) (type_ (norm_rd rd)))
    as (status & q & -> & Hcase);
    [rewrite mark_reuse_num_slots; lia|done|apply max_record_fits; lia|done|].
  assert (need_at (mark_reuse p id) id (length_ rd) = space) as Hsp
    by (unfold need_at; by rewrite Hr, mark_reuse_hdr).
  assert (spage_has_enough_total_space th st (mark_reuse p id) space = fits) as Hfits.
  { unfold fits, spage_has_enough_total_space, spage_get_total_saved_spaces.
    rewrite mark_reuse_hdr, (proj1 (mark_reuse_frame p id W Hid Hd)). done. }
  rewrite Hsp, Hfits in Hcase.
  destruct Hcase as [(Hf & -> & A)|[(Hf & -> & ->)|(Hf & -> & Hc & ->)]]; cbn; [left|auto|auto 6].
  split; [done|]. rewrite <- (norm_rd_length rd) in A at 1.
  destruct (recovery_write _ _ _ _ _ _ A) as (r & bytes & He & ? & I); [|done|].
  { intros. apply put_view_at_insert. rewrite mark_reuse_num_slots. lia. }
  rewrite norm_rd_length in He. exists r, bytes. split_and!; [done|done|].
  eapply inserted_src; [by apply mark_reuse_hdr|by apply mark_reuse_frame| |done].
  intros v. unfold put_view_at, vs. rewrite Hr, (mark_reuse_views p id W Hid Hd).
  zcase; [by rewrite list_insert_insert_eq|].
  by rewrite take_ge, drop_ge by (rewrite length_views; lia).
Qed.
End InsertForRecovery.
