(* ===== verification/SlottedPageDelete.v ===== *)
(** * Slotted pages: deletion *)
From Stdlib Require Import ZArith Lia ZifyBool Sorting.Sorted.
From stdpp Require Import base list numbers gmap sorting.
From S2P Require Import Prelude StorageCommon SpaceSaving.
From S2P Require Import SlottedPage SlottedPageInv SlottedPageCompact SlottedPageOps.
From S2P Require Import SlottedPageShift.

(** ** Finding a slot *)

Lemma find_slot_spec p id :
  page_ok p ->
  spage_find_slot p id true
  = if (0 <=? id) && (id <? p_num_slots p) && live (slot p id) then Some id else None.
Proof.
  intros W. unfold spage_find_slot, spage_is_unknown_slot.
  destruct ((0 <=? id) && (id <? p_num_slots p)) eqn:Er; [|by zcase; [done|lia]].
  destruct (live (slot p id)) eqn:El; cbn [andb].
  - pose proof (wf_align _ W) as Hal.
    destruct (layout_slot _ _ p id (wf_layout _ W) ltac:(lia) El) as (? & _ & ? & _).
    destruct (slot_slot_fits p id) as (_ & ? & _). pose proof (alen_ge _ (slot p id) Hal).
    pose proof (wf_cont _ W). pose proof (wf_cont_pos _ W). apply live_true in El.
    unfold SPAGE_SLOT_SIZE, SPAGE_EMPTY_OFFSET in *. by zcase; [lia|].
  - unfold live in El. by zcase; [|lia].
Qed.

Lemma find_slot_Some p id :
  page_ok p -> 0 <= id < p_num_slots p -> live (slot p id) = true ->
  spage_find_slot p id true = Some id.
Proof. intros W Hid Hl. rewrite find_slot_spec, Hl by done. by zcase; [|lia]. Qed.

(** ** Records that are not empty *)

(** An empty record has no area: the end of the free area may move below it.
    The operations that give space back are specified on pages without one. *)
Definition solid_view (v : SLOT_VIEW) : Prop :=
  match v with Rec _ bytes => bytes <> [] | Dead _ => True end.

Definition solid (p : PAGE) : Prop := Forall solid_view (views p).

Lemma solid_slot p s :
  solid p -> s ∈ slots p -> live s = true -> 0 < record_length s.
Proof.
  unfold solid. rewrite Forall_forall. intros Hs Hin Hl.
  specialize (Hs (view (p_mem p) s)). unfold views in Hs.
  specialize (Hs ltac:(by apply list_elem_of_fmap_2)). unfold view in Hs. rewrite Hl in Hs.
  simpl in Hs. destruct (decide (0 < record_length s)); [done|].
  replace (Z.to_nat (record_length s)) with 0%nat in Hs by lia. done.
Qed.

(** ** Giving an area back *)

(** The slots left when the last record is taken away are below it. *)
Lemma layout_end al hi s l :
  valid_alignment al -> layout al hi (s :: l) -> live s = true ->
  offset_to_record s + alen al s = hi ->
  (forall x, x ∈ s :: l -> live x = true -> 0 < record_length x) ->
  layout al (offset_to_record s) l.
Proof.
  intros Hal (Hs & Hsep & L)%layout_cons Hl Hend Hpos.
  pose proof (Hpos s ltac:(left) Hl). pose proof (alen_ge al s Hal).
  rewrite layout_alt in L |- *. destruct L as [Hf Hss]. split; [|done].
  rewrite Forall_forall in Hf |- *. intros x Hx. destruct (Hf x Hx) as (? & ? & Hp).
  split_and!; [done|done|]. intros Hlx. destruct (Hp Hlx) as (? & ? & ? & ?).
  pose proof (Hpos x ltac:(by right) Hlx). pose proof (alen_ge al x Hal).
  destruct (Hsep x Hx Hl Hlx) as [?|[?|[?|?]]]; try lia.
  unfold placed. split_and!; try done; lia.
Qed.

Definition dead_ok (s : SPAGE_SLOT) : Prop :=
  slot_fits s /\ record_type s <= 7 /\ live s = false.

(** [q] is [p] without the record of slot [id]; the slot stays as a dead one
    ([d = 0]) or disappears ([d = 1]), and the free area grows by [e]. *)
Lemma release_ok p q id extra d e :
  page_ok p -> solid p -> 0 <= id < p_num_slots p -> live (slot p id) = true ->
  slots q ≡ₚ extra ++ delete (Z.to_nat id) (slots p) ->
  Forall dead_ok extra -> 0 <= d -> d = 1 - Z.of_nat (length extra) ->
  let A := alen (alignment (p_hdr p)) (slot p id) in
  e = 0 \/ (e = A /\ offset_to_record (slot p id) + A = offset_to_free_area (p_hdr p)) ->
  p_hdr q = mkHeader (p_num_slots p - d) (p_num_records p - 1) (anchor_type (p_hdr p))
              (alignment (p_hdr p)) (total_free (p_hdr p) + A + 4 * d)
              (cont_free (p_hdr p) + e + 4 * d) (offset_to_free_area (p_hdr p) - e)
              (is_saving (p_hdr p)) ->
  page_ok q.
Proof.
  intros W Hsol Hid Hl Hsl Hex Hd0 Hd A He Hh. pose proof (slots_lookup p id Hid) as Hlk.
  pose proof (delete_Permutation _ _ _ Hlk) as Hp.
  set (rest := delete (Z.to_nat id) (slots p)) in *.
  pose proof (wf_align _ W) as Hal. pose proof (wf_layout _ W) as L.
  pose proof (wf_total _ W) as Htot. pose proof (wf_nrecs _ W) as Hn.
  rewrite Hp in L, Htot, Hn. rewrite fmap_cons in Htot, Hn. cbn [sumZ] in Htot, Hn.
  unfold used at 1 in Htot. rewrite Hl in Htot, Hn. fold A in Htot.
  destruct (layout_slot _ _ p id (wf_layout _ W) Hid Hl) as (Ho & Hoa & Hend & _).
  fold A in Hend. pose proof (alen_aligned _ (slot p id) Hal) as HAa. fold A in HAa.
  assert (layout (alignment (p_hdr p)) (offset_to_free_area (p_hdr p) - e) rest) as L'.
  { destruct He as [->|[-> He]]; [rewrite Z.sub_0_r; by apply layout_cons in L as (_ & _ & ?)|].
    replace (_ - A) with (offset_to_record (slot p id)) by lia.
    eapply layout_end; [done|done|done|done|]. intros x. rewrite <- Hp. by apply solid_slot. }
  assert (0 <= A) by (apply alen_nonneg; [done|apply (slot_slot_fits p id)]).
  assert (forall f : SPAGE_SLOT -> Z, (forall s, live s = false -> f s = 0) ->
            sumZ (f <$> slots q) = sumZ (f <$> rest)) as Hsum.
  { intros f Hf. rewrite Hsl, fmap_app, sumZ_app. clear -Hex Hf.
    induction Hex as [|s l (_ & _ & Hs) _ IH]; [done|]. rewrite fmap_cons. cbn [sumZ].
    rewrite Hf by done. lia. }
  destruct W. unfold p_num_slots, p_num_records in *.
  constructor; unfold p_num_slots, p_num_records; rewrite ?Hh; simpl; try done; try lia.
  - destruct He as [->|[-> ?]]; [by rewrite Z.sub_0_r|]. by apply aligned_sub.
  - rewrite Hsl. clear -Hex L'. induction Hex as [|s l (? & ? & Hs) _ IH]; [done|].
    simpl. apply layout_cons. split_and!; [split_and!; [done|done|by rewrite Hs]| |done].
    intros x _. unfold live_sep. by rewrite Hs.
  - rewrite Hsum by (intros; by apply used_dead). lia.
  - rewrite Hsum by (by intros s ->). lia.
Qed.

(** ** spage_delete *)

(** Space given back by a deletion. *)
Definition freed (p : PAGE) (id : Z) : Z :=
  alen (alignment (p_hdr p)) (slot p id)
  + (if anchor_type (p_hdr p) =? ANCHORED then 0 else SPAGE_SLOT_SIZE).

(** What the slots describe after a deletion: an anchored page keeps the slot,
    in another page the following slots move down. *)
Definition delete_view (p : PAGE) (id : Z) : list SLOT_VIEW :=
  if anchor_type (p_hdr p) =? ANCHORED
  then <[Z.to_nat id := Dead REC_MARKDELETED]> (views p)
  else delete (Z.to_nat id) (views p).

Record deleted (p q : PAGE) (id : Z) : Prop := {
  del_wf : page_wf q;
  del_frame : frame p q;
  del_views : views q = delete_view p id;
  del_total : total_free (p_hdr q) = total_free (p_hdr p) + freed p id;
  del_nrecs : p_num_records q = p_num_records p - 1;
  del_anchor : anchor_type (p_hdr q) = anchor_type (p_hdr p);
  del_align : alignment (p_hdr q) = alignment (p_hdr p);
  del_saving : is_saving (p_hdr q) = is_saving (p_hdr p) }.

Definition end_space (p : PAGE) (id : Z) : Z :=
  if spage_is_record_located_at_end p id
  then alen (alignment (p_hdr p)) (slot p id) else 0.

Lemma located_at_end_spec p id :
  spage_is_record_located_at_end p id
  = (offset_to_record (slot p id) + alen (alignment (p_hdr p)) (slot p id)
     =? offset_to_free_area (p_hdr p)).
Proof.
  unfold spage_is_record_located_at_end, alen.
  rewrite <- (align_waste (record_length (slot p id)) (alignment (p_hdr p))). lia.
Qed.

Lemma end_space_cases p id :
  let A := alen (alignment (p_hdr p)) (slot p id) in
  end_space p id = 0
  \/ (end_space p id = A
      /\ offset_to_record (slot p id) + A = offset_to_free_area (p_hdr p)).
Proof. intros A. unfold end_space. rewrite located_at_end_spec. fold A. zcase; [right; lia|by left]. Qed.

Lemma delete_free_space_spec p id :
  let A := alen (alignment (p_hdr p)) (slot p id) in
  let q := (delete_free_space p id).1 in
  (delete_free_space p id).2 = A
  /\ p_hdr q = mkHeader (p_num_slots p) (p_num_records p - 1) (anchor_type (p_hdr p))
                 (alignment (p_hdr p)) (total_free (p_hdr p) + A)
                 (cont_free (p_hdr p) + end_space p id)
                 (offset_to_free_area (p_hdr p) - end_space p id) (is_saving (p_hdr p))
  /\ p_mem q = p_mem p /\ p_vpid q = p_vpid p.
Proof.
  intros A q. unfold q, delete_free_space. cbn zeta.
  rewrite (slot_mem_ext (set_counts _ _ _) p) by done.
  set (r := set_free _ _ _ _).
  assert (spage_is_record_located_at_end r id = spage_is_record_located_at_end p id) as ->.
  { rewrite !located_at_end_spec. unfold r. simpl.
    by rewrite (slot_mem_ext (set_free _ _ _ _) p) by done. }
  unfold end_space, r. rewrite align_waste.
  zcase; simpl; unfold p_num_slots, p_num_records; rewrite ?Z.add_0_r, ?Z.sub_0_r;
    by rewrite ?align_waste.
Qed.

Section DeleteCases.
Context (p p1 : PAGE) (id : Z).
Notation A := (alen (alignment (p_hdr p)) (slot p id)).
Context (W : page_wf p) (Hsol : solid p).
Context (Hid : 0 <= id < p_num_slots p) (Hl : live (slot p id) = true).
Context (Hh : p_hdr p1
              = mkHeader (p_num_slots p) (p_num_records p - 1) (anchor_type (p_hdr p))
                  (alignment (p_hdr p)) (total_free (p_hdr p) + A)
                  (cont_free (p_hdr p) + end_space p id)
                  (offset_to_free_area (p_hdr p) - end_space p id) (is_saving (p_hdr p))).
Context (Hm : p_mem p1 = p_mem p) (Hv : p_vpid p1 = p_vpid p).

#[local] Lemma dc_slot j : slot p1 j = slot p j.
Proof. by apply slot_mem_ext. Qed.

#[local] Lemma dc_nslots : p_num_slots p1 = p_num_slots p.
Proof. unfold p_num_slots. by rewrite Hh. Qed.

#[local] Lemma dc_addr j : 0 <= j < p_num_slots p -> offset_to_free_area (p_hdr p) <= slot_addr j.
Proof.
  intros Hj. destruct W as [Wp _]. pose proof (wf_cont _ Wp). pose proof (wf_cont_pos _ Wp).
  pose proof (slot_addr_le p j Hj). lia.
Qed.

(** The slot stays, without its record. *)
Lemma delete_anchored :
  anchor_type (p_hdr p) = ANCHORED ->
  deleted p (slot_set_type (slot_set_offset p1 id SPAGE_EMPTY_OFFSET) id REC_MARKDELETED) id.
Proof.
  intros Ha. destruct W as [Wp Dp]. pose proof (wf_off _ Wp). pose proof (dc_addr id Hid).
  set (dead := mkSlot SPAGE_EMPTY_OFFSET (record_length (slot p id)) REC_MARKDELETED).
  assert (slot_fits dead) as Hdf.
  { destruct (slot_slot_fits p id) as (_ & ? & _).
    unfold dead, slot_fits, SPAGE_EMPTY_OFFSET, REC_MARKDELETED. simpl. lia. }
  set (q := slot_set_type _ _ _).
  assert (p_hdr q = p_hdr p1) as Hqh by done.
  assert (slots q = <[Z.to_nat id := dead]> (slots p)) as Hs.
  { unfold q, slot_set_type, slot_set_offset. rewrite dc_slot.
    assert (slot_fits (mkSlot SPAGE_EMPTY_OFFSET (record_length (slot p id))
                         (record_type (slot p id)))) as Hf.
    { destruct (slot_slot_fits p id) as (_ & ? & ?).
      unfold slot_fits, SPAGE_EMPTY_OFFSET. simpl. lia. }
    rewrite slot_put_same by done. cbn [offset_to_record record_length]. fold dead.
    rewrite !slots_put by (rewrite ?put_slot_num_slots, ?dc_nslots; done).
    rewrite list_insert_insert_eq. f_equal. apply slots_ext; [apply dc_nslots|].
    intros. apply dc_slot. }
  assert (agree (offset_to_free_area (p_hdr p)) p q) as Hag.
  { unfold q, slot_set_type, slot_set_offset.
    eapply agree_trans; [|apply agree_put_slot; [lia|done]].
    by eapply agree_src; [..|apply agree_put_slot; [lia|done]]. }
  assert (page_ok q) as Wq.
  { apply (release_ok p q id [dead] 0 (end_space p id)); try done.
    - rewrite Hs. eapply insert_perm. by apply slots_lookup.
    - apply Forall_singleton. by split_and!.
    - apply end_space_cases.
    - rewrite Hqh, Hh, Z.mul_0_r, !Z.sub_0_r, !Z.add_0_r. done. }
  constructor; unfold p_num_records; rewrite ?Hqh, ?Hh; try done.
  - split; [done|]. intros Hne. rewrite Hqh, Hh in Hne. done.
  - eapply agree_frame; [|done]. lia.
  - unfold delete_view. rewrite Ha. cbn. unfold views. rewrite Hs, list_fmap_insert. f_equal.
    eapply view_list_agree; [apply (wf_align _ Wp)|done|apply (wf_layout _ Wp)].
  - unfold freed. rewrite Ha. cbn. lia.
Qed.

#[local] Lemma dc_reduce_hdr :
  p_hdr (spage_reduce_a_slot (spage_shift_slot_down p1 id))
  = mkHeader (p_num_slots p - 1) (p_num_records p - 1) (anchor_type (p_hdr p))
      (alignment (p_hdr p)) (total_free (p_hdr p) + A + 4 * 1)
      (cont_free (p_hdr p) + end_space p id + 4 * 1)
      (offset_to_free_area (p_hdr p) - end_space p id) (is_saving (p_hdr p)).
Proof.
  unfold spage_reduce_a_slot, spage_shift_slot_down, spage_set_slot, p_num_slots, p_num_records.
  simpl. rewrite !put_slot_hdr, shift_down_loop_hdr, Hh. done.
Qed.

#[local] Lemma dc_down_slot j :
  0 <= j < p_num_slots p - 1 ->
  slot (spage_reduce_a_slot (spage_shift_slot_down p1 id)) j
  = if id <=? j then slot p (j + 1) else slot p j.
Proof.
  intros Hj.
  assert (p_num_slots (spage_shift_slot_down p1 id) = p_num_slots p) as Hn.
  { unfold p_num_slots at 1, spage_shift_slot_down, spage_set_slot.
    rewrite put_slot_hdr, shift_down_loop_hdr, Hh. done. }
  unfold spage_reduce_a_slot, spage_set_slot. rewrite Hn.
  etransitivity; [by apply (slot_mem_ext _ (put_slot (spage_shift_slot_down p1 id)
    (p_num_slots p - 1) (mkSlot SPAGE_EMPTY_OFFSET 0 REC_UNKNOWN)))|].
  rewrite slot_put_other by lia. unfold spage_shift_slot_down, spage_set_slot.
  rewrite dc_nslots, slot_put_other, shift_down_loop_slot, !dc_slot by lia.
  zcase; zcase; done || lia.
Qed.

#[local] Lemma dc_down_slots :
  slots (spage_reduce_a_slot (spage_shift_slot_down p1 id)) = delete (Z.to_nat id) (slots p).
Proof.
  set (q := spage_reduce_a_slot _).
  assert (p_num_slots q = p_num_slots p - 1) as Hn
    by (unfold p_num_slots at 1, q; by rewrite dc_reduce_hdr).
  apply slots_list.
  - rewrite length_delete by (rewrite slots_lookup by done; by eexists).
    rewrite length_slots, Hn. lia.
  - intros i s Hi. pose proof (lookup_lt_Some _ _ _ Hi) as Hlt.
    rewrite length_delete, length_slots in Hlt by (rewrite slots_lookup by done; by eexists).
    unfold q. rewrite dc_down_slot by lia. zcase.
    + rewrite list_lookup_delete_ge in Hi by lia. apply slots_lookup_Some in Hi as [_ ->].
      f_equal. lia.
    + rewrite list_lookup_delete_lt in Hi by lia. by apply slots_lookup_Some in Hi as [_ ->].
Qed.

#[local] Lemma dc_down_agree :
  agree (offset_to_free_area (p_hdr p)) p (spage_reduce_a_slot (spage_shift_slot_down p1 id)).
Proof.
  pose proof (dc_addr (p_num_slots p - 1) ltac:(lia)).
  unfold spage_reduce_a_slot, spage_set_slot, spage_shift_slot_down, spage_set_slot.
  rewrite put_slot_num_slots.
  assert (forall n i, p_num_slots (shift_down_loop p1 i n) = p_num_slots p) as ->.
  { intros. unfold p_num_slots. by rewrite shift_down_loop_hdr, Hh. }
  rewrite dc_nslots.
  set (p2 := shift_down_loop p1 id _).
  apply (agree_trans _ _ p2).
  { eapply agree_src; [done|done|]. apply shift_down_loop_agree; [lia|].
    intros j Hj. apply dc_addr. lia. }
  eapply agree_trans; [apply agree_put_slot; [|done]; lia|].
  eapply agree_trans; [apply agree_put_slot; [|done]; lia|]. done.
Qed.

(** The slot disappears and the following ones move down. *)
Lemma delete_unanchored :
  anchor_type (p_hdr p) <> ANCHORED ->
  deleted p (spage_reduce_a_slot (spage_shift_slot_down p1 id)) id.
Proof.
  intros Ha. destruct W as [Wp Dp]. pose proof (wf_off _ Wp).
  pose proof dc_reduce_hdr as Hqh. pose proof dc_down_slots as Hs.
  pose proof dc_down_agree as Hag. set (q := spage_reduce_a_slot _) in *. clearbody q.
  assert (page_ok q) as Wq.
  { apply (release_ok p q id [] 1 (end_space p id)); try done; [by rewrite Hs|].
    apply end_space_cases. }
  constructor; unfold p_num_records; rewrite ?Hqh; try done.
  - split; [done|]. apply dense_alt; [apply (wf_nslots _ Wq)|]. rewrite Hqh. simpl.
    intros _ s Hin. rewrite dense_alt in Dp by apply (wf_nslots _ Wp). apply Dp; [done|].
    rewrite Hs in Hin. apply list_elem_of_lookup in Hin as [i Hi].
    rewrite (delete_Permutation (slots p) (Z.to_nat id) (slot p id)) by (by apply slots_lookup).
    right. by eapply list_elem_of_lookup_2.
  - eapply agree_frame; [|done]. lia.
  - unfold delete_view. destruct (anchor_type (p_hdr p) =? ANCHORED) eqn:E; [lia|].
    unfold views. rewrite Hs, list_fmap_delete. f_equal.
    eapply view_list_agree; [apply (wf_align _ Wp)|done|apply (wf_layout _ Wp)].
  - unfold freed, SPAGE_SLOT_SIZE. simpl. zcase; lia.
Qed.
End DeleteCases.

Section Delete.
Context {ST : Type} `{SavedSpacesLaws ST}.
Context (th : THREAD_ENTRY) (st : ST).

(** What a page with saving does with the space it gets back. *)
Definition give_back (p : PAGE) (n : Z) : Z * ST :=
  if is_saving (p_hdr p) then save_space th (p_vpid p) n st else (NO_ERROR, st).

Lemma spage_delete_none p id :
  page_ok p -> ~ (0 <= id < p_num_slots p /\ live (slot p id) = true) ->
  spage_delete th st p id = (NULL_SLOTID, p, st).
Proof.
  intros W Hn. unfold spage_delete. rewrite find_slot_spec by done.
  zcase; [|done]. exfalso. apply Hn. lia.
Qed.

Lemma spage_delete_spec p id :
  page_wf p -> solid p -> 0 <= id < p_num_slots p -> live (slot p id) = true ->
  exists q, deleted p q id
    /\ spage_delete th st p id
       = (if (give_back p (freed p id)).1 =? NO_ERROR then id else NULL_SLOTID,
          if (give_back p (freed p id)).1 =? NO_ERROR then pgbuf_set_dirty q else q,
          (give_back p (freed p id)).2).
Proof.
  intros W Hsol Hid Hl. pose proof (proj1 W) as Wp. unfold spage_delete.
  rewrite find_slot_Some by done.
  destruct (delete_free_space_spec p id) as (HA & Hh & Hm & Hv).
  destruct (delete_free_space p id) as [p1 A]. simpl in *. subst A.
  rewrite Hh. cbn [anchor_type]. rewrite (wf_anchor _ Wp). cbn [negb].
  destruct (anchor_type (p_hdr p) =? ANCHORED) eqn:Ea.
  - pose proof (delete_anchored p p1 id W Hsol Hid Hl Hh Hm Hv ltac:(lia)) as D.
    eexists. split; [exact D|]. rewrite (del_saving _ _ _ D), (proj1 (del_frame _ _ _ D)).
    unfold give_back, freed. rewrite Ea, Z.add_0_r.
    destruct (is_saving (p_hdr p)); [|done].
    destruct (save_space _ _ _ _) as [r st']. simpl. by destruct (r =? NO_ERROR).
  - pose proof (delete_unanchored p p1 id W Hsol Hid Hl Hh Hm Hv ltac:(lia)) as D.
    eexists. split; [exact D|]. rewrite (del_saving _ _ _ D), (proj1 (del_frame _ _ _ D)).
    unfold give_back, freed. rewrite Ea.
    destruct (is_saving (p_hdr p)); [|done].
    destruct (save_space _ _ _ _) as [r st']. simpl. by destruct (r =? NO_ERROR).
Qed.
End Delete.
