(* ===== verification/SlottedPageUpdate.v ===== *)
(** * Slotted pages: update *)
From Stdlib Require Import ZArith Lia ZifyBool Sorting.Sorted.
From stdpp Require Import base list numbers gmap sorting.
From S2P Require Import Prelude StorageCommon SpaceSaving.
From S2P Require Import SlottedPage SlottedPageInv SlottedPageCompact SlottedPageOps.
From S2P Require Import SlottedPageShift SlottedPageDelete.

(** Bytes more than before an image of [len] bytes needs at slot [id]. *)
Definition growth (p : PAGE) (id len : Z) : Z :=
  DB_ALIGN len (alignment (p_hdr p)) - alen (alignment (p_hdr p)) (slot p id).
#[global] Arguments growth : simpl never.

Record updated (p q : PAGE) (id len : Z) (bytes : list Z) : Prop := {
  up_wf : page_wf q;
  up_frame : frame p q;
  up_views : views q = <[Z.to_nat id := Rec (record_type (slot p id)) bytes]> (views p);
  up_total : total_free (p_hdr q) = total_free (p_hdr p) - growth p id len;
  up_nrecs : p_num_records q = p_num_records p;
  up_anchor : anchor_type (p_hdr q) = anchor_type (p_hdr p);
  up_align : alignment (p_hdr q) = alignment (p_hdr p);
  up_saving : is_saving (p_hdr q) = is_saving (p_hdr p) }.

(** A page that was changed and put back. *)
Record restored (p q : PAGE) : Prop := {
  re_wf : page_wf q;
  re_hdr : p_hdr q = p_hdr p;
  re_slots : slots q = slots p;
  re_views : views q = views p;
  re_frame : frame p q }.

(** The view of a page whose memory differs above the record area and whose
    slots differ at [id]. *)
Lemma views_insert p q id s hi :
  page_ok p -> 0 <= id < p_num_slots p -> hi = offset_to_free_area (p_hdr p) ->
  (forall x, x < hi -> p_mem q x = p_mem p x) ->
  slots q = <[Z.to_nat id := s]> (slots p) ->
  views q = <[Z.to_nat id := view (p_mem q) s]> (views p).
Proof.
  intros W Hid -> Hm Hs. unfold views. rewrite Hs, list_fmap_insert. f_equal.
  apply list_fmap_ext. intros i t Hi. apply slots_lookup_Some in Hi as [Hi ->].
  unfold view. destruct (live _) eqn:Hl; [|done]. f_equal. apply load_bytes_ext.
  intros x Hx. apply Hm. pose proof (wf_align _ W) as Hal.
  destruct (layout_slot _ _ _ _ (wf_layout _ W) Hi Hl) as (_ & _ & ? & _).
  destruct (slot_slot_fits p (Z.of_nat i)) as (_ & ? & _).
  pose proof (alen_ge _ (slot p (Z.of_nat i)) Hal). lia.
Qed.

(** Replacing the slot of a record by the one of another keeps a page dense. *)
Lemma dense_insert p q id s :
  page_ok p -> page_ok q -> dense p -> 0 <= id < p_num_slots p -> live s = true ->
  anchor_type (p_hdr q) = anchor_type (p_hdr p) ->
  slots q = <[Z.to_nat id := s]> (slots p) -> dense q.
Proof.
  intros Wp Wq D Hid Hl Ha Hs.
  rewrite dense_alt in D |- * by (apply wf_nslots; done). rewrite Ha. intros Hne t.
  rewrite Hs. intros [j Hj]%list_elem_of_lookup.
  apply list_lookup_insert_Some in Hj as [(_ & -> & _)|(_ & Hj)]; [done|].
  apply D; [done|]. by eapply list_elem_of_lookup_2.
Qed.

(** ** The new image in the old area *)

Section InPlace.
Context (p : PAGE) (id : Z) (rd : RECDES) (bs : list Z).
Notation al := (alignment (p_hdr p)).
Notation off := (offset_to_record (slot p id)).
Notation new := (mkSlot off (length_ rd) (record_type (slot p id))).
Context (W : page_wf p) (Hsol : solid p).
Context (Hid : 0 <= id < p_num_slots p) (Hl : live (slot p id) = true).
Context (Hd : data rd = Area bs) (Hbs : length_ rd <= Z.of_nat (length bs)).
Context (Hlen : 0 <= length_ rd <= record_length (slot p id)).

#[local] Lemma ip_new_ok : slot_ok al (off + alen al new) new.
Proof.
  destruct W as [Wp _]. destruct (slot_slot_fits p id) as (? & ? & ?).
  destruct (layout_slot _ _ _ _ (wf_layout _ Wp) Hid Hl) as (? & ? & ? & ? & ?).
  pose proof (layout_type _ _ _ _ (wf_layout _ Wp) Hid).
  split; [unfold slot_fits; simpl; lia|]. split; [done|]. intros _.
  unfold placed. simpl. split_and!; done.
Qed.

(** The slot array with the shorter record, for either end of the area. *)
#[local] Lemma ip_layout e :
  e = 0 \/ (e = alen al new - alen al (slot p id) /\ off + alen al (slot p id)
            = offset_to_free_area (p_hdr p)) ->
  layout al (offset_to_free_area (p_hdr p) + e) (new :: delete (Z.to_nat id) (slots p)).
Proof.
  intros He. destruct W as [Wp _]. pose proof (wf_align _ Wp) as Hal.
  pose proof (wf_layout _ Wp) as L. pose proof (slots_lookup p id Hid) as Hlk.
  pose proof (delete_Permutation _ _ _ Hlk) as Hp. rewrite Hp in L.
  pose proof L as (Hok & Hsep & L')%layout_cons.
  destruct (layout_slot _ _ _ _ (wf_layout _ Wp) Hid Hl) as (? & ? & ? & _).
  assert (alen al new <= alen al (slot p id)) as Hle by (apply DB_ALIGN_mono; [done|simpl; lia]).
  assert (0 <= alen al new) by (apply alen_nonneg; [done|simpl; lia]).
  apply layout_cons. split_and!.
  - eapply slot_ok_mono; [|apply ip_new_ok]. lia.
  - intros x Hx _ Hlx. destruct (Hsep x Hx Hl Hlx) as [?|[?|[?|?]]].
    + left. lia.
    + by right; left.
    + right; right; left. simpl in *. lia.
    + right; right; right. done.
  - destruct He as [->|[-> Hend]]; [by rewrite Z.add_0_r|].
    eapply layout_mono; [|eapply layout_end; [done|exact L|done|done|]]; [lia|].
    intros x. rewrite <- Hp. by apply solid_slot.
Qed.

(** The page with the shorter slot, before the image is written. *)
Definition ip_end : Z :=
  if off + alen al (slot p id) =? offset_to_free_area (p_hdr p)
  then growth p id (length_ rd) else 0.

Definition ip_shrunk : PAGE :=
  set_free (put_slot p id new) (total_free (p_hdr p) - growth p id (length_ rd))
    (cont_free (p_hdr p) - ip_end) (offset_to_free_area (p_hdr p) + ip_end).

Lemma ip_shrunk_slots : slots ip_shrunk = <[Z.to_nat id := new]> (slots p).
Proof.
  transitivity (slots (put_slot p id new)); [done|]. apply slots_put; [|done].
  apply ip_new_ok.
Qed.

Lemma ip_shrunk_ok : page_ok ip_shrunk.
Proof.
  destruct W as [Wp _]. pose proof (wf_align _ Wp) as Hal.
  destruct (layout_slot _ _ _ _ (wf_layout _ Wp) Hid Hl) as (Ho & Hoa & Hend & _).
  assert (0 <= alen al new) by (apply alen_nonneg; [done|simpl; lia]).
  assert (alen al new <= alen al (slot p id)) as Hle by (apply DB_ALIGN_mono; [done|simpl; lia]).
  pose proof (alen_aligned al new Hal) as Hna. pose proof (slots_lookup p id Hid) as Hlk.
  assert (slots ip_shrunk ≡ₚ new :: delete (Z.to_nat id) (slots p)) as Hp
    by (rewrite ip_shrunk_slots; by eapply insert_perm).
  pose proof (delete_Permutation _ _ _ Hlk) as Hp0.
  assert (growth p id (length_ rd) = alen al new - alen al (slot p id)) as Hg by done.
  assert (ip_end = 0 \/ (ip_end = alen al new - alen al (slot p id)
            /\ off + alen al (slot p id) = offset_to_free_area (p_hdr p))) as He
    by (unfold ip_end; rewrite Hg; zcase; [right; lia|by left]).
  pose proof (ip_layout ip_end He) as L.
  assert (live new = true) as Hln by done.
  destruct Wp. rewrite Hp0, fmap_cons in wf_total, wf_nrecs. cbn [sumZ] in wf_total, wf_nrecs.
  unfold used at 1 in wf_total. rewrite Hl in wf_total, wf_nrecs.
  unfold p_num_slots, p_num_records in *.
  assert (p_hdr ip_shrunk
    = with_free (p_hdr p) (total_free (p_hdr p) - growth p id (length_ rd))
        (cont_free (p_hdr p) - ip_end) (offset_to_free_area (p_hdr p) + ip_end)) as Hh by done.
  constructor; unfold p_num_slots, p_num_records; rewrite ?Hh; simpl; try done; try lia.
  - destruct He as [->|[-> Hend']]; [by rewrite Z.add_0_r|].
    replace (_ + _) with (off + alen al new) by lia. by apply aligned_add.
  - by rewrite Hp.
  - rewrite Hp, Hg, fmap_cons. cbn [sumZ]. unfold used at 1. rewrite Hln. lia.
  - rewrite Hp, fmap_cons. cbn [sumZ]. rewrite Hln. lia.
Qed.

#[local] Lemma ip_write_in_place :
  spage_update_record_in_place p id rd (growth p id (length_ rd))
  = (SP_SUCCESS,
     set_mem ip_shrunk (store_bytes (p_mem ip_shrunk) (offset_to_record (slot ip_shrunk id))
                          (take (Z.to_nat (length_ rd)) bs))).
Proof.
  destruct W as [Wp Dp]. pose proof (wf_align _ Wp) as Hal.
  destruct (layout_slot _ _ _ _ (wf_layout _ Wp) Hid Hl) as (Ho & _ & Hend & _).
  pose proof (wf_off _ Wp). pose proof (alen_ge _ (slot p id) Hal).
  unfold spage_update_record_in_place. destruct (length_ rd <? 0) eqn:?; [lia|].
  assert (slot (slot_set_length p id (length_ rd)) id = new) as ->
    by (apply slot_put_same, ip_new_ok).
  assert (slot ip_shrunk id = new) as ->.
  { etransitivity; [by apply (slot_mem_ext _ (put_slot p id new))|].
    apply slot_put_same, ip_new_ok. }
  cbn [offset_to_record]. destruct (off + length_ rd >? DB_PAGESIZE) eqn:?; [lia|].
  unfold recdes_bytes, ip_shrunk, ip_end. rewrite Hd, located_at_end_spec.
  f_equal. zcase; [done|]. by rewrite Z.sub_0_r, Z.add_0_r.
Qed.

Lemma in_place_spec :
  exists q, spage_update_record_in_place p id rd (growth p id (length_ rd)) = (SP_SUCCESS, q)
    /\ updated p q id (length_ rd) (take (Z.to_nat (length_ rd)) bs).
Proof.
  eexists. split; [apply ip_write_in_place|].
  destruct W as [Wp Dp]. pose proof ip_shrunk_ok as Ws. pose proof (wf_off _ Wp).
  pose proof (wf_cont _ Wp). pose proof (wf_cont_pos _ Wp). pose proof (slot_addr_le p id Hid).
  assert (slot_fits new) as Hnf by apply ip_new_ok.
  assert (slot ip_shrunk id = new) as Hsl.
  { etransitivity; [by apply (slot_mem_ext _ (put_slot p id new))|]. by apply slot_put_same. }
  assert (live (slot ip_shrunk id) = true) as Hls by (by rewrite Hsl).
  set (bytes := take (Z.to_nat (length_ rd)) bs).
  assert (Z.of_nat (length bytes) = length_ rd) as Hbl
    by (unfold bytes; rewrite length_take; lia).
  destruct (write_in_record ip_shrunk id bytes Ws Hid Hls) as (Hs & Hf & Hv);
    [rewrite Hsl; simpl; lia|].
  rewrite Hsl in Hs, Hf, Hv |- *.
  cbn [record_type record_length offset_to_record] in Hs, Hf, Hv |- *.
  rewrite (drop_ge (load_bytes _ _ _)), app_nil_r in Hv by (rewrite length_load_bytes; lia).
  constructor; try done.
  - split; [by eapply page_ok_eq|].
    eapply dense_eq; [exact Ws| |done|exact Hs].
    eapply (dense_insert p ip_shrunk id new); try done. apply ip_shrunk_slots.
  - eapply frame_trans; [|exact Hf].
    eapply (frame_mem _ (put_slot p id new)); [|done|done]. apply frame_put_slot; lia.
  - rewrite Hv, (views_insert p ip_shrunk id new _ Wp Hid eq_refl);
      [by rewrite list_insert_insert_eq| |apply ip_shrunk_slots].
    intros x Hx. apply (agree_put_slot (offset_to_free_area (p_hdr p)) p id new); lia.
Qed.
End InPlace.

(** ** The new image at the end of the record area *)

(** The last part of spage_update_record_after_compact. *)
Definition place_image (p : PAGE) (slot_p : Z) (rd : RECDES) (space new_waste : Z)
    : Z * PAGE :=
  let off := offset_to_free_area (p_hdr p) in
  let p := spage_set_slot p slot_p off (length_ rd) (record_type (slot p slot_p)) in
  if off + length_ rd >? DB_PAGESIZE then (SP_ERROR, p)
  else
    let p := set_mem p (store_bytes (p_mem p) off
                          (recdes_bytes (p_mem p) rd (length_ rd))) in
    let h := p_hdr p in
    (SP_SUCCESS,
     set_free p (total_free h - space) (cont_free h - (length_ rd + new_waste))
       (off + (length_ rd + new_waste))).

Lemma update_after_compact_alt th p slot_p rd space old_waste new_waste :
  0 <= length_ rd ->
  spage_update_record_after_compact th p slot_p rd space old_waste new_waste
  = let '(status, p, space) := update_make_room th p slot_p rd space old_waste new_waste in
    if negb (status =? SP_SUCCESS) then (status, p)
    else place_image p slot_p rd space new_waste.
Proof.
  intros Hl. unfold spage_update_record_after_compact. destruct (length_ rd <? 0) eqn:?; [lia|].
  done.
Qed.

(** The page [r] is the page without the record, [p2] the one the code has at
    that point: they differ at slot [id] and in the accounting. *)
Section Place.
Context (r p2 : PAGE) (id space : Z) (rd : RECDES) (bs : list Z).
Notation al := (alignment (p_hdr r)).
Notation hi := (offset_to_free_area (p_hdr r)).
Notation A := (DB_ALIGN (length_ rd) al).
Notation ty := (record_type (slot p2 id)).
Notation new := (mkSlot hi (length_ rd) ty).
Notation bytes := (take (Z.to_nat (length_ rd)) bs).
Context (W : page_ok r) (Hid : 0 <= id < p_num_slots r) (Hdead : live (slot r id) = false).
Context (Hd : data rd = Area bs) (Hbs : length_ rd <= Z.of_nat (length bs)).
Context (Hlen : 0 <= length_ rd < 16384) (Hty : 0 <= ty <= 5) (HA : A <= cont_free (p_hdr r)).
Context (Hh : p_hdr p2 = mkHeader (p_num_slots r) (p_num_records r + 1)
                (anchor_type (p_hdr r)) al (total_free (p_hdr r) + space - A)
                (cont_free (p_hdr r)) hi (is_saving (p_hdr r))).
Context (Hm : forall x, x < hi -> p_mem p2 x = p_mem r x).
Context (Hs : forall j, 0 <= j < p_num_slots r -> j <> id -> slot p2 j = slot r j).

Definition placed_page : PAGE :=
  let p3 := put_slot p2 id new in
  mkPage (mkHeader (p_num_slots r) (p_num_records r + 1) (anchor_type (p_hdr r)) al
            (total_free (p_hdr r) - A) (cont_free (p_hdr r) - A) (hi + A)
            (is_saving (p_hdr r)))
    (store_bytes (p_mem p3) hi bytes) (p_vpid p2) (p_dirty p2).

#[local] Lemma pl_bytes : Z.of_nat (length bytes) = length_ rd.
Proof. rewrite length_take. lia. Qed.

Lemma place_image_eq :
  place_image p2 id rd space (DB_WASTED_ALIGN (length_ rd) al) = (SP_SUCCESS, placed_page).
Proof.
  pose proof (wf_cont _ W). pose proof (DB_ALIGN_spec (length_ rd) al (wf_align _ W)).
  pose proof (wf_nslots _ W).
  unfold place_image, spage_set_slot. rewrite Hh. cbn [offset_to_free_area].
  destruct (hi + length_ rd >? DB_PAGESIZE) eqn:?; [lia|].
  unfold recdes_bytes, placed_page. rewrite Hd, align_waste. unfold set_free, with_free, set_hdr, set_mem.
  cbn [p_hdr p_mem p_vpid p_dirty]. rewrite put_slot_hdr, Hh.
  cbn [num_slots num_records anchor_type alignment total_free cont_free is_saving].
  replace (total_free (p_hdr r) + space - A - space) with (total_free (p_hdr r) - A) by lia.
  done.
Qed.

#[local] Lemma pl_addr j : 0 <= j < p_num_slots r -> hi + A <= slot_addr j.
Proof. intros Hj. pose proof (wf_cont _ W). pose proof (slot_addr_le r j Hj). lia. Qed.

Lemma placed_slots : slots placed_page = <[Z.to_nat id := new]> (slots r).
Proof.
  pose proof (wf_nslots _ W). pose proof (DB_ALIGN_spec (length_ rd) al (wf_align _ W)).
  pose proof (new_slot_fits r (length_ rd) ty W Hlen Hty) as Hf.
  assert (p_num_slots placed_page = p_num_slots r) as Hn by done.
  apply slots_list; [rewrite length_insert, length_slots, Hn; lia|].
  intros i s Hi. pose proof (lookup_lt_Some _ _ _ Hi) as Hlt.
  rewrite length_insert, length_slots in Hlt.
  etransitivity; [by apply (slot_mem_ext _ (set_mem (put_slot p2 id new)
    (store_bytes (p_mem (put_slot p2 id new)) hi bytes)))|].
  rewrite slot_store_below by (rewrite pl_bytes; pose proof (pl_addr (Z.of_nat i)); lia).
  apply list_lookup_insert_Some in Hi as [(<- & <- & _)|(Hne & Hi)].
  - rewrite Z2Nat.id by lia. by apply slot_put_same.
  - rewrite slot_put_other, Hs by lia. by apply slots_lookup_Some in Hi as [_ ->].
Qed.

Lemma placed_page_ok : page_ok placed_page.
Proof.
  set (q0 := set_hdr placed_page (with_counts (p_hdr r) (p_num_slots r + 0) (p_num_records r))).
  assert (slots placed_page ≡ₚ new :: delete (Z.to_nat id) (slots r)) as Hp.
  { rewrite placed_slots. eapply insert_perm. by apply slots_lookup. }
  pose proof (slots_lookup r id Hid) as Hlk.
  assert (slots q0 = slots placed_page) as Hq.
  { apply slots_ext; [unfold q0, p_num_slots; simpl; by rewrite Z.add_0_r|].
    intros. by apply slot_mem_ext. }
  apply (page_ok_eq (take_area q0 (A + 4 * 0) A)).
  - eapply (take_area_ok r q0 (delete (Z.to_nat id) (slots r)) (length_ rd) ty); try done; try lia.
    + by rewrite Hq.
    + eapply delete_dead_layout; [done|]. apply (wf_layout _ W).
    + eapply delete_dead_sum; [done|]. by apply used_dead.
    + eapply delete_dead_sum; [done|]. by rewrite Hdead.
  - unfold take_area, placed_page, set_free, set_counts, with_free, with_counts. simpl.
    unfold p_num_slots, p_num_records. f_equal; lia.
  - etransitivity; [symmetry; exact Hq|]. done.
Qed.

Lemma placed_agree : agree hi p2 placed_page.
Proof.
  pose proof (pl_addr id Hid). pose proof (DB_ALIGN_spec (length_ rd) al (wf_align _ W)).
  pose proof (wf_off _ W). pose proof (wf_cont _ W). pose proof (wf_nslots _ W).
  apply (agree_trans _ _ (put_slot p2 id new)); [apply agree_put_slot; lia|].
  apply (agree_store hi (put_slot p2 id new) hi bytes); [done|]. rewrite pl_bytes. lia.
Qed.

Lemma placed_views : views placed_page = <[Z.to_nat id := Rec ty bytes]> (views r).
Proof.
  rewrite (views_insert r placed_page id new hi W Hid eq_refl); [|intros x Hx|apply placed_slots].
  2: { rewrite (proj2 placed_agree) by lia. by apply Hm. }
  f_equal. unfold view. pose proof (wf_off _ W). unfold SPAGE_HEADER_SIZE in *.
  assert (live new = true) as -> by (apply live_true; simpl; lia). f_equal. simpl.
  transitivity (load_bytes (p_mem placed_page) hi (length bytes));
    [f_equal; pose proof pl_bytes; lia|apply load_store_same].
Qed.
End Place.

(** ** The page without the record *)

Lemma dense_views p q id ty bytes :
  dense p -> 0 <= id < p_num_slots p -> anchor_type (p_hdr q) = anchor_type (p_hdr p) ->
  views q = <[Z.to_nat id := Rec ty bytes]> (views p) -> dense q.
Proof.
  intros D Hid Ha Hv Hne i Hi. rewrite Ha in Hne.
  assert (p_num_slots q = p_num_slots p) as Hn.
  { assert (length (views q) = length (views p)) as Hl by (by rewrite Hv, length_insert).
    rewrite !length_views in Hl. lia. }
  pose proof (views_lookup q i Hi) as Hlk. rewrite Hv in Hlk. rewrite Hn in Hi.
  unfold view in Hlk. destruct (live (slot q i)); [done|].
  destruct (decide (i = id)) as [->|].
  - rewrite list_lookup_insert_eq in Hlk by (rewrite length_views; lia). done.
  - rewrite list_lookup_insert_ne, views_lookup in Hlk by lia.
    unfold view in Hlk. by rewrite (D Hne i Hi) in Hlk.
Qed.

Lemma compact_cases th p :
  page_ok p ->
  (exists q, spage_compact th p = (NO_ERROR, q) /\ same_page p q
     /\ cont_free (p_hdr q) = total_free (p_hdr p))
  \/ (th_calloc th = false /\ spage_compact th p = (ER_FAILED, p)).
Proof.
  intros W. destruct (th_calloc th) eqn:Hc; [left; by apply same_page_compact|].
  destruct (decide (0 < p_num_records p)) as [Hr|Hr].
  { right. split; [done|]. by apply spage_compact_nomem. }
  left. destruct (same_page_compact (mkThread 0 true true true true true true) p W) as (q & Hq & ?);
    [done|].
  exists q. split; [|done]. rewrite <- Hq. unfold spage_compact.
  by destruct (p_num_records p >? 0) eqn:?; [lia|].
Qed.

Definition without (p : PAGE) (id e : Z) : PAGE :=
  let h := p_hdr p in
  set_counts
    (set_free (slot_set_offset p id SPAGE_EMPTY_OFFSET)
       (total_free h + alen (alignment h) (slot p id)) (cont_free h + e)
       (offset_to_free_area h - e))
    (p_num_slots p) (p_num_records p - 1).

Section Without.
Context (p : PAGE) (id e : Z).
Notation A := (alen (alignment (p_hdr p)) (slot p id)).
Notation gone := (mkSlot SPAGE_EMPTY_OFFSET (record_length (slot p id)) (record_type (slot p id))).
Context (W : page_ok p) (Hsol : solid p).
Context (Hid : 0 <= id < p_num_slots p) (Hl : live (slot p id) = true).
Context (He : e = 0 \/ (e = A /\ offset_to_record (slot p id) + A
                                 = offset_to_free_area (p_hdr p))).

#[local] Lemma wo_gone_fits : slot_fits gone.
Proof.
  destruct (slot_slot_fits p id) as (_ & ? & ?).
  unfold slot_fits, SPAGE_EMPTY_OFFSET. simpl. lia.
Qed.

Lemma without_slots : slots (without p id e) = <[Z.to_nat id := gone]> (slots p).
Proof.
  transitivity (slots (put_slot p id gone)); [done|]. by apply slots_put; [apply wo_gone_fits|].
Qed.

Lemma without_slot j :
  slot (without p id e) j = if j =? id then gone else slot p j.
Proof.
  etransitivity; [by apply (slot_mem_ext _ (put_slot p id gone))|].
  zcase.
  - replace j with id by lia. apply slot_put_same, wo_gone_fits.
  - rewrite slot_put_other by lia. done.
Qed.

Lemma without_ok : page_ok (without p id e).
Proof.
  apply (release_ok p _ id [gone] 0 e); try done.
  - rewrite without_slots. eapply insert_perm. by apply slots_lookup.
  - apply Forall_singleton. split_and!; [apply wo_gone_fits| |done].
    simpl. eapply layout_type; [apply (wf_layout _ W)|done].
  - unfold without, set_counts, set_free, with_counts, with_free. simpl.
    f_equal; lia.
Qed.

Lemma without_agree : agree (offset_to_free_area (p_hdr p)) p (without p id e).
Proof.
  pose proof (wf_cont _ W). pose proof (wf_cont_pos _ W). pose proof (slot_addr_le p id Hid).
  apply (agree_put_slot (offset_to_free_area (p_hdr p)) p id gone); lia.
Qed.

Lemma without_views :
  views (without p id e) = <[Z.to_nat id := Dead (record_type (slot p id))]> (views p).
Proof.
  rewrite (views_insert p _ id gone _ W Hid eq_refl); [done| |apply without_slots].
  intros x Hx. apply without_agree. by left.
Qed.
End Without.

Lemma live_type p id :
  page_ok p -> 0 <= id < p_num_slots p -> live (slot p id) = true ->
  0 <= record_type (slot p id) <= 5.
Proof.
  intros W Hid Hl. destruct (slot_slot_fits p id) as (_ & _ & ?).
  pose proof (layout_type _ _ _ _ (wf_layout _ W) Hid).
  destruct (layout_slot _ _ _ _ (wf_layout _ W) Hid Hl) as (_ & _ & _ & ? & ?).
  unfold REC_MARKDELETED, REC_DELETED_WILL_REUSE in *. lia.
Qed.

Section AfterCompact.
Context (th : THREAD_ENTRY) (p : PAGE) (id : Z) (rd : RECDES) (bs : list Z).
Notation al := (alignment (p_hdr p)).
Notation A := (alen al (slot p id)).
Notation B := (DB_ALIGN (length_ rd) al).
Notation bytes := (take (Z.to_nat (length_ rd)) bs).
Context (W : page_wf p) (Hsol : solid p).
Context (Hid : 0 <= id < p_num_slots p) (Hl : live (slot p id) = true).
Context (Hd : data rd = Area bs) (Hbs : length_ rd <= Z.of_nat (length bs)).
Context (Hlen : 0 <= length_ rd < 16384).
Context (Hroom : growth p id (length_ rd) <= total_free (p_hdr p)).

(** From a page [r] without the record to the updated page. *)
#[local] Lemma ac_place r p2 space :
  page_ok r -> frame p p2 ->
  p_hdr p2 = mkHeader (p_num_slots p) (p_num_records p) (anchor_type (p_hdr p)) al
               (total_free (p_hdr p) + A + space - B) (cont_free (p_hdr r))
               (offset_to_free_area (p_hdr r)) (is_saving (p_hdr p)) ->
  p_hdr r = mkHeader (p_num_slots p) (p_num_records p - 1) (anchor_type (p_hdr p)) al
              (total_free (p_hdr p) + A) (cont_free (p_hdr r))
              (offset_to_free_area (p_hdr r)) (is_saving (p_hdr p)) ->
  live (slot r id) = false -> record_type (slot p2 id) = record_type (slot p id) ->
  views r = <[Z.to_nat id := Dead (record_type (slot p id))]> (views p) ->
  B <= cont_free (p_hdr r) ->
  (forall x, x < offset_to_free_area (p_hdr r) -> p_mem p2 x = p_mem r x) ->
  (forall j, 0 <= j < p_num_slots p -> j <> id -> slot p2 j = slot r j) ->
  exists q, place_image p2 id rd space (DB_WASTED_ALIGN (length_ rd) al) = (SP_SUCCESS, q)
    /\ updated p q id (length_ rd) bytes.
Proof.
  intros Wr Hf Hh Hr Hdead Hty Hv HB Hm Hs. destruct W as [Wp Dp].
  assert (alignment (p_hdr r) = al) as Har by (by rewrite Hr).
  assert (p_num_slots r = p_num_slots p) as Hnr by (unfold p_num_slots; by rewrite Hr).
  assert (p_num_records r + 1 = p_num_records p) as Hrr
    by (unfold p_num_records; rewrite Hr; simpl; unfold p_num_records; lia).
  assert (total_free (p_hdr r) = total_free (p_hdr p) + A) as Htr by (by rewrite Hr).
  pose proof (live_type p id Wp Hid Hl) as Ht.
  assert (p_hdr p2 = mkHeader (p_num_slots r) (p_num_records r + 1)
            (anchor_type (p_hdr r)) (alignment (p_hdr r))
            (total_free (p_hdr r) + space - DB_ALIGN (length_ rd) (alignment (p_hdr r)))
            (cont_free (p_hdr r)) (offset_to_free_area (p_hdr r)) (is_saving (p_hdr r))) as Hh'
    by (rewrite Hnr, Hrr, Htr, Har, Hh; by rewrite Hr).
  rewrite <- Hnr in Hs. rewrite <- Hnr in Hid. rewrite <- Hty in Ht. rewrite <- Har in HB |- *.
  exists (placed_page r p2 id rd bs).
  assert (page_ok (placed_page r p2 id rd bs)) as Wq by (by eapply placed_page_ok).
  assert (views (placed_page r p2 id rd bs)
          = <[Z.to_nat id := Rec (record_type (slot p2 id)) bytes]> (views r)) as Hvq
    by (by eapply placed_views).
  rewrite Hv, list_insert_insert_eq, Hty in Hvq.
  split; [by eapply place_image_eq|]. constructor; try (simpl; by rewrite Hr).
  - split; [done|]. eapply dense_views; [exact Dp|rewrite <- Hnr; done|simpl; by rewrite Hr|done].
  - eapply frame_trans; [done|]. eapply agree_frame; [|by eapply placed_agree]. apply (wf_off _ Wr).
  - done.
  - unfold growth. simpl. rewrite Htr, Har. lia.
  - exact Hrr.
Qed.

(** Without moving the other records: [e] is 0, or the record is the last one
    and [e] is its area. *)
#[local] Lemma ac_direct e p2 space :
  e = 0 \/ (e = A /\ offset_to_record (slot p id) + A = offset_to_free_area (p_hdr p)) ->
  p_mem p2 = p_mem p -> p_vpid p2 = p_vpid p ->
  p_hdr p2 = with_free (p_hdr p) (total_free (p_hdr p) + A + space - B)
               (cont_free (p_hdr p) + e) (offset_to_free_area (p_hdr p) - e) ->
  B <= cont_free (p_hdr p) + e ->
  exists q, place_image p2 id rd space (DB_WASTED_ALIGN (length_ rd) al) = (SP_SUCCESS, q)
    /\ updated p q id (length_ rd) bytes.
Proof.
  intros He Hm Hv Hh HB. pose proof (proj1 W) as Wp.
  assert (0 <= A) by (apply alen_nonneg; [apply (wf_align _ Wp)|apply (slot_slot_fits p id)]).
  apply (ac_place (without p id e)).
  - by apply without_ok.
  - eapply frame_mem; [apply frame_refl|done|done].
  - exact Hh.
  - done.
  - by rewrite without_slot, Z.eqb_refl.
  - f_equal. by apply slot_mem_ext.
  - by apply without_views.
  - done.
  - intros x Hx. simpl in Hx. rewrite Hm. symmetry. apply without_agree; [done..|]. lia.
  - intros j Hj Hne. rewrite without_slot by done. zcase; [lia|]. by apply slot_mem_ext.
Qed.

(** After a compaction of the page without the record. *)
#[local] Lemma ac_compacted q0 :
  same_page (without p id 0) q0 -> cont_free (p_hdr q0) = total_free (p_hdr p) + A ->
  exists q, place_image (set_counts q0 (p_num_slots q0) (p_num_records q0 + 1)) id rd B
              (DB_WASTED_ALIGN (length_ rd) al) = (SP_SUCCESS, q)
    /\ updated p q id (length_ rd) bytes.
Proof.
  intros S Hc. pose proof (proj1 W) as Wp. unfold growth in Hroom.
  assert (p_num_slots q0 = p_num_slots p) as Hn by apply (sp_nslots _ _ S).
  assert (p_num_records q0 = p_num_records p - 1) as Hr by apply (sp_nrecs _ _ S).
  assert (p_hdr q0 = mkHeader (p_num_slots p) (p_num_records p - 1) (anchor_type (p_hdr p)) al
            (total_free (p_hdr p) + A) (cont_free (p_hdr q0))
            (offset_to_free_area (p_hdr q0)) (is_saving (p_hdr p))) as Hh.
  { pose proof (sp_anchor _ _ S) as H1. pose proof (sp_align _ _ S) as H2.
    pose proof (sp_saving _ _ S) as H3. pose proof (sp_total _ _ S) as H4.
    unfold p_num_slots, p_num_records in Hn, Hr.
    destruct (p_hdr q0). simpl in *. by subst. }
  destruct (sp_shape _ _ S id Hid) as (_ & Hty & Hdead).
  rewrite without_slot, Z.eqb_refl in Hty, Hdead by done.
  apply (ac_place q0).
  - apply (sp_ok _ _ S).
  - eapply frame_mem; [|done|done].
    eapply frame_trans; [|apply (sp_frame _ _ S)].
    eapply agree_frame; [apply (wf_off _ Wp)|apply without_agree; try done; by left].
  - unfold set_counts, with_counts. simpl. rewrite Hh. simpl. rewrite Hn, Hr. f_equal; lia.
  - done.
  - done.
  - etransitivity; [|exact Hty]. done.
  - rewrite (sp_views _ _ S). apply without_views; try done; by left.
  - lia.
  - done.
  - intros. by apply slot_mem_ext.
Qed.

(** The page is put back when there is no memory for the compaction. *)
#[local] Lemma ac_restored :
  restored p
    (let p1 := slot_set_offset (without p id 0) id (offset_to_record (slot p id)) in
     let h := p_hdr p1 in
     let p2 := set_free p1 (total_free h - (DB_WASTED_ALIGN (record_length (slot p id)) al
                                             + record_length (slot p1 id)))
                 (cont_free h) (offset_to_free_area h) in
     set_counts p2 (p_num_slots p2) (p_num_records p2 + 1)).
Proof.
  pose proof (proj1 W) as Wp. pose proof (wf_off _ Wp).
  set (p1 := slot_set_offset _ _ _).
  assert (slot_set_offset (without p id 0) id (offset_to_record (slot p id))
          = put_slot (without p id 0) id (slot p id)) as H1.
  { unfold slot_set_offset. rewrite without_slot, Z.eqb_refl by done. simpl.
    by destruct (slot p id). }
  assert (slots p1 = slots p) as Hs.
  { unfold p1. rewrite H1, slots_put by (done || apply slot_slot_fits).
    rewrite without_slots, list_insert_insert_eq by done. apply list_insert_id.
    by apply slots_lookup. }
  assert (slot p1 id = slot p id) as Hsl by (unfold p1; rewrite H1; apply slot_put_same, slot_slot_fits).
  set (q := set_counts _ _ _).
  assert (p_hdr q = p_hdr p) as Hh.
  { pose proof (align_waste (record_length (slot p id)) al) as HA. fold A in HA.
    assert (p_hdr p1 = p_hdr (without p id 0)) as Hp1 by done.
    unfold q. rewrite Hsl. unfold set_counts, set_free, with_counts, with_free, p_num_slots, p_num_records.
    simpl. rewrite Hp1. simpl. unfold p_num_slots, p_num_records.
    replace (total_free (p_hdr p) + _ - _) with (total_free (p_hdr p)) by lia.
    unfold slot_set_offset. rewrite put_slot_hdr, Z.add_0_r, Z.sub_0_r, Z.sub_add.
    by destruct (p_hdr p). }
  assert (agree (offset_to_free_area (p_hdr p)) p q) as Hag.
  { apply (agree_trans _ _ (without p id 0)); [apply without_agree; try done; by left|].
    pose proof (wf_cont _ Wp). pose proof (wf_cont_pos _ Wp). pose proof (slot_addr_le p id Hid).
    apply (agree_put_slot _ (without p id 0) id); lia. }
  assert (slots q = slots p) as Hsq by (rewrite <- Hs; done).
  constructor; try done.
  - destruct W. split; [by eapply page_ok_eq|by eapply dense_eq].
  - unfold views. rewrite Hsq. eapply view_list_agree; [apply (wf_align _ Wp)|done|apply (wf_layout _ Wp)].
  - eapply agree_frame; [|done]. lia.
Qed.

Lemma after_compact_spec :
  let out := spage_update_record_after_compact th p id rd (growth p id (length_ rd))
               (DB_WASTED_ALIGN (record_length (slot p id)) al)
               (DB_WASTED_ALIGN (length_ rd) al) in
  (exists q, out = (SP_SUCCESS, q) /\ updated p q id (length_ rd) bytes)
  \/ (th_calloc th = false /\ exists q, out = (SP_ERROR, q) /\ restored p q).
Proof.
  intros out. unfold out. rewrite update_after_compact_alt by lia. unfold update_make_room.
  rewrite located_at_end_spec, (Z.add_comm _ (record_length (slot p id))), !align_waste.
  fold A. unfold growth.
  destruct ((offset_to_record (slot p id) + A =? offset_to_free_area (p_hdr p))
            && (B - A <=? cont_free (p_hdr p))) eqn:E1; cbn [negb Z.eqb SP_SUCCESS].
  { left. eapply (ac_direct A); [right; lia|done|done| |lia].
    unfold spage_add_contiguous_free_space. simpl. f_equal. lia. }
  destruct (B >? cont_free (p_hdr p)) eqn:E2.
  2: { left. eapply (ac_direct 0); [by left|done|done| |lia].
       unfold with_free. destruct (p_hdr p). simpl. f_equal; lia. }
  set (w := set_counts _ _ _).
  assert (w = without p id 0) as ->.
  { unfold w, without. by rewrite Z.add_0_r, Z.sub_0_r. }
  assert (page_ok (without p id 0)) as Ww by (apply without_ok; try done; [apply W|by left]).
  destruct (compact_cases th _ Ww) as [(q0 & -> & S & Hc)|[Hc ->]]; cbn.
  - left. by apply ac_compacted.
  - right. split; [done|]. eexists. split; [done|]. apply ac_restored.
Qed.
End AfterCompact.

(** ** spage_update *)

Section Update.
Context {ST : Type} `{SavedSpacesLaws ST}.
Context (th : THREAD_ENTRY) (st : ST) (Hst : saved_ok st).
Context (p : PAGE) (id : Z) (rd : RECDES) (bs : list Z).
Context (W : page_wf p) (Hlen : 0 <= length_ rd).
Notation bytes := (take (Z.to_nat (length_ rd)) bs).
Notation fits := (spage_has_enough_total_space th st p (growth p id (length_ rd))).

Lemma spage_update_too_long :
  spage_max_record_size < length_ rd -> spage_update th st p id rd = (SP_DOESNT_FIT, p, st).
Proof.
  intros Hm. unfold spage_update, spage_check_updatable.
  destruct (length_ rd <? 0) eqn:?; [lia|].
  by destruct (length_ rd >? spage_max_record_size) eqn:?; [|lia].
Qed.

Lemma spage_update_none :
  length_ rd <= spage_max_record_size ->
  ~ (0 <= id < p_num_slots p /\ live (slot p id) = true) ->
  spage_update th st p id rd = (SP_ERROR, p, st).
Proof.
  intros Hm Hn. unfold spage_update, spage_check_updatable.
  destruct (length_ rd <? 0) eqn:?; [lia|].
  destruct (length_ rd >? spage_max_record_size) eqn:?; [lia|].
  rewrite find_slot_spec by apply W. zcase; [exfalso; apply Hn; lia|done].
Qed.

Lemma check_updatable_live :
  length_ rd <= spage_max_record_size -> 0 <= id < p_num_slots p ->
  live (slot p id) = true ->
  spage_check_updatable th st p id rd
  = if fits then (SP_SUCCESS, Some (id, growth p id (length_ rd),
                    DB_WASTED_ALIGN (record_length (slot p id)) (alignment (p_hdr p)),
                    DB_WASTED_ALIGN (length_ rd) (alignment (p_hdr p))))
    else (SP_DOESNT_FIT, None).
Proof.
  intros Hm Hid Hl. unfold spage_check_updatable.
  destruct (length_ rd <? 0) eqn:?; [lia|].
  destruct (length_ rd >? spage_max_record_size) eqn:?; [lia|].
  rewrite find_slot_Some by (done || apply W).
  replace (_ + _ - _ - _) with (growth p id (length_ rd)).
  2: { unfold growth, alen. rewrite <- !align_waste. lia. }
  by destruct fits.
Qed.

Lemma spage_update_spec :
  solid p -> 0 <= id < p_num_slots p -> live (slot p id) = true ->
  length_ rd <= spage_max_record_size ->
  data rd = Area bs -> length_ rd <= Z.of_nat (length bs) ->
  (fits = false /\ spage_update th st p id rd = (SP_DOESNT_FIT, p, st))
  \/ (fits = true /\ exists q, updated p q id (length_ rd) bytes
      /\ let r := give_back th st p (- growth p id (length_ rd)) in
         spage_update th st p id rd
         = (if r.1 =? NO_ERROR then SP_SUCCESS else SP_ERROR,
            if r.1 =? NO_ERROR then pgbuf_set_dirty q else q, r.2))
  \/ (fits = true /\ th_calloc th = false
      /\ exists q, restored p q /\ spage_update th st p id rd = (SP_ERROR, q, st)).
Proof.
  intros Hsol Hid Hl Hm Hd Hbs. unfold spage_update.
  destruct (length_ rd <? 0) eqn:?; [lia|]. rewrite check_updatable_live by done.
  destruct fits eqn:Hfit; [|by left]. right.
  pose proof (enough_total_le th st Hst p _ (proj1 W) Hfit) as Hroom.
  pose proof (max_record_fits _ Hlen Hm) as Hlen'.
  assert (forall q, updated p q id (length_ rd) bytes ->
    (let '(r, st') := if is_saving (p_hdr q)
       then save_space th (p_vpid q) (total_free (p_hdr q) - total_free (p_hdr p)) st
       else (NO_ERROR, st) in
     if negb (r =? NO_ERROR) then (SP_ERROR, q, st') else (SP_SUCCESS, pgbuf_set_dirty q, st'))
    = let r := give_back th st p (- growth p id (length_ rd)) in
      (if r.1 =? NO_ERROR then SP_SUCCESS else SP_ERROR,
       if r.1 =? NO_ERROR then pgbuf_set_dirty q else q, r.2)) as Hend.
  { intros q U. rewrite (up_saving _ _ _ _ _ U), (proj1 (up_frame _ _ _ _ _ U)).
    rewrite (up_total _ _ _ _ _ U). unfold give_back.
    replace (_ - _ - _) with (- growth p id (length_ rd)) by lia.
    destruct (is_saving (p_hdr p)); [|done].
    destruct (save_space _ _ _ _) as [r st']. simpl. by destruct (r =? NO_ERROR). }
  destruct (length_ rd <=? record_length (slot p id)) eqn:Ei.
  - destruct (in_place_spec p id rd bs W Hsol Hid Hl Hd Hbs) as (q & -> & U); [lia|].
    left. split; [done|]. exists q. split; [done|]. by apply Hend.
  - destruct (after_compact_spec th p id rd bs W Hsol Hid Hl Hd Hbs Hlen' Hroom)
      as [(q & -> & U)|[Hc (q & -> & R)]]; cbn [negb Z.eqb SP_SUCCESS SP_ERROR].
    + left. split; [done|]. exists q. split; [done|]. by apply Hend.
    + right. split_and!; [done|done|]. by exists q.
Qed.
End Update.
