(* ===== verification/SlottedPageRead.v ===== *)
(** * Slotted pages: reading, searching, statistics and consistency checks *)
From Stdlib Require Import ZArith Lia ZifyBool Sorting.Sorted.
From stdpp Require Import base list numbers gmap sorting.
From S2P Require Import Prelude StorageCommon SpaceSaving.
From S2P Require Import SlottedPage SlottedPageInv SlottedPageCompact SlottedPageOps.
From S2P Require Import SlottedPageShift SlottedPageDelete.

(** ** What a slot describes *)

Lemma views_Rec p id type bytes :
  views p !! Z.to_nat id = Some (Rec type bytes) -> 0 <= id ->
  0 <= id < p_num_slots p /\ live (slot p id) = true /\ record_type (slot p id) = type
  /\ record_length (slot p id) = Z.of_nat (length bytes)
  /\ load_bytes (p_mem p) (offset_to_record (slot p id)) (length bytes) = bytes.
Proof.
  intros Hv Hid. pose proof (lookup_lt_Some _ _ _ Hv) as Hlt. rewrite length_views in Hlt.
  assert (0 <= id < p_num_slots p) as Hr by lia.
  rewrite views_lookup in Hv by done. injection Hv as Hv. unfold view in Hv.
  destruct (live (slot p id)); [|done]. injection Hv as Ht Hb.
  destruct (slot_slot_fits p id) as (_ & ? & _).
  assert (length bytes = Z.to_nat (record_length (slot p id))) as Hl
    by (rewrite <- Hb; apply length_load_bytes).
  split_and!; try done; try lia. by rewrite Hl.
Qed.

Lemma views_live p id :
  0 <= id < p_num_slots p ->
  live (slot p id) = match views p !! Z.to_nat id with Some (Rec _ _) => true | _ => false end.
Proof. intros Hid. rewrite views_lookup by done. unfold view. by destruct (live _). Qed.

(** ** spage_get_record *)

(** Copying a record gives its type and its bytes. *)
Lemma get_record_copy p id rd type bytes :
  page_ok p -> 0 <= id -> views p !! Z.to_nat id = Some (Rec type bytes) ->
  Z.of_nat (length bytes) <= area_size rd ->
  exists rest,
    spage_get_record p id rd COPY
    = (S_SUCCESS, mkRecdes (area_size rd) (Z.of_nat (length bytes)) type (Area (bytes ++ rest))).
Proof.
  intros W Hid Hv Ha. destruct (views_Rec _ _ _ _ Hv Hid) as (Hr & Hl & Ht & Hlen & Hb).
  unfold spage_get_record. rewrite find_slot_Some by done.
  unfold spage_get_record_data, COPY. rewrite Hlen, Ht.
  destruct (layout_slot _ _ _ _ (wf_layout _ W) Hr Hl) as (_ & _ & Hend & _).
  pose proof (alen_ge _ (slot p id) (wf_align _ W)). pose proof (wf_off _ W).
  destruct ((area_size rd <? 0) || (area_size rd <? Z.of_nat (length bytes))) eqn:?; [lia|].
  destruct (_ >? DB_PAGESIZE) eqn:?; [lia|]. rewrite Nat2Z.id, Hb. by eexists.
Qed.

(** Peeking gives the address of the bytes in the page. *)
Lemma get_record_peek p id rd type bytes :
  page_ok p -> 0 <= id -> views p !! Z.to_nat id = Some (Rec type bytes) ->
  exists off,
    spage_get_record p id rd PEEK
    = (S_SUCCESS, mkRecdes (-1) (Z.of_nat (length bytes)) type (InPage off))
    /\ load_bytes (p_mem p) off (length bytes) = bytes.
Proof.
  intros W Hid Hv. destruct (views_Rec _ _ _ _ Hv Hid) as (Hr & Hl & Ht & Hlen & Hb).
  unfold spage_get_record. rewrite find_slot_Some by done.
  unfold spage_get_record_data, PEEK. rewrite Hlen, Ht. by eexists.
Qed.

(** An area that is too small: the length the caller needs, negated. *)
Lemma get_record_small p id rd type bytes :
  page_ok p -> 0 <= id -> views p !! Z.to_nat id = Some (Rec type bytes) ->
  area_size rd < Z.of_nat (length bytes) ->
  spage_get_record p id rd COPY = (S_DOESNT_FIT, set_length rd (- Z.of_nat (length bytes))).
Proof.
  intros W Hid Hv Ha. destruct (views_Rec _ _ _ _ Hv Hid) as (Hr & Hl & Ht & Hlen & Hb).
  unfold spage_get_record. rewrite find_slot_Some by done.
  unfold spage_get_record_data, COPY. rewrite Hlen.
  destruct ((area_size rd <? 0) || (area_size rd <? Z.of_nat (length bytes))) eqn:?; [|lia].
  do 2 f_equal. lia.
Qed.

(** A slot that holds no record. *)
Lemma get_record_none p id rd peek :
  page_ok p -> (forall type bytes, 0 <= id -> views p !! Z.to_nat id <> Some (Rec type bytes)) ->
  spage_get_record p id rd peek = (S_DOESNT_EXIST, set_length rd 0).
Proof.
  intros W Hn. unfold spage_get_record. rewrite find_slot_spec by done.
  destruct (_ && _ && _) eqn:E; [|done].
  assert (0 <= id < p_num_slots p) as Hr by lia.
  specialize (Hn (record_type (slot p id))
    (load_bytes (p_mem p) (offset_to_record (slot p id)) (Z.to_nat (record_length (slot p id))))).
  destruct Hn; [lia|]. rewrite views_lookup by done. unfold view.
  by destruct (live (slot p id)); [|lia].
Qed.

(** ** Searching *)

Lemma search_loop_next p n : forall i,
  0 <= i -> p_num_slots p - i <= Z.of_nat n ->
  let j := search_loop p i SPAGE_SEARCH_NEXT n in
  i <= j /\ (forall k, i <= k < j -> live (slot p k) = false)
  /\ (p_num_slots p <= j \/ live (slot p j) = true).
Proof.
  induction n as [|n IH]; intros i Hi Hn; cbn [search_loop].
  { split_and!; [lia|lia|left; lia]. }
  unfold SPAGE_SEARCH_NEXT in *. unfold live in *.
  destruct (_ && _ && _) eqn:E.
  - destruct (IH (i + 1)) as (H1 & H2 & H3); [lia|lia|]. split_and!; [lia| |done].
    intros k Hk. destruct (decide (k = i)) as [->|]; [lia|]. apply H2. lia.
  - split_and!; [lia|lia|]. destruct (decide (p_num_slots p <= i)); [by left|right]. lia.
Qed.

Lemma search_loop_prev p n : forall i,
  i < p_num_slots p -> i < Z.of_nat n ->
  let j := search_loop p i SPAGE_SEARCH_PREV n in
  j <= i /\ (forall k, j < k <= i -> 0 <= k -> live (slot p k) = false)
  /\ (j < 0 \/ live (slot p j) = true).
Proof.
  induction n as [|n IH]; intros i Hi Hn; cbn [search_loop].
  { split_and!; [lia|lia|left; lia]. }
  unfold SPAGE_SEARCH_PREV in *. unfold live in *.
  destruct (_ && _ && _) eqn:E.
  - destruct (IH (i + -1)) as (H1 & H2 & H3); [lia|lia|]. split_and!; [lia| |done].
    intros k Hk Hk0. destruct (decide (k = i)) as [->|]; [lia|]. apply H2; lia.
  - split_and!; [lia|lia|]. destruct (decide (i < 0)); [by left|right]. lia.
Qed.

(** The slots spage_next_record visits, starting after [id]. *)
Fixpoint scan_next (p : PAGE) (id : Z) (rd : RECDES) (n : nat) : list Z :=
  match n with
  | O => []
  | S n =>
      let '(code, id, rd) := spage_next_record p id rd PEEK in
      if code =? S_SUCCESS then id :: scan_next p id rd n else []
  end.

Fixpoint scan_previous (p : PAGE) (id : Z) (rd : RECDES) (n : nat) : list Z :=
  match n with
  | O => []
  | S n =>
      let '(code, id, rd) := spage_previous_record p id rd PEEK in
      if code =? S_SUCCESS then id :: scan_previous p id rd n else []
  end.

(** The identifier of the first record at or after [i], if any. *)
Lemma live_slots_skip p i j n :
  i <= j -> (forall k, i <= k < j -> live (slot p k) = false) -> j <= n ->
  live_slots p i (Z.to_nat (n - i)) = live_slots p j (Z.to_nat (n - j)).
Proof.
  intros Hij. remember (Z.to_nat (j - i)) as d eqn:Ed. revert i Hij Ed.
  induction d as [|d IH]; intros i Hij Ed Hdead Hn.
  - by replace j with i by lia.
  - replace (Z.to_nat (n - i)) with (S (Z.to_nat (n - (i + 1)))) by lia.
    rewrite live_slots_S, Hdead by lia. apply IH; [lia|lia| |done].
    intros k Hk. apply Hdead. lia.
Qed.

Lemma live_slots_end p i j n :
  i <= j -> (forall k, i <= k < j -> live (slot p k) = false) -> n <= j ->
  live_slots p i (Z.to_nat (n - i)) = [].
Proof.
  intros Hij Hdead Hn. destruct (decide (i <= n)) as [Hi|Hi].
  - rewrite (live_slots_skip p i n n); [by rewrite Z.sub_diag|done| |done].
    intros k Hk. apply Hdead. lia.
  - by replace (Z.to_nat (n - i)) with 0%nat by lia.
Qed.

Lemma next_record_spec p id rd :
  -1 <= id < p_num_slots p ->
  (exists j rd', spage_next_record p id rd PEEK = (S_SUCCESS, j, rd')
     /\ id < j < p_num_slots p /\ live (slot p j) = true
     /\ (forall k, id < k < j -> live (slot p k) = false))
  \/ (spage_next_record p id rd PEEK = (S_END, -1, set_length rd 0)
      /\ forall k, id < k < p_num_slots p -> live (slot p k) = false).
Proof.
  intros Hid. unfold spage_next_record, spage_search_record, SPAGE_SEARCH_NEXT, PEEK.
  cbn zeta. cbn [Z.eqb Pos.eqb].
  assert ((if (id <? 0) || (id >? p_num_slots p) then 0 else id + 1) = id + 1) as ->
    by (zcase; lia).
  destruct (search_loop_next p (Z.to_nat (p_num_slots p)) (id + 1)) as (H1 & H2 & H3); [lia|lia|].
  unfold SPAGE_SEARCH_NEXT in *. set (j := search_loop _ _ _ _) in *.
  destruct ((j >=? 0) && (j <? p_num_slots p)) eqn:E.
  - left. eexists j, _. split; [done|]. split_and!; [lia|lia| |].
    + destruct H3; [lia|done].
    + intros k Hk. apply H2. lia.
  - right. split; [done|]. intros k Hk. apply H2. lia.
Qed.

(** Scanning with spage_next_record visits the records in slot order. *)
Lemma scan_next_spec p n : forall id rd,
  -1 <= id < p_num_slots p -> p_num_slots p - id <= Z.of_nat n ->
  scan_next p id rd n = live_slots p (id + 1) (Z.to_nat (p_num_slots p - (id + 1))).
Proof.
  induction n as [|n IH]; intros id rd Hid Hn; [lia|]. cbn [scan_next].
  destruct (next_record_spec p id rd Hid) as [(j & rd' & -> & Hj & Hl & Hd)|(-> & Hd)]; cbn.
  - rewrite (live_slots_skip p (id + 1) j) by (try lia; intros; apply Hd; lia).
    replace (Z.to_nat (p_num_slots p - j)) with (S (Z.to_nat (p_num_slots p - (j + 1)))) by lia.
    rewrite live_slots_S, Hl. f_equal. apply IH; lia.
  - by rewrite (live_slots_end p (id + 1) (p_num_slots p)) by (try lia; intros; apply Hd; lia).
Qed.

Lemma previous_record_spec p id rd :
  0 <= id <= p_num_slots p ->
  (exists j rd', spage_search_record p id rd PEEK SPAGE_SEARCH_PREV = (S_SUCCESS, j, rd')
     /\ 0 <= j < id /\ live (slot p j) = true
     /\ (forall k, j < k < id -> live (slot p k) = false))
  \/ (spage_search_record p id rd PEEK SPAGE_SEARCH_PREV = (S_END, -1, set_length rd 0)
      /\ forall k, 0 <= k < id -> live (slot p k) = false).
Proof.
  intros Hid. unfold spage_search_record, PEEK. cbn zeta.
  assert ((if (id <? 0) || (id >? p_num_slots p)
           then if SPAGE_SEARCH_PREV =? SPAGE_SEARCH_NEXT then 0 else p_num_slots p - 1
           else id + SPAGE_SEARCH_PREV) = id - 1) as ->
    by (unfold SPAGE_SEARCH_PREV; zcase; lia).
  destruct (search_loop_prev p (Z.to_nat (p_num_slots p)) (id - 1)) as (H1 & H2 & H3); [lia|lia|].
  set (j := search_loop _ _ _ _) in *.
  destruct ((j >=? 0) && (j <? p_num_slots p)) eqn:E.
  - left. eexists j, _. split; [done|]. split_and!; [lia|lia| |].
    + destruct H3; [lia|done].
    + intros k Hk. apply H2; lia.
  - right. split; [done|]. intros k Hk. apply H2; lia.
Qed.

Lemma live_slots_snoc p n :
  live_slots p 0 (S n)
  = live_slots p 0 n ++ (if live (slot p (Z.of_nat n)) then [Z.of_nat n] else []).
Proof.
  unfold live_slots. replace (Z.of_nat (S n)) with (Z.of_nat n + 1) by lia.
  rewrite seqZ_app by lia. rewrite filter_app. f_equal. rewrite Z.add_0_l.
  rewrite (seqZ_cons (Z.of_nat n) 1) by lia. rewrite filter_cons.
  by destruct (live _).
Qed.

Lemma live_slots_drop_dead p j id :
  0 <= j <= id -> (forall k, j <= k < id -> live (slot p k) = false) ->
  live_slots p 0 (Z.to_nat id) = live_slots p 0 (Z.to_nat j).
Proof.
  intros Hj. remember (Z.to_nat (id - j)) as d eqn:Ed. revert id Hj Ed.
  induction d as [|d IH]; intros id Hj Ed Hd; [by replace id with j by lia|].
  replace (Z.to_nat id) with (S (Z.to_nat (id - 1))) by lia.
  rewrite live_slots_snoc, Z2Nat.id, Hd, app_nil_r by lia. apply IH; [lia|lia|].
  intros k Hk. apply Hd. lia.
Qed.

Lemma scan_previous_from p n : forall id rd,
  0 <= id <= p_num_slots p -> id < Z.of_nat n ->
  scan_previous p id rd n = reverse (live_slots p 0 (Z.to_nat id)).
Proof.
  induction n as [|n IH]; intros id rd Hid Hn; [lia|]. cbn [scan_previous].
  unfold spage_previous_record.
  destruct (previous_record_spec p id rd Hid) as [(j & rd' & -> & Hj & Hl & Hd)|(-> & Hd)]; cbn.
  - rewrite (live_slots_drop_dead p (j + 1) id) by (try lia; intros; apply Hd; lia).
    replace (Z.to_nat (j + 1)) with (S (Z.to_nat j)) by lia.
    rewrite live_slots_snoc, Z2Nat.id, Hl, reverse_snoc by lia. f_equal. apply IH; lia.
  - rewrite (live_slots_drop_dead p 0 id) by (try lia; intros; apply Hd; lia). done.
Qed.

(** From no current record the search starts at the last one. *)
Lemma scan_previous_spec p rd n :
  0 <= p_num_slots p < Z.of_nat n ->
  scan_previous p NULL_SLOTID rd n = reverse (live_slots p 0 (Z.to_nat (p_num_slots p))).
Proof.
  intros Hn. rewrite <- (scan_previous_from p n (p_num_slots p) rd) by lia.
  destruct n as [|n]; [lia|]. cbn [scan_previous]. unfold spage_previous_record.
  assert (spage_search_record p NULL_SLOTID rd PEEK SPAGE_SEARCH_PREV
          = spage_search_record p (p_num_slots p) rd PEEK SPAGE_SEARCH_PREV) as ->; [|done].
  unfold spage_search_record, NULL_SLOTID. cbn zeta.
  replace (p_num_slots p >? p_num_slots p) with false by lia.
  replace (p_num_slots p <? 0) with false by lia. done.
Qed.

(** ** Consistency checks *)

Lemma verify_header_ok p : page_ok p -> spage_verify_header p = true.
Proof.
  intros W. unfold spage_verify_header. pose proof (total_free_nonneg p W).
  pose proof (page_ok_cont_le_total p W). pose proof (wf_cont_pos _ W). pose proof (wf_off _ W).
  pose proof (num_records_nonneg p W). pose proof (num_records_le p W). pose proof (wf_nslots _ W).
  unfold p_num_slots, p_num_records in *. lia.
Qed.

Lemma sumZ_slots_from p (f : SPAGE_SLOT -> Z) n : forall i,
  sumZ ((fun k => f (slot p k)) <$> seqZ i (Z.of_nat (S n)))
  = f (slot p i) + sumZ ((fun k => f (slot p k)) <$> seqZ (i + 1) (Z.of_nat n)).
Proof.
  intros i. rewrite seqZ_cons by lia. rewrite fmap_cons. cbn [sumZ].
  replace (Z.pred (Z.of_nat (S n))) with (Z.of_nat n) by lia. by rewrite Z.add_1_r.
Qed.

Lemma slots_seqZ p (f : SPAGE_SLOT -> Z) :
  f <$> slots p = (fun k => f (slot p k)) <$> seqZ 0 (p_num_slots p).
Proof.
  unfold slots, slots_n, seqZ. rewrite <- !list_fmap_compose. apply list_fmap_ext.
  intros i x _. simpl. by rewrite Z.add_0_r.
Qed.

Lemma count_records_spec p n : forall i,
  count_records p i n
  = sumZ ((fun k => if live (slot p k) then 1 else 0) <$> seqZ i (Z.of_nat n)).
Proof.
  induction n as [|n IH]; intros i; [done|].
  rewrite (sumZ_slots_from p (fun s => if live s then 1 else 0)), <- IH. done.
Qed.

Lemma check_num_slots_ok p : page_ok p -> spage_check_num_slots p = true.
Proof.
  intros W. unfold spage_check_num_slots. rewrite count_records_spec, (wf_nrecs _ W).
  rewrite slots_seqZ, Z2Nat.id by apply (wf_nslots _ W). by apply Z.eqb_eq.
Qed.

Lemma check_loop_spec p n : page_ok p -> forall i,
  0 <= i -> i + Z.of_nat n <= p_num_slots p ->
  check_loop p i n
  = (sumZ ((fun k => used (alignment (p_hdr p)) (slot p k)) <$> seqZ i (Z.of_nat n)),
     sumZ ((fun k => if live (slot p k) then 1 else 0) <$> seqZ i (Z.of_nat n))).
Proof.
  intros W. induction n as [|n IH]; intros i Hi Hn; [done|]. cbn [check_loop].
  rewrite IH by lia. rewrite (sumZ_slots_from p (used (alignment (p_hdr p)))).
  rewrite (sumZ_slots_from p (fun s => if live s then 1 else 0)).
  rewrite find_slot_spec by done. unfold used at 3.
  destruct (live (slot p i)) eqn:El.
  - destruct (_ && _ && _) eqn:E; [|lia]. f_equal; [unfold alen|]; lia.
  - rewrite andb_false_r. f_equal; lia.
Qed.

Section Check.
Context {ST : Type} `{SavedSpacesLaws ST} (th : THREAD_ENTRY) (st : ST) (Hst : saved_ok st).

(** The verdict on a page that is as it should be. *)
Lemma check_page_ok p :
  page_ok p ->
  spage_check th st p
  = (if cont_free (p_hdr p) <=? - (alignment (p_hdr p) - 1) then ER_FAILED else NO_ERROR, true).
Proof.
  intros W. pose proof (wf_nslots _ W) as Hn. unfold spage_check.
  change (num_slots (p_hdr p)) with (p_num_slots p).
  rewrite check_loop_spec, !Z2Nat.id, <- !(slots_seqZ p (used _)) by (done || lia).
  rewrite <- (slots_seqZ p (fun s => if live s then 1 else 0)), <- (wf_nrecs _ W).
  pose proof (wf_total _ W). pose proof (wf_cont _ W).
  pose proof (saved_nonneg th (p_vpid p) st Hst) as Hs.
  unfold SPAGE_SLOT_SIZE. destruct (_ + total_free (p_hdr p) >? DB_PAGESIZE) eqn:?; [lia|].
  destruct (_ + _ + 4 * p_num_slots p >? DB_PAGESIZE) eqn:?; [lia|].
  assert (num_records (p_hdr p) =? p_num_records p = true) as -> by (apply Z.eqb_refl).
  destruct (is_saving (p_hdr p)); [|done].
  destruct (get_saved_spaces th (p_vpid p) st) as [total other]. simpl in Hs.
  destruct (other <? 0) eqn:?; [lia|]. by destruct (total <? 0) eqn:?; [lia|].
Qed.
End Check.

(** ** Statistics *)

(** What one slot adds to the statistics of its page. *)
Definition stat_pages (s : SPAGE_SLOT) : Z :=
  if live s && (record_type s =? REC_BIGONE) then 2 else 0.
Definition stat_records (s : SPAGE_SLOT) : Z :=
  if live s && negb (record_type s =? REC_NEWHOME) then 1 else 0.
Definition stat_length (s : SPAGE_SLOT) : Z :=
  if live s then
    (if record_type s =? REC_BIGONE then DB_PAGESIZE * 2 else 0)
    + (if (record_type s =? REC_HOME) || (record_type s =? REC_NEWHOME)
       then record_length s else 0)
  else 0.

Lemma sumZ_seqZ_last (f : Z -> Z) i n :
  0 <= n -> sumZ (f <$> seqZ i (n + 1)) = sumZ (f <$> seqZ i n) + f (i + n).
Proof.
  intros Hn. rewrite seqZ_app, fmap_app, sumZ_app by lia.
  rewrite (seqZ_cons (i + n) 1), (seqZ_nil _ (Z.pred 1)), fmap_cons by lia.
  cbn [sumZ fmap list_fmap]. lia.
Qed.

Lemma statistics_loop_spec p n : forall i pages records len,
  statistics_loop p (i + Z.of_nat n - 1) n pages records len
  = (pages + sumZ ((fun k => stat_pages (slot p k)) <$> seqZ i (Z.of_nat n)),
     records + sumZ ((fun k => stat_records (slot p k)) <$> seqZ i (Z.of_nat n)),
     len + sumZ ((fun k => stat_length (slot p k)) <$> seqZ i (Z.of_nat n))).
Proof.
  induction n as [|n IH]; intros i pages records len.
  { cbn. by rewrite !Z.add_0_r. }
  replace (Z.of_nat (S n)) with (Z.of_nat n + 1) by lia.
  rewrite !sumZ_seqZ_last by lia. replace (i + (Z.of_nat n + 1) - 1) with (i + Z.of_nat n) by lia.
  cbn [statistics_loop]. cbn zeta. set (s := slot p (i + Z.of_nat n)).
  replace (i + Z.of_nat n - 1) with (i + Z.of_nat n - 1) by lia.
  unfold stat_pages at 2, stat_records at 2, stat_length at 2. unfold live.
  destruct (offset_to_record s =? SPAGE_EMPTY_OFFSET); cbn [negb andb].
  - rewrite IH. f_equal; [f_equal|]; lia.
  - destruct (record_type s =? REC_BIGONE); rewrite IH;
      destruct (record_type s =? REC_NEWHOME), (record_type s =? REC_HOME); cbn [negb andb orb];
      (f_equal; [f_equal|]; lia).
Qed.

(** The statistics cover every slot but the first. *)
Lemma collect_statistics_spec p :
  0 <= p_num_slots p ->
  spage_collect_statistics p
  = (1 + sumZ (stat_pages <$> drop 1 (slots p)), sumZ (stat_records <$> drop 1 (slots p)),
     sumZ (stat_length <$> drop 1 (slots p))).
Proof.
  intros Hn. unfold spage_collect_statistics.
  assert (forall f : SPAGE_SLOT -> Z,
    f <$> drop 1 (slots p) = (fun k => f (slot p k)) <$> seqZ 1 (p_num_slots p - 1)) as Hd.
  { intros f. rewrite fmap_drop, slots_seqZ. destruct (decide (p_num_slots p = 0)) as [->|].
    - done.
    - rewrite (seqZ_cons 0) by lia. cbn. rewrite drop_0. by rewrite Z.sub_1_r. }
  rewrite !Hd. destruct (decide (p_num_slots p = 0)) as [->|]; [done|].
  replace (p_num_slots p - 1) with (1 + Z.of_nat (Z.to_nat (p_num_slots p - 1)) - 1) at 1 by lia.
  rewrite statistics_loop_spec, !Z2Nat.id by lia. done.
Qed.
