(* ===== verification/SlottedPageSpec.v ===== *)
(** * Slotted pages: what a page promises, and that the operations keep it

    The abstract state of a page is the list of what its slots describe.  Every
    operation is simulated by an operation on that list, and the states that
    can be reached from an initialised page are well formed. *)
From Stdlib Require Import ZArith Lia ZifyBool.
From stdpp Require Import base list numbers gmap.
From S2P Require Import Prelude StorageCommon.
From S2P Require Import SpaceSaving SpaceSavingInv SpaceSavingSim SpaceSavingFree.
From S2P Require Import SlottedPage SlottedPageInv SlottedPageCompact SlottedPageOps.
From S2P Require Import SlottedPageShift SlottedPageDelete SlottedPageUpdate SlottedPageRead.

#[export] Instance SLOT_VIEW_eq_dec : EqDecision SLOT_VIEW.
Proof. solve_decision. Defined.

(** ** The abstract operations *)

(** The first slot that waits to be reused, or a new slot at the end. *)
Definition abs_insert (vs : list SLOT_VIEW) (v : SLOT_VIEW) : list SLOT_VIEW :=
  match list_find (fun w => w = Dead REC_DELETED_WILL_REUSE) vs with
  | Some (i, _) => <[i := v]> vs
  | None => vs ++ [v]
  end.

Definition abs_insert_slot (vs : list SLOT_VIEW) : Z :=
  match list_find (fun w => w = Dead REC_DELETED_WILL_REUSE) vs with
  | Some (i, _) => Z.of_nat i
  | None => Z.of_nat (length vs)
  end.

(** Insertion at a given position; None when the slot of an anchored page is
    taken or the position is past the end. *)
Definition abs_insert_at (anchored : bool) (vs : list SLOT_VIEW) (id : nat) (v : SLOT_VIEW)
    : option (list SLOT_VIEW) :=
  match vs !! id with
  | None => if decide (id = length vs) then Some (vs ++ [v]) else None
  | Some w =>
      if decide (w = Dead REC_DELETED_WILL_REUSE) then Some (<[id := v]> vs)
      else if anchored then None
      else Some (take id vs ++ v :: drop id vs)
  end.

(** Insertion of recovery in an anchored page: the slot is taken again. *)
Definition abs_insert_recovery (vs : list SLOT_VIEW) (id : nat) (v : SLOT_VIEW)
    : list SLOT_VIEW :=
  if decide (id < length vs)%nat then <[id := v]> vs else vs ++ [v].

Definition abs_delete (anchored : bool) (vs : list SLOT_VIEW) (id : nat)
    : option (list SLOT_VIEW) :=
  match vs !! id with
  | Some (Rec _ _) =>
      Some (if anchored then <[id := Dead REC_MARKDELETED]> vs else delete id vs)
  | _ => None
  end.

Definition abs_update (vs : list SLOT_VIEW) (id : nat) (bytes : list Z)
    : option (list SLOT_VIEW) :=
  match vs !! id with
  | Some (Rec t _) => Some (<[id := Rec t bytes]> vs)
  | _ => None
  end.

Definition abs_update_type (vs : list SLOT_VIEW) (id : nat) (t : Z)
    : option (list SLOT_VIEW) :=
  match vs !! id with
  | Some (Rec _ bytes) => Some (<[id := Rec t bytes]> vs)
  | _ => None
  end.

(** ** The abstract operations and the page *)

Definition anchored (p : PAGE) : bool := anchor_type (p_hdr p) =? ANCHORED.

Lemma views_dead p id t :
  0 <= id < p_num_slots p ->
  views p !! Z.to_nat id = Some (Dead t) <->
  live (slot p id) = false /\ record_type (slot p id) = t.
Proof.
  intros Hid. rewrite views_lookup by done. unfold view.
  destruct (live (slot p id)); split; [done|by intros [? _]|by intros [= ->]|by intros [_ ->]].
Qed.

Lemma views_reuse p id :
  page_ok p -> 0 <= id < p_num_slots p ->
  views p !! Z.to_nat id = Some (Dead REC_DELETED_WILL_REUSE) <->
  record_type (slot p id) = REC_DELETED_WILL_REUSE.
Proof.
  intros W Hid. rewrite views_dead by done. split; [by intros [_ ?]|].
  intros Ht. split; [by apply reuse_dead|done].
Qed.

Lemma find_free_slot_list p :
  page_ok p ->
  let id := spage_find_free_slot p 0 in
  (id = p_num_slots p
   /\ list_find (fun w => w = Dead REC_DELETED_WILL_REUSE) (views p) = None)
  \/ (0 <= id < p_num_slots p
      /\ list_find (fun w => w = Dead REC_DELETED_WILL_REUSE) (views p)
         = Some (Z.to_nat id, Dead REC_DELETED_WILL_REUSE)).
Proof.
  intros W id. destruct (find_free_slot_spec p W) as (Hid & Hbefore & Hat). fold id in Hid, Hbefore, Hat.
  destruct (decide (id = p_num_slots p)) as [He|Hne]; [left|right].
  - split; [done|]. apply list_find_None, Forall_lookup. intros i w Hi ->.
    pose proof (lookup_lt_Some _ _ _ Hi) as Hlt. rewrite length_views in Hlt.
    rewrite <- (Nat2Z.id i), views_reuse in Hi by (done || lia).
    by apply (Hbefore (Z.of_nat i)); [lia|].
  - split; [lia|]. apply list_find_Some. split_and!.
    + apply views_reuse; [done|lia|]. by destruct Hat.
    + done.
    + intros j w Hj Hlt ->. rewrite <- (Nat2Z.id j), views_reuse in Hj by (done || lia).
      by apply (Hbefore (Z.of_nat j)); [lia|].
Qed.

Lemma put_view_abs p v :
  page_ok p -> put_view p (spage_find_free_slot p 0) v = abs_insert (views p) v.
Proof.
  intros W. unfold put_view, abs_insert.
  destruct (find_free_slot_list p W) as [(-> & ->)|(Hid & ->)].
  - by rewrite Z.eqb_refl.
  - by destruct (_ =? _) eqn:?; [lia|].
Qed.

Lemma find_free_slot_abs p :
  page_ok p -> spage_find_free_slot p 0 = abs_insert_slot (views p).
Proof.
  intros W. unfold abs_insert_slot. pose proof (wf_nslots _ W).
  destruct (find_free_slot_list p W) as [(Hf & ->)|(Hid & ->)]; [rewrite length_views|]; lia.
Qed.

Lemma reused_abs p id :
  page_ok p -> 0 <= id < p_num_slots p ->
  reused p id = true <-> views p !! Z.to_nat id = Some (Dead REC_DELETED_WILL_REUSE).
Proof. intros W Hid. rewrite views_reuse by done. unfold reused. lia. Qed.

Lemma put_view_at_abs p id v :
  page_ok p -> 0 <= id <= p_num_slots p ->
  (if slot_taken p id then None else Some (put_view_at p id v))
  = abs_insert_at (anchored p) (views p) (Z.to_nat id) v.
Proof.
  intros W Hid. unfold abs_insert_at, slot_taken, put_view_at.
  destruct (decide (id = p_num_slots p)) as [->|Hne].
  - assert (reused p (p_num_slots p) = false) as -> by (unfold reused; lia).
    rewrite Z.ltb_irrefl. simpl.
    rewrite lookup_ge_None_2, decide_True by (rewrite length_views; lia).
    by rewrite take_ge, drop_ge by (rewrite length_views; lia).
  - pose proof (reused_abs p id W ltac:(lia)) as Hr.
    destruct (id <? p_num_slots p) eqn:?; [|lia]. simpl.
    destruct (views p !! Z.to_nat id) as [w|] eqn:Hw.
    2: { apply lookup_ge_None in Hw. rewrite length_views in Hw. lia. }
    unfold anchored. case_decide as Hd.
    + subst w. by rewrite (proj2 Hr eq_refl).
    + assert (reused p id = false) as ->
        by (apply not_true_is_false; intros [= ?]%Hr; done).
      simpl. by destruct (anchor_type (p_hdr p) =? ANCHORED).
Qed.

Lemma delete_view_abs p id :
  page_ok p -> 0 <= id < p_num_slots p -> live (slot p id) = true ->
  abs_delete (anchored p) (views p) (Z.to_nat id) = Some (delete_view p id).
Proof.
  intros W Hid Hl. unfold abs_delete. rewrite views_lookup by done. unfold view. rewrite Hl. done.
Qed.

(** ** The operations of a page as one transition *)

Inductive OP :=
| OpInsert (rd : RECDES)
| OpInsertAt (id : Z) (rd : RECDES)
| OpInsertRecovery (id : Z) (rd : RECDES)
| OpDelete (id : Z)
| OpUpdate (id : Z) (rd : RECDES)
| OpUpdateType (id type : Z)
| OpCompact.

(** Whether the call reports success, the page and the saving table after it. *)
Definition run {ST} `{SavedSpaces ST} (th : THREAD_ENTRY) (p : PAGE) (st : ST) (op : OP)
    : bool * PAGE * ST :=
  match op with
  | OpInsert rd =>
      let '(status, p, _, _) := spage_insert th st p rd in (status =? SP_SUCCESS, p, st)
  | OpInsertAt id rd =>
      let '(status, p, _) := spage_insert_at th st p id rd in (status =? SP_SUCCESS, p, st)
  | OpInsertRecovery id rd =>
      let '(status, p, _) := spage_insert_for_recovery th st p id rd in
      (status =? SP_SUCCESS, p, st)
  | OpDelete id =>
      let '(r, p, st) := spage_delete th st p id in (r =? id, p, st)
  | OpUpdate id rd =>
      let '(status, p, st) := spage_update th st p id rd in (status =? SP_SUCCESS, p, st)
  | OpUpdateType id type => (true, spage_update_record_type p id type, st)
  | OpCompact => let '(r, p) := spage_compact th p in (r =? NO_ERROR, p, st)
  end.

(** What the callers guarantee.  A record may be empty, but a record of a page
    that has an empty one is neither deleted nor updated: that can make the
    empty record unreachable. *)
Definition op_ok (p : PAGE) (op : OP) : Prop :=
  match op with
  | OpInsert rd => recdes_ok rd
  | OpInsertAt id rd => recdes_ok rd /\ 0 <= id
  | OpInsertRecovery id rd =>
      recdes_ok rd /\ 0 <= id
      /\ (anchored p = true -> length_ rd <= spage_max_record_size /\ id <= p_num_slots p
            /\ (id < p_num_slots p -> live (slot p id) = false))
  | OpDelete id => solid p /\ 0 <= id
  | OpUpdate id rd =>
      solid p /\ 0 <= length_ rd /\ exists bs, data rd = Area bs /\ length_ rd <= Z.of_nat (length bs)
  | OpUpdateType id type => 0 <= type <= 5
  | OpCompact => True
  end.

(** The operations that put no empty record into the page. *)
Definition op_solid (op : OP) : Prop :=
  match op with
  | OpInsert rd | OpInsertAt _ rd | OpInsertRecovery _ rd | OpUpdate _ rd => 0 < length_ rd
  | _ => True
  end.

(** What a successful operation does to the abstract state. *)
Inductive view_step (th : THREAD_ENTRY) (anch : bool) (vs : list SLOT_VIEW)
    : OP -> list SLOT_VIEW -> Prop :=
| step_insert rd bytes :
    image th (norm_rd rd) bytes ->
    view_step th anch vs (OpInsert rd) (abs_insert vs (Rec (type_ (norm_rd rd)) bytes))
| step_insert_at id rd bytes vs' :
    image th (norm_rd rd) bytes ->
    abs_insert_at anch vs (Z.to_nat id) (Rec (type_ (norm_rd rd)) bytes) = Some vs' ->
    view_step th anch vs (OpInsertAt id rd) vs'
| step_recovery id rd bytes :
    anch = true -> recovered (norm_rd rd) bytes ->
    view_step th anch vs (OpInsertRecovery id rd)
      (abs_insert_recovery vs (Z.to_nat id) (Rec (type_ (norm_rd rd)) bytes))
| step_recovery_at id rd vs' :
    anch = false -> view_step th anch vs (OpInsertAt id rd) vs' ->
    view_step th anch vs (OpInsertRecovery id rd) vs'
| step_delete id vs' :
    abs_delete anch vs (Z.to_nat id) = Some vs' -> view_step th anch vs (OpDelete id) vs'
| step_update id rd bs vs' :
    data rd = Area bs ->
    abs_update vs (Z.to_nat id) (take (Z.to_nat (length_ rd)) bs) = Some vs' ->
    view_step th anch vs (OpUpdate id rd) vs'
| step_update_type id type :
    view_step th anch vs (OpUpdateType id type)
      (default vs (if id <? 0 then None else abs_update_type vs (Z.to_nat id) type))
| step_compact : view_step th anch vs OpCompact vs.

(** A well-formed page without empty records. *)
Definition page_inv (p : PAGE) : Prop := page_wf p /\ solid p.

(** ** The abstract operations keep the records non-empty *)

Lemma solid_insert vs id v :
  Forall solid_view vs -> solid_view v -> Forall solid_view (<[id := v]> vs).
Proof. intros. by apply Forall_insert. Qed.

Lemma solid_snoc vs v : Forall solid_view vs -> solid_view v -> Forall solid_view (vs ++ [v]).
Proof. intros. apply Forall_app. by rewrite Forall_singleton. Qed.

Lemma solid_middle vs id v :
  Forall solid_view vs -> solid_view v ->
  Forall solid_view (take id vs ++ v :: drop id vs).
Proof.
  intros. apply Forall_app. rewrite Forall_cons.
  split_and!; [by apply Forall_take|done|by apply Forall_drop].
Qed.

#[export] Hint Resolve solid_insert solid_snoc solid_middle Forall_delete : rye.

Lemma abs_insert_solid vs v :
  Forall solid_view vs -> solid_view v -> Forall solid_view (abs_insert vs v).
Proof. intros. unfold abs_insert. destruct (list_find _ _) as [[i w]|]; auto with rye. Qed.

Lemma abs_insert_at_solid anch vs id v vs' :
  abs_insert_at anch vs id v = Some vs' ->
  Forall solid_view vs -> solid_view v -> Forall solid_view vs'.
Proof.
  unfold abs_insert_at. intros Hi ? ?. destruct (vs !! id); repeat case_decide; simplify_eq;
    auto with rye. destruct anch; simplify_eq; auto with rye.
Qed.

Lemma abs_delete_solid anch vs id vs' :
  abs_delete anch vs id = Some vs' -> Forall solid_view vs -> Forall solid_view vs'.
Proof.
  unfold abs_delete. intros Hd ?. destruct (vs !! id) as [[]|]; simplify_eq.
  destruct anch; [by apply solid_insert|auto with rye].
Qed.

Lemma bytes_nonempty (n : Z) (bytes : list Z) :
  Z.of_nat (length bytes) = n -> 0 < n -> bytes <> [].
Proof. intros Hl Hn ->. simpl in Hl. lia. Qed.

Lemma view_step_solid th anch vs op vs' p :
  view_step th anch vs op vs' -> op_ok p op -> op_solid op ->
  Forall solid_view vs -> Forall solid_view vs'.
Proof.
  induction 1 as [rd bytes Him|id rd bytes vs' Him Ha|id rd bytes Han Him|id rd vs' Han _ IH
                 |id vs' Hd|id rd bs vs' Hb Hu|id type|]; simpl; intros Hok Hp Hs.
  - apply abs_insert_solid; [done|]. rewrite <- norm_rd_length in Hp.
    eapply bytes_nonempty; [apply Him|done].
  - eapply abs_insert_at_solid; [done|done|].
    rewrite <- norm_rd_length in Hp. eapply bytes_nonempty; [apply Him|done].
  - rewrite <- norm_rd_length in Hp.
    assert (solid_view (Rec (type_ (norm_rd rd)) bytes))
      by (eapply bytes_nonempty; [apply Him|done]).
    unfold abs_insert_recovery. case_decide; auto with rye.
  - apply IH; [|done|done]. by destruct Hok as (? & ? & _).
  - by eapply abs_delete_solid.
  - unfold abs_update in Hu. destruct (vs !! _) as [[t old|]|]; simplify_eq.
    apply solid_insert; [done|]. destruct Hok as (_ & _ & bs' & Hbs & Hl). rewrite Hb in Hbs. injection Hbs as <-.
    apply (bytes_nonempty (length_ rd)); [rewrite length_take; lia|done].
  - destruct (id <? 0); [done|]. unfold abs_update_type.
    destruct (vs !! _) as [[t old|]|] eqn:Hi; [|done..]. simpl.
    apply solid_insert; [done|]. rewrite Forall_lookup in Hs. by apply (Hs _ _ Hi).
  - done.
Qed.

(** ** Each operation is simulated *)

(** The abstract state after a call that reports a failure: it is the same,
    recovery has marked the slot, or the record is deleted or updated and there
    was no memory to save the space it gave back. *)
Definition failed_views (th : THREAD_ENTRY) (p : PAGE) (op : OP) (vs' : list SLOT_VIEW) : Prop :=
  vs' = views p
  \/ (exists id rd, op = OpInsertRecovery id rd
       /\ vs' = <[Z.to_nat id := Dead REC_DELETED_WILL_REUSE]> (views p))
  \/ (th_malloc th = false /\ is_saving (p_hdr p) = true
      /\ (exists id, op = OpDelete id \/ exists rd, op = OpUpdate id rd)
      /\ view_step th (anchored p) (views p) op vs').

Record outcome (th : THREAD_ENTRY) (p : PAGE) (op : OP) (ok : bool) (q : PAGE) : Prop := {
  oc_wf : page_wf q;
  oc_solid : solid p -> op_solid op -> solid q;
  oc_frame : frame p q;
  oc_anchor : anchored q = anchored p;
  oc_ok : ok = true -> view_step th (anchored p) (views p) op (views q);
  oc_failed : ok = false -> failed_views th p op (views q) }.

Lemma outcome_same th p op : page_wf p -> outcome th p op false p.
Proof. intros W. constructor; try done. by left. Qed.

Lemma outcome_step th p op q :
  op_ok p op -> page_wf q -> frame p q -> anchored q = anchored p ->
  view_step th (anchored p) (views p) op (views q) -> outcome th p op true q.
Proof. intros Hok Wq Hf Ha Hv. constructor; try done. intros. by eapply view_step_solid. Qed.

Lemma outcome_inserted th p op q id type bytes space vs :
  op_ok p op -> inserted p q id type bytes space vs ->
  view_step th (anchored p) (views p) op (vs (Rec type bytes)) -> outcome th p op true q.
Proof.
  intros Hok Hi Hv. apply outcome_step; try done; try apply Hi.
  - unfold anchored. by rewrite (ins_anchor _ _ _ _ _ _ _ Hi).
  - by rewrite (ins_views _ _ _ _ _ _ _ Hi).
Qed.

(** The saving table after a call: unchanged, or with space saved in it. *)
Definition saved_by {ST} `{SavedSpaces ST} (th : THREAD_ENTRY) (st st' : ST) : Prop :=
  st' = st \/ exists v n, st' = (save_space th v n st).2.

Lemma saved_by_ok {ST} `{SavedSpacesLaws ST} th (st st' : ST) :
  saved_by th st st' -> saved_ok st -> saved_ok st'.
Proof. intros [->|(v & n & ->)] Hst; [done|]. by apply save_space_ok. Qed.

Section Simulation.
Context {ST : Type} `{SavedSpacesLaws ST}.
Context (th : THREAD_ENTRY) (p : PAGE) (st : ST) (Hst : saved_ok st) (W : page_wf p).

#[local] Lemma si_ok : page_ok p.
Proof. apply W. Qed.

Lemma run_insert rd :
  op_ok p (OpInsert rd) ->
  exists ok q, run th p st (OpInsert rd) = (ok, q, st) /\ outcome th p (OpInsert rd) ok q.
Proof.
  intros Hok. simpl.
  destruct (spage_insert_cases th st Hst p W rd Hok)
    as [(_ & ->)|[(_ & _ & q & bytes & -> & Him & Hi)|[(_ & _ & ->)|(_ & _ & _ & ->)]]];
    cbn; eexists _, _; (split; [done|]); try by apply outcome_same.
  eapply outcome_inserted; [done|done|]. rewrite put_view_abs by apply si_ok.
  by constructor.
Qed.

Lemma run_insert_at id rd :
  op_ok p (OpInsertAt id rd) ->
  exists ok q, run th p st (OpInsertAt id rd) = (ok, q, st)
    /\ outcome th p (OpInsertAt id rd) ok q.
Proof.
  intros Hok. pose proof Hok as (Hrd & Hid). simpl.
  destruct (spage_insert_at_cases th st Hst rd Hrd p id W Hid)
    as [(_ & ->)|[(_ & _ & ->)|(_ & Hn & Hta & Hc)]];
    [cbn; eexists _, _; split; [done|]; by apply outcome_same..|].
  destruct Hc as [(_ & q & bytes & -> & Him & Hi)|[(_ & ->)|(_ & _ & ->)]];
    cbn; eexists _, _; (split; [done|]); try by apply outcome_same.
  eapply outcome_inserted; [done|done|]. econstructor; [done|].
  rewrite <- put_view_at_abs by (done || apply si_ok). by rewrite Hta.
Qed.

Lemma run_insert_recovery id rd :
  op_ok p (OpInsertRecovery id rd) ->
  exists ok q, run th p st (OpInsertRecovery id rd) = (ok, q, st)
    /\ outcome th p (OpInsertRecovery id rd) ok q.
Proof.
  intros Hok. pose proof Hok as (Hrd & Hid & Ha).
  destruct (anchored p) eqn:Ean.
  2: { destruct (run_insert_at id rd) as (ok & q & Hr & [? ? ? ? H5 H6]); [done|].
       exists ok, q. split.
       - rewrite <- Hr. simpl. unfold spage_insert_for_recovery. unfold anchored in Ean.
         destruct (length_ rd <? 0) eqn:?; [destruct Hrd; lia|]. by rewrite Ean.
       - constructor; try done.
         + intros Ho. apply step_recovery_at; [done|]. by apply H5.
         + intros Ho. left. destruct (H6 Ho) as [->|[(? & ? & ? & _)|(_ & _ & (? & [?|[? ?]]) & _)]]; done. }
  destruct (Ha eq_refl) as (Hm & Hn & Hd). unfold anchored in Ean. simpl.
  destruct (insert_for_recovery_cases th st Hst rd Hrd p id si_ok ltac:(lia) ltac:(lia) Hd Hm)
    as [(_ & q & bytes & -> & Hr & Hi)|Hc].
  - cbn. eexists true, _. split; [done|]. eapply outcome_inserted; [done|done|].
    assert (forall v, (if id <? p_num_slots p then <[Z.to_nat id := v]> (views p)
                       else views p ++ [v]) = abs_insert_recovery (views p) (Z.to_nat id) v) as Hvs.
    { intros v. unfold abs_insert_recovery. rewrite length_views. case_decide; zcase; done || lia. }
    cbv beta. rewrite Hvs. by apply step_recovery.
  - assert (outcome th p (OpInsertRecovery id rd) false (mark_reuse p id)) as Ho.
    { assert (views (mark_reuse p id) = views p \/ views (mark_reuse p id)
        = <[Z.to_nat id := Dead REC_DELETED_WILL_REUSE]> (views p)) as Hv.
      { rewrite mark_reuse_views by (done || apply si_ok). zcase; auto. }
      assert (page_wf (mark_reuse p id)) as Wm
        by (apply mark_reuse_wf; try done; [apply si_ok|lia]).
      constructor; try done.
      - intros Hs _. unfold solid. destruct Hv as [->| ->]; [done|]. by apply solid_insert.
      - apply mark_reuse_frame; [apply si_ok|lia|done].
      - unfold anchored. by rewrite mark_reuse_hdr.
      - intros _. destruct Hv as [->| ->]; [by left|]. right. left. by exists id, rd. }
    destruct Hc as [(_ & ->)|(_ & _ & ->)]; cbn; by eexists _, _.
Qed.

(** A page that is marked dirty is the same page. *)
#[local] Lemma outcome_dirty op ok (b : bool) q :
  outcome th p op ok q -> outcome th p op ok (if b then pgbuf_set_dirty q else q).
Proof.
  destruct b; [|done]. intros [[Wq Dq] Sq Hf Ha H1 H2].
  assert (slots (pgbuf_set_dirty q) = slots q) as Hs by done.
  constructor; try done. split; [by eapply page_ok_eq|by eapply dense_eq].
Qed.

#[local] Lemma give_back_by n : saved_by th st (give_back th st p n).2.
Proof.
  unfold give_back. destruct (is_saving (p_hdr p)); [right; by eexists _, _|by left].
Qed.

#[local] Lemma give_back_failed n :
  (give_back th st p n).1 <> NO_ERROR -> th_malloc th = false /\ is_saving (p_hdr p) = true.
Proof.
  unfold give_back. destruct (is_saving (p_hdr p)); [|done]. intros Hg. split; [|done].
  destruct (th_malloc th) eqn:Hm; [|done]. destruct Hg. by apply save_space_status.
Qed.

Lemma run_delete id :
  op_ok p (OpDelete id) ->
  exists ok q st', run th p st (OpDelete id) = (ok, q, st') /\ saved_by th st st'
    /\ outcome th p (OpDelete id) ok q.
Proof.
  intros [Hsol Hid]. simpl.
  destruct (decide (0 <= id < p_num_slots p /\ live (slot p id) = true)) as [[Hr Hl]|Hn].
  2: { rewrite spage_delete_none by (done || apply si_ok).
       replace (NULL_SLOTID =? id) with false by (unfold NULL_SLOTID; lia).
       eexists _, _, _. split; [done|]. split; [by left|]. by apply outcome_same. }
  destruct (spage_delete_spec th st p id W Hsol Hr Hl) as (q & D & ->).
  set (r := give_back th st p (freed p id)).
  eexists _, _, _. split; [done|]. split; [apply give_back_by|].
  assert (abs_delete (anchored p) (views p) (Z.to_nat id) = Some (views q)) as Hv
    by (rewrite (del_views _ _ _ D); apply delete_view_abs; [apply si_ok|done|done]).
  apply outcome_dirty. constructor; [apply D| |apply D| |intros _; by constructor|].
  - intros _ _. by eapply abs_delete_solid.
  - unfold anchored. by rewrite (del_anchor _ _ _ D).
  - intros Hf. right. right. destruct (give_back_failed (freed p id)) as [Hm Hs].
    { fold r. intros E. rewrite E in Hf. simpl in Hf. lia. }
    split_and!; [done|done|by exists id; left|by constructor].
Qed.

Lemma restored_same op q : restored p q -> outcome th p op false q.
Proof.
  intros R. constructor; try done.
  - apply R.
  - unfold solid. by rewrite (re_views _ _ R).
  - apply R.
  - unfold anchored. by rewrite (re_hdr _ _ R).
  - intros _. left. apply R.
Qed.

Lemma run_update id rd :
  op_ok p (OpUpdate id rd) ->
  exists ok q st', run th p st (OpUpdate id rd) = (ok, q, st') /\ saved_by th st st'
    /\ outcome th p (OpUpdate id rd) ok q.
Proof.
  intros Hok. pose proof Hok as (Hsol & Hp & bs & Hd & Hbs). simpl.
  destruct (decide (spage_max_record_size < length_ rd)) as [Hm|Hm].
  { rewrite spage_update_too_long by lia. cbn. eexists _, _, _. split; [done|]. split; [by left|].
    by apply outcome_same. }
  destruct (decide (0 <= id < p_num_slots p /\ live (slot p id) = true)) as [[Hr Hl]|Hn].
  2: { rewrite spage_update_none by (lia || apply W || done). cbn.
       eexists _, _, _. split; [done|]. split; [by left|]. by apply outcome_same. }
  destruct (spage_update_spec th st Hst p id rd bs W Hp Hsol Hr Hl ltac:(lia) Hd Hbs)
    as [(_ & ->)|[(_ & q & U & ->)|(_ & _ & q & R & ->)]]; cbn zeta.
  - cbn. eexists _, _, _. split; [done|]. split; [by left|]. by apply outcome_same.
  - set (r := give_back _ _ _ _). eexists _, _, _. split; [done|]. split; [apply give_back_by|].
    assert (abs_update (views p) (Z.to_nat id) (take (Z.to_nat (length_ rd)) bs)
            = Some (views q)) as Hv.
    { unfold abs_update. rewrite (up_views _ _ _ _ _ U), views_lookup by done.
      unfold view. by rewrite Hl. }
    assert (anchored q = anchored p) as Ha
      by (unfold anchored; by rewrite (up_anchor _ _ _ _ _ U)).
    assert (outcome th p (OpUpdate id rd) true q) as Ho
      by (apply outcome_step; try done; [apply U..|by econstructor]).
    apply outcome_dirty. destruct (r.1 =? NO_ERROR) eqn:Er; [done|].
    destruct (give_back_failed (- growth p id (length_ rd))) as [Hm' Hs]; [fold r; lia|].
    destruct Ho as [? ? ? ? Hstep _]. constructor; try done. intros _. right. right.
    split_and!; [done|done|exists id; right; by exists rd|by apply Hstep].
  - cbn. eexists _, _, _. split; [done|]. split; [by left|]. by apply restored_same.
Qed.

Lemma run_update_type id type :
  op_ok p (OpUpdateType id type) ->
  outcome th p (OpUpdateType id type) true (spage_update_record_type p id type).
Proof.
  intros Hok. unfold spage_update_record_type. rewrite find_slot_spec by apply si_ok.
  destruct (_ && _ && _) eqn:E.
  2: { apply outcome_step; try done.
       assert (views p = default (views p) (if id <? 0 then None
         else abs_update_type (views p) (Z.to_nat id) type)) as Hv.
       { destruct (id <? 0) eqn:?; [done|]. unfold abs_update_type.
         destruct (views p !! Z.to_nat id) as [[t b|]|] eqn:Hv; [|done..].
         destruct (views_Rec _ _ _ _ Hv ltac:(lia)) as (Hr & Hl & _). rewrite Hl in E. lia. }
       rewrite Hv at 2. by constructor. }
  assert (0 <= id < p_num_slots p) as Hr by lia.
  assert (live (slot p id) = true) as Hl by lia. simpl in Hok.
  apply (outcome_dirty _ _ true). set (q := slot_set_type p id type).
  assert (page_ok q) as Wq by (apply set_type_ok; [apply si_ok|done|lia|lia]).
  pose proof (wf_cont _ si_ok). pose proof (wf_cont_pos _ si_ok). pose proof (wf_off _ si_ok).
  pose proof (slot_addr_le p id Hr).
  set (s := mkSlot (offset_to_record (slot p id)) (record_length (slot p id)) type).
  assert (slots q = <[Z.to_nat id := s]> (slots p)) as Hs by (apply set_type_slots; lia).
  assert (agree (offset_to_free_area (p_hdr p)) p q) as Hag by (apply agree_put_slot; lia).
  assert (views q = <[Z.to_nat id := view (p_mem q) s]> (views p)) as Hv.
  { eapply views_insert; [apply si_ok|done|done| |done]. intros x Hx. apply Hag. by left. }
  assert (view (p_mem q) s
          = Rec type (load_bytes (p_mem p) (offset_to_record (slot p id))
                        (Z.to_nat (record_length (slot p id))))) as Hvs.
  { transitivity (view (p_mem p) s); [|unfold view; change (live s) with (live (slot p id));
      by rewrite Hl].
    assert (s ∈ slots q) as Hin.
    { rewrite Hs. eapply list_elem_of_lookup_2, list_lookup_insert_eq. rewrite length_slots. lia. }
    pose proof (wf_layout _ Wq) as [Lq _]%layout_alt. rewrite Forall_forall in Lq.
    eapply view_agree; [apply (wf_align _ Wq)|done|by apply Lq]. }
  rewrite Hvs in Hv.
  apply outcome_step; try done.
  - split; [done|]. eapply dense_insert; [apply si_ok|done|apply W|done| |done|done]. done.
  - eapply agree_frame; [|done]. lia.
  - assert (views q = default (views p) (if id <? 0 then None
      else abs_update_type (views p) (Z.to_nat id) type)) as Hq.
    { replace (id <? 0) with false by lia. unfold abs_update_type.
      rewrite views_lookup by done. unfold view. rewrite Hl. simpl. exact Hv. }
    rewrite Hq. by constructor.
Qed.

Lemma run_compact :
  exists ok q, run th p st OpCompact = (ok, q, st) /\ outcome th p OpCompact ok q.
Proof.
  simpl. destruct (compact_cases th p si_ok) as [(q & -> & S & _)|(_ & ->)]; cbn.
  - exists true, q. split; [done|]. apply outcome_step; try done.
    + split; [apply S|]. eapply same_page_dense; [done|apply W].
    + apply S.
    + unfold anchored. by rewrite (sp_anchor _ _ S).
    + rewrite (sp_views _ _ S). constructor.
  - exists false, p. split; [done|]. by apply outcome_same.
Qed.

Lemma run_outcome op :
  op_ok p op ->
  exists ok q st', run th p st op = (ok, q, st') /\ saved_by th st st' /\ outcome th p op ok q.
Proof.
  destruct op as [rd|id rd|id rd|id|id rd|id type|]; intros Hok.
  - destruct (run_insert rd Hok) as (ok & q & ? & ?). exists ok, q, st. split_and!; [done|by left|done].
  - destruct (run_insert_at id rd Hok) as (ok & q & ? & ?). exists ok, q, st.
    split_and!; [done|by left|done].
  - destruct (run_insert_recovery id rd Hok) as (ok & q & ? & ?). exists ok, q, st.
    split_and!; [done|by left|done].
  - by apply run_delete.
  - by apply run_update.
  - eexists true, _, st. split; [done|]. split; [by left|]. by apply run_update_type.
  - destruct run_compact as (ok & q & ? & ?). exists ok, q, st. split_and!; [done|by left|done].
Qed.
End Simulation.

(** ** A fresh page *)

Lemma initialize_inv p0 anchor align saving :
  spage_is_valid_anchor_type anchor = true -> valid_alignment align ->
  page_inv (spage_initialize p0 anchor align saving)
  /\ views (spage_initialize p0 anchor align saving) = [].
Proof.
  intros Ha Hal. set (p := spage_initialize p0 anchor align saving).
  assert (slots p = []) as Hs by done.
  assert (views p = []) as Hv by done.
  split; [|done]. split; [split|unfold solid; by rewrite Hv].
  - assert (DB_ALIGN (DB_PAGESIZE - SPAGE_HEADER_SIZE) align = DB_PAGESIZE - SPAGE_HEADER_SIZE
            /\ DB_ALIGN SPAGE_HEADER_SIZE align = SPAGE_HEADER_SIZE) as [H1 H2]
      by (by destruct Hal as [->|[->|[->| ->]]]).
    constructor; rewrite ?Hs; unfold p, spage_initialize, p_num_slots, p_num_records; simpl;
      rewrite ?H1, ?H2; try done.
    unfold SPAGE_HEADER_SIZE. by destruct Hal as [->|[->|[->| ->]]].
  - intros _ i Hi. unfold p, spage_initialize, p_num_slots in Hi. simpl in Hi. lia.
Qed.
