(* ===== verification/SlottedPageProps.v ===== *)
(** * Slotted pages and saved space: the properties *)
From Stdlib Require Import ZArith Lia ZifyBool.
From stdpp Require Import base list numbers gmap.
From S2P Require Import Prelude StorageCommon.
From S2P Require Import SpaceSaving SpaceSavingInv SpaceSavingSim SpaceSavingFree.
From S2P Require Import SlottedPage SlottedPageInv SlottedPageCompact SlottedPageOps.
From S2P Require Import SlottedPageShift SlottedPageDelete SlottedPageUpdate SlottedPageRead.
From S2P Require Import SlottedPageSpec.

(** ** The server: a page and the saving table *)

(** The states of a page and of the saving table that the operations of any
    transaction with a descriptor reach: on the page itself, on other pages, and
    at the end of a transaction.  Any allocation may fail, and records may be
    empty; what the callers guarantee is [op_ok]. *)
Inductive reachable : PAGE -> SAVING -> Prop :=
| reach_init p0 anchor align saving :
    spage_is_valid_anchor_type anchor = true -> valid_alignment align ->
    reachable (spage_initialize p0 anchor align saving) spage_boot
| reach_op th p s op ok q s' :
    reachable p s -> th_tdes th = true -> op_ok p op ->
    run th p s op = (ok, q, s') -> reachable q s'
| reach_other th v n p s r s' :
    reachable p s -> th_tdes th = true ->
    spage_save_space th v n s = Some (r, s') -> reachable p s'
| reach_end t p s s' :
    reachable p s -> log_free_savings t s = Some s' -> reachable p s'.

Lemma boot_wf : saving_wf spage_boot ∅ /\ complete spage_boot.
Proof.
  split.
  - exists ∅. split; [split|split; [|done]].
    + exists ∅. constructor; simpl; intros *; by rewrite ?lookup_empty.
    + intros t _. exists []. simpl. rewrite lookup_empty. split; [apply NoDup_nil_2|done].
    + intros hp v a. by rewrite lookup_empty.
  - intros t c _ p e. simpl. by rewrite lookup_empty.
Qed.

Lemma boot_saved_ok : saved_ok spage_boot.
Proof. destruct boot_wf as [(B & W & _) _]. by exists B. Qed.

Definition table_ok (s : SAVING) : Prop := saving_ok s /\ complete s.

Lemma save_table_ok th v n s :
  th_tdes th = true -> table_ok s ->
  exists r s', spage_save_space th v n s = Some (r, s') /\ table_ok s'.
Proof.
  intros Ht [[B W] Hc]. destruct (save_books th v n s B W) as (r & s' & Hs & Hcase).
  exists r, s'. split; [done|]. destruct Hcase as [(_ & (B' & W' & _) & Hc')|(_ & _ & ->)].
  - split; [by exists B'|by apply Hc'].
  - split; [by exists B|done].
Qed.

Lemma free_table_ok t s :
  table_ok s -> exists s', log_free_savings t s = Some s' /\ table_ok s'.
Proof.
  intros [[B W] Hc]. destruct (log_free_books t s B W Hc) as (s' & Hs & W' & Hc' & _).
  exists s'. split; [done|]. split; [by eexists|done].
Qed.

Lemma saved_by_table th (s s' : SAVING) :
  saved_by th s s' -> th_tdes th = true -> table_ok s -> table_ok s'.
Proof.
  intros [->|(v & n & ->)] Ht Hs; [done|]. simpl.
  by destruct (save_table_ok th v n s Ht Hs) as (r & s' & -> & Hs').
Qed.

Lemma page_reachable_ok p s : reachable p s -> page_wf p /\ table_ok s.
Proof.
  induction 1 as [p0 anchor align saving Ha Hal|th p s op ok q s' _ [W Hs] Ht Hok Hrun
                 |th v n p s r s' _ [W Hs] Ht Hsave|t p s s' _ [W Hs] Hfree].
  - split; [by apply initialize_inv|]. destruct boot_wf. split; [apply boot_saved_ok|done].
  - assert (saved_ok s) as Hst by apply Hs.
    destruct (run_outcome th p s Hst W op Hok) as (ok' & q' & s1 & Hrun' & Hby & O).
    rewrite Hrun in Hrun'. simplify_eq. split; [apply O|]. by eapply saved_by_table.
  - destruct (save_table_ok th v n s Ht Hs) as (r' & s1 & Hsave' & Hs'). by simplify_eq.
  - destruct (free_table_ok t s Hs) as (s1 & Hf & Hs'). by simplify_eq.
Qed.

(** ** Concrete pages *)

Definition zero_page : PAGE := mkPage (mkHeader 0 0 0 0 0 0 0 false) (fun _ => 0) (1, 1) false.
Definition heap_page : PAGE := spage_initialize zero_page ANCHORED DOUBLE_ALIGNMENT true.
Definition btree_page : PAGE :=
  spage_initialize zero_page UNANCHORED_KEEP_SEQUENCE INT_ALIGNMENT false.
Definition worker (t : Z) : THREAD_ENTRY := mkThread t true false true true true true.
Definition rec_of (bytes : list Z) : RECDES :=
  mkRecdes (Z.of_nat (length bytes)) (Z.of_nat (length bytes)) REC_HOME (Area bytes).

Lemma heap_page_inv : page_inv heap_page.
Proof. apply initialize_inv; [done|]. unfold valid_alignment, DOUBLE_ALIGNMENT. lia. Qed.

Lemma btree_page_inv : page_inv btree_page.
Proof. apply initialize_inv; [done|]. unfold valid_alignment, INT_ALIGNMENT. lia. Qed.

Lemma rec_of_ok bytes : recdes_ok (rec_of bytes).
Proof.
  unfold recdes_ok, rec_of, REC_HOME, REC_ASSIGN_ADDRESS. simpl. split_and!; try lia.
  intros _. by exists bytes.
Qed.

(** ** Properties *)

(** C1: every operation on a well-formed page - insertion, insertion at a slot,
    insertion of recovery, deletion, update, change of type, compaction -
    simulates an operation on the list of what the slots describe, for the
    arguments of [op_ok] and whatever allocations fail.  A record may be empty,
    but deletion and update are covered only on a page without empty records.
    When the call reports success the list is the one of the abstract
    operation.  When it reports a failure the list is unchanged, with two
    exceptions: recovery may have marked the slot for reuse, and a deletion or
    an update of a page that saves space has been carried out when there was no
    memory to save the space.  The page is well formed afterwards and no byte
    of the header area or outside the page has been written as page data. *)
Theorem spage_refines {ST} `{SavedSpacesLaws ST} (th : THREAD_ENTRY) (p : PAGE) (st : ST)
    (op : OP) :
  saved_ok st -> page_wf p -> op_ok p op ->
  exists ok q st', run th p st op = (ok, q, st')
    /\ page_wf q /\ frame p q /\ saved_ok st'
    /\ (if ok then view_step th (anchored p) (views p) op (views q)
        else failed_views th p op (views q)).
Proof.
  intros Hst W Hok. destruct (run_outcome th p st Hst W op Hok)
    as (ok & q & st' & Hr & Hby & O).
  exists ok, q, st'. split_and!; [done|apply O|apply O|by eapply saved_by_ok|].
  destruct ok; by apply O.
Qed.

Lemma spage_refines_witness :
  exists ok q st', run (worker 7) heap_page spage_boot (OpInsert (rec_of [1; 2; 3])) = (ok, q, st')
    /\ page_wf q /\ frame heap_page q /\ saved_ok st'
    /\ (if ok then view_step (worker 7) (anchored heap_page) (views heap_page)
                     (OpInsert (rec_of [1; 2; 3])) (views q)
        else failed_views (worker 7) heap_page (OpInsert (rec_of [1; 2; 3])) (views q)).
Proof.
  apply (spage_refines (worker 7) heap_page spage_boot (OpInsert (rec_of [1; 2; 3]))).
  - apply boot_saved_ok.
  - apply heap_page_inv.
  - apply rec_of_ok.
Defined.

(** C15: in every state that transactions reach from an initialised page, with
    any allocations failing, the page is well formed (the header accounts for
    the slots and the records, the records lie between the free area and the
    header and do not overlap, the slots of a page that keeps the sequence all
    hold records), the checks of the server pass, and the saving table never
    follows a dangling pointer, also when heads are missing in its hash table
    because mht_put failed.  The transactions have descriptors; records may be
    empty, but no record is deleted or updated in a page that has an empty
    one. *)
Theorem reachable_safe (p : PAGE) (s : SAVING) :
  reachable p s ->
  page_wf p /\ spage_verify_header p = true /\ spage_check_num_slots p = true
  /\ (forall th v, is_Some (spage_get_saved_spaces th v s))
  /\ (forall th v n, is_Some (spage_save_space th v n s))
  /\ (forall t, is_Some (log_free_savings t s)).
Proof.
  intros Hr. destruct (page_reachable_ok p s Hr) as [Wp Hs]. pose proof Hs as [[B W] Hc].
  split_and!; [done|by apply verify_header_ok, Wp|by apply check_num_slots_ok, Wp|..].
  - intros th v. destruct W as [[G R] _]. rewrite (get_saved_spaces_sim s B G R). by eexists.
  - intros th v n. destruct (save_books th v n s B W) as (r & s' & -> & _). by eexists.
  - intros t. destruct (free_table_ok t s Hs) as (s' & -> & _). by eexists.
Qed.

(** Two savings on a page whose head mht_put fails to enter the first time: the
    page has two heads, one of them hidden. *)
Definition forgetful (t : Z) : THREAD_ENTRY := mkThread t true false true true true false.
Definition two_heads : SAVING :=
  let s := default spage_boot (snd <$> spage_save_space (forgetful 7) (1, 1) 24 spage_boot) in
  default s (snd <$> spage_save_space (worker 9) (1, 1) 8 s).

Lemma reachable_safe_witness :
  (size (heads two_heads), spage_Mht_saving two_heads !! (1, 1)) = (2%nat, Some 3)
  /\ page_wf heap_page /\ spage_verify_header heap_page = true /\ spage_check_num_slots heap_page = true
  /\ (forall th v, is_Some (spage_get_saved_spaces th v two_heads))
  /\ (forall th v n, is_Some (spage_save_space th v n two_heads))
  /\ (forall t, is_Some (log_free_savings t two_heads)).
Proof.
  split; [vm_compute; reflexivity|]. apply (reachable_safe heap_page two_heads).
  apply (reach_other (worker 9) (1, 1) 8 heap_page
    (default spage_boot (snd <$> spage_save_space (forgetful 7) (1, 1) 24 spage_boot)) NO_ERROR);
    [|done|vm_compute; reflexivity].
  apply (reach_other (forgetful 7) (1, 1) 24 heap_page spage_boot NO_ERROR);
    [|done|vm_compute; reflexivity].
  apply reach_init; [done|]. unfold valid_alignment, DOUBLE_ALIGNMENT. lia.
Defined.

(** C14: compaction of a well-formed page, when there is memory for its array of
    slots, succeeds, keeps what every slot describes, makes all the free space
    contiguous and neither loses nor gains any of it; nothing outside the
    record area and the slots is written.  Without the memory it fails and the
    page is unchanged. *)
Theorem spage_compact_correct (th : THREAD_ENTRY) (p : PAGE) :
  page_ok p ->
  (exists q, spage_compact th p = (NO_ERROR, q)
    /\ page_ok q /\ views q = views p /\ frame p q
    /\ cont_free (p_hdr q) = total_free (p_hdr q)
    /\ total_free (p_hdr q) = total_free (p_hdr p)
    /\ cont_free (p_hdr p) <= cont_free (p_hdr q)
    /\ p_num_slots q = p_num_slots p /\ p_num_records q = p_num_records p)
  \/ (th_calloc th = false /\ spage_compact th p = (ER_FAILED, p)).
Proof.
  intros W. destruct (compact_cases th p W) as [(q & Hq & S & Hcf)|Hf]; [left|by right].
  exists q. rewrite Hcf, (sp_total _ _ S), (sp_nslots _ _ S), (sp_nrecs _ _ S), (sp_views _ _ S).
  pose proof (page_ok_cont_le_total p W). split_and!; try done; apply S.
Qed.

(** Three records, the first of them deleted. *)
Definition holed_page : PAGE :=
  let ins p bytes := (run (worker 7) p spage_boot (OpInsert (rec_of bytes))).1.2 in
  (run (worker 7) (ins (ins (ins btree_page [1; 2; 3]) [4; 5]) [6]) spage_boot (OpDelete 0)).1.2.

Lemma run_inv (th : THREAD_ENTRY) (p : PAGE) (s : SAVING) (op : OP) :
  saved_ok s -> page_inv p -> op_ok p op -> op_solid op -> page_inv (run th p s op).1.2.
Proof.
  intros Hs [W S] Hok Hsol. destruct (run_outcome th p s Hs W op Hok) as (ok & q & s' & -> & _ & O).
  split; [apply O|]. by apply (oc_solid _ _ _ _ _ O).
Qed.

Lemma insert_inv t p bytes :
  page_inv p -> bytes <> [] ->
  page_inv (run (worker t) p spage_boot (OpInsert (rec_of bytes))).1.2.
Proof.
  intros I Hb. apply run_inv; [apply boot_saved_ok|done|apply rec_of_ok|].
  simpl. destruct bytes; [done|]. simpl. lia.
Qed.

Lemma delete_inv t p id :
  page_inv p -> 0 <= id -> page_inv (run (worker t) p spage_boot (OpDelete id)).1.2.
Proof. intros I Hid. apply run_inv; [apply boot_saved_ok|done|split; [apply I|done]|done]. Qed.

Lemma holed_page_inv : page_inv holed_page.
Proof. apply delete_inv; [|done]. do 3 (apply insert_inv; [|done]). apply btree_page_inv. Qed.

Lemma spage_compact_correct_witness :
  (cont_free (p_hdr holed_page), total_free (p_hdr holed_page), views holed_page)
  = (16316, 16320, [Rec 2 [4; 5]; Rec 2 [6]])
  /\ exists q, spage_compact (worker 7) holed_page = (NO_ERROR, q)
    /\ page_ok q /\ views q = views holed_page
    /\ cont_free (p_hdr q) = total_free (p_hdr q)
    /\ total_free (p_hdr q) = total_free (p_hdr holed_page).
Proof.
  split; [vm_compute; reflexivity|].
  destruct (spage_compact_correct (worker 7) holed_page) as [(q & H1 & H2 & H3 & _ & H4 & H5 & _)|[H _]];
    [apply holed_page_inv| |discriminate H].
  exists q. exact (conj H1 (conj H2 (conj H3 (conj H4 H5)))).
Defined.

(** A record that has been inserted is read back: the slot the insertion
    reports holds the bytes and the type of the caller, and every other record
    keeps its own. *)
Theorem spage_insert_get_record {ST} `{SavedSpacesLaws ST} (th : THREAD_ENTRY) (st : ST)
    (p q : PAGE) (rd rd' out : RECDES) (bs : list Z) (id : Z) :
  saved_ok st -> page_inv p -> recdes_ok rd -> data rd = Area bs ->
  type_ rd <> REC_ASSIGN_ADDRESS ->
  spage_insert th st p rd = (SP_SUCCESS, q, rd', id) -> length_ rd <= area_size out ->
  (exists rest, spage_get_record q id out COPY
     = (S_SUCCESS, mkRecdes (area_size out) (length_ rd) (type_ rd')
                     (Area (take (Z.to_nat (length_ rd)) bs ++ rest))))
  /\ forall j t bytes, views p !! j = Some (Rec t bytes) -> views q !! j = Some (Rec t bytes).
Proof.
  intros Hst [W _] Hrd Hd Hty Hins Ha.
  destruct (spage_insert_cases th st Hst p W rd Hrd)
    as [(_ & E)|[(_ & _ & q' & bytes & E & Him & I)|[(_ & _ & E)|(_ & _ & _ & E)]]];
    rewrite Hins in E; simplify_eq.
  assert (type_ (norm_rd rd) <> REC_ASSIGN_ADDRESS) as Hty'
    by (unfold norm_rd; zcase; [done|done]).
  destruct Him as (Hlen & _ & Hby). rewrite norm_rd_length in Hlen, Hby.
  specialize (Hby Hty' bs ltac:(by rewrite norm_rd_data)).
  destruct (ins_slot _ _ _ _ _ _ _ I) as [Hr Hv]. split.
  - destruct (get_record_copy q' (spage_find_free_slot p 0) out (type_ (norm_rd rd)) bytes)
      as (rest & Hg); [apply I|lia|done|lia|].
    exists rest. by rewrite Hg, Hlen, Hby.
  - intros j t b Hj. rewrite (ins_views _ _ _ _ _ _ _ I), put_view_abs by apply W.
    unfold abs_insert. destruct (list_find _ _) as [[i w]|] eqn:Hf.
    + apply list_find_Some in Hf as (Hi & -> & _).
      rewrite list_lookup_insert_ne; [done|]. intros ->. congruence.
    + rewrite lookup_app_l; [done|]. by eapply lookup_lt_Some.
Qed.

Lemma spage_insert_get_record_witness :
  let '(st, q, rd', id) := spage_insert (worker 7) spage_boot heap_page (rec_of [1; 2; 3]) in
  st = SP_SUCCESS /\ id = 0 /\
  ((exists rest, spage_get_record q id (rec_of [9; 9; 9; 9]) COPY
     = (S_SUCCESS, mkRecdes 4 3 (type_ rd') (Area ([1; 2; 3] ++ rest))))
   /\ forall j t bytes, views heap_page !! j = Some (Rec t bytes) ->
        views q !! j = Some (Rec t bytes)).
Proof.
  destruct (spage_insert (worker 7) spage_boot heap_page (rec_of [1; 2; 3]))
    as [[[st q] rd'] id] eqn:E.
  assert (st = SP_SUCCESS) as Es by (apply (f_equal (fun x => x.1.1.1)) in E; vm_compute in E; done).
  assert (id = 0) as Ei by (apply (f_equal snd) in E; vm_compute in E; done).
  split; [exact Es|]. split; [exact Ei|]. subst st.
  apply (spage_insert_get_record (worker 7) spage_boot heap_page q (rec_of [1; 2; 3]) rd'
           (rec_of [9; 9; 9; 9]) [1; 2; 3] id).
  - apply boot_saved_ok.
  - apply heap_page_inv.
  - apply rec_of_ok.
  - reflexivity.
  - done.
  - exact E.
  - simpl. lia.
Defined.

(** An update that succeeds replaces the bytes of its record and nothing
    else: the slot keeps its type, the other slots describe what they did, and
    the free space of the page changes by the difference of the aligned
    lengths. *)
Theorem spage_update_correct {ST} `{SavedSpacesLaws ST} (th : THREAD_ENTRY) (st st' : ST)
    (p q : PAGE) (rd : RECDES) (bs : list Z) (id t : Z) (old : list Z) :
  saved_ok st -> page_inv p -> 0 <= id -> 0 <= length_ rd ->
  data rd = Area bs -> length_ rd <= Z.of_nat (length bs) ->
  views p !! Z.to_nat id = Some (Rec t old) ->
  spage_update th st p id rd = (SP_SUCCESS, q, st') ->
  page_wf q /\ frame p q
  /\ views q = <[Z.to_nat id := Rec t (take (Z.to_nat (length_ rd)) bs)]> (views p)
  /\ total_free (p_hdr q)
     = total_free (p_hdr p) + DB_ALIGN (Z.of_nat (length old)) (alignment (p_hdr p))
       - DB_ALIGN (length_ rd) (alignment (p_hdr p)).
Proof.
  intros Hst [W Hsol] Hid Hlen Hd Hbs Hv Hup.
  destruct (views_Rec _ _ _ _ Hv Hid) as (Hr & Hl & Ht & Hol & _).
  destruct (decide (spage_max_record_size < length_ rd)) as [Hm|Hm].
  { rewrite spage_update_too_long in Hup by done. done. }
  destruct (spage_update_spec th st Hst p id rd bs W Hlen Hsol Hr Hl ltac:(lia) Hd Hbs)
    as [(_ & E)|[(_ & q' & U & E)|(_ & _ & q' & _ & E)]]; rewrite Hup in E; [done| |done].
  cbn zeta in E. destruct (give_back th st p _) as [g st1]. simpl in E.
  destruct (g =? NO_ERROR); [|done]. injection E as -> ->.
  pose proof (proj1 (up_wf _ _ _ _ _ U)) as Wq.
  split_and!.
  - split; [by eapply page_ok_eq|]. eapply dense_eq; [exact Wq|apply U|done|done].
  - eapply frame_mem; [apply U|done|done].
  - transitivity (views q'); [done|]. by rewrite (up_views _ _ _ _ _ U), Ht.
  - simpl. rewrite (up_total _ _ _ _ _ U). unfold growth, alen. rewrite Hol. lia.
Qed.

Lemma spage_update_correct_witness :
  exists q st', spage_update (worker 7) spage_boot holed_page 1 (rec_of [7; 7; 7; 7; 7]) = (SP_SUCCESS, q, st')
  /\ page_wf q /\ frame holed_page q
  /\ views q = [Rec 2 [4; 5]; Rec 2 [7; 7; 7; 7; 7]] /\ total_free (p_hdr q) = 16316.
Proof.
  destruct (spage_update (worker 7) spage_boot holed_page 1 (rec_of [7; 7; 7; 7; 7]))
    as [[r q] st'] eqn:E.
  assert (r = SP_SUCCESS) as Er by (apply (f_equal (fun x => x.1.1)) in E; vm_compute in E; done).
  subst r. exists q, st'. split; [reflexivity|].
  destruct (spage_update_correct (worker 7) spage_boot st' holed_page q (rec_of [7; 7; 7; 7; 7])
              [7; 7; 7; 7; 7] 1 2 [6]) as (H1 & H2 & H3 & H4).
  - apply boot_saved_ok.
  - apply holed_page_inv.
  - lia.
  - simpl. lia.
  - reflexivity.
  - simpl. lia.
  - vm_compute. reflexivity.
  - exact E.
  - split; [exact H1|]. split; [exact H2|]. split.
    + rewrite H3. vm_compute. reflexivity.
    + rewrite H4. vm_compute. reflexivity.
Defined.

(** Inserting in the middle of a page that keeps the sequence. *)
Lemma insert_at_then_delete_views p id v :
  page_wf p -> anchored p = false -> 0 <= id <= p_num_slots p ->
  delete (Z.to_nat id) (put_view_at p id v) = views p.
Proof.
  intros [W D] Ha Hid. unfold put_view_at.
  assert (reused p id = false) as ->.
  { apply not_true_is_false. intros Hr. unfold reused in Hr. unfold anchored in Ha.
    pose proof (reuse_dead p id W ltac:(lia) ltac:(lia)) as Hd.
    rewrite D in Hd by lia. done. }
  rewrite delete_take_drop, take_app_le, drop_app_ge by (rewrite length_take, length_views; lia).
  rewrite length_take, length_views.
  replace (S (Z.to_nat id) - _)%nat with 1%nat by lia. simpl.
  rewrite drop_0, take_ge by (rewrite length_take, length_views; lia). apply take_drop.
Qed.

(** In a page that keeps the sequence of its records, deleting a record
    that has just been inserted at a position gives back the page: the same
    records in the same order and the same amount of free space. *)
Theorem spage_insert_at_delete {ST} `{SavedSpacesLaws ST} (th : THREAD_ENTRY) (st st' : ST)
    (p q r : PAGE) (rd rd' : RECDES) (id : Z) :
  saved_ok st -> page_inv p -> recdes_ok rd -> 0 < length_ rd -> 0 <= id ->
  anchored p = false -> is_saving (p_hdr p) = false ->
  spage_insert_at th st p id rd = (SP_SUCCESS, q, rd') ->
  spage_delete th st q id = (id, r, st') ->
  page_inv r /\ views r = views p /\ total_free (p_hdr r) = total_free (p_hdr p)
  /\ p_num_records r = p_num_records p.
Proof.
  intros Hst [W S] Hrd Hpos Hid Ha Hns Hins Hdel.
  destruct (spage_insert_at_cases th st Hst rd Hrd p id W Hid)
    as [(_ & E)|[(_ & _ & E)|(_ & Hn & Hta & [(_ & q' & bytes & E & Him & Hi)|[(_ & E)|(_ & _ & E)]])]];
    rewrite Hins in E; simplify_eq.
  destruct (ins_slot _ _ _ _ _ _ _ Hi) as [Hr Hv].
  destruct (views_Rec _ _ _ _ Hv Hid) as (_ & Hl & _ & Hlen & _).
  assert (page_inv q') as [Wq Sq].
  { split; [apply Hi|]. unfold solid. rewrite (ins_views _ _ _ _ _ _ _ Hi).
    assert (abs_insert_at (anchored p) (views p) (Z.to_nat id) (Rec (type_ (norm_rd rd)) bytes)
            = Some (put_view_at p id (Rec (type_ (norm_rd rd)) bytes))) as Hab
      by (rewrite <- put_view_at_abs by (lia || apply W); by rewrite Hta).
    eapply abs_insert_at_solid; [exact Hab|done|].
    destruct Him as [Hl' _]. rewrite norm_rd_length in Hl'. by eapply bytes_nonempty. }
  destruct (spage_delete_spec th st q' id Wq Sq Hr Hl) as (r' & D & E).
  assert (give_back th st q' (freed q' id) = (NO_ERROR, st)) as Hg
    by (unfold give_back; by rewrite (ins_saving _ _ _ _ _ _ _ Hi), Hns).
  rewrite Hdel, Hg in E. simpl in E. simplify_eq.
  assert (views r' = views p) as Hvr.
  { rewrite (del_views _ _ _ D). unfold delete_view.
    rewrite (ins_anchor _ _ _ _ _ _ _ Hi). unfold anchored in Ha. rewrite Ha.
    rewrite (ins_views _ _ _ _ _ _ _ Hi). by apply insert_at_then_delete_views. }
  pose proof (del_wf _ _ _ D) as [Wr Dr].
  split_and!.
  - split; [split; [by eapply page_ok_eq|by eapply dense_eq]|].
    unfold solid. change (Forall solid_view (views r')). by rewrite Hvr.
  - exact Hvr.
  - simpl. rewrite (del_total _ _ _ D), (ins_total _ _ _ _ _ _ _ Hi). unfold freed, need_at, alen.
    rewrite Hlen, (ins_anchor _ _ _ _ _ _ _ Hi), (ins_align _ _ _ _ _ _ _ Hi).
    destruct Him as [-> _]. rewrite norm_rd_length. unfold anchored in Ha. rewrite Ha.
    assert (reused p id = false) as ->; [|lia].
    apply not_true_is_false. intros Hre. unfold reused in Hre. destruct W as [W D'].
    pose proof (reuse_dead p id W ltac:(lia) ltac:(lia)) as Hd. rewrite D' in Hd by lia. done.
  - transitivity (p_num_records r'); [done|].
    rewrite (del_nrecs _ _ _ D), (ins_nrecs _ _ _ _ _ _ _ Hi). lia.
Qed.

Lemma triple_eq {A B C} (w : A * B * C) a : w.1.1 = a -> w = (a, w.1.2, w.2).
Proof. destruct w as [[x y] z]. simpl. by intros ->. Qed.

Lemma spage_insert_at_delete_witness :
  let w := spage_insert_at (worker 7) spage_boot holed_page 1 (rec_of [8; 8]) in
  let d := spage_delete (worker 7) spage_boot w.1.2 1 in
  views w.1.2 = [Rec 2 [4; 5]; Rec 2 [8; 8]; Rec 2 [6]]
  /\ (page_inv d.1.2 /\ views d.1.2 = views holed_page
      /\ total_free (p_hdr d.1.2) = total_free (p_hdr holed_page)
      /\ p_num_records d.1.2 = p_num_records holed_page).
Proof.
  intros w d. split; [vm_compute; reflexivity|].
  apply (spage_insert_at_delete (worker 7) spage_boot d.2 holed_page w.1.2 d.1.2
           (rec_of [8; 8]) w.2 1).
  - apply boot_saved_ok.
  - apply holed_page_inv.
  - apply rec_of_ok.
  - simpl. lia.
  - lia.
  - vm_compute. reflexivity.
  - vm_compute. reflexivity.
  - apply triple_eq. vm_compute. reflexivity.
  - apply triple_eq. vm_compute. reflexivity.
Defined.

(** The two counters of a page that keeps the sequence agree. *)
Lemma dense_counts p :
  page_wf p -> anchor_type (p_hdr p) <> ANCHORED -> p_num_records p = p_num_slots p.
Proof.
  intros [W D] Ha. transitivity (sumZ ((fun _ => 1) <$> slots p)).
  - rewrite (wf_nrecs _ W). f_equal. apply list_fmap_ext.
    intros i s [Hi ->]%slots_lookup_Some. by rewrite D.
  - assert (forall l : list SPAGE_SLOT, sumZ ((fun _ => 1) <$> l) = Z.of_nat (length l)) as ->
      by (induction l; [done|]; rewrite fmap_cons; cbn [sumZ length]; lia).
    rewrite length_slots. pose proof (wf_nslots _ W). lia.
Qed.

Lemma used_sum_nonneg p :
  page_ok p -> 0 <= sumZ (used (alignment (p_hdr p)) <$> slots p).
Proof.
  intros W. apply sumZ_nonneg, Forall_fmap, Forall_forall. intros s Hs.
  apply used_nonneg; [apply (wf_align _ W)|].
  apply list_elem_of_lookup in Hs as [i [_ ->]%slots_lookup_Some]. apply slot_slot_fits.
Qed.

Lemma max_space_fits {ST} `{SavedSpacesLaws ST} th (st : ST) p len :
  saved_ok st -> page_wf p -> 0 < len <= spage_max_space_for_new_record th st p ->
  spage_has_enough_total_space th st p
    (DB_ALIGN len (alignment (p_hdr p)) + SPAGE_SLOT_SIZE) = true
  /\ len <= spage_max_record_size.
Proof.
  intros Hst W Hlen. pose proof (proj1 W) as Wp. pose proof (wf_align _ Wp) as Hal.
  pose proof (total_saved_nonneg th st Hst p). pose proof (wf_total _ Wp).
  pose proof (wf_nslots _ Wp). pose proof (used_sum_nonneg p Wp).
  assert ((negb (anchor_type (p_hdr p) =? ANCHORED)
           && (num_slots (p_hdr p) >? num_records (p_hdr p))) = false) as Hb.
  { destruct (anchor_type (p_hdr p) =? ANCHORED) eqn:Ea; [done|].
    pose proof (dense_counts p W ltac:(lia)). unfold p_num_slots, p_num_records in *. lia. }
  unfold spage_max_space_for_new_record in Hlen. rewrite Hb in Hlen.
  set (total := _ - _ - SPAGE_SLOT_SIZE) in Hlen.
  destruct (DB_ALIGN_BELOW_spec 0 _ Hal) as [Hz _].
  destruct (total <? SPAGE_SLOT_SIZE) eqn:Et; [zcase; lia|].
  destruct (DB_ALIGN_BELOW_spec total _ Hal) as [Hb1 Hb2].
  destruct (DB_ALIGN_BELOW total (alignment (p_hdr p)) <? 0) eqn:Et2; [lia|].
  pose proof (DB_ALIGN_le len _ _ Hal (proj2 Hlen) Hb2).
  unfold total, spage_max_record_size, SPAGE_SLOT_SIZE in *. split; [|lia].
  unfold spage_has_enough_total_space. zcase; [done|]. zcase; [zcase|]; lia.
Qed.

(** What spage_max_space_for_new_record promises is kept: a non-empty
    record that is no longer than it is inserted, whatever the fragmentation
    of the page. *)
Theorem spage_max_space_suffices {ST} `{SavedSpacesLaws ST} (th : THREAD_ENTRY) (st : ST)
    (p : PAGE) (rd : RECDES) :
  saved_ok st -> page_wf p -> recdes_ok rd -> th_calloc th = true ->
  0 < length_ rd <= spage_max_space_for_new_record th st p ->
  exists q rd' id, spage_insert th st p rd = (SP_SUCCESS, q, rd', id).
Proof.
  intros Hst W Hrd Hc Hlen. pose proof (proj1 W) as Wp.
  destruct (max_space_fits th st p _ Hst W Hlen) as [Hfit Hmax].
  destruct (spage_insert_cases th st Hst p W rd Hrd)
    as [(? & _)|[(_ & _ & q & bytes & -> & _)|[(_ & Hno & _)|(_ & _ & ? & _)]]];
    [lia|by eexists _, _, _| |congruence].
  pose proof (DB_ALIGN_spec (length_ rd) _ (wf_align _ Wp)). exfalso.
  eapply enough_total_mono in Hno; [by rewrite Hfit in Hno|..].
  - unfold need, SPAGE_SLOT_SIZE. zcase; lia.
  - unfold need, SPAGE_SLOT_SIZE. zcase; lia.
  - by apply total_free_nonneg.
Qed.

Lemma spage_max_space_suffices_witness :
  spage_max_space_for_new_record (worker 7) spage_boot heap_page = 16328
  /\ exists q rd' id, spage_insert (worker 7) spage_boot heap_page (rec_of (replicate (Z.to_nat 16328) 1))
                      = (SP_SUCCESS, q, rd', id).
Proof.
  split; [vm_compute; reflexivity|].
  apply (spage_max_space_suffices (worker 7) spage_boot heap_page (rec_of (replicate (Z.to_nat 16328) 1))).
  - apply boot_saved_ok.
  - apply heap_page_inv.
  - apply rec_of_ok.
  - reflexivity.
  - vm_compute. split; [reflexivity|discriminate].
Defined.

Lemma freed_pos p id :
  page_ok p -> solid p -> 0 <= id < p_num_slots p -> live (slot p id) = true -> 0 < freed p id.
Proof.
  intros W Hs Hr Hl. pose proof (solid_slot p (slot p id) Hs) as Hpos.
  pose proof (alen_ge _ (slot p id) (wf_align _ W)). unfold freed, SPAGE_SLOT_SIZE.
  specialize (Hpos ltac:(eapply list_elem_of_lookup_2; by apply slots_lookup) Hl).
  zcase; lia.
Qed.

(** The space a running transaction frees by deleting a record of a page
    with saving stays reserved for it: the deletion succeeds, the page has more
    free bytes, and the free space it offers is the same as before. *)
Theorem spage_delete_reserves {ST} `{SavedSpacesLaws ST} (th : THREAD_ENTRY) (st : ST)
    (p : PAGE) (id t : Z) (bytes : list Z) :
  saved_ok st -> page_inv p -> 0 <= id -> views p !! Z.to_nat id = Some (Rec t bytes) ->
  is_saving (p_hdr p) = true ->
  th_malloc th = true -> th_mht_put th = true -> th_active th = true -> th_crash_recovery th = false ->
  exists q st', spage_delete th st p id = (id, q, st')
    /\ total_free (p_hdr p) < total_free (p_hdr q)
    /\ spage_get_free_space th st' q = spage_get_free_space th st p.
Proof.
  intros Hst [W Hs] Hid Hv Hsav Hm Hp Hact Hrec. pose proof (proj1 W) as Wp.
  destruct (views_Rec _ _ _ _ Hv Hid) as (Hr & Hl & _ & _).
  destruct (spage_delete_spec th st p id W Hs Hr Hl) as (q & D & ->).
  pose proof (freed_pos p id Wp Hs Hr Hl) as Hfr.
  unfold give_back. rewrite Hsav, save_space_status by done. simpl.
  eexists _, _. split; [done|]. split; [simpl; rewrite (del_total _ _ _ D); lia|].
  unfold spage_get_free_space, spage_get_total_saved_spaces. simpl.
  rewrite (del_saving _ _ _ D), (del_total _ _ _ D), (proj1 (del_frame _ _ _ D)), Hsav.
  rewrite save_space_total by (done || lia). zcase; zcase; lia.
Qed.

Definition one_record_page : PAGE :=
  (run (worker 7) heap_page spage_boot (OpInsert (rec_of [1; 2; 3]))).1.2.

Lemma one_record_page_inv : page_inv one_record_page.
Proof. apply insert_inv; [apply heap_page_inv|done]. Qed.

Lemma spage_delete_reserves_witness :
  exists q st', spage_delete (worker 7) spage_boot one_record_page 0 = (0, q, st')
    /\ total_free (p_hdr one_record_page) < total_free (p_hdr q)
    /\ spage_get_free_space (worker 7) st' q
       = spage_get_free_space (worker 7) spage_boot one_record_page.
Proof.
  apply (spage_delete_reserves (worker 7) spage_boot one_record_page 0 2 [1; 2; 3]).
  - apply boot_saved_ok.
  - apply one_record_page_inv.
  - lia.
  - vm_compute. reflexivity.
  - vm_compute. reflexivity.
  - reflexivity.
  - reflexivity.
  - reflexivity.
  - reflexivity.
Defined.

(** Scanning a page with spage_next_record from its beginning visits every
    slot that holds a record exactly once, in slot order, and with
    spage_previous_record in the reverse order; both scans end. *)
Theorem spage_scan_complete (p : PAGE) (rd : RECDES) (n : nat) :
  0 <= p_num_slots p < Z.of_nat n ->
  let records := live_slots p 0 (Z.to_nat (p_num_slots p)) in
  scan_next p NULL_SLOTID rd n = records
  /\ scan_previous p NULL_SLOTID rd n = reverse records
  /\ (forall id, id ∈ records <-> 0 <= id < p_num_slots p /\ live (slot p id) = true)
  /\ NoDup records.
Proof.
  intros Hn records. split_and!.
  - destruct (decide (p_num_slots p = 0)) as [H0|].
    + unfold records. rewrite H0. destruct n as [|n]; [lia|]. cbn [scan_next].
      unfold spage_next_record, spage_search_record, NULL_SLOTID. cbn zeta.
      rewrite H0. done.
    + rewrite scan_next_spec by (unfold NULL_SLOTID; lia). unfold records, NULL_SLOTID.
      by rewrite Z.sub_0_r.
  - by apply scan_previous_spec.
  - intros id. unfold records. rewrite elem_of_live_slots. lia.
  - apply NoDup_live_slots.
Qed.

Lemma spage_scan_complete_witness :
  let p := (run (worker 7) one_record_page spage_boot (OpInsert (rec_of [4]))).1.2 in
  let q := (run (worker 7) p spage_boot (OpInsert (rec_of [5]))).1.2 in
  let r := (run (worker 7) q spage_boot (OpDelete 1)).1.2 in
  scan_next r NULL_SLOTID (rec_of []) 4 = [0; 2]
  /\ (let records := live_slots r 0 (Z.to_nat (p_num_slots r)) in
      scan_next r NULL_SLOTID (rec_of []) 4 = records
      /\ scan_previous r NULL_SLOTID (rec_of []) 4 = reverse records
      /\ (forall id, id ∈ records <-> 0 <= id < p_num_slots r /\ live (slot r id) = true)
      /\ NoDup records).
Proof.
  intros p q r. split; [vm_compute; reflexivity|].
  apply (spage_scan_complete r (rec_of []) 4). vm_compute. split; [discriminate|reflexivity].
Defined.

(** Spage_check finds no fault in a well-formed page, unless its records
    need no alignment and its contiguous free space is used up. *)
Theorem spage_check_accepts {ST} `{SavedSpacesLaws ST} (th : THREAD_ENTRY) (st : ST) (p : PAGE) :
  saved_ok st -> page_ok p ->
  1 < alignment (p_hdr p) \/ 0 < cont_free (p_hdr p) ->
  spage_check th st p = (NO_ERROR, true).
Proof.
  intros Hst W Hal. rewrite (check_page_ok th st Hst p W). pose proof (wf_cont_pos _ W).
  pose proof (wf_align _ W) as Ha. unfold valid_alignment in Ha. by zcase; [lia|].
Qed.

Lemma spage_check_accepts_witness :
  spage_check (worker 7) spage_boot one_record_page = (NO_ERROR, true).
Proof.
  apply (spage_check_accepts (worker 7) spage_boot one_record_page).
  - apply boot_saved_ok.
  - apply one_record_page_inv.
  - left. vm_compute. reflexivity.
Defined.

(** C21: spage_get_saved_spaces and spage_save_space implement a map from pages
    and transactions to amounts of space, as long as nothing is hidden in the
    structure: reading gives the total of the page and the part of the other
    transactions.  Saving adds to the entry of the current transaction, or
    fails without effect when memory is exhausted.  When only the hash table
    has no memory, at the first saving on a page, the call reports success and
    the structure stays sound, but every reader still sees the old map: the
    space is not saved. *)
Theorem saved_space_refines (th : THREAD_ENTRY) (v : VPID) (n : Z) (s : SAVING) (A : SAVED) :
  saving_wf s A ->
  spage_get_saved_spaces th v s = Some (spec_get th v A)
  /\ exists r s', spage_save_space th v n s = Some (r, s')
     /\ ((r = NO_ERROR /\ saving_wf s' (spec_save th v n A))
         \/ (r = ER_FAILED /\ th_malloc th = false /\ s' = s)
         \/ (r = NO_ERROR /\ th_mht_put th = false /\ A !! v = None /\ saved_ok s'
             /\ forall th' w, spage_get_saved_spaces th' w s' = Some (spec_get th' w A))).
Proof.
  intros W. split.
  - destruct W as (B & [[G R] _] & _ & ->). by apply (get_saved_spaces_sim s B G).
  - destruct (save_space_sim th v n s A W)
      as (r & s' & Hs & [(? & ? & _)|[?|(-> & Hp & Hn & B' & W' & Hv)]]); exists r, s' || eexists _, s';
      (split; [done|]); [by left|by right; left|right; right].
    split_and!; [done|done|done|by exists B'|]. intros th' w. destruct W' as [[G' R'] _].
    by rewrite (get_saved_spaces_sim s' B' G' R'), Hv.
Qed.

Lemma saved_space_refines_witness :
  spage_get_saved_spaces (worker 7) (1, 1) spage_boot = Some (spec_get (worker 7) (1, 1) ∅)
  /\ exists s', spage_save_space (worker 7) (1, 1) 24 spage_boot = Some (NO_ERROR, s')
     /\ saving_wf s' (spec_save (worker 7) (1, 1) 24 ∅).
Proof.
  destruct (saved_space_refines (worker 7) (1, 1) 24 spage_boot ∅)
    as [H (r & s' & Hs & [[-> Hw]|[(_ & Hm & _)|(_ & Hm & _)]])]; [apply boot_wf| |discriminate Hm..].
  split; [exact H|]. by exists s'.
Defined.

(** C22: at the end of a transaction the chain of its entries is followed to
    its end without touching freed memory, every saving of the transaction is
    gone, on every page, and the savings of the other transactions stay.  This
    is for a structure whose heads are all in the hash table. *)
Theorem free_saved_spaces_refines (t : Z) (s : SAVING) (A : SAVED) :
  saving_wf s A -> complete s ->
  exists s', log_free_savings t s = Some s'
    /\ saving_wf s' (spec_free t A) /\ complete s'
    /\ forall v t', saved_on (spec_free t A) v !! t'
         = if decide (t' = t) then None else saved_on A v !! t'.
Proof.
  intros W Hc. destruct (log_free_savings_sim t s A W Hc) as (s' & Hf & W' & Hc').
  exists s'. split_and!; [done|done|done|]. intros v t'. unfold saved_on, spec_free.
  rewrite lookup_omap. destruct (A !! v) as [a|]; simpl; [|by case_decide].
  case_decide as He.
  - simpl. rewrite lookup_empty. case_decide as Ht; [done|].
    by rewrite <- (lookup_delete_ne a t t'), He, lookup_empty.
  - simpl. case_decide as Ht; [subst; apply lookup_delete_eq|]. by rewrite lookup_delete_ne.
Qed.

(** Two transactions that have saved space on a page. *)
Definition two_savings : SAVING :=
  let s := default spage_boot (snd <$> spage_save_space (worker 7) (1, 1) 24 spage_boot) in
  default s (snd <$> spage_save_space (worker 9) (1, 1) 8 s).

Lemma two_savings_ok :
  saving_wf two_savings (spec_save (worker 9) (1, 1) 8 (spec_save (worker 7) (1, 1) 24 ∅))
  /\ complete two_savings.
Proof.
  destruct boot_wf as [W C]. unfold two_savings.
  destruct (save_space_sim (worker 7) (1, 1) 24 spage_boot ∅ W)
    as (r & s & -> & [(-> & W1 & C1)|[(_ & ? & _)|(_ & ? & _)]]); [|done..]. simpl. specialize (C1 eq_refl C).
  destruct (save_space_sim (worker 9) (1, 1) 8 s _ W1)
    as (r & s' & -> & [(-> & W2 & C2)|[(_ & ? & _)|(_ & ? & _)]]); [|done..]. simpl.
  split; [done|]. by apply C2.
Qed.

Lemma free_saved_spaces_refines_witness :
  let A := spec_save (worker 9) (1, 1) 8 (spec_save (worker 7) (1, 1) 24 ∅) in
  (spage_get_saved_spaces (worker 7) (1, 1) two_savings = Some (32, 8))
  /\ exists s', log_free_savings 7 two_savings = Some s'
    /\ saving_wf s' (spec_free 7 A) /\ complete s'
    /\ forall v t', saved_on (spec_free 7 A) v !! t'
         = if decide (t' = 7) then None else saved_on A v !! t'.
Proof.
  intros A. split; [vm_compute; reflexivity|].
  apply (free_saved_spaces_refines 7 two_savings A); apply two_savings_ok.
Defined.

(** With a hidden head it is not so: the end of transaction 7, whose head is not
    in the hash table, takes the head of transaction 9 out of it. *)
Example hidden_head_release :
  spage_get_saved_spaces (worker 9) (1, 1) two_heads = Some (8, 0)
  /\ (log_free_savings 7 two_heads ≫= spage_get_saved_spaces (worker 9) (1, 1)) = Some (0, 0).
Proof. by vm_compute. Qed.

(** An update that does not succeed - the record is too long, the page is
    full, or there is no memory for the compaction it needs - leaves the header,
    the slots and the records of the page as they were. *)
Theorem spage_update_failure_restores {ST} `{SavedSpacesLaws ST} (th : THREAD_ENTRY)
    (st st' : ST) (p q : PAGE) (rd : RECDES) (bs : list Z) (id status : Z) :
  saved_ok st -> page_inv p -> 0 <= length_ rd ->
  data rd = Area bs -> length_ rd <= Z.of_nat (length bs) -> th_malloc th = true ->
  spage_update th st p id rd = (status, q, st') -> status <> SP_SUCCESS ->
  st' = st /\ page_inv q /\ p_hdr q = p_hdr p /\ slots q = slots p /\ views q = views p.
Proof.
  intros Hst I Hlen Hd Hbs Hm Hup Hne. pose proof (proj1 I) as W.
  destruct (decide (spage_max_record_size < length_ rd)).
  { rewrite spage_update_too_long in Hup by done. by simplify_eq. }
  destruct (decide (0 <= id < p_num_slots p /\ live (slot p id) = true)) as [[Hr Hl]|Hn].
  2: { rewrite spage_update_none in Hup by (lia || done). by simplify_eq. }
  destruct (spage_update_spec th st Hst p id rd bs W Hlen (proj2 I) Hr Hl ltac:(lia) Hd Hbs)
    as [(_ & E)|[(_ & q' & U & E)|(_ & _ & q' & R & E)]]; rewrite Hup in E.
  - by simplify_eq.
  - cbn zeta in E. unfold give_back in E. destruct (is_saving (p_hdr p)).
    + rewrite save_space_status in E by done. simpl in E. by simplify_eq.
    + simpl in E. by simplify_eq.
  - simplify_eq. split_and!; [done| |apply R..].
    split; [apply R|]. unfold solid. rewrite (re_views _ _ R). apply I.
Qed.

Lemma spage_update_failure_restores_witness :
  let th := mkThread 7 true false true true false true in
  let rd := rec_of (replicate (Z.to_nat 16324) 1) in
  let w := spage_update th spage_boot holed_page 0 rd in
  w.1.1 = SP_ERROR
  /\ (w.2 = spage_boot /\ page_inv w.1.2 /\ p_hdr w.1.2 = p_hdr holed_page
      /\ slots w.1.2 = slots holed_page /\ views w.1.2 = views holed_page).
Proof.
  intros th rd w. split; [vm_compute; reflexivity|].
  apply (spage_update_failure_restores th spage_boot w.2 holed_page w.1.2 rd
           (replicate (Z.to_nat 16324) 1) 0 w.1.1).
  - apply boot_saved_ok.
  - apply holed_page_inv.
  - simpl. lia.
  - reflexivity.
  - simpl. lia.
  - reflexivity.
  - unfold w. destruct (spage_update _ _ _ _ _) as [[a b] c]. reflexivity.
  - vm_compute. discriminate.
Defined.

(** The bit fields of a slot lose nothing: a slot whose offset and length
    fit 14 bits and whose type fits 4 bits is read back from its 32-bit word,
    and every slot of a page has such fields. *)
Theorem slot_roundtrip (p : PAGE) (i : Z) (s : SPAGE_SLOT) :
  slot_fits s -> slot (put_slot p i s) i = s /\ slot_fits (slot p i).
Proof. intros Hs. split; [by apply slot_put_same|apply slot_slot_fits]. Qed.

Lemma slot_roundtrip_witness :
  slot (put_slot heap_page 3 (mkSlot 16383 16383 15)) 3 = mkSlot 16383 16383 15
  /\ slot_fits (slot heap_page 3).
Proof.
  apply (slot_roundtrip heap_page 3 (mkSlot 16383 16383 15)).
  unfold slot_fits. simpl. lia.
Defined.

(** spage_check rejects a page that is in order: when records need no
    alignment its test of the contiguous free space fails for a page whose
    contiguous free space is used up. *)
Lemma check_rejects_full {ST} `{SavedSpacesLaws ST} (th : THREAD_ENTRY) (st : ST)
    (p : PAGE) :
  saved_ok st -> page_ok p -> alignment (p_hdr p) = CHAR_ALIGNMENT ->
  cont_free (p_hdr p) = 0 -> spage_check th st p = (ER_FAILED, true).
Proof.
  intros Hst W Hal Hc. rewrite (check_page_ok th st Hst p W), Hal, Hc. done.
Qed.

Definition char_page : PAGE :=
  spage_initialize zero_page UNANCHORED_KEEP_SEQUENCE CHAR_ALIGNMENT false.
Definition full_char_page : PAGE :=
  (run (worker 7) char_page spage_boot (OpInsert (rec_of (replicate (Z.to_nat 16332) 1)))).1.2.

Lemma char_page_inv : page_inv char_page.
Proof. apply initialize_inv; [done|]. unfold valid_alignment, CHAR_ALIGNMENT. lia. Qed.

Lemma full_char_page_inv : page_inv full_char_page.
Proof. apply insert_inv; [apply char_page_inv|done]. Qed.

(** When the saving table has no memory for the saving, spage_delete
    reports a failure although the record is gone from the page. *)
Lemma delete_failure_deletes (th : THREAD_ENTRY) (s : SAVING) (p : PAGE) (id t : Z)
    (bytes : list Z) :
  saved_ok s -> page_inv p -> 0 <= id -> views p !! Z.to_nat id = Some (Rec t bytes) ->
  is_saving (p_hdr p) = true -> spage_Mht_saving s !! p_vpid p = None ->
  th_malloc th = false -> th_active th = true -> th_crash_recovery th = false ->
  exists q, spage_delete th s p id = (NULL_SLOTID, q, s)
    /\ abs_delete (anchored p) (views p) (Z.to_nat id) = Some (views q)
    /\ p_num_records q = p_num_records p - 1.
Proof.
  intros Hst [W Hs] Hid Hv Hsav Hmht Hm Hact Hrec. pose proof (proj1 W) as Wp.
  destruct (views_Rec _ _ _ _ Hv Hid) as (Hr & Hl & _ & _).
  destruct (spage_delete_spec th s p id W Hs Hr Hl) as (q & D & ->).
  pose proof (freed_pos p id Wp Hs Hr Hl) as Hfr.
  assert (save_space th (p_vpid p) (freed p id) s = (ER_FAILED, s)) as Hsave.
  { simpl. unfold spage_save_space. rewrite Hrec, Hact, Hmht, Hm. simpl.
    destruct (freed p id =? 0) eqn:?; [lia|]. by destruct (freed p id <? 0) eqn:?; [lia|]. }
  unfold give_back. rewrite Hsav, Hsave. simpl. exists q. split_and!; [done| |apply D].
  rewrite (del_views _ _ _ D). by apply delete_view_abs.
Qed.

(** C40: three error paths of a page.  spage_check rejects a page that is in
    order: when records need no alignment its test of the contiguous free space
    fails for a page whose contiguous free space is used up.  When the saving
    table has no memory for the saving, spage_delete reports a failure although
    the record is gone from the page.  An empty record can be lost: deleting
    the record in front of an empty one at the end of the record area moves the
    free area below the empty record, and when further insertions let the slot
    array grow past its offset, spage_get_record does not find it any more. *)
Theorem spage_faults (th : THREAD_ENTRY) (s : SAVING) (p : PAGE) :
  saved_ok s -> page_inv p ->
  (alignment (p_hdr p) = CHAR_ALIGNMENT -> cont_free (p_hdr p) = 0 ->
   spage_check th s p = (ER_FAILED, true))
  /\ (forall id t bytes, 0 <= id -> views p !! Z.to_nat id = Some (Rec t bytes) ->
       is_saving (p_hdr p) = true -> spage_Mht_saving s !! p_vpid p = None ->
       th_malloc th = false -> th_active th = true -> th_crash_recovery th = false ->
       exists q, spage_delete th s p id = (NULL_SLOTID, q, s)
         /\ abs_delete (anchored p) (views p) (Z.to_nat id) = Some (views q)
         /\ p_num_records q = p_num_records p - 1)
  /\ (let ins p bytes := (run (worker 7) p spage_boot (OpInsert (rec_of bytes))).1.2 in
      let p := ins (ins char_page (replicate (Z.to_nat 16320) 1)) [] in
      let q := (run (worker 7) p spage_boot (OpDelete 0)).1.2 in
      let r := ins (ins (ins (ins q [1]) [2]) [3]) [4] in
      (spage_get_record q 0 (rec_of []) PEEK).1 = S_SUCCESS
      /\ (spage_get_record r 0 (rec_of []) PEEK).1 = S_DOESNT_EXIST
      /\ p_num_slots r = 5 /\ p_num_records r = 5).
Proof.
  intros Hst Hp. split; [|split].
  - apply check_rejects_full; [done|apply Hp].
  - intros id t bytes. by apply delete_failure_deletes.
  - vm_compute. done.
Qed.

Lemma spage_faults_witness :
  spage_check (worker 7) spage_boot full_char_page = (ER_FAILED, true)
  /\ (let th := mkThread 7 true false true false true true in
      views one_record_page = [Rec 2 [1; 2; 3]]
      /\ exists q, spage_delete th spage_boot one_record_page 0 = (NULL_SLOTID, q, spage_boot)
         /\ abs_delete (anchored one_record_page) (views one_record_page) (Z.to_nat 0)
            = Some (views q)
         /\ p_num_records q = p_num_records one_record_page - 1).
Proof.
  split; [|cbv zeta; split].
  - apply (proj1 (spage_faults (worker 7) spage_boot full_char_page boot_saved_ok full_char_page_inv));
      vm_compute; reflexivity.
  - vm_compute. reflexivity.
  - refine (proj1 (proj2 (spage_faults _ spage_boot one_record_page boot_saved_ok
                            one_record_page_inv)) 0 2 [1; 2; 3] _ _ _ _ _ _ _);
      [lia|vm_compute; reflexivity..].
Defined.
