(* ===== verification/Bitset.v ===== *)
(** * Bit sets of the optimizer (src/optimizer/query_bitset.c)

    A set of small non-negative integers is an array of 32-bit words, inside
    the structure or, once it has been extended, on the heap.  Writes through
    the word pointer past the end of the array give None.  The operations are
    shown to be those of finite sets of integers. *)
From Stdlib Require Import ZArith Lia ZifyBool.
From stdpp Require Import base list numbers gmap sorting.
From S2P Require Import Prelude.

(** ** Data *)

Definition NWORDS : nat := 2.
Definition WORDSIZE : Z := 32.

(** [words] is the array setp points to, nwords its length; [on_heap] tells
    whether setp differs from set.word. *)
Record BITSET := mkBitset {
  on_heap : bool;
  words : list Z }.

Definition nwords (s : BITSET) : nat := length (words s).

(** _WORD (x) and _BIT (x) *)
Definition WORD (x : Z) : Z := Z.shiftr x 5.
Definition BIT (x : Z) : Z := Z.land x 31.

Definition bitset_init : BITSET := mkBitset false (replicate NWORDS 0).

Definition BITSET_MEMBER (s : BITSET) (x : Z) : bool :=
  (WORD x <? Z.of_nat (nwords s))
  && match words s !! Z.to_nat (WORD x) with
     | Some w => negb (Z.land w (Z.shiftl 1 (BIT x)) =? 0)
     | None => false
     end.

(** ** Operations that change a set *)

(** [ok] tells whether malloc succeeds. *)
Definition bitset_extend (ok : bool) (dst : BITSET) (n : nat) : BITSET :=
  if ok then mkBitset true (words dst ++ replicate (n - nwords dst) 0) else dst.

(** memcpy of the words of [src] and memset of the rest. *)
Definition bitset_assign (ok : bool) (dst src : BITSET) : option BITSET :=
  let dst := if (nwords dst <? nwords src)%nat then bitset_extend ok dst (nwords src) else dst in
  if (nwords dst <? nwords src)%nat then None
  else Some (mkBitset (on_heap dst) (words src ++ replicate (nwords dst - nwords src) 0)).

Definition set_word (s : BITSET) (n : Z) (f : Z -> Z) : option BITSET :=
  if n <? 0 then None
  else
    w ← words s !! Z.to_nat n;
    Some (mkBitset (on_heap s) (<[Z.to_nat n := f w]> (words s))).

Definition bitset_add (ok : bool) (dst : BITSET) (x : Z) : option BITSET :=
  let n := WORD x in
  let dst := if n >=? Z.of_nat (nwords dst)
             then bitset_extend ok dst (Z.to_nat (n + 1)) else dst in
  set_word dst n (fun w => uwrap 32 (Z.lor w (Z.shiftl 1 (BIT x)))).

Definition bitset_remove (dst : BITSET) (x : Z) : option BITSET :=
  let n := WORD x in
  if n <? Z.of_nat (nwords dst)
  then set_word dst n (fun w => uwrap 32 (Z.land w (Z.lnot (Z.shiftl 1 (BIT x)))))
  else Some dst.

(** while (nwords) { nwords -= 1; dst[nwords] = f (dst[nwords], src[nwords]); } *)
Fixpoint word_loop (f : Z -> Z -> Z) (n : nat) (dst src : list Z) : option (list Z) :=
  match n with
  | O => Some dst
  | S n =>
      d ← dst !! n;
      s ← src !! n;
      word_loop f n (<[n := f d s]> dst) src
  end.

(** while (nwords > lo) { nwords -= 1; dst[nwords] = 0; } *)
Fixpoint zero_loop (lo n : nat) (dst : list Z) : list Z :=
  match n with
  | O => dst
  | S n' => if (lo <? n)%nat then zero_loop lo n' (<[n' := 0]> dst) else dst
  end.

Definition bitset_union (ok : bool) (dst src : BITSET) : option BITSET :=
  let dst := if (nwords dst <? nwords src)%nat then bitset_extend ok dst (nwords src) else dst in
  ws ← word_loop Z.lor (nwords src) (words dst) (words src);
  Some (mkBitset (on_heap dst) ws).

Definition bitset_intersect (dst src : BITSET) : option BITSET :=
  let ws := zero_loop (nwords src) (nwords dst) (words dst) in
  ws ← word_loop Z.land (nwords dst `min` nwords src) ws (words src);
  Some (mkBitset (on_heap dst) ws).

Definition bitset_difference (dst src : BITSET) : option BITSET :=
  ws ← word_loop (fun d s => Z.land d (uwrap 32 (Z.lnot s)))
         (nwords dst `min` nwords src) (words dst) (words src);
  Some (mkBitset (on_heap dst) ws).

(** ** Tests *)

(** The loops that stop at the first word, from the last, for which [bad]
    holds: on one array down to [lo], and on two arrays. *)
Fixpoint zero_test (lo n : nat) (s : list Z) : bool :=
  match n with
  | O => true
  | S n' =>
      if (lo <? n)%nat
      then if negb (default 0 (s !! n') =? 0) then false else zero_test lo n' s
      else true
  end.

Fixpoint word_test (bad : Z -> Z -> bool) (n : nat) (r s : list Z) : bool :=
  match n with
  | O => true
  | S n =>
      if bad (default 0 (r !! n)) (default 0 (s !! n)) then false else word_test bad n r s
  end.

Definition bitset_subset (r s : BITSET) : bool :=
  zero_test (nwords r) (nwords s) (words s)
  && word_test (fun a b => negb (Z.land a b =? b)) (nwords s `min` nwords r) (words r) (words s).

Definition bitset_intersects (r s : BITSET) : bool :=
  negb (word_test (fun a b => negb (Z.land a b =? 0))
          (nwords r `min` nwords s) (words r) (words s)).

Definition bitset_is_empty (s : BITSET) : bool := zero_test 0 (nwords s) (words s).

Definition bitset_is_equivalent (r s : BITSET) : bool :=
  (if (nwords r <? nwords s)%nat then zero_test (nwords r) (nwords s) (words s)
   else if (nwords s <? nwords r)%nat then zero_test (nwords s) (nwords r) (words r)
   else true)
  && word_test (fun a b => negb (a =? b)) (nwords r `min` nwords s) (words r) (words s).

(** ** Cardinality *)

Definition nbits : list Z := [0; 1; 1; 2; 1; 2; 2; 3; 1; 2; 2; 3; 2; 3; 3; 4].

(** The inner loop; a 32-bit word is zero after eight shifts. *)
Fixpoint word_card (fuel : nat) (word card : Z) : Z :=
  match fuel with
  | O => card
  | S fuel =>
      if word =? 0 then card
      else word_card fuel (Z.shiftr word 4)
             (card + default 0 (nbits !! Z.to_nat (Z.land word 15)))
  end.

Fixpoint card_loop (n : nat) (s : list Z) (card : Z) : Z :=
  match n with
  | O => card
  | S n => card_loop n s (word_card 8 (default 0 (s !! n)) card)
  end.

Definition bitset_cardinality (s : BITSET) : Z := card_loop (nwords s) (words s) 0.

(** ** Iteration *)

(** The inner loop of bitset_next_member: the first set bit of [word], whose
    lowest bit has number [current]. *)
Fixpoint bit_scan (fuel : nat) (word current : Z) : option Z :=
  match fuel with
  | O => None
  | S fuel =>
      if word =? 0 then None
      else if negb (Z.land word 1 =? 0) then Some current
      else bit_scan fuel (Z.shiftr word 1) (current + 1)
  end.

(** The outer loop, over the words from number [m]. *)
Fixpoint next_loop (n : nat) (s : list Z) (m current : Z) : option Z :=
  match n with
  | O => None
  | S n =>
      if m <? Z.of_nat (length s) then
        match bit_scan 32 (Z.shiftr (default 0 (s !! Z.to_nat m)) (BIT current)) current with
        | Some c => Some c
        | None => next_loop n s (m + 1) (WORDSIZE * (m + 1))
        end
      else None
  end.

(** The member and the new value of the field next of the iterator. *)
Definition bitset_next_member (s : BITSET) (next : Z) : Z * Z :=
  if next <? 0 then (-1, next)
  else
    match next_loop (nwords s) (words s) (WORD next) next with
    | Some c => (c, c + 1)
    | None => (-1, -1)
    end.

Definition bitset_iterate (s : BITSET) : Z * Z := bitset_next_member s 0.

Definition bitset_first_member (s : BITSET) : Z := (bitset_iterate s).1.

(** for (x = bitset_iterate (s, &si); x != -1; x = bitset_next_member (&si)) *)
Fixpoint iterate_from (fuel : nat) (s : BITSET) (next : Z) : list Z :=
  match fuel with
  | O => []
  | S fuel =>
      let '(x, next) := bitset_next_member s next in
      if x =? -1 then [] else x :: iterate_from fuel s next
  end.

Definition members (s : BITSET) : list Z := iterate_from (S (32 * nwords s)) s 0.

(** ** The set a bit set stands for *)

Definition word_ok (w : Z) : Prop := 0 <= w < 2 ^ 32.

Definition bitset_wf (s : BITSET) : Prop := Forall word_ok (words s).

(** Bit [x] of an array of words. *)
Definition has (ws : list Z) (x : Z) : bool :=
  match ws !! Z.to_nat (x / 32) with
  | Some w => Z.testbit w (x mod 32)
  | None => false
  end.

Definition to_set (s : BITSET) : gset Z :=
  list_to_set (filter (fun x => has (words s) x = true) (seqZ 0 (32 * Z.of_nat (nwords s)))).

Lemma WORD_div x : WORD x = x / 32.
Proof. unfold WORD. by rewrite Z.shiftr_div_pow2 by lia. Qed.

Lemma BIT_mod x : BIT x = x mod 32.
Proof. unfold BIT. change 31 with (Z.ones 5). by rewrite Z.land_ones by lia. Qed.

Lemma has_length ws x : has ws x = true -> x / 32 < Z.of_nat (length ws) \/ x < 0.
Proof.
  unfold has. destruct (ws !! _) eqn:E; [|done]. apply lookup_lt_Some in E.
  intros _. destruct (decide (x < 0)); [by right|left]. dlia.
Qed.

Lemma MEMBER_has s x : 0 <= x -> BITSET_MEMBER s x = has (words s) x.
Proof.
  intros Hx. unfold BITSET_MEMBER, has, nwords. rewrite WORD_div, BIT_mod.
  destruct (words s !! _) eqn:E; [|by rewrite andb_false_r].
  rewrite land_bit by dlia. apply lookup_lt_Some in E.
  by replace (x / 32 <? _) with true by dlia.
Qed.

Lemma elem_of_to_set s x : x ∈ to_set s <-> 0 <= x /\ has (words s) x = true.
Proof.
  unfold to_set, nwords. rewrite elem_of_list_to_set, list_elem_of_filter, elem_of_seqZ.
  split; [intros (? & ? & ?); by split|]. intros [Hx Hh].
  pose proof (has_length _ _ Hh). split; [done|]. dlia.
Qed.

Lemma testbit_high w k : word_ok w -> 32 <= k -> Z.testbit w k = false.
Proof.
  intros Hw Hk. destruct (decide (w = 0)) as [->|Hn]; [apply Z.bits_0|].
  apply Z.bits_above_log2; [unfold word_ok in Hw; lia|].
  assert (Z.log2 w < 32); [|lia]. apply Z.log2_lt_pow2; unfold word_ok in Hw; lia.
Qed.

Lemma word_ok_bits w : 0 <= w -> (forall k, 32 <= k -> Z.testbit w k = false) -> word_ok w.
Proof.
  intros Hw Hk. split; [done|]. destruct (decide (w = 0)) as [->|Hn]; [lia|].
  apply Z.log2_lt_pow2; [lia|]. apply Z.lt_nge. intros Hl.
  assert (Z.testbit w (Z.log2 w) = true) by (apply Z.bit_log2; lia).
  by rewrite Hk in * by done.
Qed.

Lemma uwrap32_bit w k : 0 <= k < 32 -> Z.testbit (uwrap 32 w) k = Z.testbit w k.
Proof. intros Hk. unfold uwrap. by rewrite Z.mod_pow2_bits_low by lia. Qed.

Lemma uwrap32_ok w : word_ok (uwrap 32 w).
Proof. apply uwrap_range. lia. Qed.

Lemma zero_ok : word_ok 0.
Proof. by vm_compute. Qed.

Lemma lor_ok a b : word_ok a -> word_ok b -> word_ok (Z.lor a b).
Proof.
  intros Ha Hb. apply word_ok_bits.
  - unfold word_ok in *. apply Z.lor_nonneg. lia.
  - intros k Hk. by rewrite Z.lor_spec, !testbit_high.
Qed.

Lemma land_ok a b : word_ok a -> 0 <= b -> word_ok (Z.land a b).
Proof.
  intros Ha Hb. apply word_ok_bits.
  - unfold word_ok in *. apply Z.land_nonneg. lia.
  - intros k Hk. by rewrite Z.land_spec, testbit_high.
Qed.

#[export] Hint Resolve zero_ok lor_ok land_ok uwrap32_ok : rye.

Lemma words_eq_bits a b :
  word_ok a -> word_ok b ->
  (forall k, 0 <= k < 32 -> Z.testbit a k = Z.testbit b k) -> a = b.
Proof.
  intros Ha Hb H. apply Z.bits_inj'. intros k Hk.
  destruct (decide (k < 32)); [apply H; lia|]. by rewrite !testbit_high by (done || lia).
Qed.

(** A bit of a set, by its word and its place in the word. *)
Lemma has_split ws n k w :
  ws !! n = Some w -> 0 <= k < 32 -> has ws (32 * Z.of_nat n + k) = Z.testbit w k.
Proof.
  intros Hn Hk. unfold has.
  replace ((32 * Z.of_nat n + k) / 32) with (Z.of_nat n) by dlia.
  replace ((32 * Z.of_nat n + k) mod 32) with k by dlia.
  by rewrite Nat2Z.id, Hn.
Qed.

Lemma split_bit x : 0 <= x -> x = 32 * Z.of_nat (Z.to_nat (x / 32)) + x mod 32.
Proof. intros. dlia. Qed.

(** ** Operations that change a set *)

Lemma extend_has s n x :
  0 <= x -> has (words (bitset_extend true s n)) x = has (words s) x.
Proof.
  intros Hx. unfold has. cbn. rewrite lookup_app.
  destruct (words s !! _) as [w|] eqn:E; [done|].
  destruct (replicate _ 0 !! _) as [w|] eqn:Er; [|done].
  apply lookup_replicate in Er as [-> _]. apply Z.bits_0.
Qed.

Lemma extend_wf ok s n : bitset_wf s -> bitset_wf (bitset_extend ok s n).
Proof.
  unfold bitset_wf, bitset_extend. intros H. destruct ok; [|done]. cbn.
  apply Forall_app. split; [done|]. apply Forall_replicate, zero_ok.
Qed.

Lemma extend_nwords s n :
  nwords (bitset_extend true s n) = (nwords s `max` n)%nat.
Proof. unfold nwords. cbn. rewrite length_app, length_replicate. unfold nwords. lia. Qed.

(** The target of an operation after the extension that makes room for [n]
    words. *)
Definition roomy (s : BITSET) (n : nat) : BITSET :=
  if (nwords s <? n)%nat then bitset_extend true s n else s.

Lemma roomy_spec s n :
  bitset_wf s ->
  bitset_wf (roomy s n) /\ (n <= nwords (roomy s n))%nat
  /\ forall x, 0 <= x -> has (words (roomy s n)) x = has (words s) x.
Proof.
  intros Hs. unfold roomy. destruct (nwords s <? n)%nat eqn:E.
  - split; [by apply extend_wf|]. split; [rewrite extend_nwords; lia|].
    intros x. apply extend_has.
  - split; [done|]. split; [lia|done].
Qed.

Lemma set_word_spec s n f :
  bitset_wf s -> 0 <= n < Z.of_nat (nwords s) -> (forall w, word_ok (f w)) ->
  exists d w, set_word s n f = Some d /\ bitset_wf d /\ words s !! Z.to_nat n = Some w
    /\ forall x, 0 <= x ->
         has (words d) x = if x / 32 =? n then Z.testbit (f w) (x mod 32) else has (words s) x.
Proof.
  intros Hs Hn Hf. unfold set_word, nwords in *.
  destruct (lookup_lt_is_Some_2 (words s) (Z.to_nat n)) as [w Hw]; [lia|].
  replace (n <? 0) with false by lia. rewrite Hw. cbn. do 2 eexists. split; [done|].
  split; [by apply Forall_insert|]. split; [done|].
  intros x Hx. unfold has. cbn. destruct (x / 32 =? n) eqn:E.
  - apply Z.eqb_eq in E as ->. rewrite list_lookup_insert_eq by lia. done.
  - rewrite list_lookup_insert_ne; [done|]. dlia.
Qed.

Lemma bitset_add_spec s x :
  bitset_wf s -> 0 <= x ->
  exists d, bitset_add true s x = Some d /\ bitset_wf d /\ to_set d = {[x]} ∪ to_set s.
Proof.
  intros Hs Hx. unfold bitset_add. rewrite WORD_div, BIT_mod.
  replace (if _ >=? _ then _ else s) with (roomy s (Z.to_nat (x / 32 + 1)))
    by (unfold roomy; repeat zcase; done || dlia).
  destruct (roomy_spec s (Z.to_nat (x / 32 + 1)) Hs) as (Hw & Hl & Hh).
  destruct (set_word_spec (roomy s (Z.to_nat (x / 32 + 1))) (x / 32)
    (fun w => uwrap 32 (Z.lor w (Z.shiftl 1 (x mod 32)))))
    as (d & w & -> & Hd & Hlk & Hb); [done|dlia|intros; apply uwrap32_ok|].
  exists d. split; [done|]. split; [done|]. apply set_eq. intros y.
  rewrite elem_of_union, elem_of_singleton, !elem_of_to_set.
  destruct (decide (0 <= y)) as [Hy|]; [|intuition lia].
  rewrite Hb, Hh by done. destruct (y / 32 =? x / 32) eqn:E; [|intuition (try dlia)].
  rewrite uwrap32_bit, Z.lor_spec, Z.shiftl_1_l, Z.pow2_bits_eqb by dlia.
  rewrite <- Hh by done. unfold has. apply Z.eqb_eq in E. rewrite E, Hlk.
  destruct (Z.testbit w (y mod 32)); cbn; intuition dlia.
Qed.

Lemma bitset_remove_spec s x :
  bitset_wf s -> 0 <= x ->
  exists d, bitset_remove s x = Some d /\ bitset_wf d /\ to_set d = to_set s ∖ {[x]}.
Proof.
  intros Hs Hx. unfold bitset_remove. rewrite WORD_div, BIT_mod. zcase.
  - destruct (set_word_spec s (x / 32)
      (fun w => uwrap 32 (Z.land w (Z.lnot (Z.shiftl 1 (x mod 32))))))
      as (d & w & -> & Hd & Hlk & Hb); [done|dlia|intros; apply uwrap32_ok|].
    exists d. split; [done|]. split; [done|]. apply set_eq. intros y.
    rewrite elem_of_difference, elem_of_singleton, !elem_of_to_set.
    destruct (decide (0 <= y)) as [Hy|]; [|intuition lia].
    rewrite Hb by done. destruct (y / 32 =? x / 32) eqn:E'; [|intuition (subst; lia)].
    rewrite uwrap32_bit, Z.land_spec, Z.lnot_spec, Z.shiftl_1_l, Z.pow2_bits_eqb by dlia.
    unfold has. apply Z.eqb_eq in E'. rewrite E', Hlk.
    destruct (Z.testbit w (y mod 32)); cbn; intuition (subst; dlia).
  - exists s. split; [done|]. split; [done|]. apply set_eq. intros y.
    rewrite elem_of_difference, elem_of_singleton, !elem_of_to_set.
    split; [|tauto]. intros [Hy Hh]. split; [done|]. intros ->.
    apply has_length in Hh. unfold nwords in E. lia.
Qed.

(** A word of a well formed array. *)
Ltac lookup_ok := eapply (Forall_lookup_1 word_ok); [|eassumption]; done.

Lemma word_loop_spec f n dst src :
  (n <= length dst)%nat -> (n <= length src)%nat ->
  exists d, word_loop f n dst src = Some d /\ length d = length dst
    /\ forall i, d !! i = if (i <? n)%nat
                         then (a ← dst !! i; b ← src !! i; Some (f a b)) else dst !! i.
Proof.
  revert dst. induction n as [|n IH]; intros dst Hd Hs; [by exists dst|]. cbn [word_loop].
  destruct (lookup_lt_is_Some_2 dst n) as [a Ha]; [lia|].
  destruct (lookup_lt_is_Some_2 src n) as [b Hb]; [lia|].
  rewrite Ha, Hb. cbn [mbind option_bind].
  destruct (IH (<[n := f a b]> dst)) as (d & -> & Hl & Hi); [rewrite length_insert; lia|lia|].
  exists d. split; [done|]. split; [by rewrite Hl, length_insert|]. intros i. rewrite Hi.
  destruct (decide (i = n)) as [->|Hin].
  - rewrite list_lookup_insert_eq by lia. rewrite Ha, Hb.
    by replace (n <? n)%nat with false by lia; replace (n <? S n)%nat with true by lia.
  - rewrite list_lookup_insert_ne by done.
    by replace (i <? S n)%nat with (i <? n)%nat by lia.
Qed.

(** A loop whose operation acts bit by bit. *)
Lemma word_loop_has f g n dst src :
  (n <= length dst)%nat -> (n <= length src)%nat ->
  Forall word_ok dst -> Forall word_ok src ->
  (forall a b, word_ok a -> word_ok b -> word_ok (f a b)) ->
  (forall a b k, word_ok a -> word_ok b -> 0 <= k < 32 ->
     Z.testbit (f a b) k = g (Z.testbit a k) (Z.testbit b k)) ->
  exists d, word_loop f n dst src = Some d /\ Forall word_ok d
    /\ forall x, 0 <= x ->
         has d x = if x / 32 <? Z.of_nat n then g (has dst x) (has src x) else has dst x.
Proof.
  intros Hd Hs Hdo Hso Hf Hb.
  destruct (word_loop_spec f n dst src Hd Hs) as (d & Hr & _ & Hi). exists d.
  split; [done|]. split.
  - apply Forall_lookup_2. intros i w. rewrite Hi. zcase; [|intros; lookup_ok].
    intros (a & Ha & (b & Hb' & [= <-])%bind_Some)%bind_Some.
    apply Hf; lookup_ok.
  - intros x Hx. unfold has. rewrite Hi.
    replace (x / 32 <? Z.of_nat n) with (Z.to_nat (x / 32) <? n)%nat by dlia. zcase; [|done].
    destruct (lookup_lt_is_Some_2 dst (Z.to_nat (x / 32))) as [a Ha]; [lia|].
    destruct (lookup_lt_is_Some_2 src (Z.to_nat (x / 32))) as [b Hb']; [lia|].
    rewrite Ha, Hb'. cbn. apply Hb; [lookup_ok..|dlia].
Qed.

Lemma zero_loop_spec lo n s :
  (n <= length s)%nat ->
  length (zero_loop lo n s) = length s
  /\ forall i, zero_loop lo n s !! i =
       if (lo <=? i)%nat && (i <? n)%nat then Some 0 else s !! i.
Proof.
  revert s. induction n as [|n IH]; intros s Hn; cbn [zero_loop].
  { split; [done|]. intros i. by rewrite andb_false_r. }
  destruct (lo <? S n)%nat eqn:E.
  - destruct (IH (<[n := 0]> s)) as [Hl Hi]; [rewrite length_insert; lia|].
    split; [by rewrite Hl, length_insert|]. intros i. rewrite Hi.
    destruct (decide (i = n)) as [->|Hin].
    + rewrite list_lookup_insert_eq by lia. by repeat zcase; try lia.
    + rewrite list_lookup_insert_ne by done. repeat zcase; done || lia.
  - split; [done|]. intros i. zcase; [lia|done].
Qed.

Lemma has_beyond ws x : 0 <= x -> Z.of_nat (length ws) <= x / 32 -> has ws x = false.
Proof. intros Hx Hl. destruct (has ws x) eqn:E; [|done]. apply has_length in E. lia. Qed.

Lemma bitset_union_spec r s :
  bitset_wf r -> bitset_wf s ->
  exists d, bitset_union true r s = Some d /\ bitset_wf d /\ to_set d = to_set r ∪ to_set s.
Proof.
  intros Hr Hs. unfold bitset_union. fold (roomy r (nwords s)).
  destruct (roomy_spec r (nwords s) Hr) as (Hw & Hl & Hh).
  destruct (word_loop_has Z.lor orb (nwords s) (words (roomy r (nwords s))) (words s))
    as (d & -> & Hd & Hx); [done|done|done|done|auto with rye|..].
  { intros. by rewrite Z.lor_spec. }
  eexists. split; [done|]. split; [done|]. apply set_eq. intros x.
  rewrite elem_of_union, !elem_of_to_set. cbn [words].
  destruct (decide (0 <= x)); [|tauto]. rewrite Hx, Hh by done. zcase.
  - rewrite orb_true_iff. tauto.
  - rewrite (has_beyond (words s)) by (done || (unfold nwords in *; lia)). intuition done.
Qed.

Lemma bitset_intersect_spec r s :
  bitset_wf r -> bitset_wf s ->
  exists d, bitset_intersect r s = Some d /\ bitset_wf d /\ to_set d = to_set r ∩ to_set s.
Proof.
  intros Hr Hs. unfold bitset_intersect.
  destruct (zero_loop_spec (nwords s) (nwords r) (words r)) as [Hl Hi]; [done|].
  destruct (word_loop_has Z.land andb (nwords r `min` nwords s)
    (zero_loop (nwords s) (nwords r) (words r)) (words s)) as (d & -> & Hd & Hx);
    [unfold nwords in *; lia|unfold nwords in *; lia| |done| | |].
  { apply Forall_lookup_2. intros i w. rewrite Hi. zcase; [intros [= <-]; auto with rye|].
    intros; lookup_ok. }
  { intros a b Ha [Hb _]. auto with rye. }
  { intros. by rewrite Z.land_spec. }
  eexists. split; [done|]. split; [done|]. apply set_eq. intros x.
  rewrite elem_of_intersection, !elem_of_to_set. cbn [words].
  destruct (decide (0 <= x)); [|tauto]. rewrite Hx by done.
  assert (has (zero_loop (nwords s) (nwords r) (words r)) x
          = (x / 32 <? Z.of_nat (nwords s)) && has (words r) x) as ->.
  { unfold has at 1. rewrite Hi. destruct (x / 32 <? Z.of_nat (nwords s)) eqn:E.
    - zcase; [dlia|done].
    - zcase; [apply Z.bits_0|]. rewrite lookup_ge_None_2; [done|]. unfold nwords in *. dlia. }
  unfold nwords. destruct (x / 32 <? Z.of_nat (length (words s))) eqn:E1; cbn [andb].
  - zcase; [rewrite andb_true_iff; tauto|]. rewrite (has_beyond (words r)) by lia. intuition done.
  - rewrite (has_beyond (words s)) by lia. zcase; intuition done.
Qed.

Lemma bitset_difference_spec r s :
  bitset_wf r -> bitset_wf s ->
  exists d, bitset_difference r s = Some d /\ bitset_wf d /\ to_set d = to_set r ∖ to_set s.
Proof.
  intros Hr Hs. unfold bitset_difference.
  destruct (word_loop_has (fun d s => Z.land d (uwrap 32 (Z.lnot s))) (fun a b => a && negb b)
    (nwords r `min` nwords s) (words r) (words s)) as (d & -> & Hd & Hx);
    [unfold nwords in *; lia|unfold nwords in *; lia|done|done| | |].
  { intros a b Ha _. apply land_ok; [done|]. apply uwrap32_ok. }
  { intros a b k _ _ Hk. by rewrite Z.land_spec, uwrap32_bit, Z.lnot_spec by lia. }
  eexists. split; [done|]. split; [done|]. apply set_eq. intros x.
  rewrite elem_of_difference, !elem_of_to_set. cbn [words].
  destruct (decide (0 <= x)); [|tauto]. rewrite Hx by done. zcase.
  - rewrite andb_true_iff, negb_true_iff, <- not_true_iff_false. tauto.
  - unfold nwords in E.
    destruct (decide (x / 32 < Z.of_nat (length (words r)))).
    + rewrite (has_beyond (words s)) by lia. intuition done.
    + rewrite (has_beyond (words r)) by lia. intuition done.
Qed.

Lemma bitset_assign_spec r s :
  bitset_wf r -> bitset_wf s ->
  exists d, bitset_assign true r s = Some d /\ bitset_wf d /\ to_set d = to_set s.
Proof.
  intros Hr Hs. unfold bitset_assign. fold (roomy r (nwords s)).
  destruct (roomy_spec r (nwords s) Hr) as (_ & Hl & _).
  replace (nwords (roomy r (nwords s)) <? nwords s)%nat with false by lia.
  eexists. split; [done|]. split.
  - apply Forall_app. split; [done|]. apply Forall_replicate, zero_ok.
  - apply set_eq. intros x. rewrite !elem_of_to_set. cbn [words].
    destruct (decide (0 <= x)); [|tauto].
    pose proof (extend_has s (nwords (roomy r (nwords s))) x ltac:(done)) as Hh.
    cbn in Hh. by rewrite Hh.
Qed.

(** ** Tests *)

(** The word at [i], zero past the end. *)
Definition wd (ws : list Z) (i : nat) : Z := default 0 (ws !! i).

Lemma has_wd ws x : has ws x = Z.testbit (wd ws (Z.to_nat (x / 32))) (x mod 32).
Proof. unfold has, wd. by destruct (ws !! _); cbn; rewrite ?Z.bits_0. Qed.

Lemma wd_ok ws i : Forall word_ok ws -> word_ok (wd ws i).
Proof.
  intros H. unfold wd. destruct (ws !! i) eqn:E; cbn; [lookup_ok|apply zero_ok].
Qed.

Lemma wd_beyond ws i : (length ws <= i)%nat -> wd ws i = 0.
Proof. intros H. unfold wd. by rewrite lookup_ge_None_2. Qed.

(** A statement on all bits, by words. *)
Lemma has_by_words (P : bool -> bool -> Prop) r s :
  (forall x, 0 <= x -> P (has r x) (has s x)) <->
  (forall i k, 0 <= k < 32 -> P (Z.testbit (wd r i) k) (Z.testbit (wd s i) k)).
Proof.
  split.
  - intros H i k Hk. specialize (H (32 * Z.of_nat i + k) ltac:(lia)). rewrite !has_wd in H.
    replace ((32 * Z.of_nat i + k) / 32) with (Z.of_nat i) in H by dlia.
    replace ((32 * Z.of_nat i + k) mod 32) with k in H by dlia. by rewrite Nat2Z.id in H.
  - intros H x Hx. rewrite !has_wd. apply H. dlia.
Qed.

Lemma zero_test_spec lo n s :
  zero_test lo n s = true <-> forall i, (lo <= i < n)%nat -> wd s i = 0.
Proof.
  induction n as [|n IH]; cbn [zero_test]; [split; [lia|done]|]. zcase.
  - fold (wd s n). destruct (wd s n =? 0) eqn:E'; cbn [negb].
    + rewrite IH. split; intros H i Hi.
      * destruct (decide (i = n)) as [->|]; [lia|]. apply H. lia.
      * apply H. lia.
    + split; [done|]. intros H. specialize (H n). lia.
  - split; [lia|done].
Qed.

Lemma word_test_spec bad n r s :
  word_test bad n r s = true <-> forall i, (i < n)%nat -> bad (wd r i) (wd s i) = false.
Proof.
  induction n as [|n IH]; cbn [word_test]; [split; [lia|done]|].
  fold (wd r n) (wd s n). destruct (bad (wd r n) (wd s n)) eqn:E.
  - split; [done|]. intros H. rewrite H in E by lia. done.
  - rewrite IH. split; intros H i Hi.
    + destruct (decide (i = n)) as [->|]; [done|]. apply H. lia.
    + apply H. lia.
Qed.

Lemma land_id_bits a b :
  word_ok a -> word_ok b ->
  Z.land a b = b <-> forall k, 0 <= k < 32 -> Z.testbit b k = true -> Z.testbit a k = true.
Proof.
  intros Ha Hb. split.
  - intros H k Hk Hb'. rewrite <- H, Z.land_spec, andb_true_iff in Hb'. tauto.
  - intros H. apply words_eq_bits; [apply land_ok; [done|apply Hb]|done|].
    intros k Hk. rewrite Z.land_spec. specialize (H k Hk).
    destruct (Z.testbit b k); [|apply andb_false_r]. by rewrite H.
Qed.

Lemma land_zero_bits a b :
  word_ok a -> word_ok b ->
  Z.land a b = 0 <-> forall k, 0 <= k < 32 -> Z.testbit a k && Z.testbit b k = false.
Proof.
  intros Ha Hb. split.
  - intros H k Hk. by rewrite <- Z.land_spec, H, Z.bits_0.
  - intros H. apply words_eq_bits; [apply land_ok; [done|apply Hb]|apply zero_ok|].
    intros k Hk. rewrite Z.land_spec, Z.bits_0. by apply H.
Qed.

Lemma bitset_subset_spec r s :
  bitset_wf r -> bitset_wf s -> bitset_subset r s = true <-> to_set s ⊆ to_set r.
Proof.
  intros Hr Hs. unfold bitset_subset. rewrite andb_true_iff, zero_test_spec, word_test_spec.
  transitivity (forall i, Z.land (wd (words r) i) (wd (words s) i) = wd (words s) i).
  - split.
    + intros [H1 H2] i. destruct (decide (i < nwords s `min` nwords r)%nat) as [Hi|Hi].
      * specialize (H2 i Hi). lia.
      * replace (wd (words s) i) with 0; [apply Z.land_0_r|].
        destruct (decide (i < nwords s)%nat); [symmetry; apply H1; lia|].
        symmetry. apply wd_beyond. unfold nwords in *. lia.
    + intros H. split; intros i Hi; [|rewrite H; lia].
      rewrite <- H. rewrite (wd_beyond (words r)) by (unfold nwords in *; lia). apply Z.land_0_l.
  - transitivity (forall x, 0 <= x -> has (words s) x = true -> has (words r) x = true).
    + rewrite (has_by_words (fun a b => b = true -> a = true)).
      split; intros H i; specialize (H i); [rewrite land_id_bits in H|apply land_id_bits];
        try apply wd_ok; done.
    + split.
      * intros H x [Hx Hh]%elem_of_to_set. apply elem_of_to_set. auto.
      * intros H x Hx Hh. by apply (elem_of_to_set r x), H, elem_of_to_set.
Qed.

Lemma bitset_intersects_spec r s :
  bitset_wf r -> bitset_wf s -> bitset_intersects r s = true <-> ~ to_set r ## to_set s.
Proof.
  intros Hr Hs. unfold bitset_intersects.
  rewrite negb_true_iff, <- not_true_iff_false. apply not_iff_compat.
  rewrite word_test_spec.
  transitivity (forall i, Z.land (wd (words r) i) (wd (words s) i) = 0).
  - split; intros H i; [|intros _; rewrite H; done].
    destruct (decide (i < nwords r `min` nwords s)%nat) as [Hi|Hi]; [specialize (H i Hi); lia|].
    destruct (decide (i < nwords s)%nat); unfold nwords in *.
    + rewrite (wd_beyond (words r)) by lia. apply Z.land_0_l.
    + rewrite (wd_beyond (words s)) by lia. apply Z.land_0_r.
  - transitivity (forall x, 0 <= x -> has (words r) x && has (words s) x = false).
    + rewrite (has_by_words (fun a b => a && b = false)).
      split; intros H i; specialize (H i); [rewrite land_zero_bits in H|apply land_zero_bits];
        try apply wd_ok; done.
    + split.
      * intros H x [Hx Hr']%elem_of_to_set [_ Hs']%elem_of_to_set.
        specialize (H x Hx). by rewrite Hr', Hs' in H.
      * intros H x Hx. apply andb_false_iff. specialize (H x). rewrite !elem_of_to_set in H.
        destruct (has (words r) x), (has (words s) x); tauto.
Qed.

Lemma to_set_eq r s :
  bitset_wf r -> bitset_wf s ->
  to_set r = to_set s <-> forall i, wd (words r) i = wd (words s) i.
Proof.
  intros Hr Hs. transitivity (forall x, 0 <= x -> has (words r) x = has (words s) x).
  - rewrite set_eq. split; intros H x; specialize (H x); rewrite !elem_of_to_set in *.
    + intros Hx. destruct (has (words r) x), (has (words s) x); intuition done.
    + split; intros [Hx Hh]; by rewrite H in * by done.
  - rewrite (has_by_words (fun a b => a = b)). split; intros H i.
    + apply words_eq_bits; [by apply wd_ok..|apply H].
    + intros k _. by rewrite H.
Qed.

Lemma bitset_is_empty_spec s :
  bitset_wf s -> bitset_is_empty s = true <-> to_set s = ∅.
Proof.
  intros Hs. unfold bitset_is_empty. rewrite zero_test_spec.
  replace (∅ : gset Z) with (to_set (mkBitset false [])) by done.
  rewrite to_set_eq by (done || constructor). split; intros H i.
  - rewrite (wd_beyond []) by (cbn; lia). destruct (decide (i < nwords s)%nat); [apply H; lia|].
    apply wd_beyond. unfold nwords in *. lia.
  - intros _. rewrite H. by apply wd_beyond; cbn; lia.
Qed.

Lemma bitset_is_equivalent_spec r s :
  bitset_wf r -> bitset_wf s -> bitset_is_equivalent r s = true <-> to_set r = to_set s.
Proof.
  intros Hr Hs. rewrite to_set_eq by done. unfold bitset_is_equivalent.
  rewrite andb_true_iff, word_test_spec. unfold nwords.
  pose proof (wd_beyond (words r)) as Br. pose proof (wd_beyond (words s)) as Bs. split.
  - intros [H1 H2] i. specialize (H2 i).
    destruct (decide (i < length (words r) `min` length (words s))%nat) as [Hi|Hi];
      [specialize (H2 Hi); lia|].
    destruct (decide (length (words r) = length (words s))); [rewrite Br, Bs by lia; done|].
    repeat zcase; try lia; rewrite zero_test_spec in H1.
    + rewrite Br by lia. destruct (decide (i < length (words s))%nat); [by rewrite H1 by lia|].
      by rewrite Bs by lia.
    + rewrite Bs by lia. destruct (decide (i < length (words r))%nat); [by rewrite H1 by lia|].
      by rewrite Br by lia.
  - intros H. split; [|intros i _; rewrite H; lia].
    repeat zcase; try done; apply zero_test_spec; intros i Hi.
    + rewrite <- H. apply Br. lia.
    + rewrite H. apply Bs. lia.
Qed.

(** ** Cardinality *)

(** Number of ones among the [n] lowest bits. *)
Fixpoint pop (n : nat) (w : Z) : Z :=
  match n with
  | O => 0
  | S n => Z.b2z (Z.odd w) + pop n (Z.div2 w)
  end.

Lemma pop_zero n : pop n 0 = 0.
Proof. induction n; [done|]. cbn. by rewrite IHn. Qed.

Lemma nbits_nibble w :
  0 <= w -> default 0 (nbits !! Z.to_nat (Z.land w 15)) = pop 4 w.
Proof.
  intros Hw. change 15 with (Z.ones 4). rewrite Z.land_ones by lia. change (2 ^ 4) with 16.
  assert (pop 4 w = pop 4 (w mod 16)) as ->.
  { cbn [pop]. rewrite !Z.div2_div, !Zodd_mod.
    assert ((w mod 16) mod 2 = w mod 2) as -> by dlia.
    assert ((w mod 16 / 2) mod 2 = (w / 2) mod 2) as -> by dlia.
    assert ((w mod 16 / 2 / 2) mod 2 = (w / 2 / 2) mod 2) as -> by dlia.
    by assert ((w mod 16 / 2 / 2 / 2) mod 2 = (w / 2 / 2 / 2) mod 2) as -> by dlia. }
  assert (0 <= w mod 16 < 16) as H by dlia. revert H. generalize (w mod 16).
  intros k Hk. assert (k ∈ seqZ 0 16) as Hin by (apply elem_of_seqZ; lia).
  change (seqZ 0 16) with [0; 1; 2; 3; 4; 5; 6; 7; 8; 9; 10; 11; 12; 13; 14; 15] in Hin.
  repeat (apply elem_of_cons in Hin as [->|Hin]; [done|]). by apply not_elem_of_nil in Hin.
Qed.

Lemma word_card_spec n w c :
  0 <= w < 2 ^ (4 * Z.of_nat n) -> word_card n w c = c + pop (4 * n) w.
Proof.
  revert w c. induction n as [|n IH]; intros w c Hw; cbn [word_card]; [cbn; lia|].
  destruct (w =? 0) eqn:E; [apply Z.eqb_eq in E as ->; rewrite pop_zero; lia|].
  rewrite nbits_nibble by lia. rewrite IH.
  - replace (4 * S n)%nat with (4 + 4 * n)%nat by lia. cbn [pop Nat.add].
    rewrite !Z.div2_spec, !Z.shiftr_shiftr by lia.
    change (1 + 1 + 1 + 1) with 4. lia.
  - rewrite Z.shiftr_div_pow2 by lia. split; [apply Z.div_pos; lia|].
    apply Z.div_lt_upper_bound; [lia|]. rewrite <- Z.pow_add_r by lia.
    replace (4 + 4 * Z.of_nat n) with (4 * Z.of_nat (S n)) by lia. lia.
Qed.

Lemma card_loop_spec n ws c :
  Forall word_ok ws ->
  card_loop n ws c = c + sumZ ((fun i => pop 32 (wd ws i)) <$> seq 0 n).
Proof.
  intros Hw. revert c. induction n as [|n IH]; intros c; [cbn; lia|].
  cbn [card_loop]. fold (wd ws n). rewrite IH, word_card_spec by (by apply wd_ok).
  rewrite seq_S, fmap_app, sumZ_app. change (4 * 8)%nat with 32%nat. cbn [fmap list_fmap sumZ].
  cbn [Nat.add]. lia.
Qed.

Lemma length_bits w a n :
  Z.of_nat (length (filter (fun x => Z.testbit w (x - a) = true) (seqZ a (Z.of_nat n)))) = pop n w.
Proof.
  revert w a. induction n as [|n IH]; intros w a; [done|].
  rewrite seqZ_cons by lia. rewrite filter_cons.
  replace (Z.pred (Z.of_nat (S n))) with (Z.of_nat n) by lia. rewrite Z.sub_diag, Z.bit0_odd.
  cbn [pop]. rewrite <- (IH (Z.div2 w) (Z.succ a)).
  rewrite (filter_iff_in (fun x => Z.testbit w (x - a) = true)
             (fun x => Z.testbit (Z.div2 w) (x - Z.succ a) = true)).
  - destruct (decide _) as [H|H]; [rewrite H; cbn; lia|].
    apply not_true_is_false in H. rewrite H. cbn. lia.
  - intros x Hx%elem_of_seqZ. rewrite Z.div2_div, Z.div2_bits by lia.
    by replace (Z.succ _) with (x - a) by lia.
Qed.

Lemma length_has ws n :
  Z.of_nat (length (filter (fun x => has ws x = true) (seqZ 0 (32 * Z.of_nat n))))
  = sumZ ((fun i => pop 32 (wd ws i)) <$> seq 0 n).
Proof.
  induction n as [|n IH]; [done|].
  replace (32 * Z.of_nat (S n)) with (32 * Z.of_nat n + 32) by lia.
  rewrite seqZ_app, filter_app, length_app, Nat2Z.inj_add, IH by lia.
  rewrite seq_S, fmap_app, sumZ_app. f_equal. cbn [fmap list_fmap sumZ]. rewrite Z.add_0_r.
  rewrite <- (length_bits _ (0 + 32 * Z.of_nat n)). do 2 f_equal.
  apply filter_iff_in. intros x Hx%elem_of_seqZ. rewrite has_wd.
  replace (Z.to_nat (x / 32)) with (0 + n)%nat by dlia.
  by replace (x mod 32) with (x - (0 + 32 * Z.of_nat n)) by dlia.
Qed.

Lemma bitset_cardinality_spec s :
  bitset_wf s -> bitset_cardinality s = Z.of_nat (size (to_set s)).
Proof.
  intros Hs. unfold bitset_cardinality, to_set. rewrite card_loop_spec by done.
  rewrite size_list_to_set by apply NoDup_filter, NoDup_seqZ. by rewrite length_has.
Qed.

(** ** Iteration *)

(** The least element from [lo] on, if any, of the set with test [P]. *)
Definition least (P : Z -> bool) (lo : Z) (r : option Z) : Prop :=
  match r with
  | Some x => lo <= x /\ P x = true /\ forall y, lo <= y < x -> P y = false
  | None => forall y, lo <= y -> P y = false
  end.

Lemma bit_scan_spec n w c :
  0 <= w < 2 ^ Z.of_nat n -> least (fun x => Z.testbit w (x - c)) c (bit_scan n w c).
Proof.
  revert w c. induction n as [|n IH]; intros w c Hw; cbn [bit_scan].
  { assert (w = 0) as -> by (cbn in Hw; lia). intros y Hy. apply Z.bits_0. }
  destruct (w =? 0) eqn:E; [apply Z.eqb_eq in E as ->; intros y Hy; apply Z.bits_0|].
  change 1 with (Z.shiftl 1 0) at 1. rewrite land_bit by lia.
  destruct (Z.testbit w 0) eqn:E0.
  - split; [lia|]. rewrite Z.sub_diag. split; [done|lia].
  - rewrite <- Z.div2_spec. specialize (IH (Z.div2 w) (c + 1)).
    assert (forall y, c + 1 <= y -> Z.testbit (Z.div2 w) (y - (c + 1)) = Z.testbit w (y - c)) as Hd.
    { intros y Hy. rewrite Z.div2_div, Z.div2_bits by lia. f_equal. lia. }
    assert (forall y, c <= y < c + 1 -> Z.testbit w (y - c) = false) as Hl.
    { intros y Hy. by replace (y - c) with 0 by lia. }
    destruct (bit_scan n (Z.div2 w) (c + 1)) as [x|].
    + destruct IH as (H1 & H2 & H3); [rewrite Z.div2_div, Nat2Z.inj_succ, Z.pow_succ_r in *; dlia|].
      split; [lia|]. split; [by rewrite Hd in H2|]. intros y Hy.
      destruct (decide (y < c + 1)); [apply Hl; lia|]. rewrite <- Hd by lia. apply H3. lia.
    + intros y Hy. destruct (decide (y < c + 1)); [apply Hl; lia|]. rewrite <- Hd by lia.
      apply IH; [rewrite Z.div2_div, Nat2Z.inj_succ, Z.pow_succ_r in *; dlia|lia].
Qed.

(** The bits of word [m] from [current] on are those the inner loop sees. *)
Lemma scan_word ws m current x :
  Forall word_ok ws -> 0 <= current -> current / 32 = m -> current <= x ->
  Z.testbit (Z.shiftr (wd ws (Z.to_nat m)) (BIT current)) (x - current)
  = (x / 32 =? m) && has ws x.
Proof.
  intros Hw Hc Hm Hx. rewrite BIT_mod, Z.shiftr_spec by lia.
  destruct (x / 32 =? m) eqn:E; cbn [andb].
  - rewrite has_wd. apply Z.eqb_eq in E. rewrite E. f_equal. dlia.
  - apply testbit_high; [by apply wd_ok|]. dlia.
Qed.

Lemma shifted_word w x : word_ok w -> 0 <= Z.shiftr w (BIT x) < 2 ^ Z.of_nat 32.
Proof.
  intros [H1 H2]. assert (0 <= BIT x) by (rewrite BIT_mod; dlia).
  rewrite Z.shiftr_div_pow2 by done. pose proof (Z.pow_pos_nonneg 2 (BIT x)).
  split; [apply Z.div_pos; lia|]. apply Z.div_lt_upper_bound; [lia|].
  change (Z.of_nat 32) with 32. nia.
Qed.

Lemma next_loop_spec n ws m current :
  Forall word_ok ws -> 0 <= current -> current / 32 = m ->
  Z.of_nat (length ws) <= m + Z.of_nat n ->
  least (has ws) current (next_loop n ws m current).
Proof.
  intros Hw. revert m current. induction n as [|n IH]; intros m current Hc Hm Hn; cbn [next_loop].
  { intros y Hy. apply has_beyond; dlia. }
  destruct (m <? _) eqn:E; [|intros y Hy; apply has_beyond; dlia].
  fold (wd ws (Z.to_nat m)).
  pose proof (bit_scan_spec 32 (Z.shiftr (wd ws (Z.to_nat m)) (BIT current)) current) as Hb.
  destruct (bit_scan 32 _ current) as [x|].
  - destruct Hb as (H1 & H2 & H3).
    { by apply shifted_word, wd_ok. }
    rewrite (scan_word ws m) in H2 by lia || done.
    apply andb_true_iff in H2 as [Hx Hh]. split; [done|]. split; [done|].
    intros y Hy. specialize (H3 y Hy). rewrite (scan_word ws m) in H3 by lia || done.
    replace (y / 32 =? m) with true in H3 by dlia. done.
  - assert (forall y, current <= y < 32 * (m + 1) -> has ws y = false) as Hlow.
    { intros y Hy. unfold least in Hb. rewrite <- (andb_true_l (has ws y)).
      replace true with (y / 32 =? m) by dlia. rewrite <- (scan_word ws m current) by lia || done.
      apply Hb; [by apply shifted_word, wd_ok|lia]. }
    unfold WORDSIZE. specialize (IH (m + 1) (32 * (m + 1)) ltac:(dlia) ltac:(dlia) ltac:(lia)).
    destruct (next_loop n ws (m + 1) (32 * (m + 1))) as [x|].
    + destruct IH as (H1 & H2 & H3). split; [dlia|]. split; [done|]. intros y Hy.
      destruct (decide (y < 32 * (m + 1))); [apply Hlow; lia|apply H3; lia].
    + intros y Hy. destruct (decide (y < 32 * (m + 1))); [apply Hlow; lia|apply IH; lia].
Qed.

Lemma next_member_spec s next :
  bitset_wf s -> 0 <= next ->
  exists r, least (has (words s)) next r
    /\ bitset_next_member s next = match r with Some c => (c, c + 1) | None => (-1, -1) end.
Proof.
  intros Hs Hn. unfold bitset_next_member. replace (next <? 0) with false by lia.
  exists (next_loop (nwords s) (words s) (WORD next) next). split; [|by destruct (next_loop _ _ _ _)].
  apply next_loop_spec; [done|done|by rewrite WORD_div|]. rewrite WORD_div. unfold nwords. dlia.
Qed.

Lemma iterate_from_spec fuel s next :
  bitset_wf s -> 0 <= next -> 32 * Z.of_nat (nwords s) < next + Z.of_nat fuel ->
  StronglySorted Z.lt (iterate_from fuel s next)
  /\ forall x, x ∈ iterate_from fuel s next <-> next <= x /\ has (words s) x = true.
Proof.
  intros Hs. revert next. induction fuel as [|fuel IH]; intros next Hn Hf.
  - split; [constructor|]. intros x. cbn. rewrite elem_of_nil. split; [done|].
    intros [Hx Hh]. apply has_length in Hh. unfold nwords in Hf. dlia.
  - cbn [iterate_from]. destruct (next_member_spec s next Hs Hn) as ([c|] & Hl & ->); cbn in Hl.
    + destruct Hl as (H1 & H2 & H3). replace (c =? -1) with false by lia.
      destruct (IH (c + 1)) as [IHs IHx]; [lia..|]. split.
      * constructor; [done|]. apply Forall_forall. intros y Hy%IHx. lia.
      * intros x. rewrite elem_of_cons, IHx. split; [intros [->|?]; intuition lia|].
        intros [Hx Hh]. destruct (decide (x < c)); [by rewrite H3 in Hh by lia|].
        destruct (decide (x = c)); [by left|right; split; [lia|done]].
    + split; [constructor|]. intros x. cbn. rewrite elem_of_nil. split; [done|].
      intros [Hx Hh]. by rewrite Hl in Hh.
Qed.

Lemma members_spec s :
  bitset_wf s -> StronglySorted Z.lt (members s) /\ list_to_set (members s) = to_set s.
Proof.
  intros Hs. destruct (iterate_from_spec (S (32 * nwords s)) s 0 Hs) as [H1 H2]; [lia..|].
  split; [done|]. apply set_eq. intros x. rewrite elem_of_list_to_set, elem_of_to_set. apply H2.
Qed.

Lemma sorted_lt_NoDup l : StronglySorted Z.lt l -> NoDup l.
Proof.
  induction 1 as [|x l _ IH Hx]; constructor; [|done].
  rewrite Forall_forall in Hx. intros Hin%Hx. lia.
Qed.

Lemma to_set_init : to_set bitset_init = ∅.
Proof. by vm_compute. Qed.

(** ** Properties *)

(** bitset_extend reports an allocation failure to nobody.  When malloc fails,
    adding a member past the end of the array, and assigning or uniting a
    longer set, write outside the array. *)
Lemma add_overruns r x : 32 * Z.of_nat (nwords r) <= x -> bitset_add false r x = None.
Proof.
  intros Hx. unfold bitset_add, set_word. rewrite WORD_div. cbn [bitset_extend].
  rewrite (lookup_ge_None_2 (words _)); [by repeat zcase|]. unfold nwords in *. repeat zcase; dlia.
Qed.

Lemma assign_overruns r s : (nwords r < nwords s)%nat -> bitset_assign false r s = None.
Proof.
  intros Hn. unfold bitset_assign. cbn [bitset_extend].
  assert ((nwords r <? nwords s)%nat = true) as E by lia. by rewrite E, E.
Qed.

Lemma union_overruns r s : (nwords r < nwords s)%nat -> bitset_union false r s = None.
Proof.
  intros Hn. unfold bitset_union. cbn [bitset_extend]. replace (nwords r <? nwords s)%nat with true by lia.
  destruct (nwords s) as [|n]; [lia|]. cbn [word_loop].
  by rewrite (lookup_ge_None_2 (words r)) by (unfold nwords in *; lia).
Qed.

(** C31: the operations that change a bit set are those of finite sets.  For
    well formed operands of any lengths and any non-negative member, each of
    them stays inside the array, leaves a well formed set, and its members are
    those of the operation on sets of integers, provided that the array is long
    enough or memory for a longer one can be allocated.  Otherwise the
    insertion, the union and the copy write outside the array. *)
Theorem bitset_refines_sets ok r s x :
  bitset_wf r -> bitset_wf s -> 0 <= x ->
  (if ok || (x <? 32 * Z.of_nat (nwords r))
   then exists d, bitset_add ok r x = Some d /\ bitset_wf d /\ to_set d = {[x]} ∪ to_set r
   else bitset_add ok r x = None)
  /\ (exists d, bitset_remove r x = Some d /\ bitset_wf d /\ to_set d = to_set r ∖ {[x]})
  /\ (if ok || (nwords s <=? nwords r)%nat
      then exists d, bitset_union ok r s = Some d /\ bitset_wf d /\ to_set d = to_set r ∪ to_set s
      else bitset_union ok r s = None)
  /\ (exists d, bitset_intersect r s = Some d /\ bitset_wf d /\ to_set d = to_set r ∩ to_set s)
  /\ (exists d, bitset_difference r s = Some d /\ bitset_wf d /\ to_set d = to_set r ∖ to_set s)
  /\ (if ok || (nwords s <=? nwords r)%nat
      then exists d, bitset_assign ok r s = Some d /\ bitset_wf d /\ to_set d = to_set s
      else bitset_assign ok r s = None).
Proof.
  intros Hr Hs Hx. split; [|split; [|split; [|split; [|split]]]].
  - destruct ok; cbn [orb]; [by apply bitset_add_spec|]. zcase; [|apply add_overruns; lia].
    replace (bitset_add false r x) with (bitset_add true r x); [by apply bitset_add_spec|].
    unfold bitset_add. rewrite WORD_div. by replace (_ >=? _) with false by dlia.
  - by apply bitset_remove_spec.
  - destruct ok; cbn [orb]; [by apply bitset_union_spec|]. zcase; [|apply union_overruns; lia].
    replace (bitset_union false r s) with (bitset_union true r s); [by apply bitset_union_spec|].
    unfold bitset_union. by replace (nwords r <? nwords s)%nat with false by lia.
  - by apply bitset_intersect_spec.
  - by apply bitset_difference_spec.
  - destruct ok; cbn [orb]; [by apply bitset_assign_spec|]. zcase; [|apply assign_overruns; lia].
    replace (bitset_assign false r s) with (bitset_assign true r s); [by apply bitset_assign_spec|].
    unfold bitset_assign. by replace (nwords r <? nwords s)%nat with false by lia.
Qed.

(** Sets used by the witnesses: one in the structure, one of three words. *)
Definition sample_small : BITSET := mkBitset false [5; 2147483648].
Definition sample_large : BITSET := mkBitset true [4; 0; 9].

Lemma sample_small_wf : bitset_wf sample_small.
Proof. repeat constructor; by vm_compute. Qed.

Lemma sample_large_wf : bitset_wf sample_large.
Proof. repeat constructor; by vm_compute. Qed.

Lemma bitset_refines_sets_witness :
  bitset_add false sample_small 64 = None
  /\ exists d, bitset_union true sample_small sample_large = Some d
            /\ to_set d = {[0; 2; 63]} ∪ {[2; 64; 67]}.
Proof.
  split.
  - apply (bitset_refines_sets false sample_small sample_large 64 sample_small_wf sample_large_wf ltac:(lia)).
  - destruct (bitset_refines_sets true sample_small sample_large 7 sample_small_wf sample_large_wf)
      as (_ & _ & (d & Hd & _ & Hs) & _); [lia|].
    exists d. split; [done|]. rewrite Hs. by vm_compute.
Defined.

(** The tests decide what they are named after, for operands of any
    lengths: membership, inclusion (of the second operand in the first),
    a common member, emptiness and equality of the sets. *)
Theorem bitset_tests_correct r s :
  bitset_wf r -> bitset_wf s ->
  (forall x, 0 <= x -> BITSET_MEMBER s x = true <-> x ∈ to_set s)
  /\ (bitset_subset r s = true <-> to_set s ⊆ to_set r)
  /\ (bitset_intersects r s = true <-> ~ to_set r ## to_set s)
  /\ (bitset_is_empty s = true <-> to_set s = ∅)
  /\ (bitset_is_equivalent r s = true <-> to_set r = to_set s).
Proof.
  intros Hr Hs. split; [|split; [|split; [|split]]].
  - intros x Hx. rewrite MEMBER_has, elem_of_to_set by done. tauto.
  - by apply bitset_subset_spec.
  - by apply bitset_intersects_spec.
  - by apply bitset_is_empty_spec.
  - by apply bitset_is_equivalent_spec.
Qed.

Lemma bitset_tests_correct_witness :
  bitset_is_equivalent (mkBitset false [5; 0]) (mkBitset true [5; 0; 0]) = true
  /\ to_set (mkBitset false [5; 0]) = to_set (mkBitset true [5; 0; 0]).
Proof.
  split; [by vm_compute|].
  apply (bitset_tests_correct (mkBitset false [5; 0]) (mkBitset true [5; 0; 0]));
    [repeat constructor; by vm_compute..|by vm_compute].
Defined.

(** The loop that starts with bitset_iterate and continues with
    bitset_next_member ends and visits every member once, in increasing
    order; bitset_cardinality is the number of members. *)
Theorem bitset_iteration_complete s :
  bitset_wf s ->
  StronglySorted Z.lt (members s)
  /\ list_to_set (members s) = to_set s
  /\ bitset_cardinality s = Z.of_nat (length (members s))
  /\ bitset_first_member s = default (-1) (head (members s)).
Proof.
  intros Hs. destruct (members_spec s Hs) as [H1 H2]. split; [done|]. split; [done|]. split.
  - rewrite bitset_cardinality_spec, <- H2 by done.
    by rewrite size_list_to_set by (by apply sorted_lt_NoDup).
  - unfold bitset_first_member, bitset_iterate, members. cbn [iterate_from].
    destruct (next_member_spec s 0 Hs ltac:(done)) as ([c|] & Hl & ->); [|done].
    destruct Hl as (H & _). cbn. by replace (c =? -1) with false by lia.
Qed.

Lemma bitset_iteration_complete_witness :
  members sample_large = [2; 64; 67] /\ bitset_cardinality sample_large = 3.
Proof.
  destruct (bitset_iteration_complete sample_large sample_large_wf) as (_ & _ & H & _).
  assert (members sample_large = [2; 64; 67]) as E by (by vm_compute).
  split; [done|]. by rewrite H, E.
Defined.
