(* ===== verification/BinaryHeap.v ===== *)
(** * Binary heap (src/base/binaryheap.c)

    A bounded max-heap of pointers in an array, with the comparison function
    of its user.  The file shows that insertion and the push down restore the
    heap property and permute the elements, that the root is a largest element
    and that the conversion to an array sorts it. *)
From Stdlib Require Import ZArith Lia ZifyBool.
From stdpp Require Import base list numbers sorting.
From S2P Require Import Prelude.

(** ** Data *)

Inductive BH_CMP_RESULT := BH_CMP_ERROR | BH_LT | BH_EQ | BH_GT.

#[export] Instance BH_CMP_RESULT_eq_dec : EqDecision BH_CMP_RESULT.
Proof. solve_decision. Defined.

Inductive BH_HEAP_STATE := BH_HEAP_INCONSISTENT | BH_HEAP_CONSISTENT | BH_SORTED_ARRAY.

(** The fields cmp_func and cmp_arg are the argument [cmp] of the operations. *)
Record BINARY_HEAP (A : Type) := mkHeap {
  max_capacity : nat;
  element_count : nat;
  state : BH_HEAP_STATE;
  members : list A }.

Arguments mkHeap {A}.
Arguments max_capacity {A}.
Arguments element_count {A}.
Arguments state {A}.
Arguments members {A}.

Definition ER_BINARY_HEAP_OUT_OF_RANGE : Z := -1113.

Definition BH_PARENT (i : nat) : nat := ((i - 1) / 2)%nat.
Definition BH_LEFT (i : nat) : nat := (2 * i + 1)%nat.
Definition BH_RIGHT (i : nat) : nat := (2 * i + 2)%nat.

Section Operations.
Context {A : Type} (null : A) (cmp : A -> A -> BH_CMP_RESULT).

(** An element of the array; the operations only read below element_count. *)
Definition BH_ELEMENT (ms : list A) (i : nat) : A := nth i ms null.

Definition BH_SWAP (ms : list A) (left right : nat) : list A :=
  <[right := BH_ELEMENT ms left]> (<[left := BH_ELEMENT ms right]> ms).

Definition BH_CMP (ms : list A) (l r : nat) : BH_CMP_RESULT :=
  cmp (BH_ELEMENT ms l) (BH_ELEMENT ms r).

(** The recursion goes from an index to its parent, so [S index] calls
    reach the root. *)
Fixpoint up_heap (fuel : nat) (ms : list A) (index : nat) : list A :=
  match fuel with
  | O => ms
  | S fuel =>
      if (index =? 0)%nat then ms
      else if decide (BH_CMP ms (BH_PARENT index) index = BH_LT)
      then up_heap fuel (BH_SWAP ms index (BH_PARENT index)) (BH_PARENT index)
      else ms
  end.

Definition bh_up_heap (ms : list A) (index : nat) : list A := up_heap (S index) ms index.

(** The index that holds the largest of an element and its children. *)
Definition largest_of (ms : list A) (count index : nat) : nat :=
  let left := BH_LEFT index in
  let right := BH_RIGHT index in
  let largest :=
    if (left <? count)%nat && bool_decide (BH_CMP ms left index = BH_GT) then left else index in
  if (right <? count)%nat && bool_decide (BH_CMP ms right largest = BH_GT) then right else largest.

(** The recursion goes to a larger index below the count. *)
Fixpoint down_heap (fuel : nat) (ms : list A) (count index : nat) : list A :=
  match fuel with
  | O => ms
  | S fuel =>
      let largest := largest_of ms count index in
      if negb (largest =? index)%nat
      then down_heap fuel (BH_SWAP ms index largest) count largest
      else ms
  end.

Definition bh_down_heap (heap : BINARY_HEAP A) (index : nat) : BINARY_HEAP A :=
  mkHeap (max_capacity heap) (element_count heap) (state heap)
    (down_heap (element_count heap) (members heap) (element_count heap) index).

(** [ok] tells whether the allocations succeed. *)
Definition bh_create (ok : bool) (max_capacity : nat) : option (BINARY_HEAP A) :=
  if ok then Some (mkHeap max_capacity 0 BH_HEAP_CONSISTENT (replicate max_capacity null))
  else None.

Definition bh_insert (heap : BINARY_HEAP A) (elem : A) : Z * BINARY_HEAP A :=
  let st := if negb (element_count heap =? 0)%nat then state heap else BH_HEAP_CONSISTENT in
  if (max_capacity heap <=? element_count heap)%nat
  then (ER_BINARY_HEAP_OUT_OF_RANGE,
        mkHeap (max_capacity heap) (element_count heap) st (members heap))
  else
    let ms := <[element_count heap := elem]> (members heap) in
    let count := S (element_count heap) in
    (NO_ERROR, mkHeap (max_capacity heap) count st (bh_up_heap ms (count - 1))).

Definition bh_peek_max (heap : BINARY_HEAP A) : A :=
  if (element_count heap =? 0)%nat then null else BH_ELEMENT (members heap) 0.

(** while (heap->element_count > 0) *)
Fixpoint extract_all (ms : list A) (count : nat) : list A :=
  match count with
  | O => ms
  | S count' => extract_all (down_heap count' (BH_SWAP ms 0 count') count' 0) count'
  end.

Definition bh_to_sorted_array (heap : BINARY_HEAP A) : BINARY_HEAP A :=
  mkHeap (max_capacity heap) (element_count heap) BH_SORTED_ARRAY
    (extract_all (members heap) (element_count heap)).

Definition bh_is_full (heap : BINARY_HEAP A) : bool :=
  (max_capacity heap <=? element_count heap)%nat.
End Operations.

(** ** Elements after a swap *)

Section Swap.
Context {A : Type} (null : A).
Implicit Types ms : list A.

Notation elem := (BH_ELEMENT null).
Notation swap := (BH_SWAP null).

Lemma elem_lookup ms i : (i < length ms)%nat -> ms !! i = Some (elem ms i).
Proof.
  intros Hi. unfold BH_ELEMENT. rewrite nth_lookup.
  destruct (lookup_lt_is_Some_2 ms i Hi) as [x ->]. done.
Qed.

Lemma lookup_elem ms i x : ms !! i = Some x -> elem ms i = x.
Proof. intros H. unfold BH_ELEMENT. by rewrite nth_lookup, H. Qed.

Lemma elem_insert ms i j x :
  (i < length ms)%nat -> elem (<[i := x]> ms) j = if (j =? i)%nat then x else elem ms j.
Proof.
  intros Hi. unfold BH_ELEMENT. rewrite !nth_lookup. destruct (j =? i)%nat eqn:E.
  - apply Nat.eqb_eq in E as ->. by rewrite list_lookup_insert_eq.
  - by rewrite list_lookup_insert_ne by lia.
Qed.

Lemma length_swap ms l r : length (swap ms l r) = length ms.
Proof. unfold BH_SWAP. by rewrite !length_insert. Qed.

Lemma elem_swap ms l r i :
  (l < length ms)%nat -> (r < length ms)%nat ->
  elem (swap ms l r) i
  = if (i =? r)%nat then elem ms l else if (i =? l)%nat then elem ms r else elem ms i.
Proof. intros Hl Hr. unfold BH_SWAP. by rewrite !elem_insert by (rewrite ?length_insert; lia). Qed.

(** Two arrays that hold the same elements below [n] and agree from [n] on. *)
Definition shuffled (n : nat) ms ms' : Prop :=
  take n ms ≡ₚ take n ms' /\ drop n ms = drop n ms'.

Lemma shuffled_refl n ms : shuffled n ms ms.
Proof. done. Qed.

Lemma shuffled_trans n ms1 ms2 ms3 :
  shuffled n ms1 ms2 -> shuffled n ms2 ms3 -> shuffled n ms1 ms3.
Proof. intros [H1 H2] [H3 H4]. split; etrans; eauto. Qed.

Lemma shuffled_length n ms ms' : shuffled n ms ms' -> length ms = length ms'.
Proof.
  intros [H1%Permutation_length H2%(f_equal length)].
  rewrite !length_take in H1. rewrite !length_drop in H2. lia.
Qed.

Lemma shuffled_swap n ms l r :
  (l < n)%nat -> (r < n)%nat -> (n <= length ms)%nat -> shuffled n ms (swap ms l r).
Proof.
  intros Hl Hr Hn. unfold BH_SWAP. split.
  - rewrite !take_insert_lt by done.
    symmetry. apply Permutation_insert_swap;
      rewrite lookup_take_lt by done; apply elem_lookup; lia.
  - by rewrite !drop_insert_lt by done.
Qed.

Lemma shuffled_elem n ms ms' i : shuffled n ms ms' -> (n <= i)%nat -> elem ms i = elem ms' i.
Proof.
  intros [_ H] Hi. unfold BH_ELEMENT. rewrite !nth_lookup.
  replace i with (n + (i - n))%nat by lia. by rewrite <- !lookup_drop, H.
Qed.

Lemma drop_S_eq c ms ms' : drop c ms = drop c ms' -> drop (S c) ms = drop (S c) ms'.
Proof. intros H. replace (S c) with (c + 1)%nat by lia. by rewrite <- !drop_drop, H. Qed.

(** What holds of the elements below [n] still holds after a shuffle. *)
Lemma shuffled_Forall n ms ms' (P : A -> Prop) :
  shuffled n ms ms' -> (n <= length ms)%nat ->
  (forall i, (i < n)%nat -> P (elem ms i)) <-> (forall i, (i < n)%nat -> P (elem ms' i)).
Proof.
  intros Hs Hn. pose proof (shuffled_length _ _ _ Hs) as Hl. destruct Hs as [Hp _].
  assert (forall l, (n <= length l)%nat ->
    Forall P (take n l) <-> forall i, (i < n)%nat -> P (elem l i)) as Hf.
  { intros l Hle. rewrite Forall_lookup. split; intros H i.
    - intros Hi. apply (H i). rewrite lookup_take_lt by done. apply elem_lookup. lia.
    - intros x [Hx Hi]%lookup_take_Some. apply lookup_elem in Hx as <-. by apply H. }
  rewrite <- !Hf by lia. by rewrite Hp.
Qed.
End Swap.

Lemma BH_PARENT_child j i :
  (0 < j)%nat -> BH_PARENT j = i <-> (j = BH_LEFT i \/ j = BH_RIGHT i).
Proof.
  unfold BH_PARENT, BH_LEFT, BH_RIGHT. intros Hj.
  pose proof (Nat.div_mod (j - 1) 2 ltac:(lia)). pose proof (Nat.mod_upper_bound (j - 1) 2 ltac:(lia)).
  lia.
Qed.

Lemma BH_PARENT_lt j : (0 < j)%nat -> (BH_PARENT j < j)%nat.
Proof. intros Hj. unfold BH_PARENT. apply Nat.Div0.div_lt_upper_bound. lia. Qed.

(** ** What the heap asks of the comparison function *)

Class CmpLaws {A} (cmp : A -> A -> BH_CMP_RESULT) : Prop := {
  cmp_gt_lt a b : cmp a b = BH_GT <-> cmp b a = BH_LT;
  cmp_le_trans a b c : cmp a b <> BH_GT -> cmp b c <> BH_GT -> cmp a c <> BH_GT }.

Section Heap.
Context {A : Type} (null : A) (cmp : A -> A -> BH_CMP_RESULT) `{!CmpLaws cmp}.
Implicit Types ms : list A.

Notation elem := (BH_ELEMENT null).
Notation swap := (BH_SWAP null).

Definition le (a b : A) : Prop := cmp a b <> BH_GT.

Lemma le_refl a : le a a.
Proof. intros H. pose proof (proj1 (cmp_gt_lt a a) H). congruence. Qed.

Lemma le_trans a b c : le a b -> le b c -> le a c.
Proof. apply cmp_le_trans. Qed.

Lemma lt_le a b : cmp a b = BH_LT -> le a b.
Proof. unfold le. congruence. Qed.

Lemma gt_le a b : cmp a b = BH_GT -> le b a.
Proof. rewrite cmp_gt_lt. apply lt_le. Qed.

Lemma not_lt_le a b : cmp a b <> BH_LT -> le b a.
Proof. unfold le. by rewrite cmp_gt_lt. Qed.

Lemma le_dec_total a b : le a b \/ le b a.
Proof. destruct (decide (cmp a b = BH_GT)); [right; by apply gt_le|by left]. Qed.

(** Every element but the root is at most its parent. *)
Definition heap_ok (n : nat) ms : Prop :=
  forall j, (0 < j < n)%nat -> le (elem ms j) (elem ms (BH_PARENT j)).

(** The heap property but for [i] and its parent, and the one but for [i] and
    its children; the children of [i] are at most its parent. *)
Definition heap_up (n i : nat) ms : Prop :=
  (forall j, (0 < j < n)%nat -> j <> i -> le (elem ms j) (elem ms (BH_PARENT j)))
  /\ (forall j, (0 < j < n)%nat -> BH_PARENT j = i -> (0 < i)%nat ->
        le (elem ms j) (elem ms (BH_PARENT i))).

Definition heap_down (n i : nat) ms : Prop :=
  (forall j, (0 < j < n)%nat -> BH_PARENT j <> i -> le (elem ms j) (elem ms (BH_PARENT j)))
  /\ (forall j, (0 < j < n)%nat -> BH_PARENT j = i -> (0 < i)%nat ->
        le (elem ms j) (elem ms (BH_PARENT i))).

Lemma heap_root n ms i : heap_ok n ms -> (i < n)%nat -> le (elem ms i) (elem ms 0).
Proof.
  intros Hh. induction i as [i IH] using lt_wf_ind. intros Hi.
  destruct (decide (i = 0%nat)) as [->|]; [apply le_refl|].
  pose proof (BH_PARENT_lt i ltac:(lia)).
  eapply le_trans; [apply Hh; lia|]. apply IH; lia.
Qed.

(** Elements of a swapped array at indices known to [lia]. *)
Ltac swap_at :=
  rewrite !elem_swap by lia;
  repeat match goal with
  | |- context [(?a =? ?b)%nat] =>
      first [replace (a =? b)%nat with true by lia | replace (a =? b)%nat with false by lia]
  end.

Lemma heap_up_swap n i ms :
  (n <= length ms)%nat -> (0 < i < n)%nat -> heap_up n i ms ->
  le (elem ms (BH_PARENT i)) (elem ms i) ->
  heap_up n (BH_PARENT i) (swap ms i (BH_PARENT i)).
Proof.
  intros Hn Hi [H1 H2] Hle. pose proof (BH_PARENT_lt i ltac:(lia)) as Hp. split.
  - intros j Hj Hji. pose proof (BH_PARENT_lt j ltac:(lia)).
    destruct (decide (j = i)) as [->|Hne]; [by swap_at|].
    destruct (decide (BH_PARENT j = BH_PARENT i)) as [E|Hpi];
      [|destruct (decide (BH_PARENT j = i))]; swap_at.
    + eapply le_trans; [apply H1; lia|]. by rewrite E.
    + apply H2; lia.
    + apply H1; lia.
  - intros j Hj Hji Hpi. pose proof (BH_PARENT_lt (BH_PARENT i) Hpi).
    pose proof (BH_PARENT_lt j ltac:(lia)).
    assert (le (elem ms (BH_PARENT i)) (elem ms (BH_PARENT (BH_PARENT i)))) by (apply H1; lia).
    destruct (decide (j = i)) as [->|Hne]; swap_at; [done|].
    eapply le_trans; [apply H1; lia|]. by rewrite Hji.
Qed.

Lemma up_heap_spec fuel n i ms :
  (n <= length ms)%nat -> (i < n)%nat -> (i < fuel)%nat -> heap_up n i ms ->
  heap_ok n (up_heap null cmp fuel ms i) /\ shuffled n ms (up_heap null cmp fuel ms i).
Proof.
  revert i ms. induction fuel as [|fuel IH]; intros i ms Hn Hi Hf Hu; [lia|]. cbn [up_heap].
  destruct (i =? 0)%nat eqn:E.
  { split; [|done]. intros j Hj. apply Hu; lia. }
  pose proof (BH_PARENT_lt i ltac:(lia)) as Hp. destruct (decide _) as [Hlt|Hlt].
  - destruct (IH (BH_PARENT i) (swap ms i (BH_PARENT i))) as [H1 H2];
      [by rewrite length_swap|lia..| |].
    + apply heap_up_swap; [done|lia|done|]. by apply lt_le.
    + split; [done|]. eapply shuffled_trans; [|done]. apply shuffled_swap; lia.
  - split; [|done]. intros j Hj. destruct (decide (j = i)) as [->|]; [by apply not_lt_le|].
    apply Hu; lia.
Qed.

Lemma largest_of_spec n i ms :
  let m := largest_of null cmp ms n i in
  (m = i \/ (i < m < n)%nat /\ BH_PARENT m = i /\ le (elem ms i) (elem ms m))
  /\ forall j, (0 < j < n)%nat -> BH_PARENT j = i -> le (elem ms j) (elem ms m).
Proof.
  intros m. pose proof (BH_PARENT_child (BH_LEFT i) i ltac:(unfold BH_LEFT; lia)) as PL.
  pose proof (BH_PARENT_child (BH_RIGHT i) i ltac:(unfold BH_RIGHT; lia)) as PR.
  assert (forall k l, (k <? n)%nat && bool_decide (BH_CMP null cmp ms k l = BH_GT) = false ->
            (k < n)%nat -> le (elem ms k) (elem ms l)) as Hno.
  { intros k l [H|H]%andb_false_iff Hk; [lia|]. by apply bool_decide_eq_false in H. }
  assert (forall k l, (k <? n)%nat && bool_decide (BH_CMP null cmp ms k l = BH_GT) = true ->
            (k < n)%nat /\ le (elem ms l) (elem ms k)) as Hyes.
  { intros k l [H1 H2]%andb_true_iff. split; [lia|]. apply gt_le. by apply bool_decide_eq_true in H2. }
  assert (forall j, (0 < j < n)%nat -> BH_PARENT j = i -> j = BH_LEFT i \/ j = BH_RIGHT i) as Hch.
  { intros j Hj. apply BH_PARENT_child. lia. }
  unfold m, largest_of. clear m. cbn zeta.
  destruct (_ && bool_decide (BH_CMP null cmp ms (BH_LEFT i) i = BH_GT)) eqn:E1;
    destruct (_ && bool_decide (BH_CMP null cmp ms (BH_RIGHT i) _ = BH_GT)) eqn:E2;
    try apply Hyes in E1 as [? ?]; try apply Hyes in E2 as [? ?];
    (split; [unfold BH_LEFT, BH_RIGHT in *; eauto 6 with lia
            |intros j Hj [-> | ->]%Hch; eauto using le_refl, le_trans with lia]).
  right. split; [lia|]. split; [tauto|]. by eapply le_trans.
Qed.

Lemma heap_down_swap n i c ms :
  (n <= length ms)%nat -> (i < c < n)%nat -> BH_PARENT c = i -> heap_down n i ms ->
  le (elem ms i) (elem ms c) ->
  (forall j, (0 < j < n)%nat -> BH_PARENT j = i -> le (elem ms j) (elem ms c)) ->
  heap_down n c (swap ms i c).
Proof.
  intros Hn Hc Hp [H1 H2] Hle Hmax. split.
  - intros j Hj Hji. pose proof (BH_PARENT_lt j ltac:(lia)).
    destruct (decide (j = c)) as [->|Hne]; [rewrite Hp; by swap_at|].
    destruct (decide (j = i)) as [->|Hni]; [swap_at; apply H2; lia|].
    destruct (decide (BH_PARENT j = i)) as [E|]; swap_at; [by apply Hmax|by apply H1].
  - intros j Hj Hji Hpc. pose proof (BH_PARENT_lt j ltac:(lia)). rewrite Hp. swap_at.
    rewrite <- Hji. apply H1; lia.
Qed.

Lemma down_heap_spec fuel n i ms :
  (n <= length ms)%nat -> (n <= i + fuel)%nat -> heap_down n i ms ->
  heap_ok n (down_heap null cmp fuel ms n i) /\ shuffled n ms (down_heap null cmp fuel ms n i).
Proof.
  revert i ms. induction fuel as [|fuel IH]; intros i ms Hn Hf Hd; cbn [down_heap].
  { split; [|done]. intros j Hj. apply Hd; [done|]. pose proof (BH_PARENT_lt j). lia. }
  destruct (largest_of_spec n i ms) as [Hm Hmax].
  destruct (largest_of null cmp ms n i =? i)%nat eqn:E; cbn [negb].
  - apply Nat.eqb_eq in E. rewrite E in Hmax. split; [|done]. intros j Hj.
    destruct (decide (BH_PARENT j = i)) as [Hp|Hp]; [|by apply Hd].
    rewrite Hp. by apply Hmax.
  - destruct Hm as [?|(Hc & Hp & Hle)]; [lia|].
    destruct (IH (largest_of null cmp ms n i) (swap ms i (largest_of null cmp ms n i)))
      as [H1 H2]; [by rewrite length_swap|lia|by apply heap_down_swap|].
    split; [done|]. eapply shuffled_trans; [|done]. apply shuffled_swap; lia.
Qed.

(** The root may be any element when its children's subtrees are heaps. *)
Lemma heap_down_root n ms :
  (forall j, (0 < j < n)%nat -> BH_PARENT j <> 0%nat -> le (elem ms j) (elem ms (BH_PARENT j))) ->
  heap_down n 0 ms.
Proof. intros H. split; [done|lia]. Qed.

(** ** Sorting *)

Lemma extract_step c ms :
  (S c <= length ms)%nat -> heap_ok (S c) ms ->
  let ms' := down_heap null cmp c (swap ms 0 c) c 0 in
  heap_ok c ms' /\ shuffled (S c) ms ms'
  /\ (forall i, (i < c)%nat -> le (elem ms' i) (elem ms' c)).
Proof.
  intros Hn Hh ms'.
  destruct (down_heap_spec c c 0 (swap ms 0 c)) as [H1 H2]; [rewrite length_swap; lia|lia|..].
  { apply heap_down_root. intros j Hj Hp. pose proof (BH_PARENT_lt j ltac:(lia)).
    swap_at. apply Hh. lia. }
  split; [done|]. assert (elem ms' c = elem ms 0) as Ec.
  { rewrite <- (shuffled_elem null c (swap ms 0 c)) by (done || lia). by swap_at. }
  assert (shuffled (S c) (swap ms 0 c) ms') as Hs.
  { destruct H2 as [Hp Hd]. split.
    - rewrite !(take_S_r _ _ (elem ms 0)).
      + by rewrite Hp.
      + rewrite <- Ec. apply elem_lookup. unfold ms'.
        rewrite <- (shuffled_length c (swap ms 0 c)), length_swap; [lia|done].
      + rewrite <- Ec. rewrite <- (shuffled_elem null c (swap ms 0 c)) by (done || lia).
        apply elem_lookup. rewrite length_swap. lia.
    - by apply drop_S_eq. }
  split; [eapply shuffled_trans; [|done]; apply shuffled_swap; lia|].
  rewrite Ec. apply (shuffled_Forall null c (swap ms 0 c) ms' (fun x => le x (elem ms 0)));
    [done|rewrite length_swap; lia|].
  intros i Hi. destruct (decide (i = 0%nat)) as [->|]; swap_at; (apply (heap_root (S c)); [done|lia]).
Qed.

Lemma extract_all_spec n ms :
  (n <= length ms)%nat -> heap_ok n ms ->
  shuffled n ms (extract_all null cmp ms n)
  /\ StronglySorted le (take n (extract_all null cmp ms n)).
Proof.
  revert ms. induction n as [|c IH]; intros ms Hn Hh; [split; [done|constructor]|].
  cbn [extract_all]. destruct (extract_step c ms Hn Hh) as (H1 & H2 & H3).
  set (ms' := down_heap null cmp c (swap ms 0 c) c 0) in *.
  pose proof (shuffled_length _ _ _ H2) as Hl.
  destruct (IH ms') as [H4 H5]; [lia|done|].
  set (r := extract_all null cmp ms' c) in *.
  assert (length r = length ms') as Hr by (symmetry; by eapply shuffled_length).
  assert (elem r c = elem ms' c) as Ec by (symmetry; by eapply shuffled_elem).
  assert (take (S c) r = take c r ++ [elem r c]) as Et
    by (apply take_S_r, elem_lookup; lia).
  assert (take (S c) ms' = take c ms' ++ [elem ms' c]) as Et'
    by (apply take_S_r, elem_lookup; lia).
  split.
  - eapply shuffled_trans; [exact H2|]. destruct H4 as [Hp Hd]. split.
    + rewrite Et, Et', Ec. by rewrite Hp.
    + by apply drop_S_eq.
  - rewrite Et. apply StronglySorted_app_2; [..|done|].
    + intros x y Hx Hy. apply list_elem_of_singleton in Hy as ->. rewrite Ec.
      apply list_elem_of_lookup in Hx as [i [Hx Hi]%lookup_take_Some].
      apply (lookup_elem null) in Hx as <-.
      by apply (shuffled_Forall null c ms' r (fun x => le x (elem ms' c))); [|lia|..].
    + repeat constructor.
Qed.

(** ** Heaps *)

Definition elements (heap : BINARY_HEAP A) : list A :=
  take (element_count heap) (members heap).

Definition heap_wf (heap : BINARY_HEAP A) : Prop :=
  (element_count heap <= max_capacity heap)%nat
  /\ length (members heap) = max_capacity heap
  /\ heap_ok (element_count heap) (members heap).

Lemma create_wf n heap :
  bh_create null true n = Some heap -> heap_wf heap /\ elements heap = [].
Proof.
  intros [= <-]. repeat split; cbn; [lia|apply length_replicate|]. intros j Hj. cbn in Hj. lia.
Qed.

Lemma insert_wf heap x :
  heap_wf heap -> (element_count heap < max_capacity heap)%nat ->
  exists heap', bh_insert null cmp heap x = (NO_ERROR, heap') /\ heap_wf heap'
    /\ element_count heap' = S (element_count heap)
    /\ max_capacity heap' = max_capacity heap
    /\ elements heap' ≡ₚ x :: elements heap.
Proof.
  intros (Hc & Hl & Hh) Hlt. unfold bh_insert.
  replace (max_capacity heap <=? element_count heap)%nat with false by lia.
  eexists. split; [done|]. unfold heap_wf, elements. cbn [element_count max_capacity members].
  set (n := element_count heap) in *. unfold bh_up_heap.
  replace (S n - 1)%nat with n by lia.
  destruct (up_heap_spec (S n) (S n) n (<[n := x]> (members heap))) as [H1 H2];
    [rewrite length_insert; lia|lia|lia| |].
  { split.
    - intros j Hj Hne. pose proof (BH_PARENT_lt j ltac:(lia)). rewrite !elem_insert by lia.
      replace (j =? n)%nat with false by lia. replace (BH_PARENT j =? n)%nat with false by lia.
      apply Hh. lia.
    - intros j Hj Hp. pose proof (BH_PARENT_lt j ltac:(lia)). lia. }
  split; [split; [lia|]; split; [|done]|].
  - rewrite <- (shuffled_length _ _ _ H2), length_insert. done.
  - split; [done|]. split; [done|]. destruct H2 as [<- _].
    rewrite (take_S_r _ n x) by (apply list_lookup_insert_eq; lia).
    rewrite take_insert_ge by lia. by rewrite Permutation_app_comm.
Qed.

Lemma insert_full heap x :
  (max_capacity heap <= element_count heap)%nat -> (0 < element_count heap)%nat ->
  bh_insert null cmp heap x = (ER_BINARY_HEAP_OUT_OF_RANGE, heap).
Proof.
  intros H Hp. unfold bh_insert. replace (_ <=? _)%nat with true by lia.
  replace (element_count heap =? 0)%nat with false by lia. by destruct heap.
Qed.

Lemma peek_max_spec heap :
  heap_wf heap -> (0 < element_count heap)%nat ->
  bh_peek_max null heap ∈ elements heap
  /\ Forall (fun y => le y (bh_peek_max null heap)) (elements heap).
Proof.
  intros (Hc & Hl & Hh) Hp. unfold bh_peek_max, elements.
  replace (element_count heap =? 0)%nat with false by lia. split.
  - apply list_elem_of_lookup. exists 0%nat. rewrite lookup_take_lt by lia. apply elem_lookup. lia.
  - apply Forall_lookup_2. intros i y [Hy Hi]%lookup_take_Some. apply (lookup_elem null) in Hy as <-.
    by apply (heap_root (element_count heap)).
Qed.

(** bh_down_heap at the root repairs a heap whose root has been replaced. *)
Lemma down_root_wf heap :
  (element_count heap <= max_capacity heap)%nat -> length (members heap) = max_capacity heap ->
  (forall j, (0 < j < element_count heap)%nat -> BH_PARENT j <> 0%nat ->
     le (elem (members heap) j) (elem (members heap) (BH_PARENT j))) ->
  heap_wf (bh_down_heap null cmp heap 0)
  /\ elements (bh_down_heap null cmp heap 0) ≡ₚ elements heap.
Proof.
  intros Hc Hl Hh.
  destruct (down_heap_spec (element_count heap) (element_count heap) 0 (members heap)) as [H1 H2];
    [lia|lia|by apply heap_down_root|].
  split; [split; [done|]; split; [|done]|].
  - cbn. by rewrite <- (shuffled_length _ _ _ H2).
  - symmetry. apply H2.
Qed.

Lemma sorted_array_spec heap :
  heap_wf heap ->
  StronglySorted le (elements (bh_to_sorted_array null cmp heap))
  /\ elements (bh_to_sorted_array null cmp heap) ≡ₚ elements heap.
Proof.
  intros (Hc & Hl & Hh).
  destruct (extract_all_spec (element_count heap) (members heap)) as [H1 H2]; [lia|done|].
  split; [done|]. symmetry. apply H1.
Qed.
End Heap.

(** ** Properties *)

(** Bh_insert puts the new element among the others, keeps every element
    at most its parent and counts it, when the heap has room; a full heap is
    left as it is with ER_BINARY_HEAP_OUT_OF_RANGE; the element bh_peek_max
    returns afterwards is in the heap and none is larger. *)
Theorem bh_insert_correct {A} (null : A) cmp `{!CmpLaws cmp} heap x :
  heap_wf null cmp heap -> (0 < max_capacity heap)%nat ->
  if bh_is_full heap
  then bh_insert null cmp heap x = (ER_BINARY_HEAP_OUT_OF_RANGE, heap)
  else exists heap', bh_insert null cmp heap x = (NO_ERROR, heap')
         /\ heap_wf null cmp heap'
         /\ elements heap' ≡ₚ x :: elements heap
         /\ bh_peek_max null heap' ∈ x :: elements heap
         /\ Forall (fun y => le cmp y (bh_peek_max null heap')) (x :: elements heap).
Proof.
  intros Hw Hp. unfold bh_is_full. zcase.
  - apply insert_full; lia.
  - destruct (insert_wf null cmp heap x Hw) as (heap' & Hi & Hw' & Hc & Hm & He); [lia|].
    exists heap'. split; [done|]. split; [done|]. split; [done|].
    destruct (peek_max_spec null cmp heap' Hw') as [H1 H2]; [lia|]. rewrite <- He. done.
Qed.

(** A comparison of numbers and a heap of numbers. *)
Definition z_cmp (a b : Z) : BH_CMP_RESULT :=
  match a ?= b with Lt => BH_LT | Eq => BH_EQ | Gt => BH_GT end.

#[export] Instance z_cmp_laws : CmpLaws z_cmp.
Proof.
  split; unfold z_cmp; intros.
  - destruct (Z.compare_spec a b), (Z.compare_spec b a); split; (done || lia).
  - destruct (Z.compare_spec a b), (Z.compare_spec b c), (Z.compare_spec a c); (done || lia).
Qed.

Definition sample_heap : BINARY_HEAP Z := mkHeap 5 4 BH_HEAP_CONSISTENT [9; 7; 8; 1; 0].

Lemma sample_heap_wf : heap_wf 0 z_cmp sample_heap.
Proof.
  repeat split; [cbn; lia|]. intros j Hj. cbn in Hj.
  destruct j as [|[|[|[|j]]]]; try lia; by vm_compute.
Qed.

Lemma bh_insert_correct_witness :
  exists heap', bh_insert 0 z_cmp sample_heap 12 = (NO_ERROR, heap')
                /\ elements heap' ≡ₚ [12; 9; 7; 8; 1].
Proof.
  destruct (bh_insert_correct 0 z_cmp sample_heap 12 sample_heap_wf) as (h & H1 & _ & H2 & _);
    [cbn; lia|]. by exists h.
Defined.

(** Bh_to_sorted_array leaves the elements of the heap in increasing
    order at the beginning of the array. *)
Theorem bh_to_sorted_array_sorts {A} (null : A) cmp `{!CmpLaws cmp} heap :
  heap_wf null cmp heap ->
  element_count (bh_to_sorted_array null cmp heap) = element_count heap
  /\ StronglySorted (le cmp) (elements (bh_to_sorted_array null cmp heap))
  /\ elements (bh_to_sorted_array null cmp heap) ≡ₚ elements heap.
Proof. intros Hw. split; [done|]. by apply sorted_array_spec. Qed.

Lemma bh_to_sorted_array_sorts_witness :
  elements (bh_to_sorted_array 0 z_cmp sample_heap) = [1; 7; 8; 9]
  /\ StronglySorted (le z_cmp) [1; 7; 8; 9].
Proof.
  destruct (bh_to_sorted_array_sorts 0 z_cmp sample_heap sample_heap_wf) as (_ & H & _).
  assert (elements (bh_to_sorted_array 0 z_cmp sample_heap) = [1; 7; 8; 9]) as E by (by vm_compute).
  rewrite E in H. done.
Defined.
