(* ===== verification/LockTable.v ===== *)
(** * Lock modes (src/transaction/lock_table.c)

    The compatibility and conversion tables of the lock manager.  The modes
    form a chain with the conversion as least upper bound, and a mode is
    compatible with a conversion exactly when it is compatible with both
    modes: the manager may test a request against one aggregated mode instead
    of every holder. *)
From Stdlib Require Import ZArith Lia.
From stdpp Require Import base list numbers finite.
From S2P Require Import Prelude.

Inductive LOCK := NA_LOCK | NULL_LOCK | S_LOCK | U_LOCK | X_LOCK.

#[export] Instance LOCK_eq_dec : EqDecision LOCK.
Proof. solve_decision. Defined.

#[export] Program Instance LOCK_finite : Finite LOCK := {
  enum := [NA_LOCK; NULL_LOCK; S_LOCK; U_LOCK; X_LOCK] }.
Next Obligation. by apply (bool_decide_unpack _). Qed.
Next Obligation. intros []; by apply (bool_decide_unpack _). Qed.

(** The number of a mode, which indexes the tables. *)
Definition lock_num (l : LOCK) : nat :=
  match l with NA_LOCK => 0 | NULL_LOCK => 1 | S_LOCK => 2 | U_LOCK => 3 | X_LOCK => 4 end.

(** Entries of lock_Comp: false, true and DB_NA. *)
Inductive COMPAT := INCOMPATIBLE | COMPATIBLE | DB_NA.

#[export] Instance COMPAT_eq_dec : EqDecision COMPAT.
Proof. solve_decision. Defined.

Definition lock_Comp_table : list (list COMPAT) :=
  [ [DB_NA; DB_NA; DB_NA; DB_NA; DB_NA];
    [DB_NA; COMPATIBLE; COMPATIBLE; COMPATIBLE; COMPATIBLE];
    [DB_NA; COMPATIBLE; COMPATIBLE; COMPATIBLE; INCOMPATIBLE];
    [DB_NA; COMPATIBLE; COMPATIBLE; INCOMPATIBLE; INCOMPATIBLE];
    [DB_NA; COMPATIBLE; INCOMPATIBLE; INCOMPATIBLE; INCOMPATIBLE] ].

Definition lock_Conv_table : list (list LOCK) :=
  [ [NA_LOCK; NA_LOCK; NA_LOCK; NA_LOCK; NA_LOCK];
    [NA_LOCK; NULL_LOCK; S_LOCK; U_LOCK; X_LOCK];
    [NA_LOCK; S_LOCK; S_LOCK; U_LOCK; X_LOCK];
    [NA_LOCK; U_LOCK; U_LOCK; U_LOCK; X_LOCK];
    [NA_LOCK; X_LOCK; X_LOCK; X_LOCK; X_LOCK] ].

Definition lock_Comp (request current : LOCK) : COMPAT :=
  nth (lock_num current) (nth (lock_num request) lock_Comp_table []) DB_NA.

Definition lock_Conv (request current : LOCK) : LOCK :=
  nth (lock_num current) (nth (lock_num request) lock_Conv_table []) NA_LOCK.

(** The mode of a group of locks, folded as the lock manager folds it. *)
Definition group_mode (modes : list LOCK) : LOCK :=
  foldl (fun mode l => lock_Conv l mode) NULL_LOCK modes.

Lemma Conv_assoc a b c : lock_Conv a (lock_Conv b c) = lock_Conv (lock_Conv a b) c.
Proof. by destruct a, b, c. Qed.

Lemma Conv_comm a b : lock_Conv a b = lock_Conv b a.
Proof. by destruct a, b. Qed.

Lemma Comp_Conv m a b :
  m <> NA_LOCK -> a <> NA_LOCK -> b <> NA_LOCK ->
  lock_Comp m (lock_Conv a b) = COMPATIBLE
  <-> lock_Comp m a = COMPATIBLE /\ lock_Comp m b = COMPATIBLE.
Proof. destruct m, a, b; cbn; intuition congruence. Qed.

Lemma Conv_NA a b : lock_Conv a b = NA_LOCK <-> a = NA_LOCK \/ b = NA_LOCK.
Proof. destruct a, b; cbn; intuition congruence. Qed.

Lemma group_from modes m :
  m <> NA_LOCK -> Forall (fun l => l <> NA_LOCK) modes ->
  let g := foldl (fun mode l => lock_Conv l mode) m modes in
  g <> NA_LOCK
  /\ forall r, r <> NA_LOCK -> lock_Comp r g = COMPATIBLE
       <-> lock_Comp r m = COMPATIBLE /\ Forall (fun l => lock_Comp r l = COMPATIBLE) modes.
Proof.
  revert m. induction modes as [|l modes IH]; intros m Hm Hl; cbn [foldl].
  { split; [done|]. intros r Hr. rewrite Forall_nil. tauto. }
  apply Forall_cons in Hl as [Hl Hls].
  destruct (IH (lock_Conv l m)) as [H1 H2]; [by rewrite Conv_NA; tauto|done|].
  split; [done|]. intros r Hr. rewrite H2, Forall_cons, Comp_Conv by done. tauto.
Qed.

(** ** Properties *)

(** A request is compatible with the aggregated mode of a group of locks
    exactly when it is compatible with every lock of the group, whatever the
    order in which the modes were converted; the aggregated mode is again a
    lock mode. *)
Theorem group_mode_compatible modes r :
  r <> NA_LOCK -> Forall (fun l => l <> NA_LOCK) modes ->
  group_mode modes <> NA_LOCK
  /\ (lock_Comp r (group_mode modes) = COMPATIBLE
      <-> Forall (fun l => lock_Comp r l = COMPATIBLE) modes).
Proof.
  intros Hr Hl. destruct (group_from modes NULL_LOCK) as [H1 H2]; [done|done|].
  split; [done|]. unfold group_mode. rewrite H2 by done.
  assert (lock_Comp r NULL_LOCK = COMPATIBLE) by (by destruct r). tauto.
Qed.

Lemma group_mode_compatible_witness :
  group_mode [S_LOCK; U_LOCK; S_LOCK] = U_LOCK
  /\ Forall (fun l => lock_Comp S_LOCK l = COMPATIBLE) [S_LOCK; U_LOCK; S_LOCK].
Proof.
  split; [done|].
  by apply (group_mode_compatible [S_LOCK; U_LOCK; S_LOCK] S_LOCK); [|repeat constructor|].
Defined.

(** The tables are consistent: compatibility is symmetric, conversion is
    the least upper bound of the order in which a mode is stronger than the
    modes it converts to itself, and a stronger mode is compatible with fewer
    modes. *)
Theorem lock_tables_consistent a b c :
  lock_Comp a b = lock_Comp b a
  /\ lock_Conv a b = lock_Conv b a
  /\ lock_Conv a (lock_Conv b c) = lock_Conv (lock_Conv a b) c
  /\ lock_Conv a a = a
  /\ (lock_Conv a b = b -> lock_Comp b c = COMPATIBLE -> lock_Comp a c <> INCOMPATIBLE).
Proof. destruct a, b, c; by vm_compute. Qed.
