(* ===== verification/LockManager.v ===== *)
(** * Lock manager (src/transaction/lock_manager.c)

    The object lock table of the server: for every locked value a resource
    with the list of the transactions that hold it and the list of those that
    wait, and for every transaction the list of the values it holds.  Each
    operation runs under the mutex of the resource and is one function here;
    the waits and wakeups of threads between them are the steps of the state
    machine at the end of the file. *)
From Stdlib Require Import ZArith Lia ZifyBool.
From stdpp Require Import base list numbers gmap.
From S2P Require Import Prelude LockTable.

(** ** Data *)

(** [waiting] is LK_IS_LOCKWAIT_THREAD of the thread of the entry: the thread
    is suspended on this lock and nobody has woken it up. *)
Record LK_ENTRY := mkEntry {
  tran_index : Z;
  granted_mode : LOCK;
  blocked_mode : LOCK;
  count : Z;
  waiting : bool }.

Record LK_RES := mkRes {
  total_holders_mode : LOCK;
  total_waiters_mode : LOCK;
  holder : list LK_ENTRY;
  waiter : list LK_ENTRY }.

(** The results of a request; with LK_SUSPENDED the thread waits in
    lock_suspend, with LK_RETRY it waits for another thread of its transaction
    and then starts again. *)
Inductive LK_RESULT :=
| LK_GRANTED
| LK_NOTGRANTED_DUE_TIMEOUT
| LK_NOTGRANTED_DUE_ERROR
| LK_SUSPENDED
| LK_RETRY.

Definition LK_ZERO_WAIT : Z := 0.
Definition LK_INFINITE_WAIT : Z := -1.
Definition LK_FORCE_ZERO_WAIT : Z := -2.

Definition lock_initialize_entry_as_granted (t : Z) (lock : LOCK) : LK_ENTRY :=
  mkEntry t lock NULL_LOCK 1 false.

(** The entry as lock_suspend leaves it: its thread waits. *)
Definition lock_initialize_entry_as_blocked (t : Z) (lock : LOCK) : LK_ENTRY :=
  mkEntry t NULL_LOCK lock 1 true.

Definition set_modes (e : LK_ENTRY) (granted blocked : LOCK) : LK_ENTRY :=
  mkEntry (tran_index e) granted blocked (count e) (waiting e).
Definition set_count (e : LK_ENTRY) (n : Z) : LK_ENTRY :=
  mkEntry (tran_index e) (granted_mode e) (blocked_mode e) n (waiting e).
Definition set_waiting (e : LK_ENTRY) (w : bool) : LK_ENTRY :=
  mkEntry (tran_index e) (granted_mode e) (blocked_mode e) (count e) w.

(** check->granted_mode = check->blocked_mode, check->blocked_mode = NULL_LOCK
    and lock_resume (check, LOCK_RESUMED). *)
Definition grant (e : LK_ENTRY) : LK_ENTRY :=
  set_waiting (set_modes e (blocked_mode e) NULL_LOCK) false.

(** ** Lists of entries *)

Definition is_blocked (e : LK_ENTRY) : bool := negb (bool_decide (blocked_mode e = NULL_LOCK)).

(** The entry of a transaction, in the order of the list. *)
Fixpoint find_entry (t : Z) (l : list LK_ENTRY) : option LK_ENTRY :=
  match l with
  | [] => None
  | e :: l => if tran_index e =? t then Some e else find_entry t l
  end.

Fixpoint update_entry (t : Z) (f : LK_ENTRY -> LK_ENTRY) (l : list LK_ENTRY) : list LK_ENTRY :=
  match l with
  | [] => []
  | e :: l => if tran_index e =? t then f e :: l else e :: update_entry t f l
  end.

Fixpoint remove_entry (t : Z) (l : list LK_ENTRY) : list LK_ENTRY :=
  match l with
  | [] => []
  | e :: l => if tran_index e =? t then l else e :: remove_entry t l
  end.

(** The entries before and after the one of a transaction. *)
Fixpoint split_entry (t : Z) (l : list LK_ENTRY) : list LK_ENTRY * list LK_ENTRY :=
  match l with
  | [] => ([], [])
  | e :: l =>
      if tran_index e =? t then ([], l)
      else let '(pre, post) := split_entry t l in (e :: pre, post)
  end.

(** The modes the loops over a list fold with lock_Conv. *)
Definition granted_of (l : list LK_ENTRY) : LOCK :=
  foldl (fun mode i => lock_Conv (granted_mode i) mode) NULL_LOCK l.

Definition blocked_of (l : list LK_ENTRY) : LOCK :=
  foldl (fun mode i => lock_Conv (blocked_mode i) mode) NULL_LOCK l.

Definition total_of (l : list LK_ENTRY) : LOCK :=
  foldl (fun mode i => lock_Conv (blocked_mode i) (lock_Conv (granted_mode i) mode)) NULL_LOCK l.

(** The tests [compat == true] and [compat == false] of the source: the third
    value of the table, DB_NA, is only found for the mode NA_LOCK, which the
    assertions of the source exclude and no reachable state has. *)
Definition compatible (request current : LOCK) : bool :=
  bool_decide (lock_Comp request current = COMPATIBLE).

(** ** lock_position_holder_entry *)

(** The entry goes before the first one for which [P] holds. *)
Fixpoint insert_before (P : LK_ENTRY -> bool) (e : LK_ENTRY) (l : list LK_ENTRY) : list LK_ENTRY :=
  match l with
  | [] => [e]
  | i :: l => if P i then e :: i :: l else i :: insert_before P e l
  end.

(** The tests of the Upgrader Positioning Rule: ta, tb and tc. *)
Definition upr_a (e i : LK_ENTRY) : bool :=
  is_blocked i && compatible (blocked_mode e) (blocked_mode i).
Definition upr_b (e i : LK_ENTRY) : bool :=
  is_blocked i && compatible (blocked_mode e) (granted_mode i)
  && negb (compatible (blocked_mode i) (granted_mode e)).
Definition upr_c (i : LK_ENTRY) : bool := negb (is_blocked i).

Definition lock_position_holder_entry (hs : list LK_ENTRY) (e : LK_ENTRY) : list LK_ENTRY :=
  if negb (is_blocked e) then insert_before upr_c e hs
  else if existsb (upr_a e) hs then insert_before (upr_a e) e hs
  else if existsb (upr_b e) hs then insert_before (upr_b e) e hs
  else insert_before upr_c e hs.

(** ** Granting *)

(** The entry goes behind the blocked entries that follow it. *)
Definition reposition (e : LK_ENTRY) (l : list LK_ENTRY) : list LK_ENTRY := insert_before upr_c e l.

(** The loop of lock_grant_blocked_holder: [pre] are the entries up to
    prev_check, which were passed over because their thread was not waiting
    any more, and the list starts at check. *)
Fixpoint grant_holders (fuel : nat) (pre l : list LK_ENTRY) : list LK_ENTRY :=
  match fuel, l with
  | S fuel, check :: rest =>
      if negb (is_blocked check) then pre ++ l
      else if negb (compatible (blocked_mode check) (granted_of rest)) then pre ++ l
      else if waiting check then grant_holders fuel pre (reposition (grant check) rest)
      else grant_holders fuel (pre ++ [check]) rest
  | _, _ => pre ++ l
  end.

(** Every iteration passes over or grants one of the blocked entries. *)
Definition lock_grant_blocked_holder (r : LK_RES) : LK_RES :=
  mkRes (total_holders_mode r) (total_waiters_mode r)
    (grant_holders (S (length (holder r))) [] (holder r)) (waiter r).

Section Table.
Context {K : Type} `{Countable K}.

Notation HOLD := (gmap Z (list K)).

Definition hold_of (hold : HOLD) (t : Z) : list K := default [] (hold !! t).

(** tran_lock->inst_hold_list, newest first. *)
Definition lock_insert_into_tran_hold_list (hold : HOLD) (t : Z) (k : K) : HOLD :=
  <[t := k :: hold_of hold t]> hold.

Definition lock_delete_from_tran_hold_list (hold : HOLD) (t : Z) (k : K) : HOLD :=
  <[t := filter (fun k' => k' <> k) (hold_of hold t)]> hold.

(** A waiter becomes a holder. *)
Definition promote (k : K) (r : LK_RES) (hold : HOLD) (check : LK_ENTRY) : LK_RES * HOLD :=
  (mkRes (lock_Conv (blocked_mode check) (total_holders_mode r)) (total_waiters_mode r)
     (lock_position_holder_entry (holder r) (grant check)) (waiter r),
   lock_insert_into_tran_hold_list hold (tran_index check) k).

(** The loop of lock_grant_blocked_waiter; [pre] are the waiters passed over.
    The result has the waiters that remain and whether one was granted. *)
Fixpoint grant_waiters (k : K) (r : LK_RES) (hold : HOLD) (pre l : list LK_ENTRY) (changed : bool)
    : LK_RES * HOLD * list LK_ENTRY * bool :=
  match l with
  | [] => (r, hold, pre, changed)
  | check :: rest =>
      if negb (compatible (blocked_mode check) (total_holders_mode r))
      then (r, hold, pre ++ l, changed)
      else if waiting check then
        let '(r, hold) := promote k r hold check in
        grant_waiters k r hold pre rest true
      else grant_waiters k r hold (pre ++ [check]) rest changed
  end.

Definition lock_grant_blocked_waiter (k : K) (r : LK_RES) (hold : HOLD) : LK_RES * HOLD :=
  let '(r', hold, ws, changed) := grant_waiters k r hold [] (waiter r) false in
  (mkRes (total_holders_mode r')
     (if changed : bool then blocked_of ws else total_waiters_mode r') (holder r') ws,
   hold).

(** The second loop of lock_grant_blocked_waiter_partial; [mode] is the mode
    of the waiters before check. *)
Fixpoint grant_partial (k : K) (r : LK_RES) (hold : HOLD) (mode : LOCK) (pre l : list LK_ENTRY)
    : LK_RES * HOLD :=
  match l with
  | [] => (mkRes (total_holders_mode r) mode (holder r) pre, hold)
  | check :: rest =>
      if negb (compatible (blocked_mode check) mode)
      then (mkRes (total_holders_mode r) (blocked_of (pre ++ l)) (holder r) (pre ++ l), hold)
      else if negb (compatible (blocked_mode check) (total_holders_mode r))
      then grant_partial k r hold (lock_Conv (blocked_mode check) mode) (pre ++ [check]) rest
      else if waiting check then
        let '(r, hold) := promote k r hold check in
        grant_partial k r hold mode pre rest
      else grant_partial k r hold (lock_Conv (blocked_mode check) mode) (pre ++ [check]) rest
  end.

(** [pre] are the waiters before from_whom and [l] those from it on. *)
Definition lock_grant_blocked_waiter_partial (k : K) (r : LK_RES) (hold : HOLD)
    (pre l : list LK_ENTRY) : LK_RES * HOLD :=
  grant_partial k r hold (blocked_of pre) pre l.

(** ** Requests *)

Record LK_GLOBAL := mkGlobal {
  obj_hash_table : gmap K LK_RES;
  inst_hold_list : HOLD }.

Definition zero_wait (wait_msecs : Z) : bool :=
  (wait_msecs =? LK_ZERO_WAIT) || (wait_msecs =? LK_FORCE_ZERO_WAIT).

(** A request of a transaction that is not among the holders.  [ok] tells
    whether lock_alloc_entry succeeds. *)
Definition lock_new_request (ok : bool) (t : Z) (k : K) (lock : LOCK) (wait_msecs : Z)
    (r : LK_RES) (hold : HOLD) : LK_RESULT * LK_RES * HOLD :=
  let compat := compatible lock (total_holders_mode r) in
  let compat := if negb compat then compatible lock (granted_of (holder r)) else compat in
  if compat : bool then
    if negb ok then (LK_NOTGRANTED_DUE_ERROR, r, hold)
    else
      (LK_GRANTED,
       mkRes (lock_Conv lock (total_holders_mode r)) (total_waiters_mode r)
         (lock_position_holder_entry (holder r) (lock_initialize_entry_as_granted t lock))
         (waiter r),
       lock_insert_into_tran_hold_list hold t k)
  else if zero_wait wait_msecs then
    if (wait_msecs =? LK_ZERO_WAIT) && negb ok then (LK_NOTGRANTED_DUE_ERROR, r, hold)
    else (LK_NOTGRANTED_DUE_TIMEOUT, r, hold)
  else
    match find_entry t (waiter r) with
    | Some _ => (LK_RETRY, r, hold)
    | None =>
        if negb ok then (LK_NOTGRANTED_DUE_ERROR, r, hold)
        else
          (LK_SUSPENDED,
           mkRes (total_holders_mode r) (lock_Conv lock (total_waiters_mode r)) (holder r)
             (waiter r ++ [lock_initialize_entry_as_blocked t lock]),
           hold)
    end.

(** A request of a holder, whose entry is [e]. *)
Definition lock_conversion (t : Z) (lock : LOCK) (wait_msecs : Z) (e : LK_ENTRY) (r : LK_RES)
    : LK_RESULT * LK_RES :=
  let new_mode := lock_Conv lock (granted_mode e) in
  if decide (new_mode = granted_mode e) then
    (LK_GRANTED,
     mkRes (total_holders_mode r) (total_waiters_mode r)
       (update_entry t (fun e => set_count e (count e + 1)) (holder r)) (waiter r))
  else if compatible new_mode (granted_of (remove_entry t (holder r))) then
    (LK_GRANTED,
     mkRes (lock_Conv lock (total_holders_mode r)) (total_waiters_mode r)
       (update_entry t (fun e => set_count (set_modes e new_mode (blocked_mode e)) (count e + 1))
          (holder r))
       (waiter r))
  else if zero_wait wait_msecs then (LK_NOTGRANTED_DUE_TIMEOUT, r)
  else if is_blocked e then (LK_RETRY, r)
  else
    let e := set_waiting (set_count (set_modes e (granted_mode e) new_mode) (count e + 1)) true in
    (LK_SUSPENDED,
     mkRes (lock_Conv lock (total_holders_mode r)) (total_waiters_mode r)
       (lock_position_holder_entry (remove_entry t (holder r)) e) (waiter r)).

(** [ok_res] and [ok] tell whether the resource and the entry can be
    allocated. *)
Definition lock_internal_perform_lock_object (ok_res ok : bool) (t : Z) (k : K) (lock : LOCK)
    (wait_msecs : Z) (g : LK_GLOBAL) : LK_RESULT * LK_GLOBAL :=
  match obj_hash_table g !! k with
  | None =>
      if negb ok_res || negb ok then (LK_NOTGRANTED_DUE_ERROR, g)
      else
        (LK_GRANTED,
         mkGlobal
           (<[k := mkRes lock NULL_LOCK [lock_initialize_entry_as_granted t lock] []]>
              (obj_hash_table g))
           (lock_insert_into_tran_hold_list (inst_hold_list g) t k))
  | Some r =>
      match find_entry t (holder r) with
      | None =>
          let '(res, r, hold) := lock_new_request ok t k lock wait_msecs r (inst_hold_list g) in
          (res, mkGlobal (<[k := r]> (obj_hash_table g)) hold)
      | Some e =>
          let '(res, r) := lock_conversion t lock wait_msecs e r in
          (res, mkGlobal (<[k := r]> (obj_hash_table g)) (inst_hold_list g))
      end
  end.

Definition lock_object (ok_res ok : bool) (t : Z) (k : K) (lock : LOCK) (wait_msecs : Z)
    (g : LK_GLOBAL) : LK_RESULT * LK_GLOBAL :=
  if decide (lock = NULL_LOCK) then (LK_GRANTED, g)
  else lock_internal_perform_lock_object ok_res ok t k lock wait_msecs g.

(** ** Releases *)

(** The entry of a transaction among the waiters goes away. *)
Definition unlock_waiter (t : Z) (k : K) (r : LK_RES) (hold : HOLD) : LK_RES * HOLD :=
  let '(pre, post) := split_entry t (waiter r) in
  match post with
  | [] => (mkRes (total_holders_mode r) (blocked_of pre) (holder r) pre, hold)
  | _ => lock_grant_blocked_waiter_partial k r hold pre post
  end.

(** The holders after the entry [e], whose count has been decremented, was
    taken out, or put back without its blocked request. *)
Definition unlock_holder (release : bool) (t : Z) (k : K) (e : LK_ENTRY) (r : LK_RES) (hold : HOLD)
    : LK_RES * HOLD :=
  let hs := remove_entry t (holder r) in
  let '(hs, hold) :=
    if negb release && (count e >? 0)
    then (lock_position_holder_entry hs (set_modes e (granted_mode e) NULL_LOCK), hold)
    else (hs, lock_delete_from_tran_hold_list hold t k) in
  (mkRes (total_of hs) (total_waiters_mode r) hs (waiter r), hold).

(** The end of the function for a holder.  [quiet] tells whether
    lock_dealloc_resource gets the mutexes and removes the empty resource. *)
Definition unlock_grant (quiet : bool) (k : K) (r : LK_RES) (g : LK_GLOBAL) (hold : HOLD)
    : LK_GLOBAL :=
  match holder r, waiter r with
  | [], [] =>
      mkGlobal
        (if quiet then delete k (obj_hash_table g) else <[k := r]> (obj_hash_table g)) hold
  | _, _ =>
      let '(r, hold) := lock_grant_blocked_waiter k (lock_grant_blocked_holder r) hold in
      mkGlobal (<[k := r]> (obj_hash_table g)) hold
  end.

(** The entry pointer of the argument is the entry of transaction [t] for the
    value [k]. *)
Definition lock_internal_perform_unlock_object (quiet : bool) (t : Z) (k : K) (release : bool)
    (g : LK_GLOBAL) : LK_GLOBAL :=
  match obj_hash_table g !! k with
  | None => g
  | Some r =>
      match find_entry t (holder r) with
      | Some e =>
          let e := if release then e else set_count e (count e - 1) in
          if negb release && negb (is_blocked e) && (count e >? 0)
          then mkGlobal
                 (<[k := mkRes (total_holders_mode r) (total_waiters_mode r)
                           (update_entry t (fun _ => e) (holder r)) (waiter r)]>
                    (obj_hash_table g))
                 (inst_hold_list g)
          else
            let '(r, hold) := unlock_holder release t k e r (inst_hold_list g) in
            unlock_grant quiet k r g hold
      | None =>
          match find_entry t (waiter r) with
          | Some _ =>
              let '(r, hold) := unlock_waiter t k r (inst_hold_list g) in
              mkGlobal (<[k := r]> (obj_hash_table g)) hold
          | None => g
          end
      end
  end.

(** Whether a transaction is among the holders of a value. *)
Definition lock_find_tran_hold_entry (t : Z) (k : K) (g : LK_GLOBAL) : option LK_ENTRY :=
  r ← obj_hash_table g !! k; find_entry t (holder r).

Definition lock_unlock_object (quiet : bool) (t : Z) (k : K) (force : bool) (g : LK_GLOBAL)
    : LK_GLOBAL :=
  match lock_find_tran_hold_entry t k g with
  | Some _ => lock_internal_perform_unlock_object quiet t k force g
  | None => g
  end.

(** The loop of lock_unlock_all. *)
Fixpoint unlock_all (fuel : nat) (quiet : bool) (t : Z) (g : LK_GLOBAL) : LK_GLOBAL :=
  match fuel, hold_of (inst_hold_list g) t with
  | S fuel, k :: _ =>
      unlock_all fuel quiet t (lock_internal_perform_unlock_object quiet t k true g)
  | _, _ => g
  end.

Definition lock_unlock_all (quiet : bool) (t : Z) (g : LK_GLOBAL) : LK_GLOBAL :=
  unlock_all (length (hold_of (inst_hold_list g) t)) quiet t g.

Definition lock_get_current_lock (t : Z) (k : K) (g : LK_GLOBAL) : LOCK :=
  if decide (k ∈ hold_of (inst_hold_list g) t) then
    match lock_find_tran_hold_entry t k g with
    | Some e => granted_mode e
    | None => NULL_LOCK
    end
  else NULL_LOCK.

(** ** The state machine *)

(** lock_resume by a timeout, a deadlock or an interrupt: the thread of the
    blocked entry of [t] will run again, but its entry is still there. *)
Definition lock_wakeup (t : Z) (k : K) (g : LK_GLOBAL) : LK_GLOBAL :=
  match obj_hash_table g !! k with
  | None => g
  | Some r =>
      let f e := if is_blocked e then set_waiting e false else e in
      mkGlobal
        (<[k := mkRes (total_holders_mode r) (total_waiters_mode r) (update_entry t f (holder r))
                  (update_entry t f (waiter r))]> (obj_hash_table g))
        (inst_hold_list g)
  end.

Definition entry_of (t : Z) (k : K) (g : LK_GLOBAL) : option LK_ENTRY :=
  r ← obj_hash_table g !! k; find_entry t (holder r ++ waiter r).

(** A transaction runs in one thread: it asks for nothing and releases nothing
    while it is suspended on a lock. *)
Definition runnable (t : Z) (g : LK_GLOBAL) : Prop :=
  forall k e, entry_of t k g = Some e -> is_blocked e = false.

(** What happens to the lock table: requests, releases by the owner, wakeups
    of suspended threads, and the removal of its entry by a thread that was
    woken up without the lock. *)
Inductive lk_step : LK_GLOBAL -> LK_GLOBAL -> Prop :=
| step_lock ok_res ok t k lock wait g :
    runnable t g -> lock <> NA_LOCK ->
    lk_step g (lock_object ok_res ok t k lock wait g).2
| step_unlock quiet t k force g :
    runnable t g ->
    lk_step g (lock_unlock_object quiet t k force g)
| step_unlock_all quiet t g :
    runnable t g ->
    lk_step g (lock_unlock_all quiet t g)
| step_wakeup t k g :
    lk_step g (lock_wakeup t k g)
| step_give_up quiet t k g e :
    entry_of t k g = Some e -> is_blocked e = true -> waiting e = false ->
    lk_step g (lock_internal_perform_unlock_object quiet t k false g).

(** The same steps when a woken thread removes its entry before any other
    operation on the table. *)
Inductive lk_step_prompt : LK_GLOBAL -> LK_GLOBAL -> Prop :=
| prompt_lock ok_res ok t k lock wait g :
    runnable t g -> lock <> NA_LOCK ->
    lk_step_prompt g (lock_object ok_res ok t k lock wait g).2
| prompt_unlock quiet t k force g :
    runnable t g ->
    lk_step_prompt g (lock_unlock_object quiet t k force g)
| prompt_unlock_all quiet t g :
    runnable t g ->
    lk_step_prompt g (lock_unlock_all quiet t g)
| prompt_give_up quiet t k g e :
    entry_of t k g = Some e -> is_blocked e = true ->
    lk_step_prompt g
      (lock_internal_perform_unlock_object quiet t k false (lock_wakeup t k g)).

Definition lock_initialize : LK_GLOBAL := mkGlobal ∅ ∅.
End Table.

Arguments LK_GLOBAL K {_ _}.
