(* ===== verification/LockManagerInv.v ===== *)
(** * Invariants of the lock manager

    Lists of holders up to order, the order of lock modes, and the invariants
    of a lock resource with their preservation by every operation on it. *)
From Stdlib Require Import ZArith Lia ZifyBool Sorting.Sorted.
From stdpp Require Import base list numbers gmap.
From S2P Require Import Prelude LockTable LockManager.

(** ** Order of modes *)

(** A mode that conversion with [b] leaves at [b]. *)
Definition mode_le (a b : LOCK) : Prop := lock_Conv a b = b.

#[export] Instance mode_le_dec a b : Decision (mode_le a b).
Proof. unfold mode_le. apply _. Defined.

Lemma mode_le_refl a : mode_le a a.
Proof. by destruct a. Qed.

Lemma mode_le_trans a b c : mode_le a b -> mode_le b c -> mode_le a c.
Proof. unfold mode_le. destruct a, b, c; cbn; congruence. Qed.

Lemma Conv_ub_l a b : a <> NA_LOCK -> b <> NA_LOCK -> mode_le a (lock_Conv a b).
Proof. unfold mode_le. destruct a, b; cbn; congruence. Qed.

Lemma Conv_ub_r a b : a <> NA_LOCK -> b <> NA_LOCK -> mode_le b (lock_Conv a b).
Proof. unfold mode_le. destruct a, b; cbn; congruence. Qed.

Lemma Conv_ok a b : a <> NA_LOCK -> b <> NA_LOCK -> lock_Conv a b <> NA_LOCK.
Proof. intros Ha Hb. rewrite Conv_NA. tauto. Qed.

Lemma NULL_ok : NULL_LOCK <> NA_LOCK.
Proof. done. Qed.

Lemma NULL_le m : m <> NA_LOCK -> mode_le NULL_LOCK m.
Proof. unfold mode_le. by destruct m. Qed.

#[export] Hint Resolve mode_le_refl Conv_ub_l Conv_ub_r Conv_ok NULL_ok NULL_le : rye.

Lemma mode_le_Conv_r a b c : a <> NA_LOCK -> c <> NA_LOCK -> mode_le b c -> mode_le b (lock_Conv a c).
Proof. unfold mode_le. destruct a, b, c; cbn; congruence. Qed.

Lemma Conv_lub a b c : mode_le a c -> mode_le b c -> mode_le (lock_Conv a b) c.
Proof. unfold mode_le. destruct a, b, c; cbn; congruence. Qed.

Lemma compatible_spec a b : compatible a b = true <-> lock_Comp a b = COMPATIBLE.
Proof. unfold compatible. by rewrite bool_decide_eq_true. Qed.

Lemma Comp_sym a b : lock_Comp a b = lock_Comp b a.
Proof. by destruct a, b. Qed.

(** What a mode is compatible with, the weaker modes are compatible with. *)
Lemma Comp_le a b c :
  a <> NA_LOCK -> mode_le a b -> lock_Comp c b = COMPATIBLE -> lock_Comp c a = COMPATIBLE.
Proof. unfold mode_le. destruct a, b, c; cbn; congruence. Qed.

Arguments lock_Conv : simpl never.
Arguments lock_Comp : simpl never.

(** ** Lists of entries *)

Implicit Types e i : LK_ENTRY.
Implicit Types l hs : list LK_ENTRY.

Lemma is_blocked_false e : is_blocked e = false <-> blocked_mode e = NULL_LOCK.
Proof. unfold is_blocked. rewrite negb_false_iff. apply bool_decide_eq_true. Qed.

Lemma insert_before_perm P e l : insert_before P e l ≡ₚ e :: l.
Proof.
  induction l as [|i l IH]; cbn; [done|]. destruct (P i); [done|].
  rewrite IH. apply Permutation_swap.
Qed.

Lemma position_perm hs e : lock_position_holder_entry hs e ≡ₚ e :: hs.
Proof. unfold lock_position_holder_entry. repeat zcase; apply insert_before_perm. Qed.

Lemma find_entry_Some t l e :
  find_entry t l = Some e -> tran_index e = t /\ l ≡ₚ e :: remove_entry t l.
Proof.
  induction l as [|i l IH]; cbn; [done|]. destruct (tran_index i =? t) eqn:E.
  - intros [= ->]. split; [lia|done].
  - intros [H1 H2]%IH. split; [done|]. rewrite H2 at 1. apply Permutation_swap.
Qed.

Lemma find_entry_None t l : find_entry t l = None <-> t ∉ tran_index <$> l.
Proof.
  induction l as [|i l IH]; cbn; [split; [intros _ H; by apply elem_of_nil in H|done]|].
  rewrite not_elem_of_cons. destruct (tran_index i =? t) eqn:E.
  - split; [done|]. intros [? _]. lia.
  - rewrite IH. split; [intros H; split; [lia|done]|tauto].
Qed.

Lemma find_entry_in t l : t ∈ tran_index <$> l -> exists e, find_entry t l = Some e.
Proof.
  intros H. destruct (find_entry t l) as [e|] eqn:E; [by exists e|].
  by apply find_entry_None in E.
Qed.

Lemma update_entry_perm t f l e :
  find_entry t l = Some e -> update_entry t f l ≡ₚ f e :: remove_entry t l.
Proof.
  induction l as [|i l IH]; cbn; [done|]. destruct (tran_index i =? t).
  - by intros [= ->].
  - intros ->%IH. apply Permutation_swap.
Qed.

Lemma update_entry_None t f l : find_entry t l = None -> update_entry t f l = l.
Proof.
  induction l as [|i l IH]; cbn; [done|]. destruct (tran_index i =? t); [done|].
  by intros ->%IH.
Qed.

Lemma split_entry_app t l : (split_entry t l).1 ++ (split_entry t l).2 = remove_entry t l.
Proof.
  induction l as [|i l IH]; cbn; [done|]. destruct (tran_index i =? t); [done|].
  destruct (split_entry t l) as [pre post]. cbn in *. by rewrite IH.
Qed.

(** ** Folded modes *)

Lemma granted_of_modes l : granted_of l = group_mode (granted_mode <$> l).
Proof. unfold granted_of, group_mode. generalize NULL_LOCK. induction l; intros m; [done|apply IHl]. Qed.

Lemma blocked_of_modes l : blocked_of l = group_mode (blocked_mode <$> l).
Proof. unfold blocked_of, group_mode. generalize NULL_LOCK. induction l; intros m; [done|apply IHl]. Qed.

(** Entries have proper modes. *)
Definition entry_ok (e : LK_ENTRY) : Prop := granted_mode e <> NA_LOCK /\ blocked_mode e <> NA_LOCK.

Lemma granted_of_ok l : Forall entry_ok l -> granted_of l <> NA_LOCK.
Proof.
  intros H. rewrite granted_of_modes. apply (group_from _ NULL_LOCK); [done|].
  apply Forall_fmap. eapply Forall_impl; [exact H|]. by intros ? [? _].
Qed.

(** A request is compatible with the folded mode of a list exactly when it is
    with every entry. *)
Lemma granted_of_compatible l r :
  r <> NA_LOCK -> Forall entry_ok l ->
  compatible r (granted_of l) = true <-> Forall (fun e => lock_Comp r (granted_mode e) = COMPATIBLE) l.
Proof.
  intros Hr Hl. rewrite compatible_spec, granted_of_modes. unfold group_mode.
  destruct (group_from (granted_mode <$> l) NULL_LOCK) as [_ Hg]; [done| |].
  { apply Forall_fmap. eapply Forall_impl; [exact Hl|]. by intros ? [? _]. }
  rewrite Hg by done. rewrite Forall_fmap.
  assert (lock_Comp r NULL_LOCK = COMPATIBLE) by (by destruct r). unfold compose. tauto.
Qed.

Lemma total_from l m :
  m <> NA_LOCK -> Forall entry_ok l ->
  let g := foldl (fun mode i => lock_Conv (blocked_mode i) (lock_Conv (granted_mode i) mode)) m l in
  g <> NA_LOCK /\ mode_le m g
  /\ Forall (fun e => mode_le (granted_mode e) g /\ mode_le (blocked_mode e) g) l.
Proof.
  revert m. induction l as [|e l IH]; intros m Hm Hl; cbn [foldl].
  { split; [done|]. split; [apply mode_le_refl|constructor]. }
  apply Forall_cons in Hl as [[Hg Hb] Hl].
  destruct (IH (lock_Conv (blocked_mode e) (lock_Conv (granted_mode e) m))) as (H1 & H2 & H3);
    [auto with rye|done|].
  split; [done|]. split.
  - eapply mode_le_trans; [|exact H2]. apply mode_le_Conv_r; auto with rye.
  - constructor; [|done]. split; (eapply mode_le_trans; [|exact H2]); auto with rye.
    apply mode_le_Conv_r; auto with rye.
Qed.

(** ** Invariant of a resource *)

(** The mode [m] bounds what a holder holds and asks for. *)
Definition holder_ok (m : LOCK) (e : LK_ENTRY) : Prop :=
  entry_ok e /\ granted_mode e <> NULL_LOCK
  /\ mode_le (granted_mode e) m /\ mode_le (blocked_mode e) m.

Definition waiter_ok (e : LK_ENTRY) : Prop :=
  granted_mode e = NULL_LOCK /\ blocked_mode e <> NULL_LOCK /\ blocked_mode e <> NA_LOCK.

(** Two different holders have compatible modes. *)
Definition entries_compatible (e i : LK_ENTRY) : Prop :=
  lock_Comp (granted_mode e) (granted_mode i) = COMPATIBLE.

(** A blocked holder is still suspended. *)
Definition prompt (e : LK_ENTRY) : Prop := is_blocked e = true -> waiting e = true.

Notation trans l := (tran_index <$> l).

Section Resource.
Context {K : Type} `{Countable K}.
Notation HOLD := (gmap Z (list K)).
Implicit Types hold : HOLD.

(** Holders [hs] and waiters [ws] of the value [k] with total mode [m] and
    hold lists [hold].  The relation [b] says who holds the other values; the
    compatibility of the holders is part of the invariant under the condition
    [c]. *)
Record resource_ok (c : Prop) (b : Z -> K -> Prop) (k : K) (m : LOCK) (hs ws : list LK_ENTRY)
    (hold : HOLD) : Prop := {
  ok_trans : NoDup (trans (hs ++ ws));
  ok_holders : Forall (holder_ok m) hs;
  ok_waiters : Forall waiter_ok ws;
  ok_total : m <> NA_LOCK;
  ok_nodup : forall t, NoDup (hold_of hold t);
  ok_held : forall t, k ∈ hold_of hold t <-> t ∈ trans hs;
  ok_others : forall t k', k' <> k -> k' ∈ hold_of hold t <-> b t k';
  ok_compat : c -> StronglySorted entries_compatible hs;
  ok_prompt : c -> Forall prompt hs }.

Lemma compat_perm l l' :
  l ≡ₚ l' -> StronglySorted entries_compatible l -> StronglySorted entries_compatible l'.
Proof. apply StronglySorted_sym_perm. intros e i. unfold entries_compatible. by rewrite Comp_sym. Qed.

Lemma compat_cons e l :
  StronglySorted entries_compatible (e :: l)
  <-> Forall (fun i => lock_Comp (granted_mode e) (granted_mode i) = COMPATIBLE) l
      /\ StronglySorted entries_compatible l.
Proof.
  split; [intros [H1 H2]%StronglySorted_inv; done|]. intros [H1 H2]. by constructor.
Qed.

(** The order of the lists is irrelevant. *)
#[export] Instance resource_ok_perm c b k m :
  Proper ((≡ₚ) ==> (≡ₚ) ==> (=) ==> impl) (resource_ok c b k m).
Proof.
  intros hs hs' Hh ws ws' Hw hold ? <- [].
  split; try done.
  - by rewrite <- Hh, <- Hw.
  - by rewrite <- Hh.
  - by rewrite <- Hw.
  - intros t. by rewrite <- Hh.
  - intros Hc. eapply compat_perm; eauto.
  - intros Hc. rewrite <- Hh. auto.
Qed.

Lemma resource_mono c b k m m' hs ws hold :
  mode_le m m' -> m' <> NA_LOCK -> resource_ok c b k m hs ws hold -> resource_ok c b k m' hs ws hold.
Proof.
  intros Hle Hm []. split; try done. eapply Forall_impl; [eassumption|].
  intros e (H1 & H2 & H3 & H4).
  split; [done|]. split; [done|]. split; by eapply mode_le_trans.
Qed.

(** The total mode may be computed anew. *)
Lemma resource_total c b k m hs ws hold :
  resource_ok c b k m hs ws hold -> resource_ok c b k (total_of hs) hs ws hold.
Proof.
  intros []. assert (Forall entry_ok hs) as He.
  { eapply Forall_impl; [eassumption|]. by intros e [? _]. }
  destruct (total_from hs NULL_LOCK) as (H1 & _ & H3); [done|done|]. split; try done.
  apply Forall_forall. intros e Hin. rewrite Forall_forall in *.
  destruct (ok_holders0 e Hin) as (? & ? & _). destruct (H3 e Hin). done.
Qed.

(** An entry of a holder changes. *)
Lemma resource_change c b k m e e' hs ws hold :
  resource_ok c b k m (e :: hs) ws hold -> tran_index e' = tran_index e -> holder_ok m e' ->
  (c -> Forall (fun i => lock_Comp (granted_mode e') (granted_mode i) = COMPATIBLE) hs) ->
  (c -> prompt e') ->
  resource_ok c b k m (e' :: hs) ws hold.
Proof.
  intros [] Ht Hok Hc Hp. apply Forall_cons in ok_holders0 as [_ ?].
  split; try done; cbn in *; rewrite ?Ht; try done.
  - by constructor.
  - intros Hcc. rewrite compat_cons. destruct (proj1 (compat_cons _ _) (ok_compat0 Hcc)). auto.
  - intros Hcc. constructor; [auto|]. by apply ok_prompt0, Forall_cons in Hcc as [_ ?].
Qed.

Lemma hold_insert hold t k t' :
  hold_of (lock_insert_into_tran_hold_list hold t k) t'
  = if decide (t' = t) then k :: hold_of hold t else hold_of hold t'.
Proof.
  unfold lock_insert_into_tran_hold_list, hold_of at 1. destruct (decide (t' = t)) as [->|].
  - by rewrite lookup_insert_eq.
  - by rewrite lookup_insert_ne.
Qed.

Lemma hold_delete hold t k t' :
  hold_of (lock_delete_from_tran_hold_list hold t k) t'
  = if decide (t' = t) then filter (fun k' => k' <> k) (hold_of hold t) else hold_of hold t'.
Proof.
  unfold lock_delete_from_tran_hold_list, hold_of at 1. destruct (decide (t' = t)) as [->|].
  - by rewrite lookup_insert_eq.
  - by rewrite lookup_insert_ne.
Qed.

(** A new holder. *)
Lemma resource_add c b k m e hs ws hold :
  resource_ok c b k m hs ws hold -> tran_index e ∉ trans (hs ++ ws) -> holder_ok m e ->
  (c -> Forall (fun i => lock_Comp (granted_mode e) (granted_mode i) = COMPATIBLE) hs) ->
  (c -> prompt e) ->
  resource_ok c b k m (e :: hs) ws (lock_insert_into_tran_hold_list hold (tran_index e) k).
Proof.
  intros [] Ht Hok Hc Hp. split; try done.
  - cbn. by constructor.
  - by constructor.
  - intros t. rewrite hold_insert. destruct (decide _) as [->|]; [|done].
    constructor; [|done]. rewrite ok_held0. contradict Ht. rewrite fmap_app, elem_of_app. by left.
  - intros t. rewrite hold_insert. cbn. rewrite elem_of_cons, <- ok_held0.
    destruct (decide (t = tran_index e)) as [->|]; [|tauto]. rewrite elem_of_cons. tauto.
  - intros t k' Hk. rewrite hold_insert, <- ok_others0 by done.
    destruct (decide (t = tran_index e)) as [->|]; [|done]. rewrite elem_of_cons. tauto.
  - intros Hcc. rewrite compat_cons. auto.
  - intros Hcc. constructor; auto.
Qed.

Lemma resource_drop_holder c b k m e hs ws hold :
  resource_ok c b k m (e :: hs) ws hold ->
  resource_ok c b k m hs ws (lock_delete_from_tran_hold_list hold (tran_index e) k).
Proof.
  intros []. cbn in *. apply NoDup_cons in ok_trans0 as [Hn ?].
  apply Forall_cons in ok_holders0 as [_ ?]. split; try done.
  - intros t. rewrite hold_delete. destruct (decide _); [by apply NoDup_filter|done].
  - intros t. specialize (ok_held0 t). rewrite elem_of_cons in ok_held0. rewrite hold_delete.
    destruct (decide (t = tran_index e)) as [->|]; [|rewrite ok_held0; tauto].
    rewrite list_elem_of_filter. split; [by intros [? _]|]. intros Hin. contradict Hn.
    rewrite fmap_app, elem_of_app. by left.
  - intros t k' Hk. rewrite <- ok_others0 by done. rewrite hold_delete.
    destruct (decide (t = tran_index e)) as [->|]; [|done]. rewrite list_elem_of_filter. tauto.
  - intros Hc. by apply ok_compat0, compat_cons in Hc as [_ ?].
  - intros Hc. by apply ok_prompt0, Forall_cons in Hc as [_ ?].
Qed.

Lemma resource_drop_waiter c b k m e hs ws hold :
  resource_ok c b k m hs (e :: ws) hold -> resource_ok c b k m hs ws hold.
Proof.
  intros []. apply Forall_cons in ok_waiters0 as [_ ?]. split; try done.
  rewrite <- Permutation_middle in ok_trans0. cbn in ok_trans0. by apply NoDup_cons in ok_trans0 as [_ ?].
Qed.

Lemma resource_add_waiter c b k m e hs ws hold :
  resource_ok c b k m hs ws hold -> tran_index e ∉ trans (hs ++ ws) -> waiter_ok e ->
  resource_ok c b k m hs (e :: ws) hold.
Proof.
  intros [] Ht He. split; try done; [|by constructor].
  rewrite <- Permutation_middle. cbn. by constructor.
Qed.

(** A mode compatible with the total mode is so with every holder. *)
Lemma total_compatible m q hs :
  Forall (holder_ok m) hs -> compatible q m = true ->
  Forall (fun i => lock_Comp q (granted_mode i) = COMPATIBLE) hs.
Proof.
  intros Hh Hq%compatible_spec. eapply Forall_impl; [exact Hh|].
  intros e ([He _] & _ & Hle & _). by eapply Comp_le.
Qed.

(** A waiter whose request is compatible with the total mode becomes a holder. *)
Lemma resource_promote c b k r hold check ws :
  resource_ok c b k (total_holders_mode r) (holder r) (check :: ws) hold ->
  compatible (blocked_mode check) (total_holders_mode r) = true ->
  let '(r', hold') := promote k r hold check in
  resource_ok c b k (total_holders_mode r') (holder r') ws hold'.
Proof.
  intros Hr Hc. pose proof Hr as []. apply Forall_cons in ok_waiters0 as [(Hg & Hb1 & Hb2) _].
  cbn [promote total_holders_mode holder]. rewrite position_perm.
  change (tran_index check) with (tran_index (grant check)).
  apply resource_add; [..|done].
  - eapply resource_mono; [| |by eapply resource_drop_waiter]; auto with rye.
  - rewrite <- Permutation_middle in ok_trans0. cbn in ok_trans0. by apply NoDup_cons in ok_trans0 as [? _].
  - split; [split; [done|apply NULL_ok]|]. split; [done|]. split; auto with rye.
  - intros _. by eapply total_compatible.
Qed.

(** ** Granting *)

Lemma blocked_of_snoc l e : blocked_of (l ++ [e]) = lock_Conv (blocked_mode e) (blocked_of l).
Proof. unfold blocked_of. by rewrite foldl_app. Qed.

Lemma grant_holders_ok c b k m ws hold fuel pre l :
  resource_ok c b k m (pre ++ l) ws hold -> (c -> pre = []) ->
  resource_ok c b k m (grant_holders fuel pre l) ws hold.
Proof.
  revert pre l. induction fuel as [|fuel IH]; intros pre l Hr Hpre; [done|].
  destruct l as [|check rest]; [done|]. cbn [grant_holders].
  destruct (is_blocked check) eqn:Eb; cbn [negb]; [|done].
  destruct (compatible _ _) eqn:Ec; cbn [negb]; [|done].
  rewrite <- Permutation_middle in Hr. pose proof Hr as [].
  apply Forall_cons in ok_holders0 as [([Hg Hb] & Hn & Hle1 & Hle2) Hf].
  destruct (waiting check) eqn:Ew; apply IH; [|done|..].
  - unfold reposition. rewrite insert_before_perm, <- Permutation_middle.
    eapply resource_change; [exact Hr|done|..|done].
    + split; [split; [done|apply NULL_ok]|]. split; [|split; [done|auto with rye]].
      intros E. by apply is_blocked_false in E; rewrite Eb in E.
    + intros Hc. rewrite (Hpre Hc) in *. cbn. apply granted_of_compatible; [done| |done].
      eapply Forall_impl; [exact Hf|]. by intros e [? _].
  - rewrite <- app_assoc. cbn [app]. by rewrite <- Permutation_middle.
  - intros Hc. specialize (ok_prompt0 Hc). apply Forall_cons in ok_prompt0 as [Hp _].
    by rewrite (Hp Eb) in Ew.
Qed.

Lemma grant_waiters_ok c b k r hold pre l changed r' hold' ws ch :
  resource_ok c b k (total_holders_mode r) (holder r) (pre ++ l) hold ->
  grant_waiters k r hold pre l changed = (r', hold', ws, ch) ->
  resource_ok c b k (total_holders_mode r') (holder r') ws hold'
  /\ total_waiters_mode r' = total_waiters_mode r /\ (ch = false -> ws = pre ++ l).
Proof.
  revert r hold pre changed. induction l as [|check rest IH]; intros r hold pre changed Hr;
    cbn [grant_waiters].
  { intros [= <- <- <- <-]. by rewrite app_nil_r in *. }
  destruct (compatible _ _) eqn:Ec; cbn [negb]; [|by intros [= <- <- <- <-]].
  destruct (waiting check).
  - rewrite <- Permutation_middle in Hr. pose proof (resource_promote _ _ _ _ _ _ _ Hr Ec) as Hp.
    destruct (promote k r hold check) as [r1 hold1] eqn:E. injection E as E1 _. intros Eg.
    destruct (IH _ _ _ _ Hp Eg) as (H1 & H2 & H3). split; [done|]. rewrite H2, <- E1.
    split; [done|]. intros ->. exfalso. clear - Eg.
    revert r1 hold1 pre Eg. induction rest as [|e rest IH]; intros r1 hold1 pre; cbn [grant_waiters];
      [congruence|].
    repeat zcase; [congruence|..]; intros Eg; [|by eapply IH].
    destruct (promote k r1 hold1 e). by eapply IH.
  - intros Eg. destruct (IH r hold (pre ++ [check]) changed) as (H1 & H2 & H3);
      [by rewrite <- app_assoc|done|]. split; [done|]. split; [done|]. by rewrite <- app_assoc in H3.
Qed.

Lemma grant_partial_ok c b k r hold pre l :
  resource_ok c b k (total_holders_mode r) (holder r) (pre ++ l) hold ->
  let '(r', hold') := grant_partial k r hold (blocked_of pre) pre l in
  resource_ok c b k (total_holders_mode r') (holder r') (waiter r') hold'
  /\ total_waiters_mode r' = blocked_of (waiter r').
Proof.
  revert r hold pre. induction l as [|check rest IH]; intros r hold pre Hr; cbn [grant_partial].
  { by rewrite app_nil_r in Hr. }
  assert (let '(r', hold') := grant_partial k r hold (lock_Conv (blocked_mode check) (blocked_of pre))
                                (pre ++ [check]) rest in
          resource_ok c b k (total_holders_mode r') (holder r') (waiter r') hold'
          /\ total_waiters_mode r' = blocked_of (waiter r')) as Hskip.
  { rewrite <- blocked_of_snoc. apply IH. by rewrite <- app_assoc. }
  destruct (compatible _ (blocked_of pre)); cbn [negb]; [|done].
  destruct (compatible _ (total_holders_mode r)) eqn:Ec; cbn [negb]; [|done].
  destruct (waiting check); [|done].
  rewrite <- Permutation_middle in Hr. pose proof (resource_promote _ _ _ _ _ _ _ Hr Ec) as Hp.
  destruct (promote k r hold check) as [r1 hold1]. by apply IH.
Qed.

(** A resource and its hold lists. *)
Definition lock_ok (c : Prop) (b : Z -> K -> Prop) (k : K) (r : LK_RES) (hold : HOLD) : Prop :=
  resource_ok c b k (total_holders_mode r) (holder r) (waiter r) hold
  /\ total_waiters_mode r = blocked_of (waiter r).

Lemma lock_grant_ok c b k r hold :
  lock_ok c b k r hold ->
  let '(r', hold') := lock_grant_blocked_waiter k (lock_grant_blocked_holder r) hold in
  lock_ok c b k r' hold'.
Proof.
  intros [Hr Hw]. unfold lock_grant_blocked_waiter.
  destruct (grant_waiters _ _ _ _ _ _) as [[[r' hold'] ws] ch] eqn:E.
  eapply grant_waiters_ok in E as (H1 & H2 & H3).
  - split; [done|]. cbn. destruct ch; [done|]. rewrite H2, H3 by done. exact Hw.
  - by apply (grant_holders_ok _ _ _ _ _ _ _ []).
Qed.

(** ** Requests *)

(** A granted or blocked request of a holder keeps the hold lists. *)
Lemma holders_perm t e hs : find_entry t hs = Some e -> hs ≡ₚ e :: remove_entry t hs.
Proof. intros E. by apply find_entry_Some in E as [_ ?]. Qed.

Lemma new_request_ok c b k ok t lock wait r hold res r' hold' :
  lock_ok c b k r hold -> lock <> NA_LOCK -> lock <> NULL_LOCK -> find_entry t (holder r) = None ->
  find_entry t (waiter r) = None ->
  lock_new_request ok t k lock wait r hold = (res, r', hold') -> lock_ok c b k r' hold'.
Proof.
  intros [Hr Hw] Hna Hnu Hth Htw. unfold lock_new_request. rewrite Htw.
  assert (t ∉ trans (holder r ++ waiter r)) as Ht.
  { apply find_entry_None in Hth, Htw. rewrite fmap_app, elem_of_app. tauto. }
  pose proof Hr as [].
  assert ((if negb (compatible lock (total_holders_mode r))
           then compatible lock (granted_of (holder r))
           else compatible lock (total_holders_mode r)) = true ->
          Forall (fun i => lock_Comp lock (granted_mode i) = COMPATIBLE) (holder r)) as Hcomp.
  { destruct (compatible lock (total_holders_mode r)) eqn:E; cbn; intros Hc.
    - by eapply total_compatible.
    - apply granted_of_compatible; [done| |done]. eapply Forall_impl; [exact ok_holders0|].
      by intros e [? _]. }
  destruct (if negb _ then _ else _) eqn:Ec.
  - destruct ok; cbn [negb]; intros [= <- <- <-]; [|done]. split; [|done].
    cbn [total_holders_mode holder waiter]. rewrite position_perm.
    apply (resource_add _ _ _ _ (lock_initialize_entry_as_granted t lock)); [..|done].
    + eapply resource_mono; [..|exact Hr]; auto with rye.
    + done.
    + split; [done|]. split; [done|]. split; auto with rye.
    + intros _. by apply Hcomp.
  - clear Hcomp Ec. repeat zcase; try (by intros [= <- <- <-]). intros [= <- <- <-]. split; cbn.
    + rewrite (Permutation_app_comm (waiter r)). cbn. by apply resource_add_waiter.
    + rewrite blocked_of_snoc, <- Hw. done.
Qed.

Lemma conversion_ok c b k t lock wait e r hold res r' :
  lock_ok c b k r hold -> lock <> NA_LOCK -> find_entry t (holder r) = Some e ->
  is_blocked e = false ->
  lock_conversion t lock wait e r = (res, r') -> lock_ok c b k r' hold.
Proof.
  intros [Hr Hw] Hna He Hnb. unfold lock_conversion.
  pose proof (find_entry_Some _ _ _ He) as [Ht Hperm].
  assert (resource_ok c b k (total_holders_mode r) (e :: remove_entry t (holder r)) (waiter r) hold)
    as Hr' by (by rewrite <- Hperm).
  pose proof Hr' as []. apply Forall_cons in ok_holders0 as [([Hg Hb] & Hn & Hle1 & Hle2) Hf].
  assert (forall x, prompt (set_count (set_modes e x (blocked_mode e)) (count e + 1))) as Hp.
  { intros x Hx. unfold is_blocked in *. cbn in Hx. by rewrite Hnb in Hx. }
  apply is_blocked_false in Hnb. set (new_mode := lock_Conv lock (granted_mode e)).
  assert (new_mode <> NULL_LOCK /\ new_mode <> NA_LOCK) as [Hn1 Hn2].
  { unfold new_mode. split; [|auto with rye]. destruct lock, (granted_mode e); done. }
  assert (resource_ok c b k (lock_Conv lock (total_holders_mode r)) (e :: remove_entry t (holder r))
            (waiter r) hold) as Hm by (eapply resource_mono; [..|exact Hr']; auto with rye).
  assert (mode_le new_mode (lock_Conv lock (total_holders_mode r))) as Hle.
  { apply Conv_lub; [auto with rye|]. apply mode_le_Conv_r; auto with rye. }
  destruct (decide _) as [E|E]; [|destruct (compatible _ _) eqn:Ec; [|repeat zcase]];
    intros [= <- <-]; try done; (split; [|done]); cbn [total_holders_mode holder waiter].
  - rewrite (update_entry_perm _ _ _ _ He). eapply resource_change; [exact Hr'|done|..].
    + done.
    + intros Hc. by apply ok_compat0, compat_cons in Hc as [? _].
    + intros Hc. apply (Hp (granted_mode e)).
  - rewrite (update_entry_perm _ _ _ _ He). eapply resource_change; [exact Hm|done|..].
    + split; [done|]. split; [done|]. split; [done|]. cbn. rewrite Hnb. auto with rye.
    + intros _. apply granted_of_compatible; [done| |done]. eapply Forall_impl; [exact Hf|].
      by intros i [? _].
    + intros _. apply Hp.
  - rewrite position_perm. eapply resource_change; [exact Hm|done|..|done].
    + split; [done|]. split; [done|]. split; [|done]. cbn. by apply mode_le_Conv_r.
    + intros Hc. by apply ok_compat0, compat_cons in Hc as [? _].
Qed.
End Resource.
