(* ===== verification/LockManagerSteps.v ===== *)
(** * Steps of the lock manager

    The invariant of the lock table, its preservation by every step, and what
    the operations do to the entries of a transaction. *)
From Stdlib Require Import ZArith Lia ZifyBool Sorting.Sorted Relations.
From stdpp Require Import base list numbers gmap relations.
From S2P Require Import Prelude LockTable LockManager LockManagerInv.

Notation trans l := (tran_index <$> l).

Section Steps.
Context {K : Type} `{Countable K}.
Notation HOLD := (gmap Z (list K)).
Implicit Types hold : HOLD.
Implicit Types g : LK_GLOBAL K.
Implicit Types r : LK_RES.
Implicit Types e : LK_ENTRY.

(** ** Releases *)

Lemma unlock_holder_ok c b k release t e e0 m r hold :
  resource_ok c b k m (e0 :: remove_entry t (holder r)) (waiter r) hold ->
  tran_index e0 = t -> tran_index e = t -> granted_mode e = granted_mode e0 ->
  total_waiters_mode r = blocked_of (waiter r) ->
  let '(r', hold') := unlock_holder release t k e r hold in lock_ok c b k r' hold'.
Proof.
  intros Hr H0 He Hg Hw. unfold unlock_holder.
  destruct (negb release && (count e >? 0)); (split; [|exact Hw]); cbn;
    eapply resource_total.
  - rewrite position_perm. pose proof Hr as [].
    apply Forall_cons in ok_holders as [([H1 H2] & H3 & H4 & H5) _].
    eapply resource_change; [exact Hr|cbn; congruence|..].
    + rewrite <- Hg in *. split; [done|]. split; [done|]. split; [done|]. cbn. auto with rye.
    + intros Hc. cbn. rewrite Hg. by apply ok_compat, compat_cons in Hc as [? _].
    + intros _ Hx. done.
  - rewrite <- H0. rewrite <- H0 in Hr. by eapply resource_drop_holder.
Qed.

Lemma drop_found c b k m t e hs ws hold :
  resource_ok c b k m hs ws hold -> find_entry t ws = Some e ->
  resource_ok c b k m hs (remove_entry t ws) hold.
Proof. intros Hr [_ Hp]%find_entry_Some. rewrite Hp in Hr. by eapply resource_drop_waiter. Qed.

Lemma unlock_waiter_ok c b k t r hold :
  resource_ok c b k (total_holders_mode r) (holder r) (remove_entry t (waiter r)) hold ->
  let '(r', hold') := unlock_waiter t k r hold in lock_ok c b k r' hold'.
Proof.
  intros Hr. unfold unlock_waiter. rewrite <- split_entry_app in Hr.
  destruct (split_entry t (waiter r)) as [pre post]. cbn in Hr.
  destruct post as [|w post]; [by rewrite app_nil_r in Hr|].
  by apply grant_partial_ok.
Qed.

(** ** The table *)

(** Who is among the holders of a value. *)
Definition is_holder (g : LK_GLOBAL K) (t : Z) (k : K) : Prop :=
  exists r, obj_hash_table g !! k = Some r /\ t ∈ trans (holder r).

Record table_ok (c : Prop) (g : LK_GLOBAL K) : Prop := {
  ok_resources : forall k r, obj_hash_table g !! k = Some r -> exists b hold, lock_ok c b k r hold;
  ok_hold_nodup : forall t, NoDup (hold_of (inst_hold_list g) t);
  ok_hold : forall t k, k ∈ hold_of (inst_hold_list g) t <-> is_holder g t k }.

Lemma lock_ok_rehold c b b' k r hold hold' :
  lock_ok c b k r hold -> (forall t, NoDup (hold_of hold' t)) ->
  (forall t, k ∈ hold_of hold' t <-> t ∈ trans (holder r)) ->
  (forall t k', k' <> k -> k' ∈ hold_of hold' t <-> b' t k') ->
  lock_ok c b' k r hold'.
Proof. intros [[] Hw] H1 H2 H3. split; [|done]. by split. Qed.

Lemma table_get c g k r :
  table_ok c g -> obj_hash_table g !! k = Some r ->
  lock_ok c (is_holder g) k r (inst_hold_list g).
Proof.
  intros [H1 H2 H3] Hk. destruct (H1 k r Hk) as (b & hold & Hr).
  eapply lock_ok_rehold; [exact Hr|done|..].
  - intros t. rewrite H3. unfold is_holder. split; [intros (? & ? & ?); by simplify_eq|].
    intros Ht. by exists r.
  - intros t k' _. apply H3.
Qed.

(** The values other than [k] are untouched when [k] is put or removed. *)
Lemma table_put c g k (o : option LK_RES) hold' :
  table_ok c g ->
  match o with
  | Some r' => lock_ok c (is_holder g) k r' hold'
  | None => exists r', lock_ok c (is_holder g) k r' hold' /\ holder r' = []
  end ->
  table_ok c (mkGlobal (partial_alter (fun _ => o) k (obj_hash_table g)) hold').
Proof.
  intros Hg Ho.
  assert (exists r', lock_ok c (is_holder g) k r' hold' /\ o = (if o then Some r' else None)
                     /\ (o = None -> holder r' = [])) as (r' & Hr & Er & Hempty).
  { destruct o as [r'|]; [by exists r'|]. destruct Ho as (r' & ? & ?). by exists r'. }
  clear Ho. pose proof Hr as [[] _]. destruct Hg as [H1 H2 H3]. split; cbn.
  - intros k' r''. destruct (decide (k' = k)) as [->|Hk].
    + rewrite lookup_partial_alter_eq. intros ->. injection Er as ->. eauto.
    + rewrite lookup_partial_alter_ne by done. apply H1.
  - done.
  - intros t k'. unfold is_holder. cbn. destruct (decide (k' = k)) as [->|Hk].
    + rewrite lookup_partial_alter_eq, ok_held. destruct o as [r''|].
      * injection Er as ->. split; [by eauto|]. intros (? & [= <-] & ?). done.
      * rewrite Hempty by done. split; [by intros ?%elem_of_nil|]. by intros (? & ? & _).
    + rewrite lookup_partial_alter_ne by done. by apply ok_others.
Qed.

Lemma table_set c g k r hold :
  table_ok c g -> lock_ok c (is_holder g) k r hold ->
  table_ok c (mkGlobal (<[k := r]> (obj_hash_table g)) hold).
Proof. intros Hg Hr. by apply (table_put c g k (Some r)). Qed.

Lemma unlock_grant_ok c quiet k r g hold :
  table_ok c g -> lock_ok c (is_holder g) k r hold -> table_ok c (unlock_grant quiet k r g hold).
Proof.
  intros Hg Hr. unfold unlock_grant.
  pose proof (lock_grant_ok c (is_holder g) k r hold Hr) as Hgr.
  destruct (lock_grant_blocked_waiter k (lock_grant_blocked_holder r) hold) as [r' hold'].
  destruct (holder r) as [|h hs] eqn:Eh; [destruct (waiter r)|]; [destruct quiet|..];
    try by apply table_set.
  apply (table_put c g k None); [done|]. by exists r.
Qed.

(** A release of the lock of [t], by its owner or by its thread that gives up
    waiting. *)
Lemma perform_unlock_ok c quiet t k release g :
  table_ok c g -> table_ok c (lock_internal_perform_unlock_object quiet t k release g).
Proof.
  intros Hg. unfold lock_internal_perform_unlock_object.
  destruct (obj_hash_table g !! k) as [r|] eqn:Er; [|done].
  pose proof (table_get c g k r Hg Er) as [Hr Hw].
  destruct (find_entry t (holder r)) as [e|] eqn:Ee.
  - pose proof (find_entry_Some _ _ _ Ee) as [Ht Hp].
    set (e1 := if release then e else set_count e (count e - 1)).
    assert (tran_index e1 = t /\ granted_mode e1 = granted_mode e /\ blocked_mode e1 = blocked_mode e
            /\ waiting e1 = waiting e) as (Ht1 & Hg1 & Hb1 & Hw1) by (unfold e1; by destruct release).
    pose proof Hr as Hr'. rewrite Hp in Hr'. clearbody e1. destruct (_ && (count e1 >? 0)) eqn:Ec.
    + apply table_set; [done|]. split; [|done]. cbn.
      rewrite (update_entry_perm t (fun _ => e1) _ _ Ee). pose proof Hr' as [].
      apply Forall_cons in ok_holders as [He _].
      eapply resource_change; [exact Hr'|congruence|..].
      * unfold holder_ok, entry_ok in *. by rewrite Hg1, Hb1.
      * intros Hc. rewrite Hg1. by apply ok_compat, compat_cons in Hc as [? _].
      * intros Hc. apply ok_prompt, Forall_cons in Hc as [Hpr _].
        unfold prompt, is_blocked in *. by rewrite Hb1, Hw1.
    + pose proof (unlock_holder_ok c (is_holder g) k release t e1 e _ r _ Hr' Ht Ht1 Hg1 Hw) as Hu.
      destruct (unlock_holder release t k e1 r (inst_hold_list g)) as [r' hold'].
      by apply unlock_grant_ok.
  - destruct (find_entry t (waiter r)) as [e|] eqn:Ew; [|done].
    pose proof (unlock_waiter_ok c (is_holder g) k t r _ (drop_found _ _ _ _ _ _ _ _ _ Hr Ew)) as Hu.
    destruct (unlock_waiter t k r (inst_hold_list g)). by apply table_set.
Qed.

(** ** Requests *)

Lemma find_entry_app t l1 l2 :
  find_entry t (l1 ++ l2) = match find_entry t l1 with Some e => Some e | None => find_entry t l2 end.
Proof. induction l1 as [|e l1 IH]; cbn; [done|]. by destruct (tran_index e =? t). Qed.

Lemma new_resource_ok c t k lock g :
  table_ok c g -> lock <> NA_LOCK -> lock <> NULL_LOCK -> obj_hash_table g !! k = None ->
  lock_ok c (is_holder g) k (mkRes lock NULL_LOCK [lock_initialize_entry_as_granted t lock] [])
    (lock_insert_into_tran_hold_list (inst_hold_list g) t k).
Proof.
  intros [H1 H2 H3] Hna Hnu Hk. split; [|done].
  apply (resource_add _ _ _ _ (lock_initialize_entry_as_granted t lock)); try done.
  - split; [constructor|constructor|constructor|done|done| |done|constructor|constructor].
    intros t'. rewrite H3. split; [intros (r & ? & _); congruence|by intros ?%elem_of_nil].
  - apply not_elem_of_nil.
  - split; [done|]. split; [done|]. cbn. auto with rye.
Qed.

Lemma lock_object_ok c ok_res ok t k lock wait g :
  table_ok c g -> runnable t g -> lock <> NA_LOCK ->
  table_ok c (lock_object ok_res ok t k lock wait g).2.
Proof.
  intros Hg Hrun Hna. unfold lock_object. destruct (decide _) as [|Hnu]; [done|].
  unfold lock_internal_perform_lock_object.
  destruct (obj_hash_table g !! k) as [r|] eqn:Er.
  - pose proof (table_get c g k r Hg Er) as Hr. specialize (Hrun k). unfold entry_of in Hrun.
    rewrite Er in Hrun. cbn in Hrun. rewrite find_entry_app in Hrun.
    destruct (find_entry t (holder r)) as [e|] eqn:Ee.
    + destruct (lock_conversion t lock wait e r) as [res r'] eqn:Ec. cbn.
      apply table_set; [done|]. eapply conversion_ok; [exact Hr|done|exact Ee| |exact Ec].
      by apply Hrun.
    + assert (find_entry t (waiter r) = None) as Ew.
      { destruct (find_entry t (waiter r)) as [e|] eqn:Ew; [|done].
        specialize (Hrun e eq_refl). apply is_blocked_false in Hrun.
        apply find_entry_Some in Ew as [_ Hp]. destruct Hr as [[] _].
        rewrite Hp in ok_waiters. by apply Forall_cons in ok_waiters as [(_ & ? & _) _]. }
      destruct (lock_new_request _ _ _ _ _ _ _) as [[res r'] hold'] eqn:En. cbn.
      apply table_set; [done|].
      eapply new_request_ok; [exact Hr|done|done|exact Ee|exact Ew|exact En].
  - destruct (negb ok_res || negb ok); [done|]. cbn.
    apply table_set; [done|]. by apply new_resource_ok.
Qed.

Lemma unlock_object_ok c quiet t k force g :
  table_ok c g -> table_ok c (lock_unlock_object quiet t k force g).
Proof.
  intros Hg. unfold lock_unlock_object. destruct (lock_find_tran_hold_entry _ _ _); [|done].
  by apply perform_unlock_ok.
Qed.

Lemma unlock_all_ok c fuel quiet t g : table_ok c g -> table_ok c (unlock_all fuel quiet t g).
Proof.
  revert g. induction fuel as [|fuel IH]; intros g Hg; [done|]. cbn.
  destruct (hold_of _ _); [done|]. by apply IH, perform_unlock_ok.
Qed.

(** ** Wakeups *)

Definition wake (e : LK_ENTRY) : LK_ENTRY := if is_blocked e then set_waiting e false else e.

Lemma wake_same e :
  tran_index (wake e) = tran_index e /\ granted_mode (wake e) = granted_mode e
  /\ blocked_mode (wake e) = blocked_mode e.
Proof. unfold wake. by destruct (is_blocked e). Qed.

(** Waking up changes neither transactions nor modes. *)
Lemma update_wake_forall (P : LK_ENTRY -> Prop) t l :
  (forall e, P e -> P (wake e)) -> Forall P l -> Forall P (update_entry t wake l).
Proof.
  intros HP. induction 1 as [|e l He Hl IH]; cbn; [constructor|].
  destruct (tran_index e =? t); constructor; auto.
Qed.

Lemma update_wake_trans t l : trans (update_entry t wake l) = trans l.
Proof.
  induction l as [|e l IH]; cbn; [done|]. destruct (tran_index e =? t); cbn.
  - by destruct (wake_same e) as (-> & _).
  - by rewrite IH.
Qed.

Lemma update_wake_blocked t l : blocked_of (update_entry t wake l) = blocked_of l.
Proof.
  unfold blocked_of. generalize NULL_LOCK. induction l as [|e l IH]; intros m; cbn; [done|].
  destruct (tran_index e =? t); cbn; [|apply IH]. by destruct (wake_same e) as (_ & _ & ->).
Qed.

Lemma wakeup_ok c t k g : ~ c -> table_ok c g -> table_ok c (lock_wakeup t k g).
Proof.
  intros Hc Hg. unfold lock_wakeup. fold wake.
  destruct (obj_hash_table g !! k) as [r|] eqn:Er; [|done].
  pose proof (table_get c g k r Hg Er) as [[] Hw]. apply table_set; [done|].
  split; [|cbn; by rewrite update_wake_blocked].
  split; cbn; try done; rewrite ?fmap_app, ?update_wake_trans; try done.
  - by rewrite <- fmap_app.
  - apply update_wake_forall; [|done]. intros e. unfold holder_ok, entry_ok.
    by destruct (wake_same e) as (_ & -> & ->).
  - apply update_wake_forall; [|done]. intros e. unfold waiter_ok.
    by destruct (wake_same e) as (_ & -> & ->).
Qed.

Lemma find_update_wake t l e :
  find_entry t l = Some e -> find_entry t (update_entry t wake l) = Some (wake e).
Proof.
  induction l as [|i l IH]; cbn; [done|]. destruct (tran_index i =? t) eqn:E; cbn.
  - intros [= ->]. destruct (wake_same e) as (-> & _). by rewrite E.
  - rewrite E. apply IH.
Qed.

Lemma remove_update_wake t l : remove_entry t (update_entry t wake l) = remove_entry t l.
Proof.
  induction l as [|e l IH]; cbn; [done|]. destruct (tran_index e =? t) eqn:E; cbn.
  - destruct (wake_same e) as (-> & _). by rewrite E.
  - by rewrite E, IH.
Qed.

Lemma split_update_wake t l : split_entry t (update_entry t wake l) = split_entry t l.
Proof.
  induction l as [|e l IH]; cbn; [done|]. destruct (tran_index e =? t) eqn:E; cbn.
  - destruct (wake_same e) as (-> & _). by rewrite E.
  - by rewrite E, IH.
Qed.

(** Only the resource that is put back matters for the end of a release. *)
Lemma unlock_grant_same quiet k r r0 g hold hold0 :
  unlock_grant quiet k r (mkGlobal (<[k := r0]> (obj_hash_table g)) hold0) hold
  = unlock_grant quiet k r g hold.
Proof.
  unfold unlock_grant. cbn [obj_hash_table].
  destruct (lock_grant_blocked_waiter _ _ _).
  by destruct (holder r), (waiter r), quiet; cbn; rewrite ?delete_insert_eq, ?insert_insert_eq.
Qed.

(** A thread that is woken up and gives up before anything else happens, by
    the place of its entry. *)
Lemma give_up_holder c quiet t k g r e :
  table_ok c g -> obj_hash_table g !! k = Some r -> find_entry t (holder r) = Some e ->
  is_blocked e = true ->
  table_ok c (lock_internal_perform_unlock_object quiet t k false (lock_wakeup t k g)).
Proof.
  intros Hg Er Ee Hb. pose proof (table_get c g k r Hg Er) as [Hr Hw].
  pose proof (find_entry_Some _ _ _ Ee) as [Ht Hp].
  assert (find_entry t (waiter r) = None) as Ew.
  { apply find_entry_None. intros Hin. destruct Hr as []. rewrite Hp in ok_trans. cbn in ok_trans.
    apply NoDup_cons in ok_trans as [Hn _]. contradict Hn. rewrite Ht, fmap_app, elem_of_app. by right. }
  unfold lock_wakeup. fold wake. rewrite Er, (update_entry_None _ _ _ Ew).
  unfold lock_internal_perform_unlock_object. cbn [obj_hash_table inst_hold_list].
  rewrite lookup_insert_eq. cbn [holder waiter]. rewrite (find_update_wake _ _ _ Ee).
  destruct (wake_same e) as (W1 & W2 & W3).
  set (e1 := set_count (wake e) (count (wake e) - 1)).
  assert (is_blocked e1 = true) as -> by (unfold is_blocked in *; cbn; by rewrite W3).
  cbn [negb andb]. set (rw := mkRes _ _ _ _).
  assert (resource_ok c (is_holder g) k (total_holders_mode r) (e :: remove_entry t (holder rw))
            (waiter rw) (inst_hold_list g)) as Hrw.
  { cbn. rewrite remove_update_wake. by rewrite <- Hp. }
  pose proof (unlock_holder_ok c (is_holder g) k false t e1 e _ rw _ Hrw Ht
                (eq_trans W1 Ht) W2 Hw) as Hu.
  destruct (unlock_holder false t k e1 rw (inst_hold_list g)) as [r' hold'].
  rewrite unlock_grant_same. by apply unlock_grant_ok.
Qed.

Lemma give_up_waiter c quiet t k g r e :
  table_ok c g -> obj_hash_table g !! k = Some r -> find_entry t (holder r) = None ->
  find_entry t (waiter r) = Some e ->
  table_ok c (lock_internal_perform_unlock_object quiet t k false (lock_wakeup t k g)).
Proof.
  intros Hg Er Ee Ew. pose proof (table_get c g k r Hg Er) as [Hr Hw].
  unfold lock_wakeup. fold wake. rewrite Er, (update_entry_None _ _ _ Ee).
  unfold lock_internal_perform_unlock_object. cbn [obj_hash_table inst_hold_list].
  rewrite lookup_insert_eq. cbn [holder waiter]. rewrite Ee, (find_update_wake _ _ _ Ew).
  set (rw := mkRes _ _ _ _).
  assert (resource_ok c (is_holder g) k (total_holders_mode rw) (holder rw)
            (remove_entry t (waiter rw)) (inst_hold_list g)) as Hrw.
  { cbn. rewrite remove_update_wake. by eapply drop_found. }
  pose proof (unlock_waiter_ok c (is_holder g) k t rw _ Hrw) as Hu.
  destruct (unlock_waiter t k rw (inst_hold_list g)) as [r' hold'].
  rewrite insert_insert_eq. by apply table_set.
Qed.

Lemma give_up_ok c quiet t k g e :
  table_ok c g -> entry_of t k g = Some e -> is_blocked e = true ->
  table_ok c (lock_internal_perform_unlock_object quiet t k false (lock_wakeup t k g)).
Proof.
  intros Hg He Hb. unfold entry_of in He.
  destruct (obj_hash_table g !! k) as [r|] eqn:Er; [|done]. cbn in He. rewrite find_entry_app in He.
  destruct (find_entry t (holder r)) as [e'|] eqn:Ee.
  - injection He as ->. by eapply give_up_holder.
  - by eapply give_up_waiter.
Qed.

(** ** Reachable states *)

Lemma initialize_ok c : table_ok c (lock_initialize (K := K)).
Proof.
  split; cbn.
  - intros k r. by rewrite lookup_empty.
  - intros t. constructor.
  - intros t k. unfold hold_of, is_holder. cbn. rewrite !lookup_empty.
    split; [by intros ?%elem_of_nil|by intros (? & ? & _)].
Qed.

Lemma step_ok g g' : lk_step g g' -> table_ok False g -> table_ok False g'.
Proof.
  intros Hs Hg. destruct Hs.
  - by apply lock_object_ok.
  - by apply unlock_object_ok.
  - by apply unlock_all_ok.
  - apply wakeup_ok; tauto.
  - by apply perform_unlock_ok.
Qed.

Lemma step_prompt_ok g g' : lk_step_prompt g g' -> table_ok True g -> table_ok True g'.
Proof.
  intros Hs Hg. destruct Hs.
  - by apply lock_object_ok.
  - by apply unlock_object_ok.
  - by apply unlock_all_ok.
  - by eapply give_up_ok.
Qed.

Lemma reachable_ok g : rtc lk_step lock_initialize g -> table_ok False g.
Proof.
  intros Hr. eapply (rtc_ind_r (fun g => table_ok False g)); [apply initialize_ok| |exact Hr].
  intros x y _ Hs. by apply step_ok.
Qed.

Lemma reachable_prompt_ok g : rtc lk_step_prompt lock_initialize g -> table_ok True g.
Proof.
  intros Hr. eapply (rtc_ind_r (fun g => table_ok True g)); [apply initialize_ok| |exact Hr].
  intros x y _ Hs. by apply step_prompt_ok.
Qed.

(** ** Which transactions a release leaves *)

Lemma grant_holders_trans fuel pre l : trans (grant_holders fuel pre l) ≡ₚ trans (pre ++ l).
Proof.
  revert pre l. induction fuel as [|fuel IH]; intros pre l; [done|].
  destruct l as [|check rest]; [done|]. cbn [grant_holders]. repeat zcase; try done; rewrite IH.
  - unfold reposition. by rewrite insert_before_perm, <- !Permutation_middle.
  - by rewrite <- app_assoc.
Qed.

Lemma grant_waiters_trans k r hold pre l ch r' hold' ws ch' :
  grant_waiters k r hold pre l ch = (r', hold', ws, ch') ->
  trans (holder r' ++ ws) ≡ₚ trans (holder r ++ pre ++ l).
Proof.
  revert r hold pre ch. induction l as [|check rest IH]; intros r hold pre ch; cbn [grant_waiters].
  { intros [= <- <- <- <-]. by rewrite app_nil_r. }
  destruct (compatible _ _); cbn [negb]; [|by intros [= <- <- <- <-]].
  destruct (waiting check).
  - intros ->%IH. cbn [holder]. rewrite position_perm, !fmap_app. cbn.
    by rewrite !app_assoc, <- !Permutation_middle.
  - intros ->%IH. by rewrite <- app_assoc.
Qed.

Lemma lock_grant_trans k r hold :
  let '(r', hold') := lock_grant_blocked_waiter k (lock_grant_blocked_holder r) hold in
  trans (holder r' ++ waiter r') ≡ₚ trans (holder r ++ waiter r).
Proof.
  unfold lock_grant_blocked_waiter.
  destruct (grant_waiters _ _ _ _ _ _) as [[[r' hold'] ws] ch] eqn:E.
  apply grant_waiters_trans in E. cbn [holder waiter]. rewrite E, !fmap_app.
  apply Permutation_app; [apply (grant_holders_trans _ [])|done].
Qed.

Lemma perform_unlock_other quiet t k release g k' :
  k' <> k ->
  obj_hash_table (lock_internal_perform_unlock_object quiet t k release g) !! k'
  = obj_hash_table g !! k'.
Proof.
  intros Hk. unfold lock_internal_perform_unlock_object.
  destruct (obj_hash_table g !! k) as [r|]; [|done].
  destruct (find_entry t (holder r)).
  - destruct (_ && (_ >? 0)); [cbn; by rewrite lookup_insert_ne|].
    destruct (unlock_holder _ _ _ _ _ _) as [r' hold']. unfold unlock_grant.
    destruct (lock_grant_blocked_waiter _ _ _) as [r'' hold''].
    destruct (holder r'), (waiter r'), quiet; cbn; by rewrite ?lookup_delete_ne, ?lookup_insert_ne.
  - destruct (find_entry t (waiter r)); [|done].
    destruct (unlock_waiter _ _ _ _). cbn. by rewrite lookup_insert_ne.
Qed.

(** A forced release takes the transaction off the value. *)
Lemma perform_unlock_gone c quiet t k g :
  table_ok c g -> is_holder g t k ->
  ~ is_holder (lock_internal_perform_unlock_object quiet t k true g) t k.
Proof.
  intros Hg (r & Er & Hin). unfold lock_internal_perform_unlock_object. rewrite Er.
  destruct (find_entry_in _ _ Hin) as [e Ee]. rewrite Ee. cbn [negb andb unlock_holder].
  pose proof (table_get c g k r Hg Er) as [[] _].
  pose proof (find_entry_Some _ _ _ Ee) as [Ht Hp]. rewrite Hp in ok_trans. cbn in ok_trans.
  apply NoDup_cons in ok_trans as [Hn _]. rewrite Ht in Hn. unfold unlock_grant.
  set (r1 := mkRes _ _ _ _). set (hold1 := lock_delete_from_tran_hold_list _ _ _).
  pose proof (lock_grant_trans k r1 hold1) as Hgr.
  assert (forall r2, trans (holder r2 ++ waiter r2) ≡ₚ trans (holder r1 ++ waiter r1) ->
            t ∉ trans (holder r2)) as Hno.
  { intros r2 H2 Hin2. apply Hn. change (remove_entry t (holder r) ++ waiter r)
      with (holder r1 ++ waiter r1). rewrite <- H2, fmap_app, elem_of_app. by left. }
  destruct (lock_grant_blocked_waiter _ _ _) as [r2 hold2].
  pose proof (Hno r2 Hgr) as H2. pose proof (Hno r1 ltac:(done)) as H1.
  intros (r' & Hr' & Hin'). assert (r' = r1 \/ r' = r2) as [-> | ->]; [|done..].
  revert Hr'. clearbody r1. destruct (holder r1), (waiter r1), quiet; cbn;
    rewrite ?lookup_delete_eq, ?lookup_insert_eq; intros [=]; auto.
Qed.

Lemma perform_unlock_hold c quiet t k g :
  table_ok c g -> k ∈ hold_of (inst_hold_list g) t ->
  let g' := lock_internal_perform_unlock_object quiet t k true g in
  (length (hold_of (inst_hold_list g') t) < length (hold_of (inst_hold_list g) t))%nat.
Proof.
  intros Hg Hk g'. pose proof (perform_unlock_ok c quiet t k true g Hg) as Hg'.
  pose proof (ok_hold _ _ Hg') as H'. pose proof (ok_hold _ _ Hg) as H0.
  assert (k :: hold_of (inst_hold_list g') t ⊆+ hold_of (inst_hold_list g) t) as Hsub.
  { apply NoDup_submseteq.
    - constructor; [|apply (ok_hold_nodup _ _ Hg')]. unfold g'. rewrite H'.
      apply (perform_unlock_gone c); [done|]. by apply H0.
    - intros k' [->|Hin]%elem_of_cons; [done|]. unfold g' in Hin. rewrite H' in Hin.
      destruct (decide (k' = k)) as [->|Hne]; [done|]. apply H0.
      destruct Hin as (r & Hr & Hin). exists r. by rewrite perform_unlock_other in Hr. }
  apply submseteq_length in Hsub. cbn in Hsub. lia.
Qed.

Lemma unlock_all_hold c fuel quiet t g :
  table_ok c g -> (length (hold_of (inst_hold_list g) t) <= fuel)%nat ->
  hold_of (inst_hold_list (unlock_all fuel quiet t g)) t = [].
Proof.
  revert g. induction fuel as [|fuel IH]; intros g Hg Hf; cbn [unlock_all].
  { by destruct (hold_of _ _); [|cbn in Hf; lia]. }
  destruct (hold_of (inst_hold_list g) t) as [|k ks] eqn:E; [done|].
  apply IH; [by apply perform_unlock_ok|].
  pose proof (perform_unlock_hold c quiet t k g Hg) as Hl. rewrite E in Hl.
  specialize (Hl ltac:(by left)). cbn in *. lia.
Qed.

(** ** What a granted request holds *)

Lemma find_entry_unique t l l' e :
  NoDup (trans l) -> l ≡ₚ e :: l' -> tran_index e = t -> find_entry t l = Some e.
Proof.
  intros Hn Hp Ht. destruct (find_entry_in t l) as [e' E].
  { rewrite Hp. cbn. rewrite Ht. by left. }
  rewrite E. f_equal. apply find_entry_Some in E as [Ht' Hp'].
  assert (e ∈ e' :: remove_entry t l) as Hin by (rewrite <- Hp', Hp; by left).
  apply elem_of_cons in Hin as [->|Hin]; [done|]. exfalso.
  rewrite Hp' in Hn. cbn in Hn. apply NoDup_cons in Hn as [Hn _]. apply Hn.
  replace (tran_index e') with (tran_index e) by congruence. by apply list_elem_of_fmap_2.
Qed.

Lemma current_lock c t k g r e l :
  table_ok c g -> obj_hash_table g !! k = Some r -> holder r ≡ₚ e :: l -> tran_index e = t ->
  lock_get_current_lock t k g = granted_mode e.
Proof.
  intros Hg Hr Hp Ht. unfold lock_get_current_lock, lock_find_tran_hold_entry.
  pose proof (table_get c g k r Hg Hr) as [[] _].
  rewrite decide_True.
  - rewrite Hr. cbn. rewrite (find_entry_unique t (holder r) l e); [done| |done|done].
    rewrite fmap_app in ok_trans. by apply NoDup_app in ok_trans as [? _].
  - rewrite ok_held, Hp. cbn. rewrite Ht. by left.
Qed.

Lemma granted_holds c ok_res ok t k lock wait g g' :
  table_ok c g -> runnable t g -> lock <> NA_LOCK -> lock <> NULL_LOCK ->
  lock_object ok_res ok t k lock wait g = (LK_GRANTED, g') ->
  mode_le lock (lock_get_current_lock t k g').
Proof.
  intros Hg Hrun Hna Hnu E.
  assert (table_ok c g') as Hg' by (by rewrite (surjective_pairing (lock_object _ _ _ _ _ _ _)) in E;
    injection E as _ <-; apply lock_object_ok).
  assert (exists r e l, obj_hash_table g' !! k = Some r /\ holder r ≡ₚ e :: l /\ tran_index e = t
                        /\ mode_le lock (granted_mode e)) as (r & e & l & Hr & Hp & Ht & Hle).
  2: by rewrite (current_lock c t k g' r e l).
  revert E. unfold lock_object. rewrite decide_False by done.
  unfold lock_internal_perform_lock_object. destruct (obj_hash_table g !! k) as [r|] eqn:Er.
  - pose proof (table_get c g k r Hg Er) as [[] _].
    destruct (find_entry t (holder r)) as [e|] eqn:Ee.
    + unfold lock_conversion. pose proof (find_entry_Some _ _ _ Ee) as [Ht Hp].
      rewrite Hp in ok_holders. apply Forall_cons in ok_holders as [([He _] & _) _].
      destruct (decide _) as [Ec|Ec]; [|repeat zcase]; intros [= <-];
        eexists _, _, (remove_entry t (holder r)); cbn; rewrite lookup_insert_eq;
        (split; [done|]); cbn; (split; [apply (update_entry_perm _ _ _ _ Ee)|]);
        (split; [exact Ht|]); [exact Ec|cbn; auto with rye].
    + unfold lock_new_request. repeat zcase; try (by intros [=]); intros [= <-];
        eexists _, (lock_initialize_entry_as_granted t lock), (holder r); cbn;
        rewrite lookup_insert_eq; (split; [done|]); cbn;
        (split; [apply position_perm|]); (split; [done|]); auto with rye.
  - destruct (negb ok_res || negb ok); intros [= <-].
    eexists _, (lock_initialize_entry_as_granted t lock), []. cbn. rewrite lookup_insert_eq.
    split; [done|]. split; [done|]. split; [done|]. auto with rye.
Qed.

(** ** When granting stops *)

(** The first waiter whose thread is suspended conflicts with the holders. *)
Lemma grant_waiters_stop k r hold pre l ch r' hold' ws ch' :
  grant_waiters k r hold pre l ch = (r', hold', ws, ch') ->
  Forall (fun e => waiting e = false) pre ->
  exists s q, ws = s ++ q /\ Forall (fun e => waiting e = false) s
    /\ match q with [] => True
       | e :: _ => compatible (blocked_mode e) (total_holders_mode r') = false end.
Proof.
  revert r hold pre ch. induction l as [|check rest IH]; intros r hold pre ch; cbn [grant_waiters].
  { intros [= <- <- <- <-] Hp. exists pre, []. by rewrite app_nil_r. }
  destruct (compatible _ _) eqn:Ec; cbn [negb].
  - destruct (waiting check) eqn:Ew; intros E Hp; eapply IH; try exact E; [done|].
    apply Forall_app. split; [done|]. by constructor.
  - intros [= <- <- <- <-] Hp. by exists pre, (check :: rest).
Qed.

Definition blocked_count (l : list LK_ENTRY) : nat :=
  length (filter (fun e => is_blocked e = true) l).

(** The first blocked holder whose thread is suspended conflicts with those
    behind it; the loop never runs out of fuel. *)
Lemma grant_holders_stop fuel pre l :
  (blocked_count l < fuel)%nat -> Forall (fun e => is_blocked e = true /\ waiting e = false) pre ->
  exists s q, grant_holders fuel pre l = s ++ q
    /\ Forall (fun e => is_blocked e = true /\ waiting e = false) s
    /\ match q with [] => True
       | e :: q => is_blocked e = false \/ compatible (blocked_mode e) (granted_of q) = false end.
Proof.
  revert pre l. induction fuel as [|fuel IH]; intros pre l Hf Hp; [lia|].
  destruct l as [|check rest]; [by exists pre, []|]. cbn [grant_holders].
  destruct (is_blocked check) eqn:Eb; cbn [negb]; [|exists pre, (check :: rest); auto].
  destruct (compatible _ _) eqn:Ec; cbn [negb]; [|exists pre, (check :: rest); auto].
  assert (blocked_count (check :: rest) = S (blocked_count rest)) as Hs.
  { unfold blocked_count. by rewrite filter_cons, decide_True. }
  destruct (waiting check) eqn:Ew; apply IH; try lia; try done.
  - unfold reposition, blocked_count. rewrite insert_before_perm, filter_cons, decide_False by done.
    unfold blocked_count in *. lia.
  - apply Forall_app. split; [done|]. by constructor.
Qed.

Lemma blocked_count_le l : (blocked_count l < S (length l))%nat.
Proof.
  unfold blocked_count. pose proof (length_filter (fun e => is_blocked e = true) l). lia.
Qed.

(** No blocked holder whose thread is suspended can be granted: the first one
    conflicts with an entry behind it. *)
Definition holders_stopped (hs : list LK_ENTRY) : Prop :=
  exists s q, hs = s ++ q /\ Forall (fun e => is_blocked e = true /\ waiting e = false) s
    /\ match q with [] => True
       | e :: q => is_blocked e = false
                   \/ exists i, i ∈ q /\ lock_Comp (blocked_mode e) (granted_mode i) <> COMPATIBLE
       end.

(** The first waiter whose thread is suspended conflicts with the holders. *)
Definition waiters_stopped (r : LK_RES) : Prop :=
  exists s q, waiter r = s ++ q /\ Forall (fun e => waiting e = false) s
    /\ match q with [] => True
       | e :: _ => compatible (blocked_mode e) (total_holders_mode r) = false end.

Lemma insert_blocked e (s q : list LK_ENTRY) :
  Forall (fun i => is_blocked i = true /\ waiting i = false) s ->
  insert_before upr_c e (s ++ q) = s ++ insert_before upr_c e q.
Proof.
  induction 1 as [|i s [Hb _] _ IH]; [done|]. cbn. unfold upr_c at 1. by rewrite Hb, IH.
Qed.

Lemma stopped_position hs e :
  is_blocked e = false -> holders_stopped hs -> holders_stopped (lock_position_holder_entry hs e).
Proof.
  intros He (s & q & -> & Hs & Hq). unfold lock_position_holder_entry. rewrite He. cbn [negb].
  rewrite insert_blocked by done. exists s, (insert_before upr_c e q). split; [done|].
  split; [done|]. destruct q as [|i q]; cbn; [by left|]. unfold upr_c at 1.
  destruct (is_blocked i) eqn:Ei; cbn [negb]; [|by left]. right.
  destruct Hq as [?|(j & Hj & Hc)]; [congruence|]. exists j. split; [|done].
  rewrite insert_before_perm. by right.
Qed.

Lemma grant_waiters_holders k r hold pre l ch r' hold' ws ch' :
  grant_waiters k r hold pre l ch = (r', hold', ws, ch') ->
  holders_stopped (holder r) -> holders_stopped (holder r').
Proof.
  revert r hold pre ch. induction l as [|check rest IH]; intros r hold pre ch; cbn [grant_waiters].
  { by intros [= <- <- <- <-]. }
  destruct (compatible _ _); cbn [negb]; [|by intros [= <- <- <- <-]].
  destruct (waiting check); intros E Hs; (eapply IH; [exact E|]); [|done].
  by apply stopped_position.
Qed.

Lemma grant_holder_stopped c b k r hold :
  lock_ok c b k r hold -> holders_stopped (holder (lock_grant_blocked_holder r)).
Proof.
  intros [Hr _]. assert (resource_ok False b k (total_holders_mode r) (holder r) (waiter r) hold)
    as Hr' by (destruct Hr; by split).
  destruct (grant_holders_stop _ [] (holder r) (blocked_count_le _)) as (s & q & E & Hs & Hq);
    [constructor|].
  apply (grant_holders_ok _ _ _ _ _ _ (S (length (holder r))) []) in Hr'; [|done].
  exists s, q. split; [exact E|]. split; [done|]. destruct q as [|e q]; [done|].
  destruct Hq as [?|Hc]; [by left|]. right.
  assert (Forall entry_ok (e :: q)) as [[_ He] Hq]%Forall_cons.
  { destruct Hr'. rewrite E in ok_holders. apply Forall_app in ok_holders as [_ Hh].
    eapply Forall_impl; [exact Hh|]. by intros ? [? _]. }
  assert (~ Forall (fun i => lock_Comp (blocked_mode e) (granted_mode i) = COMPATIBLE) q) as Hn.
  { rewrite <- granted_of_compatible by done. by rewrite Hc. }
  apply not_Forall_Exists, Exists_exists in Hn as (i & Hi & Hne); [by exists i|].
  intros x. apply _.
Qed.

Lemma lock_grant_stopped c b k r hold :
  lock_ok c b k r hold ->
  let r' := (lock_grant_blocked_waiter k (lock_grant_blocked_holder r) hold).1 in
  holders_stopped (holder r') /\ waiters_stopped r'.
Proof.
  intros Hr. unfold lock_grant_blocked_waiter.
  destruct (grant_waiters _ _ _ _ _ _) as [[[r' hold'] ws] ch] eqn:E. cbn. split.
  - eapply grant_waiters_holders; [exact E|]. by eapply grant_holder_stopped.
  - apply (grant_waiters_stop _ _ _ _ _ _ _ _ _ _ E). constructor.
Qed.

(** A release of a holder's lock leaves nobody behind who could be granted. *)
Lemma unlock_grants c quiet t k g r :
  table_ok c g -> is_holder g t k ->
  obj_hash_table (lock_internal_perform_unlock_object quiet t k true g) !! k = Some r ->
  holders_stopped (holder r) /\ waiters_stopped r.
Proof.
  intros Hg (r0 & Er & Hin). unfold lock_internal_perform_unlock_object. rewrite Er.
  destruct (find_entry_in _ _ Hin) as [e Ee]. rewrite Ee. cbn [negb andb].
  pose proof (table_get c g k r0 Hg Er) as [Hr Hw].
  pose proof (find_entry_Some _ _ _ Ee) as [Ht Hp]. pose proof Hr as Hr'. rewrite Hp in Hr'.
  pose proof (unlock_holder_ok c (is_holder g) k true t e e _ r0 _ Hr' Ht Ht eq_refl Hw) as Hu.
  destruct (unlock_holder true t k e r0 (inst_hold_list g)) as [r1 hold1].
  apply lock_grant_stopped in Hu. cbn zeta in Hu. unfold unlock_grant.
  destruct (lock_grant_blocked_waiter _ _ _) as [r2 hold2]. cbn in Hu.
  destruct (holder r1) as [|h hs] eqn:Eh, (waiter r1) as [|w ws] eqn:Ew; try destruct quiet; cbn;
    rewrite ?lookup_delete_eq, ?lookup_insert_eq; intros [= <-]; try exact Hu.
  split; exists [], []; by rewrite ?Eh, ?Ew.
Qed.
End Steps.
