(* ===== verification/LockManagerProps.v ===== *)
(** * Properties of the lock manager *)
From Stdlib Require Import ZArith Lia ZifyBool Sorting.Sorted Relations.
From stdpp Require Import base list numbers gmap relations.
From S2P Require Import Prelude LockTable LockManager LockManagerInv LockManagerSteps.

(** ** Deciding which transactions run *)

Definition runs_on (t : Z) (r : LK_RES) : Prop :=
  match find_entry t (holder r ++ waiter r) with
  | Some e => is_blocked e = false
  | None => True
  end.

#[export] Instance runs_on_dec t r : Decision (runs_on t r).
Proof. unfold runs_on. destruct (find_entry _ _); apply _. Defined.

Lemma runnable_map (t : Z) (g : LK_GLOBAL Z) :
  map_Forall (fun _ r => runs_on t r) (obj_hash_table g) -> runnable t g.
Proof.
  intros Hm k e. unfold entry_of. destruct (obj_hash_table g !! k) as [r|] eqn:Er; [|done].
  cbn. specialize (Hm k r Er). unfold runs_on in Hm. intros E. by rewrite E in Hm.
Qed.

(** A concrete transaction runs in a concrete state. *)
Ltac runs := apply runnable_map, (bool_decide_unpack _); by vm_compute.

(** ** Isolation *)

(** C2: whatever the requests, releases, timeouts, deadlock victims and
    interrupts, and however they interleave, two transactions that hold a lock
    on the same value hold compatible modes, provided that a thread woken up
    without its lock removes its request before the next operation on the
    table. *)
Theorem lock_holders_compatible {K} `{Countable K} (g : LK_GLOBAL K) k r e e' :
  rtc lk_step_prompt lock_initialize g ->
  obj_hash_table g !! k = Some r -> e ∈ holder r -> e' ∈ holder r ->
  tran_index e <> tran_index e' ->
  lock_Comp (granted_mode e) (granted_mode e') = COMPATIBLE.
Proof.
  intros Hg%reachable_prompt_ok Hr He He' Hne. destruct (table_get _ _ _ _ Hg Hr) as [[] _].
  apply list_elem_of_lookup in He as [i Hi], He' as [j Hj].
  assert (StronglySorted entries_compatible (holder r)) as Hs by (by apply ok_compat).
  rewrite StronglySorted_lookup in Hs.
  - eapply (Hs i j); [|done..]. intros ->. congruence.
  - intros a b. unfold entries_compatible. by rewrite Comp_sym.
Qed.

(** Transactions 1 and 2 share a value, 3 waits for it. *)
Definition shared1 : LK_GLOBAL Z := (lock_object true true 1 7 S_LOCK (-1) lock_initialize).2.
Definition shared2 : LK_GLOBAL Z := (lock_object true true 2 7 U_LOCK (-1) shared1).2.
Definition shared3 : LK_GLOBAL Z := (lock_object true true 3 7 X_LOCK (-1) shared2).2.

Lemma shared_reachable : rtc lk_step_prompt lock_initialize shared3.
Proof.
  eapply rtc_l; [apply (prompt_lock true true 1 7 S_LOCK (-1)); [runs|done]|].
  eapply rtc_l; [apply (prompt_lock true true 2 7 U_LOCK (-1)); [runs|done]|].
  eapply rtc_l; [apply (prompt_lock true true 3 7 X_LOCK (-1)); [runs|done]|]. done.
Qed.

Lemma lock_holders_compatible_witness :
  exists r e e', obj_hash_table shared3 !! 7 = Some r /\ e ∈ holder r /\ e' ∈ holder r
    /\ granted_mode e = U_LOCK /\ granted_mode e' = S_LOCK
    /\ lock_Comp (granted_mode e) (granted_mode e') = COMPATIBLE.
Proof.
  eexists _, (mkEntry 2 U_LOCK NULL_LOCK 1 false), (mkEntry 1 S_LOCK NULL_LOCK 1 false).
  assert (mkEntry 2 U_LOCK NULL_LOCK 1 false ∈
            [mkEntry 2 U_LOCK NULL_LOCK 1 false; mkEntry 1 S_LOCK NULL_LOCK 1 false]) as H1 by (by left).
  assert (mkEntry 1 S_LOCK NULL_LOCK 1 false ∈
            [mkEntry 2 U_LOCK NULL_LOCK 1 false; mkEntry 1 S_LOCK NULL_LOCK 1 false]) as H2
    by (right; by left).
  split; [by vm_compute|]. split; [exact H1|]. split; [exact H2|]. split; [done|]. split; [done|].
  eapply (lock_holders_compatible shared3 7); [apply shared_reachable|by vm_compute|exact H1|exact H2|done].
Defined.

(** C39: a thread that was woken up by a timeout and has not yet removed its
    request breaks the isolation of the others.  Transactions 1 and 2 share a
    value with the update lock of 3; 1 asks for an update lock and 2 for an
    exclusive one; 1 times out; 3 releases its lock before 1 runs.
    lock_grant_blocked_holder passes over the entry of 1 and then compares the
    request of 2 only with the entries behind it, so 2 gets the exclusive lock
    while 1 keeps its shared one, also after 1 has removed its request. *)
Theorem lock_timeout_race :
  exists g : LK_GLOBAL Z, rtc lk_step lock_initialize g
    /\ lock_get_current_lock 1 7 g = S_LOCK /\ lock_get_current_lock 2 7 g = X_LOCK
    /\ runnable 1 g /\ runnable 2 g.
Proof.
  set (ask t l g := (lock_object true true t 7 l (-1) g).2).
  set (g5 := ask 2 X_LOCK (ask 1 U_LOCK (ask 2 S_LOCK (ask 1 S_LOCK
               (ask 3 U_LOCK lock_initialize))))).
  set (g7 := lock_unlock_object true 3 7 true (lock_wakeup 1 7 g5)).
  exists (lock_internal_perform_unlock_object true 1 7 false g7). split.
  - unfold g7, g5, ask.
    eapply rtc_r; [|eapply step_give_up; [by vm_compute|done|done]].
    eapply rtc_r; [|apply (step_unlock true 3 7 true); runs].
    eapply rtc_r; [|apply step_wakeup].
    do 5 (eapply rtc_r; [|apply (step_lock true true _ 7 _ (-1)); [runs|done]]).
    done.
  - split; [by vm_compute|]. split; [by vm_compute|]. split; runs.
Qed.

(** ** Bookkeeping *)

(** C24: in every reachable state, also when woken threads are late, a
    transaction has at most one entry for a value, holding or waiting; the hold
    list of a transaction names exactly the values it is a holder of, each
    once; the total mode of the holders covers what every holder holds and asks
    for, and the total mode of the waiters is the one of their requests. *)
Theorem lock_bookkeeping {K} `{Countable K} (g : LK_GLOBAL K) :
  rtc lk_step lock_initialize g ->
  (forall t, NoDup (hold_of (inst_hold_list g) t)
     /\ forall k, k ∈ hold_of (inst_hold_list g) t <-> is_holder g t k)
  /\ forall k r, obj_hash_table g !! k = Some r ->
       NoDup (tran_index <$> holder r ++ waiter r)
       /\ Forall (fun e => granted_mode e <> NULL_LOCK
            /\ mode_le (granted_mode e) (total_holders_mode r)
            /\ mode_le (blocked_mode e) (total_holders_mode r)) (holder r)
       /\ Forall (fun e => granted_mode e = NULL_LOCK /\ is_blocked e = true) (waiter r)
       /\ total_waiters_mode r = blocked_of (waiter r).
Proof.
  intros Hg%reachable_ok. split.
  { intros t. split; [apply (ok_hold_nodup _ _ Hg)|intros k; apply (ok_hold _ _ Hg)]. }
  intros k r Hr. destruct (table_get _ _ _ _ Hg Hr) as [[] Hw].
  split; [done|]. split; [|split; [|done]].
  - eapply Forall_impl; [exact ok_holders|]. by intros e (_ & ? & ? & ?).
  - eapply Forall_impl; [exact ok_waiters|]. intros e (? & Hb & _). split; [done|].
    unfold is_blocked. by rewrite bool_decide_false.
Qed.

Lemma shared_reachable_late : rtc lk_step lock_initialize shared3.
Proof.
  do 3 (eapply rtc_r; [|apply (step_lock true true _ 7 _ (-1)); [runs|done]]). done.
Qed.

Lemma lock_bookkeeping_witness :
  (7 ∈ hold_of (inst_hold_list shared3) 2 <-> is_holder shared3 2 7) /\ is_holder shared3 2 7.
Proof.
  destruct (lock_bookkeeping shared3 shared_reachable_late) as [Hh _].
  assert (7 ∈ hold_of (inst_hold_list shared3) 2 <-> is_holder shared3 2 7) as Hi
    by apply (proj2 (Hh 2)).
  split; [exact Hi|]. apply Hi. replace (hold_of _ _) with [7]; [by left|by vm_compute].
Defined.

(** At the end of a transaction lock_unlock_all leaves it without locks:
    its hold list is empty and it is among the holders of no value. *)
Theorem lock_unlock_all_releases {K} `{Countable K} (quiet : bool) (t : Z) (g : LK_GLOBAL K) :
  rtc lk_step lock_initialize g ->
  let g' := lock_unlock_all quiet t g in
  hold_of (inst_hold_list g') t = [] /\ (forall k, lock_get_current_lock t k g' = NULL_LOCK)
  /\ forall k, ~ is_holder g' t k.
Proof.
  intros Hg%reachable_ok g'. assert (hold_of (inst_hold_list g') t = []) as Hh
    by (by apply (unlock_all_hold False)).
  split; [done|]. split.
  - intros k. unfold lock_get_current_lock. rewrite Hh, decide_False; [done|apply not_elem_of_nil].
  - intros k Hk%(ok_hold _ _ (unlock_all_ok False _ quiet t g Hg)).
    unfold g', lock_unlock_all in Hh. rewrite Hh in Hk. by apply elem_of_nil in Hk.
Qed.

Lemma lock_unlock_all_releases_witness :
  lock_get_current_lock 2 7 shared3 = U_LOCK
  /\ lock_get_current_lock 2 7 (lock_unlock_all true 2 shared3) = NULL_LOCK.
Proof.
  split; [by vm_compute|]. apply (lock_unlock_all_releases true 2 shared3 shared_reachable_late).
Defined.

(** ** Requests and releases *)

(** A request that is answered LK_GRANTED leaves the transaction with a
    lock at least as strong as the one it asked for. *)
Theorem lock_granted_sufficient {K} `{Countable K} (ok_res ok : bool) (t : Z) (k : K) lock wait
    (g g' : LK_GLOBAL K) :
  rtc lk_step lock_initialize g -> runnable t g -> lock <> NA_LOCK -> lock <> NULL_LOCK ->
  lock_object ok_res ok t k lock wait g = (LK_GRANTED, g') ->
  mode_le lock (lock_get_current_lock t k g').
Proof. intros Hg%reachable_ok. by apply (granted_holds False). Qed.

(** Transaction 2 keeps its update lock when it asks for a shared one. *)
Lemma lock_granted_sufficient_witness :
  mode_le S_LOCK (lock_get_current_lock 2 7 (lock_object true true 2 7 S_LOCK (-1) shared3).2).
Proof.
  apply (lock_granted_sufficient true true 2 7 S_LOCK (-1) shared3);
    [apply shared_reachable_late|runs|done|done|by vm_compute].
Defined.

(** C32: no wakeup is lost.  After a lock was released, the first blocked
    holder whose thread is still suspended conflicts with an entry behind it in
    the list, and the first suspended waiter conflicts with the holders. *)
Theorem lock_release_grants {K} `{Countable K} (quiet : bool) (t : Z) (k : K) (g : LK_GLOBAL K) r :
  rtc lk_step lock_initialize g -> is_holder g t k ->
  obj_hash_table (lock_unlock_object quiet t k true g) !! k = Some r ->
  holders_stopped (holder r) /\ waiters_stopped r.
Proof.
  intros Hg%reachable_ok Ht. unfold lock_unlock_object.
  destruct (lock_find_tran_hold_entry t k g) as [e|] eqn:E; [by eapply unlock_grants|].
  destruct Ht as (r0 & Hr & Hin). unfold lock_find_tran_hold_entry in E.
  rewrite Hr in E. cbn in E. by apply find_entry_None in E.
Qed.

Lemma lock_release_grants_witness :
  exists r, obj_hash_table (lock_unlock_object true 2 7 true shared3) !! 7 = Some r
    /\ waiter r <> [] /\ holders_stopped (holder r) /\ waiters_stopped r.
Proof.
  eexists. split; [by vm_compute|]. split; [done|].
  apply (lock_release_grants true 2 7 shared3); [apply shared_reachable_late| |by vm_compute].
  eexists. split; [by vm_compute|]. by left.
Defined.

Lemma find_update t f l e :
  find_entry t l = Some e -> tran_index (f e) = t ->
  find_entry t (update_entry t f l) = Some (f e).
Proof.
  intros E Hf. induction l as [|i l IH]; cbn in *; [done|].
  destruct (tran_index i =? t) eqn:Ei; cbn; [|by rewrite Ei, IH].
  injection E as ->. by rewrite Hf, Z.eqb_refl.
Qed.

(** A release that uses up the count is a forced one. *)
Lemma unlock_last {K} `{Countable K} quiet t (k : K) (g : LK_GLOBAL K) e :
  lock_find_tran_hold_entry t k g = Some e -> count e <= 1 ->
  lock_internal_perform_unlock_object quiet t k false g
  = lock_internal_perform_unlock_object quiet t k true g.
Proof.
  unfold lock_find_tran_hold_entry, lock_internal_perform_unlock_object.
  destruct (obj_hash_table g !! k) as [r|]; [|done]. cbn. intros -> Hc. cbn.
  unfold unlock_holder. cbn. replace (count e - 1 >? 0) with false by lia.
  by rewrite andb_false_r.
Qed.

(** Locks are counted.  A release that is not forced of a lock that was
    granted more than once takes one off its count and keeps its mode; that of
    a lock granted once takes the transaction out of the holders. *)
Theorem lock_unlock_counts {K} `{Countable K} (quiet : bool) (t : Z) (k : K) (g : LK_GLOBAL K) e :
  rtc lk_step lock_initialize g ->
  lock_find_tran_hold_entry t k g = Some e -> is_blocked e = false ->
  lock_find_tran_hold_entry t k (lock_unlock_object quiet t k false g)
  = if count e >? 1 then Some (set_count e (count e - 1)) else None.
Proof.
  intros Hg%reachable_ok He Hb. unfold lock_unlock_object. rewrite He.
  assert (exists r, obj_hash_table g !! k = Some r /\ find_entry t (holder r) = Some e) as (r & Hr & Hf).
  { unfold lock_find_tran_hold_entry in He. destruct (obj_hash_table g !! k) as [r|]; [|done].
    by exists r. }
  pose proof (find_entry_Some _ _ _ Hf) as [Ht Hp]. destruct (count e >? 1) eqn:Ec.
  - unfold lock_internal_perform_unlock_object. rewrite Hr, Hf.
    change (is_blocked (set_count e (count e - 1))) with (is_blocked e). rewrite Hb. cbn.
    replace (count e - 1 >? 0) with true by lia. unfold lock_find_tran_hold_entry. cbn.
    rewrite lookup_insert_eq. cbn. by apply (find_update t (fun _ => set_count e (count e - 1)) _ e).
  - rewrite (unlock_last quiet t k g e He) by lia.
    pose proof (perform_unlock_gone False quiet t k g Hg) as Hn.
    unfold lock_find_tran_hold_entry.
    destruct (obj_hash_table (lock_internal_perform_unlock_object _ _ _ _ _) !! k) as [r'|] eqn:E';
      [|done].
    cbn. apply find_entry_None. intros Hin. apply Hn; [|by exists r'].
    exists r. split; [done|]. rewrite Hp. cbn. rewrite Ht. by left.
Qed.

Lemma lock_unlock_counts_witness :
  lock_find_tran_hold_entry 2 7 (lock_unlock_object true 2 7 false shared3) = None.
Proof.
  apply (lock_unlock_counts true 2 7 shared3 (mkEntry 2 U_LOCK NULL_LOCK 1 false));
    [apply shared_reachable_late|by vm_compute|done].
Defined.
