(* ===== verification/Deadlock.v ===== *)
(** * Deadlock detection (src/transaction/lock_manager.c)

    The wait-for graph of transactions, its construction from the lock table,
    the search for cycles and the choice of a victim.  The tables of nodes and
    edges are arrays: functions from indices with a number of elements, and an
    access outside is None.  Lists of edges are linked by indices, with -1 for
    the end, and the path of the search is linked by the field ancestor. *)
From Stdlib Require Import ZArith Lia ZifyBool.
From stdpp Require Import base list numbers gmap.
From S2P Require Import Prelude LockTable LockManager.

(** ** Data *)

Record LK_WFG_NODE := mkNode {
  first_edge : Z;
  candidate : bool;
  current : Z;
  ancestor : Z;
  thrd_wait_stime : Z;
  tran_edge_seq_num : Z;
  checked_by_deadlock_detector : bool;
  DL_victim : bool }.

Record LK_WFG_EDGE := mkEdge {
  to_tran_index : Z;
  edge_seq_num : Z;
  holder_flag : bool;
  next : Z;
  edge_wait_stime : Z }.

(** The array tran_index_in_cycle of a victim: its allocation may fail, and it
    stays uninitialised when the allocation of the message fails. *)
Inductive CYCLE :=
| NO_CYCLE
| UNINITIALISED
| IN_CYCLE (l : list Z).

Record LK_DEADLOCK_VICTIM := mkVictim {
  victim_index : Z;
  victim_tranid : Z;
  victim_can_timeout : bool;
  num_trans_in_cycle : Z;
  tran_index_in_cycle : CYCLE }.

(** The fields of lk_Gl for the detection, and the array victims up to
    victim_count.  [edge_count] is the number of elements of the array that
    TWFG_edge points to, 0 when it is NULL. *)
Record TWFG := mkTWFG {
  num_trans : Z;
  TWFG_node : Z -> LK_WFG_NODE;
  TWFG_edge : Z -> LK_WFG_EDGE;
  edge_count : Z;
  max_TWFG_edge : Z;
  TWFG_free_edge_idx : Z;
  global_edge_seq_num : Z;
  victims : list LK_DEADLOCK_VICTIM }.

Definition LK_MIN_TWFG_EDGE_COUNT : Z := 200.
Definition LK_MID_TWFG_EDGE_COUNT : Z := 1000.
Definition LK_MAX_VICTIM_COUNT : Z := 300.

(** MAX_NTRANS is also num_trans, the number of nodes. *)
Definition LK_MAX_TWFG_EDGE_COUNT (g : TWFG) : Z := num_trans g * num_trans g.

(** What the detector asks the table of transactions. *)
Record TRAN_TABLE := mkTranTable {
  logtb_find_tranid : Z -> Z;
  logtb_is_active : Z -> bool;
  logtb_find_wait_msecs : Z -> Z }.

Definition LK_CAN_TIMEOUT (msecs : Z) : bool := negb (msecs =? LK_INFINITE_WAIT).
Definition LK_ISYOUNGER (young_tranid old_tranid : Z) : bool := young_tranid >? old_tranid.

(** ** Access to the arrays *)

Definition node (g : TWFG) (i : Z) : option LK_WFG_NODE :=
  if (0 <=? i) && (i <? num_trans g) then Some (TWFG_node g i) else None.

Definition edge (g : TWFG) (i : Z) : option LK_WFG_EDGE :=
  if (0 <=? i) && (i <? edge_count g) then Some (TWFG_edge g i) else None.

Definition with_nodes (g : TWFG) (f : Z -> LK_WFG_NODE) : TWFG :=
  mkTWFG (num_trans g) f (TWFG_edge g) (edge_count g) (max_TWFG_edge g) (TWFG_free_edge_idx g)
    (global_edge_seq_num g) (victims g).
Definition with_edges (g : TWFG) (f : Z -> LK_WFG_EDGE) : TWFG :=
  mkTWFG (num_trans g) (TWFG_node g) f (edge_count g) (max_TWFG_edge g) (TWFG_free_edge_idx g)
    (global_edge_seq_num g) (victims g).
Definition with_free_edge (g : TWFG) (idx : Z) : TWFG :=
  mkTWFG (num_trans g) (TWFG_node g) (TWFG_edge g) (edge_count g) (max_TWFG_edge g) idx
    (global_edge_seq_num g) (victims g).
Definition with_seq (g : TWFG) (seq : Z) : TWFG :=
  mkTWFG (num_trans g) (TWFG_node g) (TWFG_edge g) (edge_count g) (max_TWFG_edge g)
    (TWFG_free_edge_idx g) seq (victims g).
Definition with_victims (g : TWFG) (vs : list LK_DEADLOCK_VICTIM) : TWFG :=
  mkTWFG (num_trans g) (TWFG_node g) (TWFG_edge g) (edge_count g) (max_TWFG_edge g)
    (TWFG_free_edge_idx g) (global_edge_seq_num g) vs.

Definition upd {A} (f : Z -> A) (i : Z) (x : A) : Z -> A := fun j => if j =? i then x else f j.

Definition mod_node (g : TWFG) (i : Z) (f : LK_WFG_NODE -> LK_WFG_NODE) : option TWFG :=
  n ← node g i; Some (with_nodes g (upd (TWFG_node g) i (f n))).

Definition mod_edge (g : TWFG) (i : Z) (f : LK_WFG_EDGE -> LK_WFG_EDGE) : option TWFG :=
  e ← edge g i; Some (with_edges g (upd (TWFG_edge g) i (f e))).

Definition set_first (i : Z) (n : LK_WFG_NODE) : LK_WFG_NODE :=
  mkNode i (candidate n) (current n) (ancestor n) (thrd_wait_stime n) (tran_edge_seq_num n)
    (checked_by_deadlock_detector n) (DL_victim n).
Definition set_candidate (b : bool) (n : LK_WFG_NODE) : LK_WFG_NODE :=
  mkNode (first_edge n) b (current n) (ancestor n) (thrd_wait_stime n) (tran_edge_seq_num n)
    (checked_by_deadlock_detector n) (DL_victim n).
Definition set_current (i : Z) (n : LK_WFG_NODE) : LK_WFG_NODE :=
  mkNode (first_edge n) (candidate n) i (ancestor n) (thrd_wait_stime n) (tran_edge_seq_num n)
    (checked_by_deadlock_detector n) (DL_victim n).
Definition set_ancestor (i : Z) (n : LK_WFG_NODE) : LK_WFG_NODE :=
  mkNode (first_edge n) (candidate n) (current n) i (thrd_wait_stime n) (tran_edge_seq_num n)
    (checked_by_deadlock_detector n) (DL_victim n).
Definition set_stime (z : Z) (n : LK_WFG_NODE) : LK_WFG_NODE :=
  mkNode (first_edge n) (candidate n) (current n) (ancestor n) z (tran_edge_seq_num n)
    (checked_by_deadlock_detector n) (DL_victim n).
Definition set_seq (z : Z) (n : LK_WFG_NODE) : LK_WFG_NODE :=
  mkNode (first_edge n) (candidate n) (current n) (ancestor n) (thrd_wait_stime n) z
    (checked_by_deadlock_detector n) (DL_victim n).
Definition set_checked (b : bool) (n : LK_WFG_NODE) : LK_WFG_NODE :=
  mkNode (first_edge n) (candidate n) (current n) (ancestor n) (thrd_wait_stime n)
    (tran_edge_seq_num n) b (DL_victim n).
Definition set_victim (b : bool) (n : LK_WFG_NODE) : LK_WFG_NODE :=
  mkNode (first_edge n) (candidate n) (current n) (ancestor n) (thrd_wait_stime n)
    (tran_edge_seq_num n) (checked_by_deadlock_detector n) b.

Definition set_to (t : Z) (e : LK_WFG_EDGE) : LK_WFG_EDGE :=
  mkEdge t (edge_seq_num e) (holder_flag e) (next e) (edge_wait_stime e).
Definition set_next_edge (i : Z) (e : LK_WFG_EDGE) : LK_WFG_EDGE :=
  mkEdge (to_tran_index e) (edge_seq_num e) (holder_flag e) i (edge_wait_stime e).

(** ** The pool of edges *)

(** The loop that links the edges from [lo] to [hi - 1], and the assignment to
    the last of them. *)
Definition link_edges (f : Z -> LK_WFG_EDGE) (lo hi : Z) : Z -> LK_WFG_EDGE :=
  fun i =>
    if (lo <=? i) && (i <? hi)
    then set_to (-1) (set_next_edge (if i =? hi - 1 then -1 else i + 1) (f i))
    else f i.

(** No edge is free: the array grows.  [malloc] is the memory that malloc
    returns, or None. *)
Definition grow_edges (malloc : option (Z -> LK_WFG_EDGE)) (g : TWFG) : option (Z * TWFG) :=
  if max_TWFG_edge g =? LK_MIN_TWFG_EDGE_COUNT then
    if LK_MID_TWFG_EDGE_COUNT <=? edge_count g then
      Some (NO_ERROR,
        mkTWFG (num_trans g) (TWFG_node g)
          (link_edges (TWFG_edge g) LK_MIN_TWFG_EDGE_COUNT LK_MID_TWFG_EDGE_COUNT) (edge_count g)
          LK_MID_TWFG_EDGE_COUNT LK_MIN_TWFG_EDGE_COUNT (global_edge_seq_num g) (victims g))
    else None
  else if max_TWFG_edge g =? LK_MID_TWFG_EDGE_COUNT then
    let max := LK_MAX_TWFG_EDGE_COUNT g in
    match malloc with
    | None =>
        Some (ER_OUT_OF_VIRTUAL_MEMORY,
          mkTWFG (num_trans g) (TWFG_node g) (TWFG_edge g) 0 max (TWFG_free_edge_idx g)
            (global_edge_seq_num g) (victims g))
    | Some block =>
        if LK_MID_TWFG_EDGE_COUNT <? max then
          let f i := if i <? LK_MID_TWFG_EDGE_COUNT then TWFG_edge g i else block i in
          Some (NO_ERROR,
            mkTWFG (num_trans g) (TWFG_node g) (link_edges f LK_MID_TWFG_EDGE_COUNT max) max max
              LK_MID_TWFG_EDGE_COUNT (global_edge_seq_num g) (victims g))
        else None
    end
  else Some (ER_FAILED, g).

(** The loop that finds the last edge of a list. *)
Fixpoint last_edge (fuel : nat) (g : TWFG) (curr : Z) : option Z :=
  match fuel with
  | O => None
  | S fuel =>
      e ← edge g curr;
      if next e =? -1 then Some curr else last_edge fuel g (next e)
  end.

(** The edges of a node go to the free list, and the node is marked as seen. *)
Definition new_transaction (g : TWFG) (i : Z) : option TWFG :=
  n ← node g i;
  if checked_by_deadlock_detector n then Some g
  else
    g ← (if first_edge n =? -1 then Some g
         else
           prev ← last_edge (Z.to_nat (edge_count g)) g (first_edge n);
           g' ← mod_edge g prev (set_next_edge (TWFG_free_edge_idx g));
           mod_node (with_free_edge g' (first_edge n)) i (set_first (-1)));
    mod_node g i (fun n => set_seq (global_edge_seq_num g) (set_checked true n)).

(** The end of lock_add_WFG_edge: an edge of the free list becomes the first
    edge of [from]. *)
Definition take_edge (g : TWFG) (from to : Z) (flag : bool) (stime : Z) : option TWFG :=
  let alloc_idx := TWFG_free_edge_idx g in
  e ← edge g alloc_idx;
  n ← node g from;
  g ← mod_edge (with_free_edge g (next e)) alloc_idx
        (fun _ => mkEdge to (global_edge_seq_num g) flag (first_edge n) stime);
  mod_node g from (set_first alloc_idx).

Definition lock_add_WFG_edge (malloc : option (Z -> LK_WFG_EDGE)) (g : TWFG)
    (from_tran_index to_tran_index : Z) (holder_flag : bool) (edge_wait_stime : Z)
    : option (Z * TWFG) :=
  from ← node g from_tran_index;
  to ← node g to_tran_index;
  if DL_victim from || DL_victim to then Some (NO_ERROR, g)
  else
    let g := with_seq g (global_edge_seq_num g + 1) in
    g ← new_transaction g from_tran_index;
    g ← new_transaction g to_tran_index;
    '(error, g) ← (if TWFG_free_edge_idx g =? -1 then grow_edges malloc g else Some (NO_ERROR, g));
    if negb (error =? NO_ERROR) then Some (error, g)
    else
      g ← take_edge g from_tran_index to_tran_index holder_flag edge_wait_stime;
      Some (NO_ERROR, g).

(** ** The choice of a victim *)

(** Whether the transaction of a node has ended, does not wait, or waits since
    a time after its current edge was made. *)
Definition is_old (g : TWFG) (n : LK_WFG_NODE) : option bool :=
  if negb (checked_by_deadlock_detector n) || (thrd_wait_stime n =? 0) then Some true
  else if current n =? -1 then Some false
  else e ← edge g (current n); Some (thrd_wait_stime n >? edge_wait_stime e).

(** TWFG_edge[TWFG_node[u].current].to_tran_index = -2 *)
Definition drop_edge (g : TWFG) (u : Z) : option TWFG :=
  n ← node g u; mod_edge g (current n) (set_to (-2)).

(** TWFG_node[s].current = TWFG_edge[TWFG_node[s].current].next *)
Definition advance (g : TWFG) (s : Z) : option TWFG :=
  n ← node g s; e ← edge g (current n); mod_node g s (set_current (next e)).

(** TWFG_node[t].first_edge = -1 and TWFG_node[t].current = -1 *)
Definition cut_edges (g : TWFG) (t : Z) : option TWFG :=
  mod_node g t (fun n => set_current (-1) (set_first (-1) n)).

(** The test of the edge from [u] to [v] of a cycle: true when the edge is
    not one of a deadlock. *)
Definition check_cycle_edge (g : TWFG) (u v : Z) : option (TWFG * bool) :=
  n ← node g v;
  if current n =? -1 then g ← drop_edge g u; Some (g, true)
  else
    old ← is_old g n;
    if old : bool then
      g ← cut_edges g v; g ← drop_edge g u; Some (g, true)
    else
      nu ← node g u;
      e ← edge g (current nu);
      if edge_seq_num e <? tran_edge_seq_num n
      then g ← drop_edge g u; Some (g, true)
      else Some (g, false).

(** The loops from [v] = s along the ancestors to t. *)
Fixpoint check_cycle (fuel : nat) (g : TWFG) (v t : Z) (false_dd_cycle : bool)
    : option (TWFG * bool) :=
  if v =? t then Some (g, false_dd_cycle)
  else
    match fuel with
    | O => None
    | S fuel =>
        n ← node g v;
        '(g, b) ← check_cycle_edge g (ancestor n) v;
        check_cycle fuel g (ancestor n) t (false_dd_cycle || b)
    end.

Fixpoint clear_cycle (fuel : nat) (g : TWFG) (v t : Z) : option TWFG :=
  if v =? t then Some g
  else
    match fuel with
    | O => None
    | S fuel =>
        n ← node g v;
        g ← mod_node g v (set_ancestor (-1));
        clear_cycle fuel g (ancestor n) t
    end.

(** The transactions of the cycle: s, its ancestors and t. *)
Fixpoint cycle_nodes (fuel : nat) (g : TWFG) (v t : Z) : option (list Z) :=
  if v =? t then Some [t]
  else
    match fuel with
    | O => None
    | S fuel => n ← node g v; l ← cycle_nodes fuel g (ancestor n) t; Some (v :: l)
    end.

(** victims[victim_count] during the choice: the index, the identifier and
    can_timeout, or None for NULL_TRAN_INDEX. *)
Definition choose (tt : TRAN_TABLE) (best : option (Z * Z * bool)) (v : Z) : option (Z * Z * bool) :=
  let tranid := logtb_find_tranid tt v in
  if negb (logtb_is_active tt tranid) then best
  else
    let can_timeout := LK_CAN_TIMEOUT (logtb_find_wait_msecs tt v) in
    match best with
    | None => Some (v, tranid, can_timeout)
    | Some (_, id, can) =>
        if (negb can && can_timeout) || (eqb can can_timeout && LK_ISYOUNGER tranid id)
        then Some (v, tranid, can_timeout) else best
    end.

Fixpoint choose_victim (tt : TRAN_TABLE) (fuel : nat) (g : TWFG) (v t : Z)
    (best : option (Z * Z * bool)) : option (option (Z * Z * bool)) :=
  if v =? t then Some best
  else
    match fuel with
    | O => None
    | S fuel =>
        n ← node g v;
        choose_victim tt fuel g (ancestor n) t (if candidate n then choose tt best v else best)
    end.

(** The loop that looks for an edge of the cycle to take out when there is no
    victim; [n] nodes are left and the result tells whether one was found. *)
Fixpoint cut_false_edge (n : nat) (g : TWFG) (v : Z) : option (TWFG * bool) :=
  match n with
  | O => Some (g, false)
  | S n =>
      nv ← node g v;
      e ← edge g (current nv);
      next_node ← node g (to_tran_index e);
      old ← (if negb (checked_by_deadlock_detector next_node) || (thrd_wait_stime next_node =? 0)
             then Some true
             else e' ← edge g (current next_node);
                  Some (thrd_wait_stime next_node >? edge_wait_stime e'));
      if old : bool then
        g ← cut_edges g (to_tran_index e);
        g ← drop_edge g v;
        g ← advance g v;
        Some (g, true)
      else cut_false_edge n g (ancestor nv)
  end.

(** [mem] tells whether the allocations of cycle_info_string and of
    tran_index_in_cycle succeed. *)
Definition lock_select_deadlock_victim (tt : TRAN_TABLE) (mem : bool * bool) (g : TWFG) (s t : Z)
    : option TWFG :=
  let fuel := Z.to_nat (num_trans g) in
  '(g, b) ← check_cycle_edge g s t;
  '(g, false_dd_cycle) ← check_cycle fuel g s t b;
  if false_dd_cycle : bool then clear_cycle fuel g s t
  else
    ns ← node g s;
    e ← edge g (current ns);
    let best := if holder_flag e then choose tt None t else None in
    cycle ← cycle_nodes fuel g s t;
    best ← choose_victim tt fuel g s t best;
    g ← match best with
        | Some (v, tranid, can_timeout) =>
            g ← mod_node g v (set_current (-1));
            let l := match mem with
                     | (true, true) => IN_CYCLE cycle
                     | (false, true) => UNINITIALISED
                     | _ => NO_CYCLE
                     end in
            let victim := mkVictim v tranid can_timeout (Z.of_nat (length cycle)) l in
            Some (with_victims g (victims g ++ [victim]))
        | None =>
            '(g, found) ← cut_false_edge (length cycle) g s;
            if found : bool then Some g
            else g ← drop_edge g s; advance g s
        end;
    clear_cycle fuel g s t.

(** ** The search for cycles *)

(** One iteration of the loop of lock_detect_local_deadlock at the node [s]:
    the node of the next iteration, and whether the search stops because the
    array victims is full. *)
Definition visit (tt : TRAN_TABLE) (mem : bool * bool) (g : TWFG) (s : Z) : option (TWFG * Z * bool) :=
  n ← node g s;
  old ← is_old g n;
  g ← (if old : bool then cut_edges g s else Some g);
  n ← node g s;
  if current n =? -1 then
    let t := ancestor n in
    g ← mod_node g s (set_ancestor (-1));
    if t =? -2 then Some (g, t, false)
    else
      p ← node g t;
      if current p =? -1 then Some (g, t, false)
      else g ← advance g t; Some (g, t, false)
  else
    e ← edge g (current n);
    let t := to_tran_index e in
    if t =? -2 then g ← advance g s; Some (g, s, false)
    else
      nt ← node g t;
      if current nt =? -1 then
        g ← drop_edge g s; g ← advance g s; Some (g, s, false)
      else
        old ← is_old g nt;
        if old : bool then
          g ← cut_edges g t; g ← drop_edge g s; g ← advance g s; Some (g, s, false)
        else if edge_seq_num e <? tran_edge_seq_num nt then
          g ← drop_edge g s; g ← advance g s; Some (g, s, false)
        else if negb (ancestor nt =? -1) then
          g ← lock_select_deadlock_victim tt mem g s t;
          Some (g, t, Z.of_nat (length (victims g)) >=? LK_MAX_VICTIM_COUNT)
        else
          g ← mod_node g t (fun nt => set_candidate (holder_flag e) (set_ancestor s nt));
          Some (g, t, false).

(** What other threads do to a node while the search runs: lock_suspend writes
    thrd_wait_stime, lock_clear_deadlock_victim resets
    checked_by_deadlock_detector. *)
Definition interfere (g : TWFG) (changes : list (Z * (bool * Z))) : TWFG :=
  foldl (fun g c => with_nodes g (upd (TWFG_node g) c.1
                      (set_checked c.2.1 (set_stime c.2.2 (TWFG_node g c.1))))) g changes.

Section Search.
Context (tt : TRAN_TABLE) (mem : bool * bool).

(** [env i] is what the other threads do before the i-th iteration of the
    search; the counter goes on from one start node to the next. *)
Context (env : nat -> list (Z * (bool * Z))).

(** The loop [for (; s != -2;)]. *)
Fixpoint search_from (fuel : nat) (i : nat) (g : TWFG) (s : Z) : option (nat * TWFG * bool) :=
  if s =? -2 then Some (i, g, false)
  else
    match fuel with
    | O => None
    | S fuel =>
        '(g, s, full) ← visit tt mem (interfere g (env i)) s;
        if full : bool then Some (S i, g, true) else search_from fuel (S i) g s
    end.

(** The loop over the start nodes [ks]. *)
Fixpoint search (fuel : nat) (i : nat) (g : TWFG) (ks : list Z) : option TWFG :=
  match ks with
  | [] => Some g
  | k :: ks =>
      n ← node g k;
      if current n =? -1 then search fuel i g ks
      else
        g ← mod_node g k (set_ancestor (-2));
        '(i, g, full) ← search_from fuel i g k;
        if full : bool then Some g else search fuel i g ks
  end.
End Search.

Definition start_nodes (g : TWFG) : list Z := seqZ 1 (num_trans g - 1).

(** The loop before the search: current = first_edge and ancestor = -1. *)
Definition prepare_search (g : TWFG) : TWFG :=
  with_nodes g (fun i =>
    let n := TWFG_node g i in
    if (1 <=? i) && (i <? num_trans g) then set_ancestor (-1) (set_current (first_edge n) n) else n).

(** An iteration advances one of the lists of edges, drops an edge, or moves
    on the path of at most num_trans nodes. *)
Definition search_fuel (g : TWFG) : nat :=
  Z.to_nat ((2 * edge_count g + 1) * (3 * num_trans g + 1)).

Definition find_cycles (tt : TRAN_TABLE) (mem : bool * bool) (env : nat -> list (Z * (bool * Z)))
    (g : TWFG) : option TWFG :=
  search tt mem env (search_fuel g) 0 (prepare_search g) (start_nodes g).

(** ** The construction of the graph *)

(** lock_initialize_deadlock_detection; [mem] is the memory of the nodes. *)
Definition lock_initialize_deadlock_detection (trans : Z) (block : Z -> LK_WFG_EDGE)
    (mem : option (Z -> LK_WFG_NODE)) : Z * option TWFG :=
  match mem with
  | None => (ER_OUT_OF_VIRTUAL_MEMORY, None)
  | Some f =>
      (NO_ERROR,
       Some (mkTWFG trans
               (fun i => set_stime 0 (set_checked false (set_victim false (f i))))
               block 0 0 (-1) 0 []))
  end.

(** The initialisation at the start of lock_detect_local_deadlock; [block] is
    the content of TWFG_edge_block. *)
Definition initialize_graph (block : Z -> LK_WFG_EDGE) (g : TWFG) : TWFG :=
  mkTWFG (num_trans g)
    (fun i =>
       let n := TWFG_node g i in
       if (1 <=? i) && (i <? num_trans g) then set_checked true (set_seq 0 (set_first (-1) n)) else n)
    (link_edges block 0 LK_MIN_TWFG_EDGE_COUNT) LK_MID_TWFG_EDGE_COUNT LK_MIN_TWFG_EDGE_COUNT 0 0 [].

(** lock_clear_deadlock_victim, at the end of a transaction. *)
Definition lock_clear_deadlock_victim (g : TWFG) (i : Z) : option TWFG :=
  mod_node g i (fun n => set_victim false (set_checked false n)).

(** An edge to be added: from, to, holder_flag and edge_wait_stime. *)
Record WAIT := mkWait {
  w_from : Z;
  w_to : Z;
  w_holder : bool;
  w_stime : Z }.

(** The calls of lock_add_WFG_edge for a resource, in order.  [stime] is
    lockwait_stime of the thread of a transaction. *)
Section Waits.
Context (stime : Z -> Z).

Definition wait_for (hj hi : LK_ENTRY) (flag : bool) : WAIT :=
  mkWait (tran_index hj) (tran_index hi) flag (stime (tran_index hj)).

(** Between the holder [hi] and one behind it. *)
Definition holder_waits (hi hj : LK_ENTRY) : list WAIT :=
  (if negb (compatible (blocked_mode hj) (granted_mode hi))
      || negb (compatible (blocked_mode hj) (blocked_mode hi))
   then [wait_for hj hi true] else [])
  ++ (if negb (compatible (blocked_mode hi) (granted_mode hj)) then [wait_for hi hj true] else []).

Fixpoint among_holders (hs : list LK_ENTRY) : list WAIT :=
  match hs with
  | [] => []
  | hi :: hs => if negb (is_blocked hi) then [] else (hs ≫= holder_waits hi) ++ among_holders hs
  end.

Definition waiter_to_holder (hi hj : LK_ENTRY) : list WAIT :=
  if negb (compatible (blocked_mode hj) (granted_mode hi))
     || negb (compatible (blocked_mode hj) (blocked_mode hi))
  then [wait_for hj hi true] else [].

Definition waiter_to_waiter (hi hj : LK_ENTRY) : list WAIT :=
  if negb (compatible (blocked_mode hj) (blocked_mode hi)) then [wait_for hj hi false] else [].

Fixpoint among_waiters (ws : list LK_ENTRY) : list WAIT :=
  match ws with
  | [] => []
  | hi :: ws => (ws ≫= waiter_to_waiter hi) ++ among_waiters ws
  end.

Definition resource_waits (r : LK_RES) : list WAIT :=
  among_holders (holder r)
  ++ (holder r ≫= fun hi => waiter r ≫= waiter_to_holder hi)
  ++ among_waiters (waiter r).
End Waits.

Section Detect.
Context {K : Type} `{Countable K}.

(** A resource with waiters and no holder: its waiters are granted. *)
Definition repair_resource (k : K) (lk : LK_GLOBAL K) : LK_GLOBAL K :=
  match obj_hash_table lk !! k with
  | Some r =>
      match holder r, waiter r with
      | [], _ :: _ =>
          let r := mkRes NULL_LOCK (total_waiters_mode r) (holder r) (waiter r) in
          let '(r, hold) := lock_grant_blocked_waiter k r (inst_hold_list lk) in
          mkGlobal (<[k := r]> (obj_hash_table lk)) hold
      | _, _ => lk
      end
  | None => lk
  end.

(** The calls for the resources [ks], the order of the blocks. *)
Fixpoint collect_waits (stime : Z -> Z) (ks : list K) (lk : LK_GLOBAL K) : LK_GLOBAL K * list WAIT :=
  match ks with
  | [] => (lk, [])
  | k :: ks =>
      let lk := repair_resource k lk in
      let ws := match obj_hash_table lk !! k with
                | Some r => resource_waits stime r
                | None => []
                end in
      let '(lk, ws') := collect_waits stime ks lk in
      (lk, ws ++ ws')
  end.

(** The errors of lock_add_WFG_edge are ignored. *)
Fixpoint add_edges (malloc : option (Z -> LK_WFG_EDGE)) (ws : list WAIT) (g : TWFG) : option TWFG :=
  match ws with
  | [] => Some g
  | w :: ws =>
      '(_, g) ← lock_add_WFG_edge malloc g (w_from w) (w_to w) (w_holder w) (w_stime w);
      add_edges malloc ws g
  end.

(** lock_detect_local_deadlock up to the label final: the lock table and the
    graph with the victims. *)
Definition lock_detect_local_deadlock (tt : TRAN_TABLE) (mem : bool * bool)
    (malloc : option (Z -> LK_WFG_EDGE)) (block : Z -> LK_WFG_EDGE)
    (env : nat -> list (Z * (bool * Z))) (stime : Z -> Z) (ks : list K) (lk : LK_GLOBAL K) (g : TWFG)
    : option (LK_GLOBAL K * TWFG) :=
  let '(lk, ws) := collect_waits stime ks lk in
  g ← add_edges malloc ws (initialize_graph block g);
  g ← find_cycles tt mem env g;
  Some (lk, g).
End Detect.
