(* ===== verification/DeadlockSearch.v ===== *)
(** * The search for deadlocks: its state

    What the search of lock_detect_local_deadlock keeps about the graph it
    started from, when no other thread interferes: each node has a rest of its
    list of edges to look at, and the nodes with an ancestor are a path. *)
From Stdlib Require Import ZArith Lia ZifyBool.
From stdpp Require Import base list numbers gmap relations.
From S2P Require Import Prelude LockTable LockManager Deadlock.

(** The list of edges that starts at the index [i]. *)
Fixpoint chain (nx : Z -> Z) (i : Z) (l : list Z) : Prop :=
  match l with
  | [] => i = -1
  | e :: l => i = e /\ chain nx (nx e) l
  end.

Lemma edge_chain_ext nx nx' i l :
  (forall e, e ∈ l -> nx e = nx' e) -> chain nx i l -> chain nx' i l.
Proof.
  revert i. induction l as [|e l IH]; intros i He; cbn; [done|]. intros [-> Hc]. split; [done|].
  rewrite <- He by left. apply IH; [|done]. intros e' He'. apply He. by right.
Qed.

(** A list that ends has no edge twice. *)
Lemma edge_chain_det nx i l l' : chain nx i l -> chain nx i l' -> -1 ∉ l -> -1 ∉ l' -> l = l'.
Proof.
  revert i l'. induction l as [|e l IH]; intros i [|e' l']; cbn; [done|..].
  - intros -> [<- _] _ []. left.
  - intros [-> _] -> [] _. left.
  - intros [-> Hc] [<- Hc'] [_ Hn]%not_elem_of_cons [_ Hn']%not_elem_of_cons. f_equal. by eapply IH.
Qed.

Lemma chain_nodup nx i l : chain nx i l -> -1 ∉ l -> NoDup l.
Proof.
  revert i. induction l as [|e l IH]; intros i; cbn; [constructor|].
  intros [-> Hc] [_ Hn]%not_elem_of_cons. constructor; [|by eapply IH].
  intros (l1 & l2 & ->)%list_elem_of_split.
  assert (forall k, chain nx k (l1 ++ e :: l2) -> chain nx (nx e) l2) as Hsuf.
  { clear. induction l1 as [|x l1 IH]; intros k; cbn; [by intros [-> ?]|]. intros [_ ?]. by eapply IH. }
  assert (l1 ++ e :: l2 = l2) as E.
  { apply (edge_chain_det nx (nx e)); [done|by eapply Hsuf|done|]. intros Hin. apply Hn, elem_of_app. by right; right. }
  apply (f_equal length) in E. rewrite length_app in E. cbn in E. lia.
Qed.

Definition next_of (g : TWFG) (e : Z) : Z := next (TWFG_edge g e).
Definition target (g : TWFG) (e : Z) : Z := to_tran_index (TWFG_edge g e).
Definition is_node (g : TWFG) (i : Z) : Prop := 1 <= i < num_trans g.

(** A graph whose node [i] has the edges [L i]. *)
Record graph_ok (g : TWFG) (L : Z -> list Z) : Prop := {
  go_chain : forall i, is_node g i -> chain (next_of g) (first_edge (TWFG_node g i)) (L i);
  go_edge : forall i e, is_node g i -> e ∈ L i ->
    0 <= e < edge_count g /\ is_node g (target g e) /\ target g e <> i;
  go_owner : forall i j e, is_node g i -> is_node g j -> e ∈ L i -> e ∈ L j -> i = j }.

(** The edge [e] of [i] is one of a transaction that waits, since before the
    edge was made, for one that has not ended since. *)
Definition fresh (g : TWFG) (i e : Z) : Prop :=
  let n := TWFG_node g i in
  checked_by_deadlock_detector n = true /\ thrd_wait_stime n <> 0
  /\ thrd_wait_stime n <= edge_wait_stime (TWFG_edge g e)
  /\ tran_edge_seq_num (TWFG_node g (target g e)) <= edge_seq_num (TWFG_edge g e).

(** ** Access *)

Lemma node_in g i : is_node g i -> node g i = Some (TWFG_node g i).
Proof.
  intros Hi. unfold node, is_node in *.
  by replace ((0 <=? i) && (i <? num_trans g)) with true by lia.
Qed.

Lemma edge_in g e : 0 <= e < edge_count g -> edge g e = Some (TWFG_edge g e).
Proof. intros He. unfold edge. by replace ((0 <=? e) && (e <? edge_count g)) with true by lia. Qed.

Lemma mod_node_in g i f :
  is_node g i -> mod_node g i f = Some (with_nodes g (upd (TWFG_node g) i (f (TWFG_node g i)))).
Proof. intros Hi. unfold mod_node. by rewrite node_in. Qed.

Lemma mod_edge_in g e f :
  0 <= e < edge_count g ->
  mod_edge g e f = Some (with_edges g (upd (TWFG_edge g) e (f (TWFG_edge g e)))).
Proof. intros He. unfold mod_edge. by rewrite edge_in. Qed.

Lemma upd_same {A} (f : Z -> A) i x : upd f i x i = x.
Proof. unfold upd. by rewrite Z.eqb_refl. Qed.

Lemma upd_other {A} (f : Z -> A) i j x : j <> i -> upd f i x j = f j.
Proof. intros Hj. unfold upd. by replace (j =? i) with false by lia. Qed.

(** Case analysis on whether an index is the updated one. *)
Ltac upd_case :=
  match goal with
  | |- context [upd ?f ?i ?x ?j] =>
      destruct (decide (j = i)) as [?|?];
      [subst; rewrite ?upd_same in * | rewrite ?(upd_other _ i j) in * by done]
  | H : context [upd ?f ?i ?x ?j] |- _ =>
      destruct (decide (j = i)) as [?|?];
      [subst; rewrite ?upd_same in * | rewrite ?(upd_other _ i j) in * by done]
  end.

(** Membership in concatenations. *)
Ltac in_app :=
  repeat first [rewrite elem_of_app in * | rewrite elem_of_cons in * | rewrite elem_of_nil in *]; tauto.

(** ** The invariant *)

Section Inv.
Context (g0 : TWFG) (L : Z -> list Z) (H0 : graph_ok g0 L).

(** What does not change: times and sequence numbers, and the edges but for
    their targets. *)
Definition fixed_node (n : LK_WFG_NODE) := (thrd_wait_stime n, tran_edge_seq_num n, checked_by_deadlock_detector n).
Definition fixed_edge (e : LK_WFG_EDGE) := (edge_seq_num e, holder_flag e, next e, edge_wait_stime e).

(** [R i] are the edges of [i] from current on; their targets are unchanged. *)
Record search_ok (g : TWFG) (R : Z -> list Z) : Prop := {
  so_num : num_trans g = num_trans g0;
  so_count : edge_count g = edge_count g0;
  so_node : forall i, fixed_node (TWFG_node g i) = fixed_node (TWFG_node g0 i);
  so_edge : forall e, fixed_edge (TWFG_edge g e) = fixed_edge (TWFG_edge g0 e);
  so_rest : forall i, is_node g0 i -> R i `suffix_of` L i;
  so_chain : forall i, is_node g0 i -> chain (next_of g0) (current (TWFG_node g i)) (R i);
  so_target : forall i e, is_node g0 i -> e ∈ R i -> target g e = target g0 e }.

(** The edge on which the path goes from [p] to [c]. *)
Definition tree_edge (g : TWFG) (p c : Z) : Prop :=
  let e := current (TWFG_node g p) in
  e <> -1 /\ target g0 e = c /\ candidate (TWFG_node g c) = holder_flag (TWFG_edge g0 e)
  /\ fresh g0 p e.

(** The path of the search, from its end to the start node. *)
Fixpoint path_ok (g : TWFG) (st : list Z) : Prop :=
  match st with
  | [] => True
  | c :: st =>
      match st with
      | [] => ancestor (TWFG_node g c) = -2
      | p :: _ => ancestor (TWFG_node g c) = p /\ tree_edge g p c
      end /\ path_ok g st
  end.

Record stack_ok (g : TWFG) (st : list Z) : Prop := {
  st_nodup : NoDup st;
  st_node : Forall (is_node g0) st;
  st_path : path_ok g st;
  st_other : forall i, is_node g0 i -> i ∉ st -> ancestor (TWFG_node g i) = -1 }.

(** ** Reading the state *)

Lemma is_node_ok g R i : search_ok g R -> is_node g i <-> is_node g0 i.
Proof. intros [E _ _ _ _ _ _]. unfold is_node. by rewrite E. Qed.

Lemma rest_edge g R i e :
  search_ok g R -> is_node g0 i -> e ∈ R i ->
  e ∈ L i /\ 0 <= e < edge_count g0 /\ is_node g0 (target g0 e) /\ target g0 e <> i.
Proof.
  intros Hs Hi He. assert (e ∈ L i) as Hl.
  { destruct (so_rest _ _ Hs i Hi) as [k ->]. apply elem_of_app. by right. }
  split; [done|]. by apply (go_edge _ _ H0).
Qed.

Lemma rest_current g R i :
  search_ok g R -> is_node g0 i ->
  match R i with
  | [] => current (TWFG_node g i) = -1
  | e :: l => current (TWFG_node g i) = e /\ e <> -1 /\ 0 <= e < edge_count g0
              /\ chain (next_of g0) (next (TWFG_edge g e)) l
  end.
Proof.
  intros Hs Hi. pose proof (so_chain _ _ Hs i Hi) as Hc.
  destruct (R i) as [|e l] eqn:E; [done|]. destruct Hc as [-> Hc].
  destruct (rest_edge g R i e Hs Hi) as (_ & ? & _); [rewrite E; left|].
  repeat split; [lia..|]. pose proof (so_edge _ _ Hs e) as He.
  unfold next_of in Hc. injection He as _ _ -> _. done.
Qed.

Lemma current_end g R i :
  search_ok g R -> is_node g0 i -> current (TWFG_node g i) = -1 <-> R i = [].
Proof.
  intros Hs Hi. pose proof (rest_current g R i Hs Hi) as Hc. destruct (R i); [done|].
  destruct Hc as (-> & ? & _). done.
Qed.

Lemma rest_nodup g R i : search_ok g R -> is_node g0 i -> NoDup (R i).
Proof.
  intros Hs Hi. apply (chain_nodup (next_of g0) (current (TWFG_node g i))); [by apply (so_chain _ _ Hs)|].
  intros He. destruct (rest_edge g R i _ Hs Hi He) as (_ & ? & _). lia.
Qed.

(** The test of a node against its current edge. *)
Definition old_node (R : Z -> list Z) (i : Z) : bool :=
  let n := TWFG_node g0 i in
  negb (checked_by_deadlock_detector n) || (thrd_wait_stime n =? 0)
  || match R i with [] => false | e :: _ => thrd_wait_stime n >? edge_wait_stime (TWFG_edge g0 e) end.

Lemma is_old_value g R i :
  search_ok g R -> is_node g0 i -> is_old g (TWFG_node g i) = Some (old_node R i).
Proof.
  intros Hs Hi. pose proof (rest_current g R i Hs Hi) as Hc. unfold is_old, old_node.
  pose proof (so_node _ _ Hs i) as Hn. injection Hn as Hw Hq Hk. rewrite Hw, Hk.
  destruct (R i) as [|e l] eqn:ER.
  - rewrite Hc. change (-1 =? -1) with true. by destruct (negb _ || _).
  - destruct Hc as (-> & He & Hr & _). replace (e =? -1) with false by lia.
    rewrite edge_in by (rewrite (so_count _ _ Hs); lia). obind.
    pose proof (so_edge _ _ Hs e) as Hee. injection Hee as _ _ _ Hwe. rewrite Hwe.
    by destruct (negb _ || _).
Qed.

(** ** Changing the state *)

(** Nodes whose list, candidate and ancestor fields change. *)
Lemma nodes_ok g R f :
  search_ok g R -> (forall i, fixed_node (f i) = fixed_node (TWFG_node g i)) ->
  forall R', (forall i, is_node g0 i ->
    R' i `suffix_of` R i /\ chain (next_of g0) (current (f i)) (R' i)) ->
  search_ok (with_nodes g f) R'.
Proof.
  intros [] Hf R' HR. split; try done; cbn.
  - intros i. by rewrite Hf.
  - intros i Hi. etrans; [apply HR; done|]. by apply so_rest0.
  - intros i Hi. by apply HR.
  - intros i e Hi He. apply so_target0 with i; [done|]. destruct (HR i Hi) as [[k E] _].
    rewrite E. apply elem_of_app. by right.
Qed.

(** A node changes its current edge to the rest [l]. *)
Lemma node_ok g R i n l :
  search_ok g R -> is_node g0 i -> fixed_node n = fixed_node (TWFG_node g i) ->
  l `suffix_of` R i -> chain (next_of g0) (current n) l ->
  search_ok (with_nodes g (upd (TWFG_node g) i n)) (upd R i l).
Proof.
  intros Hs Hi Hn Hl Hc. apply (nodes_ok g R); [done|..].
  - intros j. by upd_case.
  - intros j Hj. upd_case; [done|]. split; [done|]. by apply (so_chain _ _ Hs).
Qed.

(** A node changes its ancestor or candidate only. *)
Lemma node_keep g R i n :
  search_ok g R -> fixed_node n = fixed_node (TWFG_node g i) ->
  current n = current (TWFG_node g i) ->
  search_ok (with_nodes g (upd (TWFG_node g) i n)) R.
Proof.
  intros Hs Hn Hc. apply (nodes_ok g R); [done|..].
  - intros j. by upd_case.
  - intros j Hj. split; [done|]. pose proof (so_chain _ _ Hs j Hj). upd_case; [by rewrite Hc|done].
Qed.

(** The node [i] goes on from its current edge [e], which is dropped or not. *)
Definition advanced (g : TWFG) (i e : Z) : TWFG :=
  with_nodes g (upd (TWFG_node g) i (set_current (next (TWFG_edge g e)) (TWFG_node g i))).
Definition dropped (g : TWFG) (i e : Z) : TWFG :=
  with_edges (advanced g i e) (upd (TWFG_edge g) e (set_to (-2) (TWFG_edge g e))).

Lemma advanced_ok g R i e l :
  search_ok g R -> is_node g0 i -> R i = e :: l -> search_ok (advanced g i e) (upd R i l).
Proof.
  intros Hs Hi HR. pose proof (rest_current g R i Hs Hi) as Hc. rewrite HR in Hc.
  destruct Hc as (_ & _ & _ & Hc). apply node_ok; [done|done|done| |done].
  rewrite HR. by apply suffix_cons_r.
Qed.

Lemma advance_value g R i e l :
  search_ok g R -> is_node g0 i -> R i = e :: l -> advance g i = Some (advanced g i e).
Proof.
  intros Hs Hi HR. pose proof (rest_current g R i Hs Hi) as Hc. rewrite HR in Hc.
  destruct Hc as (Hc & _ & Hr & _). unfold advance.
  rewrite node_in by (by apply (is_node_ok g R)). obind. rewrite Hc.
  rewrite edge_in by (rewrite (so_count _ _ Hs); done). obind.
  by rewrite mod_node_in by (by apply (is_node_ok g R)).
Qed.

Lemma drop_value g R i e l :
  search_ok g R -> is_node g0 i -> R i = e :: l ->
  (g ← drop_edge g i; advance g i) = Some (dropped g i e).
Proof.
  intros Hs Hi HR. pose proof (rest_current g R i Hs Hi) as Hc. rewrite HR in Hc.
  destruct Hc as (Hc & _ & Hr & _). unfold drop_edge, advance.
  rewrite node_in by (by apply (is_node_ok g R)). obind. rewrite Hc.
  rewrite mod_edge_in by (rewrite (so_count _ _ Hs); done). obind.
  rewrite node_in by (by apply (is_node_ok g R)). obind. cbn [TWFG_node with_edges]. rewrite Hc.
  rewrite edge_in by (cbn; rewrite (so_count _ _ Hs); done). obind.
  rewrite mod_node_in by (by apply (is_node_ok g R)). unfold dropped, advanced.
  cbn [TWFG_edge with_edges]. by rewrite upd_same.
Qed.

(** The rest of a node looks at no dropped edge. *)
Lemma drop_ok g R i e l :
  search_ok g R -> is_node g0 i -> R i = e :: l ->
  search_ok (dropped g i e) (upd R i l).
Proof.
  intros Hs Hi HR. pose proof (rest_nodup g R i Hs Hi) as Hn. rewrite HR in Hn.
  apply NoDup_cons in Hn as [Hn _]. destruct (advanced_ok g R i e l Hs Hi HR) as [Q1 Q2 Q3 Q4 Q5 Q6 Q7].
  split; try done; cbn.
  - intros e'. upd_case; [|by apply Q4]. cbn. apply (Q4 e).
  - intros j e' Hj He'. unfold target. cbn. upd_case; [|by apply Q7 with j].
    exfalso. upd_case; [done|].
    assert (j = i); [|done]. apply (go_owner _ _ H0 _ _ e); [done|done|..].
    + by apply (rest_edge g R).
    + apply (rest_edge g R); [done|done|]. rewrite HR. left.
Qed.
(** ** Paths *)

(** A path depends on the ancestors of its nodes, on the current edges of all
    but the last and on the candidate fields of all but the first. *)
Lemma path_ext g g' st :
  (forall i, i ∈ st -> ancestor (TWFG_node g' i) = ancestor (TWFG_node g i)) ->
  (forall i, i ∈ tail st -> current (TWFG_node g' i) = current (TWFG_node g i)) ->
  (forall i, i ∈ st -> candidate (TWFG_node g' i) = candidate (TWFG_node g i)) ->
  path_ok g st -> path_ok g' st.
Proof.
  induction st as [|c st IH]; intros Ha Hc Hd; [done|]. cbn. intros [Hp Hst]. split.
  - destruct st as [|p st]; [rewrite Ha by left; done|]. destruct Hp as [Hp Ht].
    rewrite Ha by left. split; [done|]. unfold tree_edge in *. rewrite (Hc p) by (cbn; left).
    by rewrite (Hd c) by left.
  - apply IH; [..|done].
    + intros i Hi. apply Ha. by right.
    + intros i Hi. apply Hc. cbn. destruct st; [done|]. by right.
    + intros i Hi. apply Hd. by right.
Qed.

Lemma path_app g l1 l2 : path_ok g (l1 ++ l2) -> path_ok g l2.
Proof. induction l1 as [|c l1 IH]; [done|]. intros [_ Hp]. by apply IH. Qed.
End Inv.
