(* ===== verification/DeadlockVictim.v ===== *)
(** * The choice of a deadlock victim

    What lock_select_deadlock_victim does with a cycle that the search found:
    it is a cycle of the graph, the victim is the best candidate of it, and
    the path of the search goes back to the node where the cycle closed. *)
From Stdlib Require Import ZArith Lia ZifyBool.
From stdpp Require Import base list numbers gmap relations.
From S2P Require Import Prelude LockTable LockManager Deadlock DeadlockSearch.

(** ** The best candidate *)

Section Best.
Context (tt : TRAN_TABLE).

(** The order of preference: a transaction that can time out before one that
    cannot, and then the younger one. *)
Definition can_timeout (v : Z) : bool := LK_CAN_TIMEOUT (logtb_find_wait_msecs tt v).

Definition preferred (v w : Z) : Prop :=
  (can_timeout w = true -> can_timeout v = true)
  /\ (can_timeout v = can_timeout w -> logtb_find_tranid tt w <= logtb_find_tranid tt v).

Lemma preferred_refl v : preferred v v.
Proof. split; [done|lia]. Qed.

Lemma preferred_trans u v w : preferred u v -> preferred v w -> preferred u w.
Proof.
  intros [H1 H2] [H3 H4]. split; [tauto|]. intros E.
  destruct (can_timeout u) eqn:Eu, (can_timeout v) eqn:Ev, (can_timeout w) eqn:Ew; try done.
  - specialize (H2 eq_refl). specialize (H4 eq_refl). lia.
  - by specialize (H3 eq_refl).
  - by specialize (H1 eq_refl).
  - specialize (H2 eq_refl). specialize (H4 eq_refl). lia.
Qed.

(** [best] is the best of the active transactions of [l]. *)
Definition best_of (l : list Z) (best : option (Z * Z * bool)) : Prop :=
  let active v := logtb_is_active tt (logtb_find_tranid tt v) = true in
  match best with
  | None => forall v, v ∈ l -> ~ active v
  | Some (v, id, can) =>
      v ∈ l /\ active v /\ id = logtb_find_tranid tt v /\ can = can_timeout v
      /\ forall w, w ∈ l -> active w -> preferred v w
  end.

Lemma choose_best l best v : best_of l best -> best_of (l ++ [v]) (choose tt best v).
Proof.
  intros Hb. unfold choose.
  destruct (logtb_is_active tt (logtb_find_tranid tt v)) eqn:Ea; cbn [negb].
  2:{ destruct best as [[[u id] can]|]; cbn in *.
      - destruct Hb as (H1 & H2 & H3 & H4 & H5). split_and!; [apply elem_of_app; by left|done..|].
        intros w [Hw| ->%list_elem_of_singleton]%elem_of_app Hact; [by apply H5|congruence].
      - intros w [Hw| ->%list_elem_of_singleton]%elem_of_app; [by apply Hb|congruence]. }
  assert (v ∈ l ++ [v]) as Hv by (apply elem_of_app; right; left).
  destruct best as [[[u id] can]|]; cbn in *.
  - destruct Hb as (H1 & H2 & -> & -> & H5). fold (can_timeout v).
    destruct (_ || _) eqn:E.
    + split_and!; [done..|]. intros w [Hw| ->%list_elem_of_singleton]%elem_of_app Hact;
        [|apply preferred_refl]. apply (preferred_trans v u w); [|by apply H5].
      unfold preferred, LK_ISYOUNGER in *. destruct (can_timeout u), (can_timeout v); cbn in E; lia.
    + split_and!; [apply elem_of_app; by left|done..|].
      intros w [Hw| ->%list_elem_of_singleton]%elem_of_app Hact; [by apply H5|].
      unfold preferred, LK_ISYOUNGER in *. destruct (can_timeout u), (can_timeout v); cbn in E; lia.
  - split_and!; [done..|]. intros w [Hw| ->%list_elem_of_singleton]%elem_of_app Hact;
      [by apply Hb in Hw|apply preferred_refl].
Qed.
End Best.

(** ** Cycles and victims *)

Section Spec.
Context (g : TWFG) (L : Z -> list Z) (tt : TRAN_TABLE).

(** [u] waits for [v] by its edge [e]. *)
Definition wait_edge (u v e : Z) : Prop :=
  is_node g u /\ e ∈ L u /\ target g e = v /\ fresh g u e.

(** A path of nodes with their edges: the first one waits for [w], every other
    one for the one before it. *)
Fixpoint wait_path (w : Z) (c : list (Z * Z)) : Prop :=
  match c with
  | [] => True
  | (v, e) :: c => wait_edge v w e /\ wait_path v c
  end.

Definition wait_cycle (c : list (Z * Z)) : Prop :=
  exists v, last c.*1 = Some v /\ NoDup c.*1 /\ wait_path v c.

(** A transaction that may be a victim of a cycle: another one of it waits for
    a lock that it holds, and it is active. *)
Definition candidate_of (c : list (Z * Z)) (v : Z) : Prop :=
  exists u e, (u, e) ∈ c /\ target g e = v /\ holder_flag (TWFG_edge g e) = true
    /\ logtb_is_active tt (logtb_find_tranid tt v) = true.

(** What a victim is. *)
Definition victim_ok (x : LK_DEADLOCK_VICTIM) : Prop :=
  exists c, wait_cycle c /\ candidate_of c (victim_index x)
    /\ (forall w, candidate_of c w -> preferred tt (victim_index x) w)
    /\ victim_tranid x = logtb_find_tranid tt (victim_index x)
    /\ victim_can_timeout x = can_timeout tt (victim_index x)
    /\ num_trans_in_cycle x = Z.of_nat (length c)
    /\ (forall l, tran_index_in_cycle x = IN_CYCLE l -> l = c.*1).

(** An edge of a cycle without candidates. *)
Definition hopeless (e : Z) : Prop :=
  exists c, wait_cycle c /\ e ∈ c.*2 /\ forall v, ~ candidate_of c v.
End Spec.

Section Victim.
Context (g0 : TWFG) (L : Z -> list Z) (H0 : graph_ok g0 L) (tt : TRAN_TABLE).

(** ** The loops along the ancestors *)

(** [c] are the nodes from the end of the path up to [t]. *)
Fixpoint up (g : TWFG) (c : list Z) (t : Z) : Prop :=
  match c with
  | [] => True
  | v :: c => v <> t /\ is_node g v /\ ancestor (TWFG_node g v) = hd t c /\ up g c t
  end.

Lemma cycle_nodes_up fuel g c t :
  up g c t -> (length c <= fuel)%nat -> cycle_nodes fuel g (hd t c) t = Some (c ++ [t]).
Proof.
  revert fuel. induction c as [|v c IH]; intros fuel; cbn; [by destruct fuel; cbn; rewrite Z.eqb_refl|].
  intros (Hv & Hn & Ha & Hu) Hf. destruct fuel as [|fuel]; [lia|]. cbn.
  replace (v =? t) with false by lia. rewrite node_in by done. obind. rewrite Ha, IH by (done || lia). done.
Qed.

Lemma choose_victim_up fuel g c t best :
  up g c t -> (length c <= fuel)%nat ->
  choose_victim tt fuel g (hd t c) t best
  = Some (foldl (fun b v => if candidate (TWFG_node g v) then choose tt b v else b) best c).
Proof.
  revert fuel best. induction c as [|v c IH]; intros fuel best; cbn;
    [by destruct fuel; cbn; rewrite Z.eqb_refl|].
  intros (Hv & Hn & Ha & Hu) Hf. destruct fuel as [|fuel]; [lia|]. cbn.
  replace (v =? t) with false by lia. rewrite node_in by done. obind. rewrite Ha, IH by (done || lia). done.
Qed.

Lemma up_ext g g' c t :
  num_trans g' = num_trans g ->
  (forall v, v ∈ c -> ancestor (TWFG_node g' v) = ancestor (TWFG_node g v)) -> up g c t -> up g' c t.
Proof.
  intros Hg. induction c as [|v c IH]; intros Hf; cbn; [done|]. intros (Hv & Hn & Ha & Hu).
  rewrite Hf by left. unfold is_node in *. rewrite Hg. split_and!; [done|lia..|done|]. apply IH; [|done].
  intros w Hw. apply Hf. by right.
Qed.

(** Afterwards the nodes of [c] have no ancestor. *)
Lemma clear_cycle_up fuel g c t :
  up g c t -> NoDup c -> (length c <= fuel)%nat ->
  exists f, clear_cycle fuel g (hd t c) t = Some (with_nodes g f)
    /\ forall i, f i = if decide (i ∈ c) then set_ancestor (-1) (TWFG_node g i) else TWFG_node g i.
Proof.
  revert fuel g. induction c as [|v c IH]; intros fuel g; cbn.
  { intros _ _ _. exists (TWFG_node g). split; [destruct fuel; cbn; rewrite Z.eqb_refl; by destruct g|].
    intros i. by rewrite decide_False by apply not_elem_of_nil. }
  intros (Hv & Hn & Ha & Hu) [Hni Hnd]%NoDup_cons Hf. destruct fuel as [|fuel]; [lia|]. cbn.
  replace (v =? t) with false by lia. rewrite node_in by done. obind. rewrite mod_node_in by done.
  obind. rewrite Ha.
  destruct (IH fuel (with_nodes g (upd (TWFG_node g) v (set_ancestor (-1) (TWFG_node g v)))))
    as (f & -> & Hfi); [|done|lia|].
  { apply (up_ext g); [done| |done]. intros w Hw. cbn. rewrite upd_other; [done|]. by intros ->. }
  exists f. split; [done|]. intros i. rewrite Hfi. cbn. upd_case.
  - rewrite decide_False by done. by rewrite decide_True by left.
  - destruct (decide (i ∈ c)).
    + by rewrite decide_True by (by right).
    + rewrite decide_False; [done|]. intros [->|?]%elem_of_cons; done.
Qed.

(** ** The test of the cycle *)

(** The node waits by its current edge. *)
Definition alive (g : TWFG) (v : Z) : Prop :=
  current (TWFG_node g v) <> -1 /\ fresh g0 v (current (TWFG_node g v)).

Lemma alive_edge g R v :
  search_ok g0 L g R -> is_node g0 v -> alive g v ->
  exists l, R v = current (TWFG_node g v) :: l.
Proof.
  intros Hs Hv [Hc _]. pose proof (rest_current _ _ H0 _ _ _ Hs Hv) as Hr.
  destruct (R v) as [|e l]; [done|]. destruct Hr as (-> & _). by exists l.
Qed.

Lemma alive_old g R v :
  search_ok g0 L g R -> is_node g0 v -> alive g v -> old_node g0 R v = false.
Proof.
  intros Hs Hv Ha. destruct (alive_edge g R v Hs Hv Ha) as [l E].
  destruct Ha as (_ & H1 & H2 & H3 & _). unfold old_node. rewrite E, H1. cbn. lia.
Qed.

Lemma check_cycle_edge_alive g R u v :
  search_ok g0 L g R -> is_node g0 u -> is_node g0 v -> alive g u -> alive g v ->
  target g0 (current (TWFG_node g u)) = v -> check_cycle_edge g u v = Some (g, false).
Proof.
  intros Hs Hu Hv Hau Hav Ht. unfold check_cycle_edge.
  rewrite (node_in g v) by (by apply (is_node_ok _ _ _ _ _ Hs)). obind.
  replace (current (TWFG_node g v) =? -1) with false by (destruct Hav; lia).
  rewrite (is_old_value _ _ H0 _ _ _ Hs Hv), (alive_old g R v) by done. obind.
  rewrite node_in by (by apply (is_node_ok _ _ _ _ _ Hs)). obind.
  destruct (alive_edge g R u Hs Hu Hau) as [l E].
  destruct (rest_edge _ _ H0 _ _ u _ Hs Hu ltac:(rewrite E; left)) as (_ & Hr & _).
  rewrite edge_in by (rewrite (so_count _ _ _ _ Hs); done). obind.
  pose proof (so_edge _ _ _ _ Hs (current (TWFG_node g u))) as He. injection He as -> _ _ _.
  pose proof (so_node _ _ _ _ Hs v) as Hn. injection Hn as _ -> _.
  destruct Hau as (_ & _ & _ & _ & Hq). rewrite Ht in Hq.
  by replace (_ <? _) with false by lia.
Qed.

Lemma path_up g R c t rest :
  search_ok g0 L g R -> path_ok g0 g (c ++ t :: rest) -> NoDup (c ++ t :: rest) ->
  Forall (is_node g0) (c ++ t :: rest) -> up g c t.
Proof.
  intros Hs. induction c as [|v c IH]; cbn; [done|].
  intros [Hp Hst] [Hn Hnd]%NoDup_cons [Hv Hf]%Forall_cons. split_and!.
  - intros ->. apply Hn, elem_of_app. right. left.
  - by apply (is_node_ok _ _ _ _ _ Hs).
  - destruct c; cbn in *; by destruct Hp.
  - by apply IH.
Qed.

(** All nodes of the path but its end are alive. *)
Lemma path_alive g st v c : path_ok g0 g (v :: st) -> c ∈ st -> alive g c.
Proof.
  revert v. induction st as [|p st IH]; intros v; [by intros _ ?%not_elem_of_nil|].
  intros [(_ & He & _ & _ & Hf) Hp] [->|Hc]%elem_of_cons; [done|]. by apply (IH p).
Qed.

Lemma check_cycle_up fuel g R c t rest b :
  search_ok g0 L g R -> path_ok g0 g (c ++ t :: rest) -> NoDup (c ++ t :: rest) ->
  Forall (is_node g0) (c ++ t :: rest) -> alive g (hd t c) -> (length c <= fuel)%nat ->
  check_cycle fuel g (hd t c) t b = Some (g, b).
Proof.
  intros Hs Hp Hnd Hf Ha Hl. pose proof (path_up g R c t rest Hs Hp Hnd Hf) as Hu.
  revert fuel b Hl. induction c as [|v c IH]; intros fuel b Hl; cbn in *;
    [by destruct fuel; cbn; rewrite Z.eqb_refl|].
  destruct Hu as (Hv & Hn & Han & Hu). destruct fuel as [|fuel]; [lia|]. cbn.
  replace (v =? t) with false by lia. rewrite node_in by done. obind. rewrite Han.
  destruct Hp as [Hp Hst]. apply NoDup_cons in Hnd as [_ Hnd]. apply Forall_cons in Hf as [Hfv Hf].
  assert (tree_edge g0 g (hd t c) v) as (He & Ht & _ & Hfr) by (destruct c; apply Hp).
  assert (is_node g0 (hd t c)) by (destruct c; by apply Forall_cons in Hf as [? _]).
  rewrite (check_cycle_edge_alive g R) by done. obind. rewrite orb_false_r.
  apply IH; try done. lia.
Qed.

(** ** The cycle *)

Definition with_edge_of (g : TWFG) (v : Z) : Z * Z := (v, current (TWFG_node g v)).

Lemma with_edge_fst g l : (with_edge_of g <$> l).*1 = l.
Proof. rewrite <- list_fmap_compose. apply list_fmap_id. Qed.

Lemma path_wait g R w c t rest :
  search_ok g0 L g R -> path_ok g0 g (w :: c ++ t :: rest) ->
  Forall (is_node g0) (c ++ t :: rest) ->
  wait_path g0 L w (with_edge_of g <$> c ++ [t]).
Proof.
  intros Hs. revert w. induction c as [|v c IH]; intros w.
  - intros [(_ & He & Ht & _ & Hf) _] [Hn _]%Forall_cons. cbn. split; [|done].
    destruct (alive_edge g R t Hs Hn) as [l E]; [done|].
    split_and!; [done| |done..]. apply (rest_edge _ _ H0 g R); [done..|]. rewrite E. left.
  - cbn. intros [(_ & He & Ht & _ & Hf) Hp] [Hn Hfa]%Forall_cons. split; [|by apply IH].
    destruct (alive_edge g R v Hs Hn) as [l E]; [done|].
    split_and!; [done| |done..]. apply (rest_edge _ _ H0 g R); [done..|]. rewrite E. left.
Qed.

Lemma found_cycle g R s mid t rest :
  search_ok g0 L g R -> stack_ok g0 g (s :: mid ++ t :: rest) -> alive g s ->
  target g0 (current (TWFG_node g s)) = t ->
  wait_cycle g0 L (with_edge_of g <$> s :: mid ++ [t]).
Proof.
  intros Hs [Hnd Hf Hp _] Ha Ht. exists t. rewrite with_edge_fst. split_and!.
  - rewrite app_comm_cons. apply last_snoc.
  - change (s :: mid ++ t :: rest) with ((s :: mid) ++ t :: rest) in Hnd.
    rewrite cons_middle, app_assoc in Hnd. by apply NoDup_app in Hnd as [? _].
  - apply Forall_cons in Hf as [Hn Hf]. cbn [fmap list_fmap wait_path with_edge_of].
    split; [|by apply (path_wait g R s mid t rest)].
    destruct (alive_edge g R s Hs Hn Ha) as [l E]. destruct Ha as [_ Hfr].
    split_and!; [done| |done..]. apply (rest_edge _ _ H0 g R); [done..|]. rewrite E. left.
Qed.

(** ** The candidates *)

Lemma path_candidates g w c t rest v :
  path_ok g0 g (w :: c ++ t :: rest) ->
  (exists u e, (u, e) ∈ with_edge_of g <$> c ++ [t] /\ target g0 e = v
     /\ holder_flag (TWFG_edge g0 e) = true)
  <-> v ∈ filter (fun v => candidate (TWFG_node g v) = true) (w :: c).
Proof.
  revert w. induction c as [|v' c IH]; intros w Hp.
  - destruct Hp as [(_ & _ & Ht & Hc & _) _]. cbn [app fmap list_fmap]. rewrite list_elem_of_filter. split.
    + intros (u & e & [= -> ->]%list_elem_of_singleton & <- & Hfl). rewrite Ht. split; [congruence|left].
    + intros [Hcv ->%list_elem_of_singleton]. eexists _, _. split; [by left|]. split; [done|congruence].
  - cbn [app] in *. destruct Hp as [(_ & _ & Ht & Hc & _) Hp]. specialize (IH v' Hp).
    rewrite list_elem_of_filter, elem_of_cons, fmap_cons. rewrite list_elem_of_filter in IH. split.
    + intros (u & e & [[= -> ->]|He]%elem_of_cons & <- & Hfl); [split; [congruence|by left]|].
      destruct IH as [[Hcv Hin] _]; [by exists u, e|]. split; [done|by right].
    + intros [Hcv [->|Hin]].
      * eexists _, _. split; [by left|]. split; [done|congruence].
      * destruct IH as [_ (u & e & He & Hu)]; [done|]. exists u, e. split; [by right|done].
Qed.

Definition candidates (g : TWFG) (s t : Z) (mid : list Z) : list Z :=
  (if holder_flag (TWFG_edge g0 (current (TWFG_node g s))) then [t] else [])
  ++ filter (fun v => candidate (TWFG_node g v) = true) (s :: mid).

Lemma candidates_of g s mid t rest v :
  path_ok g0 g (s :: mid ++ t :: rest) -> target g0 (current (TWFG_node g s)) = t ->
  candidate_of g0 tt (with_edge_of g <$> s :: mid ++ [t]) v
  <-> v ∈ candidates g s t mid /\ logtb_is_active tt (logtb_find_tranid tt v) = true.
Proof.
  intros Hp Ht. pose proof (path_candidates g s mid t rest v Hp) as Hc.
  unfold candidate_of, candidates. rewrite elem_of_app, <- Hc. clear Hc. rewrite fmap_cons. split.
  - intros (u & e & [[= -> ->]|He]%elem_of_cons & Hv & Hfl & Hact); (split; [|done]).
    + left. rewrite Hfl, <- Hv, Ht. left.
    + right. by exists u, e.
  - intros [[Hin|(u & e & He & Hu & Hfl)] Hact].
    + destruct (holder_flag _) eqn:Hfl; [|by apply not_elem_of_nil in Hin].
      apply list_elem_of_singleton in Hin as ->. eexists _, _. split; [by left|]. done.
    + exists u, e. split; [by right|done].
Qed.

Lemma choose_fold g l c best :
  best_of tt l best ->
  best_of tt (l ++ filter (fun v => candidate (TWFG_node g v) = true) c)
    (foldl (fun b v => if candidate (TWFG_node g v) then choose tt b v else b) best c).
Proof.
  revert l best. induction c as [|v c IH]; intros l best Hb; cbn [foldl]; [by rewrite app_nil_r|].
  rewrite filter_cons. destruct (candidate (TWFG_node g v)).
  - rewrite decide_True by done. rewrite cons_middle, app_assoc. by apply IH, choose_best.
  - rewrite decide_False by done. by apply IH.
Qed.

Lemma choose_candidates g s mid t e :
  holder_flag e = holder_flag (TWFG_edge g0 (current (TWFG_node g s))) ->
  best_of tt (candidates g s t mid)
    (foldl (fun b v => if candidate (TWFG_node g v) then choose tt b v else b)
       (if holder_flag e then choose tt None t else None) (s :: mid)).
Proof.
  intros ->. unfold candidates. apply choose_fold. destruct (holder_flag _); [|by intros ? ?%not_elem_of_nil].
  apply (choose_best tt []). by intros ? ?%not_elem_of_nil.
Qed.

(** ** Cycles without candidates *)

Lemma path_targets g w c t rest u :
  path_ok g0 g (w :: c ++ t :: rest) -> u ∈ c ++ [t] ->
  target g0 (current (TWFG_node g u)) ∈ w :: c.
Proof.
  revert w. induction c as [|v c IH]; intros w; cbn [app].
  - intros [(_ & _ & Ht & _) _] ->%list_elem_of_singleton. rewrite Ht. left.
  - intros [(_ & _ & Ht & _) Hp] [->|Hu]%elem_of_cons; [rewrite Ht; left|]. right. by apply IH.
Qed.

Lemma not_false_edge n g R w :
  search_ok g0 L g R -> is_node g0 w -> alive g w ->
  alive g (target g0 (current (TWFG_node g w))) ->
  cut_false_edge (S n) g w = cut_false_edge n g (ancestor (TWFG_node g w)).
Proof.
  intros Hs Hn Hal Hat. cbn [cut_false_edge].
  destruct (alive_edge g R w Hs Hn Hal) as [l E].
  destruct (rest_edge _ _ H0 g R w _ Hs Hn ltac:(rewrite E; left)) as (_ & Hr & Htn & _).
  rewrite node_in by (by apply (is_node_ok _ _ _ _ _ Hs)). obind.
  rewrite edge_in by (rewrite (so_count _ _ _ _ Hs); done). obind.
  pose proof (so_target _ _ _ _ Hs w _ Hn ltac:(rewrite E; left)) as Ht.
  fold (target g (current (TWFG_node g w))). rewrite Ht.
  rewrite node_in by (by apply (is_node_ok _ _ _ _ _ Hs)). obind.
  pose proof (is_old_value _ _ H0 g R _ Hs Htn) as Hold. rewrite (alive_old g R) in Hold by done.
  unfold is_old in Hold. destruct (negb _ || _); [done|].
  replace (current _ =? -1) with false in Hold by (destruct Hat; lia). by rewrite Hold.
Qed.

Lemma no_false_edge g R c t :
  search_ok g0 L g R -> up g c t ->
  (forall v, v ∈ c ++ [t] ->
     is_node g0 v /\ alive g v /\ alive g (target g0 (current (TWFG_node g v)))) ->
  cut_false_edge (length (c ++ [t])) g (hd t c) = Some (g, false).
Proof.
  intros Hs. induction c as [|v c IH]; intros Hu Ha; cbn [app length hd] in *.
  - destruct (Ha t) as (? & ? & ?); [left|]. by rewrite (not_false_edge _ g R).
  - destruct (Ha v) as (? & ? & ?); [left|]. rewrite (not_false_edge _ g R) by done.
    destruct Hu as (_ & _ & -> & Hu). apply IH; [done|]. intros u Hin. apply Ha. by right.
Qed.

(** ** lock_select_deadlock_victim *)

Lemma nodes_length l :
  NoDup l -> Forall (is_node g0) l -> Z.of_nat (length l) <= Z.max 0 (num_trans g0 - 1).
Proof.
  intros Hn Hf. assert (l ⊆+ seqZ 1 (num_trans g0 - 1)) as Hsub.
  { apply NoDup_submseteq; [done|]. intros x Hx. rewrite Forall_forall in Hf.
    specialize (Hf x Hx). unfold is_node in Hf. apply elem_of_seqZ. lia. }
  apply submseteq_length in Hsub. rewrite length_seqZ in Hsub. lia.
Qed.

(** The state after the ancestors of the cycle are cleared. *)
Lemma cleared_stack g f c t rest :
  stack_ok g0 g (c ++ t :: rest) ->
  (forall i, ancestor (f i) = if decide (i ∈ c) then -1 else ancestor (TWFG_node g i)) ->
  (forall i, candidate (f i) = candidate (TWFG_node g i)) ->
  (forall i, i ∈ rest -> current (f i) = current (TWFG_node g i)) ->
  forall g', TWFG_node g' = f -> stack_ok g0 g' (t :: rest).
Proof.
  intros [Hnd Hf Hp Ho] Ha Hc Hr g' Hg. apply NoDup_app in Hnd as (_ & Hdis & Hnd).
  apply Forall_app in Hf as [_ Hf]. apply path_app in Hp. split; [done|done|..].
  - eapply path_ext; [..|exact Hp]; rewrite Hg.
    + intros i Hi. rewrite Ha, decide_False; [done|]. intros Hin. by apply (Hdis i).
    + done.
    + intros i _. apply Hc.
  - intros i Hi Hin. rewrite Hg, Ha. destruct (decide (i ∈ c)); [done|]. apply Ho; [done|].
    rewrite elem_of_app. tauto.
Qed.

Definition select_result (g : TWFG) (c : list Z) (best : option (Z * Z * bool))
    (g' : TWFG) : Prop :=
  match best with
  | Some (v, id, can) =>
      exists l, victims g' = victims g ++ [mkVictim v id can (Z.of_nat (length c)) l]
        /\ (l = IN_CYCLE c \/ l = UNINITIALISED \/ l = NO_CYCLE)
  | None => victims g' = victims g
  end.

(** The end of the function when there is a victim. *)
Lemma select_some mem g R s mid t rest v id can :
  search_ok g0 L g R -> stack_ok g0 g ((s :: mid) ++ t :: rest) -> v ∈ candidates g s t mid ->
  exists g',
    (g ← (g ← mod_node g v (set_current (-1));
          Some (with_victims g (victims g
            ++ [mkVictim v id can (Z.of_nat (length ((s :: mid) ++ [t])))
                  (match mem with
                   | (true, true) => IN_CYCLE ((s :: mid) ++ [t])
                   | (false, true) => UNINITIALISED
                   | _ => NO_CYCLE
                   end)])));
     clear_cycle (Z.to_nat (num_trans g0)) g s t) = Some g'
    /\ stack_ok g0 g' (t :: rest) /\ search_ok g0 L g' (upd R v [])
    /\ select_result g ((s :: mid) ++ [t]) (Some (v, id, can)) g'.
Proof.
  intros Hs Hst Hv. pose proof Hst as [Hnd Hf Hp _].
  assert (v ∈ (s :: mid) ++ [t]) as Hin.
  { unfold candidates in Hv. apply elem_of_app in Hv as [Hv|[_ Hv]%list_elem_of_filter]; [|in_app].
    destruct (holder_flag _); [in_app|by apply not_elem_of_nil in Hv]. }
  assert (is_node g0 v) as Hn.
  { rewrite Forall_forall in Hf. apply Hf. in_app. }
  rewrite mod_node_in by (by apply (is_node_ok _ _ _ _ _ Hs)). obind.
  set (g1 := with_victims _ _).
  destruct (clear_cycle_up (Z.to_nat (num_trans g0)) g1 (s :: mid) t) as (f & Hrun & Hfi).
  { apply (up_ext g); [done| |by eapply path_up]. intros w _. cbn. by upd_case. }
  { by apply NoDup_app in Hnd as [? _]. }
  { apply NoDup_app in Hnd as [Hnd _]. apply Forall_app in Hf as [Hf _].
    pose proof (nodes_length _ Hnd Hf). lia. }
  exists (with_nodes g1 f). split; [exact Hrun|]. split; [|split].
  - eapply cleared_stack; [exact Hst|..]; [| | |done]; intros i.
    + rewrite Hfi. cbn. destruct (decide _); [by upd_case|]. by upd_case.
    + rewrite Hfi. cbn. destruct (decide _); by upd_case.
    + intros Hi. rewrite Hfi. cbn. rewrite upd_other; [by destruct (decide _)|]. intros ->.
      apply NoDup_app in Hnd as (_ & Hdis & [Hnt _]%NoDup_cons).
      apply elem_of_app in Hin as [Hin| ->%list_elem_of_singleton]; [|done].
      apply (Hdis v Hin). by right.
  - assert (search_ok g0 L (with_nodes g (upd (TWFG_node g) v (set_current (-1) (TWFG_node g v)))) (upd R v []))
      as [Q1 Q2 Q3 Q4 Q5 Q6 Q7] by (apply node_ok; [done..|apply suffix_nil|done]).
    split; try done; cbn.
    + intros i. rewrite Hfi. cbn. destruct (decide _); apply Q3.
    + intros i Hi. rewrite Hfi. cbn. destruct (decide _); by apply Q6.
  - eexists. split; [done|]. destruct mem as [[] []]; tauto.
Qed.

(** And when there is none: the edge that closes the cycle is dropped. *)
Lemma select_none g R s mid t rest :
  search_ok g0 L g R -> stack_ok g0 g ((s :: mid) ++ t :: rest) -> alive g s ->
  target g0 (current (TWFG_node g s)) = t ->
  exists g',
    (g ← ('(g, found) ← cut_false_edge (length ((s :: mid) ++ [t])) g s;
          if found : bool then Some g else g ← drop_edge g s; advance g s);
     clear_cycle (Z.to_nat (num_trans g0)) g s t) = Some g'
    /\ stack_ok g0 g' (t :: rest) /\ search_ok g0 L g' (upd R s (tail (R s)))
    /\ select_result g ((s :: mid) ++ [t]) None g'.
Proof.
  intros Hs Hst Has Ht. pose proof Hst as [Hnd Hf Hp _].
  pose proof (path_up g R _ t rest Hs Hp Hnd Hf) as Hu. pose proof Hf as Hf'.
  rewrite Forall_forall in Hf'. assert (is_node g0 s) as Hns by (apply Hf'; in_app).
  assert (forall v, v ∈ (s :: mid) ++ [t] -> alive g v) as Hall.
  { intros v [->|Hv]%elem_of_cons; [done|]. apply (path_alive _ _ _ _ Hp). in_app. }
  assert (cut_false_edge (length ((s :: mid) ++ [t])) g s = Some (g, false)) as ->.
  { apply (no_false_edge g R (s :: mid) t Hs Hu). intros v Hv.
    split; [apply Hf'; in_app|]. split; [by apply Hall|]. apply Hall.
    apply elem_of_cons in Hv as [->|Hv]; [rewrite Ht; in_app|].
    pose proof (path_targets g s mid t rest v Hp Hv). in_app. }
  obind. destruct (alive_edge g R s Hs Hns Has) as [l E]. rewrite E.
  pose proof (drop_ok _ _ H0 g R s _ l Hs Hns E) as Hd.
  rewrite (drop_value _ _ H0 g R s _ l Hs Hns E). obind.
  set (g1 := dropped _ _ _) in *.
  destruct (clear_cycle_up (Z.to_nat (num_trans g0)) g1 (s :: mid) t) as (f & Hrun & Hfi).
  { apply (up_ext g); [done| |done]. intros w _. cbn. by upd_case. }
  { by apply NoDup_app in Hnd as [? _]. }
  { apply NoDup_app in Hnd as [Hnd _]. apply Forall_app in Hf as [Hf _].
    pose proof (nodes_length _ Hnd Hf). lia. }
  exists (with_nodes g1 f). split; [exact Hrun|]. split; [|split; [|done]].
  - eapply cleared_stack; [exact Hst|..]; [| | |done]; intros i.
    + rewrite Hfi. cbn. destruct (decide _); [by upd_case|]. by upd_case.
    + rewrite Hfi. cbn. destruct (decide _); by upd_case.
    + intros Hi. rewrite Hfi. cbn. rewrite upd_other; [by destruct (decide _)|]. intros ->.
      apply NoDup_cons in Hnd as [Hnd _]. apply Hnd. in_app.
  - destruct Hd as [Q1 Q2 Q3 Q4 Q5 Q6 Q7]. split; try done; cbn.
    + intros i. rewrite Hfi. cbn. destruct (decide _); apply Q3.
    + intros i Hi. rewrite Hfi. cbn. destruct (decide _); by apply Q6.
Qed.

Lemma select_value mem g R s mid t rest :
  search_ok g0 L g R -> stack_ok g0 g (s :: mid ++ t :: rest) -> alive g s ->
  target g0 (current (TWFG_node g s)) = t ->
  exists best g',
    lock_select_deadlock_victim tt mem g s t = Some g'
    /\ best_of tt (candidates g s t mid) best
    /\ stack_ok g0 g' (t :: rest)
    /\ search_ok g0 L g' (match best with
                          | Some (v, _, _) => upd R v []
                          | None => upd R s (tail (R s))
                          end)
    /\ select_result g (s :: mid ++ [t]) best g'.
Proof.
  intros Hs Hst Has Ht. pose proof Hst as [Hnd Hf Hp _].
  change (s :: mid ++ t :: rest) with ((s :: mid) ++ t :: rest) in *.
  assert (is_node g0 s /\ is_node g0 t) as [Hns Hnt].
  { rewrite Forall_forall in Hf. split; apply Hf; in_app. }
  assert (alive g t) as Hat by (apply (path_alive _ _ _ _ Hp); in_app).
  pose proof (path_up g R _ t rest Hs Hp Hnd Hf) as Hu.
  assert (length (s :: mid) <= Z.to_nat (num_trans g))%nat as Hl.
  { rewrite (so_num _ _ _ _ Hs). apply NoDup_app in Hnd as [Hnd _]. apply Forall_app in Hf as [Hf _].
    pose proof (nodes_length _ Hnd Hf). lia. }
  assert (NoDup (s :: mid)) as Hnd' by (by apply NoDup_app in Hnd as [? _]).
  unfold lock_select_deadlock_victim.
  rewrite (check_cycle_edge_alive g R) by done. obind.
  rewrite (check_cycle_up _ g R (s :: mid) t rest) by done. obind.
  rewrite node_in by (by apply (is_node_ok _ _ _ _ _ Hs)). obind.
  destruct (alive_edge g R s Hs Hns Has) as [l E].
  destruct (rest_edge _ _ H0 g R s _ Hs Hns ltac:(rewrite E; left)) as (_ & Hr & _ & Hself).
  rewrite edge_in by (rewrite (so_count _ _ _ _ Hs); done). obind.
  rewrite (cycle_nodes_up _ g (s :: mid) t), (choose_victim_up _ g (s :: mid) t) by done. obind.
  pose proof (choose_candidates g s mid t (TWFG_edge g (current (TWFG_node g s)))) as Hbest.
  specialize (Hbest ltac:(pose proof (so_edge _ _ _ _ Hs (current (TWFG_node g s))) as He; by injection He)).
  rewrite (so_num _ _ _ _ Hs). destruct (foldl _ _ _) as [[[v id] can]|].
  - destruct (select_some mem g R s mid t rest v id can Hs Hst) as (g' & Hrun & H1 & H2 & H3); [apply Hbest|].
    exists (Some (v, id, can)), g'. split; [exact Hrun|]. done.
  - destruct (select_none g R s mid t rest Hs Hst Has Ht) as (g' & Hrun & H1 & H2 & H3).
    exists None, g'. split; [exact Hrun|]. done.
Qed.
End Victim.
