(* ===== verification/DeadlockVisit.v ===== *)
(** * The search for deadlocks: its steps

    Every iteration of the search keeps the invariant, makes a measure smaller
    and keeps track of why a node is done: its transaction does not wait, it
    was chosen as a victim, or all the transactions it waits for were done
    before it. *)
From Stdlib Require Import ZArith Lia ZifyBool.
From stdpp Require Import base list numbers gmap relations.
From S2P Require Import Prelude LockTable LockManager Deadlock DeadlockSearch DeadlockVictim.

(** ** The measure *)

Section Measure.
Context (g0 : TWFG).

Definition all_nodes : list Z := seqZ 1 (num_trans g0 - 1).

Lemma elem_of_nodes i : i ∈ all_nodes <-> is_node g0 i.
Proof. unfold all_nodes, is_node. rewrite elem_of_seqZ. lia. Qed.

Definition weight (R : Z -> list Z) : Z := sumZ ((fun i => Z.of_nat (length (R i))) <$> all_nodes).

(** Nodes with a rest that are not on the path. *)
Definition white (R : Z -> list Z) (st : list Z) : nat :=
  length (filter (fun i => R i <> [] /\ i ∉ st) all_nodes).

Definition measure (R : Z -> list Z) (st : list Z) : Z :=
  weight R * (3 * num_trans g0 + 1) + 2 * Z.of_nat (white R st) + Z.of_nat (length st).

Lemma weight_upd R i l :
  is_node g0 i -> weight (upd R i l) = weight R - Z.of_nat (length (R i)) + Z.of_nat (length l).
Proof.
  intros Hi. unfold weight.
  rewrite (sumZ_fmap_change _ (fun i => Z.of_nat (length (R i))) _ i).
  - rewrite upd_same. lia.
  - apply NoDup_seqZ.
  - by apply elem_of_nodes.
  - intros j _ Hj. by rewrite upd_other.
Qed.

Lemma weight_nonneg R : 0 <= weight R.
Proof. apply sumZ_nonneg, Forall_fmap, Forall_true. intros. cbn. lia. Qed.

Lemma white_bound R st : 1 <= num_trans g0 -> Z.of_nat (white R st) <= num_trans g0 - 1.
Proof.
  intros HN. unfold white.
  etrans; [apply inj_le, length_filter|]. unfold all_nodes. rewrite length_seqZ. lia.
Qed.

Lemma measure_weight R R' st st' i :
  is_node g0 i -> NoDup st' -> Forall (is_node g0) st' -> weight R' < weight R ->
  measure R' st' < measure R st.
Proof.
  intros Hi Hn Hf Hw. unfold measure, is_node in *.
  pose proof (white_bound R' st' ltac:(lia)). pose proof (nodes_length g0 _ Hn Hf). nia.
Qed.

Lemma measure_push R st t :
  is_node g0 t -> R t <> [] -> t ∉ st -> measure R (t :: st) < measure R st.
Proof.
  intros Ht HR Hst. unfold measure. assert (white R st = S (white R (t :: st))) as ->; [|cbn [length]; lia].
  unfold white. assert (t ∈ all_nodes) as Hin by (by apply elem_of_nodes).
  assert (NoDup all_nodes) as Hn by apply NoDup_seqZ.
  induction all_nodes as [|i l IH]; [by apply not_elem_of_nil in Hin|].
  apply NoDup_cons in Hn as [Hi Hn]. rewrite !filter_cons. apply elem_of_cons in Hin as [<-|Hin].
  - rewrite decide_True by done. rewrite decide_False by (intros [_ []]; left). cbn. f_equal. f_equal.
    apply filter_iff_in. intros x Hx. rewrite not_elem_of_cons.
    assert (x <> t) by (by intros ->). tauto.
  - assert (i <> t) by (by intros ->). destruct (decide (R i ≠ [] ∧ i ∉ st)) as [[H1 H2]|H1].
    + rewrite decide_True by (split; [done|by apply not_elem_of_cons]). cbn. by rewrite IH.
    + rewrite decide_False by (rewrite not_elem_of_cons; tauto). by rewrite IH.
Qed.

Lemma measure_pop R s st : R s = [] -> measure R st < measure R (s :: st).
Proof.
  intros HR. unfold measure, white. cbn [length].
  rewrite (filter_iff_in _ (fun i => R i ≠ [] ∧ i ∉ s :: st)); [lia|].
  intros x _. rewrite not_elem_of_cons. split; [|tauto]. intros [Hx Hn]. split; [done|]. split; [|done].
  intros ->. done.
Qed.

Lemma measure_cut R i st : is_node g0 i -> measure (upd R i []) st <= measure R st.
Proof.
  intros Hi. unfold measure. pose proof (weight_upd R i [] Hi) as Hw. cbn [length] in Hw.
  assert (white (upd R i []) st <= white R st)%nat; [|unfold is_node in Hi; nia].
  unfold white. clear Hw. induction all_nodes as [|j l IH]; [done|]. rewrite !filter_cons.
  destruct (decide (upd R i [] j ≠ [] ∧ j ∉ st)) as [[H1 H2]|H1].
  - rewrite decide_True; [cbn; lia|]. split; [|done]. by upd_case.
  - destruct (decide _); cbn; lia.
Qed.

End Measure.

Section Visit.
Context (g0 : TWFG) (L : Z -> list Z) (H0 : graph_ok g0 L) (tt : TRAN_TABLE) (mem : bool * bool).

Notation measure := (measure g0).

(** ** Finished nodes *)

(** The transaction waits, and has waited since before its edges were made. *)
Definition live (i : Z) : Prop :=
  let n := TWFG_node g0 i in
  checked_by_deadlock_detector n = true /\ thrd_wait_stime n <> 0
  /\ forall e, e ∈ L i -> thrd_wait_stime n <= edge_wait_stime (TWFG_edge g0 e).

(** [order] are the nodes without a rest, the last one first, and [vs] are the
    victims. *)
Record order_ok (R : Z -> list Z) (vs order : list Z) : Prop := {
  or_nodup : NoDup order;
  or_done : forall i, i ∈ order <-> is_node g0 i /\ R i = [];
  or_before : forall i l1 l2 e, order = l1 ++ i :: l2 -> live i -> i ∉ vs ->
    e ∈ L i -> fresh g0 i e -> target g0 e ∈ l2 \/ hopeless g0 L tt e;
  or_passed : forall i e, is_node g0 i -> i ∉ order -> live i ->
    e ∈ L i -> e ∉ R i -> fresh g0 i e -> target g0 e ∈ order \/ hopeless g0 L tt e }.

Lemma order_ext R R' vs order :
  (forall i, R' i = R i) -> order_ok R vs order -> order_ok R' vs order.
Proof.
  intros HR [H1 H2 H3 H4]. split; [done| |done|].
  - intros i. by rewrite HR.
  - intros i e. rewrite HR. apply H4.
Qed.

(** A node is finished. *)
Lemma order_kill R vs vs' order i :
  order_ok R vs order -> is_node g0 i -> R i <> [] -> vs ⊆ vs' ->
  (live i -> i ∉ vs' ->
   forall e, e ∈ L i -> fresh g0 i e -> target g0 e ∈ order \/ hopeless g0 L tt e) ->
  order_ok (upd R i []) vs' (i :: order).
Proof.
  intros [H1 H2 H3 H4] Hi HR Hvs Hdone. assert (i ∉ order) as Hni by (intros [_ ?]%H2; done). split.
  - by constructor.
  - intros j. rewrite elem_of_cons, H2. upd_case; [tauto|]. tauto.
  - intros j l1 l2 e Ho Hl Hv He Hf. destruct l1 as [|x l1]; injection Ho as <- Ho.
    + subst l2. by apply Hdone.
    + apply (H3 j l1 l2 e Ho Hl); [|done..]. intros ?. by apply Hv, Hvs.
  - intros j e Hj [Hji Hjo]%not_elem_of_cons Hl He Hr Hf. rewrite upd_other in Hr by done.
    destruct (H4 j e) as [?|?]; try done; [left; by right|by right].
Qed.

(** A node goes past an edge to a finished node, or to one it does not wait
    for. *)
Lemma order_pass R vs order i e l :
  order_ok R vs order -> is_node g0 i -> R i = e :: l ->
  (live i -> fresh g0 i e -> target g0 e ∈ order \/ hopeless g0 L tt e) ->
  order_ok (upd R i l) vs (match l with [] => i :: order | _ => order end).
Proof.
  intros Ho Hi HR Hpass.
  assert (forall e', e' ∈ L i -> e' ∉ l -> live i -> fresh g0 i e' ->
            target g0 e' ∈ order \/ hopeless g0 L tt e') as Hall.
  { intros e' He' Hl Hli Hf. destruct (decide (e' = e)) as [->|]; [by apply Hpass|].
    apply (or_passed _ _ _ Ho i); try done.
    - intros [_ ?]%(or_done _ _ _ Ho). congruence.
    - rewrite HR. by intros [?|?]%elem_of_cons. }
  destruct l as [|x l].
  - apply (order_kill R vs); [done|done|congruence|done|]. intros Hli _ e' He' Hf.
    apply Hall; [done|apply not_elem_of_nil|done..].
  - destruct Ho as [H1 H2 H3 H4]. split; [done| |done|].
    + intros j. rewrite H2. upd_case; [|done]. rewrite HR. intuition congruence.
    + intros j e' Hj Hjo Hl He' Hr Hf. upd_case; [by apply Hall|]. by apply (H4 j).
Qed.

(** ** The invariant *)

Record visit_inv (g : TWFG) (R : Z -> list Z) (st order : list Z) : Prop := {
  vi_search : search_ok g0 L g R;
  vi_stack : stack_ok g0 g st;
  vi_order : order_ok R (victim_index <$> victims g) order;
  vi_victims : Forall (victim_ok g0 L tt) (victims g) }.

(** ** Steps *)

(** What an iteration at [s] achieves. *)
Definition visited (R : Z -> list Z) (s : Z) (st : list Z) (g' : TWFG) (s' : Z) : Prop :=
  exists R' st' order',
    visit_inv g' R' st' order' /\ measure R' st' < measure R (s :: st)
    /\ (forall i, is_node g0 i -> R i = [] -> R' i = [])
    /\ match st' with
       | [] => s' = -2 /\ st = [] /\ R' s = []
       | x :: _ => s' = x /\ last st' = last (s :: st)
       end.

Lemma stack_ext g g' s st :
  stack_ok g0 g (s :: st) ->
  (forall i, ancestor (TWFG_node g' i) = ancestor (TWFG_node g i)) ->
  (forall i, i ∈ st -> current (TWFG_node g' i) = current (TWFG_node g i)) ->
  (forall i, candidate (TWFG_node g' i) = candidate (TWFG_node g i)) ->
  stack_ok g0 g' (s :: st).
Proof.
  intros [Hn Hf Hp Ho] Ha Hc Hd. split; [done|done|..].
  - by apply (path_ext _ g).
  - intros i Hi Hin. rewrite Ha. by apply Ho.
Qed.

(** The end of the path drops its current edge, or only goes past it. *)
Lemma pass_inv g R s st order e l g' :
  visit_inv g R (s :: st) order -> R s = e :: l ->
  (live s -> fresh g0 s e -> target g0 e ∈ order \/ hopeless g0 L tt e) ->
  g' = dropped g s e \/ g' = advanced g s e ->
  exists order', visit_inv g' (upd R s l) (s :: st) order'.
Proof.
  intros [Hs Hst Ho Hv] HR Hpass Hg. assert (is_node g0 s) as Hn.
  { by apply st_node, Forall_cons in Hst as [? _]. }
  eexists. split.
  - destruct Hg as [-> | ->]; [by apply (drop_ok _ _ H0)|by apply (advanced_ok _ _ H0)].
  - apply (stack_ext g); [done|..]; intros i; try intros Hi.
    all: destruct Hg as [-> | ->]; cbn; upd_case; try done.
    all: apply st_nodup, NoDup_cons in Hst as [? _]; done.
  - replace (victims g') with (victims g) by (by destruct Hg as [-> | ->]). by apply order_pass with e.
  - by destruct Hg as [-> | ->].
Qed.

Lemma suffix_dead (R : Z -> list Z) i l :
  l `suffix_of` R i -> forall j, R j = [] -> upd R i l j = [].
Proof. intros [k Hk] j Hj. upd_case; [|done]. rewrite Hj in Hk. by destruct k, l. Qed.

Lemma pass_visited g R s st order e l g' :
  visit_inv g R (s :: st) order -> R s = e :: l ->
  (live s -> fresh g0 s e -> target g0 e ∈ order \/ hopeless g0 L tt e) ->
  g' = dropped g s e \/ g' = advanced g s e ->
  visited R s st g' s.
Proof.
  intros Hi HR Hpass Hg. destruct (pass_inv g R s st order e l g' Hi HR Hpass Hg) as [order' Hi'].
  exists (upd R s l), (s :: st), order'. split_and!; [done| | |done|done].
  - destruct Hi as [_ [Hn Hf _ _] _ _]. pose proof Hf as [Hs _]%Forall_cons.
    apply (measure_weight _ _ _ _ _ s); [done..|]. rewrite weight_upd, HR by done. cbn [length]. lia.
  - intros i _. apply suffix_dead. rewrite HR. by apply suffix_cons_r.
Qed.

(** A node off the path, or its end, loses its edges. *)
Lemma cut_inv g R s st order i :
  visit_inv g R (s :: st) order -> is_node g0 i -> i ∉ st -> R i <> [] -> ~ live i ->
  exists g', cut_edges g i = Some g' /\ visit_inv g' (upd R i []) (s :: st) (i :: order)
    /\ TWFG_edge g' = TWFG_edge g /\ (forall j, j <> i -> TWFG_node g' j = TWFG_node g j)
    /\ ancestor (TWFG_node g' i) = ancestor (TWFG_node g i).
Proof.
  intros [Hs Hst Ho Hv] Hi Hin HR Hl. unfold cut_edges.
  rewrite mod_node_in by (by apply (is_node_ok _ _ _ _ _ Hs)). eexists. split; [done|].
  split; [|split; [done|split; [intros j Hj; cbn; by rewrite upd_other|cbn; by rewrite upd_same]]].
  split; [|..|done].
  - apply node_ok; [done..|apply suffix_nil|done].
  - apply (stack_ext g); [done|..]; intros j; try intros Hj; cbn; upd_case; done.
  - apply (order_kill R (victim_index <$> victims g)); done.
Qed.

Lemma stack_top g s st : stack_ok g0 g (s :: st) -> is_node g0 s /\ s ∉ st.
Proof. intros [[? _]%NoDup_cons [? _]%Forall_cons _ _]. done. Qed.

Lemma stack_ancestor g s st t : stack_ok g0 g (s :: st) -> t ∈ st -> ancestor (TWFG_node g t) <> -1.
Proof.
  intros [_ [_ Hf]%Forall_cons [_ Hp] _]. revert Hf Hp. induction st as [|p st IH]; [by intros _ _ ?%not_elem_of_nil|].
  intros [_ Hf]%Forall_cons [Hp Hst] [->|Ht]%elem_of_cons; [|by apply IH].
  destruct st as [|q st]; [by rewrite Hp|]. apply Forall_cons in Hf as [Hq _].
  destruct Hp as [-> _]. unfold is_node in Hq. lia.
Qed.

(** The end of the path is finished and the search goes back. *)
Definition go_back (g : TWFG) (s : Z) : option (TWFG * Z * bool) :=
  let t := ancestor (TWFG_node g s) in
  g ← mod_node g s (set_ancestor (-1));
  if t =? -2 then Some (g, t, false)
  else
    p ← node g t;
    if current p =? -1 then Some (g, t, false)
    else g ← advance g t; Some (g, t, false).

Lemma back_inv g R s st order :
  visit_inv g R (s :: st) order -> R s = [] ->
  visit_inv (with_nodes g (upd (TWFG_node g) s (set_ancestor (-1) (TWFG_node g s)))) R st order.
Proof.
  intros [Hs Hst Ho Hv] HR. destruct (stack_top _ _ _ Hst) as [Hn Hni]. destruct Hst as [Hnd Hf Hp Hot].
  apply NoDup_cons in Hnd as [_ Hnd]. apply Forall_cons in Hf as [_ Hf]. destruct Hp as [_ Hp].
  split; [by apply node_keep| |done|done]. split; [done|done|..].
  - apply (path_ext _ g); [..|done]; intros i Hi; cbn; upd_case; done.
  - intros i Hi Hin. cbn. upd_case; [done|]. apply Hot; [done|]. by apply not_elem_of_cons.
Qed.

Lemma back_visited g R s st order :
  visit_inv g R (s :: st) order -> R s = [] ->
  exists g' s', go_back g s = Some (g', s', false) /\ visited R s st g' s'.
Proof.
  intros Hi HR. pose proof (back_inv g R s st order Hi HR) as Hi'.
  destruct Hi as [Hs Hst Ho _]. destruct (stack_top _ _ _ Hst) as [Hn Hni].
  unfold go_back. rewrite mod_node_in by (by apply (is_node_ok _ _ _ _ _ Hs)). obind.
  set (g1 := with_nodes _ _) in *.
  destruct st as [|p st].
  - destruct (st_path _ _ _ Hst) as [Ha _]. rewrite Ha. cbn. eexists _, _. split; [done|].
    exists R, [], order. split_and!; [done|by apply measure_pop|done..].
  - destruct (st_path _ _ _ Hst) as [[Ha Ht] _]. rewrite Ha.
    assert (is_node g0 p) as Hp by (by apply (stack_top _ _ _ (vi_stack _ _ _ _ Hi'))).
    replace (p =? -2) with false by (unfold is_node in Hp; lia).
    rewrite node_in by (by apply (is_node_ok _ _ _ _ _ Hs)). obind. cbn [g1 TWFG_node with_nodes].
    rewrite upd_other by (intros ->; apply Hni; left).
    destruct Ht as (Hc & Ht & _). replace (current _ =? -1) with false by lia.
    destruct (R p) as [|e l] eqn:HRp; [by apply (current_end _ _ H0 _ _ _ Hs Hp) in HRp|].
    rewrite (advance_value _ _ H0 _ R p e l (vi_search _ _ _ _ Hi') Hp HRp). obind.
    pose proof (rest_current _ _ H0 _ _ _ Hs Hp) as Hr. rewrite HRp in Hr. destruct Hr as (Hce & _).
    eexists _, _. split; [done|].
    destruct (pass_visited g1 R p st order e l (advanced g1 p e) Hi' HRp) as (R' & st' & order' & H1 & H2 & H3 & H4);
      [|by right|].
    { intros _ _. left. rewrite <- Hce, Ht. by apply (or_done _ _ _ Ho). }
    exists R', st', order'. split_and!; [done| |done|].
    + etrans; [exact H2|]. by apply measure_pop.
    + destruct st'; [|done]. destruct H4 as (-> & _ & _). unfold is_node in Hp. lia.
Qed.

(** The search goes on to a node that is not on the path. *)
Lemma push_visited g R s st order e t :
  visit_inv g R (s :: st) order -> current (TWFG_node g s) = e -> e <> -1 -> target g0 e = t ->
  fresh g0 s e -> is_node g0 t -> R t <> [] -> t ∉ s :: st ->
  visited R s st
    (with_nodes g (upd (TWFG_node g) t
       (set_candidate (holder_flag (TWFG_edge g e)) (set_ancestor s (TWFG_node g t))))) t.
Proof.
  intros [Hs Hst Ho Hv] He Hne Ht Hf Hn HR Hni. exists R, (t :: s :: st), order.
  split_and!; [|by apply measure_push|done..]. destruct Hst as [Hnd Hfa Hp Hot].
  assert (s <> t) by (intros ->; apply Hni; left).
  split; [by apply node_keep| |done|done]. split; [by constructor|by constructor| |].
  - split.
    + cbn. rewrite upd_same. split; [done|]. unfold tree_edge. cbn. rewrite upd_other, upd_same by done.
      rewrite He. split_and!; [done|done| |done]. cbn. pose proof (so_edge _ _ _ _ Hs e) as Hee. by injection Hee.
    + apply (path_ext _ g); [..|done]; intros i Hi; cbn; rewrite upd_other; try done; intros ->; try done.
      apply Hni. by right.
  - intros i Hi [Hit Hin]%not_elem_of_cons. cbn. rewrite upd_other by done. by apply Hot.
Qed.

Lemma candidate_rest g R s mid t rest v :
  search_ok g0 L g R -> stack_ok g0 g (s :: mid ++ t :: rest) -> alive g0 g s ->
  v ∈ candidates g0 g s t mid -> is_node g0 v /\ R v <> [].
Proof.
  intros Hs Hst Ha Hin. assert (v ∈ s :: mid ++ [t]) as Hvin.
  { unfold candidates in Hin. apply elem_of_app in Hin as [Hin|[_ Hin]%list_elem_of_filter]; [|in_app].
    destruct (holder_flag _); [in_app|by apply not_elem_of_nil in Hin]. }
  assert (is_node g0 v) as Hnv.
  { destruct Hst as [_ Hf _ _]. rewrite Forall_forall in Hf. apply Hf. in_app. }
  split; [done|]. destruct (alive_edge _ _ H0 g R v Hs Hnv) as [lv Ev]; [|congruence].
  apply elem_of_cons in Hvin as [->|Hvin]; [done|].
  apply (path_alive _ _ _ _ _ (st_path _ _ _ Hst)). in_app.
Qed.

(** The search finds a cycle. *)
Lemma select_visited g R s st order t :
  visit_inv g R (s :: st) order -> alive g0 g s -> target g0 (current (TWFG_node g s)) = t -> t ∈ st ->
  exists g', lock_select_deadlock_victim tt mem g s t = Some g' /\ visited R s st g' t.
Proof.
  intros [Hs Hst Ho Hv] Ha Ht (mid & rest & ->)%list_elem_of_split.
  destruct (stack_top _ _ _ Hst) as [Hn _].
  destruct (select_value _ _ H0 tt mem g R s mid t rest Hs Hst Ha Ht)
    as (best & g' & Hrun & Hbest & Hst' & Hs' & Hres).
  exists g'. split; [done|].
  pose proof (found_cycle _ _ H0 g R s mid t rest Hs Hst Ha Ht) as Hcyc.
  assert (forall v, candidate_of g0 tt (with_edge_of g <$> s :: mid ++ [t]) v
            <-> v ∈ candidates g0 g s t mid /\ logtb_is_active tt (logtb_find_tranid tt v) = true) as Hcand.
  { intros v. apply (candidates_of _ tt g s mid t rest); [apply Hst|done]. }
  destruct (alive_edge _ _ H0 g R s Hs Hn Ha) as [l E].
  assert (last (t :: rest) = last (s :: mid ++ t :: rest)) as Hlast.
  { rewrite app_comm_cons, last_app. by destruct (last (t :: rest)) eqn:El; [|apply last_None in El]. }
  destruct best as [[[v id] can]|]; cbn in Hbest, Hres.
  - destruct Hbest as (Hin & Hact & -> & -> & Hpref). destruct Hres as (lc & Hvic & Hlc).
    assert (is_node g0 v /\ R v <> []) as [Hnv HRv] by (by apply (candidate_rest g R s mid t rest)).
    exists (upd R v []), (t :: rest), (v :: order). split_and!; [|..|done|done].
    + split; [done|done|..]; rewrite Hvic.
      * rewrite fmap_app. apply (order_kill R (victim_index <$> victims g)); [done..| |].
        { intros x Hx. apply elem_of_app. by left. }
        intros _ Hnot. exfalso. apply Hnot, elem_of_app. right. left.
      * apply Forall_app. split; [done|]. apply Forall_singleton.
        exists (with_edge_of g <$> s :: mid ++ [t]). cbn. split_and!; [done|by apply Hcand|..|done|done| |].
        -- intros w [Hw1 Hw2]%Hcand. by apply Hpref.
        -- by rewrite length_fmap.
        -- intros l' ->. destruct Hlc as [[= ->]|[?|?]]; [|done..]. f_equal. symmetry. apply with_edge_fst.
    + destruct Hst' as [Hnd' Hf' _ _]. apply (measure_weight _ _ _ _ _ v); [done..|].
      rewrite weight_upd by done. destruct (R v); [done|]. cbn [length]. lia.
    + intros i _. apply suffix_dead, suffix_nil.
  - rewrite E in Hs'. cbn [tail] in Hs'.
    eexists (upd R s l), (t :: rest), _. split_and!; [|..|done|done].
    + split; [done|done|rewrite Hres|by rewrite Hres]. apply (order_pass R _ order s (current (TWFG_node g s)) l); [done..|].
      intros _ _. right. eexists. split; [exact Hcyc|]. split; [cbn; left|].
      intros w [Hw1 Hw2]%Hcand. by apply (Hbest w).
    + destruct Hst' as [Hnd' Hf' _ _]. apply (measure_weight _ _ _ _ _ s); [done..|].
      rewrite weight_upd, E by done. cbn [length]. lia.
    + intros i _. apply suffix_dead. rewrite E. by apply suffix_cons_r.
Qed.

(** ** One iteration *)

Lemma old_not_live g R i :
  search_ok g0 L g R -> is_node g0 i -> old_node g0 R i = true -> ~ live i.
Proof.
  intros Hs Hi Ho (H1 & H2 & H3). unfold old_node in Ho. rewrite H1 in Ho. cbn in Ho.
  destruct (R i) as [|e l] eqn:E; [lia|].
  destruct (rest_edge _ _ H0 g R i e Hs Hi ltac:(rewrite E; left)) as [He _]. specialize (H3 e He). lia.
Qed.

Lemma visited_mono R R' s st g' s' :
  measure R' (s :: st) <= measure R (s :: st) -> (forall i, R i = [] -> R' i = []) ->
  visited R' s st g' s' -> visited R s st g' s'.
Proof.
  intros Hm HR (R2 & st' & order' & H1 & H2 & H3 & H4). exists R2, st', order'.
  split_and!; [done|lia| |done]. intros i Hi HRi. by apply H3, HR.
Qed.

Lemma drop_then {A} g R i e l (k : TWFG -> option A) :
  search_ok g0 L g R -> is_node g0 i -> R i = e :: l ->
  (g ← drop_edge g i; g ← advance g i; k g) = k (dropped g i e).
Proof.
  intros Hs Hi HR. pose proof (drop_value _ _ H0 g R i e l Hs Hi HR) as Hd.
  destruct (drop_edge g i); [|done]. cbn in *. by rewrite Hd.
Qed.

Definition progress (R : Z -> list Z) (s : Z) (st : list Z) (o : option (TWFG * Z * bool)) : Prop :=
  exists g' s' full, o = Some (g', s', full) /\ visited R s st g' s'
    /\ (full = true -> LK_MAX_VICTIM_COUNT <= Z.of_nat (length (victims g'))).

(** The current edge of [s] leads to a node that waits. *)
Lemma visit_waiting g R s st order e l t :
  visit_inv g R (s :: st) order -> R s = e :: l -> old_node g0 R s = false ->
  target g0 e = t -> R t <> [] -> old_node g0 R t = false ->
  progress R s st
    (let nt := TWFG_node g t in
     if edge_seq_num (TWFG_edge g e) <? tran_edge_seq_num nt then
       g ← drop_edge g s; g ← advance g s; Some (g, s, false)
     else if negb (ancestor nt =? -1) then
       g ← lock_select_deadlock_victim tt mem g s t;
       Some (g, t, Z.of_nat (length (victims g)) >=? LK_MAX_VICTIM_COUNT)
     else
       g ← mod_node g t (fun nt => set_candidate (holder_flag (TWFG_edge g e)) (set_ancestor s nt));
       Some (g, t, false)).
Proof.
  intros Hi HR Hold Ht HRt Hot. pose proof Hi as [Hs Hst Ho _]. destruct (stack_top _ _ _ Hst) as [Hn Hni].
  destruct (rest_edge _ _ H0 g R s e Hs Hn ltac:(rewrite HR; left)) as (He & Hr & Hnt & Hts).
  rewrite Ht in Hnt, Hts. pose proof (rest_current _ _ H0 g R s Hs Hn) as Hc. rewrite HR in Hc.
  destruct Hc as (Hc & Hne & _). cbv zeta.
  pose proof (so_edge _ _ _ _ Hs e) as Hee. pose proof (so_node _ _ _ _ Hs t) as Hnn.
  assert (edge_seq_num (TWFG_edge g e) = edge_seq_num (TWFG_edge g0 e)) as -> by (by injection Hee).
  assert (tran_edge_seq_num (TWFG_node g t) = tran_edge_seq_num (TWFG_node g0 t)) as -> by (by injection Hnn).
  destruct (_ <? _) eqn:Eq.
  { rewrite (drop_then g R s e l) by done. eexists _, _, _. split; [done|]. split; [|done].
    apply (pass_visited g R s st order e l); [done..| |by left].
    intros _ (_ & _ & _ & Hq). rewrite Ht in Hq. lia. }
  assert (fresh g0 s e) as Hf.
  { unfold old_node in Hold. rewrite HR in Hold. unfold fresh. rewrite Ht.
    destruct (checked_by_deadlock_detector _); [|done]. cbn in Hold. split_and!; [done|lia..]. }
  destruct (decide (t ∈ s :: st)) as [Hin|Hin].
  - apply elem_of_cons in Hin as [->|Hin]; [done|].
    assert (ancestor (TWFG_node g t) <> -1) as Hanc by (by apply (stack_ancestor g s st)).
    replace (ancestor _ =? -1) with false by lia. cbn [negb].
    destruct (select_visited g R s st order t) as (g' & Hrun & Hv); [done|by split; rewrite Hc|by rewrite Hc|done|].
    rewrite Hrun. obind. eexists _, _, _. split; [done|]. split; [done|]. lia.
  - rewrite (st_other _ _ _ Hst t Hnt Hin). cbn [Z.eqb negb].
    rewrite mod_node_in by (by apply (is_node_ok _ _ _ _ _ Hs)). obind.
    eexists _, _, _. split; [done|]. split; [|done]. by apply (push_visited g R s st order e t).
Qed.

(** The node [s] has an edge to look at. *)
Lemma visit_edge g R s st order e l t :
  visit_inv g R (s :: st) order -> R s = e :: l -> old_node g0 R s = false -> target g0 e = t ->
  progress R s st
    (nt ← node g t;
     if current nt =? -1 then
       g ← drop_edge g s; g ← advance g s; Some (g, s, false)
     else
       old ← is_old g nt;
       if old : bool then
         g ← cut_edges g t; g ← drop_edge g s; g ← advance g s; Some (g, s, false)
       else if edge_seq_num (TWFG_edge g e) <? tran_edge_seq_num nt then
         g ← drop_edge g s; g ← advance g s; Some (g, s, false)
       else if negb (ancestor nt =? -1) then
         g ← lock_select_deadlock_victim tt mem g s t;
         Some (g, t, Z.of_nat (length (victims g)) >=? LK_MAX_VICTIM_COUNT)
       else
         g ← mod_node g t (fun nt => set_candidate (holder_flag (TWFG_edge g e)) (set_ancestor s nt));
         Some (g, t, false)).
Proof.
  intros Hi HR Hold Ht. pose proof Hi as [Hs Hst Ho _]. destruct (stack_top _ _ _ Hst) as [Hn Hni].
  destruct (rest_edge _ _ H0 g R s e Hs Hn ltac:(rewrite HR; left)) as (He & Hr & Hnt & Hts).
  rewrite Ht in Hnt, Hts. rewrite node_in by (by apply (is_node_ok _ _ _ _ _ Hs)). obind.
  destruct (current (TWFG_node g t) =? -1) eqn:Et.
  { apply Z.eqb_eq in Et. apply (current_end _ _ H0 _ _ _ Hs Hnt) in Et.
    rewrite (drop_then g R s e l) by done. eexists _, _, _. split; [done|]. split; [|done].
    apply (pass_visited g R s st order e l); [done..| |by left].
    intros _ _. left. rewrite Ht. by apply (or_done _ _ _ Ho). }
  assert (R t <> []) as HRt.
  { intros ?%(current_end _ _ H0 _ _ _ Hs Hnt). lia. }
  rewrite (is_old_value _ _ H0 g R t Hs Hnt). obind. destruct (old_node g0 R t) eqn:Eo;
    [|by apply (visit_waiting g R s st order e l t)].
  assert (t ∉ st) as Hts'.
  { intros Hin. pose proof (path_alive _ _ _ _ _ (st_path _ _ _ Hst) Hin) as Ha.
    rewrite (alive_old _ _ H0 g R t Hs Hnt Ha) in Eo. done. }
  destruct (cut_inv g R s st order t Hi Hnt Hts' HRt) as (g1 & Hcut & Hi1 & _);
    [by apply (old_not_live g R)|].
  rewrite Hcut. obind. assert (upd R t [] s = e :: l) as HR1 by (by rewrite upd_other).
  rewrite (drop_then g1 (upd R t []) s e l) by (done || apply Hi1).
  eexists _, _, _. split; [done|]. split; [|done]. apply (visited_mono _ (upd R t [])).
  - apply Z.lt_le_incl, (measure_weight _ _ _ _ _ t); [done|apply Hst..|].
    rewrite weight_upd by done. destruct (R t); [done|]. cbn [length]. lia.
  - intros i. apply suffix_dead, suffix_nil.
  - apply (pass_visited g1 (upd R t []) s st (t :: order) e l); [done..| |by left].
    intros _ _. left. rewrite Ht. left.
Qed.

(** An old node at the end of the path loses its edges, if it has any left. *)
Lemma cut_end g R s st order :
  visit_inv g R (s :: st) order -> old_node g0 R s = true ->
  exists g' order', cut_edges g s = Some g' /\ visit_inv g' (upd R s []) (s :: st) order'.
Proof.
  intros Hi Hold. pose proof Hi as [Hs Hst Ho Hv]. destruct (stack_top _ _ _ Hst) as [Hn Hni].
  destruct (R s) as [|e l] eqn:HR.
  - unfold cut_edges. rewrite mod_node_in by (by apply (is_node_ok _ _ _ _ _ Hs)).
    eexists _, order. split; [done|]. split; [| | |done].
    + apply node_ok; [done..|apply suffix_nil|done].
    + apply (stack_ext g); [done|..]; intros j; try intros Hj; cbn; upd_case; done.
    + apply (order_ext R); [|done]. intros i. by upd_case.
  - destruct (cut_inv g R s st order s) as (g' & Hc & Hi' & _); [done..|congruence|by apply (old_not_live g R)|].
    by exists g', (s :: order).
Qed.

Lemma visit_ok g R s st order :
  visit_inv g R (s :: st) order -> progress R s st (visit tt mem g s).
Proof.
  intros Hi. pose proof Hi as [Hs Hst Ho _]. destruct (stack_top _ _ _ Hst) as [Hn Hni].
  unfold visit. rewrite node_in by (by apply (is_node_ok _ _ _ _ _ Hs)). obind.
  rewrite (is_old_value _ _ H0 g R s Hs Hn). obind. destruct (old_node g0 R s) eqn:Eo.
  { destruct (cut_end g R s st order Hi Eo) as (g1 & order1 & Hc & Hi1). rewrite Hc. obind.
    pose proof (vi_search _ _ _ _ Hi1) as Hs1.
    rewrite node_in by (by apply (is_node_ok _ _ _ _ _ Hs1)). obind.
    rewrite (proj2 (current_end _ _ H0 _ _ _ Hs1 Hn)) by apply upd_same. cbn [Z.eqb].
    destruct (back_visited g1 (upd R s []) s st order1 Hi1) as (g' & s' & Hrun & Hv); [apply upd_same|].
    fold (go_back g1 s). rewrite Hrun. eexists _, _, _. split; [done|]. split; [|done].
    apply (visited_mono _ (upd R s [])); [by apply measure_cut| |done].
    intros i. apply suffix_dead, suffix_nil. }
  obind. rewrite node_in by (by apply (is_node_ok _ _ _ _ _ Hs)). obind.
  pose proof (rest_current _ _ H0 _ _ _ Hs Hn) as Hc. destruct (R s) as [|e l] eqn:HR.
  { rewrite Hc. cbn [Z.eqb].
    destruct (back_visited g R s st order Hi HR) as (g' & s' & Hrun & Hv).
    fold (go_back g s). rewrite Hrun. by eexists _, _, _. }
  destruct Hc as (-> & Hne & Hr & _). replace (e =? -1) with false by lia.
  rewrite edge_in by (rewrite (so_count _ _ _ _ Hs); done). obind.
  fold (target g e). rewrite (so_target _ _ _ _ Hs s e Hn) by (rewrite HR; left).
  destruct (rest_edge _ _ H0 g R s e Hs Hn ltac:(rewrite HR; left)) as (_ & _ & Hnt & _).
  replace (target g0 e =? -2) with false by (unfold is_node in Hnt; lia).
  by apply (visit_edge g R s st order e l).
Qed.
End Visit.
