(* ===== verification/DeadlockLoop.v ===== *)
(** * The search for deadlocks: its loops

    The fuel of the search is enough, and at its end every node is done. *)
From Stdlib Require Import ZArith Lia ZifyBool.
From stdpp Require Import base list numbers gmap relations.
From S2P Require Import Prelude LockTable LockManager Deadlock DeadlockSearch DeadlockVictim DeadlockVisit.

(** No other thread interferes. *)
Definition quiet : nat -> list (Z * (bool * Z)) := fun _ => [].

Section Loop.
Context (g0 : TWFG) (L : Z -> list Z) (H0 : graph_ok g0 L) (tt : TRAN_TABLE) (mem : bool * bool).

Notation inv := (visit_inv g0 L tt).
Notation measure := (measure g0).

(** The search stops early only when the array of victims is full. *)
Definition full_or (full : bool) (g : TWFG) (P : Prop) : Prop :=
  if full then LK_MAX_VICTIM_COUNT <= Z.of_nat (length (victims g)) else P.

Lemma search_from_ok fuel i g R s st order k :
  inv g R (s :: st) order -> measure R (s :: st) <= Z.of_nat fuel -> last (s :: st) = Some k ->
  exists i' g' full R' st' order',
    search_from tt mem quiet fuel i g s = Some (i', g', full)
    /\ inv g' R' st' order' /\ measure R' st' < measure R (s :: st)
    /\ (forall j, is_node g0 j -> R j = [] -> R' j = [])
    /\ full_or full g' (st' = [] /\ R' k = []).
Proof.
  revert i g R s st order. induction fuel as [|fuel IH]; intros i g R s st order Hi Hm Hk.
  { exfalso. assert (0 < measure R (s :: st)); [|lia]. unfold measure.
    pose proof (weight_nonneg g0 R). cbn [length].
    destruct (stack_top _ _ _ _ (vi_stack _ _ _ _ _ _ _ Hi)) as [Hn _]. unfold is_node in Hn. nia. }
  destruct (stack_top _ _ _ _ (vi_stack _ _ _ _ _ _ _ Hi)) as [Hn _].
  cbn [search_from]. replace (s =? -2) with false by (unfold is_node in Hn; lia).
  change (interfere g (quiet i)) with g.
  destruct (visit_ok _ _ H0 tt mem g R s st order Hi)
    as (g1 & s1 & full & Hrun & (R1 & st1 & order1 & Hi1 & Hm1 & HR1 & Hst1) & Hfull).
  rewrite Hrun. obind. destruct full.
  { exists (S i), g1, true, R1, st1, order1. split_and!; [done..|]. by apply Hfull. }
  destruct st1 as [|x st1].
  - destruct Hst1 as (-> & -> & HRs). exists (S i), g1, false, R1, [], order1.
    injection Hk as <-. split_and!; [by destruct fuel|done..].
  - destruct Hst1 as [-> Hlast].
    destruct (IH (S i) g1 R1 x st1 order1) as (i' & g' & full & R' & st' & order' & H1 & H2 & H3 & H4 & H5);
      [done|lia|congruence|].
    exists i', g', full, R', st', order'. split_and!; [done|done|lia| |done].
    intros j Hj HRj. by apply H4, HR1.
Qed.

Lemma root_inv g R order k :
  inv g R [] order -> is_node g0 k ->
  inv (with_nodes g (upd (TWFG_node g) k (set_ancestor (-2) (TWFG_node g k)))) R [k] order.
Proof.
  intros [Hs Hst Ho Hv] Hk. split; [by apply node_keep| |done|done]. split.
  - apply NoDup_singleton.
  - by apply Forall_singleton.
  - cbn. by rewrite upd_same.
  - intros i Hi Hin%not_elem_of_cons. cbn. rewrite upd_other by (by destruct Hin).
    apply (st_other _ _ _ Hst); [done|apply not_elem_of_nil].
Qed.

Lemma search_ok_all fuel i g R order ks :
  inv g R [] order -> measure R [] <= Z.of_nat fuel -> Forall (is_node g0) ks ->
  exists g' R' st' order',
    search tt mem quiet fuel i g ks = Some g'
    /\ inv g' R' st' order'
    /\ (forall j, is_node g0 j -> R j = [] -> R' j = [])
    /\ (LK_MAX_VICTIM_COUNT <= Z.of_nat (length (victims g')) \/ forall k, k ∈ ks -> R' k = []).
Proof.
  intros Hi Hm Hks. revert i g R order Hi Hm. induction Hks as [|k ks Hk Hks IH]; intros i g R order Hi Hm.
  { exists g, R, [], order. split_and!; [done..|]. right. by intros k ?%not_elem_of_nil. }
  cbn [search]. pose proof (vi_search _ _ _ _ _ _ _ Hi) as Hs.
  rewrite node_in by (by apply (is_node_ok _ _ _ _ _ Hs)). obind.
  destruct (current (TWFG_node g k) =? -1) eqn:Ec.
  - apply Z.eqb_eq, (current_end _ _ H0 _ _ _ Hs Hk) in Ec.
    destruct (IH i g R order Hi Hm) as (g' & R' & st' & order' & H1 & H2 & H3 & H4).
    exists g', R', st', order'. split_and!; [done..|]. destruct H4 as [?|H4]; [by left|]. right.
    intros j [->|Hj]%elem_of_cons; [by apply H3|by apply H4].
  - assert (R k <> []) as HRk by (intros ?%(current_end _ _ H0 _ _ _ Hs Hk); lia).
    rewrite mod_node_in by (by apply (is_node_ok _ _ _ _ _ Hs)). obind.
    pose proof (measure_push g0 R [] k Hk HRk (not_elem_of_nil k)) as Hp.
    destruct (search_from_ok fuel i _ R k [] order k (root_inv g R order k Hi Hk))
      as (i' & g1 & full & R1 & st1 & order1 & H1 & H2 & H3 & H4 & H5); [lia|done|].
    rewrite H1. obind. destruct full; cbn in H5.
    + exists g1, R1, st1, order1. split_and!; [done..|]. by left.
    + destruct H5 as [-> HRk1].
      destruct (IH i' g1 R1 order1 H2) as (g' & R' & st' & order' & K1 & K2 & K3 & K4); [lia|].
      exists g', R', st', order'. split_and!; [done|done| |].
      * intros j Hj HRj. by apply K3, H4.
      * destruct K4 as [?|K4]; [by left|]. right. intros j [->|Hj]%elem_of_cons; [by apply K3|by apply K4].
Qed.

(** ** The start *)

Lemma weight_start : 0 <= edge_count g0 -> weight g0 L <= edge_count g0.
Proof.
  intros Hc. assert (weight g0 L = Z.of_nat (length (all_nodes g0 ≫= L))) as ->.
  { unfold weight. induction (all_nodes g0) as [|i l IH]; [done|].
    rewrite fmap_cons, bind_cons, length_app. cbn [sumZ]. lia. }
  assert (all_nodes g0 ≫= L ⊆+ seqZ 0 (edge_count g0)) as Hsub.
  { apply NoDup_submseteq.
    - assert (forall i, i ∈ all_nodes g0 -> is_node g0 i) as Hall by (intros i; apply elem_of_nodes).
      assert (NoDup (all_nodes g0)) as Hn by apply NoDup_seqZ. revert Hall Hn.
      induction (all_nodes g0) as [|i l IH]; intros Hall Hn; [constructor|].
      apply NoDup_cons in Hn as [Hi Hn]. rewrite bind_cons. apply NoDup_app. split_and!.
      + apply (chain_nodup (next_of g0) (first_edge (TWFG_node g0 i))).
        * apply (go_chain _ _ H0), Hall. left.
        * intros He. destruct (go_edge _ _ H0 i (-1)) as [? _]; [apply Hall; left|done|lia].
      + intros e He (j & Hj & Hjl)%list_elem_of_bind. assert (i = j) as ->; [|done].
        apply (go_owner _ _ H0 _ _ e); [apply Hall; left|apply Hall; by right|done..].
      + apply IH; [|done]. intros j Hj. apply Hall. by right.
    - intros e (i & He & Hi)%list_elem_of_bind. apply elem_of_nodes in Hi.
      destruct (go_edge _ _ H0 i e Hi He) as [? _]. apply elem_of_seqZ. lia. }
  apply submseteq_length in Hsub. rewrite length_seqZ in Hsub. lia.
Qed.

Lemma start_inv :
  victims g0 = [] -> exists order, inv (prepare_search g0) L [] order.
Proof.
  intros Hv. exists (filter (fun i => L i = []) (all_nodes g0)). split.
  - split; try done; cbn.
    + intros i. by destruct (_ && _).
    + intros i Hi. unfold is_node in Hi. replace (_ && _) with true by lia. cbn. by apply (go_chain _ _ H0).
  - split; [constructor|constructor|done|]. intros i Hi _. cbn. unfold is_node in Hi.
    by replace (_ && _) with true by lia.
  - split.
    + apply NoDup_filter, NoDup_seqZ.
    + intros i. rewrite list_elem_of_filter, elem_of_nodes. tauto.
    + intros i l1 l2 e Ho _ _ He _. assert (i ∈ filter (fun i => L i = []) (all_nodes g0)) as Hi.
      { rewrite Ho. apply elem_of_app. right. left. }
      apply list_elem_of_filter in Hi as [Hi _]. rewrite Hi in He. by apply not_elem_of_nil in He.
    + done.
  - cbn. rewrite Hv. constructor.
Qed.

Lemma find_cycles_ok :
  victims g0 = [] -> 1 <= num_trans g0 -> 0 <= edge_count g0 ->
  exists g' R' st' order',
    find_cycles tt mem quiet g0 = Some g' /\ inv g' R' st' order'
    /\ (LK_MAX_VICTIM_COUNT <= Z.of_nat (length (victims g')) \/ forall k, is_node g0 k -> R' k = []).
Proof.
  intros Hv HN Hc. destruct (start_inv Hv) as [order Hi].
  destruct (search_ok_all (search_fuel g0) 0 _ L order (start_nodes g0) Hi)
    as (g' & R' & st' & order' & H1 & H2 & _ & H4).
  - unfold measure, search_fuel. pose proof (weight_start Hc). pose proof (white_bound g0 L [] HN).
    cbn [length]. nia.
  - apply Forall_forall. intros k Hk. by apply elem_of_nodes.
  - exists g', R', st', order'. split_and!; [done..|]. destruct H4 as [?|H4]; [by left|]. right.
    intros k Hk. by apply H4, elem_of_nodes.
Qed.
End Loop.
