(* ===== verification/DeadlockGraph.v ===== *)
(** * The construction of the wait-for graph

    The calls of lock_add_WFG_edge for a lock table make a graph in which each
    transaction has exactly the edges of its waits, the last one first, as long
    as the array of edges can grow to hold them. *)
From Stdlib Require Import ZArith Lia ZifyBool.
From stdpp Require Import base list numbers gmap relations.
From S2P Require Import Prelude LockTable LockManager Deadlock DeadlockSearch.

(** The wait of [i] that the edge [e] stands for. *)
Definition edge_wait (g : TWFG) (i e : Z) : WAIT :=
  mkWait i (target g e) (holder_flag (TWFG_edge g e)) (edge_wait_stime (TWFG_edge g e)).

Definition waits_of (ws : list WAIT) (i : Z) : list WAIT := filter (fun w => w_from w = i) ws.

(** The nodes as the initialisation leaves them: no transaction has ended
    since. *)
Definition node_new (n : LK_WFG_NODE) : Prop :=
  checked_by_deadlock_detector n = true /\ DL_victim n = false /\ tran_edge_seq_num n = 0.

(** The graph of the waits [ws], whose array has [max] linked edges. *)
Record graph_of (g : TWFG) (ws : list WAIT) (L : Z -> list Z) (F : list Z) : Prop := {
  gf_graph : graph_ok g L;
  gf_nodes : forall i, is_node g i -> node_new (TWFG_node g i);
  gf_waits : forall i, is_node g i -> edge_wait g i <$> L i = reverse (waits_of ws i);
  gf_seq : forall i e, is_node g i -> e ∈ L i -> 0 <= edge_seq_num (TWFG_edge g e);
  gf_free : chain (next_of g) (TWFG_free_edge_idx g) F;
  gf_disjoint : forall i e, is_node g i -> e ∈ L i -> e ∉ F;
  gf_max : forall e, e ∈ F \/ (exists i, is_node g i /\ e ∈ L i) -> 0 <= e < max_TWFG_edge g;
  gf_count : Z.of_nat (length ws) + Z.of_nat (length F) = max_TWFG_edge g;
  gf_array :
    (max_TWFG_edge g = LK_MIN_TWFG_EDGE_COUNT /\ edge_count g = LK_MID_TWFG_EDGE_COUNT)
    \/ (max_TWFG_edge g = LK_MID_TWFG_EDGE_COUNT /\ edge_count g = LK_MID_TWFG_EDGE_COUNT)
    \/ (max_TWFG_edge g = LK_MAX_TWFG_EDGE_COUNT g /\ edge_count g = LK_MAX_TWFG_EDGE_COUNT g
        /\ LK_MID_TWFG_EDGE_COUNT < LK_MAX_TWFG_EDGE_COUNT g);
  gf_number : 0 <= global_edge_seq_num g;
  gf_victims : victims g = [] }.

Lemma link_chain f lo hi k :
  lo <= k <= hi -> lo < hi ->
  chain (fun e => next (link_edges f lo hi e)) (if k =? hi then -1 else k) (seqZ k (hi - k)).
Proof.
  intros Hk Hlh. remember (Z.to_nat (hi - k)) as n eqn:En. revert k Hk En.
  induction n as [|n IH]; intros k Hk En.
  - rewrite seqZ_nil by lia. cbn. by replace (k =? hi) with true by lia.
  - rewrite seqZ_cons by lia. replace (k =? hi) with false by lia. cbn. split; [done|].
    specialize (IH (Z.succ k) ltac:(lia) ltac:(lia)). replace (hi - Z.succ k) with (Z.pred (hi - k)) in IH by lia.
    unfold link_edges at 2. replace ((lo <=? k) && (k <? hi)) with true by lia. cbn.
    replace (Z.succ k =? hi) with (k =? hi - 1) in IH by lia. by replace (k + 1) with (Z.succ k) by lia.
Qed.

(** ** The start *)

Lemma initialize_graph_of block g :
  (forall i, is_node g i -> DL_victim (TWFG_node g i) = false) ->
  graph_of (initialize_graph block g) [] (fun _ => []) (seqZ 0 LK_MIN_TWFG_EDGE_COUNT).
Proof.
  intros Hv. assert (forall i, is_node (initialize_graph block g) i -> (1 <=? i) && (i <? num_trans g) = true) as Hb.
  { unfold is_node. cbn. lia. }
  split; cbn [initialize_graph TWFG_node TWFG_edge max_TWFG_edge edge_count global_edge_seq_num victims
              TWFG_free_edge_idx length].
  - split.
    + intros i Hi. cbn. by rewrite (Hb i Hi).
    + intros i e _ He. exfalso. by eapply not_elem_of_nil.
    + intros i j e _ _ He. exfalso. by eapply not_elem_of_nil.
  - intros i Hi. rewrite (Hb i Hi). split_and!; [done| |done]. by apply Hv.
  - done.
  - intros i e _ He. exfalso. by eapply not_elem_of_nil.
  - apply (link_chain block 0 LK_MIN_TWFG_EDGE_COUNT 0); unfold LK_MIN_TWFG_EDGE_COUNT; lia.
  - intros i e _ He. exfalso. by eapply not_elem_of_nil.
  - intros e [He%elem_of_seqZ|(i & _ & He)]; [lia|]. exfalso. by eapply not_elem_of_nil.
  - rewrite length_seqZ. unfold LK_MIN_TWFG_EDGE_COUNT. lia.
  - by left.
  - done.
  - done.
Qed.

(** ** The array grows *)

(** The array may hold one more edge. *)
Definition room (malloc : option (Z -> LK_WFG_EDGE)) (g : TWFG) (n : Z) : Prop :=
  n < LK_MID_TWFG_EDGE_COUNT
  \/ (malloc <> None /\ n < LK_MAX_TWFG_EDGE_COUNT g).

Lemma graph_ext g g' L :
  graph_ok g L -> num_trans g' = num_trans g -> edge_count g <= edge_count g' ->
  (forall i, is_node g i -> first_edge (TWFG_node g' i) = first_edge (TWFG_node g i)) ->
  (forall i e, is_node g i -> e ∈ L i -> next_of g' e = next_of g e /\ target g' e = target g e) ->
  graph_ok g' L.
Proof.
  intros [H1 H2 H3] HN Hc Hf He. assert (forall i, is_node g' i <-> is_node g i) as Hn.
  { intros i. unfold is_node. by rewrite HN. }
  split.
  - intros i Hi%Hn. rewrite Hf by done. eapply edge_chain_ext; [|by apply H1].
    intros e Hin. symmetry. by apply (He i).
  - intros i e Hi%Hn Hin. destruct (He i e Hi Hin) as [_ ->]. rewrite Hn.
    destruct (H2 i e Hi Hin) as (? & ? & ?). split_and!; [lia..|done|done].
  - intros i j e Hi%Hn Hj%Hn. by apply H3.
Qed.

(** The edges of the lists are unchanged and [F] is the new free list. *)
Lemma graph_grow g g' ws L F :
  graph_of g ws L [] -> num_trans g' = num_trans g -> TWFG_node g' = TWFG_node g ->
  edge_count g <= edge_count g' -> max_TWFG_edge g < max_TWFG_edge g' ->
  (forall e, 0 <= e < max_TWFG_edge g -> TWFG_edge g' e = TWFG_edge g e) ->
  chain (next_of g') (TWFG_free_edge_idx g') F ->
  F = seqZ (max_TWFG_edge g) (max_TWFG_edge g' - max_TWFG_edge g) ->
  global_edge_seq_num g' = global_edge_seq_num g -> victims g' = victims g ->
  (max_TWFG_edge g' = LK_MID_TWFG_EDGE_COUNT /\ edge_count g' = LK_MID_TWFG_EDGE_COUNT)
  \/ (max_TWFG_edge g' = LK_MAX_TWFG_EDGE_COUNT g' /\ edge_count g' = LK_MAX_TWFG_EDGE_COUNT g'
      /\ LK_MID_TWFG_EDGE_COUNT < LK_MAX_TWFG_EDGE_COUNT g') ->
  graph_of g' ws L F.
Proof.
  intros [H1 H2 H3 H4 H5 H6 H7 H8 H9 H10 H11] HN Hnode Hc Hmax He Hch HF Hs Hv Ha.
  assert (forall i, is_node g' i <-> is_node g i) as Hn by (intros i; unfold is_node; by rewrite HN).
  assert (forall i e, is_node g i -> e ∈ L i -> TWFG_edge g' e = TWFG_edge g e) as HL.
  { intros i e Hi Hin. apply He, H7. right. by exists i. }
  split.
  - apply (graph_ext g); [done|done|done|by rewrite Hnode|]. intros i e Hi Hin.
    unfold next_of, target. by rewrite (HL i).
  - intros i Hi%Hn. rewrite Hnode. by apply H2.
  - intros i Hi%Hn. rewrite <- (H3 i Hi). apply list_fmap_ext. intros j e Hj%list_elem_of_lookup_2.
    unfold edge_wait, target. by rewrite (HL i).
  - intros i e Hi%Hn Hin. rewrite (HL i) by done. by apply (H4 i).
  - done.
  - intros i e Hi%Hn Hin Hf. rewrite HF in Hf. apply elem_of_seqZ in Hf.
    assert (0 <= e < max_TWFG_edge g); [|lia]. apply H7. right. by exists i.
  - intros e [Hf|(i & Hi%Hn & Hin)].
    + rewrite HF in Hf. apply elem_of_seqZ in Hf. cbn in H8. lia.
    + assert (0 <= e < max_TWFG_edge g); [|lia]. apply H7. right. by exists i.
  - rewrite HF, length_seqZ. cbn in H8. lia.
  - tauto.
  - by rewrite Hs.
  - by rewrite Hv.
Qed.

Lemma grow_edges_ok malloc g ws L :
  graph_of g ws L [] -> room malloc g (Z.of_nat (length ws)) ->
  exists g' F, grow_edges malloc g = Some (NO_ERROR, g') /\ graph_of g' ws L F /\ F <> []
    /\ num_trans g' = num_trans g.
Proof.
  intros Hg Hroom. pose proof (gf_count _ _ _ _ Hg) as Hc. cbn [length] in Hc.
  unfold grow_edges, LK_MAX_TWFG_EDGE_COUNT, LK_MIN_TWFG_EDGE_COUNT, LK_MID_TWFG_EDGE_COUNT in *.
  pose proof (gf_array _ _ _ _ Hg) as Ha.
  unfold LK_MAX_TWFG_EDGE_COUNT, LK_MIN_TWFG_EDGE_COUNT, LK_MID_TWFG_EDGE_COUNT in Ha.
  destruct Ha as [[Em Ec]|[[Em Ec]|(Em & Ec & Hmm)]]; rewrite Em, ?Ec; cbn [Z.eqb Z.leb].
  - eexists _, (seqZ 200 800). split; [done|]. split; [|done].
    apply (graph_grow g); rewrite ?Em, ?Ec; cbn; try exact Hg; try reflexivity; try lia.
    + intros e He. unfold link_edges. by replace (_ && _) with false by lia.
    + apply (link_chain (TWFG_edge g) 200 1000 200); lia.
    + by left.
  - unfold room, LK_MAX_TWFG_EDGE_COUNT, LK_MID_TWFG_EDGE_COUNT in Hroom.
    destruct Hroom as [?|[Hm Hmax]]; [lia|]. destruct malloc as [block|]; [|done].
    replace (1000 <? _) with true by lia.
    eexists _, (seqZ 1000 (num_trans g * num_trans g - 1000)). split; [done|].
    split; [|split; [rewrite seqZ_cons by lia; done|done]].
    apply (graph_grow g); rewrite ?Em, ?Ec; cbn; try exact Hg; try reflexivity; try lia.
    + intros e He. unfold link_edges. replace (_ && _) with false by lia.
      by replace (e <? 1000) with true by lia.
    + pose proof (link_chain (fun i => if i <? 1000 then TWFG_edge g i else block i) 1000
                    (num_trans g * num_trans g) 1000 ltac:(lia) ltac:(lia)) as Hch.
      by replace (1000 =? num_trans g * num_trans g) with false in Hch by lia.
    + right. unfold LK_MAX_TWFG_EDGE_COUNT, LK_MID_TWFG_EDGE_COUNT. cbn. lia.
  - exfalso. unfold room, LK_MAX_TWFG_EDGE_COUNT, LK_MID_TWFG_EDGE_COUNT in Hroom. lia.
Qed.

(** ** An edge is added *)

(** [a] is the first free edge. *)
Definition taken (g : TWFG) (a : Z) (w : WAIT) : TWFG :=
  let e := mkEdge (w_to w) (global_edge_seq_num g) (w_holder w)
             (first_edge (TWFG_node g (w_from w))) (w_stime w) in
  with_nodes (with_edges (with_free_edge g (next (TWFG_edge g a))) (upd (TWFG_edge g) a e))
    (upd (TWFG_node g) (w_from w) (set_first a (TWFG_node g (w_from w)))).

Lemma take_value g ws L a F w :
  graph_of g ws L (a :: F) -> is_node g (w_from w) ->
  take_edge g (w_from w) (w_to w) (w_holder w) (w_stime w) = Some (taken g a w).
Proof.
  intros Hg Hn. destruct (gf_free _ _ _ _ Hg) as [Ha _].
  assert (0 <= a < edge_count g) as Hr.
  { assert (0 <= a < max_TWFG_edge g) by (apply (gf_max _ _ _ _ Hg); left; left).
    pose proof (gf_array _ _ _ _ Hg). unfold LK_MIN_TWFG_EDGE_COUNT, LK_MID_TWFG_EDGE_COUNT in *. lia. }
  unfold take_edge. rewrite Ha, edge_in by done. obind. rewrite node_in by done. obind.
  rewrite mod_edge_in by done. obind. by rewrite mod_node_in.
Qed.

Lemma waits_snoc ws w i :
  waits_of (ws ++ [w]) i = waits_of ws i ++ (if decide (w_from w = i) then [w] else []).
Proof. unfold waits_of. rewrite filter_app, filter_cons. by destruct (decide _). Qed.

Lemma taken_edge g a w e :
  e <> a -> TWFG_edge (taken g a w) e = TWFG_edge g e.
Proof. intros He. cbn. by rewrite upd_other. Qed.

Lemma taken_in (L : Z -> list Z) i k a e :
  e ∈ upd L k (a :: L k) i -> (i = k /\ e = a) \/ e ∈ L i.
Proof. upd_case; [intros [->|?]%elem_of_cons; tauto|by right]. Qed.

Lemma taken_graph g ws L a F w :
  graph_of g ws L (a :: F) -> is_node g (w_from w) -> is_node g (w_to w) -> w_from w <> w_to w ->
  graph_ok (taken g a w) (upd L (w_from w) (a :: L (w_from w))).
Proof.
  intros Hg Hf Ht Hft. pose proof (gf_graph _ _ _ _ Hg) as [H1 H2 H3].
  assert (forall i e, is_node g i -> e ∈ L i -> e <> a) as Hne.
  { intros i e Hi He ->. apply (gf_disjoint _ _ _ _ Hg i a Hi He). left. }
  assert (0 <= a < edge_count g) as Hr.
  { assert (0 <= a < max_TWFG_edge g) by (apply (gf_max _ _ _ _ Hg); left; left).
    pose proof (gf_array _ _ _ _ Hg). unfold LK_MIN_TWFG_EDGE_COUNT, LK_MID_TWFG_EDGE_COUNT in *. lia. }
  assert (forall i, is_node g i -> chain (next_of (taken g a w)) (first_edge (TWFG_node g i)) (L i)) as Hch.
  { intros i Hi. eapply edge_chain_ext; [|by apply H1]. intros e He. unfold next_of.
    by rewrite taken_edge by (by apply (Hne i)). }
  split.
  - intros i Hi. change (is_node g i) in Hi. cbn [taken TWFG_node with_nodes]. upd_case; [|by apply Hch].
    cbn [first_edge set_first chain]. split; [done|]. unfold next_of at 2. cbn [taken TWFG_edge with_nodes with_edges].
    rewrite upd_same. by apply Hch.
  - intros i e Hi He. change (is_node g i) in Hi. change (edge_count (taken g a w)) with (edge_count g).
    change (is_node (taken g a w) (target (taken g a w) e)) with (is_node g (target (taken g a w) e)).
    assert (e ∈ L i -> 0 <= e < edge_count g /\ is_node g (target (taken g a w) e) /\ target (taken g a w) e <> i) as Hold.
    { intros Hin. unfold target. rewrite taken_edge by (by apply (Hne i)). by apply H2. }
    upd_case; [|by apply Hold]. apply elem_of_cons in He as [->|He]; [|by apply Hold].
    unfold target. cbn. rewrite upd_same. cbn. split_and!; [lia|lia|done|congruence].
  - intros i j e Hi Hj Hei Hej. change (is_node g i) in Hi. change (is_node g j) in Hj.
    apply taken_in in Hei as [[Ei Ea]|Hei]; apply taken_in in Hej as [[Ej Eb]|Hej].
    + congruence.
    + by destruct (Hne j e Hj Hej).
    + by destruct (Hne i e Hi Hei).
    + by apply (H3 _ _ e).
Qed.

Lemma taken_of g ws L a F w :
  graph_of g ws L (a :: F) -> is_node g (w_from w) -> is_node g (w_to w) -> w_from w <> w_to w ->
  graph_of (taken g a w) (ws ++ [w]) (upd L (w_from w) (a :: L (w_from w))) F.
Proof.
  intros Hg Hf Ht Hft. pose proof (taken_graph g ws L a F w Hg Hf Ht Hft) as Hgr.
  destruct Hg as [H1 H2 H3 H4 H5 H6 H7 H8 H9 H10 H11].
  assert (a ∉ F) as HaF.
  { apply (chain_nodup _ _ (a :: F)), NoDup_cons in H5 as [? _]; [done|].
    intros He. assert (0 <= -1 < max_TWFG_edge g); [|lia]. apply H7. by left. }
  assert (forall i e, is_node g i -> e ∈ L i -> e <> a) as Hne.
  { intros i e Hi He ->. apply (H6 i a Hi He). left. }
  split; try done.
  - intros i Hi. cbn. upd_case; by apply H2.
  - intros i Hi. change (is_node g i) in Hi. rewrite waits_snoc.
    assert (edge_wait (taken g a w) i <$> L i = reverse (waits_of ws i)) as Hold.
    { rewrite <- (H3 i Hi). apply list_fmap_ext. intros j e Hj%list_elem_of_lookup_2.
      unfold edge_wait, target. by rewrite taken_edge by (by apply (Hne i)). }
    destruct (decide (w_from w = i)) as [<-|Hi'].
    + rewrite upd_same, fmap_cons, Hold, reverse_app. cbn. f_equal.
      unfold edge_wait, target. cbn. rewrite upd_same. by destruct w.
    + by rewrite upd_other, app_nil_r by done.
  - intros i e Hi He. change (is_node g i) in Hi.
    apply taken_in in He as [[_ ->]|Hin].
    + cbn. by rewrite upd_same.
    + rewrite taken_edge by (by apply (Hne i)). by apply (H4 i).
  - destruct H5 as [_ H5]. eapply edge_chain_ext; [|exact H5]. intros e He. unfold next_of.
    rewrite taken_edge; [done|]. by intros ->.
  - intros i e Hi He HeF. change (is_node g i) in Hi.
    apply taken_in in He as [[_ ->]|Hin]; [done|].
    apply (H6 i e Hi Hin). by right.
  - intros e He. cbn. apply H7. destruct He as [He|(i & Hi & He)]; [left; by right|].
    change (is_node g i) in Hi.
    apply taken_in in He as [[_ ->]|Hin]; [left; left|].
    right. by exists i.
  - rewrite length_app. cbn in *. lia.
Qed.

Lemma graph_seq g ws L F n : graph_of g ws L F -> 0 <= n -> graph_of (with_seq g n) ws L F.
Proof. intros [[] ] Hn. by split. Qed.

(** What stays the same. *)
Definition same_times (g g' : TWFG) : Prop :=
  num_trans g' = num_trans g
  /\ forall i, thrd_wait_stime (TWFG_node g' i) = thrd_wait_stime (TWFG_node g i).

Lemma grow_times malloc g g' e : grow_edges malloc g = Some (e, g') -> same_times g g'.
Proof. unfold grow_edges. destruct malloc; repeat zcase; intros [=]; by subst. Qed.

Lemma add_edge_ok malloc g ws L F w :
  graph_of g ws L F -> room malloc g (Z.of_nat (length ws)) ->
  is_node g (w_from w) -> is_node g (w_to w) -> w_from w <> w_to w ->
  exists g' L' F',
    lock_add_WFG_edge malloc g (w_from w) (w_to w) (w_holder w) (w_stime w) = Some (NO_ERROR, g')
    /\ graph_of g' (ws ++ [w]) L' F' /\ same_times g g'.
Proof.
  intros Hg Hroom Hf Ht Hne. unfold lock_add_WFG_edge.
  destruct (gf_nodes _ _ _ _ Hg _ Hf) as (Hcf & Hvf & _), (gf_nodes _ _ _ _ Hg _ Ht) as (Hct & Hvt & _).
  rewrite node_in by done. obind. rewrite node_in by done. obind. rewrite Hvf, Hvt. cbn [orb].
  set (g1 := with_seq g _).
  assert (graph_of g1 ws L F) as Hg1.
  { apply graph_seq; [done|]. pose proof (gf_number _ _ _ _ Hg). lia. }
  unfold new_transaction. rewrite node_in by done. obind. change (TWFG_node g1) with (TWFG_node g).
  rewrite Hcf. obind. rewrite node_in by done. obind. change (TWFG_node g1) with (TWFG_node g).
  rewrite Hct. obind.
  assert (exists g2 a F2,
    (if TWFG_free_edge_idx g1 =? -1 then grow_edges malloc g1 else Some (NO_ERROR, g1)) = Some (NO_ERROR, g2)
    /\ graph_of g2 ws L (a :: F2) /\ same_times g1 g2) as (g2 & a & F2 & -> & Hg2 & Hsame).
  { destruct F as [|a F].
    - pose proof (gf_free _ _ _ _ Hg1) as Hfree. change (TWFG_free_edge_idx g1 = -1) in Hfree. rewrite Hfree. cbn [Z.eqb].
      destruct (grow_edges_ok malloc g1 ws L Hg1 Hroom) as (g2 & [|a F2] & Hrun & Hg2 & HF & _); [done|].
      exists g2, a, F2. split_and!; [done..|]. by eapply grow_times.
    - exists g1, a, F. pose proof (gf_free _ _ _ _ Hg1) as [Hfree _].
      assert (0 <= a < max_TWFG_edge g1) by (apply (gf_max _ _ _ _ Hg1); left; left).
      by replace (TWFG_free_edge_idx g1 =? -1) with false by lia. }
  obind. cbn [negb NO_ERROR Z.eqb]. destruct Hsame as [HN Hst].
  assert (forall i, is_node g i -> is_node g2 i) as Hnode by (unfold is_node; rewrite HN; done).
  rewrite (take_value g2 ws L a F2) by auto. obind.
  eexists _, _, _. split; [done|]. split; [by apply taken_of; auto|]. split; [done|].
  intros i. cbn. upd_case; apply Hst.
Qed.

(** ** All edges *)

Definition enough_edges (malloc : option (Z -> LK_WFG_EDGE)) (g : TWFG) (n : nat) : Prop :=
  Z.of_nat n <= LK_MID_TWFG_EDGE_COUNT
  \/ (malloc <> None /\ Z.of_nat n <= LK_MAX_TWFG_EDGE_COUNT g).

Definition wait_ok (g : TWFG) (w : WAIT) : Prop :=
  is_node g (w_from w) /\ is_node g (w_to w) /\ w_from w <> w_to w.

Lemma add_edges_ok malloc g ws ws0 L F :
  graph_of g ws0 L F -> Forall (wait_ok g) ws -> enough_edges malloc g (length (ws0 ++ ws)) ->
  exists g' L' F', add_edges malloc ws g = Some g' /\ graph_of g' (ws0 ++ ws) L' F' /\ same_times g g'.
Proof.
  revert g ws0 L F. induction ws as [|w ws IH]; intros g ws0 L F Hg Hws Hen.
  { exists g, L, F. by rewrite app_nil_r. }
  apply Forall_cons in Hws as [(H1 & H2 & H3) Hws].
  destruct (add_edge_ok malloc g ws0 L F w) as (g1 & L1 & F1 & Hrun & Hg1 & HN & Hst); [done| |done..|].
  { unfold enough_edges, room in *. rewrite length_app in Hen. cbn [length] in Hen.
    destruct Hen as [?|[? ?]]; [left; lia|right; split; [done|lia]]. }
  cbn [add_edges]. rewrite Hrun. obind.
  destruct (IH g1 (ws0 ++ [w]) L1 F1 Hg1) as (g' & L' & F' & Hrun' & Hg' & HN' & Hst').
  - eapply Forall_impl; [exact Hws|]. intros x. unfold wait_ok, is_node. by rewrite HN.
  - unfold enough_edges, LK_MAX_TWFG_EDGE_COUNT in *. rewrite HN. by rewrite <- app_assoc.
  - exists g', L', F'. rewrite <- app_assoc in Hg'. split_and!; [done..|]. split; [congruence|].
    intros i. by rewrite Hst'.
Qed.

Lemma build_graph malloc block g ws :
  (forall i, is_node g i -> DL_victim (TWFG_node g i) = false) ->
  Forall (wait_ok g) ws -> enough_edges malloc g (length ws) ->
  exists g' L F, add_edges malloc ws (initialize_graph block g) = Some g' /\ graph_of g' ws L F
    /\ same_times g g'.
Proof.
  intros Hv Hws Hen.
  destruct (add_edges_ok malloc (initialize_graph block g) ws [] _ _ (initialize_graph_of block g Hv))
    as (g' & L & F & Hrun & Hg & HN & Hst); [done|done|].
  exists g', L, F. split_and!; [done..|]. split; [done|]. intros i. rewrite Hst. cbn. by destruct (_ && _).
Qed.
