(* ===== verification/DeadlockLocks.v ===== *)
(** * Who waits in a lock table

    A transaction waits for at most one value at a time, and no operation but
    its own request makes it wait.  The waits that the deadlock detector
    collects from a reachable lock table are those of these transactions, and
    no cycle of them has only waits for other waiters. *)
From Stdlib Require Import ZArith Lia ZifyBool Sorting.Sorted Relations.
From stdpp Require Import base list numbers gmap relations.
From S2P Require Import Prelude LockTable LockManager LockManagerInv LockManagerSteps Deadlock DeadlockGraph.

(** ** Blocked transactions *)

Definition blocked_in (l : list LK_ENTRY) (t : Z) : Prop :=
  exists e, e ∈ l /\ tran_index e = t /\ is_blocked e = true.

#[export] Instance blocked_in_perm : Proper ((≡ₚ) ==> (=) ==> iff) blocked_in.
Proof. intros l l' Hl t ? <-. unfold blocked_in. by setoid_rewrite Hl. Qed.

Lemma blocked_cons e l t :
  blocked_in (e :: l) t <-> (tran_index e = t /\ is_blocked e = true) \/ blocked_in l t.
Proof.
  unfold blocked_in. split.
  - intros (i & [->|Hi]%elem_of_cons & H); [by left|]. right. by exists i.
  - intros [H|(i & Hi & H)]; [exists e|exists i]; split; try done; [left|by right].
Qed.

Lemma blocked_app l1 l2 t : blocked_in (l1 ++ l2) t <-> blocked_in l1 t \/ blocked_in l2 t.
Proof. unfold blocked_in. setoid_rewrite elem_of_app. firstorder. Qed.

Lemma blocked_nil t : ~ blocked_in [] t.
Proof. intros (e & He & _). by apply not_elem_of_nil in He. Qed.

Lemma blocked_remove t l t' : blocked_in (remove_entry t l) t' -> blocked_in l t'.
Proof.
  induction l as [|e l IH]; cbn; [done|]. rewrite blocked_cons. destruct (tran_index e =? t); [by right|].
  rewrite blocked_cons. tauto.
Qed.

(** An entry with the transaction and the request of another one. *)
Lemma blocked_update t f l t' :
  (forall e, tran_index (f e) = tran_index e) -> (forall e, is_blocked (f e) = true -> is_blocked e = true) ->
  blocked_in (update_entry t f l) t' -> blocked_in l t'.
Proof.
  intros H1 H2. induction l as [|e l IH]; cbn; [done|].
  destruct (tran_index e =? t); rewrite !blocked_cons; [|tauto]. rewrite H1. intros [[? ?%H2]|?]; tauto.
Qed.

Lemma blocked_grant e l t : blocked_in (grant e :: l) t <-> blocked_in l t.
Proof. rewrite blocked_cons. split; [intros [[_ ?]|?]; done|by right]. Qed.

(** ** Granting *)

Lemma grant_holders_blocked fuel pre l t :
  blocked_in (grant_holders fuel pre l) t -> blocked_in (pre ++ l) t.
Proof.
  revert pre l. induction fuel as [|fuel IH]; intros pre l; [done|].
  destruct l as [|check rest]; [done|]. cbn [grant_holders].
  destruct (negb (is_blocked check)); [done|]. destruct (negb _); [done|].
  destruct (waiting check); intros Hb%IH.
  - unfold reposition in Hb. rewrite insert_before_perm, blocked_app, blocked_grant in Hb.
    rewrite blocked_app, blocked_cons. tauto.
  - by rewrite <- app_assoc in Hb.
Qed.

Section Table.
Context {K : Type} `{Countable K}.
Notation HOLD := (gmap Z (list K)).
Implicit Types g : LK_GLOBAL K.

Lemma promote_blocked (k : K) r (hold : HOLD) check t :
  blocked_in (holder (promote k r hold check).1) t -> blocked_in (holder r) t.
Proof. cbn. by rewrite position_perm, blocked_grant. Qed.

Lemma grant_waiters_blocked (k : K) r (hold : HOLD) pre l ch r' hold' ws ch' t :
  grant_waiters k r hold pre l ch = (r', hold', ws, ch') ->
  blocked_in (holder r' ++ ws) t -> blocked_in (holder r ++ pre ++ l) t.
Proof.
  revert r hold pre ch. induction l as [|check rest IH]; intros r hold pre ch; cbn [grant_waiters].
  { intros [= <- <- <- <-]. by rewrite app_nil_r. }
  destruct (negb _); [by intros [= <- <- <- <-]|]. destruct (waiting check).
  - destruct (promote k r hold check) as [r1 hold1] eqn:E. intros Hr Hb%(IH _ _ _ _ Hr).
    pose proof (promote_blocked k r hold check t) as Hp. rewrite E in Hp. cbn in Hp.
    rewrite !blocked_app in *. rewrite blocked_cons. tauto.
  - intros Hr Hb%(IH _ _ _ _ Hr). by rewrite <- app_assoc in Hb.
Qed.

Lemma grant_partial_blocked (k : K) r (hold : HOLD) mode pre l t :
  blocked_in (holder (grant_partial k r hold mode pre l).1
              ++ waiter (grant_partial k r hold mode pre l).1) t ->
  blocked_in (holder r ++ pre ++ l) t.
Proof.
  revert r hold mode pre. induction l as [|check rest IH]; intros r hold mode pre; cbn [grant_partial].
  { cbn. by rewrite app_nil_r. }
  assert (forall mode', blocked_in (holder (grant_partial k r hold mode' (pre ++ [check]) rest).1
                       ++ waiter (grant_partial k r hold mode' (pre ++ [check]) rest).1) t ->
            blocked_in (holder r ++ pre ++ check :: rest) t) as Hskip.
  { intros mode' Hb%IH. by rewrite <- app_assoc in Hb. }
  destruct (negb _); [done|]. destruct (negb _); [apply Hskip|]. destruct (waiting check); [|apply Hskip].
  destruct (promote k r hold check) as [r1 hold1] eqn:E. intros Hb%IH.
  pose proof (promote_blocked k r hold check t) as Hp. rewrite E in Hp. cbn in Hp.
  rewrite !blocked_app in *. rewrite blocked_cons. tauto.
Qed.

Lemma grant_waiter_blocked (k : K) r (hold : HOLD) t :
  blocked_in (holder (lock_grant_blocked_waiter k r hold).1
              ++ waiter (lock_grant_blocked_waiter k r hold).1) t ->
  blocked_in (holder r ++ waiter r) t.
Proof.
  unfold lock_grant_blocked_waiter. destruct (grant_waiters _ _ _ _ _ _) as [[[r' hold'] ws] ch] eqn:E.
  cbn. by apply (grant_waiters_blocked _ _ _ _ _ _ _ _ _ _ _ E).
Qed.

(** ** The table *)

Definition blocked_at (g : LK_GLOBAL K) (t : Z) (k : K) : Prop :=
  exists r, obj_hash_table g !! k = Some r /\ blocked_in (holder r ++ waiter r) t.

(** One resource changes, or goes away. *)
Lemma blocked_insert g k r hold t k' :
  blocked_at (mkGlobal (<[k := r]> (obj_hash_table g)) hold) t k' ->
  (k' = k /\ blocked_in (holder r ++ waiter r) t) \/ blocked_at g t k'.
Proof.
  intros (r' & Hr & Hb). cbn in Hr. destruct (decide (k = k')) as [<-|Hk].
  - rewrite lookup_insert_eq in Hr. injection Hr as <-. by left.
  - rewrite lookup_insert_ne in Hr by done. right. by exists r'.
Qed.

Lemma unlock_grant_blocked quiet k r g hold t k' :
  blocked_at (unlock_grant quiet k r g hold) t k' ->
  (k' = k /\ blocked_in (holder r ++ waiter r) t) \/ blocked_at g t k'.
Proof.
  unfold unlock_grant.
  pose proof (grant_waiter_blocked k (lock_grant_blocked_holder r) hold t) as Hg.
  destruct (lock_grant_blocked_waiter k (lock_grant_blocked_holder r) hold) as [r' hold']. cbn [fst] in Hg.
  assert (blocked_at (mkGlobal (<[k:=r']> (obj_hash_table g)) hold') t k' ->
          k' = k /\ blocked_in (holder r ++ waiter r) t \/ blocked_at g t k') as Hins.
  { intros [[-> Hb%Hg]|?]%blocked_insert; [left|by right]. split; [done|].
    rewrite blocked_app in *. destruct Hb as [Hb|Hb]; [left|by right].
    by apply (grant_holders_blocked _ [] (holder r)) in Hb. }
  destruct (holder r) eqn:Eh, (waiter r) eqn:Ew; try exact Hins. destruct quiet.
  - intros (r1 & Hr & Hb). cbn in Hr. apply lookup_delete_Some in Hr as [_ Hr]. right. by exists r1.
  - intros [[-> Hb]|?]%blocked_insert; [|by right]. rewrite Eh, Ew in Hb. by apply blocked_nil in Hb.
Qed.

Lemma unlock_blocked quiet t k release g t' k' :
  blocked_at (lock_internal_perform_unlock_object quiet t k release g) t' k' -> blocked_at g t' k'.
Proof.
  unfold lock_internal_perform_unlock_object.
  destruct (obj_hash_table g !! k) as [r|] eqn:Er; [|done].
  assert (forall r', (blocked_in (holder r' ++ waiter r') t' -> blocked_in (holder r ++ waiter r) t') ->
            k' = k /\ blocked_in (holder r' ++ waiter r') t' \/ blocked_at g t' k' -> blocked_at g t' k') as Hput.
  { intros r' Hr' [[-> Hb%Hr']|?]; [by exists r|done]. }
  destruct (find_entry t (holder r)) as [e|] eqn:Ee.
  - destruct (find_entry_Some _ _ _ Ee) as [Ht Hp].
    destruct (negb release && _ && _) eqn:Ec.
    + intros Hb%blocked_insert. apply (Hput _) in Hb; [done|]. cbn.
      pose proof (blocked_in_perm _ _ Hp t' t' eq_refl) as Hbp. rewrite blocked_cons in Hbp.
      rewrite (update_entry_perm _ _ _ _ Ee), !blocked_app, blocked_cons, Hbp.
      destruct release; cbn; tauto.
    + destruct (unlock_holder _ _ _ _ _ _) as [r' hold'] eqn:Eu.
      intros Hb%unlock_grant_blocked. apply (Hput _) in Hb; [done|].
      unfold unlock_holder in Eu. destruct (_ && _) in Eu; injection Eu as <- _; cbn.
      * rewrite position_perm, !blocked_app, blocked_cons. cbn.
        intros [[[_ ?]|Hb']|?]; [done| |by right]. left. by eapply blocked_remove.
      * rewrite !blocked_app. intros [Hb'|?]; [|by right]. left. by eapply blocked_remove.
  - destruct (find_entry t (waiter r)) as [e|]; [|done].
    destruct (unlock_waiter t k r (inst_hold_list g)) as [r' hold'] eqn:Eu.
    intros Hb%blocked_insert. apply (Hput _) in Hb; [done|]. unfold unlock_waiter in Eu.
    pose proof (split_entry_app t (waiter r)) as Hs. destruct (split_entry t (waiter r)) as [pre post].
    cbn in Hs. destruct post as [|w post].
    + injection Eu as <- _. cbn. rewrite app_nil_r in Hs. subst pre. rewrite !blocked_app.
      intros [?|Hb']; [by left|]. right. by eapply blocked_remove.
    + pose proof (grant_partial_blocked k r (inst_hold_list g) (blocked_of pre) pre (w :: post) t') as Hg.
      unfold lock_grant_blocked_waiter_partial in Eu. rewrite Eu in Hg. cbn in Hg.
      intros Hb'%Hg. rewrite Hs, blocked_app in Hb'. rewrite blocked_app.
      destruct Hb' as [?|Hb']; [by left|]. right. by eapply blocked_remove.
Qed.

Lemma unlock_all_blocked fuel quiet t g t' k' :
  blocked_at (unlock_all fuel quiet t g) t' k' -> blocked_at g t' k'.
Proof.
  revert g. induction fuel as [|fuel IH]; intros g; [done|]. cbn.
  destruct (hold_of _ _); [done|]. intros Hb%IH. by apply unlock_blocked in Hb.
Qed.

Lemma wakeup_blocked t k g t' k' : blocked_at (lock_wakeup t k g) t' k' -> blocked_at g t' k'.
Proof.
  unfold lock_wakeup. destruct (obj_hash_table g !! k) as [r|] eqn:Er; [|done].
  intros [[-> Hb]|?]%blocked_insert; [|done]. exists r. split; [done|]. cbn in Hb.
  rewrite blocked_app in *.
  assert (forall l, blocked_in (update_entry t (fun e => if is_blocked e then set_waiting e false else e) l) t' ->
            blocked_in l t') as Hu.
  { intros l. apply blocked_update; intros e; destruct (is_blocked e) eqn:E; try done; congruence. }
  destruct Hb as [Hb|Hb]; [left|right]; by apply Hu.
Qed.

(** A request makes only its own transaction wait. *)
Lemma lock_object_blocked ok_res ok t k lock wait g t' k' :
  blocked_at (lock_object ok_res ok t k lock wait g).2 t' k' ->
  (t' = t /\ k' = k) \/ blocked_at g t' k'.
Proof.
  unfold lock_object. destruct (decide _); [by right|]. unfold lock_internal_perform_lock_object.
  destruct (obj_hash_table g !! k) as [r|] eqn:Er.
  - assert (forall r' hold, (blocked_in (holder r' ++ waiter r') t' -> t' = t \/ blocked_in (holder r ++ waiter r) t') ->
              blocked_at (mkGlobal (<[k := r']> (obj_hash_table g)) hold) t' k' ->
              t' = t /\ k' = k \/ blocked_at g t' k') as Hput.
    { intros r' hold Hr' [[-> [?|Hb]%Hr']|?]%blocked_insert; [by left| |by right]. right. by exists r. }
    destruct (find_entry t (holder r)) as [e|] eqn:Ee.
    + destruct (find_entry_Some _ _ _ Ee) as [Ht Hp].
      destruct (lock_conversion t lock wait e r) as [res r'] eqn:Ec. apply Hput.
      pose proof (blocked_in_perm _ _ Hp t' t' eq_refl) as Hbp. rewrite blocked_cons in Hbp.
      unfold lock_conversion in Ec. repeat zcase; injection Ec as _ <-; cbn; rewrite !blocked_app; try tauto.
      * rewrite (update_entry_perm _ _ _ _ Ee), blocked_cons, Hbp. cbn. tauto.
      * rewrite (update_entry_perm _ _ _ _ Ee), blocked_cons, Hbp. cbn. tauto.
      * rewrite position_perm, blocked_cons, Hbp. cbn. intuition congruence.
    + destruct (lock_new_request ok t k lock wait r (inst_hold_list g)) as [[res r'] hold] eqn:Ec.
      apply Hput. unfold lock_new_request in Ec.
      destruct (if negb _ then _ else _).
      * destruct (negb ok); injection Ec as _ <- _; cbn; [tauto|].
        rewrite !blocked_app, position_perm, blocked_cons. cbn. intros [[[_ ?]|?]|?]; [done|tauto..].
      * destruct (find_entry t (waiter r)), ok; repeat zcase; injection Ec as _ <- _; try tauto.
        all: cbn; rewrite !blocked_app, blocked_cons; cbn;
        intros [?|[?|[[? _]|[]%blocked_nil]]]; [tauto|tauto|by left].
  - destruct (negb ok_res || negb ok); [by right|].
    intros [[-> Hb]|?]%blocked_insert; [|by right]. cbn in Hb.
    apply blocked_cons in Hb as [[_ ?]|[]%blocked_nil]. done.
Qed.

(** ** One wait at a time *)

Definition one_wait (g : LK_GLOBAL K) : Prop :=
  forall t k k', blocked_at g t k -> blocked_at g t k' -> k = k'.

Lemma blocked_entry c g t k :
  table_ok c g -> blocked_at g t k -> exists e, entry_of t k g = Some e /\ is_blocked e = true.
Proof.
  intros Hg (r & Hr & e & He & Ht & Hb). exists e. split; [|done]. unfold entry_of. rewrite Hr. cbn.
  destruct (table_get _ _ _ _ Hg Hr) as [[Hn _ _ _ _ _ _ _ _] _].
  revert He Hn. generalize (holder r ++ waiter r). clear -Ht. intros l. induction l as [|i l IH]; [by intros ?%not_elem_of_nil|].
  cbn. intros [<-|He]%elem_of_cons Hn; [by rewrite Ht, Z.eqb_refl|]. apply NoDup_cons in Hn as [Hi Hn].
  destruct (tran_index i =? t) eqn:E; [|by apply IH]. exfalso. apply Hi.
  apply Z.eqb_eq in E. rewrite E, <- Ht. by apply list_elem_of_fmap_2.
Qed.

Lemma one_wait_mono g g' :
  (forall t k, blocked_at g' t k -> blocked_at g t k) -> one_wait g -> one_wait g'.
Proof. intros Hb Hg t k k' H1%Hb H2%Hb. by apply (Hg t). Qed.

Lemma step_one_wait g g' : lk_step g g' -> table_ok False g -> one_wait g -> one_wait g'.
Proof.
  intros Hs Hg Ho. destruct Hs as [ok_res ok t k lock wait g Hrun _|quiet t k force g _|quiet t g _|t k g|].
  - intros t' k1 k2 [[-> ->]|H1]%lock_object_blocked [[Et ->]|H2]%lock_object_blocked; try done.
    + destruct (blocked_entry _ _ _ _ Hg H2) as (e & He & Hb). by rewrite (Hrun _ _ He) in Hb.
    + subst t'. destruct (blocked_entry _ _ _ _ Hg H1) as (e & He & Hb). by rewrite (Hrun _ _ He) in Hb.
    + by apply (Ho t').
  - eapply one_wait_mono; [|exact Ho]. intros t' k'. unfold lock_unlock_object.
    destruct (lock_find_tran_hold_entry _ _ _); [apply unlock_blocked|done].
  - eapply one_wait_mono; [|exact Ho]. intros t' k'. apply unlock_all_blocked.
  - eapply one_wait_mono; [|exact Ho]. intros t' k'. apply wakeup_blocked.
  - eapply one_wait_mono; [|exact Ho]. intros t' k'. apply unlock_blocked.
Qed.

Lemma reachable_one_wait g : rtc lk_step lock_initialize g -> table_ok False g /\ one_wait g.
Proof.
  intros Hr. eapply (rtc_ind_r (fun g => table_ok False g /\ one_wait g)); [| |exact Hr].
  - split; [apply initialize_ok|]. intros t k k' (r & Hk & _). cbn in Hk. by rewrite lookup_empty in Hk.
  - intros x y _ Hs [Hx Ho]. split; [by eapply step_ok|by eapply step_one_wait].
Qed.
End Table.
