(* ===== verification/DeadlockWaits.v ===== *)
(** * The waits of a lock table

    What lock_detect_local_deadlock collects from a reachable lock table: every
    wait is from a blocked transaction to another one of the same value, no
    two are between the same transactions, and no cycle has only waits for
    other waiters. *)
From Stdlib Require Import ZArith Lia ZifyBool Sorting.Sorted Relations.
From stdpp Require Import base list numbers gmap relations.
From S2P Require Import Prelude LockTable LockManager LockManagerInv LockManagerSteps.
From S2P Require Import Deadlock DeadlockGraph DeadlockLocks.

(** [j] comes after [i] in a list. *)
Definition before (l : list Z) (i j : Z) : Prop :=
  exists a b, l !! a = Some i /\ l !! b = Some j /\ (a < b)%nat.

Lemma before_trans l i j k : NoDup l -> before l i j -> before l j k -> before l i k.
Proof.
  intros Hn (a & b & Ha & Hb & Hab) (b' & c & Hb' & Hc & Hbc).
  assert (b = b') as <- by (by eapply NoDup_lookup). exists a, c. split_and!; [done..|lia].
Qed.

Lemma before_irrefl l i : NoDup l -> ~ before l i i.
Proof. intros Hn (a & b & Ha & Hb & Hab). assert (a = b) by (by eapply NoDup_lookup). lia. Qed.

Lemma before_app l1 i l2 j : j ∈ l2 -> before (l1 ++ i :: l2) i j.
Proof.
  intros [b Hb]%list_elem_of_lookup. exists (length l1), (length l1 + S b)%nat.
  split_and!; [by apply list_lookup_middle| |lia]. rewrite lookup_app_r by lia.
  by replace (length l1 + S b - length l1)%nat with (S b) by lia.
Qed.

Lemma before_cons x l i j : before l i j -> before (x :: l) i j.
Proof. intros (a & b & Ha & Hb & Hab). exists (S a), (S b). split_and!; [done..|lia]. Qed.

(** ** The waits of a resource *)

Section Resource.
Context (stime : Z -> Z).

(** Who waits for whom. *)
Definition ends (w : WAIT) : Z * Z := (w_from w, w_to w).

Lemma conflict_blocked e m :
  m <> NA_LOCK -> blocked_mode e <> NA_LOCK -> compatible (blocked_mode e) m = false -> is_blocked e = true.
Proof.
  intros Hm He Hc. destruct (is_blocked e) eqn:E; [done|]. apply is_blocked_false in E. rewrite E in Hc.
  by destruct m.
Qed.

(** A wait between two entries. *)
Definition wait_between (w : WAIT) (hj hi : LK_ENTRY) (flag : bool) : Prop :=
  w = wait_for stime hj hi flag /\ is_blocked hj = true.

Lemma conflict_wait w hj hi flag :
  entry_ok hi -> blocked_mode hj <> NA_LOCK ->
  w ∈ (if negb (compatible (blocked_mode hj) (granted_mode hi))
          || negb (compatible (blocked_mode hj) (blocked_mode hi))
       then [wait_for stime hj hi flag] else []) ->
  wait_between w hj hi flag.
Proof.
  intros [Hg Hb] Hj Hw. zcase; [|by apply not_elem_of_nil in Hw].
  apply list_elem_of_singleton in Hw. split; [done|].
  apply orb_true_iff in E as [E|E]; apply negb_true_iff in E.
  - by apply (conflict_blocked hj (granted_mode hi)).
  - by apply (conflict_blocked hj (blocked_mode hi)).
Qed.

(** A wait of an entry of [lf] for one of [lt]. *)
Definition wait_in (lf lt : list LK_ENTRY) (flag : bool) (w : WAIT) : Prop :=
  blocked_in lf (w_from w) /\ w_to w ∈ tran_index <$> lt /\ w_from w <> w_to w
  /\ w_stime w = stime (w_from w) /\ w_holder w = flag.

Lemma between_in w hj hi flag lf lt :
  wait_between w hj hi flag -> hj ∈ lf -> hi ∈ lt -> tran_index hj <> tran_index hi ->
  wait_in lf lt flag w.
Proof.
  intros [-> Hb] Hj Hi Hne. unfold wait_in. cbn. split_and!; [by exists hj|by apply list_elem_of_fmap_2|done..].
Qed.

Lemma holder_waits_between hi hj w :
  entry_ok hi -> entry_ok hj -> w ∈ holder_waits stime hi hj ->
  wait_between w hj hi true \/ wait_between w hi hj true.
Proof.
  intros Hi Hj [Hw|Hw]%elem_of_app.
  - left. by apply conflict_wait; [|apply Hj|].
  - right. zcase; [|by apply not_elem_of_nil in Hw]. apply list_elem_of_singleton in Hw. split; [done|].
    apply negb_true_iff in E. by apply (conflict_blocked hi (granted_mode hj)); [apply Hj|apply Hi|].
Qed.

Lemma between_ends w hj hi flag : wait_between w hj hi flag -> ends w = (tran_index hj, tran_index hi).
Proof. by intros [-> _]. Qed.

(** Among the holders. *)
Lemma among_holders_in hs w :
  Forall entry_ok hs -> NoDup (tran_index <$> hs) -> w ∈ among_holders stime hs -> wait_in hs hs true w.
Proof.
  induction 1 as [|hi hs Hi Hhs IH]; cbn [among_holders]; [by intros _ ?%not_elem_of_nil|].
  intros Hn. cbn in Hn. apply NoDup_cons in Hn as [Hni Hn].
  assert (wait_in hs hs true w -> wait_in (hi :: hs) (hi :: hs) true w) as Hmono.
  { intros (Hb & Ht & Hr). split_and!; [by apply blocked_cons; right|by right|apply Hr..]. }
  zcase; [by intros ?%not_elem_of_nil|]. intros [(hj & Hw & Hj)%list_elem_of_bind|Hw]%elem_of_app; [|auto].
  rewrite Forall_forall in Hhs. assert (tran_index hi <> tran_index hj) as Hne.
  { intros E'. apply Hni. rewrite E'. by apply list_elem_of_fmap_2. }
  destruct (holder_waits_between hi hj w Hi (Hhs hj Hj) Hw) as [Hb|Hb];
    (eapply between_in; [exact Hb|..]); (done || left || by right).
Qed.

(** Lists of waits without two for the same transactions. *)
Definition no_twice (l : list WAIT) : Prop := NoDup (ends <$> l).

Lemma no_twice_app l1 l2 :
  no_twice l1 -> no_twice l2 -> (forall w w', w ∈ l1 -> w' ∈ l2 -> ends w <> ends w') ->
  no_twice (l1 ++ l2).
Proof.
  intros H1 H2 Hd. unfold no_twice. rewrite fmap_app. apply NoDup_app. split_and!; [done| |done].
  intros p (w & -> & Hw)%list_elem_of_fmap (w' & E & Hw')%list_elem_of_fmap. by apply (Hd w w').
Qed.

Lemma no_twice_bind {A} (f : A -> list WAIT) l :
  NoDup l -> (forall x, x ∈ l -> no_twice (f x)) ->
  (forall x y w w', x ∈ l -> y ∈ l -> w ∈ f x -> w' ∈ f y -> ends w = ends w' -> x = y) ->
  no_twice (l ≫= f).
Proof.
  induction 1 as [|x l Hx Hn IH]; intros Hf Hinj; [constructor|]. rewrite bind_cons. apply no_twice_app.
  - apply Hf. left.
  - apply IH; [intros y Hy; apply Hf; by right|].
    intros y z w w' Hy Hz. apply Hinj; by right.
  - intros w w' Hw (y & Hw' & Hy)%list_elem_of_bind E. apply Hx.
    by rewrite (Hinj x y w w'); [|left|right|..].
Qed.

Lemma trans_nodup_inj (l : list LK_ENTRY) e i :
  NoDup (tran_index <$> l) -> e ∈ l -> i ∈ l -> tran_index e = tran_index i -> e = i.
Proof.
  induction l as [|x l IH]; [by intros _ ?%not_elem_of_nil|]. cbn.
  intros [Hx Hn]%NoDup_cons [->|He]%elem_of_cons [->|Hi]%elem_of_cons E; [done|..|by apply IH].
  - exfalso. apply Hx. rewrite E. by apply list_elem_of_fmap_2.
  - exfalso. apply Hx. rewrite <- E. by apply list_elem_of_fmap_2.
Qed.

Lemma trans_nodup (l : list LK_ENTRY) : NoDup (tran_index <$> l) -> NoDup l.
Proof. apply NoDup_fmap_1. Qed.

Lemma holder_waits_once hi hj :
  entry_ok hi -> entry_ok hj -> tran_index hi <> tran_index hj -> no_twice (holder_waits stime hi hj).
Proof.
  intros Hi Hj Hne. unfold holder_waits. apply no_twice_app.
  - zcase; [apply NoDup_singleton|constructor].
  - zcase; [apply NoDup_singleton|constructor].
  - intros w w'. repeat zcase; intros Hw Hw'; try (by apply not_elem_of_nil in Hw);
      try (by apply not_elem_of_nil in Hw').
    apply list_elem_of_singleton in Hw as ->, Hw' as ->. unfold ends. cbn. congruence.
Qed.

Lemma among_holders_once hs :
  Forall entry_ok hs -> NoDup (tran_index <$> hs) -> no_twice (among_holders stime hs).
Proof.
  induction 1 as [|hi hs Hi Hhs IH]; intros Hn; [constructor|]. cbn [among_holders]. zcase; [constructor|].
  cbn in Hn. apply NoDup_cons in Hn as [Hni Hn]. pose proof Hhs as Hok. rewrite Forall_forall in Hok.
  assert (forall hj, hj ∈ hs -> tran_index hi <> tran_index hj) as Hne.
  { intros hj Hj E'. apply Hni. rewrite E'. by apply list_elem_of_fmap_2. }
  apply no_twice_app; [|by apply IH|].
  - apply no_twice_bind; [by apply trans_nodup|intros hj Hj; apply holder_waits_once; auto|].
    intros hj hj' w w' Hj Hj' Hw Hw' Ew. apply (trans_nodup_inj hs); [done..|].
    apply holder_waits_between in Hw; [|by auto..]. apply holder_waits_between in Hw'; [|by auto..].
    pose proof (Hne hj Hj). pose proof (Hne hj' Hj').
    destruct Hw as [Ei%between_ends|Ei%between_ends], Hw' as [Ej%between_ends|Ej%between_ends];
      rewrite Ei, Ej in Ew; congruence.
  - intros w w' (hj & Hw & Hj)%list_elem_of_bind Hw' Ew.
    apply among_holders_in in Hw' as ((e & He & Ht & _) & Hto & _); [|done..].
    apply holder_waits_between in Hw; [|by auto..]. unfold ends in Ew at 2.
    destruct Hw as [Hw%between_ends|Hw%between_ends]; rewrite Hw in Ew; injection Ew as E1 E2; apply Hni.
    + by rewrite E2.
    + rewrite E1, <- Ht. by apply list_elem_of_fmap_2.
Qed.

(** From waiters to holders. *)
Lemma waiter_holder_in hs ws w :
  Forall entry_ok hs -> Forall entry_ok ws -> NoDup (tran_index <$> hs ++ ws) ->
  w ∈ (hs ≫= fun hi => ws ≫= waiter_to_holder stime hi) ->
  exists hj hi, hj ∈ ws /\ hi ∈ hs /\ tran_index hj <> tran_index hi /\ wait_between w hj hi true.
Proof.
  intros Hhs Hws Hn (hi & (hj & Hw & Hj)%list_elem_of_bind & Hi)%list_elem_of_bind.
  rewrite Forall_forall in Hhs, Hws. exists hj, hi. split_and!; [done|done| |].
  - rewrite fmap_app in Hn. apply NoDup_app in Hn as (_ & Hd & _). intros E.
    apply (Hd (tran_index hi)); [by apply list_elem_of_fmap_2|]. rewrite <- E. by apply list_elem_of_fmap_2.
  - apply conflict_wait; [by apply Hhs|by apply Hws|done].
Qed.

Lemma waiter_holder_once hs ws :
  Forall entry_ok hs -> Forall entry_ok ws -> NoDup (tran_index <$> hs) -> NoDup (tran_index <$> ws) ->
  no_twice (hs ≫= fun hi => ws ≫= waiter_to_holder stime hi).
Proof.
  intros Hhs Hws Hn1 Hn2. rewrite Forall_forall in Hhs, Hws.
  assert (forall hi hj w, hi ∈ hs -> hj ∈ ws -> w ∈ waiter_to_holder stime hi hj ->
            ends w = (tran_index hj, tran_index hi)) as He.
  { intros hi hj w Hi Hj Hw. eapply between_ends, conflict_wait; [by apply Hhs|by apply Hws|exact Hw]. }
  apply no_twice_bind; [by apply trans_nodup|..].
  - intros hi Hi. apply no_twice_bind; [by apply trans_nodup|..].
    + intros hj Hj. unfold waiter_to_holder. zcase; [apply NoDup_singleton|constructor].
    + intros hj hj' w w' Hj Hj' Hw%He Hw'%He; [|done..]. rewrite Hw, Hw'. intros [=].
      by apply (trans_nodup_inj ws).
  - intros hi hi' w w' Hi Hi' (hj & Hw & Hj)%list_elem_of_bind (hj' & Hw' & Hj')%list_elem_of_bind.
    rewrite (He hi hj), (He hi' hj') by done. intros [=]. by apply (trans_nodup_inj hs).
Qed.

(** Among the waiters: from one to an earlier one. *)
Lemma waiter_waiter_between hi hj w :
  entry_ok hi -> entry_ok hj -> w ∈ waiter_to_waiter stime hi hj -> wait_between w hj hi false.
Proof.
  intros [_ Hi] [_ Hj] Hw. unfold waiter_to_waiter in Hw. zcase; [|by apply not_elem_of_nil in Hw].
  apply list_elem_of_singleton in Hw. split; [done|]. apply negb_true_iff in E.
  by apply (conflict_blocked hj (blocked_mode hi)).
Qed.

Lemma among_waiters_in ws w :
  Forall entry_ok ws -> NoDup (tran_index <$> ws) -> w ∈ among_waiters stime ws ->
  wait_in ws ws false w /\ before (tran_index <$> ws) (w_to w) (w_from w).
Proof.
  induction 1 as [|hi ws Hi Hws IH]; cbn [among_waiters]; [by intros _ ?%not_elem_of_nil|].
  intros Hn. cbn in Hn. apply NoDup_cons in Hn as [Hni Hn]. rewrite fmap_cons.
  intros [(hj & Hw & Hj)%list_elem_of_bind|Hw]%elem_of_app.
  - rewrite Forall_forall in Hws. apply waiter_waiter_between in Hw; [|done|by apply Hws]. split.
    + eapply between_in; [exact Hw|by right|left|]. intros E. apply Hni. rewrite <- E.
      by apply list_elem_of_fmap_2.
    + destruct Hw as [-> _]. cbn. apply (before_app []). by apply list_elem_of_fmap_2.
  - destruct (IH Hn Hw) as [(Hb & Ht & Hr) Hbef]. split; [|by apply before_cons].
    split_and!; [by apply blocked_cons; right|by right|apply Hr..].
Qed.

Lemma among_waiters_once ws :
  Forall entry_ok ws -> NoDup (tran_index <$> ws) -> no_twice (among_waiters stime ws).
Proof.
  induction 1 as [|hi ws Hi Hws IH]; intros Hn; [constructor|]. cbn [among_waiters].
  cbn in Hn. apply NoDup_cons in Hn as [Hni Hn]. pose proof Hws as Hok. rewrite Forall_forall in Hok.
  assert (forall hj w, hj ∈ ws -> w ∈ waiter_to_waiter stime hi hj -> ends w = (tran_index hj, tran_index hi)) as He.
  { intros hj w Hj Hw. eapply between_ends, waiter_waiter_between; [done|by apply Hok|done]. }
  apply no_twice_app; [|by apply IH|].
  - apply no_twice_bind; [by apply trans_nodup|..].
    + intros hj Hj. unfold waiter_to_waiter. zcase; [apply NoDup_singleton|constructor].
    + intros hj hj' w w' Hj Hj' Hw%He Hw'%He; [|done..]. rewrite Hw, Hw'. intros [=].
      by apply (trans_nodup_inj ws).
  - intros w w' (hj & Hw & Hj)%list_elem_of_bind Hw' Ew. rewrite (He hj) in Ew by done.
    apply among_waiters_in in Hw' as [(_ & Hto & _) _]; [|done..]. injection Ew as _ E2. by rewrite E2 in Hni.
Qed.
End Resource.

(** ** The waits of a table *)

Record resource_good (r : LK_RES) : Prop := {
  rg_holders : Forall entry_ok (holder r);
  rg_waiters : Forall entry_ok (waiter r);
  rg_trans : NoDup (tran_index <$> holder r ++ waiter r) }.

Section Good.
Context (stime : Z -> Z) (r : LK_RES) (Hr : resource_good r).

Lemma good_trans :
  NoDup (tran_index <$> holder r) /\ NoDup (tran_index <$> waiter r)
  /\ forall t, t ∈ tran_index <$> holder r -> t ∉ tran_index <$> waiter r.
Proof. destruct Hr as [_ _ Hn]. rewrite fmap_app in Hn. apply NoDup_app in Hn. tauto. Qed.

Lemma resource_waits_in w :
  w ∈ resource_waits stime r ->
  wait_in stime (holder r ++ waiter r) (holder r ++ waiter r) (w_holder w) w
  /\ (w_holder w = false -> before (tran_index <$> waiter r) (w_to w) (w_from w)).
Proof.
  destruct good_trans as (Hn1 & Hn2 & _). destruct Hr as [Hh Hw Hn].
  intros [Hin|[Hin|Hin]%elem_of_app]%elem_of_app.
  - apply among_holders_in in Hin as (H1 & H2 & H3 & H4 & H5); [|done..]. rewrite H5. split; [|done].
    split_and!; [by apply blocked_app; left| |done..]. rewrite fmap_app, elem_of_app. by left.
  - apply waiter_holder_in in Hin as (hj & hi & Hj & Hi & Hne & Hb); [|done..].
    assert (w_holder w = true) as Hflag by (by destruct Hb as [-> _]). split; [|congruence].
    rewrite Hflag. eapply between_in; [exact Hb|..|done]; apply elem_of_app; tauto.
  - apply among_waiters_in in Hin as [(H1 & H2 & H3 & H4 & H5) Hb]; [|done..]. rewrite H5. split; [|done].
    split_and!; [by apply blocked_app; right| |done..]. rewrite fmap_app, elem_of_app. by right.
Qed.

Lemma resource_waits_once : no_twice (resource_waits stime r).
Proof.
  destruct good_trans as (Hn1 & Hn2 & Hd). destruct Hr as [Hh Hw Hn]. unfold resource_waits.
  apply no_twice_app; [by apply among_holders_once|apply no_twice_app|].
  - by apply waiter_holder_once.
  - by apply among_waiters_once.
  - intros w w' (hj & hi & Hj & Hi & _ & Hb)%waiter_holder_in Hin E; [|done..].
    apply among_waiters_in in Hin as [(_ & Ht & _) _]; [|done..].
    apply between_ends in Hb. rewrite Hb in E. injection E as _ E. rewrite <- E in Ht.
    apply (Hd (tran_index hi)); [by apply list_elem_of_fmap_2|done].
  - intros w w' Hin Hin' E. apply among_holders_in in Hin as ((e & He & Ht & _) & _); [|done..].
    assert (w_from w' ∈ tran_index <$> waiter r) as Hf.
    { apply elem_of_app in Hin' as [Hin'|Hin'].
      - apply waiter_holder_in in Hin' as (hj & hi & Hj & _ & _ & [-> _]); [|done..].
        by apply (list_elem_of_fmap_2 tran_index).
      - apply among_waiters_in in Hin' as [((e' & He' & <- & _) & _) _]; [|done..].
        by apply list_elem_of_fmap_2. }
    injection E as E _. apply (Hd (w_from w')); [|done]. rewrite <- E, <- Ht. by apply list_elem_of_fmap_2.
Qed.
End Good.

Section Table.
Context {K : Type} `{Countable K} (stime : Z -> Z).
Implicit Types lk : LK_GLOBAL K.

Lemma table_good c lk k r :
  table_ok c lk -> obj_hash_table lk !! k = Some r -> resource_good r.
Proof.
  intros Hlk Hr. destruct (table_get _ _ _ _ Hlk Hr) as [[Hn Hh Hw _ _ _ _ _ _] _]. split; [..|done].
  - eapply Forall_impl; [exact Hh|]. by intros e [? _].
  - eapply Forall_impl; [exact Hw|]. intros e (Hg & _ & Hb). split; [by rewrite Hg|done].
Qed.

(** What the detector does to a resource without holders is a grant. *)
Lemma repair_ok lk k :
  table_ok False lk -> one_wait lk ->
  let lk' := repair_resource k lk in
  table_ok False lk' /\ one_wait lk'
  /\ (forall k', k' <> k -> obj_hash_table lk' !! k' = obj_hash_table lk !! k')
  /\ forall r' t, obj_hash_table lk' !! k = Some r' -> t ∈ tran_index <$> holder r' ++ waiter r' ->
       exists r, obj_hash_table lk !! k = Some r /\ t ∈ tran_index <$> holder r ++ waiter r.
Proof.
  intros Hlk Ho lk'. unfold lk', repair_resource. destruct (obj_hash_table lk !! k) as [r|] eqn:Er;
    [|split_and!; try done; intros r' t Hr'; congruence].
  destruct (holder r) as [|h hs] eqn:Eh;
    [|split_and!; try done; intros r' t Hr' Ht; exists r'; split; [congruence|done]].
  destruct (waiter r) as [|w ws] eqn:Ew;
    [split_and!; try done; intros r' t Hr' Ht; exists r'; split; [congruence|done]|].
  set (r1 := mkRes NULL_LOCK (total_waiters_mode r) [] (w :: ws)).
  assert (lock_ok False (is_holder lk) k r1 (inst_hold_list lk)) as H1.
  { destruct (table_get _ _ _ _ Hlk Er) as [[] Hw']. rewrite Eh, Ew in *. split; [|done]. by split. }
  pose proof (lock_grant_ok False (is_holder lk) k r1 _ H1) as H2.
  change (lock_grant_blocked_holder r1) with r1 in H2.
  pose proof (fun t => grant_waiter_blocked k r1 (inst_hold_list lk) t) as H3.
  destruct (lock_grant_blocked_waiter k r1 (inst_hold_list lk)) as [r' hold'] eqn:Eg. cbn [fst] in H3.
  split_and!.
  - by apply table_set.
  - eapply one_wait_mono; [|exact Ho]. intros t k' [[-> Hb]|Hb]%blocked_insert; [|done].
    exists r. split; [done|]. rewrite Eh, Ew. by apply H3.
  - intros k' Hk'. cbn. by rewrite lookup_insert_ne.
  - intros r2 t Hr2 Ht. cbn in Hr2. rewrite lookup_insert_eq in Hr2. injection Hr2 as <-.
    exists r. split; [done|]. rewrite Eh, Ew.
    unfold lock_grant_blocked_waiter in Eg.
    destruct (grant_waiters _ _ _ _ _ _) as [[[r2 hold2] ws2] ch2] eqn:E2. injection Eg as <- _.
    apply grant_waiters_trans in E2. cbn in Ht, E2. by rewrite <- E2.
Qed.

Definition waits_at lk (k : K) : list WAIT :=
  match obj_hash_table lk !! k with Some r => resource_waits stime r | None => [] end.

Lemma collect_ok ks lk :
  table_ok False lk -> one_wait lk -> NoDup ks ->
  let '(lk', ws) := collect_waits stime ks lk in
  table_ok False lk' /\ one_wait lk' /\ ws = ks ≫= waits_at lk'
  /\ (forall k, k ∉ ks -> obj_hash_table lk' !! k = obj_hash_table lk !! k)
  /\ forall k r' t, obj_hash_table lk' !! k = Some r' -> t ∈ tran_index <$> holder r' ++ waiter r' ->
       exists r, obj_hash_table lk !! k = Some r /\ t ∈ tran_index <$> holder r ++ waiter r.
Proof.
  revert lk. induction ks as [|k ks IH]; intros lk Hlk Ho Hn; cbn [collect_waits].
  { split_and!; try done. intros k r' t Hr' Ht. by exists r'. }
  apply NoDup_cons in Hn as [Hk Hn]. destruct (repair_ok lk k Hlk Ho) as (H1 & H2 & H3 & H4).
  specialize (IH _ H1 H2 Hn). destruct (collect_waits stime ks (repair_resource k lk)) as [lk' ws'].
  destruct IH as (H5 & H6 & -> & H8 & H9). split_and!; [done|done|..].
  - rewrite bind_cons. f_equal. unfold waits_at. by rewrite H8.
  - intros k' [Hk1 Hk2]%not_elem_of_cons. rewrite H8 by done. by apply H3.
  - intros k' r' t Hr' Ht. destruct (H9 k' r' t Hr' Ht) as (r & Hr & Htr).
    destruct (decide (k' = k)) as [->|Hne]; [by apply (H4 r)|]. rewrite H3 in Hr by done. by exists r.
Qed.
End Table.
