(* ===== verification/DeadlockProps.v ===== *)
(** * Properties of the deadlock detection *)
From Stdlib Require Import ZArith Lia ZifyBool.
From stdpp Require Import base list numbers gmap relations.
From S2P Require Import Prelude LockTable LockManager LockManagerInv LockManagerSteps LockManagerProps.
From S2P Require Import Deadlock DeadlockSearch DeadlockVictim DeadlockVisit DeadlockLoop DeadlockGraph.
From S2P Require Import DeadlockLocks DeadlockWaits.

(** ** Deadlocks *)

Section Deadlocks.
Context (since : Z -> Z) (tt : TRAN_TABLE) (ws : list WAIT).

(** The thread of the transaction waits, and has since before the wait was
    recorded; [since] is thrd_wait_stime. *)
Definition wait_live (w : WAIT) : Prop := since (w_from w) <> 0 /\ since (w_from w) <= w_stime w.

(** The first wait of [c] is for [t], every other one for the transaction of
    the one before it. *)
Fixpoint wait_chain (t : Z) (c : list WAIT) : Prop :=
  match c with
  | [] => True
  | w :: c => w_to w = t /\ wait_chain (w_from w) c
  end.

(** A cycle of transactions that wait for each other. *)
Definition deadlock (c : list WAIT) : Prop :=
  (exists w, last c = Some w /\ wait_chain (w_from w) c) /\ Forall (fun w => w ∈ ws /\ wait_live w) c.

(** A transaction of the cycle that can be chosen: it holds a lock that
    another one waits for, and it is active. *)
Definition may_abort (c : list WAIT) (t : Z) : Prop :=
  (exists w, w ∈ c /\ w_to w = t /\ w_holder w = true)
  /\ logtb_is_active tt (logtb_find_tranid tt t) = true.

(** What the detector reports: a transaction of a deadlock that can be chosen,
    and no other one of it is to be preferred. *)
Definition victim_of_deadlock (x : LK_DEADLOCK_VICTIM) : Prop :=
  exists c, deadlock c /\ may_abort c (victim_index x)
    /\ (forall t, may_abort c t -> preferred tt (victim_index x) t)
    /\ victim_tranid x = logtb_find_tranid tt (victim_index x)
    /\ num_trans_in_cycle x = Z.of_nat (length c)
    /\ (forall l, tran_index_in_cycle x = IN_CYCLE l -> l = w_from <$> c).

(** All recorded waits of the transactions of [c] are live. *)
Definition all_live (c : list WAIT) : Prop :=
  forall w w', w ∈ c -> w' ∈ ws -> w_from w' = w_from w -> wait_live w'.
End Deadlocks.

(** What holds of every wait of a chain holds of its ends. *)
Lemma chain_rel (P : Z -> Z -> Prop) t c w :
  (forall i j k, P i j -> P j k -> P i k) -> wait_chain t c -> last c = Some w ->
  Forall (fun w => P (w_from w) (w_to w)) c -> P (w_from w) t.
Proof.
  intros Ht. revert t. induction c as [|w' c IH]; intros t; [done|].
  intros [<- Hc] Hl [Hw Hf]%Forall_cons. destruct c as [|w2 c]; [by injection Hl as <-|].
  apply (Ht _ (w_from w')); [|done]. by apply IH.
Qed.

(** ** From edges to waits *)

Section Waits.
Context (g1 : TWFG) (ws : list WAIT) (L : Z -> list Z) (F : list Z) (Hg : graph_of g1 ws L F).
Context (tt : TRAN_TABLE) (since : Z -> Z).
Context (Hsince : forall i, thrd_wait_stime (TWFG_node g1 i) = since i).

Lemma edge_in_waits i e : is_node g1 i -> e ∈ L i -> edge_wait g1 i e ∈ ws.
Proof.
  intros Hi He. assert (edge_wait g1 i e ∈ reverse (waits_of ws i)) as Hin.
  { rewrite <- (gf_waits _ _ _ _ Hg i Hi). by apply list_elem_of_fmap_2. }
  apply elem_of_reverse, list_elem_of_filter in Hin as [_ ?]. done.
Qed.

Lemma wait_edge_of w :
  w ∈ ws -> is_node g1 (w_from w) -> exists e, e ∈ L (w_from w) /\ edge_wait g1 (w_from w) e = w.
Proof.
  intros Hw Hi. assert (w ∈ edge_wait g1 (w_from w) <$> L (w_from w)) as Hin.
  { rewrite (gf_waits _ _ _ _ Hg _ Hi). apply elem_of_reverse, list_elem_of_filter. done. }
  apply list_elem_of_fmap in Hin as (e & -> & He). by exists e.
Qed.

(** An edge of the graph is fresh when its wait is live. *)
Lemma fresh_live i e :
  is_node g1 i -> e ∈ L i -> fresh g1 i e <-> wait_live since (edge_wait g1 i e).
Proof.
  intros Hi He. unfold fresh, wait_live. cbn. rewrite Hsince.
  destruct (gf_nodes _ _ _ _ Hg i Hi) as (-> & _).
  destruct (go_edge _ _ (gf_graph _ _ _ _ Hg) i e Hi He) as (_ & Ht & _).
  destruct (gf_nodes _ _ _ _ Hg _ Ht) as (_ & _ & ->). pose proof (gf_seq _ _ _ _ Hg i e Hi He). tauto.
Qed.

(** The waits of a cycle of edges. *)
Definition waits (c : list (Z * Z)) : list WAIT := (fun p => edge_wait g1 p.1 p.2) <$> c.

Lemma waits_from c : w_from <$> waits c = c.*1.
Proof. unfold waits. rewrite <- list_fmap_compose. done. Qed.

Lemma path_chain t c : wait_path g1 L t c -> wait_chain t (waits c).
Proof.
  revert t. induction c as [|[v e] c IH]; intros t; [done|]. cbn. intros [(_ & _ & Ht & _) Hp].
  split; [done|]. by apply IH.
Qed.

Lemma path_live t c :
  wait_path g1 L t c -> Forall (fun w => w ∈ ws /\ wait_live since w) (waits c).
Proof.
  revert t. induction c as [|[v e] c IH]; intros t; [constructor|]. cbn.
  intros [(Hn & He & _ & Hf) Hp]. constructor; [|by apply (IH v)].
  split; [by apply edge_in_waits|by apply fresh_live].
Qed.

Lemma cycle_deadlock c : wait_cycle g1 L c -> deadlock since ws (waits c).
Proof.
  intros (v & Hl & _ & Hp). split; [|by apply (path_live v)].
  rewrite <- waits_from, fmap_last in Hl. destruct (last (waits c)) as [w|]; [|done].
  injection Hl as <-. exists w. split; [done|]. by apply path_chain.
Qed.

Lemma candidate_abort c t : candidate_of g1 tt c t <-> may_abort tt (waits c) t.
Proof.
  unfold candidate_of, may_abort. split.
  - intros (u & e & Hin & Ht & Hh & Ha). split; [|done]. exists (edge_wait g1 u e).
    split_and!; [|done..]. by apply (list_elem_of_fmap_2 (fun p => edge_wait g1 p.1 p.2) c (u, e)).
  - intros [(w & Hw & Ht & Hh) Ha]. apply list_elem_of_fmap in Hw as ([u e] & -> & Hin).
    by exists u, e.
Qed.

Lemma victim_deadlock x : victim_ok g1 L tt x -> victim_of_deadlock since tt ws x.
Proof.
  intros (c & H1 & H2 & H3 & H4 & H5 & H6 & H7). exists (waits c). split_and!.
  - by apply cycle_deadlock.
  - by apply candidate_abort.
  - intros t Ht. by apply H3, candidate_abort.
  - done.
  - rewrite H6. unfold waits. by rewrite length_fmap.
  - intros l Hl. rewrite waits_from. by apply H7.
Qed.

(** ** Every deadlock is found *)

Lemma search_deadlocks mem :
  1 <= num_trans g1 ->
  exists g2, find_cycles tt mem quiet g1 = Some g2
    /\ Forall (victim_of_deadlock since tt ws) (victims g2)
    /\ (Z.of_nat (length (victims g2)) < LK_MAX_VICTIM_COUNT ->
        (forall c, deadlock since ws c -> exists t, may_abort tt c t) ->
        forall c, deadlock since ws c -> all_live since ws c -> Forall (fun w => is_node g1 (w_from w)) c ->
        exists x, x ∈ victims g2 /\ victim_index x ∈ w_from <$> c).
Proof.
  intros HN. assert (0 <= edge_count g1) as Hec.
  { pose proof (gf_array _ _ _ _ Hg). unfold LK_MID_TWFG_EDGE_COUNT in *. lia. }
  destruct (find_cycles_ok g1 L (gf_graph _ _ _ _ Hg) tt mem (gf_victims _ _ _ _ Hg) HN Hec)
    as (g2 & R & st & order & Hrun & [_ _ Ho Hv] & Hend).
  exists g2. split; [done|]. split; [eapply Forall_impl; [exact Hv|]; apply victim_deadlock|].
  intros Hlt Habort c [(w & Hl & Hc) Hf] Hlive Hn. destruct Hend as [?|Hdone]; [lia|].
  destruct (decide (Exists (fun x => victim_index x ∈ w_from <$> c) (victims g2))) as [Hex|Hex].
  { by apply Exists_exists in Hex. }
  exfalso. apply (before_irrefl order (w_from w)); [by apply (or_nodup _ _ _ _ _ _ Ho)|].
  apply (chain_rel (before order) _ c); [|done..|].
  { intros i j k. by apply before_trans, (or_nodup _ _ _ _ _ _ Ho). }
  apply Forall_forall. intros w' Hw'. rewrite Forall_forall in Hf, Hn. destruct (Hf w' Hw') as [Hin Hwl].
  destruct (wait_edge_of w' Hin (Hn w' Hw')) as (e & He & Ee).
  assert (w_from w' ∈ order) as (l1 & l2 & El)%list_elem_of_split.
  { apply (or_done _ _ _ _ _ _ Ho). split; [by apply Hn|]. by apply Hdone, Hn. }
  assert (fresh g1 (w_from w') e) as Hfr by (apply fresh_live; [by apply Hn|done|by rewrite Ee]).
  destruct (or_before _ _ _ _ _ _ Ho (w_from w') l1 l2 e El) as [Ht|(c' & Hcyc & _ & Hno)].
  - destruct (gf_nodes _ _ _ _ Hg _ (Hn w' Hw')) as (Hck & _). split_and!; [done|by rewrite Hsince; apply Hwl|].
    intros e' He'. rewrite Hsince. apply (Hlive w' (edge_wait g1 (w_from w') e')); [done| |done].
    by apply edge_in_waits; [apply Hn|].
  - intros Hin'. apply Hex, Exists_exists. apply list_elem_of_fmap in Hin' as (x & Ex & Hx).
    exists x. split; [done|]. rewrite <- Ex. by apply list_elem_of_fmap_2.
  - done.
  - done.
  - rewrite El. replace (w_to w') with (target g1 e) by (by rewrite <- Ee). by apply before_app.
  - exfalso. destruct (Habort (waits c')) as [t Ht]; [by apply cycle_deadlock|].
    by apply (Hno t), candidate_abort.
Qed.
End Waits.

(** ** The waits of a reachable lock table *)

Section Collected.
Context {K : Type} `{Countable K} (lk : LK_GLOBAL K) (Hlk : table_ok False lk) (Ho : one_wait lk).
Context (stime : Z -> Z) (ks : list K) (Hks : NoDup ks).

Notation ws := (ks ≫= waits_at stime lk).

Lemma wait_at w :
  w ∈ ws -> exists k r, k ∈ ks /\ obj_hash_table lk !! k = Some r /\ resource_good r
    /\ w ∈ resource_waits stime r.
Proof.
  intros (k & Hw & Hk)%list_elem_of_bind. unfold waits_at in Hw.
  destruct (obj_hash_table lk !! k) as [r|] eqn:Er; [|by apply not_elem_of_nil in Hw].
  exists k, r. split_and!; [done|done|by eapply table_good|done].
Qed.

Lemma wait_from_blocked w k r :
  obj_hash_table lk !! k = Some r -> w ∈ resource_waits stime r -> blocked_at lk (w_from w) k.
Proof.
  intros Hr Hw. exists r. split; [done|].
  by destruct (resource_waits_in stime r (table_good _ _ _ _ Hlk Hr) w Hw) as [[? _] _].
Qed.

Lemma collected_once : no_twice ws.
Proof.
  apply no_twice_bind; [done|..].
  - intros k _. unfold waits_at. destruct (obj_hash_table lk !! k) as [r|] eqn:Er; [|constructor].
    apply resource_waits_once. by eapply table_good.
  - intros k k' w w' _ _ Hw Hw' [= E _]. unfold waits_at in *.
    destruct (obj_hash_table lk !! k) as [r|] eqn:Er; [|by apply not_elem_of_nil in Hw].
    destruct (obj_hash_table lk !! k') as [r'|] eqn:Er'; [|by apply not_elem_of_nil in Hw'].
    apply (Ho (w_from w)); [by eapply wait_from_blocked|]. rewrite E. by eapply wait_from_blocked.
Qed.

Lemma collected_stime w : w ∈ ws -> w_stime w = stime (w_from w).
Proof.
  intros Hw. destruct (wait_at w Hw) as (k & r & _ & Hr & Hgood & Hin).
  by destruct (resource_waits_in stime r Hgood w Hin) as [(_ & _ & _ & ? & _) _].
Qed.

Lemma collected_wait_ok g :
  (forall k r t, obj_hash_table lk !! k = Some r -> t ∈ tran_index <$> holder r ++ waiter r -> is_node g t) ->
  Forall (wait_ok g) ws.
Proof.
  intros Hnode. apply Forall_forall. intros w Hw. destruct (wait_at w Hw) as (k & r & _ & Hr & Hgood & Hin).
  destruct (resource_waits_in stime r Hgood w Hin) as [((e & He & Ef & _) & Ht & Hne & _) _].
  split_and!; [|eapply Hnode; [exact Hr|exact Ht]|exact Hne].
  eapply Hnode; [exact Hr|]. rewrite <- Ef. by apply list_elem_of_fmap_2.
Qed.

(** Waits for waiters stay at one value. *)
Lemma waiter_chain k r t c :
  obj_hash_table lk !! k = Some r -> blocked_at lk t k -> wait_chain t c ->
  Forall (fun w => w ∈ ws /\ w_holder w = false) c ->
  Forall (fun w => before (tran_index <$> waiter r) (w_to w) (w_from w)) c.
Proof.
  intros Hr. revert t. induction c as [|w c IH]; intros t Hb; [constructor|].
  intros [<- Hc] [[Hw Hf] Hws]%Forall_cons.
  destruct (wait_at w Hw) as (k' & r' & _ & Hr' & Hgood & Hin).
  destruct (resource_waits_in stime r' Hgood w Hin) as [_ Hbef]. specialize (Hbef Hf).
  assert (k' = k) as ->.
  { apply (Ho (w_to w)); [|done]. exists r'. split; [done|].
    destruct Hbef as (a & b & Ha & _ & _). apply list_elem_of_lookup_2, list_elem_of_fmap in Ha as (e & He & Hin').
    exists e. split; [by apply elem_of_app; right|]. split; [done|].
    destruct (table_get _ _ _ _ Hlk Hr') as [[_ _ Hwt _ _ _ _ _ _] _]. rewrite Forall_forall in Hwt.
    destruct (Hwt e Hin') as (_ & Hne & _). unfold is_blocked. by rewrite bool_decide_false. }
  rewrite Hr in Hr'. injection Hr' as <-. constructor; [done|].
  apply (IH (w_from w)); [by eapply wait_from_blocked|done..].
Qed.

Lemma deadlock_holder since c : deadlock since ws c -> exists w, w ∈ c /\ w_holder w = true.
Proof.
  intros [(w & Hl & Hc) Hf]. destruct (decide (Exists (fun w => w_holder w = true) c)) as [He|Hne];
    [by apply Exists_exists in He|]. exfalso.
  assert (Forall (fun w => w ∈ ws /\ w_holder w = false) c) as Hfalse.
  { apply Forall_forall. intros w' Hw'. rewrite Forall_forall in Hf. split; [by apply Hf|].
    destruct (w_holder w') eqn:E; [|done]. exfalso. apply Hne, Exists_exists. by exists w'. }
  assert (w ∈ ws) as Hw.
  { rewrite Forall_forall in Hf. apply Hf. apply last_Some in Hl as [l ->]. apply elem_of_app. right. left. }
  destruct (wait_at w Hw) as (k & r & _ & Hr & Hgood & Hin).
  pose proof (waiter_chain k r (w_from w) c Hr (wait_from_blocked w k r Hr Hin) Hc Hfalse) as Hall.
  destruct (good_trans r Hgood) as (_ & Hn & _). apply (before_irrefl (tran_index <$> waiter r) (w_from w) Hn).
  apply (chain_rel (fun i j => before (tran_index <$> waiter r) j i) (w_from w) c w); [|done..].
  intros i j l H1 H2. by apply (before_trans _ _ j).
Qed.
End Collected.

(** At most one wait for each pair of transactions. *)
Lemma waits_bound g ws :
  1 <= num_trans g -> Forall (wait_ok g) ws -> no_twice ws ->
  Z.of_nat (length ws) <= (num_trans g - 1) * (num_trans g - 1).
Proof.
  intros HN Hok Hn. set (nodes := seqZ 1 (num_trans g - 1)).
  assert (ends <$> ws ⊆+ nodes ≫= fun i => (i,.) <$> nodes) as Hsub.
  { apply NoDup_submseteq; [done|]. intros p (w & -> & Hw)%list_elem_of_fmap. rewrite Forall_forall in Hok.
    destruct (Hok w Hw) as (H1 & H2 & _). unfold is_node in *. apply list_elem_of_bind.
    exists (w_from w). split; [|apply elem_of_seqZ; lia]. unfold ends. apply list_elem_of_fmap_2, elem_of_seqZ. lia. }
  apply submseteq_length in Hsub. rewrite length_fmap in Hsub.
  assert (forall l : list Z, length (l ≫= fun i => (i,.) <$> nodes) = (length l * length nodes)%nat) as Hlen.
  { induction l as [|i l IH]; [done|]. rewrite bind_cons, length_app, length_fmap, IH. cbn. lia. }
  rewrite Hlen in Hsub. unfold nodes in Hsub. rewrite length_seqZ in Hsub. nia.
Qed.

(** ** Properties *)

(** C5: deadlock detection is correct on every reachable lock table, when no
    other thread interferes and there is memory for larger edge tables or there
    are at most 32 transactions.  It terminates without an access outside its
    arrays, whose growth up to the square of the number of transactions always
    suffices; every victim is an active transaction on a cycle of recorded
    waits, holds a lock that one of the waiting transactions waits for, and is
    the one to be preferred among those; and when all transactions are active
    and the array of victims is not full, every cycle of recorded waits
    contains a victim.  The recorded waits are those that collect_waits enters
    in the graph: a request that only queues behind one it is compatible with
    has no recorded wait for it. *)
Theorem deadlock_detection_correct {K} `{Countable K} (lk : LK_GLOBAL K) (g : TWFG) tt mem malloc block
    stime ks :
  rtc lk_step lock_initialize lk -> NoDup ks -> 1 <= num_trans g ->
  (forall t k, entry_of t k lk <> None -> is_node g t) ->
  (forall i, is_node g i -> DL_victim (TWFG_node g i) = false) ->
  malloc <> None \/ num_trans g <= 32 ->
  let since i := thrd_wait_stime (TWFG_node g i) in
  let ws := (collect_waits stime ks lk).2 in
  exists lk' g', lock_detect_local_deadlock tt mem malloc block quiet stime ks lk g = Some (lk', g')
    /\ Forall (victim_of_deadlock since tt ws) (victims g')
    /\ ((forall t, logtb_is_active tt (logtb_find_tranid tt t) = true) ->
        Z.of_nat (length (victims g')) < LK_MAX_VICTIM_COUNT ->
        forall c, deadlock since ws c -> exists x, x ∈ victims g' /\ victim_index x ∈ w_from <$> c).
Proof.
  intros [Hlk Ho]%reachable_one_wait Hks HN Hnode Hv Hmem since ws.
  pose proof (collect_ok stime ks lk Hlk Ho Hks) as Hcol. unfold ws, lock_detect_local_deadlock.
  destruct (collect_waits stime ks lk) as [lk' ws']. cbn [snd] in *.
  destruct Hcol as (Hlk' & Ho' & -> & _ & Hent). set (ws' := ks ≫= waits_at stime lk') in *.
  assert (Forall (wait_ok g) ws') as Hok.
  { apply (collected_wait_ok lk' Hlk' stime ks g). intros k r t Hr Htr.
    destruct (Hent k r t Hr Htr) as (r0 & Hr0 & [e He]%find_entry_in).
    apply (Hnode t k). unfold entry_of. rewrite Hr0. cbn. by rewrite He. }
  pose proof (waits_bound g ws' HN Hok (collected_once lk' Hlk' Ho' stime ks Hks)) as Hbound.
  destruct (build_graph malloc block g ws' Hv Hok) as (g1 & L & F & -> & Hg1 & HN1 & Hst).
  { unfold enough_edges, LK_MID_TWFG_EDGE_COUNT, LK_MAX_TWFG_EDGE_COUNT.
    destruct Hmem as [?|?]; [|left; nia]. right. split; [done|nia]. }
  obind. destruct (search_deadlocks g1 ws' L F Hg1 tt since Hst mem) as (g2 & -> & Hvic & Hall); [by rewrite HN1|].
  obind. exists lk', g2. split; [done|]. split; [done|]. intros Hact Hlt c Hc.
  apply Hall; [done| |done|..].
  - intros c' Hc'. destruct (deadlock_holder lk' Hlk' Ho' stime ks since c' Hc') as (w & Hw & Hh).
    exists (w_to w). split; [by exists w|by apply Hact].
  - destruct Hc as [_ Hf]. rewrite Forall_forall in Hf. intros w w' Hw Hw' E. destruct (Hf w Hw) as [Hin [H1 H2]].
    pose proof (collected_stime lk' Hlk' stime ks) as Htime.
    unfold wait_live. rewrite E, (Htime w' Hw'), E, <- (Htime w Hin). done.
  - destruct Hc as [_ Hf]. eapply Forall_impl; [exact Hf|]. intros w [Hw _].
    rewrite Forall_forall in Hok. destruct (Hok w Hw) as [Hn _]. unfold is_node in *. by rewrite HN1.
Qed.

(** Transactions 1 and 2 hold a value each and wait for the other one. *)
Definition ask (t k : Z) (lock : LOCK) (lk : LK_GLOBAL Z) : LK_GLOBAL Z :=
  (lock_object true true t k lock (-1) lk).2.

(** The states are kept in normal form, so that each step is checked alone. *)
Ltac normal_start := match goal with |- rtc ?R ?x ?y => let v := eval vm_compute in x in change (rtc R v y) end.
Ltac asks t k lock := eapply rtc_l; [apply (step_lock true true t k lock (-1)); [runs|done]|]; normal_start.

Definition crossed : LK_GLOBAL Z := Eval vm_compute in
  ask 2 1 X_LOCK (ask 1 2 X_LOCK (ask 2 2 X_LOCK (ask 1 1 X_LOCK lock_initialize))).

Lemma crossed_reachable : rtc lk_step lock_initialize crossed.
Proof. asks 1 1 X_LOCK. asks 2 2 X_LOCK. asks 1 2 X_LOCK. asks 2 1 X_LOCK. done. Qed.

Definition some_node : LK_WFG_NODE := mkNode 0 false 0 0 5 0 false false.
Definition some_edge : LK_WFG_EDGE := mkEdge 0 0 false 0 0.
Definition some_graph (n : Z) : TWFG := mkTWFG n (fun _ => some_node) (fun _ => some_edge) 0 0 (-1) 0 [].
Definition all_active : TRAN_TABLE := mkTranTable (fun t => t) (fun _ => true) (fun _ => -1).

Lemma entries_nodes (lk : LK_GLOBAL Z) n :
  map_Forall (fun _ r => Forall (fun t => 1 <= t < n) (tran_index <$> holder r ++ waiter r)) (obj_hash_table lk) ->
  forall t k, entry_of t k lk <> None -> 1 <= t < n.
Proof.
  intros Hm t k. unfold entry_of. destruct (obj_hash_table lk !! k) as [r|] eqn:Er; [|done]. cbn.
  destruct (find_entry t (holder r ++ waiter r)) as [e|] eqn:E; [|done]. intros _.
  specialize (Hm k r Er). rewrite Forall_forall in Hm. apply Hm.
  destruct (find_entry_Some _ _ _ E) as [<- Hp]. rewrite Hp. apply list_elem_of_fmap_2. left.
Qed.

Definition crossed_waits : list WAIT := [mkWait 2 1 true 7; mkWait 1 2 true 7].

Lemma crossed_collect : (collect_waits (fun _ => 7) [1; 2] crossed).2 = crossed_waits.
Proof. by vm_compute. Qed.

Lemma crossed_deadlock : deadlock (fun _ => 5) crossed_waits crossed_waits.
Proof.
  split; [by exists (mkWait 1 2 true 7)|]. apply Forall_forall. intros w Hw. split; [done|].
  unfold crossed_waits in Hw. rewrite !elem_of_cons in Hw. unfold wait_live.
  destruct Hw as [->|[->|[]%not_elem_of_nil]]; cbn; lia.
Qed.

Lemma deadlock_detection_correct_witness :
  exists lk' g', lock_detect_local_deadlock all_active (true, true) None (fun _ => some_edge) quiet
                   (fun _ => 7) [1; 2] crossed (some_graph 10) = Some (lk', g')
    /\ victims g' <> [].
Proof.
  destruct (deadlock_detection_correct crossed (some_graph 10) all_active (true, true) None
              (fun _ => some_edge) (fun _ => 7) [1; 2]) as (lk' & g' & Hrun & _ & Hall).
  - apply crossed_reachable.
  - by apply (bool_decide_unpack _).
  - done.
  - apply entries_nodes, (bool_decide_unpack _). by vm_compute.
  - done.
  - by right.
  - exists lk', g'. split; [exact Hrun|]. intros E.
    rewrite crossed_collect in Hall.
    destruct (Hall (fun _ => eq_refl)) with (c := crossed_waits) as (x & Hx & _).
    + by rewrite E.
    + exact crossed_deadlock.
    + rewrite E in Hx. by apply not_elem_of_nil in Hx.
Defined.
