(* ===== verification/DeadlockFaults.v ===== *)
(** * Faults of the deadlock detection

    A deadlock that the wait-for graph does not show, the edge table after a
    failed allocation, and a search during which the waits change. *)
From Stdlib Require Import ZArith Lia ZifyBool.
From stdpp Require Import base list numbers gmap relations.
From S2P Require Import Prelude LockTable LockManager LockManagerInv LockManagerSteps LockManagerProps.
From S2P Require Import Deadlock DeadlockSearch DeadlockVictim DeadlockVisit DeadlockLoop DeadlockGraph.
From S2P Require Import DeadlockLocks DeadlockWaits DeadlockProps.

(** ** The edge table is lost *)

Section Lost.
Context (malloc : option (Z -> LK_WFG_EDGE)) (tt : TRAN_TABLE) (mem : bool * bool).

(** The state after the allocation of the large table has failed. *)
Record lost (g : TWFG) : Prop := {
  lost_count : edge_count g = 0;
  lost_free : TWFG_free_edge_idx g = -1;
  lost_max : max_TWFG_edge g <> LK_MIN_TWFG_EDGE_COUNT /\ max_TWFG_edge g <> LK_MID_TWFG_EDGE_COUNT;
  lost_nodes : forall i, is_node g i ->
    checked_by_deadlock_detector (TWFG_node g i) = true /\ DL_victim (TWFG_node g i) = false }.

(** Nodes that are no victims and not new: the part of lock_add_WFG_edge before
    the allocation only counts. *)
Lemma add_counts g w :
  (forall i, is_node g i ->
     checked_by_deadlock_detector (TWFG_node g i) = true /\ DL_victim (TWFG_node g i) = false) ->
  wait_ok g w ->
  let g1 := with_seq g (global_edge_seq_num g + 1) in
  lock_add_WFG_edge malloc g (w_from w) (w_to w) (w_holder w) (w_stime w) =
    ('(error, g) ← (if TWFG_free_edge_idx g1 =? -1 then grow_edges malloc g1 else Some (NO_ERROR, g1));
     if negb (error =? NO_ERROR) then Some (error, g)
     else g ← take_edge g (w_from w) (w_to w) (w_holder w) (w_stime w); Some (NO_ERROR, g)).
Proof.
  intros Hn (Hf & Ht & _) g1. unfold lock_add_WFG_edge.
  destruct (Hn _ Hf) as [Hc1 Hv1], (Hn _ Ht) as [Hc2 Hv2].
  rewrite node_in by done. obind. rewrite node_in by done. obind. rewrite Hv1, Hv2. cbn [orb].
  fold g1. unfold new_transaction. rewrite node_in by done. obind.
  change (TWFG_node g1) with (TWFG_node g). rewrite Hc1. obind. rewrite node_in by done. obind.
  change (TWFG_node g1) with (TWFG_node g). by rewrite Hc2.
Qed.

Lemma lost_edges g ws :
  lost g -> Forall (wait_ok g) ws ->
  exists g', add_edges malloc ws g = Some g' /\ lost g' /\ TWFG_node g' = TWFG_node g
    /\ num_trans g' = num_trans g.
Proof.
  revert g. induction ws as [|w ws IH]; intros g Hl Hws; [by exists g|].
  apply Forall_cons in Hws as [Hw Hws]. cbn [add_edges]. destruct Hl as [H1 H2 [H3 H4] H5].
  rewrite add_counts by done. cbn. rewrite H2. cbn. unfold grow_edges. cbn.
  replace (_ =? LK_MIN_TWFG_EDGE_COUNT) with false by lia.
  replace (_ =? LK_MID_TWFG_EDGE_COUNT) with false by lia. obind. cbn.
  destruct (IH (with_seq g (global_edge_seq_num g + 1))) as (g' & Hrun & Hl' & Hnode & HN); [by split|done|].
  by exists g'.
Qed.

(** The search reads the table at the first node that has edges. *)
Lemma lost_search fuel i g ks k :
  lost g -> (forall j, j ∈ ks -> is_node g j /\ thrd_wait_stime (TWFG_node g j) <> 0) ->
  k ∈ ks -> current (TWFG_node g k) <> -1 -> search tt mem quiet (S fuel) i g ks = None.
Proof.
  intros Hl. induction ks as [|j ks IH]; intros Hks Hk Hcur; [by apply not_elem_of_nil in Hk|].
  destruct (Hks j ltac:(left)) as [Hj Hst]. cbn [search]. rewrite node_in by done. obind.
  destruct (current (TWFG_node g j) =? -1) eqn:E.
  { apply IH; [|apply elem_of_cons in Hk as [->|?]; [lia|done]|done].
    intros j' Hj'. apply Hks. by right. }
  unfold mod_node. rewrite node_in by done. obind. cbn [search_from].
  replace (j =? -2) with false by (unfold is_node in Hj; lia). unfold visit, interfere, quiet. cbn [foldl].
  rewrite node_in by done. obind. unfold is_old. cbn. unfold upd. rewrite Z.eqb_refl. cbn.
  destruct (lost_nodes g Hl j Hj) as [-> _]. cbn [negb orb].
  replace (thrd_wait_stime (TWFG_node g j) =? 0) with false by lia. rewrite E.
  unfold edge. cbn. rewrite (lost_count g Hl). by replace (_ && _) with false by lia.
Qed.
End Lost.

(** ** Without memory the table does not grow beyond its second size *)

Definition table (g : TWFG) : Z * Z := (max_TWFG_edge g, edge_count g).

Lemma mod_node_table g i f g' : mod_node g i f = Some g' -> table g' = table g.
Proof. unfold mod_node. destruct (node g i); [|done]. by intros [= <-]. Qed.

Lemma mod_edge_table g i f g' : mod_edge g i f = Some g' -> table g' = table g.
Proof. unfold mod_edge. destruct (edge g i); [|done]. by intros [= <-]. Qed.

Lemma new_transaction_table g i g' : new_transaction g i = Some g' -> table g' = table g.
Proof.
  unfold new_transaction. destruct (node g i) as [n|]; [|done]. obind.
  destruct (checked_by_deadlock_detector n); [by intros [= <-]|].
  destruct (first_edge n =? -1); obind; [by apply mod_node_table|].
  destruct (last_edge _ g (first_edge n)) as [p|]; [|done]. obind.
  destruct (mod_edge g p _) as [g1|] eqn:E1; [|done]. obind.
  destruct (mod_node _ i _) as [g2|] eqn:E2; [|done]. obind. intros ->%mod_node_table.
  rewrite (mod_node_table _ _ _ _ E2). by apply mod_edge_table in E1.
Qed.

Lemma take_edge_table g i j b st g' : take_edge g i j b st = Some g' -> table g' = table g.
Proof.
  unfold take_edge. destruct (edge g _) as [e|]; [|done]. obind. destruct (node g i) as [n|]; [|done]. obind.
  destruct (mod_edge _ _ _) as [g1|] eqn:E1; [|done]. obind. intros ->%mod_node_table.
  by apply mod_edge_table in E1.
Qed.

(** The table is the static block, or NULL. *)
Definition static_table (g : TWFG) : Prop := max_TWFG_edge g <= LK_MID_TWFG_EDGE_COUNT \/ edge_count g = 0.

Lemma table_static g g' : table g' = table g -> static_table g -> static_table g'.
Proof. unfold static_table. by intros [= -> ->]. Qed.

Lemma grow_static g e g' : grow_edges None g = Some (e, g') -> static_table g -> static_table g'.
Proof.
  unfold grow_edges, static_table. destruct (max_TWFG_edge g =? _).
  { destruct (_ <=? _); [|done]. intros [= _ <-] _. by left. }
  destruct (max_TWFG_edge g =? _); intros [= _ <-]; [by right|done].
Qed.

Lemma add_static g i j b st e g' :
  lock_add_WFG_edge None g i j b st = Some (e, g') -> static_table g -> static_table g'.
Proof.
  unfold lock_add_WFG_edge. destruct (node g i) as [ni|]; [|done]. obind.
  destruct (node g j) as [nj|]; [|done]. obind. destruct (_ || _); [by intros [= _ <-]|].
  destruct (new_transaction _ i) as [g1|] eqn:E1; [|done]. obind.
  destruct (new_transaction g1 j) as [g2|] eqn:E2; [|done]. obind.
  destruct (if TWFG_free_edge_idx g2 =? -1 then _ else _) as [[e3 g3]|] eqn:E3; [|done]. obind. intros Hrun Hs.
  assert (static_table g3) as Hs3.
  { apply new_transaction_table in E1, E2. apply (table_static g1) in E2; [|by apply (table_static g) in E1].
    destruct (TWFG_free_edge_idx g2 =? -1); [by eapply grow_static|]. by injection E3 as _ <-. }
  destruct (negb _); [by injection Hrun as _ <-|].
  destruct (take_edge g3 i j b st) as [g4|] eqn:E4; [|done]. injection Hrun as _ <-.
  apply take_edge_table in E4. by apply (table_static g3).
Qed.

Lemma add_edges_static ws g g' : add_edges None ws g = Some g' -> static_table g -> static_table g'.
Proof.
  revert g. induction ws as [|w ws IH]; intros g; [by intros [= <-]|]. cbn [add_edges].
  destruct (lock_add_WFG_edge None g _ _ _ _) as [[e g1]|] eqn:E; [|done]. obind. intros Hrun Hs.
  apply (IH g1 Hrun). by eapply add_static.
Qed.

Lemma add_edges_app malloc ws ws' g :
  add_edges malloc (ws ++ ws') g = (g' ← add_edges malloc ws g; add_edges malloc ws' g').
Proof.
  revert g. induction ws as [|w ws IH]; intros g; [done|]. cbn [app add_edges].
  destruct (lock_add_WFG_edge malloc g _ _ _ _) as [[e g1]|]; [|done]. obind. apply IH.
Qed.

(** The call for the edge after the last one of the block. *)
Lemma full_lost g ws L F w :
  graph_of g ws L F -> static_table g -> Z.of_nat (length ws) = LK_MID_TWFG_EDGE_COUNT ->
  32 < num_trans g -> wait_ok g w ->
  exists e g', lock_add_WFG_edge None g (w_from w) (w_to w) (w_holder w) (w_stime w) = Some (e, g')
    /\ lost g' /\ TWFG_node g' = TWFG_node g /\ num_trans g' = num_trans g.
Proof.
  unfold static_table, LK_MID_TWFG_EDGE_COUNT. intros Hg Hs Hlen HN Hw.
  assert (forall i, is_node g i -> checked_by_deadlock_detector (TWFG_node g i) = true
            /\ DL_victim (TWFG_node g i) = false) as Hn.
  { intros i Hi. by destruct (gf_nodes _ _ _ _ Hg i Hi) as (? & ? & _). }
  rewrite add_counts by done. cbn zeta. pose proof (gf_count _ _ _ _ Hg) as Hc. pose proof (gf_array _ _ _ _ Hg) as Ha.
  unfold LK_MAX_TWFG_EDGE_COUNT, LK_MIN_TWFG_EDGE_COUNT, LK_MID_TWFG_EDGE_COUNT in Ha.
  assert (max_TWFG_edge g = 1000 /\ F = []) as [Em ->].
  { destruct F; cbn [length] in Hc; [split; [lia|done]|lia]. }
  pose proof (gf_free _ _ _ _ Hg) as Hf. cbn in Hf. cbn [with_seq TWFG_free_edge_idx]. rewrite Hf. cbn [Z.eqb].
  unfold grow_edges. cbn [with_seq max_TWFG_edge]. rewrite Em. cbn. eexists _, _. split; [done|].
  split; [|done]. split; cbn; [done|done| |exact Hn].
  unfold LK_MIN_TWFG_EDGE_COUNT, LK_MID_TWFG_EDGE_COUNT, LK_MAX_TWFG_EDGE_COUNT. cbn. nia.
Qed.

Lemma prepare_lost g : lost g -> lost (prepare_search g).
Proof.
  intros [H1 H2 H3 H4]. split; cbn; [done..|]. intros i Hi. destruct (H4 i Hi).
  by destruct ((1 <=? i) && (i <? num_trans g)).
Qed.

Lemma waiter_edge g ws L F w :
  graph_of g ws L F -> w ∈ ws -> is_node g (w_from w) -> first_edge (TWFG_node g (w_from w)) <> -1.
Proof.
  intros Hg Hw Hi. destruct (wait_edge_of g ws L F Hg w Hw Hi) as (e & He & _).
  pose proof (go_chain _ _ (gf_graph _ _ _ _ Hg) _ Hi) as Hc. destruct (L (w_from w)) as [|a l] eqn:EL.
  { by apply not_elem_of_nil in He. }
  destruct Hc as [-> _]. destruct (go_edge _ _ (gf_graph _ _ _ _ Hg) (w_from w) a Hi) as [? _]; [|lia].
  rewrite EL. left.
Qed.

(** With more than [LK_MID_TWFG_EDGE_COUNT] waits and no memory for the large
    table, the search dereferences NULL. *)
Lemma null_table tt mem block g ws :
  (forall i, is_node g i -> DL_victim (TWFG_node g i) = false /\ thrd_wait_stime (TWFG_node g i) <> 0) ->
  32 < num_trans g -> Forall (wait_ok g) ws -> LK_MID_TWFG_EDGE_COUNT < Z.of_nat (length ws) ->
  (g' ← add_edges None ws (initialize_graph block g); find_cycles tt mem quiet g') = None.
Proof.
  intros Hg HN Hok Hlen. unfold LK_MID_TWFG_EDGE_COUNT in Hlen.
  assert (length (take 1000 ws) = 1000%nat) as Ht by (rewrite length_take; lia).
  destruct (drop 1000 ws) as [|w ws2] eqn:Ed.
  { apply (f_equal length) in Ed. rewrite length_drop in Ed. cbn in Ed. lia. }
  rewrite <- (take_drop 1000 ws), Ed in Hok |- *. set (ws1 := take 1000 ws) in *.
  apply Forall_app in Hok as [Hok1 [Hw Hok2]%Forall_cons]. rewrite add_edges_app.
  destruct (build_graph None block g ws1) as (g1 & L & F & Hrun & Hg1 & HN1 & Hst); [by intros i Hi; apply Hg|done| |].
  { left. unfold LK_MID_TWFG_EDGE_COUNT. lia. }
  rewrite Hrun. obind. cbn [add_edges].
  assert (forall i, is_node g1 i <-> is_node g i) as Hn by (intros i; unfold is_node; by rewrite HN1).
  assert (forall w, wait_ok g w -> wait_ok g1 w) as Hok by (intros w'; unfold wait_ok; by rewrite !Hn).
  destruct (full_lost g1 ws1 L F w) as (e & g2 & -> & Hl & En & HN2); [done| | |lia|by apply Hok|].
  { apply (add_edges_static ws1 _ _ Hrun). left. done. }
  { unfold LK_MID_TWFG_EDGE_COUNT. lia. }
  obind. destruct (lost_edges None g2 ws2 Hl) as (g3 & -> & Hl3 & En3 & HN3).
  { eapply Forall_impl; [exact Hok2|]. intros w' Hw'%Hok. unfold wait_ok, is_node in *. by rewrite HN2. }
  obind. destruct ws1 as [|w0 ws1]; [done|]. apply Forall_cons in Hok1 as [Hw0 _].
  destruct (Hok w0 Hw0) as [Hi _]. pose proof (waiter_edge _ _ _ _ w0 Hg1 ltac:(left) Hi) as Hfe.
  unfold find_cycles, search_fuel. rewrite HN3, HN2, HN1, (lost_count g3 Hl3).
  replace (Z.to_nat _) with (S (Z.to_nat (3 * num_trans g))) by lia.
  assert (forall i, is_node g i -> current (TWFG_node (prepare_search g3) i) = first_edge (TWFG_node g1 i)
            /\ thrd_wait_stime (TWFG_node (prepare_search g3) i) = thrd_wait_stime (TWFG_node g i)) as Hp.
  { intros i Hin. cbn. rewrite HN3, HN2, HN1, En3, En, <- Hst. unfold is_node in Hin.
    by replace (_ && _) with true by lia. }
  apply (lost_search tt mem _ _ _ _ (w_from w0)); [by apply prepare_lost| | |].
  - intros j Hj%elem_of_seqZ. cbn [prepare_search with_nodes num_trans] in Hj.
    assert (is_node g j) as Hjn by (unfold is_node; lia). destruct (Hp j Hjn) as [_ ->]. split; [|by apply Hg].
    unfold is_node in *. cbn. lia.
  - apply elem_of_seqZ. unfold is_node in Hi. cbn. lia.
  - by destruct (Hp (w_from w0)) as [-> _]; [apply Hn|].
Qed.

(** ** Many waiters *)

(** Transaction 1 has the value exclusively and [ts] wait for it. *)
Definition queue (ts : list Z) : LK_GLOBAL Z :=
  mkGlobal
    {[ 1 := mkRes X_LOCK (match ts with [] => NULL_LOCK | _ => X_LOCK end)
              [lock_initialize_entry_as_granted 1 X_LOCK]
              ((fun t => lock_initialize_entry_as_blocked t X_LOCK) <$> ts) ]}
    {[ 1 := [1] ]}.

Lemma queue_find ts t :
  t ∉ ts -> find_entry t ((fun t => lock_initialize_entry_as_blocked t X_LOCK) <$> ts) = None.
Proof.
  intros Ht. apply find_entry_None. rewrite <- list_fmap_compose.
  by replace (_ <$> ts) with ts by (symmetry; apply list_fmap_id).
Qed.

Lemma queue_ask ts t : t ∉ 1 :: ts -> ask t 1 X_LOCK (queue ts) = queue (ts ++ [t]).
Proof.
  intros [H1 Ht]%not_elem_of_cons. unfold ask, lock_object, lock_internal_perform_lock_object.
  rewrite decide_False by done. cbn [obj_hash_table queue]. rewrite lookup_singleton_eq. cbn [holder find_entry].
  cbn [tran_index lock_initialize_entry_as_granted]. replace (1 =? t) with false by lia.
  unfold lock_new_request. cbn [total_holders_mode holder waiter]. rewrite queue_find by done. cbn.
  unfold queue. rewrite fmap_app. destruct ts; (f_equal; apply insert_singleton_eq).
Qed.

Lemma queue_runnable ts t : t ∉ 1 :: ts -> runnable t (queue ts).
Proof.
  intros [H1 Ht]%not_elem_of_cons k e. unfold entry_of. cbn [obj_hash_table queue].
  destruct (decide (k = 1)) as [->|Hk]; [|by rewrite lookup_singleton_ne].
  rewrite lookup_singleton_eq. obind. cbn [holder waiter app find_entry tran_index lock_initialize_entry_as_granted].
  replace (1 =? t) with false by lia. by rewrite queue_find.
Qed.

Lemma queue_reachable ts : NoDup (1 :: ts) -> rtc lk_step lock_initialize (queue ts).
Proof.
  induction ts as [|t ts IH] using rev_ind; intros Hn.
  { eapply rtc_r; [done|]. change (queue []) with (lock_object true true 1 1 X_LOCK (-1) (@lock_initialize Z _ _)).2.
    apply step_lock; [runs|done]. }
  apply (NoDup_app (1 :: ts) [t]) in Hn as (Hn & Hd & _).
  assert (t ∉ 1 :: ts) as Ht by (intros Hin; apply (Hd t Hin); left).
  rewrite <- queue_ask by done. eapply rtc_r; [by apply IH|]. by apply step_lock; [apply queue_runnable|].
Qed.

Lemma queue_waiters stime ts :
  (2 * length (among_waiters stime ((fun t => lock_initialize_entry_as_blocked t X_LOCK) <$> ts)) + length ts
   = length ts * length ts)%nat.
Proof.
  induction ts as [|t ts IH]; [done|]. rewrite fmap_cons. cbn [among_waiters length]. rewrite length_app.
  assert (length (((fun t => lock_initialize_entry_as_blocked t X_LOCK) <$> ts)
            ≫= waiter_to_waiter stime (lock_initialize_entry_as_blocked t X_LOCK)) = length ts) as ->.
  { clear IH. induction ts as [|t' ts IH]; [done|]. rewrite fmap_cons, bind_cons. rewrite length_app, IH. done. }
  lia.
Qed.

Lemma queue_waits stime ts :
  length ts = 48%nat -> LK_MID_TWFG_EDGE_COUNT < Z.of_nat (length (collect_waits stime [1] (queue ts)).2).
Proof.
  intros Hlen. cbn [collect_waits]. unfold repair_resource. cbn [obj_hash_table queue].
  rewrite !lookup_singleton_eq. cbn [holder]. cbn [snd obj_hash_table queue]. rewrite lookup_singleton_eq.
  rewrite app_nil_r. unfold resource_waits. cbn [holder waiter]. rewrite !length_app.
  pose proof (queue_waiters stime ts). unfold LK_MID_TWFG_EDGE_COUNT. nia.
Qed.

(** ** Properties *)

(** Every transaction that has or waits for a lock waits for one. *)
Definition standstill (lk : LK_GLOBAL Z) : Prop :=
  obj_hash_table lk <> ∅ /\ forall t k, entry_of t k lk <> None -> ~ runnable t lk.

(** 4 releases value 1, for which 1, 2 (update locks) and 3 (a shared lock)
    wait; 1 gets it and then waits for value 2, which 3 has. *)
Definition overlooked : LK_GLOBAL Z := Eval vm_compute in
  ask 1 2 X_LOCK (lock_unlock_object true 4 1 true
    (ask 3 1 S_LOCK (ask 2 1 U_LOCK (ask 1 1 U_LOCK (ask 3 2 X_LOCK (ask 4 1 X_LOCK lock_initialize)))))).

Lemma overlooked_reachable : rtc lk_step lock_initialize overlooked.
Proof.
  asks 4 1 X_LOCK. asks 3 2 X_LOCK. asks 1 1 U_LOCK. asks 2 1 U_LOCK. asks 3 1 S_LOCK.
  eapply rtc_l; [apply (step_unlock true 4 1 true); runs|normal_start]. asks 1 2 X_LOCK. done.
Qed.

Lemma blocked_not_runnable t k e (lk : LK_GLOBAL Z) : entry_of t k lk = Some e -> is_blocked e = true -> ~ runnable t lk.
Proof. intros He Hb Hr. specialize (Hr k e He). congruence. Qed.

Lemma overlooked_standstill : standstill overlooked.
Proof.
  split; [apply (bool_decide_unpack _); by vm_compute|]. intros t k Ht.
  assert (1 <= t < 4) as Hb.
  { revert t k Ht. apply entries_nodes, (bool_decide_unpack _). by vm_compute. }
  assert (t = 1 \/ t = 2 \/ t = 3) as [->|[->| ->]] by lia.
  - by eapply (blocked_not_runnable 1 2); [by vm_compute|].
  - by eapply (blocked_not_runnable 2 1); [by vm_compute|].
  - by eapply (blocked_not_runnable 3 1); [by vm_compute|].
Qed.

(** 1 waits for 2, 2 for 3, and 3 for 1 and 2. *)
Definition tangled : LK_GLOBAL Z := Eval vm_compute in
  ask 3 1 X_LOCK (ask 2 3 X_LOCK (ask 1 2 X_LOCK
    (ask 3 3 X_LOCK (ask 2 2 X_LOCK (ask 1 1 S_LOCK (ask 2 1 S_LOCK lock_initialize)))))).

Lemma tangled_reachable : rtc lk_step lock_initialize tangled.
Proof.
  asks 2 1 S_LOCK. asks 1 1 S_LOCK. asks 2 2 X_LOCK. asks 3 3 X_LOCK.
  asks 1 2 X_LOCK. asks 2 3 X_LOCK. asks 3 1 X_LOCK. done.
Qed.

(** The thread of 2 is resumed before the third iteration of the search. *)
Definition resumed (i : nat) : list (Z * (bool * Z)) := match i with 2%nat => [(2, (true, 0))] | _ => [] end.

(** A run without memory for the large table, on nodes that wait since 5. *)
Definition detect (env : nat -> list (Z * (bool * Z))) (ks : list Z) (lk : LK_GLOBAL Z) (n : Z) :=
  lock_detect_local_deadlock all_active (true, true) None (fun _ => some_edge) env (fun _ => 7) ks lk (some_graph n).

Lemma queue_nodes ts t :
  Forall (fun t => 1 <= t < 50) ts ->
  t ∈ tran_index <$> [lock_initialize_entry_as_granted 1 X_LOCK]
        ++ ((fun t => lock_initialize_entry_as_blocked t X_LOCK) <$> ts) -> is_node (some_graph 50) t.
Proof.
  intros Hts. rewrite fmap_app, elem_of_app, <- list_fmap_compose. unfold is_node. cbn.
  intros [->%list_elem_of_singleton|(t' & -> & Ht)%list_elem_of_fmap]; [lia|].
  rewrite Forall_forall in Hts. by apply Hts.
Qed.

Lemma queue_detect ts :
  length ts = 48%nat -> NoDup (1 :: ts) -> Forall (fun t => 1 <= t < 50) ts -> detect quiet [1] (queue ts) 50 = None.
Proof.
  intros Hlen Hn Hts. unfold detect, lock_detect_local_deadlock.
  destruct (reachable_one_wait _ (queue_reachable ts Hn)) as [Hlk Ho].
  pose proof (queue_waits (fun _ => 7) ts Hlen) as Hc.
  pose proof (collect_ok (fun _ => 7) [1] (queue ts) Hlk Ho ltac:(by apply NoDup_singleton)) as Hcol.
  destruct (collect_waits _ [1] (queue ts)) as [lk ws]. cbn [snd] in Hc.
  destruct Hcol as (Hlk' & Ho' & -> & _ & Hent).
  assert (Forall (wait_ok (some_graph 50)) ([1] ≫= waits_at (fun _ => 7) lk)) as Hok.
  { apply (collected_wait_ok lk Hlk'). intros k r t Hr Htr.
    destruct (Hent k r t Hr Htr) as (r0 & Hr0 & Hin).
    cbn [obj_hash_table queue] in Hr0. apply lookup_singleton_Some in Hr0 as [_ <-]. by apply (queue_nodes ts). }
  pose proof (null_table all_active (true, true) (fun _ => some_edge) (some_graph 50) _
                ltac:(by split) ltac:(done) Hok Hc) as Hnull.
  destruct (add_edges _ _ _) as [g1|]; [|done]. cbn in Hnull |- *. by rewrite Hnull.
Qed.

(** C38: where deadlock detection fails.  A reachable lock table at a standstill
    has no victim: a waiter behind an incompatible one waits for it without an
    edge.  When the memory for more than 1000 edges is missing, the search
    dereferences NULL.  When the thread of a transaction on the path is resumed
    during the search, the choice of the victim reads before the edge table. *)
Theorem deadlock_faults :
  (exists lk, rtc lk_step lock_initialize lk /\ standstill lk
     /\ exists lk' g', detect quiet [1; 2] lk 10 = Some (lk', g') /\ victims g' = [])
  /\ (exists lk, rtc lk_step lock_initialize lk /\ detect quiet [1] lk 50 = None)
  /\ (exists lk, rtc lk_step lock_initialize lk /\ detect resumed [1; 2; 3] lk 10 = None).
Proof.
  split_and!.
  - exists overlooked. split; [apply overlooked_reachable|]. split; [apply overlooked_standstill|].
    assert (victims ∘ snd <$> detect quiet [1; 2] overlooked 10 = Some []) as Hd by by vm_compute.
    destruct (detect quiet [1; 2] overlooked 10) as [[lk' g']|]; [|done]. exists lk', g'. by injection Hd as Hd.
  - exists (queue (seqZ 2 48)). assert (NoDup (1 :: seqZ 2 48)) as Hn by by apply (bool_decide_unpack _).
    split; [by apply queue_reachable|]. apply queue_detect; [done|done|].
    apply Forall_forall. intros t Ht%elem_of_seqZ. lia.
  - exists tangled. split; [apply tangled_reachable|]. by vm_compute.
Qed.
