(* ===== verification/Numeric.v ===== *)
(** * Exact numeric values (src/query/numeric_opfunc.c): data and operations

    A value of the SQL type NUMERIC(p, s) is a two's complement integer of 16
    bytes, most significant byte first, with a precision and a scale.  A
    DB_C_NUMERIC is the list of its bytes; a long NUMERIC of the division has
    32 of them.  The flag is_long_num of the C functions only says how long
    the buffer is, which is the length of the list here.  A loop that runs from
    the last byte to the first is a recursion that handles the tail of the list
    before its head.  C functions that write their result through a pointer
    return it. *)
From Stdlib Require Import ZArith Lia ZifyBool.
From stdpp Require Import base list numbers.
From S2P Require Import Prelude.

Definition ER_NUM_OVERFLOW : Z := -693.
Definition ER_OBJ_INVALID_ARGUMENTS : Z := -204.
Definition ER_INVALID_PRECISION : Z := -649.
Definition DOMAIN_INCOMPATIBLE : Z := 1.

Definition DB_MAX_NUMERIC_PRECISION : Z := 38.
Definition DB_DEFAULT_NUMERIC_DIVISION_SCALE : Z := 9.
Definition DB_NUMERIC_BUF_SIZE : nat := 16.
Definition DB_LONG_NUMERIC_MULTIPLIER : nat := 2.
Definition TWICE_NUM_MAX_PREC : nat := 76.

Definition CARRYOVER (arg : Z) : Z := Z.shiftr arg 8.
Definition GET_LOWER_BYTE (arg : Z) : Z := Z.land arg 255.

Notation NUM := (list Z).

(** arg[i]. *)
Definition byte_at (arg : NUM) (i : nat) : Z := default 0 (arg !! i).

(** ** Bytes *)

Definition numeric_is_negative (arg : NUM) : bool := negb (Z.land (byte_at arg 0) 128 =? 0).

Definition numeric_copy (source : NUM) : NUM := take DB_NUMERIC_BUF_SIZE source.

Fixpoint increase_loop (answer : NUM) : NUM * bool :=
  match answer with
  | [] => ([], true)
  | b :: answer =>
      let '(answer, carry) := increase_loop answer in
      if carry then let b := uwrap 8 (b + 1) in (b :: answer, b =? 0) else (b :: answer, false)
  end.

Definition numeric_increase_long (answer : NUM) : NUM := (increase_loop answer).1.
Definition numeric_increase (answer : NUM) : NUM := numeric_increase_long answer.

Fixpoint decrease_loop (answer : NUM) : NUM * bool :=
  match answer with
  | [] => ([], true)
  | b :: answer =>
      let '(answer, carry) := decrease_loop answer in
      if carry then let b := uwrap 8 (b - 1) in (b :: answer, b =? 255) else (b :: answer, false)
  end.

Definition numeric_decrease (answer : NUM) : NUM := (decrease_loop answer).1.

Definition numeric_zero (size : nat) : NUM := replicate size 0.
Definition numeric_negative_one (size : nat) : NUM := replicate size 255.

(** The loop over one operand of numeric_double_shift_bit; [fill] are the bits
    that come in at the end. *)
Fixpoint shift_loop (numbits fill : Z) (arg : NUM) : NUM :=
  match arg with
  | [] => []
  | b :: rest =>
      let carry := match rest with [] => fill | next :: _ => Z.shiftr next (8 - numbits) end in
      uwrap 8 (Z.lor (Z.shiftl b numbits) carry) :: shift_loop numbits fill rest
  end.

(** The pair (lsb, msb). *)
Definition numeric_double_shift_bit (arg1 arg2 : NUM) (numbits : Z) : NUM * NUM :=
  (shift_loop numbits 0 arg1,
   shift_loop numbits (Z.shiftr (byte_at arg1 0) (8 - numbits)) arg2).

Fixpoint numeric_compare_pos (arg1 arg2 : NUM) : Z :=
  match arg1, arg2 with
  | x :: arg1, y :: arg2 =>
      if negb (x =? y) then if x >? y then 1 else -1 else numeric_compare_pos arg1 arg2
  | _, _ => 0
  end.

Definition numeric_negate_long (answer : NUM) : NUM :=
  numeric_increase_long ((fun b => uwrap 8 (Z.lnot b)) <$> answer).
Definition numeric_negate (answer : NUM) : NUM := numeric_negate_long answer.

Definition numeric_shift_byte (arg : NUM) (numbytes : Z) (len : nat) : NUM :=
  let first := Z.of_nat len - Z.of_nat DB_NUMERIC_BUF_SIZE - numbytes in
  let last := Z.of_nat len - numbytes - 1 in
  (fun digit =>
     if (first <=? Z.of_nat digit) && (Z.of_nat digit <=? last)
     then byte_at arg (Z.to_nat (Z.of_nat digit - first)) else 0) <$> seq 0 len.

Definition numeric_is_zero (arg : NUM) : bool :=
  forallb (fun b => b =? 0) (take DB_NUMERIC_BUF_SIZE arg).

(** The test of numeric_is_long and numeric_is_bigint for [size] low bytes. *)
Definition sign_extended (arg : NUM) (size : nat) : bool :=
  let pad := byte_at arg 0 in
  if negb (pad =? 255) && negb (pad =? 0) then false
  else if forallb (fun digit => byte_at arg digit =? pad) (seq 1 (DB_NUMERIC_BUF_SIZE - size - 1))
  then Z.land (byte_at arg (DB_NUMERIC_BUF_SIZE - size)) 128 =? Z.land pad 128
  else false.

Definition numeric_is_long (arg : NUM) : bool := sign_extended arg 4.
Definition numeric_is_bigint (arg : NUM) : bool := sign_extended arg 8.

Definition numeric_is_bit_set (arg : NUM) (pos : nat) : bool :=
  negb (Z.land (byte_at arg (pos / 8)) (Z.shiftl 1 (7 - Z.of_nat (pos mod 8))) =? 0).

(** ** Arithmetic *)

(** The answer and the last answer_bit. *)
Fixpoint add_loop (arg1 arg2 : NUM) : NUM * Z :=
  match arg1, arg2 with
  | x :: arg1, y :: arg2 =>
      let '(answer, answer_bit) := add_loop arg1 arg2 in
      let answer_bit := x + y + CARRYOVER answer_bit in
      (GET_LOWER_BYTE answer_bit :: answer, answer_bit)
  | _, _ => ([], 0)
  end.

Definition numeric_add (arg1 arg2 : NUM) (size : nat) : NUM :=
  (add_loop (take size arg1) (take size arg2)).1.

Definition numeric_sub (arg1 arg2 : NUM) (size : nat) : NUM :=
  numeric_add arg1 (numeric_negate (numeric_copy arg2)) size.

(** A row of the multiplication: [m] times a number. *)
Fixpoint mul_loop (m : Z) (arg : NUM) : NUM * Z :=
  match arg with
  | [] => ([], 0)
  | b :: arg =>
      let '(answer, answer_bit) := mul_loop m arg in
      let answer_bit := m * b + CARRYOVER answer_bit in
      (GET_LOWER_BYTE answer_bit :: answer, answer_bit)
  end.

(** The loop over the digits of the second operand, last digit first. *)
Fixpoint mul_rows (arg1 digits2 : NUM) (shift : Z) (answer : NUM) : NUM :=
  match digits2 with
  | [] => answer
  | d :: digits2 =>
      let answer :=
        if negb (d =? 0) then
          let temp_arg1 := numeric_shift_byte arg1 shift (2 * DB_NUMERIC_BUF_SIZE) in
          numeric_add (mul_loop d temp_arg1).1 answer (2 * DB_NUMERIC_BUF_SIZE)
        else answer in
      mul_rows arg1 digits2 (shift + 1) answer
  end.

(** The sign and the product of the absolute values. *)
Definition numeric_mul (a1 a2 : NUM) : bool * NUM :=
  let answer := numeric_zero (2 * DB_NUMERIC_BUF_SIZE) in
  if numeric_is_zero a1 || numeric_is_zero a2 then (true, answer)
  else
    let arg1 := numeric_copy a1 in
    let arg2 := numeric_copy a2 in
    let '(arg1, positive_ans) :=
      if numeric_is_negative arg1 then (numeric_negate arg1, false) else (arg1, true) in
    let '(arg2, positive_ans) :=
      if numeric_is_negative arg2 then (numeric_negate arg2, negb positive_ans)
      else (arg2, positive_ans) in
    let temp_arg2 := numeric_zero DB_NUMERIC_BUF_SIZE ++ numeric_copy arg2 in
    (positive_ans, mul_rows arg1 (reverse temp_arg2) 0 answer).

Definition numeric_coerce_int_to_num (arg : Z) : NUM :=
  let pad := if arg >=? 0 then 0 else 255 in
  replicate (DB_NUMERIC_BUF_SIZE - 4) pad
  ++ ((fun i => Z.land (Z.shiftr arg (8 * i)) 255) <$> [3; 2; 1; 0]).

Definition numeric_coerce_bigint_to_num (arg : Z) : NUM :=
  let pad := if arg >=? 0 then 0 else 255 in
  replicate (DB_NUMERIC_BUF_SIZE - 8) pad
  ++ ((fun i => Z.land (Z.shiftr arg (8 * i)) 255) <$> [7; 6; 5; 4; 3; 2; 1; 0]).

(** The int is stored in 32 bits.  Both overflow values are the ones the
    expressions of the source have: ~0 and ~0 >> 1 on a signed int. *)
Definition numeric_coerce_num_to_int (arg : NUM) : Z :=
  let pad := if numeric_is_negative arg then 255 else 0 in
  if forallb (fun digit => byte_at arg digit =? pad) (seq 1 (DB_NUMERIC_BUF_SIZE - 5))
  then
    swrap 32 (byte_at arg 15 + Z.shiftl (byte_at arg 14) 8 + Z.shiftl (byte_at arg 13) 16
              + Z.shiftl (byte_at arg 12) 24)
  else if pad =? 255 then Z.lnot 0 else Z.shiftr (Z.lnot 0) 1.

(** The division loop: [n] bits are left. *)
Fixpoint div_loop (n : nat) (arg2 neg_arg2 answer remainder : NUM) : NUM * NUM :=
  match n with
  | O => (answer, remainder)
  | S n =>
      let '(answer, remainder) := numeric_double_shift_bit answer remainder 1 in
      if numeric_compare_pos remainder arg2 >=? 0 then
        div_loop n arg2 neg_arg2
          (alter (fun b => uwrap 8 (b + 1)) (length answer - 1)%nat answer)
          (numeric_add remainder neg_arg2 DB_NUMERIC_BUF_SIZE)
      else div_loop n arg2 neg_arg2 answer remainder
  end.

(** Quotient and remainder. *)
Definition numeric_long_div (a1 a2 : NUM) : NUM * NUM :=
  let total_bit := (length a1 * 8)%nat in
  let '(arg1, neg_sign, neg_remainder) :=
    if numeric_is_negative a1 then (numeric_negate_long a1, true, true) else (a1, false, false) in
  let '(arg2, neg_sign) :=
    if numeric_is_negative a2 then (numeric_negate (numeric_copy a2), negb neg_sign)
    else (numeric_copy a2, neg_sign) in
  let '(answer, remainder) :=
    div_loop total_bit arg2 (numeric_negate arg2) arg1 (numeric_coerce_int_to_num 0) in
  (if neg_sign : bool then numeric_negate_long answer else answer,
   if neg_remainder : bool then numeric_negate remainder else remainder).

(** The eight low bytes of a number as a signed integer. *)
Definition low_bigint (arg : NUM) : Z :=
  swrap 64 (foldl (fun acc b => acc * 256 + b) 0 (drop (DB_NUMERIC_BUF_SIZE - 8) arg)).

(** The answer and the remainder; [out] is what both buffers hold before the
    call.  None is the trap of the machine division when the quotient of the
    two integers is out of range. *)
Definition numeric_div (arg1 arg2 : NUM) (out : NUM * NUM) : option (NUM * NUM) :=
  if numeric_is_zero arg2 then Some out
  else if numeric_is_zero arg1
  then Some (numeric_coerce_int_to_num 0, numeric_coerce_int_to_num 0)
  else if numeric_is_long arg1 && numeric_is_long arg2 then
    let long_arg1 := numeric_coerce_num_to_int arg1 in
    let long_arg2 := numeric_coerce_num_to_int arg2 in
    if (long_arg1 =? - 2 ^ 31) && (long_arg2 =? -1) then None
    else
      Some (numeric_coerce_int_to_num (Z.quot long_arg1 long_arg2),
            numeric_coerce_int_to_num (Z.rem long_arg1 long_arg2))
  else if numeric_is_bigint arg1 && numeric_is_bigint arg2 then
    let bi_arg1 := low_bigint arg1 in
    let bi_arg2 := low_bigint arg2 in
    if (bi_arg1 =? - 2 ^ 63) && (bi_arg2 =? -1) then None
    else
      Some (numeric_coerce_bigint_to_num (Z.quot bi_arg1 bi_arg2),
            numeric_coerce_bigint_to_num (Z.rem bi_arg1 bi_arg2))
  else Some (numeric_long_div arg1 arg2).

Definition numeric_is_longnum_value (arg : NUM) : bool :=
  let total_nums := ((DB_LONG_NUMERIC_MULTIPLIER - 1) * DB_NUMERIC_BUF_SIZE)%nat in
  if numeric_is_negative arg
  then negb (forallb (fun b => b =? 255) (take total_nums arg))
       || (Z.land (byte_at arg total_nums) 128 =? 0)
  else negb (forallb (fun b => b =? 0) (take total_nums arg))
       || negb (Z.land (byte_at arg total_nums) 128 =? 0).

Definition numeric_shortnum_to_longnum (arg : NUM) : NUM :=
  (if numeric_is_negative arg then numeric_negative_one DB_NUMERIC_BUF_SIZE
   else numeric_zero DB_NUMERIC_BUF_SIZE) ++ numeric_copy arg.

(** The status and the number, which is not written on overflow. *)
Definition numeric_longnum_to_shortnum (long_arg : NUM) : Z * option NUM :=
  if numeric_is_longnum_value long_arg then (ER_NUM_OVERFLOW, None)
  else (NO_ERROR, Some (numeric_copy (drop DB_NUMERIC_BUF_SIZE long_arg))).

Definition numeric_compare (arg1 arg2 : NUM) : Z :=
  match numeric_is_negative arg1, numeric_is_negative arg2 with
  | false, true => 1
  | true, false => -1
  | false, false => numeric_compare_pos arg1 arg2
  | true, true =>
      - numeric_compare_pos (numeric_negate (numeric_copy arg1))
          (numeric_negate (numeric_copy arg2))
  end.

Definition numeric_scale_by_ten (arg : NUM) : Z * NUM :=
  let negative := numeric_is_negative arg in
  let arg := if negative then numeric_negate_long arg else arg in
  let arg := (mul_loop 10 arg).1 in
  if byte_at arg 0 >? 127 then (ER_NUM_OVERFLOW, arg)
  else (NO_ERROR, if negative then numeric_negate_long arg else arg).

(** [dscale] times ten, until it fails. *)
Fixpoint scale_loop (dscale : nat) (answer : NUM) : Z * NUM :=
  match dscale with
  | O => (NO_ERROR, answer)
  | S dscale =>
      let '(ret, answer) := numeric_scale_by_ten answer in
      if ret =? NO_ERROR then scale_loop dscale answer else (ret, answer)
  end.

Definition numeric_scale_dec_long (answer : NUM) (dscale : Z) : Z * NUM :=
  scale_loop (Z.to_nat dscale) answer.

(** For dscale >= 0, as every caller has it. *)
Definition numeric_scale_dec (arg : NUM) (dscale : Z) : Z * NUM :=
  numeric_scale_dec_long (numeric_copy arg) dscale.

(** ** Powers of ten and decimal strings *)

(** numeric_init_pow_of_10_helper: each element is ten times the one before;
    the status of the scaling is not looked at. *)
Fixpoint pow_of_10_loop (n : nat) (prior : NUM) : list NUM :=
  match n with
  | O => []
  | S n => let next := (numeric_scale_dec prior 1).2 in next :: pow_of_10_loop n next
  end.

Definition powers_of_10 : list NUM :=
  let one := numeric_zero (DB_NUMERIC_BUF_SIZE - 1) ++ [1] in
  one :: pow_of_10_loop TWICE_NUM_MAX_PREC one.

Definition numeric_get_pow_of_10 (exp : Z) : NUM := default [] (powers_of_10 !! Z.to_nat exp).

Definition numeric_overflow (arg : NUM) (exp : Z) : bool :=
  let narg := if numeric_is_negative arg then numeric_negate (numeric_copy arg) else arg in
  numeric_compare_pos narg (numeric_get_pow_of_10 exp) >=? 0.

(** A DEC_STRING has 76 digits; unused leading digits are -1. *)
Notation DEC_STRING := (list Z).

Definition fast_mod : list Z := [0; 1; 2; 3; 4; 5; 6; 7; 8; 9; 0; 1; 2; 3; 4; 5; 6; 7; 8; 9].

Definition numeric_init_dec_str : DEC_STRING := replicate (TWICE_NUM_MAX_PREC - 1) (-1) ++ [0].

(** The loop of numeric_add_dec_str: the digits of the answer, the last
    answer_bit and whether the loop has been left. *)
Fixpoint add_dec_loop (arg1 arg2 answer : DEC_STRING) : DEC_STRING * Z * bool :=
  match arg1, arg2, answer with
  | arg1_dec :: arg1, arg2_dec :: arg2, old :: answer =>
      let '(answer, answer_bit, over) := add_dec_loop arg1 arg2 answer in
      if over : bool then (old :: answer, answer_bit, true)
      else if (arg1_dec =? -1) && (answer_bit <? 10) then (old :: answer, answer_bit, true)
      else
        let arg1_dec := if arg1_dec =? -1 then 0 else arg1_dec in
        let arg2_dec := if arg2_dec =? -1 then 0 else arg2_dec in
        let answer_bit := arg1_dec + arg2_dec + (if answer_bit >=? 10 then 1 else 0) in
        (default 0 (fast_mod !! Z.to_nat answer_bit) :: answer, answer_bit, false)
  | _, _, _ => ([], 0, false)
  end.

Definition numeric_add_dec_str (arg1 arg2 answer : DEC_STRING) : DEC_STRING :=
  (add_dec_loop arg1 arg2 answer).1.1.

(** numeric_init_pow_of_2_helper: each element is twice the one before. *)
Fixpoint pow_of_2_loop (n : nat) (prior : DEC_STRING) : list DEC_STRING :=
  match n with
  | O => []
  | S n =>
      let next := numeric_add_dec_str prior prior numeric_init_dec_str in
      next :: pow_of_2_loop n next
  end.

Definition powers_of_2 : list DEC_STRING :=
  let one := replicate (TWICE_NUM_MAX_PREC - 1) (-1) ++ [1] in
  one :: pow_of_2_loop (DB_NUMERIC_BUF_SIZE * 16 - 1) one.

Definition numeric_get_pow_of_2 (exp : nat) : DEC_STRING := default [] (powers_of_2 !! exp).

(** The characters of a C string without its terminating null. *)
Notation STRING := (list Z).
Definition chr_0 : Z := 48.
Definition chr_minus : Z := 45.

(** One step of the loops over the bits of a number of [bits] bits. *)
Definition add_bit (num : NUM) (bits : nat) (result : DEC_STRING) (i : nat) : DEC_STRING :=
  if numeric_is_bit_set num i
  then numeric_add_dec_str (numeric_get_pow_of_2 (bits - i - 1)) result result
  else result.

(** result.digits[i] + '0', with -1 for 0. *)
Definition dec_chars (result : DEC_STRING) : STRING :=
  (fun d => (if d =? -1 then 0 else d) + chr_0) <$> result.

Definition numeric_coerce_big_num_to_dec_str (num : NUM) : STRING :=
  let bits := (DB_NUMERIC_BUF_SIZE * 16)%nat in
  dec_chars (foldl (add_bit num bits) numeric_init_dec_str (seq 0 bits)).

Definition numeric_coerce_num_to_dec_str (num : NUM) : STRING :=
  let bits := (DB_NUMERIC_BUF_SIZE * 8)%nat in
  let negative := numeric_is_negative num in
  let local_num := if negative then numeric_negate (numeric_copy num) else numeric_copy num in
  let result :=
    foldl
      (fun result i =>
         if byte_at local_num i =? 0 then result
         else foldl (add_bit local_num bits) result (seq (8 * i) 8))
      numeric_init_dec_str (seq 0 DB_NUMERIC_BUF_SIZE) in
  (if negative then [chr_minus] else []) ++ dec_chars result.

Definition is_digit (c : Z) : bool := (chr_0 <=? c) && (c <=? chr_0 + 9).

(** atol on a string that starts with a digit. *)
Fixpoint atol_from (acc : Z) (s : STRING) : Z :=
  match s with
  | [] => acc
  | c :: s => if is_digit c then atol_from (acc * 10 + (c - chr_0)) s else acc
  end.
Definition atol (s : STRING) : Z := atol_from 0 s.

(** The loop of numeric_coerce_dec_str_to_num; [done] digits at the end of the
    string have been read and [n] is at least the number of chunks left. *)
Fixpoint chunk_loop (n : nat) (dec_str : STRING) (done : nat) (result : NUM) : NUM :=
  match n with
  | O => result
  | S n =>
      let rest := (length dec_str - done)%nat in
      if (rest =? 0)%nat then result
      else
        let ndigits := Nat.min rest 9 in
        let chunk_value := atol (take ndigits (drop (rest - ndigits) dec_str)) in
        let result :=
          if negb (chunk_value =? 0) then
            let big_chunk := numeric_coerce_int_to_num chunk_value in
            let big_chunk :=
              if negb (done =? 0)%nat then (numeric_scale_dec big_chunk (Z.of_nat done)).2
              else big_chunk in
            numeric_add big_chunk result DB_NUMERIC_BUF_SIZE
          else result in
        chunk_loop n dec_str (done + 9) result
  end.

Definition numeric_coerce_dec_str_to_num (dec_str : STRING) : NUM :=
  let result := numeric_zero DB_NUMERIC_BUF_SIZE in
  let is_negative := match dec_str with c :: _ => c =? chr_minus | [] => false end in
  let dec_str := if is_negative then drop 1 dec_str else dec_str in
  let result := chunk_loop (length dec_str) dec_str 0 result in
  if is_negative then numeric_negate result else result.
