(* ===== verification/NumericValue.v ===== *)
(** * Exact numeric values: operations on DB_VALUE

    Conversions between precisions and scales, and the arithmetic on database
    values of numeric_opfunc.c.  A pointer to a DB_VALUE is an option, None for
    NULL; the pointer to the answer is never NULL, and the answer is returned
    behind the status. *)
From Stdlib Require Import ZArith Lia ZifyBool.
From stdpp Require Import base list numbers.
From S2P Require Import Prelude Numeric.

Inductive DB_TYPE :=
| DB_TYPE_NULL | DB_TYPE_INTEGER | DB_TYPE_DOUBLE | DB_TYPE_VARCHAR | DB_TYPE_OBJECT
| DB_TYPE_SEQUENCE | DB_TYPE_TIME | DB_TYPE_DATE | DB_TYPE_VARIABLE | DB_TYPE_SUB | DB_TYPE_OID
| DB_TYPE_NUMERIC | DB_TYPE_VARBIT | DB_TYPE_RESULTSET | DB_TYPE_TABLE | DB_TYPE_BIGINT
| DB_TYPE_DATETIME.

#[export] Instance DB_TYPE_eq_dec : EqDecision DB_TYPE.
Proof. solve_decision. Defined.

(** The fields of a DB_VALUE that these functions use: domain.numeric_info,
    data.num, and data.i or data.bigint.  Precision and scale are unsigned chars. *)
Record DB_VALUE := mkValue {
  is_null : bool;
  type : DB_TYPE;
  precision : Z;
  scale : Z;
  num : NUM;
  int : Z }.

Definition DB_DEFAULT_PRECISION : Z := -1.
Definition DB_DEFAULT_SCALE : Z := -1.

Definition DB_IS_NULL (v : option DB_VALUE) : bool :=
  match v with Some v => is_null v | None => true end.

(** DB_VALUE_TYPE (v) == DB_TYPE_NUMERIC. *)
Definition is_numeric (v : DB_VALUE) : bool :=
  negb (is_null v) && bool_decide (type v = DB_TYPE_NUMERIC).

Definition DB_MAKE_NULL : DB_VALUE := mkValue true DB_TYPE_NULL 0 0 [] 0.
Definition DB_MAKE_INTEGER (i : Z) : DB_VALUE := mkValue false DB_TYPE_INTEGER 0 0 [] i.

Definition IS_INVALID_PRECISION (p m : Z) : bool :=
  negb (p =? DB_DEFAULT_PRECISION) && ((p <=? 0) || (p >? m)).

(** For the type DB_TYPE_NUMERIC. *)
Definition db_value_domain_init (precision scale : Z) : Z * DB_VALUE :=
  if IS_INVALID_PRECISION precision DB_MAX_NUMERIC_PRECISION
  then (ER_INVALID_PRECISION, mkValue true DB_TYPE_NUMERIC DB_MAX_NUMERIC_PRECISION 0 [] 0)
  else
    (NO_ERROR,
     mkValue true DB_TYPE_NUMERIC
       (uwrap 8 (if precision =? DB_DEFAULT_PRECISION then DB_MAX_NUMERIC_PRECISION else precision))
       (uwrap 8 (if scale =? DB_DEFAULT_SCALE then 0 else scale)) [] 0).

Definition db_make_numeric (n : NUM) (prec scal : Z) : Z * DB_VALUE :=
  let '(error, value) := db_value_domain_init prec scal in
  if negb (error =? NO_ERROR) then (error, value)
  else (error, mkValue false DB_TYPE_NUMERIC (precision value) (scale value) (numeric_copy n) 0).

(** The answer of every operation that fails. *)
Definition numeric_null : DB_VALUE :=
  (db_value_domain_init DB_DEFAULT_PRECISION DB_DEFAULT_SCALE).2.

(** ** Change of precision and scale *)

Definition digit_1_to_9 (c : Z) : bool := (chr_0 + 1 <=? c) && (c <=? chr_0 + 9).

(** numeric_coerce_num_to_num: the decimal string scaled to [dest_scale], and
    whether it is to be rounded up. *)
Definition rescale (num_string : STRING) (src_scale dest_scale : Z) : STRING * bool :=
  if src_scale <? dest_scale
  then (num_string ++ replicate (Z.to_nat (dest_scale - src_scale)) chr_0, false)
  else if dest_scale <? src_scale then
    let len := (length num_string - Z.to_nat (src_scale - dest_scale))%nat in
    let c := byte_at num_string len in
    (take len num_string, (chr_0 + 5 <=? c) && (c <=? chr_0 + 9))
  else (num_string, false).

(** The status and the number, which is only of use when the status is
    NO_ERROR. *)
Definition numeric_coerce_num_to_num (src_num : NUM) (src_prec src_scale dest_prec dest_scale : Z)
    : Z * NUM :=
  if (src_prec <=? dest_prec) && (src_scale =? dest_scale) then (NO_ERROR, numeric_copy src_num)
  else
    let negate_answer := numeric_is_negative src_num in
    let dest_num :=
      if negate_answer then numeric_negate (numeric_copy src_num) else numeric_copy src_num in
    let '(num_string, round_up) :=
      rescale (numeric_coerce_num_to_dec_str dest_num) src_scale dest_scale in
    let len := (length num_string - Z.to_nat dest_prec)%nat in
    if existsb digit_1_to_9 (take len num_string) then (ER_NUM_OVERFLOW, dest_num)
    else if round_up && forallb (fun c => c =? chr_0 + 9) (drop len num_string)
    then (ER_NUM_OVERFLOW, dest_num)
    else
      let dest_num := numeric_coerce_dec_str_to_num num_string in
      let dest_num := if round_up then numeric_increase dest_num else dest_num in
      (NO_ERROR, if negate_answer then numeric_negate dest_num else dest_num).

(** The do-while loop; [fuel] is at least the number of digits. *)
Fixpoint digit_loop (fuel : nat) (n i : Z) : Z :=
  match fuel with
  | O => n
  | S fuel =>
      let n := n + 1 in
      let i := Z.quot i 10 in
      if negb (i =? 0) then digit_loop fuel n i else n
  end.

(** A DB_BIGINT has at most 19 digits. *)
Definition get_significant_digit (i : Z) : Z := digit_loop 20 0 i.

Inductive DB_DATA_STATUS := DATA_STATUS_OK | DATA_STATUS_TRUNCATED.

(** The switch of numeric_db_value_coerce_to_num: status, number, precision and
    scale; None stands for the conversion of a double, which is not modelled. *)
Definition source_num (src : DB_VALUE) : option (Z * NUM * Z * Z) :=
  if is_null src then Some (ER_FAILED, [], 0, 0)
  else
    match type src with
    | DB_TYPE_DOUBLE => None
    | DB_TYPE_INTEGER =>
        Some (NO_ERROR, numeric_coerce_int_to_num (int src), get_significant_digit (int src), 0)
    | DB_TYPE_BIGINT =>
        Some (NO_ERROR, numeric_coerce_bigint_to_num (int src), get_significant_digit (int src), 0)
    | DB_TYPE_NUMERIC => Some (NO_ERROR, numeric_copy (num src), precision src, scale src)
    | _ => Some (ER_FAILED, [], 0, 0)
    end.

(** The status, data_status and dest, which has the desired precision and scale
    before the call. *)
Definition numeric_db_value_coerce_to_num (src dest : DB_VALUE)
    : option (Z * DB_DATA_STATUS * DB_VALUE) :=
  let desired_precision := precision dest in
  let desired_scale := scale dest in
  let exit_on_error ret dest :=
    (ret, if ret =? ER_NUM_OVERFLOW then DATA_STATUS_TRUNCATED else DATA_STATUS_OK, dest) in
  '(ret, n, prec, scal) ← source_num src;
  Some (
    if negb (ret =? NO_ERROR) then exit_on_error ret dest
    else
      let '(ret, dest) := db_make_numeric n prec scal in
      if negb (ret =? NO_ERROR) then exit_on_error ret dest
      else
        let '(ret, n) :=
          numeric_coerce_num_to_num (num dest) (precision dest) (scale dest)
            desired_precision desired_scale in
        if negb (ret =? NO_ERROR) then exit_on_error ret dest
        else
          let '(ret, dest) := db_make_numeric n desired_precision desired_scale in
          if negb (ret =? NO_ERROR) then exit_on_error ret dest
          else (ret, DATA_STATUS_OK, dest)).

(** The status and the two values with a common scale. *)
Definition numeric_common_prec_scale (dbv1 dbv2 : DB_VALUE) : Z * (DB_VALUE * DB_VALUE) :=
  let scale1 := scale dbv1 in
  let scale2 := scale dbv2 in
  let prec1 := precision dbv1 in
  let prec2 := precision dbv2 in
  let make n1 n2 cprec cscale :=
    let '(error, dbv1_common) := db_make_numeric n1 cprec cscale in
    let '(error, dbv2_common) :=
      if error =? NO_ERROR then db_make_numeric n2 cprec cscale else (error, dbv2) in
    (error, (dbv1_common, dbv2_common)) in
  if scale1 =? scale2 then make (num dbv1) (num dbv2) (Z.max prec1 prec2) scale1
  else if scale1 <? scale2 then
    let scale_diff := scale2 - scale1 in
    let prec1 := scale_diff + prec1 in
    if prec1 >? DB_MAX_NUMERIC_PRECISION then (ER_NUM_OVERFLOW, (dbv1, dbv2))
    else
      make (numeric_scale_dec (num dbv1) scale_diff).2 (num dbv2) (Z.max prec1 prec2) scale2
  else
    let scale_diff := scale1 - scale2 in
    let prec2 := scale_diff + prec2 in
    if prec2 >? DB_MAX_NUMERIC_PRECISION then (ER_NUM_OVERFLOW, (dbv1, dbv2))
    else
      make (num dbv1) (numeric_scale_dec (num dbv2) scale_diff).2 (Z.max prec1 prec2) scale1.

Definition numeric_prec_scale_when_overflow (dbv1 dbv2 : DB_VALUE) : Z * (DB_VALUE * DB_VALUE) :=
  let cscale := Z.max (scale dbv1) (scale dbv2) in
  let cprec := DB_MAX_NUMERIC_PRECISION in
  let coerce v := numeric_coerce_num_to_num (num v) (precision v) (scale v) cprec cscale in
  let '(ret, temp) := coerce dbv1 in
  if negb (ret =? NO_ERROR) then (ret, (dbv1, dbv2))
  else
    let '(ret, dbv1_common) := db_make_numeric temp cprec cscale in
    if negb (ret =? NO_ERROR) then (ret, (dbv1, dbv2))
    else
      let '(ret, temp) := coerce dbv2 in
      if negb (ret =? NO_ERROR) then (ret, (dbv1_common, dbv2))
      else
        let '(ret, dbv2_common) := db_make_numeric temp cprec cscale in
        (ret, (dbv1_common, dbv2_common)).

(** ** Addition and subtraction *)

(** The two operations differ in the function [op] on the numbers. *)
Definition add_sub (op : NUM -> NUM -> nat -> NUM) (dbv1 dbv2 : option DB_VALUE) : Z * DB_VALUE :=
  match dbv1, dbv2 with
  | Some v1, Some v2 =>
      if negb (is_numeric v1) then (ER_OBJ_INVALID_ARGUMENTS, DB_MAKE_NULL)
      else if negb (is_numeric v2) then (ER_OBJ_INVALID_ARGUMENTS, DB_MAKE_NULL)
      else if DB_IS_NULL dbv1 || DB_IS_NULL dbv2 then (NO_ERROR, numeric_null)
      else
        let '(ret, (c1, c2)) := numeric_common_prec_scale v1 v2 in
        let '(ret, (c1, c2)) :=
          if ret =? ER_NUM_OVERFLOW then numeric_prec_scale_when_overflow v1 v2
          else (ret, (c1, c2)) in
        if negb (ret =? NO_ERROR) then (ret, numeric_null)
        else
          let temp := op (num c1) (num c2) DB_NUMERIC_BUF_SIZE in
          let prec := precision c1 in
          if numeric_overflow temp prec then
            if prec <? DB_MAX_NUMERIC_PRECISION then db_make_numeric temp (prec + 1) (scale c1)
            else (ER_NUM_OVERFLOW, numeric_null)
          else db_make_numeric temp prec (scale c1)
  | _, _ => (ER_OBJ_INVALID_ARGUMENTS, DB_MAKE_NULL)
  end.

Definition numeric_db_value_add : option DB_VALUE -> option DB_VALUE -> Z * DB_VALUE :=
  add_sub numeric_add.
Definition numeric_db_value_sub : option DB_VALUE -> option DB_VALUE -> Z * DB_VALUE :=
  add_sub numeric_sub.

(** ** Multiplication *)

(** The status, precision, scale and number. *)
Definition numeric_get_msb_for_dec (src_prec src_scale : Z) (src : NUM) : Z * Z * Z * NUM :=
  if src_prec <=? DB_MAX_NUMERIC_PRECISION
  then (NO_ERROR, src_prec, src_scale, numeric_copy (drop DB_NUMERIC_BUF_SIZE src))
  else if src_scale <=? DB_MAX_NUMERIC_PRECISION then
    if numeric_is_zero src && (byte_at src DB_NUMERIC_BUF_SIZE <=? 127)
    then (NO_ERROR, DB_MAX_NUMERIC_PRECISION, src_scale, numeric_copy (drop DB_NUMERIC_BUF_SIZE src))
    else (ER_NUM_OVERFLOW, src_prec, src_scale, [])
  else
    let truncation_diff := src_prec - DB_MAX_NUMERIC_PRECISION in
    let dec_digits := numeric_coerce_big_num_to_dec_str src in
    (NO_ERROR, DB_MAX_NUMERIC_PRECISION, src_scale - truncation_diff,
     numeric_coerce_dec_str_to_num
       (take (TWICE_NUM_MAX_PREC - Z.to_nat truncation_diff) dec_digits)).

Definition numeric_db_value_mul (dbv1 dbv2 : option DB_VALUE) : Z * DB_VALUE :=
  match dbv1, dbv2 with
  | Some v1, Some v2 =>
      if negb (is_numeric v1) then (ER_OBJ_INVALID_ARGUMENTS, DB_MAKE_NULL)
      else if negb (is_numeric v2) then (ER_OBJ_INVALID_ARGUMENTS, DB_MAKE_NULL)
      else if DB_IS_NULL dbv1 || DB_IS_NULL dbv2 then (NO_ERROR, numeric_null)
      else
        let '(positive_ans, temp) := numeric_mul (num v1) (num v2) in
        let '(ret, prec, scal, result) :=
          numeric_get_msb_for_dec (precision v1 + precision v2 + 1) (scale v1 + scale v2) temp in
        if negb (ret =? NO_ERROR) then (ret, numeric_null)
        else db_make_numeric (if positive_ans : bool then result else numeric_negate result) prec scal
  | _, _ => (ER_OBJ_INVALID_ARGUMENTS, DB_MAKE_NULL)
  end.

(** ** Division *)

(** The dividend scaled up, with the precision and the scale of the answer. *)
Definition div_scale (v1 v2 : DB_VALUE) : Z * NUM * Z * Z :=
  let long_dbv1_copy := numeric_shortnum_to_longnum (num v1) in
  let max_scale := Z.max (scale v1) (scale v2) in
  let scaleup := if scale v2 >? 0 then max_scale + scale v2 - scale v1 else 0 in
  let '(ret, long_dbv1_copy) :=
    if scale v2 >? 0 then numeric_scale_dec_long long_dbv1_copy scaleup
    else (NO_ERROR, long_dbv1_copy) in
  let prec := Z.min (precision v1 + scaleup) DB_MAX_NUMERIC_PRECISION in
  let scal := max_scale in
  if negb (ret =? NO_ERROR) then (ret, long_dbv1_copy, prec, scal)
  else if scal <? DB_DEFAULT_NUMERIC_DIVISION_SCALE then
    let scale_delta := DB_DEFAULT_NUMERIC_DIVISION_SCALE - scal in
    let new_scale := scal + scale_delta in
    let new_prec := prec + scale_delta in
    let '(new_scale, new_prec) :=
      if new_prec >? DB_MAX_NUMERIC_PRECISION
      then (new_scale - (new_prec - DB_MAX_NUMERIC_PRECISION), DB_MAX_NUMERIC_PRECISION)
      else (new_scale, new_prec) in
    let '(ret, long_dbv1_copy) := numeric_scale_dec_long long_dbv1_copy (new_scale - scal) in
    (ret, long_dbv1_copy, new_prec, new_scale)
  else (ret, long_dbv1_copy, prec, scal).

(** Quotient and remainder; the status is that of numeric_longnum_to_shortnum. *)
Definition div_quotient (long_dbv1 divisor : NUM) (out : NUM * NUM) : option (Z * NUM * NUM) :=
  if numeric_is_longnum_value long_dbv1 then
    let '(long_temp_quo, temp_rem) := numeric_long_div long_dbv1 divisor in
    let '(ret, temp_quo) := numeric_longnum_to_shortnum long_temp_quo in
    Some (ret, default out.1 temp_quo, temp_rem)
  else
    let dbv1_copy := default out.1 (numeric_longnum_to_shortnum long_dbv1).2 in
    '(temp_quo, temp_rem) ← numeric_div dbv1_copy divisor out;
    Some (NO_ERROR, temp_quo, temp_rem).

(** The quotient rounded to the nearest number. *)
Definition div_round (temp_quo temp_rem divisor : NUM) : NUM :=
  let temp_rem := if numeric_is_negative temp_rem then numeric_negate temp_rem else temp_rem in
  let divisor_p :=
    if numeric_is_negative divisor then numeric_negate (numeric_copy divisor) else divisor in
  let temp_rem := numeric_add temp_rem temp_rem DB_NUMERIC_BUF_SIZE in
  if numeric_compare temp_rem divisor_p >=? 0 then
    if numeric_is_negative temp_quo then numeric_decrease temp_quo else numeric_increase temp_quo
  else temp_quo.

(** [out] is what the local buffers for quotient and remainder hold before. *)
Definition numeric_db_value_div (out : NUM * NUM) (dbv1 dbv2 : option DB_VALUE)
    : option (Z * DB_VALUE) :=
  match dbv1, dbv2 with
  | Some v1, Some v2 =>
      if negb (is_numeric v1) then Some (ER_OBJ_INVALID_ARGUMENTS, DB_MAKE_NULL)
      else if negb (is_numeric v2) then Some (ER_OBJ_INVALID_ARGUMENTS, DB_MAKE_NULL)
      else if DB_IS_NULL dbv1 || DB_IS_NULL dbv2 then Some (NO_ERROR, numeric_null)
      else
        let '(ret, long_dbv1_copy, prec, scal) := div_scale v1 v2 in
        if negb (ret =? NO_ERROR) then Some (ret, numeric_null)
        else
          '(ret, temp_quo, temp_rem) ← div_quotient long_dbv1_copy (num v2) out;
          if negb (ret =? NO_ERROR) then Some (ret, numeric_null)
          else
            let temp_quo := div_round temp_quo temp_rem (num v2) in
            if numeric_overflow temp_quo prec then
              if prec <? DB_MAX_NUMERIC_PRECISION
              then Some (db_make_numeric temp_quo (prec + 1) scal)
              else Some (ER_NUM_OVERFLOW, numeric_null)
            else Some (db_make_numeric temp_quo prec scal)
  | _, _ => Some (ER_OBJ_INVALID_ARGUMENTS, DB_MAKE_NULL)
  end.

(** ** Negation and comparison *)

Definition set_num (v : DB_VALUE) (n : NUM) : DB_VALUE :=
  mkValue (is_null v) (type v) (precision v) (scale v) n (int v).

Definition numeric_db_value_negate (answer : DB_VALUE) : Z * DB_VALUE :=
  if is_null answer then (NO_ERROR, answer)
  else if negb (is_numeric answer) then (ER_OBJ_INVALID_ARGUMENTS, answer)
  else (NO_ERROR, set_num answer (numeric_negate (num answer))).

Definition numeric_db_value_abs (src_num : NUM) : NUM :=
  let dest_num := numeric_copy src_num in
  if numeric_is_negative src_num then numeric_negate dest_num else dest_num.

Definition numeric_get_integral_part (n : NUM) (src_prec src_scale dst_prec : Z) : NUM :=
  let res_num_digits := Z.to_nat (src_prec - src_scale) in
  let dec_str := numeric_coerce_num_to_dec_str n in
  let new_dec_num :=
    replicate (Z.to_nat dst_prec - res_num_digits) chr_0
    ++ take res_num_digits (drop (length dec_str - Z.to_nat src_prec) dec_str) in
  let dest := numeric_coerce_dec_str_to_num new_dec_num in
  if numeric_is_negative n then numeric_negate dest else dest.

Definition numeric_get_fractional_part (n : NUM) (src_scale dst_scale : Z) : NUM :=
  let dec_str := numeric_coerce_num_to_dec_str n in
  let new_dec_num :=
    drop (length dec_str - Z.to_nat src_scale) dec_str
    ++ replicate (Z.to_nat (dst_scale - src_scale)) chr_0 in
  let dest := numeric_coerce_dec_str_to_num new_dec_num in
  if numeric_is_negative n then numeric_negate dest else dest.

(** The part for values whose common precision is too large. *)
Definition compare_parts (v1 v2 : DB_VALUE) : Z :=
  let prec_common := Z.max (precision v1 - scale v1) (precision v2 - scale v2) in
  let scale_common := Z.max (scale v1) (scale v2) in
  let integ v := numeric_get_integral_part (num v) (precision v) (scale v) prec_common in
  let frac v := numeric_get_fractional_part (num v) (scale v) scale_common in
  let cmp_rez := numeric_compare (integ v1) (integ v2) in
  if negb (cmp_rez =? 0) then cmp_rez else numeric_compare (frac v1) (frac v2).

Definition numeric_db_value_compare (dbv1 dbv2 : option DB_VALUE) : Z * DB_VALUE :=
  match dbv1, dbv2 with
  | Some v1, Some v2 =>
      if negb (is_numeric v1) then (ER_OBJ_INVALID_ARGUMENTS, DB_MAKE_NULL)
      else if negb (is_numeric v2) then (ER_OBJ_INVALID_ARGUMENTS, DB_MAKE_NULL)
      else if DB_IS_NULL dbv1 || DB_IS_NULL dbv2
      then (NO_ERROR, mkValue true DB_TYPE_INTEGER 0 0 [] 0)
      else if (precision v1 =? precision v2) && (scale v1 =? scale v2)
      then (NO_ERROR, DB_MAKE_INTEGER (numeric_compare (num v1) (num v2)))
      else
        let '(ret, (c1, c2)) := numeric_common_prec_scale v1 v2 in
        if ret =? NO_ERROR
        then (NO_ERROR, DB_MAKE_INTEGER (numeric_compare (num c1) (num c2)))
        else if ret =? ER_NUM_OVERFLOW then (NO_ERROR, DB_MAKE_INTEGER (compare_parts v1 v2))
        else (ER_FAILED, DB_MAKE_NULL)
  | _, _ => (ER_OBJ_INVALID_ARGUMENTS, DB_MAKE_NULL)
  end.

Definition numeric_db_value_is_zero (arg : DB_VALUE) : bool :=
  if is_null arg then false else numeric_is_zero (num arg).

(** ** Integers *)

Definition numeric_is_fraction_part_zero (n : NUM) (scal : Z) : bool :=
  let dec_str := numeric_coerce_num_to_dec_str n in
  forallb (fun i => byte_at dec_str (length dec_str - Z.to_nat scal + i) =? chr_0)
    (seq 0 (Z.to_nat scal)).

(** The status and the integer, None for the trap of numeric_div. *)
Definition numeric_coerce_num_to_bigint (arg : NUM) (scal : Z) (out : NUM * NUM)
    : option (Z * Z) :=
  if scal >=? Z.of_nat (length powers_of_10) then Some (ER_NUM_OVERFLOW, 0)
  else
    zero_scale_arg ←
      (if scal >? 0 then
         '(quo, rem) ← numeric_div arg (numeric_get_pow_of_10 scal) out;
         let rem := if negb (numeric_is_negative quo) then numeric_negate rem else rem in
         let tmp := numeric_add (numeric_get_pow_of_10 scal) rem DB_NUMERIC_BUF_SIZE in
         let tmp := numeric_add tmp rem DB_NUMERIC_BUF_SIZE in
         Some (if numeric_is_negative tmp || numeric_is_zero tmp then
                 if numeric_is_negative quo then numeric_decrease quo else numeric_increase quo
               else quo)
       else Some (numeric_copy arg));
    if negb (numeric_is_bigint zero_scale_arg) then Some (ER_NUM_OVERFLOW, 0)
    else Some (NO_ERROR, low_bigint zero_scale_arg).

(** ** Text *)

Definition chr_plus : Z := 43.
Definition chr_point : Z := 46.
Definition chr_comma : Z := 44.

Definition char_isspace (c : Z) : bool :=
  (c =? 32) || (c =? 9) || (c =? 13) || (c =? 10) || (c =? 12) || (c =? 11).

(** The loop of numeric_db_value_print over the characters of [temp] from
    index [i] on. *)
Fixpoint print_loop (temp : STRING) (i temp_size scal : Z) (found : bool) : STRING :=
  match temp with
  | [] => []
  | c :: temp =>
      let sign := if c =? chr_minus then [chr_minus] else [] in
      let point := if i =? temp_size - scal then [chr_point] else [] in
      let found := found || digit_1_to_9 c in
      let digit := if found || (i >=? temp_size - scal - 1) then [c] else [] in
      sign ++ point ++ digit ++ print_loop temp (i + 1) temp_size scal found
  end.

Definition numeric_db_value_print (val : DB_VALUE) : STRING :=
  if is_null val then []
  else
    let temp := numeric_coerce_num_to_dec_str (num val) in
    print_loop temp 0 (Z.of_nat (length temp)) (scale val) false.

(** The local variables of numeric_coerce_string_to_num; prec is the number of
    digits in num_string. *)
Record PARSE := mkParse {
  num_string : STRING;
  p_scale : Z;
  leading_zeroes : bool;
  sign_found : bool;
  negate_value : bool;
  pad_character_zero : bool;
  trailing_spaces : bool;
  decimal_part : bool }.

Definition parse_prec (st : PARSE) : Z := Z.of_nat (length (num_string st)).

Definition add_digit (st : PARSE) (c : Z) : PARSE :=
  mkParse (num_string st ++ [c]) (p_scale st) false (sign_found st) (negate_value st)
    (pad_character_zero st) (trailing_spaces st) (decimal_part st).

(** One character before the first digit between 1 and 9. *)
Definition parse_leading (st : PARSE) (c : Z) : Z * PARSE :=
  if digit_1_to_9 c then (NO_ERROR, add_digit st c)
  else if (c =? chr_plus) || (c =? chr_minus) then
    if negb (sign_found st) then
      (NO_ERROR, mkParse (num_string st) (p_scale st) true true (c =? chr_minus)
                   (pad_character_zero st) (trailing_spaces st) (decimal_part st))
    else (DOMAIN_INCOMPATIBLE, st)
  else if c =? chr_0 then
    (NO_ERROR, mkParse (num_string st) (p_scale st) true (sign_found st) (negate_value st)
                 true (trailing_spaces st) (decimal_part st))
  else if char_isspace c then (NO_ERROR, st)
  else (DOMAIN_INCOMPATIBLE, st).

Definition parse_rest (st : PARSE) (c : Z) : Z * PARSE :=
  if trailing_spaces st && negb (char_isspace c) then (DOMAIN_INCOMPATIBLE, st)
  else if char_isspace c then
    (NO_ERROR, mkParse (num_string st) (Z.max (p_scale st - 1) 0) (leading_zeroes st)
                 (sign_found st) (negate_value st) (pad_character_zero st) true (decimal_part st))
  else if c =? chr_comma then
    if decimal_part st then (DOMAIN_INCOMPATIBLE, st) else (NO_ERROR, st)
  else if is_digit c then (NO_ERROR, add_digit st c)
  else (DOMAIN_INCOMPATIBLE, st).

(** [remaining] is astring_length - (i + 1). *)
Definition parse_step (st : PARSE) (c remaining : Z) : Z * PARSE :=
  if c =? chr_point then
    (NO_ERROR, mkParse (num_string st) remaining false (sign_found st) (negate_value st)
                 (pad_character_zero st) (trailing_spaces st) true)
  else if leading_zeroes st then parse_leading st c
  else parse_rest st c.

Fixpoint parse_loop (astring : STRING) (st : PARSE) : Z * PARSE :=
  match astring with
  | [] => (NO_ERROR, st)
  | c :: astring =>
      let '(ret, st) := parse_step st c (Z.of_nat (length astring)) in
      if negb (ret =? NO_ERROR) then (ret, st)
      else if parse_prec st >? DB_MAX_NUMERIC_PRECISION then (NO_ERROR, st)
      else parse_loop astring st
  end.

Definition numeric_coerce_string_to_num (astring : STRING) : Z * DB_VALUE :=
  let '(ret, st) := parse_loop astring (mkParse [] 0 true false false false false false) in
  if negb (ret =? NO_ERROR) then (ret, numeric_null)
  else if parse_prec st >? DB_MAX_NUMERIC_PRECISION then (ER_NUM_OVERFLOW, numeric_null)
  else
    let digits :=
      if (parse_prec st =? 0) && pad_character_zero st then [chr_0] else num_string st in
    let n := numeric_coerce_dec_str_to_num digits in
    db_make_numeric (if negate_value st then numeric_negate n else n)
      (Z.of_nat (length digits)) (p_scale st).
