(* ===== verification/NumericArith.v ===== *)
(** * Exact numeric values: arithmetic on the buffers

    The integer a buffer stands for, unsigned and in two's complement, and what
    every operation on buffers does to it. *)
From Stdlib Require Import ZArith Lia ZifyBool.
From stdpp Require Import base list numbers gmap.
From S2P Require Import Prelude Numeric.

(** ** The value of a buffer *)

Definition bytes (l : NUM) : Prop := Forall (fun b => 0 <= b < 256) l.

(** 256 to the number of bytes. *)
Definition size_of (l : NUM) : Z := 256 ^ Z.of_nat (length l).

Fixpoint unum (l : NUM) : Z :=
  match l with
  | [] => 0
  | b :: l => b * size_of l + unum l
  end.

Definition snum (l : NUM) : Z := if numeric_is_negative l then unum l - size_of l else unum l.

Lemma size_of_cons b l : size_of (b :: l) = 256 * size_of l.
Proof.
  unfold size_of. cbn [length]. rewrite Nat2Z.inj_succ, Z.pow_succ_r by lia. lia.
Qed.

Lemma size_of_pos l : 0 < size_of l.
Proof. apply Z.pow_pos_nonneg; lia. Qed.

Lemma size_of_length l l' : length l = length l' -> size_of l = size_of l'.
Proof. unfold size_of. by intros ->. Qed.

Lemma bytes_cons b l : bytes (b :: l) <-> 0 <= b < 256 /\ bytes l.
Proof. apply Forall_cons_iff. Qed.

Lemma unum_range l : bytes l -> 0 <= unum l < size_of l.
Proof.
  induction l as [|b l IH]; [done|]. rewrite bytes_cons, size_of_cons. intros [Hb Hl].
  specialize (IH Hl). cbn [unum]. pose proof (size_of_pos l). nia.
Qed.

Lemma unum_inj l l' : bytes l -> bytes l' -> length l = length l' -> unum l = unum l' -> l = l'.
Proof.
  revert l'. induction l as [|b l IH]; intros [|b' l']; try done.
  rewrite !bytes_cons. intros [Hb Hl] [Hb' Hl'] [= Hn]. cbn [unum]. intros E.
  pose proof (unum_range l Hl). pose proof (unum_range l' Hl').
  rewrite (size_of_length l' l) in * by done. pose proof (size_of_pos l).
  assert (b = b') as -> by nia. f_equal. apply IH; try done. lia.
Qed.

Lemma unum_app l l' : unum (l ++ l') = unum l * size_of l' + unum l'.
Proof.
  induction l as [|b l IH]; cbn [app unum]; [lia|].
  assert (size_of (l ++ l') = size_of l * size_of l') as ->.
  { unfold size_of. rewrite length_app, Nat2Z.inj_add, Z.pow_add_r; lia. }
  rewrite IH. ring.
Qed.

Lemma unum_replicate_0 n : unum (replicate n 0) = 0.
Proof. induction n as [|n IH]; [done|]. cbn [replicate unum]. lia. Qed.

Lemma bytes_replicate n b : 0 <= b < 256 -> bytes (replicate n b).
Proof. intros Hb. by apply Forall_replicate. Qed.

(** ** Bytes *)

Lemma lower_byte x : GET_LOWER_BYTE x = x mod 256.
Proof. unfold GET_LOWER_BYTE. change 255 with (Z.ones 8). by rewrite Z.land_ones. Qed.

Lemma carryover x : CARRYOVER x = x / 256.
Proof. unfold CARRYOVER. by rewrite Z.shiftr_div_pow2. Qed.

Lemma byte_sign b : 0 <= b < 256 -> Z.land b 128 = if b <? 128 then 0 else 128.
Proof.
  intros Hb. change 128 with (2 ^ 7) at 1. rewrite <- Z.shiftl_1_l.
  assert (forall x, 0 <= x < 256 -> Z.land x (Z.shiftl 1 7) = if x <? 128 then 0 else 128) as H.
  { intros x Hx. assert (Z.to_nat x ∈ seq 0 256) as Hin by (apply elem_of_seq; lia).
    assert (Forall (fun n => Z.land (Z.of_nat n) (Z.shiftl 1 7)
              = if Z.of_nat n <? 128 then 0 else 128) (seq 0 256)) as Hf
      by (apply (bool_decide_unpack _); by vm_compute).
    rewrite Forall_forall in Hf. specialize (Hf _ Hin). by rewrite Z2Nat.id in Hf by lia. }
  by apply H.
Qed.

Lemma negative_spec l :
  bytes l -> l <> [] -> numeric_is_negative l = (size_of l <=? 2 * unum l).
Proof.
  destruct l as [|b l]; [done|]. rewrite bytes_cons. intros [Hb Hl] _.
  unfold numeric_is_negative, byte_at. cbn. rewrite byte_sign by done.
  pose proof (unum_range l Hl). pose proof (size_of_pos l). rewrite size_of_cons.
  destruct (b <? 128) eqn:E; [change (0 =? 0) with true|change (128 =? 0) with false]; cbn; nia.
Qed.

(** A buffer of [n] bytes. *)
Definition is_num (n : nat) (l : NUM) : Prop := bytes l /\ length l = n.

Lemma is_num_size n l : is_num n l -> size_of l = 256 ^ Z.of_nat n.
Proof. intros [_ <-]. done. Qed.

Lemma is_num_range n l : is_num n l -> 0 <= unum l < 256 ^ Z.of_nat n.
Proof. intros Hl. rewrite <- (is_num_size n l Hl). by apply unum_range, Hl. Qed.

Lemma is_num_nonempty n l : is_num n l -> n <> O -> l <> [].
Proof. intros [_ Hn] H0 ->. by subst. Qed.

Lemma pow256_half n : n <> O -> 256 ^ Z.of_nat n = 2 * 2 ^ (8 * Z.of_nat n - 1).
Proof.
  intros Hn. change 256 with (2 ^ 8). rewrite <- Z.pow_mul_r, <- Z.pow_succ_r by lia.
  f_equal. lia.
Qed.

Section Signed.
Context (n : nat) (Hn : n <> O).
Notation size := (256 ^ Z.of_nat n).

Lemma negative_num l : is_num n l -> numeric_is_negative l = (size <=? 2 * unum l).
Proof.
  intros Hl. rewrite negative_spec; [by rewrite (is_num_size n)|apply Hl|by eapply is_num_nonempty].
Qed.

Lemma snum_spec l : is_num n l -> snum l = if size <=? 2 * unum l then unum l - size else unum l.
Proof. intros Hl. unfold snum. by rewrite negative_num, (is_num_size n). Qed.

Lemma snum_range l : is_num n l -> - size <= 2 * snum l < size.
Proof.
  intros Hl. rewrite snum_spec by done. pose proof (is_num_range n l Hl). zcase; lia.
Qed.

Lemma negative_snum l : is_num n l -> numeric_is_negative l = (snum l <? 0).
Proof.
  intros Hl. rewrite negative_num, snum_spec by done. pose proof (is_num_range n l Hl).
  zcase; lia.
Qed.

Lemma snum_mod l : is_num n l -> snum l mod size = unum l.
Proof.
  intros Hl. rewrite snum_spec by done. pose proof (is_num_range n l Hl). zcase.
  - symmetry. apply (Z.mod_unique _ _ (-1)); lia.
  - apply Z.mod_small. lia.
Qed.

Lemma snum_eq l x : is_num n l -> unum l = x mod size -> - size <= 2 * x < size -> snum l = x.
Proof.
  intros Hl E Hx. rewrite snum_spec, E by done. destruct (Z.lt_ge_cases x 0).
  - assert (x mod size = x + size) as -> by (symmetry; apply (Z.mod_unique _ _ (-1)); lia).
    zcase; lia.
  - rewrite Z.mod_small by lia. zcase; lia.
Qed.

Lemma snum_inj l l' : is_num n l -> is_num n l' -> snum l = snum l' -> l = l'.
Proof.
  intros Hl Hl' E. apply unum_inj; [apply Hl|apply Hl'|by rewrite (proj2 Hl), (proj2 Hl')|].
  rewrite <- (snum_mod l), <- (snum_mod l') by done. by rewrite E.
Qed.

(** ** Increment, decrement and negation *)

Lemma increase_loop_spec m l :
  is_num m l ->
  let '(r, carry) := increase_loop l in
  is_num m r /\ unum r + (if carry then 256 ^ Z.of_nat m else 0) = unum l + 1.
Proof.
  revert m. induction l as [|b l IH]; intros m [Hl <-]; cbn [increase_loop].
  { split; [done|]. done. }
  apply bytes_cons in Hl as [Hb Hl]. specialize (IH (length l) (conj Hl eq_refl)).
  destruct (increase_loop l) as [r carry]. destruct IH as [[Hr En] IH].
  cbn [length unum]. rewrite Nat2Z.inj_succ, Z.pow_succ_r by lia.
  change (size_of l) with (256 ^ Z.of_nat (length l)) in *.
  assert (size_of r = 256 ^ Z.of_nat (length l)) as Es by (unfold size_of; by rewrite En).
  destruct carry; cbn [unum length]; rewrite Es.
  - unfold uwrap. change (2 ^ 8) with 256.
    split; [split; [apply bytes_cons; split; [dlia|done]|cbn; congruence]|].
    destruct (Z.eq_dec b 255) as [->|Hne]; [change ((255 + 1) mod 256) with 0; cbn; lia|].
    rewrite Z.mod_small by lia. zcase; lia.
  - split; [split; [by apply bytes_cons|cbn; congruence]|]. lia.
Qed.

Lemma decrease_loop_spec m l :
  is_num m l ->
  let '(r, carry) := decrease_loop l in
  is_num m r /\ unum r - (if carry then 256 ^ Z.of_nat m else 0) = unum l - 1.
Proof.
  revert m. induction l as [|b l IH]; intros m [Hl <-]; cbn [decrease_loop].
  { split; [done|]. done. }
  apply bytes_cons in Hl as [Hb Hl]. specialize (IH (length l) (conj Hl eq_refl)).
  destruct (decrease_loop l) as [r carry]. destruct IH as [[Hr En] IH].
  cbn [length unum]. rewrite Nat2Z.inj_succ, Z.pow_succ_r by lia.
  change (size_of l) with (256 ^ Z.of_nat (length l)) in *.
  assert (size_of r = 256 ^ Z.of_nat (length l)) as Es by (unfold size_of; by rewrite En).
  destruct carry; cbn [unum length]; rewrite Es.
  - unfold uwrap. change (2 ^ 8) with 256.
    split; [split; [apply bytes_cons; split; [dlia|done]|cbn; congruence]|].
    destruct (Z.eq_dec b 0) as [->|Hne]; [change ((0 - 1) mod 256) with 255; cbn; lia|].
    rewrite Z.mod_small by lia. zcase; lia.
  - split; [split; [by apply bytes_cons|cbn; congruence]|]. lia.
Qed.

Lemma increase_num l :
  is_num n l -> is_num n (numeric_increase_long l)
  /\ unum (numeric_increase_long l) = (unum l + 1) mod size.
Proof.
  intros Hl. pose proof (increase_loop_spec n l Hl) as H. unfold numeric_increase_long.
  destruct (increase_loop l) as [r carry]. destruct H as [Hr E]. split; [done|]. cbn.
  pose proof (is_num_range n r Hr). destruct carry.
  - apply (Z.mod_unique _ _ 1); lia.
  - rewrite Z.mod_small; lia.
Qed.

Lemma decrease_num l :
  is_num n l -> is_num n (numeric_decrease l)
  /\ unum (numeric_decrease l) = (unum l - 1) mod size.
Proof.
  intros Hl. pose proof (decrease_loop_spec n l Hl) as H. unfold numeric_decrease.
  destruct (decrease_loop l) as [r carry]. destruct H as [Hr E]. split; [done|]. cbn.
  pose proof (is_num_range n r Hr). destruct carry.
  - apply (Z.mod_unique _ _ (-1)); lia.
  - rewrite Z.mod_small; lia.
Qed.

Lemma snum_increase l :
  is_num n l -> 2 * (snum l + 1) < size -> snum (numeric_increase_long l) = snum l + 1.
Proof.
  intros Hl Hs. destruct (increase_num l Hl) as [Hr E]. pose proof (snum_range l Hl).
  apply snum_eq; [done| |lia]. rewrite E, <- (snum_mod l) by done.
  by rewrite Zplus_mod_idemp_l.
Qed.

Lemma snum_decrease l :
  is_num n l -> - size <= 2 * (snum l - 1) -> snum (numeric_decrease l) = snum l - 1.
Proof.
  intros Hl Hs. destruct (decrease_num l Hl) as [Hr E]. pose proof (snum_range l Hl).
  apply snum_eq; [done| |lia]. rewrite E, <- (snum_mod l) by done.
  by rewrite Zminus_mod_idemp_l.
Qed.

Lemma complement_num m l :
  is_num m l ->
  let r := (fun b => uwrap 8 (Z.lnot b)) <$> l in
  is_num m r /\ unum r = 256 ^ Z.of_nat m - 1 - unum l.
Proof.
  revert m. induction l as [|b l IH]; intros m [Hl <-]; [done|].
  apply bytes_cons in Hl as [Hb Hl]. destruct (IH (length l) (conj Hl eq_refl)) as [[Hr En] IH'].
  cbn zeta. rewrite fmap_cons. cbn [length unum]. rewrite Nat2Z.inj_succ, Z.pow_succ_r by lia.
  assert (uwrap 8 (Z.lnot b) = 255 - b) as ->.
  { unfold uwrap, Z.lnot. change (2 ^ 8) with 256. symmetry. apply (Z.mod_unique _ _ (-1)); lia. }
  cbn zeta in *. split; [split; [apply bytes_cons; split; [lia|done]|cbn; congruence]|].
  rewrite IH'. unfold size_of. rewrite En. lia.
Qed.

Lemma negate_num l :
  is_num n l -> is_num n (numeric_negate_long l)
  /\ unum (numeric_negate_long l) = (- unum l) mod size.
Proof.
  intros Hl. unfold numeric_negate_long. destruct (complement_num n l Hl) as [Hc E].
  destruct (increase_num _ Hc) as [Hr Er]. split; [done|]. rewrite Er, E.
  replace (size - 1 - unum l + 1) with (- unum l + 1 * size) by lia. apply Z_mod_plus_full.
Qed.

Lemma snum_negate l :
  is_num n l -> - size < 2 * snum l -> snum (numeric_negate_long l) = - snum l.
Proof.
  intros Hl Hs. destruct (negate_num l Hl) as [Hr E]. pose proof (snum_range l Hl).
  apply snum_eq; [done| |lia]. rewrite E, <- (snum_mod l) by done.
  rewrite <- (Z.sub_0_l (snum l)), <- (Z.sub_0_l (_ mod _)). apply Zminus_mod_idemp_r.
Qed.

(** The absolute value, as an unsigned number. *)
Lemma abs_num l :
  is_num n l ->
  let r := if numeric_is_negative l then numeric_negate_long l else l in
  is_num n r /\ unum r = Z.abs (snum l).
Proof.
  intros Hl. cbn zeta. rewrite negative_num by done. rewrite (snum_spec l Hl).
  pose proof (is_num_range n l Hl). destruct (negate_num l Hl) as [Hr E]. zcase.
  - split; [done|]. rewrite E. symmetry. rewrite Z.abs_neq by lia.
    apply (Z.mod_unique _ _ (-1)); lia.
  - split; [done|]. lia.
Qed.

(** A sign and an absolute value. *)
Lemma signed_num (neg : bool) l :
  is_num n l -> 2 * unum l < size ->
  let r := if neg then numeric_negate_long l else l in
  is_num n r /\ snum r = if neg then - unum l else unum l.
Proof.
  intros Hl Hs. pose proof (is_num_range n l Hl) as Hu.
  assert (snum l = unum l) as E by (rewrite snum_spec by done; zcase; lia).
  cbn zeta. destruct neg; [|done]. destruct (negate_num l Hl) as [Hr _]. split; [done|].
  rewrite (snum_negate l Hl) by lia. lia.
Qed.
End Signed.

(** ** Addition, subtraction and comparison *)

Lemma add_loop_spec m l1 l2 :
  is_num m l1 -> is_num m l2 ->
  let '(r, bit) := add_loop l1 l2 in
  is_num m r /\ 0 <= bit < 512 /\ unum r + bit / 256 * 256 ^ Z.of_nat m = unum l1 + unum l2.
Proof.
  revert m l2. induction l1 as [|b1 l1 IH]; intros m [|b2 l2] [H1 E1] [H2 E2]; simplify_eq/=.
  { split; [done|]. split; [lia|]. done. }
  apply bytes_cons in H1 as [Hb1 H1], H2 as [Hb2 H2].
  specialize (IH (length l1) l2 (conj H1 eq_refl) (conj H2 E2)).
  destruct (add_loop l1 l2) as [r bit]. destruct IH as ([Hr En] & Hbit & IH).
  rewrite lower_byte, carryover. cbn [unum]. unfold size_of. rewrite E2, En.
  set (bit' := b1 + b2 + bit / 256). assert (0 <= bit' < 512) by (unfold bit'; dlia).
  split; [split; [apply bytes_cons; split; [dlia|done]|cbn; congruence]|]. split; [done|].
  change (256 ^ Z.pos (Pos.of_succ_nat (length l1))) with (256 ^ Z.of_nat (S (length l1))).
  rewrite Nat2Z.inj_succ, Z.pow_succ_r, Z.mod_eq by lia.
  replace (unum r) with (unum l1 + unum l2 - bit / 256 * 256 ^ Z.of_nat (length l1)) by lia.
  generalize (bit' / 256). intros q. unfold bit'. ring.
Qed.

Lemma add_num m l1 l2 :
  is_num m l1 -> is_num m l2 ->
  is_num m (numeric_add l1 l2 m)
  /\ unum (numeric_add l1 l2 m) = (unum l1 + unum l2) mod 256 ^ Z.of_nat m.
Proof.
  intros H1 H2. unfold numeric_add.
  rewrite !take_ge by (rewrite ?(proj2 H1), ?(proj2 H2); lia).
  pose proof (add_loop_spec m l1 l2 H1 H2) as H. destruct (add_loop l1 l2) as [r bit].
  destruct H as (Hr & Hbit & E). split; [done|]. cbn. pose proof (is_num_range m r Hr).
  apply (Z.mod_unique _ _ (bit / 256)); lia.
Qed.

Lemma snum_add m l1 l2 :
  m <> O -> is_num m l1 -> is_num m l2 ->
  - 256 ^ Z.of_nat m <= 2 * (snum l1 + snum l2) < 256 ^ Z.of_nat m ->
  snum (numeric_add l1 l2 m) = snum l1 + snum l2.
Proof.
  intros Hm H1 H2 Hs. destruct (add_num m l1 l2 H1 H2) as [Hr E].
  apply (snum_eq m); [done|done| |done].
  rewrite E, <- (snum_mod m Hm l1), <- (snum_mod m Hm l2) by done. by rewrite <- Z.add_mod by lia.
Qed.

Lemma copy_num l : is_num 16 l -> numeric_copy l = l.
Proof. intros [_ Hl]. unfold numeric_copy. by rewrite take_ge by (unfold DB_NUMERIC_BUF_SIZE; lia). Qed.

Lemma sub_num l1 l2 :
  is_num 16 l1 -> is_num 16 l2 ->
  is_num 16 (numeric_sub l1 l2 16)
  /\ unum (numeric_sub l1 l2 16) = (unum l1 - unum l2) mod 256 ^ 16.
Proof.
  intros H1 H2. unfold numeric_sub. rewrite copy_num by done.
  destruct (negate_num 16 ltac:(done) l2 H2) as [Hr E].
  destruct (add_num 16 l1 (numeric_negate l2) H1 Hr) as [Ha Ea]. split; [done|].
  rewrite Ea. unfold numeric_negate. rewrite E. rewrite Zplus_mod_idemp_r. done.
Qed.

Lemma compare_pos_spec m l1 l2 :
  is_num m l1 -> is_num m l2 -> numeric_compare_pos l1 l2 = Z.sgn (unum l1 - unum l2).
Proof.
  revert m l2. induction l1 as [|b1 l1 IH]; intros m [|b2 l2] [H1 E1] [H2 E2]; simplify_eq/=; [done|].
  apply bytes_cons in H1 as [Hb1 H1], H2 as [Hb2 H2].
  pose proof (unum_range l1 H1). pose proof (unum_range l2 H2). pose proof (size_of_pos l1).
  rewrite (size_of_length l2 l1) in * by done.
  destruct (Z.eq_dec b1 b2) as [->|Hne].
  - rewrite Z.eqb_refl. cbn [negb]. rewrite (IH (length l1) l2); [f_equal; lia|done|done].
  - replace (b1 =? b2) with false by lia. cbn [negb]. zcase.
    + rewrite Z.sgn_pos; nia.
    + rewrite Z.sgn_neg; nia.
Qed.

Lemma compare_spec l1 l2 :
  is_num 16 l1 -> is_num 16 l2 -> numeric_compare l1 l2 = Z.sgn (snum l1 - snum l2).
Proof.
  intros H1 H2. unfold numeric_compare.
  pose proof (abs_num 16 ltac:(done) l1 H1) as [A1 E1].
  pose proof (abs_num 16 ltac:(done) l2 H2) as [A2 E2]. cbn zeta in *.
  rewrite !copy_num by done. unfold numeric_negate.
  pose proof (negative_snum 16 ltac:(done) l1 H1) as N1.
  pose proof (negative_snum 16 ltac:(done) l2 H2) as N2.
  rewrite N1 in A1, E1. rewrite N2 in A2, E2. rewrite N1, N2.
  destruct (snum l1 <? 0) eqn:S1, (snum l2 <? 0) eqn:S2;
    try (symmetry; apply Z.sgn_neg; lia); try (symmetry; apply Z.sgn_pos; lia).
  - rewrite (compare_pos_spec 16), E1, E2 by done. rewrite <- Z.sgn_opp. f_equal. lia.
  - rewrite (compare_pos_spec 16), E1, E2 by done. f_equal. lia.
Qed.

(** ** Multiplication *)

Lemma mul_loop_spec m d l :
  0 <= d < 256 -> is_num m l ->
  let '(r, bit) := mul_loop d l in
  is_num m r /\ 0 <= bit < 65536 /\ unum r + bit / 256 * 256 ^ Z.of_nat m = d * unum l.
Proof.
  intros Hd. revert m. induction l as [|b l IH]; intros m [Hl <-]; cbn [mul_loop].
  { split; [done|]. split; [lia|]. change (0 / 256) with 0. cbn [unum]. lia. }
  apply bytes_cons in Hl as [Hb Hl]. specialize (IH (length l) (conj Hl eq_refl)).
  destruct (mul_loop d l) as [r bit]. destruct IH as ([Hr En] & Hbit & IH).
  rewrite lower_byte, carryover. cbn [unum]. unfold size_of. rewrite En.
  set (bit' := d * b + bit / 256).
  assert (0 <= bit / 256 < 256) by dlia. assert (0 <= d * b <= 255 * 255) by nia.
  assert (0 <= bit' < 65536) by lia.
  split; [split; [apply bytes_cons; split; [dlia|done]|cbn; congruence]|]. split; [done|].
  cbn [length]. rewrite Nat2Z.inj_succ, Z.pow_succ_r, Z.mod_eq by lia.
  replace (unum r) with (d * unum l - bit / 256 * 256 ^ Z.of_nat (length l)) by lia.
  generalize (bit' / 256). intros q. unfold bit'. ring.
Qed.

Lemma mul_num m d l :
  0 <= d < 256 -> is_num m l ->
  is_num m (mul_loop d l).1 /\ unum (mul_loop d l).1 = (d * unum l) mod 256 ^ Z.of_nat m.
Proof.
  intros Hd Hl. pose proof (mul_loop_spec m d l Hd Hl) as H. destruct (mul_loop d l) as [r bit].
  destruct H as (Hr & Hbit & E). split; [done|]. cbn. pose proof (is_num_range m r Hr).
  apply (Z.mod_unique _ _ (bit / 256)); lia.
Qed.

Lemma shift_byte_list l k :
  length l = 16%nat -> (k <= 16)%nat ->
  numeric_shift_byte l (Z.of_nat k) 32 = replicate (16 - k) 0 ++ l ++ replicate k 0.
Proof.
  intros Hl Hk. apply list_eq. intros i. unfold numeric_shift_byte. rewrite list_lookup_fmap.
  destruct (decide (i < 32)%nat) as [Hi|Hi].
  - rewrite lookup_seq_lt by done. cbn [fmap option_fmap option_map].
    unfold DB_NUMERIC_BUF_SIZE. destruct (decide (i < 16 - k)%nat).
    + rewrite lookup_app_l by (rewrite length_replicate; lia). rewrite lookup_replicate_2 by lia.
      f_equal. rewrite Nat.add_0_l. zcase; [lia|done].
    + rewrite lookup_app_r by (rewrite length_replicate; lia). rewrite length_replicate.
      destruct (decide (i - (16 - k) < 16)%nat).
      * rewrite lookup_app_l by lia. rewrite Nat.add_0_l. zcase; [|lia].
        unfold byte_at. replace (Z.to_nat _) with (i - (16 - k))%nat by lia.
        destruct (lookup_lt_is_Some_2 l (i - (16 - k))) as [b ->]; [lia|done].
      * rewrite lookup_app_r by lia. rewrite lookup_replicate_2 by lia. rewrite Nat.add_0_l.
        f_equal. zcase; [lia|done].
  - rewrite (lookup_ge_None_2 (seq 0 32)) by (rewrite length_seq; lia). symmetry.
    apply lookup_ge_None_2. rewrite !length_app, !length_replicate. lia.
Qed.

Lemma shift_byte_num l k :
  is_num 16 l -> (k <= 16)%nat ->
  is_num 32 (numeric_shift_byte l (Z.of_nat k) 32)
  /\ unum (numeric_shift_byte l (Z.of_nat k) 32) = unum l * 256 ^ Z.of_nat k.
Proof.
  intros [Hb Hl] Hk. rewrite shift_byte_list by done. split.
  - split; [|rewrite !length_app, !length_replicate; lia].
    apply Forall_app. split; [by apply bytes_replicate|]. apply Forall_app.
    split; [done|by apply bytes_replicate].
  - rewrite !unum_app, !unum_replicate_0. unfold size_of. rewrite length_replicate. lia.
Qed.

(** The value of digits that are listed from the least significant one. *)
Fixpoint unum_rev (l : NUM) : Z :=
  match l with
  | [] => 0
  | b :: l => b + 256 * unum_rev l
  end.

Lemma unum_rev_app l b : unum_rev (l ++ [b]) = unum_rev l + b * size_of l.
Proof.
  induction l as [|c l IH]; cbn [app unum_rev]; [unfold size_of; cbn; lia|].
  rewrite IH, size_of_cons. ring.
Qed.

Lemma unum_reverse l : unum_rev (reverse l) = unum l.
Proof.
  induction l as [|b l IH]; [done|]. rewrite reverse_cons, unum_rev_app, IH. cbn [unum].
  rewrite (size_of_length (reverse l) l) by apply length_reverse. lia.
Qed.

Lemma mul_rows_spec l digits k answer :
  is_num 16 l -> bytes digits -> is_num 32 answer ->
  (forall i, (16 <= i + k)%nat -> default 0 (digits !! i) = 0) ->
  is_num 32 (mul_rows l digits (Z.of_nat k) answer)
  /\ unum (mul_rows l digits (Z.of_nat k) answer)
     = (unum answer + unum l * unum_rev digits * 256 ^ Z.of_nat k) mod 256 ^ 32.
Proof.
  intros Hl. revert k answer. induction digits as [|d digits IH]; intros k answer Hd Ha Hz.
  { cbn [mul_rows unum_rev]. split; [done|]. rewrite Z.mul_0_r, Z.mul_0_l, Z.add_0_r.
    symmetry. apply Z.mod_small. apply (is_num_range 32 answer Ha). }
  apply bytes_cons in Hd as [Hd Hds]. cbn [mul_rows].
  set (answer' := if negb (d =? 0) then _ else _).
  assert (is_num 32 answer'
          /\ unum answer' = (unum answer + d * (unum l * 256 ^ Z.of_nat k)) mod 256 ^ 32) as [Ha' E'].
  { unfold answer'. destruct (d =? 0) eqn:E0; cbn [negb].
    - split; [done|]. replace d with 0 by lia. rewrite Z.mul_0_l, Z.add_0_r.
      symmetry. apply Z.mod_small. apply (is_num_range 32 answer Ha).
    - destruct (decide (16 <= k)%nat) as [Hk|Hk].
      { specialize (Hz 0%nat ltac:(lia)). cbn in Hz. lia. }
      destruct (shift_byte_num l k Hl ltac:(lia)) as [Hs Es].
      destruct (mul_num 32 d _ Hd Hs) as [Hm Em].
      change (2 * DB_NUMERIC_BUF_SIZE)%nat with 32%nat.
      destruct (add_num 32 _ _ Hm Ha) as [Hr Er]. split; [done|]. rewrite Er, Em, Es.
      change (Z.of_nat 32) with 32. rewrite Zplus_mod_idemp_l. f_equal. lia. }
  replace (Z.of_nat k + 1) with (Z.of_nat (S k)) by lia.
  destruct (IH (S k) answer' Hds Ha') as [Hr Er].
  { intros i Hi. specialize (Hz (S i) ltac:(lia)). done. }
  split; [done|]. rewrite Er, E', Zplus_mod_idemp_l. f_equal. cbn [unum_rev].
  rewrite Nat2Z.inj_succ, Z.pow_succ_r by lia. ring.
Qed.

Lemma is_zero_spec l : is_num 16 l -> numeric_is_zero l = (unum l =? 0).
Proof.
  intros [Hb Hl]. unfold numeric_is_zero. rewrite take_ge by (unfold DB_NUMERIC_BUF_SIZE; lia).
  clear Hl. induction l as [|b l IH]; [done|]. apply bytes_cons in Hb as [Hb Hbs].
  cbn [forallb unum]. rewrite IH by done. pose proof (unum_range l Hbs). pose proof (size_of_pos l).
  destruct (b =? 0) eqn:E; nia.
Qed.

Lemma snum_zero l : is_num 16 l -> (unum l =? 0) = (snum l =? 0).
Proof.
  intros Hl. rewrite (snum_spec 16) by done. pose proof (is_num_range 16 l Hl). zcase; lia.
Qed.

(** The product of two absolute values fits in the long buffer. *)
Lemma mul_rows_product a1 a2 :
  is_num 16 a1 -> is_num 16 a2 -> 2 * unum a1 <= 256 ^ 16 -> 2 * unum a2 <= 256 ^ 16 ->
  let r := mul_rows a1 (reverse (numeric_zero DB_NUMERIC_BUF_SIZE ++ numeric_copy a2)) 0
             (numeric_zero (2 * DB_NUMERIC_BUF_SIZE)) in
  is_num 32 r /\ unum r = unum a1 * unum a2.
Proof.
  intros Ha1 Ha2 U1 U2. rewrite copy_num by done.
  destruct (mul_rows_spec a1 (reverse (numeric_zero 16 ++ a2)) 0 (numeric_zero 32) Ha1)
    as [Hr Er].
  - rewrite reverse_app. apply Forall_app. split; [by apply Forall_reverse, Ha2|].
    by apply Forall_reverse, bytes_replicate.
  - split; [by apply bytes_replicate|done].
  - intros i Hi. rewrite reverse_app, lookup_app_r by (rewrite length_reverse, (proj2 Ha2); lia).
    unfold numeric_zero. rewrite reverse_replicate. by destruct (replicate 16 0 !! _) eqn:E;
      [apply lookup_replicate in E as [-> _]|].
  - split; [exact Hr|]. etransitivity; [exact Er|]. unfold numeric_zero.
    rewrite unum_reverse, unum_app, !unum_replicate_0.
    replace (0 + _) with (unum a1 * unum a2) by (cbn; lia).
    pose proof (is_num_range 16 a1 Ha1). pose proof (is_num_range 16 a2 Ha2).
    apply Z.mod_small. change (256 ^ 16) with (2 ^ 128) in *.
    change (256 ^ 32) with (2 ^ 128 * 2 ^ 128). nia.
Qed.

Lemma mul_spec l1 l2 :
  is_num 16 l1 -> is_num 16 l2 ->
  let '(positive, r) := numeric_mul l1 l2 in
  is_num 32 r /\ unum r = Z.abs (snum l1 * snum l2) /\ positive = (0 <=? snum l1 * snum l2).
Proof.
  intros H1 H2. unfold numeric_mul. rewrite !is_zero_spec, !snum_zero by done.
  destruct ((snum l1 =? 0) || (snum l2 =? 0)) eqn:E0.
  { split; [split; [by apply bytes_replicate|done]|].
    unfold numeric_zero. rewrite unum_replicate_0. nia. }
  rewrite !copy_num by done.
  destruct (abs_num 16 ltac:(done) l1 H1) as [A1 E1].
  destruct (abs_num 16 ltac:(done) l2 H2) as [A2 E2]. cbn zeta in *.
  pose proof (negative_snum 16 ltac:(done) l1 H1) as N1.
  pose proof (negative_snum 16 ltac:(done) l2 H2) as N2.
  pose proof (snum_range 16 ltac:(done) l1 H1). pose proof (snum_range 16 ltac:(done) l2 H2).
  change (256 ^ Z.of_nat 16) with (256 ^ 16) in *.
  rewrite N1, N2 in *. unfold numeric_negate.
  destruct (snum l1 <? 0) eqn:S1, (snum l2 <? 0) eqn:S2; cbn [negb];
    match goal with |- is_num 32 (mul_rows ?a1 (reverse (_ ++ numeric_copy ?a2)) _ _) /\ _ =>
      destruct (mul_rows_product a1 a2) as [Hr Er]; try done; try lia;
      (split; [exact Hr|]); (split; [rewrite Er, E1, E2; lia|lia])
    end.
Qed.

(** ** Division *)

(** The first bit of a buffer. *)
Definition top_bit (l : NUM) : Z := byte_at l 0 / 128.

Lemma shift_byte_or b c :
  0 <= b < 256 -> 0 <= c < 2 -> uwrap 8 (Z.lor (Z.shiftl b 1) c) = (2 * b + c) mod 256.
Proof.
  intros Hb Hc. unfold uwrap. change (2 ^ 8) with 256. f_equal.
  rewrite Z.shiftl_mul_pow2 by lia. change (2 ^ 1) with 2.
  destruct (Z.eq_dec c 0) as [->|]; [rewrite Z.lor_0_r; lia|]. replace c with 1 by lia.
  rewrite Z.mul_comm. by destruct b as [|b|b]; try lia.
Qed.

Lemma shift_loop_spec m fill l :
  is_num m l -> 0 <= fill < 2 ->
  is_num m (shift_loop 1 fill l)
  /\ unum (shift_loop 1 fill l) + (if decide (m = O) then fill else top_bit l) * 256 ^ Z.of_nat m
     = 2 * unum l + fill.
Proof.
  intros Hl Hf. revert m Hl. induction l as [|b l IH]; intros m [Hl <-]; cbn [shift_loop length].
  { split; [done|]. rewrite decide_True by done. cbn [unum]. change (256 ^ Z.of_nat 0) with 1. lia. }
  apply bytes_cons in Hl as [Hb Hl]. destruct (IH (length l) (conj Hl eq_refl)) as [[Hr En] IH'].
  set (carry := match l with [] => fill | next :: _ => Z.shiftr next (8 - 1) end).
  assert (carry = if decide (length l = O) then fill else top_bit l) as Ec.
  { unfold carry. destruct l as [|c l]; [done|]. rewrite decide_False by done.
    unfold top_bit, byte_at. cbn. by rewrite Z.shiftr_div_pow2. }
  assert (0 <= carry < 2) as Hc.
  { rewrite Ec. case_decide; [done|]. unfold top_bit, byte_at. destruct l as [|c l]; [done|].
    apply bytes_cons in Hl as [? _]. cbn. dlia. }
  rewrite <- Ec in IH'. rewrite shift_byte_or by done.
  split; [split; [apply bytes_cons; split; [dlia|done]|cbn; congruence]|].
  unfold top_bit, byte_at. cbn [lookup list_lookup default]. rewrite decide_False by done.
  cbn [unum]. unfold size_of. rewrite En, Nat2Z.inj_succ, Z.pow_succ_r by lia.
  set (P := 256 ^ Z.of_nat (length l)) in *.
  assert ((2 * b + carry) mod 256 = 2 * b + carry - 256 * (b / 128)) as -> by dlia.
  cbn. lia.
Qed.

(** One step of the division of the pair (remainder, answer). *)
Lemma double_shift_spec m ans rem :
  m <> O -> is_num m ans -> is_num 16 rem -> 2 * unum rem + 1 < 256 ^ 16 ->
  let '(ans', rem') := numeric_double_shift_bit ans rem 1 in
  is_num m ans' /\ is_num 16 rem'
  /\ unum ans' = 2 * unum ans - top_bit ans * 256 ^ Z.of_nat m
  /\ unum rem' = 2 * unum rem + top_bit ans.
Proof.
  intros Hm Ha Hr Hs. unfold numeric_double_shift_bit.
  assert (Z.shiftr (byte_at ans 0) (8 - 1) = top_bit ans) as ->.
  { unfold top_bit. by rewrite Z.shiftr_div_pow2. }
  assert (0 <= top_bit ans < 2) as Ht.
  { destruct Ha as [Ha _]. destruct ans as [|b ans]; [done|]. apply bytes_cons in Ha as [? _].
    unfold top_bit, byte_at. cbn. dlia. }
  destruct (shift_loop_spec m 0 ans Ha) as [H1 E1]; [lia|].
  destruct (shift_loop_spec 16 (top_bit ans) rem Hr Ht) as [H2 E2].
  rewrite decide_False in E1 by done. rewrite decide_False in E2 by done. change (256 ^ Z.of_nat 16) with (256 ^ 16) in *.
  split; [done|]. split; [done|]. split; [lia|].
  pose proof (is_num_range 16 _ H2). change (256 ^ Z.of_nat 16) with (256 ^ 16) in *.
  assert (0 <= top_bit rem) by (pose proof (is_num_range 16 _ Hr); nia). nia.
Qed.

Section Division.
Context (m : nat) (Hm : m <> O) (d : Z) (a : Z) (arg2 neg_arg2 : NUM).
Notation N := (8 * Z.of_nat m).
Context (Hd : 0 < d) (Hd2 : 2 * d <= 256 ^ 16) (Ha : 0 <= a < 2 ^ N).
Context (H2 : is_num 16 arg2) (U2 : unum arg2 = d).
Context (H3 : is_num 16 neg_arg2) (U3 : unum neg_arg2 = (- d) mod 256 ^ 16).

(** After the first bits: [n] bits of the dividend are left in front of the
    quotient of the others. *)
Definition div_inv (n : Z) (ans rem : NUM) : Prop :=
  is_num m ans /\ is_num 16 rem
  /\ unum ans = a mod 2 ^ n * 2 ^ (N - n) + a / 2 ^ n / d
  /\ unum rem = (a / 2 ^ n) mod d.

Lemma pow2_succ n : 0 <= n -> 2 ^ (n + 1) = 2 * 2 ^ n.
Proof. intros Hn. replace (n + 1) with (Z.succ n) by lia. by rewrite Z.pow_succ_r. Qed.

(** The next bit of the dividend. *)
Lemma next_bit n : 0 <= n -> a / 2 ^ n = 2 * (a / 2 ^ (n + 1)) + a mod 2 ^ (n + 1) / 2 ^ n.
Proof.
  intros Hn. rewrite pow2_succ by done. pose proof (Z.pow_pos_nonneg 2 n ltac:(lia) Hn).
  rewrite (Z.mul_comm 2 (2 ^ n)) at 1. rewrite <- Z.div_div by lia.
  pose proof (Z.div_mod (a / 2 ^ n) 2 ltac:(lia)).
  assert (a mod (2 * 2 ^ n) / 2 ^ n = (a / 2 ^ n) mod 2) as ->; [|lia].
  rewrite (Z.mul_comm 2), Z.rem_mul_r by lia. rewrite Z.add_comm, Z.mul_comm, Z.div_add_l by lia.
  rewrite (Z.div_small (a mod 2 ^ n)); [lia|]. apply Z.mod_pos_bound. lia.
Qed.

Lemma top_bit_spec l : is_num m l -> top_bit l = unum l / 2 ^ (N - 1).
Proof.
  intros [Hl Hn]. destruct l as [|b l]; [by subst m|]. apply bytes_cons in Hl as [Hb Hl].
  unfold top_bit, byte_at. cbn [lookup list_lookup default unum].
  pose proof (unum_range l Hl) as Hu. pose proof (size_of_pos l) as Hs.
  assert (2 ^ (N - 1) = 128 * size_of l) as ->.
  { unfold size_of. cbn [length] in Hn. subst m. change 256 with (2 ^ 8).
    rewrite <- Z.pow_mul_r by lia. change 128 with (2 ^ 7). rewrite <- Z.pow_add_r by lia.
    f_equal. lia. }
  cbn. apply (Z.div_unique _ _ _ (b mod 128 * size_of l + unum l)).
  - left. pose proof (Z.mod_pos_bound b 128 ltac:(lia)). nia.
  - rewrite (Z.div_mod b 128) at 1 by lia. ring.
Qed.

Lemma alter_last l :
  is_num m l -> unum l mod 2 = 0 ->
  let r := alter (fun b => uwrap 8 (b + 1)) (length l - 1)%nat l in
  is_num m r /\ unum r = unum l + 1.
Proof.
  intros [Hl Hn] He. destruct l as [|b l _] using rev_ind; [by subst m|].
  apply Forall_app in Hl as [Hl [Hb _]%bytes_cons]. rewrite length_app in *. cbn [length] in *.
  cbn zeta. rewrite Nat.add_sub, alter_app_r_alt by lia. rewrite Nat.sub_diag. cbn.
  rewrite !unum_app in *. cbn in He |- *. unfold size_of in *. cbn in He |- *.
  change (256 ^ Z.of_nat 1) with 256 in *. change (256 ^ Z.of_nat 0) with 1 in *.
  assert (uwrap 8 (b + 1) = b + 1) as ->.
  { apply uwrap_small. change (2 ^ 8) with 256. dlia. }
  split; [|lia]. split; [|by rewrite length_app].
  apply Forall_app. split; [done|]. constructor; [dlia|done].
Qed.

(** The part of the dividend that is left, the part that has been divided. *)
Lemma split_dividend n :
  0 <= n -> n + 1 <= N ->
  let beta := a mod 2 ^ (n + 1) / 2 ^ n in
  a mod 2 ^ (n + 1) = beta * 2 ^ n + a mod 2 ^ n /\ 0 <= a / 2 ^ (n + 1) / d < 2 ^ (N - n - 1).
Proof.
  intros Hn HN beta. pose proof (Z.pow_pos_nonneg 2 n ltac:(lia) Hn) as Hpn. split.
  - unfold beta. rewrite (Z.div_mod (a mod 2 ^ (n + 1)) (2 ^ n)) at 1 by lia.
    rewrite Z.mod_mod_divide; [lia|]. exists 2. by apply pow2_succ.
  - assert (0 < 2 ^ (N - n - 1)) by (apply Z.pow_pos_nonneg; lia).
    assert (2 ^ N = 2 ^ (n + 1) * 2 ^ (N - n - 1)) by (rewrite <- Z.pow_add_r by lia; f_equal; lia).
    split; [apply Z.div_pos; [apply Z.div_pos; lia|lia]|].
    apply Z.div_lt_upper_bound; [lia|]. apply Z.div_lt_upper_bound; [lia|]. nia.
Qed.

(** The registers after the shift. *)
Lemma div_shift n ans rem :
  0 <= n -> n + 1 <= N -> div_inv (n + 1) ans rem ->
  let '(ans', rem') := numeric_double_shift_bit ans rem 1 in
  let q := a / 2 ^ (n + 1) / d in
  is_num m ans' /\ is_num 16 rem' /\ unum ans' = a mod 2 ^ n * 2 ^ (N - n) + 2 * q
  /\ a / 2 ^ n = 2 * (d * q) + unum rem' /\ 0 <= unum rem' < 2 * d.
Proof.
  intros Hn HN (Ha1 & Hr1 & Ea & Er).
  pose proof (Z.mod_pos_bound (a / 2 ^ (n + 1)) d Hd) as Hrem.
  pose proof (double_shift_spec m ans rem Hm Ha1 Hr1 ltac:(lia)) as Hs.
  destruct (numeric_double_shift_bit ans rem 1) as [ans' rem'].
  destruct Hs as (Ha' & Hr' & Ea' & Er'). destruct (split_dividend n Hn HN) as [Eb Hq].
  set (beta := a mod 2 ^ (n + 1) / 2 ^ n) in *. set (T := 2 ^ (N - n - 1)) in *.
  assert (2 ^ (N - (n + 1)) = T) as Et1 by (unfold T; f_equal; lia). rewrite Et1 in Ea.
  assert (2 ^ (N - n) = 2 * T) as Et2.
  { unfold T. rewrite <- Z.pow_succ_r by lia. f_equal. lia. }
  assert (2 ^ (N - 1) = 2 ^ n * T) as Et3 by (unfold T; rewrite <- Z.pow_add_r by lia; f_equal; lia).
  pose proof (Z.mod_pos_bound a (2 ^ n) ltac:(lia)) as Hlow.
  assert (top_bit ans = beta) as Etop.
  { rewrite top_bit_spec by done. rewrite Ea, Eb, Et3. symmetry.
    apply (Z.div_unique _ _ _ (a mod 2 ^ n * T + a / 2 ^ (n + 1) / d)); [left; nia|ring]. }
  rewrite Etop in *. pose proof (next_bit n Hn) as HA. fold beta in HA.
  pose proof (Z.div_mod (a / 2 ^ (n + 1)) d ltac:(lia)) as HA1.
  assert (0 <= beta < 2).
  { split; [apply Z.div_pos; [apply Z.mod_pos_bound|]; lia|]. apply Z.div_lt_upper_bound; [lia|].
    pose proof (Z.mod_pos_bound a (2 ^ (n + 1)) ltac:(lia)). rewrite pow2_succ in * by done. lia. }
  cbn zeta. split; [done|]. split; [done|]. split; [|lia].
  rewrite Ea', Ea, Eb, Et2, (pow256_half m Hm), Et3. ring.
Qed.

Lemma div_step n ans rem :
  0 <= n -> n + 1 <= N -> div_inv (n + 1) ans rem ->
  let '(ans, rem) := numeric_double_shift_bit ans rem 1 in
  if numeric_compare_pos rem arg2 >=? 0
  then div_inv n (alter (fun b => uwrap 8 (b + 1)) (length ans - 1)%nat ans)
         (numeric_add rem neg_arg2 16)
  else div_inv n ans rem.
Proof.
  intros Hn HN Hi. pose proof (div_shift n ans rem Hn HN Hi) as Hs.
  destruct (numeric_double_shift_bit ans rem 1) as [ans' rem'].
  set (q := a / 2 ^ (n + 1) / d) in *. destruct Hs as (Ha' & Hr' & Eans & EA & Hrem).
  assert (2 ^ (N - n) = 2 * 2 ^ (N - n - 1)) as Et by (rewrite <- Z.pow_succ_r by lia; f_equal; lia).
  rewrite (compare_pos_spec 16), U2 by done. destruct (Z.sgn (unum rem' - d) >=? 0) eqn:Ec.
  - assert (d <= unum rem') by lia. destruct (alter_last ans' Ha') as [Hx Ex].
    { rewrite Eans, Et. replace (_ + 2 * q) with ((a mod 2 ^ n * 2 ^ (N - n - 1) + q) * 2) by ring.
      apply Z_mod_mult. }
    destruct (add_num 16 rem' neg_arg2 Hr' H3) as [Hy Ey].
    split; [exact Hx|]. split; [exact Hy|]. rewrite Ex, Ey, Eans, U3.
    change (256 ^ Z.of_nat 16) with (256 ^ 16) in *. rewrite Zplus_mod_idemp_r. split.
    + rewrite <- Z.add_assoc. f_equal. apply (Z.div_unique _ _ _ (unum rem' - d)); lia.
    + rewrite Z.mod_small by lia. apply (Z.mod_unique _ _ (2 * q + 1)); lia.
  - split; [done|]. split; [done|]. rewrite Eans. split.
    + f_equal. apply (Z.div_unique _ _ _ (unum rem')); lia.
    + apply (Z.mod_unique _ _ (2 * q)); lia.
Qed.

Lemma div_loop_spec n ans rem :
  Z.of_nat n <= N -> div_inv (Z.of_nat n) ans rem ->
  let '(ans', rem') := div_loop n arg2 neg_arg2 ans rem in
  is_num m ans' /\ is_num 16 rem' /\ unum ans' = a / d /\ unum rem' = a mod d.
Proof.
  revert ans rem. induction n as [|n IH]; intros ans rem HN Hi; cbn [div_loop].
  { destruct Hi as (H1 & H4 & E1 & E2). change (Z.of_nat 0) with 0 in *.
    change (2 ^ 0) with 1 in *. rewrite Z.mod_1_r, Z.div_1_r in *.
    split; [done|]. split; [done|]. split; [lia|done]. }
  rewrite Nat2Z.inj_succ in *. pose proof (div_step (Z.of_nat n) ans rem ltac:(lia) HN Hi) as Hs.
  destruct (numeric_double_shift_bit ans rem 1) as [ans' rem'].
  destruct (numeric_compare_pos rem' arg2 >=? 0); apply IH; try lia; exact Hs.
Qed.
End Division.
