(* ===== verification/NumericDiv.v ===== *)
(** * Exact numeric values: division, conversions and scaling

    Specifications of the division of numeric_opfunc.c (numeric_long_div and
    numeric_div), of its conversions between numbers, integers and long
    numbers, and of its scaling by powers of ten. *)
From Stdlib Require Import ZArith Lia ZifyBool.
From stdpp Require Import base list numbers gmap.
From S2P Require Import Prelude Numeric NumericArith.

(** ** Sign extension *)

Lemma unum_replicate_255 n : unum (replicate n 255) = 256 ^ Z.of_nat n - 1.
Proof.
  induction n as [|n IH]; [done|]. cbn [replicate unum]. rewrite IH.
  unfold size_of. rewrite length_replicate, Nat2Z.inj_succ, Z.pow_succ_r by lia. lia.
Qed.

Definition pad_of (neg : bool) : Z := if neg then 255 else 0.

Lemma is_num_app n k l1 l2 : is_num n l1 -> is_num k l2 -> is_num (n + k) (l1 ++ l2).
Proof. intros [H1 E1] [H2 E2]. split; [by apply Forall_app|rewrite length_app; lia]. Qed.

Lemma is_num_drop n k l : is_num (n + k) l -> is_num k (drop n l).
Proof. intros [H E]. split; [by apply Forall_drop|rewrite length_drop; lia]. Qed.

Lemma is_num_replicate n b : 0 <= b < 256 -> is_num n (replicate n b).
Proof. intros Hb. split; [by apply bytes_replicate|apply length_replicate]. Qed.

Lemma pad_num n neg : is_num n (replicate n (pad_of neg)).
Proof. apply is_num_replicate. destruct neg; cbn; lia. Qed.

(** Bytes equal to the sign in front of a number do not change it. *)
Lemma snum_extend n k l :
  k <> O -> is_num k l -> snum (replicate n (pad_of (numeric_is_negative l)) ++ l) = snum l.
Proof.
  intros Hk Hl. set (r := replicate _ _ ++ l).
  assert (is_num (n + k) r) as Hr by (apply is_num_app; [apply pad_num|done]).
  pose proof (snum_range k Hk l Hl) as Hs. pose proof (Z.pow_pos_nonneg 256 (Z.of_nat k)) as Hp.
  assert (256 ^ Z.of_nat (n + k) = 256 ^ Z.of_nat n * 256 ^ Z.of_nat k) as E.
  { rewrite Nat2Z.inj_add, Z.pow_add_r; lia. }
  assert (1 <= 256 ^ Z.of_nat n) by (pose proof (Z.pow_pos_nonneg 256 (Z.of_nat n)); lia).
  apply (snum_eq (n + k)); [lia|done| |rewrite E; nia].
  unfold r. rewrite unum_app, (is_num_size k l Hl), E, (snum_spec k), (negative_num k) by done.
  pose proof (is_num_range k l Hl). destruct (_ <=? _); cbn [pad_of].
  - rewrite unum_replicate_255. apply (Z.mod_unique _ _ (-1)); [left; nia|ring].
  - rewrite unum_replicate_0, Z.mod_small by nia. ring.
Qed.

(** ** Numbers of machine integers *)

Fixpoint desc (k : nat) : list Z :=
  match k with O => [] | S k => Z.of_nat k :: desc k end.

Lemma int_bytes k x :
  is_num k ((fun i => Z.land (Z.shiftr x (8 * i)) 255) <$> desc k)
  /\ unum ((fun i => Z.land (Z.shiftr x (8 * i)) 255) <$> desc k) = x mod 256 ^ Z.of_nat k.
Proof.
  induction k as [|k [[Hb Hl] IH]].
  { split; [split; [constructor|done]|]. cbn [desc fmap list_fmap unum]. change (256 ^ Z.of_nat 0) with 1. by rewrite Z.mod_1_r. }
  cbn [desc fmap list_fmap]. change 255 with (Z.ones 8) at 1 3.
  rewrite Z.land_ones, Z.shiftr_div_pow2, Z.pow_mul_r by lia. change (2 ^ 8) with 256. split.
  - split; [|cbn [length]; by rewrite Hl]. constructor; [apply Z.mod_pos_bound; lia|done].
  - cbn [unum]. unfold size_of. rewrite IH, Hl, Nat2Z.inj_succ, Z.pow_succ_r by lia.
    rewrite (Z.mul_comm 256), Z.rem_mul_r by lia. ring.
Qed.

Lemma snum_int_bytes n k x :
  k <> O -> - 256 ^ Z.of_nat k <= 2 * x < 256 ^ Z.of_nat k ->
  let r := replicate n (if x >=? 0 then 0 else 255)
           ++ ((fun i => Z.land (Z.shiftr x (8 * i)) 255) <$> desc k) in
  is_num (n + k) r /\ snum r = x.
Proof.
  intros Hk Hx r. destruct (int_bytes k x) as [Hn E]. pose proof (snum_eq k Hk _ _ Hn E Hx) as Es.
  pose proof (negative_snum k Hk _ Hn) as Eneg. rewrite Es in Eneg.
  assert ((if x >=? 0 then 0 else 255) = pad_of (numeric_is_negative
    ((fun i => Z.land (Z.shiftr x (8 * i)) 255) <$> desc k))) as Ep.
  { rewrite Eneg. destruct (x <? 0) eqn:?, (x >=? 0) eqn:?; cbn; lia. }
  unfold r. rewrite Ep. split; [apply is_num_app; [apply pad_num|done]|].
  by rewrite (snum_extend n k) by done.
Qed.

Lemma int_to_num x :
  - 2 ^ 31 <= x < 2 ^ 31 ->
  is_num 16 (numeric_coerce_int_to_num x) /\ snum (numeric_coerce_int_to_num x) = x.
Proof.
  intros Hx. apply (snum_int_bytes 12 4 x); [done|]. change (256 ^ Z.of_nat 4) with (2 ^ 32). lia.
Qed.

Lemma bigint_to_num x :
  - 2 ^ 63 <= x < 2 ^ 63 ->
  is_num 16 (numeric_coerce_bigint_to_num x) /\ snum (numeric_coerce_bigint_to_num x) = x.
Proof.
  intros Hx. apply (snum_int_bytes 8 8 x); [done|]. change (256 ^ Z.of_nat 8) with (2 ^ 64). lia.
Qed.

(** ** Which numbers are machine integers *)

Lemma byte_at_lookup l i : (i < length l)%nat -> l !! i = Some (byte_at l i).
Proof. intros Hi. unfold byte_at. by destruct (lookup_lt_is_Some_2 l i Hi) as [b ->]. Qed.

Lemma byte_at_range n l i : is_num n l -> 0 <= byte_at l i < 256.
Proof.
  intros [Hl _]. unfold byte_at. destruct (l !! i) as [b|] eqn:E; cbn; [|lia].
  by apply (Forall_lookup_1 _ _ _ _ Hl E).
Qed.

Lemma byte_at_drop n l : byte_at (drop n l) 0 = byte_at l n.
Proof. unfold byte_at. by rewrite lookup_drop, Nat.add_0_r. Qed.

Lemma negative_byte n l : is_num n l -> numeric_is_negative l = negb (byte_at l 0 <? 128).
Proof.
  intros Hl. unfold numeric_is_negative. rewrite byte_sign by (by eapply byte_at_range).
  by destruct (_ <? _).
Qed.

Lemma leading_bytes n p l :
  (n <= length l)%nat ->
  (forall i, (i < n)%nat -> byte_at l i = p) <-> l = replicate n p ++ drop n l.
Proof.
  intros Hn. split.
  - intros Hp. rewrite <- (take_drop n l) at 1. f_equal.
    apply list_eq_same_length with n; [apply length_replicate|rewrite length_take; lia|].
    intros i x y Hi. rewrite lookup_take_lt, byte_at_lookup, Hp by lia. intros [= <-].
    by intros [-> _]%lookup_replicate.
  - intros E i Hi. rewrite E. unfold byte_at.
    by rewrite lookup_app_l, lookup_replicate_2 by (rewrite ?length_replicate; lia).
Qed.

Lemma forallb_seq (f : nat -> bool) i n :
  forallb f (seq i n) = true <-> forall j, (i <= j < i + n)%nat -> f j = true.
Proof.
  rewrite forallb_forall. setoid_rewrite in_seq. done.
Qed.

(** The leading bytes of a number are its sign. *)
Lemma sign_extended_list k l :
  is_num 16 l -> (0 < k < 16)%nat ->
  let low := drop (16 - k) l in
  sign_extended l k = true
  <-> l = replicate (16 - k) (pad_of (numeric_is_negative low)) ++ low.
Proof.
  intros Hl Hk low. assert (is_num k low) as Hlow.
  { apply is_num_drop. by replace (16 - k + k)%nat with 16%nat by lia. }
  rewrite (negative_byte k low Hlow). unfold low at 1. rewrite byte_at_drop. unfold low.
  rewrite <- leading_bytes by (destruct Hl; lia).
  pose proof (byte_at_range 16 l (16 - k) Hl) as Hb. pose proof (byte_at_range 16 l 0 Hl) as H0.
  unfold sign_extended. change DB_NUMERIC_BUF_SIZE with 16%nat. rewrite !byte_sign by done. split.
  - intros Hs i Hi. destruct (_ && _) eqn:Ep; [done|]. destruct (forallb _ _) eqn:Ef; [|done].
    rewrite forallb_seq in Ef. assert (byte_at l i = byte_at l 0) as ->.
    { destruct i as [|i]; [done|]. specialize (Ef (S i) ltac:(lia)). lia. }
    destruct (byte_at l (16 - k) <? 128) eqn:?, (byte_at l 0 <? 128) eqn:?; cbn in *; lia.
  - intros Hp. rewrite (Hp 0%nat) by lia.
    destruct (forallb _ _) eqn:Ef; [by destruct (byte_at l (16 - k) <? 128)|].
    apply not_true_iff_false in Ef. exfalso. apply Ef, forallb_seq. intros j Hj.
    rewrite Hp by lia. apply Z.eqb_refl.
Qed.

Lemma extended_list n k l :
  k <> O -> is_num (n + k) l ->
  let low := drop n l in
  l = replicate n (pad_of (numeric_is_negative low)) ++ low
  <-> - 256 ^ Z.of_nat k <= 2 * snum l < 256 ^ Z.of_nat k.
Proof.
  intros Hk Hl low. assert (is_num k low) as Hlow by (by apply is_num_drop). split.
  - intros E. assert (snum l = snum low) as ->; [|by apply snum_range].
    rewrite E at 1. by apply (snum_extend _ k).
  - intros Hs. destruct (snum_int_bytes n k (snum l)) as [Hr Er]; [done|done|].
    pose proof (snum_inj (n + k) ltac:(lia) l _ Hl Hr ltac:(done)) as E.
    assert (low = (fun i => Z.land (Z.shiftr (snum l) (8 * i)) 255) <$> desc k) as El.
    { unfold low. rewrite E at 1. by rewrite drop_app_length' by (by rewrite length_replicate). }
    destruct (int_bytes k (snum l)) as [Hn En]. rewrite E at 1. rewrite <- El. f_equal. f_equal.
    rewrite (negative_snum k) by done. rewrite El, (snum_eq k Hk _ _ Hn En) by done.
    destruct (snum l >=? 0) eqn:?, (snum l <? 0) eqn:?; cbn; lia.
Qed.

Lemma sign_extended_spec k l :
  is_num 16 l -> (0 < k < 16)%nat ->
  sign_extended l k = true <-> - 256 ^ Z.of_nat k <= 2 * snum l < 256 ^ Z.of_nat k.
Proof.
  intros Hl Hk. rewrite sign_extended_list by done. apply extended_list; [lia|].
  by replace (16 - k + k)%nat with 16%nat by lia.
Qed.

Lemma snum_low k l :
  is_num 16 l -> (0 < k < 16)%nat -> sign_extended l k = true ->
  is_num k (drop (16 - k) l) /\ snum (drop (16 - k) l) = snum l.
Proof.
  intros Hl Hk Hs. assert (is_num k (drop (16 - k) l)) as Hlow.
  { apply is_num_drop. by replace (16 - k + k)%nat with 16%nat by lia. }
  split; [done|]. apply sign_extended_list in Hs; [|done|done]. rewrite Hs at 2.
  by rewrite (snum_extend _ k) by (done || lia).
Qed.

Lemma swrap_unum k l : k <> O -> is_num k l -> swrap (8 * Z.of_nat k) (unum l) = snum l.
Proof.
  intros Hk Hl. rewrite (snum_spec k) by done. pose proof (is_num_range k l Hl) as Hr.
  unfold swrap. rewrite (pow256_half k Hk) in *.
  assert (2 ^ (8 * Z.of_nat k) = 2 * 2 ^ (8 * Z.of_nat k - 1)) as E.
  { rewrite <- Z.pow_succ_r by lia. f_equal. lia. }
  rewrite E. destruct (_ <=? _) eqn:Ec.
  - rewrite <- (Z.mod_unique (unum l + 2 ^ (8 * Z.of_nat k - 1)) _ 1
                 (unum l - 2 ^ (8 * Z.of_nat k - 1))); lia.
  - rewrite Z.mod_small; lia.
Qed.

Lemma foldl_unum acc l : foldl (fun acc b => acc * 256 + b) acc l = acc * size_of l + unum l.
Proof.
  revert acc. induction l as [|b l IH]; intros acc; cbn [foldl unum].
  - unfold size_of. cbn. lia.
  - rewrite IH, size_of_cons. ring.
Qed.

Lemma low_bigint_spec l :
  is_num 16 l -> numeric_is_bigint l = true -> low_bigint l = snum l.
Proof.
  intros Hl Hb. destruct (snum_low 8 l Hl ltac:(lia) Hb) as [Hn <-].
  unfold low_bigint. rewrite foldl_unum. by apply (swrap_unum 8).
Qed.

Lemma long_bytes l :
  is_num 16 l -> numeric_is_long l = true ->
  exists b3 b2 b1 b0, l = replicate 12 (pad_of (numeric_is_negative l)) ++ [b3; b2; b1; b0]
  /\ is_num 4 [b3; b2; b1; b0] /\ snum [b3; b2; b1; b0] = snum l.
Proof.
  intros Hl Hs. destruct (snum_low 4 l Hl ltac:(lia) Hs) as [Hn Es].
  apply sign_extended_list in Hs; [|done|lia]. cbn zeta in Hs.
  rewrite (negative_snum 4), Es, <- (negative_snum 16) in Hs by done.
  change (16 - 4)%nat with 12%nat in *.
  destruct (drop 12 l) as [|b3 [|b2 [|b1 [|b0 [|]]]]]; try by destruct Hn. by exists b3, b2, b1, b0.
Qed.

Lemma num_to_int_spec l :
  is_num 16 l -> numeric_is_long l = true -> numeric_coerce_num_to_int l = snum l.
Proof.
  intros Hl Hs. destruct (long_bytes l Hl Hs) as (b3 & b2 & b1 & b0 & El & Hn & Es).
  unfold numeric_coerce_num_to_int. fold (pad_of (numeric_is_negative l)).
  assert (forall i, (i < 12)%nat -> byte_at l i = pad_of (numeric_is_negative l)) as Hp.
  { apply leading_bytes; [destruct Hl; lia|]. rewrite El at 3. exact El. }
  rewrite (proj2 (forallb_seq _ _ _)).
  2: { intros j Hj. change DB_NUMERIC_BUF_SIZE with 16%nat in Hj. rewrite Hp by lia. apply Z.eqb_refl. }
  rewrite <- Es, <- (swrap_unum 4) by done. rewrite El. change (8 * Z.of_nat 4) with 32. f_equal.
  cbn [byte_at default lookup list_lookup replicate app unum size_of length].
  rewrite !Z.shiftl_mul_pow2 by lia. unfold byte_at. cbn. unfold size_of. cbn. lia.
Qed.

(** ** Division *)

Lemma div_inv_start m d a :
  0 < d -> 0 <= a < 2 ^ (8 * Z.of_nat m) -> forall l, is_num m l -> unum l = a ->
  div_inv m d a (8 * Z.of_nat m) l (numeric_coerce_int_to_num 0).
Proof.
  intros Hd Ha l Hl El. destruct (int_to_num 0 ltac:(lia)) as [Hz _].
  split; [done|]. split; [done|]. rewrite Z.sub_diag, (Z.div_small a), (Z.mod_small a), El by lia.
  rewrite Z.div_0_l, Z.mod_0_l by lia. split; [change (2 ^ 0) with 1; lia|done].
Qed.

(** The loop divides positive numbers. *)
Lemma div_loop_num m x1 x2 :
  m <> O -> is_num m x1 -> is_num 16 x2 -> 0 < unum x2 -> 2 * unum x2 <= 256 ^ 16 ->
  let '(q, r) := div_loop (m * 8) x2 (numeric_negate x2) x1 (numeric_coerce_int_to_num 0) in
  is_num m q /\ is_num 16 r /\ unum q = unum x1 / unum x2 /\ unum r = unum x1 mod unum x2.
Proof.
  intros Hm H1 H2 Hd Hd2. destruct (negate_num 16 ltac:(done) x2 H2) as [A3 E3].
  pose proof (is_num_range m x1 H1) as R1. change 256 with (2 ^ 8) in R1.
  rewrite <- Z.pow_mul_r in R1 by lia. apply (div_loop_spec m Hm); try done; [lia|].
  rewrite Nat2Z.inj_mul, Z.mul_comm. by apply div_inv_start.
Qed.

Lemma negate_if n (neg : bool) l :
  n <> O -> is_num n l ->
  is_num n (if neg then numeric_negate_long l else l)
  /\ unum (if neg then numeric_negate_long l else l)
     = (if neg then - unum l else unum l) mod 256 ^ Z.of_nat n.
Proof.
  intros Hn Hl. destruct neg; [by apply negate_num|]. split; [done|].
  pose proof (is_num_range n l Hl). by rewrite Z.mod_small.
Qed.

Lemma abs_arg n l :
  n <> O -> is_num n l ->
  exists x, is_num n x /\ unum x = Z.abs (snum l)
  /\ (if numeric_is_negative l then (numeric_negate_long l, true) else (l, false)) = (x, snum l <? 0).
Proof.
  intros Hn Hl. destruct (abs_num n Hn l Hl) as [Ha Ea]. eexists. split; [done|]. split; [done|].
  rewrite <- (negative_snum n Hn l Hl). by destruct (numeric_is_negative l).
Qed.

Lemma quot_sign a b :
  b <> 0 ->
  Z.quot a b = if xorb (a <? 0) (b <? 0) then - (Z.abs a / Z.abs b) else Z.abs a / Z.abs b.
Proof. intros Hb. rewrite Z.quot_div by done. destruct a, b; cbn -[Z.div]; try done; lia. Qed.

Lemma rem_sign a b :
  b <> 0 -> Z.rem a b = if a <? 0 then - (Z.abs a mod Z.abs b) else Z.abs a mod Z.abs b.
Proof. intros Hb. rewrite Z.rem_mod by done. destruct a, b; cbn -[Z.modulo]; try done; lia. Qed.

Lemma long_div_spec m l1 l2 :
  m <> O -> is_num m l1 -> is_num 16 l2 -> snum l2 <> 0 ->
  let '(q, r) := numeric_long_div l1 l2 in
  is_num m q /\ is_num 16 r
  /\ unum q = (Z.quot (snum l1) (snum l2)) mod 256 ^ Z.of_nat m
  /\ snum r = Z.rem (snum l1) (snum l2).
Proof.
  intros Hm H1 H2 Hnz. unfold numeric_long_div. rewrite copy_num by done.
  destruct (abs_arg m l1 Hm H1) as (x1 & A1 & E1 & P1).
  destruct (abs_arg 16 l2 ltac:(done) H2) as (x2 & A2 & E2 & P2).
  assert ((if numeric_is_negative l1 then (numeric_negate_long l1, true, true) else (l1, false, false))
          = (x1, snum l1 <? 0, snum l1 <? 0)) as ->.
  { destruct (numeric_is_negative l1); congruence. }
  assert ((if numeric_is_negative l2 then (numeric_negate l2, negb (snum l1 <? 0))
           else (l2, snum l1 <? 0)) = (x2, xorb (snum l1 <? 0) (snum l2 <? 0))) as ->.
  { unfold numeric_negate. destruct (numeric_is_negative l2); injection P2 as -> <-; 
      by destruct (snum l1 <? 0). }
  pose proof (snum_range 16 ltac:(done) l2 H2) as R2. destruct H1 as [_ ->].
  pose proof (div_loop_num m x1 x2 Hm A1 A2 ltac:(lia) ltac:(lia)) as HL.
  destruct (div_loop _ _ _ _ _) as [q r]. destruct HL as (Hq & Hr & Eq & Er).
  rewrite E1, E2 in Eq, Er. rewrite quot_sign, rem_sign, <- Eq, <- Er by done.
  pose proof (Z.mod_pos_bound (Z.abs (snum l1)) (Z.abs (snum l2)) ltac:(lia)).
  destruct (signed_num 16 ltac:(done) (snum l1 <? 0) r Hr ltac:(lia)) as [B1 B2].
  destruct (negate_if m (xorb (snum l1 <? 0) (snum l2 <? 0)) q Hm Hq) as [C1 C2]. done.
Qed.

Lemma quot_range w x y :
  - w <= x < w -> y <> 0 -> ~ (x = - w /\ y = -1) ->
  - w <= Z.quot x y < w /\ - w <= Z.rem x y < w.
Proof.
  intros Hx Hy Ht. pose proof (Z.quot_rem x y Hy). pose proof (Z.rem_bound_abs x y Hy).
  assert (Z.abs (Z.rem x y) <= Z.abs x).
  { rewrite <- Z.rem_abs by done. apply Z.rem_le; lia. }
  assert (x < 0 -> Z.rem x y <= 0) by (pose proof (Z.rem_sign_mul x y Hy); nia).
  assert (Z.abs (Z.quot x y) <= Z.abs x /\ (Z.abs (Z.quot x y) = Z.abs x -> Z.abs y = 1 \/ x = 0)) as [Hq Hq1].
  { rewrite <- Z.quot_abs by done. split; [apply Z.quot_le_upper_bound; nia|].
    intros E. destruct (decide (x = 0)); [by right|]. left.
    pose proof (Z.mul_quot_le (Z.abs x) (Z.abs y) ltac:(lia) ltac:(lia)). rewrite E in *. nia. }
  destruct (decide (y = -1)) as [->|].
  - assert (Z.quot x (-1) = - x); [|lia].
    change (-1) with (Z.opp 1). rewrite Z.quot_opp_r, Z.quot_1_r; lia.
  - destruct (decide (y = 1)) as [->|]; [rewrite Z.quot_1_r in *; lia|lia].
Qed.

(** The quotients for which the machine division traps. *)
Definition div_traps (x y : Z) : bool := (y =? -1) && ((x =? - 2 ^ 31) || (x =? - 2 ^ 63)).

Definition is_quotient (x y : Z) (qr : NUM * NUM) : Prop :=
  is_num 16 qr.1 /\ is_num 16 qr.2
  /\ unum qr.1 = (Z.quot x y) mod 256 ^ 16 /\ snum qr.2 = Z.rem x y.

Lemma is_quotient_snum x y q r :
  is_num 16 q /\ snum q = Z.quot x y -> is_num 16 r /\ snum r = Z.rem x y ->
  is_quotient x y (q, r).
Proof.
  intros [Hq Eq] [Hr Er]. split; [done|]. split; [done|]. split; [|done].
  by rewrite <- Eq, (snum_mod 16).
Qed.

Lemma is_long_range l : is_num 16 l -> numeric_is_long l = true <-> - 2 ^ 31 <= snum l < 2 ^ 31.
Proof.
  intros Hl. unfold numeric_is_long. rewrite sign_extended_spec by (done || lia).
  change (256 ^ Z.of_nat 4) with (2 ^ 32). lia.
Qed.

Lemma is_bigint_range l : is_num 16 l -> numeric_is_bigint l = true <-> - 2 ^ 63 <= snum l < 2 ^ 63.
Proof.
  intros Hl. unfold numeric_is_bigint. rewrite sign_extended_spec by (done || lia).
  change (256 ^ Z.of_nat 8) with (2 ^ 64). lia.
Qed.

Lemma div_spec l1 l2 out :
  is_num 16 l1 -> is_num 16 l2 -> snum l2 <> 0 ->
  if div_traps (snum l1) (snum l2) then numeric_div l1 l2 out = None
  else exists qr, numeric_div l1 l2 out = Some qr /\ is_quotient (snum l1) (snum l2) qr.
Proof.
  intros H1 H2 Hnz. unfold numeric_div, div_traps.
  rewrite !is_zero_spec, !snum_zero by done. rewrite (proj2 (Z.eqb_neq _ _) Hnz).
  destruct (snum l1 =? 0) eqn:E0.
  { replace (snum l1) with 0 by lia. rewrite andb_false_r. eexists. split; [done|].
    by apply is_quotient_snum; rewrite ?Z.quot_0_l, ?Z.rem_0_l by done; apply int_to_num. }
  destruct (numeric_is_long l1 && numeric_is_long l2) eqn:El.
  { apply andb_true_iff in El as [El1 El2]. rewrite !num_to_int_spec by done.
    apply is_long_range in El1, El2; [|done|done].
    destruct ((snum l1 =? - 2 ^ 31) && (snum l2 =? -1)) eqn:Et.
    - replace (_ && _) with true by lia. done.
    - replace (_ && _) with false by lia. eexists. split; [done|].
      destruct (quot_range (2 ^ 31) (snum l1) (snum l2)) as [Rq Rr]; [lia|done|lia|].
      by apply is_quotient_snum; apply int_to_num. }
  destruct (numeric_is_bigint l1 && numeric_is_bigint l2) eqn:Eb.
  - apply andb_true_iff in Eb as [Eb1 Eb2]. rewrite !low_bigint_spec by done.
    apply is_bigint_range in Eb1, Eb2; [|done|done].
    assert ((snum l2 =? -1) && (snum l1 =? - 2 ^ 31) = false) as Eq.
    { apply not_true_iff_false. intros [? ?]%andb_true_iff. apply andb_false_iff in El.
      rewrite <- !not_true_iff_false, !is_long_range in El by done. lia. }
    destruct ((snum l1 =? - 2 ^ 63) && (snum l2 =? -1)) eqn:Et.
    + replace (_ && _) with true by lia. done.
    + replace (_ && _) with false by lia. eexists. split; [done|].
      destruct (quot_range (2 ^ 63) (snum l1) (snum l2)) as [Rq Rr]; [lia|done|lia|].
      by apply is_quotient_snum; apply bigint_to_num.
  - assert ((snum l2 =? -1) && ((snum l1 =? - 2 ^ 31) || (snum l1 =? - 2 ^ 63)) = false) as ->.
    { apply not_true_iff_false. intros [? ?]%andb_true_iff. apply andb_false_iff in Eb.
      rewrite <- !not_true_iff_false, !is_bigint_range in Eb by done. lia. }
    eexists. split; [done|]. pose proof (long_div_spec 16 l1 l2 ltac:(done) H1 H2 Hnz) as Hd.
    by destruct (numeric_long_div l1 l2).
Qed.

(** ** Long numbers *)

Lemma short_to_long l :
  is_num 16 l ->
  is_num 32 (numeric_shortnum_to_longnum l) /\ snum (numeric_shortnum_to_longnum l) = snum l.
Proof.
  intros Hl. unfold numeric_shortnum_to_longnum. rewrite copy_num by done.
  assert ((if numeric_is_negative l then numeric_negative_one DB_NUMERIC_BUF_SIZE
           else numeric_zero DB_NUMERIC_BUF_SIZE)
          = replicate 16 (pad_of (numeric_is_negative l))) as ->.
  { by destruct (numeric_is_negative l). }
  split; [apply (is_num_app 16 16); [apply pad_num|done]|by apply (snum_extend 16 16)].
Qed.

Lemma forallb_take n p l :
  (n <= length l)%nat ->
  forallb (fun b => b =? p) (take n l) = true <-> l = replicate n p ++ drop n l.
Proof.
  intros Hn. rewrite <- (leading_bytes n p l Hn), forallb_forall. split.
  - intros H i Hi. apply Z.eqb_eq, H, list_elem_of_In, (list_elem_of_lookup_2 _ i).
    by rewrite lookup_take_lt, byte_at_lookup by lia.
  - intros H x Hx. apply list_elem_of_In, list_elem_of_lookup_1 in Hx as [i Hx].
    apply lookup_take_Some in Hx as [Hx Hi]. specialize (H i Hi). unfold byte_at in H.
    rewrite Hx in H. cbn in H. lia.
Qed.

Lemma longnum_list l :
  is_num 32 l ->
  numeric_is_longnum_value l = false
  <-> l = replicate 16 (pad_of (numeric_is_negative (drop 16 l))) ++ drop 16 l.
Proof.
  intros Hl. assert (is_num 16 (drop 16 l)) as Hd by (by apply (is_num_drop 16 16)).
  rewrite (negative_byte 16 _ Hd), byte_at_drop. pose proof (byte_at_range 32 l 16 Hl) as Hb.
  pose proof (byte_at_range 32 l 0 Hl) as Hb0. destruct Hl as [Hbs Hl].
  pose proof (fun p => forallb_take 16 p l ltac:(lia)) as Hp.
  assert (forall p, l = replicate 16 p ++ drop 16 l -> byte_at l 0 = p) as H0.
  { intros p E. rewrite E. done. }
  unfold numeric_is_longnum_value. cbn -[take drop byte_at]. rewrite byte_sign by done.
  rewrite (negative_byte 32 l) by done.
  destruct (byte_at l 0 <? 128) eqn:E0, (byte_at l 16 <? 128) eqn:E16; cbn [negb pad_of];
    rewrite ?orb_true_r, ?orb_false_r; (split; [intros E|intros E; specialize (H0 _ E)]); try done; try lia.
  all: try (apply negb_false_iff; by apply Hp).
  all: apply Hp; by apply negb_false_iff.
Qed.

Lemma longnum_spec l :
  is_num 32 l ->
  numeric_is_longnum_value l = false <-> - 256 ^ 16 <= 2 * snum l < 256 ^ 16.
Proof. intros Hl. rewrite longnum_list by done. by apply (extended_list 16 16). Qed.

Lemma long_to_short l :
  is_num 32 l ->
  if (- 256 ^ 16 <=? 2 * snum l) && (2 * snum l <? 256 ^ 16)
  then exists r, numeric_longnum_to_shortnum l = (NO_ERROR, Some r) /\ is_num 16 r /\ snum r = snum l
  else numeric_longnum_to_shortnum l = (ER_NUM_OVERFLOW, None).
Proof.
  intros Hl. pose proof (longnum_spec l Hl) as Hs. unfold numeric_longnum_to_shortnum.
  assert (is_num 16 (drop 16 l)) as Hd by (by apply (is_num_drop 16 16)).
  destruct (numeric_is_longnum_value l) eqn:E.
  - destruct (_ && _) eqn:Ec; [|done]. exfalso. assert (true = false); [apply Hs; lia|done].
  - replace (_ && _) with true by lia. eexists. split; [done|]. rewrite copy_num by done.
    split; [done|]. apply longnum_list in E; [|done]. rewrite E at 2. symmetry.
    by apply (snum_extend 16 16).
Qed.

(** ** Scaling *)

Lemma scale_by_ten_spec n l :
  n <> O -> is_num n l ->
  let y := (10 * Z.abs (snum l)) mod 256 ^ Z.of_nat n in
  exists r, is_num n r
  /\ numeric_scale_by_ten l = (if 256 ^ Z.of_nat n <=? 2 * y then ER_NUM_OVERFLOW else NO_ERROR, r)
  /\ (2 * y < 256 ^ Z.of_nat n -> snum r = if snum l <? 0 then - y else y).
Proof.
  intros Hn Hl y. destruct (abs_num n Hn l Hl) as [Ha Ea]. unfold numeric_scale_by_ten.
  rewrite (negative_snum n Hn l Hl) in *. set (x := if snum l <? 0 then _ else _) in *.
  destruct (mul_num n 10 x ltac:(lia) Ha) as [Hm Em]. rewrite Ea in Em. fold y in Em.
  set (z := (mul_loop 10 x).1) in *.
  assert ((byte_at z 0 >? 127) = (256 ^ Z.of_nat n <=? 2 * y)) as ->.
  { rewrite <- Em, <- (negative_num n Hn z Hm), (negative_byte n z Hm). lia. }
  destruct (256 ^ Z.of_nat n <=? 2 * y) eqn:Ey.
  - exists z. split; [done|]. split; [done|]. lia.
  - destruct (signed_num n Hn (snum l <? 0) z Hm ltac:(lia)) as [Hr Er].
    rewrite Em in Er. eexists. by split.
Qed.

Lemma scale_by_ten_small n l :
  n <> O -> is_num n l -> 2 * (10 * Z.abs (snum l)) < 256 ^ Z.of_nat n ->
  exists r, numeric_scale_by_ten l = (NO_ERROR, r) /\ is_num n r /\ snum r = 10 * snum l.
Proof.
  intros Hn Hl Hs. destruct (scale_by_ten_spec n l Hn Hl) as (r & Hr & E & Es).
  rewrite Z.mod_small in E, Es by lia. replace (_ <=? _) with false in E by lia.
  exists r. split; [done|]. split; [done|]. rewrite Es by lia. destruct (snum l <? 0) eqn:?; lia.
Qed.

Lemma scale_loop_small n k l :
  n <> O -> is_num n l -> 2 * (10 ^ Z.of_nat k * Z.abs (snum l)) < 256 ^ Z.of_nat n ->
  exists r, scale_loop k l = (NO_ERROR, r) /\ is_num n r /\ snum r = 10 ^ Z.of_nat k * snum l.
Proof.
  intros Hn. revert l. induction k as [|k IH]; intros l Hl Hs; cbn [scale_loop].
  { exists l. split; [done|]. split; [done|]. change (10 ^ Z.of_nat 0) with 1. lia. }
  rewrite Nat2Z.inj_succ, Z.pow_succ_r in * by lia.
  assert (1 <= 10 ^ Z.of_nat k) by (pose proof (Z.pow_pos_nonneg 10 (Z.of_nat k)); lia).
  destruct (scale_by_ten_small n l Hn Hl) as (r & -> & Hr & Er); [nia|].
  destruct (IH r Hr) as (r' & E & Hr' & Er'); [rewrite Er, Z.abs_mul; lia|].
  exists r'. split; [done|]. split; [done|]. rewrite Er', Er. ring.
Qed.

(** The digits of the type: a number with at most 38 digits. *)
Lemma pow10_38 k : 0 <= k <= 38 -> 2 * 10 ^ k < 256 ^ 16.
Proof.
  intros Hk. apply Z.le_lt_trans with (2 * 10 ^ 38); [|lia].
  apply Z.mul_le_mono_nonneg_l; [lia|]. apply Z.pow_le_mono_r; lia.
Qed.

Lemma scale_dec_small l k :
  is_num 16 l -> 0 <= k -> 2 * (10 ^ k * Z.abs (snum l)) < 256 ^ 16 ->
  exists r, numeric_scale_dec l k = (NO_ERROR, r) /\ is_num 16 r /\ snum r = 10 ^ k * snum l.
Proof.
  intros Hl Hk Hs. unfold numeric_scale_dec, numeric_scale_dec_long. rewrite copy_num by done.
  destruct (scale_loop_small 16 (Z.to_nat k) l) as (r & E & Hr & Er); [done|done| |].
  - by rewrite Z2Nat.id.
  - rewrite Z2Nat.id in Er by done. by exists r.
Qed.

(** ** Powers of ten *)

Definition pow_of_10_ok (j : nat) : bool :=
  let l := numeric_get_pow_of_10 (Z.of_nat j) in
  forallb (fun b => (0 <=? b) && (b <? 256)) l && (length l =? 16)%nat && (snum l =? 10 ^ Z.of_nat j).

Lemma powers_of_10_ok : forallb pow_of_10_ok (seq 0 39) = true.
Proof. vm_compute. reflexivity. Qed.

Lemma pow_of_10 k :
  0 <= k <= 38 -> is_num 16 (numeric_get_pow_of_10 k) /\ snum (numeric_get_pow_of_10 k) = 10 ^ k.
Proof.
  intros Hk. pose proof (proj1 (forallb_seq _ _ _) powers_of_10_ok (Z.to_nat k) ltac:(lia)) as H.
  unfold pow_of_10_ok in H. rewrite Z2Nat.id in H by lia.
  apply andb_true_iff in H as [[Hb Hl]%andb_true_iff Hs].
  split; [|by apply Z.eqb_eq]. split; [|by apply Nat.eqb_eq].
  apply Forall_forall. intros b Hin. rewrite forallb_forall in Hb.
  specialize (Hb b ltac:(by apply list_elem_of_In)). lia.
Qed.

Lemma overflow_spec l k :
  is_num 16 l -> 0 <= k <= 38 -> numeric_overflow l k = (10 ^ k <=? Z.abs (snum l)).
Proof.
  intros Hl Hk. unfold numeric_overflow. rewrite copy_num by done.
  destruct (abs_num 16 ltac:(done) l Hl) as [Ha Ea]. destruct (pow_of_10 k Hk) as [Hp Ep].
  unfold numeric_negate. rewrite (compare_pos_spec 16), Ea by done.
  assert (unum (numeric_get_pow_of_10 k) = 10 ^ k) as ->; [|lia].
  pose proof (pow10_38 k Hk). pose proof (Z.pow_pos_nonneg 10 k).
  rewrite <- (snum_mod 16), Ep by done. apply Z.mod_small. lia.
Qed.
