(* ===== verification/NumericString.v ===== *)
(** * Exact numeric values: decimal strings

    The conversions of numeric_opfunc.c between buffers and decimal digits:
    numeric_coerce_num_to_dec_str and numeric_coerce_dec_str_to_num compute the
    decimal representation of a number and its inverse. *)
From Stdlib Require Import ZArith Lia ZifyBool.
From stdpp Require Import base list numbers gmap.
From S2P Require Import Prelude Numeric NumericArith NumericDiv.

(** ** The value of a list of digits *)

Fixpoint dec (l : list Z) : Z :=
  match l with
  | [] => 0
  | d :: l => d * 10 ^ Z.of_nat (length l) + dec l
  end.

Definition digit (d : Z) : Prop := 0 <= d <= 9.

(** A digit of a DEC_STRING, where -1 is an unused leading one. *)
Definition dig (d : Z) : Z := if d =? -1 then 0 else d.
Definition dvalue (l : DEC_STRING) : Z := dec (dig <$> l).

(** The value of a string of digits. *)
Definition strval (s : STRING) : Z := dec ((fun c => c - chr_0) <$> s).
Definition digits (s : STRING) : Prop := Forall (fun c => is_digit c = true) s.

Lemma pow10_pos n : 0 < 10 ^ Z.of_nat n.
Proof. apply Z.pow_pos_nonneg; lia. Qed.

Lemma dec_app l l' : dec (l ++ l') = dec l * 10 ^ Z.of_nat (length l') + dec l'.
Proof.
  induction l as [|d l IH]; cbn [app dec]; [lia|].
  rewrite IH, length_app, Nat2Z.inj_add, Z.pow_add_r by lia. ring.
Qed.

Lemma dec_range l : Forall digit l -> 0 <= dec l < 10 ^ Z.of_nat (length l).
Proof.
  induction 1 as [|d l Hd _ IH]; cbn [dec length]; [change (10 ^ Z.of_nat 0) with 1; lia|].
  rewrite Nat2Z.inj_succ, Z.pow_succ_r by lia. unfold digit in Hd. nia.
Qed.

Lemma dec_inj l l' :
  Forall digit l -> Forall digit l' -> length l = length l' -> dec l = dec l' -> l = l'.
Proof.
  intros H. revert l'. induction H as [|d l Hd Hl IH]; intros [|d' l'] H'; try done.
  apply Forall_cons_iff in H' as [Hd' Hl']. intros [= En] E. cbn [dec] in E.
  pose proof (dec_range l Hl). pose proof (dec_range l' Hl'). rewrite En in *.
  unfold digit in *. assert (d = d') as -> by nia. f_equal. apply IH; [done|done|nia].
Qed.

Lemma dec_replicate_0 n : dec (replicate n 0) = 0.
Proof. induction n as [|n IH]; [done|]. cbn [replicate dec]. lia. Qed.

Lemma digits_fmap s : digits s -> Forall digit ((fun c => c - chr_0) <$> s).
Proof.
  intros Hs. apply Forall_fmap. apply (Forall_impl _ _ _ Hs). intros c Hc. unfold is_digit, digit in *.
  cbn. lia.
Qed.

Lemma strval_range s : digits s -> 0 <= strval s < 10 ^ Z.of_nat (length s).
Proof.
  intros Hs. pose proof (dec_range _ (digits_fmap s Hs)) as H. by rewrite length_fmap in H.
Qed.

Lemma strval_cons c s : strval (c :: s) = (c - chr_0) * 10 ^ Z.of_nat (length s) + strval s.
Proof. unfold strval. cbn [fmap list_fmap dec]. by rewrite length_fmap. Qed.

Lemma strval_app s s' : strval (s ++ s') = strval s * 10 ^ Z.of_nat (length s') + strval s'.
Proof. unfold strval. by rewrite fmap_app, dec_app, length_fmap. Qed.

Lemma strval_inj s s' :
  digits s -> digits s' -> length s = length s' -> strval s = strval s' -> s = s'.
Proof.
  intros Hs Hs' El E. apply (list_fmap_eq_inj (fun c => c - chr_0)); [intros c c'; lia|].
  apply dec_inj; [by apply digits_fmap|by apply digits_fmap|by rewrite !length_fmap|done].
Qed.

Lemma strval_zeros n : strval (replicate n chr_0) = 0.
Proof. unfold strval. rewrite fmap_replicate. apply dec_replicate_0. Qed.

Lemma digits_zeros n : digits (replicate n chr_0).
Proof. by apply Forall_replicate. Qed.

Lemma digits_app s s' : digits (s ++ s') <-> digits s /\ digits s'.
Proof. apply Forall_app. Qed.

(** Leading and trailing digits are quotient and remainder. *)
Lemma strval_split s n :
  digits s -> (n <= length s)%nat ->
  strval (take (length s - n) s) = strval s / 10 ^ Z.of_nat n
  /\ strval (drop (length s - n) s) = strval s mod 10 ^ Z.of_nat n.
Proof.
  intros Hs Hn. rewrite <- (take_drop (length s - n) s) in Hs. apply digits_app in Hs as [Ht Hd].
  pose proof (strval_range _ Hd) as Hr. pose proof (strval_app (take (length s - n) s) (drop (length s - n) s)) as E.
  rewrite length_drop in *. replace (length s - (length s - n))%nat with n in * by lia.
  rewrite take_drop in E. pose proof (pow10_pos n). split.
  - apply (Z.div_unique _ _ _ (strval (drop (length s - n) s))); lia.
  - apply (Z.mod_unique _ _ (strval (take (length s - n) s))); lia.
Qed.

(** ** Addition of decimal strings *)

(** Unused digits are in front of the digits. *)
Fixpoint dwf (l : DEC_STRING) : Prop :=
  match l with
  | [] => True
  | d :: l => (d = -1 \/ digit d /\ Forall digit l) /\ dwf l
  end.

Definition dec_digits (l : DEC_STRING) : Prop := Forall (fun d => -1 <= d <= 9) l.

(** The answer holds the digits of the second operand where the first one has
    none. *)
Definition keeps (d1 d2 d : Z) : Prop := d1 = -1 -> dig d = dig d2.

Lemma dig_range d : -1 <= d <= 9 -> digit (dig d).
Proof. unfold dig, digit. zcase; lia. Qed.

Lemma dvalue_cons d l : dvalue (d :: l) = dig d * 10 ^ Z.of_nat (length l) + dvalue l.
Proof. unfold dvalue. cbn [fmap list_fmap dec]. by rewrite length_fmap. Qed.

Lemma dvalue_range l : dec_digits l -> 0 <= dvalue l < 10 ^ Z.of_nat (length l).
Proof.
  intros Hl. unfold dvalue. rewrite <- (length_fmap dig l). apply dec_range, Forall_fmap.
  apply (Forall_impl _ _ _ Hl). intros d Hd. by apply dig_range.
Qed.

Lemma dwf_digits l : dwf l -> dec_digits l.
Proof.
  induction l as [|d l IH]; [constructor|]. intros [Hd Hl]. constructor; [|by apply IH].
  unfold digit in Hd. lia.
Qed.

Lemma fast_mod_spec b : 0 <= b < 20 -> default 0 (fast_mod !! Z.to_nat b) = b mod 10.
Proof.
  intros Hb. assert (forallb (fun i => default 0 (fast_mod !! i) =? Z.of_nat i mod 10) (seq 0 20) = true)
    as H by done.
  rewrite forallb_seq in H. specialize (H (Z.to_nat b) ltac:(lia)). rewrite Z2Nat.id in H by lia. lia.
Qed.

Lemma add_dec_loop_spec l1 l2 ans :
  length l1 = length l2 -> length ans = length l2 ->
  dwf l1 -> dec_digits l2 -> dec_digits ans ->
  (forall i d1 d2 d, l1 !! i = Some d1 -> l2 !! i = Some d2 -> ans !! i = Some d -> keeps d1 d2 d) ->
  let '(r, bit, over) := add_dec_loop l1 l2 ans in
  length r = length l2 /\ dec_digits r /\ 0 <= bit < 20
  /\ (over = true -> ~ Forall digit l1)
  /\ dvalue r + (if over : bool then 0 else bit / 10) * 10 ^ Z.of_nat (length l2)
     = dvalue l1 + dvalue l2.
Proof.
  revert l2 ans. induction l1 as [|d1 l1 IH]; intros [|d2 l2] [|d ans]; try done; cbn [dwf].
  intros [= L1] [= L2] [Hd1 H1] H2 Ha Hk. apply Forall_cons_iff in H2 as [Hd2 H2], Ha as [Hd Ha].
  specialize (IH l2 ans ltac:(done) ltac:(done) H1 H2 Ha (fun i => Hk (S i))). cbn [add_dec_loop].
  destruct (add_dec_loop l1 l2 ans) as [[r bit] over]. destruct IH as (Hlen & Hr & Hbit & Hover & E).
  pose proof (Hk 0%nat d1 d2 d eq_refl eq_refl eq_refl) as Hk0. unfold keeps in Hk0.
  assert (d1 = -1 -> ~ Forall digit (d1 :: l1)) as Hno.
  { intros -> [? _]%Forall_cons_iff. unfold digit in *. lia. }
  destruct over; [|destruct ((d1 =? -1) && (bit <? 10)) eqn:Eb].
  - assert (d1 = -1) as -> by (destruct Hd1 as [|[_ ?]]; [done|by destruct Hover]).
    split; [cbn; lia|]. split; [by constructor|]. split; [done|]. split; [by intros _; apply Hno|].
    rewrite !dvalue_cons, Hlen, L1, Hk0 by done. change (dig (-1)) with 0. lia.
  - assert (d1 = -1) as -> by lia.
    split; [cbn; lia|]. split; [by constructor|]. split; [done|]. split; [by intros _; apply Hno|].
    rewrite !dvalue_cons, Hlen, L1, Hk0 by done. change (dig (-1)) with 0.
    rewrite Z.div_small in E by lia. lia.
  - fold (dig d1) (dig d2). pose proof (dig_range d2 Hd2) as R2. unfold digit in *.
    assert (0 <= dig d1 <= 9) as R1 by (apply dig_range; lia).
    assert ((if bit >=? 10 then 1 else 0) = bit / 10) as -> by (zcase; dlia).
    assert (0 <= bit / 10 <= 1) as Rc by dlia. rewrite fast_mod_spec by lia.
    set (b := dig d1 + dig d2 + bit / 10) in *.
    split; [cbn; lia|]. split; [constructor; [dlia|done]|]. split; [lia|]. split; [done|].
    rewrite !dvalue_cons, Hlen, L1. cbn [length]. rewrite Nat2Z.inj_succ, Z.pow_succ_r by lia.
    assert (dig (b mod 10) = b mod 10) as -> by (unfold dig; zcase; dlia).
    rewrite (Z.mod_eq b 10) by lia. unfold b. nia.
Qed.

(** numeric_add_dec_str when the sum fits the string. *)
Lemma add_dec_spec l1 l2 ans :
  length l1 = length l2 -> length ans = length l2 ->
  dwf l1 -> dec_digits l2 -> dec_digits ans ->
  (forall i d1 d2 d, l1 !! i = Some d1 -> l2 !! i = Some d2 -> ans !! i = Some d -> keeps d1 d2 d) ->
  dvalue l1 + dvalue l2 < 10 ^ Z.of_nat (length l2) ->
  let r := numeric_add_dec_str l1 l2 ans in
  length r = length l2 /\ dec_digits r /\ dvalue r = dvalue l1 + dvalue l2.
Proof.
  intros E1 E2 H1 H2 Ha Hk Hs. pose proof (add_dec_loop_spec l1 l2 ans E1 E2 H1 H2 Ha Hk) as H.
  unfold numeric_add_dec_str. destruct (add_dec_loop l1 l2 ans) as [[r bit] over].
  destruct H as (Hl & Hr & Hb & _ & E). split; [done|]. split; [done|]. cbn [fst].
  pose proof (dvalue_range r Hr) as Rr. rewrite Hl in Rr. pose proof (pow10_pos (length l2)).
  destruct over; [lia|]. assert (bit / 10 = 0 \/ bit / 10 = 1) as [Hc|Hc] by dlia; rewrite Hc in E; lia.
Qed.

(** ** The digits of a number *)

Fixpoint dwfb (l : DEC_STRING) : bool :=
  match l with
  | [] => true
  | d :: l =>
      ((d =? -1) || ((0 <=? d) && (d <=? 9) && forallb (fun d => (0 <=? d) && (d <=? 9)) l)) && dwfb l
  end.

Lemma dwfb_spec l : dwfb l = true -> dwf l.
Proof.
  induction l as [|d l IH]; [done|]. cbn [dwf dwfb]. intros [Hd Hl]%andb_true_iff.
  split; [|by apply IH]. apply orb_true_iff in Hd as [Hd|Hd]; [left; lia|right].
  apply andb_true_iff in Hd as [Hd Hf]. split; [unfold digit; lia|].
  apply Forall_forall. intros x Hx. rewrite forallb_forall in Hf.
  specialize (Hf x ltac:(by apply list_elem_of_In)). unfold digit. lia.
Qed.

Definition pow_of_2_ok (j : nat) : bool :=
  let l := numeric_get_pow_of_2 j in
  dwfb l && (length l =? 76)%nat && (dvalue l =? 2 ^ Z.of_nat j).

Lemma powers_of_2_ok : forallb pow_of_2_ok (seq 0 253) = true.
Proof. vm_compute. reflexivity. Qed.

Lemma pow_of_2 k :
  (k < 253)%nat ->
  let l := numeric_get_pow_of_2 k in
  dwf l /\ length l = 76%nat /\ dvalue l = 2 ^ Z.of_nat k.
Proof.
  intros Hk l. pose proof (proj1 (forallb_seq _ _ _) powers_of_2_ok k ltac:(lia)) as H.
  unfold pow_of_2_ok in H. fold l in H. apply andb_true_iff in H as [[Hw Hl]%andb_true_iff Hs].
  split; [by apply dwfb_spec|]. split; [by apply Nat.eqb_eq|by apply Z.eqb_eq].
Qed.

Lemma byte_at_unum n l i :
  is_num n l -> (i < n)%nat -> byte_at l i = unum l / 256 ^ Z.of_nat (n - 1 - i) mod 256.
Proof.
  revert n i. induction l as [|b l IH]; intros n i [Hl Hn] Hi; [cbn in Hn; lia|].
  apply bytes_cons in Hl as [Hb Hl]. cbn [length] in Hn. cbn [unum].
  pose proof (unum_range l Hl) as R. unfold size_of in *. destruct i as [|i].
  - replace (n - 1 - 0)%nat with (length l) by lia. unfold byte_at. cbn.
    rewrite Z.div_add_l, Z.div_small by lia. rewrite Z.mod_small; lia.
  - change (byte_at (b :: l) (S i)) with (byte_at l i). rewrite (IH (length l) i) by (done || lia).
    replace (n - 1 - S i)%nat with (length l - 1 - i)%nat by lia.
    replace (Z.of_nat (length l)) with (Z.of_nat (S i) + Z.of_nat (length l - 1 - i)) by lia.
    assert (256 ^ (Z.of_nat (S i) + Z.of_nat (length l - 1 - i))
            = 256 ^ Z.of_nat i * 256 * 256 ^ Z.of_nat (length l - 1 - i)) as ->.
    { rewrite Nat2Z.inj_succ, Z.pow_add_r, Z.pow_succ_r by lia. ring. }
    rewrite !Z.mul_assoc, Z.div_add_l by (apply Z.pow_nonzero; lia).
    by rewrite Z.add_comm, Z.mod_add by lia.
Qed.

(** Bit [i] from the left of a number of n bytes. *)
Lemma bit_set_spec n l i :
  is_num n l -> (i < 8 * n)%nat ->
  numeric_is_bit_set l i = (unum l / 2 ^ Z.of_nat (8 * n - i - 1) mod 2 =? 1).
Proof.
  intros Hl Hi. pose proof (Nat.div_mod_eq i 8). pose proof (Nat.mod_upper_bound i 8 ltac:(lia)).
  set (q := (i / 8)%nat) in *. set (r := (i mod 8)%nat) in *.
  unfold numeric_is_bit_set. fold q r. rewrite (byte_at_unum n l q Hl) by lia.
  rewrite land_bit by lia.
  change 256 with (2 ^ 8) at 2. rewrite Z.mod_pow2_bits_low by lia.
  change 256 with (2 ^ 8). rewrite <- Z.pow_mul_r, Z.div_pow2_bits by lia.
  replace (7 - Z.of_nat r + 8 * Z.of_nat (n - 1 - q)) with (Z.of_nat (8 * n - i - 1)) by lia.
  pose proof (Z.testbit_spec' (unum l) (Z.of_nat (8 * n - i - 1)) ltac:(lia)) as E.
  rewrite <- E. by destruct (Z.testbit _ _).
Qed.

(** The digits of the bits above bit [k] of the number [x]. *)
Definition upper_digits (x k : Z) (r : DEC_STRING) : Prop :=
  length r = 76%nat /\ dec_digits r /\ dvalue r = x / 2 ^ k * 2 ^ k.

Lemma add_bit_spec n l i r :
  is_num n l -> (n <= 32)%nat -> (i < 8 * n)%nat -> unum l < 10 ^ 76 ->
  upper_digits (unum l) (Z.of_nat (8 * n - i)) r ->
  upper_digits (unum l) (Z.of_nat (8 * n - S i)) (add_bit l (8 * n) r i).
Proof.
  intros Hl Hn Hi Hu (Hlen & Hr & Er). unfold add_bit. rewrite (bit_set_spec n) by done.
  set (k := (8 * n - i - 1)%nat). replace (8 * n - S i)%nat with k by lia.
  replace (8 * n - i)%nat with (S k) in Er by lia.
  rewrite Nat2Z.inj_succ, Z.pow_succ_r, (Z.mul_comm 2) in Er by lia.
  pose proof (Z.pow_pos_nonneg 2 (Z.of_nat k)) as Hp. pose proof (is_num_range n l Hl) as Rl.
  rewrite <- Z.div_div in Er by lia. set (y := unum l / 2 ^ Z.of_nat k) in *.
  assert (y * 2 ^ Z.of_nat k <= unum l).
  { rewrite Z.mul_comm. apply Z.mul_div_le. lia. }
  pose proof (Z.div_mod y 2 ltac:(lia)) as Ey. pose proof (Z.mod_pos_bound y 2 ltac:(lia)) as Hy.
  assert (0 <= y) by (apply Z.div_pos; lia).
  destruct (y mod 2 =? 1) eqn:E.
  2: { split; [done|]. split; [done|]. fold y. rewrite Er. nia. }
  assert (k < 253)%nat as Hk.
  { apply Nat2Z.inj_lt, (Z.pow_lt_mono_r_iff 2); [lia|lia|]. 
    assert (10 ^ 76 < 2 ^ Z.of_nat 253) by done. nia. }
  destruct (pow_of_2 k Hk) as (Pw & Pl & Pv).
  destruct (add_dec_spec (numeric_get_pow_of_2 k) r r) as (A & B & C);
    [lia|done|done|done|done| | |].
  - intros j d1 d2 d _ Hd2 Hd _. congruence.
  - rewrite Pv, Er, Hlen. change (10 ^ Z.of_nat 76) with (10 ^ 76). nia.
  - split; [lia|]. split; [done|]. rewrite C, Pv, Er. fold y. nia.
Qed.

Lemma init_digits x n : 0 <= x < 256 ^ Z.of_nat n -> upper_digits x (Z.of_nat (8 * n)) numeric_init_dec_str.
Proof.
  intros Hx. split; [done|]. split; [by apply dwf_digits, dwfb_spec|].
  rewrite Nat2Z.inj_mul, Z.pow_mul_r by lia. change (2 ^ Z.of_nat 8) with 256.
  by rewrite Z.div_small.
Qed.

(** The bits of the bytes from byte [i] on. *)
Lemma add_bits_spec n l j i r :
  is_num n l -> (n <= 32)%nat -> (i + j <= 8 * n)%nat -> unum l < 10 ^ 76 ->
  upper_digits (unum l) (Z.of_nat (8 * n - i)) r ->
  upper_digits (unum l) (Z.of_nat (8 * n - (i + j))) (foldl (add_bit l (8 * n)) r (seq i j)).
Proof.
  intros Hl Hn. revert i r. induction j as [|j IH]; intros i r Hi Hu Hr; cbn [seq foldl].
  { by rewrite Nat.add_0_r. }
  replace (i + S j)%nat with (S i + j)%nat by lia. apply IH; [lia|done|].
  apply add_bit_spec; [done|done|lia|done|done].
Qed.

(** A string of the 76 digits of [x]. *)
Definition digits_of (x : Z) (s : STRING) : Prop :=
  length s = 76%nat /\ digits s /\ strval s = x.

Lemma dec_chars_spec x r : upper_digits x 0 r -> digits_of x (dec_chars r).
Proof.
  intros (Hl & Hr & Er). unfold dec_chars. split; [by rewrite length_fmap|]. split.
  - apply Forall_fmap. apply (Forall_impl _ _ _ Hr). intros d Hd. cbn. fold (dig d).
    apply dig_range in Hd. unfold digit in Hd. unfold is_digit. lia.
  - change (2 ^ 0) with 1 in Er. rewrite Z.div_1_r, Z.mul_1_r in Er. rewrite <- Er.
    unfold strval, dvalue. rewrite <- list_fmap_compose. f_equal. apply list_fmap_ext.
    intros i d _. cbn. fold (dig d). lia.
Qed.

Lemma big_num_to_dec_str_spec l :
  is_num 32 l -> unum l < 10 ^ 76 -> digits_of (unum l) (numeric_coerce_big_num_to_dec_str l).
Proof.
  intros Hl Hu. apply dec_chars_spec.
  apply (add_bits_spec 32 l 256 0); [done|lia|lia|done|].
  apply (init_digits _ 32). by apply is_num_range.
Qed.

Lemma foldl_seq_blocks {A} (f : A -> nat -> A) (g : A -> nat -> A) r n :
  (forall r i, (i < n)%nat -> g r i = foldl f r (seq (8 * i) 8)) ->
  foldl g r (seq 0 n) = foldl f r (seq 0 (8 * n)).
Proof.
  intros Hg. induction n as [|n IH]; [done|].
  rewrite seq_S, foldl_app. cbn [foldl]. rewrite Hg by lia.
  rewrite IH by (intros; apply Hg; lia). replace (8 * S n)%nat with (8 * n + 8)%nat by lia.
  by rewrite seq_app, foldl_app.
Qed.

Lemma zero_byte_bits l i r :
  byte_at l i = 0 -> foldl (add_bit l 128) r (seq (8 * i) 8) = r.
Proof.
  intros H0. assert (forall j, j ∈ seq (8 * i) 8 -> forall r, add_bit l 128 r j = r) as H.
  { intros j Hj%elem_of_seq r'. unfold add_bit, numeric_is_bit_set.
    replace (j / 8)%nat with i; [by rewrite H0|]. apply (Nat.div_unique _ _ _ (j - 8 * i)); lia. }
  revert r H. induction (seq (8 * i) 8) as [|j js IH]; intros r H; [done|]. cbn [foldl].
  rewrite H by apply list_elem_of_here. apply IH. intros k Hk. apply H. by apply list_elem_of_further.
Qed.

(** The decimal string of a number. *)
Lemma num_to_dec_str_spec l :
  is_num 16 l ->
  exists s, digits_of (Z.abs (snum l)) s
  /\ numeric_coerce_num_to_dec_str l = (if snum l <? 0 then [chr_minus] else []) ++ s.
Proof.
  intros Hl. unfold numeric_coerce_num_to_dec_str. rewrite copy_num by done.
  destruct (abs_num 16 ltac:(done) l Hl) as [Ha Ea]. unfold numeric_negate.
  set (x := if numeric_is_negative l then _ else _) in *.
  rewrite (negative_snum 16 ltac:(done) l Hl). eexists. split; [|done].
  rewrite (foldl_seq_blocks (add_bit x 128)).
  2: { intros r i _. destruct (byte_at x i =? 0) eqn:E; [|done].
       symmetry. apply zero_byte_bits. lia. }
  apply dec_chars_spec. rewrite <- Ea.
  apply (add_bits_spec 16 x 128 0); [done|lia|done| |].
  - pose proof (is_num_range 16 x Ha). change (256 ^ Z.of_nat 16) with (256 ^ 16) in *.
    assert (256 ^ 16 < 10 ^ 76) by done. lia.
  - apply (init_digits _ 16). by apply is_num_range.
Qed.

(** ** The number of a string of digits *)

Lemma atol_spec s : digits s -> atol s = strval s.
Proof.
  assert (forall acc, digits s -> atol_from acc s = acc * 10 ^ Z.of_nat (length s) + strval s) as H.
  { induction s as [|c s IH]; intros acc Hs; cbn [atol_from length].
    { change (10 ^ Z.of_nat 0) with 1. change (strval []) with 0. lia. }
    apply Forall_cons_iff in Hs as [Hc Hs]. rewrite Hc, IH by done.
    rewrite Nat2Z.inj_succ, Z.pow_succ_r, strval_cons by lia. ring. }
  intros Hs. unfold atol. rewrite H by done. lia.
Qed.

Lemma digits_take n s : digits s -> digits (take n s).
Proof. apply Forall_take. Qed.

Lemma digits_drop n s : digits s -> digits (drop n s).
Proof. apply Forall_drop. Qed.

(** The chunk in front of the last [n] digits. *)
Lemma chunk_value s n :
  digits s -> (n < length s)%nat ->
  let rest := (length s - n)%nat in
  let nd := Nat.min rest 9 in
  atol (take nd (drop (rest - nd) s)) = strval s / 10 ^ Z.of_nat n mod 10 ^ 9.
Proof.
  intros Hs Hn rest nd. rewrite take_drop_commute, atol_spec by (by apply digits_drop, digits_take).
  replace (rest - nd + nd)%nat with rest by lia.
  destruct (strval_split s n Hs ltac:(lia)) as [<- _]. fold rest.
  set (t := take rest s). assert (length t = rest) as Et by (unfold t; rewrite length_take; lia).
  assert (digits t) as Ht by (by apply digits_take).
  destruct (strval_split t nd Ht ltac:(lia)) as [_ E]. rewrite Et in E. rewrite E.
  destruct (decide (9 <= rest)%nat).
  - by replace nd with 9%nat by lia.
  - pose proof (strval_range t Ht) as R. replace (length t) with nd in R by lia.
    rewrite (Z.mod_small _ (10 ^ 9)), Z.mod_small; [done|done|].
    assert (10 ^ Z.of_nat nd <= 10 ^ 9) by (apply Z.pow_le_mono_r; lia). lia.
Qed.

Lemma add_chunk n v result x :
  0 <= v < 10 ^ 9 -> is_num 16 result -> snum result = x -> 0 <= x ->
  2 * (v * 10 ^ Z.of_nat n + x) < 256 ^ 16 ->
  let r :=
    if negb (v =? 0) then
      let big_chunk := numeric_coerce_int_to_num v in
      let big_chunk :=
        if negb (n =? 0)%nat then (numeric_scale_dec big_chunk (Z.of_nat n)).2 else big_chunk in
      numeric_add big_chunk result DB_NUMERIC_BUF_SIZE
    else result in
  is_num 16 r /\ snum r = v * 10 ^ Z.of_nat n + x.
Proof.
  intros Hv Hr Er Hx Hs. cbn zeta. destruct (v =? 0) eqn:E0; cbn [negb].
  { split; [done|]. assert (v = 0) by lia. lia. }
  destruct (int_to_num v ltac:(lia)) as [Hb Eb].
  assert (exists b, (if negb (n =? 0)%nat
                     then (numeric_scale_dec (numeric_coerce_int_to_num v) (Z.of_nat n)).2
                     else numeric_coerce_int_to_num v) = b
                    /\ is_num 16 b /\ snum b = v * 10 ^ Z.of_nat n) as (b & -> & Hb' & Eb').
  { destruct (Nat.eqb_spec n 0) as [->|]; cbn [negb].
    - eexists. split; [done|]. split; [done|]. change (10 ^ Z.of_nat 0) with 1. lia.
    - destruct (scale_dec_small (numeric_coerce_int_to_num v) (Z.of_nat n)) as (b & -> & Hb' & Eb');
        [done|lia|rewrite Eb; lia|]. exists b. split; [done|]. split; [done|]. rewrite Eb', Eb. ring. }
  pose proof (pow10_pos n). destruct (add_num 16 b result Hb' Hr) as [Ha _]. split; [done|].
  unfold DB_NUMERIC_BUF_SIZE. rewrite snum_add, Eb', Er; try done.
  rewrite Eb', Er. change (256 ^ Z.of_nat 16) with (256 ^ 16). nia.
Qed.

Lemma chunk_loop_spec k s n result :
  digits s -> 2 * strval s < 256 ^ 16 -> (length s - n <= k)%nat ->
  is_num 16 result -> snum result = strval s mod 10 ^ Z.of_nat n ->
  is_num 16 (chunk_loop k s n result) /\ snum (chunk_loop k s n result) = strval s.
Proof.
  intros Hs Hv. revert n result.
  assert (forall n, (length s <= n)%nat -> strval s mod 10 ^ Z.of_nat n = strval s) as Hend.
  { intros n Hn. pose proof (strval_range s Hs). rewrite Z.mod_small; [done|].
    assert (10 ^ Z.of_nat (length s) <= 10 ^ Z.of_nat n) by (apply Z.pow_le_mono_r; lia). lia. }
  induction k as [|k IH]; intros n result Hk Hr Er; cbn [chunk_loop].
  { split; [done|]. rewrite Er, Hend; [done|lia]. }
  destruct (Nat.eqb_spec (length s - n) 0) as [E0|E0].
  { split; [done|]. rewrite Er, Hend; [done|lia]. }
  rewrite chunk_value by (done || lia). set (v := strval s / 10 ^ Z.of_nat n mod 10 ^ 9).
  pose proof (pow10_pos n) as Hp. pose proof (strval_range s Hs) as R.
  assert (v * 10 ^ Z.of_nat n + strval s mod 10 ^ Z.of_nat n = strval s mod 10 ^ Z.of_nat (n + 9)) as Ev.
  { rewrite Nat2Z.inj_add, Z.pow_add_r by lia. rewrite Z.rem_mul_r by lia. unfold v.
    change (Z.of_nat 9) with 9. ring. }
  pose proof (Z.mod_le (strval s) (10 ^ Z.of_nat (n + 9)) ltac:(lia) (pow10_pos _)) as Hle.
  destruct (add_chunk n v result _ ltac:(apply Z.mod_pos_bound; lia) Hr Er) as [Ha Ea];
    [apply Z.mod_pos_bound; lia|lia|].
  apply IH; [lia|exact Ha|]. rewrite <- Ev. exact Ea.
Qed.

(** numeric_coerce_dec_str_to_num on digits of a number in range. *)
Lemma dec_str_to_num_spec s :
  digits s -> 2 * strval s < 256 ^ 16 ->
  is_num 16 (numeric_coerce_dec_str_to_num s) /\ snum (numeric_coerce_dec_str_to_num s) = strval s.
Proof.
  intros Hs Hv. unfold numeric_coerce_dec_str_to_num.
  assert (match s with c :: _ => c =? chr_minus | [] => false end = false) as ->.
  { destruct s as [|c s]; [done|]. apply Forall_cons_iff in Hs as [Hc _].
    unfold is_digit, chr_0, chr_minus in *. lia. }
  apply chunk_loop_spec; [done|done|lia|by apply is_num_replicate|].
  change (10 ^ Z.of_nat 0) with 1. by rewrite Z.mod_1_r.
Qed.

Lemma dec_str_to_num_negative s :
  digits s -> 2 * strval s < 256 ^ 16 ->
  is_num 16 (numeric_coerce_dec_str_to_num (chr_minus :: s))
  /\ snum (numeric_coerce_dec_str_to_num (chr_minus :: s)) = - strval s.
Proof.
  intros Hs Hv. unfold numeric_coerce_dec_str_to_num. rewrite Z.eqb_refl. cbn [drop].
  rewrite drop_0. pose proof (strval_range s Hs).
  destruct (chunk_loop_spec (length s) s 0 (numeric_zero DB_NUMERIC_BUF_SIZE)) as [Hr Er];
    [done|done|lia|by apply is_num_replicate|change (10 ^ Z.of_nat 0) with 1; by rewrite Z.mod_1_r|].
  unfold numeric_negate. split; [by apply (negate_num 16)|]. rewrite (snum_negate 16), Er; try done.
  rewrite Er. change (256 ^ Z.of_nat 16) with (256 ^ 16). lia.
Qed.
