(* ===== verification/NumericCoerce.v ===== *)
(** * Exact numeric values: change of precision and scale

    numeric_coerce_num_to_num rounds half away from zero and fails exactly when
    the rounded number has too many digits. *)
From Stdlib Require Import ZArith Lia ZifyBool.
From stdpp Require Import base list numbers gmap.
From S2P Require Import Prelude Numeric NumericValue NumericArith NumericDiv NumericString.

(** ** Rounding *)

(** [x / p] rounded to the nearest integer, halves away from zero. *)
Definition round_half (x p : Z) : Z := Z.sgn x * ((2 * Z.abs x + p) / (2 * p)).

(** [x] times 10 to the [k], rounded. *)
Definition rescaled (x k : Z) : Z := if 0 <=? k then x * 10 ^ k else round_half x (10 ^ (- k)).

Lemma round_half_pos v p :
  0 <= v -> 0 < p -> round_half v p = v / p + if p <=? 2 * (v mod p) then 1 else 0.
Proof.
  intros Hv Hp. unfold round_half. rewrite Z.abs_eq by done.
  pose proof (Z.div_mod v p ltac:(lia)). pose proof (Z.mod_pos_bound v p Hp).
  assert (0 <= v / p) by (apply Z.div_pos; lia).
  assert ((2 * v + p) / (2 * p) = v / p + if p <=? 2 * (v mod p) then 1 else 0) as ->.
  { symmetry. destruct (p <=? 2 * (v mod p)) eqn:E.
    - apply (Z.div_unique _ _ _ (2 * (v mod p) - p)); lia.
    - apply (Z.div_unique _ _ _ (2 * (v mod p) + p)); lia. }
  destruct (decide (v = 0)) as [->|]; [|rewrite Z.sgn_pos by lia; lia].
  rewrite Z.div_0_l, Z.mod_0_l by lia. zcase; lia.
Qed.

Lemma rescaled_abs x k :
  0 <= rescaled (Z.abs x) k /\ rescaled x k = Z.sgn x * rescaled (Z.abs x) k
  /\ Z.abs (rescaled x k) = rescaled (Z.abs x) k.
Proof.
  unfold rescaled. destruct (0 <=? k) eqn:E.
  - pose proof (Z.pow_pos_nonneg 10 k). split; [nia|]. rewrite Z.abs_mul, (Z.abs_eq (10 ^ k)) by lia.
    split; [|done]. rewrite Z.mul_assoc. f_equal. lia.
  - pose proof (Z.pow_pos_nonneg 10 (- k) ltac:(lia) ltac:(lia)). unfold round_half.
    rewrite Z.abs_idemp. set (q := _ / _).
    assert (0 <= q) by (apply Z.div_pos; lia). destruct x; cbn; lia.
Qed.

(** ** The digits of a string *)

Lemma existsb_digit s : digits s -> existsb digit_1_to_9 s = negb (strval s =? 0).
Proof.
  induction s as [|c s IH]; intros Hs; [done|]. apply Forall_cons_iff in Hs as [Hc Hs].
  cbn [existsb]. rewrite IH by done. pose proof (strval_range s Hs). pose proof (pow10_pos (length s)).
  rewrite strval_cons.
  unfold digit_1_to_9, is_digit, chr_0 in *. nia.
Qed.

Lemma forallb_nine s : digits s -> forallb (fun c => c =? chr_0 + 9) s = (strval s =? 10 ^ Z.of_nat (length s) - 1).
Proof.
  induction s as [|c s IH]; intros Hs; [done|]. apply Forall_cons_iff in Hs as [Hc Hs].
  cbn [forallb length]. rewrite IH by done. pose proof (strval_range s Hs). pose proof (pow10_pos (length s)).
  rewrite strval_cons.
  rewrite Nat2Z.inj_succ, Z.pow_succ_r by lia. unfold is_digit, chr_0 in *. nia.
Qed.

(** The digit at [n] from the end. *)
Lemma digit_at s n :
  digits s -> (0 < n <= length s)%nat ->
  byte_at s (length s - n) - chr_0 = strval s / 10 ^ (Z.of_nat n - 1) mod 10.
Proof.
  intros Hs Hn. destruct (strval_split s (n - 1) Hs ltac:(lia)) as [E _].
  replace (Z.of_nat n - 1) with (Z.of_nat (n - 1)) by lia. rewrite <- E.
  replace (length s - (n - 1))%nat with (S (length s - n)) by lia.
  assert (s !! (length s - n)%nat = Some (byte_at s (length s - n))) as El by (apply byte_at_lookup; lia).
  rewrite (take_S_r _ _ _ El), strval_app. cbn [length].
  pose proof (Forall_lookup_1 _ _ _ _ Hs El) as Hd. change (10 ^ Z.of_nat 1) with 10.
  rewrite Z.add_comm, Z.mod_add by lia. unfold is_digit, strval in *. cbn. rewrite Z.mod_small; lia.
Qed.

(** ** numeric_coerce_num_to_num *)

Lemma half_digit v n :
  0 <= v -> 0 < n -> (5 <=? v / 10 ^ (n - 1) mod 10) = (10 ^ n <=? 2 * (v mod 10 ^ n)).
Proof.
  intros Hv Hn. pose proof (Z.pow_pos_nonneg 10 (n - 1) ltac:(lia) ltac:(lia)) as Hp.
  assert (10 ^ n = 10 ^ (n - 1) * 10) as ->.
  { replace n with (Z.succ (n - 1)) at 1 by lia. rewrite Z.pow_succ_r by lia. ring. }
  rewrite Z.rem_mul_r by lia. pose proof (Z.mod_pos_bound v (10 ^ (n - 1)) Hp).
  set (d := v / 10 ^ (n - 1) mod 10). assert (0 <= d < 10) by (apply Z.mod_pos_bound; lia). nia.
Qed.

Lemma rescale_spec s v src_scale dest_scale :
  digits_of v s -> src_scale - dest_scale <= 76 ->
  let '(t, round_up) := rescale s src_scale dest_scale in
  digits t /\ 76 - (src_scale - dest_scale) <= Z.of_nat (length t)
  /\ rescaled v (dest_scale - src_scale) = strval t + if round_up : bool then 1 else 0.
Proof.
  intros (Hl & Hs & Ev) Hd. pose proof (strval_range s Hs) as Hr. unfold rescale, rescaled.
  destruct (src_scale <? dest_scale) eqn:E1; [|destruct (dest_scale <? src_scale) eqn:E2].
  - split; [apply digits_app; split; [done|apply digits_zeros]|].
    rewrite length_app, length_replicate, strval_app, length_replicate, strval_zeros.
    split; [lia|]. replace (0 <=? _) with true by lia. rewrite Ev, Z2Nat.id; lia.
  - set (n := Z.to_nat (src_scale - dest_scale)).
    destruct (strval_split s n Hs ltac:(lia)) as [Et _].
    split; [by apply digits_take|]. rewrite length_take. split; [lia|].
    replace (0 <=? dest_scale - src_scale) with false by lia.
    replace (- (dest_scale - src_scale)) with (Z.of_nat n) by lia.
    rewrite round_half_pos, Et, <- Ev by (lia || apply pow10_pos). f_equal.
    pose proof (digit_at s n Hs ltac:(lia)) as Ed.
    pose proof (half_digit (strval s) (Z.of_nat n) ltac:(lia) ltac:(lia)) as Eh. rewrite <- Ed in Eh.
    assert (byte_at s (length s - n) - chr_0 < 10) by (rewrite Ed; apply Z.mod_pos_bound; lia).
    replace (_ && _) with (5 <=? byte_at s (length s - n) - chr_0) by lia. by rewrite Eh.
  - split; [done|]. split; [lia|]. replace (dest_scale - src_scale) with 0 by lia.
    change (10 ^ 0) with 1. cbn [Z.leb Z.compare]. lia.
Qed.

(** A digit in front of the last [p] ones, nothing but nines in these. *)
Lemma too_long_spec t p :
  digits t -> (p <= length t)%nat ->
  let len := (length t - p)%nat in
  existsb digit_1_to_9 (take len t) = (10 ^ Z.of_nat p <=? strval t)
  /\ forallb (fun c => c =? chr_0 + 9) (drop len t) = (strval t mod 10 ^ Z.of_nat p =? 10 ^ Z.of_nat p - 1).
Proof.
  intros Ht Hp len. destruct (strval_split t p Ht Hp) as [E1 E2]. fold len in E1, E2.
  rewrite existsb_digit, forallb_nine, E1, E2 by (by apply digits_take || by apply digits_drop).
  rewrite length_drop. replace (length t - len)%nat with p by lia. split; [|done].
  pose proof (pow10_pos p). pose proof (strval_range t Ht).
  pose proof (Z.div_mod (strval t) (10 ^ Z.of_nat p) ltac:(lia)).
  pose proof (Z.mod_pos_bound (strval t) (10 ^ Z.of_nat p) ltac:(lia)).
  destruct (strval t / 10 ^ Z.of_nat p =? 0) eqn:E; cbn [negb]; nia.
Qed.

Lemma fits_spec t p (up : bool) :
  digits t -> (p <= length t)%nat -> 
  let len := (length t - p)%nat in
  let w := strval t + if up then 1 else 0 in
  existsb digit_1_to_9 (take len t) || (up && forallb (fun c => c =? chr_0 + 9) (drop len t))
  = (10 ^ Z.of_nat p <=? w).
Proof.
  intros Ht Hp len w. destruct (too_long_spec t p Ht Hp) as [E1 E2]. fold len in E1, E2. rewrite E1, E2. unfold w.
  pose proof (strval_range t Ht). destruct (10 ^ Z.of_nat p <=? strval t) eqn:E; cbn [orb].
  - destruct up; lia.
  - rewrite Z.mod_small by lia. destruct up; cbn [andb]; lia.
Qed.

Lemma round_up_spec t p (up : bool) :
  digits t -> (p <= 38)%nat ->
  let w := strval t + if up then 1 else 0 in
  w < 10 ^ Z.of_nat p ->
  let r := numeric_coerce_dec_str_to_num t in
  let r := if up then numeric_increase r else r in
  is_num 16 r /\ snum r = w.
Proof.
  intros Ht Hp w Hw. pose proof (pow10_38 (Z.of_nat p) ltac:(lia)).
  assert (strval t <= w) by (destruct up; lia).
  destruct (dec_str_to_num_spec t Ht ltac:(lia)) as [Hr Er]. cbn zeta. unfold w in *. destruct up.
  - unfold numeric_increase. split; [by apply (increase_num 16)|].
    rewrite (snum_increase 16), Er; try done. rewrite Er. change (256 ^ Z.of_nat 16) with (256 ^ 16). lia.
  - split; [done|]. lia.
Qed.

Lemma abs_copy l :
  is_num 16 l -> 2 * Z.abs (snum l) < 256 ^ 16 ->
  let r := if numeric_is_negative l then numeric_negate (numeric_copy l) else numeric_copy l in
  is_num 16 r /\ snum r = Z.abs (snum l).
Proof.
  intros Hl Hx. rewrite copy_num, (negative_snum 16) by done. cbn zeta. unfold numeric_negate.
  destruct (snum l <? 0) eqn:E; [|split; [done|lia]]. split; [by apply (negate_num 16)|].
  rewrite (snum_negate 16); try done; [lia|]. change (256 ^ Z.of_nat 16) with (256 ^ 16). lia.
Qed.

Lemma negate_if_snum (neg : bool) r w :
  is_num 16 r -> snum r = w -> - 256 ^ 16 < 2 * w ->
  is_num 16 (if neg then numeric_negate r else r)
  /\ snum (if neg then numeric_negate r else r) = if neg then - w else w.
Proof.
  intros Hr <- Hw. destruct neg; [|done]. unfold numeric_negate.
  split; [by apply (negate_num 16)|by apply (snum_negate 16)].
Qed.

Lemma num_to_num_spec l src_prec src_scale dest_prec dest_scale :
  is_num 16 l -> 2 * Z.abs (snum l) < 256 ^ 16 -> 0 <= dest_prec <= 38 ->
  src_scale - dest_scale <= 38 ->
  let x := snum l in
  let y := rescaled x (dest_scale - src_scale) in
  (src_prec <= dest_prec -> src_scale = dest_scale -> Z.abs x < 10 ^ dest_prec) ->
  exists r, numeric_coerce_num_to_num l src_prec src_scale dest_prec dest_scale
            = (if 10 ^ dest_prec <=? Z.abs y then ER_NUM_OVERFLOW else NO_ERROR, r)
  /\ (Z.abs y < 10 ^ dest_prec -> is_num 16 r /\ snum r = y).
Proof.
  intros Hl Hx Hdp Hds x y Htriv. unfold numeric_coerce_num_to_num.
  destruct ((src_prec <=? dest_prec) && (src_scale =? dest_scale)) eqn:E0.
  { assert (y = x) as ->.
    { unfold y, rescaled. replace (dest_scale - src_scale) with 0 by lia. change (10 ^ 0) with 1.
      cbn [Z.leb Z.compare]. lia. }
    replace (_ <=? _) with false by lia. rewrite copy_num by done. by exists l. }
  destruct (abs_copy l Hl Hx) as [Ha Ea]. set (a := if numeric_is_negative l then _ else _) in *.
  destruct (num_to_dec_str_spec a Ha) as (s & Hs & ->). rewrite Ea in *. rewrite Z.abs_idemp in Hs.
  replace (Z.abs (snum l) <? 0) with false by lia. cbn [app].
  pose proof (rescale_spec s _ src_scale dest_scale Hs ltac:(lia)) as H.
  destruct (rescale s src_scale dest_scale) as [t up]. destruct H as (Ht & Hlen & Ew).
  destruct (rescaled_abs (snum l) (dest_scale - src_scale)) as (Hw & Ey & Eabs).
  fold x in Ew, Hw, Ey, Eabs. fold y in Ey, Eabs. rewrite Ew in Hw, Ey, Eabs.
  set (w := strval t + _) in *.
  pose proof (fits_spec t (Z.to_nat dest_prec) up Ht ltac:(lia)) as Hf. cbn zeta in Hf. fold w in Hf.
  rewrite Z2Nat.id in Hf by lia. rewrite Eabs, <- Hf.
  destruct (existsb _ _); [by exists a; split; [|lia]|]. cbn [orb] in *.
  destruct (up && _); [by exists a; split; [|lia]|].
  destruct (round_up_spec t (Z.to_nat dest_prec) up Ht ltac:(lia)) as [Hr Er];
    [rewrite Z2Nat.id; fold w; lia|]. fold w in Er. cbn zeta in Hr.
  eexists. split; [done|]. intros _. pose proof (pow10_38 dest_prec Hdp).
  rewrite (negative_snum 16) by done.
  destruct (negate_if_snum (snum l <? 0) _ w Hr Er ltac:(lia)) as [Hn En].
  split; [exact Hn|]. rewrite En, Ey. fold x. destruct x; cbn; lia.
Qed.
