(* ===== verification/NumericOps.v ===== *)
(** * Exact numeric values: lemmas about the operations on DB_VALUE

    What a DB_VALUE of numeric_opfunc.c stands for, and the results of addition,
    subtraction, multiplication and comparison. *)
From Stdlib Require Import ZArith Lia ZifyBool.
From stdpp Require Import base list numbers gmap.
From S2P Require Import Prelude Numeric NumericValue NumericArith NumericDiv NumericString NumericCoerce.

(** A value that stands for [x] / 10 ^ [s], declared with [p] digits. *)
Definition numeric_is (v : DB_VALUE) (p s x : Z) : Prop :=
  is_null v = false /\ type v = DB_TYPE_NUMERIC /\ precision v = p /\ scale v = s
  /\ is_num 16 (num v) /\ snum (num v) = x.

(** The values the type NUMERIC (p, s) has. *)
Definition in_domain (p s x : Z) : Prop := 1 <= p <= 38 /\ 0 <= s <= p /\ Z.abs x < 10 ^ p.

Lemma numeric_is_numeric v p s x : numeric_is v p s x -> is_numeric v = true /\ is_null v = false.
Proof. intros (E1 & E2 & _). split; [|done]. unfold is_numeric. by rewrite E1, E2. Qed.

Lemma make_numeric_spec n p s :
  is_num 16 n -> 1 <= p <= 38 -> 0 <= s < 256 ->
  exists v, db_make_numeric n p s = (NO_ERROR, v) /\ numeric_is v p s (snum n).
Proof.
  intros Hn Hp Hs. unfold db_make_numeric, db_value_domain_init, IS_INVALID_PRECISION.
  replace (_ && _) with false by (unfold DB_DEFAULT_PRECISION, DB_MAX_NUMERIC_PRECISION; lia).
  cbn [negb Z.eqb]. eexists. split; [done|]. unfold DB_DEFAULT_PRECISION, DB_DEFAULT_SCALE.
  replace (p =? -1) with false by lia. replace (s =? -1) with false by lia.
  rewrite copy_num by done. repeat split; try apply Hn; apply uwrap_small; cbn; lia.
Qed.

Lemma domain_small p s x : in_domain p s x -> 2 * Z.abs x < 256 ^ 16.
Proof. intros (Hp & _ & Hx). pose proof (pow10_38 p ltac:(lia)). lia. Qed.

Lemma pow10_le k m : k <= m -> 10 ^ k <= 10 ^ m.
Proof. intros. apply Z.pow_le_mono_r; lia. Qed.

Lemma scaled_digits p k x : 0 <= p -> 0 <= k -> Z.abs x < 10 ^ p -> Z.abs (x * 10 ^ k) < 10 ^ (p + k).
Proof.
  intros Hp Hk Hx. rewrite Z.pow_add_r, Z.abs_mul by lia. pose proof (Z.pow_pos_nonneg 10 k).
  rewrite (Z.abs_eq (10 ^ k)) by lia. nia.
Qed.

Section Common.
Context (v1 v2 : DB_VALUE) (p1 s1 x1 p2 s2 x2 : Z).
Context (V1 : numeric_is v1 p1 s1 x1) (D1 : in_domain p1 s1 x1).
Context (V2 : numeric_is v2 p2 s2 x2) (D2 : in_domain p2 s2 x2).
Notation s := (Z.max s1 s2).

(** The two numbers with the larger scale. *)
Notation y1 := (x1 * 10 ^ (s - s1)).
Notation y2 := (x2 * 10 ^ (s - s2)).

Lemma scale_up l k p x :
  is_num 16 l -> snum l = x -> 0 <= k -> 0 <= p -> p + k <= 38 -> Z.abs x < 10 ^ p ->
  is_num 16 (numeric_scale_dec l k).2 /\ snum (numeric_scale_dec l k).2 = x * 10 ^ k.
Proof.
  intros Hl Ex Hk Hp Hpk Hx. pose proof (scaled_digits p k x Hp Hk Hx) as H.
  pose proof (pow10_38 (p + k) ltac:(lia)). rewrite Z.abs_mul, (Z.abs_eq (10 ^ k)) in H by (apply Z.pow_nonneg; lia).
  destruct (scale_dec_small l k Hl Hk) as (r & -> & Hr & Er); [rewrite Ex; lia|].
  split; [done|]. cbn [snd]. rewrite Er, Ex. ring.
Qed.

Lemma make_two n1 n2 cprec cscale :
  is_num 16 n1 -> is_num 16 n2 -> 1 <= cprec <= 38 -> 0 <= cscale < 256 ->
  exists c1 c2,
    (let '(error, dbv1_common) := db_make_numeric n1 cprec cscale in
     let '(error, dbv2_common) :=
       if error =? NO_ERROR then db_make_numeric n2 cprec cscale else (error, v2) in
     (error, (dbv1_common, dbv2_common))) = (NO_ERROR, (c1, c2))
    /\ numeric_is c1 cprec cscale (snum n1) /\ numeric_is c2 cprec cscale (snum n2).
Proof.
  intros H1 H2 Hp Hs. destruct (make_numeric_spec n1 cprec cscale H1 Hp Hs) as (c1 & -> & C1).
  destruct (make_numeric_spec n2 cprec cscale H2 Hp Hs) as (c2 & E2 & C2).
  change (NO_ERROR =? NO_ERROR) with true. cbn match. rewrite E2. by exists c1, c2.
Qed.

Notation P := (Z.max (p1 + (s - s1)) (p2 + (s - s2))).

Lemma common_digits : s <= P /\ 1 <= P /\ Z.abs y1 < 10 ^ P /\ Z.abs y2 < 10 ^ P.
Proof.
  destruct D1 as (Hp1 & Hs1 & B1), D2 as (Hp2 & Hs2 & B2).
  pose proof (scaled_digits p1 (s - s1) x1 ltac:(lia) ltac:(lia) B1) as R1.
  pose proof (scaled_digits p2 (s - s2) x2 ltac:(lia) ltac:(lia) B2) as R2.
  pose proof (pow10_le (p1 + (s - s1)) P ltac:(lia)).
  pose proof (pow10_le (p2 + (s - s2)) P ltac:(lia)). lia.
Qed.

(** numeric_common_prec_scale gives both numbers the larger scale, or fails
    when the declared digits do not suffice. *)
Lemma common_prec_scale_spec :
  if P <=? 38
  then exists c1 c2, numeric_common_prec_scale v1 v2 = (NO_ERROR, (c1, c2))
       /\ numeric_is c1 P s y1 /\ numeric_is c2 P s y2
  else exists c, numeric_common_prec_scale v1 v2 = (ER_NUM_OVERFLOW, c).
Proof.
  destruct V1 as (_ & _ & P1 & S1 & N1 & X1), V2 as (_ & _ & P2 & S2 & N2 & X2).
  destruct D1 as (Hp1 & Hs1 & B1), D2 as (Hp2 & Hs2 & B2).
  unfold numeric_common_prec_scale. rewrite P1, P2, S1, S2. unfold DB_MAX_NUMERIC_PRECISION.
  assert (forall n1 n2 c t, is_num 16 n1 -> snum n1 = y1 -> is_num 16 n2 -> snum n2 = y2 ->
    P <= 38 -> c = P -> t = s -> exists c1 c2,
    (let '(error, dbv1_common) := db_make_numeric n1 c t in
     let '(error, dbv2_common) :=
       if error =? NO_ERROR then db_make_numeric n2 c t else (error, v2) in
     (error, (dbv1_common, dbv2_common))) = (NO_ERROR, (c1, c2))
    /\ numeric_is c1 P s y1 /\ numeric_is c2 P s y2) as Hmake.
  { intros n1 n2 c t H1 <- H2 <- HP -> ->. apply make_two; [done|done|lia|lia]. }
  destruct (s1 =? s2) eqn:E; [|destruct (s1 <? s2) eqn:E'].
  - replace (P <=? 38) with true by lia. replace s1 with s2 in * by lia.
    apply Hmake; try done; try lia; rewrite ?Z.max_id, Z.sub_diag; change (10 ^ 0) with 1; lia.
  - destruct (s2 - s1 + p1 >? 38) eqn:E38.
    { replace (P <=? 38) with false by lia. by eexists. }
    replace (P <=? 38) with true by lia. rewrite (Z.max_r s1 s2) in * by lia.
    destruct (scale_up (num v1) (s2 - s1) p1 x1) as [A1 A2]; try done; try lia.
    apply Hmake; try done; try lia. rewrite Z.sub_diag. change (10 ^ 0) with 1. lia.
  - destruct (s1 - s2 + p2 >? 38) eqn:E38.
    { replace (P <=? 38) with false by lia. by eexists. }
    replace (P <=? 38) with true by lia. rewrite (Z.max_l s1 s2) in * by lia.
    destruct (scale_up (num v2) (s1 - s2) p2 x2) as [A1 A2]; try done; try lia.
    apply Hmake; try done; try lia. rewrite Z.sub_diag. change (10 ^ 0) with 1. lia.
Qed.

(** One of the operands of numeric_prec_scale_when_overflow. *)
Lemma widen_spec v p t x :
  numeric_is v p t x -> in_domain p t x -> t <= s ->
  exists r, numeric_coerce_num_to_num (num v) (precision v) (scale v) 38 s
            = (if 10 ^ 38 <=? Z.abs (x * 10 ^ (s - t)) then ER_NUM_OVERFLOW else NO_ERROR, r)
  /\ (Z.abs (x * 10 ^ (s - t)) < 10 ^ 38 -> is_num 16 r /\ snum r = x * 10 ^ (s - t)).
Proof.
  intros (_ & _ & -> & -> & Hn & Ex) D Ht. pose proof (domain_small p t x D) as Hsm.
  destruct D as (Hp & Hs & Hx). pose proof (pow10_le p 38 ltac:(lia)).
  destruct (num_to_num_spec (num v) p t 38 s Hn ltac:(rewrite Ex; lia)) as (r & E & Hr);
    [lia|lia|rewrite Ex; lia|].
  unfold rescaled in E, Hr. replace (0 <=? s - t) with true in E, Hr by lia. rewrite Ex in E, Hr.
  by exists r.
Qed.

Lemma when_overflow_spec :
  if (10 ^ 38 <=? Z.abs y1) || (10 ^ 38 <=? Z.abs y2)
  then exists c, numeric_prec_scale_when_overflow v1 v2 = (ER_NUM_OVERFLOW, c)
  else exists c1 c2, numeric_prec_scale_when_overflow v1 v2 = (NO_ERROR, (c1, c2))
       /\ numeric_is c1 38 s y1 /\ numeric_is c2 38 s y2.
Proof.
  destruct (widen_spec v1 p1 s1 x1 V1 D1 ltac:(lia)) as (r1 & E1 & R1).
  destruct (widen_spec v2 p2 s2 x2 V2 D2 ltac:(lia)) as (r2 & E2 & R2).
  destruct V1 as (_ & _ & P1 & S1 & _ & _), V2 as (_ & _ & P2 & S2 & _ & _).
  destruct D1 as (Hp1 & Hs1 & B1), D2 as (Hp2 & Hs2 & B2).
  unfold numeric_prec_scale_when_overflow. rewrite S1, S2 in *. unfold DB_MAX_NUMERIC_PRECISION.
  rewrite E1, E2. destruct (10 ^ 38 <=? Z.abs y1) eqn:F1; cbn [orb]; [by eexists|].
  destruct R1 as [N1 X1]; [lia|].
  destruct (make_numeric_spec r1 38 s N1 ltac:(lia) ltac:(lia)) as (c1 & -> & C1).
  change (negb (NO_ERROR =? NO_ERROR)) with false. cbn match.
  destruct (10 ^ 38 <=? Z.abs y2) eqn:F2; [by eexists|].
  destruct R2 as [N2 X2]; [lia|].
  destruct (make_numeric_spec r2 38 s N2 ltac:(lia) ltac:(lia)) as (c2 & -> & C2).
  rewrite X1 in C1. rewrite X2 in C2. by exists c1, c2.
Qed.

(** The two operands with a common scale, whichever function makes them. *)
Lemma common_spec :
  let '(ret, c) := numeric_common_prec_scale v1 v2 in
  let '(ret, (c1, c2)) :=
    if ret =? ER_NUM_OVERFLOW then numeric_prec_scale_when_overflow v1 v2 else (ret, c) in
  if (10 ^ 38 <=? Z.abs y1) || (10 ^ 38 <=? Z.abs y2) then ret = ER_NUM_OVERFLOW
  else ret = NO_ERROR /\ exists p, numeric_is c1 p s y1 /\ numeric_is c2 p s y2
       /\ s <= p /\ 1 <= p <= 38 /\ Z.abs y1 < 10 ^ p /\ Z.abs y2 < 10 ^ p.
Proof.
  pose proof common_prec_scale_spec as H1. pose proof when_overflow_spec as H2.
  pose proof common_digits as (Hd1 & Hd2 & Hd3 & Hd4). destruct (P <=? 38) eqn:EP.
  - destruct H1 as (c1 & c2 & -> & C1 & C2). change (NO_ERROR =? ER_NUM_OVERFLOW) with false. cbn match.
    pose proof (pow10_le P 38 ltac:(lia)). replace (_ || _) with false by lia.
    split; [done|]. exists P. repeat (split; [done || lia|]). lia.
  - destruct H1 as (c & ->). rewrite Z.eqb_refl.
    destruct ((10 ^ 38 <=? Z.abs y1) || (10 ^ 38 <=? Z.abs y2)) eqn:F.
    + by destruct H2 as ([] & ->).
    + destruct H2 as (c1 & c2 & -> & C1 & C2). split; [done|]. exists 38.
      destruct D1, D2. repeat (split; [done || lia|]). lia.
Qed.

(** The sum of two numbers of 38 digits may wrap around, but the wrapped number
    is still too long. *)
Lemma overflow_wrapped l y k :
  is_num 16 l -> unum l = y mod 256 ^ 16 -> Z.abs y < 2 * 10 ^ 38 -> 0 <= k <= 38 ->
  numeric_overflow l k = (10 ^ k <=? Z.abs y) /\ (Z.abs y < 10 ^ k -> snum l = y).
Proof.
  intros Hl El Hy Hk. rewrite overflow_spec by done. pose proof (pow10_38 k Hk).
  pose proof (pow10_le k 38 ltac:(lia)). assert (3 * 10 ^ 38 < 256 ^ 16) by done.
  pose proof (snum_eq 16 ltac:(done) l) as Heq. change (256 ^ Z.of_nat 16) with (256 ^ 16) in Heq.
  destruct (decide (256 ^ 16 <= 2 * y)); [|destruct (decide (2 * y < - 256 ^ 16))].
  - rewrite (Heq (y - 256 ^ 16)); [lia|done| |lia]. rewrite El. symmetry.
    replace (y - 256 ^ 16) with (y + (-1) * 256 ^ 16) by ring. by rewrite Z.mod_add.
  - rewrite (Heq (y + 256 ^ 16)); [lia|done| |lia]. rewrite El. symmetry.
    replace (y + 256 ^ 16) with (y + 1 * 256 ^ 16) by ring. by rewrite Z.mod_add.
  - rewrite (Heq y); [lia|done|done|lia].
Qed.
End Common.

(** The end of addition, subtraction and division: the answer with one digit
    more, if need be. *)
Definition make_answer (temp : NUM) (prec scal : Z) : Z * DB_VALUE :=
  if numeric_overflow temp prec then
    if prec <? DB_MAX_NUMERIC_PRECISION then db_make_numeric temp (prec + 1) scal
    else (ER_NUM_OVERFLOW, numeric_null)
  else db_make_numeric temp prec scal.

Lemma make_answer_spec l y p s :
  is_num 16 l -> unum l = y mod 256 ^ 16 -> Z.abs y < 2 * 10 ^ 38 -> 1 <= p <= 38 -> 0 <= s <= p ->
  (p < 38 -> Z.abs y < 10 ^ (p + 1)) ->
  if 10 ^ 38 <=? Z.abs y then make_answer l p s = (ER_NUM_OVERFLOW, numeric_null)
  else exists v p', make_answer l p s = (NO_ERROR, v) /\ numeric_is v p' s y /\ in_domain p' s y.
Proof.
  intros Hl El Hy Hp Hs Hp1. unfold make_answer, DB_MAX_NUMERIC_PRECISION.
  destruct (overflow_wrapped l y p Hl El Hy ltac:(lia)) as [-> Hsmall].
  pose proof (pow10_le p 38 ltac:(lia)). destruct (10 ^ p <=? Z.abs y) eqn:Eo.
  - destruct (p <? 38) eqn:E38.
    + pose proof (pow10_le (p + 1) 38 ltac:(lia)). replace (_ <=? _) with false by lia.
      destruct (overflow_wrapped l y (p + 1) Hl El Hy ltac:(lia)) as [_ Ey].
      destruct (make_numeric_spec l (p + 1) s Hl ltac:(lia) ltac:(lia)) as (v & E & V).
      rewrite Ey in V by lia. exists v, (p + 1). split; [done|]. split; [done|]. unfold in_domain. lia.
    + replace p with 38 in * by lia. by rewrite Eo.
  - replace (_ <=? _) with false by lia.
    destruct (make_numeric_spec l p s Hl ltac:(lia) ltac:(lia)) as (v & E & V).
    rewrite Hsmall in V by lia. exists v, p. split; [done|]. split; [done|]. unfold in_domain. lia.
Qed.

(** ** Addition and subtraction *)

(** What addition and subtraction have in common. *)
Definition computes (op : NUM -> NUM -> nat -> NUM) (f : Z -> Z -> Z) : Prop :=
  (forall x y, Z.abs (f x y) <= Z.abs x + Z.abs y)
  /\ forall l1 l2, is_num 16 l1 -> is_num 16 l2 ->
     is_num 16 (op l1 l2 16%nat) /\ unum (op l1 l2 16%nat) = f (snum l1) (snum l2) mod 256 ^ 16.

Lemma computes_add : computes numeric_add Z.add.
Proof.
  split; [lia|]. intros l1 l2 H1 H2. destruct (add_num 16 l1 l2 H1 H2) as [Hr Er]. split; [done|].
  rewrite Er, <- (snum_mod 16 ltac:(done) l1 H1), <- (snum_mod 16 ltac:(done) l2 H2).
  by rewrite <- Zplus_mod.
Qed.

Lemma computes_sub : computes numeric_sub Z.sub.
Proof.
  split; [lia|]. intros l1 l2 H1 H2. destruct (sub_num l1 l2 H1 H2) as [Hr Er]. split; [done|].
  rewrite Er, <- (snum_mod 16 ltac:(done) l1 H1), <- (snum_mod 16 ltac:(done) l2 H2).
  by rewrite <- Zminus_mod.
Qed.

Lemma add_sub_spec op f v1 v2 p1 s1 x1 p2 s2 x2 :
  computes op f ->
  numeric_is v1 p1 s1 x1 -> in_domain p1 s1 x1 -> numeric_is v2 p2 s2 x2 -> in_domain p2 s2 x2 ->
  let s := Z.max s1 s2 in
  let y1 := x1 * 10 ^ (s - s1) in
  let y2 := x2 * 10 ^ (s - s2) in
  if (10 ^ 38 <=? Z.abs y1) || (10 ^ 38 <=? Z.abs y2) || (10 ^ 38 <=? Z.abs (f y1 y2))
  then add_sub op (Some v1) (Some v2) = (ER_NUM_OVERFLOW, numeric_null)
  else exists v p, add_sub op (Some v1) (Some v2) = (NO_ERROR, v)
       /\ numeric_is v p s (f y1 y2) /\ in_domain p s (f y1 y2).
Proof.
  intros [Hf Hop] V1 D1 V2 D2 s y1 y2. unfold add_sub, DB_IS_NULL.
  destruct (numeric_is_numeric v1 _ _ _ V1) as [-> ->]. destruct (numeric_is_numeric v2 _ _ _ V2) as [-> ->].
  cbn [negb orb]. pose proof (common_spec v1 v2 p1 s1 x1 p2 s2 x2 V1 D1 V2 D2) as H. fold s y1 y2 in H.
  destruct (numeric_common_prec_scale v1 v2) as [ret [d1 d2]].
  destruct (if ret =? ER_NUM_OVERFLOW then _ else _) as [ret' [c1 c2]].
  destruct ((10 ^ 38 <=? Z.abs y1) || (10 ^ 38 <=? Z.abs y2)) eqn:F; cbn [orb]; [by rewrite H|].
  destruct H as (-> & p & C1 & C2 & Hsp & Hp & B1 & B2).
  destruct C1 as (_ & _ & -> & -> & N1 & X1), C2 as (_ & _ & _ & _ & N2 & X2).
  change (negb (NO_ERROR =? NO_ERROR)) with false. cbn match. specialize (Hf y1 y2).
  destruct (Hop (num c1) (num c2) N1 N2) as [Hr Er]. rewrite X1, X2 in Er.
  change DB_NUMERIC_BUF_SIZE with 16%nat. set (t := op (num c1) (num c2) 16%nat) in *.
  pose proof (pow10_le p 38 ltac:(lia)). destruct D1 as (_ & Hs1 & _), D2 as (_ & Hs2 & _).
  apply (make_answer_spec t (f y1 y2) p s Hr Er ltac:(lia) Hp ltac:(lia)).
  intros _. rewrite Z.pow_add_r by lia. change (10 ^ 1) with 10. lia.
Qed.

(** ** Multiplication *)

Lemma halves l :
  is_num 32 l ->
  is_num 16 (take 16 l) /\ is_num 16 (drop 16 l)
  /\ unum l = unum (take 16 l) * 256 ^ 16 + unum (drop 16 l).
Proof.
  intros [Hb Hl]. assert (is_num 16 (drop 16 l)) as Hd by (by apply (is_num_drop 16 16)).
  split; [split; [by apply Forall_take|rewrite length_take; lia]|]. split; [done|].
  rewrite <- (take_drop 16 l) at 1. by rewrite unum_app, (is_num_size 16).
Qed.

Lemma high_zero l : is_num 32 l -> numeric_is_zero l = (unum l <? 256 ^ 16).
Proof.
  intros Hl. destruct (halves l Hl) as (Ht & Hd & E).
  assert (numeric_is_zero l = numeric_is_zero (take 16 l)) as ->.
  { unfold numeric_is_zero. change DB_NUMERIC_BUF_SIZE with 16%nat. by rewrite take_take. }
  rewrite is_zero_spec by done. pose proof (is_num_range 16 _ Ht). pose proof (is_num_range 16 _ Hd).
  change (256 ^ Z.of_nat 16) with (256 ^ 16) in *. nia.
Qed.

(** The test of numeric_get_msb_for_dec for a product that fits. *)
Lemma product_fits l :
  is_num 32 l -> numeric_is_zero l && (byte_at l 16 <=? 127) = (2 * unum l <? 256 ^ 16).
Proof.
  intros Hl. destruct (halves l Hl) as (Ht & Hd & E). rewrite high_zero by done.
  pose proof (is_num_range 16 _ Ht). pose proof (is_num_range 16 _ Hd).
  change (256 ^ Z.of_nat 16) with (256 ^ 16) in *. destruct (unum l <? 256 ^ 16) eqn:E1; cbn [andb]; [|lia].
  assert (unum (take 16 l) = 0) as Ez by nia. rewrite Ez in E.
  pose proof (negative_byte 16 _ Hd) as En. rewrite (negative_num 16) in En by done.
  rewrite byte_at_drop in En. change (256 ^ Z.of_nat 16) with (256 ^ 16) in *. lia.
Qed.

Lemma low_half l :
  is_num 32 l -> 2 * unum l < 256 ^ 16 ->
  is_num 16 (numeric_copy (drop 16 l)) /\ snum (numeric_copy (drop 16 l)) = unum l.
Proof.
  intros Hl Hu. destruct (halves l Hl) as (Ht & Hd & E). rewrite copy_num by done. split; [done|].
  pose proof (is_num_range 16 _ Ht). pose proof (is_num_range 16 _ Hd).
  change (256 ^ Z.of_nat 16) with (256 ^ 16) in *. assert (unum (take 16 l) = 0) as Ez by nia.
  apply (snum_eq 16); [done|done| |change (256 ^ Z.of_nat 16) with (256 ^ 16); lia].
  change (256 ^ Z.of_nat 16) with (256 ^ 16). rewrite Z.mod_small; lia.
Qed.

(** The digits a product of [prec] digits with [scal] decimals loses. *)
Definition lost_digits (prec scal : Z) : Z := if (prec <=? 38) || (scal <=? 38) then 0 else prec - 38.

Lemma msb_for_dec_spec prec scal src :
  is_num 32 src -> 3 <= prec <= 77 -> unum src < 10 ^ (prec - 1) ->
  let k := lost_digits prec scal in
  let z := unum src / 10 ^ k in
  if 2 * z <? 256 ^ 16
  then exists r, numeric_get_msb_for_dec prec scal src = (NO_ERROR, Z.min prec 38, scal - k, r)
       /\ is_num 16 r /\ snum r = z
  else exists p s r, numeric_get_msb_for_dec prec scal src = (ER_NUM_OVERFLOW, p, s, r).
Proof.
  intros Hsrc Hp Hu k z. unfold numeric_get_msb_for_dec, DB_MAX_NUMERIC_PRECISION.
  pose proof (is_num_range 32 _ Hsrc) as Hr. unfold z, k, lost_digits.
  destruct (prec <=? 38) eqn:E1; cbn [orb].
  { change (10 ^ 0) with 1. rewrite Z.div_1_r, Z.sub_0_r, Z.min_l by lia.
    pose proof (pow10_38 (prec - 1) ltac:(lia)). replace (_ <? _) with true by lia.
    eexists. split; [done|]. apply low_half; [done|lia]. }
  change DB_NUMERIC_BUF_SIZE with 16%nat. rewrite Z.min_r by lia. destruct (scal <=? 38) eqn:E2.
  { change (10 ^ 0) with 1. rewrite Z.div_1_r, Z.sub_0_r, product_fits by done.
    destruct (2 * unum src <? 256 ^ 16) eqn:E3; [|by do 3 eexists].
    eexists. split; [done|]. apply low_half; [done|lia]. }
  set (n := prec - 38). pose proof (pow10_le (prec - 1) 76 ltac:(lia)).
  destruct (big_num_to_dec_str_spec src Hsrc ltac:(lia)) as (Hl & Hd & Ev).
  set (t := numeric_coerce_big_num_to_dec_str src) in *.
  destruct (strval_split t (Z.to_nat n) Hd ltac:(lia)) as [Et _]. rewrite Hl, Ev, Z2Nat.id in Et by lia.
  assert (unum src / 10 ^ n < 10 ^ 37) as Hz.
  { apply Z.div_lt_upper_bound; [apply Z.pow_pos_nonneg; lia|]. rewrite <- Z.pow_add_r by lia.
    by replace (n + 37) with (prec - 1) by lia. }
  replace (_ <? _) with true by lia.
  destruct (dec_str_to_num_spec (take (76 - Z.to_nat n) t)) as [Hr' Er'];
    [by apply digits_take|rewrite Et; lia|].
  eexists. split; [done|]. split; [exact Hr'|]. etransitivity; [exact Er'|exact Et].
Qed.

Lemma quot_abs_sgn y k :
  0 <= k -> Z.quot y (10 ^ k) = if 0 <=? y then Z.abs y / 10 ^ k else - (Z.abs y / 10 ^ k).
Proof.
  intros Hk. pose proof (Z.pow_pos_nonneg 10 k). rewrite quot_sign, (Z.abs_eq (10 ^ k)) by lia.
  replace (10 ^ k <? 0) with false by lia. destruct (y <? 0) eqn:?, (0 <=? y) eqn:?; cbn; lia.
Qed.

(** numeric_db_value_mul: the product with the digits behind the precision cut
    off, or an error when it does not fit in 128 bits. *)
Lemma mul_value_spec v1 v2 p1 s1 x1 p2 s2 x2 :
  numeric_is v1 p1 s1 x1 -> in_domain p1 s1 x1 -> numeric_is v2 p2 s2 x2 -> in_domain p2 s2 x2 ->
  let p := p1 + p2 + 1 in
  let k := lost_digits p (s1 + s2) in
  let y := Z.quot (x1 * x2) (10 ^ k) in
  if 2 * Z.abs y <? 256 ^ 16
  then exists v, numeric_db_value_mul (Some v1) (Some v2) = (NO_ERROR, v)
       /\ numeric_is v (Z.min p 38) (s1 + s2 - k) y
  else numeric_db_value_mul (Some v1) (Some v2) = (ER_NUM_OVERFLOW, numeric_null).
Proof.
  intros V1 D1 V2 D2 p k y. unfold numeric_db_value_mul, DB_IS_NULL.
  destruct (numeric_is_numeric v1 _ _ _ V1) as [-> ->]. destruct (numeric_is_numeric v2 _ _ _ V2) as [-> ->].
  cbn [negb orb]. destruct V1 as (_ & _ & -> & -> & N1 & X1), V2 as (_ & _ & -> & -> & N2 & X2).
  destruct D1 as (Hp1 & Hs1 & B1), D2 as (Hp2 & Hs2 & B2).
  pose proof (mul_spec (num v1) (num v2) N1 N2) as Hm. rewrite X1, X2 in Hm.
  destruct (numeric_mul (num v1) (num v2)) as [positive t]. destruct Hm as (Ht & Ut & ->).
  assert (Z.abs (x1 * x2) < 10 ^ (p - 1)) as Hy.
  { replace (p - 1) with (p1 + p2) by lia. rewrite Z.abs_mul, Z.pow_add_r by lia. nia. }
  pose proof (msb_for_dec_spec p (s1 + s2) t Ht ltac:(lia) ltac:(lia)) as H.
  cbn zeta in H. fold k in H. fold p. rewrite Ut in H.
  assert (0 <= k /\ 0 <= s1 + s2 - k < 256) as [Hk Hsk] by (unfold k, lost_digits; zcase; lia).
  assert (0 <= Z.abs (x1 * x2) / 10 ^ k) as Hz.
  { apply Z.div_pos; [lia|apply Z.pow_pos_nonneg; lia]. }
  unfold y. rewrite (quot_abs_sgn (x1 * x2) k Hk).
  assert (forall z, Z.abs (if 0 <=? x1 * x2 then z else - z) = Z.abs z) as -> by (intros; zcase; lia).
  rewrite (Z.abs_eq (_ / _)) by done. set (z := Z.abs (x1 * x2) / 10 ^ k) in *.
  revert H. destruct (2 * z <? 256 ^ 16) eqn:E; [|by intros (p' & s' & r & ->)].
  intros (r & -> & Hr & Er). change (negb (NO_ERROR =? NO_ERROR)) with false. cbn match.
  destruct (negate_if_snum (negb (0 <=? x1 * x2)) r z Hr Er ltac:(lia)) as [Hn En].
  destruct (0 <=? x1 * x2); cbn [negb] in *; 
    (destruct (make_numeric_spec _ (Z.min p 38) (s1 + s2 - k) Hn ltac:(lia) Hsk) as (v & -> & V));
    rewrite En in V; by exists v.
Qed.

(** ** Comparison *)

(** The last digits of the decimal string of a number. *)
Lemma dec_str_tail l n :
  is_num 16 l -> (n <= 76)%nat ->
  let s := numeric_coerce_num_to_dec_str l in
  let t := drop (length s - n) s in
  digits t /\ length t = n /\ strval t = Z.abs (snum l) mod 10 ^ Z.of_nat n.
Proof.
  intros Hl Hn s t. destruct (num_to_dec_str_spec l Hl) as (u & (Lu & Du & Vu) & E). fold s in E.
  assert (t = drop (length u - n) u) as ->.
  { unfold t. rewrite E. destruct (snum l <? 0); cbn [app length]; [|done].
    replace (S (length u) - n)%nat with (S (length u - n)) by lia. done. }
  destruct (strval_split u n Du ltac:(lia)) as [_ Et].
  split; [by apply digits_drop|]. split; [rewrite length_drop; lia|]. by rewrite Et, Vu.
Qed.

Lemma signed_digits (neg : bool) t k :
  digits t -> strval t < 10 ^ k -> 0 <= k <= 38 ->
  let r := numeric_coerce_dec_str_to_num t in
  let r := if neg then numeric_negate r else r in
  is_num 16 r /\ snum r = if neg then - strval t else strval t.
Proof.
  intros Ht Hk Hk38. pose proof (pow10_38 k Hk38). pose proof (strval_range t Ht).
  destruct (dec_str_to_num_spec t Ht ltac:(lia)) as [Hr Er]. cbn zeta.
  apply negate_if_snum; [done|done|lia].
Qed.

Lemma integral_part_spec l p s dst :
  is_num 16 l -> in_domain p s (snum l) -> p - s <= dst <= 38 ->
  let r := numeric_get_integral_part l p s dst in
  is_num 16 r /\ snum r = Z.quot (snum l) (10 ^ s).
Proof.
  intros Hl (Hp & Hs & Hx) Hd. unfold numeric_get_integral_part.
  destruct (dec_str_tail l (Z.to_nat p) Hl ltac:(lia)) as (Dt & Lt & Vt).
  set (t := drop _ (numeric_coerce_num_to_dec_str l)) in *.
  rewrite Z2Nat.id, Z.mod_small in Vt by lia.
  destruct (strval_split t (Z.to_nat s) Dt ltac:(lia)) as [Vi _]. rewrite Lt, Vt, Z2Nat.id in Vi by lia.
  replace (Z.to_nat p - Z.to_nat s)%nat with (Z.to_nat (p - s)) in Vi by lia.
  set (u := take (Z.to_nat (p - s)) t) in *.
  set (w := replicate (Z.to_nat dst - Z.to_nat (p - s)) chr_0 ++ u).
  assert (strval w = Z.abs (snum l) / 10 ^ s) as E.
  { unfold w. rewrite strval_app, strval_zeros, Vi. lia. }
  pose proof (Z.pow_pos_nonneg 10 s ltac:(lia) ltac:(lia)) as Hps.
  destruct (signed_digits (numeric_is_negative l) w 38) as [Hr Er]; [| |lia|].
  - apply digits_app. split; [apply digits_zeros|by apply digits_take].
  - rewrite E. apply Z.le_lt_trans with (Z.abs (snum l)).
    + apply Z.div_le_upper_bound; [lia|]. nia.
    + pose proof (pow10_le p 38 ltac:(lia)). lia.
  - split; [exact Hr|]. etransitivity; [exact Er|].
    rewrite E, (negative_snum 16), quot_abs_sgn by (done || lia).
    destruct (snum l <? 0) eqn:?, (0 <=? snum l) eqn:?; lia.
Qed.

Lemma fractional_part_spec l p s dst :
  is_num 16 l -> in_domain p s (snum l) -> s <= dst <= 38 ->
  let r := numeric_get_fractional_part l s dst in
  is_num 16 r /\ snum r = Z.rem (snum l) (10 ^ s) * 10 ^ (dst - s).
Proof.
  intros Hl (Hp & Hs & Hx) Hd. unfold numeric_get_fractional_part.
  destruct (dec_str_tail l (Z.to_nat s) Hl ltac:(lia)) as (Dt & Lt & Vt).
  set (t := drop _ (numeric_coerce_num_to_dec_str l)) in *. rewrite Z2Nat.id in Vt by lia.
  set (u := t ++ replicate (Z.to_nat (dst - s)) chr_0).
  assert (strval u = Z.abs (snum l) mod 10 ^ s * 10 ^ (dst - s)) as E.
  { unfold u. rewrite strval_app, strval_zeros, Vt, length_replicate, Z2Nat.id by lia. lia. }
  pose proof (Z.pow_pos_nonneg 10 s ltac:(lia) ltac:(lia)) as Hps.
  destruct (signed_digits (numeric_is_negative l) u 38) as [Hr Er]; [|  |lia|].
  - apply digits_app. split; [done|apply digits_zeros].
  - rewrite E. pose proof (pow10_le dst 38 ltac:(lia)).
    assert (10 ^ dst = 10 ^ s * 10 ^ (dst - s)) by (rewrite <- Z.pow_add_r by lia; f_equal; lia).
    pose proof (Z.mod_pos_bound (Z.abs (snum l)) (10 ^ s) Hps).
    pose proof (Z.pow_pos_nonneg 10 (dst - s) ltac:(lia) ltac:(lia)). nia.
  - split; [exact Hr|]. etransitivity; [exact Er|]. rewrite E, (negative_snum 16), rem_sign by (done || lia).
    rewrite (Z.abs_eq (10 ^ s)) by lia. destruct (snum l <? 0); ring.
Qed.

Lemma truncated_parts x s t :
  0 <= s <= t ->
  let q := Z.quot x (10 ^ s) in
  let r := Z.rem x (10 ^ s) * 10 ^ (t - s) in
  x * 10 ^ (t - s) = q * 10 ^ t + r /\ Z.abs r < 10 ^ t
  /\ (0 <= q /\ 0 <= r \/ q <= 0 /\ r <= 0).
Proof.
  intros Hs q r. assert (10 ^ t = 10 ^ s * 10 ^ (t - s)) as Et.
  { rewrite <- Z.pow_add_r by lia. f_equal. lia. }
  pose proof (Z.pow_pos_nonneg 10 s ltac:(lia) ltac:(lia)) as Hps.
  pose proof (Z.pow_pos_nonneg 10 (t - s) ltac:(lia) ltac:(lia)) as Hpt.
  pose proof (Z.quot_rem x (10 ^ s) ltac:(lia)) as Ex. fold q in Ex.
  pose proof (Z.rem_bound_abs x (10 ^ s) ltac:(lia)) as Hr. rewrite (Z.abs_eq (10 ^ s)) in Hr by lia.
  unfold r. rewrite Et. split; [rewrite Ex at 1; ring|]. split; [rewrite Z.abs_mul; nia|].
  destruct (Z.le_ge_cases 0 x).
  - left. split; [by apply Z.quot_pos|]. pose proof (Z.rem_nonneg x (10 ^ s) ltac:(lia) ltac:(lia)). nia.
  - right. split.
    + unfold q. rewrite <- (Z.opp_involutive x), Z.quot_opp_l by lia.
      pose proof (Z.quot_pos (- x) (10 ^ s) ltac:(lia) ltac:(lia)). lia.
    + pose proof (Z.rem_nonpos x (10 ^ s) ltac:(lia) ltac:(lia)). nia.
Qed.

Lemma compare_parts_spec v1 v2 p1 s1 x1 p2 s2 x2 :
  numeric_is v1 p1 s1 x1 -> in_domain p1 s1 x1 -> numeric_is v2 p2 s2 x2 -> in_domain p2 s2 x2 ->
  let s := Z.max s1 s2 in
  compare_parts v1 v2 = Z.sgn (x1 * 10 ^ (s - s1) - x2 * 10 ^ (s - s2)).
Proof.
  intros (_ & _ & P1 & S1 & N1 & X1) D1 (_ & _ & P2 & S2 & N2 & X2) D2 s.
  unfold compare_parts. rewrite P1, S1, P2, S2. rewrite <- X1 in D1. rewrite <- X2 in D2.
  pose proof D1 as (Hp1 & Hs1 & _). pose proof D2 as (Hp2 & Hs2 & _).
  set (c := Z.max (p1 - s1) (p2 - s2)).
  destruct (integral_part_spec (num v1) p1 s1 c N1 D1 ltac:(lia)) as [I1 Q1].
  destruct (integral_part_spec (num v2) p2 s2 c N2 D2 ltac:(lia)) as [I2 Q2].
  destruct (fractional_part_spec (num v1) p1 s1 s N1 D1 ltac:(lia)) as [F1 R1].
  destruct (fractional_part_spec (num v2) p2 s2 s N2 D2 ltac:(lia)) as [F2 R2].
  fold s. rewrite !compare_spec, Q1, Q2, R1, R2, X1, X2 by done.
  destruct (truncated_parts x1 s1 s ltac:(lia)) as (-> & B1 & G1).
  destruct (truncated_parts x2 s2 s ltac:(lia)) as (-> & B2 & G2).
  set (q1 := Z.quot x1 (10 ^ s1)) in *. set (q2 := Z.quot x2 (10 ^ s2)) in *.
  set (r1 := Z.rem x1 (10 ^ s1) * 10 ^ (s - s1)) in *. set (r2 := Z.rem x2 (10 ^ s2) * 10 ^ (s - s2)) in *.
  clearbody q1 q2 r1 r2. destruct (Z.lt_trichotomy q1 q2) as [Hq|[->|Hq]].
  - assert (0 <= (q2 - q1 - 1) * 10 ^ s) by (apply Z.mul_nonneg_nonneg; lia).
    rewrite (Z.sgn_neg (q1 - q2)) by lia. symmetry. apply Z.sgn_neg. lia.
  - rewrite Z.sub_diag. cbn [negb Z.eqb Z.sgn]. f_equal. ring.
  - assert (0 <= (q1 - q2 - 1) * 10 ^ s) by (apply Z.mul_nonneg_nonneg; lia).
    rewrite (Z.sgn_pos (q1 - q2)) by lia. symmetry. apply Z.sgn_pos. lia.
Qed.

(** numeric_db_value_compare compares the values, in every branch. *)
Lemma compare_value_spec v1 v2 p1 s1 x1 p2 s2 x2 :
  numeric_is v1 p1 s1 x1 -> in_domain p1 s1 x1 -> numeric_is v2 p2 s2 x2 -> in_domain p2 s2 x2 ->
  let s := Z.max s1 s2 in
  numeric_db_value_compare (Some v1) (Some v2)
  = (NO_ERROR, DB_MAKE_INTEGER (Z.sgn (x1 * 10 ^ (s - s1) - x2 * 10 ^ (s - s2)))).
Proof.
  intros V1 D1 V2 D2 s. unfold numeric_db_value_compare, DB_IS_NULL.
  destruct (numeric_is_numeric v1 _ _ _ V1) as [-> ->]. destruct (numeric_is_numeric v2 _ _ _ V2) as [-> ->].
  cbn [negb orb]. pose proof (common_prec_scale_spec v1 v2 p1 s1 x1 p2 s2 x2 V1 D1 V2 D2) as H.
  pose proof (compare_parts_spec v1 v2 p1 s1 x1 p2 s2 x2 V1 D1 V2 D2) as Hc. fold s in H, Hc.
  destruct V1 as (_ & _ & P1 & S1 & N1 & X1), V2 as (_ & _ & P2 & S2 & N2 & X2).
  rewrite P1, S1, P2, S2. destruct ((p1 =? p2) && (s1 =? s2)) eqn:E.
  - rewrite compare_spec, X1, X2 by done. unfold s. replace s2 with s1 by lia.
    rewrite Z.max_id, Z.sub_diag. change (10 ^ 0) with 1. by rewrite !Z.mul_1_r.
  - destruct (_ <=? 38).
    + destruct H as (c1 & c2 & -> & (_ & _ & _ & _ & M1 & Y1) & (_ & _ & _ & _ & M2 & Y2)).
      change (NO_ERROR =? NO_ERROR) with true. cbn match. by rewrite compare_spec, Y1, Y2.
    + destruct H as (c & ->). destruct c as [c1 c2].
      change (ER_NUM_OVERFLOW =? NO_ERROR) with false. cbn match. rewrite Z.eqb_refl. by rewrite Hc.
Qed.

(** ** Conversion to NUMERIC *)

Lemma digit_loop_spec fuel n i :
  Z.abs i < 10 ^ Z.of_nat fuel -> fuel <> O ->
  exists d, digit_loop fuel n i = n + d /\ 1 <= d /\ Z.abs i < 10 ^ d
  /\ (d = 1 \/ 10 ^ (d - 1) <= Z.abs i).
Proof.
  revert n i. induction fuel as [|fuel IH]; intros n i Hi Hf; [done|]. cbn [digit_loop].
  rewrite Nat2Z.inj_succ, Z.pow_succ_r in Hi by lia.
  assert (Z.abs (Z.quot i 10) = Z.abs i / 10) as Eq.
  { rewrite <- Z.quot_abs by lia. change (Z.abs 10) with 10. by rewrite Z.quot_div_nonneg by lia. }
  destruct (Z.quot i 10 =? 0) eqn:E; cbn [negb].
  - exists 1. assert (Z.abs i / 10 = 0) by lia. change (10 ^ 1) with 10. split; [done|]. dlia.
  - assert (fuel <> O) as Hf'.
    { intros ->. change (10 ^ Z.of_nat 0) with 1 in Hi. assert (Z.abs i / 10 = 0) by dlia. lia. }
    destruct (IH (n + 1) (Z.quot i 10)) as (d & -> & Hd & Hlt & Hge); [rewrite Eq; dlia|done|].
    exists (d + 1). split; [lia|]. split; [lia|]. rewrite Eq in *. rewrite Z.add_simpl_r, Z.pow_add_r by lia.
    change (10 ^ 1) with 10. split; [dlia|]. right. destruct Hge as [->|Hge].
    + change (10 ^ 1) with 10. dlia.
    + replace d with (Z.succ (d - 1)) by lia. rewrite Z.pow_succ_r by lia. dlia.
Qed.

(** get_significant_digit is the number of digits. *)
Lemma significant_digit_spec i :
  - 2 ^ 63 <= i < 2 ^ 63 -> in_domain (get_significant_digit i) 0 i.
Proof.
  intros Hi. destruct (digit_loop_spec 20 0 i) as (d & E & Hd & Hlt & Hge).
  - change (Z.of_nat 20) with 20. lia.
  - done.
  - unfold get_significant_digit. rewrite E, Z.add_0_l. split; [|split; [lia|done]]. split; [done|].
    destruct Hge as [->|Hge]; [lia|]. assert (d - 1 < 19); [|lia].
    apply (Z.pow_lt_mono_r_iff 10); [lia|lia|]. assert (2 ^ 63 < 10 ^ 19) by done. lia.
Qed.

(** [src] is an exact value: an integer or a NUMERIC. *)
Definition exact_source (src : DB_VALUE) (s x : Z) : Prop :=
  is_null src = false /\ s = 0 /\ int src = x
  /\ (type src = DB_TYPE_INTEGER /\ - 2 ^ 31 <= x < 2 ^ 31 \/ type src = DB_TYPE_BIGINT /\ - 2 ^ 63 <= x < 2 ^ 63)
  \/ exists p, numeric_is src p s x /\ in_domain p s x.

Lemma source_num_spec src s x :
  exact_source src s x ->
  exists n p, source_num src = Some (NO_ERROR, n, p, s) /\ is_num 16 n /\ snum n = x /\ in_domain p s x.
Proof.
  unfold source_num. intros [(-> & -> & Ei & Ht)|(p & (-> & -> & -> & -> & N & X) & D)].
  - rewrite Ei. destruct Ht as [[-> Hx]|[-> Hx]].
    + destruct (int_to_num x Hx) as [Hn En]. do 2 eexists. split; [done|]. split; [done|]. split; [done|].
      apply significant_digit_spec. lia.
    + destruct (bigint_to_num x Hx) as [Hn En]. do 2 eexists. split; [done|]. split; [done|]. split; [done|].
      by apply significant_digit_spec.
  - rewrite copy_num by done. by exists (num src), p.
Qed.

(** numeric_db_value_coerce_to_num rounds to the precision and scale of [dest]. *)
Lemma coerce_to_num_spec src dest s x :
  exact_source src s x -> 1 <= precision dest <= 38 -> 0 <= scale dest <= precision dest ->
  let p := precision dest in
  let y := rescaled x (scale dest - s) in
  exists v, numeric_db_value_coerce_to_num src dest
  = Some (if 10 ^ p <=? Z.abs y then (ER_NUM_OVERFLOW, DATA_STATUS_TRUNCATED, v)
          else (NO_ERROR, DATA_STATUS_OK, v))
  /\ (Z.abs y < 10 ^ p -> numeric_is v p (scale dest) y).
Proof.
  intros Hsrc Hp Hs p y. unfold numeric_db_value_coerce_to_num.
  destruct (source_num_spec src s x Hsrc) as (n & ps & -> & Hn & En & D). cbn [mbind option_bind].
  pose proof (domain_small _ _ _ D) as Hsm. destruct D as (Hps & Hss & Hx).
  change (negb (NO_ERROR =? NO_ERROR)) with false. cbn match.
  destruct (make_numeric_spec n ps s Hn ltac:(lia) ltac:(lia)) as (d & -> & (_ & _ & -> & -> & Nd & Xd)).
  change (negb (NO_ERROR =? NO_ERROR)) with false. cbn match. rewrite En in Xd.
  destruct (num_to_num_spec (num d) ps s (precision dest) (scale dest) Nd) as (r & -> & Hr);
    [rewrite Xd; lia|lia|lia|intros; rewrite Xd; pose proof (pow10_le ps (precision dest) ltac:(lia)); lia|].
  rewrite Xd in *. fold y p in Hr |- *. destruct (10 ^ p <=? Z.abs y) eqn:E.
  - exists d. split; [done|]. lia.
  - destruct Hr as [Nr Xr]; [lia|]. change (negb (NO_ERROR =? NO_ERROR)) with false. cbn match.
    destruct (make_numeric_spec r p (scale dest) Nr ltac:(lia) ltac:(lia)) as (v & -> & V).
    exists v. split; [done|]. intros _. by rewrite <- Xr.
Qed.

(** numeric_is_fraction_part_zero. *)
Lemma fraction_zero_spec l s :
  is_num 16 l -> 0 <= s <= 38 -> numeric_is_fraction_part_zero l s = (Z.rem (snum l) (10 ^ s) =? 0).
Proof.
  intros Hl Hs. destruct (dec_str_tail l (Z.to_nat s) Hl ltac:(lia)) as (Dt & Lt & Vt).
  pose proof (Z.pow_pos_nonneg 10 s ltac:(lia) ltac:(lia)). rewrite Z2Nat.id in Vt by lia.
  rewrite rem_sign, (Z.abs_eq (10 ^ s)) by lia.
  replace ((if snum l <? 0 then _ else _) =? 0) with (Z.abs (snum l) mod 10 ^ s =? 0)
    by (destruct (snum l <? 0); lia).
  rewrite <- Vt. unfold numeric_is_fraction_part_zero.
  set (t := drop _ (numeric_coerce_num_to_dec_str l)) in *. apply eq_bool_prop_intro.
  rewrite !Is_true_true, forallb_seq, Z.eqb_eq. transitivity (t = replicate (Z.to_nat s) chr_0).
  - rewrite <- (app_nil_r (replicate _ _)), <- (drop_ge t (Z.to_nat s)), <- leading_bytes by lia.
    unfold t, byte_at. setoid_rewrite lookup_drop. setoid_rewrite Z.eqb_eq. split; intros H' i Hi; apply H'; lia.
  - split; [intros ->; apply strval_zeros|]. intros E. apply strval_inj; [done|apply digits_zeros| |].
    + by rewrite length_replicate.
    + by rewrite strval_zeros.
Qed.
