(* ===== verification/NumericQuotient.v ===== *)
(** * Exact numeric values: lemmas about the division of DB_VALUE

    numeric_db_value_div rounds the quotient half away from zero, under the
    conditions that the theorems of NumericProps show to be needed; and
    numeric_coerce_num_to_bigint does so for integers. *)
From Stdlib Require Import ZArith Lia ZifyBool.
From stdpp Require Import base list numbers gmap.
From S2P Require Import Prelude Numeric NumericValue NumericArith NumericDiv NumericString NumericCoerce.
From S2P Require Import NumericOps.

(** Precision and scale of the answer. *)
Definition div_precision_scale (p1 s1 s2 : Z) : Z * Z :=
  let m := Z.max s1 s2 in
  let p := Z.min (if s2 >? 0 then p1 + (m + s2 - s1) else p1) 38 in
  if m <? 9 then (Z.min (p + (9 - m)) 38, Z.min 9 (m + (38 - p))) else (p, m).

Lemma long_scale_up l k x :
  is_num 32 l -> snum l = x -> 0 <= k -> 2 * Z.abs (x * 10 ^ k) < 256 ^ 32 ->
  exists r, numeric_scale_dec_long l k = (NO_ERROR, r) /\ is_num 32 r /\ snum r = x * 10 ^ k.
Proof.
  intros Hl <- Hk Hs. unfold numeric_scale_dec_long. rewrite Z.abs_mul in Hs.
  rewrite (Z.abs_eq (10 ^ k)) in Hs by (apply Z.pow_nonneg; lia).
  destruct (scale_loop_small 32 (Z.to_nat k) l) as (r & E & Hr & Er); [done|done| |].
  - rewrite Z2Nat.id by done. change (256 ^ Z.of_nat 32) with (256 ^ 32). lia.
  - rewrite Z2Nat.id in Er by done. exists r. split; [done|]. split; [done|]. rewrite Er. ring.
Qed.

Lemma pow_mono_abs x j k B :
  0 <= j <= k -> 2 * Z.abs (x * 10 ^ k) < B -> 2 * Z.abs (x * 10 ^ j) < B.
Proof.
  intros Hj. rewrite !Z.abs_mul, !(Z.abs_eq (10 ^ _)) by (apply Z.pow_nonneg; lia).
  pose proof (pow10_le j k ltac:(lia)). nia.
Qed.

(** The factor that makes the scale of the quotient the larger one. *)
Definition scale_up_by (s1 s2 : Z) : Z := if s2 >? 0 then Z.max s1 s2 + s2 - s1 else 0.

Lemma first_scale l x s1 s2 k :
  is_num 32 l -> snum l = x -> 0 <= s1 -> 0 <= s2 ->
  2 * Z.abs (x * 10 ^ k) < 256 ^ 32 -> scale_up_by s1 s2 <= k ->
  exists r, (if s2 >? 0 then numeric_scale_dec_long l (scale_up_by s1 s2) else (NO_ERROR, l)) = (NO_ERROR, r)
  /\ is_num 32 r /\ snum r = x * 10 ^ scale_up_by s1 s2.
Proof.
  intros Hl Ex Hs1 Hs2 Hk Hle. unfold scale_up_by in *. destruct (s2 >? 0) eqn:E.
  - apply long_scale_up; [done|done|lia|]. apply (pow_mono_abs x _ k); [lia|done].
  - exists l. split; [done|]. split; [done|]. change (10 ^ 0) with 1. lia.
Qed.

Lemma scale_up_by_spec s1 s2 :
  0 <= s1 -> 0 <= s2 -> 0 <= scale_up_by s1 s2 /\ scale_up_by s1 s2 = Z.max s1 s2 + s2 - s1.
Proof. unfold scale_up_by. zcase; lia. Qed.

Lemma div_precision_spec p1 s1 s2 :
  1 <= p1 <= 38 -> 0 <= s1 <= p1 -> 0 <= s2 <= 38 ->
  let '(p, s) := div_precision_scale p1 s1 s2 in
  let k := s + s2 - s1 in
  scale_up_by s1 s2 <= k /\ 1 <= p <= 38 /\ Z.max s1 s2 <= s <= p /\ (p < 38 -> p = p1 + k).
Proof.
  intros Hp1 Hs1 Hs2. pose proof (scale_up_by_spec s1 s2 ltac:(lia) ltac:(lia)).
  unfold div_precision_scale. destruct (s2 >? 0) eqn:?, (Z.max s1 s2 <? 9) eqn:?; lia.
Qed.

Lemma div_scale_spec v1 v2 p1 s1 x1 p2 s2 x2 :
  numeric_is v1 p1 s1 x1 -> in_domain p1 s1 x1 -> numeric_is v2 p2 s2 x2 -> in_domain p2 s2 x2 ->
  let '(p, s) := div_precision_scale p1 s1 s2 in
  let k := s + s2 - s1 in
  2 * Z.abs (x1 * 10 ^ k) < 256 ^ 32 ->
  exists l, div_scale v1 v2 = (NO_ERROR, l, p, s) /\ is_num 32 l /\ snum l = x1 * 10 ^ k.
Proof.
  intros (_ & _ & P1 & S1 & N1 & X1) (Hp1 & Hs1 & _) (_ & _ & _ & S2 & _) (Hp2 & Hs2 & _).
  pose proof (div_precision_spec p1 s1 s2 Hp1 Hs1 ltac:(lia)) as H.
  destruct (short_to_long (num v1) N1) as [L1 Z1]. rewrite X1 in Z1. clear N1 X1.
  pose proof (fun k => first_scale _ x1 s1 s2 k L1 Z1 ltac:(lia) ltac:(lia)) as Hfirst.
  pose proof (scale_up_by_spec s1 s2 ltac:(lia) ltac:(lia)) as [Hup Eup]. clear Hp1 Hs1 Hp2 Hs2.
  unfold div_precision_scale, div_scale in *. rewrite P1, S1, S2. fold (scale_up_by s1 s2).
  unfold DB_MAX_NUMERIC_PRECISION, DB_DEFAULT_NUMERIC_DIVISION_SCALE.
  replace (if s2 >? 0 then p1 + (Z.max s1 s2 + s2 - s1) else p1) with (p1 + scale_up_by s1 s2) in *
    by (unfold scale_up_by; destruct (s2 >? 0); lia).
  set (up := scale_up_by s1 s2) in *. set (m := Z.max s1 s2) in *. set (p := Z.min (p1 + up) 38) in *.
  clearbody m up p. destruct (m <? 9) eqn:Em; cbn zeta in *; intros Hk;
    destruct (Hfirst _ Hk ltac:(lia)) as (l & -> & Hl & El); clear Hfirst L1 Z1.
  - change (negb (NO_ERROR =? NO_ERROR)) with false. cbn match. replace (m + (9 - m)) with 9 by lia.
    set (s := Z.min 9 (m + (38 - p))) in *.
    replace (if p + (9 - m) >? 38 then _ else _) with (s, Z.min (p + (9 - m)) 38)
      by (unfold s; destruct (p + (9 - m) >? 38) eqn:?; f_equal; lia).
    destruct H as (_ & _ & Hs & _). clearbody s.
    destruct (long_scale_up l (s - m) _ Hl El ltac:(lia)) as (r & -> & Hr & Er).
    { rewrite <- Z.mul_assoc, <- Z.pow_add_r by lia. by replace (up + (s - m)) with (s + s2 - s1) by lia. }
    exists r. split; [done|]. split; [done|]. rewrite Er, <- Z.mul_assoc, <- Z.pow_add_r by lia.
    f_equal. f_equal. lia.
  - exists l. split; [done|]. split; [done|]. by rewrite El, Eup.
Qed.

Lemma quot_le a d : d <> 0 -> Z.abs (Z.quot a d) <= Z.abs a.
Proof.
  intros Hd. rewrite <- Z.quot_abs by done. apply Z.quot_le_upper_bound; [lia|]. nia.
Qed.

(** The truncated quotient in a buffer that is large enough. *)
Lemma div_quotient_spec l d out :
  is_num 32 l -> is_num 16 d -> snum d <> 0 -> 2 * Z.abs (snum l) < 256 ^ 32 ->
  let q := Z.quot (snum l) (snum d) in
  if div_traps (snum l) (snum d) then div_quotient l d out = None
  else exists ret quo rem, div_quotient l d out = Some (ret, quo, rem)
    /\ (ret = NO_ERROR /\ - 256 ^ 16 <= 2 * q <= 256 ^ 16 /\ (2 * q < 256 ^ 16 \/ snum d = -1)
        /\ is_quotient (snum l) (snum d) (quo, rem)
        \/ ret = ER_NUM_OVERFLOW /\ 256 ^ 16 <= 2 * Z.abs q).
Proof.
  intros Hl Hd Hnz Ha q. unfold div_quotient. pose proof (longnum_spec l Hl) as Hlong.
  destruct (numeric_is_longnum_value l) eqn:El.
  - assert (div_traps (snum l) (snum d) = false) as ->.
    { apply not_true_iff_false. intros Ht. assert (true = false); [|done]. apply Hlong.
      unfold div_traps in Ht. lia. }
    pose proof (long_div_spec 32 l d ltac:(done) Hl Hd Hnz) as H.
    destruct (numeric_long_div l d) as [lq r]. destruct H as (Hq & Hr & Uq & Er). fold q in Uq.
    pose proof (quot_le (snum l) (snum d) Hnz) as Hle. fold q in Hle.
    pose proof (snum_eq 32 ltac:(done) lq q Hq Uq) as Eq. change (256 ^ Z.of_nat 32) with (256 ^ 32) in Eq.
    specialize (Eq ltac:(lia)). pose proof (long_to_short lq Hq) as Hs. rewrite Eq in Hs.
    destruct (_ && _) eqn:Ef.
    + destruct Hs as (n & -> & Hn & En). do 3 eexists. split; [done|].
      left. split; [done|]. split; [lia|]. split; [left; lia|]. by apply is_quotient_snum.
    + rewrite Hs. do 3 eexists. split; [done|]. right. split; [done|]. lia.
  - pose proof (long_to_short l Hl) as Hs. pose proof (proj1 Hlong eq_refl) as Hr.
    replace (_ && _) with true in Hs by lia. destruct Hs as (n & -> & Hn & En).
    change (default out.1 (NO_ERROR, Some n).2) with n.
    pose proof (div_spec n d out Hn Hd Hnz) as H. rewrite En in H.
    destruct (div_traps (snum l) (snum d)); [by rewrite H|].
    destruct H as ([quo rem] & -> & H). do 3 eexists. split; [done|].
    pose proof (quot_le (snum l) (snum d) Hnz) as Hle. fold q in Hle.
    left. split; [done|]. split; [lia|]. split; [|done].
    destruct (Z.lt_ge_cases (2 * q) (256 ^ 16)) as [|Hbig]; [by left|right].
    change (256 ^ 16) with (2 * 2 ^ 127) in *.
    assert (snum l = - 2 ^ 127 /\ q = 2 ^ 127) as [El' Eq'] by lia.
    pose proof (Z.quot_rem (snum l) (snum d) Hnz) as E. fold q in E. rewrite Eq', El' in E.
    pose proof (Z.rem_bound_abs (snum l) (snum d) Hnz) as B. rewrite El' in B. nia.
Qed.

Lemma round_quot a d :
  d <> 0 ->
  round_half (a * Z.sgn d) (Z.abs d)
  = Z.quot a d + if Z.abs d <=? 2 * Z.abs (Z.rem a d) then Z.sgn a * Z.sgn d else 0.
Proof.
  intros Hd. pose proof (round_half_pos (Z.abs a) (Z.abs d) ltac:(lia) ltac:(lia)) as H.
  unfold round_half in *. rewrite Z.abs_idemp in H.
  assert (Z.abs (a * Z.sgn d) = Z.abs a) as -> by (destruct d; cbn; lia).
  assert (Z.abs (Z.rem a d) = Z.abs a mod Z.abs d) as ->.
  { rewrite rem_sign by done. pose proof (Z.mod_pos_bound (Z.abs a) (Z.abs d) ltac:(lia)).
    destruct (a <? 0); lia. }
  rewrite Z.quot_div, Z.sgn_mul, Z.sgn_sgn by done.
  destruct (decide (a = 0)) as [->|]; [cbn; destruct (_ <=? _); lia|].
  rewrite Z.sgn_pos, Z.mul_1_l in H by lia. rewrite H. destruct (_ <=? _); ring.
Qed.

Lemma quot_sgn a d :
  d <> 0 -> a <> 0 -> (0 <= a * d \/ Z.abs d <= Z.abs a) ->
  Z.sgn a * Z.sgn d = if Z.quot a d <? 0 then -1 else 1.
Proof.
  intros Hd Ha Hs. rewrite <- Z.sgn_mul. pose proof (Z.quot_rem a d Hd) as E.
  pose proof (Z.rem_bound_abs a d Hd) as B. pose proof (Z.rem_sign_mul a d Hd) as S.
  destruct (Z.quot a d <? 0) eqn:Eq.
  - apply Z.sgn_neg. nia.
  - apply Z.sgn_pos. nia.
Qed.

Lemma snum_small l : is_num 16 l -> 2 * unum l < 256 ^ 16 -> snum l = unum l.
Proof.
  intros Hl Hu. rewrite (snum_spec 16) by done. change (256 ^ Z.of_nat 16) with (256 ^ 16). zcase; lia.
Qed.

(** The rounding of numeric_db_value_div. *)
Lemma div_round_spec a quo rem d :
  let q := Z.quot a (snum d) in
  is_quotient a (snum d) (quo, rem) -> is_num 16 d -> snum d <> 0 ->
  - 256 ^ 16 <= 2 * q <= 256 ^ 16 -> (2 * q < 256 ^ 16 \/ snum d = -1) ->
  4 * Z.abs (snum d) <= 256 ^ 16 -> (0 <= a * snum d \/ Z.abs (snum d) <= Z.abs a) ->
  let r := div_round quo rem d in
  is_num 16 r /\ unum r = round_half (a * Z.sgn (snum d)) (Z.abs (snum d)) mod 256 ^ 16.
Proof.
  intros q (Hq & Hr & Uq & Er) Hd Hnz Hfit Hone Hd4 Hsign. cbn [fst snd] in *. unfold div_round.
  pose proof (Z.rem_bound_abs a (snum d) Hnz) as Hrem.
  destruct (abs_num 16 ltac:(done) rem Hr) as [Ha Ea]. rewrite Er in Ea. unfold numeric_negate at 1.
  set (ar := if numeric_is_negative rem then _ else _) in *.
  rewrite copy_num by done. destruct (abs_num 16 ltac:(done) d Hd) as [Hb Eb]. unfold numeric_negate at 1.
  set (ad := if numeric_is_negative d then _ else _) in *. change DB_NUMERIC_BUF_SIZE with 16%nat.
  destruct (add_num 16 ar ar Ha Ha) as [Hs Es]. change (256 ^ Z.of_nat 16) with (256 ^ 16) in Es.
  rewrite Ea, Z.mod_small in Es by lia.
  rewrite compare_spec, (snum_small (numeric_add ar ar 16)), (snum_small ad), Es, Eb by (done || lia).
  rewrite round_quot by done. fold q. set (m := Z.rem a (snum d)) in *.
  replace (Z.sgn _ >=? 0) with (Z.abs (snum d) <=? 2 * Z.abs m) by lia.
  destruct (Z.abs (snum d) <=? 2 * Z.abs m) eqn:Er2; [|by rewrite Z.add_0_r].
  assert (a <> 0) as Ha0 by (intros ->; unfold m in *; rewrite Z.rem_0_l in *; lia).
  rewrite (quot_sgn a (snum d)) by done. fold q.
  rewrite (negative_snum 16), (snum_eq 16 ltac:(done) quo q Hq Uq) by
    (try done; change (256 ^ Z.of_nat 16) with (256 ^ 16); lia).
  destruct (q <? 0).
  - destruct (decrease_num 16 ltac:(done) quo Hq) as [Hx Ux]. split; [done|].
    rewrite Ux, Uq. change (256 ^ Z.of_nat 16) with (256 ^ 16). by rewrite Zminus_mod_idemp_l.
  - destruct (increase_num 16 ltac:(done) quo Hq) as [Hx Ux]. split; [done|].
    unfold numeric_increase. rewrite Ux, Uq. change (256 ^ Z.of_nat 16) with (256 ^ 16).
    by rewrite Zplus_mod_idemp_l.
Qed.

Lemma round_half_le x p : 0 < p -> Z.abs (round_half x p) <= Z.abs x.
Proof.
  intros Hp. unfold round_half. set (q := _ / _).
  assert (0 <= q) by (apply Z.div_pos; lia).
  assert (q < Z.abs x + 1) by (apply Z.div_lt_upper_bound; nia). destruct x; cbn in *; nia.
Qed.

(** The rounded quotient is at least as large as the truncated one. *)
Lemma round_half_quot a d : d <> 0 -> Z.abs (Z.quot a d) <= Z.abs (round_half (a * Z.sgn d) (Z.abs d)) <= Z.abs (Z.quot a d) + 1.
Proof.
  intros Hd. rewrite round_quot by done. destruct (_ <=? _); [|lia].
  rewrite Z.quot_div by done. assert (0 <= Z.abs a / Z.abs d) by (apply Z.div_pos; lia).
  destruct a, d; cbn -[Z.div Z.abs] in *; lia.
Qed.

(** numeric_db_value_div on the scaled dividend. *)
Definition divide_scaled (out : NUM * NUM) (l d : NUM) (prec scal : Z) : option (Z * DB_VALUE) :=
  '(ret, temp_quo, temp_rem) ← div_quotient l d out;
  if negb (ret =? NO_ERROR) then Some (ret, numeric_null)
  else Some (make_answer (div_round temp_quo temp_rem d) prec scal).

Lemma divide_scaled_spec out l d p s :
  is_num 32 l -> is_num 16 d -> snum d <> 0 -> 2 * Z.abs (snum l) < 256 ^ 32 ->
  1 <= p <= 38 -> 0 <= s <= p -> (p < 38 -> Z.abs (snum l) < 10 ^ p) ->
  let a := snum l in
  let x := snum d in
  let y := round_half (a * Z.sgn x) (Z.abs x) in
  if div_traps a x then divide_scaled out l d p s = None
  else
    4 * Z.abs x <= 256 ^ 16 -> (0 <= a * x \/ Z.abs x <= Z.abs a) ->
    if 10 ^ 38 <=? Z.abs y then divide_scaled out l d p s = Some (ER_NUM_OVERFLOW, numeric_null)
    else exists v p', divide_scaled out l d p s = Some (NO_ERROR, v)
         /\ numeric_is v p' s y /\ in_domain p' s y.
Proof.
  intros Hl Hd Hnz Ha Hp Hs Hsmall a x y. unfold divide_scaled.
  pose proof (div_quotient_spec l d out Hl Hd Hnz Ha) as Hq. fold a x in Hq.
  destruct (div_traps a x); [by rewrite Hq|]. intros Hd4 Hsign.
  destruct Hq as (ret & quo & rem & -> & Hcase). cbn [mbind option_bind].
  pose proof (round_half_quot a x Hnz) as Hy. fold y in Hy.
  assert (2 * 10 ^ 38 < 256 ^ 16 /\ 256 ^ 16 + 2 < 4 * 10 ^ 38) as [H38 H38'] by done.
  destruct Hcase as [(-> & Hfit & Hone & Hq)|(-> & Hbig)].
  2: { replace (10 ^ 38 <=? Z.abs y) with true by lia. done. }
  change (negb (NO_ERROR =? NO_ERROR)) with false. cbn match.
  destruct (div_round_spec a quo rem d Hq Hd Hnz Hfit Hone Hd4 Hsign) as [Hr Ur].
  assert (p < 38 -> Z.abs y < 10 ^ (p + 1)) as Hgrow.
  { intros H. specialize (Hsmall H). pose proof (pow10_le p (p + 1) ltac:(lia)).
    pose proof (round_half_le (a * Z.sgn x) (Z.abs x) ltac:(lia)) as Hle. fold y in Hle.
    rewrite Z.abs_mul in Hle. assert (Z.abs (Z.sgn x) = 1) by (unfold x; lia). lia. }
  pose proof (make_answer_spec _ y p s Hr Ur ltac:(lia) Hp Hs Hgrow) as Hm. revert Hm.
  destruct (10 ^ 38 <=? Z.abs y).
  - intros ->. reflexivity.
  - intros (v & p' & -> & Hv). exists v, p'. split; [reflexivity|exact Hv].
Qed.

Lemma div_scaled v1 v2 p1 s1 x1 p2 s2 x2 :
  numeric_is v1 p1 s1 x1 -> in_domain p1 s1 x1 -> numeric_is v2 p2 s2 x2 -> in_domain p2 s2 x2 ->
  let s := (div_precision_scale p1 s1 s2).2 in
  let a := x1 * 10 ^ (s + s2 - s1) in
  2 * Z.abs a < 256 ^ 32 ->
  exists l p, div_scale v1 v2 = (NO_ERROR, l, p, s) /\ is_num 32 l /\ snum l = a
  /\ 1 <= p <= 38 /\ 0 <= s <= p /\ (p < 38 -> Z.abs a < 10 ^ p).
Proof.
  intros V1 D1 V2 D2 s a Ha.
  pose proof (div_scale_spec v1 v2 p1 s1 x1 p2 s2 x2 V1 D1 V2 D2) as H.
  destruct D1 as (Hp1 & Hs1 & B1), D2 as (Hp2 & Hs2 & B2).
  pose proof (div_precision_spec p1 s1 s2 Hp1 Hs1 ltac:(lia)) as Hps.
  pose proof (scale_up_by_spec s1 s2 ltac:(lia) ltac:(lia)) as [Hup _].
  destruct (div_precision_scale p1 s1 s2) as [p s']. cbn [snd] in s. cbn zeta in Hps. subst s.
  destruct (H Ha) as (l & E & Hl & El). exists l, p. split; [done|]. split; [done|]. split; [done|].
  split; [lia|]. split; [lia|]. intros Hp. unfold a.
  replace p with (p1 + (s' + s2 - s1)) by lia. apply scaled_digits; [lia|lia|done].
Qed.

(** Division of values.  The conditions are that the scaled dividend fits in a
    long number, that the divisor is small enough for twice the remainder, and
    that a zero quotient has not lost its sign. *)
Lemma div_value_spec out v1 v2 p1 s1 x1 p2 s2 x2 :
  numeric_is v1 p1 s1 x1 -> in_domain p1 s1 x1 -> numeric_is v2 p2 s2 x2 -> in_domain p2 s2 x2 ->
  x2 <> 0 ->
  let s := (div_precision_scale p1 s1 s2).2 in
  let a := x1 * 10 ^ (s + s2 - s1) in
  let y := round_half (a * Z.sgn x2) (Z.abs x2) in
  2 * Z.abs a < 256 ^ 32 ->
  if div_traps a x2 then numeric_db_value_div out (Some v1) (Some v2) = None
  else
    4 * Z.abs x2 <= 256 ^ 16 -> (0 <= a * x2 \/ Z.abs x2 <= Z.abs a) ->
    if 10 ^ 38 <=? Z.abs y
    then numeric_db_value_div out (Some v1) (Some v2) = Some (ER_NUM_OVERFLOW, numeric_null)
    else exists v p, numeric_db_value_div out (Some v1) (Some v2) = Some (NO_ERROR, v)
         /\ numeric_is v p s y /\ in_domain p s y.
Proof.
  intros V1 D1 V2 D2 Hnz s a y Ha.
  destruct (div_scaled v1 v2 p1 s1 x1 p2 s2 x2 V1 D1 V2 D2 Ha) as (l & p & E & Hl & El & Hp & Hs & Hsmall).
  fold s in E, Hs. fold s a in El, Hsmall.
  destruct V1 as (F1 & F2 & _), V2 as (E1 & E2 & _ & _ & N2 & X2).
  assert (numeric_db_value_div out (Some v1) (Some v2) = divide_scaled out l (num v2) p s) as ->.
  { unfold numeric_db_value_div, DB_IS_NULL, divide_scaled, is_numeric. rewrite F1, F2, E1, E2, E. cbn.
    destruct (div_quotient l (num v2) out) as [[[ret q] r]|]; [|done].
    cbn. destruct (negb (ret =? NO_ERROR)); [done|]. unfold make_answer.
    destruct (numeric_overflow _ p); [|done]. by destruct (p <? DB_MAX_NUMERIC_PRECISION). }
  unfold y. clear y. clearbody s a. rewrite <- X2, <- El in *.
  by apply divide_scaled_spec.
Qed.

(** ** Integers *)

(** The rounding of numeric_coerce_num_to_bigint. *)
Definition bigint_round (quo rem pow : NUM) : NUM :=
  let rem := if negb (numeric_is_negative quo) then numeric_negate rem else rem in
  let tmp := numeric_add pow rem DB_NUMERIC_BUF_SIZE in
  let tmp := numeric_add tmp rem DB_NUMERIC_BUF_SIZE in
  if numeric_is_negative tmp || numeric_is_zero tmp then
    if numeric_is_negative quo then numeric_decrease quo else numeric_increase quo
  else quo.

Lemma add_16 l1 l2 a b :
  is_num 16 l1 -> is_num 16 l2 -> snum l1 = a -> snum l2 = b -> - 256 ^ 16 <= 2 * (a + b) < 256 ^ 16 ->
  is_num 16 (numeric_add l1 l2 16) /\ snum (numeric_add l1 l2 16) = a + b.
Proof.
  intros H1 H2 <- <- Hr. split; [by apply add_num|]. apply snum_add; [lia|exact H1|exact H2|exact Hr].
Qed.

(** One up or down, away from zero. *)
Lemma step_away l q :
  is_num 16 l -> snum l = q -> 2 * Z.abs q + 2 < 256 ^ 16 ->
  let r := if q <? 0 then numeric_decrease l else numeric_increase l in
  is_num 16 r /\ snum r = q + if q <? 0 then -1 else 1.
Proof.
  intros Hl <- Hq. destruct (snum l <? 0); cbn zeta.
  - split; [apply (decrease_num 16); [lia|exact Hl]|].
    rewrite (snum_decrease 16 ltac:(lia) l Hl); [lia|]. change (256 ^ Z.of_nat 16) with (256 ^ 16). lia.
  - unfold numeric_increase. split; [apply (increase_num 16); [lia|exact Hl]|].
    rewrite (snum_increase 16 ltac:(lia) l Hl); [lia|]. change (256 ^ Z.of_nat 16) with (256 ^ 16). lia.
Qed.

Lemma bigint_round_spec x s quo rem pow :
  is_quotient x (10 ^ s) (quo, rem) -> is_num 16 pow -> snum pow = 10 ^ s -> 0 <= s <= 38 ->
  Z.abs x < 10 ^ 38 -> (0 <= x \/ 10 ^ s <= Z.abs x) ->
  let r := bigint_round quo rem pow in
  is_num 16 r /\ snum r = round_half x (10 ^ s).
Proof.
  intros (Hq & Hr & Uq & Er) Hp Ep Hs Hx Hsign. cbn [fst snd] in *. unfold bigint_round.
  pose proof (Z.pow_pos_nonneg 10 s ltac:(lia) ltac:(lia)) as H10.
  pose proof (pow10_38 s Hs) as Hp2. set (p := 10 ^ s) in *. clearbody p.
  assert (2 * 10 ^ 38 + 2 < 256 ^ 16) as H38 by reflexivity.
  pose proof (quot_le x p ltac:(lia)) as Hle. pose proof (quot_sgn x p ltac:(lia)) as Hqs.
  pose proof (round_quot x p ltac:(lia)) as Hround.
  rewrite (Z.sgn_pos p), ?(Z.abs_eq p), ?Z.mul_1_r in Hround, Hqs by lia.
  pose proof (Z.rem_bound_abs x p ltac:(lia)) as Hb. pose proof (Z.rem_sign_mul x p ltac:(lia)) as Hsg.
  pose proof (Z.quot_rem x p ltac:(lia)) as Ex.
  set (q := Z.quot x p) in *. set (m := Z.rem x p) in *. clearbody q m.
  assert (snum quo = q) as Eq.
  { apply (snum_eq 16); [lia|exact Hq|exact Uq|]. change (256 ^ Z.of_nat 16) with (256 ^ 16). lia. }
  rewrite !(negative_snum 16 ltac:(lia) quo Hq), Eq, Hround.
  destruct (negate_if_snum (negb (q <? 0)) rem m Hr Er ltac:(lia)) as [Hn En].
  set (rem' := if negb (q <? 0) then _ else _) in *.
  assert (snum rem' = - Z.abs m) as Em by (destruct (q <? 0) eqn:?; cbn [negb] in En; nia).
  change DB_NUMERIC_BUF_SIZE with 16%nat.
  destruct (add_16 pow rem' _ _ Hp Hn Ep Em ltac:(lia)) as [Ht1 E1].
  destruct (add_16 _ rem' _ _ Ht1 Hn E1 Em ltac:(lia)) as [Ht2 E2].
  rewrite (negative_snum 16 ltac:(lia) _ Ht2), is_zero_spec, snum_zero, E2 by exact Ht2.
  replace (_ || _) with (p <=? 2 * Z.abs m) by lia.
  destruct (p <=? 2 * Z.abs m) eqn:Eup; [|rewrite Z.add_0_r; split; [exact Hq|exact Eq]].
  rewrite Hqs, Z.mul_1_r by nia. apply step_away; [exact Hq|exact Eq|lia].
Qed.

(** A zero quotient of a negative number loses its sign: the last condition. *)
Lemma num_to_bigint_spec l s out :
  is_num 16 l -> 0 <= s <= 38 -> Z.abs (snum l) < 10 ^ 38 ->
  let x := snum l in
  let y := round_half x (10 ^ s) in
  (0 <= x \/ 10 ^ s <= Z.abs x) ->
  numeric_coerce_num_to_bigint l s out
  = Some (if (- 2 ^ 63 <=? y) && (y <? 2 ^ 63) then (NO_ERROR, y) else (ER_NUM_OVERFLOW, 0)).
Proof.
  intros Hl Hs Hx x y Hsign. unfold numeric_coerce_num_to_bigint.
  replace (s >=? Z.of_nat (length powers_of_10)) with false
    by (replace (length powers_of_10) with 77%nat by reflexivity; lia).
  destruct (pow_of_10 s Hs) as [Hp Ep]. pose proof (Z.pow_pos_nonneg 10 s ltac:(lia) ltac:(lia)) as H10.
  assert (exists r, (if s >? 0 then
     '(quo, rem) ← numeric_div l (numeric_get_pow_of_10 s) out;
     Some (bigint_round quo rem (numeric_get_pow_of_10 s)) else Some (numeric_copy l)) = Some r
     /\ is_num 16 r /\ snum r = y) as (r & E & Hr & Er).
  { destruct (s >? 0) eqn:Es.
    - pose proof (div_spec l (numeric_get_pow_of_10 s) out Hl Hp) as H. rewrite Ep in H.
      unfold div_traps in H. replace (10 ^ s =? -1) with false in H by lia.
      destruct (H ltac:(lia)) as ([quo rem] & -> & Hq). cbn [mbind option_bind]. eexists. split; [reflexivity|].
      by apply bigint_round_spec.
    - exists l. rewrite copy_num by done. split; [done|]. split; [done|]. unfold y.
      replace s with 0 by lia. change (10 ^ 0) with 1.
      pose proof (round_quot x 1 ltac:(lia)) as H. rewrite Z.quot_1_r, Z.rem_1_r in H.
      change (Z.sgn 1) with 1 in H. rewrite Z.mul_1_r in H. change (Z.abs 1) with 1 in H. rewrite H.
      change (1 <=? 2 * Z.abs 0) with false. cbn match. unfold x. lia. }
  unfold bigint_round in E. rewrite E. cbn [mbind option_bind].
  pose proof (is_bigint_range r Hr) as Hb. rewrite Er in Hb. destruct (numeric_is_bigint r) eqn:Eb; cbn [negb].
  - rewrite low_bigint_spec, Er by done. replace (_ && _) with true by lia. done.
  - replace (_ && _) with false; [done|]. destruct (_ && _) eqn:Ec; [|done].
    exfalso. assert (false = true); [apply Hb; lia|done].
Qed.
