(* ===== verification/NumericText.v ===== *)
(** * Exact numeric values: lemmas about the text of a value

    numeric_db_value_print writes the decimal representation without leading
    zeros, and numeric_coerce_string_to_num reads it back. *)
From Stdlib Require Import ZArith Lia ZifyBool.
From stdpp Require Import base list numbers gmap.
From S2P Require Import Prelude Numeric NumericValue NumericArith NumericDiv NumericString NumericCoerce.
From S2P Require Import NumericOps.

(** ** Printing *)

(** Without leading zeros; the last digit stays. *)
Fixpoint strip (t : STRING) : STRING :=
  match t with
  | [] => []
  | [c] => [c]
  | c :: t => if digit_1_to_9 c then c :: t else strip t
  end.

Lemma digit_not_sign c : is_digit c = true -> (c =? chr_minus) = false.
Proof. unfold is_digit, chr_0, chr_minus. lia. Qed.

Lemma print_fraction f i size s found :
  digits f -> size - i = Z.of_nat (length f) -> Z.of_nat (length f) <= s ->
  print_loop f i size s found
  = (if (Z.of_nat (length f) =? s) && (0 <? s) then [chr_point] else []) ++ f.
Proof.
  revert i found. induction f as [|c f IH]; intros i found Hf Hi Hs.
  { cbn. replace (_ && _) with false by lia. done. }
  apply Forall_cons_iff in Hf as [Hc Hf]. cbn [print_loop length] in *.
  rewrite digit_not_sign, IH by (done || lia).
  replace (i >=? size - s - 1) with true by lia. rewrite orb_true_r.
  replace (Z.of_nat (length f) =? s) with false by lia.
  replace (i =? size - s) with ((Z.of_nat (S (length f)) =? s) && (0 <? s)) by lia. done.
Qed.

Lemma print_digits t f i size s found :
  digits t -> digits f -> t <> [] -> size - i = Z.of_nat (length (t ++ f)) -> Z.of_nat (length f) = s ->
  print_loop (t ++ f) i size s found
  = (if found : bool then t else strip t) ++ (if 0 <? s then [chr_point] else []) ++ f.
Proof.
  revert i found. induction t as [|c t IH]; intros i found Ht Hf Hne Hi Hs; [done|].
  apply Forall_cons_iff in Ht as [Hc Ht]. cbn [app print_loop]. cbn [app length] in Hi.
  rewrite length_app in Hi. rewrite digit_not_sign by done. replace (i =? size - s) with false by lia.
  cbn [app]. destruct t as [|c' t].
  - cbn [app length] in *. rewrite print_fraction by (done || lia). rewrite Hs, Z.eqb_refl. cbn [andb].
    replace (i >=? size - s - 1) with true by lia. rewrite orb_true_r. by destruct found.
  - rewrite IH by (done || rewrite length_app; lia). cbn [length] in Hi.
    replace (i >=? size - s - 1) with false by lia. rewrite orb_false_r. cbn [strip].
    destruct found; cbn [orb]; [done|]. by destruct (digit_1_to_9 c).
Qed.

Definition sign_of (x : Z) : STRING := if x <? 0 then [chr_minus] else [].

Lemma print_spec v p s x :
  numeric_is v p s x -> 0 <= s <= 38 ->
  exists t f, digits t /\ digits f /\ t <> [] /\ Z.of_nat (length f) = s
  /\ strval (t ++ f) = Z.abs x
  /\ numeric_db_value_print v = sign_of x ++ strip t ++ (if 0 <? s then [chr_point] else []) ++ f.
Proof.
  intros (E1 & E2 & _ & Es & Hn & Ex) Hs. unfold numeric_db_value_print. rewrite E1, Es.
  destruct (num_to_dec_str_spec (num v) Hn) as (u & (Lu & Du & Vu) & ->). rewrite Ex in *.
  exists (take (76 - Z.to_nat s) u), (drop (76 - Z.to_nat s) u).
  rewrite take_drop. split; [by apply digits_take|]. split; [by apply digits_drop|].
  split; [intros E%(f_equal length); rewrite length_take, Lu in E; cbn [length] in E; lia|].
  split; [rewrite length_drop; lia|]. split; [done|].
  assert (forall i size, size - i = 76 -> print_loop u i size s false
    = strip (take (76 - Z.to_nat s) u) ++ (if 0 <? s then [chr_point] else []) ++ drop (76 - Z.to_nat s) u) as H.
  { intros i size Hi. rewrite <- (take_drop (76 - Z.to_nat s) u) at 1.
    rewrite (print_digits _ _ i size s false); [done|by apply digits_take|by apply digits_drop| | |].
    - intros E%(f_equal length). rewrite length_take, Lu in E. cbn [length] in E. lia.
    - rewrite take_drop. lia.
    - rewrite length_drop. lia. }
  unfold sign_of. destruct (x <? 0); cbn [app length].
  - cbn [print_loop]. rewrite Z.eqb_refl. cbn [app]. replace (0 =? _) with false by lia.
    replace (digit_1_to_9 chr_minus) with false by done. cbn [orb app].
    replace (0 >=? _) with false by lia. cbn [app]. rewrite H by lia. done.
  - apply H. lia.
Qed.

Lemma not_1_to_9 c : is_digit c = true -> digit_1_to_9 c = false -> c = chr_0.
Proof. unfold is_digit, digit_1_to_9, chr_0. lia. Qed.

Lemma strip_spec t :
  digits t -> t <> [] ->
  exists c r, strip t = c :: r /\ digits (c :: r) /\ strval (c :: r) = strval t
  /\ (digit_1_to_9 c = true \/ c = chr_0 /\ r = []).
Proof.
  induction t as [|c t IH]; intros Ht Hne; [done|]. pose proof Ht as [Hc Ht']%Forall_cons_iff.
  destruct t as [|c' t].
  - exists c, []. split; [done|]. split; [done|]. split; [done|].
    destruct (digit_1_to_9 c) eqn:E; [by left|right]. by rewrite (not_1_to_9 c).
  - change (strip (c :: c' :: t)) with (if digit_1_to_9 c then c :: c' :: t else strip (c' :: t)).
    destruct (digit_1_to_9 c) eqn:E.
    + exists c, (c' :: t). split; [done|]. split; [done|]. split; [done|]. by left.
    + destruct (IH Ht') as (d & r & -> & Hd & Ev & Hor); [done|]. exists d, r.
      split; [done|]. split; [done|]. split; [|done]. rewrite Ev, (strval_cons c).
      rewrite (not_1_to_9 c) by done. lia.
Qed.

(** ** Reading *)

Lemma digit_not_space c : is_digit c = true -> char_isspace c = false /\ (c =? chr_comma) = false
  /\ (c =? chr_point) = false.
Proof. unfold is_digit, char_isspace, chr_0, chr_comma, chr_point. lia. Qed.

(** More digits behind the ones that have been read. *)
Definition add_digits (st : PARSE) (d : STRING) : PARSE :=
  mkParse (num_string st ++ d) (p_scale st) false (sign_found st) (negate_value st)
    (pad_character_zero st) (trailing_spaces st) (decimal_part st).

Lemma parse_digits d rest st :
  digits d -> leading_zeroes st = false -> trailing_spaces st = false ->
  parse_prec st + Z.of_nat (length d) <= 38 ->
  parse_loop (d ++ rest) st = parse_loop rest (add_digits st d).
Proof.
  revert st. induction d as [|c d IH]; intros st Hd El Et Hp.
  { cbn [app]. f_equal. unfold add_digits. destruct st. cbn in *. by rewrite app_nil_r, El. }
  apply Forall_cons_iff in Hd as [Hc Hd]. destruct (digit_not_space c Hc) as (S1 & S2 & S3).
  cbn [app parse_loop]. unfold parse_step, parse_rest. rewrite S3, El, Et, S1, S2, Hc.
  cbn [andb negb Z.eqb]. unfold parse_prec in *. cbn [add_digit num_string length] in *. rewrite length_app. cbn [length].
  unfold DB_MAX_NUMERIC_PRECISION. replace (_ >? 38) with false by lia.
  rewrite IH; [|done|done|done|]; cbn [add_digit num_string]; [|unfold parse_prec; cbn [num_string]; rewrite length_app; cbn [length]; lia].
  f_equal. unfold add_digits. cbn. by rewrite <- app_assoc.
Qed.

(** The state behind the sign, and behind the digits in front of the point. *)
Definition st_sign (b : bool) : PARSE := mkParse [] 0 true b b false false false.
Definition st_integral (b zero : bool) (d : STRING) : PARSE :=
  mkParse (if zero then [] else d) 0 zero b b zero false false.

Lemma parse_sign x rest :
  parse_loop (sign_of x ++ rest) (mkParse [] 0 true false false false false false)
  = parse_loop rest (st_sign (x <? 0)).
Proof. unfold sign_of. by destruct (x <? 0). Qed.

Lemma parse_integral b c r rest :
  digits (c :: r) -> (digit_1_to_9 c = true \/ c = chr_0 /\ r = []) -> (length (c :: r) <= 38)%nat ->
  parse_loop ((c :: r) ++ rest) (st_sign b)
  = parse_loop rest (st_integral b (negb (digit_1_to_9 c)) (c :: r)).
Proof.
  intros Hd Hc Hl. apply Forall_cons_iff in Hd as [Hdc Hr]. destruct (digit_not_space c Hdc) as (_ & _ & S3).
  cbn [app parse_loop]. unfold parse_step, parse_leading. rewrite S3. cbn [leading_zeroes st_sign].
  destruct Hc as [Hc|[-> ->]]; [|done]. rewrite Hc. cbn [negb Z.eqb].
  change (parse_prec _ >? DB_MAX_NUMERIC_PRECISION) with false. cbn [negb]. cbn match.
  rewrite parse_digits; [done|done|done|done|]. unfold parse_prec. cbn in *. lia.
Qed.

Lemma parse_fraction st f s :
  digits f -> Z.of_nat (length f) = s -> trailing_spaces st = false -> p_scale st = 0 ->
  parse_prec st + s <= 38 ->
  exists lz dp, parse_loop ((if 0 <? s then [chr_point] else []) ++ f) st
  = (NO_ERROR, mkParse (num_string st ++ f) s lz (sign_found st) (negate_value st)
                 (pad_character_zero st) false dp).
Proof.
  intros Hf Hs Ht Hp0 Hp. destruct (0 <? s) eqn:E; cbn [app].
  - cbn [parse_loop]. unfold parse_step. rewrite Z.eqb_refl. cbn [negb Z.eqb]. unfold parse_prec at 1. cbn [num_string].
    fold (parse_prec st). unfold DB_MAX_NUMERIC_PRECISION.
    change (negb (NO_ERROR =? NO_ERROR)) with false. cbn match. replace (_ >? 38) with false by lia.
    match goal with |- context [parse_loop f ?st'] => pose proof (parse_digits f [] st') as Hd end.
    rewrite app_nil_r in Hd. rewrite Hd; [|done|done|done|unfold parse_prec in *; cbn; lia].
    cbn [parse_loop]. unfold add_digits. cbn. rewrite Ht, Hs. by do 2 eexists.
  - destruct f; [|cbn in Hs; lia]. cbn [parse_loop]. rewrite app_nil_r. destruct st. cbn in *. subst.
    by do 2 eexists.
Qed.

Lemma leading_digit c r : digit_1_to_9 c = true -> digits r -> 10 ^ Z.of_nat (length r) <= strval (c :: r).
Proof.
  intros Hc Hr. rewrite strval_cons. pose proof (strval_range r Hr). pose proof (pow10_pos (length r)).
  unfold digit_1_to_9, chr_0 in *. nia.
Qed.

(** The digits numeric_coerce_string_to_num converts. *)
Definition parsed_digits (zero : bool) (d f : STRING) : STRING :=
  let n := (if zero then [] else d) ++ f in
  if (Z.of_nat (length n) =? 0) && zero then [chr_0] else n.

Lemma parsed_digits_spec c r f x :
  digits (c :: r) -> digits f -> strval ((c :: r) ++ f) = Z.abs x -> Z.abs x < 10 ^ 38 ->
  (length f <= 38)%nat -> (digit_1_to_9 c = true \/ c = chr_0 /\ r = []) ->
  let zero := negb (digit_1_to_9 c) in
  let n := (if zero then [] else c :: r) ++ f in
  let d := parsed_digits zero (c :: r) f in
  digits d /\ strval d = Z.abs x /\ (1 <= length d <= 38)%nat /\ (length f <= length d)%nat
  /\ (length n <= 38)%nat.
Proof.
  intros Hd Hf Ev Hx Hl Hc. unfold parsed_digits. destruct Hc as [Hc|[-> ->]].
  - rewrite Hc. cbn [negb]. rewrite andb_false_r. cbn [app] in *.
    apply Forall_cons_iff in Hd as [Hdc Hr]. assert (digits (r ++ f)) as Hrf by (by apply digits_app).
    pose proof (leading_digit c (r ++ f) Hc Hrf) as H. rewrite Ev in H.
    assert (Z.of_nat (length (r ++ f)) < 38) as Hlt.
    { apply (Z.pow_lt_mono_r_iff 10); lia. }
    rewrite length_app in Hlt. cbn [length]. rewrite !length_app.
    split; [by constructor|]. split; [done|]. lia.
  - change (digit_1_to_9 chr_0) with false. cbn [negb app]. rewrite andb_true_r.
    rewrite strval_app in Ev. change (strval [chr_0]) with 0 in Ev.
    destruct f as [|c f]; cbn [length] in *.
    + change (Z.of_nat 0 =? 0) with true. cbn match. split; [done|]. split; [exact Ev|]. cbn. lia.
    + replace (_ =? 0) with false by lia. split; [done|]. split; [lia|]. cbn. lia.
Qed.

Lemma print_parse_spec v p s x :
  numeric_is v p s x -> in_domain p s x ->
  exists v' p', numeric_coerce_string_to_num (numeric_db_value_print v) = (NO_ERROR, v')
  /\ numeric_is v' p' s x /\ in_domain p' s x.
Proof.
  intros V (Hp & Hs & Hx). pose proof (pow10_le p 38 ltac:(lia)) as H38.
  destruct (print_spec v p s x V ltac:(lia)) as (t & f & Ht & Hf & Hne & Lf & Ev & ->).
  destruct (strip_spec t Ht Hne) as (c & r & -> & Hcr & Evs & Hc).
  assert (strval ((c :: r) ++ f) = Z.abs x) as Ex by (rewrite strval_app, Evs, <- strval_app; exact Ev).
  pose proof (parsed_digits_spec c r f x Hcr Hf Ex ltac:(lia) ltac:(lia) Hc) as (Hd & Evd & Ld & Lfd & Ln).
  assert (length (c :: r) <= 38)%nat as Lcr.
  { destruct Hc as [Hc|[-> ->]]; [|cbn; lia]. rewrite Hc in Ln. cbn [negb] in Ln. rewrite length_app in Ln. lia. }
  unfold numeric_coerce_string_to_num. rewrite parse_sign, parse_integral by done.
  set (zero := negb (digit_1_to_9 c)) in *.
  destruct (parse_fraction (st_integral (x <? 0) zero (c :: r)) f s Hf Lf eq_refl eq_refl) as (lz & dp & ->).
  { unfold parse_prec. cbn [st_integral num_string]. rewrite length_app in Ln. lia. }
  change (negb (NO_ERROR =? NO_ERROR)) with false. cbn match. unfold parse_prec. cbn [num_string st_integral].
  unfold DB_MAX_NUMERIC_PRECISION. replace (_ >? 38) with false by lia.
  cbn [pad_character_zero negate_value p_scale st_integral]. fold (parsed_digits zero (c :: r) f).
  set (d := parsed_digits zero (c :: r) f) in *.
  destruct (signed_digits (x <? 0) d 38 Hd ltac:(lia) ltac:(lia)) as [Hn En]. cbn zeta in Hn, En.
  destruct (make_numeric_spec _ (Z.of_nat (length d)) s Hn ltac:(lia) ltac:(lia)) as (v' & -> & V').
  rewrite En, Evd in V'. replace (if x <? 0 then _ else _) with x in V' by (destruct (x <? 0) eqn:?; lia).
  exists v', (Z.of_nat (length d)). split; [done|]. split; [done|].
  pose proof (strval_range d Hd). unfold in_domain. lia.
Qed.
