(* ===== verification/NumericProps.v ===== *)
(** * Exact numeric values: what the operations promise

    A DB_VALUE of type NUMERIC (p, s) with the number [x] stands for
    x / 10 ^ s ([numeric_is]); the values of the type are those with
    |x| < 10 ^ p ([in_domain]).  The arithmetic of numeric_opfunc.c is exact on
    them, rounded where the type has no digits left, or reports an overflow;
    the last part holds inputs for which division, multiplication and the
    conversion to BIGINT do something else. *)
From Stdlib Require Import ZArith Lia ZifyBool.
From stdpp Require Import base list numbers gmap.
From S2P Require Import Prelude Numeric NumericValue NumericArith NumericDiv NumericString NumericCoerce.
From S2P Require Import NumericOps NumericQuotient NumericText.

(** The value [x] / 10 ^ [s] of type NUMERIC (p, s). *)
Definition numeric_of (p s x : Z) : DB_VALUE :=
  mkValue false DB_TYPE_NUMERIC p s ((fun i => Z.land (Z.shiftr x (8 * i)) 255) <$> desc 16) 0.

Lemma numeric_of_is p s x : - 2 ^ 127 <= x < 2 ^ 127 -> numeric_is (numeric_of p s x) p s x.
Proof.
  intros Hx. destruct (snum_int_bytes 0 16 x) as [Hn En].
  - done.
  - change (256 ^ Z.of_nat 16) with (2 * 2 ^ 127). lia.
  - repeat split; [apply Hn|done].
Qed.

(** C11: addition and subtraction are exact.  For values of two NUMERIC types
    the answer has the larger scale and its number is the sum or difference of
    the numbers brought to that scale; it is again a value of its type.  The
    operation reports ER_NUM_OVERFLOW exactly when one of these three numbers has
    more than 38 digits. *)
Theorem numeric_add_sub_exact (v1 v2 : DB_VALUE) (p1 s1 x1 p2 s2 x2 : Z) :
  numeric_is v1 p1 s1 x1 -> in_domain p1 s1 x1 -> numeric_is v2 p2 s2 x2 -> in_domain p2 s2 x2 ->
  let s := Z.max s1 s2 in
  let y1 := x1 * 10 ^ (s - s1) in
  let y2 := x2 * 10 ^ (s - s2) in
  let correct (y : Z) (result : Z * DB_VALUE) :=
    if (10 ^ 38 <=? Z.abs y1) || (10 ^ 38 <=? Z.abs y2) || (10 ^ 38 <=? Z.abs y)
    then result = (ER_NUM_OVERFLOW, numeric_null)
    else exists v p, result = (NO_ERROR, v) /\ numeric_is v p s y /\ in_domain p s y in
  correct (y1 + y2) (numeric_db_value_add (Some v1) (Some v2))
  /\ correct (y1 - y2) (numeric_db_value_sub (Some v1) (Some v2)).
Proof.
  intros V1 D1 V2 D2. split.
  - exact (add_sub_spec numeric_add Z.add v1 v2 p1 s1 x1 p2 s2 x2 computes_add V1 D1 V2 D2).
  - exact (add_sub_spec numeric_sub Z.sub v1 v2 p1 s1 x1 p2 s2 x2 computes_sub V1 D1 V2 D2).
Qed.

Lemma numeric_add_sub_exact_witness :
  exists v p, numeric_db_value_add (Some (numeric_of 5 2 12345)) (Some (numeric_of 38 1 (- 5)))
              = (NO_ERROR, v) /\ numeric_is v p 2 12295 /\ in_domain p 2 12295.
Proof.
  refine (proj1 (numeric_add_sub_exact (numeric_of 5 2 12345) (numeric_of 38 1 (- 5))
                   5 2 12345 38 1 (- 5) _ _ _ _)).
  all: try apply numeric_of_is; unfold in_domain; lia.
Defined.

(** C23: comparison is exact.  Whatever their precisions and scales, also when no
    common type has enough digits, two values compare as their exact values. *)
Theorem numeric_compare_exact (v1 v2 : DB_VALUE) (p1 s1 x1 p2 s2 x2 : Z) :
  numeric_is v1 p1 s1 x1 -> in_domain p1 s1 x1 -> numeric_is v2 p2 s2 x2 -> in_domain p2 s2 x2 ->
  let s := Z.max s1 s2 in
  numeric_db_value_compare (Some v1) (Some v2)
  = (NO_ERROR, DB_MAKE_INTEGER (Z.sgn (x1 * 10 ^ (s - s1) - x2 * 10 ^ (s - s2)))).
Proof. apply compare_value_spec. Qed.

Lemma numeric_compare_exact_witness :
  numeric_db_value_compare (Some (numeric_of 31 2 (- 5))) (Some (numeric_of 21 14 7))
  = (NO_ERROR, DB_MAKE_INTEGER (-1)).
Proof.
  apply (numeric_compare_exact (numeric_of 31 2 (- 5)) (numeric_of 21 14 7) 31 2 (- 5) 21 14 7).
  all: try apply numeric_of_is; unfold in_domain; lia.
Defined.

(** C16: division rounds the exact quotient half away from zero to the scale of
    the answer, and reports ER_NUM_OVERFLOW exactly when the rounded number has
    more than 38 digits.  This is for a divisor below 2 ^ 126, a scaled dividend
    that fits in 256 bits and a truncated quotient that is not a zero which should
    be negative.  The division traps exactly when the scaled dividend is the
    smallest 32- or 64-bit integer and the number of the divisor is -1. *)
Theorem numeric_div_rounds (out : NUM * NUM) (v1 v2 : DB_VALUE) (p1 s1 x1 p2 s2 x2 : Z) :
  numeric_is v1 p1 s1 x1 -> in_domain p1 s1 x1 -> numeric_is v2 p2 s2 x2 -> in_domain p2 s2 x2 ->
  x2 <> 0 ->
  let s := (div_precision_scale p1 s1 s2).2 in
  let a := x1 * 10 ^ (s + s2 - s1) in
  let y := round_half (a * Z.sgn x2) (Z.abs x2) in
  2 * Z.abs a < 256 ^ 32 ->
  if div_traps a x2 then numeric_db_value_div out (Some v1) (Some v2) = None
  else
    4 * Z.abs x2 <= 256 ^ 16 -> (0 <= a * x2 \/ Z.abs x2 <= Z.abs a) ->
    if 10 ^ 38 <=? Z.abs y
    then numeric_db_value_div out (Some v1) (Some v2) = Some (ER_NUM_OVERFLOW, numeric_null)
    else exists v p, numeric_db_value_div out (Some v1) (Some v2) = Some (NO_ERROR, v)
         /\ numeric_is v p s y /\ in_domain p s y.
Proof. apply div_value_spec. Qed.

Lemma numeric_div_rounds_witness :
  exists v p, numeric_db_value_div ([], []) (Some (numeric_of 5 2 (- 200))) (Some (numeric_of 4 1 30))
              = Some (NO_ERROR, v) /\ numeric_is v p 9 (- 666666667) /\ in_domain p 9 (- 666666667).
Proof.
  apply (numeric_div_rounds ([], []) (numeric_of 5 2 (- 200)) (numeric_of 4 1 30) 5 2 (- 200) 4 1 30).
  all: try apply numeric_of_is; unfold in_domain; try lia.
  vm_compute. reflexivity.
Defined.

(** C28: multiplication is exact as long as the product needs at most 38 digits or
    has at most 38 decimals; of a longer product the last decimals are cut off.
    An ER_NUM_OVERFLOW is reported exactly when the number does not fit in 127
    bits. *)
Theorem numeric_mul_exact (v1 v2 : DB_VALUE) (p1 s1 x1 p2 s2 x2 : Z) :
  numeric_is v1 p1 s1 x1 -> in_domain p1 s1 x1 -> numeric_is v2 p2 s2 x2 -> in_domain p2 s2 x2 ->
  let p := p1 + p2 + 1 in
  let k := if (p <=? 38) || (s1 + s2 <=? 38) then 0 else p - 38 in
  let y := Z.quot (x1 * x2) (10 ^ k) in
  if 2 * Z.abs y <? 256 ^ 16
  then exists v, numeric_db_value_mul (Some v1) (Some v2) = (NO_ERROR, v)
       /\ numeric_is v (Z.min p 38) (s1 + s2 - k) y
  else numeric_db_value_mul (Some v1) (Some v2) = (ER_NUM_OVERFLOW, numeric_null).
Proof. apply mul_value_spec. Qed.

Lemma numeric_mul_exact_witness :
  exists v, numeric_db_value_mul (Some (numeric_of 30 25 (- 123456))) (Some (numeric_of 30 20 100))
            = (NO_ERROR, v) /\ numeric_is v 38 22 0.
Proof.
  apply (numeric_mul_exact (numeric_of 30 25 (- 123456)) (numeric_of 30 20 100) 30 25 (- 123456) 30 20 100).
  all: try apply numeric_of_is; unfold in_domain; lia.
Defined.

(** C35: the conversion of an integer or a NUMERIC to the type NUMERIC (p, s) rounds
    half away from zero; it fails, with the status for truncated data, exactly when
    the rounded number has more than p digits. *)
Theorem numeric_coerce_to_num_rounds (src dest : DB_VALUE) (s x : Z) :
  exact_source src s x -> 1 <= precision dest <= 38 -> 0 <= scale dest <= precision dest ->
  let y := if s <=? scale dest then x * 10 ^ (scale dest - s) else round_half x (10 ^ (s - scale dest)) in
  if 10 ^ precision dest <=? Z.abs y
  then exists v, numeric_db_value_coerce_to_num src dest
                 = Some (ER_NUM_OVERFLOW, DATA_STATUS_TRUNCATED, v)
  else exists v, numeric_db_value_coerce_to_num src dest = Some (NO_ERROR, DATA_STATUS_OK, v)
       /\ numeric_is v (precision dest) (scale dest) y.
Proof.
  intros Hsrc Hp Hs y. destruct (coerce_to_num_spec src dest s x Hsrc Hp Hs) as (v & -> & Hv).
  assert (y = rescaled x (scale dest - s)) as ->.
  { unfold y, rescaled. replace (0 <=? scale dest - s) with (s <=? scale dest) by lia.
    by replace (- (scale dest - s)) with (s - scale dest) by lia. }
  destruct (10 ^ precision dest <=? _) eqn:E; [by exists v|]. exists v. split; [done|]. apply Hv. lia.
Qed.

Lemma numeric_coerce_to_num_rounds_witness :
  exists v, numeric_db_value_coerce_to_num (numeric_of 6 3 (- 123456)) (numeric_of 4 1 0)
            = Some (NO_ERROR, DATA_STATUS_OK, v) /\ numeric_is v 4 1 (- 1235).
Proof.
  refine (numeric_coerce_to_num_rounds (numeric_of 6 3 (- 123456)) (numeric_of 4 1 0) 3 (- 123456) _ _ _).
  - right. exists 6. split; [apply numeric_of_is; lia|unfold in_domain; lia].
  - cbn. lia.
  - cbn. lia.
Defined.

(** C26: a printed value reads back as the same value: same number, same scale,
    and a precision that suffices. *)
Theorem numeric_print_parse (v : DB_VALUE) (p s x : Z) :
  numeric_is v p s x -> in_domain p s x ->
  exists v' p', numeric_coerce_string_to_num (numeric_db_value_print v) = (NO_ERROR, v')
  /\ numeric_is v' p' s x /\ in_domain p' s x /\ num v' = num v.
Proof.
  intros V D. destruct (print_parse_spec v p s x V D) as (v' & p' & E & V' & D').
  exists v', p'. split; [done|]. split; [done|]. split; [done|].
  destruct V as (_ & _ & _ & _ & N & X), V' as (_ & _ & _ & _ & N' & X').
  apply (snum_inj 16); [done|done|done|]. by rewrite X, X'.
Qed.

Lemma numeric_print_parse_witness :
  exists v' p', numeric_coerce_string_to_num (numeric_db_value_print (numeric_of 10 3 (- 42))) = (NO_ERROR, v')
  /\ numeric_is v' p' 3 (- 42) /\ in_domain p' 3 (- 42) /\ num v' = num (numeric_of 10 3 (- 42)).
Proof.
  apply (numeric_print_parse (numeric_of 10 3 (- 42)) 10 3 (- 42)).
  - apply numeric_of_is. lia.
  - unfold in_domain. lia.
Defined.

(** The decimal string of a buffer is its sign, if it is negative, and the 76
    digits of its absolute value; converting it back gives the buffer. *)
Theorem numeric_dec_str_roundtrip (l : NUM) :
  is_num 16 l -> - 2 ^ 127 < snum l ->
  (exists t, numeric_coerce_num_to_dec_str l = (if snum l <? 0 then [chr_minus] else []) ++ t
             /\ length t = 76%nat /\ digits t /\ strval t = Z.abs (snum l))
  /\ numeric_coerce_dec_str_to_num (numeric_coerce_num_to_dec_str l) = l.
Proof.
  intros Hl Hx. destruct (num_to_dec_str_spec l Hl) as (t & (Lt & Dt & Vt) & ->).
  split; [by exists t|]. pose proof (snum_range 16 ltac:(done) l Hl) as Hr.
  change (256 ^ Z.of_nat 16) with (2 * 2 ^ 127) in Hr.
  assert (2 * strval t < 256 ^ 16) as Hv by (rewrite Vt; change (256 ^ 16) with (2 * 2 ^ 127); lia).
  destruct (snum l <? 0) eqn:E; cbn [app].
  - destruct (dec_str_to_num_negative t Dt Hv) as [Hn En]. apply (snum_inj 16); [done|done|done|]. lia.
  - destruct (dec_str_to_num_spec t Dt Hv) as [Hn En]. apply (snum_inj 16); [done|done|done|]. lia.
Qed.

Lemma numeric_dec_str_roundtrip_witness :
  let l := num (numeric_of 38 0 (- (10 ^ 38 - 1))) in
  numeric_coerce_dec_str_to_num (numeric_coerce_num_to_dec_str l) = l.
Proof.
  refine (proj2 (numeric_dec_str_roundtrip (num (numeric_of 38 0 (- (10 ^ 38 - 1)))) _ _)).
  - apply (numeric_of_is 38 0 (- (10 ^ 38 - 1))). lia.
  - vm_compute. reflexivity.
Defined.

(** C27: numeric_div divides buffers with truncation, whichever of its three
    routines does the work: 32-bit, 64-bit or bit by bit.  It traps for exactly
    two dividends, with the divisor -1, and changes nothing when the divisor is
    zero. *)
Theorem numeric_div_truncates (l1 l2 : NUM) (out : NUM * NUM) :
  is_num 16 l1 -> is_num 16 l2 ->
  let x := snum l1 in
  let y := snum l2 in
  if y =? 0 then numeric_div l1 l2 out = Some out
  else if (y =? -1) && ((x =? - 2 ^ 31) || (x =? - 2 ^ 63)) then numeric_div l1 l2 out = None
  else exists q r, numeric_div l1 l2 out = Some (q, r) /\ is_num 16 q /\ is_num 16 r
       /\ unum q = (Z.quot x y) mod 2 ^ 128 /\ snum r = Z.rem x y.
Proof.
  intros H1 H2 x y. destruct (y =? 0) eqn:E0.
  { unfold numeric_div, y in *. by rewrite is_zero_spec, snum_zero, E0. }
  pose proof (div_spec l1 l2 out H1 H2 ltac:(lia)) as H. fold x y in H.
  change (div_traps x y) with ((y =? -1) && ((x =? - 2 ^ 31) || (x =? - 2 ^ 63))) in H.
  destruct (_ && _); [done|]. destruct H as ([q r] & E & Hq & Hr & Uq & Er). by exists q, r.
Qed.

Lemma numeric_div_truncates_witness :
  exists q r, numeric_div (num (numeric_of 38 0 (- 10 ^ 30))) (num (numeric_of 38 0 (10 ^ 20 + 1))) ([], [])
              = Some (q, r) /\ is_num 16 q /\ is_num 16 r
  /\ unum q = (- 9999999999) mod 2 ^ 128 /\ snum r = - 99999999990000000001.
Proof.
  refine (numeric_div_truncates (num (numeric_of 38 0 (- 10 ^ 30))) (num (numeric_of 38 0 (10 ^ 20 + 1)))
            ([], []) _ _).
  - apply (numeric_of_is 38 0 (- 10 ^ 30)). lia.
  - apply (numeric_of_is 38 0 (10 ^ 20 + 1)). lia.
Defined.

(** The conversion to BIGINT rounds half away from zero and reports
    ER_NUM_OVERFLOW exactly when the rounded number is not a 64-bit integer.  This
    is for values that are not between -1 and 0.  And
    numeric_is_fraction_part_zero tells whether the value is an integer. *)
Theorem numeric_bigint_rounds (l : NUM) (p s : Z) (out : NUM * NUM) :
  is_num 16 l -> in_domain p s (snum l) -> (0 <= snum l \/ 10 ^ s <= Z.abs (snum l)) ->
  let y := round_half (snum l) (10 ^ s) in
  numeric_coerce_num_to_bigint l s out
  = Some (if (- 2 ^ 63 <=? y) && (y <? 2 ^ 63) then (NO_ERROR, y) else (ER_NUM_OVERFLOW, 0))
  /\ numeric_is_fraction_part_zero l s = (Z.rem (snum l) (10 ^ s) =? 0).
Proof.
  intros Hl (Hp & Hs & Hx) Hsign. pose proof (pow10_le p 38 ltac:(lia)).
  split; [apply num_to_bigint_spec; [done|lia|lia|done]|apply fraction_zero_spec; [done|lia]].
Qed.

Lemma numeric_bigint_rounds_witness :
  numeric_coerce_num_to_bigint (num (numeric_of 5 1 (- 16))) 1 ([], []) = Some (NO_ERROR, - 2).
Proof.
  refine (proj1 (numeric_bigint_rounds (num (numeric_of 5 1 (- 16))) 5 1 ([], []) _ _ _)).
  - apply (numeric_of_is 5 1 (- 16)). lia.
  - unfold in_domain. replace (snum _) with (- 16) by (by vm_compute). lia.
  - right. vm_compute. discriminate.
Defined.

(** ** Inputs the conditions leave out *)

(** The number of the answer of a division, with its scale. *)
Definition quotient_of (v1 v2 : DB_VALUE) : option (Z * Z * Z) :=
  '(ret, v) ← numeric_db_value_div ([], []) (Some v1) (Some v2);
  Some (ret, snum (num v), scale v).

(** Inputs for which the operations do something else.  The quotient
    -1 / 2000000000 is 0.000000001, the sign of a quotient that truncates to zero
    being lost.  -2147483648 / -1 and its 64-bit counterpart trap.  The quotient
    12 * 10 ^ 36 / (99 * 10 ^ 16) has 40 digits at scale 20, yet the division
    succeeds with another number: the scaled dividend wraps around and the test of
    its top bit does not see it.  The quotient of 99 * 10 ^ 36 - 1 and
    99 * 10 ^ 36 is 0, twice the remainder having wrapped around.  A product of
    type NUMERIC (38, 0) has 39 digits.  -0.6 becomes the BIGINT 0, but -1.6
    becomes -2.  Both values for numbers that are no int are -1.  The text 1.2.3
    is read as 12.3.  An operand that is NULL is an error. *)
Example numeric_faults :
  (quotient_of (numeric_of 1 0 (-1)) (numeric_of 10 0 2000000000) = Some (NO_ERROR, 1, 9)
   /\ round_half (-1 * 10 ^ 9) 2000000000 = -1)
  /\ (quotient_of (numeric_of 38 0 (- 2 ^ 31)) (numeric_of 1 0 (-1)) = None
      /\ quotient_of (numeric_of 38 0 (- 2 ^ 63)) (numeric_of 1 0 (-1)) = None)
  /\ (quotient_of (numeric_of 38 0 (12 * 10 ^ 36)) (numeric_of 38 20 (99 * 10 ^ 36))
      = Some (NO_ERROR, 42504149118018228044737525164768607543, 20)
      /\ round_half (12 * 10 ^ 36 * 10 ^ 40) (99 * 10 ^ 36) = 1212121212121212121212121212121212121212)
  /\ (quotient_of (numeric_of 38 0 (99 * 10 ^ 36 - 1)) (numeric_of 38 0 (99 * 10 ^ 36)) = Some (NO_ERROR, 0, 0)
      /\ round_half (99 * 10 ^ 36 - 1) (99 * 10 ^ 36) = 1)
  /\ (let r := numeric_db_value_mul (Some (numeric_of 20 0 (13 * 10 ^ 18))) (Some (numeric_of 20 0 (10 ^ 19))) in
      r.1 = NO_ERROR /\ precision r.2 = 38 /\ snum (num r.2) = 13 * 10 ^ 37)
  /\ (numeric_coerce_num_to_bigint (num (numeric_of 5 1 (- 6))) 1 ([], []) = Some (NO_ERROR, 0)
      /\ numeric_coerce_num_to_bigint (num (numeric_of 5 1 (- 16))) 1 ([], []) = Some (NO_ERROR, - 2))
  /\ (numeric_coerce_num_to_int (num (numeric_of 38 0 (2 ^ 40))) = -1
      /\ numeric_coerce_num_to_int (num (numeric_of 38 0 (- 2 ^ 40))) = -1)
  /\ (let r := numeric_coerce_string_to_num [49; 46; 50; 46; 51] in
      r.1 = NO_ERROR /\ scale r.2 = 1 /\ snum (num r.2) = 123)
  /\ numeric_db_value_add (Some (mkValue true DB_TYPE_NUMERIC 38 0 [] 0)) (Some (numeric_of 5 1 7))
     = (ER_OBJ_INVALID_ARGUMENTS, DB_MAKE_NULL).
Proof. by vm_compute. Qed.
