(* ===== verification/Floats.v ===== *)
(** * Floating-point numbers

    The conversions between integers and IEEE single and double precision
    numbers that the sources use, on the floats of the library SpecFloat, and
    the real values of the results of the operations: every operation rounds
    its exact result with a small relative error. *)
From Stdlib Require Import ZArith Lia ZifyBool SpecFloat Reals Lra.
From stdpp Require Import base list numbers.
From S2P Require Import Prelude.

(** ** Conversions *)

(** IEEE single precision: the value of an unsigned int, and the conversions
    back, which drop the fraction.  A value that does not fit is converted as
    on x86-64: to the low word of a 64-bit conversion for an unsigned int, to
    the smallest int for a signed one. *)
Definition float_of (n : Z) : spec_float := binary_normalize 24 128 n 0 false.

Definition float_trunc (f : spec_float) : option Z :=
  match f with
  | S754_zero _ => Some 0
  | S754_finite s m e =>
      let n := if e <? 0 then Z.shiftr (Zpos m) (- e) else Z.shiftl (Zpos m) e in
      Some (if s then - n else n)
  | _ => None
  end.

Definition float_to_uint (f : spec_float) : Z :=
  match float_trunc f with
  | Some n => if (- 2 ^ 63 <=? n) && (n <? 2 ^ 63) then uwrap 32 n else 0
  | None => 0
  end.

Definition float_to_int (f : spec_float) : Z :=
  match float_trunc f with
  | Some n => if (- 2 ^ 31 <=? n) && (n <? 2 ^ 31) then n else - 2 ^ 31
  | None => - 2 ^ 31
  end.

(** IEEE double precision: the value of an integer. *)
Definition double_of (n : Z) : spec_float := binary_normalize 53 1024 n 0 false.

(** The conversion of a double to a float. *)
Definition double_to_float (f : spec_float) : spec_float :=
  match f with
  | S754_finite s m e => binary_round 24 128 s m e
  | _ => f
  end.

Lemma float_to_uint_range f : 0 <= float_to_uint f < 2 ^ 32.
Proof.
  unfold float_to_uint. destruct (float_trunc f) as [n|]; [|lia].
  pose proof (uwrap_range 32 n). zcase; lia.
Qed.

(** ** Mantissas *)

Lemma digits_bounds m : 2 ^ (Zpos (digits2_pos m) - 1) <= Zpos m < 2 ^ Zpos (digits2_pos m).
Proof.
  induction m as [m IH|m IH|]; [..|done]; cbn [digits2_pos]; rewrite Pos2Z.inj_succ;
    replace (Z.succ _ - 1) with (Z.succ (Zpos (digits2_pos m) - 1)) by lia;
    rewrite !Z.pow_succ_r by lia; lia.
Qed.

Lemma digits_unique m d : 2 ^ (d - 1) <= Zpos m < 2 ^ d -> Zpos (digits2_pos m) = d.
Proof.
  intros H. pose proof (digits_bounds m) as H'.
  destruct (Z.lt_trichotomy (Zpos (digits2_pos m)) d) as [Hl|[?|Hl]]; [|done|].
  - assert (2 ^ Zpos (digits2_pos m) <= 2 ^ (d - 1)) by (apply Z.pow_le_mono_r; lia). lia.
  - assert (2 ^ d <= 2 ^ (Zpos (digits2_pos m) - 1)) by (apply Z.pow_le_mono_r; lia). lia.
Qed.

Lemma shr_1_div r : 0 <= shr_m r -> shr_m (shr_1 r) = shr_m r / 2.
Proof.
  destruct r as [m ? ?]. simpl. destruct m as [|[p|p|]|p]; simpl; intros; try lia; try done.
  - rewrite Pos2Z.inj_xI. dlia.
  - rewrite (Pos2Z.inj_xO p). dlia.
Qed.

Lemma iter_shr p r : 0 <= shr_m r -> shr_m (SpecFloat.iter_pos shr_1 p r) = shr_m r / 2 ^ Zpos p.
Proof.
  revert r. induction p as [p IH|p IH|]; intros r Hr; cbn [SpecFloat.iter_pos].
  - assert (0 <= shr_m (shr_1 r)) by (rewrite shr_1_div by done; dlia).
    assert (0 <= shr_m (SpecFloat.iter_pos shr_1 p (shr_1 r)))
      by (rewrite IH by done; apply Z.div_pos; lia).
    rewrite !IH, shr_1_div by done. rewrite !Z.div_div by lia. f_equal.
    rewrite Pos2Z.inj_xI. replace (2 * Zpos p + 1) with (1 + Zpos p + Zpos p) by lia.
    rewrite !Z.pow_add_r by lia. lia.
  - assert (0 <= shr_m (SpecFloat.iter_pos shr_1 p r)) by (rewrite IH by done; apply Z.div_pos; lia).
    rewrite !IH by done. rewrite !Z.div_div by lia. f_equal.
    rewrite (Pos2Z.inj_xO p). replace (2 * Zpos p) with (Zpos p + Zpos p) by lia.
    by rewrite Z.pow_add_r by lia.
  - by apply shr_1_div.
Qed.

(** A number with enough trailing zeros is shifted without loss. *)
Lemma iter_shr_exact p n :
  0 <= n ->
  SpecFloat.iter_pos shr_1 p (Build_shr_record (n * 2 ^ Zpos p) false false)
  = Build_shr_record n false false.
Proof.
  assert (forall n, 0 <= n -> shr_1 (Build_shr_record (n * 2) false false)
                              = Build_shr_record n false false) as H1.
  { intros k Hk. destruct k as [|k|k]; [done| |lia]. by rewrite <- Pos2Z.inj_mul, Pos.mul_comm. }
  revert n. induction p as [p IH|p IH|]; intros n Hn; cbn [SpecFloat.iter_pos]; [..|by apply H1].
  - rewrite Pos2Z.inj_xI. replace (2 * Zpos p + 1) with (Zpos p + Zpos p + 1) by lia.
    rewrite !Z.pow_add_r, !Z.mul_assoc by lia. change (2 ^ 1) with 2. rewrite H1 by lia. by rewrite !IH by lia.
  - rewrite (Pos2Z.inj_xO p). replace (2 * Zpos p) with (Zpos p + Zpos p) by lia.
    rewrite Z.pow_add_r, Z.mul_assoc by lia. by rewrite !IH by lia.
Qed.

Lemma shr_m_of_loc m l : shr_m (shr_record_of_loc m l) = m.
Proof. by destruct l as [|[]]. Qed.

Lemma loc_of_loc m l : loc_of_shr_record (shr_record_of_loc m l) = l.
Proof. by destruct l as [|[]]. Qed.

(** Numbers in the normal range of the format: the exponent of the result is
    given by the number of digits. *)
Section Round.
Context (prec emax : Z) (Hprec : 1 < prec).

Definition normal (m e : Z) : Prop := emin prec emax + prec <= Zdigits2 m + e.

Lemma shr_fexp_normal m e l :
  normal (Zpos m) e ->
  exists r k, shr_fexp prec emax (Zpos m) e l = (r, e + k)
    /\ k = Z.max 0 (Zpos (digits2_pos m) - prec) /\ shr_m r = Zpos m / 2 ^ k
    /\ (k = 0 -> loc_of_shr_record r = l)
    /\ (l = loc_Exact -> Zpos m mod 2 ^ k = 0 -> loc_of_shr_record r = loc_Exact).
Proof.
  unfold normal, shr_fexp, fexp. simpl. intros Hn.
  replace (Z.max (Zpos (digits2_pos m) + e - prec) (emin prec emax) - e)
    with (Zpos (digits2_pos m) - prec) by lia.
  destruct (Zpos (digits2_pos m) - prec) as [|p|p] eqn:E; simpl.
  - eexists _, 0. rewrite Z.add_0_r, shr_m_of_loc, loc_of_loc, Z.div_1_r. done.
  - eexists _, (Zpos p). split; [done|]. split; [done|].
    split; [rewrite iter_shr; rewrite shr_m_of_loc; [done|lia]|]. split; [done|]. intros -> Hm.
    apply Z.div_exact in Hm; [|lia]. rewrite Hm, Z.mul_comm. simpl shr_record_of_loc.
    rewrite iter_shr_exact by (apply Z.div_pos; lia). done.
  - eexists _, 0. rewrite Z.add_0_r, shr_m_of_loc, loc_of_loc, Z.div_1_r. done.
Qed.

Lemma round_even_bounds m l :
  m <= round_nearest_even m l <= m + 1 /\ (l = loc_Exact -> round_nearest_even m l = m).
Proof. destruct l as [|[]]; simpl; try destruct (Z.even m); split; try done; lia. Qed.

Lemma pow_prec : 2 ^ prec = 2 * 2 ^ (prec - 1).
Proof. rewrite <- Z.pow_succ_r by lia. f_equal. lia. Qed.

(** The mantissa after the shift that leaves [prec] digits. *)
Lemma shift_bounds m k :
  k = Z.max 0 (Zpos (digits2_pos m) - prec) ->
  0 < Zpos m / 2 ^ k < 2 ^ prec /\ (0 < k -> 2 ^ (prec - 1) <= Zpos m / 2 ^ k).
Proof.
  intros Hk. pose proof (digits_bounds m) as Hd. destruct (Z.eq_dec k 0) as [->|Hk0].
  - rewrite Z.div_1_r.
    assert (2 ^ Zpos (digits2_pos m) <= 2 ^ prec) by (apply Z.pow_le_mono_r; lia). lia.
  - assert (2 ^ (Zpos (digits2_pos m) - 1) = 2 ^ k * 2 ^ (prec - 1)) as Ha
      by (rewrite <- Z.pow_add_r by lia; f_equal; lia).
    assert (2 ^ Zpos (digits2_pos m) = 2 ^ k * 2 ^ prec) as Hc
      by (rewrite <- Z.pow_add_r by lia; f_equal; lia).
    assert (2 ^ (prec - 1) <= Zpos m / 2 ^ k) by (apply Z.div_le_lower_bound; lia).
    assert (Zpos m / 2 ^ k < 2 ^ prec) by (apply Z.div_lt_upper_bound; lia). lia.
Qed.

(** A carry out of the mantissa is a power of two: nothing is lost. *)
Lemma carry_shift m e :
  normal (Zpos m) e -> Zpos m <= 2 ^ prec ->
  exists r k, shr_fexp prec emax (Zpos m) e loc_Exact = (r, e + k)
    /\ 0 <= k <= 1 /\ shr_m r * 2 ^ k = Zpos m.
Proof.
  intros Hn Hm. destruct (shr_fexp_normal m e loc_Exact Hn) as (r & k & -> & Hk & Hr & _).
  exists r, k. split; [done|]. destruct (Z.eq_dec (Zpos m) (2 ^ prec)) as [Heq|Hne].
  - rewrite (digits_unique m (prec + 1)) in Hk.
    2:{ rewrite Heq. replace (prec + 1 - 1) with prec by lia. rewrite Z.pow_add_r by lia. lia. }
    replace k with 1 in * by lia. split; [lia|]. rewrite Hr, Heq, pow_prec, Z.pow_1_r. dlia.
  - pose proof (digits_bounds m). assert (Zpos (digits2_pos m) <= prec).
    { destruct (Z.le_gt_cases (Zpos (digits2_pos m)) prec); [done|].
      assert (2 ^ prec <= 2 ^ (Zpos (digits2_pos m) - 1)) by (apply Z.pow_le_mono_r; lia). lia. }
    replace k with 0 in * by lia. split; [lia|]. rewrite Hr, Z.div_1_r. lia.
Qed.

(** Digits do not get fewer when the mantissa does not get smaller. *)
Lemma digits_mono m d : 2 ^ (d - 1) <= Zpos m -> d <= Zpos (digits2_pos m).
Proof.
  intros H. pose proof (digits_bounds m).
  destruct (Z.le_gt_cases d (Zpos (digits2_pos m))); [done|].
  assert (2 ^ Zpos (digits2_pos m) <= 2 ^ (d - 1)) by (apply Z.pow_le_mono_r; lia). lia.
Qed.

(** The rounded mantissa [m2] at the exponent [e + k]. *)
Lemma round_aux_normal m e l :
  normal (Zpos m) e -> Zpos (digits2_pos m) + e < emax -> e < emax - prec ->
  exists m' e' m2 k, binary_round_aux prec emax false (Zpos m) e l = S754_finite false m' e'
    /\ 0 <= e' - (e + k) /\ Zpos m' * 2 ^ (e' - (e + k)) = m2
    /\ k = Z.max 0 (Zpos (digits2_pos m) - prec)
    /\ Zpos m / 2 ^ k <= m2 <= Zpos m / 2 ^ k + 1
    /\ (l = loc_Exact -> Zpos m mod 2 ^ k = 0 -> m2 = Zpos m / 2 ^ k).
Proof.
  intros Hn He1 He2. unfold binary_round_aux.
  destruct (shr_fexp_normal m e l Hn) as (r & k & -> & Hk & Hr & Hl & Hle).
  destruct (shift_bounds m k Hk) as [H1 H3]. pose proof (digits_bounds m) as Hd.
  destruct (round_even_bounds (shr_m r) (loc_of_shr_record r)) as [Hb Hx].
  rewrite Hr in Hb, Hx |- *.
  destruct (round_nearest_even (Zpos m / 2 ^ k) (loc_of_shr_record r)) as [|m2|m2] eqn:E2; [lia| |lia].
  assert (Zpos (digits2_pos m) + e <= Zpos (digits2_pos m2) + (e + k)) as Hdig.
  { destruct (Z.eq_dec k 0) as [->|Hk0].
    - rewrite Z.div_1_r in *. pose proof (digits_mono m2 (Zpos (digits2_pos m))). lia.
    - pose proof (digits_mono m2 prec). lia. }
  destruct (carry_shift m2 (e + k)) as (r2 & k2 & -> & Hk2 & Hm2); [unfold normal in *; simpl in *; lia|lia|].
  destruct (shr_m r2) as [|m3|m3] eqn:E3; [lia| |lia].
  rewrite (proj2 (Z.leb_le _ _)) by lia. exists m3, (e + k + k2), (Zpos m2), k.
  split; [done|]. split; [lia|]. split; [rewrite <- Hm2; f_equal; f_equal; lia|].
  split; [done|]. split; [done|]. intros Hl' Hm. by apply Hx, Hle.
Qed.
End Round.

(** ** Real values *)

Definition p2 (e : Z) : R := powerRZ 2 e.
Definition fval (m e : Z) : R := (IZR m * p2 e)%R.

Lemma p2_pos e : (0 < p2 e)%R.
Proof. apply powerRZ_lt. lra. Qed.

Lemma p2_add a b : p2 (a + b) = (p2 a * p2 b)%R.
Proof. apply powerRZ_add. lra. Qed.

Lemma p2_IZR e : 0 <= e -> p2 e = IZR (2 ^ e).
Proof.
  intros He. unfold p2. rewrite <- (Z2Nat.id e) by done.
  rewrite <- pow_powerRZ, <- pow_IZR. done.
Qed.

Lemma p2_le a b : a <= b -> (p2 a <= p2 b)%R.
Proof.
  intros Hab. replace b with (a + (b - a)) by lia. rewrite p2_add, (p2_IZR (b - a)) by lia.
  pose proof (p2_pos a). assert (1 <= IZR (2 ^ (b - a)))%R by (apply IZR_le; lia). nra.
Qed.

Lemma p2_lt_inv a b : (p2 a < p2 b)%R -> a < b.
Proof. intros H. destruct (Z.lt_ge_cases a b) as [|Hba]; [done|]. pose proof (p2_le _ _ Hba). lra. Qed.

Lemma fval_shift m e k : 0 <= k -> fval (m * 2 ^ k) e = fval m (e + k).
Proof. intros Hk. unfold fval. rewrite mult_IZR, p2_add, <- p2_IZR by done. ring. Qed.

(** The number of digits of a float from its value. *)
Lemma fval_digits m e :
  (p2 (Zpos (digits2_pos m) - 1 + e) <= fval (Zpos m) e < p2 (Zpos (digits2_pos m) + e))%R.
Proof.
  pose proof (digits_bounds m) as [H1%IZR_le H2%IZR_lt]. rewrite <- p2_IZR in H1, H2 by lia.
  rewrite !p2_add. unfold fval. pose proof (p2_pos e). nra.
Qed.

(** One unit of the exponent, relative to a value with [n + 1] digits. *)
Lemma ulp_small m e n : 0 <= n -> 2 ^ n <= m -> (fval 1 e <= fval m e * p2 (- n))%R.
Proof.
  intros Hn Hm%IZR_le. rewrite <- p2_IZR in Hm by done. unfold fval.
  pose proof (p2_pos e). pose proof (p2_pos (- n)).
  assert (p2 n * p2 (- n) = 1)%R by (rewrite <- p2_add, Z.add_opp_diag_r; done).
  assert (1 <= IZR m * p2 (- n))%R by nra. nra.
Qed.

Section Values.
Context (prec emax : Z) (Hformat : prec = 24 /\ emax = 128 \/ prec = 53 /\ emax = 1024).

Definition eps : R := p2 (1 - prec).

(** Rounding an exact value, or one with enough digits, in the range of the
    numbers of this file. *)
Lemma round_aux_value m e l :
  (p2 (-60) <= fval (Zpos m) e <= p2 60)%R ->
  l = loc_Exact \/ 2 ^ (prec - 1) <= Zpos m ->
  exists m' e', binary_round_aux prec emax false (Zpos m) e l = S754_finite false m' e'
    /\ (fval (Zpos m) e * (1 - eps) <= fval (Zpos m') e' <= fval (Zpos m) e * (1 + eps))%R.
Proof.
  intros [Hlo Hhi] Hl. pose proof (fval_digits m e) as [Hd1 Hd2].
  assert (-60 < Zpos (digits2_pos m) + e) by (apply p2_lt_inv; lra).
  assert (Zpos (digits2_pos m) - 1 + e < 61).
  { apply p2_lt_inv. pose proof (p2_pos 60). change 61 with (60 + 1). rewrite (p2_add 60 1).
    assert (p2 1 = 2)%R as -> by (unfold p2; simpl; lra). lra. }
  destruct (round_aux_normal prec emax ltac:(lia) m e l)
    as (m' & e' & m2 & k & -> & He' & Hm2 & Hk & Hb & Hx).
  { unfold normal, emin. simpl. lia. }
  { lia. }
  { lia. }
  exists m', e'. split; [done|].
  assert (fval (Zpos m') e' = fval m2 (e + k)) as ->.
  { rewrite <- Hm2, fval_shift by lia. f_equal. lia. }
  set (X := fval (Zpos m) e) in *.
  assert (0 < X)%R by (pose proof (p2_pos (-60)); lra).
  assert (X = fval (Zpos m) e) as HX by done. clearbody X.
  assert (0 < eps)%R by apply p2_pos.
  destruct (Z.eq_dec k 0) as [->|Hk0].
  - rewrite Z.div_1_r in Hb. rewrite Z.add_0_r. destruct Hl as [->|Hl].
    { rewrite Hx, Z.div_1_r, <- HX by (done || by rewrite Z.mod_1_r). nra. }
    pose proof (ulp_small (Zpos m) e (prec - 1) ltac:(lia) Hl) as Hone.
    destruct Hb as [Hb1%IZR_le Hb2%IZR_le]. rewrite plus_IZR in Hb2.
    unfold fval, eps in *. replace (1 - prec) with (- (prec - 1)) in * by lia.
    pose proof (p2_pos e). nra.
  - rewrite <- fval_shift by lia.
    pose proof (Z.div_mod (Zpos m) (2 ^ k) ltac:(lia)) as Hdm.
    pose proof (Z.mod_pos_bound (Zpos m) (2 ^ k) ltac:(lia)) as Hmod.
    assert (Zpos m - 2 ^ k <= m2 * 2 ^ k <= Zpos m + 2 ^ k) as [Hb1%IZR_le Hb2%IZR_le] by nia.
    rewrite minus_IZR in Hb1. rewrite plus_IZR in Hb2.
    pose proof (digits_bounds m) as [Hd _].
    replace (Zpos (digits2_pos m) - 1) with (k + (prec - 1)) in Hd by lia.
    rewrite Z.pow_add_r in Hd by lia.
    assert (IZR (2 ^ k) <= IZR (Zpos m) * eps)%R as Hulp.
    { apply IZR_le in Hd. rewrite mult_IZR, <- (p2_IZR (prec - 1)) in Hd by lia. unfold eps.
      pose proof (p2_pos (1 - prec)).
      assert (p2 (prec - 1) * p2 (1 - prec) = 1)%R as Hinv
        by (rewrite <- p2_add; replace (prec - 1 + (1 - prec)) with 0 by lia; done).
      replace (IZR (2 ^ k)) with (IZR (2 ^ k) * p2 (prec - 1) * p2 (1 - prec))%R; [nra|].
      rewrite Rmult_assoc, Hinv. ring. }
    rewrite HX. unfold fval. pose proof (p2_pos e). nra.
Qed.

(** A positive float and its value; [near]: a value with one rounding. *)
Definition is_val (f : spec_float) (x : R) : Prop :=
  exists m e, f = S754_finite false m e /\ fval (Zpos m) e = x.
Definition near (f : spec_float) (x : R) : Prop :=
  exists y, is_val f y /\ (x * (1 - eps) <= y <= x * (1 + eps))%R.

Lemma iter_xO m d : Zpos (Pos.iter xO m d) = Zpos m * 2 ^ Zpos d.
Proof.
  induction d as [|d IH] using Pos.peano_ind; [simpl; lia|].
  rewrite Pos.iter_succ, Pos2Z.inj_xO, IH, Pos2Z.inj_succ, Z.pow_succ_r by lia. lia.
Qed.

Lemma shl_align_value m e e' :
  fval (Zpos (shl_align m e e').1) (shl_align m e e').2 = fval (Zpos m) e.
Proof.
  unfold shl_align. destruct (e' - e) as [|d|d] eqn:E; simpl; [done..|].
  rewrite iter_xO, fval_shift by lia. f_equal. lia.
Qed.

Lemma binary_round_value m e :
  (p2 (-60) <= fval (Zpos m) e <= p2 60)%R ->
  near (binary_round prec emax false m e) (fval (Zpos m) e).
Proof.
  intros Hr. unfold binary_round.
  pose proof (shl_align_value m e (fexp prec emax (Zpos (digits2_pos m) + e))) as Hs.
  destruct (shl_align _ _ _) as [mz ez]. simpl in Hs. rewrite <- Hs in Hr |- *.
  destruct (round_aux_value mz ez loc_Exact Hr ltac:(by left)) as (m' & e' & -> & Hb).
  eexists. split; [by eexists _, _|done].
Qed.

Lemma normalize_value n :
  0 < n < 2 ^ 32 -> near (binary_normalize prec emax n 0 false) (IZR n).
Proof.
  intros Hn. destruct n as [|n|n]; [lia| |lia]. simpl.
  assert (fval (Zpos n) 0 = IZR (Zpos n)) as Hv by (unfold fval, p2; simpl; ring).
  rewrite <- Hv. apply binary_round_value. rewrite Hv.
  assert (p2 (-60) <= p2 0)%R by (by apply p2_le). assert (p2 32 <= p2 60)%R by (by apply p2_le).
  assert (p2 0 = 1)%R by done.
  destruct Hn as [_ Hn2%IZR_lt]. rewrite <- p2_IZR in Hn2 by lia.
  assert (1 <= IZR (Zpos n))%R by (apply IZR_le; lia). lra.
Qed.

Lemma mul_value a b x y :
  is_val a x -> is_val b y -> (p2 (-60) <= x * y <= p2 60)%R ->
  near (SFmul prec emax a b) (x * y).
Proof.
  intros (ma & ea & -> & <-) (mb & eb & -> & <-) Hr. simpl.
  assert (fval (Zpos ma) ea * fval (Zpos mb) eb = fval (Zpos (ma * mb)) (ea + eb))%R as Hm.
  { unfold fval. rewrite p2_add, Pos2Z.inj_mul, mult_IZR. ring. }
  rewrite Hm in Hr |- *.
  destruct (round_aux_value (ma * mb) (ea + eb) loc_Exact Hr ltac:(by left)) as (m' & e' & -> & Hb).
  eexists. split; [by eexists _, _|done].
Qed.

Lemma add_value a b x y :
  is_val a x -> is_val b y -> (p2 (-60) <= x + y <= p2 60)%R ->
  near (SFadd prec emax a b) (x + y).
Proof.
  intros (ma & ea & -> & Hx) (mb & eb & -> & Hy) Hr. simpl.
  assert (forall m e, e >= Z.min ea eb ->
            fval (Zpos (shl_align m e (Z.min ea eb)).1) (Z.min ea eb) = fval (Zpos m) e) as Hs.
  { intros m e He. pose proof (shl_align_value m e (Z.min ea eb)) as H. unfold shl_align in *.
    destruct (Z.min ea eb - e) as [|d|d] eqn:E; simpl in *; [|lia|done].
    by replace (Z.min ea eb) with e by lia. }
  pose proof (Hs ma ea ltac:(lia)) as H1. pose proof (Hs mb eb ltac:(lia)) as H2.
  set (m1 := (shl_align ma ea _).1) in *. set (m2 := (shl_align mb eb _).1) in *.
  assert (x + y = fval (Zpos (m1 + m2)) (Z.min ea eb))%R as Hxy.
  { rewrite <- Hx, <- Hy, <- H1, <- H2. unfold fval. rewrite Pos2Z.inj_add, plus_IZR. ring. }
  rewrite Hxy in Hr |- *. by apply binary_round_value.
Qed.

(** The quotient of the mantissas has at least [prec] digits. *)
Lemma div_core ma ea mb eb :
  emin prec emax + prec <= (Zpos (digits2_pos ma) + ea) - (Zpos (digits2_pos mb) + eb) ->
  exists q e l, SFdiv_core_binary prec emax (Zpos ma) ea (Zpos mb) eb = (q, e, l)
    /\ 2 ^ (prec - 1) <= q
    /\ (fval q e * fval (Zpos mb) eb <= fval (Zpos ma) ea
        < fval (q + 1) e * fval (Zpos mb) eb)%R.
Proof.
  intros Hd. unfold SFdiv_core_binary. cbn [Zdigits2].
  set (e := Z.min _ _). assert (e <= ea - eb) as He by lia.
  assert (e <= Zpos (digits2_pos ma) + ea - (Zpos (digits2_pos mb) + eb) - prec) as He2
    by (unfold e, fexp; lia).
  set (s := ea - eb - e).
  assert ((match s with Z0 => Zpos ma | Zpos _ => Z.shiftl (Zpos ma) s | Zneg _ => 0 end)
          = Zpos ma * 2 ^ s) as Hm.
  { destruct s eqn:Es; [lia|by rewrite Z.shiftl_mul_pow2 by lia|lia]. }
  rewrite Hm. destruct (Z.div_eucl (Zpos ma * 2 ^ s) (Zpos mb)) as [q r] eqn:Ediv.
  pose proof (Z_div_mod (Zpos ma * 2 ^ s) (Zpos mb) ltac:(lia)) as Hdm.
  rewrite Ediv in Hdm. destruct Hdm as [Hq Hr].
  eexists q, e, _. split; [done|].
  pose proof (digits_bounds ma) as [Ha _]. pose proof (digits_bounds mb) as [_ Hb].
  assert (2 ^ (prec - 1) * 2 ^ Zpos (digits2_pos mb) <= Zpos ma * 2 ^ s) as Hbig.
  { rewrite <- Z.pow_add_r by lia. etrans; [|apply Z.mul_le_mono_nonneg_r; [lia|exact Ha]].
    rewrite <- Z.pow_add_r by lia. apply Z.pow_le_mono_r; lia. }
  split.
  { assert (0 < 2 ^ (prec - 1)) by lia.
    assert (2 ^ (prec - 1) * Zpos mb < Zpos mb * (q + 1)) by nia. nia. }
  assert (fval (Zpos ma) ea = fval (Zpos ma * 2 ^ s) (eb + e)) as ->
    by (rewrite fval_shift by lia; f_equal; lia).
  assert (forall n, fval n e * fval (Zpos mb) eb = fval (Zpos mb * n) (eb + e))%R as Hmul
    by (intros n; unfold fval; rewrite mult_IZR, p2_add; ring).
  rewrite !Hmul. unfold fval. pose proof (p2_pos (eb + e)).
  assert (IZR (Zpos mb * q) <= IZR (Zpos ma * 2 ^ s))%R by (apply IZR_le; lia).
  assert (IZR (Zpos ma * 2 ^ s) < IZR (Zpos mb * (q + 1)))%R by (apply IZR_lt; lia). nra.
Qed.

Lemma eps_small : (0 < eps <= p2 (-23))%R.
Proof. split; [apply p2_pos|]. apply p2_le. lia. Qed.

(** A quotient is rounded from below: at most one relative unit too large. *)
Lemma div_value a b x y :
  is_val a x -> is_val b y -> (0 < y)%R -> (p2 (-40) * y <= x <= p2 40 * y)%R ->
  exists z, is_val (SFdiv prec emax a b) z /\ (0 < z)%R /\ (z * y <= x * (1 + eps))%R.
Proof.
  intros (ma & ea & -> & Hx) (mb & eb & -> & Hy) Hpos Hr. simpl.
  pose proof (fval_digits ma ea) as [_ Hda]. pose proof (fval_digits mb eb) as [Hdb _].
  rewrite Hx in Hda. rewrite Hy in Hdb.
  assert (-40 + (Zpos (digits2_pos mb) - 1 + eb) < Zpos (digits2_pos ma) + ea) as Hdig.
  { apply p2_lt_inv. rewrite p2_add. pose proof (p2_pos (-40)). nra. }
  destruct (div_core ma ea mb eb) as (q & e & l & -> & Hq & Hb); [unfold emin; lia|].
  rewrite Hx, Hy in Hb. destruct q as [|q|q]; [lia| |lia].
  assert (1 <= IZR (Zpos q))%R as Hq1 by (apply IZR_le; lia).
  assert (fval (Zpos q + 1) e <= 2 * fval (Zpos q) e)%R as H2.
  { unfold fval. rewrite plus_IZR. pose proof (p2_pos e). nra. }
  assert (0 < fval (Zpos q) e)%R as Hqp by (unfold fval; pose proof (p2_pos e); nra).
  assert (p2 (-40) <= 2 * fval (Zpos q) e)%R by nra.
  assert (fval (Zpos q) e <= p2 40)%R by nra.
  assert (2 * p2 (-60) <= p2 (-40))%R.
  { replace 2%R with (p2 1) by (unfold p2; simpl; lra). rewrite <- p2_add. by apply p2_le. }
  assert (p2 40 <= p2 60)%R by (by apply p2_le).
  destruct (round_aux_value q e l) as (m' & e' & -> & Hv); [lra|by right|].
  pose proof eps_small. assert (p2 (-23) <= p2 (-1))%R by (by apply p2_le).
  assert (p2 (-1) = / 2)%R by (unfold p2; simpl; lra).
  eexists. split; [by eexists _, _|]. split; [nra|].
  assert (fval (Zpos m') e' * y <= fval (Zpos q) e * y * (1 + eps))%R by nra. nra.
Qed.
End Values.

Notation near32 := (near 24).
Notation near64 := (near 53).

Lemma format32 : 24 = 24 /\ 128 = 128 \/ 24 = 53 /\ 128 = 1024.
Proof. by left. Qed.
Lemma format64 : 53 = 24 /\ 1024 = 128 \/ 53 = 53 /\ 1024 = 1024.
Proof. by right. Qed.

(** A unit in the last place of a single precision number, as a number. *)
Lemma eps32 : (0 < eps 24 <= / 1000000)%R.
Proof. split; [apply p2_pos|]. unfold eps, p2. simpl. lra. Qed.

Lemma eps64 : (0 < eps 53 <= / 1000000)%R.
Proof.
  split; [apply p2_pos|]. etrans; [|apply eps32]. unfold eps. apply p2_le. lia.
Qed.

Lemma p2_60 : (p2 (-60) <= / 1000000000 /\ 1000000000000 <= p2 60)%R.
Proof. split; unfold p2; simpl; lra. Qed.

Lemma p2_40 : (p2 (-40) <= / 1000000000000 /\ 1000000000000 <= p2 40)%R.
Proof. split; unfold p2; simpl; lra. Qed.

Lemma float_of_value n :
  0 < n < 2 ^ 32 ->
  exists x, is_val (float_of n) x
    /\ (IZR n * (1 - / 1000000) <= x <= IZR n * (1 + / 1000000))%R.
Proof.
  intros Hn. destruct (normalize_value 24 128 format32 n Hn) as (x & Hx & Hb).
  exists x. split; [done|]. pose proof eps32.
  assert (0 < IZR n)%R by (apply IZR_lt; lia). nra.
Qed.

(** Conversion to an integer drops the fraction. *)
Lemma float_trunc_value f x :
  is_val f x -> exists n, float_trunc f = Some n /\ 0 <= n /\ (IZR n <= x < IZR n + 1)%R.
Proof.
  intros (m & e & -> & <-). simpl. destruct (e <? 0) eqn:He.
  - rewrite Z.shiftr_div_pow2 by lia. eexists. split; [done|].
    pose proof (Z.div_mod (Zpos m) (2 ^ - e) ltac:(lia)) as Hdm.
    pose proof (Z.mod_pos_bound (Zpos m) (2 ^ - e) ltac:(lia)) as Hmod.
    set (n := Zpos m / 2 ^ - e) in *.
    assert (0 <= n) by (apply Z.div_pos; lia). split; [done|].
    assert (fval (Zpos m) e * IZR (2 ^ - e) = IZR (Zpos m))%R as Hv.
    { unfold fval. rewrite <- p2_IZR, Rmult_assoc, <- p2_add, Z.add_opp_diag_r by lia.
      unfold p2. simpl. ring. }
    assert (1 <= IZR (2 ^ - e))%R by (apply IZR_le; lia).
    assert (IZR n * IZR (2 ^ - e) <= IZR (Zpos m))%R by (rewrite <- mult_IZR; apply IZR_le; lia).
    assert (IZR (Zpos m) < (IZR n + 1) * IZR (2 ^ - e))%R
      by (rewrite <- plus_IZR, <- mult_IZR; apply IZR_lt; lia).
    rewrite <- Hv in *. nra.
  - rewrite Z.shiftl_mul_pow2 by lia. eexists. split; [done|]. split; [lia|].
    unfold fval. rewrite p2_IZR, mult_IZR by lia. lra.
Qed.
