(* ===== verification/HashFunctions.v ===== *)
(** * Hash functions and table sizes (src/base/memory_hash.c)

    The pseudo keys of strings, the hash functions built on them, the hash of
    a database value that the lock manager and the replication use, and the
    choice of the size of a hash table.  A string is the list of the bytes of
    its object, the terminator included; a read behind the object gives None. *)
From Stdlib Require Import ZArith Lia ZifyBool.
From stdpp Require Import base list numbers.
From S2P Require Import Prelude.

(** ** Pseudo keys of strings *)

(** The loop of mht_1str_pseudo_key, mht_2str_pseudo_key and
    mht_4str_pseudo_key: one step per byte, up to the terminator when the size
    is -1 and for the given number of bytes otherwise. *)
Fixpoint str_loop {A} (step : A -> Z -> A) (key : list Z) (key_size : Z) (acc : A)
    : option A :=
  if key_size =? -1 then
    match key with
    | [] => None
    | b :: key => if b =? 0 then Some acc else str_loop step key key_size (step acc b)
    end
  else if key_size <=? 0 then Some acc
  else
    match key with
    | [] => None
    | b :: key => str_loop step key (key_size - 1) (step acc b)
    end.

Definition step_1str (pseudo_key b : Z) : Z :=
  uwrap 32 (uwrap 32 (Z.shiftl pseudo_key 5) - pseudo_key + b).

Definition mht_1str_pseudo_key (key : list Z) (key_size : Z) : option Z :=
  str_loop step_1str key key_size 0.

Definition step_2str (pseudo_key b : Z) : Z :=
  let pseudo_key := uwrap 32 (uwrap 32 (Z.shiftl pseudo_key 4) + b) in
  let i := Z.land pseudo_key 0xf0000000 in
  if negb (i =? 0)
  then Z.lxor (Z.lxor pseudo_key (Z.shiftr i 24)) i
  else pseudo_key.

Definition mht_2str_pseudo_key (key : list Z) (key_size : Z) : option Z :=
  str_loop step_2str key key_size 0.

(** mht_3str_pseudo_key moves its pointer [p] twice in each iteration.  An
    iteration reads a byte at a new place, so that there are at most as many
    as the object has bytes, and one that ends the loop. *)
Fixpoint loop_3str (fuel : nat) (max_value : Z) (key : list Z) (p : nat)
    (key_size pseudo_key : Z) : option Z :=
  match fuel with
  | O => None
  | S fuel =>
      let body b key_size :=
        loop_3str fuel max_value key (S (S p)) key_size
          (uwrap 32 (uwrap 32 (pseudo_key * 32) + b) mod max_value) in
      if key_size =? -1 then
        b ← key !! p; if b =? 0 then Some pseudo_key else body b key_size
      else if key_size <=? 0 then Some pseudo_key
      else b ← key !! p; body b (key_size - 1)
  end.

Definition mht_3str_pseudo_key (key : list Z) (key_size max_value : Z) : option Z :=
  loop_3str (S (length key)) max_value key 0 key_size 0.

(** The table of mht_4str_pseudo_key; the literals 061, 050, 057 and 044 of
    the source are octal. *)
Definition tbl_4str : list Z :=
  [166; 231; 148; 49; 40; 131; 0; 47; 126; 223;
   36; 245; 138; 251; 24; 113; 86; 215; 196; 173;
   226; 115; 48; 169; 46; 207; 92; 101; 58; 235;
   72; 225; 6; 199; 244; 29; 146; 99; 96; 25;
   222; 191; 140; 213; 234; 219; 120; 81; 182; 183;
   36; 141; 66; 83; 144; 137; 142; 175; 188; 69;
   154; 203; 168; 193; 102; 167; 84; 253; 242; 67;
   192; 249; 62; 159; 236; 181; 74; 187; 216; 49;
   22; 151; 132; 109; 162; 51; 240; 105; 238; 143;
   28; 37; 250; 171; 8; 161; 198; 135; 180; 221;
   82; 35; 32; 217; 158; 127; 76; 149; 170; 155;
   56; 17; 118; 119; 228; 77; 2; 19; 80; 73; 78;
   111; 124; 5; 90; 139; 104; 129; 38; 103; 20;
   189; 178; 3; 128; 185; 254; 95; 172; 117; 10;
   123; 152; 241; 214; 87; 68; 45; 98; 243; 176;
   41; 174; 79; 220; 229; 186; 107; 200; 97; 134;
   71; 116; 157; 18; 227; 224; 153; 94; 63; 12;
   85; 106; 91; 248; 209; 54; 55; 164; 13; 194;
   211; 16; 9; 14; 47; 60; 197; 26; 75; 40;
   65; 230; 39; 212; 125; 114; 195; 64; 121; 190;
   31; 108; 53; 202; 59; 88; 177; 150; 23; 4;
   237; 34; 179; 112; 233; 110; 15; 156; 165; 122;
   43; 136; 33; 70; 7; 52; 93; 210; 163; 160;
   89; 30; 255; 204; 21; 42; 27; 184; 145; 246;
   247; 100; 205; 130; 147; 208; 201; 206; 239; 252;
   133; 218; 11; 232; 1; 0].

Definition tbl4 (i : Z) : Z := nth (Z.to_nat i) tbl_4str 0.

Definition step_4str (bs : list Z) (b : Z) : list Z :=
  (fun x => tbl4 (Z.lxor x b)) <$> bs.

Definition mht_4str_pseudo_key (key : list Z) (key_size : Z) : option Z :=
  match key with
  | [] => None
  | b :: rest =>
      let start := [tbl4 b; tbl4 ((b + 1) mod 256); tbl4 ((b + 2) mod 256);
                    tbl4 ((b + 3) mod 256)] in
      let '(key', key_size') :=
        if key_size =? -1 then (if negb (b =? 0) then (rest, key_size) else (key, key_size))
        else if key_size >? 0 then (rest, key_size - 1)
        else (key, key_size) in
      match str_loop step_4str key' key_size' start with
      | Some [byte1; byte2; byte3; byte4] =>
          Some (Z.lor (Z.lor (Z.lor byte1 (Z.shiftl byte2 8)) (Z.shiftl byte3 16))
                  (Z.shiftl byte4 24))
      | _ => None
      end
  end.

(** The value of a byte read through a char pointer, which is signed. *)
Definition char_value (b : Z) : Z := swrap 8 b.

(** Both loops of mht_5str_pseudo_key; [i] is the index the loop ends with:
    behind the terminator for a size of -1. *)
Fixpoint loop_5str (key : list Z) (key_size hash i : Z) : option (Z * Z) :=
  if key_size =? -1 then
    match key with
    | [] => None
    | b :: key =>
        if char_value b =? 0 then Some (hash, i + 1)
        else loop_5str key key_size
               (uwrap 32 (uwrap 32 (uwrap 32 (Z.shiftl hash 5) + hash) + char_value b)) (i + 1)
    end
  else if i <? key_size then
    match key with
    | [] => None
    | b :: key =>
        loop_5str key key_size
          (uwrap 32 (uwrap 32 (uwrap 32 (Z.shiftl hash 5) + hash) + char_value b)) (i + 1)
    end
  else Some (hash, i).

Definition mht_5str_pseudo_key (key : list Z) (key_size : Z) : option Z :=
  match loop_5str key key_size 5381 0 with
  | None => None
  | Some (hash, i) =>
      let hash := uwrap 32 (hash + uwrap 32 (Z.lnot (uwrap 32 (Z.shiftl hash 9)))) in
      let hash := Z.lxor hash (Z.lor (Z.shiftr hash 14) (uwrap 32 (Z.shiftl i 18))) in
      let hash := uwrap 32 (hash + uwrap 32 (Z.shiftl hash 4)) in
      let hash := Z.lxor hash (Z.lor (Z.shiftr hash 10) (uwrap 32 (Z.shiftl i 22))) in
      Some hash
  end.

(** ** Hash functions *)

Definition char_isupper (c : Z) : bool := (c >=? 65) && (c <=? 90).
Definition char_tolower (c : Z) : Z := if char_isupper c then c - (65 - 97) else c.

Definition step_1strlower (hash b : Z) : Z :=
  uwrap 32 (uwrap 32 (Z.shiftl hash 5) - hash + char_tolower b).

Definition mht_1strlowerhash (key : list Z) (ht_size : Z) : option Z :=
  hash ← str_loop step_1strlower key (-1) 0; Some (hash mod ht_size).

Definition mht_1strhash (key : list Z) (ht_size : Z) : option Z :=
  hash ← mht_1str_pseudo_key key (-1); Some (hash mod ht_size).

Definition mht_2strhash (key : list Z) (ht_size : Z) : option Z :=
  hash ← mht_2str_pseudo_key key (-1); Some (hash mod ht_size).

Definition mht_3strhash (key : list Z) (ht_size : Z) : option Z :=
  mht_3str_pseudo_key key (-1) ht_size.

Definition mht_4strhash (key : list Z) (ht_size : Z) : option Z :=
  hash ← mht_4str_pseudo_key key (-1); Some (hash mod ht_size).

Definition mht_5strhash (key : list Z) (ht_size : Z) : option Z :=
  hash ← mht_5str_pseudo_key key (-1); Some (hash mod ht_size).

(** The key is a pointer to an int, which is read as an unsigned int. *)
Definition mht_numhash (key ht_size : Z) : Z := uwrap 32 key mod ht_size.

Definition LOGPB_HEADER_PAGE_ID : Z := -9.

(** The key is a pointer to a signed 64-bit page identifier; the table size is
    converted to its type, and the remainder to an unsigned int. *)
Definition mht_logpageidhash (key htsize : Z) : Z :=
  if key =? LOGPB_HEADER_PAGE_ID then 0 else uwrap 32 (Z.rem key htsize).

Definition mht_ptrhash (key ht_size : Z) : Z := Z.land key 0xFFFFFFFF mod ht_size.

Definition mht_get_shiftmult32 (key ht_size : Z) : Z :=
  let c2 := 0x27d4eb2d in
  let key := Z.lxor (Z.lxor key 61) (Z.shiftr key 16) in
  let key := uwrap 32 (key + uwrap 32 (Z.shiftl key 3)) in
  let key := Z.lxor key (Z.shiftr key 4) in
  let key := uwrap 32 (key * c2) in
  let key := Z.lxor key (Z.shiftr key 15) in
  key mod ht_size.

(** ** Hash of a database value *)

(** The values mht_get_hash_number distinguishes, with the fields it reads:
    the bit pattern of a double, the sixteen bytes of a numeric, the pointer
    (None for NULL) and size of a string and the bytes of a disk set. *)
Inductive HASH_VALUE :=
| HASH_NULL
| HASH_INTEGER (i : Z)
| HASH_BIGINT (bigint : Z)
| HASH_DOUBLE (bits : Z)
| HASH_NUMERIC (buf : list Z)
| HASH_DATE (date : Z)
| HASH_TIME (time : Z)
| HASH_DATETIME (date time : Z)
| HASH_OID (volid pageid slotid : Z)
| HASH_STRING (collation : Z) (ptr : option (list Z)) (size : Z)
| HASH_SEQUENCE (disk_set : list Z)
| HASH_OTHER.

(** The [n]-th 32-bit word of a buffer on a little-endian machine. *)
Definition word_at (buf : list Z) (n : nat) : Z :=
  nth (4 * n) buf 0 + 256 * nth (4 * n + 1) buf 0 + 65536 * nth (4 * n + 2) buf 0
  + 16777216 * nth (4 * n + 3) buf 0.

(** ptr[i]: None outside the object. *)
Definition char_at (ptr : list Z) (i : Z) : option Z :=
  if i <? 0 then None else ptr !! Z.to_nat i.

(** The loop over the trailing spaces. *)
Fixpoint trim_loop (fuel : nat) (ptr : list Z) (i : Z) : option Z :=
  match fuel with
  | O => None
  | S fuel =>
      if i =? 0 then Some i
      else
        c ← char_at ptr i;
        if c =? 0 then Some i
        else if negb (c =? 0x20) then Some i
        else trim_loop fuel ptr (i - 1)
  end.

Definition strlen (s : list Z) : option Z := str_loop (fun n _ => n + 1) s (-1) 0.

(** Every fourth byte of the set, as the sign extended value of a char. *)
Definition sequence_hash (disk_set : list Z) : Z :=
  foldl (fun x i => Z.lxor x (uwrap 32 (char_value (nth (i * 4) disk_set 0)))) 0
    (seq 0 (length disk_set / 4)).

(** [mht2str] is the hash function of a collation. *)
Definition mht_get_hash_number (mht2str : Z -> list Z -> Z -> Z) (ht_size : Z)
    (val : option HASH_VALUE) : option Z :=
  match val with
  | None | Some HASH_NULL => Some 0
  | Some val =>
      if ht_size <=? 1 then Some 0
      else
        match val with
        | HASH_INTEGER i => Some (mht_get_shiftmult32 (uwrap 32 i) ht_size)
        | HASH_BIGINT bigint =>
            let x := uwrap 32 (Z.shiftr bigint 32) in
            let y := uwrap 32 bigint in
            Some (mht_get_shiftmult32 (Z.lxor x y) ht_size)
        | HASH_DOUBLE bits =>
            let y := Z.land (uwrap 32 bits) 0xFFFFFFF0 in
            let z := Z.land (uwrap 32 (Z.shiftr bits 32)) 0xFFFFFFF0 in
            Some (mht_get_shiftmult32 (Z.lxor y z) ht_size)
        | HASH_NUMERIC buf =>
            Some (mht_get_shiftmult32
                    (Z.lxor (Z.lxor (Z.lxor (word_at buf 0) (word_at buf 1)) (word_at buf 2))
                       (word_at buf 3)) ht_size)
        | HASH_DATE date => Some (mht_get_shiftmult32 date ht_size)
        | HASH_TIME time => Some (mht_get_shiftmult32 time ht_size)
        | HASH_DATETIME date time => Some (mht_get_shiftmult32 (Z.lxor date time) ht_size)
        | HASH_OID volid pageid slotid =>
            let x := uwrap 32 (Z.lor (Z.shiftl volid 16) slotid) in
            let y := uwrap 32 pageid in
            Some (mht_get_shiftmult32 (Z.lxor x y) ht_size)
        | HASH_STRING collation ptr size =>
            match ptr with
            | None => Some 0
            | Some s =>
                len ← (if size <? 0 then strlen s else Some size);
                i ← trim_loop (S (length s)) s (len - 1);
                let i := i + 1 in
                c ← char_at s 0;
                if (c =? 0) || (i <=? 0) then Some 0
                else Some (uwrap 32 (mht2str collation s i) mod ht_size)
            end
        | HASH_SEQUENCE disk_set => Some (mht_get_shiftmult32 (sequence_hash disk_set) ht_size)
        | _ => Some 0
        end
  end.

(** ** Comparison of keys *)

Definition mht_compare_ints_are_equal (key1 key2 : Z) : bool := key1 =? key2.
Definition mht_compare_logpageids_are_equal (key1 key2 : Z) : bool := key1 =? key2.
Definition mht_compare_ptrs_are_equal (key1 key2 : Z) : bool := key1 =? key2.

(** strcmp (s1, s2) == 0, and with letters compared regardless of case the
    same test of strncasecmp. *)
Fixpoint str_equal (f : Z -> Z) (s1 s2 : list Z) : bool :=
  match s1, s2 with
  | b1 :: s1, b2 :: s2 => (f b1 =? f b2) && ((b1 =? 0) || str_equal f s1 s2)
  | _, _ => false
  end.

Definition mht_compare_strings_are_equal (key1 key2 : list Z) : bool :=
  str_equal (fun b => b) key1 key2.

(** strncasecmp of the first [n] bytes. *)
Fixpoint strncase_equal (n : nat) (s1 s2 : list Z) : bool :=
  match n with
  | O => true
  | S n =>
      match s1, s2 with
      | b1 :: s1, b2 :: s2 =>
          (char_tolower b1 =? char_tolower b2) && ((b1 =? 0) || strncase_equal n s1 s2)
      | _, _ => false
      end
  end.

Definition intl_identifier_equal (str1 str2 : list Z) : bool :=
  match strlen str1, strlen str2 with
  | Some str1_size, Some str2_size =>
      if negb (str1_size =? str2_size) then false
      else strncase_equal (Z.to_nat str1_size) str1 str2
  | _, _ => false
  end.

Definition mht_compare_identifiers_equal (key1 key2 : list Z) : bool :=
  intl_identifier_equal key1 key2.

(** ** Size of a table *)

Definition NPRIMES : Z := 170.

Definition mht_Primes : list Z :=
  [11; 23; 37; 53; 67; 79; 97; 109; 127; 149;
   167; 191; 211; 227; 251; 269; 293; 311; 331; 349;
   367; 389; 409; 431; 449; 467; 487; 509; 541; 563;
   587; 607; 631; 653; 673; 521; 541; 557; 569; 587;
   599; 613; 641; 673; 701; 727; 751; 787; 821; 853;
   881; 907; 941; 977; 1039; 1087; 1129; 1171; 1213; 1259;
   1301; 1361; 1409; 1471; 1523; 1579; 1637; 1693; 1747; 1777;
   1823; 1867; 1913; 1973; 2017; 2129; 2237; 2339; 2441; 2543;
   2647; 2749; 2851; 2953; 3061; 3163; 3271; 3373; 3491; 3593;
   3697; 3803; 3907; 4013; 4177; 4337; 4493; 4649; 4801; 4957;
   5059; 5167; 5273; 5381; 5483; 5591; 5693; 5801; 5903; 6007;
   6113; 6217; 6317; 6421; 6521; 6637; 6737; 6841; 6847; 7057;
   7283; 7487; 7687; 7901; 8101; 8311; 8513; 8713; 8923; 9127;
   9337; 9539; 9739; 9941; 10141; 10343; 10559; 10771; 10973; 11177;
   11383; 11587; 11789; 12007; 12409; 12809; 13217; 13619; 14029; 14431;
   14831; 15233; 15641; 16057; 16477; 16879; 17291; 18097; 18899; 19699;
   20507; 21313; 22123; 23131; 24133; 25147; 26153; 27179; 28181; 29123].

Definition prime_at (i : Z) : Z := nth (Z.to_nat i) mht_Primes 0.

(** The binary search; the distance between the ends shrinks in every step, so
    that 171 steps are enough.  None stands for a loop that does not end. *)
Fixpoint prime_search (fuel : nat) (ht_size middle left right : Z) : option Z :=
  match fuel with
  | O => None
  | S fuel =>
      if left <=? right then
        let middle := CEIL_PTVDIV (left + right) 2 in
        if ht_size =? prime_at middle then Some middle
        else if ht_size >? prime_at middle then prime_search fuel ht_size middle (middle + 1) right
        else prime_search fuel ht_size middle left (middle - 1)
      else Some middle
  end.

(** The loop meant to leave only the leftmost bit; it goes on while the number
    is zero or a power of two. *)
Fixpoint turn_off_loop (fuel : nat) (ht_size : Z) : option Z :=
  match fuel with
  | O => None
  | S fuel =>
      if Z.land ht_size (uwrap 32 (ht_size - 1)) =? 0
      then turn_off_loop fuel (Z.land ht_size (uwrap 32 (ht_size - 1)))
      else Some ht_size
  end.

Definition mht_calculate_htsize (ht_size : Z) : option Z :=
  if ht_size >? prime_at (NPRIMES - 1) then
    if negb (Z.land ht_size (uwrap 32 (ht_size - 1)) =? 0) then
      ht_size ← turn_off_loop 33 ht_size; Some (uwrap 32 (Z.shiftl ht_size 1))
    else Some ht_size
  else
    middle ← prime_search 171 ht_size 0 0 (NPRIMES - 1);
    Some (prime_at (if (ht_size >? prime_at middle) && (middle <? NPRIMES - 1)
                    then middle + 1 else middle)).
