(* ===== verification/MemoryHash.v ===== *)
(** * Memory hash table (src/base/memory_hash.c)

    The table with its three kinds of linked structures: a singly linked chain
    per slot, the doubly linked list of the active entries, and the doubly
    linked list in order of use.  Pointers to entries are integers, 0 for NULL;
    keys and data are pointers of the caller.  The entries live in the heap of
    the table: reading through a pointer that is not allocated gives None, and
    so does an index outside a vector and a loop that does not end. *)
From Stdlib Require Import ZArith Lia ZifyBool SpecFloat.
From stdpp Require Import base list numbers gmap.
From S2P Require Import Prelude Floats HashFunctions.

Definition NULL : Z := 0.

(** ** Data *)

(** The pairs of fields act_next and act_prev, lru_next and lru_prev. *)
Record links := mkLinks { l_next : Z; l_prev : Z }.

Record HENTRY := mkHentry {
  h_act : links;
  h_lru : links;
  h_next : Z;
  h_key : Z;
  h_data : Z }.

(** The pairs of fields act_head and act_tail, lru_head and lru_tail. *)
Record ends := mkEnds { l_head : Z; l_tail : Z }.

(** [t_heap] and [t_brk] are the entries allocated from the fixed heap heap_id
    and the address of the next one. *)
Record MHT_TABLE := mkTable {
  t_heap : gmap Z HENTRY;
  t_brk : Z;
  t_table : list Z;
  t_act : ends;
  t_lru : ends;
  t_prealloc : Z;
  t_size : Z;
  t_rehash_at : Z;
  t_nentries : Z;
  t_nprealloc : Z;
  t_ncollisions : Z;
  t_build_lru : bool }.

Definition set_next (n : Z) (h : HENTRY) : HENTRY :=
  mkHentry (h_act h) (h_lru h) n (h_key h) (h_data h).
Definition set_kv (k d : Z) (h : HENTRY) : HENTRY :=
  mkHentry (h_act h) (h_lru h) (h_next h) k d.

(** The two doubly linked lists. *)
Inductive LIST := ACT | LRU.

Definition get_links (w : LIST) (h : HENTRY) : links :=
  match w with ACT => h_act h | LRU => h_lru h end.

Definition set_links (w : LIST) (k : links) (h : HENTRY) : HENTRY :=
  match w with
  | ACT => mkHentry k (h_lru h) (h_next h) (h_key h) (h_data h)
  | LRU => mkHentry (h_act h) k (h_next h) (h_key h) (h_data h)
  end.

Definition set_heap (m : gmap Z HENTRY) (ht : MHT_TABLE) : MHT_TABLE :=
  mkTable m (t_brk ht) (t_table ht) (t_act ht) (t_lru ht) (t_prealloc ht) (t_size ht)
    (t_rehash_at ht) (t_nentries ht) (t_nprealloc ht) (t_ncollisions ht) (t_build_lru ht).

Definition set_list (w : LIST) (m : gmap Z HENTRY) (e : ends) (ht : MHT_TABLE) : MHT_TABLE :=
  mkTable m (t_brk ht) (t_table ht)
    (match w with ACT => e | LRU => t_act ht end) (match w with ACT => t_lru ht | LRU => e end)
    (t_prealloc ht) (t_size ht) (t_rehash_at ht) (t_nentries ht) (t_nprealloc ht)
    (t_ncollisions ht) (t_build_lru ht).

Definition get_ends (w : LIST) (ht : MHT_TABLE) : ends :=
  match w with ACT => t_act ht | LRU => t_lru ht end.

(** ** Doubly linked lists *)

Section Lists.
Context (w : LIST).
Implicit Types m : gmap Z HENTRY.

(** p->next = n and p->prev = n. *)
Definition put_next (m : gmap Z HENTRY) (p n : Z) : option (gmap Z HENTRY) :=
  h ← m !! p; Some (<[p := set_links w (mkLinks n (l_prev (get_links w h))) h]> m).
Definition put_prev (m : gmap Z HENTRY) (p n : Z) : option (gmap Z HENTRY) :=
  h ← m !! p; Some (<[p := set_links w (mkLinks (l_next (get_links w h)) n) h]> m).

Definition next_of (m : gmap Z HENTRY) (p : Z) : option Z :=
  h ← m !! p; Some (l_next (get_links w h)).
Definition prev_of (m : gmap Z HENTRY) (p : Z) : option Z :=
  h ← m !! p; Some (l_prev (get_links w h)).

(** The new entry becomes the tail. *)
Definition list_append (m : gmap Z HENTRY) (e : ends) (p : Z)
    : option (gmap Z HENTRY * ends) :=
  m ← put_next m p NULL;
  m ← put_prev m p (l_tail e);
  m ← (if negb (l_tail e =? NULL) then put_next m (l_tail e) p else Some m);
  Some (m, mkEnds (if l_head e =? NULL then p else l_head e) p).

(** The removal in mht_rem. *)
Definition list_remove (m : gmap Z HENTRY) (e : ends) (p : Z)
    : option (gmap Z HENTRY * ends) :=
  if l_head e =? l_tail e then Some (m, mkEnds NULL NULL)
  else if l_head e =? p then
    n ← next_of m p;
    m ← put_prev m n NULL;
    Some (m, mkEnds n (l_tail e))
  else if l_tail e =? p then
    q ← prev_of m p;
    m ← put_next m q NULL;
    Some (m, mkEnds (l_head e) q)
  else
    q ← prev_of m p;
    n ← next_of m p;
    m ← put_next m q n;
    n ← next_of m p;
    q ← prev_of m p;
    m ← put_prev m n q;
    Some (m, e).
End Lists.

(** The LRU list moves an entry that was used to its end. *)
Definition mht_adjust_lru_list (ht : MHT_TABLE) (p : Z) : option MHT_TABLE :=
  let e := t_lru ht in
  if t_build_lru ht && negb (l_tail e =? p) then
    let m := t_heap ht in
    n ← next_of LRU m p;
    q ← prev_of LRU m p;
    let head := if l_head e =? p then n else l_head e in
    m ← put_prev LRU m n q;
    q ← prev_of LRU m p;
    m ← (if negb (q =? NULL) then n ← next_of LRU m p; put_next LRU m q n else Some m);
    m ← put_next LRU m (l_tail e) p;
    m ← put_prev LRU m p (l_tail e);
    m ← put_next LRU m p NULL;
    Some (set_list LRU m (mkEnds head p) ht)
  else Some ht.

(** ** Creation *)

(** 0.7f and 1.3f: the quotients of exact numbers, rounded once. *)
Definition MHT_REHASH_TRESHOLD : spec_float := SFdiv 24 128 (float_of 7) (float_of 10).
Definition MHT_REHASH_FACTOR : spec_float := SFdiv 24 128 (float_of 13) (float_of 10).

(** The number of entries at which a table of [n] slots is rehashed. *)
Definition growth_at (n : Z) : Z :=
  float_to_uint (SFmul 24 128 (float_of n) MHT_REHASH_TRESHOLD).

Definition SIZEOF_PTR : Z := 8.

(** The number of pointers that fit into the vector of a given number of
    slots, whose size in bytes is an unsigned int. *)
Definition vector_length (slots : Z) : Z := uwrap 32 (slots * SIZEOF_PTR) / SIZEOF_PTR.

(** What the allocations of a call answer: malloc of the header, the fixed
    heap, malloc of the vector, and db_fixed_alloc of an entry. *)
Record ALLOC := mkAlloc { a_header : bool; a_heap : bool; a_vector : bool; a_entry : bool }.

(** The result is None where the initialisation runs over the vector, Some None
    for the answer NULL. *)
Definition mht_create (al : ALLOC) (est_size : Z) : option (option MHT_TABLE) :=
  let est_size := if est_size <=? 0 then 2 else est_size in
  ht_estsize ← mht_calculate_htsize (uwrap 32 est_size);
  if negb (a_header al) then Some None
  else if negb (a_heap al) then Some None
  else if negb (a_vector al) then Some None
  else if vector_length ht_estsize <? ht_estsize then None
  else
    Some (Some (mkTable ∅ 1 (replicate (Z.to_nat ht_estsize) NULL)
                  (mkEnds NULL NULL) (mkEnds NULL NULL) NULL ht_estsize
                  (growth_at ht_estsize) 0 0 0 false)).

(** ** Operations *)

Section Mht.
(** The functions given to mht_create, and what a fresh entry contains. *)
Context (hash_func : Z -> Z -> Z) (cmp_func : Z -> Z -> bool) (junk : HENTRY).

(** The slot of a key in a vector of the given size. *)
Definition mht_slot (key size : Z) : Z :=
  let hash := uwrap 32 (hash_func key size) in
  if hash >=? size then hash mod size else hash.

Definition key_match (key : Z) (h : HENTRY) : bool :=
  (h_key h =? key) || cmp_func (h_key h) key.

Definition key_data_match (key data : Z) (h : HENTRY) : bool :=
  key_match key h && (h_data h =? data).

(** A chain visits every entry of the heap at most once, so that one more
    step than there are entries is enough. *)
Definition chain_fuel (m : gmap Z HENTRY) : nat := S (size m).

(** The search of a chain: the entry before and the entry found, or NULL. *)
Fixpoint chain_search (f : HENTRY -> bool) (fuel : nat) (m : gmap Z HENTRY)
    (prev_hentry hentry : Z) : option (Z * Z) :=
  match fuel with
  | O => None
  | S fuel =>
      if hentry =? NULL then Some (prev_hentry, NULL)
      else
        h ← m !! hentry;
        if f h then Some (prev_hentry, hentry)
        else chain_search f fuel m hentry (h_next h)
  end.

Definition mht_search (f : HENTRY -> bool) (ht : MHT_TABLE) (key : Z) : option (Z * Z) :=
  first ← t_table ht !! Z.to_nat (mht_slot key (t_size ht));
  chain_search f (chain_fuel (t_heap ht)) (t_heap ht) NULL first.

(** The pointer ht is not NULL, as the assertions require. *)
Definition mht_get (ht : MHT_TABLE) (key : Z) : option (Z * MHT_TABLE) :=
  if key =? NULL then Some (NULL, ht)
  else
    '(_, hentry) ← mht_search (key_match key) ht key;
    if hentry =? NULL then Some (NULL, ht)
    else
      ht ← mht_adjust_lru_list ht hentry;
      h ← t_heap ht !! hentry;
      Some (h_data h, ht).

(** [last] is None for a NULL argument, otherwise the pointer it points to. *)
Fixpoint get2_loop (key : Z) (fuel : nat) (m : gmap Z HENTRY) (hentry : Z)
    (last : option Z) : option (Z * option Z) :=
  match fuel with
  | O => None
  | S fuel =>
      if hentry =? NULL then Some (NULL, last)
      else
        h ← m !! hentry;
        if key_match key h then
          match last with
          | None => Some (h_data h, last)
          | Some l =>
              if l =? NULL then Some (h_data h, Some hentry)
              else if l =? hentry then get2_loop key fuel m (h_next h) (Some NULL)
              else get2_loop key fuel m (h_next h) last
          end
        else get2_loop key fuel m (h_next h) last
  end.

Definition mht_get2 (ht : MHT_TABLE) (key : Z) (last : option Z) : option (Z * option Z) :=
  if key =? NULL then Some (NULL, last)
  else
    first ← t_table ht !! Z.to_nat (mht_slot key (t_size ht));
    get2_loop key (chain_fuel (t_heap ht)) (t_heap ht) first last.

(** *** Rehashing *)

(** The new size mht_rehash starts from: the sum of 1.0 and a float is
    computed in double precision and rounded to a float. *)
Definition rehash_estimate (ht : MHT_TABLE) : Z :=
  let q := SFdiv 24 128 (float_of (t_ncollisions ht)) (float_of (t_nentries ht)) in
  let sum := SFadd 53 1024 (binary_normalize 53 1024 1 0 false) q in
  let rehash_factor := double_to_float sum in
  if SFltb rehash_factor MHT_REHASH_FACTOR
  then float_to_uint (SFmul 24 128 (float_of (t_size ht)) MHT_REHASH_FACTOR)
  else float_to_uint (SFmul 24 128 (float_of (t_size ht)) rehash_factor).

(** One chain: every entry is put in front of the chain of its new slot. *)
Fixpoint rehash_chain (est_size : Z) (fuel : nat) (hentry : Z)
    (st : gmap Z HENTRY * list Z * Z) : option (gmap Z HENTRY * list Z * Z) :=
  match fuel with
  | O => None
  | S fuel =>
      if hentry =? NULL then Some st
      else
        let '(m, vec, ncollisions) := st in
        h ← m !! hentry;
        let hash := mht_slot (h_key h) est_size in
        first ← vec !! Z.to_nat hash;
        rehash_chain est_size fuel (h_next h)
          (<[hentry := set_next first h]> m, <[Z.to_nat hash := hentry]> vec,
           if negb (first =? NULL) then uwrap 32 (ncollisions + 1) else ncollisions)
  end.

(** All chains of the old vector. *)
Fixpoint rehash_loop (est_size : Z) (old : list Z)
    (st : gmap Z HENTRY * list Z * Z) : option (gmap Z HENTRY * list Z * Z) :=
  match old with
  | [] => Some st
  | hentry :: old =>
      st ← rehash_chain est_size (chain_fuel st.1.1) hentry st;
      rehash_loop est_size old st
  end.

Definition mht_rehash (al : ALLOC) (ht : MHT_TABLE) : option (Z * MHT_TABLE) :=
  est_size ← mht_calculate_htsize (rehash_estimate ht);
  if negb (a_vector al) then Some (ER_OUT_OF_VIRTUAL_MEMORY, ht)
  else
    '(m, vec, ncollisions) ←
      rehash_loop est_size (t_table ht)
        (t_heap ht, replicate (Z.to_nat (vector_length est_size)) NULL, 0);
    Some (NO_ERROR,
          mkTable m (t_brk ht) vec (t_act ht) (t_lru ht) (t_prealloc ht) est_size
            (uwrap 32 (float_to_int (SFmul 24 128 (float_of est_size) MHT_REHASH_TRESHOLD)))
            (t_nentries ht) (t_nprealloc ht) ncollisions (t_build_lru ht)).

(** *** Insertion *)

(** An entry saved for insertions or a new one; NULL without memory. *)
Definition take_entry (al : ALLOC) (ht : MHT_TABLE) : option (Z * MHT_TABLE) :=
  if t_nprealloc ht >? 0 then
    let hentry := t_prealloc ht in
    h ← t_heap ht !! hentry;
    Some (hentry,
          mkTable (t_heap ht) (t_brk ht) (t_table ht) (t_act ht) (t_lru ht) (h_next h)
            (t_size ht) (t_rehash_at ht) (t_nentries ht) (t_nprealloc ht - 1)
            (t_ncollisions ht) (t_build_lru ht))
  else if a_entry al then
    Some (t_brk ht,
          mkTable (<[t_brk ht := junk]> (t_heap ht)) (t_brk ht + 1) (t_table ht) (t_act ht)
            (t_lru ht) (t_prealloc ht) (t_size ht) (t_rehash_at ht) (t_nentries ht)
            (t_nprealloc ht) (t_ncollisions ht) (t_build_lru ht))
  else Some (NULL, ht).

(** The links of a new entry: the LRU list, the list of the active entries
    and the chain of its slot. *)
Definition link_list (w : LIST) (hentry : Z) (ht : MHT_TABLE) : option MHT_TABLE :=
  '(m, e) ← list_append w (t_heap ht) (get_ends w ht) hentry; Some (set_list w m e ht).

Definition link_chain (hash hentry : Z) (ht : MHT_TABLE) : option MHT_TABLE :=
  first ← t_table ht !! Z.to_nat hash;
  h ← t_heap ht !! hentry;
  Some (mkTable (<[hentry := set_next first h]> (t_heap ht)) (t_brk ht)
          (<[Z.to_nat hash := hentry]> (t_table ht)) (t_act ht) (t_lru ht) (t_prealloc ht)
          (t_size ht) (t_rehash_at ht) (uwrap 32 (t_nentries ht + 1)) (t_nprealloc ht)
          (if negb (first =? NULL) then uwrap 32 (t_ncollisions ht + 1)
           else t_ncollisions ht) (t_build_lru ht)).

Definition link_entry (key data hash hentry : Z) (ht : MHT_TABLE) : option MHT_TABLE :=
  ht ← (if t_build_lru ht then link_list LRU hentry ht else Some ht);
  h ← t_heap ht !! hentry;
  let ht := set_heap (<[hentry := set_kv key data h]> (t_heap ht)) ht in
  ht ← link_list ACT hentry ht;
  link_chain hash hentry ht.

(** nentries > rehash_at && ncollisions > nentries * 0.05; the second
    comparison is made in double precision. *)
Definition must_rehash (ht : MHT_TABLE) : bool :=
  let dbl n := binary_normalize 53 1024 n 0 false in
  let five_percent := SFdiv 53 1024 (dbl 5) (dbl 100) in
  (t_nentries ht >? t_rehash_at ht)
  && SFltb (SFmul 53 1024 (dbl (t_nentries ht)) five_percent) (dbl (t_ncollisions ht)).

(** The insertion of a new entry, as both insertion functions make it: the
    entry, or NULL without memory, and the answer of mht_rehash. *)
Definition add_entry (al : ALLOC) (ht : MHT_TABLE) (key data : Z)
    : option (Z * Z * MHT_TABLE) :=
  '(hentry, ht1) ← take_entry al ht;
  if hentry =? NULL then Some (NULL, NO_ERROR, ht1)
  else
    ht2 ← link_entry key data (mht_slot key (t_size ht)) hentry ht1;
    if must_rehash ht2 then
      '(error, ht3) ← mht_rehash al ht2; Some (hentry, error, ht3)
    else Some (hentry, NO_ERROR, ht2).

Definition MHT_OPT_DEFAULT : Z := 0.
Definition MHT_OPT_KEEP_KEY : Z := 1.
Definition MHT_OPT_INSERT_ONLY : Z := 2.

(** hentry->key = key unless the key is kept, hentry->data = data. *)
Definition replace_entry (key data opt hentry : Z) (ht : MHT_TABLE) : option MHT_TABLE :=
  h ← t_heap ht !! hentry;
  let k := if Z.land opt MHT_OPT_KEEP_KEY =? 0 then key else h_key h in
  Some (set_heap (<[hentry := set_kv k data h]> (t_heap ht)) ht).

Definition search_opt (f : HENTRY -> bool) (key opt : Z) (ht : MHT_TABLE) : option (Z * Z) :=
  if Z.land opt MHT_OPT_INSERT_ONLY =? 0 then mht_search f ht key else Some (NULL, NULL).

Definition mht_put_internal (al : ALLOC) (ht : MHT_TABLE) (key data opt : Z)
    : option (Z * MHT_TABLE) :=
  '(_, found) ← search_opt (key_match key) key opt ht;
  if negb (found =? NULL) then
    ht ← replace_entry key data opt found ht; Some (key, ht)
  else
    '(hentry, error, ht) ← add_entry al ht key data;
    if hentry =? NULL then Some (NULL, ht)
    else if error <? 0 then Some (NULL, ht)
    else Some (key, ht).

Definition mht_put_new (al : ALLOC) (ht : MHT_TABLE) (key data : Z) :=
  mht_put_internal al ht key data MHT_OPT_INSERT_ONLY.
Definition mht_put_data (al : ALLOC) (ht : MHT_TABLE) (key data : Z) :=
  mht_put_internal al ht key data MHT_OPT_KEEP_KEY.
Definition mht_put (al : ALLOC) (ht : MHT_TABLE) (key data : Z) :=
  mht_put_internal al ht key data MHT_OPT_DEFAULT.

Definition mht_put2_internal (al : ALLOC) (ht : MHT_TABLE) (key data opt : Z)
    : option (Z * MHT_TABLE) :=
  '(_, found) ← search_opt (key_data_match key data) key opt ht;
  if negb (found =? NULL) then
    ht ← replace_entry key data opt found ht; Some (key, ht)
  else
    '(hentry, _, ht) ← add_entry al ht key data;
    if hentry =? NULL then Some (NULL, ht) else Some (key, ht).

Definition mht_put2_new (al : ALLOC) (ht : MHT_TABLE) (key data : Z) :=
  mht_put2_internal al ht key data MHT_OPT_INSERT_ONLY.

(** *** Removal *)

(** The caller's functions are called with the key and data of an entry; they
    answer an error code and change the caller's own state. *)
Context {A : Type}.

Definition unlink_list (w : LIST) (hentry : Z) (ht : MHT_TABLE) : option MHT_TABLE :=
  '(m, e) ← list_remove w (t_heap ht) (get_ends w ht) hentry; Some (set_list w m e ht).

(** The removal from the chain: the heap, the vector and whether the slot has
    one collision less. *)
Definition chain_unlink (m : gmap Z HENTRY) (table : list Z) (hash : nat)
    (prev_hentry next : Z) : option (gmap Z HENTRY * list Z * bool) :=
  if negb (prev_hentry =? NULL) then
    q ← m !! prev_hentry; Some (<[prev_hentry := set_next next q]> m, table, true)
  else
    _ ← table !! hash; Some (m, <[hash := next]> table, negb (next =? NULL)).

(** The entry is saved for insertions. *)
Definition unlink_chain (hash prev_hentry hentry : Z) (ht : MHT_TABLE) : option MHT_TABLE :=
  h ← t_heap ht !! hentry;
  '(m, vec, collision) ←
    chain_unlink (t_heap ht) (t_table ht) (Z.to_nat hash) prev_hentry (h_next h);
  h ← m !! hentry;
  Some (mkTable (<[hentry := set_next (t_prealloc ht) h]> m) (t_brk ht) vec (t_act ht)
          (t_lru ht) hentry (t_size ht) (t_rehash_at ht) (uwrap 32 (t_nentries ht - 1))
          (uwrap 32 (t_nprealloc ht + 1))
          (if collision : bool then uwrap 32 (t_ncollisions ht - 1) else t_ncollisions ht)
          (t_build_lru ht)).

(** What mht_rem and mht_rem2 do with the entry they find. *)
Definition rem_entry (hash prev_hentry hentry : Z) (ht : MHT_TABLE) : option MHT_TABLE :=
  ht ← (if t_build_lru ht then unlink_list LRU hentry ht else Some ht);
  ht ← unlink_list ACT hentry ht;
  unlink_chain hash prev_hentry hentry ht.

Definition call_func (rem_func : option (Z -> Z -> A -> Z * A)) (h : HENTRY) (a : A) : Z * A :=
  match rem_func with
  | Some f => f (h_key h) (h_data h) a
  | None => (NO_ERROR, a)
  end.

Definition rem_found (f : HENTRY -> bool) (rem_func : option (Z -> Z -> A -> Z * A))
    (ht : MHT_TABLE) (key : Z) (a : A) : option (Z * MHT_TABLE * A) :=
  '(prev_hentry, hentry) ← mht_search f ht key;
  if hentry =? NULL then Some (ER_FAILED, ht, a)
  else
    h ← t_heap ht !! hentry;
    let '(error_code, a) := call_func rem_func h a in
    if negb (error_code =? NO_ERROR) then Some (error_code, ht, a)
    else
      ht ← rem_entry (mht_slot key (t_size ht)) prev_hentry hentry ht;
      Some (NO_ERROR, ht, a).

Definition mht_rem (ht : MHT_TABLE) (key : Z)
    (rem_func : option (Z -> Z -> A -> Z * A)) (a : A) : option (Z * MHT_TABLE * A) :=
  rem_found (key_match key) rem_func ht key a.

Definition mht_rem2 (ht : MHT_TABLE) (key data : Z)
    (rem_func : option (Z -> Z -> A -> Z * A)) (a : A) : option (Z * MHT_TABLE * A) :=
  rem_found (key_data_match key data) rem_func ht key a.

(** *** Clearing *)

(** One chain: the state of the clearing is the heap with the list of saved
    entries and its length.  An error ends the function. *)
Definition CLEAR : Type := gmap Z HENTRY * Z * Z.

Fixpoint clear_chain (rem_func : option (Z -> Z -> A -> Z * A)) (fuel : nat) (hentry : Z)
    (st : CLEAR) (a : A) : option (Z * CLEAR * A) :=
  match fuel with
  | O => None
  | S fuel =>
      if hentry =? NULL then Some (NO_ERROR, st, a)
      else
        let '(m, prealloc, nprealloc) := st in
        h ← m !! hentry;
        let '(error_code, a) := call_func rem_func h a in
        if negb (error_code =? NO_ERROR) then Some (error_code, st, a)
        else
          let h' := match rem_func with Some _ => set_kv NULL NULL h | None => h end in
          clear_chain rem_func fuel (h_next h)
            (<[hentry := set_next prealloc h']> m, hentry, uwrap 32 (nprealloc + 1)) a
  end.

(** The slots from the first one on; slots that are done are set to NULL. *)
Fixpoint clear_loop (rem_func : option (Z -> Z -> A -> Z * A)) (vec : list Z)
    (st : CLEAR) (a : A) : option (Z * list Z * CLEAR * A) :=
  match vec with
  | [] => Some (NO_ERROR, [], st, a)
  | hentry :: rest =>
      '(error_code, st, a) ← clear_chain rem_func (chain_fuel st.1.1) hentry st a;
      if negb (error_code =? NO_ERROR) then Some (error_code, vec, st, a)
      else
        '(error_code, rest, st, a) ← clear_loop rem_func rest st a;
        Some (error_code, NULL :: rest, st, a)
  end.

Definition mht_clear (ht : MHT_TABLE) (rem_func : option (Z -> Z -> A -> Z * A)) (a : A)
    : option (Z * MHT_TABLE * A) :=
  '(error_code, vec, st, a) ←
    clear_loop rem_func (t_table ht) (t_heap ht, t_prealloc ht, t_nprealloc ht) a;
  let '(m, prealloc, nprealloc) := st in
  if negb (error_code =? NO_ERROR) then
    Some (error_code,
          mkTable m (t_brk ht) vec (t_act ht) (t_lru ht) prealloc (t_size ht)
            (t_rehash_at ht) (t_nentries ht) nprealloc (t_ncollisions ht) (t_build_lru ht), a)
  else
    Some (NO_ERROR,
          mkTable m (t_brk ht) vec (mkEnds NULL NULL) (mkEnds NULL NULL) prealloc (t_size ht)
            (t_rehash_at ht) 0 nprealloc 0 (t_build_lru ht), a).

(** *** Iteration *)

(** The function mapped over the entries may change the table. *)
Fixpoint map_loop (map_func : Z -> Z -> MHT_TABLE * A -> option (Z * (MHT_TABLE * A)))
    (fuel : nat) (hentry : Z) (st : MHT_TABLE * A) : option (Z * (MHT_TABLE * A)) :=
  match fuel with
  | O => None
  | S fuel =>
      if hentry =? NULL then Some (NO_ERROR, st)
      else
        h ← t_heap st.1 !! hentry;
        let next := l_next (h_act h) in
        '(error_code, st) ← map_func (h_key h) (h_data h) st;
        if negb (error_code =? NO_ERROR) then Some (error_code, st)
        else map_loop map_func fuel next st
  end.

Definition mht_map (ht : MHT_TABLE)
    (map_func : Z -> Z -> MHT_TABLE * A -> option (Z * (MHT_TABLE * A))) (a : A)
    : option (Z * (MHT_TABLE * A)) :=
  map_loop map_func (chain_fuel (t_heap ht)) (l_head (t_act ht)) (ht, a).

Definition mht_map_no_key (ht : MHT_TABLE)
    (map_func : Z -> MHT_TABLE * A -> option (Z * (MHT_TABLE * A))) (a : A)
    : option (Z * (MHT_TABLE * A)) :=
  map_loop (fun _ => map_func) (chain_fuel (t_heap ht)) (l_head (t_act ht)) (ht, a).

Definition mht_count (ht : MHT_TABLE) : Z := t_nentries ht.
End Mht.
