(* ===== verification/MemoryHashSize.v ===== *)
(** * Memory hash table: size and growth

    The size of a table is positive for every request.  Bounds of the floating-point expressions that decide when a table grows
    and to what size, by the real values of the floats.  They give a bound on
    the number of entries under which the vector of a table keeps fewer than
    2 ^ 29 slots. *)
From Stdlib Require Import ZArith Lia ZifyBool SpecFloat Reals Lra.
From stdpp Require Import base list numbers gmap.
From S2P Require Import Prelude Floats HashFunctions MemoryHash.

(** ** Size of a table *)

Lemma prime_at_pos i : 0 <= i < NPRIMES -> 0 < prime_at i < 2 ^ 15.
Proof.
  intros Hi. unfold prime_at.
  assert (Forall (fun p => 0 < p < 2 ^ 15) mht_Primes) as Hp.
  { apply (bool_decide_unpack _). by vm_compute. }
  rewrite Forall_forall in Hp. apply Hp.
  apply list_elem_of_In, nth_In. change (length mht_Primes) with 170%nat. unfold NPRIMES in Hi. lia.
Qed.

(** The binary search ends, inside the table. *)
Lemma prime_search_ok fuel x middle left right :
  0 <= left -> right < NPRIMES -> 0 <= middle < NPRIMES ->
  (Z.to_nat (right + 1 - left) < fuel)%nat ->
  exists i, prime_search fuel x middle left right = Some i /\ 0 <= i < NPRIMES.
Proof.
  revert middle left right. induction fuel as [|fuel IH]; intros middle left right Hl Hr Hm Hf; [lia|].
  simpl. destruct (left <=? right) eqn:E; [|by eauto].
  assert (left <= CEIL_PTVDIV (left + right) 2 <= right) as Hc.
  { unfold CEIL_PTVDIV. zcase; [lia|]. rewrite Z.quot_div_nonneg by lia. dlia. }
  repeat zcase; [eexists; split; [done|lia]|apply IH; lia..].
Qed.

Lemma turn_off_none fuel x :
  (Z.land x (uwrap 32 (x - 1)) =? 0) = false -> turn_off_loop (S fuel) x = Some x.
Proof. cbn [turn_off_loop]. by intros ->. Qed.

(** For a number with more than one bit the loop that turns bits off does not
    run: the number is doubled. *)
Lemma mht_calculate_htsize_ok x :
  0 <= x < 2 ^ 32 -> exists n, mht_calculate_htsize x = Some n /\ 0 < n < 2 ^ 32.
Proof.
  intros Hx. unfold mht_calculate_htsize. destruct (x >? prime_at (NPRIMES - 1)) eqn:E.
  - assert (0 < x) by (pose proof (prime_at_pos (NPRIMES - 1)); unfold NPRIMES in *; lia).
    destruct (Z.land x (uwrap 32 (x - 1)) =? 0) eqn:E2; cbn [negb]; [eexists; split; [done|lia]|].
    rewrite turn_off_none by done. obind. eexists. split; [done|].
    pose proof (uwrap_range 32 (Z.shiftl x 1) ltac:(lia)). split; [|lia].
    rewrite Z.shiftl_mul_pow2 in * by lia. unfold uwrap in *.
    assert ((x * 2 ^ 1) mod 2 ^ 32 <> 0); [|lia]. intros Hz.
    assert (x = 2 ^ 31) as -> by dlia. vm_compute in E2. done.
  - destruct (prime_search_ok 171 x 0 0 (NPRIMES - 1)) as (i & -> & Hi);
      [unfold NPRIMES; simpl; lia..|]. obind.
    eexists. split; [done|].
    match goal with |- 0 < prime_at ?j < _ => pose proof (prime_at_pos j) end.
    assert (2 ^ 15 < 2 ^ 32) by done. zcase; lia.
Qed.

Lemma rehash_estimate_range ht : 0 <= rehash_estimate ht < 2 ^ 32.
Proof. unfold rehash_estimate. zcase; apply float_to_uint_range. Qed.

(** The vector of the new size has fewer than 2 ^ 32 bytes. *)
Definition rehash_fits (ht : MHT_TABLE) : Prop :=
  forall n, mht_calculate_htsize (rehash_estimate ht) = Some n -> n < 2 ^ 29.

(** ** The expressions of the table *)

(** The constants 0.7f and 1.3f. *)
Lemma treshold_value : exists x, is_val MHT_REHASH_TRESHOLD x /\ (69 / 100 <= x <= 71 / 100)%R.
Proof.
  exists (fval 11744051 (-24)). split; [by exists 11744051%positive, (-24)|].
  unfold fval, p2. simpl. lra.
Qed.

Lemma factor_value : exists x, is_val MHT_REHASH_FACTOR x /\ (1 <= x <= 131 / 100)%R.
Proof.
  exists (fval 10905190 (-23)). split; [by exists 10905190%positive, (-23)|].
  unfold fval, p2. simpl. lra.
Qed.

(** The product of a size and a factor, as an integer. *)
Lemma size_product n f x :
  0 < n < 2 ^ 29 -> is_val f x -> (/ 2 <= x <= 3)%R ->
  exists k, float_trunc (SFmul 24 128 (float_of n) f) = Some k /\ 0 <= k < 2 ^ 31
    /\ (IZR n * x * (1 - 3 / 1000000) - 1 <= IZR k <= IZR n * x * (1 + 3 / 1000000))%R.
Proof.
  intros Hn Hf Hx. destruct (float_of_value n ltac:(lia)) as (y & Hy & Hyb).
  assert (1 <= IZR n)%R as Hn1 by (apply IZR_le; lia).
  assert (IZR n <= 536870912)%R as Hn2 by (apply IZR_le; lia).
  assert (/ 3 <= y * x <= 2000000000)%R as Hyx by nra.
  pose proof p2_60. destruct (mul_value 24 128 format32 (float_of n) f y x Hy Hf) as (z & Hz & Hzb); [lra|].
  destruct (float_trunc_value _ _ Hz) as (k & -> & Hk & Hkb). pose proof eps32.
  exists k. split; [done|].
  assert (y * x * (1 - / 1000000) <= z <= y * x * (1 + / 1000000))%R as Hz' by nra.
  split.
  - split; [done|]. apply lt_IZR. lra.
  - assert (IZR n * x * (1 - / 1000000) <= y * x <= IZR n * x * (1 + / 1000000))%R by nra.
    assert (0 < IZR n * x)%R by nra. nra.
Qed.

Lemma growth_at_int n :
  0 < n < 2 ^ 29 ->
  uwrap 32 (float_to_int (SFmul 24 128 (float_of n) MHT_REHASH_TRESHOLD)) = growth_at n.
Proof.
  intros Hn. destruct treshold_value as (x & Hx & Hb).
  destruct (size_product n _ x Hn Hx ltac:(lra)) as (k & Hk & Hr & _).
  unfold growth_at, float_to_int, float_to_uint. rewrite Hk.
  rewrite !(proj2 (andb_true_iff _ _)) by lia. done.
Qed.

Lemma growth_at_lower n : 0 < n < 2 ^ 29 -> 68 * n - 100 <= 100 * growth_at n.
Proof.
  intros Hn. destruct treshold_value as (x & Hx & Hb).
  destruct (size_product n _ x Hn Hx ltac:(lra)) as (k & Hk & Hr & Hkb).
  unfold growth_at, float_to_uint. rewrite Hk.
  rewrite (proj2 (andb_true_iff _ _)) by lia. rewrite uwrap_small by lia.
  apply le_IZR. rewrite minus_IZR, !mult_IZR.
  assert (1 <= IZR n)%R by (apply IZR_le; lia). nra.
Qed.

(** 1 + ncollisions / nentries as a float is hardly more than 2. *)
Lemma rehash_factor_value c n f :
  0 <= c <= n -> 0 < n < 2 ^ 32 ->
  f = double_to_float (SFadd 53 1024 (binary_normalize 53 1024 1 0 false)
                         (SFdiv 24 128 (float_of c) (float_of n))) ->
  exists x, is_val f x /\ (1 / 2 <= x <= 2 + / 10000)%R.
Proof.
  intros Hc Hn ->. pose proof p2_60 as H60. pose proof p2_40 as H40. pose proof eps32. pose proof eps64.
  destruct (float_of_value n ltac:(lia)) as (y & Hy & Hyb).
  assert (1 <= IZR n)%R as Hn1 by (apply IZR_le; lia).
  assert (IZR n <= 4294967296)%R as Hn2 by (apply IZR_le; lia).
  assert (exists m e, SFadd 53 1024 (binary_normalize 53 1024 1 0 false)
            (SFdiv 24 128 (float_of c) (float_of n)) = S754_finite false m e
          /\ (3 / 4 <= fval (Zpos m) e <= 2 + / 20000)%R) as (m & e & -> & Hv).
  { destruct (Z.eq_dec c 0) as [->|Hc0].
    - destruct Hy as (my & ey & -> & _). eexists _, _. split; [reflexivity|].
      unfold fval, p2. simpl. lra.
    - destruct (float_of_value c ltac:(lia)) as (x & Hx & Hxb).
      assert (1 <= IZR c)%R as Hc1 by (apply IZR_le; lia).
      assert (IZR c <= IZR n)%R as Hcn by (apply IZR_le; lia).
      destruct (div_value 24 128 format32 _ _ x y Hx Hy) as (z & Hz & Hz0 & Hzb); [lra|nra|].
      assert (z <= 1 + / 100000)%R as Hz1 by nra.
      assert (is_val (binary_normalize 53 1024 1 0 false) 1) as H1.
      { exists 4503599627370496%positive, (-52). split; [reflexivity|]. unfold fval, p2. simpl. lra. }
      destruct (add_value 53 1024 format64 _ _ 1 z H1 Hz) as (w & (m & e & -> & <-) & Hwb); [lra|].
      eexists _, _. split; [done|]. nra. }
  destruct (binary_round_value 24 128 format32 m e) as (w & Hw & Hwb); [lra|].
  exists w. split; [done|]. nra.
Qed.

(** The size a table grows to is hardly more than twice its size. *)
Lemma rehash_estimate_upper ht :
  0 < t_size ht < 2 ^ 29 -> 0 <= t_ncollisions ht <= t_nentries ht ->
  0 < t_nentries ht < 2 ^ 32 -> 1000 * rehash_estimate ht <= 2001 * t_size ht.
Proof.
  intros Hs Hc Hn. unfold rehash_estimate.
  destruct (rehash_factor_value _ _ _ Hc Hn eq_refl) as (x & Hx & Hxb).
  destruct factor_value as (y & Hy & Hyb).
  assert (forall f v, is_val f v -> (1 / 2 <= v <= 2 + / 10000)%R ->
            1000 * float_to_uint (SFmul 24 128 (float_of (t_size ht)) f) <= 2001 * t_size ht) as Hf.
  { intros f v Hfv Hvb. destruct (size_product (t_size ht) f v Hs Hfv ltac:(lra)) as (k & Hk & Hr & Hkb).
    unfold float_to_uint. rewrite Hk, (proj2 (andb_true_iff _ _)) by lia. rewrite uwrap_small by lia.
    apply le_IZR. rewrite !mult_IZR.
    assert (1 <= IZR (t_size ht))%R by (apply IZR_le; lia). nra. }
  destruct (SFltb _ _); [apply (Hf _ y Hy); lra|].
  apply (Hf _ x Hx). lra.
Qed.

(** A table size is at most twice the request, and at least a known prime. *)
Lemma mht_calculate_htsize_upper x n :
  0 <= x < 2 ^ 32 -> mht_calculate_htsize x = Some n -> n <= Z.max 32768 (2 * x).
Proof.
  intros Hx. unfold mht_calculate_htsize. destruct (x >? prime_at (NPRIMES - 1)).
  - destruct (Z.land x (uwrap 32 (x - 1)) =? 0) eqn:E2; cbn [negb]; [intros [= <-]; lia|].
    rewrite turn_off_none by done. intros [= <-].
    rewrite Z.shiftl_mul_pow2 by lia. unfold uwrap.
    pose proof (Z.mod_le (x * 2 ^ 1) (2 ^ 32) ltac:(lia) ltac:(lia)). lia.
  - destruct (prime_search_ok 171 x 0 0 (NPRIMES - 1)) as (i & -> & Hi);
      [unfold NPRIMES; simpl; lia..|]. cbn [mbind option_bind]. intros [= <-].
    match goal with |- prime_at ?j <= _ => pose proof (prime_at_pos j) as Hj end.
    assert (2 ^ 15 = 32768) by done. repeat zcase; lia.
Qed.

(** A table that grows has nearly as many entries as slots: with fewer than
    2 ^ 26 entries the new size fits. *)
Lemma rehash_fits_entries ht :
  0 < t_size ht < 2 ^ 29 -> 0 <= t_ncollisions ht <= t_nentries ht ->
  t_rehash_at ht = growth_at (t_size ht) -> 0 < t_nentries ht < 2 ^ 26 ->
  must_rehash ht = true -> rehash_fits ht.
Proof.
  intros Hs Hc Hr Hn [Hm _]%andb_true_iff n Hsize.
  pose proof (growth_at_lower (t_size ht) Hs).
  pose proof (rehash_estimate_upper ht Hs Hc ltac:(lia)).
  pose proof (mht_calculate_htsize_upper _ _ (rehash_estimate_range ht) Hsize).
  apply Z.gtb_lt in Hm. lia.
Qed.
