(* ===== verification/MemoryHashLists.v ===== *)
(** * Memory hash table: linked structures

    Doubly linked lists and chains in the heap of entries, as predicates that
    relate a heap to the list of the pointers of the structure, and what the
    list operations do to them. *)
From Stdlib Require Import ZArith Lia ZifyBool.
From stdpp Require Import base list numbers gmap.
From S2P Require Import Prelude HashFunctions MemoryHash.

Implicit Types m : gmap Z HENTRY.

(** ** Doubly linked lists *)

(** The last pointer of a list, or the given one. *)
Fixpoint end_of (prev : Z) (l : list Z) : Z :=
  match l with
  | [] => prev
  | p :: l => end_of p l
  end.

Lemma end_of_app prev l1 l2 : end_of prev (l1 ++ l2) = end_of (end_of prev l1) l2.
Proof. revert prev. induction l1; simpl; auto. Qed.

Lemma end_of_in prev l : l = [] /\ end_of prev l = prev \/ end_of prev l ∈ l.
Proof.
  revert prev. induction l as [|p l IH]; intros prev; [by left|right]. simpl.
  destruct (IH p) as [[-> ->]|H]; [by left|by right].
Qed.

Lemma not_elem_of_remove (x : Z) l1 p l2 : x ∉ l1 ++ p :: l2 -> x ∉ l1 ++ l2.
Proof.
  intros H Hin. apply H. rewrite elem_of_app in *. destruct Hin; [by left|right; by right].
Qed.

(** The list of pointers [l] between [prev] and [nxt]. *)
Fixpoint dlseg (w : LIST) m (prev : Z) (l : list Z) (nxt : Z) : Prop :=
  match l with
  | [] => True
  | p :: l => get_links w <$> m !! p = Some (mkLinks (hd nxt l) prev) /\ dlseg w m p l nxt
  end.

(** A whole list with its ends. *)
Record dlist (w : LIST) m (e : ends) (l : list Z) : Prop := mkDlist {
  dl_seg : dlseg w m NULL l NULL;
  dl_head : l_head e = hd NULL l;
  dl_tail : l_tail e = end_of NULL l;
  dl_nodup : NoDup l;
  dl_null : NULL ∉ l }.

(** Two heaps with the same entries except for the links of one list. *)
Definition strip (w : LIST) (h : HENTRY) : HENTRY := set_links w (mkLinks 0 0) h.

Definition only_links (w : LIST) m m' : Prop := forall q, strip w <$> m !! q = strip w <$> m' !! q.

Lemma only_links_refl w m : only_links w m m.
Proof. done. Qed.

Lemma only_links_trans w m1 m2 m3 : only_links w m1 m2 -> only_links w m2 m3 -> only_links w m1 m3.
Proof. intros H1 H2 q. by rewrite H1. Qed.

Lemma strip_set_links w k h : strip w (set_links w k h) = strip w h.
Proof. by destruct w. Qed.

Lemma get_set_links w k h : get_links w (set_links w k h) = k.
Proof. by destruct w. Qed.

(** A function of the entries that does not look at the links of the list. *)
Lemma only_links_fmap {T} (g : HENTRY -> T) w m m' q :
  (forall h, g (strip w h) = g h) -> only_links w m m' -> g <$> m !! q = g <$> m' !! q.
Proof.
  intros Hg H. specialize (H q).
  destruct (m !! q) as [h|], (m' !! q) as [h'|]; simplify_eq/=; [|done].
  f_equal. rewrite <- (Hg h), <- (Hg h'). congruence.
Qed.

Lemma only_links_insert w m q h k :
  m !! q = Some h -> only_links w m (<[q := set_links w k h]> m).
Proof.
  intros Hq r. destruct (decide (q = r)) as [->|Hr].
  - rewrite lookup_insert_eq, Hq. simpl. by rewrite strip_set_links.
  - by rewrite lookup_insert_ne.
Qed.

Section Segments.
Context (w : LIST).

Lemma dlseg_app m prev l1 l2 nxt :
  dlseg w m prev (l1 ++ l2) nxt <->
  dlseg w m prev l1 (hd nxt l2) /\ dlseg w m (end_of prev l1) l2 nxt.
Proof.
  revert prev. induction l1 as [|p l1 IH]; intros prev; simpl; [tauto|].
  rewrite IH. destruct l1 as [|q l1]; simpl; tauto.
Qed.

(** A segment depends on the links of its own entries only. *)
Lemma dlseg_ext m m' prev l nxt :
  (forall p, p ∈ l -> get_links w <$> m !! p = get_links w <$> m' !! p) ->
  dlseg w m prev l nxt -> dlseg w m' prev l nxt.
Proof.
  revert prev. induction l as [|p l IH]; intros prev He; simpl; [done|].
  intros [H1 H2]. split.
  - rewrite <- He by (by left). done.
  - apply IH; [|done]. intros q Hq. apply He. by right.
Qed.

Lemma dlseg_insert m prev l nxt q h :
  q ∉ l -> dlseg w m prev l nxt -> dlseg w (<[q := h]> m) prev l nxt.
Proof.
  intros Hq. apply dlseg_ext. intros p Hp. rewrite lookup_insert_ne; [done|].
  by intros ->.
Qed.

Lemma dlseg_lookup m prev l1 p l2 nxt :
  dlseg w m prev (l1 ++ p :: l2) nxt ->
  exists h, m !! p = Some h /\ get_links w h = mkLinks (hd nxt l2) (end_of prev l1).
Proof.
  intros [_ [H _]]%dlseg_app. destruct (m !! p) as [h|]; [|done].
  exists h. split; [done|]. by simplify_eq/=.
Qed.

(** p->next = n for the last entry of a segment. *)
Lemma put_next_seg m prev l p nxt n :
  NoDup (l ++ [p]) -> dlseg w m prev (l ++ [p]) nxt ->
  exists h m', m !! p = Some h /\ put_next w m p n = Some m'
    /\ m' = <[p := set_links w (mkLinks n (end_of prev l)) h]> m
    /\ dlseg w m' prev (l ++ [p]) n.
Proof.
  intros Hnd Hs. destruct (dlseg_lookup _ _ _ _ _ _ Hs) as (h & Hh & Hl).
  exists h. eexists. split; [done|]. unfold put_next. rewrite Hh. simpl. rewrite Hl.
  split; [done|]. split; [done|].
  apply NoDup_app in Hnd as (Hn1 & Hn2 & _).
  apply dlseg_app in Hs as [H1 _]. apply dlseg_app. split.
  - apply dlseg_insert; [|done]. intros Hp. apply (Hn2 p Hp). by left.
  - simpl. split; [|done]. rewrite lookup_insert_eq. simpl. by rewrite get_set_links.
Qed.

(** p->prev = q for the first entry of a segment. *)
Lemma put_prev_seg m prev p l nxt q :
  NoDup (p :: l) -> dlseg w m prev (p :: l) nxt ->
  exists h m', m !! p = Some h /\ put_prev w m p q = Some m'
    /\ m' = <[p := set_links w (mkLinks (hd nxt l) q) h]> m
    /\ dlseg w m' q (p :: l) nxt.
Proof.
  intros [Hn1 Hn2]%NoDup_cons Hs.
  destruct (dlseg_lookup _ _ [] _ _ _ Hs) as (h & Hh & Hl).
  exists h. eexists. split; [done|]. unfold put_prev. rewrite Hh. simpl. rewrite Hl.
  split; [done|]. split; [done|]. destruct Hs as [_ H2]. simpl. split.
  - rewrite lookup_insert_eq. simpl. by rewrite get_set_links.
  - by apply dlseg_insert.
Qed.

Lemma put_next_frame m p n m' :
  put_next w m p n = Some m' -> only_links w m m' /\ forall q, q <> p -> m' !! q = m !! q.
Proof.
  unfold put_next. destruct (m !! p) as [h|] eqn:E; [|done]. simpl. intros [= <-].
  split; [by apply only_links_insert|]. intros q Hq. by apply lookup_insert_ne.
Qed.

Lemma put_prev_frame m p n m' :
  put_prev w m p n = Some m' -> only_links w m m' /\ forall q, q <> p -> m' !! q = m !! q.
Proof.
  unfold put_prev. destruct (m !! p) as [h|] eqn:E; [|done]. simpl. intros [= <-].
  split; [by apply only_links_insert|]. intros q Hq. by apply lookup_insert_ne.
Qed.

Lemma dlseg_frame m m' prev l nxt p :
  (forall q, q <> p -> m' !! q = m !! q) -> p ∉ l ->
  dlseg w m prev l nxt -> dlseg w m' prev l nxt.
Proof.
  intros Hf Hp. apply dlseg_ext. intros q Hq. rewrite Hf; [done|]. by intros ->.
Qed.

(** A new entry gets the links of the end of the list. *)
Lemma put_links_new m p n q :
  is_Some (m !! p) ->
  exists m1 m2, put_next w m p n = Some m1 /\ put_prev w m1 p q = Some m2
    /\ only_links w m m2 /\ (forall r, r <> p -> m2 !! r = m !! r)
    /\ get_links w <$> m2 !! p = Some (mkLinks n q).
Proof.
  intros [h Hh]. unfold put_next, put_prev. rewrite Hh. simpl. eexists _, _.
  split; [done|]. rewrite lookup_insert_eq. simpl. split; [done|].
  rewrite !get_set_links. simpl. split; [|split].
  - eapply only_links_trans; [by apply only_links_insert|].
    apply only_links_insert. by rewrite lookup_insert_eq.
  - intros r Hr. by rewrite !lookup_insert_ne.
  - rewrite lookup_insert_eq. simpl. by rewrite get_set_links.
Qed.

Lemma list_append_ok m e l p :
  dlist w m e l -> p ∉ l -> p <> NULL -> is_Some (m !! p) ->
  exists m' e', list_append w m e p = Some (m', e')
    /\ dlist w m' e' (l ++ [p]) /\ only_links w m m'.
Proof.
  intros [Hs Hhd Htl Hnd Hnull] Hp Hp0 Hm. unfold list_append.
  destruct (put_links_new m p NULL (l_tail e) Hm) as (m1 & m2 & -> & Hm2 & Ho & Hf & Hl).
  simpl. rewrite Hm2. simpl.
  assert (NoDup (l ++ [p])) as Hnd'.
  { apply NoDup_app. split; [done|]. split; [|apply NoDup_singleton].
    by intros q Hq ->%list_elem_of_singleton. }
  assert (NULL ∉ l ++ [p]) as Hnull'.
  { rewrite not_elem_of_app, list_elem_of_singleton. split; [done|congruence]. }
  pose proof (dlseg_frame _ _ _ _ _ _ Hf Hp Hs) as Hs2.
  destruct l as [|t l _] using rev_ind.
  - simpl in *. rewrite Htl, Hhd. simpl. eexists _, _. split; [done|].
    split; [|done]. rewrite Htl in Hl. by constructor.
  - rewrite end_of_app in Htl. simpl in Htl.
    assert (t <> NULL) as Ht.
    { intros ->. apply Hnull. rewrite elem_of_app, list_elem_of_singleton. by right. }
    rewrite Htl, (proj2 (Z.eqb_neq t NULL)) by done. simpl.
    destruct (put_next_seg m2 NULL l t NULL p Hnd Hs2) as (h & m3 & Hh & -> & Hm3 & Hs3).
    assert (l_head e <> NULL) as Hh0.
    { rewrite Hhd. intros H0. apply Hnull. rewrite <- H0. destruct l; by left. }
    simpl. rewrite (proj2 (Z.eqb_neq _ NULL)) by done. eexists _, _. split; [done|].
    split; [constructor; simpl|].
    + apply dlseg_app. simpl. split; [done|]. split; [|done].
      rewrite end_of_app. simpl. rewrite Hm3, lookup_insert_ne; [by rewrite Hl, Htl|].
      intros <-. apply Hp. rewrite elem_of_app, list_elem_of_singleton. by right.
    + rewrite Hhd. by destruct l.
    + by rewrite end_of_app.
    + done.
    + done.
    + rewrite Hm3. eapply only_links_trans; [done|]. by apply only_links_insert.
Qed.

(** The entry before and the entry behind an entry of a list. *)
Lemma neighbours m e l1 p l2 :
  dlist w m e (l1 ++ p :: l2) ->
  next_of w m p = Some (hd NULL l2) /\ prev_of w m p = Some (end_of NULL l1).
Proof.
  intros [Hs _ _ _ _]. destruct (dlseg_lookup _ _ _ _ _ _ Hs) as (h & Hh & Hl).
  unfold next_of, prev_of. rewrite Hh. simpl. by rewrite Hl.
Qed.

(** The links around an entry are led past it. *)
Lemma remove_only m e p :
  dlist w m e [p] -> dlist w m (mkEnds NULL NULL) [].
Proof. intros _. by constructor; [..|apply NoDup_nil_2|apply not_elem_of_nil]. Qed.

Lemma remove_head m e p n l :
  dlist w m e (p :: n :: l) ->
  exists m', put_prev w m n NULL = Some m'
    /\ dlist w m' (mkEnds n (l_tail e)) (n :: l) /\ only_links w m m'
    /\ forall r, r <> n -> m' !! r = m !! r.
Proof.
  intros [[_ Hs] _ Htl [_ Hnd]%NoDup_cons [_ Hnull]%not_elem_of_cons].
  destruct (put_prev_seg m p n l NULL NULL Hnd Hs) as (h & m' & Hh & Hput & Hm' & Hs').
  destruct (put_prev_frame _ _ _ _ Hput) as [Ho Hf].
  exists m'. split; [done|]. split; [|done]. by constructor.
Qed.

Lemma remove_tail m e l q p :
  dlist w m e (l ++ [q] ++ [p]) ->
  exists m', put_next w m q NULL = Some m'
    /\ dlist w m' (mkEnds (l_head e) q) (l ++ [q]) /\ only_links w m m'.
Proof.
  rewrite app_assoc. intros [[Hs _]%dlseg_app Hhd _ [Hnd _]%NoDup_app [Hnull _]%not_elem_of_app].
  destruct (put_next_seg m NULL l q p NULL Hnd Hs) as (h & m' & Hh & Hput & Hm' & Hs').
  destruct (put_next_frame _ _ _ _ Hput) as [Ho Hf].
  exists m'. split; [done|]. split; [|done]. constructor; try done.
  - simpl. rewrite Hhd. by destruct l.
  - by rewrite end_of_app.
Qed.

Lemma remove_middle m e l1 q p n l2 :
  dlist w m e (l1 ++ [q] ++ p :: n :: l2) ->
  exists m1 m2, put_next w m q n = Some m1 /\ put_prev w m1 n q = Some m2
    /\ (forall r, r <> q -> m1 !! r = m !! r)
    /\ dlist w m2 e ((l1 ++ [q]) ++ n :: l2) /\ only_links w m m2.
Proof.
  rewrite app_assoc. intros [Hs Hhd Htl Hnd Hnull].
  apply dlseg_app in Hs as [Hs1 [_ Hs2]].
  pose proof Hnd as (Hnd1 & Hdis & [_ Hnd2]%NoDup_cons)%NoDup_app.
  destruct (put_next_seg m NULL l1 q p n Hnd1 Hs1) as (h & m1 & Hh & Hput & Hm1 & Hs1').
  destruct (put_next_frame _ _ _ _ Hput) as [Ho1 Hf1].
  assert (q ∉ n :: l2) as Hq.
  { intros Hin. apply (Hdis q); [|by right].
    rewrite elem_of_app, list_elem_of_singleton. by right. }
  pose proof (dlseg_frame _ _ _ _ _ _ Hf1 Hq Hs2) as Hs2'.
  destruct (put_prev_seg m1 p n l2 NULL q Hnd2 Hs2') as (h' & m2 & Hh' & Hput2 & Hm2 & Hs2'').
  destruct (put_prev_frame _ _ _ _ Hput2) as [Ho2 Hf2].
  assert (n ∉ l1 ++ [q]) as Hn.
  { intros Hin. apply (Hdis n Hin). right. by left. }
  exists m1, m2. split; [done|]. split; [done|]. split; [done|].
  split; [|by eapply only_links_trans]. constructor.
  - apply dlseg_app. split; [by eapply dlseg_frame|]. by rewrite end_of_app.
  - rewrite Hhd. by destruct l1.
  - rewrite Htl, !end_of_app. done.
  - apply NoDup_app. split; [done|]. split; [|done].
    intros x Hx Hx'. apply (Hdis x Hx). by right.
  - by eapply not_elem_of_remove.
Qed.

(** Only a list with one entry has the same head and tail. *)
Lemma ends_equal m e l1 p l2 :
  dlist w m e (l1 ++ p :: l2) -> (l_head e =? l_tail e) = true -> l1 = [] /\ l2 = [].
Proof.
  intros [_ Hhd Htl Hnd _] H%Z.eqb_eq. rewrite Hhd, Htl, end_of_app in H. simpl in H.
  apply NoDup_app in Hnd as (_ & Hdis & [Hp _]%NoDup_cons).
  destruct (end_of_in p l2) as [[-> He]|He], l1 as [|q l1]; simpl in H; try done.
  - exfalso. apply (Hdis q); [by left|]. rewrite H. by left.
  - by rewrite <- H in He.
  - exfalso. apply (Hdis q); [by left|]. rewrite H. by right.
Qed.

Lemma head_test m e l1 p l2 :
  dlist w m e (l1 ++ p :: l2) -> (l_head e =? p) = true <-> l1 = [].
Proof.
  intros [_ Hhd _ Hnd _]. rewrite Hhd, Z.eqb_eq. destruct l1 as [|q l1]; [done|]. simpl.
  split; [|done]. intros ->. apply NoDup_cons in Hnd as [Hn _]. exfalso. apply Hn.
  rewrite elem_of_app. right. by left.
Qed.

Lemma tail_test m e l1 p l2 :
  dlist w m e (l1 ++ p :: l2) -> (l_tail e =? p) = true <-> l2 = [].
Proof.
  intros [_ _ Htl Hnd _]. rewrite Htl, Z.eqb_eq, end_of_app. simpl.
  destruct (end_of_in p l2) as [[-> ->]|He]; [done|]. split; [|by intros ->].
  intros H. rewrite H in He.
  by apply NoDup_app in Hnd as (_ & _ & [Hp _]%NoDup_cons).
Qed.

Lemma list_remove_ok m e l1 p l2 :
  dlist w m e (l1 ++ p :: l2) ->
  exists m' e', list_remove w m e p = Some (m', e')
    /\ dlist w m' e' (l1 ++ l2) /\ only_links w m m'.
Proof.
  intros Hd. unfold list_remove. destruct (neighbours _ _ _ _ _ Hd) as [Hn Hq].
  destruct (l_head e =? l_tail e) eqn:E1.
  { destruct (ends_equal _ _ _ _ _ Hd E1) as [-> ->]. eexists _, _.
    split; [done|]. split; [by eapply remove_only|done]. }
  destruct (l_head e =? p) eqn:E2.
  { apply (head_test _ _ _ _ _ Hd) in E2 as ->. destruct l2 as [|n l2].
    { destruct Hd as [_ H1 H2 _ _]. simpl in *. lia. }
    destruct (remove_head _ _ _ _ _ Hd) as (m' & Hm' & Hd' & Ho & _).
    rewrite Hn. simpl. rewrite Hm'. eexists _, _. done. }
  destruct l1 as [|q l1 _] using rev_ind.
  { by rewrite (proj2 (head_test _ _ _ _ _ Hd)) in E2. }
  rewrite end_of_app in Hq. simpl in Hq. rewrite <- app_assoc in Hd.
  destruct (l_tail e =? p) eqn:E3.
  { rewrite app_assoc in Hd. apply (tail_test _ _ _ _ _ Hd) in E3 as ->.
    rewrite <- app_assoc in Hd.
    destruct (remove_tail _ _ _ _ _ Hd) as (m' & Hm' & Hd' & Ho).
    rewrite Hq. simpl. rewrite Hm'. eexists _, _. rewrite app_nil_r. done. }
  destruct l2 as [|n l2].
  { rewrite app_assoc in Hd. by rewrite (proj2 (tail_test _ _ _ _ _ Hd)) in E3. }
  destruct (remove_middle _ _ _ _ _ _ _ Hd) as (m1 & m2 & H1 & H2 & Hf & Hd' & Ho).
  rewrite Hq, Hn. simpl. rewrite H1. simpl. unfold next_of, prev_of in *.
  rewrite !Hf.
  - rewrite Hn, Hq. simpl. rewrite H2. eexists _, _. done.
  - destruct Hd as [_ _ _ Hnd _]. intros ->.
    apply NoDup_app in Hnd as (_ & _ & Hnd). by apply NoDup_cons in Hnd as [[]%not_elem_of_cons _].
Qed.

End Segments.

(** Stores to different entries, or to different fields, commute. *)
Definition store m (p : Z) (f : HENTRY -> HENTRY) : option (gmap Z HENTRY) :=
  h ← m !! p; Some (<[p := f h]> m).

Lemma store_comm m p q f g :
  p <> q \/ (forall h, f (g h) = g (f h)) ->
  (m1 ← store m p f; store m1 q g) = (m1 ← store m q g; store m1 p f).
Proof.
  intros Hpq. unfold store. destruct (decide (p = q)) as [<-|Hne].
  - destruct Hpq as [?|Hfg]; [done|]. destruct (m !! p) as [h|] eqn:Hp; simpl; [|done].
    rewrite !lookup_insert_eq. simpl. by rewrite !insert_insert_eq, Hfg.
  - destruct (m !! p) as [h|] eqn:Hp, (m !! q) as [h'|] eqn:Hq; simpl;
      rewrite ?lookup_insert_ne, ?Hp, ?Hq by done; simpl; try done.
    by rewrite insert_insert_ne by done.
Qed.

Definition next_is (w : LIST) (n : Z) (h : HENTRY) : HENTRY :=
  set_links w (mkLinks n (l_prev (get_links w h))) h.
Definition prev_is (w : LIST) (q : Z) (h : HENTRY) : HENTRY :=
  set_links w (mkLinks (l_next (get_links w h)) q) h.

Lemma next_prev_is w n q h : next_is w n (prev_is w q h) = prev_is w q (next_is w n h).
Proof. by destruct w. Qed.

(** The append of mht_adjust_lru_list makes the stores of [list_append] in the
    opposite order. *)
Lemma append_stores w m t p :
  t <> p ->
  (m ← put_next w m t p; m ← put_prev w m p t; put_next w m p NULL)
  = (m ← put_next w m p NULL; m ← put_prev w m p t; put_next w m t p).
Proof.
  intros Ht. change (put_next w) with (fun m p n => store m p (next_is w n)).
  change (put_prev w) with (fun m p q => store m p (prev_is w q)). cbv beta.
  transitivity (m ← store m t (next_is w p); m ← store m p (next_is w NULL);
                store m p (prev_is w t)).
  { destruct (store m t _) as [m1|]; [|done]. simpl. apply store_comm. right.
    intros h. by rewrite next_prev_is. }
  transitivity (m ← store m p (next_is w NULL); m ← store m t (next_is w p);
                store m p (prev_is w t)).
  { pose proof (store_comm m t p (next_is w p) (next_is w NULL) (or_introl Ht)) as H.
    destruct (store m t _) as [m1|], (store m p _) as [m2|]; simpl in *; try done.
    - by rewrite H.
    - by rewrite H.
    - by rewrite <- H. }
  destruct (store m p _) as [m1|]; [|done]. simpl. apply store_comm. by left.
Qed.

(** The first half of mht_adjust_lru_list takes the entry out of the list. *)
Lemma adjust_remove m e l1 p n l2 :
  dlist LRU m e (l1 ++ p :: n :: l2) ->
  exists m', (m ← put_prev LRU m n (end_of NULL l1);
              q ← prev_of LRU m p;
              if negb (q =? NULL) then n ← next_of LRU m p; put_next LRU m q n else Some m)
             = Some m'
    /\ dlist LRU m' (mkEnds (if l_head e =? p then n else l_head e) (l_tail e)) (l1 ++ n :: l2)
    /\ only_links LRU m m'.
Proof.
  intros Hd. destruct (neighbours _ _ _ _ _ _ Hd) as [Hn Hq].
  assert (p <> n) as Hpn.
  { destruct Hd as [_ _ _ (_ & _ & [[]%not_elem_of_cons _]%NoDup_cons)%NoDup_app _]. done. }
  destruct l1 as [|q l1 _] using rev_ind.
  - rewrite (proj2 (head_test _ _ _ _ _ _ Hd)) by done. simpl in Hd |- *.
    destruct (remove_head _ _ _ _ _ _ Hd) as (m1 & -> & Hd1 & Ho & Hf).
    exists m1. split; [|done]. simpl. unfold prev_of in *. by rewrite Hf, Hq.
  - destruct (l_head e =? p) eqn:E; [by apply (head_test _ _ _ _ _ _ Hd), app_nil in E as [_ ?]|].
    rewrite end_of_app in *. simpl in Hq |- *. rewrite <- app_assoc in Hd.
    destruct (remove_middle _ _ _ _ _ _ _ _ Hd) as (m1 & m2 & H1 & H2 & _ & Hd2 & Ho).
    assert (q <> NULL /\ q <> n) as [Hq0 Hqn].
    { destruct Hd as [_ _ _ Hnd Hnull]. split; intros ->.
      - apply Hnull. rewrite elem_of_app. right. by left.
      - apply NoDup_app in Hnd as (_ & _ & [Hnn _]%NoDup_cons). set_solver. }
    pose proof (store_comm m q n (next_is LRU n) (prev_is LRU q) (or_introl Hqn)) as Hc.
    change (store m q (next_is LRU n)) with (put_next LRU m q n) in Hc.
    change (store m n (prev_is LRU q)) with (put_prev LRU m n q) in Hc.
    rewrite H1 in Hc. simpl in Hc.
    change (store m1 n (prev_is LRU q)) with (put_prev LRU m1 n q) in Hc. rewrite H2 in Hc.
    destruct (put_prev LRU m n q) as [m3|] eqn:H3; [|done]. simpl in Hc |- *.
    destruct (put_prev_frame _ _ _ _ _ H3) as [_ Hf]. unfold prev_of, next_of in *.
    rewrite !(Hf p) by done. rewrite Hq, Hn. simpl.
    rewrite (proj2 (Z.eqb_neq q NULL)) by done. simpl.
    exists m2. split; [done|]. split; [|done]. by destruct e.
Qed.

(** The whole of it: the entry goes to the end of the LRU list. *)
Lemma adjust_ok ht l1 p l2 :
  t_build_lru ht = true -> dlist LRU (t_heap ht) (t_lru ht) (l1 ++ p :: l2) ->
  exists m' e', mht_adjust_lru_list ht p = Some (set_list LRU m' e' ht)
    /\ dlist LRU m' e' (l1 ++ l2 ++ [p]) /\ only_links LRU (t_heap ht) m'.
Proof.
  intros Hb Hd. unfold mht_adjust_lru_list. rewrite Hb. simpl.
  destruct (l_tail (t_lru ht) =? p) eqn:Et; simpl.
  { apply (tail_test _ _ _ _ _ _ Hd) in Et as ->.
    exists (t_heap ht), (t_lru ht). split; [by destruct ht|]. done. }
  destruct l2 as [|n l2]; [by rewrite (proj2 (tail_test _ _ _ _ _ _ Hd)) in Et|].
  destruct (neighbours _ _ _ _ _ _ Hd) as [Hn Hq].
  destruct (adjust_remove _ _ _ _ _ _ Hd) as (m2 & H2 & Hd2 & Ho2).
  rewrite Hn, Hq. simpl.
  assert (p ∉ l1 ++ n :: l2 /\ p <> NULL) as [Hp Hp0].
  { destruct Hd as [_ _ _ Hnd Hnull]. split.
    - rewrite <- Permutation_middle in Hnd. by apply NoDup_cons in Hnd as [? _].
    - intros ->. apply Hnull. rewrite elem_of_app. right. by left. }
  assert (is_Some (m2 !! p)) as Hm2.
  { apply (fmap_is_Some (strip LRU)). rewrite <- Ho2. apply fmap_is_Some.
    destruct Hd as [Hs _ _ _ _]. destruct (dlseg_lookup _ _ _ _ _ _ _ Hs) as (h & -> & _). done. }
  destruct (list_append_ok LRU m2 _ _ p Hd2 Hp Hp0 Hm2) as (m3 & e3 & H3 & Hd3 & Ho3).
  destruct (put_prev LRU (t_heap ht) n _) as [m1|] eqn:H1; [|done]. simpl in H2 |- *.
  destruct (prev_of LRU m1 p) as [q|]; [|done]. simpl in H2 |- *.
  rewrite H2. simpl. clear H2.
  assert (l_tail (t_lru ht) ∈ l1 ++ n :: l2) as Hin.
  { rewrite (dl_tail _ _ _ _ Hd2 : l_tail (t_lru ht) = _), end_of_app. simpl.
    destruct (end_of_in n l2) as [[-> ->]|He]; rewrite elem_of_app; right; [by left|by right]. }
  unfold list_append in H3. simpl in H3.
  rewrite (proj2 (Z.eqb_neq (l_tail (t_lru ht)) NULL)) in H3.
  2:{ intros H0. apply (dl_null _ _ _ _ Hd2). by rewrite <- H0. }
  simpl in H3. pose proof (append_stores LRU m2 (l_tail (t_lru ht)) p) as Ha.
  specialize (Ha ltac:(by intros <-)).
  destruct (put_next LRU m2 p NULL) as [x1|]; [|done]. simpl in *.
  destruct (put_prev LRU x1 p _) as [x2|]; [|done]. simpl in *.
  destruct (put_next LRU x2 _ p) as [x3|]; [|done]. simpl in *. simplify_eq.
  destruct (put_next LRU m2 _ p) as [y1|]; [|done]. simpl in *.
  destruct (put_prev LRU y1 p _) as [y2|]; [|done]. simpl in *.
  assert ((if l_head (t_lru ht) =? p then n else l_head (t_lru ht)) <> NULL) as H0.
  { rewrite (dl_head _ _ _ _ Hd2 : (if l_head _ =? p then n else l_head _) = _).
    intros H0. apply (dl_null _ _ _ _ Hd2). rewrite <- H0. destruct l1; by left. }
  rewrite (proj2 (Z.eqb_neq _ NULL) H0), <- (app_assoc l1) in Hd3.
  rewrite Ha. simpl. exists m3. eexists. split; [done|].
  split; [done|]. by eapply only_links_trans.
Qed.
