(* ===== verification/MemoryHashInv.v ===== *)
(** * Memory hash table: invariant

    The chains of the slots, the shape of a table (the pointers of each of its
    linked structures) and the invariant that relates a table to its shape;
    the searches on a table that satisfies it. *)
From Stdlib Require Import ZArith Lia ZifyBool.
From stdpp Require Import base list numbers gmap.
From S2P Require Import Prelude HashFunctions MemoryHash MemoryHashLists.

Implicit Types m : gmap Z HENTRY.

(** ** Chains *)

(** The entries of [l], linked by the field next from the pointer [p] on. *)
Fixpoint chain m (p : Z) (l : list Z) : Prop :=
  match l with
  | [] => p = NULL
  | q :: l => p = q /\ q <> NULL /\ exists n, h_next <$> m !! q = Some n /\ chain m n l
  end.

Lemma chain_agree m m' p l :
  (forall q, q ∈ l -> h_next <$> m !! q = h_next <$> m' !! q) -> chain m p l -> chain m' p l.
Proof.
  revert p. induction l as [|q l IH]; intros p He; simpl; [done|].
  intros (-> & H0 & n & Hn & Hc). split; [done|]. split; [done|]. exists n. split.
  - rewrite <- He by (by left). done.
  - apply IH; [|done]. intros r Hr. apply He. by right.
Qed.

Lemma chain_insert m p l q h : q ∉ l -> chain m p l -> chain (<[q := h]> m) p l.
Proof.
  intros Hq. apply chain_agree. intros r Hr. rewrite lookup_insert_ne; [done|]. by intros ->.
Qed.

Lemma chain_hd m p l : chain m p l -> p = hd NULL l.
Proof. destruct l; [done|]. by intros [-> _]. Qed.

Lemma chain_lookup m p l q : chain m p l -> q ∈ l -> q <> NULL /\ is_Some (m !! q).
Proof.
  revert p. induction l as [|r l IH]; intros p; [by intros _ ?%not_elem_of_nil|].
  intros (-> & H0 & n & Hn & Hc) [->|Hq]%elem_of_cons; [|by eapply IH].
  split; [done|]. by destruct (m !! r).
Qed.

Lemma chain_app m p l1 q l2 :
  chain m p (l1 ++ q :: l2) ->
  q <> NULL /\ exists n, h_next <$> m !! q = Some n /\ chain m n l2.
Proof.
  revert p. induction l1 as [|r l1 IH]; intros p; simpl.
  - intros (_ & H0 & n & Hn & Hc). eauto.
  - intros (_ & _ & n & _ & Hc). eauto.
Qed.

(** An entry in the middle of a chain is led past. *)
Lemma chain_skip m p l1 q r l2 n h :
  chain m p (l1 ++ [q] ++ r :: l2) -> NoDup (l1 ++ [q] ++ r :: l2) ->
  h_next <$> m !! r = Some n -> m !! q = Some h ->
  chain (<[q := set_next n h]> m) p (l1 ++ [q] ++ l2).
Proof.
  revert p. induction l1 as [|s l1 IH]; intros p Hc Hnd Hn Hh.
  - destruct Hc as (-> & H0 & x & _ & (-> & Hr0 & y & Hy & Hc)).
    rewrite Hy in Hn. injection Hn as ->.
    simpl. split; [done|]. split; [done|]. exists n. rewrite lookup_insert_eq. split; [done|].
    apply NoDup_cons in Hnd as [Hq _]. apply chain_insert; [|done]. set_solver.
  - destruct Hc as (-> & H0 & x & Hx & Hc). simpl in Hnd.
    apply NoDup_cons in Hnd as [Hs Hnd].
    simpl. split; [done|]. split; [done|]. exists x. split; [|by apply IH].
    rewrite lookup_insert_ne; [done|]. intros <-. set_solver.
Qed.

(** The search of a chain stops at the first entry that satisfies the test. *)
Lemma chain_search_ok f m fuel prev p l :
  chain m p l -> (length l < fuel)%nat ->
  (exists l1 q l2 h, l = l1 ++ q :: l2 /\ m !! q = Some h /\ f h = true
     /\ (forall r h, r ∈ l1 -> m !! r = Some h -> f h = false)
     /\ chain_search f fuel m prev p = Some (end_of prev l1, q))
  \/ (forall r h, r ∈ l -> m !! r = Some h -> f h = false)
     /\ chain_search f fuel m prev p = Some (end_of prev l, NULL).
Proof.
  revert fuel prev p. induction l as [|q l IH]; intros [|fuel] prev p Hc Hf; simpl in Hf; try lia.
  - right. simpl in Hc. subst p. split; [by intros ? ? ?%not_elem_of_nil|done].
  - destruct Hc as (-> & H0 & n & Hn & Hc). simpl.
    rewrite (proj2 (Z.eqb_neq q NULL) H0). destruct (m !! q) as [h|] eqn:Hq; [|done].
    simpl in *. simplify_eq. destruct (f h) eqn:Ef.
    + left. exists [], q, l, h. split; [done|]. split; [done|]. split; [done|].
      split; [by intros ? ? ?%not_elem_of_nil|done].
    + destruct (IH fuel q (h_next h) Hc ltac:(lia)) as [(l1 & r & l2 & h' & -> & Hr & Hfr & Hl1 & ->)|[Hl ->]].
      * left. exists (q :: l1), r, l2, h'. split; [done|]. split; [done|]. split; [done|].
        split; [|done]. intros x hx [->|Hx]%elem_of_cons; [congruence|by eauto].
      * right. split; [|done]. intros x hx [->|Hx]%elem_of_cons; [congruence|by eauto].
Qed.

(** A list of distinct entries of a heap is no longer than the heap. *)
Lemma entries_bound m l :
  NoDup l -> (forall q, q ∈ l -> is_Some (m !! q)) -> (length l <= size m)%nat.
Proof.
  intros Hnd Hl. rewrite <- (size_list_to_set (C := gset Z) l) by done.
  rewrite <- size_dom. apply subseteq_size. intros q Hq%elem_of_list_to_set.
  by apply elem_of_dom, Hl.
Qed.

(** The entries of one chain and of all the others. *)
Lemma concat_lookup {T} (cs : list (list T)) i c :
  cs !! i = Some c -> concat cs ≡ₚ c ++ concat (delete i cs).
Proof.
  intros Hc. rewrite <- (take_drop_middle _ _ _ Hc) at 1.
  rewrite delete_take_drop, !concat_app. simpl.
  by rewrite !app_assoc, (Permutation_app_comm _ c).
Qed.

Lemma concat_insert {T} (cs : list (list T)) i c c' :
  cs !! i = Some c -> concat (<[i := c']> cs) ≡ₚ c' ++ concat (delete i cs).
Proof.
  intros Hc. rewrite insert_take_drop by (by eapply lookup_lt_Some).
  rewrite delete_take_drop, !concat_app. simpl.
  by rewrite !app_assoc, (Permutation_app_comm _ c').
Qed.

Lemma chains_ext m m' table cs :
  (forall q, q ∈ concat cs -> h_next <$> m !! q = h_next <$> m' !! q) ->
  Forall2 (chain m) table cs -> Forall2 (chain m') table cs.
Proof.
  intros He Hf. apply Forall2_same_length_lookup_2; [by eapply Forall2_length|].
  intros i x c Hx Hc. eapply chain_agree; [|by eapply Forall2_lookup_lr].
  intros q Hq. apply He. rewrite (concat_lookup _ _ _ Hc), elem_of_app. by left.
Qed.

(** ** Contents *)

Definition kv (h : HENTRY) : Z * Z := (h_key h, h_data h).
Definition kv_at m (p : Z) : Z * Z := default (NULL, NULL) (kv <$> m !! p).
Definition contents m (l : list Z) : list (Z * Z) := kv_at m <$> l.

Lemma contents_ext m m' l :
  (forall q, q ∈ l -> kv <$> m !! q = kv <$> m' !! q) -> contents m l = contents m' l.
Proof.
  intros He. apply list_fmap_ext. intros i q Hq. unfold kv_at.
  rewrite He; [done|]. by eapply list_elem_of_lookup_2.
Qed.

(** ** The invariant *)

(** The pointers of the linked structures of a table. *)
Record shape := mkShape {
  s_act : list Z;
  s_lru : list Z;
  s_chains : list (list Z);
  s_free : list Z }.

(** The number of entries that share a slot with an earlier one. *)
Definition collisions (cs : list (list Z)) : Z :=
  sumZ ((fun c : list Z => Z.of_nat (pred (length c))) <$> cs).

Lemma collisions_insert cs i c c' :
  cs !! i = Some c ->
  collisions (<[i := c']> cs)
  = collisions cs - Z.of_nat (pred (length c)) + Z.of_nat (pred (length c')).
Proof.
  intros Hc. unfold collisions. rewrite list_fmap_insert.
  apply sumZ_insert. by rewrite list_lookup_fmap, Hc.
Qed.

(** The size in bytes of the vector of this many slots fits in an unsigned int. *)
Definition slots_fit (n : Z) : Prop := 0 < n < 2 ^ 29.

Section Inv.
Context (hash_func : Z -> Z -> Z).

Record wf (ht : MHT_TABLE) (sh : shape) : Prop := mkWf {
  wf_size : slots_fit (t_size ht);
  wf_table : Z.of_nat (length (t_table ht)) = t_size ht;
  wf_chains : Forall2 (chain (t_heap ht)) (t_table ht) (s_chains sh);
  wf_slot i c p h :
    s_chains sh !! i = Some c -> p ∈ c -> t_heap ht !! p = Some h ->
    mht_slot hash_func (h_key h) (t_size ht) = Z.of_nat i;
  wf_act : dlist ACT (t_heap ht) (t_act ht) (s_act sh);
  wf_lru : t_build_lru ht = true ->
    dlist LRU (t_heap ht) (t_lru ht) (s_lru sh) /\ s_lru sh ≡ₚ s_act sh;
  wf_no_lru : t_build_lru ht = false -> s_lru sh = [] /\ t_lru ht = mkEnds NULL NULL;
  wf_perm : concat (s_chains sh) ≡ₚ s_act sh;
  wf_free : chain (t_heap ht) (t_prealloc ht) (s_free sh);
  wf_nodup : NoDup (s_act sh ++ s_free sh);
  wf_heap p : is_Some (t_heap ht !! p) -> 0 < p < t_brk ht;
  wf_brk : 0 < t_brk ht <= 2 ^ 32;
  wf_nentries : t_nentries ht = Z.of_nat (length (s_act sh));
  wf_nprealloc : t_nprealloc ht = Z.of_nat (length (s_free sh));
  wf_ncollisions : t_ncollisions ht = collisions (s_chains sh);
  wf_rehash_at : t_rehash_at ht = growth_at (t_size ht) }.

Lemma slot_range key size : 0 < size -> 0 <= mht_slot hash_func key size < size.
Proof.
  intros Hs. unfold mht_slot. pose proof (uwrap_range 32 (hash_func key size)). zcase; [|lia].
  apply Z.mod_pos_bound. lia.
Qed.

Section Facts.
Context (ht : MHT_TABLE) (sh : shape) (Hwf : wf ht sh).

Lemma wf_entry p : p ∈ s_act sh ++ s_free sh -> p <> NULL /\ is_Some (t_heap ht !! p).
Proof.
  rewrite elem_of_app. intros [Hp|Hp].
  - destruct (wf_act _ _ Hwf) as [Hs _ _ _ Hnull]. split; [by intros ->|].
    apply list_elem_of_split in Hp as (l1 & l2 & Hl). rewrite Hl in Hs.
    destruct (dlseg_lookup _ _ _ _ _ _ _ Hs) as (h & -> & _). done.
  - eapply chain_lookup; [apply (wf_free _ _ Hwf)|done].
Qed.

(** There are fewer distinct entries than addresses given out. *)
Lemma heap_count l :
  NoDup l -> (forall q, q ∈ l -> is_Some (t_heap ht !! q)) ->
  Z.of_nat (length l) < t_brk ht <= 2 ^ 32.
Proof.
  intros Hnd Hl. pose proof (wf_brk _ _ Hwf). split; [|lia].
  assert (length l <= length (seqZ 1 (t_brk ht - 1)))%nat as H1.
  { apply submseteq_length, NoDup_submseteq; [done|].
    intros q Hq. apply elem_of_seqZ. pose proof (wf_heap _ _ Hwf q (Hl q Hq)). lia. }
  rewrite length_seqZ in H1. lia.
Qed.

Lemma wf_count : Z.of_nat (length (s_act sh) + length (s_free sh)) < t_brk ht <= 2 ^ 32.
Proof.
  rewrite <- length_app. apply heap_count; [apply (wf_nodup _ _ Hwf)|].
  intros q Hq. by apply wf_entry.
Qed.

(** The chain of the slot of a key. *)
Lemma wf_chain key :
  exists first c, t_table ht !! Z.to_nat (mht_slot hash_func key (t_size ht)) = Some first
    /\ s_chains sh !! Z.to_nat (mht_slot hash_func key (t_size ht)) = Some c
    /\ chain (t_heap ht) first c /\ NoDup c /\ (forall q, q ∈ c -> q ∈ s_act sh)
    /\ (length c < chain_fuel (t_heap ht))%nat.
Proof.
  destruct (wf_size _ _ Hwf) as [Hs _]. pose proof (slot_range key (t_size ht) Hs) as Hr.
  pose proof (wf_table _ _ Hwf) as Ht.
  destruct (lookup_lt_is_Some_2 (t_table ht) (Z.to_nat (mht_slot hash_func key (t_size ht))))
    as [first Hf]; [lia|].
  destruct (Forall2_lookup_l _ _ _ _ _ (wf_chains _ _ Hwf) Hf) as (c & Hc & Hch).
  exists first, c. split; [done|]. split; [done|]. split; [done|].
  pose proof (concat_lookup _ _ _ Hc) as Hp. rewrite (wf_perm _ _ Hwf) in Hp.
  pose proof (wf_nodup _ _ Hwf) as (Hn & _ & _)%NoDup_app.
  assert (NoDup c) as Hnc by (rewrite Hp in Hn; by apply NoDup_app in Hn as [? _]).
  assert (forall q, q ∈ c -> q ∈ s_act sh) as Hin
    by (intros q Hq; rewrite Hp, elem_of_app; by left).
  split; [done|]. split; [done|]. unfold chain_fuel. apply Nat.lt_succ_r, entries_bound; [done|].
  intros q Hq. by eapply chain_lookup.
Qed.
End Facts.
End Inv.
