(* ===== verification/MemoryHashOps.v ===== *)
(** * Memory hash table: operations on the invariant

    What searching, inserting, rehashing, removing and clearing do to a table
    that satisfies the invariant, in terms of its shape and contents. *)
From Stdlib Require Import ZArith Lia ZifyBool.
From stdpp Require Import base list numbers gmap.
From S2P Require Import Prelude HashFunctions MemoryHash MemoryHashLists MemoryHashInv.

Implicit Types m : gmap Z HENTRY.

(** Replacing an entry by one with the same value of [g]. *)
Lemma fmap_insert_same {T} (g : HENTRY -> T) m p h h' q :
  m !! p = Some h -> g h' = g h -> g <$> <[p := h']> m !! q = g <$> m !! q.
Proof.
  intros Hp Hg. destruct (decide (p = q)) as [<-|Hq].
  - rewrite lookup_insert_eq, Hp. simpl. by rewrite Hg.
  - by rewrite lookup_insert_ne.
Qed.

Lemma dlist_ext w m m' e l :
  (forall q, q ∈ l -> get_links w <$> m !! q = get_links w <$> m' !! q) ->
  dlist w m e l -> dlist w m' e l.
Proof.
  intros He [Hs Hh Ht Hn H0]. constructor; try done. by eapply dlseg_ext.
Qed.

Lemma only_act_lru m m' q :
  only_links ACT m m' -> get_links LRU <$> m !! q = get_links LRU <$> m' !! q.
Proof. by apply only_links_fmap. Qed.
Lemma only_lru_act m m' q :
  only_links LRU m m' -> get_links ACT <$> m !! q = get_links ACT <$> m' !! q.
Proof. by apply only_links_fmap. Qed.
Lemma only_links_next w m m' q : only_links w m m' -> h_next <$> m !! q = h_next <$> m' !! q.
Proof. apply only_links_fmap. by destruct w. Qed.
Lemma only_links_kv w m m' q : only_links w m m' -> kv <$> m !! q = kv <$> m' !! q.
Proof. apply only_links_fmap. by destruct w. Qed.
Lemma only_links_some w m m' q : only_links w m m' -> is_Some (m !! q) <-> is_Some (m' !! q).
Proof.
  intros H. rewrite <- (fmap_is_Some h_next (m !! q)), (only_links_next w m m' q H).
  apply fmap_is_Some.
Qed.

Lemma kv_slot m p h a : kv <$> m !! p = Some a -> m !! p = Some h -> h_key h = a.1.
Proof. intros H1 H2. rewrite H2 in H1. by injection H1 as <-. Qed.

(** The parts of an invariant that a change of the table does not touch. *)
Ltac wf_keep H :=
  first
    [ exact (wf_size _ _ _ H) | exact (wf_table _ _ _ H) | exact (wf_chains _ _ _ H)
    | exact (wf_slot _ _ _ H) | exact (wf_act _ _ _ H) | exact (wf_lru _ _ _ H)
    | exact (wf_no_lru _ _ _ H) | exact (wf_perm _ _ _ H) | exact (wf_free _ _ _ H)
    | exact (wf_nodup _ _ _ H) | exact (wf_heap _ _ _ H) | exact (wf_brk _ _ _ H)
    | exact (wf_nentries _ _ _ H) | exact (wf_nprealloc _ _ _ H)
    | exact (wf_ncollisions _ _ _ H) | exact (wf_rehash_at _ _ _ H) ].

Section Ops.
Context (hash_func : Z -> Z -> Z) (cmp_func : Z -> Z -> bool) (junk : HENTRY).
Notation wf := (wf hash_func).
Notation slot := (mht_slot hash_func).

(** The slots of the entries depend on their keys only. *)
Lemma slot_ext m m' (cs : list (list Z)) size :
  (forall i c p h, cs !! i = Some c -> p ∈ c -> m !! p = Some h ->
     slot (h_key h) size = Z.of_nat i) ->
  (forall q, kv <$> m' !! q = kv <$> m !! q) ->
  forall i c p h, cs !! i = Some c -> p ∈ c -> m' !! p = Some h ->
    slot (h_key h) size = Z.of_nat i.
Proof.
  intros Hs He i c p h Hi Hp Hh. specialize (He p). rewrite Hh in He.
  destruct (m !! p) as [h0|] eqn:H0; [|done]. injection He as -> _. by eapply Hs.
Qed.

(** ** Searching *)

(** A test that holds of entries in the slot of a key only. *)
Definition slot_test (f : HENTRY -> bool) (key : Z) : Prop :=
  forall h size, f h = true -> slot (h_key h) size = slot key size.

Lemma wf_in_act ht sh i c q :
  wf ht sh -> s_chains sh !! i = Some c -> q ∈ c -> q ∈ s_act sh.
Proof.
  intros Hwf Hi Hq. rewrite <- (wf_perm _ _ _ Hwf), (concat_lookup _ _ _ Hi), elem_of_app.
  by left.
Qed.

(** Every active entry is in the chain of the slot of its key. *)
Lemma act_in_chain ht sh p h c :
  wf ht sh -> p ∈ s_act sh -> t_heap ht !! p = Some h ->
  s_chains sh !! Z.to_nat (slot (h_key h) (t_size ht)) = Some c -> p ∈ c.
Proof.
  intros Hwf Hp Hh Hc. rewrite <- (wf_perm _ _ _ Hwf) in Hp.
  apply list_elem_of_In, in_concat in Hp as (c' & Hc' & Hp).
  apply list_elem_of_In, list_elem_of_lookup in Hc' as [i Hi]. apply list_elem_of_In in Hp.
  rewrite (wf_slot _ _ _ Hwf _ _ _ _ Hi Hp Hh), Nat2Z.id in Hc. by simplify_eq.
Qed.

Lemma mht_search_ok ht sh f key :
  wf ht sh -> slot_test f key ->
  (exists c1 q c2 h,
     s_chains sh !! Z.to_nat (slot key (t_size ht)) = Some (c1 ++ q :: c2)
     /\ q ∈ s_act sh /\ t_heap ht !! q = Some h /\ f h = true
     /\ mht_search hash_func f ht key = Some (end_of NULL c1, q))
  \/ (exists x, (forall q h, q ∈ s_act sh -> t_heap ht !! q = Some h -> f h = false)
        /\ mht_search hash_func f ht key = Some (x, NULL)).
Proof.
  intros Hwf Hf. unfold mht_search.
  destruct (wf_chain _ _ _ Hwf key) as (first & c & Ht & Hc & Hch & Hnd & Hin & Hl).
  rewrite Ht. obind.
  destruct (chain_search_ok f (t_heap ht) (chain_fuel (t_heap ht)) NULL first c Hch Hl)
    as [(l1 & q & l2 & h & -> & Hq & Hfq & _ & ->)|[Hno ->]].
  - left. exists l1, q, l2, h. split; [done|]. split; [|done]. apply Hin.
    rewrite elem_of_app. right. by left.
  - right. eexists. split; [|done]. intros q h Hq Hh.
    destruct (f h) eqn:E; [|done]. exfalso. rewrite <- (Hf h _ E) in Hc.
    pose proof (act_in_chain _ _ _ _ _ Hwf Hq Hh Hc) as Hqc. by rewrite (Hno q h Hqc Hh) in E.
Qed.

(** ** Use of an entry *)

Lemma wf_adjust ht sh l1 p l2 :
  wf ht sh -> (t_build_lru ht = true -> s_lru sh = l1 ++ p :: l2) ->
  exists ht', mht_adjust_lru_list ht p = Some ht'
    /\ wf ht' (mkShape (s_act sh) (if t_build_lru ht then l1 ++ l2 ++ [p] else [])
                 (s_chains sh) (s_free sh))
    /\ (forall q, kv <$> t_heap ht' !! q = kv <$> t_heap ht !! q)
    /\ t_build_lru ht' = t_build_lru ht /\ t_brk ht' = t_brk ht.
Proof.
  intros Hwf Hl. destruct (t_build_lru ht) eqn:Hb.
  - specialize (Hl eq_refl). destruct (wf_lru _ _ _ Hwf Hb) as [Hd Hp]. rewrite Hl in Hd, Hp.
    destruct (adjust_ok ht l1 p l2 Hb Hd) as (m' & e' & -> & Hd' & Ho).
    eexists. split; [done|]. split; [|split; [|done]].
    2:{ intros q. simpl. symmetry. by apply (only_links_kv LRU). }
    constructor; simpl; try wf_keep Hwf.
    + eapply chains_ext; [|apply (wf_chains _ _ _ Hwf)]. intros q _. by apply (only_links_next LRU).
    + eapply slot_ext; [apply (wf_slot _ _ _ Hwf)|]. intros q.
      symmetry. by apply (only_links_kv LRU).
    + eapply dlist_ext; [|apply (wf_act _ _ _ Hwf)]. intros q _. by apply only_lru_act.
    + intros _. split; [done|]. rewrite <- Hp. rewrite app_assoc, <- Permutation_cons_append.
      by rewrite Permutation_middle.
    + congruence.
    + eapply chain_agree; [|apply (wf_free _ _ _ Hwf)]. intros q _. by apply (only_links_next LRU).
    + intros q Hq. apply (wf_heap _ _ _ Hwf). by apply (only_links_some LRU _ _ q Ho).
  - exists ht. unfold mht_adjust_lru_list. rewrite Hb. simpl. split; [done|].
    split; [|done]. destruct (wf_no_lru _ _ _ Hwf Hb) as [Hs _].
    destruct sh as [a l c fr]. simpl in *. by subst l.
Qed.

(** ** Insertion *)

(** An entry gets another key of its slot and other data. *)
Lemma wf_set_kv ht sh p h k d :
  wf ht sh -> t_heap ht !! p = Some h ->
  slot k (t_size ht) = slot (h_key h) (t_size ht) ->
  wf (set_heap (<[p := set_kv k d h]> (t_heap ht)) ht) sh.
Proof.
  intros Hwf Hp Hk. constructor; simpl; try wf_keep Hwf.
  - eapply chains_ext; [|apply (wf_chains _ _ _ Hwf)]. intros q _. symmetry. by eapply fmap_insert_same.
  - intros i c q h' Hi Hq. destruct (decide (p = q)) as [<-|Hne].
    + rewrite lookup_insert_eq. intros [= <-]. simpl. rewrite Hk.
      by eapply (wf_slot _ _ _ Hwf).
    + rewrite lookup_insert_ne by done. by eapply (wf_slot _ _ _ Hwf).
  - eapply dlist_ext; [|apply (wf_act _ _ _ Hwf)]. intros q _. symmetry. by eapply fmap_insert_same.
  - intros Hb. destruct (wf_lru _ _ _ Hwf Hb) as [Hl Hperm]. split; [|done].
    eapply dlist_ext; [|done]. intros q _. symmetry. by eapply fmap_insert_same.
  - eapply chain_agree; [|apply (wf_free _ _ _ Hwf)]. intros q _.
    symmetry. by eapply fmap_insert_same.
  - intros q Hq. apply (wf_heap _ _ _ Hwf). destruct (decide (p = q)) as [<-|Hne]; [done|].
    by rewrite lookup_insert_ne in Hq.
Qed.

(** The entries outside the structures do not matter. *)
Lemma wf_agree ht sh m' brk' :
  wf ht sh -> (forall q, q ∈ s_act sh ++ s_free sh -> m' !! q = t_heap ht !! q) ->
  (forall q, is_Some (m' !! q) -> 0 < q < brk') -> 0 < brk' <= 2 ^ 32 ->
  wf (mkTable m' brk' (t_table ht) (t_act ht) (t_lru ht) (t_prealloc ht) (t_size ht)
        (t_rehash_at ht) (t_nentries ht) (t_nprealloc ht) (t_ncollisions ht)
        (t_build_lru ht)) sh.
Proof.
  intros Hwf He Hm Hb.
  assert (forall q, q ∈ s_act sh -> m' !! q = t_heap ht !! q) as Ha
    by (intros q Hq; apply He; rewrite elem_of_app; by left).
  constructor; simpl; try wf_keep Hwf; try done.
  - eapply chains_ext; [|apply (wf_chains _ _ _ Hwf)]. intros q Hq.
    rewrite Ha; [done|]. by rewrite <- (wf_perm _ _ _ Hwf).
  - intros i c p h Hi Hp. rewrite Ha by (by eapply wf_in_act). by eapply (wf_slot _ _ _ Hwf).
  - eapply dlist_ext; [|apply (wf_act _ _ _ Hwf)]. intros q Hq. by rewrite Ha.
  - intros Hbu. destruct (wf_lru _ _ _ Hwf Hbu) as [Hl Hperm]. split; [|done].
    eapply dlist_ext; [|done]. intros q Hq. rewrite Ha; [done|]. by rewrite <- Hperm.
  - eapply chain_agree; [|apply (wf_free _ _ _ Hwf)]. intros q Hq.
    rewrite He; [done|]. rewrite elem_of_app. by right.
Qed.

(** An entry that is neither active nor saved. *)
Record spare (ht : MHT_TABLE) (sh : shape) (p : Z) : Prop := mkSpare {
  sp_null : p <> NULL;
  sp_some : is_Some (t_heap ht !! p);
  sp_act : p ∉ s_act sh;
  sp_free : p ∉ s_free sh }.

(** [room]: fewer than 2 ^ 26 - 1 entries have been allocated, so that the
    counters and the size of the vector stay in range. *)
Definition room (ht : MHT_TABLE) : Prop := t_brk ht < 2 ^ 26.

Lemma take_saved al ht sh p f :
  wf ht sh -> s_free sh = p :: f ->
  exists ht1, take_entry junk al ht = Some (p, ht1) /\ p <> NULL
    /\ wf ht1 (mkShape (s_act sh) (s_lru sh) (s_chains sh) f)
    /\ spare ht1 (mkShape (s_act sh) (s_lru sh) (s_chains sh) f) p
    /\ t_heap ht1 = t_heap ht /\ t_build_lru ht1 = t_build_lru ht
    /\ t_size ht1 = t_size ht /\ t_brk ht1 = t_brk ht.
Proof.
  intros Hwf Hf. pose proof (wf_free _ _ _ Hwf) as Hc. rewrite Hf in Hc.
  destruct Hc as (Hp & H0 & n & Hn & Hc). unfold take_entry.
  pose proof (wf_nprealloc _ _ _ Hwf) as Hl. rewrite Hf in Hl. simpl in Hl.
  rewrite (proj2 (Z.gtb_lt _ 0)) by lia. rewrite Hp.
  destruct (t_heap ht !! p) as [h|] eqn:Hh; [|done]. simpl in *. injection Hn as ->.
  pose proof (wf_nodup _ _ _ Hwf) as Hnd. rewrite Hf in Hnd.
  eexists. split; [done|]. split; [done|]. split; [|split; [|done]].
  - constructor; simpl; try wf_keep Hwf; [done| |lia].
    rewrite <- Permutation_middle in Hnd. by apply NoDup_cons in Hnd as [_ ?].
  - apply NoDup_app in Hnd as (_ & Hd & [Hpf _]%NoDup_cons).
    constructor; simpl; [done|by rewrite Hh| |done]. intros Hin. apply (Hd p Hin). by left.
Qed.

Lemma take_fresh al ht sh :
  wf ht sh -> s_free sh = [] -> a_entry al = true -> room ht ->
  exists ht1, take_entry junk al ht = Some (t_brk ht, ht1) /\ t_brk ht <> NULL
    /\ wf ht1 sh /\ spare ht1 sh (t_brk ht)
    /\ t_heap ht1 = <[t_brk ht := junk]> (t_heap ht) /\ t_build_lru ht1 = t_build_lru ht
    /\ t_size ht1 = t_size ht /\ t_brk ht1 = t_brk ht + 1.
Proof.
  intros Hwf Hf Ha Hr. unfold take_entry.
  pose proof (wf_nprealloc _ _ _ Hwf) as Hl. rewrite Hf in Hl. simpl in Hl. replace (t_nprealloc ht >? 0) with false by lia. rewrite Ha.
  pose proof (wf_brk _ _ _ Hwf) as Hb.
  assert (forall q, is_Some (t_heap ht !! q) -> q <> t_brk ht) as Hq
    by (intros q Hq; pose proof (wf_heap _ _ _ Hwf q Hq); lia).
  assert (forall q, q ∈ s_act sh ++ s_free sh -> q <> t_brk ht) as Hqs.
  { intros q Hin. apply Hq. by eapply wf_entry. }
  eexists. split; [done|]. split; [unfold NULL; lia|]. split; [|split; [|done]].
  - unfold room in Hr. apply (wf_agree _ _ _ (t_brk ht + 1) Hwf); [..|lia].
    + intros q Hin. rewrite lookup_insert_ne; [done|]. intros <-. by apply (Hqs (t_brk ht)).
    + intros q. destruct (decide (t_brk ht = q)) as [<-|Hne]; [lia|].
      rewrite lookup_insert_ne by done. intros Hin%(wf_heap _ _ _ Hwf). lia.
  - constructor; simpl; [unfold NULL; lia|by rewrite lookup_insert_eq|..];
      intros Hin; apply (Hqs (t_brk ht)); rewrite ?elem_of_app; auto.
Qed.

(** The entry at the end of the LRU list, if there is one. *)
Lemma link_lru ht sh p :
  wf ht sh -> spare ht sh p ->
  exists m1 e1, (if t_build_lru ht then link_list LRU p ht else Some ht)
                = Some (set_list LRU m1 e1 ht)
    /\ only_links LRU (t_heap ht) m1
    /\ (t_build_lru ht = true -> dlist LRU m1 e1 (s_lru sh ++ [p]))
    /\ (t_build_lru ht = false -> e1 = mkEnds NULL NULL).
Proof.
  intros Hwf [H0 Hs Ha _]. destruct (t_build_lru ht) eqn:Hb.
  - destruct (wf_lru _ _ _ Hwf Hb) as [Hd Hp].
    destruct (list_append_ok LRU (t_heap ht) (t_lru ht) (s_lru sh) p) as (m1 & e1 & H1 & Hd1 & Ho);
      [done|by rewrite Hp|done|done|].
    exists m1, e1. unfold link_list. simpl. rewrite H1. done.
  - exists (t_heap ht), (t_lru ht). split; [by destruct ht|]. split; [done|].
    split; [done|]. intros _. by apply (wf_no_lru _ _ _ Hwf).
Qed.

(** The heap after the links of a new entry have been made. *)
Record linked m m' (p first : Z) (a : Z * Z) : Prop := mkLinked {
  lk_next q : q <> p -> h_next <$> m' !! q = h_next <$> m !! q;
  lk_kv q : q <> p -> kv <$> m' !! q = kv <$> m !! q;
  lk_new_next : h_next <$> m' !! p = Some first;
  lk_new_kv : kv <$> m' !! p = Some a;
  lk_some q : is_Some (m' !! q) <-> is_Some (m !! q) }.

Lemma linked_intro m m1 m3 p first key data h1 h3 :
  only_links LRU m m1 -> m1 !! p = Some h1 ->
  only_links ACT (<[p := set_kv key data h1]> m1) m3 -> m3 !! p = Some h3 ->
  linked m (<[p := set_next first h3]> m3) p first (key, data).
Proof.
  intros H1 Hp1 H3 Hp3.
  pose proof (only_links_kv ACT _ _ p H3) as Hkv. rewrite lookup_insert_eq, Hp3 in Hkv.
  simpl in Hkv. constructor.
  - intros q Hq. rewrite lookup_insert_ne by done.
    rewrite <- (only_links_next ACT _ _ q H3), lookup_insert_ne by done.
    symmetry. by apply (only_links_next LRU).
  - intros q Hq. rewrite lookup_insert_ne by done.
    rewrite <- (only_links_kv ACT _ _ q H3), lookup_insert_ne by done.
    symmetry. by apply (only_links_kv LRU).
  - by rewrite lookup_insert_eq.
  - rewrite lookup_insert_eq. simpl. injection Hkv as -> ->. done.
  - intros q. rewrite (only_links_some LRU _ _ q H1).
    destruct (decide (p = q)) as [<-|Hq]; [by rewrite lookup_insert_eq, Hp1|].
    rewrite lookup_insert_ne, <- (only_links_some ACT _ _ q H3) by done.
    by rewrite lookup_insert_ne.
Qed.

Lemma link_entry_run ht sh key data p :
  wf ht sh -> spare ht sh p ->
  exists first c e1 m' e',
    t_table ht !! Z.to_nat (slot key (t_size ht)) = Some first
    /\ s_chains sh !! Z.to_nat (slot key (t_size ht)) = Some c
    /\ chain (t_heap ht) first c
    /\ (t_build_lru ht = true -> dlist LRU m' e1 (s_lru sh ++ [p]))
    /\ (t_build_lru ht = false -> e1 = mkEnds NULL NULL)
    /\ dlist ACT m' e' (s_act sh ++ [p]) /\ linked (t_heap ht) m' p first (key, data)
    /\ link_entry key data (slot key (t_size ht)) p ht
       = Some (mkTable m' (t_brk ht) (<[Z.to_nat (slot key (t_size ht)) := p]> (t_table ht)) e' e1
                 (t_prealloc ht) (t_size ht) (t_rehash_at ht) (uwrap 32 (t_nentries ht + 1))
                 (t_nprealloc ht)
                 (if negb (first =? NULL) then uwrap 32 (t_ncollisions ht + 1)
                  else t_ncollisions ht) (t_build_lru ht)).
Proof.
  intros Hwf Hsp. destruct (wf_chain _ _ _ Hwf key) as (first & c & Ht & Hc & Hch & _).
  destruct (link_lru ht sh p Hwf Hsp) as (m1 & e1 & H1 & Ho1 & Hd1 & He1).
  destruct Hsp as [H0 Hs Ha _].
  apply (only_links_some LRU _ _ p Ho1) in Hs as [h1 Hh1].
  set (m2 := <[p := set_kv key data h1]> m1).
  destruct (list_append_ok ACT m2 (t_act ht) (s_act sh) p) as (m3 & e3 & H3 & Hd3 & Ho3);
    [|done|done|unfold m2; by rewrite lookup_insert_eq|].
  { eapply dlist_ext; [|apply (wf_act _ _ _ Hwf)]. intros q Hq. unfold m2.
    rewrite lookup_insert_ne by (by intros ->). by apply only_lru_act. }
  assert (is_Some (m3 !! p)) as [h3 Hh3].
  { apply (only_links_some ACT _ _ p Ho3). unfold m2. by rewrite lookup_insert_eq. }
  exists first, c, e1, (<[p := set_next first h3]> m3), e3.
  split; [done|]. split; [done|]. split; [done|]. split.
  { intros Hb. eapply dlist_ext; [|by apply Hd1]. intros q _. symmetry.
    etrans; [by eapply fmap_insert_same|]. rewrite <- (only_act_lru _ _ q Ho3).
    by eapply fmap_insert_same. }
  split; [done|]. split.
  { eapply dlist_ext; [|done]. intros q _. symmetry. by eapply fmap_insert_same. }
  split; [by eapply linked_intro|].
  unfold link_entry. rewrite H1. obind. simpl t_heap. rewrite Hh1. obind.
  unfold link_list. simpl t_heap. simpl get_ends. fold m2. rewrite H3. obind.
  unfold link_chain. simpl. rewrite Ht. simpl. rewrite Hh3. done.
Qed.

(** The counters after an insertion at the front of a chain. *)
Lemma collisions_push cs i c p m first :
  cs !! i = Some c -> chain m first c -> 0 <= collisions cs < 2 ^ 32 - 1 ->
  (if negb (first =? NULL) then uwrap 32 (collisions cs + 1) else collisions cs)
  = collisions (<[i := p :: c]> cs).
Proof.
  intros Hc Hch Hr. rewrite (collisions_insert _ _ _ _ Hc).
  destruct c as [|q c]; simpl in *; [subst first; rewrite Z.eqb_refl; simpl; lia|].
  destruct Hch as (-> & H0 & _). rewrite (proj2 (Z.eqb_neq q NULL) H0). simpl.
  rewrite uwrap_small by lia. lia.
Qed.

Lemma collisions_bound cs : 0 <= collisions cs <= Z.of_nat (length (concat cs)).
Proof.
  unfold collisions. induction cs as [|c cs IH]; [done|].
  rewrite fmap_cons. cbn [sumZ concat]. rewrite length_app. lia.
Qed.

Lemma wf_collisions ht sh :
  wf ht sh -> 0 <= collisions (s_chains sh) <= Z.of_nat (length (s_act sh)).
Proof. intros Hwf. rewrite <- (wf_perm _ _ _ Hwf). apply collisions_bound. Qed.

(** A new entry is counted: it is not among the entries before. *)
Lemma spare_count ht sh p :
  wf ht sh -> spare ht sh p ->
  Z.of_nat (S (length (s_act sh) + length (s_free sh))) < 2 ^ 32.
Proof.
  intros Hwf [_ Hs Ha Hf].
  pose proof (heap_count _ _ _ Hwf (p :: s_act sh ++ s_free sh)) as H.
  rewrite length_cons, length_app in H.
  assert (0 <= 2 ^ 32) by done. enough (Z.of_nat (S (length (s_act sh) + length (s_free sh))) < t_brk ht <= 2 ^ 32) by lia.
  apply H.
  - apply NoDup_cons. split; [by rewrite not_elem_of_app|apply (wf_nodup _ _ _ Hwf)].
  - intros q [->|Hq]%elem_of_cons; [done|by eapply wf_entry].
Qed.

Lemma link_chains m m' table cs i first c p a :
  Forall2 (chain m) table cs -> cs !! i = Some c -> table !! i = Some first ->
  p <> NULL -> p ∉ concat cs -> linked m m' p first a ->
  Forall2 (chain m') (<[i := p]> table) (<[i := p :: c]> cs).
Proof.
  intros Hf Hc Ht H0 Hp Hl.
  assert (Forall2 (chain m') table cs) as Hf'.
  { eapply chains_ext; [|done]. intros q Hq. symmetry. apply (lk_next _ _ _ _ _ Hl).
    by intros ->. }
  apply Forall2_insert; [done|].
  simpl. split; [done|]. split; [done|]. exists first.
  split; [apply (lk_new_next _ _ _ _ _ Hl)|]. by eapply Forall2_lookup_lr.
Qed.

Lemma push_lookup (cs : list (list Z)) j c p i d q :
  cs !! j = Some c -> <[j := p :: c]> cs !! i = Some d -> q ∈ d ->
  i = j /\ q = p \/ exists d0, cs !! i = Some d0 /\ q ∈ d0.
Proof.
  intros Hc Hi Hq. destruct (decide (j = i)) as [<-|Hne].
  - rewrite list_lookup_insert_eq in Hi by (by eapply lookup_lt_Some). injection Hi as <-.
    apply elem_of_cons in Hq as [->|Hq]; [by left|right; eauto].
  - rewrite list_lookup_insert_ne in Hi by done. right. eauto.
Qed.

Lemma link_entry_ok ht sh key data p :
  wf ht sh -> spare ht sh p ->
  exists ht' c, link_entry key data (slot key (t_size ht)) p ht = Some ht'
    /\ wf ht' (mkShape (s_act sh ++ [p]) (if t_build_lru ht then s_lru sh ++ [p] else [])
                 (<[Z.to_nat (slot key (t_size ht)) := p :: c]> (s_chains sh)) (s_free sh))
    /\ (forall q, q <> p -> kv <$> t_heap ht' !! q = kv <$> t_heap ht !! q)
    /\ kv <$> t_heap ht' !! p = Some (key, data)
    /\ t_build_lru ht' = t_build_lru ht /\ t_brk ht' = t_brk ht /\ t_size ht' = t_size ht.
Proof.
  intros Hwf Hsp. pose proof (spare_count _ _ _ Hwf Hsp) as Hcount.
  destruct (link_entry_run ht sh key data p Hwf Hsp)
    as (first & c & e1 & m' & e' & Ht & Hc & Hch & Hl & Hl0 & Ha & Hlk & ->).
  destruct Hsp as [H0 Hs Hpa Hpf]. destruct (wf_size _ _ _ Hwf) as [Hsz _].
  pose proof (slot_range hash_func key (t_size ht) Hsz) as Hr.
  eexists _, c. split; [done|]. split.
  2:{ split; [apply (lk_kv _ _ _ _ _ Hlk)|]. split; [apply (lk_new_kv _ _ _ _ _ Hlk)|done]. }
  constructor; simpl; try wf_keep Hwf; try done.
  - rewrite length_insert. apply (wf_table _ _ _ Hwf).
  - eapply link_chains; eauto using wf_chains. by rewrite (wf_perm _ _ _ Hwf).
  - intros i d q h Hi Hq Hh.
    destruct (push_lookup _ _ _ _ _ _ _ Hc Hi Hq) as [[-> ->]|(d0 & Hd0 & Hqd)].
    + pose proof (lk_new_kv _ _ _ _ _ Hlk) as Hkv. rewrite Hh in Hkv. injection Hkv as -> _.
      lia.
    + assert (q <> p) as Hqp by (intros ->; apply Hpa; by eapply wf_in_act).
      pose proof (lk_kv _ _ _ _ _ Hlk q Hqp) as Hkv. rewrite Hh in Hkv.
      destruct (t_heap ht !! q) as [h0|] eqn:Hh0; [|done]. injection Hkv as -> _.
      by eapply (wf_slot _ _ _ Hwf).
  - intros Hb. rewrite Hb. split; [by apply Hl|].
    destruct (wf_lru _ _ _ Hwf Hb) as [_ ->]. done.
  - intros Hb. rewrite Hb. split; [done|by apply Hl0].
  - rewrite (concat_insert _ _ _ _ Hc). simpl. rewrite <- (concat_lookup _ _ _ Hc).
    rewrite (wf_perm _ _ _ Hwf). apply Permutation_cons_append.
  - eapply chain_agree; [|apply (wf_free _ _ _ Hwf)]. intros q Hq. symmetry.
    apply (lk_next _ _ _ _ _ Hlk). by intros ->.
  - rewrite <- app_assoc. simpl. rewrite <- Permutation_middle. apply NoDup_cons.
    split; [by rewrite not_elem_of_app|apply (wf_nodup _ _ _ Hwf)].
  - intros q Hq. apply (wf_heap _ _ _ Hwf). by apply (lk_some _ _ _ _ _ Hlk).
  - rewrite (wf_nentries _ _ _ Hwf), length_app, uwrap_small; simpl; lia.
  - rewrite (wf_ncollisions _ _ _ Hwf). eapply collisions_push; [done|done|].
    pose proof (wf_collisions _ _ Hwf). lia.
Qed.
End Ops.
