(* ===== verification/MemoryHashRehash.v ===== *)
(** * Memory hash table: rehashing

    Moving all entries to a new vector keeps the invariant and the contents. *)
From Stdlib Require Import ZArith Lia ZifyBool.
From stdpp Require Import base list numbers gmap.
From S2P Require Import Prelude HashFunctions MemoryHash MemoryHashSize MemoryHashLists.
From S2P Require Import MemoryHashInv MemoryHashOps.

Implicit Types m : gmap Z HENTRY.

(** ** Moving the entries *)

(** Two heaps with the same entries except for the chains. *)
Definition only_next m m' : Prop := forall q, set_next 0 <$> m !! q = set_next 0 <$> m' !! q.

Lemma only_next_fmap {T} (g : HENTRY -> T) m m' q :
  (forall h, g (set_next 0 h) = g h) -> only_next m m' -> g <$> m !! q = g <$> m' !! q.
Proof.
  intros Hg H. specialize (H q).
  destruct (m !! q) as [h|], (m' !! q) as [h'|]; try done.
  apply (inj Some) in H. simpl. by rewrite <- (Hg h), <- (Hg h'), H.
Qed.

Lemma only_next_insert m q h n : m !! q = Some h -> only_next m (<[q := set_next n h]> m).
Proof. intros Hq r. symmetry. by eapply fmap_insert_same. Qed.

Lemma only_next_trans m1 m2 m3 : only_next m1 m2 -> only_next m2 m3 -> only_next m1 m3.
Proof. intros H1 H2 q. by rewrite H1. Qed.

Lemma only_next_some m m' q : only_next m m' -> is_Some (m !! q) <-> is_Some (m' !! q).
Proof. intros H. rewrite <- (fmap_is_Some kv (m !! q)), (only_next_fmap kv m m' q) by done. apply fmap_is_Some. Qed.

Section Rehash.
Context (hash_func : Z -> Z -> Z) (est_size : Z).
Context (Hest : 0 < est_size).
Notation slot := (mht_slot hash_func).

(** The new vector while entries are moved: its chains, and the slots of the
    entries in them. *)
Record moved m (vec : list Z) (ncollisions : Z) (cs : list (list Z)) : Prop := mkMoved {
  mv_length : Z.of_nat (length vec) = est_size;
  mv_chains : Forall2 (chain m) vec cs;
  mv_slot i c q h : cs !! i = Some c -> q ∈ c -> m !! q = Some h ->
    slot (h_key h) est_size = Z.of_nat i;
  mv_ncollisions : ncollisions = collisions cs }.

(** One entry. *)
Lemma move_entry m vec ncollisions cs q h :
  moved m vec ncollisions cs -> m !! q = Some h -> q <> NULL -> q ∉ concat cs ->
  Z.of_nat (length (concat cs)) < 2 ^ 32 - 1 ->
  exists first cs', vec !! Z.to_nat (slot (h_key h) est_size) = Some first
    /\ moved (<[q := set_next first h]> m)
         (<[Z.to_nat (slot (h_key h) est_size) := q]> vec)
         (if negb (first =? NULL) then uwrap 32 (ncollisions + 1) else ncollisions) cs'
    /\ concat cs' ≡ₚ q :: concat cs.
Proof.
  intros [Hlen Hch Hsl Hn] Hq H0 Hnot Hb.
  pose proof (slot_range hash_func (h_key h) est_size Hest) as Hr.
  destruct (lookup_lt_is_Some_2 vec (Z.to_nat (slot (h_key h) est_size))) as [first Hf]; [lia|].
  destruct (Forall2_lookup_l _ _ _ _ _ Hch Hf) as (c & Hc & Hcc).
  exists first, (<[Z.to_nat (slot (h_key h) est_size) := q :: c]> cs).
  split; [done|]. split.
  2:{ rewrite (concat_insert _ _ _ _ Hc). simpl. by rewrite <- (concat_lookup _ _ _ Hc). }
  assert (linked m (<[q := set_next first h]> m) q first (kv h)) as Hlk.
  { constructor.
    - intros r Hr'. by rewrite lookup_insert_ne.
    - intros r Hr'. by rewrite lookup_insert_ne.
    - by rewrite lookup_insert_eq.
    - by rewrite lookup_insert_eq.
    - intros r. symmetry. by apply only_next_some, only_next_insert. }
  constructor.
  - by rewrite length_insert.
  - by eapply link_chains.
  - intros i d r hr Hi Hrd Hhr.
    destruct (push_lookup _ _ _ _ _ _ _ Hc Hi Hrd) as [[-> ->]|(d0 & Hd0 & Hrd0)].
    + rewrite lookup_insert_eq in Hhr. injection Hhr as <-. simpl. lia.
    + rewrite lookup_insert_ne in Hhr; [by eapply Hsl|]. intros <-.
      apply Hnot. rewrite (concat_lookup _ _ _ Hd0), elem_of_app. by left.
  - rewrite Hn. eapply collisions_push; [done|done|].
    pose proof (collisions_bound cs). lia.
Qed.

(** One chain. *)
Lemma rehash_chain_ok l fuel p m vec ncollisions cs :
  chain m p l -> moved m vec ncollisions cs -> NoDup (l ++ concat cs) ->
  (length l < fuel)%nat -> Z.of_nat (length (l ++ concat cs)) < 2 ^ 32 ->
  exists m' vec' ncollisions' cs',
    rehash_chain hash_func est_size fuel p (m, vec, ncollisions) = Some (m', vec', ncollisions')
    /\ moved m' vec' ncollisions' cs' /\ concat cs' ≡ₚ l ++ concat cs
    /\ only_next m m' /\ (forall q, q ∉ l -> m' !! q = m !! q).
Proof.
  revert fuel p m vec ncollisions cs.
  induction l as [|q l IH]; intros [|fuel] p m vec n cs Hc Hmv Hnd Hf Hb; simpl in Hf; try lia.
  - simpl in Hc. subst p. exists m, vec, n, cs. simpl. done.
  - destruct Hc as (-> & H0 & x & Hx & Hc). simpl in Hnd.
    apply NoDup_cons in Hnd as [Hq Hnd]. rewrite not_elem_of_app in Hq. destruct Hq as [Hql Hqc].
    destruct (m !! q) as [h|] eqn:Hh; [|done]. simpl in Hx. injection Hx as <-.
    rewrite length_app in Hb. simpl in Hb.
    destruct (move_entry m vec n cs q h Hmv Hh H0 Hqc ltac:(lia)) as (first & cs1 & Hv & Hmv1 & Hp1).
    destruct (IH fuel (h_next h) _ _ _ _ (chain_insert _ _ _ _ (set_next first h) Hql Hc) Hmv1)
      as (m' & vec' & n' & cs' & Hrun & Hmv' & Hp' & Ho & Hfr).
    + by rewrite Hp1, <- Permutation_middle, NoDup_cons, not_elem_of_app.
    + lia.
    + rewrite length_app, Hp1. simpl. lia.
    + exists m', vec', n', cs'. simpl. rewrite (proj2 (Z.eqb_neq q NULL) H0), Hh. simpl.
      rewrite Hv. simpl. split; [done|]. split; [done|]. split.
      { by rewrite Hp', Hp1, <- Permutation_middle. }
      split; [by eapply only_next_trans; [apply only_next_insert|]|].
      intros r [Hrq Hrl]%not_elem_of_cons. rewrite Hfr by done. by rewrite lookup_insert_ne.
Qed.

(** All chains. *)
Lemma rehash_loop_ok old ls m vec ncollisions cs :
  Forall2 (chain m) old ls -> moved m vec ncollisions cs -> NoDup (concat ls ++ concat cs) ->
  Z.of_nat (length (concat ls ++ concat cs)) < 2 ^ 32 ->
  exists m' vec' ncollisions' cs',
    rehash_loop hash_func est_size old (m, vec, ncollisions) = Some (m', vec', ncollisions')
    /\ moved m' vec' ncollisions' cs' /\ concat cs' ≡ₚ concat ls ++ concat cs
    /\ only_next m m' /\ (forall q, q ∉ concat ls -> m' !! q = m !! q).
Proof.
  intros Hf. revert m vec ncollisions cs Hf. induction ls as [|l ls IH] in old |- *;
    intros m vec n cs Hf Hmv Hnd Hb; inversion Hf as [|p ? old' ? Hc Hf']; subst.
  { exists m, vec, n, cs. simpl. done. }
  simpl in Hnd, Hb. rewrite <- app_assoc in Hnd, Hb.
  assert (NoDup (l ++ concat cs)) as Hnd1.
  { rewrite (Permutation_app_comm (concat ls)), app_assoc in Hnd. by apply NoDup_app in Hnd as [? _]. }
  destruct (rehash_chain_ok l (chain_fuel m) p m vec n cs Hc Hmv Hnd1)
    as (m1 & v1 & n1 & cs1 & Hrun1 & Hmv1 & Hp1 & Ho1 & Hfr1).
  { unfold chain_fuel. apply Nat.lt_succ_r, entries_bound; [by apply NoDup_app in Hnd as [? _]|].
    intros q Hq. by eapply chain_lookup. }
  { rewrite !length_app in *. lia. }
  destruct (IH old' m1 v1 n1 cs1) as (m' & vec' & n' & cs' & Hrun & Hmv' & Hp' & Ho & Hfr).
  - eapply chains_ext; [|done]. intros q Hq. rewrite Hfr1; [done|]. intros Hql.
    apply NoDup_app in Hnd as (_ & Hd & _). apply (Hd q Hql). rewrite elem_of_app. by left.
  - done.
  - by rewrite Hp1, Permutation_app_swap_app.
  - rewrite Hp1, Permutation_app_swap_app. done.
  - exists m', vec', n', cs'. cbn [rehash_loop fst]. rewrite Hrun1. obind.
    split; [done|]. split; [done|]. split.
    { rewrite Hp', Hp1, Permutation_app_swap_app. simpl. by rewrite app_assoc. }
    split; [by eapply only_next_trans|].
    simpl. intros q [Hq1 Hq2]%not_elem_of_app. rewrite Hfr by done. by apply Hfr1.
Qed.
End Rehash.

(** ** The whole table *)

Lemma vector_length_fits n : slots_fit n -> vector_length n = n.
Proof.
  intros [H1 H2]. unfold vector_length, SIZEOF_PTR. rewrite uwrap_small by lia.
  by rewrite Z.div_mul.
Qed.

Lemma concat_replicate_nil {T} n : concat (replicate n (@nil T)) = [].
Proof. by induction n. Qed.

Lemma collisions_empty n : collisions (replicate n []) = 0.
Proof. induction n as [|n IH]; [done|]. exact IH. Qed.

Lemma moved_empty hash_func est_size m :
  0 < est_size ->
  moved hash_func est_size m (replicate (Z.to_nat est_size) NULL) 0
    (replicate (Z.to_nat est_size) []).
Proof.
  intros Hs. constructor.
  - rewrite length_replicate. lia.
  - apply Forall2_replicate. done.
  - intros i c q h Hi. apply lookup_replicate_1 in Hi as [-> _]. by intros ?%not_elem_of_nil.
  - by rewrite collisions_empty.
Qed.

Section Table.
Context (hash_func : Z -> Z -> Z).
Notation wf := (wf hash_func).

Lemma wf_moved ht sh m' vec n cs est rehash_at :
  wf ht sh -> slots_fit est -> moved hash_func est m' vec n cs ->
  concat cs ≡ₚ s_act sh -> only_next (t_heap ht) m' -> rehash_at = growth_at est ->
  (forall q, q ∉ s_act sh -> m' !! q = t_heap ht !! q) ->
  wf (mkTable m' (t_brk ht) vec (t_act ht) (t_lru ht) (t_prealloc ht) est rehash_at
        (t_nentries ht) (t_nprealloc ht) n (t_build_lru ht))
     (mkShape (s_act sh) (s_lru sh) cs (s_free sh)).
Proof.
  intros Hwf Hfit [H1 H2 H3 H4] Hp Ho Hat Hfr.
  constructor; simpl; try wf_keep Hwf; try done.
  - eapply dlist_ext; [|apply (wf_act _ _ _ Hwf)]. intros q _. by apply only_next_fmap.
  - intros Hb. destruct (wf_lru _ _ _ Hwf Hb) as [Hl Hperm]. split; [|done].
    eapply dlist_ext; [|done]. intros q _. by apply only_next_fmap.
  - eapply chain_agree; [|apply (wf_free _ _ _ Hwf)]. intros q Hq. rewrite Hfr; [done|].
    intros Ha. pose proof (wf_nodup _ _ _ Hwf) as (_ & Hd & _)%NoDup_app. by apply (Hd q Ha).
  - intros q Hq. apply (wf_heap _ _ _ Hwf). by apply (only_next_some _ _ q Ho).
Qed.

(** Without memory the table stays as it is; otherwise the entries are in the
    chains of a new vector. *)
Lemma mht_rehash_ok al ht sh :
  wf ht sh -> rehash_fits ht ->
  exists e ht' cs, mht_rehash hash_func al ht = Some (e, ht')
    /\ e = (if a_vector al then NO_ERROR else ER_OUT_OF_VIRTUAL_MEMORY)
    /\ wf ht' (mkShape (s_act sh) (s_lru sh) cs (s_free sh))
    /\ (forall q, kv <$> t_heap ht' !! q = kv <$> t_heap ht !! q)
    /\ t_build_lru ht' = t_build_lru ht /\ t_brk ht' = t_brk ht.
Proof.
  intros Hwf Hfit. unfold mht_rehash.
  destruct (mht_calculate_htsize_ok _ (rehash_estimate_range ht)) as (est & Hest & Hpos).
  specialize (Hfit est Hest). rewrite Hest. obind.
  destruct (a_vector al); cbn [negb].
  2:{ exists ER_OUT_OF_VIRTUAL_MEMORY, ht, (s_chains sh). split; [done|]. split; [done|].
      split; [by destruct sh|done]. }
  assert (slots_fit est) as Hs by (split; lia). rewrite (vector_length_fits est Hs).
  pose proof (wf_nodup _ _ _ Hwf) as (Hnd & _ & _)%NoDup_app.
  pose proof (wf_count _ _ _ Hwf) as Hcount.
  destruct (rehash_loop_ok hash_func est ltac:(lia) (t_table ht) (s_chains sh) (t_heap ht)
              (replicate (Z.to_nat est) NULL) 0 (replicate (Z.to_nat est) []))
    as (m' & vec' & n' & cs' & -> & Hmv & Hp & Ho & Hfr).
  - apply (wf_chains _ _ _ Hwf).
  - apply moved_empty. lia.
  - by rewrite concat_replicate_nil, app_nil_r, (wf_perm _ _ _ Hwf).
  - rewrite concat_replicate_nil, app_nil_r, (wf_perm _ _ _ Hwf). lia.
  - obind. rewrite concat_replicate_nil, app_nil_r, (wf_perm _ _ _ Hwf) in Hp.
    eexists _, _, cs'. split; [done|]. split; [done|]. split.
    { apply wf_moved; try done; [by apply growth_at_int|]. intros q Hq. apply Hfr. by rewrite (wf_perm _ _ _ Hwf). }
    split; [|done]. intros q. simpl. symmetry. by apply only_next_fmap.
Qed.
End Table.
