(* ===== verification/MemoryHashRem.v ===== *)
(** * Memory hash table: removal, clearing and iteration

    Taking an entry out of the three structures it is linked into, clearing a
    table, and mapping a function over it. *)
From Stdlib Require Import ZArith Lia ZifyBool.
From stdpp Require Import base list numbers gmap.
From S2P Require Import Prelude HashFunctions MemoryHash MemoryHashLists MemoryHashInv MemoryHashOps.
From S2P Require Import MemoryHashRehash.

Implicit Types m : gmap Z HENTRY.

(** ** The chain *)

(** Chains other than the one that changes. *)
Lemma chains_update m m' table cs i x c :
  Forall2 (chain m) table cs -> (i < length cs)%nat -> chain m' x c ->
  (forall j d q, j <> i -> cs !! j = Some d -> q ∈ d ->
     h_next <$> m !! q = h_next <$> m' !! q) ->
  Forall2 (chain m') (<[i := x]> table) (<[i := c]> cs).
Proof.
  intros Hf Hi Hc He. pose proof (Forall2_length _ _ _ Hf) as Hl.
  apply Forall2_same_length_lookup_2; [by rewrite !length_insert|].
  intros j y d. destruct (decide (i = j)) as [<-|Hj].
  - rewrite !list_lookup_insert_eq by lia. by intros [= <-] [= <-].
  - rewrite !list_lookup_insert_ne by done. intros Hy Hd.
    eapply chain_agree; [|by eapply Forall2_lookup_lr]. intros q Hq. by eapply He.
Qed.

Lemma concat_disjoint (cs : list (list Z)) i j c d q :
  NoDup (concat cs) -> cs !! i = Some c -> cs !! j = Some d -> j <> i -> q ∈ c -> q ∉ d.
Proof.
  intros Hnd Hi Hj Hij Hq Hqd. rewrite (concat_lookup _ _ _ Hi) in Hnd.
  apply NoDup_app in Hnd as (_ & Hdis & _). apply (Hdis q Hq).
  apply list_elem_of_In, in_concat. exists d. rewrite <- !list_elem_of_In. split; [|done].
  apply list_elem_of_lookup. destruct (decide (j < i)%nat).
  - exists j. by rewrite list_lookup_delete_lt.
  - exists (pred j). rewrite list_lookup_delete_ge by lia. by replace (S (pred j)) with j by lia.
Qed.

Lemma chain_unlink_ok m table cs i c1 p c2 n :
  Forall2 (chain m) table cs -> cs !! i = Some (c1 ++ p :: c2) -> NoDup (concat cs) ->
  h_next <$> m !! p = Some n ->
  exists m' vec b, chain_unlink m table i (end_of NULL c1) n = Some (m', vec, b)
    /\ Forall2 (chain m') vec (<[i := c1 ++ c2]> cs) /\ only_next m m'
    /\ (forall q, q ∉ c1 -> m' !! q = m !! q) /\ length vec = length table
    /\ collisions (<[i := c1 ++ c2]> cs) = collisions cs - (if b : bool then 1 else 0).
Proof.
  intros Hf Hi Hnd Hn. pose proof (lookup_lt_Some _ _ _ Hi) as Hlt.
  pose proof (Forall2_length _ _ _ Hf) as Hl.
  destruct (lookup_lt_is_Some_2 table i ltac:(lia)) as [x Hx].
  pose proof (Forall2_lookup_lr _ _ _ _ _ _ Hf Hx Hi) as Hc.
  assert (NoDup (c1 ++ p :: c2)) as Hndc.
  { rewrite (concat_lookup _ _ _ Hi) in Hnd. by apply NoDup_app in Hnd as [? _]. }
  unfold chain_unlink. destruct c1 as [|q c1 _] using rev_ind.
  - simpl in *. rewrite Hx. simpl. destruct Hc as (-> & H0 & n' & Hn' & Hc). simplify_option_eq.
    eexists _, _, _. split; [done|]. split; [|split; [done|split; [done|split]]].
    + by eapply chains_update.
    + by rewrite length_insert.
    + rewrite (collisions_insert _ _ _ _ Hi). simpl. rewrite (chain_hd _ _ _ Hc).
      destruct c2 as [|r c2]; simpl; [lia|]. destruct Hc as (_ & Hr & _).
      rewrite (proj2 (Z.eqb_neq r NULL) Hr). simpl. lia.
  - rewrite end_of_app. simpl. rewrite <- !app_assoc in *.
    assert (q ∈ c1 ++ [q] ++ p :: c2) as Hqin by set_solver.
    destruct (chain_lookup _ _ _ q Hc Hqin) as [Hq0 [h Hh]].
    rewrite (proj2 (Z.eqb_neq q NULL) Hq0). simpl. rewrite Hh. simpl.
    pose proof (chain_skip _ _ _ _ _ _ _ _ Hc Hndc Hn Hh) as Hc'.
    eexists _, _, _. split; [done|]. split; [|split; [by apply only_next_insert|split; [|split]]].
    + rewrite <- (list_insert_id table i x Hx). eapply chains_update; [done|lia|done|].
      intros j d r Hj Hd Hr. rewrite lookup_insert_ne; [done|]. intros <-.
      by eapply (concat_disjoint cs i j).
    + intros r Hr. apply lookup_insert_ne. intros ->. apply Hr. rewrite elem_of_app. right. by left.
    + done.
    + rewrite (collisions_insert _ _ _ _ Hi), !length_app. simpl. lia.
Qed.

(** ** The whole removal *)

Section Rem.
Context (hash_func : Z -> Z -> Z).
Notation wf := (wf hash_func).
Notation slot := (mht_slot hash_func).

(** The entry out of the two doubly linked lists. *)
Lemma unlink_lists ht sh a1 p a2 l1 l2 :
  wf ht sh -> s_act sh = a1 ++ p :: a2 -> (t_build_lru ht = true -> s_lru sh = l1 ++ p :: l2) ->
  exists m e1 e2,
    (ht1 ← (if t_build_lru ht then unlink_list LRU p ht else Some ht); unlink_list ACT p ht1)
    = Some (set_list ACT m e2 (set_list LRU m e1 ht))
    /\ dlist ACT m e2 (a1 ++ a2)
    /\ (t_build_lru ht = true -> dlist LRU m e1 (l1 ++ l2))
    /\ (t_build_lru ht = false -> e1 = mkEnds NULL NULL)
    /\ (forall q, h_next <$> m !! q = h_next <$> t_heap ht !! q)
    /\ (forall q, kv <$> m !! q = kv <$> t_heap ht !! q).
Proof.
  intros Hwf Ha Hl. pose proof (wf_act _ _ _ Hwf) as Hda. rewrite Ha in Hda.
  assert (exists m1 e1, (if t_build_lru ht then unlink_list LRU p ht else Some ht)
            = Some (set_list LRU m1 e1 ht)
          /\ only_links LRU (t_heap ht) m1
          /\ (t_build_lru ht = true -> dlist LRU m1 e1 (l1 ++ l2))
          /\ (t_build_lru ht = false -> e1 = mkEnds NULL NULL))
    as (m1 & e1 & -> & Ho1 & Hd1 & He1).
  { destruct (t_build_lru ht) eqn:Hb.
    - destruct (wf_lru _ _ _ Hwf Hb) as [Hd _]. rewrite (Hl eq_refl) in Hd.
      destruct (list_remove_ok LRU _ _ _ _ _ Hd) as (m1 & e1 & H1 & Hd1 & Ho1).
      exists m1, e1. unfold unlink_list. simpl. rewrite H1. done.
    - exists (t_heap ht), (t_lru ht). split; [by destruct ht|]. split; [done|].
      split; [done|]. intros _. by apply (wf_no_lru _ _ _ Hwf). }
  obind. unfold unlink_list. simpl.
  destruct (list_remove_ok ACT m1 (t_act ht) a1 p a2) as (m2 & e2 & H2 & Hd2 & Ho2).
  { eapply dlist_ext; [|done]. intros q _. by apply only_lru_act. }
  rewrite H2. obind. exists m2, e1, e2. split; [done|]. split; [done|].
  split; [|split; [done|split]].
  - intros Hb. eapply dlist_ext; [|by apply Hd1]. intros q _. by apply only_act_lru.
  - intros q. rewrite (only_links_next LRU _ _ q Ho1). symmetry. by apply (only_links_next ACT).
  - intros q. rewrite (only_links_kv LRU _ _ q Ho1). symmetry. by apply (only_links_kv ACT).
Qed.

Lemma kv_some m m' q :
  kv <$> m !! q = kv <$> m' !! q -> is_Some (m !! q) <-> is_Some (m' !! q).
Proof. intros H. rewrite <- (fmap_is_Some kv (m !! q)), H. apply fmap_is_Some. Qed.

Lemma rem_entry_run ht sh hash a1 p a2 l1 l2 c1 c2 :
  wf ht sh -> s_act sh = a1 ++ p :: a2 -> (t_build_lru ht = true -> s_lru sh = l1 ++ p :: l2) ->
  s_chains sh !! Z.to_nat hash = Some (c1 ++ p :: c2) ->
  exists m e1 e2 vec,
    dlist ACT m e2 (a1 ++ a2)
    /\ (t_build_lru ht = true -> dlist LRU m e1 (l1 ++ l2))
    /\ (t_build_lru ht = false -> e1 = mkEnds NULL NULL)
    /\ Forall2 (chain m) vec (<[Z.to_nat hash := c1 ++ c2]> (s_chains sh))
    /\ chain m p (p :: s_free sh) /\ length vec = length (t_table ht)
    /\ (forall q, kv <$> m !! q = kv <$> t_heap ht !! q)
    /\ rem_entry hash (end_of NULL c1) p ht
       = Some (mkTable m (t_brk ht) vec e2 e1 p (t_size ht) (t_rehash_at ht)
                 (uwrap 32 (t_nentries ht - 1)) (uwrap 32 (t_nprealloc ht + 1))
                 (collisions (<[Z.to_nat hash := c1 ++ c2]> (s_chains sh))) (t_build_lru ht)).
Proof.
  intros Hwf Ha Hl Hc.
  destruct (unlink_lists ht sh a1 p a2 l1 l2 Hwf Ha Hl)
    as (m2 & e1 & e2 & Hrun & Hd2 & Hd1 & He1 & Hnx & Hkv).
  pose proof (wf_nodup _ _ _ Hwf) as Hnd. pose proof Hnd as (Hnda & Hdis & _)%NoDup_app.
  assert (p ∈ s_act sh) as Hpa by (rewrite Ha, elem_of_app; right; by left).
  destruct (wf_entry _ _ _ Hwf p) as [Hp0 Hps]; [rewrite elem_of_app; by left|].
  apply (kv_some _ _ _ (Hkv p)) in Hps as [h Hh].
  destruct (chain_unlink_ok m2 (t_table ht) (s_chains sh) (Z.to_nat hash) c1 p c2 (h_next h))
    as (m3 & vec & b & H3 & Hch3 & Ho3 & Hfr3 & Hlen & Hcol).
  { eapply chains_ext; [|apply (wf_chains _ _ _ Hwf)]. done. }
  { done. }
  { by rewrite (wf_perm _ _ _ Hwf). }
  { by rewrite Hh. }
  assert (is_Some (m3 !! p)) as [h3 Hh3] by (apply (only_next_some _ _ p Ho3); by rewrite Hh).
  exists (<[p := set_next (t_prealloc ht) h3]> m3), e1, e2, vec.
  assert (p ∉ concat (<[Z.to_nat hash := c1 ++ c2]> (s_chains sh))) as Hpc.
  { rewrite (concat_insert _ _ _ _ Hc). rewrite <- (wf_perm _ _ _ Hwf) in Hnda.
    rewrite (concat_lookup _ _ _ Hc), <- app_assoc in Hnda. simpl in Hnda.
    rewrite <- Permutation_middle, app_assoc in Hnda. by apply NoDup_cons in Hnda as [? _]. }
  assert (forall w q, get_links w <$> m2 !! q
            = get_links w <$> <[p := set_next (t_prealloc ht) h3]> m3 !! q) as Hlk.
  { intros w q. etrans; [by apply only_next_fmap; [by destruct w|]|].
    symmetry. eapply fmap_insert_same; [done|]. by destruct w. }
  split; [by eapply dlist_ext; [intros q _; apply Hlk|]|].
  split; [intros Hb; by eapply dlist_ext; [intros q _; apply Hlk|apply Hd1]|].
  split; [done|]. split; [|split; [|split; [done|split]]].
  - eapply chains_ext; [|done]. intros q Hq. rewrite lookup_insert_ne; [done|]. by intros ->.
  - simpl. split; [done|]. split; [done|]. exists (t_prealloc ht).
    rewrite lookup_insert_eq. split; [done|].
    eapply chain_agree; [|apply (wf_free _ _ _ Hwf)]. intros q Hq.
    rewrite lookup_insert_ne by (intros <-; by apply (Hdis p)).
    rewrite Hfr3; [by rewrite Hnx|]. intros Hqc. apply (Hdis q); [|done].
    eapply wf_in_act; [done|exact Hc|]. rewrite elem_of_app. by left.
  - intros q. rewrite <- Hkv. etrans; [by eapply fmap_insert_same|].
    symmetry. by apply only_next_fmap.
  - unfold rem_entry. destruct (if t_build_lru ht then _ else _) as [ht1|]; [|done].
    cbn [mbind option_bind] in Hrun |- *. rewrite Hrun. obind. unfold unlink_chain. simpl t_heap.
    rewrite Hh. obind. simpl t_table. rewrite H3. obind. rewrite Hh3. obind. simpl.
    f_equal. f_equal. rewrite (wf_ncollisions _ _ _ Hwf), Hcol.
    pose proof (collisions_bound (<[Z.to_nat hash := c1 ++ c2]> (s_chains sh))).
    pose proof (wf_collisions _ _ _ Hwf). pose proof (wf_count _ _ _ Hwf).
    destruct b; [|lia]. rewrite uwrap_small; lia.
Qed.

(** Removing an entry from its chain leaves the slots of the others. *)
Lemma unlink_lookup (cs : list (list Z)) j c1 p c2 i d q :
  cs !! j = Some (c1 ++ p :: c2) -> <[j := c1 ++ c2]> cs !! i = Some d -> q ∈ d ->
  exists d0, cs !! i = Some d0 /\ q ∈ d0.
Proof.
  intros Hc Hi Hq. destruct (decide (j = i)) as [<-|Hne].
  - rewrite list_lookup_insert_eq in Hi by (by eapply lookup_lt_Some). injection Hi as <-.
    eexists. split; [done|]. rewrite elem_of_app in *. destruct Hq; [by left|right; by right].
  - rewrite list_lookup_insert_ne in Hi by done. eauto.
Qed.

Lemma rem_entry_ok ht sh hash a1 p a2 l1 l2 c1 c2 :
  wf ht sh -> s_act sh = a1 ++ p :: a2 -> (t_build_lru ht = true -> s_lru sh = l1 ++ p :: l2) ->
  s_chains sh !! Z.to_nat hash = Some (c1 ++ p :: c2) ->
  exists ht', rem_entry hash (end_of NULL c1) p ht = Some ht'
    /\ wf ht' (mkShape (a1 ++ a2) (if t_build_lru ht then l1 ++ l2 else [])
                 (<[Z.to_nat hash := c1 ++ c2]> (s_chains sh)) (p :: s_free sh))
    /\ (forall q, kv <$> t_heap ht' !! q = kv <$> t_heap ht !! q)
    /\ t_build_lru ht' = t_build_lru ht /\ t_brk ht' = t_brk ht.
Proof.
  intros Hwf Ha Hl Hc.
  destruct (rem_entry_run ht sh hash a1 p a2 l1 l2 c1 c2 Hwf Ha Hl Hc)
    as (m & e1 & e2 & vec & Hd2 & Hd1 & He1 & Hch & Hfree & Hlen & Hkv & ->).
  eexists. split; [done|]. split; [|done].
  pose proof (wf_count _ _ _ Hwf) as Hcount. rewrite Ha, length_app in Hcount. simpl in Hcount.
  constructor; simpl; try wf_keep Hwf; try done.
  - rewrite Hlen. apply (wf_table _ _ _ Hwf).
  - intros i d q h Hi Hq Hh. destruct (unlink_lookup _ _ _ _ _ _ _ _ Hc Hi Hq) as (d0 & Hd0 & Hqd).
    pose proof (slot_ext hash_func _ _ _ _ (wf_slot _ _ _ Hwf) Hkv) as Hs. by eapply Hs.
  - intros Hb. rewrite Hb. split; [by apply Hd1|]. destruct (wf_lru _ _ _ Hwf Hb) as [_ Hp].
    rewrite (Hl Hb), Ha, <- !Permutation_middle in Hp. by apply Permutation_cons_inv in Hp.
  - intros Hb. rewrite Hb. split; [done|by apply He1].
  - rewrite (concat_insert _ _ _ _ Hc). pose proof (wf_perm _ _ _ Hwf) as Hp.
    rewrite (concat_lookup _ _ _ Hc), Ha, <- app_assoc in Hp. simpl in Hp.
    rewrite <- !Permutation_middle in Hp. apply Permutation_cons_inv in Hp.
    by rewrite <- app_assoc.
  - pose proof (wf_nodup _ _ _ Hwf) as Hnd. rewrite Ha, <- app_assoc in Hnd. simpl in Hnd.
    rewrite <- Permutation_middle in Hnd |- *. by rewrite <- app_assoc.
  - intros q Hq. apply (wf_heap _ _ _ Hwf). by apply (kv_some _ _ _ (Hkv q)).
  - rewrite (wf_nentries _ _ _ Hwf), Ha, !length_app, uwrap_small; simpl; lia.
  - rewrite (wf_nprealloc _ _ _ Hwf), uwrap_small; simpl; lia.
Qed.
End Rem.

(** ** Clearing *)

Section Clear.
Context {A : Type}.
Implicit Types f : option (Z -> Z -> A -> Z * A).

(** The calls of the caller's function on a list of keys and data, up to the
    first error. *)
Fixpoint call_all (f : option (Z -> Z -> A -> Z * A)) (l : list (Z * Z)) (a : A) : Z * A :=
  match l with
  | [] => (NO_ERROR, a)
  | (k, d) :: l =>
      let '(error_code, a) :=
        match f with Some g => g k d a | None => (NO_ERROR, a) end in
      if negb (error_code =? NO_ERROR) then (error_code, a) else call_all f l a
  end.

(** One chain, all of it, when the function answers no error. *)
Lemma clear_chain_ok f l fuel p m free fr n a a' :
  chain m p l -> chain m free fr -> NoDup (l ++ fr) -> (length l < fuel)%nat ->
  n = Z.of_nat (length fr) -> Z.of_nat (length (l ++ fr)) < 2 ^ 32 ->
  call_all f (contents m l) a = (NO_ERROR, a') ->
  exists m' free' n', clear_chain f fuel p (m, free, n) a = Some (NO_ERROR, (m', free', n'), a')
    /\ chain m' free' (rev l ++ fr) /\ n' = Z.of_nat (length (rev l ++ fr))
    /\ (forall q, q ∉ l -> m' !! q = m !! q)
    /\ (forall q, is_Some (m' !! q) <-> is_Some (m !! q)).
Proof.
  revert fuel p m free fr n a. induction l as [|q l IH];
    intros [|fuel] p m free fr n a Hc Hfr Hnd Hfu Hn Hb Hall; simpl in Hfu; try lia.
  - simpl in Hc, Hall. subst p. injection Hall as <-. simpl. eexists _, _, _. done.
  - destruct Hc as (-> & H0 & x & Hx & Hc). simpl in Hnd. apply NoDup_cons in Hnd as [Hq Hnd].
    apply not_elem_of_app in Hq as [Hql Hqf].
    destruct (m !! q) as [h|] eqn:Hh; [|done]. simpl in Hx. injection Hx as <-.
    unfold contents in Hall. rewrite fmap_cons in Hall. unfold kv_at at 1 in Hall.
    rewrite Hh in Hall. simpl in Hall. cbn [clear_chain].
    rewrite (proj2 (Z.eqb_neq q NULL) H0), Hh. obind. unfold call_func.
    destruct (match f with Some g => g (h_key h) (h_data h) a | None => _ end) as [e a1] eqn:Ecall.
    destruct (e =? NO_ERROR) eqn:Ee; simpl in Hall |- *; [|injection Hall as -> _; done].
    set (h' := set_next free (match f with Some _ => set_kv NULL NULL h | None => h end)).
    destruct (IH fuel (h_next h) (<[q := h']> m) q (q :: fr) (uwrap 32 (n + 1)) a1)
      as (m' & free' & n' & Hrun & Hch & Hn' & Hfrm & Hsome).
    + by apply chain_insert.
    + simpl. split; [done|]. split; [done|]. exists free. rewrite lookup_insert_eq.
      split; [done|]. by apply chain_insert.
    + by rewrite <- Permutation_middle, NoDup_cons, not_elem_of_app.
    + lia.
    + rewrite length_app in Hb. simpl in Hb |- *. rewrite uwrap_small; lia.
    + rewrite length_app in *. simpl in *. lia.
    + rewrite <- Hall. f_equal. apply contents_ext. intros r Hr.
      rewrite lookup_insert_ne; [done|]. by intros ->.
    + exists m', free', n'. split; [exact Hrun|].
      simpl. rewrite <- app_assoc. simpl. split; [done|]. split; [done|]. split.
      * intros r [Hr1 Hr2]%not_elem_of_cons. rewrite Hfrm by done. by rewrite lookup_insert_ne.
      * intros r. rewrite Hsome. destruct (decide (q = r)) as [<-|Hr];
          [by rewrite lookup_insert_eq, Hh|by rewrite lookup_insert_ne].
Qed.

Lemma call_all_app f l1 l2 a a' :
  call_all f (l1 ++ l2) a = (NO_ERROR, a') ->
  exists a1, call_all f l1 a = (NO_ERROR, a1) /\ call_all f l2 a1 = (NO_ERROR, a').
Proof.
  revert a. induction l1 as [|[k d] l1 IH]; intros a; simpl; [eauto|].
  destruct (match f with Some g => g k d a | None => _ end) as [e a1].
  destruct (e =? NO_ERROR) eqn:E; simpl; [apply IH|]. intros [= -> _]. done.
Qed.

(** All chains. *)
Lemma clear_loop_ok f old ls m free fr n a a' :
  Forall2 (chain m) old ls -> chain m free fr -> NoDup (concat ls ++ fr) ->
  n = Z.of_nat (length fr) -> Z.of_nat (length (concat ls ++ fr)) < 2 ^ 32 ->
  call_all f (contents m (concat ls)) a = (NO_ERROR, a') ->
  exists m' free' n' fr',
    clear_loop f old (m, free, n) a
    = Some (NO_ERROR, replicate (length old) NULL, (m', free', n'), a')
    /\ chain m' free' fr' /\ n' = Z.of_nat (length fr') /\ fr' ≡ₚ concat ls ++ fr
    /\ (forall q, is_Some (m' !! q) <-> is_Some (m !! q)).
Proof.
  intros Hf. revert m free fr n a Hf. induction ls as [|l ls IH] in old |- *;
    intros m free fr n a Hf Hfr Hnd Hn Hb Hall; inversion Hf as [|p ? old' ? Hc Hf']; subst.
  { injection Hall as <-. simpl. eexists _, _, _, _. done. }
  simpl in Hnd, Hb, Hall. unfold contents in Hall. rewrite fmap_app in Hall.
  apply call_all_app in Hall as (a1 & Hall1 & Hall2). rewrite <- app_assoc in Hnd, Hb.
  pose proof Hnd as (Hndl & Hdis & _)%NoDup_app.
  destruct (clear_chain_ok f l (chain_fuel m) p m free fr (Z.of_nat (length fr)) a a1)
    as (m1 & free1 & n1 & Hrun & Hch1 & Hn1 & Hfrm & Hsome); try done.
  { rewrite (Permutation_app_comm (concat ls)), app_assoc in Hnd. by apply NoDup_app in Hnd as [? _]. }
  { unfold chain_fuel. apply Nat.lt_succ_r, entries_bound; [done|].
    intros q Hq. by eapply chain_lookup. }
  { rewrite !length_app in *. lia. }
  assert (forall q, q ∈ concat ls -> m1 !! q = m !! q) as Hls.
  { intros q Hq. apply Hfrm. intros Hql. apply (Hdis q Hql). rewrite elem_of_app. by left. }
  destruct (IH old' m1 free1 (rev l ++ fr) n1 a1) as (m' & free' & n' & fr' & Hrun' & Hch' & Hn' & Hp & Hsome').
  - eapply chains_ext; [|done]. intros q Hq. by rewrite Hls.
  - done.
  - by rewrite <- (Permutation_rev l), Permutation_app_swap_app.
  - done.
  - by rewrite <- (Permutation_rev l), Permutation_app_swap_app.
  - rewrite <- Hall2. f_equal. apply contents_ext. intros q Hq. by rewrite Hls.
  - exists m', free', n', fr'. cbn [clear_loop fst]. rewrite Hrun. obind. rewrite Z.eqb_refl.
    cbn [negb]. rewrite Hrun'. obind. split; [done|]. split; [done|]. split; [done|]. split.
    + by rewrite Hp, <- (Permutation_rev l), Permutation_app_swap_app, app_assoc.
    + intros q. by rewrite Hsome'.
Qed.

Lemma mht_clear_ok hash_func ht sh f a a' :
  wf hash_func ht sh ->
  call_all f (contents (t_heap ht) (concat (s_chains sh))) a = (NO_ERROR, a') ->
  exists ht' fr, mht_clear ht f a = Some (NO_ERROR, ht', a')
    /\ wf hash_func ht' (mkShape [] [] (replicate (length (t_table ht)) []) fr)
    /\ t_build_lru ht' = t_build_lru ht /\ t_brk ht' = t_brk ht.
Proof.
  intros Hwf Hall. pose proof (wf_nodup _ _ _ Hwf) as Hnd. pose proof (wf_count _ _ _ Hwf) as Hcount.
  destruct (clear_loop_ok f (t_table ht) (s_chains sh) (t_heap ht) (t_prealloc ht) (s_free sh)
              (t_nprealloc ht) a a')
    as (m' & free' & n' & fr & Hrun & Hch & Hn & Hp & Hsome).
  - apply (wf_chains _ _ _ Hwf).
  - apply (wf_free _ _ _ Hwf).
  - by rewrite (wf_perm _ _ _ Hwf).
  - apply (wf_nprealloc _ _ _ Hwf).
  - rewrite (wf_perm _ _ _ Hwf), length_app. lia.
  - done.
  - unfold mht_clear. rewrite Hrun. obind. rewrite Z.eqb_refl. cbn [negb].
    eexists _, fr. split; [done|]. split; [|done].
    constructor; simpl; try wf_keep Hwf; try done.
    + rewrite length_replicate. apply (wf_table _ _ _ Hwf).
    + by apply Forall2_replicate.
    + intros i c q h Hi. apply lookup_replicate_1 in Hi as [-> _]. by intros ?%not_elem_of_nil.
    + by constructor; [..|apply NoDup_nil_2|apply not_elem_of_nil].
    + intros _. split; [|done]. by constructor; [..|apply NoDup_nil_2|apply not_elem_of_nil].
    + by rewrite concat_replicate_nil.
    + by rewrite Hp, (wf_perm _ _ _ Hwf).
    + intros q Hq. apply (wf_heap _ _ _ Hwf). by apply Hsome.
    + by rewrite collisions_empty.
Qed.
End Clear.

(** ** Iteration *)

Section Map.
Context {A : Type} (map_func : Z -> Z -> MHT_TABLE * A -> option (Z * (MHT_TABLE * A))).
Context (P : list Z -> MHT_TABLE * A -> Prop).

(** [P rest st]: the entries [rest] are still to be visited in the state
    [st].  The function may remove the entry it is called with and change
    data, but keeps the entries to come in their order. *)
Context (HP : forall p rest st, P (p :: rest) st ->
  exists h st', t_heap st.1 !! p = Some h /\ p <> NULL /\ l_next (h_act h) = hd NULL rest
    /\ map_func (h_key h) (h_data h) st = Some (NO_ERROR, st') /\ P rest st').

Lemma map_loop_ok l fuel st :
  P l st -> (length l < fuel)%nat ->
  exists st', map_loop map_func fuel (hd NULL l) st = Some (NO_ERROR, st') /\ P [] st'.
Proof.
  revert fuel st. induction l as [|p l IH]; intros [|fuel] st Hst Hf; simpl in Hf; try lia.
  - exists st. done.
  - destruct (HP p l st Hst) as (h & st' & Hh & H0 & Hn & Hrun & Hst').
    destruct (IH fuel st' Hst' ltac:(lia)) as (st2 & Hrun2 & HP2).
    exists st2. split; [|done]. simpl. rewrite (proj2 (Z.eqb_neq p NULL) H0), Hh. obind.
    rewrite Hrun. obind. rewrite Z.eqb_refl. cbn [negb]. by rewrite Hn.
Qed.
End Map.
