(* ===== verification/MemoryHashSpec.v ===== *)
(** * Memory hash table: specification

    What a hash table promises its clients: a map from keys to data in the
    order of insertion, with a second order by use; and that the operations of
    the implementation do to this map what their specifications say. *)
From Stdlib Require Import ZArith Lia ZifyBool Sorting.Sorted.
From stdpp Require Import base list numbers gmap.
From S2P Require Import Prelude HashFunctions MemoryHash MemoryHashSize MemoryHashLists.
From S2P Require Import MemoryHashInv MemoryHashOps MemoryHashRehash MemoryHashRem.

Implicit Types m : gmap Z HENTRY.

(** What the table needs of the functions it is created with: the comparison
    is an equivalence and equal keys have the same hash. *)
Class MhtKeys (hash_func : Z -> Z -> Z) (cmp_func : Z -> Z -> bool) : Prop := {
  cmp_refl k : cmp_func k k = true;
  cmp_sym k1 k2 : cmp_func k1 k2 = true -> cmp_func k2 k1 = true;
  cmp_trans k1 k2 k3 : cmp_func k1 k2 = true -> cmp_func k2 k3 = true -> cmp_func k1 k3 = true;
  hash_cmp k1 k2 n : cmp_func k1 k2 = true -> hash_func k1 n = hash_func k2 n }.

(** ** The specification *)

(** The entries in the order of insertion, and, when the table keeps it, from
    the least to the most recently used. *)
Record SPEC := mkSpec {
  sp_ents : list (Z * Z);
  sp_lru : list (Z * Z);
  sp_build : bool }.

Section Spec.
Context (cmp_func : Z -> Z -> bool).

Definition same (k : Z) (a : Z * Z) : bool := cmp_func a.1 k.

Definition keys_unique (l : list (Z * Z)) : Prop :=
  StronglySorted (fun a b => cmp_func a.1 b.1 = false) l.

Definition lookup_key (k : Z) (l : list (Z * Z)) : option (Z * Z) :=
  head (filter (fun a => same k a = true) l).
Definition drop_key (k : Z) (l : list (Z * Z)) : list (Z * Z) :=
  filter (fun a => same k a = false) l.
Definition touch_key (k : Z) (l : list (Z * Z)) : list (Z * Z) :=
  drop_key k l ++ filter (fun a => same k a = true) l.
Definition change_key (keep : bool) (k d : Z) (l : list (Z * Z)) : list (Z * Z) :=
  (fun a => if same k a then (if keep then a.1 else k, d) else a) <$> l.

(** A NULL key is not looked up. *)
Definition spec_get (k : Z) (s : SPEC) : Z * SPEC :=
  if k =? NULL then (NULL, s)
  else (default NULL (snd <$> lookup_key k (sp_ents s)),
        mkSpec (sp_ents s) (touch_key k (sp_lru s)) (sp_build s)).

Definition spec_put (keep : bool) (k d : Z) (s : SPEC) : Z * SPEC :=
  (k, match lookup_key k (sp_ents s) with
      | Some _ => mkSpec (change_key keep k d (sp_ents s)) (change_key keep k d (sp_lru s))
                    (sp_build s)
      | None => mkSpec (sp_ents s ++ [(k, d)])
                  (if sp_build s then sp_lru s ++ [(k, d)] else sp_lru s) (sp_build s)
      end).

Definition spec_rem (k : Z) (s : SPEC) : Z * SPEC :=
  match lookup_key k (sp_ents s) with
  | Some _ => (NO_ERROR, mkSpec (drop_key k (sp_ents s)) (drop_key k (sp_lru s)) (sp_build s))
  | None => (ER_FAILED, s)
  end.

Definition spec_clear (s : SPEC) : SPEC := mkSpec [] [] (sp_build s).
End Spec.

(** ** Lists with one matching entry *)

Section Match.
Context (f : Z -> Z * Z) (b : Z * Z -> bool).

Lemma filter_one l1 p l2 :
  NoDup (l1 ++ p :: l2) -> b (f p) = true ->
  (forall q, q ∈ l1 ++ p :: l2 -> b (f q) = true -> q = p) ->
  filter (fun a => b a = true) (f <$> l1 ++ p :: l2) = [f p]
  /\ filter (fun a => b a = false) (f <$> l1 ++ p :: l2) = f <$> l1 ++ l2.
Proof.
  intros Hnd Hp Hu.
  assert (forall l, (forall q, q ∈ l -> q <> p /\ q ∈ l1 ++ p :: l2) ->
            filter (fun a => b a = true) (f <$> l) = []
            /\ filter (fun a => b a = false) (f <$> l) = f <$> l) as Hl.
  { induction l as [|q l IH]; intros Hq; [done|].
    destruct (Hq q ltac:(by left)) as [Hne Hin]. rewrite fmap_cons, !filter_cons.
    destruct IH as [-> ->]; [intros r Hr; apply Hq; by right|].
    assert (b (f q) <> true) as Hb by (intros E; by apply Hne, Hu).
    rewrite decide_False by done. rewrite decide_True by (by destruct (b (f q))). done. }
  apply NoDup_app in Hnd as (Hn1 & Hd & [Hp2 Hn2]%NoDup_cons).
  destruct (Hl l1) as [H1 H1'].
  { intros q Hq. split; [|rewrite elem_of_app; by left].
    intros ->. apply (Hd p Hq). by left. }
  destruct (Hl l2) as [H2 H2'].
  { intros q Hq. split; [by intros ->|]. rewrite elem_of_app. right. by right. }
  rewrite !fmap_app, fmap_cons, !filter_app, !filter_cons, H1, H1', H2, H2'.
  rewrite decide_True by done. rewrite decide_False by congruence. done.
Qed.

Lemma filter_none l :
  (forall q, q ∈ l -> b (f q) = false) ->
  filter (fun a => b a = true) (f <$> l) = []
  /\ filter (fun a => b a = false) (f <$> l) = f <$> l.
Proof.
  induction l as [|q l IH]; intros Hq; [done|]. rewrite fmap_cons, !filter_cons.
  destruct IH as [-> ->]; [intros r Hr; apply Hq; by right|].
  rewrite (Hq q) by (by left). done.
Qed.
End Match.

(** ** Refinement *)

Section Refine.
Context (hash_func : Z -> Z -> Z) (cmp_func : Z -> Z -> bool) (junk : HENTRY).
Context `{Hkeys : MhtKeys hash_func cmp_func}.
Notation wf := (wf hash_func).
Notation slot := (mht_slot hash_func).
Notation same := (same cmp_func).
Notation key_match := (key_match cmp_func).

Lemma slot_same k1 k2 n : cmp_func k1 k2 = true -> slot k1 n = slot k2 n.
Proof. intros Hc. unfold mht_slot. by rewrite (hash_cmp (hash_func := hash_func) k1 k2 n Hc). Qed.

Lemma key_match_same k h : key_match k h = same k (kv h).
Proof.
  unfold MemoryHash.key_match, MemoryHashSpec.same, kv. simpl.
  destruct (h_key h =? k) eqn:E; [|done]. apply Z.eqb_eq in E as ->. by rewrite cmp_refl.
Qed.

Lemma key_match_slot k : slot_test hash_func (key_match k) k.
Proof. intros h n Hm. rewrite key_match_same in Hm. by apply slot_same. Qed.

Lemma key_data_match_slot k d : slot_test hash_func (key_data_match cmp_func k d) k.
Proof. intros h n [Hm _]%andb_true_iff. by apply key_match_slot. Qed.

Lemma cmp_false_sym (a b : Z * Z) : cmp_func a.1 b.1 = false -> cmp_func b.1 a.1 = false.
Proof. intros Hab. destruct (cmp_func b.1 a.1) eqn:E; [|done]. by rewrite (cmp_sym _ _ E) in Hab. Qed.

(** Two entries that match a key have equal keys. *)
Lemma unique_match m l k p q :
  keys_unique cmp_func (contents m l) -> p ∈ l -> q ∈ l ->
  same k (kv_at m p) = true -> same k (kv_at m q) = true -> q = p.
Proof.
  intros Hu [i Hi]%list_elem_of_lookup [j Hj]%list_elem_of_lookup Hp Hq.
  destruct (decide (i = j)) as [->|Hij]; [congruence|].
  assert (cmp_func (kv_at m p).1 (kv_at m q).1 = false) as Hf.
  { refine (proj1 (StronglySorted_lookup (fun a b : Z * Z => cmp_func a.1 b.1 = false)
              (contents m l) _) Hu i j _ _ Hij _ _).
    - exact cmp_false_sym.
    - unfold contents. by rewrite list_lookup_fmap, Hi.
    - unfold contents. by rewrite list_lookup_fmap, Hj. }
  unfold MemoryHashSpec.same in *. by rewrite (cmp_trans _ _ _ Hp (cmp_sym _ _ Hq)) in Hf.
Qed.

(** A table and the map it stands for. *)
Definition represents (ht : MHT_TABLE) (s : SPEC) : Prop :=
  exists sh, wf ht sh
    /\ sp_ents s = contents (t_heap ht) (s_act sh)
    /\ sp_lru s = contents (t_heap ht) (s_lru sh)
    /\ sp_build s = t_build_lru ht /\ keys_unique cmp_func (sp_ents s).

(** The entry a key finds, in all three structures. *)
Record found (ht : MHT_TABLE) (sh : shape) (k p : Z) (a1 a2 l1 l2 c1 c2 : list Z) : Prop := mkFound {
  fd_null : p <> NULL;
  fd_act : s_act sh = a1 ++ p :: a2;
  fd_lru : t_build_lru ht = true -> s_lru sh = l1 ++ p :: l2;
  fd_chain : s_chains sh !! Z.to_nat (slot k (t_size ht)) = Some (c1 ++ p :: c2);
  fd_some : is_Some (t_heap ht !! p);
  fd_same : same k (kv_at (t_heap ht) p) = true;
  fd_only q : q ∈ s_act sh -> same k (kv_at (t_heap ht) q) = true -> q = p;
  fd_search : mht_search hash_func (key_match k) ht k = Some (end_of NULL c1, p) }.

Lemma kv_at_some m p h : m !! p = Some h -> kv_at m p = kv h.
Proof. unfold kv_at. by intros ->. Qed.

(** The place of an active entry in the LRU list. *)
Lemma lru_split ht sh p :
  wf ht sh -> p ∈ s_act sh ->
  exists l1 l2, t_build_lru ht = true -> s_lru sh = l1 ++ p :: l2.
Proof.
  intros Hwf Hp. destruct (t_build_lru ht) eqn:Hb; [|by exists [], []].
  destruct (wf_lru _ _ _ Hwf Hb) as [_ Hperm].
  assert (p ∈ s_lru sh) as (l1 & l2 & Hl)%list_elem_of_split by (by rewrite Hperm). eauto.
Qed.

Lemma search_spec ht sh k :
  wf ht sh -> keys_unique cmp_func (contents (t_heap ht) (s_act sh)) ->
  (exists p a1 a2 l1 l2 c1 c2, found ht sh k p a1 a2 l1 l2 c1 c2)
  \/ (exists x, mht_search hash_func (key_match k) ht k = Some (x, NULL)
        /\ forall q, q ∈ s_act sh -> same k (kv_at (t_heap ht) q) = false).
Proof.
  intros Hwf Hu. destruct (mht_search_ok hash_func ht sh _ k Hwf (key_match_slot k))
    as [(c1 & p & c2 & h & Hc & Hp & Hh & Hm & Hs)|(x & Hno & Hs)].
  - left. pose proof Hp as (a1 & a2 & Ha)%list_elem_of_split.
    assert (exists l1 l2, t_build_lru ht = true -> s_lru sh = l1 ++ p :: l2) as (l1 & l2 & Hl)
      by (by eapply lru_split).
    rewrite key_match_same, <- (kv_at_some _ _ _ Hh) in Hm.
    exists p, a1, a2, l1, l2, c1, c2. constructor; try done.
    + eapply wf_entry; [done|]. rewrite elem_of_app. by left.
    + intros q Hq Hmq. by eapply unique_match.
  - right. exists x. split; [done|]. intros q Hq.
    destruct (wf_entry _ _ _ Hwf q) as [_ [h Hh]]; [rewrite elem_of_app; by left|].
    rewrite (kv_at_some _ _ _ Hh), <- key_match_same. by eapply Hno.
Qed.

Section Found.
Context (ht : MHT_TABLE) (sh : shape) (k p : Z) (a1 a2 l1 l2 c1 c2 : list Z).
Context (Hwf : wf ht sh) (Hf : found ht sh k p a1 a2 l1 l2 c1 c2).

(** The lists of the specification around the entry that was found. *)
Lemma found_act :
  lookup_key cmp_func k (contents (t_heap ht) (s_act sh)) = Some (kv_at (t_heap ht) p)
  /\ drop_key cmp_func k (contents (t_heap ht) (s_act sh)) = contents (t_heap ht) (a1 ++ a2).
Proof.
  destruct Hf as [_ Ha _ _ _ Hs Ho _]. pose proof (wf_nodup _ _ _ Hwf) as (Hnd & _ & _)%NoDup_app.
  rewrite Ha in *. unfold lookup_key, drop_key, contents.
  destruct (filter_one (kv_at (t_heap ht)) (same k) a1 p a2 Hnd Hs Ho) as [-> ->]. done.
Qed.

Lemma found_lru :
  t_build_lru ht = true ->
  drop_key cmp_func k (contents (t_heap ht) (s_lru sh)) = contents (t_heap ht) (l1 ++ l2)
  /\ touch_key cmp_func k (contents (t_heap ht) (s_lru sh))
     = contents (t_heap ht) (l1 ++ l2 ++ [p]).
Proof.
  intros Hb. destruct Hf as [_ _ Hl _ _ Hs Ho _]. specialize (Hl Hb).
  destruct (wf_lru _ _ _ Hwf Hb) as [[_ _ _ Hnd _] Hperm].
  assert (forall q, q ∈ s_lru sh -> same k (kv_at (t_heap ht) q) = true -> q = p) as Ho'
    by (intros q Hq; apply Ho; by rewrite <- Hperm).
  rewrite Hl in *. unfold touch_key, drop_key, contents.
  destruct (filter_one (kv_at (t_heap ht)) (same k) l1 p l2 Hnd Hs Ho') as [-> ->].
  split; [done|]. by rewrite app_assoc, (fmap_app _ (l1 ++ l2)).
Qed.
End Found.

Lemma lru_in_act ht sh q : wf ht sh -> q ∈ s_lru sh -> q ∈ s_act sh.
Proof.
  intros Hwf Hq. destruct (t_build_lru ht) eqn:Hb.
  - destruct (wf_lru _ _ _ Hwf Hb) as [_ Hp]. by rewrite <- Hp.
  - destruct (wf_no_lru _ _ _ Hwf Hb) as [Hn _]. rewrite Hn in Hq. by apply not_elem_of_nil in Hq.
Qed.

Section Absent.
Context (ht : MHT_TABLE) (sh : shape) (k : Z) (Hwf : wf ht sh).
Context (Hno : forall q, q ∈ s_act sh -> same k (kv_at (t_heap ht) q) = false).

Lemma absent_act : lookup_key cmp_func k (contents (t_heap ht) (s_act sh)) = None.
Proof.
  unfold lookup_key, contents. by destruct (filter_none (kv_at (t_heap ht)) (same k) _ Hno) as [-> _].
Qed.

Lemma absent_lru :
  touch_key cmp_func k (contents (t_heap ht) (s_lru sh)) = contents (t_heap ht) (s_lru sh).
Proof.
  unfold touch_key, drop_key, contents.
  destruct (filter_none (kv_at (t_heap ht)) (same k) (s_lru sh)) as [-> ->];
    [|by rewrite app_nil_r].
  intros q Hq. apply Hno. by eapply lru_in_act.
Qed.
End Absent.

(** *** Lookup *)

Lemma get_refines ht s k :
  represents ht s ->
  exists r ht', mht_get hash_func cmp_func ht k = Some (r, ht')
    /\ r = (spec_get cmp_func k s).1 /\ represents ht' (spec_get cmp_func k s).2
    /\ t_brk ht' = t_brk ht.
Proof.
  intros Hrep. unfold mht_get, spec_get. destruct (k =? NULL); [by eexists _, ht|].
  destruct Hrep as (sh & Hwf & He & Hl & Hb & Hu). simpl. rewrite He in Hu |- *.
  destruct (search_spec ht sh k Hwf Hu) as [(p & a1 & a2 & l1 & l2 & c1 & c2 & Hf)|(x & -> & Hno)].
  - rewrite (fd_search _ _ _ _ _ _ _ _ _ _ Hf). obind.
    rewrite (proj2 (Z.eqb_neq p NULL) (fd_null _ _ _ _ _ _ _ _ _ _ Hf)).
    destruct (wf_adjust hash_func ht sh l1 p l2 Hwf (fd_lru _ _ _ _ _ _ _ _ _ _ Hf))
      as (ht' & -> & Hwf' & Hkv & Hb' & Hbrk). obind.
    destruct (fd_some _ _ _ _ _ _ _ _ _ _ Hf) as [h Hh].
    pose proof (Hkv p) as Hkp. rewrite Hh in Hkp.
    destruct (t_heap ht' !! p) as [h'|] eqn:Hh'; [|done]. injection Hkp as Hk Hd. obind.
    destruct (found_act _ _ _ _ _ _ _ _ _ _ Hwf Hf) as [-> _]. rewrite (kv_at_some _ _ _ Hh).
    eexists _, ht'. split; [done|]. split; [simpl; congruence|]. split; [|done].
    eexists. split; [exact Hwf'|]. simpl.
    rewrite (contents_ext (t_heap ht') (t_heap ht)) by (intros; apply Hkv).
    split; [done|]. rewrite (contents_ext (t_heap ht') (t_heap ht)) by (intros; apply Hkv).
    split; [|by rewrite Hb']. rewrite Hl. destruct (t_build_lru ht) eqn:Eb.
    + by destruct (found_lru _ _ _ _ _ _ _ _ _ _ Hwf Hf Eb) as [_ ->].
    + by destruct (wf_no_lru _ _ _ Hwf Eb) as [-> _].
  - obind. rewrite Z.eqb_refl, (absent_act _ _ _ Hno). eexists _, ht. split; [done|]. split; [done|].
    split; [|done]. exists sh. simpl. split; [done|]. split; [done|].
    rewrite Hl, (absent_lru _ _ _ Hwf Hno). done.
Qed.

(** *** Insertion *)

(** Changing the one entry that matches. *)
Lemma change_contents m m' l k d keep p :
  (forall q, q <> p -> kv <$> m' !! q = kv <$> m !! q) ->
  kv_at m' p = (if keep : bool then (kv_at m p).1 else k, d) ->
  same k (kv_at m p) = true ->
  (forall q, q ∈ l -> same k (kv_at m q) = true -> q = p) ->
  contents m' l = change_key cmp_func keep k d (contents m l).
Proof.
  intros Hkv Hp Hs Ho. unfold contents, change_key. rewrite <- list_fmap_compose.
  apply list_fmap_ext. intros i q Hq%list_elem_of_lookup_2. simpl.
  destruct (decide (q = p)) as [->|Hne]; [by rewrite Hs|].
  destruct (same k (kv_at m q)) eqn:E; [by apply Ho in E|].
  unfold kv_at. by rewrite Hkv.
Qed.

Lemma change_unique keep k d l :
  keys_unique cmp_func l -> keys_unique cmp_func (change_key cmp_func keep k d l).
Proof.
  intros Hu. unfold keys_unique, change_key in *. apply StronglySorted_lookup.
  { exact cmp_false_sym. }
  intros i j a b Hij. rewrite !list_lookup_fmap.
  destruct (l !! i) as [x|] eqn:Hx; [|done]. destruct (l !! j) as [y|] eqn:Hy; [|done].
  assert (forall x, exists e, cmp_func e x.1 = true
            /\ (if same k x then (if keep then x.1 else k, d) else x).1 = e) as Heq.
  { intros [kx dx]. unfold MemoryHashSpec.same. simpl. destruct (cmp_func kx k) eqn:E.
    - destruct keep; simpl; eexists; (split; [|done]); [apply cmp_refl|by apply cmp_sym].
    - exists kx. split; [apply cmp_refl|done]. }
  simpl. intros [= <-] [= <-]. destruct (Heq x) as (e1 & H1 & ->), (Heq y) as (e2 & H2 & ->).
  destruct (cmp_func e1 e2) eqn:E; [|done].
  assert (cmp_func x.1 y.1 = true) as Hc.
  { eapply cmp_trans; [by apply cmp_sym|]. by eapply cmp_trans. }
  assert (cmp_func x.1 y.1 = false); [|congruence].
  refine (proj1 (StronglySorted_lookup (fun a b : Z * Z => cmp_func a.1 b.1 = false) l _)
            Hu i j x y Hij Hx Hy).
  exact cmp_false_sym.
Qed.

Lemma snoc_unique l k d :
  keys_unique cmp_func l -> lookup_key cmp_func k l = None -> keys_unique cmp_func (l ++ [(k, d)]).
Proof.
  intros Hu Hn. unfold keys_unique. eapply StronglySorted_sym_perm.
  - exact cmp_false_sym.
  - apply Permutation_cons_append.
  - constructor; [done|]. apply Forall_forall. intros a Ha. simpl.
    destruct (cmp_func k a.1) eqn:E; [|done]. exfalso.
    apply cmp_sym in E. unfold lookup_key in Hn.
    assert (a ∈ filter (fun a => same k a = true) l) as Hin by (by apply list_elem_of_filter).
    destruct (filter _ l); [by apply not_elem_of_nil in Hin|done].
Qed.

(** The entry that was found gets the new data. *)
Lemma put_found ht s sh k d opt keep p a1 a2 l1 l2 c1 c2 :
  wf ht sh -> sp_ents s = contents (t_heap ht) (s_act sh) ->
  sp_lru s = contents (t_heap ht) (s_lru sh) -> sp_build s = t_build_lru ht ->
  keys_unique cmp_func (sp_ents s) -> found ht sh k p a1 a2 l1 l2 c1 c2 ->
  keep = negb (Z.land opt MHT_OPT_KEEP_KEY =? 0) ->
  exists ht', replace_entry k d opt p ht = Some ht'
    /\ represents ht' (spec_put cmp_func keep k d s).2 /\ t_brk ht' = t_brk ht.
Proof.
  intros Hwf He Hl Hb Hu Hf Hk. destruct (fd_some _ _ _ _ _ _ _ _ _ _ Hf) as [h Hh].
  pose proof (fd_same _ _ _ _ _ _ _ _ _ _ Hf) as Hs.
  unfold replace_entry. rewrite Hh. obind. eexists. split; [done|]. split; [|done].
  destruct (found_act _ _ _ _ _ _ _ _ _ _ Hwf Hf) as [Hlk _]. unfold spec_put. simpl.
  rewrite He, Hlk. exists sh. simpl.
  set (k' := if Z.land opt MHT_OPT_KEEP_KEY =? 0 then k else h_key h).
  assert (forall q, q <> p ->
            kv <$> <[p := set_kv k' d h]> (t_heap ht) !! q = kv <$> t_heap ht !! q) as Hkv
    by (intros q Hq; by rewrite lookup_insert_ne).
  assert (kv_at (<[p := set_kv k' d h]> (t_heap ht)) p
          = (if keep then (kv_at (t_heap ht) p).1 else k, d)) as Hp.
  { rewrite (kv_at_some _ _ _ Hh). unfold kv_at. rewrite lookup_insert_eq, Hk. unfold k'.
    by destruct (_ =? 0). }
  split.
  { apply wf_set_kv; [done|done|]. unfold k'. destruct (_ =? 0); [|done].
    symmetry. apply slot_same. by rewrite (kv_at_some _ _ _ Hh) in Hs. }
  split; [|split; [|split; [done|]]].
  - symmetry. apply (change_contents _ _ _ _ _ _ p); try done. apply (fd_only _ _ _ _ _ _ _ _ _ _ Hf).
  - rewrite Hl. symmetry. apply (change_contents _ _ _ _ _ _ p); try done.
    intros q Hq. apply (fd_only _ _ _ _ _ _ _ _ _ _ Hf). by eapply lru_in_act.
  - apply change_unique. by rewrite <- He.
Qed.

(** An entry for an insertion, saved or new, or none without memory. *)
Lemma take_ok al ht sh :
  wf ht sh -> room ht ->
  (exists p ht1 fr, take_entry junk al ht = Some (p, ht1) /\ p <> NULL
     /\ wf ht1 (mkShape (s_act sh) (s_lru sh) (s_chains sh) fr)
     /\ spare ht1 (mkShape (s_act sh) (s_lru sh) (s_chains sh) fr) p
     /\ (forall q, q ∈ s_act sh -> t_heap ht1 !! q = t_heap ht !! q)
     /\ t_build_lru ht1 = t_build_lru ht /\ t_size ht1 = t_size ht
     /\ t_brk ht <= t_brk ht1 <= t_brk ht + 1)
  \/ a_entry al = false /\ take_entry junk al ht = Some (NULL, ht).
Proof.
  intros Hwf Hr. destruct (s_free sh) as [|p fr] eqn:Hf.
  - destruct (a_entry al) eqn:Ha.
    + left. destruct (take_fresh hash_func junk al ht sh Hwf Hf Ha Hr) as (ht1 & Ht & H0 & Hwf1 & Hsp & Hh & Hb & Hs & Hbrk).
      exists (t_brk ht), ht1, []. destruct sh as [a l c f]. simpl in *. subst f.
      split; [done|]. split; [done|]. split; [done|]. split; [done|].
      split; [|split; [done|split; [done|lia]]].
      intros q Hq. rewrite Hh, lookup_insert_ne; [done|]. intros <-.
      destruct (wf_entry _ _ _ Hwf (t_brk ht)) as [_ Hsome]; [rewrite elem_of_app; by left|].
      apply (wf_heap _ _ _ Hwf) in Hsome. lia.
    + right. split; [done|]. unfold take_entry. pose proof (wf_nprealloc _ _ _ Hwf) as Hn.
      rewrite Hf in Hn. simpl in Hn. replace (t_nprealloc ht >? 0) with false by lia. by rewrite Ha.
  - left. destruct (take_saved hash_func junk al ht sh p fr Hwf Hf) as (ht1 & Ht & H0 & Hwf1 & Hsp & Hh & Hb & Hs & Hbrk).
    exists p, ht1, fr. split; [done|]. split; [done|]. split; [done|]. split; [done|].
    split; [|split; [done|split; [done|lia]]]. intros q Hq. by rewrite Hh.
Qed.

(** The growth of a table with a new entry, if it is due. *)
Lemma grow_ok al ht sh (p : Z) :
  wf ht sh -> (0 < length (s_act sh))%nat -> t_brk ht <= 2 ^ 26 ->
  exists e ht' cs,
    (if must_rehash ht
     then '(error, ht') ← mht_rehash hash_func al ht; Some (p, error, ht')
     else Some (p, NO_ERROR, ht)) = Some (p, e, ht')
    /\ (e = NO_ERROR \/ e = ER_OUT_OF_VIRTUAL_MEMORY /\ a_vector al = false)
    /\ wf ht' (mkShape (s_act sh) (s_lru sh) cs (s_free sh))
    /\ (forall q, kv <$> t_heap ht' !! q = kv <$> t_heap ht !! q)
    /\ t_build_lru ht' = t_build_lru ht /\ t_brk ht' = t_brk ht.
Proof.
  intros Hwf Hl Hb. destruct (must_rehash ht) eqn:Em.
  - destruct (mht_rehash_ok hash_func al ht sh Hwf)
      as (e & ht' & cs & -> & -> & Hwf' & Hkv & Hb' & Hbrk).
    { pose proof (wf_count _ _ _ Hwf). pose proof (wf_collisions _ _ _ Hwf).
      apply rehash_fits_entries; rewrite ?(wf_nentries _ _ _ Hwf), ?(wf_ncollisions _ _ _ Hwf);
        [apply (wf_size _ _ _ Hwf)|lia|apply (wf_rehash_at _ _ _ Hwf)|lia|done]. }
    obind. exists (if a_vector al then NO_ERROR else ER_OUT_OF_VIRTUAL_MEMORY), ht', cs.
    split; [done|]. split; [destruct (a_vector al); eauto|done].
  - exists NO_ERROR, ht, (s_chains sh). split; [done|]. split; [by left|].
    split; [by destruct sh|done].
Qed.

Lemma add_entry_ok al ht sh k d :
  wf ht sh -> room ht ->
  a_entry al = false /\ add_entry hash_func junk al ht k d = Some (NULL, NO_ERROR, ht)
  \/ exists p e ht' cs fr, add_entry hash_func junk al ht k d = Some (p, e, ht') /\ p <> NULL
       /\ (e = NO_ERROR \/ e = ER_OUT_OF_VIRTUAL_MEMORY /\ a_vector al = false)
       /\ wf ht' (mkShape (s_act sh ++ [p]) (if t_build_lru ht then s_lru sh ++ [p] else []) cs fr)
       /\ contents (t_heap ht') (s_act sh) = contents (t_heap ht) (s_act sh)
       /\ contents (t_heap ht') (s_lru sh) = contents (t_heap ht) (s_lru sh)
       /\ kv_at (t_heap ht') p = (k, d) /\ t_build_lru ht' = t_build_lru ht
       /\ t_brk ht' <= t_brk ht + 1.
Proof.
  intros Hwf Hr. unfold add_entry.
  destruct (take_ok al ht sh Hwf Hr)
    as [(p & ht1 & fr & Ht & H0 & Hwf1 & Hsp & Hag & Hb1 & Hs1 & Hbrk)|[Ha Ht]];
    [right|left; by rewrite Ht].
  rewrite Ht. obind. rewrite (proj2 (Z.eqb_neq p NULL) H0).
  destruct (link_entry_ok hash_func ht1 _ k d p Hwf1 Hsp)
    as (ht2 & c & Hlk & Hwf2 & Hkv & Hp & Hb2 & Hbrk2 & Hs2).
  rewrite Hs1 in Hlk. rewrite Hlk. obind. simpl in Hwf2. rewrite Hb1 in Hwf2.
  destruct (grow_ok al ht2 _ p Hwf2) as (e & ht3 & cs & -> & He & Hwf3 & Hkv3 & Hb3 & Hbrk3);
    [simpl; rewrite length_app; simpl; lia|unfold room in Hr; lia|].
  exists p, e, ht3, cs, fr. split; [done|]. split; [done|]. split; [done|]. split; [done|].
  assert (forall q, q ∈ s_act sh -> kv <$> t_heap ht3 !! q = kv <$> t_heap ht !! q) as Hact.
  { intros q Hq. rewrite Hkv3, Hkv, Hag; [done..|]. intros ->. by apply (sp_act _ _ _ Hsp). }
  split; [by apply contents_ext|]. split; [|split].
  - apply contents_ext. intros q Hq. apply Hact. by eapply lru_in_act.
  - unfold kv_at. by rewrite Hkv3, Hp.
  - split; [by rewrite Hb3, Hb2|lia].
Qed.

(** A new entry at the end of both lists of the specification. *)
Lemma add_refines al ht s k d keep :
  represents ht s -> room ht -> lookup_key cmp_func k (sp_ents s) = None ->
  exists p e ht', add_entry hash_func junk al ht k d = Some (p, e, ht')
    /\ t_brk ht' <= t_brk ht + 1
    /\ (p = NULL /\ a_entry al = false /\ ht' = ht
        \/ p <> NULL /\ represents ht' (spec_put cmp_func keep k d s).2
           /\ (e = NO_ERROR \/ e = ER_OUT_OF_VIRTUAL_MEMORY /\ a_vector al = false)).
Proof.
  intros (sh & Hwf & He & Hl & Hb & Hu) Hlim Hno.
  destruct (add_entry_ok al ht sh k d Hwf Hlim)
    as [[Ha Hadd]|(p & e & ht' & cs & fr & Hadd & H0 & Herr & Hwf' & Hca & Hcl & Hkp & Hb' & Hbrk)].
  { exists NULL, NO_ERROR, ht. split; [done|]. split; [lia|]. by left. }
  exists p, e, ht'. split; [done|]. split; [done|]. right. split; [done|]. split; [|done].
  unfold spec_put. simpl. rewrite Hno. eexists. split; [exact Hwf'|]. simpl.
  split; [|split; [|split]].
  - unfold contents. rewrite fmap_app. simpl. rewrite Hkp. f_equal. by rewrite He, <- Hca.
  - rewrite Hb. destruct (t_build_lru ht) eqn:Eb.
    + unfold contents. rewrite fmap_app. simpl. rewrite Hkp. f_equal. by rewrite Hl, <- Hcl.
    + rewrite Hl. by destruct (wf_no_lru _ _ _ Hwf Eb) as [-> _].
  - by rewrite Hb'.
  - by apply snoc_unique.
Qed.

(** What an insertion answers: the key, or NULL when memory is missing, in
    which case the entry may be in the table all the same. *)
Definition put_answer (al : ALLOC) (ht ht' : MHT_TABLE) (s : SPEC) (keep : bool) (k d r : Z) : Prop :=
  r = k /\ represents ht' (spec_put cmp_func keep k d s).2
  \/ r = NULL /\ a_entry al = false /\ lookup_key cmp_func k (sp_ents s) = None /\ ht' = ht
  \/ r = NULL /\ a_vector al = false /\ lookup_key cmp_func k (sp_ents s) = None
     /\ represents ht' (spec_put cmp_func keep k d s).2.

Lemma put_refines al ht s k d opt keep :
  represents ht s -> room ht ->
  Z.land opt MHT_OPT_INSERT_ONLY = 0 \/ lookup_key cmp_func k (sp_ents s) = None ->
  keep = negb (Z.land opt MHT_OPT_KEEP_KEY =? 0) ->
  exists r ht', mht_put_internal hash_func cmp_func junk al ht k d opt = Some (r, ht')
    /\ put_answer al ht ht' s keep k d r /\ t_brk ht' <= t_brk ht + 1.
Proof.
  intros Hrep Hlim Hopt Hkeep.
  pose proof Hrep as (sh & Hwf & He & Hl & Hb & Hu).
  assert (lookup_key cmp_func k (sp_ents s) = None ->
          exists r ht', ('(hentry, error, ht') ← add_entry hash_func junk al ht k d;
            if hentry =? NULL then Some (NULL, ht')
            else if error <? 0 then Some (NULL, ht') else Some (k, ht')) = Some (r, ht')
            /\ put_answer al ht ht' s keep k d r /\ t_brk ht' <= t_brk ht + 1) as Hadd.
  { intros Hno. destruct (add_refines al ht s k d keep Hrep Hlim Hno)
      as (p & e & ht' & -> & Hbrk & [(-> & Ha & ->)|(H0 & Hrep' & Herr)]); obind.
    - rewrite Z.eqb_refl. eexists _, ht. split; [done|]. split; [|done]. right. by left.
    - rewrite (proj2 (Z.eqb_neq p NULL) H0). destruct Herr as [->|[-> Hv]]; simpl;
        eexists _, ht'; (split; [done|split; [|done]]); [by left|right; by right]. }
  unfold mht_put_internal, search_opt. destruct (Z.land opt MHT_OPT_INSERT_ONLY =? 0) eqn:Ei.
  2:{ obind. rewrite Z.eqb_refl. cbn [negb]. apply Hadd. destruct Hopt; [lia|done]. }
  rewrite He in Hu. destruct (search_spec ht sh k Hwf Hu)
    as [(p & a1 & a2 & l1 & l2 & c1 & c2 & Hf)|(x & -> & Hno)].
  - rewrite (fd_search _ _ _ _ _ _ _ _ _ _ Hf). obind.
    rewrite (proj2 (Z.eqb_neq p NULL) (fd_null _ _ _ _ _ _ _ _ _ _ Hf)). cbn [negb].
    rewrite <- He in Hu.
    destruct (put_found ht s sh k d opt keep p a1 a2 l1 l2 c1 c2) as (ht' & -> & Hrep' & Hbrk); try done.
    obind. eexists _, ht'. split; [done|]. split; [by left|lia].
  - obind. rewrite Z.eqb_refl. cbn [negb]. apply Hadd. rewrite He. by apply (absent_act ht sh).
Qed.

(** *** Removal *)

Lemma keys_unique_remove m l1 p l2 :
  keys_unique cmp_func (contents m (l1 ++ p :: l2)) ->
  keys_unique cmp_func (contents m (l1 ++ l2)).
Proof.
  unfold keys_unique, contents. rewrite !fmap_app, fmap_cons.
  induction l1 as [|q l1 IH]; simpl.
  - by intros [? _]%StronglySorted_inv.
  - intros [Hs Hq]%StronglySorted_inv. constructor; [by apply IH|].
    rewrite Forall_app, Forall_cons in Hq. rewrite Forall_app. tauto.
Qed.

Lemma drop_unique k l : keys_unique cmp_func l -> keys_unique cmp_func (drop_key cmp_func k l).
Proof.
  unfold keys_unique, drop_key. induction 1 as [|a l Hs IH Ha]; [constructor|].
  rewrite filter_cons. destruct (decide _); [|done]. constructor; [done|].
  rewrite Forall_forall in *. intros b [_ Hb]%list_elem_of_filter. by apply Ha.
Qed.

Section Removal.
Context {A : Type}.

(** The entry of a key, as the caller's function sees it. *)
Lemma rem_refines ht s k (f : option (Z -> Z -> A -> Z * A)) a :
  represents ht s ->
  exists ht', t_brk ht' = t_brk ht /\
    match lookup_key cmp_func k (sp_ents s) with
    | None => mht_rem hash_func cmp_func ht k f a = Some (ER_FAILED, ht, a)
    | Some (k', d') =>
        let '(e, a') := match f with Some g => g k' d' a | None => (NO_ERROR, a) end in
        if e =? NO_ERROR
        then mht_rem hash_func cmp_func ht k f a = Some (NO_ERROR, ht', a')
             /\ represents ht' (spec_rem cmp_func k s).2
        else mht_rem hash_func cmp_func ht k f a = Some (e, ht, a')
    end.
Proof.
  intros (sh & Hwf & He & Hl & Hb & Hu). unfold mht_rem, rem_found, spec_rem.
  pose proof Hu as Hu'. rewrite He in Hu'. 
  destruct (search_spec ht sh k Hwf Hu') as [(p & a1 & a2 & l1 & l2 & c1 & c2 & Hf)|(x & -> & Hno)].
  2:{ exists ht. split; [done|]. rewrite He, (absent_act _ _ _ Hno). obind. by rewrite Z.eqb_refl. }
  destruct (rem_entry_ok hash_func ht sh (slot k (t_size ht)) a1 p a2 l1 l2 c1 c2 Hwf
              (fd_act _ _ _ _ _ _ _ _ _ _ Hf) (fd_lru _ _ _ _ _ _ _ _ _ _ Hf)
              (fd_chain _ _ _ _ _ _ _ _ _ _ Hf)) as (ht' & Hrun & Hwf' & Hkv & Hb' & Hbrk).
  exists ht'. split; [done|]. destruct (found_act _ _ _ _ _ _ _ _ _ _ Hwf Hf) as [Hlk Hdr].
  rewrite <- He in Hlk, Hdr. rewrite Hlk.
  destruct (fd_some _ _ _ _ _ _ _ _ _ _ Hf) as [h Hh]. rewrite (kv_at_some _ _ _ Hh).
  rewrite (fd_search _ _ _ _ _ _ _ _ _ _ Hf). obind. simpl kv.
  rewrite (proj2 (Z.eqb_neq p NULL) (fd_null _ _ _ _ _ _ _ _ _ _ Hf)), Hh. obind.
  unfold call_func, kv. destruct (match f with Some g => _ | None => _ end) as [e a'].
  destruct (e =? NO_ERROR); cbn [negb]; [|done]. rewrite Hrun. obind. split; [done|].
  eexists. split; [exact Hwf'|]. simpl. rewrite Hdr.
  split; [|split; [|split]].
  - apply contents_ext. intros q _. by rewrite Hkv.
  - rewrite Hl. destruct (t_build_lru ht) eqn:Eb.
    + destruct (found_lru _ _ _ _ _ _ _ _ _ _ Hwf Hf Eb) as [-> _].
      apply contents_ext. intros q _. by rewrite Hkv.
    + by destruct (wf_no_lru _ _ _ Hwf Eb) as [-> _].
  - by rewrite Hb'.
  - rewrite <- Hdr. by apply drop_unique.
Qed.

(** Clearing calls the function once for every entry. *)
Lemma clear_refines ht s :
  represents ht s ->
  exists l, l ≡ₚ sp_ents s
    /\ forall (f : option (Z -> Z -> A -> Z * A)) a a',
         call_all f l a = (NO_ERROR, a') ->
         exists ht', mht_clear ht f a = Some (NO_ERROR, ht', a')
           /\ represents ht' (spec_clear s) /\ t_brk ht' = t_brk ht.
Proof.
  intros (sh & Hwf & He & Hl & Hb & Hu).
  exists (contents (t_heap ht) (concat (s_chains sh))). split.
  - rewrite He. unfold contents. by rewrite (wf_perm _ _ _ Hwf).
  - intros f a a' Hall. destruct (mht_clear_ok hash_func ht sh f a a' Hwf Hall)
      as (ht' & fr & Hrun & Hwf' & Hb' & Hbrk).
    exists ht'. split; [done|]. split; [|done]. eexists. split; [exact Hwf'|]. simpl.
    split; [done|]. split; [done|]. split; [by rewrite Hb'|constructor].
Qed.
End Removal.
End Refine.
