(* ===== verification/HashFunctionsProps.v ===== *)
(** * Hash functions: range and agreement with the comparisons

    Every hash is a slot of the table, keys that compare equal have the same
    hash, and the size chosen for a table is at least the one asked for. *)
From Stdlib Require Import ZArith Lia ZifyBool.
From stdpp Require Import base list numbers gmap.
From S2P Require Import Prelude HashFunctions MemoryHash MemoryHashSize MemoryHashSpec.

(** ** Strings with a terminator *)

Definition c_string (s : list Z) : Prop := 0 ∈ s.

Lemma str_loop_total {A} (step : A -> Z -> A) s acc :
  c_string s -> exists x, str_loop step s (-1) acc = Some x.
Proof.
  revert acc. induction s as [|b s IH]; intros acc Hs; [by apply not_elem_of_nil in Hs|].
  cbn [str_loop]. destruct (b =? 0) eqn:E; [by eauto|]. apply IH.
  apply elem_of_cons in Hs as [<-|Hs]; [lia|done].
Qed.

(** Strings that are equal up to a function of the bytes which the step cannot
    distinguish give the same result. *)
Lemma str_loop_equal {A} (step : A -> Z -> A) f s1 s2 acc :
  (forall a b1 b2, f b1 = f b2 -> step a b1 = step a b2) -> (forall b, f b = 0 <-> b = 0) ->
  str_equal f s1 s2 = true -> str_loop step s1 (-1) acc = str_loop step s2 (-1) acc.
Proof.
  intros Hstep Hf. revert s2 acc. induction s1 as [|b1 s1 IH]; intros [|b2 s2] acc; try done.
  cbn [str_equal str_loop]. intros [Hb%Z.eqb_eq Hr]%andb_true_iff.
  assert (b1 =? 0 = (b2 =? 0)) as E.
  { apply eq_bool_prop_intro. pose proof (Hf b1). pose proof (Hf b2).
    rewrite !Is_true_true, !Z.eqb_eq. rewrite Hb in *. tauto. }
  change (-1 =? -1) with true. cbv iota. rewrite E in *.
  destruct (b2 =? 0); [done|]. rewrite (Hstep acc b1 b2 Hb). by apply IH.
Qed.

Section StrEqual.
Context (f : Z -> Z) (Hf : forall b, f b = 0 <-> b = 0).

Lemma str_equal_refl s : c_string s -> str_equal f s s = true.
Proof.
  induction s as [|b s IH]; intros Hs; [by apply not_elem_of_nil in Hs|].
  simpl. rewrite Z.eqb_refl. destruct (b =? 0) eqn:E; [done|].
  apply IH. apply elem_of_cons in Hs as [<-|Hs]; [lia|done].
Qed.

Lemma str_equal_sym s1 s2 : str_equal f s1 s2 = true -> str_equal f s2 s1 = true.
Proof.
  revert s2. induction s1 as [|b1 s1 IH]; intros [|b2 s2]; try done. simpl.
  intros [Hb%Z.eqb_eq Hr]%andb_true_iff. rewrite Hb, Z.eqb_refl. simpl.
  pose proof (Hf b1). pose proof (Hf b2).
  destruct (b2 =? 0) eqn:E2; [done|]. apply IH.
  destruct (b1 =? 0) eqn:E1; [|done]. exfalso. rewrite Hb in *. lia.
Qed.

Lemma str_equal_trans s1 s2 s3 :
  str_equal f s1 s2 = true -> str_equal f s2 s3 = true -> str_equal f s1 s3 = true.
Proof.
  revert s2 s3. induction s1 as [|b1 s1 IH]; intros [|b2 s2] [|b3 s3]; try done. simpl.
  intros [Hb%Z.eqb_eq Hr]%andb_true_iff [Hb'%Z.eqb_eq Hr']%andb_true_iff.
  rewrite Hb, Hb', Z.eqb_refl. simpl. pose proof (Hf b1). pose proof (Hf b2).
  destruct (b1 =? 0) eqn:E1; [done|]. apply (IH s2); [done|].
  destruct (b2 =? 0) eqn:E2; [|done]. exfalso. rewrite Hb in *. lia.
Qed.
End StrEqual.

Lemma char_tolower_zero b : char_tolower b = 0 <-> b = 0.
Proof. unfold char_tolower, char_isupper. zcase; lia. Qed.

(** ** Identifiers *)

(** The number of bytes before the terminator. *)
Fixpoint c_len (s : list Z) : nat :=
  match s with
  | [] => O
  | b :: s => if b =? 0 then O else S (c_len s)
  end.

Lemma strlen_c_len s : c_string s -> strlen s = Some (Z.of_nat (c_len s)).
Proof.
  intros Hs. unfold strlen.
  assert (forall acc, str_loop (fun n (_ : Z) => n + 1) s (-1) acc
            = Some (acc + Z.of_nat (c_len s))) as H; [|by rewrite H].
  induction s as [|b s IH]; intros acc; [by apply not_elem_of_nil in Hs|].
  cbn [str_loop c_len]. change (-1 =? -1) with true. cbv iota.
  destruct (b =? 0) eqn:E; [f_equal; lia|].
  rewrite IH; [f_equal; lia|]. apply elem_of_cons in Hs as [<-|Hs]; [lia|done].
Qed.

(** Comparing the lengths first and then the letters regardless of case is a
    comparison up to the terminators. *)
Lemma intl_identifier_equal_spec s1 s2 :
  c_string s1 -> c_string s2 ->
  intl_identifier_equal s1 s2 = str_equal char_tolower s1 s2.
Proof.
  intros H1 H2. unfold intl_identifier_equal. rewrite !strlen_c_len by done.
  rewrite Nat2Z.id. revert s2 H2.
  induction s1 as [|b1 s1 IH]; intros [|b2 s2] H2;
    [by apply not_elem_of_nil in H1|by apply not_elem_of_nil in H1|by apply not_elem_of_nil in H2|].
  cbn [c_len str_equal].
  pose proof (char_tolower_zero b1). pose proof (char_tolower_zero b2).
  destruct (b1 =? 0) eqn:E1, (b2 =? 0) eqn:E2; cbn [orb].
  - simpl. by replace (char_tolower b1 =? char_tolower b2) with true by lia.
  - replace (char_tolower b1 =? char_tolower b2) with false by lia. by rewrite (proj2 (Z.eqb_neq _ _)) by lia.
  - replace (char_tolower b1 =? char_tolower b2) with false by lia. by rewrite (proj2 (Z.eqb_neq _ _)) by lia.
  - apply elem_of_cons in H1 as [?|H1]; [lia|]. apply elem_of_cons in H2 as [?|H2]; [lia|].
    specialize (IH H1 s2 H2). cbn [strncase_equal]. rewrite E1. cbn [orb]. rewrite <- IH.
    replace (Z.of_nat (S (c_len s1)) =? Z.of_nat (S (c_len s2)))
      with (Z.of_nat (c_len s1) =? Z.of_nat (c_len s2)) by lia.
    destruct (Z.of_nat (c_len s1) =? _); cbn [negb]; [done|]. by rewrite andb_false_r.
Qed.

(** ** The keys of the tables *)

(** The objects the keys point to; strings have a terminator. *)
Section Keys.
Context (str : Z -> list Z) (Hstr : forall p, c_string (str p)).
Context (int_at : Z -> Z).

(** A hash function of strings, on pointers. *)
Definition on_str (hash : list Z -> Z -> option Z) (p n : Z) : Z := default 0 (hash (str p) n).

Lemma string_keys hash :
  (forall s1 s2 n, str_equal (fun b => b) s1 s2 = true -> hash s1 n = hash s2 n) ->
  MhtKeys (on_str hash) (fun p q => mht_compare_strings_are_equal (str p) (str q)).
Proof.
  intros Hh. unfold mht_compare_strings_are_equal. constructor.
  - intros k. by apply str_equal_refl.
  - intros k1 k2. by apply str_equal_sym.
  - intros k1 k2 k3. by apply str_equal_trans.
  - intros k1 k2 n Hc. unfold on_str. by rewrite (Hh _ _ n Hc).
Qed.

Lemma loop_hash {A} (step : A -> Z -> A) acc (g : A -> Z -> Z) s1 s2 n :
  str_equal (fun b => b) s1 s2 = true ->
  (x ← str_loop step s1 (-1) acc; Some (g x n)) = (x ← str_loop step s2 (-1) acc; Some (g x n)).
Proof.
  intros Hc. by rewrite (str_loop_equal step (fun b => b) s1 s2 acc) by (naive_solver || done).
Qed.

Lemma keys_1str :
  MhtKeys (on_str mht_1strhash) (fun p q => mht_compare_strings_are_equal (str p) (str q)).
Proof. apply string_keys. intros s1 s2 n Hc. by apply (loop_hash _ 0 (fun h n => h mod n)). Qed.

Lemma keys_2str :
  MhtKeys (on_str mht_2strhash) (fun p q => mht_compare_strings_are_equal (str p) (str q)).
Proof. apply string_keys. intros s1 s2 n Hc. by apply (loop_hash _ 0 (fun h n => h mod n)). Qed.

Lemma mht_4strhash_equal s1 s2 n :
  str_equal (fun b => b) s1 s2 = true -> mht_4strhash s1 n = mht_4strhash s2 n.
Proof.
  intros Hc. unfold mht_4strhash, mht_4str_pseudo_key.
  destruct s1 as [|b1 s1], s2 as [|b2 s2]; try done.
  pose proof Hc as [->%Z.eqb_eq Hr]%andb_true_iff. cbn [Z.eqb Pos.eqb].
  destruct (b2 =? 0) eqn:E; cbn [negb].
  - by rewrite (str_loop_equal step_4str (fun b => b) (b2 :: s1) (b2 :: s2)) by (naive_solver || done).
  - by rewrite (str_loop_equal step_4str (fun b => b) s1 s2) by (naive_solver || done).
Qed.

Lemma keys_4str :
  MhtKeys (on_str mht_4strhash) (fun p q => mht_compare_strings_are_equal (str p) (str q)).
Proof. apply string_keys. exact mht_4strhash_equal. Qed.

Lemma loop_5str_equal s1 s2 hash i :
  str_equal (fun b => b) s1 s2 = true ->
  loop_5str s1 (-1) hash i = loop_5str s2 (-1) hash i.
Proof.
  revert s2 hash i. induction s1 as [|b1 s1 IH]; intros [|b2 s2] hash i; try done.
  cbn [str_equal loop_5str]. intros [->%Z.eqb_eq Hr]%andb_true_iff.
  change (-1 =? -1) with true. cbv iota.
  destruct (char_value b2 =? 0) eqn:E; [done|]. apply IH.
  destruct (b2 =? 0) eqn:E0; [|done]. apply Z.eqb_eq in E0 as ->. done.
Qed.

Lemma keys_5str :
  MhtKeys (on_str mht_5strhash) (fun p q => mht_compare_strings_are_equal (str p) (str q)).
Proof.
  apply string_keys. intros s1 s2 n Hc. unfold mht_5strhash, mht_5str_pseudo_key.
  by rewrite (loop_5str_equal s1 s2).
Qed.

Lemma keys_identifier :
  MhtKeys (on_str mht_1strlowerhash) (fun p q => mht_compare_identifiers_equal (str p) (str q)).
Proof.
  unfold mht_compare_identifiers_equal.
  constructor; intros *; rewrite !intl_identifier_equal_spec by done.
  - by apply str_equal_refl.
  - apply str_equal_sym, char_tolower_zero.
  - apply str_equal_trans, char_tolower_zero.
  - intros Hc. unfold on_str, mht_1strlowerhash.
    rewrite (str_loop_equal step_1strlower char_tolower (str k1) (str k2)); try done.
    + unfold step_1strlower. by intros a b1 b2 ->.
    + apply char_tolower_zero.
Qed.

Lemma keys_int :
  MhtKeys (fun p => mht_numhash (int_at p))
    (fun p q => mht_compare_ints_are_equal (int_at p) (int_at q)).
Proof.
  unfold mht_compare_ints_are_equal. constructor; intros *; rewrite ?Z.eqb_eq; [done|done|congruence|].
  by intros ->.
Qed.

Lemma keys_logpageid :
  MhtKeys (fun p => mht_logpageidhash (int_at p))
    (fun p q => mht_compare_logpageids_are_equal (int_at p) (int_at q)).
Proof.
  unfold mht_compare_logpageids_are_equal.
  constructor; intros *; rewrite ?Z.eqb_eq; [done|done|congruence|]. by intros ->.
Qed.
End Keys.

#[export] Instance keys_ptr : MhtKeys mht_ptrhash mht_compare_ptrs_are_equal.
Proof.
  unfold mht_compare_ptrs_are_equal.
  constructor; intros *; rewrite ?Z.eqb_eq; [done|done|congruence|]. by intros ->.
Qed.

(** ** Range *)

Lemma mht_3strhash_range s n h : 0 < n -> mht_3strhash s n = Some h -> 0 <= h < n.
Proof.
  intros Hn. unfold mht_3strhash, mht_3str_pseudo_key.
  assert (forall fuel p k acc, 0 <= acc < n ->
            loop_3str fuel n s p k acc = Some h -> 0 <= h < n) as H; [|apply H; lia].
  induction fuel as [|fuel IH]; intros p k acc Ha; [done|]. cbn [loop_3str].
  assert (forall b, 0 <= uwrap 32 (uwrap 32 (acc * 32) + b) mod n < n) as Hm
    by (intros b; apply Z.mod_pos_bound; lia).
  repeat zcase; try (by intros [= <-]);
    (destruct (s !! p) as [b|]; [obind|done]); repeat zcase; try (by intros [= <-]); apply IH, Hm.
Qed.

(** Terminated strings are hashed without leaving the object. *)
Lemma loop_hash_total {A} (step : A -> Z -> A) acc (g : A -> Z) s n :
  c_string s -> 0 < n ->
  exists h, (x ← str_loop step s (-1) acc; Some (g x mod n)) = Some h /\ 0 <= h < n.
Proof.
  intros Hs Hn. destruct (str_loop_total step s acc Hs) as [x ->]. obind.
  eexists. split; [done|]. by apply Z.mod_pos_bound.
Qed.

Lemma str_loop_4str s bs :
  length bs = 4%nat -> c_string s ->
  exists b1 b2 b3 b4, str_loop step_4str s (-1) bs = Some [b1; b2; b3; b4].
Proof.
  revert bs. induction s as [|b s IH]; intros bs Hl Hs; [by apply not_elem_of_nil in Hs|].
  cbn [str_loop]. change (-1 =? -1) with true. cbv iota. destruct (b =? 0) eqn:E.
  - destruct bs as [|b1 [|b2 [|b3 [|b4 [|]]]]]; try done. by eexists _, _, _, _.
  - apply IH; [unfold step_4str; by rewrite length_fmap|].
    apply elem_of_cons in Hs as [<-|Hs]; [lia|done].
Qed.

Lemma mht_4strhash_total s n :
  c_string s -> 0 < n -> exists h, mht_4strhash s n = Some h /\ 0 <= h < n.
Proof.
  intros Hs Hn. unfold mht_4strhash, mht_4str_pseudo_key.
  destruct s as [|b s]; [by apply not_elem_of_nil in Hs|]. change (-1 =? -1) with true. cbv iota.
  match goal with |- context [str_loop step_4str _ _ ?bs] => set (start := bs) end.
  assert (exists s', (if negb (b =? 0) then (s, -1) else (b :: s, -1)) = (s', -1) /\ c_string s')
    as (s' & -> & Hs').
  { destruct (b =? 0) eqn:E; [by exists (b :: s)|]. exists s. split; [done|].
    apply elem_of_cons in Hs as [<-|Hs]; [lia|done]. }
  destruct (str_loop_4str s' start eq_refl Hs') as (b1 & b2 & b3 & b4 & ->). obind.
  eexists. split; [done|]. by apply Z.mod_pos_bound.
Qed.

Lemma mht_5strhash_total s n :
  c_string s -> 0 < n -> exists h, mht_5strhash s n = Some h /\ 0 <= h < n.
Proof.
  intros Hs Hn. unfold mht_5strhash, mht_5str_pseudo_key.
  assert (forall hash i, exists x, loop_5str s (-1) hash i = Some x) as Ht.
  { induction s as [|b s IH]; intros hash i; [by apply not_elem_of_nil in Hs|].
    cbn [loop_5str]. change (-1 =? -1) with true. cbv iota.
    destruct (char_value b =? 0) eqn:E; [by eauto|]. apply IH.
    apply elem_of_cons in Hs as [<-|Hs]; [by vm_compute in E|done]. }
  destruct (Ht 5381 0) as [[hash i] ->]. obind. eexists. split; [done|]. by apply Z.mod_pos_bound.
Qed.

(** ** The hash of a value *)

(** The loop over trailing spaces stays in the string when it starts there. *)
Lemma trim_loop_total fuel s i :
  0 <= i < Z.of_nat (length s) -> (Z.to_nat i < fuel)%nat ->
  exists j, trim_loop fuel s i = Some j /\ 0 <= j <= i.
Proof.
  revert i. induction fuel as [|fuel IH]; intros i Hi Hf; [lia|]. cbn [trim_loop].
  destruct (i =? 0) eqn:E; [eexists; split; [done|lia]|].
  destruct (lookup_lt_is_Some_2 s (Z.to_nat i)) as [c Hc]; [lia|].
  unfold char_at. replace (i <? 0) with false by lia. rewrite Hc. obind.
  repeat zcase; try (eexists; split; [done|lia]).
  destruct (IH (i - 1)) as (j & -> & Hj); [lia..|]. eexists. split; [done|lia].
Qed.

(** A string that is not empty, and whose size is known or which has a
    terminator. *)
Definition string_ok (s : list Z) (size : Z) : Prop :=
  0 < size <= Z.of_nat (length s) \/ size < 0 /\ c_string s /\ (0 < c_len s)%nat.

Definition value_ok (v : HASH_VALUE) : Prop :=
  match v with HASH_STRING _ (Some s) size => string_ok s size | _ => True end.

Lemma c_len_length s : c_string s -> (c_len s < length s)%nat.
Proof.
  induction s as [|b s IH]; intros Hs; [by apply not_elem_of_nil in Hs|]. simpl.
  destruct (b =? 0) eqn:E; [lia|]. apply elem_of_cons in Hs as [<-|Hs]; [lia|].
  specialize (IH Hs). lia.
Qed.

Lemma shiftmult_range key n : 0 < n -> 0 <= mht_get_shiftmult32 key n < n.
Proof. intros Hn. by apply Z.mod_pos_bound. Qed.

Lemma string_hash_total mht2str n col s size :
  1 < n -> string_ok s size ->
  exists h, mht_get_hash_number mht2str n (Some (HASH_STRING col (Some s) size)) = Some h
    /\ 0 <= h < n.
Proof.
  intros Hn Hs. unfold mht_get_hash_number. replace (n <=? 1) with false by lia.
  assert (exists len, (if size <? 0 then strlen s else Some size) = Some len
            /\ 0 < len <= Z.of_nat (length s)) as (len & -> & Hlen).
  { destruct Hs as [Hs|(Hneg & Hc & Hl)].
    - replace (size <? 0) with false by lia. eauto.
    - replace (size <? 0) with true by lia. rewrite strlen_c_len by done.
      pose proof (c_len_length s Hc). eexists. split; [done|lia]. }
  obind. destruct (trim_loop_total (S (length s)) s (len - 1)) as (i & -> & Hi); [lia..|]. obind.
  assert (exists c, char_at s 0 = Some c) as [c ->] by (destruct s; [simpl in *; lia|by eexists]).
  obind.
  zcase; eexists; (split; [done|]); [lia|apply Z.mod_pos_bound; lia].
Qed.

(** ** Size of a table *)

(** The numbers around the range that is still searched are on its two sides,
    whether or not the table is sorted. *)
Lemma prime_search_spec fuel x middle left right i :
  0 <= left <= right + 1 -> right < NPRIMES ->
  (0 < left -> prime_at (left - 1) < x) ->
  (right + 1 < NPRIMES -> x < prime_at (right + 1)) ->
  left <= right \/ middle = right /\ 0 < left \/ middle = right + 1 /\ right + 1 < NPRIMES ->
  prime_search fuel x middle left right = Some i ->
  x <= prime_at i \/ prime_at i < x /\ (i + 1 < NPRIMES -> x < prime_at (i + 1)).
Proof.
  revert middle left right. induction fuel as [|fuel IH]; intros middle left right Hl Hr Hlo Hhi Hm; [done|].
  cbn [prime_search]. destruct (left <=? right) eqn:E.
  - assert (left <= CEIL_PTVDIV (left + right) 2 <= right) as Hc.
    { unfold CEIL_PTVDIV. zcase; [lia|]. rewrite Z.quot_div_nonneg by lia. dlia. }
    set (c := CEIL_PTVDIV (left + right) 2) in *.
    destruct (x =? prime_at c) eqn:E1; [intros [= <-]; left; lia|].
    destruct (x >? prime_at c) eqn:E2.
    + apply IH; [lia|lia| |done|lia]. intros _. replace (c + 1 - 1) with c by lia. lia.
    + apply IH; [lia|lia|done| |lia]. intros _. replace (c - 1 + 1) with c by lia. lia.
  - intros [= <-]. destruct Hm as [Hm|[[-> Hm]|[-> Hm]]]; [lia| |].
    + right. split; [|done]. replace right with (left - 1) by lia. by apply Hlo.
    + left. specialize (Hhi Hm). lia.
Qed.

Lemma htsize_small x :
  0 <= x <= 29123 -> exists n, mht_calculate_htsize x = Some n /\ x <= n /\ n ∈ mht_Primes.
Proof.
  intros Hx. unfold mht_calculate_htsize. change (prime_at (NPRIMES - 1)) with 29123.
  replace (x >? 29123) with false by lia.
  destruct (prime_search_ok 171 x 0 0 (NPRIMES - 1)) as (i & Hi & Hr);
    [unfold NPRIMES; simpl; lia..|].
  pose proof (prime_search_spec 171 x 0 0 (NPRIMES - 1) i) as Hs.
  rewrite Hi in Hs |- *. obind. unfold NPRIMES in *.
  specialize (Hs ltac:(lia) ltac:(lia) ltac:(lia) ltac:(lia) ltac:(lia) eq_refl).
  assert (forall j, 0 <= j < 170 -> prime_at j ∈ mht_Primes) as Hin.
  { intros j Hj. unfold prime_at. apply list_elem_of_In, nth_In.
    change (length mht_Primes) with 170%nat. lia. }
  eexists. split; [done|].
  destruct ((x >? prime_at i) && (i <? 170 - 1)) eqn:E.
  - split; [|apply Hin; lia]. destruct Hs as [Hs|[_ Hs]]; [lia|]. specialize (Hs ltac:(lia)). lia.
  - split; [|apply Hin; lia]. destruct Hs as [Hs|[Hs _]]; [done|].
    replace i with 169 in * by lia. change (prime_at 169) with 29123 in Hs. lia.
Qed.

Lemma htsize_large x :
  29123 < x < 2 ^ 31 ->
  mht_calculate_htsize x = Some (if Z.land x (x - 1) =? 0 then x else 2 * x).
Proof.
  intros Hx. unfold mht_calculate_htsize. change (prime_at (NPRIMES - 1)) with 29123.
  replace (x >? 29123) with true by lia. rewrite uwrap_small by lia.
  destruct (Z.land x (x - 1) =? 0) eqn:E; cbn [negb]; [done|].
  rewrite turn_off_none by (by rewrite uwrap_small by lia). obind.
  rewrite Z.shiftl_mul_pow2, uwrap_small by lia. f_equal. lia.
Qed.

(** ** Properties *)

(** Every hash of a terminated string is computed without reading behind
    the terminator and is a slot of the table, for each of the functions except
    mht_3strhash, whose result is a slot when it is defined; the hash of a
    value is a slot, also for the smallest tables. *)
Theorem mht_hash_in_range mht2str s key v n :
  0 < n < 2 ^ 31 -> c_string s -> 0 <= key -> value_ok v ->
  (forall hash, hash ∈ [mht_1strlowerhash; mht_1strhash; mht_2strhash; mht_4strhash; mht_5strhash] ->
     exists h, hash s n = Some h /\ 0 <= h < n)
  /\ (forall h, mht_3strhash s n = Some h -> 0 <= h < n)
  /\ 0 <= mht_numhash key n < n /\ 0 <= mht_logpageidhash key n < n /\ 0 <= mht_ptrhash key n < n
  /\ exists h, mht_get_hash_number mht2str n (Some v) = Some h /\ 0 <= h < n.
Proof.
  intros Hn Hs Hk Hv. split; [|split; [|split; [|split; [|split]]]].
  - intros hash Hh. repeat (apply elem_of_cons in Hh as [->|Hh]);
      [by apply loop_hash_total; [|lia]..| | |by apply not_elem_of_nil in Hh].
    + apply mht_4strhash_total; [done|lia].
    + apply mht_5strhash_total; [done|lia].
  - intros h. apply mht_3strhash_range. lia.
  - apply Z.mod_pos_bound. lia.
  - unfold mht_logpageidhash. zcase; [lia|]. rewrite Z.rem_mod_nonneg by lia.
    pose proof (Z.mod_pos_bound key n ltac:(lia)). rewrite uwrap_small by lia. lia.
  - apply Z.mod_pos_bound. lia.
  - destruct (Z.le_gt_cases n 1) as [H1|H1].
    { unfold mht_get_hash_number. replace (n <=? 1) with true by lia.
      destruct v; eexists; (split; [done|]); lia. }
    assert (forall h, 0 <= mht_get_shiftmult32 h n < n) as Hsm by (intros h; apply shiftmult_range; lia).
    destruct v as [| | | | | | | | |col ptr size| |];
      try (destruct ptr as [str|]; [by apply string_hash_total|]);
      unfold mht_get_hash_number; rewrite ?(proj2 (Z.leb_gt n 1) H1);
      (eexists; split; [done|]); first [apply Hsm|lia].
Qed.

Lemma mht_hash_in_range_witness :
  exists h, mht_get_hash_number (fun _ _ _ => 77) 10 (Some (HASH_STRING 0 (Some [97; 32; 0]) (-1))) = Some h
    /\ 0 <= h < 10.
Proof.
  refine (proj2 (proj2 (proj2 (proj2 (proj2
    (mht_hash_in_range (fun _ _ _ => 77) [97; 0] 5 (HASH_STRING 0 (Some [97; 32; 0]) (-1)) 10
       _ _ _ _)))))).
  - lia.
  - by apply (bool_decide_unpack (0 ∈ [97; 0])).
  - lia.
  - right. split; [lia|]. split; [by apply (bool_decide_unpack (0 ∈ [97; 32; 0]))|]. vm_compute. lia.
Defined.

(** C30: The comparison functions for strings, identifiers, integers, log page
    identifiers and pointers are equivalences, and keys they take to be equal
    have the same hash under the functions they are used with: identifiers
    that differ in the case of their letters, too. *)
Theorem mht_standard_keys (str : Z -> list Z) (int_at : Z -> Z) :
  (forall p, c_string (str p)) ->
  let strings p q := mht_compare_strings_are_equal (str p) (str q) in
  MhtKeys (on_str str mht_1strhash) strings /\ MhtKeys (on_str str mht_2strhash) strings
  /\ MhtKeys (on_str str mht_4strhash) strings /\ MhtKeys (on_str str mht_5strhash) strings
  /\ MhtKeys (on_str str mht_1strlowerhash)
       (fun p q => mht_compare_identifiers_equal (str p) (str q))
  /\ MhtKeys (fun p => mht_numhash (int_at p))
       (fun p q => mht_compare_ints_are_equal (int_at p) (int_at q))
  /\ MhtKeys (fun p => mht_logpageidhash (int_at p))
       (fun p q => mht_compare_logpageids_are_equal (int_at p) (int_at q))
  /\ MhtKeys mht_ptrhash mht_compare_ptrs_are_equal.
Proof.
  intros Hs. split; [by apply keys_1str|]. split; [by apply keys_2str|].
  split; [by apply keys_4str|]. split; [by apply keys_5str|]. split; [by apply keys_identifier|].
  split; [apply keys_int|]. split; [apply keys_logpageid|apply keys_ptr].
Qed.

Lemma mht_standard_keys_witness :
  MhtKeys (on_str (fun _ => [84; 49; 0]) mht_1strhash)
    (fun _ _ => mht_compare_strings_are_equal [84; 49; 0] [84; 49; 0]).
Proof.
  refine (proj1 (mht_standard_keys (fun _ => [84; 49; 0]) (fun _ => 0) _)).
  intros p. by apply (bool_decide_unpack (0 ∈ [84; 49; 0])).
Defined.

(** The size chosen for a table is never smaller than the one asked for:
    for requests up to 29123 it is a number of the table mht_Primes; above, a
    power of two is taken as it is and any other number is doubled. *)
Theorem mht_htsize_suffices x :
  0 <= x < 2 ^ 31 ->
  exists n, mht_calculate_htsize x = Some n /\ x <= n /\ 0 < n <= Z.max 32768 (2 * x)
    /\ (x <= 29123 -> n ∈ mht_Primes)
    /\ (29123 < x -> n = if Z.land x (x - 1) =? 0 then x else 2 * x).
Proof.
  intros Hx. destruct (mht_calculate_htsize_ok x ltac:(lia)) as (n & Hn & Hp).
  pose proof (mht_calculate_htsize_upper x n ltac:(lia) Hn).
  exists n. split; [done|]. destruct (Z.le_gt_cases x 29123) as [Hs|Hl].
  - destruct (htsize_small x ltac:(lia)) as (n' & Hn' & Hle & Hin). simplify_eq.
    split; [done|]. split; [lia|]. split; [done|lia].
  - rewrite (htsize_large x ltac:(lia)) in Hn. injection Hn as <-.
    split; [zcase; lia|]. split; [lia|]. split; [lia|done].
Qed.

Lemma mht_htsize_suffices_witness :
  exists n, mht_calculate_htsize 100 = Some n /\ 100 <= n.
Proof.
  destruct (mht_htsize_suffices 100 ltac:(lia)) as (n & H1 & H2 & _). exists n. split; [exact H1|exact H2].
Defined.
