(* ===== verification/MemoryHashProps.v ===== *)
(** * Memory hash table: properties

    Sequences of operations against the specification, iteration with
    mht_get2 and mht_map, clearing, and the behaviour of the error paths. *)
From Stdlib Require Import ZArith Lia ZifyBool Sorting.Sorted.
From stdpp Require Import base list numbers gmap.
From S2P Require Import Prelude HashFunctions MemoryHash MemoryHashSize MemoryHashLists.
From S2P Require Import MemoryHashInv MemoryHashOps MemoryHashRehash MemoryHashRem MemoryHashSpec.
From S2P Require Import HashFunctionsProps.

(** ** Sequences of operations *)

Inductive OP :=
| OpGet (key : Z)
| OpPut (al : ALLOC) (key data : Z)
| OpPutData (al : ALLOC) (key data : Z)
| OpRem (key : Z)
| OpClear
| OpCount.

(** The field build_lru_list is set by the owner of the table. *)
Definition set_build (b : bool) (ht : MHT_TABLE) : MHT_TABLE :=
  mkTable (t_heap ht) (t_brk ht) (t_table ht) (t_act ht) (t_lru ht) (t_prealloc ht) (t_size ht)
    (t_rehash_at ht) (t_nentries ht) (t_nprealloc ht) (t_ncollisions ht) b.

(** An entry as a fresh allocation may find it. *)
Definition no_entry : HENTRY :=
  mkHentry (mkLinks NULL NULL) (mkLinks NULL NULL) NULL NULL NULL.

Section Run.
Context (hash_func : Z -> Z -> Z) (cmp_func : Z -> Z -> bool) (junk : HENTRY).

Definition run_op (ht : MHT_TABLE) (op : OP) : option (Z * MHT_TABLE) :=
  match op with
  | OpGet k => mht_get hash_func cmp_func ht k
  | OpPut al k d => mht_put hash_func cmp_func junk al ht k d
  | OpPutData al k d => mht_put_data hash_func cmp_func junk al ht k d
  | OpRem k => '(e, ht', _) ← mht_rem hash_func cmp_func ht k None tt; Some (e, ht')
  | OpClear => '(e, ht', _) ← mht_clear ht None tt; Some (e, ht')
  | OpCount => Some (mht_count ht, ht)
  end.

Fixpoint run (ht : MHT_TABLE) (ops : list OP) : option (list Z * MHT_TABLE) :=
  match ops with
  | [] => Some ([], ht)
  | op :: ops =>
      '(r, ht) ← run_op ht op;
      '(rs, ht) ← run ht ops;
      Some (r :: rs, ht)
  end.

Definition spec_op (s : SPEC) (op : OP) : Z * SPEC :=
  match op with
  | OpGet k => spec_get cmp_func k s
  | OpPut _ k d => spec_put cmp_func false k d s
  | OpPutData _ k d => spec_put cmp_func true k d s
  | OpRem k => spec_rem cmp_func k s
  | OpClear => (NO_ERROR, spec_clear s)
  | OpCount => (Z.of_nat (length (sp_ents s)), s)
  end.

Definition op_alloc (op : OP) : option (ALLOC * Z) :=
  match op with OpPut al k _ | OpPutData al k _ => Some (al, k) | _ => None end.

(** An operation answers what the specification says.  An insertion of a new
    key that finds no memory answers NULL: without an entry nothing is
    inserted, without a new vector the entry is. *)
Inductive spec_step (s : SPEC) (op : OP) : Z -> SPEC -> Prop :=
| step_done : spec_step s op (spec_op s op).1 (spec_op s op).2
| step_no_entry al k :
    op_alloc op = Some (al, k) -> a_entry al = false ->
    lookup_key cmp_func k (sp_ents s) = None -> spec_step s op NULL s
| step_no_vector al k :
    op_alloc op = Some (al, k) -> a_vector al = false ->
    lookup_key cmp_func k (sp_ents s) = None -> spec_step s op NULL (spec_op s op).2.

Inductive spec_run : SPEC -> list OP -> list Z -> SPEC -> Prop :=
| run_nil s : spec_run s [] [] s
| run_cons s op ops r rs s1 s2 :
    spec_step s op r s1 -> spec_run s1 ops rs s2 -> spec_run s (op :: ops) (r :: rs) s2.

Context `{Hkeys : MhtKeys hash_func cmp_func}.
Notation represents := (represents hash_func cmp_func).

Lemma put_step ht s op al k d keep opt :
  represents ht s -> room ht -> Z.land opt MHT_OPT_INSERT_ONLY = 0 ->
  keep = negb (Z.land opt MHT_OPT_KEEP_KEY =? 0) ->
  op_alloc op = Some (al, k) -> spec_op s op = spec_put cmp_func keep k d s ->
  exists r ht' s', mht_put_internal hash_func cmp_func junk al ht k d opt = Some (r, ht')
    /\ spec_step s op r s' /\ represents ht' s' /\ t_brk ht' <= t_brk ht + 1.
Proof.
  intros Hrep Hroom Hopt Hkeep Hal Hsp.
  destruct (put_refines hash_func cmp_func junk al ht s k d opt keep Hrep Hroom ltac:(by left) Hkeep)
    as (r & ht' & Hrun & Hans & Hbrk). exists r, ht'.
  destruct Hans as [[-> Hrep']|[(-> & Ha & Hno & ->)|(-> & Hv & Hno & Hrep')]].
  - exists (spec_op s op).2. split; [done|]. split; [|by rewrite Hsp].
    replace k with (spec_op s op).1 at 1 by (by rewrite Hsp). constructor.
  - exists s. split; [done|]. split; [by eapply step_no_entry|done].
  - exists (spec_op s op).2. split; [done|]. split; [by eapply step_no_vector|by rewrite Hsp].
Qed.

Lemma op_refines ht s op :
  represents ht s -> room ht ->
  exists r ht' s', run_op ht op = Some (r, ht') /\ spec_step s op r s' /\ represents ht' s'
    /\ t_brk ht' <= t_brk ht + 1.
Proof.
  intros Hrep Hroom. destruct op as [k|al k d|al k d|k| |]; cbn [run_op].
  - destruct (get_refines hash_func cmp_func ht s k Hrep) as (r & ht' & -> & -> & Hrep' & Hbrk).
    eexists _, ht', _. split; [done|]. split; [apply (step_done s (OpGet k))|]. split; [done|lia].
  - by eapply put_step.
  - by eapply put_step.
  - destruct (rem_refines hash_func cmp_func ht s k None tt Hrep) as (ht' & Hbrk & Hr).
    assert (spec_step s (OpRem k) (spec_rem cmp_func k s).1 (spec_rem cmp_func k s).2) as Hst
      by apply (step_done s (OpRem k)).
    unfold spec_rem in *. destruct (lookup_key cmp_func k (sp_ents s)) as [[k' d']|].
    + rewrite Z.eqb_refl in Hr. destruct Hr as [-> Hrep'].
      eexists _, ht', _. split; [done|]. split; [done|]. split; [done|lia].
    + rewrite Hr. eexists _, ht, s. split; [done|]. split; [done|]. split; [done|lia].
  - destruct (clear_refines (A := unit) hash_func cmp_func ht s Hrep) as (l & _ & Hc).
    destruct (Hc None tt tt) as (ht' & -> & Hrep' & Hbrk).
    { clear. induction l as [|[k d] l IH]; [done|]. simpl. exact IH. }
    eexists _, ht', _. split; [done|]. split; [apply (step_done s OpClear)|]. split; [done|lia].
  - exists (mht_count ht), ht, s. split; [done|]. split; [|split; [done|lia]].
    replace (mht_count ht) with (spec_op s OpCount).1 at 1; [apply (step_done s OpCount)|].
    destruct Hrep as (sh & Hwf & He & _). simpl. rewrite He. unfold contents, mht_count.
    by rewrite length_fmap, (wf_nentries _ _ _ Hwf).
Qed.

Lemma run_refines ops ht s :
  represents ht s -> t_brk ht + Z.of_nat (length ops) <= 2 ^ 26 ->
  exists rs ht' s', run ht ops = Some (rs, ht') /\ spec_run s ops rs s' /\ represents ht' s'.
Proof.
  revert ht s. induction ops as [|op ops IH]; intros ht s Hrep Hb.
  { exists [], ht, s. split; [done|]. split; [constructor|done]. }
  simpl in Hb. destruct (op_refines ht s op Hrep) as (r & ht1 & s1 & Hrun & Hst & Hrep1 & Hbrk);
    [unfold room; lia|].
  destruct (IH ht1 s1 Hrep1 ltac:(lia)) as (rs & ht2 & s2 & Hruns & Hsts & Hrep2).
  exists (r :: rs), ht2, s2. cbn [run]. rewrite Hrun. obind. rewrite Hruns. obind.
  split; [done|]. split; [by econstructor|done].
Qed.

(** The table mht_create makes is empty. *)
Lemma create_refines est b :
  est < 2 ^ 28 ->
  exists ht, mht_create (mkAlloc true true true true) est = Some (Some ht)
    /\ represents (set_build b ht) (mkSpec [] [] b) /\ t_brk ht = 1.
Proof.
  intros He. unfold mht_create.
  set (x := uwrap 32 _). assert (0 <= x < 2 ^ 28) as Hx
    by (unfold x; zcase; rewrite uwrap_small; lia).
  destruct (mht_calculate_htsize_ok x ltac:(lia)) as (n & Hn & Hp).
  pose proof (mht_calculate_htsize_upper x n ltac:(lia) Hn) as Hu. rewrite Hn. obind. simpl.
  assert (slots_fit n) as Hfit by (split; lia).
  rewrite (vector_length_fits n Hfit), Z.ltb_irrefl. eexists. split; [done|]. split; [|done].
  exists (mkShape [] [] (replicate (Z.to_nat n) []) []). simpl.
  split; [|by repeat split; constructor].
  assert (forall w, dlist w ∅ (mkEnds NULL NULL) []) as Hd
    by (intros w; constructor; [done..|apply NoDup_nil_2|apply not_elem_of_nil]).
  constructor; simpl; try done.
  - rewrite length_replicate. lia.
  - by apply Forall2_replicate.
  - by rewrite concat_replicate_nil.
  - apply NoDup_nil_2.
  - intros p [h Hh]. done.
  - by rewrite collisions_empty.
Qed.
End Run.

(** ** Several entries with the same key *)

(** All data of a key: the calls a client makes until the answer is NULL. *)
Fixpoint get2_all (hash_func : Z -> Z -> Z) (cmp_func : Z -> Z -> bool) (n : nat)
    (ht : MHT_TABLE) (key last : Z) : option (list Z) :=
  match n with
  | O => None
  | S n =>
      '(d, last') ← mht_get2 hash_func cmp_func ht key (Some last);
      if d =? NULL then Some []
      else
        l ← last';
        ds ← get2_all hash_func cmp_func n ht key l;
        Some (d :: ds)
  end.

Section Duplicates.
Context (hash_func : Z -> Z -> Z) (cmp_func : Z -> Z -> bool) (junk : HENTRY).
Context `{Hkeys : MhtKeys hash_func cmp_func}.
Notation wf := (wf hash_func).
Notation slot := (mht_slot hash_func).
Notation same := (same cmp_func).

Definition matches (m : gmap Z HENTRY) (k : Z) (l : list Z) : list Z :=
  filter (fun q => same k (kv_at m q) = true) l.

(** The first match behind a place of the chain. *)
Lemma get2_first m k p l fuel :
  chain m p l -> (length l < fuel)%nat ->
  get2_loop cmp_func k fuel m p (Some NULL)
  = Some (match matches m k l with q :: _ => ((kv_at m q).2, Some q) | [] => (NULL, Some NULL) end).
Proof.
  revert fuel p. induction l as [|q l IH]; intros [|fuel] p Hc Hf; simpl in Hf; try lia.
  - simpl in Hc. by subst p.
  - destruct Hc as (-> & H0 & n & Hn & Hc). cbn [get2_loop].
    rewrite (proj2 (Z.eqb_neq q NULL) H0). destruct (m !! q) as [h|] eqn:Hq; [|done].
    simpl in Hn. injection Hn as <-. obind. unfold matches. rewrite filter_cons.
    rewrite (key_match_same hash_func cmp_func k h), <- (kv_at_some _ _ _ Hq).
    destruct (same k (kv_at m q)) eqn:E.
    + rewrite decide_True, (kv_at_some _ _ _ Hq) by done. done.
    + rewrite decide_False by done. apply IH; [done|lia].
Qed.

(** The search goes on behind the last result. *)
Lemma get2_next m k p l1 q l2 fuel :
  chain m p (l1 ++ q :: l2) -> NoDup (l1 ++ q :: l2) -> same k (kv_at m q) = true ->
  (length (l1 ++ q :: l2) < fuel)%nat ->
  get2_loop cmp_func k fuel m p (Some q)
  = Some (match matches m k l2 with r :: _ => ((kv_at m r).2, Some r) | [] => (NULL, Some NULL) end).
Proof.
  revert fuel p. induction l1 as [|r l1 IH]; intros [|fuel] p Hc Hnd Hs Hf; simpl in Hf; try lia;
    destruct Hc as (-> & H0 & n & Hn & Hc); cbn [get2_loop].
  - rewrite (proj2 (Z.eqb_neq q NULL) H0). destruct (m !! q) as [h|] eqn:Hq; [|done].
    simpl in Hn. injection Hn as <-. obind.
    rewrite (key_match_same hash_func cmp_func k h), <- (kv_at_some _ _ _ Hq), Hs.
    rewrite Z.eqb_refl. apply get2_first; [done|lia].
  - rewrite (proj2 (Z.eqb_neq r NULL) H0). destruct (m !! r) as [h|] eqn:Hr; [|done].
    simpl in Hn. injection Hn as <-. obind. simpl in Hnd. apply NoDup_cons in Hnd as [Hrn Hnd].
    assert (q <> r) as Hqr by (intros ->; apply Hrn; rewrite elem_of_app; right; by left).
    assert (q <> NULL) as Hq0.
    { eapply chain_lookup; [exact Hc|]. rewrite elem_of_app. right. by left. }
    rewrite (proj2 (Z.eqb_neq q r) Hqr), (proj2 (Z.eqb_neq q NULL) Hq0).
    destruct (key_match cmp_func k h); apply IH; try done; lia.
Qed.

(** From one match to the next, and to the end. *)
Lemma get2_all_ok ht sh k first c l1 l2 n last :
  wf ht sh -> k <> NULL ->
  t_table ht !! Z.to_nat (slot k (t_size ht)) = Some first ->
  chain (t_heap ht) first c -> NoDup c -> (length c < chain_fuel (t_heap ht))%nat ->
  c = l1 ++ l2 -> (forall q, q ∈ c -> (kv_at (t_heap ht) q).2 <> NULL) ->
  last = NULL /\ l1 = []
  \/ (exists l, l1 = l ++ [last] /\ same k (kv_at (t_heap ht) last) = true) ->
  (length (matches (t_heap ht) k l2) < n)%nat ->
  get2_all hash_func cmp_func n ht k last
  = Some ((fun q => (kv_at (t_heap ht) q).2) <$> matches (t_heap ht) k l2).
Proof.
  intros Hwf Hk Ht Hc Hnd Hlen. revert n l1 l2 last.
  induction n as [|n IH]; intros l1 l2 last Hcl Hd Hlast Hn; [lia|].
  cbn [get2_all]. unfold mht_get2. rewrite (proj2 (Z.eqb_neq k NULL) Hk), Ht. obind.
  assert (get2_loop cmp_func k (chain_fuel (t_heap ht)) (t_heap ht) first (Some last)
          = Some (match matches (t_heap ht) k l2 with
                  | r :: _ => ((kv_at (t_heap ht) r).2, Some r) | [] => (NULL, Some NULL) end)) as ->.
  { destruct Hlast as [[-> ->]|(l & -> & Hs)].
    - simpl in Hcl. subst l2. by apply get2_first.
    - rewrite <- app_assoc in Hcl. simpl in Hcl. subst c. by apply get2_next with (l1 := l). }
  obind. destruct (matches (t_heap ht) k l2) as [|r rs] eqn:Em; [by rewrite Z.eqb_refl|].
  assert (r ∈ matches (t_heap ht) k l2) as Hr by (rewrite Em; by left).
  apply list_elem_of_filter in Hr as [Hrs Hr].
  rewrite (proj2 (Z.eqb_neq _ NULL)) by (apply Hd; rewrite Hcl, elem_of_app; by right). obind.
  apply filter_cons_inv in Em as (a & b & -> & Hb).
  rewrite (IH (l1 ++ a ++ [r]) b r).
  - obind. unfold matches at 1. by rewrite Hb.
  - by rewrite Hcl, <- !app_assoc.
  - done.
  - right. exists (l1 ++ a). by rewrite <- app_assoc.
  - unfold matches in *. rewrite Hb. simpl in Hn. lia.
Qed.

(** The matches among all active entries are in one chain. *)
Lemma matches_chain ht sh k c :
  wf ht sh -> s_chains sh !! Z.to_nat (slot k (t_size ht)) = Some c ->
  matches (t_heap ht) k (s_act sh) ≡ₚ matches (t_heap ht) k c.
Proof.
  intros Hwf Hc. unfold matches. rewrite <- (wf_perm _ _ _ Hwf), (concat_lookup _ _ _ Hc), filter_app.
  enough (filter (fun q => same k (kv_at (t_heap ht) q) = true)
            (concat (delete (Z.to_nat (slot k (t_size ht))) (s_chains sh))) = []) as ->
    by (by rewrite app_nil_r).
  apply elem_of_nil_inv. intros q [Hs Hq]%list_elem_of_filter.
  pose proof (concat_lookup _ _ _ Hc) as Hp.
  assert (q ∈ s_act sh) as Ha by (rewrite <- (wf_perm _ _ _ Hwf), Hp, elem_of_app; by right).
  pose proof (wf_nodup _ _ _ Hwf) as (Hnd & _ & _)%NoDup_app.
  rewrite <- (wf_perm _ _ _ Hwf), Hp in Hnd. apply NoDup_app in Hnd as (_ & Hd & _).
  apply (Hd q); [|done].
  destruct (wf_entry _ _ _ Hwf q) as [_ [h Hh]]; [rewrite elem_of_app; by left|].
  eapply act_in_chain; [done|done|done|]. rewrite (kv_at_some _ _ _ Hh) in Hs.
  by rewrite (slot_same hash_func cmp_func _ _ _ Hs).
Qed.

(** A table stands for a bag of keys and data. *)
Definition holds (ht : MHT_TABLE) (bag : list (Z * Z)) : Prop :=
  exists sh, wf ht sh /\ contents (t_heap ht) (s_act sh) ≡ₚ bag.

Lemma get2_holds ht bag k n :
  holds ht bag -> k <> NULL -> Forall (fun a => a.2 <> NULL) bag -> (length bag < n)%nat ->
  exists ds, get2_all hash_func cmp_func n ht k NULL = Some ds
    /\ ds ≡ₚ snd <$> filter (fun a => same k a = true) bag.
Proof.
  intros (sh & Hwf & Hbag) Hk Hdata Hn.
  destruct (wf_chain _ _ _ Hwf k) as (first & c & Ht & Hc & Hch & Hnd & Hin & Hlen).
  pose proof (matches_chain ht sh k c Hwf Hc) as Hmc.
  exists ((fun q => (kv_at (t_heap ht) q).2) <$> matches (t_heap ht) k c). split.
  - eapply (get2_all_ok ht sh k first c [] c); try done.
    + intros q Hq. rewrite Forall_forall in Hdata. apply Hdata. rewrite <- Hbag.
      apply list_elem_of_fmap. eauto.
    + by left.
    + rewrite <- Hmc. unfold matches. pose proof (length_filter (fun q => same k (kv_at (t_heap ht) q) = true) (s_act sh)).
      rewrite <- (Permutation_length Hbag) in Hn. unfold contents in Hn. rewrite length_fmap in Hn. lia.
  - rewrite <- Hmc, <- Hbag. unfold matches, contents.
    rewrite filter_of_fmap, <- list_fmap_compose. done.
Qed.

Lemma represents_holds ht s : represents hash_func cmp_func ht s -> holds ht (sp_ents s).
Proof. intros (sh & Hwf & He & _). exists sh. by rewrite He. Qed.

(** mht_put2_new and mht_rem2 with all allocations successful. *)
Inductive OP2 := Put2 (key data : Z) | Rem2 (key data : Z).

Definition run_op2 (ht : MHT_TABLE) (op : OP2) : option (Z * MHT_TABLE) :=
  match op with
  | Put2 k d => mht_put2_new hash_func cmp_func junk (mkAlloc true true true true) ht k d
  | Rem2 k d => '(e, ht', _) ← mht_rem2 hash_func cmp_func ht k d None tt; Some (e, ht')
  end.

Fixpoint run2 (ht : MHT_TABLE) (ops : list OP2) : option (list Z * MHT_TABLE) :=
  match ops with
  | [] => Some ([], ht)
  | op :: ops =>
      '(r, ht) ← run_op2 ht op;
      '(rs, ht) ← run2 ht ops;
      Some (r :: rs, ht)
  end.

(** What they do to the bag: a removal takes one entry with an equal key and
    the given data out of it, and fails when there is none. *)
Inductive bag_step (bag : list (Z * Z)) : OP2 -> Z -> list (Z * Z) -> Prop :=
| bag_put k d : bag_step bag (Put2 k d) k ((k, d) :: bag)
| bag_rem k k' d bag' :
    bag ≡ₚ (k', d) :: bag' -> same k (k', d) = true -> bag_step bag (Rem2 k d) NO_ERROR bag'
| bag_fail k d :
    (forall a, a ∈ bag -> same k a = true -> a.2 <> d) -> bag_step bag (Rem2 k d) ER_FAILED bag.

Inductive bag_run : list (Z * Z) -> list OP2 -> list Z -> list (Z * Z) -> Prop :=
| bag_nil bag : bag_run bag [] [] bag
| bag_cons bag op ops r rs bag1 bag2 :
    bag_step bag op r bag1 -> bag_run bag1 ops rs bag2 -> bag_run bag (op :: ops) (r :: rs) bag2.

Lemma put2_holds ht bag k d :
  holds ht bag -> room ht ->
  exists ht', run_op2 ht (Put2 k d) = Some (k, ht') /\ holds ht' ((k, d) :: bag)
    /\ t_brk ht' <= t_brk ht + 1.
Proof.
  intros (sh & Hwf & Hbag) Hroom. cbn [run_op2]. unfold mht_put2_new, mht_put2_internal, search_opt.
  change (Z.land MHT_OPT_INSERT_ONLY MHT_OPT_INSERT_ONLY =? 0) with false. cbv iota. obind.
  change (negb (NULL =? NULL)) with false. cbv iota.
  destruct (add_entry_ok hash_func junk (mkAlloc true true true true) ht sh k d Hwf Hroom)
    as [[Ha _]|(p & e & ht' & cs & fr & -> & H0 & _ & Hwf' & Hca & _ & Hkp & _ & Hbrk)]; [done|].
  obind. rewrite (proj2 (Z.eqb_neq p NULL) H0). exists ht'. split; [done|]. split; [|done].
  eexists. split; [exact Hwf'|]. simpl. unfold contents in *. rewrite fmap_app. simpl.
  rewrite Hkp, Hca, Hbag. symmetry. apply Permutation_cons_append.
Qed.

Lemma rem2_holds ht bag k d :
  holds ht bag ->
  exists r ht' bag', run_op2 ht (Rem2 k d) = Some (r, ht') /\ bag_step bag (Rem2 k d) r bag'
    /\ holds ht' bag' /\ t_brk ht' = t_brk ht.
Proof.
  intros (sh & Hwf & Hbag). cbn [run_op2]. unfold mht_rem2, rem_found.
  destruct (mht_search_ok hash_func ht sh _ k Hwf (key_data_match_slot hash_func cmp_func k d))
    as [(c1 & p & c2 & h & Hc & Hp & Hh & Hm & ->)|(x & Hno & ->)]; obind.
  - assert (p <> NULL) as H0 by (eapply wf_entry; [done|]; rewrite elem_of_app; by left).
    rewrite (proj2 (Z.eqb_neq p NULL) H0), Hh. obind. unfold call_func.
    change (negb (NO_ERROR =? NO_ERROR)) with false. cbv iota.
    pose proof Hp as (a1 & a2 & Ha)%list_elem_of_split.
    assert (exists l1 l2, t_build_lru ht = true -> s_lru sh = l1 ++ p :: l2) as (l1 & l2 & Hl)
      by (by eapply lru_split).
    destruct (rem_entry_ok hash_func ht sh _ a1 p a2 l1 l2 c1 c2 Hwf Ha Hl Hc)
      as (ht' & -> & Hwf' & Hkv & _ & Hbrk). obind.
    apply andb_true_iff in Hm as [Hm Hd%Z.eqb_eq].
    rewrite (key_match_same hash_func cmp_func k h) in Hm.
    exists NO_ERROR, ht', (contents (t_heap ht) (a1 ++ a2)). split; [done|]. split; [|split; [|done]].
    + apply (bag_rem _ k (h_key h)); [|by rewrite <- Hd].
      rewrite <- Hbag, Ha. unfold contents. rewrite <- Permutation_middle, fmap_cons.
      rewrite (kv_at_some _ _ _ Hh). unfold kv. by rewrite Hd.
    + eexists. split; [exact Hwf'|]. simpl. erewrite contents_ext; [done|]. intros q _. apply Hkv.
  - rewrite Z.eqb_refl. exists ER_FAILED, ht, bag. split; [done|]. split; [|split; [by exists sh|done]].
    apply bag_fail. intros a Ha Hs Hd. rewrite <- Hbag in Ha.
    apply list_elem_of_fmap in Ha as (q & -> & Hq).
    destruct (wf_entry _ _ _ Hwf q) as [_ [h Hh]]; [rewrite elem_of_app; by left|].
    specialize (Hno q h Hq Hh). unfold key_data_match in Hno. rewrite (kv_at_some _ _ _ Hh) in Hs, Hd.
    rewrite (key_match_same hash_func cmp_func k h), Hs in Hno. simpl in *. lia.
Qed.

Lemma run2_holds ops ht bag :
  holds ht bag -> t_brk ht + Z.of_nat (length ops) <= 2 ^ 26 ->
  exists rs ht' bag', run2 ht ops = Some (rs, ht') /\ bag_run bag ops rs bag' /\ holds ht' bag'.
Proof.
  revert ht bag. induction ops as [|op ops IH]; intros ht bag Hh Hb.
  { exists [], ht, bag. split; [done|]. split; [constructor|done]. }
  simpl in Hb.
  assert (exists r ht1 bag1, run_op2 ht op = Some (r, ht1) /\ bag_step bag op r bag1
            /\ holds ht1 bag1 /\ t_brk ht1 <= t_brk ht + 1) as (r & ht1 & bag1 & Hrun & Hst & Hh1 & Hbrk).
  { destruct op as [k d|k d].
    - destruct (put2_holds ht bag k d Hh) as (ht1 & Hrun & Hh1 & Hbrk); [unfold room; lia|].
      eexists _, _, _. split; [exact Hrun|]. split; [constructor|done].
    - destruct (rem2_holds ht bag k d Hh) as (r & ht1 & bag1 & Hrun & Hst & Hh1 & Hbrk).
      eexists _, _, _. split; [exact Hrun|]. split; [done|]. split; [done|lia]. }
  destruct (IH ht1 bag1 Hh1 ltac:(lia)) as (rs & ht2 & bag2 & Hruns & Hsts & Hh2).
  exists (r :: rs), ht2, bag2. cbn [run2]. rewrite Hrun. obind. rewrite Hruns. obind.
  split; [done|]. split; [by econstructor|done].
Qed.
(** Data that are put are what the bag holds. *)
Definition puts_data (op : OP2) : Prop :=
  match op with Put2 _ d => d <> NULL | Rem2 _ _ => True end.

Lemma bag_data bag ops rs bag' :
  bag_run bag ops rs bag' -> Forall puts_data ops ->
  Forall (fun a => a.2 <> NULL) bag -> Forall (fun a => a.2 <> NULL) bag'.
Proof.
  induction 1 as [bag|bag op ops r rs bag1 bag2 Hst _ IH]; [done|].
  intros [Hop Hops]%Forall_cons Hb. apply IH; [done|].
  destruct Hst as [k d|k k' d bag1 Hp _|k d _]; [by constructor| |done].
  rewrite Hp in Hb. by apply Forall_cons in Hb as [_ Hb].
Qed.
End Duplicates.

(** ** Mapping a function that removes entries *)

Section Sweep.
Context (hash_func : Z -> Z -> Z) (cmp_func : Z -> Z -> bool) (junk : HENTRY).
Context `{Hkeys : MhtKeys hash_func cmp_func}.
Context (P : Z -> Z -> bool).
Notation wf := (wf hash_func).
Notation represents := (represents hash_func cmp_func).

(** A function for mht_map that removes the entries that satisfy [P] from the
    table and keeps a log of the entries it was called with. *)
Definition sweep (key data : Z) (st : MHT_TABLE * list (Z * Z))
    : option (Z * (MHT_TABLE * list (Z * Z))) :=
  let '(ht, log) := st in
  if P key data then
    '(e, ht', _) ← mht_rem hash_func cmp_func ht key None tt;
    Some (e, (ht', log ++ [(key, data)]))
  else Some (NO_ERROR, (ht, log ++ [(key, data)])).

Definition survives (a : Z * Z) : Prop := P a.1 a.2 = false.

#[local] Instance survives_dec a : Decision (survives a).
Proof. unfold survives. apply _. Defined.




End Sweep.

(** ** Clearing with a function *)

(** A function for mht_clear that keeps a log of its calls and answers an
    error at the call number [n]. *)
Definition log_until (n : nat) (key data : Z) (log : list (Z * Z)) : Z * list (Z * Z) :=
  if (length log <? n)%nat then (NO_ERROR, log ++ [(key, data)]) else (ER_FAILED, log).

Lemma call_all_log n l log :
  (length log + length l <= n)%nat ->
  call_all (Some (log_until n)) l log = (NO_ERROR, log ++ l).
Proof.
  revert log. induction l as [|[k d] l IH]; intros log Hn; simpl in *; [by rewrite app_nil_r|].
  unfold log_until at 1. rewrite (proj2 (Nat.ltb_lt _ _)) by lia.
  change (negb (NO_ERROR =? NO_ERROR)) with false. cbv iota.
  rewrite IH; [by rewrite <- app_assoc|]. rewrite length_app. simpl. lia.
Qed.

(** A new table with the operations [ops]; all keys have the same hash. *)
Definition one_chain (ops : list OP) : option (list Z * MHT_TABLE) :=
  created ← mht_create (mkAlloc true true true true) 8;
  ht ← created;
  run (fun _ _ => 0) Z.eqb no_entry ht ops.

(** ** The claims *)

(** Without memory for one of its parts no table is created. *)
Lemma create_cases al est :
  est < 2 ^ 28 ->
  mht_create al est = if a_header al && a_heap al && a_vector al
                      then mht_create (mkAlloc true true true true) est else Some None.
Proof.
  intros He. unfold mht_create. set (x := uwrap 32 _). assert (0 <= x < 2 ^ 28) as Hx
    by (unfold x; zcase; rewrite uwrap_small; lia).
  destruct (mht_calculate_htsize_ok x ltac:(lia)) as (n & -> & _). by destruct al as [[] [] [] ?].
Qed.

(** C6: a table for an estimate of fewer than 2^28 entries is created, or NULL
    is answered for lack of memory.  From creation on, any sequence of fewer
    than 2^26 lookups, insertions, removals, counts and clearings without a
    function runs without reading outside the chains, the vector or the
    entries, whatever allocations of the insertions fail, and answers as a
    finite map keyed up to the comparison function that keeps its entries in
    insertion order and, when asked to, in order of last use.  An insertion
    that finds no memory for its entry changes nothing; rehashing is not
    visible, except that an insertion answers NULL when the larger vector
    cannot be allocated, after it has added the entry. *)
Theorem mht_refines hash_func cmp_func junk al est b ops
    `{Hkeys : MhtKeys hash_func cmp_func} :
  est < 2 ^ 28 -> Z.of_nat (length ops) < 2 ^ 26 ->
  if a_header al && a_heap al && a_vector al
  then exists ht, mht_create al est = Some (Some ht)
    /\ exists rs ht' s', run hash_func cmp_func junk (set_build b ht) ops = Some (rs, ht')
         /\ spec_run cmp_func (mkSpec [] [] b) ops rs s'
         /\ represents hash_func cmp_func ht' s'
  else mht_create al est = Some None.
Proof.
  intros He Hn. rewrite (create_cases al est He). destruct (a_header al && a_heap al && a_vector al); [|done].
  destruct (create_refines hash_func cmp_func est b He) as (ht & Hc & Hrep & Hbrk).
  exists ht. split; [done|]. apply (run_refines hash_func cmp_func junk ops); [done|]. simpl. lia.
Qed.

Lemma mht_refines_witness :
  mht_create (mkAlloc true true false true) 8 = Some None
  /\ exists ht, mht_create (mkAlloc true true true true) 8 = Some (Some ht)
    /\ exists rs ht' s',
         run mht_ptrhash mht_compare_ptrs_are_equal no_entry
           (set_build true ht)
           [OpPut (mkAlloc true true true true) 16 1; OpPut (mkAlloc true true true false) 32 2;
            OpGet 16; OpRem 16; OpCount] = Some (rs, ht')
         /\ spec_run mht_compare_ptrs_are_equal (mkSpec [] [] true)
              [OpPut (mkAlloc true true true true) 16 1; OpPut (mkAlloc true true true false) 32 2;
               OpGet 16; OpRem 16; OpCount] rs s'
         /\ represents mht_ptrhash mht_compare_ptrs_are_equal ht' s'.
Proof.
  split.
  - exact (mht_refines mht_ptrhash mht_compare_ptrs_are_equal no_entry (mkAlloc true true false true) 8 true []
             ltac:(lia) ltac:(simpl; lia)).
  - exact (mht_refines mht_ptrhash mht_compare_ptrs_are_equal no_entry (mkAlloc true true true true) 8 true
             [OpPut (mkAlloc true true true true) 16 1; OpPut (mkAlloc true true true false) 32 2;
              OpGet 16; OpRem 16; OpCount] ltac:(lia) ltac:(simpl; lia)).
Defined.

(** C20: a table that is filled with mht_put2_new and emptied with mht_rem2
    holds the bag of the keys and data that these leave, equal keys included,
    and a client that calls mht_get2 with the same variable until it answers
    NULL gets the data of all entries of a key, each once.  The data are not
    NULL, which is what tells the end. *)
Theorem mht_get2_enumerates hash_func cmp_func junk est b ops k
    `{Hkeys : MhtKeys hash_func cmp_func} :
  est < 2 ^ 28 -> Z.of_nat (length ops) < 2 ^ 26 -> Forall puts_data ops -> k <> NULL ->
  exists ht, mht_create (mkAlloc true true true true) est = Some (Some ht)
    /\ exists rs ht' bag ds, run2 hash_func cmp_func junk (set_build b ht) ops = Some (rs, ht')
         /\ bag_run cmp_func [] ops rs bag
         /\ get2_all hash_func cmp_func (S (length bag)) ht' k NULL = Some ds
         /\ ds ≡ₚ snd <$> filter (fun a => same cmp_func k a = true) bag.
Proof.
  intros He Hn Hops Hk.
  destruct (create_refines hash_func cmp_func est b He) as (ht & Hc & Hrep & Hbrk).
  exists ht. split; [done|]. apply represents_holds in Hrep.
  destruct (run2_holds hash_func cmp_func junk ops _ _ Hrep) as (rs & ht' & bag & Hrun & Hbag & Hh);
    [simpl; lia|].
  destruct (get2_holds hash_func cmp_func ht' bag k (S (length bag)) Hh Hk) as (ds & Hds & Hp);
    [by eapply bag_data|lia|].
  by exists rs, ht', bag, ds.
Qed.

Lemma mht_get2_enumerates_witness :
  exists ht, mht_create (mkAlloc true true true true) 8 = Some (Some ht)
    /\ exists rs ht' bag ds,
         run2 mht_ptrhash mht_compare_ptrs_are_equal no_entry
           (set_build false ht) [Put2 16 1; Put2 16 2; Put2 32 3; Rem2 16 1] = Some (rs, ht')
         /\ bag_run mht_compare_ptrs_are_equal [] [Put2 16 1; Put2 16 2; Put2 32 3; Rem2 16 1] rs bag
         /\ get2_all mht_ptrhash mht_compare_ptrs_are_equal (S (length bag)) ht' 16 NULL = Some ds
         /\ ds ≡ₚ snd <$> filter (fun a => same mht_compare_ptrs_are_equal 16 a = true) bag.
Proof. apply mht_get2_enumerates; [apply _|lia|simpl; lia|by repeat constructor|done]. Defined.

(** A table with two entries, for the witnesses. *)
Lemma two_entries :
  exists ht, represents mht_ptrhash mht_compare_ptrs_are_equal ht
               (mkSpec [(16, 1); (32, 2)] [(16, 1); (32, 2)] true) /\ t_brk ht <= 3.
Proof.
  destruct (create_refines mht_ptrhash mht_compare_ptrs_are_equal 8 true ltac:(lia))
    as (ht & _ & Hrep & Hbrk).
  destruct (put_refines mht_ptrhash mht_compare_ptrs_are_equal no_entry (mkAlloc true true true true)
              _ _ 16 1 MHT_OPT_DEFAULT false Hrep) as (r & ht1 & _ & Hans & Hbrk1);
    [unfold room; simpl; lia|by left|done|].
  destruct Hans as [[_ Hrep1]|[(_ & Ha & _)|(_ & Ha & _)]]; [|done..].
  destruct (put_refines mht_ptrhash mht_compare_ptrs_are_equal no_entry (mkAlloc true true true true)
              _ _ 32 2 MHT_OPT_DEFAULT false Hrep1) as (r2 & ht2 & _ & Hans & Hbrk2);
    [unfold room; simpl in *; lia|by left|done|].
  destruct Hans as [[_ Hrep2]|[(_ & Ha & _)|(_ & Ha & _)]]; [|done..].
  exists ht2. split; [exact Hrep2|]. simpl in *. lia.
Qed.



(** Mht_clear calls its function once with the key and data of every
    entry and leaves an empty table of the same size that can be filled
    again: the operations after it behave as on a new table. *)
Theorem mht_clear_correct hash_func cmp_func junk `{Hkeys : MhtKeys hash_func cmp_func} ht s ops :
  represents hash_func cmp_func ht s -> t_brk ht + Z.of_nat (length ops) <= 2 ^ 26 ->
  exists l ht1, l ≡ₚ sp_ents s
    /\ mht_clear ht (Some (log_until (length (sp_ents s)))) [] = Some (NO_ERROR, ht1, l)
    /\ mht_count ht1 = 0
    /\ exists rs ht2 s2, run hash_func cmp_func junk ht1 ops = Some (rs, ht2)
         /\ spec_run cmp_func (mkSpec [] [] (sp_build s)) ops rs s2
         /\ represents hash_func cmp_func ht2 s2.
Proof.
  intros Hrep Hn. destruct (clear_refines (A := list (Z * Z)) hash_func cmp_func ht s Hrep)
    as (l & Hl & Hclear).
  destruct (Hclear (Some (log_until (length (sp_ents s)))) [] l) as (ht1 & Hrun & Hrep1 & Hbrk).
  { rewrite call_all_log; [done|]. simpl. by rewrite Hl. }
  exists l, ht1. split; [done|]. split; [done|]. split.
  - destruct Hrep1 as (sh & Hwf & He & _). unfold mht_count. rewrite (wf_nentries _ _ _ Hwf).
    apply (f_equal length) in He. unfold contents in He. rewrite length_fmap in He. by rewrite <- He.
  - apply (run_refines hash_func cmp_func junk ops _ _ Hrep1). lia.
Qed.

Lemma mht_clear_correct_witness :
  exists ht l ht1, l ≡ₚ [(16, 1); (32, 2)]
    /\ mht_clear ht (Some (log_until 2)) [] = Some (NO_ERROR, ht1, l) /\ mht_count ht1 = 0.
Proof.
  destruct two_entries as (ht & Hrep & Hbrk). exists ht.
  destruct (mht_clear_correct mht_ptrhash mht_compare_ptrs_are_equal no_entry ht _ [] Hrep)
    as (l & ht1 & Hl & Hrun & Hc & _); [simpl; lia|].
  by exists l, ht1.
Defined.

(** Error paths of the table that do not leave it as their callers
    expect.  An insertion that cannot get a larger vector answers NULL, but
    the entry is in the table.  When the function of mht_clear answers an
    error at its second call, the first entry is on the list of saved entries
    and still on the chain and the list of active entries: all entries are
    counted and none is found, and after the next insertion neither a lookup
    nor mht_map ends.  The size in bytes of a vector for 2^29 entries is 0,
    and mht_create writes outside of it.  mht_3strhash reads behind the
    terminator of a string of one character, mht_get_hash_number before the
    start of an empty string.  A size of 510 gives 541 and not 521, a size of
    40000 gives 80000, which is not a power of two, and 6847, which is not a
    prime number, is taken for one.  The table of mht_4str_pseudo_key has
    the same value at two places and is not a permutation. *)
Example mht_faults :
  let no_vector := mkAlloc true true false true in
  let ok := mkAlloc true true true true in
  let three := one_chain [OpPut ok 1 101; OpPut ok 2 102; OpPut ok 3 103] in
  fst <$> one_chain (((fun k => OpPut no_vector k (100 + k)) <$> [1; 2; 3; 4; 5; 6; 7; 8])
                     ++ [OpCount; OpGet 8])
    = Some [1; 2; 3; 4; 5; 6; 7; NULL; 8; 108]
  /\ (exists ht ht', snd <$> three = Some ht
       /\ mht_clear ht (Some (log_until 1)) [] = Some (ER_FAILED, ht', [(3, 103)])
       /\ fst <$> run (fun _ _ => 0) Z.eqb no_entry ht' [OpCount; OpGet 1; OpGet 2; OpGet 3]
            = Some [3; NULL; NULL; NULL]
       /\ exists ht'', run (fun _ _ => 0) Z.eqb no_entry ht' [OpPut ok 9 109] = Some ([9], ht'')
            /\ mht_get (fun _ _ => 0) Z.eqb ht'' 1 = None
            /\ mht_map ht'' (sweep (fun _ _ => 0) Z.eqb (fun _ _ => false)) [] = None)
  /\ mht_create ok (2 ^ 29) = None
  /\ mht_3strhash [97; 0] 11 = None
  /\ mht_get_hash_number (fun _ _ _ => 0) 11 (Some (HASH_STRING 0 (Some [0]) (-1))) = None
  /\ mht_calculate_htsize 510 = Some 541 /\ 521 ∈ mht_Primes
  /\ mht_calculate_htsize 40000 = Some 80000
  /\ mht_calculate_htsize 6842 = Some (41 * 167)
  /\ tbl4 3 = tbl4 79.
Proof.
  cbv zeta. split; [vm_compute; reflexivity|]. split.
  { eexists _, _. split; [vm_compute; reflexivity|]. split; [vm_compute; reflexivity|].
    split; [vm_compute; reflexivity|]. eexists. split; [vm_compute; reflexivity|].
    split; vm_compute; reflexivity. }
  split; [vm_compute; reflexivity|]. split; [vm_compute; reflexivity|].
  split; [vm_compute; reflexivity|]. split; [vm_compute; reflexivity|].
  split; [by apply (bool_decide_unpack (521 ∈ mht_Primes))|].
  split; [vm_compute; reflexivity|]. split; vm_compute; reflexivity.
Qed.
