(* ===== verification/Doubles.v ===== *)
(** * Double precision numbers of either sign

    The operations on doubles round their exact result: the relative error is
    at most 2 ^ -52, and rounding does not cross a multiple of 2 ^ -10, so that
    multiples of 2 ^ -10 of moderate size are computed exactly and conversions
    to integers do not lose an integer. *)
From Stdlib Require Import ZArith Lia ZifyBool SpecFloat Reals Lra.
From stdpp Require Import base list numbers.
From S2P Require Import Prelude Floats.

(** The value of a float. *)
Definition dval (f : spec_float) (x : R) : Prop :=
  match f with
  | S754_zero _ => x = 0%R
  | S754_finite s m e => x = (if s then - fval (Zpos m) e else fval (Zpos m) e)%R
  | _ => False
  end.

Definition grid (n : Z) : R := fval n (-10).

Definition rounds (x y : R) : Prop :=
  (Rabs (y - x) <= p2 (-52) * Rabs x)%R
  /\ forall n, ((grid n <= x)%R -> (grid n <= y)%R) /\ ((x <= grid n)%R -> (y <= grid n)%R).

(** Numbers of moderate size. *)
Definition moderate (x : R) : Prop := x = 0%R \/ (p2 (-60) <= Rabs x <= p2 40)%R.

Lemma fval_le a b e : (fval a e <= fval b e)%R <-> a <= b.
Proof.
  unfold fval. pose proof (p2_pos e). split; intros Hab.
  - apply le_IZR. nra.
  - apply IZR_le in Hab. nra.
Qed.

Lemma fval_lt a b e : (fval a e < fval b e)%R <-> a < b.
Proof.
  unfold fval. pose proof (p2_pos e). split; intros Hab.
  - apply lt_IZR. nra.
  - apply IZR_lt in Hab. nra.
Qed.

Lemma fval_opp m e : fval (- m) e = (- fval m e)%R.
Proof. unfold fval. rewrite opp_IZR. ring. Qed.

Lemma fval_plus a b e : fval (a + b) e = (fval a e + fval b e)%R.
Proof. unfold fval. rewrite plus_IZR. ring. Qed.

Lemma grid_opp n : grid (- n) = (- grid n)%R.
Proof. apply fval_opp. Qed.

Lemma grid_at n e : e <= -10 -> grid n = fval (n * 2 ^ (-10 - e)) e.
Proof. intros He. unfold grid. rewrite fval_shift by lia. f_equal. lia. Qed.

Lemma grid_int n : IZR n = grid (n * 2 ^ 10).
Proof. unfold grid. rewrite fval_shift by lia. unfold fval, p2. simpl. lra. Qed.

Lemma rounds_refl x : rounds x x.
Proof.
  split; [|by intros n]. replace (x - x)%R with 0%R by ring. rewrite Rabs_R0.
  pose proof (p2_pos (-52)). pose proof (Rabs_pos x). nra.
Qed.

Lemma rounds_opp x y : rounds x y -> rounds (- x) (- y).
Proof.
  intros [He Hg]. split.
  - rewrite Rabs_Ropp. replace (- y - - x)%R with (- (y - x))%R by ring. by rewrite Rabs_Ropp.
  - intros n. destruct (Hg (- n)) as [H1 H2]. rewrite grid_opp in H1, H2. split; intros H.
    + assert (y <= - grid n)%R by (apply H2; lra). lra.
    + assert (- grid n <= y)%R by (apply H1; lra). lra.
Qed.

(** ** Rounding *)

Lemma round_pos m e l :
  (p2 (-60) <= fval (Zpos m) e <= p2 40)%R -> l = loc_Exact \/ 2 ^ 52 <= Zpos m ->
  exists m' e', binary_round_aux 53 1024 false (Zpos m) e l = S754_finite false m' e'
    /\ (Rabs (fval (Zpos m') e' - fval (Zpos m) e) <= p2 (-52) * fval (Zpos m) e)%R
    /\ forall n, ((grid n <= fval (Zpos m) e)%R -> (grid n <= fval (Zpos m') e')%R)
         /\ (l = loc_Exact -> (fval (Zpos m) e <= grid n)%R -> (fval (Zpos m') e' <= grid n)%R).
Proof.
  intros Hr Hl. assert (p2 40 <= p2 60)%R as H60 by (by apply p2_le).
  destruct (round_aux_value 53 1024 format64 m e l) as (m' & e' & Hrun & Hb); [lra|done|].
  exists m', e'. split; [done|]. split.
  { apply Rabs_le. unfold eps in Hb. change (1 - 53) with (-52) in Hb. lra. }
  pose proof (fval_digits m e) as [Hd1 Hd2].
  assert (-60 < Zpos (digits2_pos m) + e) by (apply p2_lt_inv; lra).
  assert (Zpos (digits2_pos m) - 1 + e < 41) as Hd3.
  { apply p2_lt_inv. assert (p2 40 < p2 41)%R; [|lra]. rewrite !p2_IZR by lia. by apply IZR_lt. }
  destruct (round_aux_normal 53 1024 ltac:(lia) m e l) as (m1 & e1 & m2 & k & Hrun' & He1 & Hm2 & Hk & Hbd & Hx);
    [unfold normal, emin; simpl; lia|lia|lia|].
  rewrite Hrun in Hrun'. injection Hrun' as <- <-.
  assert (fval (Zpos m') e' = fval m2 (e + k)) as ->
    by (rewrite <- Hm2, fval_shift by lia; f_equal; lia).
  assert (fval (Zpos m) e = fval (Zpos m) (e + 0)) as Hm0 by (f_equal; lia).
  intros n. destruct (Z.eq_dec k 0) as [->|Hk0].
  { change (2 ^ 0) with 1 in *. rewrite Z.div_1_r, Z.mod_1_r in *. rewrite Hm0. split.
    - intros Hn. etrans; [exact Hn|]. apply fval_le. lia.
    - intros -> Hn. by rewrite Hx by done. }
  rewrite (grid_at n (e + k)) by lia. set (N := n * _).
  rewrite <- (fval_shift N e k), <- (fval_shift m2 e k), !fval_le by lia.
  pose proof (Z.div_mod (Zpos m) (2 ^ k) ltac:(lia)) as Hdm.
  pose proof (Z.mod_pos_bound (Zpos m) (2 ^ k) ltac:(lia)) as Hmod.
  set (q := Zpos m / 2 ^ k) in *. set (r := Zpos m mod 2 ^ k) in *. clearbody q r N.
  assert (0 < 2 ^ k) by lia. split.
  - intros Hn. assert (N <= q) by nia. nia.
  - intros Hle Hn. destruct (Z.eq_dec r 0) as [Hr0|Hr0].
    + rewrite (Hx Hle Hr0). assert (q <= N) by nia. nia.
    + assert (q < N) by nia. nia.
Qed.

Lemma round_aux_opp m e l :
  binary_round_aux 53 1024 true m e l = SFopp (binary_round_aux 53 1024 false m e l).
Proof.
  unfold binary_round_aux. destruct (shr_fexp 53 1024 m e l) as [r e1].
  destruct (shr_fexp 53 1024 _ e1 loc_Exact) as [r2 e2]. destruct (shr_m r2); [done| |done].
  by destruct (e2 <=? _).
Qed.

Lemma dval_opp f x : dval f x -> dval (SFopp f) (- x).
Proof. destruct f as [s| |  |s m e]; simpl; try done; intros ->; [ring|]. destruct s; simpl; ring. Qed.

Lemma round_signed s m e :
  (p2 (-60) <= fval (Zpos m) e <= p2 40)%R ->
  exists y, dval (binary_round_aux 53 1024 s (Zpos m) e loc_Exact) y
    /\ rounds (if s then - fval (Zpos m) e else fval (Zpos m) e) y.
Proof.
  intros Hr. destruct (round_pos m e loc_Exact Hr ltac:(by left)) as (m' & e' & Hrun & He & Hg).
  assert (rounds (fval (Zpos m) e) (fval (Zpos m') e')) as Hro.
  { pose proof (p2_pos (-60)). split; [rewrite (Rabs_right (fval (Zpos m) e)) by lra; done|].
    intros n. destruct (Hg n) as [H1 H2]. split; [done|]. by apply H2. }
  destruct s; [rewrite round_aux_opp|]; rewrite Hrun; eexists; (split; [simpl; done|]); [|done].
  by apply rounds_opp.
Qed.

Lemma normalize_rounds z e :
  moderate (fval z e) ->
  exists y, dval (binary_normalize 53 1024 z e false) y /\ rounds (fval z e) y.
Proof.
  assert (forall p, (0 < fval (Zpos p) e)%R) as Hpos
    by (intros p; unfold fval; pose proof (p2_pos e); assert (0 < IZR (Zpos p))%R by (by apply IZR_lt); nra).
  assert (forall s m, (p2 (-60) <= fval (Zpos m) e <= p2 40)%R ->
            exists y, dval (binary_round 53 1024 s m e) y
              /\ rounds (if s then - fval (Zpos m) e else fval (Zpos m) e) y) as Hround.
  { intros s m. unfold binary_round.
    pose proof (shl_align_value m e (fexp 53 1024 (Zpos (digits2_pos m) + e))) as Hs.
    destruct (shl_align _ _ _) as [mz ez]. simpl in Hs. rewrite <- Hs. apply round_signed. }
  intros [H0|Hr]; destruct z as [|p|p]; simpl.
  - eexists. split; [done|]. rewrite H0. apply rounds_refl.
  - pose proof (Hpos p). lra.
  - pose proof (Hpos p). change (Zneg p) with (- Zpos p) in H0. rewrite fval_opp in H0. lra.
  - replace (fval 0 e) with 0%R by (unfold fval; ring). eexists. split; [done|]. apply rounds_refl.
  - apply (Hround false). rewrite Rabs_right in Hr; [done|]. pose proof (Hpos p). lra.
  - change (Zneg p) with (- Zpos p) in *. rewrite fval_opp in *. apply (Hround true).
    rewrite Rabs_Ropp, Rabs_right in Hr; [done|]. pose proof (Hpos p). lra.
Qed.

(** ** Operations *)

(** The mantissas of two numbers at their smaller exponent. *)
Lemma shl_align_min m e e2 :
  fval (Zpos (shl_align m e (Z.min e e2)).1) (Z.min e e2) = fval (Zpos m) e.
Proof.
  pose proof (shl_align_value m e (Z.min e e2)) as H. unfold shl_align in *.
  destruct (Z.min e e2 - e) as [|d|d] eqn:E; simpl in *; [|lia|done].
  by replace (Z.min e e2) with e by lia.
Qed.

Lemma cond_opp_value s m e :
  fval (cond_Zopp s (Zpos m)) e = (if s then - fval (Zpos m) e else fval (Zpos m) e)%R.
Proof. destruct s; simpl cond_Zopp; [|done]. apply fval_opp. Qed.

Lemma add_rounds a b x y :
  dval a x -> dval b y -> moderate (x + y) ->
  exists z, dval (SFadd 53 1024 a b) z /\ rounds (x + y) z.
Proof.
  destruct a as [sa| | |sa ma ea], b as [sb| | |sb mb eb]; simpl; try done; intros Hx Hy Hm.
  - subst. replace (0 + 0)%R with 0%R by ring. exists 0%R.
    split; [by destruct sa, sb|apply rounds_refl].
  - exists y. rewrite Hx, Rplus_0_l. split; [done|apply rounds_refl].
  - exists x. rewrite Hy, Rplus_0_r. split; [done|apply rounds_refl].
  - pose proof (shl_align_min ma ea eb) as H1. pose proof (shl_align_min mb eb ea) as H2.
    rewrite (Z.min_comm eb ea) in H2.
    set (m1 := (shl_align ma ea _).1) in *. set (m2 := (shl_align mb eb _).1) in *.
    assert (x + y = fval (cond_Zopp sa (Zpos m1) + cond_Zopp sb (Zpos m2)) (Z.min ea eb))%R as Hxy.
    { rewrite fval_plus, !cond_opp_value, H1, H2. congruence. }
    rewrite Hxy in Hm |- *. by apply normalize_rounds.
Qed.

Lemma sub_add a b x y :
  dval a x -> dval b y ->
  (exists z, dval (SFadd 53 1024 a (SFopp b)) z /\ rounds (x - y) z) ->
  exists z, dval (SFsub 53 1024 a b) z /\ rounds (x - y) z.
Proof.
  destruct a as [sa| | |sa ma ea], b as [sb| | |sb mb eb]; simpl; try done.
  - intros -> -> _. replace (0 - 0)%R with 0%R by ring. exists 0%R.
    split; [by destruct sa, sb|apply rounds_refl].
  - intros _ _. destruct sb; done.
Qed.

Lemma sub_rounds a b x y :
  dval a x -> dval b y -> moderate (x - y) ->
  exists z, dval (SFsub 53 1024 a b) z /\ rounds (x - y) z.
Proof.
  intros Ha Hb Hm. apply sub_add; [done..|]. unfold Rminus in *.
  apply add_rounds; [done|by apply dval_opp|done].
Qed.

Lemma mul_rounds a b x y :
  dval a x -> dval b y -> moderate (x * y) ->
  exists z, dval (SFmul 53 1024 a b) z /\ rounds (x * y) z.
Proof.
  assert (forall u, 0 * u = 0 /\ u * 0 = 0)%R as H0 by (intros; split; ring).
  destruct a as [sa| | |sa ma ea], b as [sb| | |sb mb eb]; simpl; try done; intros Hx Hy Hm.
  1-3: subst; rewrite ?(proj1 (H0 _)), ?(proj2 (H0 _)); exists 0%R; split; [done|apply rounds_refl].
  assert (x * y = if xorb sa sb then - fval (Zpos (ma * mb)) (ea + eb)
                  else fval (Zpos (ma * mb)) (ea + eb))%R as Hxy.
  { subst. unfold fval. rewrite p2_add, Pos2Z.inj_mul, mult_IZR. destruct sa, sb; simpl; ring. }
  assert (0 < fval (Zpos (ma * mb)) (ea + eb))%R as Hp.
  { unfold fval. pose proof (p2_pos (ea + eb)). assert (0 < IZR (Zpos (ma * mb)))%R by (by apply IZR_lt). nra. }
  rewrite Hxy. apply round_signed. destruct Hm as [Hm|Hm].
  - rewrite Hxy in Hm. destruct (xorb sa sb); lra.
  - rewrite Hxy in Hm. destruct (xorb sa sb); [rewrite Rabs_Ropp in Hm|]; rewrite Rabs_right in Hm; lra.
Qed.

(** A quotient by a positive number: the error, and for a positive dividend
    the multiples of 2 ^ -10 below the exact quotient. *)
Lemma div_pos ma ea mb eb :
  let x := fval (Zpos ma) ea in
  let y := fval (Zpos mb) eb in
  (p2 (-38) * y <= x <= p2 38 * y)%R ->
  exists m' e',
    (let '(q, e, l) := SFdiv_core_binary 53 1024 (Zpos ma) ea (Zpos mb) eb in
     binary_round_aux 53 1024 false q e l) = S754_finite false m' e'
    /\ (Rabs (fval (Zpos m') e' * y - x) <= p2 (-50) * x)%R
    /\ forall n, (grid n * y <= x)%R -> (grid n <= fval (Zpos m') e')%R.
Proof.
  intros x y Hr. pose proof (fval_digits ma ea) as [_ Hda]. pose proof (fval_digits mb eb) as [Hdb _].
  fold x in Hda. fold y in Hdb.
  assert (0 < y)%R as Hy by (pose proof (p2_pos (Zpos (digits2_pos mb) - 1 + eb)); lra).
  assert (-38 + (Zpos (digits2_pos mb) - 1 + eb) < Zpos (digits2_pos ma) + ea) as Hdig.
  { apply p2_lt_inv. rewrite p2_add. pose proof (p2_pos (-38)). nra. }
  destruct (div_core 53 1024 format64 ma ea mb eb) as (q & e & l & -> & Hq & Hb); [unfold emin; lia|].
  fold x y in Hb. destruct q as [|q|q]; [lia| |lia]. change (53 - 1) with 52 in Hq.
  set (Q := fval (Zpos q) e) in *.
  assert (0 < Q)%R as HQ by (unfold Q, fval; pose proof (p2_pos e); assert (0 < IZR (Zpos q))%R by (by apply IZR_lt); nra).
  assert (fval (Zpos q + 1) e <= Q * (1 + p2 (-52)))%R as Hq1.
  { pose proof (ulp_small (Zpos q) e 52 ltac:(lia) Hq) as Hu. fold Q in Hu.
    change (Z.opp 52) with (-52) in Hu. rewrite fval_plus. fold Q. lra. }
  assert (0 < p2 (-52) <= / 1000000000)%R as H52 by (split; [apply p2_pos|unfold p2; simpl; lra]).
  assert (p2 (-50) = 4 * p2 (-52))%R as H50 by (unfold p2; simpl; lra).
  assert (p2 (-60) <= / 4 * p2 (-38))%R as H38 by (unfold p2; simpl; lra).
  assert (4 * p2 38 <= p2 40)%R as H40 by (unfold p2; simpl; lra).
  pose proof (p2_pos (-38)). pose proof (p2_pos 38).
  assert (x < Q * y * (1 + p2 (-52)))%R as Hxu by nra.
  assert (0 < Q * y)%R as HQy by nra.
  assert (p2 (-38) <= 2 * Q)%R by (apply (Rmult_le_reg_r y); [done|]; nra).
  assert (Q <= p2 38)%R by (apply (Rmult_le_reg_r y); [done|]; lra).
  destruct (round_pos q e l) as (m' & e' & -> & He & Hg); [fold Q; lra|by right|]. fold Q in He, Hg.
  exists m', e'. split; [done|]. set (Y := fval (Zpos m') e') in *. split.
  - assert (- (p2 (-52) * Q) <= Y - Q <= p2 (-52) * Q)%R as He2
      by (unfold Rabs in He; destruct (Rcase_abs _); lra).
    apply Rabs_le. assert (Q * y <= x)%R by lra.
    assert (Q * y * (1 - p2 (-52)) <= Y * y <= Q * y * (1 + p2 (-52)))%R by nra.
    rewrite H50. set (W := (Q * y)%R) in *. assert (0 < W)%R by (unfold W; nra). nra.
  - intros n Hn. apply Hg.
    assert (e <= -10) as Hel.
    { pose proof (fval_digits q e) as [Hd _]. fold Q in Hd. pose proof (digits_mono q 53 Hq).
      assert (Zpos (digits2_pos q) - 1 + e < 40); [|lia]. apply p2_lt_inv. lra. }
    rewrite (grid_at n e Hel) in *. apply fval_le.
    assert (n * 2 ^ (-10 - e) < Zpos q + 1); [|lia]. apply (fval_lt _ _ e). nra.
Qed.

Lemma div_rounds a b x y :
  dval a x -> dval b y -> (0 < y)%R -> (x = 0 \/ p2 (-38) * y <= Rabs x <= p2 38 * y)%R ->
  exists z, dval (SFdiv 53 1024 a b) z /\ (Rabs (z * y - x) <= p2 (-50) * Rabs x)%R
    /\ ((0 <= x)%R -> forall n, (grid n * y <= x)%R -> (grid n <= z)%R).
Proof.
  assert (forall m e, (0 < fval (Zpos m) e)%R) as Hpos
    by (intros m e; unfold fval; pose proof (p2_pos e); assert (0 < IZR (Zpos m))%R by (by apply IZR_lt); nra).
  destruct b as [sb| | |sb mb eb]; simpl; try done; intros Ha Hb Hy Hr; [lra|].
  pose proof (Hpos mb eb). destruct sb; [lra|].
  destruct a as [sa| | |sa ma ea]; simpl in Ha; try done.
  - subst x. exists 0%R. split; [done|]. rewrite Rmult_0_l, Rminus_0_r, Rabs_R0. split; [lra|].
    intros _ n Hn. nra.
  - pose proof (Hpos ma ea) as Hma.
    assert (Rabs x = fval (Zpos ma) ea) as Habs.
    { rewrite Ha. destruct sa; [rewrite Rabs_Ropp|]; apply Rabs_right; lra. }
    destruct Hr as [Hr|Hr]; [destruct sa; lra|]. rewrite Habs, Hb in Hr.
    destruct (div_pos ma ea mb eb Hr) as (m' & e' & Hrun & He & Hg). cbn [SFdiv].
    destruct (SFdiv_core_binary 53 1024 (Zpos ma) ea (Zpos mb) eb) as [[q e] l]. rewrite Habs, Hb.
    destruct sa; cbn [xorb]; [rewrite round_aux_opp|]; rewrite Hrun; eexists; (split; [simpl; done|]).
    + split; [|lra]. rewrite Ha.
      replace (- fval (Zpos m') e' * fval (Zpos mb) eb - - fval (Zpos ma) ea)%R
        with (- (fval (Zpos m') e' * fval (Zpos mb) eb - fval (Zpos ma) ea))%R by ring.
      by rewrite Rabs_Ropp.
    + rewrite Ha. done.
Qed.

(** ** Conversions *)

Lemma double_of_value n : Z.abs n < 2 ^ 40 -> dval (double_of n) (IZR n).
Proof.
  intros Hn. assert (fval n 0 = IZR n) as Hv by (unfold fval, p2; simpl; ring).
  destruct (normalize_rounds n 0) as (y & Hy & _ & Hg).
  - rewrite Hv. destruct (Z.eq_dec n 0) as [->|H0]; [by left|right].
    rewrite <- abs_IZR, (p2_IZR 40) by lia. split; [|apply IZR_le; lia].
    assert (1 <= IZR (Z.abs n))%R by (apply IZR_le; lia).
    assert (p2 (-60) <= 1)%R by (unfold p2; simpl; lra). lra.
  - rewrite Hv in Hg. destruct (Hg (n * 2 ^ 10)) as [H1 H2]. rewrite <- grid_int in H1, H2.
    replace (IZR n) with y; [done|]. apply Rle_antisym; [apply H2|apply H1]; lra.
Qed.

Lemma to_int_value f x n :
  dval f x -> (IZR n <= x < IZR n + 1)%R -> 0 <= n < 2 ^ 31 -> float_to_int f = n.
Proof.
  intros Hf Hx Hn. unfold float_to_int.
  assert (float_trunc f = Some n) as ->; [|zcase; lia].
  destruct f as [s| | |s m e]; simpl in Hf; try done.
  - subst x. simpl. f_equal. assert (n < 1) by (apply lt_IZR; lra).
    assert (-1 < n) by (apply lt_IZR; lra). lia.
  - assert (0 < fval (Zpos m) e)%R as Hp
      by (unfold fval; pose proof (p2_pos e); assert (0 < IZR (Zpos m))%R by (by apply IZR_lt); nra).
    destruct s; [assert (0 <= IZR n)%R by (apply IZR_le; lia); lra|].
    destruct (float_trunc_value (S754_finite false m e) x) as (k & -> & Hk & Hkb); [by exists m, e|].
    f_equal. assert (k < n + 1) by (apply lt_IZR; rewrite plus_IZR; lra).
    assert (n < k + 1) by (apply lt_IZR; rewrite plus_IZR; lra). lia.
Qed.
