(* ===== verification/Dates.v ===== *)
(** * Dates and times (src/compat/db_date.c)

    The conversion of dates to day numbers and back, which the source computes
    with floating-point numbers, the encoding of times of the day and of dates
    with times, arithmetic on them, and the days and weeks of a year.  A date
    is the Julian day number, a time the seconds or milliseconds of the day.
    The pointers to results are not NULL. *)
From Stdlib Require Import ZArith Lia ZifyBool SpecFloat.
From stdpp Require Import base list numbers.
From S2P Require Import Prelude Floats.

Definition ER_DATE_CONVERSION : Z := -176.
Definition ER_TIME_CONVERSION : Z := -787.
Definition ER_QPROC_TIME_UNDERFLOW : Z := -553.

Definition IGREG1 : Z := 15 + 31 * (10 + 12 * 1582).
Definition IGREG2 : Z := 2299161.
Definition IGREG_SPECIAL : Z := 0.
Definition DB_DATE_MIN : Z := 1721424.
Definition DB_DATE_MAX : Z := 5373484.
Definition MILLISECONDS_OF_ONE_DAY : Z := 86400000.

(** ** Floating-point expressions *)

(** The literal [n / d] of the source: the double nearest to it. *)
Definition lit (n d : Z) : spec_float := SFdiv 53 1024 (double_of n) (double_of d).

(** floor, as a double. *)
Definition float_floor (f : spec_float) : option Z :=
  match f with
  | S754_zero _ => Some 0
  | S754_finite s m e =>
      let z := if s then Zneg m else Zpos m in
      Some (if e <? 0 then Z.shiftr z (- e) else Z.shiftl z e)
  | _ => None
  end.
Definition FLOOR (f : spec_float) : spec_float :=
  match float_floor f with Some n => double_of n | None => f end.

Notation dadd := (SFadd 53 1024).
Notation dsub := (SFsub 53 1024).
Notation dmul := (SFmul 53 1024).
Notation ddiv := (SFdiv 53 1024).

(** ** Day numbers *)

(** FLOOR (365.25 * jy) + FLOOR (30.6001 * jm) + d + 1720995 *)
Definition encode_sum (jy jm d : Z) : spec_float :=
  dadd (dadd (dadd (FLOOR (dmul (lit 36525 100) (double_of jy)))
                (FLOOR (dmul (lit 306001 10000) (double_of jm))))
          (double_of d)) (double_of 1720995).

Definition julian_encode (m d y : Z) : Z :=
  if y =? 0 then 0
  else if (m =? 1) && (d =? 1) && (y =? -4713) then 0
  else
    let y := if y <? 0 then y + 1 else y in
    let '(jy, jm) := if m >? 2 then (y, swrap 32 (m + 1)) else (swrap 32 (y - 1), swrap 32 (m + 13)) in
    let jul := float_to_int (encode_sum jy jm d) in
    if d + 31 * (m + 12 * y) >=? IGREG1 then
      let ja := float_to_int (dmul (lit 1 100) (double_of jy)) in
      swrap 32 (jul + (2 - ja + float_to_int (dmul (lit 25 100) (double_of ja))))
    else jul.

Definition day_of_week (jul_day : Z) : Z :=
  if jul_day =? IGREG_SPECIAL then IGREG_SPECIAL else Z.rem (swrap 32 (jul_day + 1)) 7.

(** (int) (((float) (jul - 1867216) - 0.25) / 36524.25) *)
Definition century (jul : Z) : Z :=
  float_to_int (ddiv (dsub (float_of (swrap 32 (jul - 1867216))) (lit 25 100)) (lit 3652425 100)).

(** (int) (6680.0 + ((float) (jb - 2439870) - 122.1) / 365.25) *)
Definition shifted_year (jb : Z) : Z :=
  float_to_int
    (dadd (double_of 6680)
       (ddiv (dsub (float_of (swrap 32 (jb - 2439870))) (lit 1221 10)) (lit 36525 100))).

(** (int) (365 * jc + (0.25 * jc)) *)
Definition year_days (jc : Z) : Z :=
  float_to_int (dadd (double_of (swrap 32 (365 * jc))) (dmul (lit 25 100) (double_of jc))).

(** The month, day, year and weekday. *)
Definition julian_decode (jul : Z) : Z * Z * Z * Z :=
  let ja :=
    if jul >=? IGREG2 then
      let jalpha := century jul in
      swrap 32 (jul + 1 + jalpha - float_to_int (dmul (lit 25 100) (double_of jalpha)))
    else jul in
  let week := Z.rem (swrap 32 (jul + 1)) 7 in
  if ja =? IGREG_SPECIAL then (0, 0, 0, week)
  else
    let jb := swrap 32 (ja + 1524) in
    let jc := shifted_year jb in
    let jd := year_days jc in
    let je := float_to_int (ddiv (double_of (swrap 32 (jb - jd))) (lit 306001 10000)) in
    let day := swrap 32 (jb - jd - float_to_int (dmul (lit 306001 10000) (double_of je))) in
    let month := if je - 1 >? 12 then je - 1 - 12 else je - 1 in
    let year := swrap 32 (jc - 4715) in
    let year := if month >? 2 then year - 1 else year in
    (month, day, if year <=? 0 then year - 1 else year, week).

(** The error code and the date, which is an unsigned int. *)
Definition db_date_encode (month day year : Z) : Z * Z :=
  if (year <? 0) || (year >? 9999) || (month <? 0) || (month >? 12) || (day <? 0) || (day >? 31)
  then (ER_DATE_CONVERSION, 0)
  else
    let tmp := uwrap 32 (julian_encode month day year) in
    let '(tmp_month, tmp_day, tmp_year, _) := julian_decode (swrap 32 tmp) in
    if (month =? tmp_month) && (day =? tmp_day) && (year =? tmp_year)
    then (NO_ERROR, tmp)
    else (ER_DATE_CONVERSION, 0).

Definition db_date_decode (date : Z) : Z * Z * Z :=
  (julian_decode (swrap 32 date)).1.

(** ** Times of the day *)

(** -1 as an unsigned int is the time of an error. *)
Definition db_time_encode (hour minute second : Z) : Z * Z :=
  if (hour >=? 0) && (minute >=? 0) && (second >=? 0)
     && (hour <? 24) && (minute <? 60) && (second <? 60)
  then (NO_ERROR, uwrap 32 ((hour * 60 + minute) * 60 + second))
  else (ER_TIME_CONVERSION, uwrap 32 (-1)).

Definition decode_time (timeval : Z) : Z * Z * Z :=
  let seconds := Z.rem timeval 60 in
  let minutes := Z.rem (Z.quot timeval 60) 60 in
  let hours := Z.rem (Z.quot timeval 3600) 24 in
  (hours, minutes, seconds).

Definition db_time_decode (timeval : Z) : Z * Z * Z := decode_time (swrap 32 timeval).

Definition encode_mtime (hour minute second millisecond : Z) : Z :=
  uwrap 32 (((hour * 60 + minute) * 60 + second) * 1000 + millisecond).

Definition decode_mtime (mtimeval : Z) : Z * Z * Z * Z :=
  let milliseconds := Z.rem mtimeval 1000 in
  let seconds := Z.rem (Z.quot mtimeval 1000) 60 in
  let minutes := Z.rem (Z.quot mtimeval 60000) 60 in
  let hours := Z.rem (Z.quot mtimeval 3600000) 24 in
  (hours, minutes, seconds, milliseconds).

(** ** Dates with times *)

Record DB_DATETIME := mkDatetime { dt_date : Z; dt_time : Z }.

Definition db_datetime_decode (datetime : DB_DATETIME) : (Z * Z * Z) * (Z * Z * Z * Z) :=
  (db_date_decode (dt_date datetime), decode_mtime (swrap 32 (dt_time datetime))).

Definition db_datetime_encode (month day year hour minute second millisecond : Z)
    : Z * DB_DATETIME :=
  let time := encode_mtime hour minute second millisecond in
  let '(error, date) := db_date_encode month day year in
  (error, mkDatetime date time).

Definition DB_BIGINT_MIN : Z := - 2 ^ 63.

Definition OR_CHECK_ADD_OVERFLOW (a b c : Z) : bool :=
  (a >? 0) && (b >? 0) && (c <? 0) || (a <? 0) && (b <? 0) && (c >=? 0).
Definition OR_CHECK_SUB_UNDERFLOW (a b c : Z) : bool :=
  (a <? b) && (c >? 0) || (a >? b) && (c <? 0).
Definition OR_CHECK_INT_OVERFLOW (i : Z) : bool := (i >? 0x7FFFFFFF) || (i <? -0x7FFFFFFF - 1).

(** date * MILLISECONDS_OF_ONE_DAY + time as a 64-bit integer. *)
Definition datetime_ms (dt : DB_DATETIME) : Z :=
  swrap 64 (dt_date dt * MILLISECONDS_OF_ONE_DAY + dt_time dt).

(** The end of both functions: the 64-bit number of milliseconds as a date and
    a time.  On an error the result argument [res] is not changed. *)
Definition ms_datetime (result_bi : Z) (res : DB_DATETIME) : Z * DB_DATETIME :=
  let tmp_bi := Z.quot result_bi MILLISECONDS_OF_ONE_DAY in
  if OR_CHECK_INT_OVERFLOW tmp_bi || (tmp_bi >? DB_DATE_MAX) || (tmp_bi <? DB_DATE_MIN)
  then (ER_QPROC_TIME_UNDERFLOW, res)
  else (NO_ERROR, mkDatetime (uwrap 32 tmp_bi)
                    (uwrap 32 (swrap 32 (Z.rem result_bi MILLISECONDS_OF_ONE_DAY)))).

(** The parts of the functions for operands that are not negative. *)
Definition subtract_ms (dt1 : DB_DATETIME) (bi2 : Z) (res : DB_DATETIME) : Z * DB_DATETIME :=
  let bi1 := datetime_ms dt1 in
  let result_bi := swrap 64 (bi1 - bi2) in
  if OR_CHECK_SUB_UNDERFLOW bi1 bi2 result_bi then (ER_QPROC_TIME_UNDERFLOW, res)
  else ms_datetime result_bi res.

Definition add_ms (datetime : DB_DATETIME) (bi2 : Z) (res : DB_DATETIME) : Z * DB_DATETIME :=
  let bi1 := datetime_ms datetime in
  let result_bi := swrap 64 (bi1 + bi2) in
  if OR_CHECK_ADD_OVERFLOW bi1 bi2 result_bi then (ER_QPROC_TIME_UNDERFLOW, res)
  else ms_datetime result_bi res.

(** The functions call each other with the negated operand, which is positive
    then. *)
Definition db_subtract_int_from_datetime (dt1 : DB_DATETIME) (bi2 : Z) (res : DB_DATETIME)
    : Z * DB_DATETIME :=
  if bi2 <? 0 then
    if bi2 =? DB_BIGINT_MIN then (ER_QPROC_TIME_UNDERFLOW, res) else add_ms dt1 (- bi2) res
  else subtract_ms dt1 bi2 res.

Definition db_add_int_to_datetime (datetime : DB_DATETIME) (bi2 : Z) (res : DB_DATETIME)
    : Z * DB_DATETIME :=
  if bi2 <? 0 then
    if bi2 =? DB_BIGINT_MIN then (ER_QPROC_TIME_UNDERFLOW, res) else subtract_ms datetime (- bi2) res
  else add_ms datetime bi2 res.

(** ** Days and weeks of a year *)

Definition is_leap_year (year : Z) : bool :=
  (Z.rem year 400 =? 0) || (negb (Z.rem year 100 =? 0) && (Z.rem year 4 =? 0)).

Definition month_days : list Z := [31; 28; 31; 30; 31; 30; 31; 31; 30; 31; 30].

(** The loop over the months before the given one; the array has eleven
    elements. *)
Fixpoint sum_days (n : nat) (i : nat) (acc : Z) : option Z :=
  match n with
  | O => Some acc
  | S n => d ← month_days !! i; sum_days n (S i) (acc + d)
  end.

Definition db_get_day_of_year (year month day : Z) : option Z :=
  days ← sum_days (Z.to_nat (month - 1)) 0 0;
  let day_of_year := days + day in
  Some
    (if (month >? 2) && (Z.rem year 4 =? 0) then
       if negb (Z.rem year 100 =? 0) then day_of_year + 1
       else if Z.rem year 400 =? 0 then day_of_year + 1 else day_of_year
     else day_of_year).

Definition db_get_day_of_week (year month day : Z) : Z :=
  if (year =? 0) && (month =? 0) && (day =? 0) then 0
  else
    let '(month, year) := if month <? 3 then (month + 12, year - 1) else (month, year) in
    Z.rem (day + 2 * month + Z.quot (6 * (month + 1)) 10 + year + Z.quot year 4
           - Z.quot year 100 + Z.quot year 400 + 1) 7.

Definition get_end_of_week_one_of_year (year mode : Z) : Z :=
  let dow_1Jan := 1 + db_get_day_of_week year 1 1 in
  if (mode =? 0) || (mode =? 2) then
    if dow_1Jan =? 1 then 7 else 7 + 8 - dow_1Jan
  else if (mode =? 1) || (mode =? 3) then
    if dow_1Jan =? 1 then 7 + 1 else if dow_1Jan >? 5 then 16 - dow_1Jan else 9 - dow_1Jan
  else if mode =? 4 then
    if dow_1Jan >? 4 then 7 + 8 - dow_1Jan else 8 - dow_1Jan
  else if mode =? 5 then
    if dow_1Jan =? 1 then 7 + 1 else if dow_1Jan =? 2 then 7 else 16 - dow_1Jan
  else if mode =? 6 then
    if dow_1Jan >? 4 then 7 + 8 - dow_1Jan else 8 - dow_1Jan
  else if mode =? 7 then
    if dow_1Jan =? 2 then 7 else 16 - dow_1Jan
  else 7.

(** 1 + days / 7, and one more when days % 7 is not 0. *)
Definition weeks_after (days : Z) : Z :=
  let week_number := 1 + Z.quot days 7 in
  if negb (Z.rem days 7 =? 0) then week_number + 1 else week_number.

Definition db_get_week_of_year (year month day mode : Z) : option Z :=
  day_of_year ← db_get_day_of_year year month day;
  let end_of_first_week := get_end_of_week_one_of_year year mode in
  Some
    (if day_of_year >? end_of_first_week then weeks_after (day_of_year - end_of_first_week)
     else if day_of_year >? end_of_first_week - 7 then 1
     else if (mode =? 0) || (mode =? 1) || (mode =? 4) || (mode =? 5) then 0
     else
       let last_week_of_year := get_end_of_week_one_of_year (year - 1) mode in
       let days_last_year := if is_leap_year (year - 1) then 366 else 365 in
       weeks_after (days_last_year - last_week_of_year)).

(** ** Adding weeks and days *)

(** days_months[m]; the length of February is kept in the state. *)
Definition days_months (feb m : Z) : Z :=
  if m =? 2 then feb else nth (Z.to_nat m) [0; 31; 28; 31; 30; 31; 30; 31; 31; 30; 31; 30; 31] 0.

Definition february (y : Z) : Z := if is_leap_year y then 29 else 28.

(** One iteration of the loop over the weeks: the day, month, year and the
    length of February. *)
Definition add_week (st : Z * Z * Z * Z) : Z * Z * Z * Z :=
  let '(d, m, y, feb) := st in
  let d := d + 7 in
  if d >? days_months feb m then
    let d := d - days_months feb m in
    let m := m + 1 in
    if m >? 12 then (d, 1, y + 1, february (y + 1)) else (d, m, y, feb)
  else (d, m, y, feb).

(** The error code and the day, month and year. *)
Definition db_add_weeks_and_days_to_date (day month year weeks day_week : Z)
    : Z * (Z * Z * Z) :=
  let same := (day, month, year) in
  if (year <? 0) || (year >? 9999) then (ER_FAILED, same)
  else if (month <? 1) || (month >? 12) then (ER_FAILED, same)
  else if (day <? 0) || (day >? days_months (february year) month) then (ER_FAILED, same)
  else if weeks <? 0 then (ER_FAILED, same)
  else if (day_week <? 0) || (day_week >? 6) then (ER_FAILED, same)
  else
    let '(d, m, y, feb) :=
      Nat.iter (Z.to_nat weeks) add_week (day, month, year, february year) in
    let d := d + day_week in
    let '(d, m, y) :=
      if d >? days_months feb m then
        let d := d - days_months feb m in
        if m + 1 >? 12 then (d, 1, y + 1) else (d, m + 1, y)
      else (d, m, y) in
    if (y <? 0) || (y >? 9999) then (ER_FAILED, same) else (NO_ERROR, (d, m, y)).
