(* ===== verification/DatesExact.v ===== *)
(** * Dates: the floating-point expressions are exact

    Within the years of a date every floating-point expression of
    julian_encode and julian_decode gives the integer that the same expression
    in exact arithmetic gives. *)
From Stdlib Require Import ZArith Lia ZifyBool SpecFloat Reals Lra.
From stdpp Require Import base list numbers.
From S2P Require Import Prelude Floats Doubles Dates.

(** ** Exact operations *)

Lemma rounds_grid n y : rounds (grid n) y -> y = grid n.
Proof. intros [_ Hg]. destruct (Hg n) as [H1 H2]. apply Rle_antisym; [apply H2|apply H1]; lra. Qed.

Lemma moderate_grid n : Z.abs n < 2 ^ 50 -> moderate (grid n).
Proof.
  intros Hn. destruct (Z.eq_dec n 0) as [->|H0].
  - left. unfold grid, fval. ring.
  - right. unfold grid, fval. rewrite Rabs_mult, (Rabs_right (p2 (-10))), <- abs_IZR
      by (pose proof (p2_pos (-10)); lra).
    assert (1 <= IZR (Z.abs n) <= IZR (2 ^ 50))%R as Hb by (split; apply IZR_le; lia).
    rewrite <- p2_IZR in Hb by lia. pose proof (p2_pos (-10)).
    assert (p2 (-60) <= p2 (-10))%R by (by apply p2_le).
    assert (p2 40 = p2 50 * p2 (-10))%R by (rewrite <- p2_add; done). nra.
Qed.

Lemma add_exact a b x y n :
  dval a x -> dval b y -> (x + y = grid n)%R -> Z.abs n < 2 ^ 50 ->
  dval (SFadd 53 1024 a b) (x + y).
Proof.
  intros Ha Hb Hxy Hn. destruct (add_rounds a b x y Ha Hb) as (z & Hz & Hr);
    [rewrite Hxy; by apply moderate_grid|].
  rewrite Hxy in Hr |- *. by rewrite <- (rounds_grid _ _ Hr).
Qed.

Lemma sub_exact a b x y n :
  dval a x -> dval b y -> (x - y = grid n)%R -> Z.abs n < 2 ^ 50 ->
  dval (SFsub 53 1024 a b) (x - y).
Proof.
  intros Ha Hb Hxy Hn. destruct (sub_rounds a b x y Ha Hb) as (z & Hz & Hr);
    [rewrite Hxy; by apply moderate_grid|].
  rewrite Hxy in Hr |- *. by rewrite <- (rounds_grid _ _ Hr).
Qed.

Lemma mul_exact a b x y n :
  dval a x -> dval b y -> (x * y = grid n)%R -> Z.abs n < 2 ^ 50 ->
  dval (SFmul 53 1024 a b) (x * y).
Proof.
  intros Ha Hb Hxy Hn. destruct (mul_rounds a b x y Ha Hb) as (z & Hz & Hr);
    [rewrite Hxy; by apply moderate_grid|].
  rewrite Hxy in Hr |- *. by rewrite <- (rounds_grid _ _ Hr).
Qed.

(** The quarters of integers, as they occur in the expressions. *)
Lemma grid_quarter n : grid (256 * n) = (IZR n / 4)%R.
Proof. unfold grid, fval. rewrite mult_IZR. unfold p2. simpl. lra. Qed.

Lemma quarter_lit n : Z.abs n < 2 ^ 40 -> dval (dmul (lit 25 100) (double_of n)) (IZR n / 4)%R.
Proof.
  intros Hn. replace (IZR n / 4)%R with (/ 4 * IZR n)%R by lra.
  apply (mul_exact _ _ _ _ (256 * n)); [|by apply double_of_value|rewrite grid_quarter; lra|lia].
  change (lit 25 100) with (S754_finite false 4503599627370496 (-54)). unfold dval, fval, p2. simpl. lra.
Qed.

Lemma quarter_to_int n :
  0 <= n < 2 ^ 32 -> float_to_int (dmul (lit 25 100) (double_of n)) = n / 4.
Proof.
  intros Hn. eapply to_int_value; [apply quarter_lit; lia| |dlia].
  assert (4 * (n / 4) <= n < 4 * (n / 4) + 4) as [H1%IZR_le H2%IZR_lt] by dlia.
  rewrite mult_IZR in H1. rewrite plus_IZR, mult_IZR in H2. lra.
Qed.

(** Single precision holds integers of 24 bits. *)
Lemma single_of_pos m :
  Zpos m < 2 ^ 24 ->
  exists m' e', binary_round 24 128 false m 0 = S754_finite false m' e'
    /\ fval (Zpos m') e' = IZR (Zpos m)
    /\ binary_round 24 128 true m 0 = S754_finite true m' e'.
Proof.
  intros Hm. pose proof (digits_bounds m) as Hd.
  assert (Zpos (digits2_pos m) <= 24) as Hd24.
  { destruct (Z.le_gt_cases (Zpos (digits2_pos m)) 24) as [|Hgt]; [done|].
    assert (2 ^ 24 <= 2 ^ (Zpos (digits2_pos m) - 1)) by (apply Z.pow_le_mono_r; lia). lia. }
  unfold binary_round. set (e' := fexp 24 128 _).
  assert (e' = Zpos (digits2_pos m) - 24) as He by (unfold e', fexp, emin; lia).
  pose proof (shl_align_value m 0 e') as Hs.
  assert (exists mz, shl_align m 0 e' = (mz, e') /\ Zpos mz = Zpos m * 2 ^ (- e')) as (mz & Hal & Hmz).
  { unfold shl_align. destruct (e' - 0) as [|q|q] eqn:E; [exists m|lia|].
    - replace e' with 0 by lia. split; [done|]. simpl. lia.
    - eexists. split; [done|]. rewrite iter_xO. f_equal. f_equal. lia. }
  rewrite Hal in Hs |- *. simpl in Hs.
  assert (Zpos (digits2_pos mz) = 24) as Hdz.
  { apply digits_unique. rewrite Hmz, He. split.
    - replace (24 - 1) with ((Zpos (digits2_pos m) - 1) + - (Zpos (digits2_pos m) - 24)) by lia.
      rewrite Z.pow_add_r by lia. nia.
    - replace 24 with (Zpos (digits2_pos m) + - (Zpos (digits2_pos m) - 24)) at 2 by lia.
      rewrite Z.pow_add_r by lia. nia. }
  destruct (round_aux_normal 24 128 ltac:(lia) mz e' loc_Exact)
    as (m1 & e1 & m2 & k & Hrun & He1 & Hm2 & Hk & _ & Hx);
    [unfold normal, emin; simpl; lia|lia|lia|].
  assert (k = 0) as -> by lia.
  rewrite Hx in Hm2 by (done || by rewrite Z.mod_1_r). change (2 ^ 0) with 1 in Hm2. rewrite Z.div_1_r in Hm2.
  exists m1, e1. split; [done|]. split.
  - rewrite <- (Rmult_1_r (IZR (Zpos m))). change 1%R with (p2 0). fold (fval (Zpos m) 0).
    rewrite <- Hs, <- Hm2, fval_shift by lia. f_equal. lia.
  - revert Hrun. unfold binary_round_aux. destruct (shr_fexp 24 128 (Zpos mz) e' loc_Exact) as [r x].
    destruct (shr_fexp 24 128 _ x loc_Exact) as [r2 x2]. destruct (shr_m r2); [done| |done].
    destruct (x2 <=? _); [|done]. by intros [= -> ->].
Qed.

Lemma single_of_value n : Z.abs n < 2 ^ 24 -> dval (float_of n) (IZR n).
Proof.
  intros Hn. unfold float_of. destruct n as [|m|m]; simpl; [done|..].
  - destruct (single_of_pos m ltac:(lia)) as (m' & e' & -> & Hv & _). by rewrite <- Hv.
  - destruct (single_of_pos m ltac:(lia)) as (m' & e' & _ & Hv & ->). simpl.
    rewrite Hv. change (Zneg m) with (- Zpos m). by rewrite opp_IZR.
Qed.

(** ** julian_encode *)

Lemma floor_value f x n :
  dval f x -> (IZR n <= x < IZR n + 1)%R -> float_floor f = Some n.
Proof.
  destruct f as [s| | |s m e]; simpl; try done.
  - intros -> Hx. f_equal. assert (n < 1) by (apply lt_IZR; lra).
    assert (-1 < n) by (apply lt_IZR; lra). lia.
  - intros Hx Hn. f_equal. set (z := if s then Zneg m else Zpos m).
    assert (x = fval z e) as Hz.
    { rewrite Hx. unfold z. destruct s; [|done]. change (Zneg m) with (- Zpos m). by rewrite fval_opp. }
    rewrite Hz in Hn. clearbody z. clear Hx Hz. destruct (e <? 0) eqn:He.
    + rewrite Z.shiftr_div_pow2 by lia.
      assert (fval z e * IZR (2 ^ (- e)) = IZR z)%R as Hv.
      { unfold fval. rewrite <- p2_IZR, Rmult_assoc, <- p2_add, Z.add_opp_diag_r by lia.
        unfold p2. simpl. ring. }
      assert (0 < IZR (2 ^ (- e)))%R as Hp by (apply IZR_lt; lia).
      assert ((n * 2 ^ (- e) <= z)%Z) by (apply le_IZR; rewrite mult_IZR, <- Hv; nra).
      assert (z < (n + 1) * 2 ^ (- e)) by (apply lt_IZR; rewrite mult_IZR, plus_IZR, <- Hv; nra).
      symmetry. apply (Z.div_unique z (2 ^ (- e)) n (z - n * 2 ^ (- e))); lia.
    + rewrite Z.shiftl_mul_pow2 by lia. unfold fval in Hn.
      rewrite p2_IZR, <- mult_IZR in Hn by lia.
      assert ((n <= z * 2 ^ e)%Z) by (apply le_IZR; lra).
      assert (z * 2 ^ e < n + 1) by (apply lt_IZR; rewrite plus_IZR; lra). lia.
Qed.

Lemma floor_quarter f n : Z.abs n < 2 ^ 40 -> dval f (IZR n / 4)%R -> FLOOR f = double_of (n / 4).
Proof.
  intros Hn Hf. unfold FLOOR. rewrite (floor_value f _ (n / 4) Hf); [done|].
  assert (4 * (n / 4) <= n < 4 * (n / 4) + 4) as [H1%IZR_le H2%IZR_lt] by dlia.
  rewrite mult_IZR in H1. rewrite plus_IZR, mult_IZR in H2. lra.
Qed.

Lemma year_floor jy : Z.abs jy < 2 ^ 24 -> FLOOR (dmul (lit 36525 100) (double_of jy)) = double_of (1461 * jy / 4).
Proof.
  intros Hy. apply floor_quarter; [lia|]. rewrite mult_IZR.
  replace (1461 * IZR jy / 4)%R with (1461 / 4 * IZR jy)%R by lra.
  apply (mul_exact _ _ _ _ (256 * (1461 * jy)));
    [|apply double_of_value; lia|rewrite grid_quarter, mult_IZR; lra|lia].
  change (lit 36525 100) with (S754_finite false 6425545952722944 (-44)).
  unfold dval, fval, p2. simpl. lra.
Qed.

Lemma month_floor jm :
  4 <= jm <= 15 ->
  FLOOR (dmul (lit 306001 10000) (double_of jm)) = double_of (306001 * jm / 10000).
Proof.
  intros Hm. assert (Forall (fun k => FLOOR (dmul (lit 306001 10000) (double_of k))
                                      = double_of (306001 * k / 10000)) (seqZ 4 12)) as Hall.
  { repeat constructor. }
  rewrite Forall_forall in Hall. apply Hall, list_elem_of_In, elem_of_seqZ. lia.
Qed.

Lemma add_ints a b x y :
  dval a (IZR x) -> dval b (IZR y) -> Z.abs x < 2 ^ 30 -> Z.abs y < 2 ^ 30 ->
  dval (dadd a b) (IZR (x + y)).
Proof.
  intros Ha Hb Hx Hy. rewrite plus_IZR.
  apply (add_exact _ _ _ _ ((x + y) * 2 ^ 10)); [done..| |lia]. by rewrite <- grid_int, plus_IZR.
Qed.

Lemma encode_sum_exact jy jm d :
  -1 <= jy <= 9999 -> 4 <= jm <= 15 -> 0 <= d <= 31 ->
  float_to_int (encode_sum jy jm d) = 1461 * jy / 4 + 306001 * jm / 10000 + d + 1720995.
Proof.
  intros Hy Hm Hd. unfold encode_sum. rewrite year_floor, month_floor by lia.
  eapply (to_int_value _ (IZR (1461 * jy / 4 + 306001 * jm / 10000 + d + 1720995))); [|lra|dlia].
  repeat apply add_ints; try (apply double_of_value); dlia.
Qed.

(** (int) (0.01 * jy) *)
Lemma century_of_year jy :
  0 <= jy <= 9999 -> float_to_int (dmul (lit 1 100) (double_of jy)) = jy / 100.
Proof.
  intros Hy. change (lit 1 100) with (S754_finite false 5764607523034235 (-59)).
  set (c := fval 5764607523034235 (-59)).
  assert (/ 100 <= c <= / 100 * (1 + / 1000000000))%R as Hc by (unfold c, fval, p2; simpl; lra).
  destruct (mul_rounds (S754_finite false 5764607523034235 (-59)) (double_of jy) c (IZR jy))
    as (z & Hz & He & Hg); [done|apply double_of_value; lia|..].
  { destruct (Z.eq_dec jy 0) as [->|H0]; [left; ring|right].
    assert (1 <= IZR jy <= 9999)%R as Hj by (split; apply IZR_le; lia).
    rewrite Rabs_right by nra. pose proof p2_60. pose proof p2_40. nra. }
  eapply to_int_value; [exact Hz| |dlia].
  assert (0 <= IZR jy <= 9999)%R as Hj by (split; apply IZR_le; lia).
  assert (100 * (jy / 100) <= jy <= 100 * (jy / 100) + 99) as [H1%IZR_le H2%IZR_le] by dlia.
  rewrite mult_IZR in H1. rewrite plus_IZR, mult_IZR in H2. split.
  - rewrite grid_int. apply Hg. rewrite <- grid_int. nra.
  - assert (0 < p2 (-52) <= / 1000000000)%R as H52 by (split; [apply p2_pos|unfold p2; simpl; lra]).
    rewrite (Rabs_right (c * IZR jy)) in He by nra.
    assert (z <= c * IZR jy * (1 + / 1000000000))%R
      by (unfold Rabs in He; destruct (Rcase_abs _) in He; nra).
    assert (c * IZR jy <= IZR jy / 100 + / 1000000)%R by nra. nra.
Qed.

(** ** julian_decode *)

Lemma abs_bounds (a b : R) : (Rabs a <= b)%R -> (- b <= a <= b)%R.
Proof. unfold Rabs. destruct (Rcase_abs a); lra. Qed.

Lemma century_exact jul :
  IGREG2 <= jul <= 6000000 -> century jul = (4 * (jul - 1867216) - 1) / 146097.
Proof.
  unfold IGREG2. intros Hj. unfold century. rewrite swrap_small by lia.
  set (n := jul - 1867216). assert (431000 <= n <= 5000000) as Hn by lia.
  assert (IZR n <= 5000000)%R as Hn1 by (apply IZR_le; lia).
  assert (431000 <= IZR n)%R as Hn2 by (apply IZR_le; lia). clearbody n.
  assert (dval (dsub (float_of n) (lit 25 100)) (IZR n - / 4)) as Hx.
  { apply (sub_exact _ _ _ _ (256 * (4 * n - 1))); [apply single_of_value; lia| | |lia].
    - change (lit 25 100) with (S754_finite false 4503599627370496 (-54)). unfold dval, fval, p2. simpl. lra.
    - rewrite grid_quarter, minus_IZR, mult_IZR. lra. }
  assert (dval (lit 3652425 100) (146097 / 4)%R) as Hy.
  { change (lit 3652425 100) with (S754_finite false 5019854696349696 (-37)).
    unfold dval, fval, p2. simpl. lra. }
  pose proof (p2_pos (-50)) as H50.
  assert (p2 (-50) <= / 1000000000)%R as H50' by (unfold p2; simpl; lra).
  destruct (div_rounds _ _ _ _ Hx Hy) as (z & Hz & He & Hg); [lra| |].
  { right. rewrite Rabs_right by lra. unfold p2. simpl. lra. }
  rewrite (Rabs_right (IZR n - / 4)) in He by lra.
  set (q := (4 * n - 1) / 146097).
  assert (146097 * q <= 4 * n - 1 <= 146097 * q + 146096) as [H1%IZR_le H2%IZR_le] by (unfold q; dlia).
  rewrite mult_IZR, minus_IZR, mult_IZR in H1. rewrite plus_IZR, minus_IZR, !mult_IZR in H2.
  eapply to_int_value; [exact Hz| |unfold q; dlia]. split.
  - rewrite grid_int. apply Hg; [lra|]. rewrite <- grid_int. lra.
  - apply (Rmult_lt_reg_r (146097 / 4)); [lra|].
    assert (z * (146097 / 4) <= (IZR n - / 4) + / 100)%R; [|lra].
    apply abs_bounds in He. nra.
Qed.

Lemma shifted_year_exact jb :
  1700000 <= jb <= 6000000 -> shifted_year jb = (20 * jb - 2442) / 7305.
Proof.
  intros Hj. unfold shifted_year. rewrite swrap_small by lia.
  set (w := jb - 2439870). assert (-740000 <= w <= 3600000) as Hw by lia.
  assert (-740000 <= IZR w <= 3600000)%R as Hw' by (split; apply IZR_le; lia).
  assert (20 * jb - 2442 = 20 * w - 2442 + 7305 * 6680) as -> by lia. clearbody w.
  assert (exists c, dval (lit 1221 10) c /\ (1221 / 10 - / 1000000000 <= c <= 1221 / 10 + / 1000000000)%R)
    as (c & Hc & Hcb).
  { change (lit 1221 10) with (S754_finite false 8592023664092774 (-46)).
    eexists. split; [done|]. unfold fval, p2. simpl. lra. }
  assert (/ 100 <= Rabs (IZR w - c) <= 4000000)%R as Habs.
  { destruct (Z.le_gt_cases w 122) as [Hl%IZR_le|Hl].
    - rewrite Rabs_left by lra. lra.
    - assert (123 <= IZR w)%R by (apply IZR_le; lia). rewrite Rabs_right by lra. lra. }
  assert (0 < p2 (-52) <= / 1000000000000000)%R as H52 by (split; [apply p2_pos|unfold p2; simpl; lra]).
  assert (0 < p2 (-50) <= / 1000000000000000)%R as H50 by (split; [apply p2_pos|unfold p2; simpl; lra]).
  pose proof p2_60. pose proof p2_40.
  destruct (sub_rounds (float_of w) (lit 1221 10) (IZR w) c) as (x & Hx & Hxe & _);
    [apply single_of_value; lia|done|right; lra|].
  assert (Rabs (x - (IZR w - c)) <= / 100000000)%R as Hx1 by nra.
  assert (/ 200 <= Rabs x <= 5000000)%R as Hxb.
  { unfold Rabs in *. repeat destruct (Rcase_abs _); lra. }
  assert (dval (lit 36525 100) (1461 / 4)%R) as Hy.
  { change (lit 36525 100) with (S754_finite false 6425545952722944 (-44)).
    unfold dval, fval, p2. simpl. lra. }
  assert (p2 (-38) <= / 100000000000)%R by (unfold p2; simpl; lra).
  assert (100000000000 <= p2 38)%R by (unfold p2; simpl; lra).
  destruct (div_rounds _ _ _ _ Hx Hy) as (z & Hz & Hze & _); [lra|right; lra|].
  assert (Rabs (z * (1461 / 4) - (IZR w - c)) <= / 10000000)%R as Hz1.
  { assert (Rabs (z * (1461 / 4) - x) <= / 100000000)%R as Hz2 by nra.
    apply abs_bounds in Hx1, Hz2. apply Rabs_le. lra. }
  assert (-2100 <= z <= 11000)%R as Hzb by (apply abs_bounds in Hz1; lra).
  destruct (add_rounds (double_of 6680) _ 6680 z (double_of_value 6680 ltac:(lia)) Hz)
    as (t & Ht & Hte & _); [right; rewrite Rabs_right by lra; lra|].
  rewrite (Rabs_right (6680 + z)) in Hte by lra.
  assert (Rabs (t - (6680 + z)) <= / 1000000000)%R as Ht1 by nra.
  assert (Rabs (t * 7305 - (20 * IZR w - 2442 + 7305 * 6680)) <= / 10)%R as Ht2.
  { apply abs_bounds in Hz1, Ht1. apply Rabs_le. lra. }
  set (q := (20 * w - 2442 + 7305 * 6680) / 7305).
  assert (7305 * q + 1 <= 20 * w - 2442 + 7305 * 6680 <= 7305 * q + 7304) as [Hq1%IZR_le Hq2%IZR_le].
  { unfold q. dlia. }
  rewrite !plus_IZR, minus_IZR, !mult_IZR in Hq1. rewrite !plus_IZR, minus_IZR, !mult_IZR in Hq2.
  eapply to_int_value; [exact Ht| |unfold q; dlia].
  apply abs_bounds in Ht2. lra.
Qed.

Lemma year_days_exact jc : 0 <= jc <= 20000 -> year_days jc = 1461 * jc / 4.
Proof.
  intros Hj. unfold year_days. rewrite swrap_small by lia.
  assert (dval (dadd (double_of (365 * jc)) (dmul (lit 25 100) (double_of jc)))
            (IZR (365 * jc) + IZR jc / 4)) as Hx.
  { apply (add_exact _ _ _ _ (256 * (1461 * jc)));
      [apply double_of_value; lia|apply quarter_lit; lia|rewrite grid_quarter, !mult_IZR; lra|lia]. }
  eapply to_int_value; [exact Hx| |dlia]. rewrite mult_IZR.
  assert (4 * (1461 * jc / 4) <= 1461 * jc <= 4 * (1461 * jc / 4) + 3) as [H1%IZR_le H2%IZR_le] by dlia.
  rewrite !mult_IZR in H1. rewrite plus_IZR, !mult_IZR in H2. lra.
Qed.

Lemma month_div_exact n :
  122 <= n <= 489 -> float_to_int (ddiv (double_of n) (lit 306001 10000)) = 10000 * n / 306001.
Proof.
  intros Hn.
  assert (forallb (fun k => float_to_int (ddiv (double_of k) (lit 306001 10000))
                            =? 10000 * k / 306001) (seqZ 122 368) = true) as Hall by (by vm_compute).
  rewrite forallb_forall in Hall. apply Z.eqb_eq, Hall, list_elem_of_In, elem_of_seqZ. lia.
Qed.

Lemma month_mul_exact je :
  3 <= je <= 15 ->
  float_to_int (dmul (lit 306001 10000) (double_of je)) = 306001 * je / 10000.
Proof.
  intros Hn.
  assert (forallb (fun k => float_to_int (dmul (lit 306001 10000) (double_of k))
                            =? 306001 * k / 10000) (seqZ 3 13) = true) as Hall by (by vm_compute).
  rewrite forallb_forall in Hall. apply Z.eqb_eq, Hall, list_elem_of_In, elem_of_seqZ. lia.
Qed.
