(* ===== verification/DatesCalendar.v ===== *)
(** * Dates: the calendar

    The Julian calendar up to 4 October 1582 and the Gregorian one from the
    next day, 15 October 1582, on; that julian_encode and julian_decode number
    the days of this calendar one after the other. *)
From Stdlib Require Import ZArith Lia ZifyBool SpecFloat.
From stdpp Require Import base list numbers.
From S2P Require Import Prelude Floats Dates DatesExact.

(** ** The calendar *)

Definition leap (y : Z) : bool :=
  if y <=? 1582 then y mod 4 =? 0
  else (y mod 4 =? 0) && (negb (y mod 100 =? 0) || (y mod 400 =? 0)).

Definition month_length (y m : Z) : Z :=
  if m =? 2 then if leap y then 29 else 28
  else if (m =? 4) || (m =? 6) || (m =? 9) || (m =? 11) then 30 else 31.

(** The days that were left out. *)
Definition skipped (m d y : Z) : bool := (y =? 1582) && (m =? 10) && (5 <=? d) && (d <=? 14).

Definition valid_date (m d y : Z) : bool :=
  (1 <=? y) && (y <=? 9999) && (1 <=? m) && (m <=? 12) && (1 <=? d) && (d <=? month_length y m)
  && negb (skipped m d y).

Definition next_day (m d y : Z) : Z * Z * Z :=
  if (y =? 1582) && (m =? 10) && (d =? 4) then (10, 15, 1582)
  else if d <? month_length y m then (m, d + 1, y)
  else if m <? 12 then (m + 1, 1, y)
  else (1, 1, y + 1).

(** ** Day numbers in integer arithmetic *)

Definition jd_of (m d y : Z) : Z :=
  let jy := if m >? 2 then y else y - 1 in
  let jm := if m >? 2 then m + 1 else m + 13 in
  let jul := 1461 * jy / 4 + 306001 * jm / 10000 + d + 1720995 in
  if d + 31 * (m + 12 * y) >=? IGREG1 then jul + 2 - jy / 100 + jy / 100 / 4 else jul.

Definition decode_int (jul : Z) : Z * Z * Z :=
  let jalpha := (4 * (jul - 1867216) - 1) / 146097 in
  let ja := if jul >=? IGREG2 then jul + 1 + jalpha - jalpha / 4 else jul in
  let jb := ja + 1524 in
  let jc := (20 * jb - 2442) / 7305 in
  let n := jb - 1461 * jc / 4 in
  let je := 10000 * n / 306001 in
  let month := if je - 1 >? 12 then je - 13 else je - 1 in
  let year := if month >? 2 then jc - 4716 else jc - 4715 in
  (month, n - 306001 * je / 10000, if year <=? 0 then year - 1 else year).

Lemma julian_encode_int m d y :
  1 <= y <= 9999 -> 0 <= m <= 12 -> 0 <= d <= 31 -> julian_encode m d y = jd_of m d y.
Proof.
  intros Hy Hm Hd. unfold julian_encode, jd_of.
  rewrite (proj2 (Z.eqb_neq y 0)) by lia.
  replace ((m =? 1) && (d =? 1) && (y =? -4713)) with false by lia.
  replace (y <? 0) with false by lia.
  rewrite !(swrap_small 32) by (split; lia).
  assert (forall jy jm, 0 <= jy <= 9999 -> 4 <= jm <= 15 ->
    (if d + 31 * (m + 12 * y) >=? IGREG1
     then swrap 32 (float_to_int (encode_sum jy jm d)
            + (2 - float_to_int (dmul (lit 1 100) (double_of jy))
               + float_to_int (dmul (lit 25 100)
                   (double_of (float_to_int (dmul (lit 1 100) (double_of jy)))))))
     else float_to_int (encode_sum jy jm d))
    = if d + 31 * (m + 12 * y) >=? IGREG1
      then 1461 * jy / 4 + 306001 * jm / 10000 + d + 1720995 + 2 - jy / 100 + jy / 100 / 4
      else 1461 * jy / 4 + 306001 * jm / 10000 + d + 1720995) as Hgen.
  { intros jy jm Hjy Hjm. rewrite encode_sum_exact, century_of_year, quarter_to_int by dlia.
    destruct (_ >=? IGREG1); [|done]. rewrite swrap_small by dlia. lia. }
  destruct (m >? 2) eqn:E; apply Hgen; lia.
Qed.

Lemma julian_decode_int jul :
  1721000 <= jul <= 5400000 -> (julian_decode jul).1 = decode_int jul.
Proof.
  intros Hj. unfold julian_decode, decode_int. set (a := (4 * (jul - 1867216) - 1) / 146097).
  assert ((if jul >=? IGREG2
           then swrap 32 (jul + 1 + century jul - float_to_int (dmul (lit 25 100) (double_of (century jul))))
           else jul) = if jul >=? IGREG2 then jul + 1 + a - a / 4 else jul) as ->.
  { destruct (jul >=? IGREG2) eqn:E; [|done]. unfold IGREG2 in E.
    rewrite century_exact, quarter_to_int by (unfold IGREG2; dlia).
    fold a. rewrite swrap_small by (unfold a; dlia). done. }
  set (ja := if jul >=? IGREG2 then _ else _).
  assert (1721000 <= ja <= 5500000) as Hja by (unfold ja, a, IGREG2; zcase; dlia).
  clearbody ja. rewrite (proj2 (Z.eqb_neq ja IGREG_SPECIAL)) by (unfold IGREG_SPECIAL; lia).
  rewrite (swrap_small 32 (ja + 1524)) by lia. rewrite shifted_year_exact by lia.
  set (jc := (20 * (ja + 1524) - 2442) / 7305).
  assert (0 <= jc <= 20000) as Hjc by (unfold jc; dlia).
  rewrite year_days_exact by done.
  assert (122 <= ja + 1524 - 1461 * jc / 4 <= 489) as Hn by (unfold jc; dlia).
  clearbody jc. set (n := ja + 1524 - 1461 * jc / 4) in *. rewrite (swrap_small 32 n) by lia.
  rewrite month_div_exact by done. set (je := 10000 * n / 306001).
  assert (3 <= je <= 15) as Hje by (unfold je; dlia).
  rewrite month_mul_exact by done. rewrite !swrap_small by (unfold n; dlia).
  cbn [fst]. replace (je - 1 - 12) with (je - 13) by lia.
  replace (jc - 4715 - 1) with (jc - 4716) by lia. done.
Qed.

Lemma month_length_bounds y m : 28 <= month_length y m <= 31.
Proof. unfold month_length. repeat zcase; lia. Qed.

(** A month with its number as a constant, for the arithmetic. *)
Lemma month_cases m : 1 <= m <= 12 -> m ∈ seqZ 1 12.
Proof. intros. apply elem_of_seqZ. lia. Qed.

(** Undoing the correction of the Gregorian calendar. *)
Lemma uncorrect jy jm d j :
  1582 <= jy <= 9999 -> 0 <= jm <= 366 ->
  j = 1461 * jy / 4 + 122 + jm + 1720995 + 2 - jy / 100 + jy / 100 / 4 ->
  1 <= jm <= 365 \/ (jm = 366 /\ leap (jy + 1) = true) ->
  d = (4 * (j - 1867216) - 1) / 146097 -> d = jy / 100 - 4.
Proof.
  intros Hy Hm -> Hl ->.
  assert (exists c r, jy = 100 * c + r /\ 0 <= r < 100) as (c & r & -> & Hr)
    by (exists (jy / 100), (jy mod 100); dlia).
  replace ((100 * c + r) / 100) with c by dlia.
  replace (1461 * (100 * c + r) / 4) with (36525 * c + 1461 * r / 4) by dlia.
  symmetry. apply Z.div_unique with (r := 4 * (c / 4) - c + 4 * (1461 * r / 4) + 4 * jm - 1); [|lia].
  left. destruct Hl as [Hl|[-> Hl]]; [dlia|].
  destruct (Z.eq_dec r 99) as [->|]; [|dlia].
  unfold leap in Hl. replace (100 * c + 99 + 1) with (100 * (c + 1)) in Hl by lia.
  destruct (_ <=? 1582) eqn:E; [lia|]. replace (100 * (c + 1) mod 100) with 0 in Hl by dlia.
  assert (100 * (c + 1) mod 400 = 0) by lia. dlia.
Qed.

(** ** The numbers of the days *)

(** The year and the day of a year that begins with March: [march m d] is 1 on
    the first of March and at most 366. *)
Definition march_year (m y : Z) : Z := if m >? 2 then y else y - 1.
Definition march_month (m : Z) : Z := if m >? 2 then m + 1 else m + 13.
Definition march (m d : Z) : Z := 306001 * march_month m / 10000 + d - 122.

Definition gregorian (m d y : Z) : bool := d + 31 * (m + 12 * y) >=? IGREG1.

Lemma jd_of_march m d y :
  jd_of m d y =
  let c := march_year m y / 100 in
  1461 * march_year m y / 4 + march m d + 122 + 1720995
  + if gregorian m d y then 2 - c + c / 4 else 0.
Proof. unfold jd_of, march, march_year, march_month, gregorian. repeat zcase; lia. Qed.

Ltac months m H :=
  let Hc := fresh in
  assert (m = 1 \/ m = 2 \/ m = 3 \/ m = 4 \/ m = 5 \/ m = 6 \/ m = 7 \/ m = 8 \/ m = 9 \/ m = 10
          \/ m = 11 \/ m = 12) as Hc by lia; clear H;
  destruct Hc as [->|[->|[->|[->|[->|[->|[->|[->|[->|[->|[->| ->]]]]]]]]]]].

Lemma march_facts m d y :
  1 <= m <= 12 -> 1 <= d <= month_length y m ->
  (1 <= march m d <= 365 \/ (march m d = 366 /\ leap (march_year m y + 1) = true))
  /\ 10000 * (march m d + 122) / 306001 = march_month m
  /\ march m d + 122 - 306001 * march_month m / 10000 = d.
Proof.
  intros Hm Hd. split; [|split; [|unfold march; lia]].
  - unfold march, march_year, march_month, month_length in *. revert Hd. months m Hm; simpl; intros Hd; try (left; dlia).
    replace (y - 1 + 1) with y by lia. destruct (leap y); [|left; dlia].
    destruct (Z.eq_dec d 29) as [->|]; [by right|left; dlia].
  - assert (1 <= d <= 31) by (pose proof (month_length_bounds y m); lia).
    assert (m = 2 -> d <= 29) by (intros ->; revert Hd; unfold month_length; simpl; destruct (leap y); lia).
    assert (m = 4 \/ m = 6 \/ m = 9 \/ m = 11 -> d <= 30)
      by (intros; revert Hd; unfold month_length; repeat zcase; lia).
    clear Hd. unfold march, march_month. months m Hm; simpl; dlia.
Qed.

Lemma valid_date_iff m d y :
  valid_date m d y = true <->
  1 <= y <= 9999 /\ 1 <= m <= 12 /\ 1 <= d <= month_length y m /\ skipped m d y = false.
Proof. unfold valid_date. lia. Qed.

(** The first Gregorian day has the number IGREG2. *)
Lemma gregorian_jd m d y : valid_date m d y = true -> gregorian m d y = (jd_of m d y >=? IGREG2).
Proof.
  rewrite valid_date_iff. intros (Hy & Hm & Hd & Hs).
  destruct (march_facts m d y Hm Hd) as [Hf _]. pose proof (month_length_bounds y m) as Hml.
  rewrite jd_of_march. unfold gregorian, IGREG1, IGREG2, skipped in *. cbv zeta.
  assert (march m d <= 366) by lia. assert (1 <= march m d) by lia. clear Hf.
  destruct (Z.lt_trichotomy y 1582) as [Hlt|[->|Hgt]].
  - replace (d + 31 * (m + 12 * y) >=? 15 + 31 * (10 + 12 * 1582)) with false by lia.
    unfold march_year. symmetry. zcase; dlia.
  - unfold march_year, march, march_month in *. revert Hs.
    months m Hm; simpl; intros Hs; zcase; dlia.
  - replace (d + 31 * (m + 12 * y) >=? 15 + 31 * (10 + 12 * 1582)) with true by lia.
    assert (m <= 2 -> 307 <= march m d) by (intros; unfold march, march_month; zcase; dlia).
    unfold march_year. symmetry. zcase; dlia.
Qed.

Lemma leap_mod y : leap y = true -> y mod 4 = 0.
Proof. unfold leap. zcase; lia. Qed.

Lemma decode_jd m d y : valid_date m d y = true -> decode_int (jd_of m d y) = (m, d, y).
Proof.
  intros Hv. pose proof (gregorian_jd m d y Hv) as Hg. pose proof Hv as (Hy & Hm & Hd & Hs)%valid_date_iff.
  destruct (march_facts m d y Hm Hd) as (Hf & Hje & Hday). unfold decode_int. rewrite <- Hg.
  assert (0 <= march_year m y <= 9999) as Hmy by (unfold march_year; zcase; lia).
  set (ja := if gregorian m d y then _ else _).
  assert (ja = 1461 * march_year m y / 4 + march m d + 122 + 1720995) as Hja.
  { unfold ja. pose proof (jd_of_march m d y) as Hjd. cbv zeta in Hjd.
    destruct (gregorian m d y) eqn:Eg; [|lia].
    assert (1582 <= march_year m y).
    { unfold gregorian, IGREG1, march_year in *. pose proof (month_length_bounds y m). zcase; lia. }
    assert ((4 * (jd_of m d y - 1867216) - 1) / 146097 = march_year m y / 100 - 4) as ->; [|dlia].
    eapply (uncorrect (march_year m y) (march m d)); [lia|lia| |exact Hf|done]. lia. }
  clearbody ja. subst ja. clear Hg.
  assert ((20 * (1461 * march_year m y / 4 + march m d + 122 + 1720995 + 1524) - 2442) / 7305
          = march_year m y + 4716) as Hjc.
  { assert (1 <= march m d <= 366 /\ (march m d = 366 -> (march_year m y + 1) mod 4 = 0)) as Hmarch.
    { destruct Hf as [|[-> Hl%leap_mod]]; split; lia. }
    clear - Hmarch Hmy. dlia. }
  rewrite Hjc.
  replace (1461 * march_year m y / 4 + march m d + 122 + 1720995 + 1524
           - 1461 * (march_year m y + 4716) / 4) with (march m d + 122) by dlia.
  rewrite Hje, Hday. unfold march_month, march_year.
  destruct (m >? 2) eqn:E.
  - replace (m + 1 - 1 >? 12) with false by lia. replace (m + 1 - 1) with m by lia. rewrite E.
    replace (y + 4716 - 4716) with y by lia. by replace (y <=? 0) with false by lia.
  - replace (m + 13 - 1 >? 12) with true by lia. replace (m + 13 - 13) with m by lia. rewrite E.
    replace (y - 1 + 4716 - 4715) with y by lia. by replace (y <=? 0) with false by lia.
Qed.

(** The end of February. *)
Lemma february_step y d :
  1 <= y -> d = month_length y 2 -> jd_of 3 1 y = jd_of 2 d y + 1.
Proof.
  intros Hy ->. rewrite !jd_of_march. unfold march, march_year, march_month, gregorian, IGREG1, month_length. simpl.
  destruct (Z.le_gt_cases y 1582) as [Hle|Hgt].
  - unfold leap. rewrite (proj2 (Z.leb_le _ _) Hle).
    replace (_ >=? _) with false by lia. replace (_ >=? _) with false by (zcase; lia).
    zcase; dlia.
  - replace (_ >=? _) with true by lia. replace (_ >=? _) with true by (zcase; lia).
    unfold leap. rewrite (proj2 (Z.leb_gt _ _)) by lia.
    assert (exists c r, y = 100 * c + r /\ 0 <= r < 100) as (c & r & -> & Hr)
      by (exists (y / 100), (y mod 100); dlia).
    replace ((100 * c + r) mod 100) with r by dlia. replace ((100 * c + r) / 100) with c by dlia.
    destruct (Z.eq_dec r 0) as [->|Hr0].
    + replace ((100 * c + 0 - 1) / 100) with (c - 1) by dlia. zcase; dlia.
    + replace ((100 * c + r - 1) / 100) with c by dlia. zcase; dlia.
Qed.

Lemma month_step m y :
  1 <= m < 12 -> 1 <= y -> jd_of (m + 1) 1 y = jd_of m (month_length y m) y + 1.
Proof.
  intros Hm Hy. destruct (Z.eq_dec m 2) as [->|Hm2]; [by apply february_step|].
  rewrite !jd_of_march. unfold gregorian, IGREG1.
  assert (march (m + 1) 1 = march m (month_length y m) + 1 /\ march_year (m + 1) y = march_year m y)
    as [Hmarch ->].
  { unfold march, march_year, march_month, month_length. assert (1 <= m <= 12) as Hm' by lia.
    months m Hm'; simpl; lia || done. }
  pose proof (month_length_bounds y m). cbv zeta.
  replace (1 + 31 * (m + 1 + 12 * y) >=? 15 + 31 * (10 + 12 * 1582))
    with (month_length y m + 31 * (m + 12 * y) >=? 15 + 31 * (10 + 12 * 1582)) by lia.
  lia.
Qed.

Lemma year_step y : jd_of 1 1 (y + 1) = jd_of 12 31 y + 1.
Proof.
  rewrite !jd_of_march. unfold march, march_year, march_month, gregorian, IGREG1. simpl.
  replace (y + 1 - 1) with y by lia. repeat zcase; dlia.
Qed.

Lemma next_day_valid m d y :
  valid_date m d y = true -> (m, d, y) <> (12, 31, 9999) ->
  let '(m', d', y') := next_day m d y in
  valid_date m' d' y' = true /\ jd_of m' d' y' = jd_of m d y + 1.
Proof.
  intros Hv Hlast. pose proof Hv as (Hy & Hm & Hd & Hs)%valid_date_iff. unfold next_day.
  pose proof (month_length_bounds y m) as Hml.
  destruct ((y =? 1582) && (m =? 10) && (d =? 4)) eqn:E1.
  { assert (y = 1582 /\ m = 10 /\ d = 4) as (-> & -> & ->) by lia. done. }
  destruct (d <? month_length y m) eqn:E2; [|destruct (m <? 12) eqn:E3].
  - split.
    + apply valid_date_iff. unfold skipped in *. repeat split; try lia.
    + unfold jd_of, IGREG1. unfold skipped in Hs.
      replace (d + 1 + 31 * (m + 12 * y) >=? 15 + 31 * (10 + 12 * 1582))
        with (d + 31 * (m + 12 * y) >=? 15 + 31 * (10 + 12 * 1582)) by lia.
      destruct (m >? 2), (_ >=? _); lia.
  - assert (d = month_length y m) as -> by lia. split; [|apply month_step; lia].
    apply valid_date_iff. unfold skipped. pose proof (month_length_bounds y (m + 1)). lia.
  - assert (m = 12) as -> by lia. assert (month_length y 12 = 31) as H31 by done.
    assert (d = 31) as -> by lia. split; [|apply year_step].
    apply valid_date_iff. unfold skipped. pose proof (month_length_bounds (y + 1) 1).
    assert (y <> 9999) by (intros ->; done). lia.
Qed.

Lemma jd_surjective j :
  DB_DATE_MIN <= j <= DB_DATE_MAX ->
  exists m d y, valid_date m d y = true /\ jd_of m d y = j.
Proof.
  intros Hj. assert (exists n, 0 <= n /\ j = DB_DATE_MIN + n) as (n & Hn & ->)
    by (exists (j - DB_DATE_MIN); lia).
  revert Hj. pattern n. apply natlike_ind; [..|done]; clear n Hn.
  - intros _. exists 1, 1, 1. done.
  - intros n Hn IH Hj. destruct IH as (m & d & y & Hv & Hjd); [lia|].
    pose proof (next_day_valid m d y Hv) as Hnext. destruct (next_day m d y) as [[m' d'] y'].
    destruct Hnext as [Hv' Hjd'].
    + intros [= -> -> ->]. assert (jd_of 12 31 9999 = DB_DATE_MAX) by done. lia.
    + exists m', d', y'. split; [done|]. lia.
Qed.

Lemma jd_range m d y : valid_date m d y = true -> DB_DATE_MIN <= jd_of m d y <= DB_DATE_MAX.
Proof.
  intros Hv. pose proof Hv as (Hy & Hm & Hd & Hs)%valid_date_iff.
  destruct (march_facts m d y Hm Hd) as [Hf _].
  pose proof (month_length_bounds y m) as Hml.
  assert (m > 2 -> march m d <= 306) as Hma by (intros; unfold march, march_month; zcase; dlia).
  assert (m <= 2 -> 307 <= march m d) as Hmb by (intros; unfold march, march_month; zcase; dlia).
  rewrite jd_of_march. unfold DB_DATE_MIN, DB_DATE_MAX, gregorian, IGREG1, march_year. cbv zeta.
  clear Hs. destruct (m >? 2) eqn:E; (destruct (_ >=? _) eqn:E2; [|dlia]).
  - assert (1 <= y / 100 <= 99) by dlia. dlia.
  - assert (1 <= (y - 1) / 100 <= 99) by dlia. dlia.
Qed.

(** ** The functions of the source *)

Lemma encode_valid m d y :
  valid_date m d y = true ->
  julian_encode m d y = jd_of m d y /\ db_date_decode (julian_encode m d y) = (m, d, y).
Proof.
  intros Hv. pose proof Hv as (Hy & Hm & Hd & Hs)%valid_date_iff.
  pose proof (month_length_bounds y m). rewrite julian_encode_int by lia. split; [done|].
  pose proof (jd_range m d y Hv) as Hr. unfold DB_DATE_MIN, DB_DATE_MAX in Hr.
  unfold db_date_decode. rewrite swrap_small by lia. rewrite julian_decode_int by lia.
  by apply decode_jd.
Qed.

Lemma decode_valid j :
  DB_DATE_MIN <= j <= DB_DATE_MAX ->
  exists m d y, db_date_decode j = (m, d, y) /\ valid_date m d y = true /\ julian_encode m d y = j.
Proof.
  intros Hj. destruct (jd_surjective j Hj) as (m & d & y & Hv & <-). exists m, d, y.
  destruct (encode_valid m d y Hv) as [He Hd]. rewrite He in Hd |- *. done.
Qed.

(** The numbers of days before 1 January of the year 1 are not decoded to a
    positive year. *)
Lemma decode_before j :
  DB_DATE_MIN - 100 <= j < DB_DATE_MIN -> (decode_int j).2 <= 0.
Proof.
  unfold DB_DATE_MIN. intros Hj. unfold decode_int, IGREG2.
  replace (j >=? 2299161) with false by lia.
  assert ((20 * (j + 1524) - 2442) / 7305 = 4716) as -> by dlia.
  change (1461 * 4716 / 4) with 1722519. set (je := 10000 * (j + 1524 - 1722519) / 306001).
  assert (4 <= je <= 13) by (unfold je; dlia). simpl. repeat zcase; lia.
Qed.

Lemma db_date_encode_spec m d y :
  db_date_encode m d y
  = if valid_date m d y || ((m =? 0) && (d =? 0) && (y =? 0))
    then (NO_ERROR, julian_encode m d y) else (ER_DATE_CONVERSION, 0).
Proof.
  destruct (valid_date m d y) eqn:Hv; cbn [orb].
  { pose proof Hv as (Hy & Hm & Hd & _)%valid_date_iff. pose proof (month_length_bounds y m).
    destruct (encode_valid m d y Hv) as [He Hdec]. pose proof (jd_range m d y Hv) as Hr.
    unfold DB_DATE_MIN, DB_DATE_MAX in Hr. unfold db_date_encode.
    replace (_ || _) with false by lia. rewrite uwrap_small by lia.
    unfold db_date_decode in Hdec. destruct (julian_decode _) as [[[m' d'] y'] w]. simpl in Hdec.
    injection Hdec as -> -> ->. by rewrite !Z.eqb_refl. }
  destruct ((m =? 0) && (d =? 0) && (y =? 0)) eqn:Hz.
  { assert (m = 0 /\ d = 0 /\ y = 0) as (-> & -> & ->) by lia. by vm_compute. }
  unfold db_date_encode. destruct (_ || _) eqn:Er; [done|].
  destruct (Z.eq_dec y 0) as [->|Hy0].
  { assert (julian_encode m d 0 = 0) as -> by done.
    assert (julian_decode (swrap 32 (uwrap 32 0)) = (0, 0, 0, 1)) as -> by (by vm_compute).
    by replace (_ && _) with false by lia. }
  rewrite julian_encode_int by lia.
  assert (DB_DATE_MIN - 100 <= jd_of m d y <= DB_DATE_MAX) as Hr.
  { unfold jd_of, DB_DATE_MIN, DB_DATE_MAX, IGREG1. destruct (m >? 2) eqn:Em;
      (destruct (_ >=? _) eqn:Eg; [|dlia]).
    - assert (1 <= y / 100 <= 99) by dlia. dlia.
    - assert (1 <= (y - 1) / 100 <= 99) by dlia. dlia. }
  rewrite uwrap_small by (unfold DB_DATE_MIN, DB_DATE_MAX in Hr; lia).
  rewrite swrap_small by (unfold DB_DATE_MIN, DB_DATE_MAX in Hr; lia).
  pose proof (julian_decode_int (jd_of m d y)) as Hdec.
  destruct (julian_decode (jd_of m d y)) as [[[m' d'] y'] w]. simpl in Hdec.
  destruct ((m =? m') && (d =? d') && (y =? y')) eqn:Es; [|done]. exfalso.
  assert (m = m' /\ d = d' /\ y = y') as (<- & <- & <-) by lia.
  assert (decode_int (jd_of m d y) = (m, d, y)) as Hd
    by (symmetry; apply Hdec; unfold DB_DATE_MIN, DB_DATE_MAX in Hr; lia).
  destruct (Z.lt_ge_cases (jd_of m d y) DB_DATE_MIN) as [Hlt|Hge].
  - pose proof (decode_before (jd_of m d y) ltac:(lia)) as Hb. rewrite Hd in Hb. simpl in Hb. lia.
  - destruct (jd_surjective (jd_of m d y) ltac:(lia)) as (m2 & d2 & y2 & Hv2 & Hj2).
    rewrite <- Hj2, (decode_jd _ _ _ Hv2) in Hd. congruence.
Qed.
