(* ===== verification/DatesWeeks.v ===== *)
(** * Dates: days and weeks of the year

    The functions on the year, month and day of the Gregorian calendar agree
    with the day numbers of julian_encode from the year 1583 on. *)
From Stdlib Require Import ZArith Lia ZifyBool SpecFloat.
From stdpp Require Import base list numbers.
From S2P Require Import Prelude Floats Dates DatesExact DatesCalendar.

(** ** Years *)

Lemma is_leap_year_leap y : 1582 < y -> is_leap_year y = leap y.
Proof.
  intros Hy. unfold is_leap_year, leap. rewrite !Z.rem_mod_nonneg by lia.
  rewrite (proj2 (Z.leb_gt _ _)) by lia. dlia.
Qed.

(** Every date of these years is Gregorian. *)
Lemma jd_gregorian m d y :
  1583 <= y -> 1 <= m <= 12 -> 1 <= d ->
  jd_of m d y =
  let c := march_year m y / 100 in
  1461 * march_year m y / 4 + march m d + 122 + 1720995 + 2 - c + c / 4.
Proof.
  intros Hy Hm Hd. rewrite jd_of_march. unfold gregorian, IGREG1. cbv zeta.
  replace (_ >=? _) with true by lia. lia.
Qed.

Lemma jd_linear m d k y :
  1583 <= y -> 1 <= m <= 12 -> 1 <= d -> 0 <= k -> jd_of m (d + k) y = jd_of m d y + k.
Proof. intros. rewrite !jd_gregorian by lia. unfold march. lia. Qed.

(** ** The day of the year *)

Lemma sum_days_value m :
  1 <= m <= 12 ->
  sum_days (Z.to_nat (m - 1)) 0 0
  = Some (if m >? 2 then march m 0 + 59 else march m 0 - 306).
Proof. intros Hm. months m Hm; reflexivity. Qed.

Lemma day_of_year_value m d y :
  1583 <= y -> 1 <= m <= 12 -> 1 <= d ->
  db_get_day_of_year y m d = Some (jd_of m d y - jd_of 1 1 y + 1).
Proof.
  intros Hy Hm Hd. unfold db_get_day_of_year. rewrite sum_days_value by done. obind. f_equal.
  rewrite !jd_gregorian by lia. cbv zeta. rewrite !Z.rem_mod_nonneg by lia.
  unfold march_year. simpl. change (march 1 1) with 307.
  assert (march m d = march m 0 + d) as -> by (unfold march; lia).
  destruct (m >? 2) eqn:Em; cbn [andb]; [|lia].
  assert (exists c r, y = 100 * c + r /\ 0 <= r < 100) as (c & r & -> & Hr)
    by (exists (y / 100), (y mod 100); dlia).
  replace ((100 * c + r) mod 100) with r by dlia. replace ((100 * c + r) / 100) with c by dlia.
  destruct (Z.eq_dec r 0) as [->|Hr0].
  - replace ((100 * c + 0 - 1) / 100) with (c - 1) by dlia. simpl. repeat zcase; dlia.
  - replace ((100 * c + r - 1) / 100) with c by dlia. repeat zcase; dlia.
Qed.

Lemma year_length y :
  1583 <= y -> jd_of 1 1 (y + 1) - jd_of 1 1 y = if is_leap_year y then 366 else 365.
Proof.
  intros Hy. pose proof (day_of_year_value 12 31 y Hy ltac:(lia) ltac:(lia)) as Hd.
  pose proof (year_step y). unfold db_get_day_of_year in Hd. rewrite sum_days_value in Hd by lia.
  cbn [mbind option_bind] in Hd. injection Hd as Hd. change (march 12 0) with 275 in Hd.
  unfold is_leap_year. simpl in Hd. rewrite !Z.rem_mod_nonneg in Hd |- * by lia.
  revert Hd. repeat zcase; dlia.
Qed.

(** ** The day of the week *)

Lemma day_of_week_mod j : 0 < j < 2 ^ 30 -> day_of_week j = (j + 1) mod 7.
Proof.
  intros Hj. unfold day_of_week. rewrite (proj2 (Z.eqb_neq _ _)) by (unfold IGREG_SPECIAL; lia).
  rewrite swrap_small by lia. apply Z.rem_mod_nonneg; lia.
Qed.

Lemma day_of_week_value m d y :
  1583 <= y <= 10000 -> 1 <= m <= 12 -> 1 <= d <= 31 ->
  db_get_day_of_week y m d = (jd_of m d y + 1) mod 7.
Proof.
  intros Hy Hm Hd. unfold db_get_day_of_week. replace (_ && _) with false by lia.
  rewrite jd_gregorian by lia. cbv zeta.
  assert (exists jy mm, (if m <? 3 then (m + 12, y - 1) else (m, y)) = (mm, jy)
    /\ march_year m y = jy /\ march_month m = mm + 1 /\ 3 <= mm <= 14 /\ 1582 <= jy <= 10000)
    as (jy & mm & -> & -> & Hmm & Hmb & Hjy).
  { unfold march_year, march_month. replace (m >? 2) with (negb (m <? 3)) by lia.
    destruct (m <? 3) eqn:E; cbn [negb]; eexists _, _; (split; [done|]); lia. }
  unfold march. rewrite Hmm. rewrite !Z.quot_div_nonneg by lia.
  rewrite Z.rem_mod_nonneg by (try lia; dlia).
  assert (exists q, 2 * mm + 6 * (mm + 1) / 10 = 306001 * (mm + 1) / 10000 + 5 + 7 * q) as [q Hq].
  { clear - Hmb. assert (mm = 3 \/ mm = 4 \/ mm = 5 \/ mm = 6 \/ mm = 7 \/ mm = 8 \/ mm = 9 \/ mm = 10
      \/ mm = 11 \/ mm = 12 \/ mm = 13 \/ mm = 14) as Hc by lia.
    exists ((2 * mm + 6 * (mm + 1) / 10 - 306001 * (mm + 1) / 10000 - 5) / 7).
    destruct Hc as [->|[->|[->|[->|[->|[->|[->|[->|[->|[->|[->| ->]]]]]]]]]]]; reflexivity. }
  replace (d + 2 * mm + 6 * (mm + 1) / 10 + jy + jy / 4 - jy / 100 + jy / 400 + 1)
    with (d + 306001 * (mm + 1) / 10000 + 5 + jy + jy / 4 - jy / 100 + jy / 400 + 1 + q * 7) by lia.
  rewrite Z.mod_add by lia.
  replace (1461 * jy / 4) with (365 * jy + jy / 4) by dlia.
  replace (jy / 100 / 4) with (jy / 400) by dlia.
  set (k := 306001 * (mm + 1) / 10000).
  replace (365 * jy + jy / 4 + (k + d - 122) + 122 + 1720995 + 2 - jy / 100 + jy / 400 + 1)
    with (d + k + 5 + jy + jy / 4 - jy / 100 + jy / 400 + 1 + (52 * jy + 245856) * 7) by lia.
  by rewrite Z.mod_add by lia.
Qed.

(** ** The week of the year *)

(** The modes by their description: the first day of a week, whether the first
    week is the one with more than three days in the year, and whether the days
    before it are in the week 0. *)
Definition first_weekday (mode : Z) : Z := mode mod 2.
Definition majority (mode : Z) : bool := (mode =? 1) || (mode =? 3) || (mode =? 4) || (mode =? 6).
Definition from_zero (mode : Z) : bool := (mode =? 0) || (mode =? 1) || (mode =? 4) || (mode =? 5).

(** The number of the first day of the week a day is in. *)
Definition week_start (mode j : Z) : Z := j - ((j + 1) mod 7 - first_weekday mode) mod 7.

(** The week with the most days in the year is that of 4 January; the first
    week that begins in the year is that of 7 January. *)
Definition week_one (mode y : Z) : Z :=
  let jan1 := julian_encode 1 1 y in
  week_start mode (if majority mode then jan1 + 3 else jan1 + 6).

Definition week_number (mode m d y : Z) : Z :=
  let j := julian_encode m d y in
  if week_one mode y <=? j then (j - week_one mode y) / 7 + 1
  else if from_zero mode then 0
  else (j - week_one mode (y - 1)) / 7 + 1.

(** Mode 7 in a year that begins with a Sunday. *)
Definition mode_fault (mode y : Z) : bool :=
  (mode =? 7) && (day_of_week (julian_encode 1 1 y) =? 0).

Lemma jan1_value y : 1583 <= y <= 9999 -> julian_encode 1 1 y = jd_of 1 1 y.
Proof. intros. apply julian_encode_int; lia. Qed.

Lemma jan1_range y : 1583 <= y <= 9999 -> DB_DATE_MIN <= jd_of 1 1 y <= DB_DATE_MAX.
Proof. intros Hy. apply jd_range, valid_date_iff. unfold skipped, month_length. simpl. lia. Qed.

Lemma end_of_week_one_value mode y :
  0 <= mode <= 7 -> 1583 <= y <= 9999 -> mode_fault mode y = false ->
  get_end_of_week_one_of_year y mode = week_one mode y - jd_of 1 1 y + 7.
Proof.
  intros Hm Hy Hf. unfold get_end_of_week_one_of_year, week_one, mode_fault in *.
  rewrite jan1_value in * by done. pose proof (jan1_range y Hy) as Hr.
  unfold DB_DATE_MIN, DB_DATE_MAX in Hr. rewrite day_of_week_value by lia.
  rewrite day_of_week_mod in Hf by lia. set (j := jd_of 1 1 y) in *. clearbody j. clear Hy.
  assert (mode = 0 \/ mode = 1 \/ mode = 2 \/ mode = 3 \/ mode = 4 \/ mode = 5 \/ mode = 6 \/ mode = 7)
    as Hc by lia. clear Hm.
  destruct Hc as [->|[->|[->|[->|[->|[->|[->| ->]]]]]]]; unfold week_start, first_weekday; simpl in *;
    repeat zcase; dlia.
Qed.

Lemma weeks_after_value n : 0 <= n -> weeks_after n = (n + 6) / 7 + 1.
Proof.
  intros Hn. unfold weeks_after. rewrite Z.rem_mod_nonneg, Z.quot_div_nonneg by lia. zcase; dlia.
Qed.

Lemma week_one_bounds mode y :
  1583 <= y <= 9999 -> jd_of 1 1 y - 3 <= week_one mode y <= jd_of 1 1 y + 6.
Proof. intros Hy. unfold week_one, week_start. rewrite jan1_value by done. zcase; dlia. Qed.

Lemma week_number_value mode m d y :
  0 <= mode <= 7 -> 1584 <= y -> valid_date m d y = true ->
  mode_fault mode y = false -> mode_fault mode (y - 1) = false ->
  db_get_week_of_year y m d mode = Some (week_number mode m d y).
Proof.
  intros Hmode Hy Hv Hf Hf'. pose proof Hv as (Hy' & Hm & Hd & _)%valid_date_iff.
  unfold db_get_week_of_year, week_number. rewrite day_of_year_value by lia. obind. f_equal.
  rewrite !end_of_week_one_value by (done || lia). rewrite (proj1 (encode_valid m d y Hv)).
  pose proof (week_one_bounds mode y ltac:(lia)) as Hw.
  pose proof (week_one_bounds mode (y - 1) ltac:(lia)) as Hw'.
  pose proof (year_length (y - 1) ltac:(lia)) as Hlen. replace (y - 1 + 1) with y in Hlen by lia.
  rewrite <- Hlen. set (j := jd_of m d y) in *. set (a := jd_of 1 1 y) in *.
  set (b := jd_of 1 1 (y - 1)) in *. set (w := week_one mode y) in *. set (v := week_one mode (y - 1)) in *.
  assert (w - v = 7 * ((w - v) / 7)) as Hwv.
  { enough ((w - v) mod 7 = 0) by dlia. unfold w, v, week_one, week_start. repeat zcase; dlia. }
  assert (365 <= a - b <= 366) as Hab by (rewrite Hlen; zcase; lia).
  change ((mode =? 0) || (mode =? 1) || (mode =? 4) || (mode =? 5)) with (from_zero mode).
  assert (a <= j) as Haj.
  { pose proof (day_of_year_value m d y ltac:(lia) Hm ltac:(lia)) as Hdoy. unfold j, a.
    unfold db_get_day_of_year in Hdoy. rewrite sum_days_value in Hdoy by done.
    cbn [mbind option_bind] in Hdoy. injection Hdoy as Hdoy.
    assert (0 <= (if m >? 2 then march m 0 + 59 else march m 0 - 306))
      by (clear - Hm; months m Hm; vm_compute; discriminate).
    revert Hdoy. repeat zcase; lia. }
  clearbody w v a b. destruct (w <=? j) eqn:Ew.
  - destruct (j - a + 1 >? w - a + 7) eqn:E1.
    + rewrite weeks_after_value by lia. dlia.
    + replace (j - a + 1 >? w - a + 7 - 7) with true by lia. dlia.
  - replace (j - a + 1 >? w - a + 7) with false by lia.
    replace (j - a + 1 >? w - a + 7 - 7) with false by lia.
    destruct (from_zero mode); [done|]. rewrite weeks_after_value by lia.
    clear - Hw Hw' Hwv Hab Haj Ew. dlia.
Qed.

(** ** Adding weeks and days *)

(** A date of the Gregorian calendar, of any later year. *)
Definition day_ok (m d y : Z) : Prop := 1583 <= y /\ 1 <= m <= 12 /\ 1 <= d <= month_length y m.

Lemma days_months_value m y :
  1583 <= y -> 1 <= m <= 12 -> days_months (february y) m = month_length y m.
Proof.
  intros Hy Hm. unfold days_months, february, month_length. rewrite is_leap_year_leap by lia.
  months m Hm; reflexivity.
Qed.

(** The first days of the month after a month. *)
Lemma jd_carry m d y :
  1583 <= y -> 1 <= m <= 12 -> month_length y m < d ->
  jd_of m d y = if m + 1 >? 12 then jd_of 1 (d - month_length y m) (y + 1)
                else jd_of (m + 1) (d - month_length y m) y.
Proof.
  intros Hy Hm Hd. pose proof (month_length_bounds y m) as Hml.
  replace d with (month_length y m + (d - month_length y m)) at 1 by lia.
  rewrite jd_linear by lia.
  assert (exists k, d - month_length y m = 1 + k /\ 0 <= k) as (k & -> & Hk)
    by (exists (d - month_length y m - 1); lia).
  destruct (m + 1 >? 12) eqn:E.
  - assert (m = 12) as -> by lia. rewrite jd_linear, year_step by lia.
    change (month_length y 12) with 31. lia.
  - rewrite jd_linear, month_step by lia. lia.
Qed.

(** Up to 28 days: at most one month ends. *)
Lemma carry_ok m d k y :
  day_ok m d y -> 0 <= k <= 28 ->
  let '(d', m', y') :=
    if d + k >? month_length y m
    then if m + 1 >? 12 then (d + k - month_length y m, 1, y + 1)
         else (d + k - month_length y m, m + 1, y)
    else (d + k, m, y) in
  day_ok m' d' y' /\ jd_of m' d' y' = jd_of m d y + k.
Proof.
  intros (Hy & Hm & Hd) Hk. pose proof (month_length_bounds y m) as Hml.
  rewrite <- (jd_linear m d k y) by lia. destruct (d + k >? month_length y m) eqn:E.
  - rewrite (jd_carry m (d + k) y) by lia. pose proof (month_length_bounds (y + 1) 1).
    pose proof (month_length_bounds y (m + 1)).
    destruct (m + 1 >? 12) eqn:E2; (split; [|done]); unfold day_ok; lia.
  - split; [|done]. unfold day_ok. lia.
Qed.

Lemma add_week_ok m d y :
  day_ok m d y ->
  exists m' d' y', add_week (d, m, y, february y) = (d', m', y', february y')
    /\ day_ok m' d' y' /\ jd_of m' d' y' = jd_of m d y + 7.
Proof.
  intros Hok. pose proof (carry_ok m d 7 y Hok ltac:(lia)) as Hc. destruct Hok as (Hy & Hm & Hd).
  unfold add_week. rewrite days_months_value by done. revert Hc.
  destruct (d + 7 >? month_length y m); [destruct (m + 1 >? 12)|]; intros Hc; eexists _, _, _;
    (split; [done|exact Hc]).
Qed.

Lemma add_weeks_ok n m d y :
  day_ok m d y ->
  exists m' d' y', Nat.iter n add_week (d, m, y, february y) = (d', m', y', february y')
    /\ day_ok m' d' y' /\ jd_of m' d' y' = jd_of m d y + 7 * Z.of_nat n.
Proof.
  intros Hok. induction n as [|n (m1 & d1 & y1 & Hrun & Hok1 & Hj1)].
  - exists m, d, y. split; [done|]. split; [done|lia].
  - destruct (add_week_ok m1 d1 y1 Hok1) as (m2 & d2 & y2 & Hrun2 & Hok2 & Hj2).
    exists m2, d2, y2. rewrite Nat.iter_succ, Hrun. split; [done|]. split; [done|lia].
Qed.

Lemma jd_late m d y : day_ok m d y -> 9999 < y -> DB_DATE_MAX < jd_of m d y.
Proof.
  intros (Hy & Hm & Hd) Hlate. rewrite jd_gregorian by lia. unfold DB_DATE_MAX, march_year. cbv zeta.
  assert (m <= 2 -> 307 <= march m d) by (intros; unfold march, march_month; zcase; dlia).
  destruct (march_facts m d y Hm Hd) as [Hf _]. destruct (m >? 2) eqn:E; dlia.
Qed.

Lemma add_weeks_and_days_value m d y weeks day_week :
  valid_date m d y = true -> 1583 <= y -> 0 <= weeks -> 0 <= day_week <= 6 ->
  let j := jd_of m d y + 7 * weeks + day_week in
  if j <=? DB_DATE_MAX
  then exists m' d' y', db_add_weeks_and_days_to_date d m y weeks day_week = (NO_ERROR, (d', m', y'))
         /\ valid_date m' d' y' = true /\ jd_of m' d' y' = j
  else db_add_weeks_and_days_to_date d m y weeks day_week = (ER_FAILED, (d, m, y)).
Proof.
  intros Hv Hy Hw Hdw j. pose proof Hv as (Hy' & Hm & Hd & _)%valid_date_iff.
  unfold db_add_weeks_and_days_to_date. rewrite days_months_value by done.
  replace ((y <? 0) || (y >? 9999)) with false by lia.
  replace ((m <? 1) || (m >? 12)) with false by lia.
  replace ((d <? 0) || (d >? month_length y m)) with false by lia.
  replace (weeks <? 0) with false by lia.
  replace ((day_week <? 0) || (day_week >? 6)) with false by lia.
  destruct (add_weeks_ok (Z.to_nat weeks) m d y) as (m1 & d1 & y1 & -> & Hok1 & Hj1); [done|].
  pose proof (carry_ok m1 d1 day_week y1 Hok1 ltac:(lia)) as Hc.
  destruct Hok1 as (Hy1 & Hm1 & Hd1). rewrite days_months_value by done.
  destruct (if d1 + day_week >? month_length y1 m1 then _ else _) as [[d2 m2] y2].
  destruct Hc as [Hok2 Hj2]. rewrite Z2Nat.id in Hj1 by done.
  assert (jd_of m2 d2 y2 = j) as Hj by (unfold j; lia).
  destruct (Z.le_gt_cases y2 9999) as [Hle|Hgt].
  - destruct Hok2 as (Hy2 & Hm2 & Hd2).
    assert (valid_date m2 d2 y2 = true) as Hv2 by (apply valid_date_iff; unfold skipped; lia).
    pose proof (jd_range m2 d2 y2 Hv2). replace (j <=? DB_DATE_MAX) with true by lia.
    exists m2, d2, y2. replace ((y2 <? 0) || (y2 >? 9999)) with false by lia. done.
  - pose proof (jd_late m2 d2 y2 Hok2 ltac:(lia)). replace (j <=? DB_DATE_MAX) with false by lia.
    by replace ((y2 <? 0) || (y2 >? 9999)) with true by lia.
Qed.
