(* ===== verification/DateText.v ===== *)
(** * Text of dates and times (src/compat/db_date.c)

    Printing of dates, times and dates with times, and the functions that read
    them.  A pointer into a text is the rest of the bytes of its object from
    there on, with the number of bytes up to the end that is given by the
    length; a read behind the object gives None, the pointer NULL is None inside. *)
From Stdlib Require Import ZArith Lia ZifyBool SpecFloat.
From stdpp Require Import base list numbers.
From S2P Require Import Prelude Floats NumericValue HashFunctions Dates.

(** ** Printing *)

(** The decimal digits of a number that is not negative. *)
Fixpoint dec_digits (fuel : nat) (n : Z) (acc : list Z) : list Z :=
  match fuel with
  | O => acc
  | S fuel =>
      let acc := (48 + n mod 10) :: acc in
      if n <? 10 then acc else dec_digits fuel (n / 10) acc
  end.

(** The format %0[width]d; an int has at most ten digits. *)
Definition print_0d (width : nat) (n : Z) : list Z :=
  let sign := if n <? 0 then [45] else [] in
  let ds := dec_digits 10 (Z.abs n) [] in
  sign ++ replicate (width - length sign - length ds) 48 ++ ds.

(** snprintf of a text: the number of its characters and what is in the buffer,
    whose size is positive. *)
Definition snprintf (bufsize : Z) (text : list Z) : Z * list Z :=
  (Z.of_nat (length text), take (Z.to_nat (bufsize - 1)) text ++ [0]).

Definition date_text (year mon day : Z) : list Z :=
  print_0d 4 year ++ [45] ++ print_0d 2 mon ++ [45] ++ print_0d 2 day.
Definition time_text (hour min sec : Z) : list Z :=
  print_0d 2 hour ++ [58] ++ print_0d 2 min ++ [58] ++ print_0d 2 sec.

(** The end of the functions; a buffer of size 0 is not written. *)
Definition print_to (bufsize : Z) (text : list Z) : Z * list Z :=
  if bufsize =? 0 then (0, [])
  else
    let '(retval, buf) := snprintf bufsize text in
    (if bufsize <? retval then 0 else retval, buf).

Definition db_date_to_string (bufsize date : Z) : Z * list Z :=
  let '(mon, day, year) := db_date_decode date in print_to bufsize (date_text year mon day).

Definition db_time_to_string (bufsize time : Z) : Z * list Z :=
  let '(hour, min, sec) := db_time_decode time in print_to bufsize (time_text hour min sec).

Definition db_datetime_to_string (bufsize : Z) (datetime : DB_DATETIME) : Z * list Z :=
  let '((mon, day, year), (hour, minute, second, millisecond)) := db_datetime_decode datetime in
  print_to bufsize
    (date_text year mon day ++ [32] ++ time_text hour minute second ++ [46]
     ++ print_0d 3 millisecond).

(** ** Reading *)

(** A pointer: the bytes from there on, and their number up to the end. *)
Definition PTR : Type := list Z * Z.

Definition char_isdigit (c : Z) : bool := (c >=? 48) && (c <=? 57).

(** for (c = *p; p < strend && char_isspace (c); c = *++p); the last character
    that is read and the pointer. *)
Fixpoint skip_space (s : list Z) (n : Z) : option (Z * PTR) :=
  match s with
  | [] => None
  | b :: s' =>
      let c := char_value b in
      if (0 <? n) && char_isspace c then skip_space s' (n - 1) else Some (c, (s, n))
  end.

(** The loop over the digits of a field: [step] adds a digit. *)
Fixpoint read_digits {A} (step : A -> Z -> A) (s : list Z) (n : Z) (acc : A) : option (A * PTR) :=
  match s with
  | [] => None
  | b :: s' =>
      let c := char_value b in
      if (0 <? n) && char_isdigit c then read_digits step s' (n - 1) (step acc c)
      else Some (acc, (s, n))
  end.

(** ++p *)
Definition next_char (p : PTR) : PTR := (tail p.1, p.2 - 1).

Definition MMDDYYYY : Z := 0.
Definition YYYYMMDD : Z := 1.

(** part[i] and part_char_len[i] *)
Definition date_digit (f : Z * Z) (c : Z) : Z * Z :=
  (swrap 32 (swrap 32 (f.1 * 10) + (c - 48)), f.2 + 1).

(** The loop over the parts of a date.  [k] is the number of parts to come; the
    result has the index the loop ends with, the fields that were read, the
    style and the pointer; None inside for the return of NULL. *)
Fixpoint date_parts (k : nat) (i : Z) (p : PTR) (seperator date_style : Z)
    (fields : list (Z * Z)) : option (option (Z * list (Z * Z) * Z * PTR)) :=
  match k with
  | O => Some (Some (i, fields, date_style, p))
  | S k =>
      '(_, p) ← skip_space p.1 p.2;
      '(field, p) ← read_digits date_digit p.1 p.2 (0, 0);
      let fields := fields ++ [field] in
      if i <? 2 then
        '(c, p) ← skip_space p.1 p.2;
        if negb (seperator =? 0) && negb (c =? 0) && negb (c =? seperator) then Some None
        else if c =? 47 then date_parts k (i + 1) (next_char p) c MMDDYYYY fields
        else if c =? 45 then date_parts k (i + 1) (next_char p) c YYYYMMDD fields
        else Some (Some (i, fields, date_style, p))
      else date_parts k (i + 1) p seperator date_style fields
  end.

(** The parts with the year, the month and the day. *)
Definition date_order (date_style i : Z) : option (Z * Z * Z) :=
  if date_style =? MMDDYYYY then Some (if i =? 1 then -1 else 2, 0, 1)
  else if date_style =? YYYYMMDD then
    if i =? 1 then Some (-1, 0, 1) else Some (0, 1, 2)
  else None.

(** [current_year] is what get_current_year answers.  The pointer behind the
    date and the date. *)
Definition parse_date (current_year : Z) (buf : PTR) : option (option (PTR * Z)) :=
  parts ← date_parts 3 0 buf 0 (-1) [];
  match parts with
  | None => Some None
  | Some (i, fields, date_style, p) =>
      let part k := (nth (Z.to_nat k) fields (0, 0)).1 in
      let part_char_len k := (nth (Z.to_nat k) fields (0, 0)).2 in
      '(_, p) ← skip_space p.1 p.2;
      match date_order date_style i with
      | None => Some None
      | Some (year_part, month_part, day_part) =>
          if (0 <=? year_part) && (10000 <=? part year_part) then Some None
          else
            let year :=
              if year_part =? -1 then current_year
              else if part_char_len year_part =? 2 then
                if part year_part <? 70 then part year_part + 2000 else part year_part + 1900
              else part year_part in
            let month := part month_part in
            let day := part day_part in
            if (year =? 0) && (month =? 0) && (day =? 0) then Some (Some (p, IGREG_SPECIAL))
            else
              let julian_date := julian_encode month day year in
              let '(part0, part1, part2, _) := julian_decode julian_date in
              if (month =? part0) && (day =? part1) && (year =? part2)
              then Some (Some (p, uwrap 32 julian_date)) else Some None
      end
  end.

Section Time.
(** local_am_str and local_pm_str, without their terminators. *)
Context (am_str pm_str : list Z).

Definition is_local_str (str : list Z) (p : PTR) : bool :=
  (Z.of_nat (length str) - 1 <? p.2) && strncase_equal (length str) p.1 str.
Definition is_local_am_str (p : PTR) : bool := is_local_str am_str p.
Definition is_local_pm_str (p : PTR) : bool := is_local_str pm_str p.

Definition time_digit (part c : Z) : Z := swrap 32 (swrap 32 (part * 10) + (c - 48)).

(** part[3] += (int) ((c - '0') * fraction + 0.5); fraction /= 10 *)
Definition msec_digit (st : Z * spec_float) (c : Z) : Z * spec_float :=
  let '(part, fraction) := st in
  (swrap 32
     (part + float_to_int (dadd (dmul (double_of (c - 48)) fraction) (lit 5 10))),
   ddiv fraction (double_of 10)).

(** The field with index [i]. *)
Definition time_field (i : Z) (p : PTR) : option (Z * PTR) :=
  if negb (i =? 3) then read_digits time_digit p.1 p.2 0
  else '(st, p) ← read_digits msec_digit p.1 p.2 (0, double_of 100); Some (st.1, p).

(** The loop over the parts of a time: the index, the fields, whether there are
    milliseconds and the time is complete, and the pointer. *)
Fixpoint time_parts (k : nat) (i : Z) (p : PTR) (is_msec : bool) (fields : list Z)
    : option (option (Z * list Z * bool * bool * PTR)) :=
  match k with
  | O => Some (Some (i, fields, is_msec, true, p))
  | S k =>
      '(_, p) ← skip_space p.1 p.2;
      '(field, p) ← time_field i p;
      let fields := fields ++ [field] in
      if i <? 3 then
        '(c, p) ← skip_space p.1 p.2;
        if c =? 58 then
          if i =? 2 then Some None
          else time_parts k (i + 1) (next_char p) is_msec fields
        else if (c =? 46) && (i =? 2) then time_parts k (i + 1) (next_char p) true fields
        else Some (Some (i + 1, fields, is_msec, negb (i + 1 <? 3), p))
      else time_parts k (i + 1) p is_msec fields
  end.

(** The hour with the am or pm behind it, and the pointer; None for NULL. *)
Definition time_hour (i hour : Z) (buf p : PTR) : option (option (Z * PTR)) :=
  if is_local_am_str p then
    let p := (drop (length am_str) p.1, p.2 - Z.of_nat (length am_str)) in
    Some (Some (if hour =? 12 then 0 else if hour >? 12 then -1 else hour, p))
  else if is_local_pm_str p then
    let p := (drop (length pm_str) p.1, p.2 - Z.of_nat (length pm_str)) in
    Some (Some (if hour <? 12 then hour + 12 else if hour =? 0 then -1 else hour, p))
  else
    b ← head buf.1;
    if (i =? 0) && negb (char_value b =? 0) then Some None else Some (Some (hour, p)).

(** The pointer behind the time, the milliseconds, is_msec and is_explicit. *)
Definition parse_mtime (buf : PTR) : option (option (PTR * Z * bool * bool)) :=
  parts ← time_parts 4 0 buf false [];
  match parts with
  | None => Some None
  | Some (i, fields, is_msec, is_explicit, p) =>
      let part k := nth k fields 0 in
      '(_, p) ← skip_space p.1 p.2;
      hour ← time_hour i (part 0%nat) buf p;
      match hour with
      | None => Some None
      | Some (hour, p) =>
          if (hour <? 0) || (hour >? 23) then Some None
          else if (part 1%nat <? 0) || (part 1%nat >? 59) then Some None
          else if (part 2%nat <? 0) || (part 2%nat >? 59) then Some None
          else if (part 3%nat <? 0) || (part 3%nat >? 999) then Some None
          else Some (Some (p, encode_mtime hour (part 1%nat) (part 2%nat) (part 3%nat),
                           is_msec, is_explicit))
      end
  end.

(** *time is set only when there are no milliseconds. *)
Definition parse_time (buf : PTR) : option (option (PTR * Z)) :=
  r ← parse_mtime buf;
  match r with
  | None => Some None
  | Some (p, mtime, is_msec, _) =>
      if is_msec : bool then Some None else Some (Some (p, mtime / 1000))
  end.

(** A date followed by a time, or a time followed by a date. *)
Definition parse_datetime (current_year : Z) (buf : PTR) : option (option (PTR * DB_DATETIME)) :=
  let finalcheck (p : PTR) (date mtime : Z) :=
    if (date =? IGREG_SPECIAL) && negb (mtime =? 0) then Some None
    else Some (Some (p, mkDatetime date mtime)) in
  let second :=
    r ← parse_mtime buf;
    match r with
    | None => Some None
    | Some (p, mtime, _, _) =>
        r ← parse_date current_year p;
        match r with
        | None => Some None
        | Some (p, date) => finalcheck p date mtime
        end
    end in
  r ← parse_date current_year buf;
  match r with
  | None => second
  | Some (p, date) =>
      r ← parse_mtime p;
      match r with
      | None => second
      | Some (p, mtime, _, _) => finalcheck p date mtime
      end
  end.

(** while (p < p_end && char_isspace (p[0])) p++; the text is at its end when
    p is not below p_end or p[0] is the terminator. *)
Fixpoint at_end (s : list Z) (n : Z) : option bool :=
  if 0 <? n then
    match s with
    | [] => None
    | b :: s =>
        if char_isspace (char_value b) then at_end s (n - 1) else Some (char_value b =? 0)
    end
  else Some true.

(** The end of db_string_to_date_ex, db_string_to_time_ex and
    db_string_to_datetime_ex: the error code and the value that was set. *)
Definition finish {A} (r : option (PTR * A)) : option (Z * option A) :=
  match r with
  | None => Some (ER_DATE_CONVERSION, None)
  | Some (p, v) =>
      e ← at_end p.1 p.2; Some (if e : bool then NO_ERROR else ER_DATE_CONVERSION, Some v)
  end.

Definition db_string_to_date_ex (current_year : Z) (str : list Z) (str_len : Z)
    : option (Z * option Z) :=
  r ← parse_date current_year (str, str_len); finish r.
Definition db_string_to_time_ex (str : list Z) (str_len : Z) : option (Z * option Z) :=
  r ← parse_time (str, str_len); finish r.
Definition db_string_to_datetime_ex (current_year : Z) (str : list Z) (str_len : Z)
    : option (Z * option DB_DATETIME) :=
  r ← parse_datetime current_year (str, str_len); finish r.

Definition db_string_to_date (current_year : Z) (str : list Z) : option (Z * option Z) :=
  len ← strlen str; db_string_to_date_ex current_year str len.
Definition db_string_to_time (str : list Z) : option (Z * option Z) :=
  len ← strlen str; db_string_to_time_ex str len.
Definition db_string_to_datetime (current_year : Z) (str : list Z) : option (Z * option DB_DATETIME) :=
  len ← strlen str; db_string_to_datetime_ex current_year str len.
End Time.
