(* ===== verification/DateTextRead.v ===== *)
(** * Text of dates and times: reading what was printed *)
From Stdlib Require Import ZArith Lia ZifyBool SpecFloat.
From stdpp Require Import base list numbers.
From S2P Require Import Prelude Floats NumericValue HashFunctions Dates DatesExact DatesCalendar DateText.

(** ** Digits *)

Definition digits_text (ds : list Z) : list Z := (fun a => 48 + a) <$> ds.

Lemma char_small b : 0 <= b < 128 -> char_value b = b.
Proof. intros. unfold char_value. apply swrap_small; lia. Qed.

Lemma skip_none b s n :
  char_isspace (char_value b) = false -> skip_space (b :: s) n = Some (char_value b, (b :: s, n)).
Proof. intros H. simpl. by rewrite H, andb_false_r. Qed.

Lemma skip_digit a s n : 0 <= a < 10 -> skip_space (48 + a :: s) n = Some (48 + a, (48 + a :: s, n)).
Proof.
  intros Ha. rewrite skip_none; rewrite char_small by lia; [done|]. unfold char_isspace. lia.
Qed.

Lemma read_digits_run {A} (step : A -> Z -> A) ds c post n acc :
  Forall (fun a => 0 <= a < 10) ds -> char_isdigit (char_value c) = false ->
  Z.of_nat (length ds) <= n ->
  read_digits step (digits_text ds ++ c :: post) n acc
  = Some (foldl step acc (digits_text ds), (c :: post, n - Z.of_nat (length ds))).
Proof.
  intros Hds Hc. revert n acc. induction Hds as [|a ds Ha Hds IH]; intros n acc Hn; simpl.
  - rewrite Hc, andb_false_r. do 3 f_equal. lia.
  - simpl in Hn. rewrite char_small by lia. unfold char_isdigit at 1.
    replace ((0 <? n) && _) with true by lia.
    rewrite IH by lia. do 3 f_equal. lia.
Qed.

(** ** Fields *)

Definition digits2 (n : Z) : list Z := [n / 10; n mod 10].
Definition digits3 (n : Z) : list Z := [n / 100; n / 10 mod 10; n mod 10].
Definition digits4 (n : Z) : list Z := [n / 1000; n / 100 mod 10; n / 10 mod 10; n mod 10].

Ltac print_digits :=
  intros Hn; unfold print_0d; rewrite (proj2 (Z.ltb_ge _ _)), Z.abs_eq by lia;
  simpl; unfold digits_text, digits2, digits3, digits4; simpl; repeat zcase; simpl;
  repeat (f_equal; try dlia).

Lemma print_2 n : 0 <= n < 100 -> print_0d 2 n = digits_text (digits2 n).
Proof. print_digits. Qed.
Lemma print_3 n : 0 <= n < 1000 -> print_0d 3 n = digits_text (digits3 n).
Proof. print_digits. Qed.
Lemma print_4 n : 0 <= n < 10000 -> print_0d 4 n = digits_text (digits4 n).
Proof. print_digits. Qed.

Lemma digits2_ok n : 0 <= n < 100 -> Forall (fun a => 0 <= a < 10) (digits2 n).
Proof. intros. repeat constructor; dlia. Qed.
Lemma digits3_ok n : 0 <= n < 1000 -> Forall (fun a => 0 <= a < 10) (digits3 n).
Proof. intros. repeat constructor; dlia. Qed.
Lemma digits4_ok n : 0 <= n < 10000 -> Forall (fun a => 0 <= a < 10) (digits4 n).
Proof. intros. repeat constructor; dlia. Qed.

Lemma date_digit_step v l a :
  0 <= v < 1000000 -> 0 <= a < 10 -> date_digit (v, l) (48 + a) = (v * 10 + a, l + 1).
Proof.
  intros. unfold date_digit. simpl. rewrite (swrap_small 32 (v * 10)) by lia.
  rewrite swrap_small by lia. f_equal. lia.
Qed.

Lemma date_field_2 n : 0 <= n < 100 -> foldl date_digit (0, 0) (digits_text (digits2 n)) = (n, 2).
Proof. intros. cbn [foldl digits_text digits2 fmap list_fmap]. rewrite !date_digit_step by dlia. f_equal; dlia. Qed.

Lemma date_field_4 n : 0 <= n < 10000 -> foldl date_digit (0, 0) (digits_text (digits4 n)) = (n, 4).
Proof. intros. cbn [foldl digits_text digits4 fmap list_fmap]. rewrite !date_digit_step by dlia. f_equal; dlia. Qed.

Lemma time_digit_step v a :
  0 <= v < 1000000 -> 0 <= a < 10 -> time_digit v (48 + a) = v * 10 + a.
Proof.
  intros. unfold time_digit. rewrite (swrap_small 32 (v * 10)) by lia.
  rewrite swrap_small by lia. lia.
Qed.

Lemma time_field_2 n : 0 <= n < 100 -> foldl time_digit 0 (digits_text (digits2 n)) = n.
Proof.
  intros. cbn [foldl digits_text digits2 fmap list_fmap].
  rewrite (time_digit_step 0), time_digit_step by dlia. dlia.
Qed.

(** The three digits of the milliseconds, at 100, 10 and 1. *)
Lemma msec_step part k a :
  0 <= a < 10 -> 0 <= part < 1000 -> k = 100 \/ k = 10 \/ k = 1 ->
  exists f, msec_digit (part, double_of k) (48 + a) = (part + k * a, f)
    /\ (k <> 1 -> f = double_of (k / 10)).
Proof.
  intros Ha Hp Hk. unfold msec_digit. replace (48 + a - 48) with a by lia.
  assert (float_to_int (dadd (dmul (double_of a) (double_of k)) (lit 5 10)) = k * a) as ->.
  { assert (a = 0 \/ a = 1 \/ a = 2 \/ a = 3 \/ a = 4 \/ a = 5 \/ a = 6 \/ a = 7 \/ a = 8 \/ a = 9)
      as Hc by lia.
    destruct Hk as [->|[->| ->]];
      destruct Hc as [->|[->|[->|[->|[->|[->|[->|[->|[->| ->]]]]]]]]]; by vm_compute. }
  eexists. rewrite swrap_small by (destruct Hk as [->|[->| ->]]; lia). split; [done|].
  destruct Hk as [->|[->| ->]]; [by vm_compute..|done].
Qed.

Lemma msec_field n :
  0 <= n < 1000 -> (foldl msec_digit (0, double_of 100) (digits_text (digits3 n))).1 = n.
Proof.
  intros Hn. cbn [foldl digits_text digits3 fmap list_fmap].
  destruct (msec_step 0 100 (n / 100)) as (f1 & -> & Hf1); [dlia|lia|by left|]. rewrite Hf1 by lia.
  change (100 / 10) with 10.
  destruct (msec_step (0 + 100 * (n / 100)) 10 (n / 10 mod 10)) as (f2 & -> & Hf2);
    [dlia|dlia|by right; left|]. rewrite Hf2 by lia. change (10 / 10) with 1.
  destruct (msec_step (0 + 100 * (n / 100) + 10 * (n / 10 mod 10)) 1 (n mod 10)) as (f3 & -> & _);
    [dlia|dlia|by right; right|]. simpl. dlia.
Qed.

(** ** Dates *)

Lemma date_text_digits y m d :
  0 <= y < 10000 -> 0 <= m < 100 -> 0 <= d < 100 ->
  date_text y m d
  = digits_text (digits4 y) ++ 45 :: digits_text (digits2 m) ++ 45 :: digits_text (digits2 d).
Proof. intros. unfold date_text. by rewrite print_4, !print_2 by done. Qed.

(** The first digit of a field is not a space. *)
Lemma skip_field ds rest n :
  ds <> [] -> Forall (fun a => 0 <= a < 10) ds ->
  exists c, skip_space (digits_text ds ++ rest) n = Some (c, (digits_text ds ++ rest, n)).
Proof.
  intros Hne Hds. destruct ds as [|a ds]; [done|]. pose proof (Forall_inv Hds) as Ha. simpl in Ha.
  exists (48 + a). by apply (skip_digit a (digits_text ds ++ rest)).
Qed.

Lemma date_parts_field k i ds rest n sep style fields :
  ds <> [] -> Forall (fun a => 0 <= a < 10) ds -> Z.of_nat (length ds) < n -> i < 2 ->
  sep = 0 \/ sep = 45 ->
  date_parts (S k) i (digits_text ds ++ 45 :: rest, n) sep style fields
  = date_parts k (i + 1) (rest, n - Z.of_nat (length ds) - 1) 45 YYYYMMDD
      (fields ++ [foldl date_digit (0, 0) (digits_text ds)]).
Proof.
  intros Hne Hds Hn Hi Hsep. cbn [date_parts fst snd].
  destruct (skip_field ds (45 :: rest) n Hne Hds) as [c ->]. obind. cbn [fst snd].
  rewrite read_digits_run by (done || lia). obind. rewrite (proj2 (Z.ltb_lt i 2) Hi).
  cbn [fst snd]. rewrite skip_none by done. obind. change (char_value 45) with 45.
  by destruct Hsep as [-> | ->].
Qed.

Lemma date_parts_last ds c rest n sep style fields :
  ds <> [] -> Forall (fun a => 0 <= a < 10) ds -> Z.of_nat (length ds) <= n ->
  char_isdigit (char_value c) = false ->
  date_parts 1 2 (digits_text ds ++ c :: rest, n) sep style fields
  = Some (Some (3, fields ++ [foldl date_digit (0, 0) (digits_text ds)], style,
                (c :: rest, n - Z.of_nat (length ds)))).
Proof.
  intros Hne Hds Hn Hc. cbn [date_parts fst snd].
  destruct (skip_field ds (c :: rest) n Hne Hds) as [x ->]. obind. cbn [fst snd].
  rewrite read_digits_run by done. obind. done.
Qed.

Lemma date_parts_text y m d c post n :
  0 <= y < 10000 -> 0 <= m < 100 -> 0 <= d < 100 -> char_isdigit (char_value c) = false -> 10 <= n ->
  date_parts 3 0 (date_text y m d ++ c :: post, n) 0 (-1) []
  = Some (Some (3, [(y, 4); (m, 2); (d, 2)], YYYYMMDD, (c :: post, n - 10))).
Proof.
  intros Hy Hm Hd Hc Hn. rewrite date_text_digits by done.
  rewrite <- !app_assoc. cbn [app]. rewrite <- !app_assoc. cbn [app].
  rewrite date_parts_field by (apply digits4_ok || simpl; lia || done || by left).
  rewrite date_parts_field by (apply digits2_ok || simpl; lia || done || by right).
  change (0 + 1 + 1) with 2.
  rewrite date_parts_last by (apply digits2_ok || simpl; lia || done).
  rewrite date_field_4, !date_field_2 by done. simpl. do 4 f_equal. lia.
Qed.

Lemma parse_date_text cy j m d y c post n :
  valid_date m d y = true -> j = julian_encode m d y ->
  char_isdigit (char_value c) = false -> 10 <= n ->
  parse_date cy (date_text y m d ++ c :: post, n)
  = '(_, p) ← skip_space (c :: post) (n - 10); Some (Some (p, j)).
Proof.
  intros Hv -> Hc Hn. pose proof Hv as (Hy & Hm & Hd & _)%valid_date_iff.
  pose proof (month_length_bounds y m). unfold parse_date.
  rewrite date_parts_text by (done || lia). obind. cbn [fst snd].
  destruct (skip_space (c :: post) (n - 10)) as [[x p]|]; [|done]. obind.
  change (date_order YYYYMMDD 3) with (Some (0, 1, 2)). cbv iota beta zeta.
  change (Z.to_nat 0) with 0%nat. change (Z.to_nat 1) with 1%nat. change (Z.to_nat 2) with 2%nat.
  cbn [nth fst snd].
  replace ((0 <=? 0) && (10000 <=? y)) with false by lia.
  change (0 =? -1) with false. change (4 =? 2) with false. cbv iota.
  replace ((y =? 0) && (m =? 0) && (d =? 0)) with false by lia.
  destruct (encode_valid m d y Hv) as [He Hdec]. pose proof (jd_range m d y Hv) as Hr.
  unfold DB_DATE_MIN, DB_DATE_MAX in Hr. unfold db_date_decode in Hdec.
  rewrite He in Hdec |- *. rewrite swrap_small in Hdec by lia.
  destruct (julian_decode (jd_of m d y)) as [[[m' d'] y'] w]. simpl in Hdec.
  injection Hdec as -> -> ->. rewrite !Z.eqb_refl. cbn [andb]. by rewrite uwrap_small by lia.
Qed.

(** ** Times *)

Lemma time_text_digits h m s :
  0 <= h < 100 -> 0 <= m < 100 -> 0 <= s < 100 ->
  time_text h m s
  = digits_text (digits2 h) ++ 58 :: digits_text (digits2 m) ++ 58 :: digits_text (digits2 s).
Proof. intros. unfold time_text. by rewrite !print_2 by done. Qed.

Section Times.
Context (am_str pm_str : list Z) (Ham : am_str <> []) (Hpm : pm_str <> []).

(** A field of two digits, followed by a character that is neither a digit nor
    a space. *)
Lemma time_parts_field k i v c rest n ms fields :
  0 <= v < 100 -> 2 <= n -> i < 3 -> 0 <= c < 128 ->
  char_isdigit c = false -> char_isspace c = false ->
  time_parts (S k) i (digits_text (digits2 v) ++ c :: rest, n) ms fields
  = if c =? 58 then
      if i =? 2 then Some None
      else time_parts k (i + 1) (rest, n - 3) ms (fields ++ [v])
    else if (c =? 46) && (i =? 2) then time_parts k (i + 1) (rest, n - 3) true (fields ++ [v])
    else Some (Some (i + 1, fields ++ [v], ms, negb (i + 1 <? 3), (c :: rest, n - 2))).
Proof.
  intros Hv Hn Hi Hc Hd Hs. cbn [time_parts fst snd].
  destruct (skip_field (digits2 v) (c :: rest) n ltac:(done) (digits2_ok v Hv)) as [x ->]. obind.
  unfold time_field. replace (negb (i =? 3)) with true by lia. cbn [fst snd].
  rewrite read_digits_run
    by (apply digits2_ok || rewrite char_small || simpl; lia || done). obind.
  rewrite (proj2 (Z.ltb_lt i 3) Hi), time_field_2 by done. cbn [fst snd].
  rewrite skip_none by (by rewrite char_small by done). obind. rewrite char_small by done.
  unfold next_char. cbn [fst snd tail length digits2].
  replace (n - Z.of_nat 2 - 1) with (n - 3) by lia. by replace (n - Z.of_nat 2) with (n - 2) by lia.
Qed.

Lemma time_parts_colon k i v rest n ms fields :
  0 <= v < 100 -> 2 <= n -> i < 2 ->
  time_parts (S k) i (digits_text (digits2 v) ++ 58 :: rest, n) ms fields
  = time_parts k (i + 1) (rest, n - 3) ms (fields ++ [v]).
Proof.
  intros. rewrite time_parts_field by (lia || done). by rewrite (proj2 (Z.eqb_neq i 2)) by lia.
Qed.

(** The milliseconds. *)
Lemma time_parts_msec v c rest n ms fields :
  0 <= v < 1000 -> 3 <= n -> char_isdigit (char_value c) = false ->
  time_parts 1 3 (digits_text (digits3 v) ++ c :: rest, n) ms fields
  = Some (Some (4, fields ++ [v], ms, true, (c :: rest, n - 3))).
Proof.
  intros Hv Hn Hc. cbn [time_parts fst snd].
  destruct (skip_field (digits3 v) (c :: rest) n ltac:(done) (digits3_ok v Hv)) as [x ->]. obind.
  unfold time_field. change (negb (3 =? 3)) with false. cbv iota. cbn [fst snd].
  rewrite read_digits_run by (apply digits3_ok || simpl; lia || done). obind. cbn [fst snd].
  rewrite msec_field by done. cbn [length digits3]. change (3 <? 3) with false. cbv iota.
  by replace (n - Z.of_nat 3) with (n - 3) by lia.
Qed.

(** At the end of a text there is no am or pm. *)
Lemma not_local str rest : str <> [] -> is_local_str str (rest, 0) = false.
Proof.
  intros Hs. unfold is_local_str. destruct str; [done|].
  by rewrite (proj2 (Z.ltb_ge _ _)) by (simpl length; cbn [snd]; lia).
Qed.

Lemma time_hour_end i hour buf rest :
  i <> 0 -> buf.1 <> [] -> time_hour am_str pm_str i hour buf (rest, 0) = Some (Some (hour, (rest, 0))).
Proof.
  intros Hi Hb. unfold time_hour, is_local_am_str, is_local_pm_str. rewrite !not_local by done.
  destruct buf.1; [done|]. cbn [head]. obind. by rewrite (proj2 (Z.eqb_neq i 0) Hi).
Qed.

Definition time_ok (h m s : Z) : Prop := 0 <= h < 24 /\ 0 <= m < 60 /\ 0 <= s < 60.

Lemma parse_mtime_text h m s :
  time_ok h m s ->
  parse_mtime am_str pm_str (time_text h m s ++ [0], 8)
  = Some (Some (([0], 0), encode_mtime h m s 0, false, true)).
Proof.
  intros (Hh & Hm & Hs). unfold parse_mtime. rewrite time_text_digits by lia.
  rewrite <- !app_assoc. cbn [app]. rewrite <- !app_assoc. cbn [app].
  rewrite !time_parts_colon by lia.
  rewrite time_parts_field by (lia || done). change (0 =? 58) with false. cbn [andb].
  change (0 =? 46) with false. cbn [andb]. obind. cbn [fst snd app].
  change (8 - 3 - 3 - 2) with 0. rewrite skip_none by done. obind.
  rewrite time_hour_end by done. obind. cbn [nth].
  replace ((h <? 0) || (h >? 23)) with false by lia.
  replace ((m <? 0) || (m >? 59)) with false by lia.
  replace ((s <? 0) || (s >? 59)) with false by lia. done.
Qed.

Lemma parse_mtime_msec h m s ms :
  time_ok h m s -> 0 <= ms < 1000 ->
  parse_mtime am_str pm_str (time_text h m s ++ 46 :: print_0d 3 ms ++ [0], 12)
  = Some (Some (([0], 0), encode_mtime h m s ms, true, true)).
Proof.
  intros (Hh & Hm & Hs) Hms. unfold parse_mtime. rewrite time_text_digits, print_3 by lia.
  rewrite <- !app_assoc. cbn [app]. rewrite <- !app_assoc. cbn [app].
  rewrite !time_parts_colon by lia.
  rewrite time_parts_field by (lia || done). change (46 =? 58) with false.
  change ((46 =? 46) && (0 + 1 + 1 =? 2)) with true. cbv iota. change (0 + 1 + 1 + 1) with 3.
  rewrite time_parts_msec by (lia || done). obind. cbn [fst snd app].
  change (12 - 3 - 3 - 3 - 3) with 0. rewrite skip_none by done. obind.
  rewrite time_hour_end by done. obind. cbn [nth].
  replace ((h <? 0) || (h >? 23)) with false by lia.
  replace ((m <? 0) || (m >? 59)) with false by lia.
  replace ((s <? 0) || (s >? 59)) with false by lia.
  replace ((ms <? 0) || (ms >? 999)) with false by lia. done.
Qed.
End Times.
