(* ===== verification/DatesProps.v ===== *)
(** * Dates and times: properties *)
From Stdlib Require Import ZArith Lia ZifyBool SpecFloat.
From stdpp Require Import base list numbers gmap.
From S2P Require Import Prelude Floats NumericValue HashFunctions Dates DatesExact DatesCalendar.
From S2P Require Import DatesWeeks.
From S2P Require Import DateText DateTextRead.

(** ** Arithmetic *)

Definition datetime_ok (dt : DB_DATETIME) : Prop :=
  DB_DATE_MIN <= dt_date dt <= DB_DATE_MAX /\ 0 <= dt_time dt < MILLISECONDS_OF_ONE_DAY.

(** The date and time of a number of milliseconds, when there is one. *)
Definition shifted (dt : DB_DATETIME) (ms : Z) (res : DB_DATETIME) : Z * DB_DATETIME :=
  let total := dt_date dt * MILLISECONDS_OF_ONE_DAY + dt_time dt + ms in
  let day := total / MILLISECONDS_OF_ONE_DAY in
  if (DB_DATE_MIN <=? day) && (day <=? DB_DATE_MAX)
  then (NO_ERROR, mkDatetime day (total mod MILLISECONDS_OF_ONE_DAY))
  else (ER_QPROC_TIME_UNDERFLOW, res).

Ltac consts := unfold DB_DATE_MIN, DB_DATE_MAX, MILLISECONDS_OF_ONE_DAY in *.

Lemma ms_datetime_value total res :
  - 2 ^ 63 <= total < 2 ^ 63 ->
  ms_datetime total res
  = let day := total / MILLISECONDS_OF_ONE_DAY in
    if (DB_DATE_MIN <=? day) && (day <=? DB_DATE_MAX)
    then (NO_ERROR, mkDatetime day (total mod MILLISECONDS_OF_ONE_DAY))
    else (ER_QPROC_TIME_UNDERFLOW, res).
Proof.
  intros Ht. unfold ms_datetime, OR_CHECK_INT_OVERFLOW. consts. cbv zeta.
  destruct (Z.lt_ge_cases total 0) as [Hneg|Hpos].
  - assert (Z.quot total 86400000 <= 0) by (Z.quot_rem_to_equations; lia).
    replace (_ || _) with true by lia.
    replace (_ && _) with false by (assert (total / 86400000 < 0) by dlia; lia). done.
  - rewrite Z.quot_div_nonneg, Z.rem_mod_nonneg by lia.
    set (day := total / 86400000). destruct ((1721424 <=? day) && (day <=? 5373484)) eqn:E.
    + replace (_ || _) with false by lia. rewrite swrap_small by dlia.
      by rewrite !uwrap_small by (lia || dlia).
    + by replace (_ || _) with true by lia.
Qed.

Lemma add_ms_value dt ms res :
  datetime_ok dt -> 0 <= ms < 2 ^ 63 -> add_ms dt ms res = shifted dt ms res.
Proof.
  intros [Hd Ht] Hms. unfold add_ms, datetime_ms, shifted, OR_CHECK_ADD_OVERFLOW.
  rewrite (swrap_small 64 (_ + _)) by (consts; lia).
  set (bi1 := _ + dt_time dt) in *. assert (0 < bi1 < 2 ^ 60) by (unfold bi1; consts; lia).
  destruct (Z.lt_ge_cases (bi1 + ms) (2 ^ 63)) as [Hlt|Hge].
  - rewrite swrap_small by lia. replace (_ || _) with false by lia. apply ms_datetime_value. lia.
  - assert (swrap 64 (bi1 + ms) = bi1 + ms - 2 ^ 64) as ->.
    { rewrite <- (swrap_small 64 (bi1 + ms - 2 ^ 64)) by lia. unfold swrap.
      replace (bi1 + ms - 2 ^ 64 + 2 ^ (64 - 1)) with (bi1 + ms + 2 ^ (64 - 1) + (-1) * 2 ^ 64) by lia.
      by rewrite Z.mod_add by lia. }
    replace (_ || _) with true by lia.
    replace (_ && _) with false; [done|]. consts. dlia.
Qed.

Lemma subtract_ms_value dt ms res :
  datetime_ok dt -> 0 <= ms < 2 ^ 63 -> subtract_ms dt ms res = shifted dt (- ms) res.
Proof.
  intros [Hd Ht] Hms. unfold subtract_ms, datetime_ms, shifted, OR_CHECK_SUB_UNDERFLOW.
  rewrite (swrap_small 64 (_ + _)) by (consts; lia).
  set (bi1 := _ + dt_time dt) in *. assert (0 < bi1 < 2 ^ 60) by (unfold bi1; consts; lia).
  rewrite swrap_small by lia. replace (_ || _) with false by lia.
  replace (bi1 + - ms) with (bi1 - ms) by lia. apply ms_datetime_value. lia.
Qed.

Lemma shifted_min dt res : datetime_ok dt -> shifted dt DB_BIGINT_MIN res = (ER_QPROC_TIME_UNDERFLOW, res).
Proof.
  intros [Hd Ht]. unfold shifted, DB_BIGINT_MIN. replace (_ && _) with false; [done|]. consts. dlia.
Qed.

(** ** Texts *)

Lemma strlen_text text :
  Forall (fun b => b <> 0) text -> strlen (text ++ [0]) = Some (Z.of_nat (length text)).
Proof.
  unfold strlen. intros Ht.
  enough (forall k, str_loop (fun n _ => n + 1) (text ++ [0]) (-1) k = Some (k + Z.of_nat (length text)))
    as He by (by rewrite He).
  induction Ht as [|b text Hb Ht IH]; intros k; simpl; [f_equal; lia|].
  rewrite (proj2 (Z.eqb_neq b 0) Hb), IH. f_equal. lia.
Qed.

Lemma digits_nonzero ds : Forall (fun a => 0 <= a < 10) ds -> Forall (fun b => b <> 0) (digits_text ds).
Proof. unfold digits_text. rewrite Forall_fmap. intros Hd. eapply Forall_impl; [exact Hd|]. simpl. lia. Qed.

Lemma date_text_ok y m d :
  0 <= y < 10000 -> 0 <= m < 100 -> 0 <= d < 100 ->
  length (date_text y m d) = 10%nat /\ Forall (fun b => b <> 0) (date_text y m d).
Proof.
  intros Hy Hm Hd. rewrite date_text_digits by done. split; [done|].
  rewrite !Forall_app, Forall_cons, Forall_app, Forall_cons.
  pose proof (digits_nonzero _ (digits4_ok y Hy)). pose proof (digits_nonzero _ (digits2_ok m Hm)).
  pose proof (digits_nonzero _ (digits2_ok d Hd)). done.
Qed.

Lemma time_text_ok h m s :
  time_ok h m s -> length (time_text h m s) = 8%nat /\ Forall (fun b => b <> 0) (time_text h m s).
Proof.
  intros (Hh & Hm & Hs). rewrite time_text_digits by lia. split; [done|].
  rewrite !Forall_app, Forall_cons, Forall_app, Forall_cons.
  pose proof (digits_nonzero _ (digits2_ok h ltac:(lia))).
  pose proof (digits_nonzero _ (digits2_ok m ltac:(lia))).
  pose proof (digits_nonzero _ (digits2_ok s ltac:(lia))). done.
Qed.

(** A buffer with room for the text and its terminator. *)
Lemma print_fits n text :
  Z.of_nat (length text) < n -> print_to n text = (Z.of_nat (length text), text ++ [0]).
Proof.
  intros Hn. unfold print_to, snprintf. rewrite (proj2 (Z.eqb_neq n 0)) by lia.
  rewrite take_ge by lia. by rewrite (proj2 (Z.ltb_ge _ _)) by lia.
Qed.

(** Times of the day and their parts. *)
Lemma time_parts_of t :
  0 <= t < 86400 ->
  exists h m s, db_time_decode t = (h, m, s) /\ time_ok h m s /\ t = (h * 60 + m) * 60 + s.
Proof.
  intros Ht. unfold db_time_decode, decode_time. rewrite swrap_small by lia.
  rewrite !Z.quot_div_nonneg by lia. rewrite !Z.rem_mod_nonneg by (lia || dlia).
  eexists _, _, _. split; [done|]. unfold time_ok. dlia.
Qed.

Lemma mtime_parts_of t :
  0 <= t < MILLISECONDS_OF_ONE_DAY ->
  exists h m s ms, decode_mtime (swrap 32 t) = (h, m, s, ms) /\ time_ok h m s /\ 0 <= ms < 1000
    /\ encode_mtime h m s ms = t.
Proof.
  unfold MILLISECONDS_OF_ONE_DAY. intros Ht. unfold decode_mtime, encode_mtime. rewrite swrap_small by lia.
  rewrite !Z.quot_div_nonneg by lia. rewrite !Z.rem_mod_nonneg by (lia || dlia).
  eexists _, _, _, _. split; [done|]. split; [unfold time_ok; dlia|]. split; [dlia|].
  rewrite uwrap_small by dlia. dlia.
Qed.

Section Text.
Context (am_str pm_str : list Z) (Ham : am_str <> []) (Hpm : pm_str <> []) (current_year : Z).

Lemma date_roundtrip n date :
  10 < n -> DB_DATE_MIN <= date <= DB_DATE_MAX ->
  exists buf, db_date_to_string n date = (10, buf)
    /\ db_string_to_date current_year buf = Some (NO_ERROR, Some date).
Proof.
  intros Hn Hd. destruct (decode_valid date Hd) as (m & d & y & Hdec & Hv & Hj).
  pose proof Hv as (Hy & Hm & Hdd & _)%valid_date_iff. pose proof (month_length_bounds y m).
  destruct (date_text_ok y m d) as [Hlen Hnz]; [lia..|].
  unfold db_date_to_string. rewrite Hdec, print_fits, Hlen by lia. eexists. split; [done|].
  unfold db_string_to_date. rewrite strlen_text by done. obind. rewrite Hlen.
  unfold db_string_to_date_ex. rewrite (parse_date_text current_year date) by done.
  rewrite skip_none by done. obind. done.
Qed.

Lemma time_roundtrip n time :
  8 < n -> 0 <= time < 86400 ->
  exists buf, db_time_to_string n time = (8, buf)
    /\ db_string_to_time am_str pm_str buf = Some (NO_ERROR, Some time).
Proof.
  intros Hn Ht. destruct (time_parts_of time Ht) as (h & m & s & Hdec & Hok & Hj).
  destruct (time_text_ok h m s Hok) as [Hlen Hnz].
  unfold db_time_to_string. rewrite Hdec, print_fits, Hlen by lia. eexists. split; [done|].
  unfold db_string_to_time. rewrite strlen_text by done. obind. rewrite Hlen.
  unfold db_string_to_time_ex, parse_time. change (Z.of_nat 8) with 8.
  rewrite parse_mtime_text by done. obind. cbn [finish fst snd at_end].
  destruct Hok as (? & ? & ?). unfold encode_mtime. rewrite uwrap_small by lia.
  replace ((((h * 60 + m) * 60 + s) * 1000 + 0) / 1000) with time by dlia. done.
Qed.

Lemma datetime_roundtrip n dt :
  23 < n -> datetime_ok dt ->
  exists buf, db_datetime_to_string n dt = (23, buf)
    /\ db_string_to_datetime am_str pm_str current_year buf = Some (NO_ERROR, Some dt).
Proof.
  destruct dt as [date time]. intros Hn [Hd Ht]. simpl in Hd, Ht.
  destruct (decode_valid date Hd) as (m & d & y & Hdec & Hv & Hj).
  pose proof Hv as (Hy & Hm & Hdd & _)%valid_date_iff. pose proof (month_length_bounds y m).
  destruct (date_text_ok y m d) as [Hlen Hnz]; [lia..|].
  destruct (mtime_parts_of time Ht) as (h & mi & s & ms & Hdec2 & Hok & Hms & Henc).
  destruct (time_text_ok h mi s Hok) as [Hlen2 Hnz2].
  unfold db_datetime_to_string, db_datetime_decode. cbn [dt_date dt_time]. rewrite Hdec, Hdec2.
  assert (length (print_0d 3 ms) = 3%nat /\ Forall (fun b => b <> 0) (print_0d 3 ms)) as [Hlen3 Hnz3].
  { rewrite print_3 by done. split; [done|]. by apply digits_nonzero, digits3_ok. }
  set (text := _ ++ _ ++ _).
  assert (length text = 23%nat) as Hlt
    by (unfold text; rewrite !length_app, Hlen, Hlen2, Hlen3; done).
  assert (Forall (fun b => b <> 0) text) as Hntx.
  { unfold text. rewrite !Forall_app. repeat split; try done; by repeat constructor. }
  rewrite print_fits, Hlt by lia. eexists. split; [done|].
  unfold db_string_to_datetime. rewrite strlen_text by done. obind. rewrite Hlt.
  unfold db_string_to_datetime_ex, parse_datetime. change (Z.of_nat 23) with 23.
  replace (text ++ [0]) with (date_text y m d ++ 32 :: (time_text h mi s ++ 46 :: print_0d 3 ms ++ [0]))
    by (unfold text; by rewrite <- !app_assoc).
  rewrite (parse_date_text current_year date) by done. change (23 - 10) with 13.
  assert (skip_space (32 :: time_text h mi s ++ 46 :: print_0d 3 ms ++ [0]) 13
          = Some (48 + h / 10, (time_text h mi s ++ 46 :: print_0d 3 ms ++ [0], 12))) as ->.
  { cbn [skip_space]. change ((0 <? 13) && char_isspace (char_value 32)) with true. cbv iota.
    destruct Hok as (? & ? & ?). rewrite time_text_digits by lia. change (13 - 1) with 12.
    apply (skip_digit (h / 10)). dlia. }
  obind. rewrite parse_mtime_msec by done. obind. rewrite Henc.
  replace ((date =? IGREG_SPECIAL) && _) with false
    by (unfold IGREG_SPECIAL; consts; lia).
  done.
Qed.
End Text.

(** ** The claims *)

(** C9: db_date_encode accepts exactly the dates of the calendar between the
    years 1 and 9999, without the ten days that were skipped in October 1582,
    and the special date 0; db_date_decode is its inverse on all day numbers
    between DB_DATE_MIN and DB_DATE_MAX; and the next day of the calendar has
    the next number and the next day of the week.  The floating-point
    expressions of both functions do not lose anything. *)
Theorem dates_numbered m d y j :
  db_date_encode m d y
    = (if valid_date m d y || ((m =? 0) && (d =? 0) && (y =? 0))
       then (NO_ERROR, julian_encode m d y) else (ER_DATE_CONVERSION, 0))
  /\ (valid_date m d y = true ->
      DB_DATE_MIN <= julian_encode m d y <= DB_DATE_MAX
      /\ db_date_decode (julian_encode m d y) = (m, d, y)
      /\ ((m, d, y) <> (12, 31, 9999) ->
          let '(m', d', y') := next_day m d y in
          valid_date m' d' y' = true
          /\ julian_encode m' d' y' = julian_encode m d y + 1
          /\ day_of_week (julian_encode m' d' y') = (day_of_week (julian_encode m d y) + 1) mod 7))
  /\ (DB_DATE_MIN <= j <= DB_DATE_MAX ->
      exists m d y, db_date_decode j = (m, d, y) /\ valid_date m d y = true /\ julian_encode m d y = j).
Proof.
  split; [apply db_date_encode_spec|]. split; [|apply decode_valid].
  intros Hv. destruct (encode_valid m d y Hv) as [He Hd]. pose proof (jd_range m d y Hv) as Hr.
  split; [lia|]. split; [done|]. intros Hlast. pose proof (next_day_valid m d y Hv Hlast) as Hnext.
  destruct (next_day m d y) as [[m' d'] y']. destruct Hnext as [Hv' Hj]. split; [done|].
  destruct (encode_valid m' d' y' Hv') as [He' _]. rewrite He, He'. split; [done|].
  consts. rewrite !day_of_week_mod by lia. rewrite Hj. dlia.
Qed.

Lemma dates_numbered_witness :
  (valid_date 10 4 1582 = true /\ db_date_decode (julian_encode 10 4 1582) = (10, 4, 1582))
  /\ exists m d y, db_date_decode 2299161 = (m, d, y) /\ valid_date m d y = true
       /\ julian_encode m d y = 2299161.
Proof.
  assert (valid_date 10 4 1582 = true) as Hv by reflexivity.
  split; [split; [exact Hv|]|].
  - exact (proj1 (proj2 (proj1 (proj2 (dates_numbered 10 4 1582 0)) Hv))).
  - apply (proj2 (proj2 (dates_numbered 0 0 0 2299161))). consts. lia.
Defined.

(** C37: adding or subtracting a number of milliseconds gives the exact date and
    time when it is between the years 1 and 9999, and otherwise an error that
    leaves the result as it was, for every 64-bit number. *)
Theorem datetime_arithmetic_exact dt ms res :
  datetime_ok dt -> - 2 ^ 63 <= ms < 2 ^ 63 ->
  db_add_int_to_datetime dt ms res = shifted dt ms res
  /\ db_subtract_int_from_datetime dt ms res = shifted dt (- ms) res.
Proof.
  intros Hdt Hms. unfold db_add_int_to_datetime, db_subtract_int_from_datetime.
  destruct (ms <? 0) eqn:E1.
  - destruct (ms =? DB_BIGINT_MIN) eqn:E2.
    + apply Z.eqb_eq in E2 as ->. rewrite shifted_min by done. split; [done|].
      destruct Hdt as [Hd Ht]. unfold shifted, DB_BIGINT_MIN.
      replace (_ && _) with false; [done|]. consts. dlia.
    + unfold DB_BIGINT_MIN in E2. rewrite subtract_ms_value, add_ms_value by (done || lia).
      by rewrite Z.opp_involutive.
  - by rewrite add_ms_value, subtract_ms_value by (done || lia).
Qed.

Lemma datetime_arithmetic_exact_witness :
  db_add_int_to_datetime (mkDatetime 2458909 86399999) 1 (mkDatetime 0 0)
  = (NO_ERROR, mkDatetime 2458910 0).
Proof.
  refine (eq_trans (proj1 (datetime_arithmetic_exact (mkDatetime 2458909 86399999) 1 (mkDatetime 0 0) _ _)) _).
  - unfold datetime_ok. simpl. consts. lia.
  - lia.
  - reflexivity.
Defined.

(** C29: for the dates from 1584 on, the day of the week and the day of the year
    are those of the day numbers, and the week of the year is, in each of the
    eight modes, the number of the week counted from the first one of the
    description of the mode; except in mode 7 for a year that begins with a
    Sunday or follows one that does. *)
Theorem week_of_year_correct mode m d y :
  1584 <= y -> valid_date m d y = true -> 0 <= mode <= 7 ->
  db_get_day_of_week y m d = day_of_week (julian_encode m d y)
  /\ db_get_day_of_year y m d = Some (julian_encode m d y - julian_encode 1 1 y + 1)
  /\ (mode_fault mode y = false -> mode_fault mode (y - 1) = false ->
      db_get_week_of_year y m d mode = Some (week_number mode m d y)).
Proof.
  intros Hy Hv Hmode. pose proof Hv as (Hy' & Hm & Hd & _)%valid_date_iff.
  pose proof (month_length_bounds y m). rewrite (proj1 (encode_valid m d y Hv)), jan1_value by lia.
  pose proof (jd_range m d y Hv). split; [|split].
  - rewrite day_of_week_value by lia. by rewrite day_of_week_mod by (consts; lia).
  - apply day_of_year_value; lia.
  - by apply week_number_value.
Qed.

Lemma week_of_year_correct_witness : db_get_week_of_year 2016 1 3 3 = Some 53.
Proof.
  refine (eq_trans (proj2 (proj2 (week_of_year_correct 3 1 3 2016 _ _ _)) _ _) _);
    [lia|reflexivity|lia|reflexivity|reflexivity|vm_compute; reflexivity].
Defined.

(** Adding weeks and days to a date from 1583 on gives the date whose day
    number is larger by the number of days, or fails with the date unchanged
    when that is after the year 9999. *)
Theorem add_weeks_correct m d y weeks day_week :
  valid_date m d y = true -> 1583 <= y -> 0 <= weeks -> 0 <= day_week <= 6 ->
  let j := julian_encode m d y + 7 * weeks + day_week in
  if j <=? DB_DATE_MAX
  then exists m' d' y', db_add_weeks_and_days_to_date d m y weeks day_week = (NO_ERROR, (d', m', y'))
         /\ valid_date m' d' y' = true /\ julian_encode m' d' y' = j
  else db_add_weeks_and_days_to_date d m y weeks day_week = (ER_FAILED, (d, m, y)).
Proof.
  intros Hv Hy Hw Hdw. rewrite (proj1 (encode_valid m d y Hv)). cbv zeta.
  pose proof (add_weeks_and_days_value m d y weeks day_week Hv Hy Hw Hdw) as Hadd. cbv zeta in Hadd.
  destruct (_ <=? DB_DATE_MAX); [|exact Hadd].
  destruct Hadd as (m' & d' & y' & Hrun & Hv' & Hj). exists m', d', y'.
  by rewrite (proj1 (encode_valid m' d' y' Hv')).
Qed.

Lemma add_weeks_correct_witness :
  exists m' d' y', db_add_weeks_and_days_to_date 28 2 2024 52 3 = (NO_ERROR, (d', m', y'))
    /\ valid_date m' d' y' = true /\ julian_encode m' d' y' = julian_encode 2 28 2024 + 7 * 52 + 3.
Proof. refine (add_weeks_correct 2 28 2024 52 3 _ _ _ _); [reflexivity|lia|lia|lia]. Defined.

(** C25: a date, a time and a date with a time that are printed into a buffer
    with room for them are read back from the buffer as they were, whatever the
    current year and the words for am and pm. *)
Theorem datetime_print_parse am_str pm_str current_year n dt time :
  am_str <> [] -> pm_str <> [] -> datetime_ok dt -> 0 <= time < 86400 -> 23 < n ->
  (exists buf, db_date_to_string n (dt_date dt) = (10, buf)
     /\ db_string_to_date current_year buf = Some (NO_ERROR, Some (dt_date dt)))
  /\ (exists buf, db_time_to_string n time = (8, buf)
     /\ db_string_to_time am_str pm_str buf = Some (NO_ERROR, Some time))
  /\ exists buf, db_datetime_to_string n dt = (23, buf)
     /\ db_string_to_datetime am_str pm_str current_year buf = Some (NO_ERROR, Some dt).
Proof.
  intros Ham Hpm Hdt Ht Hn. split; [|split].
  - apply date_roundtrip; [lia|apply Hdt].
  - apply time_roundtrip; [done|done|lia|done].
  - by apply datetime_roundtrip.
Qed.

Lemma datetime_print_parse_witness :
  exists buf, db_datetime_to_string 24 (mkDatetime 2458909 3661045) = (23, buf)
    /\ db_string_to_datetime [97; 109] [112; 109] 2020 buf
       = Some (NO_ERROR, Some (mkDatetime 2458909 3661045)).
Proof.
  refine (proj2 (proj2 (datetime_print_parse [97; 109] [112; 109] 2020 24 (mkDatetime 2458909 3661045)
                          0 _ _ _ _ _))); [discriminate|discriminate| |lia|lia].
  unfold datetime_ok. simpl. consts. lia.
Defined.

(** Where the functions on dates disagree.  5 January 2017 is in the first
    week in mode 7, and db_get_week_of_year answers 52.  Before 1583 the day of
    the week, the day of the year and the addition of days follow the Gregorian
    calendar and the day numbers the Julian one: 29 February 1500 is a date,
    1500 has 366 days by the numbers and 365 by db_get_day_of_year, and the day
    after 28 February 1500 is 1 March.  julian_decode answers Monday for the
    special date 0 and day_of_week Sunday.  A buffer of 10 bytes takes nine
    characters of a date, and db_date_to_string answers that it printed ten.
    The text 0:30pm is read as half past twelve, and 1:2:3.9996, which rounds
    to 1000 milliseconds, is not read. *)
Example dates_faults :
  let am := [97; 109] in
  let pm := [112; 109] in
  db_get_week_of_year 2017 1 5 7 = Some 52 /\ week_number 7 1 5 2017 = 1
  /\ db_date_encode 2 29 1500 = (NO_ERROR, 2268992)
  /\ db_get_day_of_week 1500 1 1 = 1 /\ day_of_week (julian_encode 1 1 1500) = 3
  /\ db_get_day_of_year 1500 12 31 = Some 365
  /\ julian_encode 12 31 1500 - julian_encode 1 1 1500 + 1 = 366
  /\ db_add_weeks_and_days_to_date 28 2 1500 0 1 = (NO_ERROR, (1, 3, 1500))
  /\ (julian_decode 0).2 = 1 /\ day_of_week 0 = 0
  /\ (let '(retval, buf) := db_date_to_string 10 2458909 in
      retval = 10 /\ strlen buf = Some 9)
  /\ db_string_to_time am pm [48; 58; 51; 48; 112; 109; 0] = Some (NO_ERROR, Some 45000)
  /\ parse_mtime am pm ([49; 58; 50; 58; 51; 46; 57; 57; 57; 54; 0], 10) = Some None.
Proof. vm_compute. repeat split. Qed.
