(* ===== verification/OrBuf.v ===== *)
(** * Translation buffers (src/object/object_representation.c)

    The or_put and or_get functions that write values to the disk format and
    read them back, with their bounds checks.  Integers are stored in network
    order, apart from those that are copied as they are in memory, least
    significant byte first.  The alignment of strings is that of the address in
    the buffer.  A buffer has no jump environment (error_abort is 0, as or_init
    leaves it); the jumps inside or_put_varbit_internal are its early returns. *)
From Stdlib Require Import ZArith Lia ZifyBool.
From stdpp Require Import base list numbers.
From S2P Require Import Prelude StorageCommon Dates.

Definition ER_TF_BUFFER_UNDERFLOW : Z := -313.
Definition ER_TF_BUFFER_OVERFLOW : Z := -314.

(** ** Integers as bytes *)

Fixpoint le_bytes (n : nat) (w : Z) : list Z :=
  match n with
  | O => []
  | S n => w mod 256 :: le_bytes n (w / 256)
  end.

Fixpoint le_value (bs : list Z) : Z :=
  match bs with
  | [] => 0
  | b :: bs => b + 256 * le_value bs
  end.

(** Network order: htonl, htons, swap64 and htond of a machine that stores the
    least significant byte first. *)
Definition be_bytes (n : nat) (w : Z) : list Z := rev (le_bytes n w).
Definition be_value (bs : list Z) : Z := le_value (rev bs).

Definition OR_BYTE_SIZE : Z := 1.
Definition OR_SHORT_SIZE : Z := 2.
Definition OR_INT_SIZE : Z := 4.
Definition OR_BIGINT_SIZE : Z := 8.
Definition OR_DOUBLE_SIZE : Z := 8.
Definition OR_TIME_SIZE : Z := 4.
Definition OR_DATE_SIZE : Z := 4.
Definition OR_DATETIME_SIZE : Z := 8.
Definition OR_DATETIME_DATE : Z := 0.
Definition OR_DATETIME_TIME : Z := 4.
Definition OR_OID_SIZE : Z := 12.
Definition OR_OID_PAGEID : Z := 0.
Definition OR_OID_SLOTID : Z := 4.
Definition OR_OID_VOLID : Z := 6.
Definition OR_OID_GROUPID : Z := 8.

Definition OR_GET_BYTE (m : mem) (p : Z) : Z := m p.
Definition OR_GET_SHORT (m : mem) (p : Z) : Z := swrap 16 (be_value (load_bytes m p 2)).
Definition OR_GET_INT (m : mem) (p : Z) : Z := swrap 32 (be_value (load_bytes m p 4)).
Definition OR_GET_BIGINT (m : mem) (p : Z) : Z := swrap 64 (be_value (load_bytes m p 8)).

(** A double is its 64-bit pattern. *)
Definition OR_GET_DOUBLE (m : mem) (p : Z) : Z := uwrap 64 (be_value (load_bytes m p 8)).

(** DB_TIME and DB_DATE are unsigned. *)
Definition OR_GET_TIME (m : mem) (p : Z) : Z := uwrap 32 (OR_GET_INT m p).
Definition OR_GET_DATE (m : mem) (p : Z) : Z := uwrap 32 (OR_GET_INT m p).
Definition OR_GET_DATETIME (m : mem) (p : Z) : DB_DATETIME :=
  mkDatetime (uwrap 32 (OR_GET_INT m (p + OR_DATETIME_DATE)))
    (uwrap 32 (OR_GET_INT m (p + OR_DATETIME_TIME))).
Definition OR_GET_OID (m : mem) (p : Z) : OID :=
  mkOid (OR_GET_INT m (p + OR_OID_PAGEID)) (OR_GET_SHORT m (p + OR_OID_SLOTID))
    (OR_GET_SHORT m (p + OR_OID_VOLID)) (OR_GET_INT m (p + OR_OID_GROUPID)).

Definition OR_PUT_BYTE (m : mem) (p val : Z) : mem := store_bytes m p [uwrap 8 val].
Definition OR_PUT_SHORT (m : mem) (p val : Z) : mem := store_bytes m p (be_bytes 2 val).
Definition OR_PUT_INT (m : mem) (p val : Z) : mem := store_bytes m p (be_bytes 4 val).
Definition OR_PUT_BIGINT (m : mem) (p val : Z) : mem := store_bytes m p (be_bytes 8 val).
Definition OR_PUT_DOUBLE (m : mem) (p val : Z) : mem := store_bytes m p (be_bytes 8 val).
Definition OR_PUT_DATETIME (m : mem) (p : Z) (dt : DB_DATETIME) : mem :=
  OR_PUT_INT (OR_PUT_INT m (p + OR_DATETIME_DATE) (dt_date dt)) (p + OR_DATETIME_TIME) (dt_time dt).
Definition OR_PUT_OID (m : mem) (p : Z) (oid : OID) : mem :=
  let m := OR_PUT_INT m (p + OR_OID_PAGEID) (o_pageid oid) in
  let m := OR_PUT_SHORT m (p + OR_OID_SLOTID) (o_slotid oid) in
  let m := OR_PUT_SHORT m (p + OR_OID_VOLID) (o_volid oid) in
  OR_PUT_INT m (p + OR_OID_GROUPID) (o_groupid oid).

Definition NULL_PAGEID : Z := -1.
Definition NULL_GROUPID : Z := - 2 ^ 31.

(** What OR_PUT_NULL_OID writes. *)
Definition OR_NULL_OID : OID := mkOid NULL_PAGEID 0 0 NULL_GROUPID.

(** ** Buffers *)

Record OR_BUF := mkBuf {
  or_mem : mem;
  or_buffer : Z;
  or_ptr : Z;
  or_endptr : Z }.

Definition DB_INT32_MAX : Z := 2147483647.
Definition OR_INFINITE_POINTER : Z := 2 ^ 64 - 1.

Definition or_init (m : mem) (data length : Z) : OR_BUF :=
  mkBuf m data data
    (if (length =? 0) || (length =? -1) || (length =? DB_INT32_MAX)
     then OR_INFINITE_POINTER else data + length).

(** buf->ptr += n, and the same after a write at buf->ptr. *)
Definition or_move (buf : OR_BUF) (n : Z) : OR_BUF :=
  mkBuf (or_mem buf) (or_buffer buf) (or_ptr buf + n) (or_endptr buf).
Definition or_write (buf : OR_BUF) (m : mem) (n : Z) : OR_BUF :=
  mkBuf m (or_buffer buf) (or_ptr buf + n) (or_endptr buf).

(** (buf->ptr + n) > buf->endptr *)
Definition or_beyond (buf : OR_BUF) (n : Z) : bool := or_ptr buf + n >? or_endptr buf.

Definition or_advance (buf : OR_BUF) (offset : Z) : Z * OR_BUF :=
  if or_beyond buf offset then (ER_TF_BUFFER_OVERFLOW, buf) else (NO_ERROR, or_move buf offset).

(** The sizes of memcpy and memset are size_t. *)
Definition or_pad (buf : OR_BUF) (length : Z) : Z * OR_BUF :=
  if or_beyond buf length then (ER_TF_BUFFER_OVERFLOW, buf)
  else (NO_ERROR, or_write buf (store_bytes (or_mem buf) (or_ptr buf)
                                  (replicate (Z.to_nat (uwrap 64 length)) 0)) length).

Definition or_put_data (buf : OR_BUF) (data : list Z) (length : Z) : Z * OR_BUF :=
  if or_beyond buf length then (ER_TF_BUFFER_OVERFLOW, buf)
  else (NO_ERROR, or_write buf (store_bytes (or_mem buf) (or_ptr buf)
                                  (take (Z.to_nat (uwrap 64 length)) data)) length).

(** The status, the bytes that were copied and the buffer. *)
Definition or_get_data (buf : OR_BUF) (length : Z) : Z * list Z * OR_BUF :=
  if or_beyond buf length then (ER_TF_BUFFER_UNDERFLOW, [], buf)
  else (NO_ERROR, load_bytes (or_mem buf) (or_ptr buf) (Z.to_nat (uwrap 64 length)),
        or_move buf length).

(** ** Alignment *)

Definition or_put_align32 (buf : OR_BUF) : Z * OR_BUF :=
  let bits := Z.land (or_ptr buf) 3 in
  if negb (bits =? 0) then or_pad buf (4 - bits) else (NO_ERROR, buf).

Definition or_get_align32 (buf : OR_BUF) : Z * OR_BUF :=
  let bits := Z.land (or_ptr buf) 3 in
  if negb (bits =? 0) then or_advance buf (4 - bits) else (NO_ERROR, buf).

(** ** Values of fixed size *)

Definition or_put (buf : OR_BUF) (m : mem) (size : Z) : Z * OR_BUF :=
  if or_beyond buf size then (ER_TF_BUFFER_OVERFLOW, buf) else (NO_ERROR, or_write buf m size).

(** The value is [none] when there is not enough data. *)
Definition or_get {A} (buf : OR_BUF) (get : mem -> Z -> A) (none : A) (size : Z) : Z * A * OR_BUF :=
  if or_beyond buf size then (ER_TF_BUFFER_UNDERFLOW, none, buf)
  else (NO_ERROR, get (or_mem buf) (or_ptr buf), or_move buf size).

Definition or_put_byte (buf : OR_BUF) (num : Z) : Z * OR_BUF :=
  or_put buf (OR_PUT_BYTE (or_mem buf) (or_ptr buf) num) OR_BYTE_SIZE.
Definition or_get_byte (buf : OR_BUF) : Z * Z * OR_BUF := or_get buf OR_GET_BYTE 0 OR_BYTE_SIZE.

Definition or_put_short (buf : OR_BUF) (num : Z) : Z * OR_BUF :=
  or_put buf (OR_PUT_SHORT (or_mem buf) (or_ptr buf) num) OR_SHORT_SIZE.
Definition or_get_short (buf : OR_BUF) : Z * Z * OR_BUF := or_get buf OR_GET_SHORT 0 OR_SHORT_SIZE.

Definition or_put_int (buf : OR_BUF) (num : Z) : Z * OR_BUF :=
  or_put buf (OR_PUT_INT (or_mem buf) (or_ptr buf) num) OR_INT_SIZE.
Definition or_get_int (buf : OR_BUF) : Z * Z * OR_BUF := or_get buf OR_GET_INT 0 OR_INT_SIZE.

Definition or_put_bigint (buf : OR_BUF) (num : Z) : Z * OR_BUF :=
  or_put buf (OR_PUT_BIGINT (or_mem buf) (or_ptr buf) num) OR_BIGINT_SIZE.
Definition or_get_bigint (buf : OR_BUF) : Z * Z * OR_BUF :=
  or_get buf OR_GET_BIGINT 0 OR_BIGINT_SIZE.

Definition or_put_double (buf : OR_BUF) (dnum : Z) : Z * OR_BUF :=
  or_put buf (OR_PUT_DOUBLE (or_mem buf) (or_ptr buf) dnum) OR_DOUBLE_SIZE.
Definition or_get_double (buf : OR_BUF) : Z * Z * OR_BUF :=
  or_get buf OR_GET_DOUBLE 0 OR_DOUBLE_SIZE.

Definition or_put_time (buf : OR_BUF) (timeval : Z) : Z * OR_BUF :=
  or_put buf (OR_PUT_INT (or_mem buf) (or_ptr buf) timeval) OR_TIME_SIZE.
Definition or_get_time (buf : OR_BUF) : Z * Z * OR_BUF := or_get buf OR_GET_TIME 0 OR_TIME_SIZE.

Definition or_put_date (buf : OR_BUF) (date : Z) : Z * OR_BUF :=
  or_put buf (OR_PUT_INT (or_mem buf) (or_ptr buf) date) OR_DATE_SIZE.
Definition or_get_date (buf : OR_BUF) : Z * Z * OR_BUF := or_get buf OR_GET_DATE 0 OR_DATE_SIZE.

Definition or_put_datetime (buf : OR_BUF) (dt : DB_DATETIME) : Z * OR_BUF :=
  or_put buf (OR_PUT_DATETIME (or_mem buf) (or_ptr buf) dt) OR_DATETIME_SIZE.
Definition or_get_datetime (buf : OR_BUF) : Z * DB_DATETIME * OR_BUF :=
  or_get buf OR_GET_DATETIME (mkDatetime 0 0) OR_DATETIME_SIZE.

(** [oid] is None for a NULL pointer. *)
Definition or_put_oid (buf : OR_BUF) (oid : option OID) : Z * OR_BUF :=
  or_put buf (OR_PUT_OID (or_mem buf) (or_ptr buf) (default OR_NULL_OID oid)) OR_OID_SIZE.
Definition or_get_oid (buf : OR_BUF) : Z * OID * OR_BUF :=
  or_get buf OR_GET_OID (mkOid 0 0 0 0) OR_OID_SIZE.

(** ** Strings *)

Definition or_varchar_length_internal (charlen align : Z) : Z :=
  let len := if charlen <? 255 then 1 + charlen else 1 + OR_INT_SIZE + charlen in
  if align =? INT_ALIGNMENT then DB_ALIGN (len + 1) INT_ALIGNMENT else len.
Definition or_packed_varchar_length (charlen : Z) : Z := or_varchar_length_internal charlen INT_ALIGNMENT.
Definition or_varchar_length (charlen : Z) : Z := or_varchar_length_internal charlen CHAR_ALIGNMENT.

(** The size prefix of strings and bit strings. *)
Definition or_put_prefix (buf : OR_BUF) (len : Z) : Z * OR_BUF :=
  if len <? 255 then or_put_byte buf len
  else
    let '(rc, buf) := or_put_byte buf 255 in
    if rc =? NO_ERROR then or_put_data buf (be_bytes 4 len) OR_INT_SIZE else (rc, buf).

Definition or_put_varchar_internal (buf : OR_BUF) (string : list Z) (charlen align : Z) : Z * OR_BUF :=
  let '(rc, buf) := or_put_prefix buf charlen in
  if negb (rc =? NO_ERROR) then (rc, buf)
  else
    let '(rc, buf) := or_put_data buf string charlen in
    if negb (rc =? NO_ERROR) then (rc, buf)
    else if align =? INT_ALIGNMENT then
      let '(rc, buf) := or_put_byte buf 0 in
      if negb (rc =? NO_ERROR) then (rc, buf) else or_put_align32 buf
    else (rc, buf).
Definition or_put_varchar (buf : OR_BUF) (string : list Z) (charlen : Z) : Z * OR_BUF :=
  or_put_varchar_internal buf string charlen CHAR_ALIGNMENT.
Definition or_packed_put_varchar (buf : OR_BUF) (string : list Z) (charlen : Z) : Z * OR_BUF :=
  or_put_varchar_internal buf string charlen INT_ALIGNMENT.

(** The status, the length and the buffer; [net] is what the uninitialised
    variable for the long length holds, which is used when the data ends behind
    the first byte. *)
Definition or_get_varchar_length (net : Z) (buf : OR_BUF) : Z * Z * OR_BUF :=
  let '(rc, charlen, buf) := or_get_byte buf in
  if negb (rc =? NO_ERROR) then (rc, charlen, buf)
  else if charlen =? 255 then
    let '(rc, bs, buf) := or_get_data buf OR_INT_SIZE in
    (rc, if rc =? NO_ERROR then swrap 32 (be_value bs) else net, buf)
  else (rc, charlen, buf).

Definition or_skip_varchar_remainder (buf : OR_BUF) (charlen align : Z) : Z * OR_BUF :=
  if align =? INT_ALIGNMENT then
    let '(rc, buf) := or_advance buf (swrap 32 (charlen + 1)) in
    if rc =? NO_ERROR then or_get_align32 buf else (rc, buf)
  else or_advance buf charlen.

Definition or_skip_varchar (net : Z) (buf : OR_BUF) (align : Z) : Z * OR_BUF :=
  let '(rc, charlen, buf) := or_get_varchar_length net buf in
  if rc =? NO_ERROR then or_skip_varchar_remainder buf charlen align else (rc, buf).

(** ** Bit strings *)

Definition BITS_TO_BYTES (bit_cnt : Z) : Z := Z.quot (bit_cnt + 7) 8.

Definition or_varbit_length_internal (bitlen align : Z) : Z :=
  let len := (if bitlen <? 255 then 1 else 1 + OR_INT_SIZE) + Z.quot (bitlen + 7) 8 in
  if align =? INT_ALIGNMENT then DB_ALIGN len INT_ALIGNMENT else len.
Definition or_packed_varbit_length (bitlen : Z) : Z := or_varbit_length_internal bitlen INT_ALIGNMENT.
Definition or_varbit_length (bitlen : Z) : Z := or_varbit_length_internal bitlen CHAR_ALIGNMENT.

Definition or_put_varbit_internal (buf : OR_BUF) (string : list Z) (bitlen align : Z) : Z * OR_BUF :=
  let '(rc, buf) := or_put_prefix buf bitlen in
  if negb (rc =? NO_ERROR) then (rc, buf)
  else
    let '(rc, buf) := or_put_data buf string (BITS_TO_BYTES bitlen) in
    if negb (rc =? NO_ERROR) then (rc, buf)
    else if align =? INT_ALIGNMENT then or_put_align32 buf else (rc, buf).
Definition or_put_varbit (buf : OR_BUF) (string : list Z) (bitlen : Z) : Z * OR_BUF :=
  or_put_varbit_internal buf string bitlen CHAR_ALIGNMENT.
Definition or_packed_put_varbit (buf : OR_BUF) (string : list Z) (bitlen : Z) : Z * OR_BUF :=
  or_put_varbit_internal buf string bitlen INT_ALIGNMENT.

Definition or_get_varbit_length (buf : OR_BUF) : Z * Z * OR_BUF := or_get_varchar_length 0 buf.

Definition or_skip_varbit_remainder (buf : OR_BUF) (bitlen align : Z) : Z * OR_BUF :=
  let '(rc, buf) := or_advance buf (BITS_TO_BYTES bitlen) in
  if (rc =? NO_ERROR) && (align =? INT_ALIGNMENT) then or_get_align32 buf else (rc, buf).

Definition or_skip_varbit (buf : OR_BUF) (align : Z) : Z * OR_BUF :=
  let '(rc, bitlen, buf) := or_get_varbit_length buf in
  if rc =? NO_ERROR then or_skip_varbit_remainder buf bitlen align else (rc, buf).
