(* ===== verification/Collation.v ===== *)
(** * Comparison of strings (src/base/language_support.c, src/base/intl_support.c)

    The built-in collations compare strings by the weights of their bytes or of
    their characters.  The file shows that each comparison is that of the
    weights, filled up with zeros, and so a total preorder. *)
From Stdlib Require Import ZArith Lia ZifyBool.
From stdpp Require Import base list numbers.
From S2P Require Import Prelude.

(** ** Collations *)

Definition LANG_COLL_UTF8_BINARY : Z := 0.
Definition LANG_COLL_UTF8_EN_CS : Z := 1.
Definition LANG_COLL_UTF8_EN_CI : Z := 2.
Definition LANG_COLL_UTF8_KO_CS : Z := 3.
Definition LANG_COLL_ANY : Z := 4.
Definition LANG_COERCIBLE_COLL : Z := LANG_COLL_ANY.
Definition LANG_CHAR_COUNT_EN : Z := 256.

Definition lang_weight_EN_cs (c : Z) : Z := if c =? 32 then 0 else c.
Definition lang_weight_EN_ci (c : Z) : Z :=
  if c =? 32 then 0 else if (97 <=? c) && (c <=? 122) then c - 32 else c.

(** The weights of a collation and whether fastcmp is lang_strcmp_utf8 or
    lang_fastcmp_byte. *)
Record LANG_COLLATION := mkCollation {
  weights : Z -> Z;
  compares_utf8 : bool }.

(** The identifiers without a built-in collation stand for utf8_en_ci. *)
Definition lang_get_collation (coll_id : Z) : LANG_COLLATION :=
  if (coll_id =? LANG_COLL_UTF8_BINARY) || (coll_id =? LANG_COLL_UTF8_EN_CS)
  then mkCollation lang_weight_EN_cs false
  else if coll_id =? LANG_COLL_UTF8_KO_CS then mkCollation lang_weight_EN_cs true
  else mkCollation lang_weight_EN_ci false.

Definition LANG_IS_COERCIBLE_COLL (c : Z) : bool :=
  (c =? LANG_COERCIBLE_COLL) || (c =? LANG_COLL_UTF8_BINARY).

Definition LANG_RT_COMMON_COLL (c1 c2 : Z) : Z :=
  if c1 =? c2 then c1
  else if LANG_IS_COERCIBLE_COLL c1 then
    if negb (LANG_IS_COERCIBLE_COLL c2) then c2 else LANG_COLL_UTF8_BINARY
  else if LANG_IS_COERCIBLE_COLL c2 then c1
  else -1.

(** ** Bytes *)

(** The loops over the rest of the longer string. *)
Definition only_zeros (w : Z -> Z) (str : list Z) : bool := forallb (fun c => w c =? 0) str.

Fixpoint lang_fastcmp_byte (w : Z -> Z) (string1 string2 : list Z) : Z :=
  match string1, string2 with
  | [], [] => 0
  | [], _ => if only_zeros w string2 then 0 else -1
  | _, [] => if only_zeros w string1 then 0 else 1
  | c1 :: s1, c2 :: s2 =>
      let cmp := w c1 - w c2 in
      if negb (cmp =? 0) then cmp else lang_fastcmp_byte w s1 s2
  end.

(** ** Characters *)

(** The code point of the first character and the rest of the string. *)
Definition intl_utf8_to_cp (c : Z) (s : list Z) : Z * list Z :=
  if c <? 128 then (c, s)
  else
    match s with
    | c1 :: s1 =>
        if (192 <=? c) && (c <? 224)
        then (Z.lor (Z.shiftl (Z.land c 31) 6) (Z.land c1 63), s1)
        else
          match s1 with
          | c2 :: s2 =>
              if (224 <=? c) && (c <? 240)
              then (Z.lor (Z.lor (Z.shiftl (Z.land c 15) 12) (Z.shiftl (Z.land c1 63) 6)) (Z.land c2 63), s2)
              else
                match s2 with
                | c3 :: s3 =>
                    if (240 <=? c) && (c <? 248)
                    then (Z.lor (Z.lor (Z.lor (Z.shiftl (Z.land c 7) 18) (Z.shiftl (Z.land c1 63) 12))
                                   (Z.shiftl (Z.land c2 63) 6)) (Z.land c3 63), s3)
                    else (4294967295, s)
                | [] => (4294967295, s)
                end
          | [] => (4294967295, s)
          end
    | [] => (4294967295, s)
    end.

Definition cp_weight (w : Z -> Z) (cp : Z) : Z := if cp <? LANG_CHAR_COUNT_EN then w cp else cp.

(** Every iteration takes a byte at least. *)
Fixpoint lang_str_utf8_trail_zero_weights (fuel : nat) (w : Z -> Z) (str : list Z) : Z :=
  match fuel, str with
  | S fuel, c :: s =>
      let '(cp, next) := intl_utf8_to_cp c s in
      if (cp >=? LANG_CHAR_COUNT_EN) || negb (w cp =? 0) then 1
      else lang_str_utf8_trail_zero_weights fuel w next
  | _, _ => 0
  end.

(** lang_strmatch_utf8 with is_match = false. *)
Fixpoint strcmp_loop (fuel : nat) (w : Z -> Z) (str1 str2 : list Z) : Z :=
  match fuel with
  | O => 0
  | S fuel' =>
      match str1, str2 with
      | [], [] => 0
      | [], _ => if negb (lang_str_utf8_trail_zero_weights fuel w str2 =? 0) then -1 else 0
      | _, [] => if negb (lang_str_utf8_trail_zero_weights fuel w str1 =? 0) then 1 else 0
      | c1 :: s1, c2 :: s2 =>
          let '(cp1, next1) := intl_utf8_to_cp c1 s1 in
          let '(cp2, next2) := intl_utf8_to_cp c2 s2 in
          let w_cp1 := cp_weight w cp1 in
          let w_cp2 := cp_weight w cp2 in
          if negb (w_cp1 =? w_cp2) then (if w_cp1 <? w_cp2 then -1 else 1)
          else strcmp_loop fuel' w next1 next2
      end
  end.

Definition lang_strcmp_utf8 (w : Z -> Z) (str1 str2 : list Z) : Z :=
  strcmp_loop (S (length str1 + length str2)) w str1 str2.

Definition QSTR_COMPARE (coll_id : Z) (string1 string2 : list Z) : Z :=
  let coll := lang_get_collation coll_id in
  if compares_utf8 coll then lang_strcmp_utf8 (weights coll) string1 string2
  else lang_fastcmp_byte (weights coll) string1 string2.

(** ** Lists of weights, filled up with zeros *)

Fixpoint first_sign (l : list Z) : Z :=
  match l with
  | [] => 0
  | x :: l => if 0 <? x then 1 else if x <? 0 then -1 else first_sign l
  end.

Fixpoint pad_compare (a b : list Z) : Z :=
  match a, b with
  | [], b => - first_sign b
  | a, [] => first_sign a
  | x :: a, y :: b => if x <? y then -1 else if y <? x then 1 else pad_compare a b
  end.

Definition pad_eq (a b : list Z) : Prop := forall i, nth i a 0 = nth i b 0.
Definition pad_lt (a b : list Z) : Prop :=
  exists i, nth i a 0 < nth i b 0 /\ forall j, (j < i)%nat -> nth j a 0 = nth j b 0.

Definition agrees (c : Z) (a b : list Z) : Prop :=
  (c = -1 /\ pad_lt a b) \/ (c = 0 /\ pad_eq a b) \/ (c = 1 /\ pad_lt b a).

Lemma agrees_opp c a b : agrees c a b -> agrees (- c) b a.
Proof.
  unfold agrees. intros [[-> ?]|[[-> He]|[-> ?]]]; [right; right|right; left|left]; split; try done.
  intros i. by rewrite He.
Qed.

(** The heads of two lists that may be empty. *)
Lemma agrees_step c a b :
  let x := nth 0 a 0 in let y := nth 0 b 0 in
  agrees c (tail a) (tail b) -> agrees (if x <? y then -1 else if y <? x then 1 else c) a b.
Proof.
  intros x y H. assert (forall l i, nth (S i) l 0 = nth i (tail l) 0) as Ht by (by intros [|? l] [|i]).
  destruct (x <? y) eqn:Exy.
  { left. split; [done|]. exists 0%nat. split; [unfold x, y in Exy; lia|lia]. }
  destruct (y <? x) eqn:Eyx.
  { right. right. split; [done|]. exists 0%nat. split; [unfold x, y in Eyx; lia|lia]. }
  assert (x = y) as E by lia. unfold x, y in E.
  assert (forall a b, nth 0 a 0 = nth 0 b 0 -> pad_lt (tail a) (tail b) -> pad_lt a b) as Hlt.
  { intros l k E0 (i & Hi & Hj). exists (S i). rewrite !Ht. split; [done|]. intros [|j] ?; [done|].
    rewrite !Ht. apply Hj. lia. }
  destruct H as [[-> H]|[[-> H]|[-> H]]]; [left|right; left|right; right]; (split; [done|]).
  - by apply Hlt.
  - intros [|i]; [done|]. by rewrite !Ht.
  - by apply Hlt.
Qed.

Lemma first_sign_agrees l : agrees (first_sign l) l [].
Proof.
  induction l as [|x l IH]; [by right; left|]. cbn [first_sign].
  replace (if 0 <? x then 1 else if x <? 0 then -1 else first_sign l)
    with (if x <? 0 then -1 else if 0 <? x then 1 else first_sign l) by (zcases; done).
  by apply (agrees_step (first_sign l) (x :: l) []).
Qed.

Lemma pad_compare_agrees a b : agrees (pad_compare a b) a b.
Proof.
  revert b. induction a as [|x a IH]; intros b; [by apply agrees_opp, first_sign_agrees|].
  destruct b as [|y b]; [by apply first_sign_agrees|]. cbn [pad_compare].
  apply (agrees_step (pad_compare a b) (x :: a) (y :: b)), IH.
Qed.

Lemma pad_lt_trans a b c : pad_lt a b -> pad_lt b c -> pad_lt a c.
Proof.
  intros (i & Hi & Ei) (j & Hj & Ej). destruct (lt_eq_lt_dec i j) as [[Hij| ->]|Hij].
  - exists i. rewrite <- (Ej i) by done. split; [done|]. intros k Hk. rewrite Ei, Ej by lia. done.
  - exists j. split; [lia|]. intros k Hk. rewrite Ei, Ej by lia. done.
  - exists j. rewrite (Ei j) by done. split; [done|]. intros k Hk. rewrite Ei, Ej by lia. done.
Qed.

Lemma pad_lt_irrefl a b : pad_lt a b -> pad_eq a b -> False.
Proof. intros (i & Hi & _) E. rewrite (E i) in Hi. lia. Qed.

Lemma pad_lt_eq a b c : pad_lt a b -> pad_eq b c -> pad_lt a c.
Proof. intros (i & Hi & Ei) E. exists i. rewrite <- E. split; [done|]. intros j Hj. rewrite <- E. by apply Ei. Qed.

Lemma pad_eq_lt a b c : pad_eq a b -> pad_lt b c -> pad_lt a c.
Proof. intros E (i & Hi & Ei). exists i. rewrite E. split; [done|]. intros j Hj. rewrite E. by apply Ei. Qed.

Lemma pad_not_both a b : pad_lt a b -> pad_lt b a -> False.
Proof. intros H1 H2. apply (pad_lt_irrefl a a); [by apply (pad_lt_trans a b a)|done]. Qed.

Lemma pad_eq_sym a b : pad_eq a b -> pad_eq b a.
Proof. intros H i. by rewrite H. Qed.

Lemma pad_compare_opp a b : pad_compare a b = - pad_compare b a.
Proof.
  destruct (pad_compare_agrees a b) as [[-> H]|[[-> H]|[-> H]]],
    (pad_compare_agrees b a) as [[-> H']|[[-> H']|[-> H']]]; try done; exfalso;
    eauto using pad_not_both, pad_lt_irrefl, pad_eq_sym.
Qed.

Lemma pad_compare_range a b : -1 <= pad_compare a b <= 1.
Proof. destruct (pad_compare_agrees a b) as [[-> _]|[[-> _]|[-> _]]]; lia. Qed.

Lemma pad_compare_sgn a b : Z.sgn (pad_compare a b) = pad_compare a b.
Proof. by destruct (pad_compare_agrees a b) as [[-> _]|[[-> _]|[-> _]]]. Qed.

Lemma pad_compare_trans a b c : pad_compare a b <= 0 -> pad_compare b c <= 0 -> pad_compare a c <= 0.
Proof.
  intros H1 H2.
  assert (pad_lt a c \/ pad_eq a c) as H.
  { destruct (pad_compare_agrees a b) as [[_ Ha]|[[_ Ha]|[? _]]], (pad_compare_agrees b c) as [[_ Hb]|[[_ Hb]|[? _]]];
      try lia.
    - left. by apply (pad_lt_trans a b).
    - left. by apply (pad_lt_eq a b).
    - left. by apply (pad_eq_lt a b).
    - right. intros i. by rewrite Ha. }
  destruct (pad_compare_agrees a c) as [[-> _]|[[-> _]|[-> H']]]; [lia..|]. exfalso.
  destruct H; eauto using pad_not_both, pad_lt_irrefl, pad_eq_sym.
Qed.

(** ** The comparisons of the collations *)

Section Compare.
Context (w : Z -> Z) (Hw : forall c, 0 <= c -> 0 <= w c).

Lemma zeros_sign s :
  Forall (fun c => 0 <= c) s -> first_sign (w <$> s) = if only_zeros w s then 0 else 1.
Proof.
  induction 1 as [|c s Hc _ IH]; [done|]. cbn. pose proof (Hw c Hc).
  destruct (0 <? w c) eqn:E1.
  - by replace (w c =? 0) with false by lia.
  - replace (w c <? 0) with false by lia. replace (w c =? 0) with true by lia. exact IH.
Qed.

Lemma fastcmp_byte_weights s1 s2 :
  Forall (fun c => 0 <= c) s1 -> Forall (fun c => 0 <= c) s2 ->
  Z.sgn (lang_fastcmp_byte w s1 s2) = pad_compare (w <$> s1) (w <$> s2).
Proof.
  intros H1. revert s2. induction H1 as [|c1 s1 Hc1 H1 IH]; intros s2 H2.
  - rewrite fmap_nil. cbn [pad_compare]. rewrite zeros_sign by done. destruct s2; [done|].
    cbn [lang_fastcmp_byte]. by destruct (only_zeros w _).
  - destruct H2 as [|c2 s2 Hc2 H2].
    + rewrite fmap_nil, fmap_cons. cbn [pad_compare]. rewrite <- fmap_cons, zeros_sign by (by constructor).
      cbn [lang_fastcmp_byte]. by destruct (only_zeros w _).
    + cbn. destruct (w c1 - w c2 =? 0) eqn:E; cbn [negb].
      * replace (w c1 <? w c2) with false by lia. replace (w c2 <? w c1) with false by lia. by apply IH.
      * zcases.
Qed.

(** The weights of the characters of a string. *)
Fixpoint char_weights (fuel : nat) (str : list Z) : list Z :=
  match fuel, str with
  | S fuel, c :: s => let '(cp, next) := intl_utf8_to_cp c s in cp_weight w cp :: char_weights fuel next
  | _, _ => []
  end.

Lemma utf8_next c s :
  0 <= c -> Forall (fun c => 0 <= c) s ->
  let '(cp, next) := intl_utf8_to_cp c s in
  0 <= cp /\ Forall (fun c => 0 <= c) next /\ (length next <= length s)%nat.
Proof.
  intros Hc Hs. unfold intl_utf8_to_cp.
  assert (forall a k, 0 <= a -> 0 <= Z.shiftl a k) as Hsh by (intros; by apply Z.shiftl_nonneg).
  repeat (zcase || match goal with H : Forall _ ?l |- context [match ?l with _ => _ end] => destruct H end);
    repeat split; auto; cbn [length]; try lia; repeat constructor; auto;
    repeat first [apply Z.lor_nonneg; split | apply Hsh | apply Z.land_nonneg; right]; lia.
Qed.

Lemma cp_weight_nonneg cp : 0 <= cp -> 0 <= cp_weight w cp.
Proof. intros H. unfold cp_weight. zcase; [by apply Hw|done]. Qed.

Lemma trail_zero_weights fuel str :
  (length str <= fuel)%nat -> Forall (fun c => 0 <= c) str ->
  lang_str_utf8_trail_zero_weights fuel w str = first_sign (char_weights fuel str).
Proof.
  revert str. induction fuel as [|fuel IH]; intros str Hf Hs; [by destruct str|].
  destruct Hs as [|c s Hc Hs]; [done|]. cbn [lang_str_utf8_trail_zero_weights char_weights].
  pose proof (utf8_next c s Hc Hs) as Hn. destruct (intl_utf8_to_cp c s) as [cp next].
  destruct Hn as (Hcp & Hnext & Hlen). cbn [first_sign length] in *. unfold cp_weight.
  pose proof (Hw cp Hcp). unfold LANG_CHAR_COUNT_EN. destruct (cp <? 256) eqn:E.
  - replace (cp >=? 256) with false by lia. cbn [orb]. destruct (w cp =? 0) eqn:Ew; cbn [negb].
    + replace (0 <? w cp) with false by lia. replace (w cp <? 0) with false by lia. apply IH; [lia|done].
    + by replace (0 <? w cp) with true by lia.
  - replace (cp >=? 256) with true by lia. cbn [orb]. by replace (0 <? cp) with true by lia.
Qed.

Lemma first_sign_nonneg l : Forall (fun x => 0 <= x) l -> 0 <= first_sign l <= 1.
Proof. induction 1 as [|x l Hx _ IH]; [cbn; lia|]. cbn. zcases; lia. Qed.

Lemma char_weights_nonneg fuel str :
  Forall (fun c => 0 <= c) str -> Forall (fun x => 0 <= x) (char_weights fuel str).
Proof.
  revert str. induction fuel as [|fuel IH]; intros str Hs; [by destruct str; constructor|].
  destruct Hs as [|c s Hc Hs]; [constructor|]. cbn.
  pose proof (utf8_next c s Hc Hs) as Hn. destruct (intl_utf8_to_cp c s) as [cp next].
  destruct Hn as (Hcp & Hnext & _). constructor; [by apply cp_weight_nonneg|by apply IH].
Qed.

Lemma strcmp_loop_weights fuel s1 s2 :
  (length s1 < fuel)%nat -> (length s2 < fuel)%nat ->
  Forall (fun c => 0 <= c) s1 -> Forall (fun c => 0 <= c) s2 ->
  strcmp_loop fuel w s1 s2 = pad_compare (char_weights fuel s1) (char_weights fuel s2).
Proof.
  revert s1 s2. induction fuel as [|fuel IH]; intros s1 s2 Hf1 Hf2 H1 H2; [lia|]. cbn [strcmp_loop].
  destruct H1 as [|c1 s1 Hc1 H1].
  { change (char_weights (S fuel) []) with (@nil Z). cbn [pad_compare]. destruct H2 as [|c2 s2 Hc2 H2]; [done|].
    rewrite trail_zero_weights by first [lia | by constructor].
    pose proof (first_sign_nonneg _ (char_weights_nonneg (S fuel) (c2 :: s2) ltac:(by constructor))).
    destruct (first_sign _ =? 0) eqn:E; cbn [negb]; lia. }
  destruct H2 as [|c2 s2 Hc2 H2].
  { rewrite trail_zero_weights by first [lia | by constructor].
    pose proof (first_sign_nonneg _ (char_weights_nonneg (S fuel) (c1 :: s1) ltac:(by constructor))).
    change (char_weights (S fuel) []) with (@nil Z). destruct (char_weights (S fuel) (c1 :: s1)) as [|x l] eqn:El; [done|].
    cbn [pad_compare]. destruct (first_sign (x :: l) =? 0) eqn:E; cbn [negb]; lia. }
  pose proof (utf8_next c1 s1 Hc1 H1) as Hn1. pose proof (utf8_next c2 s2 Hc2 H2) as Hn2. cbn [char_weights].
  destruct (intl_utf8_to_cp c1 s1) as [cp1 next1], (intl_utf8_to_cp c2 s2) as [cp2 next2].
  destruct Hn1 as (Hcp1 & Hx1 & Hl1), Hn2 as (Hcp2 & Hx2 & Hl2). cbn [pad_compare length] in *.
  destruct (cp_weight w cp1 =? cp_weight w cp2) eqn:E; cbn [negb].
  - replace (_ <? _) with false by lia. replace (cp_weight w cp2 <? _) with false by lia. apply IH; [lia|lia|done|done].
  - zcases; done.
Qed.
End Compare.

(** ** QSTR_COMPARE is a total preorder *)

Definition is_byte (c : Z) : Prop := 0 <= c < 256.

Definition str_weights (coll_id : Z) (str : list Z) : list Z :=
  let coll := lang_get_collation coll_id in
  if compares_utf8 coll then char_weights (weights coll) (length str) str else weights coll <$> str.

Lemma char_weights_fuel w fuel str :
  (length str <= fuel)%nat -> char_weights w fuel str = char_weights w (length str) str.
Proof.
  assert (forall str f1 f2, (length str <= f1)%nat -> (length str <= f2)%nat ->
    char_weights w f1 str = char_weights w f2 str) as H; [|by intros ?; apply H].
  intros s. remember (length s) as n eqn:En. revert s En.
  induction (lt_wf n) as [n _ IH]. intros s -> [|f1] [|f2] H1 H2; (destruct s as [|c s]; [done|]); cbn in *; try lia.
  destruct (intl_utf8_to_cp c s) as [cp next] eqn:E. f_equal.
  assert (length next <= length s)%nat as Hlen; [|apply (IH (length next)); cbn; lia].
  revert E. unfold intl_utf8_to_cp. repeat case_match; intros; simplify_eq; cbn; lia.
Qed.

Lemma weights_nonneg coll_id c : 0 <= c -> 0 <= weights (lang_get_collation coll_id) c.
Proof. intros H. unfold lang_get_collation. repeat zcase; cbn; unfold lang_weight_EN_cs, lang_weight_EN_ci; zcases; lia. Qed.

Lemma QSTR_COMPARE_weights coll_id s1 s2 :
  Forall is_byte s1 -> Forall is_byte s2 ->
  Z.sgn (QSTR_COMPARE coll_id s1 s2) = pad_compare (str_weights coll_id s1) (str_weights coll_id s2).
Proof.
  intros H1 H2.
  assert (forall s, Forall is_byte s -> Forall (fun c => 0 <= c) s) as Hb.
  { intros s Hs. eapply Forall_impl; [|exact Hs]. unfold is_byte. lia. }
  apply Hb in H1, H2. unfold QSTR_COMPARE, str_weights.
  pose proof (weights_nonneg coll_id) as Hw. destruct (compares_utf8 _).
  - unfold lang_strcmp_utf8. rewrite strcmp_loop_weights by (done || lia).
    rewrite (char_weights_fuel _ _ s1), (char_weights_fuel _ _ s2) by lia.
    apply pad_compare_sgn.
  - by apply fastcmp_byte_weights.
Qed.
