(* ===== verification/OrBufSpec.v ===== *)
(** * What the translation buffers promise

    [writes f e]: the operation [f] puts the bytes [e] at the pointer when they
    fit, and otherwise reports an overflow without a change outside the rest of
    the buffer.  [reads f e x]: where the bytes [e] lie at the pointer, [f]
    returns [x] and moves behind them.  Both compose, so that the round trip of
    a value is that of its encoding. *)
From Stdlib Require Import ZArith Lia ZifyBool.
From stdpp Require Import base list numbers.
From S2P Require Import Prelude StorageCommon Dates OrBuf.

(** ** Integers as bytes *)

Definition is_bytes (bs : list Z) : Prop := Forall (fun b => 0 <= b < 256) bs.

Lemma length_le_bytes n w : length (le_bytes n w) = n.
Proof. revert w. induction n as [|n IH]; intros w; cbn; [done|]. by rewrite IH. Qed.

Lemma length_be_bytes n w : length (be_bytes n w) = n.
Proof. unfold be_bytes. by rewrite length_rev, length_le_bytes. Qed.

Lemma le_bytes_bytes n w : is_bytes (le_bytes n w).
Proof.
  revert w. induction n as [|n IH]; intros w; [constructor|]. constructor; [|apply IH].
  apply Z.mod_pos_bound. lia.
Qed.

Lemma be_bytes_bytes n w : is_bytes (be_bytes n w).
Proof. apply Forall_rev, le_bytes_bytes. Qed.

Lemma le_value_bytes n w : le_value (le_bytes n w) = uwrap (8 * Z.of_nat n) w.
Proof.
  unfold uwrap. revert w. induction n as [|n IH]; intros w; cbn [le_bytes le_value]; [by rewrite Z.mod_1_r|].
  rewrite IH. replace (8 * Z.of_nat (S n)) with (8 + 8 * Z.of_nat n) by lia.
  rewrite Z.pow_add_r by lia. change (2 ^ 8) with 256. rewrite Z.rem_mul_r by lia. done.
Qed.

Lemma be_value_bytes n w : be_value (be_bytes n w) = uwrap (8 * Z.of_nat n) w.
Proof. unfold be_value, be_bytes. by rewrite rev_involutive, le_value_bytes. Qed.

Lemma swrap_uwrap w x : 0 < w -> swrap w (uwrap w x) = swrap w x.
Proof. intros Hw. unfold swrap, uwrap. rewrite Zplus_mod_idemp_l. done. Qed.

Lemma uwrap_swrap w x : 0 < w -> uwrap w (swrap w x) = uwrap w x.
Proof.
  intros Hw. unfold swrap, uwrap. rewrite Zminus_mod_idemp_l. f_equal. lia.
Qed.

Lemma uwrap_uwrap w x : uwrap w (uwrap w x) = uwrap w x.
Proof. apply Zmod_mod. Qed.

(** A size below 2 ^ 64 as memcpy takes it. *)
Lemma size_nat n : 0 <= n < 2 ^ 64 -> Z.to_nat (uwrap 64 n) = Z.to_nat n.
Proof. intros H. by rewrite uwrap_small. Qed.

(** ** Writing *)

Definition zlen (bs : list Z) : Z := Z.of_nat (length bs).

Lemma zlen_app a b : zlen (a ++ b) = zlen a + zlen b.
Proof. unfold zlen. rewrite length_app. lia. Qed.

Lemma zlen_cons x a : zlen (x :: a) = 1 + zlen a.
Proof. unfold zlen. cbn. lia. Qed.

Lemma zlen_nonneg a : 0 <= zlen a.
Proof. unfold zlen. lia. Qed.

Lemma store_app m a bs1 bs2 x :
  store_bytes (store_bytes m a bs1) (a + zlen bs1) bs2 x = store_bytes m a (bs1 ++ bs2) x.
Proof.
  unfold store_bytes, zlen. rewrite length_app.
  destruct (decide (a + Z.of_nat (length bs1) <= x)) as [H|H].
  - replace (x - (a + Z.of_nat (length bs1))) with (x - a - Z.of_nat (length bs1)) by lia.
    repeat zcase; try lia; try done.
    rewrite app_nth2 by lia. f_equal. lia.
  - repeat zcase; try lia; try done. by rewrite app_nth1 by lia.
Qed.

Lemma store_ext m1 m2 a bs x : (forall y, m1 y = m2 y) -> store_bytes m1 a bs x = store_bytes m2 a bs x.
Proof. intros H. unfold store_bytes. by rewrite H. Qed.

(** [buf'] is [buf] after [bs] has been written. *)
Definition put_ok (buf : OR_BUF) (bs : list Z) (buf' : OR_BUF) : Prop :=
  or_buffer buf' = or_buffer buf /\ or_endptr buf' = or_endptr buf
  /\ or_ptr buf' = or_ptr buf + zlen bs
  /\ forall a, or_mem buf' a = store_bytes (or_mem buf) (or_ptr buf) bs a.

(** Nothing but the rest of the buffer has changed. *)
Definition confined (buf buf' : OR_BUF) : Prop :=
  or_buffer buf' = or_buffer buf /\ or_endptr buf' = or_endptr buf
  /\ or_ptr buf <= or_ptr buf' <= or_endptr buf
  /\ forall a, a < or_ptr buf \/ or_endptr buf <= a -> or_mem buf' a = or_mem buf a.

Definition writes (f : OR_BUF -> Z * OR_BUF) (e : Z -> list Z) : Prop :=
  forall buf, or_ptr buf <= or_endptr buf ->
  exists rc buf', f buf = (rc, buf')
    /\ if or_beyond buf (zlen (e (or_ptr buf)))
       then rc = ER_TF_BUFFER_OVERFLOW /\ confined buf buf'
       else rc = NO_ERROR /\ put_ok buf (e (or_ptr buf)) buf'.

Lemma put_app buf bs1 buf1 bs2 buf2 :
  put_ok buf bs1 buf1 -> put_ok buf1 bs2 buf2 -> put_ok buf (bs1 ++ bs2) buf2.
Proof.
  intros (B1 & E1 & P1 & M1) (B2 & E2 & P2 & M2). split_and!; [congruence|congruence|rewrite zlen_app; lia|].
  intros a. rewrite M2, P1, <- store_app. unfold store_bytes at 1 3. by rewrite M1.
Qed.

Lemma put_confined buf bs buf' :
  or_ptr buf + zlen bs <= or_endptr buf -> put_ok buf bs buf' -> confined buf buf'.
Proof.
  intros H (B & E & P & M). pose proof (zlen_nonneg bs). split_and!; [done|done|lia|lia|].
  intros a Ha. rewrite M. apply store_bytes_outside. unfold zlen in *. lia.
Qed.

Lemma confined_trans buf buf1 buf2 : confined buf buf1 -> confined buf1 buf2 -> confined buf buf2.
Proof.
  intros (B1 & E1 & P1 & M1) (B2 & E2 & P2 & M2). split_and!; [congruence|congruence|lia|lia|].
  intros a Ha. rewrite M2 by lia. apply M1. lia.
Qed.

Lemma confined_refl buf : or_ptr buf <= or_endptr buf -> confined buf buf.
Proof. intros H. split_and!; done || lia. Qed.

(** One operation after another, as the code chains them. *)
Definition andthen (f g : OR_BUF -> Z * OR_BUF) (buf : OR_BUF) : Z * OR_BUF :=
  let '(rc, buf) := f buf in if negb (rc =? NO_ERROR) then (rc, buf) else g buf.

Lemma writes_then f g e1 e2 :
  writes f e1 -> writes g e2 ->
  writes (andthen f g) (fun p => e1 p ++ e2 (p + zlen (e1 p))).
Proof.
  intros Hf Hg buf Hb. destruct (Hf buf Hb) as (rc & buf1 & E & H). unfold andthen. rewrite E.
  unfold or_beyond in *. rewrite zlen_app. set (p := or_ptr buf) in *.
  pose proof (zlen_nonneg (e2 (p + zlen (e1 p)))) as Hn. destruct (p + zlen (e1 p) >? or_endptr buf) eqn:Eb.
  { destruct H as [-> H]. exists ER_TF_BUFFER_OVERFLOW, buf1. split; [done|]. by replace (_ >? _) with true by lia. }
  destruct H as [-> Hput]. cbn [negb Z.eqb NO_ERROR].
  destruct (Hput) as (B & En & P & M). destruct (Hg buf1) as (rc & buf2 & E2 & H); [lia|].
  exists rc, buf2. split; [done|]. fold p in P. unfold or_beyond in H. rewrite P, En in H.
  replace (p + zlen (e1 p) + zlen (e2 (p + zlen (e1 p)))) with (p + (zlen (e1 p) + zlen (e2 (p + zlen (e1 p))))) in H by lia.
  destruct (p + (_ + _) >? _).
  - destruct H as [-> H]. split; [done|]. apply (confined_trans buf buf1 buf2); [|done].
    apply (put_confined buf (e1 p)); [fold p; lia|done].
  - destruct H as [-> H]. split; [done|]. by apply (put_app buf (e1 p) buf1).
Qed.

Lemma writes_ext f g e1 e2 :
  writes f e1 -> (forall buf, g buf = f buf) -> (forall p, e2 p = e1 p) -> writes g e2.
Proof. intros H Hf He buf Hb. rewrite Hf, He. by apply H. Qed.

Lemma writes_nil : writes (fun buf => (NO_ERROR, buf)) (fun _ => []).
Proof.
  intros buf Hb. exists NO_ERROR, buf. split; [done|]. unfold or_beyond, zlen. cbn.
  replace (_ >? _) with false by lia. split; [done|]. split_and!; [done|done|unfold zlen; cbn; lia|].
  intros a. by rewrite store_bytes_nil.
Qed.

(** The elementary writes. *)
Lemma writes_put f bs :
  (forall m p a, f m p a = store_bytes m p bs a) ->
  writes (fun buf => or_put buf (f (or_mem buf) (or_ptr buf)) (zlen bs)) (fun _ => bs).
Proof.
  intros Hf buf Hb. unfold or_put. destruct (or_beyond buf (zlen bs)) eqn:E; eexists _, _; (split; [done|]).
  - split; [done|]. by apply confined_refl.
  - split; [done|]. split_and!; cbn; done.
Qed.

Lemma writes_data data n :
  0 <= n < 2 ^ 64 -> n <= zlen data -> writes (fun buf => or_put_data buf data n) (fun _ => take (Z.to_nat n) data).
Proof.
  intros Hn Hd.
  assert (zlen (take (Z.to_nat n) data) = n) as El by (unfold zlen in *; rewrite length_take; lia).
  eapply writes_ext; [|intros ?..].
  - apply (writes_put (fun m p => store_bytes m p (take (Z.to_nat n) data)) (take (Z.to_nat n) data)). done.
  - unfold or_put_data, or_put. by rewrite El, size_nat.
  - done.
Qed.

Lemma writes_bytes data : zlen data < 2 ^ 64 -> writes (fun buf => or_put_data buf data (zlen data)) (fun _ => data).
Proof.
  intros H. pose proof (zlen_nonneg data). pose proof (writes_data data (zlen data) ltac:(lia) ltac:(lia)) as W.
  replace (take (Z.to_nat (zlen data)) data) with data in W; [done|].
  unfold zlen. by rewrite Nat2Z.id, take_ge.
Qed.

(** ** The encodings *)

Definition pad_bytes (p : Z) : list Z := replicate (Z.to_nat ((- p) mod 4)) 0.
Definition datetime_bytes (dt : DB_DATETIME) : list Z := be_bytes 4 (dt_date dt) ++ be_bytes 4 (dt_time dt).
Definition oid_bytes (oid : OID) : list Z :=
  be_bytes 4 (o_pageid oid) ++ be_bytes 2 (o_slotid oid) ++ be_bytes 2 (o_volid oid)
  ++ be_bytes 4 (o_groupid oid).
Definition prefix_bytes (len : Z) : list Z := if len <? 255 then [len] else 255 :: be_bytes 4 len.

(** A string, followed by a zero and padded to a word when it is packed. *)
Definition varchar_bytes (align : Z) (str : list Z) (p : Z) : list Z :=
  prefix_bytes (zlen str) ++ str
  ++ if align =? INT_ALIGNMENT then 0 :: pad_bytes (p + zlen (prefix_bytes (zlen str)) + zlen str + 1) else [].
Definition varbit_bytes (align : Z) (bits : Z) (str : list Z) (p : Z) : list Z :=
  prefix_bytes bits ++ str
  ++ if align =? INT_ALIGNMENT then pad_bytes (p + zlen (prefix_bytes bits) + zlen str) else [].

Lemma zlen_be n w : zlen (be_bytes n w) = Z.of_nat n.
Proof. unfold zlen. by rewrite length_be_bytes. Qed.

Lemma writes_byte n : 0 <= n < 256 -> writes (fun buf => or_put_byte buf n) (fun _ => [n]).
Proof.
  intros H. apply (writes_put (fun m p => OR_PUT_BYTE m p n) [n]). intros m p a. unfold OR_PUT_BYTE.
  by rewrite uwrap_small.
Qed.

Lemma writes_short n : writes (fun buf => or_put_short buf n) (fun _ => be_bytes 2 n).
Proof. apply (writes_put (fun m p => OR_PUT_SHORT m p n) (be_bytes 2 n)). done. Qed.

Lemma writes_int n : writes (fun buf => or_put_int buf n) (fun _ => be_bytes 4 n).
Proof. apply (writes_put (fun m p => OR_PUT_INT m p n) (be_bytes 4 n)). done. Qed.

Lemma writes_bigint n : writes (fun buf => or_put_bigint buf n) (fun _ => be_bytes 8 n).
Proof. apply (writes_put (fun m p => OR_PUT_BIGINT m p n) (be_bytes 8 n)). done. Qed.

Lemma writes_double n : writes (fun buf => or_put_double buf n) (fun _ => be_bytes 8 n).
Proof. apply (writes_put (fun m p => OR_PUT_DOUBLE m p n) (be_bytes 8 n)). done. Qed.

Lemma writes_datetime dt : writes (fun buf => or_put_datetime buf dt) (fun _ => datetime_bytes dt).
Proof.
  apply (writes_put (fun m p => OR_PUT_DATETIME m p dt) (datetime_bytes dt)). intros m p a.
  unfold OR_PUT_DATETIME, OR_PUT_INT, datetime_bytes. rewrite <- store_app, zlen_be.
  by replace (p + OR_DATETIME_DATE) with p by (unfold OR_DATETIME_DATE; lia).
Qed.

Lemma writes_oid oid : writes (fun buf => or_put_oid buf (Some oid)) (fun _ => oid_bytes oid).
Proof.
  apply (writes_put (fun m p => OR_PUT_OID m p oid) (oid_bytes oid)). intros m p a.
  unfold OR_PUT_OID, OR_PUT_INT, OR_PUT_SHORT, oid_bytes.
  rewrite !app_assoc, <- store_app. replace (p + OR_OID_GROUPID) with (p + zlen ((be_bytes 4 (o_pageid oid)
    ++ be_bytes 2 (o_slotid oid)) ++ be_bytes 2 (o_volid oid))) by (by rewrite !zlen_app, !zlen_be).
  apply store_ext. intros y. rewrite <- store_app. replace (p + OR_OID_VOLID) with (p + zlen (be_bytes 4 (o_pageid oid)
    ++ be_bytes 2 (o_slotid oid))) by (by rewrite !zlen_app, !zlen_be).
  apply store_ext. intros z. rewrite <- store_app, zlen_be.
  by replace (p + OR_OID_PAGEID) with p by (unfold OR_OID_PAGEID; lia).
Qed.

Lemma writes_prefix n : 0 <= n -> writes (fun buf => or_put_prefix buf n) (fun _ => prefix_bytes n).
Proof.
  intros H. unfold or_put_prefix, prefix_bytes. destruct (n <? 255) eqn:E.
  - apply writes_byte. lia.
  - assert (zlen (be_bytes 4 n) < 2 ^ 64) as Hb by (rewrite zlen_be; lia).
    eapply writes_ext; [apply (writes_then _ _ _ _ (writes_byte 255 ltac:(lia)) (writes_bytes (be_bytes 4 n) Hb))|..].
    + intros buf. rewrite zlen_be. unfold andthen. destruct (or_put_byte buf 255) as [rc buf1]. by destruct (rc =? NO_ERROR).
    + done.
Qed.

Lemma writes_align : writes or_put_align32 pad_bytes.
Proof.
  assert (forall p, Z.land p 3 = p mod 4) as Hl by (intros p; apply (Z.land_ones p 2); lia).
  intros buf Hb. unfold or_put_align32. rewrite Hl. unfold pad_bytes.
  set (p := or_ptr buf) in *. destruct (p mod 4 =? 0) eqn:E; cbn [negb].
  - replace ((- p) mod 4) with 0 by dlia. by apply writes_nil.
  - replace ((- p) mod 4) with (4 - p mod 4) by dlia. pose proof (Z.mod_pos_bound p 4).
    set (n := 4 - p mod 4) in *.
    assert (zlen (replicate (Z.to_nat n) 0) = n) as El by (unfold zlen; rewrite length_replicate; lia).
    pose proof (writes_put (fun m p => store_bytes m p (replicate (Z.to_nat n) 0)) (replicate (Z.to_nat n) 0)
      ltac:(done) buf Hb) as W.
    unfold or_put in W. unfold or_pad. rewrite El in *. by rewrite size_nat by lia.
Qed.

Lemma writes_varchar align str :
  zlen str < 2 ^ 64 ->
  writes (fun buf => or_put_varchar_internal buf str (zlen str) align) (varchar_bytes align str).
Proof.
  intros Hs. pose proof (zlen_nonneg str) as H0.
  set (tail := fun buf => if align =? INT_ALIGNMENT then andthen (fun buf => or_put_byte buf 0) or_put_align32 buf
                         else (NO_ERROR, buf)).
  assert (writes tail (fun p => if align =? INT_ALIGNMENT then 0 :: pad_bytes (p + 1) else [])) as Ht.
  { unfold tail. destruct (align =? INT_ALIGNMENT); [|apply writes_nil].
    apply (writes_then _ _ _ _ (writes_byte 0 ltac:(lia)) writes_align). }
  eapply writes_ext;
    [apply (writes_then _ _ _ _ (writes_prefix (zlen str) H0) (writes_then _ _ _ _ (writes_bytes str Hs) Ht))|..].
  - intros buf. unfold or_put_varchar_internal, andthen. destruct (or_put_prefix buf _) as [rc b].
    destruct (negb (rc =? NO_ERROR)) eqn:E; [done|]. destruct (or_put_data b _ _) as [rc1 b1].
    destruct (negb (rc1 =? NO_ERROR)) eqn:E1; [done|]. unfold tail, andthen. zcase; [done|].
    by replace rc1 with NO_ERROR by lia.
  - intros p. done.
Qed.

Lemma writes_varbit align bits str :
  0 <= bits -> zlen str = BITS_TO_BYTES bits -> zlen str < 2 ^ 64 ->
  writes (fun buf => or_put_varbit_internal buf str bits align) (varbit_bytes align bits str).
Proof.
  intros H0 Hl Hs.
  set (tail := fun buf => if align =? INT_ALIGNMENT then or_put_align32 buf else (NO_ERROR, buf)).
  assert (writes tail (fun p => if align =? INT_ALIGNMENT then pad_bytes p else [])) as Ht.
  { unfold tail. destruct (align =? INT_ALIGNMENT); [apply writes_align|apply writes_nil]. }
  eapply writes_ext;
    [apply (writes_then _ _ _ _ (writes_prefix bits H0) (writes_then _ _ _ _ (writes_bytes str Hs) Ht))|..].
  - intros buf. unfold or_put_varbit_internal, andthen. destruct (or_put_prefix buf _) as [rc b].
    destruct (negb (rc =? NO_ERROR)) eqn:E; [done|]. rewrite <- Hl. destruct (or_put_data b _ _) as [rc1 b1].
    destruct (negb (rc1 =? NO_ERROR)) eqn:E1; [done|]. unfold tail. zcase; [done|].
    by replace rc1 with NO_ERROR by lia.
  - done.
Qed.

(** ** Reading *)

(** The bytes [bs] lie at [p]. *)
Definition holds (m : mem) (p : Z) (bs : list Z) : Prop := load_bytes m p (length bs) = bs.

Lemma holds_app m p a b : holds m p (a ++ b) <-> holds m p a /\ holds m (p + zlen a) b.
Proof.
  unfold holds, zlen. rewrite length_app, load_bytes_app. split; [|by intros [-> ->]].
  intros H. apply app_inj_1 in H; [done|]. by rewrite length_load_bytes.
Qed.

Lemma put_holds buf bs buf' : put_ok buf bs buf' -> holds (or_mem buf') (or_ptr buf) bs.
Proof.
  intros (_ & _ & _ & M). unfold holds. rewrite <- (load_store_same (or_mem buf) (or_ptr buf) bs) at 2.
  by apply load_bytes_ext.
Qed.

Definition reads {A} (f : OR_BUF -> Z * A * OR_BUF) (e : Z -> list Z) (x : A) : Prop :=
  forall buf, holds (or_mem buf) (or_ptr buf) (e (or_ptr buf)) ->
  or_ptr buf + zlen (e (or_ptr buf)) <= or_endptr buf ->
  f buf = (NO_ERROR, x, or_move buf (zlen (e (or_ptr buf)))).

Lemma reads_get {A} (get : mem -> Z -> A) none bs x :
  (forall m p, holds m p bs -> get m p = x) -> reads (fun buf => or_get buf get none (zlen bs)) (fun _ => bs) x.
Proof.
  intros Hg buf Hh Hb. unfold or_get, or_beyond. replace (_ >? _) with false by lia. by rewrite (Hg _ _ Hh).
Qed.

Lemma reads_data bs : zlen bs < 2 ^ 64 -> reads (fun buf => or_get_data buf (zlen bs)) (fun _ => bs) bs.
Proof.
  intros Hl buf Hh Hb. unfold or_get_data, or_beyond. replace (_ >? _) with false by lia.
  pose proof (zlen_nonneg bs). rewrite size_nat by lia. unfold zlen in *. rewrite Nat2Z.id. by rewrite Hh.
Qed.

Lemma get_be n w m p : holds m p (be_bytes n w) -> be_value (load_bytes m p n) = uwrap (8 * Z.of_nat n) w.
Proof. unfold holds. rewrite length_be_bytes. intros ->. apply be_value_bytes. Qed.

Lemma get_le n w m p : holds m p (le_bytes n w) -> le_value (load_bytes m p n) = uwrap (8 * Z.of_nat n) w.
Proof. unfold holds. rewrite length_le_bytes. intros ->. apply le_value_bytes. Qed.

Lemma get_short m p n : holds m p (be_bytes 2 n) -> OR_GET_SHORT m p = swrap 16 n.
Proof. intros H. unfold OR_GET_SHORT. rewrite (get_be 2 n) by done. by apply swrap_uwrap. Qed.

Lemma get_int m p n : holds m p (be_bytes 4 n) -> OR_GET_INT m p = swrap 32 n.
Proof. intros H. unfold OR_GET_INT. rewrite (get_be 4 n) by done. by apply swrap_uwrap. Qed.

Lemma get_bigint m p n : holds m p (be_bytes 8 n) -> OR_GET_BIGINT m p = swrap 64 n.
Proof. intros H. unfold OR_GET_BIGINT. rewrite (get_be 8 n) by done. by apply swrap_uwrap. Qed.

Lemma get_double m p n : holds m p (be_bytes 8 n) -> OR_GET_DOUBLE m p = uwrap 64 n.
Proof. intros H. unfold OR_GET_DOUBLE. rewrite (get_be 8 n) by done. apply uwrap_uwrap. Qed.

Lemma get_time m p n : holds m p (be_bytes 4 n) -> OR_GET_TIME m p = uwrap 32 n.
Proof. intros H. unfold OR_GET_TIME. rewrite (get_int m p n) by done. by apply uwrap_swrap. Qed.

Lemma get_datetime m p dt :
  holds m p (datetime_bytes dt) ->
  OR_GET_DATETIME m p = mkDatetime (uwrap 32 (dt_date dt)) (uwrap 32 (dt_time dt)).
Proof.
  unfold datetime_bytes. rewrite holds_app, zlen_be. intros [H1 H2]. unfold OR_GET_DATETIME.
  rewrite (get_int m (p + OR_DATETIME_TIME) (dt_time dt)), (get_int m (p + OR_DATETIME_DATE) (dt_date dt));
    [by rewrite !uwrap_swrap|by replace (p + OR_DATETIME_DATE) with p by (unfold OR_DATETIME_DATE; lia)|done].
Qed.

Lemma get_oid m p oid :
  holds m p (oid_bytes oid) ->
  OR_GET_OID m p = mkOid (swrap 32 (o_pageid oid)) (swrap 16 (o_slotid oid)) (swrap 16 (o_volid oid))
                     (swrap 32 (o_groupid oid)).
Proof.
  unfold oid_bytes. rewrite !holds_app, !zlen_be. intros (H1 & H2 & H3 & H4). unfold OR_GET_OID.
  unfold OR_OID_PAGEID, OR_OID_SLOTID, OR_OID_VOLID, OR_OID_GROUPID.
  replace (p + 0) with p by lia. replace (p + Z.of_nat 4 + Z.of_nat 2) with (p + 6) in * by lia.
  replace (p + 6 + Z.of_nat 2) with (p + 8) in * by lia.
  f_equal; [by apply get_int|by apply get_short|by apply get_short|by apply get_int].
Qed.

Lemma get_byte m p n : holds m p [n] -> OR_GET_BYTE m p = n.
Proof. unfold holds, load_bytes. cbn. intros H. simplify_eq. unfold OR_GET_BYTE. f_equal. lia. Qed.

Lemma reads_prefix net n : 0 <= n < 2 ^ 31 -> reads (or_get_varchar_length net) (fun _ => prefix_bytes n) n.
Proof.
  intros Hn buf Hh Hb. unfold or_get_varchar_length, prefix_bytes in *. destruct (n <? 255) eqn:E.
  - unfold or_get_byte. rewrite (reads_get OR_GET_BYTE 0 [n] n (fun m p => get_byte m p n)) by done.
    cbn. by replace (n =? 255) with false by lia.
  - change (255 :: be_bytes 4 n) with ([255] ++ be_bytes 4 n) in *. rewrite holds_app in Hh. rewrite zlen_app in *.
    destruct Hh as [H1 H2]. pose proof (zlen_nonneg (be_bytes 4 n)). unfold or_get_byte.
    rewrite (reads_get OR_GET_BYTE 0 [255] 255 (fun m p => get_byte m p 255)) by (done || lia). cbn [Z.eqb negb].
    change OR_INT_SIZE with (Z.of_nat 4). rewrite <- (zlen_be 4 n).
    change (255 =? 255) with true. cbn iota.
    rewrite (reads_data (be_bytes 4 n)); [|rewrite zlen_be; lia|done|cbn [or_ptr or_move or_endptr]; lia]. cbn iota zeta.
    change (NO_ERROR =? NO_ERROR) with true. cbn iota.
    rewrite be_value_bytes, swrap_uwrap, swrap_small by lia. unfold or_move. cbn. do 2 f_equal. lia.
Qed.

Lemma get_align32 buf :
  or_ptr buf + zlen (pad_bytes (or_ptr buf)) <= or_endptr buf ->
  or_get_align32 buf = (NO_ERROR, or_move buf (zlen (pad_bytes (or_ptr buf)))).
Proof.
  unfold or_get_align32, zlen, pad_bytes. rewrite length_replicate.
  replace (Z.land (or_ptr buf) 3) with (or_ptr buf mod 4) by (symmetry; apply (Z.land_ones _ 2); lia).
  destruct (or_ptr buf mod 4 =? 0) eqn:E; cbn [negb]; intros H.
  - replace ((- or_ptr buf) mod 4) with 0 by dlia. destruct buf. unfold or_move. cbn. do 2 f_equal. lia.
  - replace ((- or_ptr buf) mod 4) with (4 - or_ptr buf mod 4) in * by dlia.
    pose proof (Z.mod_pos_bound (or_ptr buf) 4). unfold or_advance, or_beyond.
    rewrite Z2Nat.id in * by lia. by replace (_ >? _) with false by lia.
Qed.
