(* ===== verification/Primitive.v ===== *)
(** * Primitive types (src/object/object_primitive.c)

    The values of the primitive types, their representations in heap records
    (the data functions) and in index records (the index functions), and their
    comparisons in memory and on disk.  A numeric value is one of NumericValue,
    a string the list of its bytes.  The functions are those of a release
    build; where the source leaves a value undefined the result is None. *)
From Stdlib Require Import ZArith Lia ZifyBool SpecFloat.
From stdpp Require Import base list numbers.
From S2P Require Import Prelude StorageCommon Dates Numeric NumericValue OrBuf Collation.

(** ** Values *)

Inductive VALUE :=
| VNull
| VInteger (i : Z)
| VBigint (bi : Z)
| VDouble (d : Z)
| VTime (t : Z)
| VDate (d : Z)
| VDatetime (dt : DB_DATETIME)
| VNumeric (v : DB_VALUE)
| VVarchar (prec : Z) (str : list Z) (coll : Z)
| VVarbit (prec bits : Z) (str : list Z)
| VOid (oid : OID).

(** DB_IS_NULL and DB_VALUE_DOMAIN_TYPE. *)
Definition VALUE_IS_NULL (v : VALUE) : bool := match v with VNull => true | _ => false end.

Definition DB_VALUE_DOMAIN_TYPE (v : VALUE) : DB_TYPE :=
  match v with
  | VNull => DB_TYPE_NULL
  | VInteger _ => DB_TYPE_INTEGER
  | VBigint _ => DB_TYPE_BIGINT
  | VDouble _ => DB_TYPE_DOUBLE
  | VTime _ => DB_TYPE_TIME
  | VDate _ => DB_TYPE_DATE
  | VDatetime _ => DB_TYPE_DATETIME
  | VNumeric _ => DB_TYPE_NUMERIC
  | VVarchar _ _ _ => DB_TYPE_VARCHAR
  | VVarbit _ _ _ => DB_TYPE_VARBIT
  | VOid _ => DB_TYPE_OID
  end.

Definition OID_ISNULL (oid : OID) : bool := o_pageid oid =? NULL_PAGEID.

(** A null OID makes a null value. *)
Definition db_make_oid (oid : OID) : VALUE := if OID_ISNULL oid then VNull else VOid oid.

Definition DB_MAX_VARCHAR_PRECISION : Z := 1073741823.
Definition DB_MAX_VARBIT_LENGTH : Z := 134217727.

Definition db_make_varchar (l : Z) (p : list Z) (coll : Z) : VALUE :=
  VVarchar (Z.max (if l =? DB_DEFAULT_PRECISION then DB_MAX_VARCHAR_PRECISION else l)
              (Z.of_nat (length p))) p coll.
Definition db_make_varbit (l : Z) (p : list Z) (s : Z) : VALUE :=
  VVarbit (Z.max (if l =? DB_DEFAULT_PRECISION then DB_MAX_VARBIT_LENGTH else l) s) s p.

(** ** Comparison of C values *)

Definition MR_CMP (d1 d2 : Z) : Z := if d1 <? d2 then DB_LT else if d1 >? d2 then DB_GT else DB_EQ.
Definition MR_CMP_RETURN_CODE (c : Z) : Z := if c <? 0 then DB_LT else if c >? 0 then DB_GT else DB_EQ.

(** The double with a bit pattern. *)
Definition double_of_bits (b : Z) : spec_float :=
  let s := Z.testbit b 63 in
  let ex := Z.land (Z.shiftr b 52) 2047 in
  let frac := Z.land b (2 ^ 52 - 1) in
  if ex =? 2047 then (if frac =? 0 then S754_infinity s else S754_nan)
  else
    match (if ex =? 0 then frac else frac + 2 ^ 52) with
    | Zpos m => S754_finite s m (Z.max ex 1 - 1075)
    | _ => S754_zero s
    end.

(** MR_CMP on doubles. *)
Definition MR_CMP_double (d1 d2 : Z) : Z :=
  if SFltb (double_of_bits d1) (double_of_bits d2) then DB_LT
  else if SFltb (double_of_bits d2) (double_of_bits d1) then DB_GT else DB_EQ.

Definition MR_CMP_datetime (dt1 dt2 : DB_DATETIME) : Z :=
  if dt_date dt1 <? dt_date dt2 then DB_LT
  else if dt_date dt1 >? dt_date dt2 then DB_GT
  else if dt_time dt1 <? dt_time dt2 then DB_LT
  else if dt_time dt1 >? dt_time dt2 then DB_GT
  else DB_EQ.

Fixpoint varbit_compare (string1 string2 : list Z) : Z :=
  match string1, string2 with
  | c1 :: s1, c2 :: s2 =>
      let cmp := c1 - c2 in
      if negb (cmp =? 0) then cmp else varbit_compare s1 s2
  | _, _ => Z.of_nat (length string1) - Z.of_nat (length string2)
  end.

(** ** Reading and writing *)

(** The status, the value if it has been set, and the buffer; None where the
    source reads a string of negative length, which is corrupt data. *)
Definition READ : Type := option (Z * option VALUE * OR_BUF).

(** [value] says whether there is a value to fill: it is NULL to skip one. *)
Definition read_fixed {A} (value : bool) (get : OR_BUF -> Z * A * OR_BUF) (mk : A -> VALUE)
    (disksize : Z) (buf : OR_BUF) : READ :=
  if negb value then
    let '(rc, buf) := or_advance buf disksize in Some (rc, None, buf)
  else
    let '(rc, x, buf) := get buf in
    Some (rc, if rc =? NO_ERROR then Some (mk x) else None, buf).

(** or_put_data of a C integer of [n] bytes, and or_get_data into one. *)
Definition put_native (n : nat) (x : Z) (buf : OR_BUF) : Z * OR_BUF :=
  or_put_data buf (le_bytes n x) (Z.of_nat n).
Definition get_native (n : nat) (wrap : Z -> Z) (buf : OR_BUF) : Z * Z * OR_BUF :=
  let '(rc, bs, buf) := or_get_data buf (Z.of_nat n) in (rc, wrap (le_value bs), buf).
(** COPYMEM *)
Definition copymem (n : nat) (wrap : Z -> Z) (m : mem) (p : Z) : Z := wrap (le_value (load_bytes m p n)).

Definition mr_data_writeval_int (buf : OR_BUF) (i : Z) : Z * OR_BUF := or_put_int buf i.
Definition mr_data_readval_int (value : bool) : OR_BUF -> READ := read_fixed value or_get_int VInteger 4.
Definition mr_index_writeval_int (buf : OR_BUF) (i : Z) : Z * OR_BUF := put_native 4 i buf.
Definition mr_index_readval_int (value : bool) : OR_BUF -> READ :=
  read_fixed value (get_native 4 (swrap 32)) VInteger 4.
Definition mr_index_cmpdisk_int (m : mem) (mem1 mem2 : Z) : Z :=
  MR_CMP (copymem 4 (swrap 32) m mem1) (copymem 4 (swrap 32) m mem2).
Definition mr_data_cmpdisk_int (m : mem) (mem1 mem2 : Z) : Z := MR_CMP (OR_GET_INT m mem1) (OR_GET_INT m mem2).

Definition mr_data_writeval_bigint (buf : OR_BUF) (bi : Z) : Z * OR_BUF := or_put_bigint buf bi.
Definition mr_data_readval_bigint (value : bool) : OR_BUF -> READ :=
  read_fixed value or_get_bigint VBigint 8.
Definition mr_index_writeval_bigint (buf : OR_BUF) (bi : Z) : Z * OR_BUF := put_native 8 bi buf.
Definition mr_index_readval_bigint (value : bool) : OR_BUF -> READ :=
  read_fixed value (get_native 8 (swrap 64)) VBigint 8.
Definition mr_index_cmpdisk_bigint (m : mem) (mem1 mem2 : Z) : Z :=
  MR_CMP (copymem 8 (swrap 64) m mem1) (copymem 8 (swrap 64) m mem2).
Definition mr_data_cmpdisk_bigint (m : mem) (mem1 mem2 : Z) : Z :=
  MR_CMP (OR_GET_BIGINT m mem1) (OR_GET_BIGINT m mem2).

Definition mr_data_writeval_double (buf : OR_BUF) (d : Z) : Z * OR_BUF := or_put_double buf d.
Definition mr_data_readval_double (value : bool) : OR_BUF -> READ :=
  read_fixed value or_get_double VDouble 8.
Definition mr_index_writeval_double (buf : OR_BUF) (d : Z) : Z * OR_BUF := put_native 8 d buf.
Definition mr_index_readval_double (value : bool) : OR_BUF -> READ :=
  read_fixed value (get_native 8 (uwrap 64)) VDouble 8.
Definition mr_index_cmpdisk_double (m : mem) (mem1 mem2 : Z) : Z :=
  MR_CMP_double (copymem 8 (uwrap 64) m mem1) (copymem 8 (uwrap 64) m mem2).
Definition mr_data_cmpdisk_double (m : mem) (mem1 mem2 : Z) : Z :=
  MR_CMP_double (OR_GET_DOUBLE m mem1) (OR_GET_DOUBLE m mem2).

Definition mr_data_writeval_time (buf : OR_BUF) (t : Z) : Z * OR_BUF := or_put_time buf t.
Definition mr_data_readval_time (value : bool) : OR_BUF -> READ :=
  read_fixed value or_get_time VTime OR_TIME_SIZE.
Definition mr_index_writeval_time (buf : OR_BUF) (t : Z) : Z * OR_BUF := put_native 4 t buf.
Definition mr_index_readval_time (value : bool) : OR_BUF -> READ :=
  read_fixed value (get_native 4 (uwrap 32)) VTime OR_TIME_SIZE.
Definition mr_index_cmpdisk_time (m : mem) (mem1 mem2 : Z) : Z :=
  MR_CMP (copymem 4 (uwrap 32) m mem1) (copymem 4 (uwrap 32) m mem2).
Definition mr_data_cmpdisk_time (m : mem) (mem1 mem2 : Z) : Z := MR_CMP (OR_GET_TIME m mem1) (OR_GET_TIME m mem2).

Definition mr_data_writeval_date (buf : OR_BUF) (d : Z) : Z * OR_BUF := or_put_date buf d.
Definition mr_data_readval_date (value : bool) : OR_BUF -> READ :=
  read_fixed value or_get_date VDate OR_DATE_SIZE.
Definition mr_index_writeval_date (buf : OR_BUF) (d : Z) : Z * OR_BUF := put_native 4 d buf.
Definition mr_index_readval_date (value : bool) : OR_BUF -> READ :=
  read_fixed value (get_native 4 (uwrap 32)) VDate OR_DATE_SIZE.
Definition mr_index_cmpdisk_date (m : mem) (mem1 mem2 : Z) : Z :=
  MR_CMP (copymem 4 (uwrap 32) m mem1) (copymem 4 (uwrap 32) m mem2).
Definition mr_data_cmpdisk_date (m : mem) (mem1 mem2 : Z) : Z := MR_CMP (OR_GET_DATE m mem1) (OR_GET_DATE m mem2).

(** The next operation if the last one succeeded. *)
Definition if_ok (r : Z * OR_BUF) (f : OR_BUF -> Z * OR_BUF) : Z * OR_BUF :=
  let '(rc, buf) := r in if rc =? NO_ERROR then f buf else (rc, buf).

(** Reading one field after another; the fields read so far when one fails. *)
Definition get_then {A B C} (f : OR_BUF -> Z * A * OR_BUF) (g : OR_BUF -> Z * B * OR_BUF)
    (mk : A -> B -> C) (none : B) (buf : OR_BUF) : Z * C * OR_BUF :=
  let '(rc, a, buf) := f buf in
  if rc =? NO_ERROR then let '(rc, b, buf) := g buf in (rc, mk a b, buf) else (rc, mk a none, buf).

Definition mr_data_writeval_datetime (buf : OR_BUF) (dt : DB_DATETIME) : Z * OR_BUF := or_put_datetime buf dt.
Definition mr_data_readval_datetime (value : bool) : OR_BUF -> READ :=
  read_fixed value or_get_datetime VDatetime OR_DATETIME_SIZE.
Definition mr_index_writeval_datetime (buf : OR_BUF) (dt : DB_DATETIME) : Z * OR_BUF :=
  if_ok (put_native 4 (dt_date dt) buf) (put_native 4 (dt_time dt)).
Definition mr_index_readval_datetime (value : bool) : OR_BUF -> READ :=
  read_fixed value (get_then (get_native 4 (uwrap 32)) (get_native 4 (uwrap 32)) mkDatetime 0)
    VDatetime OR_DATETIME_SIZE.
Definition copy_datetime (m : mem) (p : Z) : DB_DATETIME :=
  mkDatetime (copymem 4 (uwrap 32) m (p + OR_DATETIME_DATE)) (copymem 4 (uwrap 32) m (p + OR_DATETIME_TIME)).
Definition mr_index_cmpdisk_datetime (m : mem) (mem1 mem2 : Z) : Z :=
  if mem1 =? mem2 then DB_EQ else MR_CMP_datetime (copy_datetime m mem1) (copy_datetime m mem2).
Definition mr_data_cmpdisk_datetime (m : mem) (mem1 mem2 : Z) : Z :=
  if mem1 =? mem2 then DB_EQ else MR_CMP_datetime (OR_GET_DATETIME m mem1) (OR_GET_DATETIME m mem2).

(** *** Object identifiers *)

(** [oid] is the data of a value that is not null. *)
Definition mr_data_writeval_oid (buf : OR_BUF) (oid : OID) : Z * OR_BUF := or_put_oid buf (Some oid).

(** When there is not enough data the value is made of an uninitialised OID. *)
Definition mr_data_readval_oid (value : bool) (buf : OR_BUF) : READ :=
  if negb value then let '(rc, buf) := or_advance buf OR_OID_SIZE in Some (rc, None, buf)
  else
    let '(rc, oid, buf) := or_get_oid buf in
    if rc =? NO_ERROR then Some (rc, Some (db_make_oid oid), buf) else None.
Definition mr_index_writeval_oid (buf : OR_BUF) (oid : OID) : Z * OR_BUF :=
  if_ok (if_ok (if_ok (put_native 4 (o_pageid oid) buf) (put_native 2 (o_slotid oid)))
           (put_native 2 (o_volid oid))) (put_native 4 (o_groupid oid)).
Definition get_native_oid : OR_BUF -> Z * OID * OR_BUF :=
  get_then (get_then (get_then (get_native 4 (swrap 32)) (get_native 2 (swrap 16)) (fun p s => (p, s)) 0)
              (get_native 2 (swrap 16)) (fun ps v => (ps, v)) 0)
    (get_native 4 (swrap 32)) (fun '(p, s, v) g => mkOid p s v g) 0.
Definition mr_index_readval_oid (value : bool) : OR_BUF -> READ :=
  read_fixed value get_native_oid db_make_oid OR_OID_SIZE.

(** The group is not copied, and oid_compare does not look at it. *)
Definition copy_oid (m : mem) (p : Z) : OID :=
  mkOid (copymem 4 (swrap 32) m (p + OR_OID_PAGEID)) (copymem 2 (swrap 16) m (p + OR_OID_SLOTID))
    (copymem 2 (swrap 16) m (p + OR_OID_VOLID)) 0.
Definition mr_index_cmpdisk_oid (m : mem) (mem1 mem2 : Z) : Z :=
  MR_CMP_RETURN_CODE (oid_compare (copy_oid m mem1) (copy_oid m mem2)).
Definition mr_data_cmpdisk_oid (m : mem) (mem1 mem2 : Z) : Z :=
  MR_CMP_RETURN_CODE (oid_compare (OR_GET_OID m mem1) (OR_GET_OID m mem2)).

(** *** Numbers *)

Definition OR_NUMERIC_SIZE : Z := 16.

Definition mr_data_lengthval_numeric : Z := OR_NUMERIC_SIZE.
Definition mr_data_writeval_numeric (buf : OR_BUF) (v : DB_VALUE) : Z * OR_BUF :=
  or_put_data buf (num v) OR_NUMERIC_SIZE.

(** db_make_numeric, whose status is not looked at. *)
Definition make_numeric_value (n : NUM) (prec scal : Z) : VALUE :=
  let '(_, v) := db_make_numeric n prec scal in if is_null v then VNull else VNumeric v.

Definition mr_data_readval_numeric_internal (value : bool) (prec scal size : Z) (buf : OR_BUF) : READ :=
  let size := if size =? -1 then OR_NUMERIC_SIZE else size in
  let size := if size =? 1 then OR_NUMERIC_SIZE else size in
  if negb value then
    if negb (size =? 0) then let '(rc, buf) := or_advance buf size in Some (rc, None, buf)
    else Some (NO_ERROR, None, buf)
  else
    let v := make_numeric_value (load_bytes (or_mem buf) (or_ptr buf) 16) prec scal in
    let '(rc, buf) := or_advance buf size in Some (rc, Some v, buf).

Definition compare_numeric (v1 v2 : DB_VALUE) : Z :=
  let '(rc, answer) := numeric_db_value_compare (Some v1) (Some v2) in
  if negb (rc =? NO_ERROR) then DB_UNK else MR_CMP_RETURN_CODE (int answer).

(** The values are read with the precision and the scale of the domain; those
    that db_make_numeric refuses are null and not compared. *)
Definition mr_data_cmpdisk_numeric_internal (m : mem) (mem1 mem2 prec scal : Z) : Z :=
  match make_numeric_value (load_bytes m mem1 16) prec scal, make_numeric_value (load_bytes m mem2 16) prec scal with
  | VNumeric v1, VNumeric v2 => compare_numeric v1 v2
  | _, _ => DB_UNK
  end.

(** *** Strings *)

Definition mr_lengthval_string_internal (str : list Z) (disk : bool) (align : Z) : Z :=
  let len := Z.of_nat (length str) in
  if negb disk then len
  else if align =? INT_ALIGNMENT then or_packed_varchar_length len else or_varchar_length len.

Definition mr_writeval_string_internal (buf : OR_BUF) (str : list Z) (align : Z) : Z * OR_BUF :=
  let src_length := Z.of_nat (length str) in
  if align =? INT_ALIGNMENT then or_packed_put_varchar buf str src_length
  else or_put_varchar buf str src_length.

(** The pad behind a string in an area of fixed size, which starts at [start]. *)
Definition advance_pad (size start : Z) (buf : OR_BUF) : Z * OR_BUF :=
  if size =? -1 then (NO_ERROR, buf)
  else
    let pad := size - (or_ptr buf - start) in
    if pad >? 0 then or_advance buf pad else (NO_ERROR, buf).

(** [copy] asks for a copy of the string, for which [alloc] says whether there
    is memory; [net] is the uninitialised variable of or_get_varchar_length.
    or_abort does nothing in a buffer without a jump environment. *)
Definition mr_readval_string_internal (net : Z) (value copy alloc : bool) (prec coll size align : Z)
    (buf : OR_BUF) : READ :=
  if negb value then
    if size =? -1 then let '(rc, buf) := or_skip_varchar net buf align in Some (rc, None, buf)
    else if negb (size =? 0) then let '(rc, buf) := or_advance buf size in Some (rc, None, buf)
    else Some (NO_ERROR, None, buf)
  else if negb copy then
    let '(rc, str_length, buf) := or_get_varchar_length net buf in
    if negb (rc =? NO_ERROR) then Some (rc, None, buf)
    else if str_length <? 0 then None
    else
      let str := load_bytes (or_mem buf) (or_ptr buf) (Z.to_nat str_length) in
      let '(rc, buf) := or_skip_varchar_remainder buf str_length align in
      Some (rc, Some (db_make_varchar prec str coll), buf)
  else if size =? 0 then Some (NO_ERROR, Some VNull, buf)
  else
    let start := or_ptr buf in
    let '(rc, str_length, buf) := or_get_varchar_length net buf in
    if negb (rc =? NO_ERROR) then Some (ER_FAILED, None, buf)
    else if (str_length <? 0) || (str_length =? DB_INT32_MAX) then None
    else if negb alloc then Some (ER_FAILED, Some VNull, buf)
    else
      let '(rc, bs, buf) :=
        or_get_data buf (if align =? INT_ALIGNMENT then str_length + 1 else str_length) in
      let '(rc, buf) := if (rc =? NO_ERROR) && (align =? INT_ALIGNMENT) then or_get_align32 buf else (rc, buf) in
      if negb (rc =? NO_ERROR) then Some (ER_FAILED, None, buf)
      else
        let v := db_make_varchar prec (take (Z.to_nat str_length) bs) coll in
        let '(rc, buf) := advance_pad size start buf in Some (rc, Some v, buf).

(** A buffer of length 0 has no end, so that the length is always read. *)
Definition mr_data_cmpdisk_string_internal (m : mem) (mem1 mem2 coll : Z) : option Z :=
  let str_length1 := OR_GET_BYTE m mem1 in
  let str_length2 := OR_GET_BYTE m mem2 in
  if (str_length1 <? 255) && (str_length2 <? 255) then
    Some (MR_CMP_RETURN_CODE (QSTR_COMPARE coll (load_bytes m (mem1 + OR_BYTE_SIZE) (Z.to_nat str_length1))
                                (load_bytes m (mem2 + OR_BYTE_SIZE) (Z.to_nat str_length2))))
  else
    let '(rc, str_length1, buf1) := or_get_varchar_length 0 (or_init m mem1 0) in
    if negb (rc =? NO_ERROR) then Some DB_UNK
    else
      let '(rc, str_length2, buf2) := or_get_varchar_length 0 (or_init m mem2 0) in
      if negb (rc =? NO_ERROR) then Some DB_UNK
      else if (str_length1 <? 0) || (str_length2 <? 0) then None
      else
        Some (MR_CMP_RETURN_CODE (QSTR_COMPARE coll (load_bytes m (or_ptr buf1) (Z.to_nat str_length1))
                                    (load_bytes m (or_ptr buf2) (Z.to_nat str_length2)))).

(** *** Bit strings *)

Definition mr_lengthval_varbit_internal (bit_length align : Z) : Z :=
  if align =? INT_ALIGNMENT then or_packed_varbit_length bit_length else or_varbit_length bit_length.

Definition mr_writeval_varbit_internal (buf : OR_BUF) (bits : Z) (str : list Z) (align : Z) : Z * OR_BUF :=
  if align =? INT_ALIGNMENT then or_packed_put_varbit buf str bits else or_put_varbit buf str bits.

Definition mr_readval_varbit_internal (value copy alloc : bool) (prec size align : Z) (buf : OR_BUF) : READ :=
  if negb value then
    if size =? -1 then let '(rc, buf) := or_skip_varbit buf align in Some (rc, None, buf)
    else if negb (size =? 0) then let '(rc, buf) := or_advance buf size in Some (rc, None, buf)
    else Some (NO_ERROR, None, buf)
  else if negb copy then
    let '(rc, str_bit_length, buf) := or_get_varbit_length buf in
    if negb (rc =? NO_ERROR) then Some (rc, None, buf)
    else if str_bit_length <? 0 then None
    else
      let str := load_bytes (or_mem buf) (or_ptr buf) (Z.to_nat (BITS_TO_BYTES str_bit_length)) in
      let '(rc, buf) := or_skip_varbit_remainder buf str_bit_length align in
      Some (rc, Some (db_make_varbit prec str str_bit_length), buf)
  else if size =? 0 then Some (NO_ERROR, Some VNull, buf)
  else
    let start := or_ptr buf in
    let '(rc, str_bit_length, buf) := or_get_varbit_length buf in
    if negb (rc =? NO_ERROR) then Some (ER_FAILED, None, buf)
    else if str_bit_length <? 0 then None
    else if negb alloc then Some (ER_FAILED, Some VNull, buf)
    else
      let '(rc, str, buf) := or_get_data buf (BITS_TO_BYTES str_bit_length) in
      let '(rc, buf) := if (rc =? NO_ERROR) && (align =? INT_ALIGNMENT) then or_get_align32 buf else (rc, buf) in
      if negb (rc =? NO_ERROR) then Some (ER_FAILED, None, buf)
      else
        let v := db_make_varbit prec str str_bit_length in
        let '(rc, buf) := advance_pad size start buf in Some (rc, Some v, buf).

Definition mr_data_cmpdisk_varbit (m : mem) (mem1 mem2 : Z) : option Z :=
  let '(_, bit_length1, buf1) := or_get_varbit_length (or_init m mem1 0) in
  let '(_, bit_length2, buf2) := or_get_varbit_length (or_init m mem2 0) in
  if (bit_length1 <? 0) || (bit_length2 <? 0) then None
  else
    Some (MR_CMP_RETURN_CODE (varbit_compare (load_bytes m (or_ptr buf1) (Z.to_nat (BITS_TO_BYTES bit_length1)))
                                (load_bytes m (or_ptr buf2) (Z.to_nat (BITS_TO_BYTES bit_length2))))).

(** ** The functions of the types *)

(** A column of a table: the type and the domain of its values. *)
Record COLUMN := mkColumn {
  col_type : DB_TYPE;
  col_precision : Z;
  col_scale : Z;
  col_collation : Z }.

(** index_writeval through tp_Type_id_map; None for the types that are no
    index types here. *)
Definition index_writeval (v : VALUE) (buf : OR_BUF) : option (Z * OR_BUF) :=
  match v with
  | VInteger i => Some (mr_index_writeval_int buf i)
  | VBigint bi => Some (mr_index_writeval_bigint buf bi)
  | VDouble d => Some (mr_index_writeval_double buf d)
  | VTime t => Some (mr_index_writeval_time buf t)
  | VDate d => Some (mr_index_writeval_date buf d)
  | VDatetime dt => Some (mr_index_writeval_datetime buf dt)
  | VNumeric v => Some (mr_data_writeval_numeric buf v)
  | VVarchar _ str _ => Some (mr_writeval_string_internal buf str CHAR_ALIGNMENT)
  | VVarbit _ bits str => Some (mr_writeval_varbit_internal buf bits str CHAR_ALIGNMENT)
  | VOid oid => Some (mr_index_writeval_oid buf oid)
  | VNull => None
  end.

Definition data_writeval (v : VALUE) (buf : OR_BUF) : option (Z * OR_BUF) :=
  match v with
  | VInteger i => Some (mr_data_writeval_int buf i)
  | VBigint bi => Some (mr_data_writeval_bigint buf bi)
  | VDouble d => Some (mr_data_writeval_double buf d)
  | VTime t => Some (mr_data_writeval_time buf t)
  | VDate d => Some (mr_data_writeval_date buf d)
  | VDatetime dt => Some (mr_data_writeval_datetime buf dt)
  | VNumeric v => Some (mr_data_writeval_numeric buf v)
  | VVarchar _ str _ => Some (mr_writeval_string_internal buf str INT_ALIGNMENT)
  | VVarbit _ bits str => Some (mr_writeval_varbit_internal buf bits str INT_ALIGNMENT)
  | VOid oid => Some (mr_data_writeval_oid buf oid)
  | VNull => None
  end.

(** [net], [copy] and [alloc] as above; [size] is -1 where the caller does not
    know it. *)
Definition index_readval (net : Z) (value copy alloc : bool) (c : COLUMN) (size : Z) (buf : OR_BUF) : READ :=
  match col_type c with
  | DB_TYPE_INTEGER => mr_index_readval_int value buf
  | DB_TYPE_BIGINT => mr_index_readval_bigint value buf
  | DB_TYPE_DOUBLE => mr_index_readval_double value buf
  | DB_TYPE_TIME => mr_index_readval_time value buf
  | DB_TYPE_DATE => mr_index_readval_date value buf
  | DB_TYPE_DATETIME => mr_index_readval_datetime value buf
  | DB_TYPE_NUMERIC => mr_data_readval_numeric_internal value (col_precision c) (col_scale c) size buf
  | DB_TYPE_VARCHAR =>
      mr_readval_string_internal net value copy alloc (col_precision c) (col_collation c) size CHAR_ALIGNMENT buf
  | DB_TYPE_VARBIT => mr_readval_varbit_internal value copy alloc (col_precision c) size CHAR_ALIGNMENT buf
  | DB_TYPE_OID => mr_index_readval_oid value buf
  | _ => None
  end.

Definition data_readval (net : Z) (value copy alloc : bool) (c : COLUMN) (size : Z) (buf : OR_BUF) : READ :=
  match col_type c with
  | DB_TYPE_INTEGER => mr_data_readval_int value buf
  | DB_TYPE_BIGINT => mr_data_readval_bigint value buf
  | DB_TYPE_DOUBLE => mr_data_readval_double value buf
  | DB_TYPE_TIME => mr_data_readval_time value buf
  | DB_TYPE_DATE => mr_data_readval_date value buf
  | DB_TYPE_DATETIME => mr_data_readval_datetime value buf
  | DB_TYPE_NUMERIC => mr_data_readval_numeric_internal value (col_precision c) (col_scale c) size buf
  | DB_TYPE_VARCHAR =>
      mr_readval_string_internal net value copy alloc (col_precision c) (col_collation c) size INT_ALIGNMENT buf
  | DB_TYPE_VARBIT => mr_readval_varbit_internal value copy alloc (col_precision c) size INT_ALIGNMENT buf
  | DB_TYPE_OID => mr_data_readval_oid value buf
  | _ => None
  end.

Definition pr_index_writeval_disk_size (v : VALUE) : Z :=
  match v with
  | VNull => 0
  | VInteger _ => 4
  | VBigint _ | VDouble _ => 8
  | VTime _ => OR_TIME_SIZE
  | VDate _ => OR_DATE_SIZE
  | VDatetime _ => OR_DATETIME_SIZE
  | VNumeric _ => mr_data_lengthval_numeric
  | VVarchar _ str _ => mr_lengthval_string_internal str true CHAR_ALIGNMENT
  | VVarbit _ bits _ => mr_lengthval_varbit_internal bits CHAR_ALIGNMENT
  | VOid _ => OR_OID_SIZE
  end.

Definition pr_data_writeval_disk_size (v : VALUE) : Z :=
  match v with
  | VNull => 0
  | VInteger _ => 4
  | VBigint _ | VDouble _ => 8
  | VTime _ => OR_TIME_SIZE
  | VDate _ => OR_DATE_SIZE
  | VDatetime _ => OR_DATETIME_SIZE
  | VNumeric _ => mr_data_lengthval_numeric
  | VVarchar _ str _ => mr_lengthval_string_internal str true INT_ALIGNMENT
  | VVarbit _ bits _ => mr_lengthval_varbit_internal bits INT_ALIGNMENT
  | VOid _ => OR_OID_SIZE
  end.

(** *** Comparison *)

Definition mr_cmpval_int (i1 i2 : Z) : Z := MR_CMP i1 i2.
Definition mr_cmpval_bigint (i1 i2 : Z) : Z := MR_CMP i1 i2.
Definition mr_cmpval_double (d1 d2 : Z) : Z := MR_CMP_double d1 d2.
Definition mr_cmpval_time (t1 t2 : Z) : Z := MR_CMP t1 t2.
Definition mr_cmpval_date (d1 d2 : Z) : Z := MR_CMP d1 d2.
Definition mr_cmpval_datetime (dt1 dt2 : DB_DATETIME) : Z := MR_CMP_datetime dt1 dt2.
Definition mr_cmpval_numeric (v1 v2 : DB_VALUE) : Z := compare_numeric v1 v2.
Definition mr_cmpval_string (string1 string2 : list Z) (collation : Z) : Z :=
  if collation =? -1 then DB_UNK else MR_CMP_RETURN_CODE (QSTR_COMPARE collation string1 string2).
Definition mr_cmpval_varbit (string1 string2 : list Z) : Z := MR_CMP_RETURN_CODE (varbit_compare string1 string2).
Definition mr_cmpval_oid (oid1 oid2 : OID) : Z := MR_CMP_RETURN_CODE (oid_compare oid1 oid2).

(** cmpval of the type that the two values have. *)
Definition cmpval (v1 v2 : VALUE) (collation : Z) : Z :=
  match v1, v2 with
  | VInteger i1, VInteger i2 => mr_cmpval_int i1 i2
  | VBigint i1, VBigint i2 => mr_cmpval_bigint i1 i2
  | VDouble d1, VDouble d2 => mr_cmpval_double d1 d2
  | VTime t1, VTime t2 => mr_cmpval_time t1 t2
  | VDate d1, VDate d2 => mr_cmpval_date d1 d2
  | VDatetime dt1, VDatetime dt2 => mr_cmpval_datetime dt1 dt2
  | VNumeric v1, VNumeric v2 => mr_cmpval_numeric v1 v2
  | VVarchar _ s1 _, VVarchar _ s2 _ => mr_cmpval_string s1 s2 collation
  | VVarbit _ _ s1, VVarbit _ _ s2 => mr_cmpval_varbit s1 s2
  | VOid oid1, VOid oid2 => mr_cmpval_oid oid1 oid2
  | _, _ => DB_UNK
  end.

(** index_cmpdisk and data_cmpdisk of the type of a column. *)
Definition index_cmpdisk (c : COLUMN) (m : mem) (mem1 mem2 : Z) : option Z :=
  match col_type c with
  | DB_TYPE_INTEGER => Some (mr_index_cmpdisk_int m mem1 mem2)
  | DB_TYPE_BIGINT => Some (mr_index_cmpdisk_bigint m mem1 mem2)
  | DB_TYPE_DOUBLE => Some (mr_index_cmpdisk_double m mem1 mem2)
  | DB_TYPE_TIME => Some (mr_index_cmpdisk_time m mem1 mem2)
  | DB_TYPE_DATE => Some (mr_index_cmpdisk_date m mem1 mem2)
  | DB_TYPE_DATETIME => Some (mr_index_cmpdisk_datetime m mem1 mem2)
  | DB_TYPE_NUMERIC => Some (mr_data_cmpdisk_numeric_internal m mem1 mem2 (col_precision c) (col_scale c))
  | DB_TYPE_VARCHAR => mr_data_cmpdisk_string_internal m mem1 mem2 (col_collation c)
  | DB_TYPE_VARBIT => mr_data_cmpdisk_varbit m mem1 mem2
  | DB_TYPE_OID => Some (mr_index_cmpdisk_oid m mem1 mem2)
  | _ => None
  end.

Definition data_cmpdisk (c : COLUMN) (m : mem) (mem1 mem2 : Z) : option Z :=
  match col_type c with
  | DB_TYPE_INTEGER => Some (mr_data_cmpdisk_int m mem1 mem2)
  | DB_TYPE_BIGINT => Some (mr_data_cmpdisk_bigint m mem1 mem2)
  | DB_TYPE_DOUBLE => Some (mr_data_cmpdisk_double m mem1 mem2)
  | DB_TYPE_TIME => Some (mr_data_cmpdisk_time m mem1 mem2)
  | DB_TYPE_DATE => Some (mr_data_cmpdisk_date m mem1 mem2)
  | DB_TYPE_DATETIME => Some (mr_data_cmpdisk_datetime m mem1 mem2)
  | DB_TYPE_NUMERIC => Some (mr_data_cmpdisk_numeric_internal m mem1 mem2 (col_precision c) (col_scale c))
  | DB_TYPE_VARCHAR => mr_data_cmpdisk_string_internal m mem1 mem2 (col_collation c)
  | DB_TYPE_VARBIT => mr_data_cmpdisk_varbit m mem1 mem2
  | DB_TYPE_OID => Some (mr_data_cmpdisk_oid m mem1 mem2)
  | _ => None
  end.

(** The position of a type in db_type_rank, 0 for those that are not there. *)
Definition rank (t : DB_TYPE) : Z :=
  match t with
  | DB_TYPE_INTEGER => 1 | DB_TYPE_BIGINT => 2 | DB_TYPE_NUMERIC => 3 | DB_TYPE_DOUBLE => 4
  | DB_TYPE_SEQUENCE => 5 | DB_TYPE_TIME => 6 | DB_TYPE_DATE => 7 | DB_TYPE_DATETIME => 8
  | DB_TYPE_OID => 9 | DB_TYPE_OBJECT => 10 | DB_TYPE_VARCHAR => 11 | DB_TYPE_VARBIT => 12
  | DB_TYPE_VARIABLE => 13 | DB_TYPE_SUB => 14
  | _ => 0
  end.
Definition tp_more_general_type (type1 type2 : DB_TYPE) : Z :=
  if decide (type1 = type2) then 0 else rank type1 - rank type2.

Definition ARE_COMPARABLE (typ1 typ2 : DB_TYPE) : bool :=
  bool_decide (typ1 = typ2) && negb (bool_decide (typ1 = DB_TYPE_VARBIT) || bool_decide (typ2 = DB_TYPE_VARBIT)).

(** The collation of a string value. *)
Definition DB_GET_STRING_COLLATION (v : VALUE) : Z := match v with VVarchar _ _ coll => coll | _ => 0 end.

Definition TP_IS_CHAR_TYPE (t : DB_TYPE) : bool := bool_decide (t = DB_TYPE_VARCHAR).
Definition TP_IS_NUMERIC_TYPE (t : DB_TYPE) : bool :=
  match t with DB_TYPE_INTEGER | DB_TYPE_DOUBLE | DB_TYPE_NUMERIC | DB_TYPE_BIGINT => true | _ => false end.
Definition TP_IS_DATE_OR_TIME_TYPE (t : DB_TYPE) : bool :=
  match t with DB_TYPE_TIME | DB_TYPE_DATE | DB_TYPE_DATETIME => true | _ => false end.

(** The conversion of a value to the default domain of a type, with another
    collation if one is given: the converted value, or None if the status is
    not DOMAIN_COMPATIBLE.  The conversions are not modelled. *)
Class TP_COERCE : Type := tp_value_coerce : VALUE -> DB_TYPE -> option Z -> option VALUE.

(** The values that are compared in the place of two values of different
    types; a value that cannot be converted stays as it is. *)
Definition coerce_values `{Co : TP_COERCE} (v1 v2 : VALUE) : VALUE * VALUE :=
  let vtype1 := DB_VALUE_DOMAIN_TYPE v1 in
  let vtype2 := DB_VALUE_DOMAIN_TYPE v2 in
  let to_double v t := if bool_decide (t = DB_TYPE_DOUBLE) then v else default v (tp_value_coerce v DB_TYPE_DOUBLE None) in
  if TP_IS_CHAR_TYPE vtype1 && TP_IS_NUMERIC_TYPE vtype2 then
    match tp_value_coerce v1 DB_TYPE_DOUBLE None with
    | Some temp1 => (temp1, to_double v2 vtype2)
    | None => (v1, v2)
    end
  else if TP_IS_NUMERIC_TYPE vtype1 && TP_IS_CHAR_TYPE vtype2 then
    match tp_value_coerce v2 DB_TYPE_DOUBLE None with
    | Some temp2 => (to_double v1 vtype1, temp2)
    | None => (v1, v2)
    end
  else if TP_IS_CHAR_TYPE vtype1 && TP_IS_DATE_OR_TIME_TYPE vtype2 then
    (default v1 (tp_value_coerce v1 vtype2 None), v2)
  else if TP_IS_DATE_OR_TIME_TYPE vtype1 && TP_IS_CHAR_TYPE vtype2 then
    (v1, default v2 (tp_value_coerce v2 vtype1 None))
  else
    let collation v := if TP_IS_CHAR_TYPE vtype1 && TP_IS_CHAR_TYPE vtype2 then Some (DB_GET_STRING_COLLATION v) else None in
    if tp_more_general_type vtype1 vtype2 >? 0
    then (v1, default v2 (tp_value_coerce v2 vtype1 (collation v2)))
    else (default v1 (tp_value_coerce v1 vtype2 (collation v1)), v2).

(** The comparison of the values after a conversion: the result and
    can_compare. *)
Definition compare_values (v1 v2 : VALUE) : Z * bool :=
  let vtype1 := DB_VALUE_DOMAIN_TYPE v1 in
  let vtype2 := DB_VALUE_DOMAIN_TYPE v2 in
  if negb (ARE_COMPARABLE vtype1 vtype2)
  then (if tp_more_general_type vtype1 vtype2 >? 0 then DB_GT else DB_LT, false)
  else
    let common_coll :=
      if negb (TP_IS_CHAR_TYPE vtype1) then 0
      else LANG_RT_COMMON_COLL (DB_GET_STRING_COLLATION v1) (DB_GET_STRING_COLLATION v2) in
    if common_coll =? -1 then (DB_UNK, false) else (cmpval v1 v2 common_coll, true).

(** The result and can_compare. *)
Definition tp_value_compare `{Co : TP_COERCE} (v1 v2 : VALUE) (do_coercion total_order : bool) : Z * bool :=
  match VALUE_IS_NULL v1, VALUE_IS_NULL v2 with
  | true, true => (if total_order then DB_EQ else DB_UNK, true)
  | true, false => (if total_order then DB_LT else DB_UNK, true)
  | false, true => (if total_order then DB_GT else DB_UNK, true)
  | false, false =>
      let vtype1 := DB_VALUE_DOMAIN_TYPE v1 in
      let vtype2 := DB_VALUE_DOMAIN_TYPE v2 in
      if negb (bool_decide (vtype1 = vtype2)) then
        if bool_decide (vtype1 = DB_TYPE_OBJECT) || bool_decide (vtype2 = DB_TYPE_OBJECT) then (DB_UNK, true)
        else if do_coercion && negb (ARE_COMPARABLE vtype1 vtype2) then
          let '(v1, v2) := coerce_values v1 v2 in compare_values v1 v2
        else compare_values v1 v2
      else compare_values v1 v2
  end.

(** *** Copies *)

(** setval with a copy of the data; [alloc] says whether there is memory for a
    string.  The status of setval is not looked at. *)
Definition pr_clone_value (alloc : bool) (src : VALUE) : Z * VALUE :=
  (NO_ERROR,
   match src with
   | VVarchar prec str coll => if alloc then db_make_varchar prec str coll else VNull
   | VVarbit prec bits str => if alloc then db_make_varbit prec str bits else VNull
   | VOid oid => db_make_oid oid
   | VNumeric v => make_numeric_value (num v) (precision v) (scale v)
   | v => v
   end).

Definition tp_valid_indextype (t : DB_TYPE) : bool :=
  match t with
  | DB_TYPE_INTEGER | DB_TYPE_DOUBLE | DB_TYPE_VARCHAR | DB_TYPE_TIME | DB_TYPE_DATETIME | DB_TYPE_DATE
  | DB_TYPE_BIGINT | DB_TYPE_OID | DB_TYPE_NUMERIC => true
  | _ => false
  end.
