(* ===== verification/PrimitiveDisk.v ===== *)
(** * Values on disk

    What the functions of the primitive types write, and that reading it gives
    the value back: in the format of index records and in that of heap records,
    with and without a copy of the string, and when the value is skipped. *)
From Stdlib Require Import ZArith Lia ZifyBool.
From stdpp Require Import base list numbers.
From S2P Require Import Prelude StorageCommon Dates Numeric NumericValue NumericArith NumericOps.
From S2P Require Import OrBuf OrBufSpec Collation Primitive.

(** ** Values of a column *)

Definition oid_fits (oid : OID) : Prop :=
  oid_ok oid /\ - 2 ^ 31 <= o_groupid oid < 2 ^ 31.

(** A value that is not null and belongs to the domain of the column. *)
Definition value_ok (c : COLUMN) (v : VALUE) : Prop :=
  col_type c = DB_VALUE_DOMAIN_TYPE v /\
  match v with
  | VNull => False
  | VInteger i => - 2 ^ 31 <= i < 2 ^ 31
  | VBigint bi => - 2 ^ 63 <= bi < 2 ^ 63
  | VDouble d => 0 <= d < 2 ^ 64
  | VTime t | VDate t => 0 <= t < 2 ^ 32
  | VDatetime dt => 0 <= dt_date dt < 2 ^ 32 /\ 0 <= dt_time dt < 2 ^ 32
  | VNumeric v =>
      exists n, v = mkValue false DB_TYPE_NUMERIC (col_precision c) (col_scale c) n 0
        /\ is_num 16 n /\ in_domain (col_precision c) (col_scale c) (snum n)
  | VVarchar prec str coll =>
      v = db_make_varchar (col_precision c) str (col_collation c) /\ is_bytes str /\ zlen str < 2 ^ 31 - 1
  | VVarbit prec bits str =>
      v = db_make_varbit (col_precision c) str bits /\ is_bytes str /\ 0 <= bits < 2 ^ 31 - 7
      /\ zlen str = BITS_TO_BYTES bits
  | VOid oid => oid_fits oid
  end.

(** ** The encodings *)

Definition index_bytes (v : VALUE) : list Z :=
  match v with
  | VNull => []
  | VInteger i => le_bytes 4 i
  | VBigint bi => le_bytes 8 bi
  | VDouble d => le_bytes 8 d
  | VTime t => le_bytes 4 t
  | VDate d => le_bytes 4 d
  | VDatetime dt => le_bytes 4 (dt_date dt) ++ le_bytes 4 (dt_time dt)
  | VNumeric v => num v
  | VVarchar _ str _ => prefix_bytes (zlen str) ++ str
  | VVarbit _ bits str => prefix_bytes bits ++ str
  | VOid oid => le_bytes 4 (o_pageid oid) ++ le_bytes 2 (o_slotid oid) ++ le_bytes 2 (o_volid oid)
                ++ le_bytes 4 (o_groupid oid)
  end.

Definition data_bytes (v : VALUE) (p : Z) : list Z :=
  match v with
  | VNull => []
  | VInteger i => be_bytes 4 i
  | VBigint bi => be_bytes 8 bi
  | VDouble d => be_bytes 8 d
  | VTime t => be_bytes 4 t
  | VDate d => be_bytes 4 d
  | VDatetime dt => datetime_bytes dt
  | VNumeric v => num v
  | VVarchar _ str _ => varchar_bytes INT_ALIGNMENT str p
  | VVarbit _ bits str => varbit_bytes INT_ALIGNMENT bits str p
  | VOid oid => oid_bytes oid
  end.

(** ** Writing *)

Lemma zlen_le n w : zlen (le_bytes n w) = Z.of_nat n.
Proof. unfold zlen. by rewrite length_le_bytes. Qed.

Lemma writes_native n x : Z.of_nat n < 2 ^ 64 -> writes (put_native n x) (fun _ => le_bytes n x).
Proof.
  intros H. unfold put_native. rewrite <- (zlen_le n x). apply writes_bytes. by rewrite zlen_le.
Qed.

Lemma writes_if_ok f g e1 e2 :
  writes f e1 -> writes g e2 ->
  writes (fun buf => if_ok (f buf) g) (fun p => e1 p ++ e2 (p + zlen (e1 p))).
Proof.
  intros Hf Hg. eapply writes_ext; [apply (writes_then f g e1 e2 Hf Hg)| |done].
  intros buf. unfold if_ok, andthen. destruct (f buf) as [rc b]. by destruct (rc =? NO_ERROR).
Qed.

(** The function that writes a value, and its encoding. *)
Definition writes_value (f : VALUE -> OR_BUF -> option (Z * OR_BUF)) (v : VALUE) (e : Z -> list Z) : Prop :=
  exists g, (forall buf, f v buf = Some (g buf)) /\ writes g e.

Lemma index_writes c v : value_ok c v -> writes_value index_writeval v (fun _ => index_bytes v).
Proof.
  intros [_ H].
  destruct v as [|i|bi|d|t|d|[date time]|v|prec str coll|prec bits str|oid]; cbn in H; [done|..];
    (eexists; split; [intros; cbn [index_writeval]; reflexivity|]); cbn [index_bytes].
  - by apply (writes_native 4).
  - by apply (writes_native 8).
  - by apply (writes_native 8).
  - by apply (writes_native 4).
  - by apply (writes_native 4).
  - apply (writes_if_ok (put_native 4 date) (put_native 4 time) (fun _ => le_bytes 4 date)
      (fun _ => le_bytes 4 time)); by apply writes_native.
  - destruct H as (n & -> & Hn & _). unfold mr_data_writeval_numeric. cbn [num].
    replace OR_NUMERIC_SIZE with (zlen n); [apply writes_bytes|]; unfold zlen; rewrite (proj2 Hn); done.
  - destruct H as (_ & _ & Hl). eapply writes_ext; [apply (writes_varchar CHAR_ALIGNMENT str); lia|done|].
    intros p. unfold varchar_bytes. cbn. by rewrite app_nil_r.
  - destruct H as (_ & _ & Hb & Hl). eapply writes_ext; [apply (writes_varbit CHAR_ALIGNMENT bits str)|done|].
    + lia.
    + done.
    + rewrite Hl. unfold BITS_TO_BYTES. rewrite Z.quot_div_nonneg by lia. dlia.
    + intros p. unfold varbit_bytes. cbn. by rewrite app_nil_r.
  - eapply writes_ext; [|intros buf; unfold mr_index_writeval_oid; reflexivity|].
    + eapply writes_if_ok; [|by apply (writes_native 4)]. eapply writes_if_ok; [|by apply (writes_native 2)].
      eapply writes_if_ok; [by apply (writes_native 4)|by apply (writes_native 2)].
    + intros p. cbn beta. by rewrite <- !app_assoc.
Qed.

Lemma data_writes c v : value_ok c v -> writes_value data_writeval v (data_bytes v).
Proof.
  intros [_ H].
  destruct v as [|i|bi|d|t|d|dt|v|prec str coll|prec bits str|oid]; cbn in H; [done|..];
    (eexists; split; [intros; cbn [data_writeval]; reflexivity|]); cbn [data_bytes].
  - apply writes_int.
  - apply writes_bigint.
  - apply writes_double.
  - apply writes_int.
  - apply writes_int.
  - apply writes_datetime.
  - destruct H as (n & -> & Hn & _). unfold mr_data_writeval_numeric. cbn [num].
    replace OR_NUMERIC_SIZE with (zlen n); [apply writes_bytes|]; unfold zlen; rewrite (proj2 Hn); done.
  - destruct H as (_ & _ & Hl). apply (writes_varchar INT_ALIGNMENT str). lia.
  - destruct H as (_ & _ & Hb & Hl). apply (writes_varbit INT_ALIGNMENT bits str); [lia|done|].
    rewrite Hl. unfold BITS_TO_BYTES. rewrite Z.quot_div_nonneg by lia. dlia.
  - apply writes_oid.
Qed.

(** The sizes that are reserved are those that are written. *)
Lemma zlen_prefix n : zlen (prefix_bytes n) = if n <? 255 then 1 else 5.
Proof. unfold prefix_bytes. zcase; [done|]. by rewrite zlen_cons, zlen_be. Qed.

Lemma zlen_pad p : zlen (pad_bytes p) = (- p) mod 4.
Proof. unfold zlen, pad_bytes. rewrite length_replicate. pose proof (Z.mod_pos_bound (- p) 4). lia. Qed.

Lemma index_size c v : value_ok c v -> zlen (index_bytes v) = pr_index_writeval_disk_size v.
Proof.
  intros [_ H]. destruct v as [|i|bi|d|t|d|dt|v|prec str coll|prec bits str|oid]; cbn in H |- *;
    rewrite ?zlen_app, ?zlen_le; try done.
  - destruct H as (n & -> & Hn & _). unfold zlen. cbn. by rewrite (proj2 Hn).
  - rewrite zlen_prefix. unfold or_varchar_length, or_varchar_length_internal, zlen, OR_INT_SIZE. cbn. zcase; lia.
  - destruct H as (_ & _ & Hb & ->). rewrite zlen_prefix.
    unfold mr_lengthval_varbit_internal, or_varbit_length, or_varbit_length_internal, BITS_TO_BYTES, OR_INT_SIZE. cbn.
    zcase; lia.
Qed.

Lemma data_size c v p :
  value_ok c v -> p mod 4 = 0 -> zlen (data_bytes v p) = pr_data_writeval_disk_size v.
Proof.
  intros [_ H] Hp. destruct v as [|i|bi|d|t|d|dt|v|prec str coll|prec bits str|oid]; cbn in H |- *;
    unfold datetime_bytes, oid_bytes; rewrite ?zlen_app, ?zlen_be; try done.
  - destruct H as (n & -> & Hn & _). unfold zlen. cbn. by rewrite (proj2 Hn).
  - unfold varchar_bytes. cbn. rewrite !zlen_app, zlen_prefix, zlen_cons, zlen_pad.
    unfold or_packed_varchar_length, or_varchar_length_internal, OR_INT_SIZE. cbn -[DB_ALIGN].
    rewrite DB_ALIGN_mod by (unfold valid_alignment, INT_ALIGNMENT; lia). unfold INT_ALIGNMENT.
    fold (zlen str). zcase; dlia.
  - destruct H as (_ & _ & Hb & Hl). unfold varbit_bytes. cbn. rewrite !zlen_app, zlen_prefix, zlen_pad, Hl.
    unfold mr_lengthval_varbit_internal, or_packed_varbit_length, or_varbit_length_internal, BITS_TO_BYTES, OR_INT_SIZE.
    cbn -[DB_ALIGN Z.quot]. rewrite DB_ALIGN_mod by (unfold valid_alignment, INT_ALIGNMENT; lia). unfold INT_ALIGNMENT.
    set (q := Z.quot (bits + 7) 8). clearbody q. zcase; dlia.
Qed.

(** ** Reading *)

Lemma or_move_0 buf : or_move buf 0 = buf.
Proof. destruct buf. unfold or_move. cbn. f_equal. lia. Qed.

Lemma or_move_move buf a b : or_move (or_move buf a) b = or_move buf (a + b).
Proof. unfold or_move. cbn. f_equal. lia. Qed.

Lemma advance_ok buf n : or_ptr buf + n <= or_endptr buf -> or_advance buf n = (NO_ERROR, or_move buf n).
Proof. intros H. unfold or_advance, or_beyond. by replace (_ >? _) with false by lia. Qed.

Lemma reads_native n wrap x :
  Z.of_nat n < 2 ^ 64 -> wrap (uwrap (8 * Z.of_nat n) x) = x ->
  reads (get_native n wrap) (fun _ => le_bytes n x) x.
Proof.
  intros Hn Hx buf Hh Hb. unfold get_native. rewrite zlen_le in Hb.
  pose proof (reads_data (le_bytes n x)) as R. rewrite zlen_le in R. rewrite (R Hn buf Hh) by (by rewrite zlen_le).
  by rewrite le_value_bytes, Hx, zlen_le.
Qed.

Lemma reads_then {A B C} (f : OR_BUF -> Z * A * OR_BUF) (g : OR_BUF -> Z * B * OR_BUF) (mk : A -> B -> C) none b1 b2 x y :
  reads f (fun _ => b1) x -> reads g (fun _ => b2) y ->
  reads (get_then f g mk none) (fun _ => b1 ++ b2) (mk x y).
Proof.
  intros Hf Hg buf Hh Hb. rewrite holds_app in Hh. rewrite zlen_app in *. destruct Hh as [H1 H2].
  pose proof (zlen_nonneg b2). unfold get_then. rewrite (Hf buf) by (done || lia). cbn [Z.eqb NO_ERROR].
  rewrite (Hg (or_move buf (zlen b1))) by (done || (cbn; lia)). by rewrite or_move_move.
Qed.

(** A value of fixed size is read, or skipped. *)
Definition reads_value (f : bool -> OR_BUF -> READ) (e : Z -> list Z) (v : VALUE) : Prop :=
  forall value buf, holds (or_mem buf) (or_ptr buf) (e (or_ptr buf)) ->
  or_ptr buf + zlen (e (or_ptr buf)) <= or_endptr buf ->
  f value buf = Some (NO_ERROR, if value then Some v else None, or_move buf (zlen (e (or_ptr buf)))).

Lemma reads_fixed {A} (get : OR_BUF -> Z * A * OR_BUF) mk bs x v :
  reads get (fun _ => bs) x -> mk x = v ->
  reads_value (fun value => read_fixed value get mk (zlen bs)) (fun _ => bs) v.
Proof.
  intros Hg <- [] buf Hh Hb; unfold read_fixed; cbn [negb].
  - by rewrite (Hg buf) by done.
  - by rewrite advance_ok by done.
Qed.

Section Strings.
Context (align : Z).

(** What follows the length and the bytes of a string. *)
Definition tail_bytes (zero : bool) (p : Z) : list Z :=
  if align =? INT_ALIGNMENT then (if zero then [0] else []) ++ pad_bytes (p + if zero then 1 else 0) else [].

Lemma holds_load m p bs n : holds m p bs -> (n <= length bs)%nat -> load_bytes m p n = take n bs.
Proof.
  intros H Hn. rewrite <- H. replace (length bs) with (n + (length bs - n))%nat by lia.
  rewrite load_bytes_app, take_app_length'; [done|by rewrite length_load_bytes].
Qed.

(** The skip of a string of [n] bytes whose length has been read. *)
Lemma skip_remainder buf (zero : bool) n :
  0 <= n < 2 ^ 31 - 1 ->
  or_ptr buf + n + zlen (tail_bytes zero (or_ptr buf + n)) <= or_endptr buf ->
  (let '(rc, buf1) := or_advance buf (if (align =? INT_ALIGNMENT) && zero then n + 1 else n) in
   if (rc =? NO_ERROR) && (align =? INT_ALIGNMENT) then or_get_align32 buf1 else (rc, buf1))
  = (NO_ERROR, or_move buf (n + zlen (tail_bytes zero (or_ptr buf + n)))).
Proof.
  intros Hn. unfold tail_bytes. destruct (align =? INT_ALIGNMENT) eqn:E; cbn [andb].
  - rewrite zlen_app. set (k := if zero then 1 else 0).
    assert (zlen (if zero then [0] else []) = k) as -> by (by destruct zero).
    replace (if zero then n + 1 else n) with (n + k) by (unfold k; destruct zero; lia). intros Hb.
    pose proof (zlen_nonneg (pad_bytes (or_ptr buf + n + k))).
    rewrite advance_ok by lia. cbn [Z.eqb NO_ERROR andb].
    rewrite get_align32; cbn [or_move or_ptr or_endptr]; rewrite Z.add_assoc; [|lia].
    rewrite or_move_move. do 2 f_equal. lia.
  - rewrite Z.add_0_r. intros Hb. rewrite advance_ok by (unfold zlen in Hb; cbn in Hb; lia). cbn. do 2 f_equal.
    unfold zlen. cbn. lia.
Qed.

Lemma varchar_tail str p :
  varchar_bytes align str p
  = prefix_bytes (zlen str) ++ str ++ tail_bytes true (p + zlen (prefix_bytes (zlen str)) + zlen str).
Proof. unfold varchar_bytes, tail_bytes. by zcase. Qed.

Lemma varbit_tail bits str p :
  varbit_bytes align bits str p
  = prefix_bytes bits ++ str ++ tail_bytes false (p + zlen (prefix_bytes bits) + zlen str).
Proof. unfold varbit_bytes, tail_bytes. zcase; [|done]. cbn. by rewrite Z.add_0_r. Qed.

Lemma get_tail buf (zero : bool) str :
  zlen str < 2 ^ 31 - 1 ->
  holds (or_mem buf) (or_ptr buf) (str ++ tail_bytes zero (or_ptr buf + zlen str)) ->
  or_ptr buf + zlen str + zlen (tail_bytes zero (or_ptr buf + zlen str)) <= or_endptr buf ->
  exists bs, take (length str) bs = str
  /\ (zero = false -> bs = str)
  /\ (let '(rc, bs', buf1) := or_get_data buf (if (align =? INT_ALIGNMENT) && zero then zlen str + 1 else zlen str) in
      let '(rc, buf1) := if (rc =? NO_ERROR) && (align =? INT_ALIGNMENT) then or_get_align32 buf1 else (rc, buf1) in
      (rc, bs', buf1))
     = (NO_ERROR, bs, or_move buf (zlen str + zlen (tail_bytes zero (or_ptr buf + zlen str)))).
Proof.
  intros Hn Hh Hb. pose proof (zlen_nonneg str). pose proof (skip_remainder buf zero (zlen str) ltac:(lia) Hb) as Hs.
  pose proof (zlen_nonneg (tail_bytes zero (or_ptr buf + zlen str))).
  set (n := if (align =? INT_ALIGNMENT) && zero then zlen str + 1 else zlen str) in *.
  assert (n <= zlen str + zlen (tail_bytes zero (or_ptr buf + zlen str)) /\ 0 <= n < 2 ^ 64) as [Hle Hnn].
  { unfold n, tail_bytes in *. destruct (align =? INT_ALIGNMENT), zero; cbn [andb] in *; split; try lia.
    rewrite zlen_app. pose proof (zlen_nonneg (pad_bytes (or_ptr buf + zlen str + 1))). change (zlen [0]) with 1. lia. }
  exists (load_bytes (or_mem buf) (or_ptr buf) (Z.to_nat n)). split_and!.
  - rewrite (holds_load _ _ _ _ Hh); [|rewrite length_app; unfold zlen in *; lia].
    rewrite take_take, Nat.min_l, take_app_length; [done|]. unfold n, zlen. zcase; lia.
  - intros ->. unfold n. rewrite andb_false_r, (holds_load _ _ _ _ Hh); unfold zlen; rewrite Nat2Z.id;
      [by rewrite take_app_length|rewrite length_app; lia].
  - unfold or_get_data. rewrite size_nat by done. unfold or_advance in Hs.
    replace (or_beyond buf n) with false in * by (unfold or_beyond; lia).
    destruct (if (NO_ERROR =? NO_ERROR) && (align =? INT_ALIGNMENT) then _ else _) as [rc b]. by simplify_eq.
Qed.

Lemma skip_varchar_ok buf n :
  0 <= n < 2 ^ 31 - 1 -> or_ptr buf + n + zlen (tail_bytes true (or_ptr buf + n)) <= or_endptr buf ->
  or_skip_varchar_remainder buf n align = (NO_ERROR, or_move buf (n + zlen (tail_bytes true (or_ptr buf + n)))).
Proof.
  intros Hn Hb. rewrite <- (skip_remainder buf true n Hn Hb). unfold or_skip_varchar_remainder.
  rewrite swrap_small by lia. destruct (align =? INT_ALIGNMENT); cbn [andb].
  - destruct (or_advance buf (n + 1)) as [rc b]. by destruct (rc =? NO_ERROR).
  - destruct (or_advance buf n) as [rc b]. by destruct (rc =? NO_ERROR).
Qed.

Lemma skip_varbit_ok buf bits n :
  0 <= n < 2 ^ 31 - 1 -> n = BITS_TO_BYTES bits ->
  or_ptr buf + n + zlen (tail_bytes false (or_ptr buf + n)) <= or_endptr buf ->
  or_skip_varbit_remainder buf bits align = (NO_ERROR, or_move buf (n + zlen (tail_bytes false (or_ptr buf + n)))).
Proof.
  intros Hn E Hb. rewrite <- (skip_remainder buf false n Hn Hb). unfold or_skip_varbit_remainder.
  by rewrite andb_false_r, <- E.
Qed.

Lemma reads_string net copy prec coll str :
  zlen str < 2 ^ 31 - 1 ->
  reads_value (fun value => mr_readval_string_internal net value copy true prec coll (-1) align)
    (varchar_bytes align str) (db_make_varchar prec str coll).
Proof.
  intros Hl value buf Hh Hb. rewrite varchar_tail in *. pose proof (zlen_nonneg str) as H0.
  set (pre := prefix_bytes (zlen str)) in *. set (tl := tail_bytes true _) in *.
  rewrite !zlen_app in *. apply holds_app in Hh as [Hp Hh]. pose proof (zlen_nonneg tl).
  assert (or_get_varchar_length net buf = (NO_ERROR, zlen str, or_move buf (zlen pre))) as Eg
    by (apply (reads_prefix net (zlen str)); done || (fold pre; lia)).
  set (b1 := or_move buf (zlen pre)) in *.
  assert (or_ptr b1 + zlen str + zlen (tail_bytes true (or_ptr b1 + zlen str)) <= or_endptr b1) as Hb1 by (cbn; fold tl; lia).
  assert (or_move b1 (zlen str + zlen (tail_bytes true (or_ptr b1 + zlen str)))
    = or_move buf (zlen pre + (zlen str + zlen tl))) as Em by (by unfold b1; rewrite or_move_move).
  pose proof (skip_varchar_ok b1 (zlen str) ltac:(lia) Hb1) as Es. rewrite Em in Es.
  unfold mr_readval_string_internal, or_skip_varchar. destruct value; [destruct copy|]; cbn [negb Z.eqb]; rewrite Eg;
    change (NO_ERROR =? NO_ERROR) with true; cbn [negb]; [| |by rewrite Es].
  - destruct (get_tail b1 true str Hl) as (bs & Htake & _ & E); [done|done|]. rewrite andb_true_r, Em in E.
    replace (zlen str <? 0) with false by lia.
    replace (zlen str =? DB_INT32_MAX) with false by (unfold DB_INT32_MAX; lia).
    cbn [orb]. destruct (or_get_data b1 _) as [[rc bs'] b2]. destruct (if _ && _ then _ else _) as [rc' b3].
    revert E. intros [= -> -> ->]. change (NO_ERROR =? NO_ERROR) with true. cbn [negb advance_pad Z.eqb].
    replace (Z.to_nat (zlen str)) with (length str) by (unfold zlen; lia). by rewrite Htake.
  - replace (zlen str <? 0) with false by lia. rewrite Es.
    replace (Z.to_nat (zlen str)) with (length str) by (unfold zlen; lia).
    rewrite (holds_load _ _ _ _ Hh), take_app_length; [done|]. rewrite length_app. lia.
Qed.

Lemma reads_varbit copy prec bits str :
  0 <= bits < 2 ^ 31 - 7 -> zlen str = BITS_TO_BYTES bits ->
  reads_value (fun value => mr_readval_varbit_internal value copy true prec (-1) align)
    (varbit_bytes align bits str) (db_make_varbit prec str bits).
Proof.
  intros Hbits Hl value buf Hh Hb. rewrite varbit_tail in *.
  assert (0 <= zlen str < 2 ^ 31 - 1) as H0.
  { rewrite Hl. unfold BITS_TO_BYTES. rewrite Z.quot_div_nonneg by lia. dlia. }
  set (pre := prefix_bytes bits) in *. set (tl := tail_bytes false _) in *.
  rewrite !zlen_app in *. apply holds_app in Hh as [Hp Hh]. pose proof (zlen_nonneg tl).
  assert (or_get_varbit_length buf = (NO_ERROR, bits, or_move buf (zlen pre))) as Eg
    by (apply (reads_prefix 0 bits); done || lia || (fold pre; lia)).
  set (b1 := or_move buf (zlen pre)) in *.
  assert (or_ptr b1 + zlen str + zlen (tail_bytes false (or_ptr b1 + zlen str)) <= or_endptr b1) as Hb1 by (cbn; fold tl; lia).
  assert (or_move b1 (zlen str + zlen (tail_bytes false (or_ptr b1 + zlen str)))
    = or_move buf (zlen pre + (zlen str + zlen tl))) as Em by (by unfold b1; rewrite or_move_move).
  pose proof (skip_varbit_ok b1 bits (zlen str) H0 Hl Hb1) as Es. rewrite Em in Es.
  unfold mr_readval_varbit_internal, or_skip_varbit. destruct value; [destruct copy|]; cbn [negb Z.eqb]; rewrite Eg;
    change (NO_ERROR =? NO_ERROR) with true; cbn [negb]; [| |by rewrite Es].
  - destruct (get_tail b1 false str) as (bs & _ & Hbs & E); [lia|done|done|]. rewrite andb_false_r, Em in E.
    replace (bits <? 0) with false by lia. rewrite <- Hl.
    destruct (or_get_data b1 _) as [[rc bs'] b2]. destruct (if _ && _ then _ else _) as [rc' b3].
    revert E. intros [= -> -> ->]. change (NO_ERROR =? NO_ERROR) with true. cbn [negb advance_pad Z.eqb].
    by rewrite (Hbs eq_refl).
  - replace (bits <? 0) with false by lia. rewrite Es, <- Hl.
    replace (Z.to_nat (zlen str)) with (length str) by (unfold zlen; lia).
    rewrite (holds_load _ _ _ _ Hh), take_app_length; [done|]. rewrite length_app. lia.
Qed.
End Strings.

Lemma make_numeric_ok c n :
  is_num 16 n -> in_domain (col_precision c) (col_scale c) (snum n) ->
  make_numeric_value n (col_precision c) (col_scale c)
  = VNumeric (mkValue false DB_TYPE_NUMERIC (col_precision c) (col_scale c) n 0).
Proof.
  intros Hn (Hp & Hs & _). unfold make_numeric_value, db_make_numeric, db_value_domain_init, IS_INVALID_PRECISION.
  replace (_ && _) with false by (unfold DB_DEFAULT_PRECISION, DB_MAX_NUMERIC_PRECISION; lia).
  cbn [negb Z.eqb NO_ERROR is_null precision scale]. rewrite copy_num by done. do 2 f_equal.
  - replace (_ =? _) with false by (unfold DB_DEFAULT_PRECISION; lia). apply uwrap_small. cbn. lia.
  - replace (_ =? _) with false by (unfold DB_DEFAULT_SCALE; lia). apply uwrap_small. cbn. lia.
Qed.

Lemma reads_numeric c n v :
  v = mkValue false DB_TYPE_NUMERIC (col_precision c) (col_scale c) n 0 -> is_num 16 n ->
  in_domain (col_precision c) (col_scale c) (snum n) ->
  reads_value (fun value => mr_data_readval_numeric_internal value (col_precision c) (col_scale c) (-1))
    (fun _ => n) (VNumeric v).
Proof.
  intros -> Hn Hd value buf Hh Hb. unfold mr_data_readval_numeric_internal. cbn [Z.eqb].
  change (OR_NUMERIC_SIZE =? 1) with false. cbn iota. change (OR_NUMERIC_SIZE =? 0) with false. cbn [negb].
  assert (zlen n = OR_NUMERIC_SIZE) as El by (unfold zlen; by rewrite (proj2 Hn)).
  rewrite El in *. rewrite advance_ok by done. destruct value; [|done]. cbn [negb].
  unfold holds in Hh. rewrite (proj2 Hn) in Hh. by rewrite Hh, make_numeric_ok.
Qed.

Lemma reads_value_ext f g e1 e2 v :
  reads_value f e1 v -> (forall value buf, g value buf = f value buf) -> (forall p, e2 p = e1 p) -> reads_value g e2 v.
Proof. intros H Hf He value buf. rewrite Hf, He. apply H. Qed.

Lemma make_oid_ok oid : oid_fits oid -> db_make_oid oid = VOid oid.
Proof.
  intros [(Hp & _) _]. unfold db_make_oid, OID_ISNULL, NULL_PAGEID. by replace (_ =? _) with false by lia.
Qed.

Lemma index_reads net copy c v :
  value_ok c v -> reads_value (fun value => index_readval net value copy true c (-1)) (fun _ => index_bytes v) v.
Proof.
  intros [Ht H]. unfold index_readval. rewrite Ht.
  destruct v as [|i|bi|d|t|d|[date time]|v|prec str coll|prec bits str|oid]; cbn in H;
    cbn [DB_VALUE_DOMAIN_TYPE index_bytes]; [done|..].
  - apply (reads_fixed (get_native 4 (swrap 32)) VInteger (le_bytes 4 i) i); [|done].
    apply reads_native; [lia|]. rewrite swrap_uwrap, swrap_small by (cbn; lia). done.
  - apply (reads_fixed (get_native 8 (swrap 64)) VBigint (le_bytes 8 bi) bi); [|done].
    apply reads_native; [lia|]. rewrite swrap_uwrap, swrap_small by (cbn; lia). done.
  - apply (reads_fixed (get_native 8 (uwrap 64)) VDouble (le_bytes 8 d) d); [|done].
    apply reads_native; [lia|]. rewrite uwrap_uwrap, uwrap_small by (cbn; lia). done.
  - apply (reads_fixed (get_native 4 (uwrap 32)) VTime (le_bytes 4 t) t); [|done].
    apply reads_native; [lia|]. rewrite uwrap_uwrap, uwrap_small by (cbn; lia). done.
  - apply (reads_fixed (get_native 4 (uwrap 32)) VDate (le_bytes 4 d) d); [|done].
    apply reads_native; [lia|]. rewrite uwrap_uwrap, uwrap_small by (cbn; lia). done.
  - apply (reads_fixed _ VDatetime (le_bytes 4 date ++ le_bytes 4 time) (mkDatetime date time)); [|done].
    apply reads_then; (apply reads_native; [lia|]; rewrite uwrap_uwrap, uwrap_small by (cbn; lia); done).
  - destruct H as (n & -> & Hn & Hd). by apply reads_numeric.
  - destruct H as (E & _ & Hl). rewrite E. eapply reads_value_ext; [apply (reads_string CHAR_ALIGNMENT net copy _ _ str Hl)|done|].
    intros p. unfold varchar_bytes. cbn. by rewrite app_nil_r.
  - destruct H as (E & _ & Hb & Hl). rewrite E.
    eapply reads_value_ext; [apply (reads_varbit CHAR_ALIGNMENT copy _ bits str Hb Hl)|done|].
    intros p. unfold varbit_bytes. cbn. by rewrite app_nil_r.
  - rewrite !app_assoc. apply (reads_fixed get_native_oid db_make_oid (((le_bytes 4 (o_pageid oid)
      ++ le_bytes 2 (o_slotid oid)) ++ le_bytes 2 (o_volid oid)) ++ le_bytes 4 (o_groupid oid)) oid); [|by apply make_oid_ok].
    destruct oid as [p s v g]. destruct H as [(Hp & Hs & Hv) Hg]. cbn [o_pageid o_slotid o_volid o_groupid] in *.
    unfold get_native_oid.
    apply (reads_then _ _ (fun '(p, s, v) g => mkOid p s v g) 0 _ _ (p, s, v) g);
      [apply (reads_then _ _ (fun ps v => (ps, v)) 0 _ _ (p, s) v);
        [apply (reads_then _ _ (fun p s => (p, s)) 0 _ _ p s)|]|];
      (apply reads_native; [lia|]; rewrite swrap_uwrap, swrap_small by (cbn; lia); done).
Qed.

Lemma data_reads net copy c v :
  value_ok c v -> reads_value (fun value => data_readval net value copy true c (-1)) (data_bytes v) v.
Proof.
  intros [Ht H]. unfold data_readval. rewrite Ht.
  destruct v as [|i|bi|d|t|d|[date time]|v|prec str coll|prec bits str|oid]; cbn in H;
    cbn [DB_VALUE_DOMAIN_TYPE data_bytes]; [done|..].
  - apply (reads_fixed or_get_int VInteger (be_bytes 4 i) i); [|done].
    apply (reads_get OR_GET_INT 0 (be_bytes 4 i)). intros m p Hh. rewrite (get_int m p i Hh). apply swrap_small; lia.
  - apply (reads_fixed or_get_bigint VBigint (be_bytes 8 bi) bi); [|done].
    apply (reads_get OR_GET_BIGINT 0 (be_bytes 8 bi)). intros m p Hh. rewrite (get_bigint m p bi Hh). apply swrap_small; lia.
  - apply (reads_fixed or_get_double VDouble (be_bytes 8 d) d); [|done].
    apply (reads_get OR_GET_DOUBLE 0 (be_bytes 8 d)). intros m p Hh. rewrite (get_double m p d Hh). by apply uwrap_small.
  - apply (reads_fixed or_get_time VTime (be_bytes 4 t) t); [|done].
    apply (reads_get OR_GET_TIME 0 (be_bytes 4 t)). intros m p Hh. rewrite (get_time m p t Hh). by apply uwrap_small.
  - apply (reads_fixed or_get_date VDate (be_bytes 4 d) d); [|done].
    apply (reads_get OR_GET_DATE 0 (be_bytes 4 d)). intros m p Hh. change (OR_GET_DATE m p) with (OR_GET_TIME m p).
    rewrite (get_time m p d Hh). by apply uwrap_small.
  - apply (reads_fixed or_get_datetime VDatetime (datetime_bytes (mkDatetime date time)) (mkDatetime date time)); [|done].
    apply (reads_get OR_GET_DATETIME (mkDatetime 0 0) (datetime_bytes (mkDatetime date time))). intros m p Hh.
    rewrite (get_datetime m p _ Hh). cbn. destruct H. by rewrite !uwrap_small by lia.
  - destruct H as (n & -> & Hn & Hd). by apply reads_numeric.
  - destruct H as (E & _ & Hl). rewrite E. apply (reads_string INT_ALIGNMENT net copy _ _ str Hl).
  - destruct H as (E & _ & Hb & Hl). rewrite E. apply (reads_varbit INT_ALIGNMENT copy _ bits str Hb Hl).
  - intros value buf Hh Hb. unfold mr_data_readval_oid. change OR_OID_SIZE with (zlen (oid_bytes oid)).
    rewrite advance_ok by done. destruct value; [|done]. cbn [negb].
    assert (or_get_oid buf = (NO_ERROR, oid, or_move buf (zlen (oid_bytes oid)))) as ->.
    { apply (reads_get OR_GET_OID (mkOid 0 0 0 0) (oid_bytes oid)); [|done|done]. intros m p Hm.
      rewrite (get_oid m p oid Hm). destruct oid as [pg sl vo gr], H as [(Hp & Hs & Hv) Hg]. cbn in *.
      by rewrite !swrap_small by lia. }
    cbn. by rewrite make_oid_ok.
Qed.
