(* ===== verification/PrimitiveCompare.v ===== *)
(** * The order of values

    Every value has a list of numbers as its key, and the comparison of two
    values of one column is that of their keys.  It is a total preorder, and
    the comparisons of the disk formats agree with it. *)
From Stdlib Require Import ZArith Lia ZifyBool SpecFloat.
From stdpp Require Import base list numbers.
From S2P Require Import Prelude StorageCommon Dates Numeric NumericValue NumericArith NumericOps.
From S2P Require Import OrBuf OrBufSpec Collation Primitive PrimitiveDisk.

(** ** Doubles *)

Definition is_nan (d : Z) : bool := match double_of_bits d with S754_nan => true | _ => false end.

(** The magnitude of a double, with its sign. *)
Definition double_key (d : Z) : Z := if d <? 2 ^ 63 then d else - (d - 2 ^ 63).

(** What a double that is a number says about its key. *)
Definition key_of (f : spec_float) (k : Z) : Prop :=
  match f with
  | S754_zero _ => k = 0
  | S754_infinity s => k = (if s then -1 else 1) * (2047 * 2 ^ 52)
  | S754_finite s m e =>
      k = (if s then -1 else 1) * ((e + 1074) * 2 ^ 52 + Zpos m)
      /\ Zpos m < 2 ^ 53 /\ -1074 <= e <= 971 /\ (e = -1074 \/ 2 ^ 52 <= Zpos m)
  | S754_nan => False
  end.

Lemma double_fields d :
  0 <= d < 2 ^ 64 ->
  exists s ex frac, Z.testbit d 63 = s /\ Z.land (Z.shiftr d 52) 2047 = ex /\ Z.land d (2 ^ 52 - 1) = frac
    /\ 0 <= ex < 2048 /\ 0 <= frac < 2 ^ 52 /\ s = (2 ^ 63 <=? d)
    /\ (if d <? 2 ^ 63 then d else d - 2 ^ 63) = ex * 2 ^ 52 + frac.
Proof.
  intros Hd. exists (2 ^ 63 <=? d), (d / 2 ^ 52 mod 2048), (d mod 2 ^ 52).
  assert (Z.testbit d 63 = (2 ^ 63 <=? d)) as ->.
  { apply Z.b2z_inj. rewrite Z.testbit_spec' by lia. destruct (2 ^ 63 <=? d) eqn:E; cbn [Z.b2z]; dlia. }
  split_and!; try done; try dlia.
  - change 2047 with (Z.ones 11). rewrite Z.land_ones, Z.shiftr_div_pow2 by lia. done.
  - change (2 ^ 52 - 1) with (Z.ones 52). by rewrite Z.land_ones by lia.
  - destruct (d <? 2 ^ 63) eqn:E; dlia.
Qed.

Lemma double_key_of d : 0 <= d < 2 ^ 64 -> is_nan d = false -> key_of (double_of_bits d) (double_key d).
Proof.
  intros Hd. destruct (double_fields d Hd) as (s & ex & frac & Es & Ee & Ef & Hex & Hfrac & Hs & Hk).
  unfold is_nan, double_of_bits. rewrite Es, Ee, Ef.
  assert (double_key d = (if s then -1 else 1) * (ex * 2 ^ 52 + frac)) as ->.
  { unfold double_key. rewrite <- Hk, Hs. destruct (d <? 2 ^ 63) eqn:E; zcase; lia. }
  destruct (ex =? 2047) eqn:E1.
  { destruct (frac =? 0) eqn:E2; [|done]. intros _. cbn. destruct s; lia. }
  intros _. destruct (ex =? 0) eqn:E0.
  - destruct frac as [|m|m] eqn:Em; cbn [key_of]; [destruct s; lia| |lia]. destruct s; lia.
  - destruct (frac + 2 ^ 52) as [|m|m] eqn:Em; cbn [key_of]; [lia| |lia]. destruct s; lia.
Qed.

Lemma SFltb_key f1 f2 k1 k2 : key_of f1 k1 -> key_of f2 k2 -> SFltb f1 f2 = (k1 <? k2).
Proof.
  unfold SFltb.
  destruct f1 as [s1|s1| |s1 m1 e1], f2 as [s2|s2| |s2 m2 e2]; cbn [key_of SFcompare]; intros H1 H2; try done;
    try (destruct s1; destruct s2; lia).
  all: try (destruct s2; lia); try (destruct s1; lia).
  destruct H1 as (-> & ? & ? & ?), H2 as (-> & ? & ? & ?).
  destruct s1, s2; try lia; destruct (Z.compare_spec e1 e2) as [->|?|?]; try lia.
  - change (Pos.compare_cont Eq m1 m2) with (Pos.compare m1 m2). destruct (Pos.compare_spec m1 m2); cbn; lia.
  - change (Pos.compare_cont Eq m1 m2) with (Pos.compare m1 m2). destruct (Pos.compare_spec m1 m2); cbn; lia.
Qed.

Lemma double_compare_key d1 d2 :
  0 <= d1 < 2 ^ 64 -> is_nan d1 = false -> 0 <= d2 < 2 ^ 64 -> is_nan d2 = false ->
  MR_CMP_double d1 d2 = MR_CMP (double_key d1) (double_key d2).
Proof.
  intros H1 N1 H2 N2. pose proof (double_key_of d1 H1 N1) as K1. pose proof (double_key_of d2 H2 N2) as K2.
  unfold MR_CMP_double, MR_CMP. rewrite (SFltb_key _ _ _ _ K1 K2), (SFltb_key _ _ _ _ K2 K1).
  by rewrite Z.gtb_ltb.
Qed.

(** ** Keys *)

Definition value_key (coll : Z) (v : VALUE) : list Z :=
  match v with
  | VNull => []
  | VInteger i => [i]
  | VBigint bi => [bi]
  | VDouble d => [double_key d]
  | VTime t => [t]
  | VDate d => [d]
  | VDatetime dt => [dt_date dt; dt_time dt]
  | VNumeric v => [snum (num v)]
  | VVarchar _ str _ => str_weights coll str
  | VVarbit _ _ str => (fun b => b + 1) <$> str
  | VOid oid => [o_volid oid; o_pageid oid; o_slotid oid]
  end.

(** A value of the column that has a place in its order: it is not a NaN. *)
Definition ordered_value (c : COLUMN) (v : VALUE) : Prop :=
  value_ok c v /\ match v with VDouble d => is_nan d = false | _ => True end.

Lemma MR_CMP_pad x y : MR_CMP x y = pad_compare [x] [y].
Proof. unfold MR_CMP. cbn. by rewrite Z.gtb_ltb. Qed.

Lemma return_code_sgn c : MR_CMP_RETURN_CODE c = Z.sgn c.
Proof. unfold MR_CMP_RETURN_CODE, DB_LT, DB_GT, DB_EQ. zcases. Qed.

Lemma varbit_compare_pad s1 s2 :
  is_bytes s1 -> is_bytes s2 ->
  Z.sgn (varbit_compare s1 s2) = pad_compare ((fun b => b + 1) <$> s1) ((fun b => b + 1) <$> s2).
Proof.
  intros H1. revert s2. induction H1 as [|c1 s1 Hc1 H1 IH]; intros s2 H2; destruct H2 as [|c2 s2 Hc2 H2]; cbn.
  - done.
  - by replace (0 <? c2 + 1) with true by lia.
  - by replace (0 <? c1 + 1) with true by lia.
  - destruct (c1 - c2 =? 0) eqn:E; cbn [negb].
    + replace (c1 + 1 <? c2 + 1) with false by lia. replace (c2 + 1 <? c1 + 1) with false by lia. by apply IH.
    + zcases.
Qed.

Lemma oid_compare_pad o1 o2 :
  oid_ok o1 -> oid_ok o2 ->
  oid_compare o1 o2 = pad_compare [o_volid o1; o_pageid o1; o_slotid o1] [o_volid o2; o_pageid o2; o_slotid o2].
Proof.
  intros (? & ? & ?) (? & ? & ?). unfold oid_compare. rewrite !int_sub_exact by lia. cbn. repeat zcase; lia.
Qed.

Lemma numeric_compare_pad c n1 n2 :
  let v n := mkValue false DB_TYPE_NUMERIC (col_precision c) (col_scale c) n 0 in
  is_num 16 n1 -> in_domain (col_precision c) (col_scale c) (snum n1) ->
  is_num 16 n2 -> in_domain (col_precision c) (col_scale c) (snum n2) ->
  compare_numeric (v n1) (v n2) = pad_compare [snum n1] [snum n2].
Proof.
  intros v N1 D1 N2 D2. unfold compare_numeric.
  rewrite (compare_value_spec (v n1) (v n2) (col_precision c) (col_scale c) (snum n1) (col_precision c) (col_scale c) (snum n2))
    by (done || (unfold numeric_is; split_and!; done)).
  rewrite Z.max_id, Z.sub_diag. cbn. rewrite return_code_sgn. zcases; lia.
Qed.

Lemma cmpval_key c coll v1 v2 :
  coll <> -1 -> ordered_value c v1 -> ordered_value c v2 ->
  cmpval v1 v2 coll = pad_compare (value_key coll v1) (value_key coll v2).
Proof.
  intros Hcoll [[T1 H1] N1] [[T2 H2] N2]. rewrite T1 in T2.
  destruct v1, v2; cbn in T2; try done; cbn in H1, H2; cbn [cmpval value_key];
    try (apply MR_CMP_pad); try done.
  - unfold mr_cmpval_double. rewrite double_compare_key by done. apply MR_CMP_pad.
  - unfold mr_cmpval_datetime, MR_CMP_datetime. cbn. rewrite !Z.gtb_ltb. repeat zcase; done || lia.
  - destruct H1 as (n1 & -> & Hn1 & D1), H2 as (n2 & -> & Hn2 & D2). by apply numeric_compare_pad.
  - unfold mr_cmpval_string. replace (coll =? -1) with false by lia. rewrite return_code_sgn.
    apply QSTR_COMPARE_weights; [apply H1|apply H2].
  - unfold mr_cmpval_varbit. rewrite return_code_sgn. apply varbit_compare_pad; [apply H1|apply H2].
  - unfold mr_cmpval_oid. rewrite return_code_sgn, oid_compare_pad by (apply H1 || apply H2). apply pad_compare_sgn.
Qed.

(** A column whose values tp_value_compare orders: not of bit strings, which
    are never comparable. *)
Definition orderable (c : COLUMN) : Prop := col_type c <> DB_TYPE_VARBIT /\ col_collation c <> -1.

Lemma tp_compare_key `{Co : TP_COERCE} c v1 v2 do_coercion total_order :
  orderable c -> ordered_value c v1 -> ordered_value c v2 ->
  tp_value_compare v1 v2 do_coercion total_order
  = (pad_compare (value_key (col_collation c) v1) (value_key (col_collation c) v2), true).
Proof.
  intros [Ht Hcoll] H1 H2. pose proof H1 as [[T1 V1] _]. pose proof H2 as [[T2 V2] _]. rewrite T1 in Ht, T2.
  unfold tp_value_compare, compare_values, ARE_COMPARABLE, TP_IS_CHAR_TYPE. rewrite <- T2.
  replace (VALUE_IS_NULL v1) with false by (by destruct v1). replace (VALUE_IS_NULL v2) with false by (by destruct v2).
  rewrite bool_decide_true by done. rewrite (bool_decide_false (_ = DB_TYPE_VARBIT)) by done. cbn [negb andb orb].
  destruct (decide (DB_VALUE_DOMAIN_TYPE v1 = DB_TYPE_VARCHAR)) as [Hv|Hv].
  - rewrite bool_decide_true by done. cbn [negb].
    assert (DB_GET_STRING_COLLATION v1 = col_collation c /\ DB_GET_STRING_COLLATION v2 = col_collation c) as [-> ->].
    { rewrite Hv in T2. destruct v1, v2; try done. destruct V1 as [E1 _], V2 as [E2 _]. cbn.
      unfold db_make_varchar in *. by simplify_eq. }
    unfold LANG_RT_COMMON_COLL. rewrite Z.eqb_refl. replace (_ =? -1) with false by lia. by rewrite (cmpval_key c).
  - rewrite bool_decide_false by done. cbn [negb Z.eqb]. rewrite (cmpval_key c) by done. do 2 f_equal.
    all: by destruct v1, v2.
Qed.

(** ** The comparisons on disk *)

(** Values lie below the last address. *)
Definition addressable (p : Z) (bs : list Z) : Prop := p + zlen bs <= OR_INFINITE_POINTER.

Lemma copymem_le n wrap m p x :
  wrap (uwrap (8 * Z.of_nat n) x) = x -> holds m p (le_bytes n x) -> copymem n wrap m p = x.
Proof. intros Hx Hh. unfold copymem. by rewrite (get_le n x) by done. Qed.

Lemma read_length m p n rest :
  0 <= n < 2 ^ 31 -> holds m p (prefix_bytes n ++ rest) -> addressable p (prefix_bytes n ++ rest) ->
  or_get_varchar_length 0 (or_init m p 0) = (NO_ERROR, n, or_move (or_init m p 0) (zlen (prefix_bytes n))).
Proof.
  intros Hn Hh Ha. apply holds_app in Hh as [Hh _]. unfold addressable in Ha. rewrite zlen_app in Ha.
  pose proof (zlen_nonneg rest). apply (reads_prefix 0 n); [done|done|]. unfold or_init. cbn. lia.
Qed.

Lemma load_after_prefix m p n str rest :
  holds m p (prefix_bytes n ++ str ++ rest) -> load_bytes m (p + zlen (prefix_bytes n)) (length str) = str.
Proof. intros Hh. apply holds_app in Hh as [_ Hh]. rewrite (holds_load _ _ _ _ Hh); [apply take_app_length|]. rewrite length_app. lia. Qed.

Lemma first_byte m p n rest :
  0 <= n -> holds m p (prefix_bytes n ++ rest) -> OR_GET_BYTE m p = if n <? 255 then n else 255.
Proof.
  intros Hn Hh. apply holds_app in Hh as [Hh _]. unfold prefix_bytes in Hh. destruct (n <? 255) eqn:E.
  - by apply get_byte.
  - change (255 :: be_bytes 4 n) with ([255] ++ be_bytes 4 n) in Hh. apply holds_app in Hh as [Hh _]. by apply get_byte.
Qed.

Lemma cmpdisk_string m coll p1 s1 r1 p2 s2 r2 :
  is_bytes s1 -> is_bytes s2 -> zlen s1 < 2 ^ 31 -> zlen s2 < 2 ^ 31 ->
  holds m p1 (prefix_bytes (zlen s1) ++ s1 ++ r1) -> addressable p1 (prefix_bytes (zlen s1) ++ s1 ++ r1) ->
  holds m p2 (prefix_bytes (zlen s2) ++ s2 ++ r2) -> addressable p2 (prefix_bytes (zlen s2) ++ s2 ++ r2) ->
  mr_data_cmpdisk_string_internal m p1 p2 coll = Some (pad_compare (str_weights coll s1) (str_weights coll s2)).
Proof.
  intros B1 B2 L1 L2 H1 A1 H2 A2. pose proof (zlen_nonneg s1) as Z1. pose proof (zlen_nonneg s2) as Z2.
  unfold mr_data_cmpdisk_string_internal.
  rewrite (first_byte m p1 _ _ Z1 H1), (first_byte m p2 _ _ Z2 H2).
  rewrite (read_length m p1 _ _ (conj Z1 L1) H1 A1), (read_length m p2 _ _ (conj Z2 L2) H2 A2).
  pose proof (load_after_prefix _ _ _ _ _ H1) as E1. pose proof (load_after_prefix _ _ _ _ _ H2) as E2.
  rewrite zlen_prefix in E1, E2. cbn [negb Z.eqb NO_ERROR or_move or_init or_ptr].
  replace (zlen s1 <? 0) with false by lia. replace (zlen s2 <? 0) with false by lia. cbn [orb].
  rewrite !zlen_prefix.
  assert (forall s, Z.to_nat (zlen s) = length s) as Hz by (intros s; unfold zlen; lia).
  destruct ((if zlen s1 <? 255 then zlen s1 else 255) <? 255) eqn:F1; cbn [andb].
  1: destruct ((if zlen s2 <? 255 then zlen s2 else 255) <? 255) eqn:F2.
  1: replace (zlen s1 <? 255) with true in * by (symmetry; destruct (zlen s1 <? 255); lia);
     replace (zlen s2 <? 255) with true in * by (symmetry; destruct (zlen s2 <? 255); lia).
  all: unfold OR_BYTE_SIZE; rewrite !Hz, E1, E2, return_code_sgn, QSTR_COMPARE_weights; done.
Qed.

Lemma cmpdisk_varbit m p1 b1 s1 r1 p2 b2 s2 r2 :
  is_bytes s1 -> is_bytes s2 -> 0 <= b1 < 2 ^ 31 - 7 -> 0 <= b2 < 2 ^ 31 - 7 ->
  zlen s1 = BITS_TO_BYTES b1 -> zlen s2 = BITS_TO_BYTES b2 ->
  holds m p1 (prefix_bytes b1 ++ s1 ++ r1) -> addressable p1 (prefix_bytes b1 ++ s1 ++ r1) ->
  holds m p2 (prefix_bytes b2 ++ s2 ++ r2) -> addressable p2 (prefix_bytes b2 ++ s2 ++ r2) ->
  mr_data_cmpdisk_varbit m p1 p2
  = Some (pad_compare ((fun b => b + 1) <$> s1) ((fun b => b + 1) <$> s2)).
Proof.
  intros B1 B2 L1 L2 Z1 Z2 H1 A1 H2 A2. unfold mr_data_cmpdisk_varbit, or_get_varbit_length.
  rewrite (read_length m p1 b1 (s1 ++ r1)), (read_length m p2 b2 (s2 ++ r2)) by (done || lia).
  replace (b1 <? 0) with false by lia. replace (b2 <? 0) with false by lia. cbn [orb or_move or_init or_ptr].
  rewrite <- Z1, <- Z2. unfold zlen at 2 4. rewrite !Nat2Z.id.
  rewrite (load_after_prefix _ _ _ _ _ H1), (load_after_prefix _ _ _ _ _ H2), return_code_sgn.
  by rewrite varbit_compare_pad.
Qed.

Lemma copy_oid_ok m p oid :
  oid_fits oid -> holds m p (index_bytes (VOid oid)) ->
  copy_oid m p = mkOid (o_pageid oid) (o_slotid oid) (o_volid oid) 0.
Proof.
  intros [(Hp & Hs & Hv) _]. cbn [index_bytes]. rewrite !holds_app, !zlen_le. intros (H1 & H2 & H3 & _).
  unfold copy_oid, OR_OID_PAGEID, OR_OID_SLOTID, OR_OID_VOLID. rewrite Z.add_0_r.
  replace (p + Z.of_nat 4 + Z.of_nat 2) with (p + 6) in H3 by lia.
  f_equal; (apply copymem_le; [rewrite swrap_uwrap, swrap_small by (cbn; lia)|]; done).
Qed.

Lemma copy_datetime_ok m p dt :
  0 <= dt_date dt < 2 ^ 32 -> 0 <= dt_time dt < 2 ^ 32 -> holds m p (index_bytes (VDatetime dt)) ->
  copy_datetime m p = dt.
Proof.
  intros Hd Ht. cbn [index_bytes]. rewrite holds_app, zlen_le. intros (H1 & H2).
  unfold copy_datetime, OR_DATETIME_DATE, OR_DATETIME_TIME. rewrite Z.add_0_r. destruct dt as [da ti]. cbn in *.
  f_equal; (apply copymem_le; [rewrite uwrap_uwrap, uwrap_small by (cbn; lia)|]; done).
Qed.

Lemma datetime_cmp_refl dt : MR_CMP_datetime dt dt = DB_EQ.
Proof. unfold MR_CMP_datetime. rewrite !Z.ltb_irrefl, !Z.gtb_ltb, !Z.ltb_irrefl. done. Qed.

Lemma cmpdisk_numeric c m p1 n1 p2 n2 :
  is_num 16 n1 -> in_domain (col_precision c) (col_scale c) (snum n1) -> holds m p1 n1 ->
  is_num 16 n2 -> in_domain (col_precision c) (col_scale c) (snum n2) -> holds m p2 n2 ->
  mr_data_cmpdisk_numeric_internal m p1 p2 (col_precision c) (col_scale c) = pad_compare [snum n1] [snum n2].
Proof.
  intros N1 D1 H1 N2 D2 H2. unfold mr_data_cmpdisk_numeric_internal, holds in *.
  rewrite (proj2 N1) in H1. rewrite (proj2 N2) in H2.
  rewrite H1, H2, !make_numeric_ok by done. by apply numeric_compare_pad.
Qed.

Lemma index_cmpdisk_key c m p1 v1 p2 v2 :
  col_collation c <> -1 -> ordered_value c v1 -> ordered_value c v2 ->
  holds m p1 (index_bytes v1) -> addressable p1 (index_bytes v1) ->
  holds m p2 (index_bytes v2) -> addressable p2 (index_bytes v2) ->
  index_cmpdisk c m p1 p2
  = Some (pad_compare (value_key (col_collation c) v1) (value_key (col_collation c) v2)).
Proof.
  intros Hcoll O1 O2 H1 A1 H2 A2. rewrite <- (cmpval_key c) by done.
  destruct O1 as [[T1 V1] N1], O2 as [[T2 V2] N2]. unfold index_cmpdisk. rewrite T1. rewrite T1 in T2.
  destruct v1, v2; cbn in T2; try done; cbn [DB_VALUE_DOMAIN_TYPE cmpval]; cbn in V1, V2.
  all: try (cbn [index_bytes] in H1, H2; f_equal;
    unfold mr_index_cmpdisk_int, mr_index_cmpdisk_bigint, mr_index_cmpdisk_double, mr_index_cmpdisk_time,
      mr_index_cmpdisk_date; erewrite (copymem_le _ _ m p1), (copymem_le _ _ m p2); [reflexivity|..]; try eassumption;
      (rewrite swrap_uwrap, swrap_small by (cbn; lia); done) || (rewrite uwrap_uwrap, uwrap_small by (cbn; lia); done)).
  - f_equal. unfold mr_index_cmpdisk_datetime, mr_cmpval_datetime.
    destruct (p1 =? p2) eqn:E; [|by rewrite (copy_datetime_ok m p1 dt), (copy_datetime_ok m p2 dt0) by (done || apply V1 || apply V2)].
    assert (p1 = p2) as -> by lia. rewrite <- (copy_datetime_ok m p2 dt), <- (copy_datetime_ok m p2 dt0) by (done || apply V1 || apply V2).
    by rewrite datetime_cmp_refl.
  - destruct V1 as (n1 & -> & Hn1 & D1), V2 as (n2 & -> & Hn2 & D2). f_equal.
    rewrite (cmpdisk_numeric c m p1 n1 p2 n2) by done. symmetry. by apply numeric_compare_pad.
  - destruct V1 as (_ & B1 & L1), V2 as (_ & B2 & L2). cbn [index_bytes] in *.
    rewrite (cmpdisk_string m _ p1 str [] p2 str0 []) by (rewrite ?app_nil_r; done || lia). f_equal.
    unfold mr_cmpval_string. replace (_ =? -1) with false by lia. by rewrite return_code_sgn, QSTR_COMPARE_weights.
  - destruct V1 as (_ & B1 & L1 & Z1), V2 as (_ & B2 & L2 & Z2). cbn [index_bytes] in *.
    rewrite (cmpdisk_varbit m p1 bits str [] p2 bits0 str0 []) by (rewrite ?app_nil_r; done || lia). f_equal.
    unfold mr_cmpval_varbit. by rewrite return_code_sgn, varbit_compare_pad.
  - f_equal. unfold mr_index_cmpdisk_oid, mr_cmpval_oid. by rewrite (copy_oid_ok m p1 oid), (copy_oid_ok m p2 oid0).
Qed.

Lemma data_cmpdisk_key c m p1 v1 p2 v2 :
  col_collation c <> -1 -> ordered_value c v1 -> ordered_value c v2 ->
  holds m p1 (data_bytes v1 p1) -> addressable p1 (data_bytes v1 p1) ->
  holds m p2 (data_bytes v2 p2) -> addressable p2 (data_bytes v2 p2) ->
  data_cmpdisk c m p1 p2
  = Some (pad_compare (value_key (col_collation c) v1) (value_key (col_collation c) v2)).
Proof.
  intros Hcoll O1 O2 H1 A1 H2 A2. rewrite <- (cmpval_key c) by done.
  destruct O1 as [[T1 V1] N1], O2 as [[T2 V2] N2]. unfold data_cmpdisk. rewrite T1. rewrite T1 in T2.
  destruct v1, v2; cbn in T2; try done; cbn [DB_VALUE_DOMAIN_TYPE cmpval]; cbn in V1, V2; cbn [data_bytes] in *.
  - f_equal. unfold mr_data_cmpdisk_int. by rewrite (get_int m p1 i), (get_int m p2 i0), !swrap_small by (done || lia).
  - f_equal. unfold mr_data_cmpdisk_bigint. by rewrite (get_bigint m p1 bi), (get_bigint m p2 bi0), !swrap_small by (done || lia).
  - f_equal. unfold mr_data_cmpdisk_double. by rewrite (get_double m p1 d), (get_double m p2 d0), !uwrap_small by (done || lia).
  - f_equal. unfold mr_data_cmpdisk_time. by rewrite (get_time m p1 t), (get_time m p2 t0), !uwrap_small by (done || lia).
  - f_equal. unfold mr_data_cmpdisk_date, OR_GET_DATE. fold (OR_GET_TIME m p1) (OR_GET_TIME m p2).
    by rewrite (get_time m p1 d), (get_time m p2 d0), !uwrap_small by (done || lia).
  - f_equal. unfold mr_data_cmpdisk_datetime, mr_cmpval_datetime. destruct dt as [da ti], dt0 as [da0 ti0]. cbn in V1, V2.
    pose proof (get_datetime _ _ _ H1) as E1. pose proof (get_datetime _ _ _ H2) as E2. cbn in E1, E2.
    rewrite !uwrap_small in E1, E2 by lia. destruct (p1 =? p2) eqn:E; [|by rewrite E1, E2].
    assert (p1 = p2) as -> by lia. rewrite E1 in E2. rewrite E2. by rewrite datetime_cmp_refl.
  - destruct V1 as (n1 & -> & Hn1 & D1), V2 as (n2 & -> & Hn2 & D2). f_equal.
    rewrite (cmpdisk_numeric c m p1 n1 p2 n2) by done. symmetry. by apply numeric_compare_pad.
  - destruct V1 as (_ & B1 & L1), V2 as (_ & B2 & L2). rewrite varchar_tail in *.
    rewrite (cmpdisk_string _ _ _ str _ _ str0 _ B1 B2 ltac:(lia) ltac:(lia) H1 A1 H2 A2). f_equal.
    unfold mr_cmpval_string. replace (_ =? -1) with false by lia. by rewrite return_code_sgn, QSTR_COMPARE_weights.
  - destruct V1 as (_ & B1 & L1 & Z1), V2 as (_ & B2 & L2 & Z2). rewrite varbit_tail in *.
    rewrite (cmpdisk_varbit _ _ bits str _ _ bits0 str0 _ B1 B2 L1 L2 Z1 Z2 H1 A1 H2 A2). f_equal.
    unfold mr_cmpval_varbit. by rewrite return_code_sgn, varbit_compare_pad.
  - f_equal. unfold mr_data_cmpdisk_oid, mr_cmpval_oid. rewrite (get_oid m p1 oid), (get_oid m p2 oid0) by done.
    destruct oid as [pg sl vo gr], oid0 as [pg0 sl0 vo0 gr0], V1 as [(? & ? & ?) ?], V2 as [(? & ? & ?) ?].
    cbn in *. by rewrite !swrap_small by lia.
Qed.

(** ** Copies *)

(** A value of the column, or null. *)
Definition column_value (c : COLUMN) (v : VALUE) : Prop := VALUE_IS_NULL v = true \/ value_ok c v.

(** A copy is the value, when there is memory for it. *)
Lemma clone_value c v : column_value c v -> pr_clone_value true v = (NO_ERROR, v).
Proof.
  intros [H|[_ H]]; [by destruct v|]. unfold pr_clone_value. f_equal.
  destruct v as [|i|bi|d|t|d|dt|v|prec str coll|prec bits str|oid]; try done.
  - destruct H as (n & -> & Hn & Hd). cbn. by apply make_numeric_ok.
  - destruct H as (E & _). unfold db_make_varchar in *. injection E as E _. f_equal.
    unfold DB_DEFAULT_PRECISION, DB_MAX_VARCHAR_PRECISION in *. repeat zcase; lia.
  - destruct H as (E & _ & Hb & _). unfold db_make_varbit in *. injection E as E. f_equal.
    unfold DB_DEFAULT_PRECISION, DB_MAX_VARBIT_LENGTH in *. repeat zcase; lia.
  - by apply make_oid_ok.
Qed.
