(* ===== verification/PrimitiveProps.v ===== *)
(** * Correctness of the primitive types

    The round trip of the disk formats, the agreement of the comparisons, the
    order of the values of a column and their copies. *)
From Stdlib Require Import ZArith Lia ZifyBool.
From stdpp Require Import base list numbers.
From S2P Require Import Prelude StorageCommon Dates Numeric NumericValue NumericArith NumericOps NumericProps.
From S2P Require Import OrBuf OrBufSpec Collation Primitive PrimitiveDisk PrimitiveCompare.

(** No value is converted, for the examples. *)
Definition no_coercion : TP_COERCE := fun _ _ _ => None.
#[local] Existing Instance no_coercion.

(** The buffer that was written, moved back to [p]. *)
Definition rewind (buf : OR_BUF) (p : Z) : OR_BUF := mkBuf (or_mem buf) (or_buffer buf) p (or_endptr buf).

(** A written value is read back, whether it is copied or not, and a skip moves
    over it; the write that does not fit leaves the rest of the memory alone. *)
Definition round_trip (write : VALUE -> OR_BUF -> option (Z * OR_BUF)) (size : VALUE -> Z)
    (read : bool -> bool -> OR_BUF -> READ) (v : VALUE) (buf : OR_BUF) : Prop :=
  exists rc buf', write v buf = Some (rc, buf')
    /\ if or_beyond buf (size v)
       then rc = ER_TF_BUFFER_OVERFLOW /\ confined buf buf'
       else rc = NO_ERROR /\ or_ptr buf' = or_ptr buf + size v /\ confined buf buf'
            /\ forall copy value, read value copy (rewind buf' (or_ptr buf))
                 = Some (NO_ERROR, if value then Some v else None, buf').

Lemma round_trip_ok write size read v e buf :
  writes_value write v e -> (forall copy, reads_value (fun value => read value copy) e v) ->
  or_ptr buf <= or_endptr buf -> zlen (e (or_ptr buf)) = size v -> round_trip write size read v buf.
Proof.
  intros (g & Hg & Hw) Hr Hb Hs. destruct (Hw buf Hb) as (rc & buf' & E & H). exists rc, buf'.
  rewrite Hg, E. split; [done|]. rewrite Hs in H. destruct (or_beyond buf (size v)) eqn:Eb; [done|].
  destruct H as [-> Hput]. pose proof Hput as (B & En & P & M). unfold or_beyond in Eb. split_and!; [done|lia| |].
  - apply (put_confined buf (e (or_ptr buf))); [lia|done].
  - intros copy value. rewrite (Hr copy value (rewind buf' (or_ptr buf))).
    + unfold or_move, rewind. cbn. rewrite <- P. by destruct buf'.
    + cbn. by apply (put_holds buf).
    + cbn. lia.
Qed.

(** C8: a value of a column survives its disk formats.  In index records and
    in heap records, what the type writes has the size that is reserved for it,
    and reading it back with the domain of the column gives the value, with or
    without a copy of strings; skipping it moves behind it.  When the buffer is
    too small the write reports an overflow and changes nothing outside the
    rest of the buffer. *)
Theorem value_disk_roundtrip net c v buf :
  value_ok c v -> or_ptr buf <= or_endptr buf ->
  round_trip index_writeval pr_index_writeval_disk_size
    (fun value copy => index_readval net value copy true c (-1)) v buf
  /\ (or_ptr buf mod 4 = 0 ->
      round_trip data_writeval pr_data_writeval_disk_size
        (fun value copy => data_readval net value copy true c (-1)) v buf).
Proof.
  intros Hv Hb. split.
  - apply (round_trip_ok _ _ _ _ (fun _ => index_bytes v)); [by apply (index_writes c)| |done|by apply (index_size c)].
    intros copy. by apply index_reads.
  - intros Ha. apply (round_trip_ok _ _ _ _ (data_bytes v)); [by apply (data_writes c)| |done|by apply (data_size c)].
    intros copy. by apply data_reads.
Qed.

Definition varchar_column : COLUMN := mkColumn DB_TYPE_VARCHAR 20 0 LANG_COLL_UTF8_EN_CS.
Definition sample_string : VALUE := db_make_varchar 20 [82; 121; 101] LANG_COLL_UTF8_EN_CS.

Lemma value_disk_roundtrip_witness :
  exists rc buf', index_writeval sample_string (or_init (fun _ => 0) 4096 64) = Some (rc, buf')
    /\ rc = NO_ERROR
    /\ index_readval 7 true false true varchar_column (-1) (rewind buf' 4096)
       = Some (NO_ERROR, Some sample_string, buf').
Proof.
  destruct (value_disk_roundtrip 7 varchar_column sample_string (or_init (fun _ => 0) 4096 64))
    as [(rc & buf' & E & H) _].
  - split; [done|]. split; [done|]. split; [by repeat constructor|done].
  - done.
  - exists rc, buf'. split; [done|]. change (or_beyond _ _) with false in H. cbn iota in H.
    destruct H as (-> & _ & _ & H). split; [done|]. exact (H false true).
Defined.

(** C13: the comparisons of a type agree.  Comparing two values of a column,
    neither null nor a NaN and of a known collation, in their index format, in their heap format and in memory gives the same
    answer, and for a column that is not of bit strings it is the answer of
    tp_value_compare. *)
Theorem comparisons_agree `{Co : TP_COERCE} c m v1 v2 p1 p2 q1 q2 do_coercion total_order :
  col_collation c <> -1 -> ordered_value c v1 -> ordered_value c v2 ->
  holds m p1 (index_bytes v1) -> addressable p1 (index_bytes v1) ->
  holds m p2 (index_bytes v2) -> addressable p2 (index_bytes v2) ->
  holds m q1 (data_bytes v1 q1) -> addressable q1 (data_bytes v1 q1) ->
  holds m q2 (data_bytes v2 q2) -> addressable q2 (data_bytes v2 q2) ->
  index_cmpdisk c m p1 p2 = Some (cmpval v1 v2 (col_collation c))
  /\ data_cmpdisk c m q1 q2 = Some (cmpval v1 v2 (col_collation c))
  /\ (col_type c <> DB_TYPE_VARBIT ->
      tp_value_compare v1 v2 do_coercion total_order = (cmpval v1 v2 (col_collation c), true)).
Proof.
  intros Hc O1 O2 **. rewrite (cmpval_key c) by done. split_and!.
  - by apply index_cmpdisk_key.
  - by apply data_cmpdisk_key.
  - intros Ht. by apply tp_compare_key.
Qed.

(** Two bigints of different signs in memory. *)
Definition bigint_column : COLUMN := mkColumn DB_TYPE_BIGINT 0 0 LANG_COLL_UTF8_BINARY.
Definition two_bigints : mem :=
  store_bytes (store_bytes (store_bytes (store_bytes (fun _ => 0) 0 (le_bytes 8 (-5))) 8 (le_bytes 8 3))
                 16 (be_bytes 8 (-5))) 24 (be_bytes 8 3).

Lemma comparisons_agree_witness :
  index_cmpdisk bigint_column two_bigints 0 8 = Some DB_LT
  /\ data_cmpdisk bigint_column two_bigints 16 24 = Some DB_LT.
Proof.
  destruct (comparisons_agree bigint_column two_bigints (VBigint (-5)) (VBigint 3) 0 8 16 24 true true)
    as (H1 & H2 & _); try done.
Defined.

(** ** The order of the values of a column *)

(** The values whose copy needs memory. *)
Definition is_string (v : VALUE) : bool := match v with VVarchar _ _ _ | VVarbit _ _ _ => true | _ => false end.

(** C19: the values of a column are totally ordered.  For a column that is not
    of bit strings, tp_value_compare has an answer on any two values of the
    column that are not null and not a NaN, comparing in the other direction
    negates it, and it is transitive, with and without coercion.  A copy made by
    pr_clone_value equals its original when there is memory for it; without
    memory the copy of a string is null. *)
Theorem column_values_ordered `{Co : TP_COERCE} c do_coercion total_order :
  orderable c ->
  let compare a b := tp_value_compare a b do_coercion total_order in
  (forall a b, ordered_value c a -> ordered_value c b ->
     exists r, compare a b = (r, true) /\ compare b a = (- r, true) /\ DB_LT <= r <= DB_GT)
  /\ (forall a b d r1 r2, ordered_value c a -> ordered_value c b -> ordered_value c d ->
      compare a b = (r1, true) -> compare b d = (r2, true) -> r1 <= 0 -> r2 <= 0 ->
      exists r, compare a d = (r, true) /\ r <= 0)
  /\ (forall alloc v, column_value c v ->
      pr_clone_value alloc v = (NO_ERROR, if alloc || negb (is_string v) then v else VNull)).
Proof.
  intros Hc compare. unfold compare. split_and!.
  - intros a b Ha Hb. rewrite !(tp_compare_key c) by done. eexists. split; [done|].
    split; [by rewrite pad_compare_opp|apply pad_compare_range].
  - intros a b d r1 r2 Ha Hb Hd. rewrite !(tp_compare_key c) by done. intros [= <-] [= <-] H1 H2.
    eexists. split; [done|]. by eapply pad_compare_trans.
  - intros alloc v Hv. pose proof (clone_value c v Hv) as Ev. destruct alloc; [done|].
    destruct v; done || exact Ev.
Qed.

Lemma column_values_ordered_witness :
  exists r, tp_value_compare (VInteger 3) (VInteger 5) true true = (r, true)
    /\ tp_value_compare (VInteger 5) (VInteger 3) true true = (- r, true) /\ DB_LT <= r <= DB_GT.
Proof.
  apply (proj1 (column_values_ordered (mkColumn DB_TYPE_INTEGER 0 0 LANG_COLL_UTF8_BINARY) true true
           ltac:(by split))); (split; [|done]); split; cbn; done || lia.
Defined.

(** C34: two ways in which the comparison and the copy of values fail.  Two
    bit strings are never comparable, and tp_value_compare answers less in both
    directions, so that a sort of the first rows by bit strings has no order to
    follow; a NaN compares equal to every double.  pr_clone_value reports
    success when there is no memory for a string and leaves null in its place. *)
Theorem value_faults `{Co : TP_COERCE} :
  (forall p1 b1 s1 p2 b2 s2 do_coercion total_order,
     tp_value_compare (VVarbit p1 b1 s1) (VVarbit p2 b2 s2) do_coercion total_order = (DB_LT, false))
  /\ (forall d nan do_coercion total_order, is_nan nan = true ->
      tp_value_compare (VDouble nan) (VDouble d) do_coercion total_order = (DB_EQ, true))
  /\ (forall prec str coll, pr_clone_value false (VVarchar prec str coll) = (NO_ERROR, VNull)).
Proof.
  split_and!.
  - intros. by destruct do_coercion.
  - intros d nan dc total_order Hn. change (tp_value_compare _ _ _ _) with (mr_cmpval_double nan d, true).
    f_equal. unfold mr_cmpval_double, MR_CMP_double. unfold is_nan in Hn.
    destruct (double_of_bits nan); try done; by destruct (double_of_bits d).
  - done.
Qed.

Lemma value_faults_witness :
  tp_value_compare (VDouble 9221120237041090560) (VDouble 0) true true = (DB_EQ, true)
  /\ tp_value_compare (VDouble 9221120237041090560) (VDouble 4607182418800017408) true true = (DB_EQ, true).
Proof. destruct value_faults as (_ & H & _). split; by apply H. Defined.
