(* ===== verification/TopN.v ===== *)
(** * Top-N sort (src/query/query_executor.c)

    ORDER BY ... LIMIT keeps the N smallest tuples in a bounded max-heap of
    pointers into an array of tuples.  The comparison function of the heap
    reads the tuples behind the pointers, and the tuple of the root is
    overwritten in place before the heap is repaired.  Values are compared with
    tp_value_compare and copied with pr_clone_value.  The file shows that the
    heap holds N smallest tuples among those seen, and that the array made of
    it lists them in the requested order. *)
From Stdlib Require Import ZArith Lia ZifyBool.
From stdpp Require Import base list numbers sorting.
From S2P Require Import Prelude StorageCommon BinaryHeap.
From S2P Require Import NumericValue Collation Primitive PrimitiveDisk PrimitiveCompare.

(** ** Data *)

Inductive SORT_ORDER := S_ASC | S_DESC.
Inductive SORT_NULLS := S_NULLS_FIRST | S_NULLS_LAST.

#[export] Instance SORT_ORDER_eq_dec : EqDecision SORT_ORDER.
Proof. solve_decision. Defined.
#[export] Instance SORT_NULLS_eq_dec : EqDecision SORT_NULLS.
Proof. solve_decision. Defined.

Record SORT_LIST := mkSortKey {
  pos_no : nat;
  s_order : SORT_ORDER;
  s_nulls : SORT_NULLS }.

Inductive TOPN_STATUS := TOPN_SUCCESS | TOPN_OVERFLOW | TOPN_FAILURE.

Record TOPN_TUPLE := mkTuple {
  values : option (list VALUE);
  values_size : Z }.

Record QFILE_TUPLE_DESCRIPTOR := mkDescr {
  tpl_size : Z;
  f_valp : list VALUE }.

(** A pointer to a tuple is its place in the array, None the null pointer. *)
Notation TUPLE_PTR := (option nat).

Record TOPN_TUPLES := mkTopn {
  sort_items : list SORT_LIST;
  heap : BINARY_HEAP TUPLE_PTR;
  tuples : list TOPN_TUPLE;
  total_size : Z;
  max_size : Z }.

Section Operations.
Context `{Co : TP_COERCE}.

(** ** Comparison *)

Definition qexec_topn_cmpval (left right : VALUE) (sort_spec : SORT_LIST) : BH_CMP_RESULT :=
  if VALUE_IS_NULL left && VALUE_IS_NULL right then BH_EQ
  else
    let flip :=
      (bool_decide (s_order sort_spec = S_ASC) && bool_decide (s_nulls sort_spec = S_NULLS_LAST))
      || (bool_decide (s_order sort_spec = S_DESC)
          && bool_decide (s_nulls sort_spec = S_NULLS_FIRST)) in
    let cmp :=
      if VALUE_IS_NULL left then (if flip then - DB_LT else DB_LT)
      else if VALUE_IS_NULL right then (if flip then - DB_GT else DB_GT)
      else (tp_value_compare left right true true).1 in
    let cmp := if decide (s_order sort_spec = S_DESC) then - cmp else cmp in
    if cmp =? DB_GT then BH_GT
    else if cmp =? DB_LT then BH_LT
    else if cmp =? DB_EQ then BH_EQ
    else BH_CMP_ERROR.

(** The loop over the sort keys, on two arrays of values. *)
Fixpoint compare_keys (keys : list SORT_LIST) (left right : list VALUE) : BH_CMP_RESULT :=
  match keys with
  | [] => BH_EQ
  | key :: keys =>
      let cmp := qexec_topn_cmpval (nth (pos_no key) left VNull) (nth (pos_no key) right VNull)
                   key in
      match cmp with
      | BH_EQ => compare_keys keys left right
      | _ => cmp
      end
  end.

Definition tuple_vals (tuple : TOPN_TUPLE) : list VALUE := default [] (values tuple).

(** The values behind a pointer. *)
Definition ptr_vals (ts : list TOPN_TUPLE) (p : TUPLE_PTR) : list VALUE :=
  match p with
  | Some i => match ts !! i with Some tuple => tuple_vals tuple | None => [] end
  | None => []
  end.

Definition qexec_topn_compare (keys : list SORT_LIST) (ts : list TOPN_TUPLE)
    (left right : TUPLE_PTR) : BH_CMP_RESULT :=
  compare_keys keys (ptr_vals ts left) (ptr_vals ts right).

(** ** Operations *)

(** The memory a copy of a tuple finds: for the array, and for the value at
    each position. *)
Record MEMORY := mkMemory {
  m_array : bool;
  m_value : nat -> bool }.

(** The loop over the values, from position [i]. *)
Fixpoint clone_values (alloc : nat -> bool) (i : nat) (vals : list VALUE) : option (list VALUE) :=
  match vals with
  | [] => Some []
  | v :: vals =>
      let '(error, copy) := pr_clone_value (alloc i) v in
      if negb (error =? NO_ERROR) then None
      else copies ← clone_values alloc (S i) vals; Some (copy :: copies)
  end.

Definition qdata_tuple_to_values_array (m : MEMORY) (tuple : QFILE_TUPLE_DESCRIPTOR)
    : option (list VALUE) :=
  if m_array m then clone_values (m_value m) 0 (f_valp tuple) else None.

Definition qexec_clear_topn_tuple (tuple : TOPN_TUPLE) : TOPN_TUPLE := mkTuple None 0.

(** The end of qexec_setup_topn_proc, for an upper bound that is positive. *)
Definition qexec_setup_topn_proc (ok : bool) (ubound : nat) (keys : list SORT_LIST) (max_size : Z)
    : option (TOPN_TUPLES) :=
  if ok then
    heap ← bh_create None true ubound;
    Some (mkTopn keys heap (replicate ubound (mkTuple None 0)) 0 max_size)
  else None.

Definition set_tuple (t : TOPN_TUPLES) (i : nat) (tuple : TOPN_TUPLE) (total : Z)
    : TOPN_TUPLES :=
  mkTopn (sort_items t) (heap t) (<[i := tuple]> (tuples t)) total (max_size t).

Definition set_heap (t : TOPN_TUPLES) (h : BINARY_HEAP TUPLE_PTR) : TOPN_TUPLES :=
  mkTopn (sort_items t) h (tuples t) (total_size t) (max_size t).

Definition topn_cmp (t : TOPN_TUPLES) : TUPLE_PTR -> TUPLE_PTR -> BH_CMP_RESULT :=
  qexec_topn_compare (sort_items t) (tuples t).

(** The branch for a heap that is not full. *)
Definition append_tuple (m : MEMORY) (t : TOPN_TUPLES) (tpldescr : QFILE_TUPLE_DESCRIPTOR)
    : TOPN_STATUS * TOPN_TUPLES :=
  let idx := element_count (heap t) in
  if uwrap 64 (total_size t + tpl_size tpldescr) >? max_size t then (TOPN_OVERFLOW, t)
  else
    match qdata_tuple_to_values_array m tpldescr with
    | None =>
        let size := match tuples t !! idx with Some tpl => values_size tpl | None => 0 end in
        (TOPN_FAILURE, set_tuple t idx (mkTuple None size) (total_size t))
    | Some vals =>
        let t := set_tuple t idx (mkTuple (Some vals) (tpl_size tpldescr))
                   (uwrap 64 (total_size t + tpl_size tpldescr)) in
        (TOPN_SUCCESS, set_heap t (bh_insert None (topn_cmp t) (heap t) (Some idx)).2)
    end.

(** The branch that overwrites the tuple [p] of the root. *)
Definition replace_max (m : MEMORY) (t : TOPN_TUPLES) (p : nat) (heap_max : TOPN_TUPLE)
    (tpldescr : QFILE_TUPLE_DESCRIPTOR) : TOPN_STATUS * TOPN_TUPLES :=
  let rest := uwrap 64 (total_size t - values_size heap_max) in
  if uwrap 64 (rest + tpl_size tpldescr) >? max_size t then (TOPN_OVERFLOW, t)
  else
    let heap_max := qexec_clear_topn_tuple heap_max in
    match qdata_tuple_to_values_array m tpldescr with
    | None => (TOPN_FAILURE, set_tuple t p heap_max rest)
    | Some vals =>
        let t := set_tuple t p (mkTuple (Some vals) (tpl_size tpldescr))
                   (uwrap 64 (rest + tpl_size tpldescr)) in
        (TOPN_SUCCESS, set_heap t (bh_down_heap None (topn_cmp t) (heap t) 0))
    end.

(** None when the root of a full heap is the null pointer, which the code
    would dereference. *)
Definition qexec_add_tuple_to_topn (m : MEMORY) (t : TOPN_TUPLES)
    (tpldescr : QFILE_TUPLE_DESCRIPTOR) : option (TOPN_STATUS * TOPN_TUPLES) :=
  if negb (bh_is_full (heap t)) then Some (append_tuple m t tpldescr)
  else
    p ← bh_peek_max None (heap t);
    heap_max ← tuples t !! p;
    match compare_keys (sort_items t) (tuple_vals heap_max) (f_valp tpldescr) with
    | BH_LT | BH_EQ => Some (TOPN_SUCCESS, t)
    | _ => Some (replace_max m t p heap_max tpldescr)
    end.

(** The tuples of a scan, until one of them is not added; each comes with the
    memory for its copy. *)
Fixpoint add_all (t : TOPN_TUPLES) (ds : list (MEMORY * QFILE_TUPLE_DESCRIPTOR))
    : option (TOPN_STATUS * TOPN_TUPLES) :=
  match ds with
  | [] => Some (TOPN_SUCCESS, t)
  | (m, d) :: ds =>
      r ← qexec_add_tuple_to_topn m t d;
      match r with
      | (TOPN_SUCCESS, t) => add_all t ds
      | _ => Some r
      end
  end.

(** The rows qexec_topn_tuples_to_list_id goes through: heap->members[row] for
    row below element_count after bh_to_sorted_array. *)
Definition topn_rows (t : TOPN_TUPLES) : list (list VALUE) :=
  ptr_vals (tuples t) <$> elements (bh_to_sorted_array None (topn_cmp t) (heap t)).
End Operations.

(** ** The comparison functions are total orders *)

(** The laws of the heap with, in addition, that no comparison fails. *)
Class TotalCmp {A} (cmp : A -> A -> BH_CMP_RESULT) : Prop := {
  total_laws :: CmpLaws cmp;
  total_no_error a b : cmp a b <> BH_CMP_ERROR }.

Section TotalCmp.
Context {A : Type} (cmp : A -> A -> BH_CMP_RESULT) `{!TotalCmp cmp}.

Lemma cmp_eq_sym a b : cmp a b = BH_EQ -> cmp b a = BH_EQ.
Proof.
  intros H. pose proof (cmp_gt_lt a b). pose proof (cmp_gt_lt b a).
  pose proof (total_no_error b a). destruct (cmp b a); intuition congruence.
Qed.

Lemma lt_le_lt a b c : cmp a b = BH_LT -> le cmp b c -> cmp a c = BH_LT.
Proof.
  intros H1 H2. destruct (decide (cmp a c = BH_LT)) as [|Hn]; [done|].
  apply not_lt_le in Hn; [|apply _]. apply cmp_gt_lt in H1.
  by destruct (le_trans cmp b c a H2 Hn).
Qed.

Lemma le_lt_lt a b c : le cmp a b -> cmp b c = BH_LT -> cmp a c = BH_LT.
Proof.
  intros H1 H2. destruct (decide (cmp a c = BH_LT)) as [|Hn]; [done|].
  apply not_lt_le in Hn; [|apply _]. apply cmp_gt_lt in H2.
  by destruct (le_trans cmp c a b Hn H1).
Qed.

Lemma eq_eq_eq a b c : cmp a b = BH_EQ -> cmp b c = BH_EQ -> cmp a c = BH_EQ.
Proof.
  intros H1 H2.
  assert (le cmp a c) by (apply le_trans with b; [apply _|unfold le; congruence..]).
  assert (le cmp c a) as Hca.
  { apply le_trans with b; [apply _|..]; unfold le;
      [by rewrite (cmp_eq_sym b c)|by rewrite (cmp_eq_sym a b)]. }
  unfold le in *. pose proof (cmp_gt_lt c a). pose proof (total_no_error a c).
  destruct (cmp a c); intuition congruence.
Qed.
End TotalCmp.

(** ** The order of the rows *)

(** The order the rows are to be listed in, independent of how the code compares
    them: by the keys of their values (PrimitiveCompare), nulls before or behind
    the other values. *)
Definition sort_key (c : COLUMN) (v : VALUE) : option (list Z) :=
  if VALUE_IS_NULL v then None else Some (value_key (col_collation c) v).

Definition null_first (spec : SORT_LIST) : bool := bool_decide (s_nulls spec = S_NULLS_FIRST).

Definition key_cmpval (spec : SORT_LIST) (a b : option (list Z)) : BH_CMP_RESULT :=
  let result c := if c =? 0 then BH_EQ else if c <? 0 then BH_LT else BH_GT in
  match a, b with
  | None, None => BH_EQ
  | None, Some _ => if null_first spec then BH_LT else BH_GT
  | Some _, None => if null_first spec then BH_GT else BH_LT
  | Some x, Some y => result (if decide (s_order spec = S_DESC) then pad_compare y x else pad_compare x y)
  end.

Section Order.
Context (cols : list COLUMN).

Definition key_at (row : list VALUE) (spec : SORT_LIST) : option (list Z) :=
  match cols !! pos_no spec with
  | Some c => sort_key c (nth (pos_no spec) row VNull)
  | None => None
  end.

Fixpoint row_compare (keys : list SORT_LIST) (a b : list VALUE) : BH_CMP_RESULT :=
  match keys with
  | [] => BH_EQ
  | key :: keys =>
      match key_cmpval key (key_at a key) (key_at b key) with
      | BH_EQ => row_compare keys a b
      | cmp => cmp
      end
  end.

Definition row_le (keys : list SORT_LIST) (a b : list VALUE) : Prop := le (row_compare keys) a b.

Lemma key_cmpval_laws key : TotalCmp (key_cmpval key).
Proof.
  pose proof pad_compare_range as HR. pose proof pad_compare_opp as HO. pose proof pad_compare_trans as HT.
  split; [split|]; unfold key_cmpval, null_first; destruct key as [pos [] []]; cbn [s_order s_nulls];
    intros [x|] [y|]; try intros [z|]; cbn; try done;
    try (pose proof (HR x y)); try (pose proof (HO x y)); try (pose proof (HO y x));
    try (pose proof (HR y z)); try (pose proof (HO y z)); try (pose proof (HO z y));
    try (pose proof (HR x z)); try (pose proof (HO x z)); try (pose proof (HO z x));
    try (pose proof (HT x y z)); try (pose proof (HT z y x));
    repeat zcase; (done || (split; (done || lia)) || lia).
Qed.

#[export] Instance row_compare_laws keys : TotalCmp (row_compare keys).
Proof.
  induction keys as [|key keys IH]; [by repeat split|].
  pose proof (key_cmpval_laws key) as Hk.
  set (f := fun a b : list VALUE => key_cmpval key (key_at a key) (key_at b key)).
  assert (TotalCmp f) as Hf.
  { split; [split|]; intros; unfold f; try eapply (total_no_error (TotalCmp := Hk)).
    - apply (cmp_gt_lt (CmpLaws := total_laws (TotalCmp := Hk))).
    - by eapply (cmp_le_trans (CmpLaws := total_laws (TotalCmp := Hk))). }
  assert (forall a b, row_compare (key :: keys) a b
            = match f a b with BH_EQ => row_compare keys a b | c => c end) as E by done.
  clearbody f. split; [split|].
  - intros a b. rewrite !E. pose proof (cmp_gt_lt (cmp := f) a b).
    pose proof (cmp_gt_lt (cmp := f) b a). pose proof (cmp_eq_sym f a b).
    pose proof (cmp_eq_sym f b a). pose proof (cmp_gt_lt (cmp := row_compare keys) a b).
    pose proof (total_no_error (cmp := f) a b). pose proof (total_no_error (cmp := f) b a).
    destruct (f a b), (f b a); intuition congruence.
  - intros a b c. rewrite !E. pose proof (total_no_error (cmp := f) a b).
    pose proof (total_no_error (cmp := f) b c).
    destruct (f a b) eqn:E1, (f b c) eqn:E2; try done; intros H1 H2.
    + rewrite (lt_le_lt f a b c); [done|done|unfold le; congruence].
    + rewrite (lt_le_lt f a b c); [done|done|unfold le; congruence].
    + rewrite (le_lt_lt f a b c); [done|unfold le; congruence|done].
    + rewrite (eq_eq_eq f a b c) by done. by eapply (cmp_le_trans (cmp := row_compare keys)).
  - intros a b. rewrite E. pose proof (total_no_error (cmp := f) a b).
    pose proof (total_no_error (cmp := row_compare keys) a b). by destruct (f a b).
Qed.

(** ** The rows the code can compare *)

(** The sort keys are columns of the rows that are not of bit strings. *)
Definition keys_ok (keys : list SORT_LIST) : Prop :=
  Forall (fun key => exists c, cols !! pos_no key = Some c /\ orderable c) keys.

(** A row of the columns: values or nulls, and no NaN in a sort key. *)
Definition row_ok (keys : list SORT_LIST) (row : list VALUE) : Prop :=
  Forall2 column_value cols row
  /\ Forall (fun key => match row !! pos_no key with Some (VDouble d) => is_nan d = false | _ => True end) keys.

(** The values at the sort keys have a place in the order. *)
Definition keyed (keys : list SORT_LIST) (row : list VALUE) : Prop :=
  Forall (fun key => forall c, cols !! pos_no key = Some c ->
    let v := nth (pos_no key) row VNull in VALUE_IS_NULL v = true \/ ordered_value c v) keys.

Lemma row_ok_keyed keys row : row_ok keys row -> keyed keys row.
Proof.
  intros [Hr Hn]. eapply Forall_impl; [exact Hn|]. intros key Hk c Hc.
  destruct (Forall2_lookup_l _ _ _ _ _ Hr Hc) as (v & Hv & Hcv). cbn beta in *.
  rewrite (nth_lookup_Some _ _ _ _ Hv). rewrite Hv in Hk. destruct Hcv as [?|Hok]; [by left|].
  right. split; [done|]. by destruct v.
Qed.

Lemma keyed_nil keys : keyed keys [].
Proof. apply Forall_forall. intros key _ c _. left. by destruct (pos_no key). Qed.

Context `{Co : TP_COERCE}.

Lemma cmpval_key_cmpval key c a b :
  orderable c -> VALUE_IS_NULL a = true \/ ordered_value c a -> VALUE_IS_NULL b = true \/ ordered_value c b ->
  qexec_topn_cmpval a b key = key_cmpval key (sort_key c a) (sort_key c b).
Proof.
  intros Hc Ha Hb. unfold qexec_topn_cmpval, key_cmpval, sort_key, null_first, DB_LT, DB_GT, DB_EQ.
  destruct (VALUE_IS_NULL a) eqn:Na, (VALUE_IS_NULL b) eqn:Nb; cbn [andb].
  1-3: by destruct key as [pos [] []].
  destruct Ha as [?|Ha]; [done|]. destruct Hb as [?|Hb]; [done|].
  rewrite (tp_compare_key c) by done. cbn [fst]. set (x := value_key _ a). set (y := value_key _ b).
  pose proof (pad_compare_range x y). pose proof (pad_compare_opp x y).
  destruct key as [pos [] ns]; cbn; repeat zcase; done || lia.
Qed.

(** On such rows the code compares as the order says. *)
Lemma compare_keys_row keys a b :
  keys_ok keys -> keyed keys a -> keyed keys b -> compare_keys keys a b = row_compare keys a b.
Proof.
  induction 1 as [|key keys (c & Hc & Ho) _ IH]; [done|]. unfold keyed. rewrite !Forall_cons.
  intros [Ha Has] [Hb Hbs]. cbn [compare_keys row_compare]. unfold key_at. rewrite Hc.
  rewrite (cmpval_key_cmpval key c) by auto. rewrite IH by done. by destruct (key_cmpval _ _ _).
Qed.

Lemma ptr_vals_keyed keys (ts : list TOPN_TUPLE) p :
  Forall (fun tp => keyed keys (tuple_vals tp)) ts -> keyed keys (ptr_vals ts p).
Proof.
  intros Hts. destruct p as [i|]; [|apply keyed_nil]. cbn. destruct (ts !! i) as [tp|] eqn:Ht; [|apply keyed_nil].
  by apply (Forall_lookup_1 _ _ _ _ Hts Ht).
Qed.

Lemma topn_cmp_row (t : TOPN_TUPLES) p q :
  keys_ok (sort_items t) -> Forall (fun tp => keyed (sort_items t) (tuple_vals tp)) (tuples t) ->
  topn_cmp t p q = row_compare (sort_items t) (ptr_vals (tuples t) p) (ptr_vals (tuples t) q).
Proof.
  intros Hk Hts. unfold topn_cmp, qexec_topn_compare. apply compare_keys_row; [done|..]; by apply ptr_vals_keyed.
Qed.

Lemma topn_cmp_laws (t : TOPN_TUPLES) :
  keys_ok (sort_items t) -> Forall (fun tp => keyed (sort_items t) (tuple_vals tp)) (tuples t) ->
  CmpLaws (topn_cmp t).
Proof.
  intros Hk Hts. split; intros; rewrite !topn_cmp_row in * by done.
  - apply cmp_gt_lt.
  - by eapply (cmp_le_trans (cmp := row_compare (sort_items t))).
Qed.

(** A copy with memory is the row. *)
Lemma values_array_same keys m d :
  row_ok keys (f_valp d) -> (forall i, m_value m i = true) ->
  qdata_tuple_to_values_array m d = if m_array m then Some (f_valp d) else None.
Proof.
  intros [Hr _] Hm. unfold qdata_tuple_to_values_array. destruct (m_array m); [|done].
  generalize 0%nat. induction Hr as [|c v cs vs Hv _ IH]; intros i; [done|]. cbn [clone_values].
  by rewrite Hm, (clone_value c v Hv), (IH (S i)).
Qed.
End Order.

(** ** The invariant *)

(** Replacing an element of a list, up to order. *)
Lemma insert_elements_perm {A} (l : list A) i x y : l !! i = Some y -> y :: <[i := x]> l ≡ₚ x :: l.
Proof.
  revert i. induction l as [|z l IH]; intros [|i] H; simplify_eq/=; [apply Permutation_swap|].
  rewrite Permutation_swap, (IH i) by done. apply Permutation_swap.
Qed.

Section Invariant.
Context `{Co : TP_COERCE} (cols : list COLUMN).
Implicit Types t : TOPN_TUPLES.
Notation row_le := (row_le cols).

Definition kept (t : TOPN_TUPLES) : list TOPN_TUPLE := take (element_count (heap t)) (tuples t).

(** Rows [o] are among [l], as many as fit in [n], and none of the others is
    smaller. *)
Definition smallest (keys : list SORT_LIST) (n : nat) (l o : list (list VALUE)) : Prop :=
  exists rest, o ++ rest ≡ₚ l
    /\ (forall x y, x ∈ o -> y ∈ rest -> row_le keys x y)
    /\ (rest = [] /\ (length o <= n)%nat \/ length o = n).

Record topn_ok (t : TOPN_TUPLES) (l : list (list VALUE)) : Prop := {
  ok_keys : keys_ok cols (sort_items t);
  ok_keyed : Forall (fun tp => keyed cols (sort_items t) (tuple_vals tp)) (tuples t);
  ok_heap : heap_wf None (topn_cmp t) (heap t);
  ok_capacity : (0 < max_capacity (heap t))%nat;
  ok_tuples : length (tuples t) = max_capacity (heap t);
  ok_pointers : elements (heap t) ≡ₚ Some <$> seq 0 (element_count (heap t));
  ok_sizes : Forall (fun tp => 0 <= values_size tp < 2 ^ 31) (kept t);
  ok_total : total_size t = sumZ (values_size <$> kept t);
  ok_max : total_size t <= max_size t < 2 ^ 63;
  ok_rows : smallest (sort_items t) (max_capacity (heap t)) l (tuple_vals <$> kept t) }.

Lemma ok_laws t l : topn_ok t l -> CmpLaws (topn_cmp t).
Proof. intros H. apply (topn_cmp_laws cols); apply H. Qed.

Lemma ok_cmp_row t l p q :
  topn_ok t l ->
  topn_cmp t p q = row_compare cols (sort_items t) (ptr_vals (tuples t) p) (ptr_vals (tuples t) q).
Proof. intros H. apply topn_cmp_row; apply H. Qed.

Lemma pointers_length t l : topn_ok t l -> length (kept t) = element_count (heap t).
Proof.
  intros H. unfold kept. rewrite length_take, (ok_tuples _ _ H).
  destruct (ok_heap _ _ H). lia.
Qed.

(** The pointers of the heap, by position. *)
Lemma pointer_at t l i :
  topn_ok t l -> (i < element_count (heap t))%nat ->
  exists k tp, BH_ELEMENT None (members (heap t)) i = Some k /\ (k < element_count (heap t))%nat
    /\ tuples t !! k = Some tp /\ kept t !! k = Some tp.
Proof.
  intros H Hi. destruct (ok_heap _ _ H) as (Hc & Hl & _).
  assert (BH_ELEMENT None (members (heap t)) i ∈ elements (heap t)) as Hin.
  { apply list_elem_of_lookup. exists i. unfold elements. rewrite lookup_take_lt by done.
    apply elem_lookup. lia. }
  rewrite (ok_pointers _ _ H) in Hin.
  apply list_elem_of_fmap in Hin as (k & -> & Hk%elem_of_seq).
  destruct (lookup_lt_is_Some_2 (tuples t) k) as [tp Htp]; [rewrite (ok_tuples _ _ H); lia|].
  exists k, tp. split; [done|]. split; [lia|]. split; [done|].
  unfold kept. by rewrite lookup_take_lt by lia.
Qed.

Lemma pointers_differ t l i j k :
  topn_ok t l -> (i < element_count (heap t))%nat -> (j < element_count (heap t))%nat ->
  BH_ELEMENT None (members (heap t)) i = Some k -> BH_ELEMENT None (members (heap t)) j = Some k ->
  i = j.
Proof.
  intros H Hi Hj Ei Ej. destruct (ok_heap _ _ H) as (Hc & Hl & _).
  assert (NoDup (elements (heap t))) as Hn.
  { rewrite (ok_pointers _ _ H). apply NoDup_fmap_2; [apply _|apply NoDup_seq]. }
  eapply NoDup_lookup; [exact Hn|..]; unfold elements; rewrite lookup_take_lt by done.
  - rewrite (elem_lookup None) by lia. by rewrite Ei.
  - rewrite (elem_lookup None) by lia. by rewrite Ej.
Qed.

(** The root of the heap points to a largest row. *)
Lemma root_max t l p tp :
  topn_ok t l -> (0 < element_count (heap t))%nat ->
  bh_peek_max None (heap t) = Some p -> tuples t !! p = Some tp ->
  (p < element_count (heap t))%nat /\ kept t !! p = Some tp
  /\ forall x, x ∈ tuple_vals <$> kept t -> row_le (sort_items t) x (tuple_vals tp).
Proof.
  intros H Hc Hp Htp. pose proof (ok_laws t l H) as Hlaws.
  destruct (peek_max_spec None (topn_cmp t) (heap t) (ok_heap _ _ H) Hc) as [Hin Hmax].
  rewrite Hp, (ok_pointers _ _ H) in Hin.
  apply list_elem_of_fmap in Hin as (? & [= <-] & Hk%elem_of_seq).
  split; [lia|]. split; [unfold kept; by rewrite lookup_take_lt by lia|].
  intros x (tp' & -> & [k Htp']%list_elem_of_lookup)%list_elem_of_fmap.
  apply lookup_take_Some in Htp' as [Htp' Hlt].
  rewrite (ok_pointers _ _ H), Forall_forall in Hmax.
  assert (Some k ∈ Some <$> seq 0 (element_count (heap t))) as Hin.
  { apply list_elem_of_fmap_2, elem_of_seq. lia. }
  specialize (Hmax _ Hin). rewrite Hp in Hmax. unfold le in Hmax. rewrite (ok_cmp_row t l) in Hmax by done.
  cbn [ptr_vals] in Hmax. by rewrite Htp', Htp in Hmax.
Qed.

Lemma total_bounds t l :
  topn_ok t l -> 0 <= total_size t /\ Forall (fun tp => values_size tp <= total_size t) (kept t).
Proof.
  intros H. rewrite (ok_total _ _ H). pose proof (ok_sizes _ _ H) as Hs. revert Hs.
  induction (kept t) as [|tp ts IH]; intros Hs; [split; [done|constructor]|].
  apply Forall_cons in Hs as [Htp Hs]. destruct (IH Hs) as [H1 H2].
  rewrite fmap_cons. cbn [sumZ]. split; [lia|]. constructor; [lia|].
  eapply Forall_impl; [exact H2|]. intros; cbn in *; lia.
Qed.
End Invariant.

Section Smallest.
Context (cols : list COLUMN).
Implicit Types l o : list (list VALUE).
Notation row_le := (row_le cols).
Notation smallest := (smallest cols).

#[export] Instance smallest_perm keys n :
  Proper ((≡ₚ) ==> (≡ₚ) ==> iff) (smallest keys n).
Proof.
  intros l l' Hl o o' Ho. unfold smallest. apply exist_proper. intros rest.
  rewrite Hl, (Permutation_length Ho). split; intros (H1 & H2 & H3).
  - rewrite <- Ho at 1. split; [done|]. split; [|done]. intros x y Hx. apply H2. by rewrite Ho.
  - rewrite Ho at 1. split; [done|]. split; [|done]. intros x y Hx. apply H2. by rewrite <- Ho.
Qed.

Lemma smallest_add keys n l o x :
  smallest keys n l o -> (length o < n)%nat -> smallest keys n (l ++ [x]) (o ++ [x]).
Proof.
  intros (rest & Hp & Hle & [[-> _]|Hn]) Hlt; [|lia].
  exists []. rewrite app_nil_r in *. split; [by rewrite Hp|]. split.
  - intros ? y _ Hy. by apply not_elem_of_nil in Hy.
  - left. split; [done|]. rewrite length_app. cbn. lia.
Qed.

Lemma smallest_skip keys n l o x :
  smallest keys n l o -> length o = n -> (forall z, z ∈ o -> row_le keys z x) ->
  smallest keys n (l ++ [x]) o.
Proof.
  intros (rest & Hp & Hle & _) Hn Hx. exists (x :: rest). split; [|split; [|by right]].
  - rewrite <- Hp, <- Permutation_middle. by rewrite (Permutation_app_comm _ [x]).
  - intros z y Hz [->|Hy]%elem_of_cons; [by apply Hx|by apply Hle].
Qed.

Lemma smallest_replace keys n l o p x y :
  smallest keys n l o -> length o = n -> o !! p = Some y ->
  (forall z, z ∈ o -> row_le keys z y) -> row_le keys x y ->
  smallest keys n (l ++ [x]) (<[p := x]> o).
Proof.
  intros (rest & Hp & Hle & _) Hn Hy Hmax Hx. exists (y :: rest).
  split; [|split; [|right; by rewrite length_insert]].
  - rewrite <- Permutation_middle, app_comm_cons, (insert_elements_perm o p x y Hy).
    rewrite <- Hp. cbn. by rewrite (Permutation_app_comm _ [x]).
  - assert (y ∈ o) as Hin by (by eapply list_elem_of_lookup_2).
    intros z w Hz Hw.
    assert (row_le keys y w) as Hyw.
    { apply elem_of_cons in Hw as [->|Hw]; [|by apply Hle]. apply le_refl. apply _. }
    assert (row_le keys z y); [|by eapply le_trans; [apply _|..]].
    apply list_elem_of_lookup in Hz as [i Hz].
    apply list_lookup_insert_Some in Hz as [(-> & -> & _)|[_ Hz]]; [done|].
    apply Hmax. by eapply list_elem_of_lookup_2.
Qed.
End Smallest.

(** ** Every operation keeps the invariant *)

Section Steps.
Context `{Co : TP_COERCE} (cols : list COLUMN).
Implicit Types t : TOPN_TUPLES.
Implicit Types d : QFILE_TUPLE_DESCRIPTOR.
Notation topn_ok := (topn_ok cols).

(** The descriptor of a row of the columns, and memory for the copies of its
    strings. *)
Definition descr_ok (keys : list SORT_LIST) (d : QFILE_TUPLE_DESCRIPTOR) : Prop :=
  0 <= tpl_size d < 2 ^ 31 /\ row_ok cols keys (f_valp d).
Definition strings_copied (m : MEMORY) : Prop := forall i, m_value m i = true.

(** Heaps under comparison functions that agree on their elements. *)
Lemma heap_wf_ext (cmp cmp' : TUPLE_PTR -> TUPLE_PTR -> BH_CMP_RESULT) (h : BINARY_HEAP TUPLE_PTR) :
  (forall i j, (i < element_count h)%nat -> (j < element_count h)%nat ->
     cmp (BH_ELEMENT None (members h) i) (BH_ELEMENT None (members h) j)
     = cmp' (BH_ELEMENT None (members h) i) (BH_ELEMENT None (members h) j)) ->
  heap_wf None cmp h -> heap_wf None cmp' h.
Proof.
  intros He (H1 & H2 & H3). split; [done|]. split; [done|]. intros j Hj.
  pose proof (BH_PARENT_lt j ltac:(lia)). unfold le. rewrite <- He by lia. by apply H3.
Qed.

(** Overwriting a tuple leaves the rows behind the other pointers. *)
Lemma ptr_vals_other (ts : list TOPN_TUPLE) k q tp :
  q <> k -> ptr_vals (<[k := tp]> ts) (Some q) = ptr_vals ts (Some q).
Proof. intros H. unfold ptr_vals. by rewrite list_lookup_insert_ne. Qed.

Lemma setup_ok n keys ms t :
  (0 < n)%nat -> 0 <= ms < 2 ^ 63 -> keys_ok cols keys ->
  qexec_setup_topn_proc true n keys ms = Some t -> topn_ok t [] /\ max_capacity (heap t) = n.
Proof.
  intros Hn Hm Hk. cbn. intros [= <-]. split; [|done]. split; cbn; try done.
  - apply Forall_replicate. apply keyed_nil.
  - apply (create_wf None _ n). done.
  - by rewrite length_replicate.
  - rewrite take_0. exists []. split; [done|]. split; [|left; split; [done|cbn; lia]].
    intros x y Hx. by apply not_elem_of_nil in Hx.
Qed.

(** A tuple with a row of the columns keeps the tuples comparable. *)
Lemma set_tuple_keyed t l i row size tot :
  topn_ok t l -> keyed cols (sort_items t) row ->
  let t1 := set_tuple t i (mkTuple (Some row) size) tot in
  Forall (fun tp => keyed cols (sort_items t1) (tuple_vals tp)) (tuples t1) /\ CmpLaws (topn_cmp t1).
Proof.
  intros H Hr t1. assert (Forall (fun tp => keyed cols (sort_items t1) (tuple_vals tp)) (tuples t1)) as Hk.
  { cbn. apply Forall_insert; [apply H|done]. }
  split; [done|]. apply (topn_cmp_laws cols); [apply H|done].
Qed.

Lemma append_ok m t l d st t' :
  topn_ok t l -> descr_ok (sort_items t) d -> strings_copied m ->
  (element_count (heap t) < max_capacity (heap t))%nat ->
  append_tuple m t d = (st, t') ->
  match st with
  | TOPN_SUCCESS => topn_ok t' (l ++ [f_valp d]) /\ sort_items t' = sort_items t
                    /\ max_capacity (heap t') = max_capacity (heap t)
  | TOPN_OVERFLOW => t' = t
  | TOPN_FAILURE => m_array m = false
  end.
Proof.
  intros H [Hd Hrow] Hm Hlt. unfold append_tuple. set (n := element_count (heap t)).
  destruct (total_bounds cols t l H) as [H0 _]. pose proof (ok_max _ _ _ H).
  rewrite (uwrap_small 64) by lia. zcase; [by intros [= <- <-]|].
  rewrite (values_array_same cols _ m d Hrow Hm).
  destruct (m_array m); [|by intros [= <- <-]]. intros [= <- <-].
  set (tp := mkTuple (Some (f_valp d)) (tpl_size d)).
  set (t1 := set_tuple t n tp (total_size t + tpl_size d)).
  destruct (set_tuple_keyed t l n (f_valp d) (tpl_size d) (total_size t + tpl_size d) H
              (row_ok_keyed _ _ _ Hrow)) as [Hkeyed Hlaws].
  assert (heap_wf None (topn_cmp t1) (heap t)) as Hw1.
  { eapply heap_wf_ext; [|apply (ok_heap _ _ _ H)]. intros i j Hi Hj.
    destruct (pointer_at cols t l i H Hi) as (k & ? & -> & Hk & _).
    destruct (pointer_at cols t l j H Hj) as (k' & ? & -> & Hk' & _).
    unfold topn_cmp, qexec_topn_compare. cbn [t1 set_tuple tuples sort_items].
    rewrite !ptr_vals_other; [done|unfold n; lia..]. }
  destruct (insert_wf None (topn_cmp t1) (heap t) (Some n) Hw1 Hlt)
    as (h' & Hi & Hw' & Hc & Hmc & He).
  cbn [t1 set_tuple heap]. rewrite Hi. cbn [snd].
  assert (kept (set_heap t1 h') = kept t ++ [tp]) as Hk.
  { unfold kept. cbn [set_heap t1 set_tuple heap tuples]. rewrite Hc. fold n.
    rewrite (take_S_r _ n tp) by (apply list_lookup_insert_eq; rewrite (ok_tuples _ _ _ H); lia).
    by rewrite take_insert_ge by lia. }
  pose proof (pointers_length cols t l H) as Hlen. split; [|by rewrite <- Hmc].
  split; try rewrite Hk; cbn [set_heap t1 set_tuple heap tuples sort_items total_size max_size].
  - apply H.
  - exact Hkeyed.
  - exact Hw'.
  - rewrite Hmc. lia.
  - by rewrite length_insert, Hmc, (ok_tuples _ _ _ H).
  - rewrite He, Hc, (ok_pointers _ _ _ H), seq_S, fmap_app. cbn. by rewrite Permutation_app_comm.
  - apply Forall_app. split; [apply (ok_sizes _ _ _ H)|]. by constructor; [|constructor].
  - rewrite fmap_app, sumZ_app, (ok_total _ _ _ H). cbn. lia.
  - lia.
  - rewrite fmap_app, Hmc. apply smallest_add; [apply (ok_rows _ _ _ H)|].
    rewrite length_fmap. lia.
Qed.

(** Overwriting the tuple of the root leaves a heap but for the root, which
    bh_down_heap repairs. *)
Lemma replaced_heap t l p row size tot :
  topn_ok t l -> keyed cols (sort_items t) row -> bh_is_full (heap t) = true -> bh_peek_max None (heap t) = Some p ->
  let t1 := set_tuple t p (mkTuple (Some row) size) tot in
  heap_wf None (topn_cmp t1) (bh_down_heap None (topn_cmp t1) (heap t) 0)
  /\ elements (bh_down_heap None (topn_cmp t1) (heap t) 0) ≡ₚ elements (heap t).
Proof.
  intros H Hrow Hf Hp t1. destruct (ok_heap _ _ _ H) as (Hc & Hl & Hh).
  destruct (set_tuple_keyed t l p row size tot H Hrow) as [_ Hlaws].
  pose proof (ok_capacity _ _ _ H) as Hcap. unfold bh_is_full in Hf.
  assert (BH_ELEMENT None (members (heap t)) 0 = Some p) as Hroot.
  { unfold bh_peek_max in Hp. by replace (element_count (heap t) =? 0)%nat with false in Hp by lia. }
  assert (forall i k, (0 < i < element_count (heap t))%nat ->
            BH_ELEMENT None (members (heap t)) i = Some k -> k <> p) as Hne.
  { intros i k Hi Hk ->. assert (i = 0%nat); [|lia].
    eapply (pointers_differ cols t l); [done|lia|lia|done|done]. }
  apply down_root_wf; [apply _|done|done|]. intros j Hj Hpj. pose proof (BH_PARENT_lt j ltac:(lia)).
  specialize (Hh j ltac:(lia)). revert Hh.
  destruct (pointer_at cols t l j H) as (k & ? & Ek & _); [lia|].
  destruct (pointer_at cols t l (BH_PARENT j) H) as (k' & ? & Ek' & _); [lia|].
  pose proof (Hne j k ltac:(lia) Ek). pose proof (Hne (BH_PARENT j) k' ltac:(lia) Ek').
  unfold le, topn_cmp, qexec_topn_compare. rewrite Ek, Ek'. cbn [t1 set_tuple tuples sort_items].
  by rewrite !ptr_vals_other.
Qed.

Lemma replace_ok m t l d p tp st t' :
  topn_ok t l -> descr_ok (sort_items t) d -> strings_copied m -> bh_is_full (heap t) = true ->
  bh_peek_max None (heap t) = Some p -> tuples t !! p = Some tp ->
  row_compare cols (sort_items t) (tuple_vals tp) (f_valp d) = BH_GT ->
  replace_max m t p tp d = (st, t') ->
  match st with
  | TOPN_SUCCESS => topn_ok t' (l ++ [f_valp d]) /\ sort_items t' = sort_items t
                    /\ max_capacity (heap t') = max_capacity (heap t)
  | TOPN_OVERFLOW => t' = t
  | TOPN_FAILURE => m_array m = false
  end.
Proof.
  intros H [Hd Hrow] Hm Hf Hp Htp Hgt. unfold replace_max, qexec_clear_topn_tuple.
  destruct (ok_heap _ _ _ H) as (Hc & _). pose proof (ok_capacity _ _ _ H) as Hcap.
  pose proof Hf as Hfull. unfold bh_is_full in Hfull.
  destruct (root_max cols t l p tp H ltac:(lia) Hp Htp) as (Hlt & Hk & Hmax).
  destruct (total_bounds cols t l H) as [H0 Hs]. pose proof (ok_max _ _ _ H).
  pose proof (Forall_lookup_1 _ _ _ _ Hs Hk) as Hsz. cbn in Hsz.
  pose proof (Forall_lookup_1 _ _ _ _ (ok_sizes _ _ _ H) Hk) as Hsz'. cbn in Hsz'.
  rewrite (uwrap_small 64 (total_size t - values_size tp)) by lia.
  rewrite (uwrap_small 64 (_ + tpl_size d)) by lia.
  zcase; [by intros [= <- <-]|].
  rewrite (values_array_same cols _ m d Hrow Hm).
  destruct (m_array m); [|by intros [= <- <-]]. intros [= <- <-].
  apply row_ok_keyed in Hrow. set (tp' := mkTuple (Some (f_valp d)) (tpl_size d)).
  destruct (replaced_heap t l p (f_valp d) (tpl_size d) (total_size t - values_size tp + tpl_size d)
              H Hrow Hf Hp) as [Hw He].
  split; [|done]. pose proof (pointers_length cols t l H) as Hlen.
  split; unfold kept; cbn [set_heap set_tuple heap tuples sort_items total_size max_size bh_down_heap
                           element_count max_capacity];
    try rewrite take_insert_lt by done; fold (kept t).
  - apply H.
  - by apply (set_tuple_keyed t l p (f_valp d) (tpl_size d) 0).
  - exact Hw.
  - done.
  - by rewrite length_insert, (ok_tuples _ _ _ H).
  - etrans; [exact He|]. apply (ok_pointers _ _ _ H).
  - apply Forall_insert; [apply (ok_sizes _ _ _ H)|done].
  - rewrite list_fmap_insert. erewrite sumZ_insert by (by rewrite list_lookup_fmap, Hk).
    rewrite (ok_total _ _ _ H). cbn. lia.
  - lia.
  - rewrite list_fmap_insert. eapply smallest_replace; [apply (ok_rows _ _ _ H)|..|].
    + rewrite length_fmap. lia.
    + by rewrite list_lookup_fmap, Hk.
    + done.
    + apply gt_le; [apply _|done].
Qed.

Lemma add_ok m t l d :
  topn_ok t l -> descr_ok (sort_items t) d -> strings_copied m ->
  exists st t', qexec_add_tuple_to_topn m t d = Some (st, t')
    /\ match st with
       | TOPN_SUCCESS => topn_ok t' (l ++ [f_valp d]) /\ sort_items t' = sort_items t
                         /\ max_capacity (heap t') = max_capacity (heap t)
       | TOPN_OVERFLOW => t' = t
       | TOPN_FAILURE => m_array m = false
       end.
Proof.
  intros H Hd Hm. unfold qexec_add_tuple_to_topn.
  destruct (bh_is_full (heap t)) eqn:Ef; cbn [negb].
  - pose proof Ef as Hfull. unfold bh_is_full in Hfull. pose proof (ok_capacity _ _ _ H).
    destruct (pointer_at cols t l 0 H ltac:(lia)) as (p & tp & Ep & Hlt & Htp & _).
    assert (bh_peek_max None (heap t) = Some p) as Hp.
    { unfold bh_peek_max. by replace (element_count (heap t) =? 0)%nat with false by lia. }
    rewrite Hp. cbn [mbind option_bind]. rewrite Htp. cbn [mbind option_bind].
    destruct (root_max cols t l p tp H ltac:(lia) Hp Htp) as (_ & _ & Hmax).
    destruct (ok_heap _ _ _ H) as (Hc & _). pose proof (pointers_length cols t l H) as Hlen.
    rewrite (compare_keys_row cols); [|apply H|apply (Forall_lookup_1 _ _ _ _ (ok_keyed _ _ _ H) Htp)
      |apply row_ok_keyed, Hd].
    assert (row_le cols (sort_items t) (tuple_vals tp) (f_valp d) ->
            topn_ok t (l ++ [f_valp d])) as Hskip.
    { intros Hle. destruct H. split; try done. apply smallest_skip; [done| |].
      - rewrite length_fmap. lia.
      - intros z Hz. eapply le_trans; [apply _|by apply Hmax|done]. }
    destruct (row_compare _ _ _ _) eqn:Ecmp.
    + by destruct (total_no_error (cmp := row_compare cols (sort_items t)) (tuple_vals tp) (f_valp d)).
    + do 2 eexists. split; [done|]. cbn. split; [|done]. apply Hskip. unfold row_le, le. congruence.
    + do 2 eexists. split; [done|]. cbn. split; [|done]. apply Hskip. unfold row_le, le. congruence.
    + destruct (replace_max m t p tp d) as [st t'] eqn:Er. exists st, t'. split; [done|].
      by eapply replace_ok.
  - destruct (append_tuple m t d) as [st t'] eqn:Ea. exists st, t'. split; [done|].
    unfold bh_is_full in Ef. eapply append_ok; [done|done|done|lia|done].
Qed.

(** A scan adds a prefix of its tuples; it stops before the end only when a
    tuple does not fit in memory or has no memory for its copy. *)
Lemma add_all_ok t l (ds : list (MEMORY * QFILE_TUPLE_DESCRIPTOR)) :
  topn_ok t l -> Forall (fun x => strings_copied x.1 /\ descr_ok (sort_items t) x.2) ds ->
  exists st t', add_all t ds = Some (st, t')
    /\ match st with
       | TOPN_FAILURE => exists x, x ∈ ds /\ m_array x.1 = false
       | _ => exists pre post, ds = pre ++ post /\ (st = TOPN_SUCCESS -> post = [])
                /\ topn_ok t' (l ++ ((fun x => f_valp x.2) <$> pre))
                /\ sort_items t' = sort_items t
                /\ max_capacity (heap t') = max_capacity (heap t)
       end.
Proof.
  revert t l. induction ds as [|[m d] ds IH]; intros t l H Hds; cbn [add_all].
  { do 2 eexists. split; [done|]. cbn. exists [], []. cbn. by rewrite app_nil_r. }
  apply Forall_cons in Hds as [[Hm Hd] Hds].
  destruct (add_ok m t l d H Hd Hm) as (st & t1 & -> & H1). cbn [mbind option_bind].
  destruct st.
  - destruct H1 as (H1 & H2 & H3). rewrite <- H2 in Hds. destruct (IH t1 _ H1 Hds) as (st' & t' & -> & H4).
    exists st', t'. split; [done|]. destruct st';
      [..|destruct H4 as (x & Hx & Hf); exists x; split; [by right|done]];
      destruct H4 as (pre & post & -> & H5 & H6 & H7 & H8); exists ((m, d) :: pre), post;
      (split; [done|]; split; [done|]; split; [|split; congruence]);
      rewrite fmap_cons; by rewrite <- app_assoc in H6.
  - do 2 eexists. split; [done|]. cbn. exists [], ((m, d) :: ds). subst. cbn.
    by rewrite app_nil_r.
  - do 2 eexists. split; [done|]. exists (m, d). split; [by left|done].
Qed.

(** The rows of the sorted array are the kept ones, in order. *)
Lemma topn_rows_ok t l :
  topn_ok t l ->
  StronglySorted (row_le cols (sort_items t)) (topn_rows t)
  /\ smallest cols (sort_items t) (max_capacity (heap t)) l (topn_rows t).
Proof.
  intros H. unfold topn_rows. pose proof (ok_laws cols t l H) as Hlaws.
  destruct (sorted_array_spec None (topn_cmp t) (heap t) (ok_heap _ _ _ H)) as [Hs Hp]. split.
  - clear Hp. induction Hs as [|q qs _ IH Hq]; [constructor|]. rewrite fmap_cons. constructor; [done|].
    apply Forall_fmap. eapply Forall_impl; [exact Hq|]. intros q' Hq'. unfold le in Hq'.
    by rewrite (ok_cmp_row cols t l) in Hq'.
  - rewrite Hp, (ok_pointers _ _ _ H), <- list_fmap_compose.
    replace (_ <$> seq 0 _) with (tuple_vals <$> kept t); [apply (ok_rows _ _ _ H)|].
    apply list_eq. intros i. rewrite !list_lookup_fmap. unfold kept.
    destruct (decide (i < element_count (heap t))%nat) as [Hi|Hi].
    + rewrite lookup_take_lt, lookup_seq_lt by done. cbn.
      destruct (ok_heap _ _ _ H) as (Hc & _).
      destruct (lookup_lt_is_Some_2 (tuples t) i) as [tp Htp]; [rewrite (ok_tuples _ _ _ H); lia|].
      by rewrite Htp.
    + rewrite lookup_take_ge, lookup_seq_ge by lia. done.
Qed.
End Steps.

(** ** Properties *)

(** C10: a top-N sort lists N smallest rows in order.  The rows have values of
    the given columns, or nulls; the sort keys are columns that are not of bit
    strings, and no value of a sort key is a NaN; the copies of strings find
    memory.  From the empty state, a scan of such rows in any order and number
    ends without dereferencing a null root.  When every row is taken, the
    rows behind the sorted array are in increasing order of the sort keys, none
    of the rows left out is smaller than one listed, and rows are left out only
    when N are listed.  When a row overflows the memory limit, the same holds
    of the rows before it, so that dumping the array loses no row that belongs
    to the answer.  A failure is reported only when there is no memory for the
    array of a copy. *)
Theorem topn_correct `{Co : TP_COERCE} cols n keys ms t0
    (ds : list (MEMORY * QFILE_TUPLE_DESCRIPTOR)) :
  (0 < n)%nat -> 0 <= ms < 2 ^ 63 -> keys_ok cols keys ->
  qexec_setup_topn_proc true n keys ms = Some t0 ->
  Forall (fun x => strings_copied x.1 /\ descr_ok cols keys x.2) ds ->
  exists st t, add_all t0 ds = Some (st, t)
    /\ match st with
       | TOPN_FAILURE => exists x, x ∈ ds /\ m_array x.1 = false
       | _ => exists pre post, ds = pre ++ post /\ (st = TOPN_SUCCESS -> post = [])
                /\ StronglySorted (row_le cols keys) (topn_rows t)
                /\ smallest cols keys n ((fun x => f_valp x.2) <$> pre) (topn_rows t)
                /\ total_size t <= max_size t
       end.
Proof.
  intros Hn Hm Hkeys Ht Hds. destruct (setup_ok cols n keys ms t0 Hn Hm Hkeys Ht) as [H0 Hc].
  assert (sort_items t0 = keys) as Hk by (by injection Ht as <-). rewrite <- Hk in Hds.
  destruct (add_all_ok cols t0 [] ds H0 Hds) as (st & t & -> & H). exists st, t. split; [done|].
  destruct st; [..|done]; destruct H as (pre & post & -> & H1 & H2 & H3 & H4); exists pre, post;
    destruct (topn_rows_ok cols t _ H2) as [H5 H6]; rewrite H3, Hk in *; rewrite H4, Hc in H6;
    (split; [done|]; split; [done|]; split; [done|]; split; [done|]; apply (ok_max _ _ _ H2)).
Qed.

(** Rows of an integer and a string, sorted by the string and then, downwards,
    by the integer; the second key has nulls. *)
Definition sample_columns : list COLUMN :=
  [mkColumn DB_TYPE_INTEGER 0 0 LANG_COLL_UTF8_BINARY; mkColumn DB_TYPE_VARCHAR 20 0 LANG_COLL_UTF8_EN_CS].
Definition sample_sort : list SORT_LIST := [mkSortKey 1 S_ASC S_NULLS_FIRST; mkSortKey 0 S_DESC S_NULLS_LAST].
Definition sample_row (v : VALUE) (str : list Z) : list VALUE := [v; db_make_varchar 20 str LANG_COLL_UTF8_EN_CS].
Definition sample_rows : list (MEMORY * QFILE_TUPLE_DESCRIPTOR) :=
  (fun row => (mkMemory true (fun _ => true), mkDescr 16 row)) <$>
    [sample_row (VInteger 5) [98]; sample_row (VInteger 9) [97]; sample_row VNull [97];
     sample_row (VInteger 7) [99]; sample_row (VInteger 1) [98]].

Lemma sample_row_ok v c :
  match v with VNull => True | VInteger i => - 2 ^ 31 <= i < 2 ^ 31 | _ => False end -> 0 <= c < 256 ->
  row_ok sample_columns sample_sort (sample_row v [c]).
Proof.
  intros Hv Hc. split.
  - constructor; [|constructor; [|constructor]].
    + destruct v; try done; [by left|right; by split].
    + right. split; [done|]. split; [done|]. split; [by apply Forall_singleton|done].
  - constructor; [done|]. constructor; [|constructor]. by destruct v.
Qed.

#[local] Instance without_coercion : TP_COERCE := fun _ _ _ => None.

Lemma topn_correct_witness :
  exists t0 t, qexec_setup_topn_proc true 3 sample_sort 4096 = Some t0
    /\ add_all t0 sample_rows = Some (TOPN_SUCCESS, t)
    /\ topn_rows t = [sample_row (VInteger 9) [97]; sample_row VNull [97]; sample_row (VInteger 5) [98]].
Proof.
  destruct (qexec_setup_topn_proc true 3 sample_sort 4096) as [t0|] eqn:E0; [|discriminate].
  destruct (topn_correct sample_columns 3 sample_sort 4096 t0 sample_rows)
    as (st & t & E & _); [lia|lia| |done| |].
  - repeat constructor; eexists; (split; [reflexivity|]); by split.
  - apply Forall_fmap, Forall_forall. intros row Hr. split; [done|]. split; [done|].
    cbn in Hr. rewrite !elem_of_cons, elem_of_nil in Hr.
    destruct Hr as [->|[->|[->|[->|[->|[]]]]]]; apply sample_row_ok; done || (cbn; lia).
  - injection E0 as <-. eexists _, t. split; [done|].
    vm_compute in E. injection E as <- <-. split; by vm_compute.
Defined.
