(* ===== verification/Btree.v ===== *)
(** * B+-tree pages (src/storage/btree.c, src/storage/btree_insert.c)

    Index keys and their comparison, the records of leaf and inner pages, the
    node header, the binary searches of a page, and the insertion and deletion
    of a key in a leaf, on the slotted pages of SlottedPage.  A record that is
    peeked lies in the memory of the page.

    Left out are the log records and the page buffer; [er] stands for what
    er_errid () returns, [net] for the uninitialised variable that
    or_get_varchar_length may use.  The functions are those of a release build,
    without the fences. *)
From Stdlib Require Import ZArith Lia ZifyBool SpecFloat.
From stdpp Require Import base list numbers.
From S2P Require Import Prelude StorageCommon Floats SpaceSaving SlottedPage.
From S2P Require Import NumericValue OrBuf Collation Primitive.

Definition ER_BTREE_DUPLICATE_OID : Z := -409.
Definition ER_BTREE_UNIQUE_FAILED : Z := -670.
Definition ER_BTREE_NO_SPACE : Z := -1110.
Definition ER_GENERIC_ERROR : Z := -2.

Definition BTREE_MAX_KEYLEN : Z := 900.
Definition HEADER : Z := 0.

(** ** Keys *)

(** The part of an OR_INDEX that these functions use. *)
Record OR_INDEX := mkIndex {
  atts : list COLUMN;
  asc_desc : list bool;
  INDEX_IS_UNIQUE : bool }.

Definition n_atts (indexp : OR_INDEX) : nat := length (atts indexp).

(** The values of the attributes, and the OID of the object behind them. *)
Definition DB_IDXKEY : Type := list VALUE.

(** The loop of pr_idxkey_compare from column [i]: the result and the column it
    was found at. *)
Fixpoint idxkey_loop `{Co : TP_COERCE} (n : nat) (i start_col : Z) (key1 key2 : DB_IDXKEY) : option (Z * Z) :=
  match n with
  | O => Some (DB_EQ, i)
  | S n =>
      match key1, key2 with
      | v1 :: key1, v2 :: key2 =>
          if i <? start_col then idxkey_loop n (i + 1) start_col key1 key2
          else
            match VALUE_IS_NULL v1, VALUE_IS_NULL v2 with
            | true, true => idxkey_loop n (i + 1) start_col key1 key2
            | true, false => Some (DB_LT, i)
            | false, true => Some (DB_GT, i)
            | false, false =>
                let '(c, can_compare) := tp_value_compare v1 v2 true true in
                let c := if can_compare : bool then c else DB_UNK in
                if negb (c =? DB_EQ) then Some (c, i) else idxkey_loop n (i + 1) start_col key1 key2
            end
      | _, _ => None
      end
  end.

Definition pr_idxkey_compare `{Co : TP_COERCE} (key1 key2 : DB_IDXKEY) (num_index_term : Z) (start_col : Z)
    : option (Z * Z) :=
  if negb (length key1 =? length key2)%nat then Some (DB_UNK, start_col)
  else
    let last := if num_index_term >? 0 then Z.to_nat num_index_term else length key1 in
    idxkey_loop last 0 start_col key1 key2.

(** The result, and the column of the difference that start_colp receives. *)
Definition btree_compare_key `{Co : TP_COERCE} (indexp : OR_INDEX) (key1 key2 : DB_IDXKEY) : option (Z * Z) :=
  '(c, d) ← pr_idxkey_compare key1 key2 (-1) 0;
  let c :=
    if (c =? DB_LT) || (c =? DB_GT) then
      if (d <? Z.of_nat (n_atts indexp)) && nth (Z.to_nat d) (asc_desc indexp) false
      then (if c =? DB_GT then DB_LT else if c =? DB_LT then DB_GT else c) else c
    else c in
  Some (c, d).

Definition OR_MULTI_BOUND_BIT_BYTES (count : Z) : Z := Z.shiftr (count + 7) 3.

Definition btree_get_key_length (key : DB_IDXKEY) : Z :=
  foldl (fun len v => if VALUE_IS_NULL v then len else len + pr_index_writeval_disk_size v)
    (OR_MULTI_BOUND_BIT_BYTES (Z.of_nat (length key))) key.

(** All the attributes are null. *)
Definition btree_key_is_null (key : DB_IDXKEY) : bool :=
  if (length key =? 0)%nat then true else forallb VALUE_IS_NULL (take (length key - 1) key).

(** ** Bound bits *)

Definition pr_idxkey_init_boundbits (m : mem) (bufptr : Z) (n_atts : Z) : mem :=
  store_bytes m bufptr (replicate (Z.to_nat (OR_MULTI_BOUND_BIT_BYTES n_atts)) 0).
Definition OR_ENABLE_BOUND_BIT (m : mem) (bitptr element : Z) : mem :=
  let a := bitptr + Z.shiftr element 3 in
  store_bytes m a [Z.lor (m a) (Z.shiftl 1 (Z.land element 7))].
Definition OR_MULTI_ATT_IS_UNBOUND (m : mem) (bitptr element : Z) : bool :=
  Z.land (m (bitptr + Z.shiftr element 3)) (Z.shiftl 1 (Z.land element 7)) =? 0.

(** ** Records *)

Definition set_buf_mem (buf : OR_BUF) (m : mem) : OR_BUF := mkBuf m (or_buffer buf) (or_ptr buf) (or_endptr buf).

(** The loop over the values of a key. *)
Fixpoint write_values (bound_bits i : Z) (key : DB_IDXKEY) (buf : OR_BUF) : option (Z * OR_BUF) :=
  match key with
  | [] => Some (NO_ERROR, buf)
  | v :: key =>
      if VALUE_IS_NULL v then write_values bound_bits (i + 1) key buf
      else
        '(rc, buf) ← index_writeval v buf;
        let buf := set_buf_mem buf (OR_ENABLE_BOUND_BIT (or_mem buf) bound_bits i) in
        if rc =? NO_ERROR then write_values bound_bits (i + 1) key buf else Some (rc, buf)
  end.

(** The bound bits and the values of a key. *)
Definition write_key (key : DB_IDXKEY) (buf : OR_BUF) : option (Z * OR_BUF) :=
  let bound_bits := or_ptr buf in
  let size := Z.of_nat (length key) in
  let buf := set_buf_mem buf (pr_idxkey_init_boundbits (or_mem buf) bound_bits size) in
  let '(rc, buf) := or_advance buf (OR_MULTI_BOUND_BIT_BYTES size) in
  if negb (rc =? NO_ERROR) then Some (rc, buf) else write_values bound_bits 0 key buf.

(** The volume and the page of the child, behind each other. *)
Definition btree_write_fixed_portion_of_non_leaf_record_to_orbuf (buf : OR_BUF) (pnt : VPID) : OR_BUF :=
  (or_put_short (or_put_int buf pnt.2).2 pnt.1).2.

Definition btree_read_fixed_portion_of_non_leaf_record_from_orbuf (buf : OR_BUF) : Z * VPID * OR_BUF :=
  let '(rc, pageid, buf) := or_get_int buf in
  if rc =? NO_ERROR then let '(rc, volid, buf) := or_get_short buf in (rc, (volid, pageid), buf)
  else (rc, (0, pageid), buf).

Definition btree_read_fixed_portion_of_non_leaf_record (m : mem) (ptr : Z) : VPID :=
  (OR_GET_SHORT m (ptr + OR_INT_SIZE), OR_GET_INT m ptr).

(** The record of [key] is written to the area at [data]; [pnt] is the child of
    a record of an inner page.  The status, the memory and the length of the
    record, which is set on success only. *)
Definition btree_write_record (pnt : option VPID) (key : DB_IDXKEY) (m : mem) (data : Z)
    : option (Z * mem * option Z) :=
  let buf := or_init m data BTREE_MAX_KEYLEN in
  let buf :=
    match pnt with
    | Some pnt => btree_write_fixed_portion_of_non_leaf_record_to_orbuf buf pnt
    | None => buf
    end in
  '(rc, buf) ← write_key key buf;
  Some (rc, or_mem buf, if rc =? NO_ERROR then Some (or_ptr buf - or_buffer buf) else None).

(** The identifiers of an index, and its description. *)
Record BTID := mkBtid { root_pageid : Z; vfid_fileid : Z; vfid_volid : Z }.

Record BTID_INT := mkBtidInt {
  sys_btid : BTID;
  cls_oid : OID;
  indexp : OR_INDEX }.

Definition OR_BTID_ALIGNED_SIZE : Z := 12.

Definition or_pack_oid (m : mem) (ptr : Z) (oid : OID) : mem * Z := (OR_PUT_OID m ptr oid, ptr + OR_OID_SIZE).
Definition or_pack_btid (m : mem) (ptr : Z) (btid : BTID) : mem * Z :=
  let m := OR_PUT_INT m ptr (root_pageid btid) in
  let m := OR_PUT_INT m (ptr + 4) (vfid_fileid btid) in
  (OR_PUT_SHORT m (ptr + 8) (vfid_volid btid), ptr + OR_BTID_ALIGNED_SIZE).

(** The key that the log needs to undo a change: the status, the memory and the
    length. *)
Definition btree_rv_save_keyval (btid : BTID_INT) (key : DB_IDXKEY) (m : mem) (data : Z)
    : option (Z * mem * Z) :=
  let '(m, ptr) := or_pack_oid m data (cls_oid btid) in
  let '(m, ptr) := or_pack_btid m ptr (sys_btid btid) in
  '(rc, buf) ← write_key key (or_init m ptr BTREE_MAX_KEYLEN);
  Some (rc, or_mem buf, or_ptr buf - data).

Definition oid_column : COLUMN := mkColumn DB_TYPE_OID DB_DEFAULT_PRECISION DB_DEFAULT_SCALE LANG_COERCIBLE_COLL.

Section Reading.
Context (net : Z).

(** The loop over the columns from column [i]; the values stop at an error. *)
Fixpoint read_values (copy alloc : bool) (bound_bits i : Z) (columns : list COLUMN) (buf : OR_BUF)
    : option (Z * DB_IDXKEY * OR_BUF) :=
  match columns with
  | [] => Some (NO_ERROR, [], buf)
  | c :: columns =>
      if OR_MULTI_ATT_IS_UNBOUND (or_mem buf) bound_bits i then
        '(rc, key, buf) ← read_values copy alloc bound_bits (i + 1) columns buf;
        Some (rc, VNull :: key, buf)
      else
        '(rc, v, buf) ← index_readval net true copy alloc c (-1) buf;
        if rc =? NO_ERROR then
          '(rc, key, buf) ← read_values copy alloc bound_bits (i + 1) columns buf;
          Some (rc, default VNull v :: key, buf)
        else Some (rc, [], buf)
  end.

(** The record of [length] bytes at [data]; an inner record has a child, which
    is returned behind the key. *)
Definition btree_read_record (indexp : OR_INDEX) (non_leaf copy alloc : bool) (m : mem) (data length : Z)
    : option (Z * DB_IDXKEY * VPID) :=
  let buf := or_init m data length in
  let '(error, pnt, buf) :=
    if non_leaf then btree_read_fixed_portion_of_non_leaf_record_from_orbuf buf else (NO_ERROR, (0, 0), buf) in
  if negb (error =? NO_ERROR) then Some (error, [], pnt)
  else
    let bound_bits := or_ptr buf in
    let '(error, buf) := or_advance buf (OR_MULTI_BOUND_BIT_BYTES (Z.of_nat (n_atts indexp + 1))) in
    if negb (error =? NO_ERROR) then Some (error, [], pnt)
    else
      '(error, key, _) ← read_values copy alloc bound_bits 0 (atts indexp ++ [oid_column]) buf;
      Some (error, key, pnt).
End Reading.

(** ** The node header *)

(** The struct with its padding, which is copied along; the pivot is a bit
    pattern. *)
Record NODE_VPID := mkNodeVpid { nv_pageid : Z; nv_volid : Z; nv_pad : Z }.

Record BTREE_NODE_HEADER := mkNodeHeader {
  pivot : Z;
  index : Z;
  next_vpid : NODE_VPID;
  prev_vpid : NODE_VPID;
  key_cnt : Z;
  node_level : Z }.

Definition NODE_HEADER_SIZE : Z := 28.

Definition read_vpid (m : mem) (p : Z) : NODE_VPID :=
  mkNodeVpid (copymem 4 (swrap 32) m p) (copymem 2 (swrap 16) m (p + 4)) (copymem 2 (uwrap 16) m (p + 6)).
Definition vpid_bytes (v : NODE_VPID) : list Z :=
  le_bytes 4 (nv_pageid v) ++ le_bytes 2 (nv_volid v) ++ le_bytes 2 (nv_pad v).

(** The struct at an address, and its bytes. *)
Definition read_header (m : mem) (p : Z) : BTREE_NODE_HEADER :=
  mkNodeHeader (copymem 4 (uwrap 32) m p) (copymem 4 (swrap 32) m (p + 4)) (read_vpid m (p + 8))
    (read_vpid m (p + 16)) (copymem 2 (swrap 16) m (p + 24)) (copymem 2 (swrap 16) m (p + 26)).
Definition header_bytes (h : BTREE_NODE_HEADER) : list Z :=
  le_bytes 4 (pivot h) ++ le_bytes 4 (index h) ++ vpid_bytes (next_vpid h) ++ vpid_bytes (prev_vpid h)
  ++ le_bytes 2 (key_cnt h) ++ le_bytes 2 (node_level h).

(** RECDES_INITIALIZER *)
Definition RECDES_INITIALIZER : RECDES := mkRecdes 0 (-1) REC_UNKNOWN (Area []).

(** The address of a peeked record; a copied one is not in the page. *)
Definition rec_data (rd : RECDES) : Z := match data rd with InPage off => off | Area _ => 0 end.

Definition error_or_failed (er : Z) : Z := if er =? NO_ERROR then ER_FAILED else er.

(** [pads] is the padding of the two identifiers, which is not set. *)
Definition btree_init_node_header (pads : Z * Z) : BTREE_NODE_HEADER :=
  mkNodeHeader 0 0 (mkNodeVpid NULL_PAGEID (-1) pads.1) (mkNodeVpid NULL_PAGEID (-1) pads.2) 0 1.

Definition btree_read_node_header (er : Z) (p : PAGE) : Z * option BTREE_NODE_HEADER :=
  let '(status, rd) := spage_get_record p HEADER RECDES_INITIALIZER PEEK in
  if negb (status =? S_SUCCESS) then (error_or_failed er, None)
  else (NO_ERROR, Some (read_header (p_mem p) (rec_data rd))).

Definition btree_write_node_header (er : Z) (p : PAGE) (header : BTREE_NODE_HEADER) : Z * PAGE :=
  let '(status, rd) := spage_get_record p HEADER RECDES_INITIALIZER PEEK in
  if negb (status =? S_SUCCESS) then (error_or_failed er, p)
  else (NO_ERROR, set_mem p (store_bytes (p_mem p) (rec_data rd) (header_bytes header))).

(** ** Searching a page *)

Section Search.
Context `{Co : TP_COERCE} (net : Z) (er : Z).

(** What a binary search ends with: an error, or the last comparison, the
    record it looked at last, the child of that record and
    max_diff_column_index. *)
Inductive SEARCH :=
| SearchError (ret : Z)
| SearchEnd (c mid : Z) (pnt : VPID) (max_diff : Z).

(** The record of a slot, peeked, as a key. *)
Definition peek_key (indexp : OR_INDEX) (non_leaf : bool) (p : PAGE) (mid : Z)
    : option (Z * DB_IDXKEY * VPID) :=
  let '(status, rd) := spage_get_record p mid RECDES_INITIALIZER PEEK in
  if negb (status =? S_SUCCESS) then Some (ER_FAILED, [], (0, 0))
  else btree_read_record net indexp non_leaf false true (p_mem p) (rec_data rd) (length_ rd).

(** The loop of btree_search_leaf_page; the range gets smaller in every
    iteration. *)
Fixpoint leaf_loop (fuel : nat) (indexp : OR_INDEX) (p : PAGE) (key : DB_IDXKEY)
    (left right left_start_col right_start_col c mid max_diff : Z) : option SEARCH :=
  match fuel with
  | O => None
  | S fuel =>
      if negb (left <=? right) then Some (SearchEnd c mid (0, 0) max_diff)
      else
        let mid := CEIL_PTVDIV (left + right) 2 in
        '(error, mid_key, _) ← peek_key indexp false p mid;
        if negb (error =? NO_ERROR) then Some (SearchError error)
        else
          let start_col := Z.min left_start_col right_start_col in
          if start_col >=? Z.of_nat (length key) then Some (SearchError ER_FAILED)
          else
            '(c, start_col) ← btree_compare_key indexp key mid_key;
            if c =? DB_UNK then Some (SearchError ER_FAILED)
            else
              let max_diff := Z.max max_diff start_col in
              if c =? 0 then Some (SearchEnd c mid (0, 0) max_diff)
              else if c <? 0
              then leaf_loop fuel indexp p key left (mid - 1) left_start_col start_col c mid max_diff
              else leaf_loop fuel indexp p key (mid + 1) right start_col right_start_col c mid max_diff
  end.

(** Whether the key exists, its slot or the slot it should have, and
    max_diff_column_index. *)
Definition btree_search_leaf_page (indexp : OR_INDEX) (p : PAGE) (key : DB_IDXKEY)
    : option (bool * Z * Z) :=
  match btree_read_node_header er p with
  | (_, None) => Some (false, NULL_SLOTID, -1)
  | (_, Some node_header) =>
      let key_cnt := key_cnt node_header in
      if key_cnt <? 0 then Some (false, NULL_SLOTID, -1)
      else if key_cnt =? 0 then Some (false, 1, -1)
      else
        result ← leaf_loop (S (Z.to_nat key_cnt)) indexp p key 1 key_cnt 0 0 0 0 (-1);
        match result with
        | SearchError _ => Some (false, NULL_SLOTID, -1)
        | SearchEnd c mid _ max_diff => Some (c =? 0, if c <=? 0 then mid else mid + 1, max_diff)
        end
  end.

(** The loop of btree_search_nonleaf_page. *)
Fixpoint nonleaf_loop (fuel : nat) (indexp : OR_INDEX) (p : PAGE) (key : DB_IDXKEY)
    (left right c mid : Z) (pnt : VPID) : option SEARCH :=
  match fuel with
  | O => None
  | S fuel =>
      if negb (left <=? right) then Some (SearchEnd c mid pnt (-1))
      else
        let mid := CEIL_PTVDIV (left + right) 2 in
        '(error, mid_key, pnt) ← peek_key indexp true p mid;
        if negb (error =? NO_ERROR) then Some (SearchError error)
        else
          '(c, start_col) ← btree_compare_key indexp key mid_key;
          if c =? DB_UNK then Some (SearchError ER_FAILED)
          else if c =? 0 then Some (SearchEnd c mid pnt (-1))
          else if c <? 0 then nonleaf_loop fuel indexp p key left (mid - 1) c mid pnt
          else nonleaf_loop fuel indexp p key (mid + 1) right c mid pnt
  end.

(** The child that a record of an inner page points to. *)
Definition child_of (p : PAGE) (slot_id : Z) : Z * Z * VPID :=
  let '(status, rd) := spage_get_record p slot_id RECDES_INITIALIZER PEEK in
  if negb (status =? S_SUCCESS) then (ER_FAILED, NULL_SLOTID, (-1, NULL_PAGEID))
  else (NO_ERROR, slot_id, btree_read_fixed_portion_of_non_leaf_record (p_mem p) (rec_data rd)).

(** The status, the slot of the record that points to the child, and the child
    to be followed. *)
Definition btree_search_nonleaf_page (indexp : OR_INDEX) (p : PAGE) (key : DB_IDXKEY)
    : option (Z * Z * VPID) :=
  match btree_read_node_header er p with
  | (ret, None) => Some (ret, NULL_SLOTID, (-1, NULL_PAGEID))
  | (_, Some node_header) =>
      let key_cnt := key_cnt node_header in
      if spage_number_of_records p <=? 1 then Some (ER_FAILED, NULL_SLOTID, (-1, NULL_PAGEID))
      else if key_cnt =? 0 then Some (child_of p 1)
      else
        result ← nonleaf_loop (S (Z.to_nat key_cnt)) indexp p key 1 key_cnt 0 0 (0, 0);
        match result with
        | SearchError ret => Some (ret, NULL_SLOTID, (-1, NULL_PAGEID))
        | SearchEnd c mid pnt _ => Some (if c <=? 0 then (NO_ERROR, mid, pnt) else child_of p (mid + 1))
        end
  end.
End Search.

(** ** The split point of a node *)

(** The float with a bit pattern, and the bit pattern of a float. *)
Definition float_of_bits (b : Z) : spec_float :=
  let s := Z.testbit b 31 in
  let ex := Z.land (Z.shiftr b 23) 255 in
  let frac := Z.land b (2 ^ 23 - 1) in
  if ex =? 255 then (if frac =? 0 then S754_infinity s else S754_nan)
  else
    match (if ex =? 0 then frac else frac + 2 ^ 23) with
    | Zpos m => S754_finite s m (Z.max ex 1 - 150)
    | _ => S754_zero s
    end.

Definition bits_of_float (f : spec_float) : Z :=
  let sign (s : bool) := if s then 2 ^ 31 else 0 in
  uwrap 32 match f with
  | S754_zero s => sign s
  | S754_infinity s => sign s + 255 * 2 ^ 23
  | S754_nan => 255 * 2 ^ 23 + 2 ^ 22
  | S754_finite s m e =>
      sign s + if Zpos m <? 2 ^ 23 then Zpos m else (e + 150) * 2 ^ 23 + (Zpos m - 2 ^ 23)
  end.

Definition fadd : spec_float -> spec_float -> spec_float := SFadd 24 128.
Definition fsub : spec_float -> spec_float -> spec_float := SFsub 24 128.
Definition fmul : spec_float -> spec_float -> spec_float := SFmul 24 128.
Definition fdiv : spec_float -> spec_float -> spec_float := SFdiv 24 128.
(** MIN and MAX. *)
Definition fmin (a b : spec_float) : spec_float := if SFltb a b then a else b.
Definition fmax (a b : spec_float) : spec_float := if SFltb b a then a else b.

(** The pivot and the index of the split information. *)
Definition btree_split_next_pivot (pivot index : Z) (new_value : spec_float) (max_index : Z) : Z * Z :=
  let index := Z.min (index + 1) max_index in
  let old := float_of_bits pivot in
  let new_pivot :=
    if SFeqb old (S754_zero false) then new_value
    else fadd old (fdiv (fsub new_value old) (float_of index)) in
  (bits_of_float (fmax (float_of 0) (fmin (float_of 1) new_pivot)), index).

(** The constants 0.20f, 0.05f and 1.0f minus each. *)
Definition BTREE_SPLIT_LOWER_BOUND : spec_float := S754_finite false 13421773 (-26).
Definition BTREE_SPLIT_UPPER_BOUND : spec_float := fsub (float_of 1) BTREE_SPLIT_LOWER_BOUND.
Definition BTREE_SPLIT_MIN_PIVOT : spec_float := S754_finite false 13421773 (-28).
Definition BTREE_SPLIT_MAX_PIVOT : spec_float := fsub (float_of 1) BTREE_SPLIT_MIN_PIVOT.

Definition btree_split_find_pivot (total ent_size pivot : Z) : Z :=
  let f := float_of_bits pivot in
  let split_point :=
    if SFeqb f (S754_zero false) || (SFltb BTREE_SPLIT_LOWER_BOUND f && SFltb f BTREE_SPLIT_UPPER_BOUND)
    then CEIL_PTVDIV total 2
    else float_to_int (fmul (float_of total) (fmax (fmin f BTREE_SPLIT_MAX_PIVOT) BTREE_SPLIT_MIN_PIVOT)) in
  Z.max (Z.min split_point (total - ent_size)) ent_size.

(** ** Insertion and deletion in a leaf *)

Section Updates.
Context {ST : Type} `{SavedSpaces ST} `{Co : TP_COERCE} (th : THREAD_ENTRY) (net er : Z).

(** The record that btree_write_record has left at the start of [m]. *)
Definition leaf_record (m : mem) (len : Z) : RECDES :=
  mkRecdes DB_PAGESIZE len REC_HOME (Area (load_bytes m 0 (Z.to_nat len))).

(** [rv_key] and [rec_buf] are what the local buffers hold. *)
Definition btree_insert_new_key (rv_key rec_buf : mem) (st : ST) (btid : BTID_INT) (p : PAGE)
    (key : DB_IDXKEY) (slot_id : Z) : option (Z * PAGE) :=
  let max_free := spage_max_space_for_new_record th st p in
  '(ret, _, _) ← btree_rv_save_keyval btid key rv_key 0;
  if negb (ret =? NO_ERROR) then Some (ret, p)
  else
    '(ret, m, len) ← btree_write_record None key rec_buf 0;
    match len with
    | None => Some (ret, p)
    | Some len =>
        if len >? max_free then Some (ER_BTREE_NO_SPACE, p)
        else
          let '(status, p, _) := spage_insert_at th st p slot_id (leaf_record m len) in
          if negb (status =? SP_SUCCESS) then Some (error_or_failed er, p)
          else
            match btree_read_node_header er p with
            | (_, None) => Some (error_or_failed er, p)
            | (_, Some h) =>
                let cnt := swrap 16 (key_cnt h + 1) in
                let '(pivot, index) :=
                  btree_split_next_pivot (pivot h) (index h) (fdiv (float_of slot_id) (float_of cnt)) cnt in
                let '(ret, p) :=
                  btree_write_node_header er p
                    (mkNodeHeader pivot index (next_vpid h) (prev_vpid h) cnt (node_level h)) in
                if negb (ret =? NO_ERROR) then Some (error_or_failed er, p)
                else Some (NO_ERROR, pgbuf_set_dirty p)
            end
    end.

(** [ddl] says whether the transaction adds an index, which may find the keys
    of objects that were inserted since. *)
Definition btree_insert_into_leaf (ddl : bool) (rv_key rec_buf : mem) (st : ST) (btid : BTID_INT) (p : PAGE)
    (key : DB_IDXKEY) : option (Z * PAGE) :=
  '(key_found, slot_id, max_diff) ← btree_search_leaf_page net er (indexp btid) p key;
  if slot_id =? NULL_SLOTID then Some (if er =? NO_ERROR then ER_GENERIC_ERROR else er, p)
  else if key_found : bool then
    if ddl || th_crash_recovery th then Some (NO_ERROR, p) else Some (ER_BTREE_DUPLICATE_OID, p)
  else if INDEX_IS_UNIQUE (indexp btid) && (max_diff =? Z.of_nat (length key) - 1)
          && negb (btree_key_is_null key)
  then Some (ER_BTREE_UNIQUE_FAILED, p)
  else btree_insert_new_key rv_key rec_buf st btid p key slot_id.

Definition btree_delete_key_from_leaf (rv_key : mem) (st : ST) (btid : BTID_INT) (p : PAGE)
    (key : DB_IDXKEY) (slot_id : Z) : option (Z * PAGE * ST) :=
  '(ret, _, _) ← btree_rv_save_keyval btid key rv_key 0;
  if negb (ret =? NO_ERROR) then Some (ret, p, st)
  else
    let '(r, p, st) := spage_delete th st p slot_id in
    if negb (r =? slot_id) then Some (error_or_failed er, p, st)
    else
      match btree_read_node_header er p with
      | (_, None) => Some (error_or_failed er, p, st)
      | (_, Some h) =>
          let '(ret, p) :=
            btree_write_node_header er p
              (mkNodeHeader (pivot h) (index h) (next_vpid h) (prev_vpid h) (swrap 16 (key_cnt h - 1))
                 (node_level h)) in
          if negb (ret =? NO_ERROR) then Some (error_or_failed er, p, st)
          else Some (NO_ERROR, pgbuf_set_dirty p, st)
      end.

(** The status of btree_delete_key_from_leaf is not looked at. *)
Definition btree_delete_from_leaf (rv_key : mem) (st : ST) (btid : BTID_INT) (p : PAGE) (key : DB_IDXKEY)
    : option (Z * PAGE * ST) :=
  '(found, slot_id, _) ← btree_search_leaf_page net er (indexp btid) p key;
  if slot_id =? NULL_SLOTID then Some (error_or_failed er, p, st)
  else if negb found then Some (NO_ERROR, pgbuf_set_dirty p, st)
  else
    '(_, p, st) ← btree_delete_key_from_leaf rv_key st btid p key slot_id;
    Some (NO_ERROR, p, st).
End Updates.
