(* ===== verification/BtreeKey.v ===== *)
(** * The order of index keys

    btree_compare_key compares two keys of an index column by column, and
    returns the column that decides.  It is a total preorder, and between two
    keys in order the deciding column of the outer two is that of the nearer
    pair that differs first. *)
From Stdlib Require Import ZArith Lia ZifyBool.
From stdpp Require Import base list numbers.
From S2P Require Import Prelude NumericValue Collation Primitive PrimitiveDisk PrimitiveCompare Btree.

(** ** Comparisons that are total preorders *)

Record cmp_laws {A} (P : A -> Prop) (cmp : A -> A -> Z) : Prop := {
  law_range a b : P a -> P b -> -1 <= cmp a b <= 1;
  law_opp a b : P a -> P b -> cmp a b = - cmp b a;
  law_trans a b c : P a -> P b -> P c -> cmp a b <= 0 -> cmp b c <= 0 -> cmp a c <= 0 }.

Section Laws.
Context {A : Type} (P : A -> Prop) (cmp : A -> A -> Z) (L : cmp_laws P cmp).

Lemma law_refl a : P a -> cmp a a = 0.
Proof. intros Ha. pose proof (law_opp _ _ L a a Ha Ha). lia. Qed.

Lemma law_ge a b c : P a -> P b -> P c -> 0 <= cmp a b -> 0 <= cmp b c -> 0 <= cmp a c.
Proof.
  intros Ha Hb Hc H1 H2. rewrite (law_opp _ _ L a c) by done. rewrite (law_opp _ _ L a b) in H1 by done.
  rewrite (law_opp _ _ L b c) in H2 by done. pose proof (law_trans _ _ L c b a Hc Hb Ha). lia.
Qed.

Lemma law_eq_l a b c : P a -> P b -> P c -> cmp a b = 0 -> cmp a c = cmp b c.
Proof.
  intros Ha Hb Hc E. pose proof (law_opp _ _ L a b Ha Hb) as Eo.
  pose proof (law_range _ _ L a c Ha Hc). pose proof (law_range _ _ L b c Hb Hc).
  pose proof (law_trans _ _ L a b c Ha Hb Hc). pose proof (law_trans _ _ L b a c Hb Ha Hc).
  pose proof (law_ge a b c Ha Hb Hc). pose proof (law_ge b a c Hb Ha Hc). lia.
Qed.

Lemma law_eq_r a b c : P a -> P b -> P c -> cmp b c = 0 -> cmp a c = cmp a b.
Proof.
  intros Ha Hb Hc E. rewrite (law_opp _ _ L a c), (law_opp _ _ L a b) by done.
  pose proof (law_opp _ _ L b c Hb Hc). by rewrite (law_eq_l c b a) by (done || lia).
Qed.

Lemma law_lt a b c : P a -> P b -> P c -> cmp a b = -1 -> cmp b c = -1 -> cmp a c = -1.
Proof.
  intros Ha Hb Hc H1 H2. pose proof (law_range _ _ L a c Ha Hc). pose proof (law_trans _ _ L a b c Ha Hb Hc).
  destruct (decide (cmp a c = 0)) as [E|]; [|lia].
  pose proof (law_eq_l a c b Ha Hc Hb E). rewrite (law_opp _ _ L c b) in * by done. lia.
Qed.

Lemma law_neg : cmp_laws P (fun a b => - cmp a b).
Proof.
  split.
  - intros a b Ha Hb. pose proof (law_range _ _ L a b Ha Hb). lia.
  - intros a b Ha Hb. pose proof (law_opp _ _ L a b Ha Hb). lia.
  - intros a b c Ha Hb Hc H1 H2. pose proof (law_ge a b c Ha Hb Hc). lia.
Qed.
End Laws.

(** ** The columns of a key *)

Definition column_value (c : COLUMN) (v : VALUE) : Prop := v = VNull \/ ordered_value c v.

(** Null is less than every value. *)
Definition null_compare (c : COLUMN) (v1 v2 : VALUE) : Z :=
  match VALUE_IS_NULL v1, VALUE_IS_NULL v2 with
  | true, true => 0
  | true, false => -1
  | false, true => 1
  | false, false => pad_compare (value_key (col_collation c) v1) (value_key (col_collation c) v2)
  end.

Lemma null_compare_laws c : cmp_laws (column_value c) (null_compare c).
Proof.
  split; unfold null_compare.
  - intros a b _ _. pose proof (pad_compare_range (value_key (col_collation c) a) (value_key (col_collation c) b)).
    repeat case_match; lia.
  - intros a b _ _. pose proof (pad_compare_opp (value_key (col_collation c) a) (value_key (col_collation c) b)).
    repeat case_match; lia.
  - intros a b d _ _ _. pose proof (pad_compare_trans (value_key (col_collation c) a) (value_key (col_collation c) b)
      (value_key (col_collation c) d)). repeat case_match; lia.
Qed.

(** The order of a column, descending if [desc]. *)
Definition column_compare (s : COLUMN * bool) (v1 v2 : VALUE) : Z :=
  if s.2 then - null_compare s.1 v1 v2 else null_compare s.1 v1 v2.

Lemma column_compare_laws s : cmp_laws (column_value s.1) (column_compare s).
Proof. unfold column_compare. destruct s as [c []]; cbn; [apply law_neg|]; apply null_compare_laws. Qed.

(** ** Keys *)

(** The columns of an index with their directions; the OID is the last one. *)
Definition specs (indexp : OR_INDEX) : list (COLUMN * bool) :=
  zip (atts indexp ++ [oid_column]) (asc_desc indexp ++ [false]).

(** The first column that differs and its order. *)
Fixpoint key_compare (l : list (COLUMN * bool)) (k1 k2 : DB_IDXKEY) : Z * nat :=
  match l, k1, k2 with
  | s :: l, v1 :: k1, v2 :: k2 =>
      let c := column_compare s v1 v2 in
      if c =? 0 then ((key_compare l k1 k2).1, S (key_compare l k1 k2).2) else (c, O)
  | _, _, _ => (0, O)
  end.

Definition key_values (l : list (COLUMN * bool)) (key : DB_IDXKEY) : Prop :=
  Forall2 (fun s v => column_value s.1 v) l key.

Lemma key_values_cons s l k :
  key_values (s :: l) k -> exists v k', k = v :: k' /\ column_value s.1 v /\ key_values l k'.
Proof. intros H. apply Forall2_cons_inv_l in H as (v & k' & Hv & Hk & ->). eauto. Qed.

(** Two keys in order, and the columns that decide. *)
Lemma key_compare_mid l a b c :
  key_values l a -> key_values l b -> key_values l c ->
  (key_compare l a b).1 <= 0 -> (key_compare l b c).1 <= 0 ->
  (key_compare l a c).1 <= 0
  /\ (key_compare l a c).2 = Nat.min (key_compare l a b).2 (key_compare l b c).2.
Proof.
  revert a b c. induction l as [|s l IH]; intros a b c Ha Hb Hc; [done|].
  apply key_values_cons in Ha as (va & a' & -> & Va & Ha), Hb as (vb & b' & -> & Vb & Hb),
    Hc as (vc & c' & -> & Vc & Hc).
  pose proof (column_compare_laws s) as L. cbn.
  pose proof (law_range _ _ L va vb Va Vb). pose proof (law_range _ _ L vb vc Vb Vc).
  destruct (column_compare s va vb =? 0) eqn:E1, (column_compare s vb vc =? 0) eqn:E2; cbn; intros H1 H2.
  - rewrite (law_eq_l _ _ L va vb vc), E2 by (done || lia). cbn. destruct (IH a' b' c') as [? ->]; done.
  - rewrite (law_eq_l _ _ L va vb vc), E2 by (done || lia). cbn. lia.
  - rewrite (law_eq_r _ _ L va vb vc), E1 by (done || lia). cbn. lia.
  - rewrite (law_lt _ _ L va vb vc) by (done || lia). cbn. lia.
Qed.

Lemma key_compare_opp l a b :
  key_values l a -> key_values l b ->
  (key_compare l a b).1 = - (key_compare l b a).1 /\ (key_compare l a b).2 = (key_compare l b a).2.
Proof.
  revert a b. induction l as [|s l IH]; intros a b Ha Hb; [done|].
  apply key_values_cons in Ha as (va & a' & -> & Va & Ha), Hb as (vb & b' & -> & Vb & Hb). cbn.
  rewrite (law_opp _ _ (column_compare_laws s) va vb) by done. destruct (IH a' b') as [E1 E2]; [done..|].
  destruct (column_compare s vb va =? 0) eqn:E.
  - replace (- column_compare s vb va =? 0) with true by lia. cbn. by rewrite E1, E2.
  - replace (- column_compare s vb va =? 0) with false by lia. done.
Qed.

Lemma key_compare_range l a b :
  key_values l a -> key_values l b ->
  -1 <= (key_compare l a b).1 <= 1 /\ ((key_compare l a b).2 <= length l)%nat
  /\ ((key_compare l a b).2 = length l <-> (key_compare l a b).1 = 0).
Proof.
  revert a b. induction l as [|s l IH]; intros a b Ha Hb; [cbn; split; [lia|done]|].
  apply key_values_cons in Ha as (va & a' & -> & Va & Ha), Hb as (vb & b' & -> & Vb & Hb). cbn.
  pose proof (law_range _ _ (column_compare_laws s) va vb Va Vb). destruct (IH a' b') as (? & ? & ?); [done..|].
  destruct (column_compare s va vb =? 0) eqn:E; cbn; lia.
Qed.

Lemma key_compare_laws l : cmp_laws (key_values l) (fun a b => (key_compare l a b).1).
Proof.
  split; intros.
  - by apply key_compare_range.
  - by apply key_compare_opp.
  - by apply (key_compare_mid l a b c).
Qed.

(** The columns before the one that decides are equal, and that one gives the
    result. *)
Lemma key_compare_prefix l k1 k2 n :
  key_values l k1 -> key_values l k2 -> (n <= length l)%nat ->
  (n <= (key_compare l k1 k2).2)%nat
  <-> forall j s v1 v2, (j < n)%nat -> l !! j = Some s -> k1 !! j = Some v1 -> k2 !! j = Some v2 -> column_compare s v1 v2 = 0.
Proof.
  revert k1 k2 n. induction l as [|s l IH]; intros k1 k2 n H1 H2 Hn.
  { cbn in *. split; [lia|]. intros _. lia. }
  apply key_values_cons in H1 as (v1 & k1' & -> & V1 & H1), H2 as (v2 & k2' & -> & V2 & H2).
  destruct n as [|n]; [split; lia|]. cbn [length] in Hn. cbn [key_compare].
  specialize (IH k1' k2' n H1 H2 ltac:(lia)). destruct (column_compare s v1 v2 =? 0) eqn:E; cbn [snd].
  - rewrite <- Nat.succ_le_mono, IH. split; intros Hall.
    + intros [|j] s' a b Hj Hs Ha Hb; cbn in Hs, Ha, Hb; [simplify_eq; lia|]. by apply (Hall j s' a b); [lia|..].
    + intros j s' a b Hj Hs Ha Hb. by apply (Hall (S j) s' a b); [lia|..].
  - split; [lia|]. intros Hall. specialize (Hall 0%nat s v1 v2 ltac:(lia) eq_refl eq_refl eq_refl). lia.
Qed.

Lemma key_compare_at l k1 k2 s v1 v2 :
  key_values l k1 -> key_values l k2 -> let r := key_compare l k1 k2 in
  l !! r.2 = Some s -> k1 !! r.2 = Some v1 -> k2 !! r.2 = Some v2 -> r.1 = column_compare s v1 v2.
Proof.
  revert k1 k2. induction l as [|s0 l IH]; intros k1 k2 H1 H2; [done|].
  apply key_values_cons in H1 as (a & k1' & -> & V1 & H1), H2 as (b & k2' & -> & V2 & H2). cbn [key_compare].
  destruct (column_compare s0 a b =? 0) eqn:E; cbn [fst snd].
  - by apply IH.
  - intros [= ->] [= ->] [= ->]. done.
Qed.

(** ** The comparison of the code *)

Lemma null_compare_values `{Co : TP_COERCE} c v1 v2 :
  orderable c -> column_value c v1 -> column_value c v2 ->
  match VALUE_IS_NULL v1, VALUE_IS_NULL v2 with
  | false, false => tp_value_compare v1 v2 true true = (null_compare c v1 v2, true)
  | _, _ => True
  end.
Proof.
  intros Hc [->|H1] H2; [done|]. destruct (VALUE_IS_NULL v1) eqn:N1; [done|].
  destruct H2 as [->|H2]; [done|]. destruct (VALUE_IS_NULL v2) eqn:N2; [done|].
  unfold null_compare. rewrite N1, N2. by apply tp_compare_key.
Qed.

Lemma idxkey_loop_ok `{Co : TP_COERCE} l k1 k2 i :
  Forall orderable l.*1 -> key_values l k1 -> key_values l k2 -> 0 <= i ->
  let r := key_compare l k1 k2 in
  idxkey_loop (length l) i 0 k1 k2
  = Some (if nth r.2 l.*2 false then - r.1 else r.1, i + Z.of_nat r.2).
Proof.
  revert k1 k2 i. induction l as [|s l IH]; intros k1 k2 i Ho H1 H2 Hi; [cbn; f_equal; f_equal; lia|].
  apply key_values_cons in H1 as (v1 & k1' & -> & V1 & H1), H2 as (v2 & k2' & -> & V2 & H2).
  rewrite fmap_cons in Ho. apply list.Forall_cons in Ho as [Hs Ho].
  specialize (IH k1' k2' (i + 1) Ho H1 H2 ltac:(lia)).
  pose proof (null_compare_values s.1 v1 v2 Hs V1 V2) as Hv. cbn [length idxkey_loop].
  replace (i <? 0) with false by lia. cbn [key_compare fmap list_fmap].
  assert (column_compare s v1 v2 = 0 <-> null_compare s.1 v1 v2 = 0) as Hz
    by (unfold column_compare; destruct s.2; lia).
  assert (column_compare s v1 v2 = 0 ->
    idxkey_loop (length l) (i + 1) 0 k1' k2'
    = Some (let r := key_compare (s :: l) (v1 :: k1') (v2 :: k2') in
            (if nth r.2 (s.2 :: l.*2) false then - r.1 else r.1, i + Z.of_nat r.2))) as Heq.
  { intros E. rewrite IH. cbn. rewrite E. cbn. do 2 f_equal. lia. }
  assert (column_compare s v1 v2 <> 0 ->
    Some (null_compare s.1 v1 v2, i)
    = Some (let r := key_compare (s :: l) (v1 :: k1') (v2 :: k2') in
            (if nth r.2 (s.2 :: l.*2) false then - r.1 else r.1, i + Z.of_nat r.2))) as Hne.
  { intros E. cbn. replace (_ =? 0) with false by lia. cbn. unfold column_compare.
    destruct s.2; do 2 f_equal; lia. }
  cbn [key_compare] in Heq, Hne. destruct (column_compare s v1 v2 =? 0) eqn:E.
  - rewrite <- Heq by lia. assert (null_compare s.1 v1 v2 = 0) as E0 by (apply Hz; lia).
    unfold null_compare in E0. destruct (VALUE_IS_NULL v1) eqn:N1, (VALUE_IS_NULL v2) eqn:N2; try done.
    rewrite Hv. cbn. unfold null_compare. by rewrite N1, N2, E0.
  - rewrite <- Hne by lia. unfold null_compare in *.
    destruct (VALUE_IS_NULL v1) eqn:N1, (VALUE_IS_NULL v2) eqn:N2; try done; [lia|].
    rewrite Hv. cbn. unfold DB_EQ. by replace (_ =? 0) with false by lia.
Qed.

(** An index on columns that have an order, each with its direction. *)
Definition index_ok (indexp : OR_INDEX) : Prop :=
  Forall orderable (atts indexp) /\ length (asc_desc indexp) = n_atts indexp.

Definition key_ok (indexp : OR_INDEX) (key : DB_IDXKEY) : Prop := key_values (specs indexp) key.

Lemma specs_columns indexp : index_ok indexp -> (specs indexp).*1 = atts indexp ++ [oid_column].
Proof. intros [_ H]. apply fst_zip. rewrite !length_app. unfold n_atts in H. cbn. lia. Qed.

Lemma specs_directions indexp : index_ok indexp -> (specs indexp).*2 = asc_desc indexp ++ [false].
Proof. intros [_ H]. apply snd_zip. rewrite !length_app. unfold n_atts in H. cbn. lia. Qed.

Lemma length_specs indexp : index_ok indexp -> length (specs indexp) = S (n_atts indexp).
Proof. intros H. rewrite <- (length_fmap fst), specs_columns, length_app by done. unfold n_atts. cbn. lia. Qed.

Lemma key_length indexp key : index_ok indexp -> key_ok indexp key -> length key = S (n_atts indexp).
Proof. intros Hi Hk. rewrite <- (length_specs indexp) by done. symmetry. by eapply Forall2_length. Qed.

Lemma specs_orderable indexp : index_ok indexp -> Forall orderable (specs indexp).*1.
Proof.
  intros H. rewrite specs_columns by done. destruct H as [H _]. apply Forall_app. split; [done|]. by repeat constructor.
Qed.

Lemma compare_key_ok `{Co : TP_COERCE} indexp k1 k2 :
  index_ok indexp -> key_ok indexp k1 -> key_ok indexp k2 ->
  let r := key_compare (specs indexp) k1 k2 in
  btree_compare_key indexp k1 k2 = Some (r.1, Z.of_nat r.2).
Proof.
  intros Hi H1 H2 r. unfold btree_compare_key, pr_idxkey_compare.
  rewrite (key_length indexp k1), (key_length indexp k2), Nat.eqb_refl by done. cbn [negb].
  rewrite <- (length_specs indexp) by done. cbn [Z.gtb Z.compare].
  rewrite (idxkey_loop_ok (specs indexp) k1 k2 0) by (done || by apply specs_orderable).
  change (key_compare (specs indexp) k1 k2) with r. rewrite Z.add_0_l. cbn.
  pose proof (key_compare_range (specs indexp) k1 k2 H1 H2) as (R & R2 & _). change (key_compare _ _ _) with r in R, R2.
  rewrite specs_directions, Nat2Z.id by done. do 2 f_equal. unfold DB_LT, DB_GT.
  destruct (Z.of_nat r.2 <? Z.of_nat (n_atts indexp)) eqn:E; cbn [andb].
  - rewrite app_nth1 by (destruct Hi as [_ ->]; lia). destruct (nth r.2 _ false); repeat zcase; lia.
  - rewrite length_specs in R2 by done. destruct Hi as [_ Hi]. rewrite app_nth2 by lia.
    replace (nth _ [false] false) with false by (by destruct (r.2 - _)%nat as [|[]]). by destruct (_ || _).
Qed.
