(* ===== verification/BtreeRecord.v ===== *)
(** * The records of a B+-tree page

    What btree_write_record writes, that btree_read_record gives the key and
    the child back, and the node header. *)
From Stdlib Require Import ZArith Lia ZifyBool.
From stdpp Require Import base list numbers.
From S2P Require Import Prelude StorageCommon SpaceSaving SlottedPage NumericValue OrBuf OrBufSpec Collation.
From S2P Require Import Primitive PrimitiveDisk PrimitiveCompare Btree BtreeKey.

(** ** Bytes in memory *)

Lemma nth_load m p n j : (j < n)%nat -> nth j (load_bytes m p n) 0 = m (p + Z.of_nat j).
Proof.
  intros Hj. apply nth_lookup_Some. unfold load_bytes. rewrite list_lookup_fmap, lookup_seq_lt by done. done.
Qed.

Lemma holds_at m p bs j : holds m p bs -> 0 <= j < zlen bs -> m (p + j) = nth (Z.to_nat j) bs 0.
Proof.
  unfold holds, zlen. intros H Hj. rewrite <- H, nth_load by lia. f_equal. lia.
Qed.

Lemma holds_ext m1 m2 p bs :
  (forall x, p <= x < p + zlen bs -> m2 x = m1 x) -> holds m1 p bs -> holds m2 p bs.
Proof. unfold holds, zlen. intros H <-. rewrite length_load_bytes. apply load_bytes_ext. intros. by apply H. Qed.

Lemma store_holds m p bs : holds (store_bytes m p bs) p bs.
Proof. apply load_store_same. Qed.

(** ** Bound bits *)

(** The bound bits of a key as a number. *)
Fixpoint bound_bits_of (key : DB_IDXKEY) : Z :=
  match key with
  | [] => 0
  | v :: key => (if VALUE_IS_NULL v then 0 else 1) + 2 * bound_bits_of key
  end.

Lemma bound_bits_nonneg key : 0 <= bound_bits_of key.
Proof. induction key as [|v key IH]; cbn; [lia|]. destruct (VALUE_IS_NULL v); lia. Qed.

Lemma nth_le_bytes n w j : (j < n)%nat -> nth j (le_bytes n w) 0 = (w / 2 ^ (8 * Z.of_nat j)) mod 256.
Proof.
  revert w j. induction n as [|n IH]; intros w j Hj; [lia|]. destruct j as [|j]; cbn [le_bytes nth].
  - by rewrite Z.mul_0_r, Z.div_1_r.
  - rewrite IH by lia. rewrite Z.div_div by lia. do 2 f_equal. change 256 with (2 ^ 8) at 1.
    rewrite <- Z.pow_add_r by lia. f_equal. lia.
Qed.

Lemma enabled_byte w i j :
  0 <= i -> 0 <= j ->
  (Z.lor w (2 ^ i) / 2 ^ (8 * j)) mod 256
  = if j =? i / 8 then Z.lor ((w / 2 ^ (8 * j)) mod 256) (2 ^ (i mod 8)) else (w / 2 ^ (8 * j)) mod 256.
Proof.
  intros Hi Hj. change 256 with (2 ^ 8). rewrite <- !Z.shiftr_div_pow2 by lia.
  apply Z.bits_inj'. intros t Ht.
  assert (forall x, Z.testbit (x mod 2 ^ 8) t = if t <? 8 then Z.testbit x t else false) as Hm.
  { intros x. zcase; [by rewrite Z.mod_pow2_bits_low by lia|by rewrite Z.mod_pow2_bits_high by lia]. }
  rewrite Hm, Z.shiftr_lor, Z.lor_spec, Z.shiftr_spec, Z.shiftr_spec, Z.pow2_bits_eqb by lia.
  destruct (j =? i / 8) eqn:E.
  - rewrite Z.lor_spec, Hm, Z.shiftr_spec, Z.pow2_bits_eqb by dlia.
    replace (i =? t + 8 * j) with (i mod 8 =? t) by (destruct (i mod 8 =? t) eqn:E1; dlia).
    destruct (t <? 8) eqn:E8; [done|]. symmetry. apply Z.eqb_neq. dlia.
  - rewrite Hm, Z.shiftr_spec by lia. zcase; [|done]. replace (i =? t + 8 * j) with false by dlia. by rewrite orb_false_r.
Qed.

Lemma enable_bound m bb nb w i :
  holds m bb (le_bytes nb w) -> 0 <= i < 8 * Z.of_nat nb ->
  holds (OR_ENABLE_BOUND_BIT m bb i) bb (le_bytes nb (Z.lor w (2 ^ i))).
Proof.
  intros Hh Hi. unfold holds. apply (nth_ext _ _ 0 0); [by rewrite length_load_bytes|].
  rewrite length_load_bytes, length_le_bytes. intros j Hj.
  assert (m (bb + Z.of_nat j) = (w / 2 ^ (8 * Z.of_nat j)) mod 256) as Em.
  { rewrite (holds_at _ _ _ _ Hh) by (rewrite zlen_le; lia). rewrite Nat2Z.id. by apply nth_le_bytes. }
  rewrite nth_le_bytes, enabled_byte, <- Em by lia.
  rewrite nth_load by lia. unfold OR_ENABLE_BOUND_BIT. rewrite Z.shiftr_div_pow2 by lia.
  change (2 ^ 3) with 8. change 7 with (Z.ones 3). rewrite Z.land_ones by lia. change (2 ^ 3) with 8.
  destruct (Z.of_nat j =? i / 8) eqn:E.
  - unfold store_bytes. replace (bb + Z.of_nat j - (bb + i / 8)) with 0 by lia. cbn.
    replace (_ && _) with true by lia. rewrite Z.shiftl_1_l. do 2 f_equal. lia.
  - by apply store_bytes_outside; cbn; lia.
Qed.

Lemma unbound_bit m bb nb w i :
  holds m bb (le_bytes nb w) -> 0 <= i < 8 * Z.of_nat nb ->
  OR_MULTI_ATT_IS_UNBOUND m bb i = negb (Z.testbit w i).
Proof.
  intros Hh Hi. unfold OR_MULTI_ATT_IS_UNBOUND. rewrite Z.shiftr_div_pow2 by lia. change (2 ^ 3) with 8.
  rewrite (holds_at _ _ _ _ Hh) by (rewrite zlen_le; dlia).
  rewrite nth_le_bytes by dlia. rewrite Z2Nat.id by dlia. change 7 with (Z.ones 3). rewrite Z.land_ones by lia.
  rewrite Z.shiftl_1_l. change (2 ^ 3) with 8. change 256 with (2 ^ 8).
  rewrite <- Z.shiftr_div_pow2 by dlia.
  assert (Z.testbit (Z.shiftr w (8 * (i / 8)) mod 2 ^ 8) (i mod 8) = Z.testbit w i) as <-.
  { rewrite Z.mod_pow2_bits_low, Z.shiftr_spec by dlia. f_equal. dlia. }
  set (x := Z.shiftr w (8 * (i / 8)) mod 2 ^ 8). assert (0 <= i mod 8) as Ht by dlia. set (t := i mod 8) in *.
  destruct (Z.testbit x t) eqn:Eb; cbn [negb].
  - apply Z.eqb_neq. intros E. assert (Z.testbit (Z.land x (2 ^ t)) t = true) as F.
    { by rewrite Z.land_spec, Eb, Z.pow2_bits_true. }
    by rewrite E, Z.bits_0 in F.
  - apply Z.eqb_eq. apply Z.bits_inj'. intros s Hs. rewrite Z.land_spec, Z.bits_0, Z.pow2_bits_eqb by lia.
    destruct (t =? s) eqn:E; [|by rewrite andb_false_r]. assert (t = s) as <- by lia. by rewrite Eb.
Qed.

(** ** Writing *)

Definition values_bytes (key : DB_IDXKEY) : list Z := concat (index_bytes <$> key).

Definition bound_size (n : nat) : nat := Z.to_nat (OR_MULTI_BOUND_BIT_BYTES (Z.of_nat n)).

Definition key_bytes (key : DB_IDXKEY) : list Z :=
  le_bytes (bound_size (length key)) (bound_bits_of key) ++ values_bytes key.

Lemma bound_size_enough n :
  OR_MULTI_BOUND_BIT_BYTES (Z.of_nat n) = Z.of_nat (bound_size n) /\ Z.of_nat n <= 8 * Z.of_nat (bound_size n) < Z.of_nat n + 8.
Proof.
  unfold bound_size, OR_MULTI_BOUND_BIT_BYTES. rewrite Z.shiftr_div_pow2 by lia. change (2 ^ 3) with 8. dlia.
Qed.

Definition column_values (l : list COLUMN) (key : DB_IDXKEY) : Prop := Forall2 column_value l key.

Lemma column_value_ok c v : column_value c v -> v = VNull \/ VALUE_IS_NULL v = false /\ value_ok c v.
Proof. intros [->|[H _]]; [by left|right]. split; [|done]. by destruct v, H. Qed.

(** The loop has written what is left of the key, or the buffer is too small;
    it stays between the bound bits and the end of the buffer. *)
Definition wrote (bb : Z) (nb : nat) (w : Z) (bs : list Z) (buf : OR_BUF) (rc : Z) (buf' : OR_BUF) : Prop :=
  (forall x, x < bb \/ or_endptr buf <= x -> or_mem buf' x = or_mem buf x)
  /\ if or_beyond buf (zlen bs) then rc = ER_TF_BUFFER_OVERFLOW
     else rc = NO_ERROR /\ or_buffer buf' = or_buffer buf /\ or_ptr buf' = or_ptr buf + zlen bs
          /\ holds (or_mem buf') bb (le_bytes nb w) /\ holds (or_mem buf') (or_ptr buf) bs
          /\ (forall x, bb + Z.of_nat nb <= x < or_ptr buf -> or_mem buf' x = or_mem buf x).

Lemma write_one bb nb w i c v buf :
  value_ok c v -> VALUE_IS_NULL v = false -> or_ptr buf <= or_endptr buf -> bb + Z.of_nat nb <= or_ptr buf ->
  0 <= w < 2 ^ i -> 0 <= i < 8 * Z.of_nat nb -> holds (or_mem buf) bb (le_bytes nb w) ->
  exists rc b1, index_writeval v buf = Some (rc, b1)
    /\ let b2 := set_buf_mem b1 (OR_ENABLE_BOUND_BIT (or_mem b1) bb i) in
       or_endptr b2 = or_endptr buf /\ wrote bb nb (w + 2 ^ i) (index_bytes v) buf rc b2.
Proof.
  intros Hv Hn Hb Hbb Hw Hi Hh. destruct (index_writes c v Hv) as (g & Eg & Hg). destruct (Hg buf Hb) as (rc & b1 & E & H).
  exists rc, b1. rewrite Eg, E. split; [done|].
  assert (forall m x, x < bb \/ bb + Z.of_nat nb <= x -> OR_ENABLE_BOUND_BIT m bb i x = m x) as Ho.
  { intros m x Hx. unfold OR_ENABLE_BOUND_BIT. apply store_bytes_outside. cbn. rewrite Z.shiftr_div_pow2 by lia.
    change (2 ^ 3) with 8. dlia. }
  cbn zeta. unfold wrote. cbn. destruct (or_beyond buf (zlen (index_bytes v))) eqn:Eb.
  - destruct H as [-> (B & En & P & M)]. split_and!; [done| |done]. intros x Hx. rewrite Ho by lia. apply M. lia.
  - destruct H as [-> Hput]. pose proof Hput as (B & En & P & M). unfold or_beyond in Eb.
    pose proof (zlen_nonneg (index_bytes v)) as Hz.
    destruct (put_confined buf (index_bytes v) b1 ltac:(lia) Hput) as (_ & _ & _ & C). split_and!; try done.
    + intros x Hx. rewrite Ho by lia. apply C. lia.
    + replace (w + 2 ^ i) with (Z.lor w (2 ^ i)).
      * apply enable_bound; [|done]. eapply holds_ext; [|exact Hh]. rewrite zlen_le. intros x Hx. apply C. lia.
      * rewrite Z.add_nocarry_lxor, Z.lxor_lor; try done.
        all: apply Z.bits_inj'; intros t Ht; rewrite Z.land_spec, Z.pow2_bits_eqb, Z.bits_0 by lia;
          destruct (i =? t) eqn:Et; [|by rewrite andb_false_r]; rewrite andb_true_r;
          assert (i = t) as <- by lia; rewrite <- (Z.mod_small w (2 ^ i)) by lia; by rewrite Z.mod_pow2_bits_high by lia.
    + eapply holds_ext; [|exact (put_holds _ _ _ Hput)]. intros x Hx. apply Ho. lia.
    + intros x Hx. rewrite Ho by lia. apply C. lia.
Qed.

Lemma write_values_ok l bb nb key i w buf :
  column_values l key -> or_ptr buf <= or_endptr buf -> bb + Z.of_nat nb <= or_ptr buf ->
  0 <= w < 2 ^ i -> 0 <= i -> i + Z.of_nat (length key) <= 8 * Z.of_nat nb -> holds (or_mem buf) bb (le_bytes nb w) ->
  exists rc buf', write_values bb i key buf = Some (rc, buf')
    /\ wrote bb nb (w + 2 ^ i * bound_bits_of key) (values_bytes key) buf rc buf'.
Proof.
  intros Hk. revert i w buf. induction Hk as [|c v l key Hv Hk IH]; intros i w buf Hb Hbb Hw Hi Hl Hh.
  { exists NO_ERROR, buf. split; [done|]. unfold wrote. split; [done|]. change (zlen (values_bytes [])) with 0. unfold or_beyond. cbn.
    replace (_ >? _) with false by lia. split_and!; try done; try lia. by rewrite Z.mul_0_r, Z.add_0_r. }
  cbn [write_values bound_bits_of length] in *.
  assert (2 ^ (i + 1) = 2 * 2 ^ i) as Ep by (rewrite Z.pow_add_r by lia; lia).
  destruct (column_value_ok c v Hv) as [->|[Hn Hok]].
  { cbn [VALUE_IS_NULL]. destruct (IH (i + 1) w buf) as (rc & buf' & -> & H); try done; try lia.
    exists rc, buf'. split; [done|]. change (values_bytes (VNull :: key)) with (values_bytes key).
    by replace (w + 2 ^ i * (0 + 2 * bound_bits_of key)) with (w + 2 ^ (i + 1) * bound_bits_of key) by (rewrite Ep; ring). }
  rewrite Hn. destruct (write_one bb nb w i c v buf) as (rc & b1 & -> & He & H1); try done; try lia.
  cbn [mbind option_bind]. unfold wrote in H1. destruct H1 as [Ho H1].
  change (values_bytes (v :: key)) with (index_bytes v ++ values_bytes key).
  pose proof (zlen_nonneg (values_bytes key)) as Hz. destruct (or_beyond buf (zlen (index_bytes v))) eqn:Eb.
  { subst rc. cbn [Z.eqb ER_TF_BUFFER_OVERFLOW NO_ERROR]. eexists _, _. split; [reflexivity|]. split; [done|].
    unfold or_beyond in *. rewrite zlen_app. by replace (_ >? _) with true by lia. }
  destruct H1 as (-> & Hbuf & Hp & Hh1 & Hh2 & Hs). cbn [Z.eqb NO_ERROR].
  set (b2 := set_buf_mem b1 _) in *. unfold or_beyond in Eb. pose proof (zlen_nonneg (index_bytes v)) as Hz1.
  destruct (IH (i + 1) (w + 2 ^ i) b2) as (rc & buf' & -> & Ho' & H2); try done; try lia.
  exists rc, buf'. split; [done|]. split; [intros x Hx; rewrite Ho' by lia; apply Ho; lia|].
  unfold or_beyond in H2 |- *. rewrite Hp, He in H2. rewrite zlen_app, Z.add_assoc.
  destruct (_ + zlen (values_bytes key) >? _) eqn:Eb2; [done|]. destruct H2 as (-> & Hbuf' & Hp' & Hh1' & Hh2' & Hs').
  split_and!; [done|congruence|lia| | |].
  - by replace (w + 2 ^ i * (1 + 2 * bound_bits_of key)) with (w + 2 ^ i + 2 ^ (i + 1) * bound_bits_of key) by (rewrite Ep; ring).
  - apply holds_app. split; [|done]. eapply holds_ext; [|exact Hh2]. intros x Hx. apply Hs'. lia.
  - intros x Hx. rewrite Hs' by lia. apply Hs. lia.
Qed.

Lemma le_bytes_0 n : le_bytes n 0 = replicate n 0.
Proof. induction n as [|n IH]; [done|]. cbn [le_bytes replicate]. by rewrite Zmod_0_l, Zdiv_0_l, IH. Qed.

(** The key was written to the buffer, or does not fit. *)
Definition wrote_key (key : DB_IDXKEY) (buf : OR_BUF) (rc : Z) (buf' : OR_BUF) : Prop :=
  (forall x, x < or_ptr buf \/ or_endptr buf <= x -> or_mem buf' x = or_mem buf x)
  /\ if or_beyond buf (zlen (key_bytes key)) then rc = ER_TF_BUFFER_OVERFLOW
     else rc = NO_ERROR /\ or_buffer buf' = or_buffer buf /\ or_ptr buf' = or_ptr buf + zlen (key_bytes key)
          /\ holds (or_mem buf') (or_ptr buf) (key_bytes key).

Lemma write_key_ok l key buf :
  column_values l key -> or_ptr buf + Z.of_nat (bound_size (length key)) <= or_endptr buf ->
  exists rc buf', write_key key buf = Some (rc, buf') /\ wrote_key key buf rc buf'.
Proof.
  intros Hk Hb. destruct (bound_size_enough (length key)) as [Es Hs]. unfold write_key, pr_idxkey_init_boundbits.
  rewrite Es, Nat2Z.id, <- le_bytes_0. set (nb := bound_size (length key)) in *.
  set (b1 := set_buf_mem buf _). rewrite advance_ok by (cbn; lia). cbn [negb Z.eqb NO_ERROR].
  destruct (write_values_ok l (or_ptr buf) nb key 0 0 (or_move b1 (Z.of_nat nb))) as (rc & buf' & -> & Ho & H);
    try done; try (cbn; lia); [cbn; apply store_holds|].
  exists rc, buf'. split; [done|]. split.
  - intros x Hx. rewrite Ho by done. cbn. apply store_bytes_outside. rewrite length_le_bytes. lia.
  - unfold or_beyond in *. unfold key_bytes. rewrite zlen_app, zlen_le, Z.add_assoc. cbn in H.
    fold nb. destruct (_ >? _); [done|]. destruct H as (-> & Hbuf & Hp & Hh1 & Hh2 & _).
    split_and!; [done|done|lia|]. apply holds_app. rewrite zlen_le. split; [|done].
    replace (bound_bits_of key) with (0 + 2 ^ 0 * bound_bits_of key) by lia. exact Hh1.
Qed.

Lemma key_length_bytes l key : column_values l key -> btree_get_key_length key = zlen (key_bytes key).
Proof.
  intros Hk. unfold btree_get_key_length, key_bytes. rewrite zlen_app, zlen_le.
  destruct (bound_size_enough (length key)) as [-> _]. generalize (Z.of_nat (bound_size (length key))).
  induction Hk as [|c v l key Hv Hk IH]; intros n; [change (zlen (values_bytes [])) with 0; cbn; lia|]. cbn [foldl]. rewrite IH.
  change (values_bytes (v :: key)) with (index_bytes v ++ values_bytes key). rewrite zlen_app.
  destruct (column_value_ok c v Hv) as [->|[Hn Hok]]; [change (zlen (index_bytes VNull)) with 0; cbn [VALUE_IS_NULL]; lia|]. rewrite Hn, (index_size c) by done. lia.
Qed.

(** The record of a key; that of an inner page starts with its child. *)
Definition child_bytes (pnt : option VPID) : list Z :=
  match pnt with Some pnt => be_bytes 4 pnt.2 ++ be_bytes 2 pnt.1 | None => [] end.
Definition record_bytes (pnt : option VPID) (key : DB_IDXKEY) : list Z := child_bytes pnt ++ key_bytes key.

Lemma write_child buf pnt :
  or_ptr buf + 6 <= or_endptr buf ->
  put_ok buf (child_bytes (Some pnt)) (btree_write_fixed_portion_of_non_leaf_record_to_orbuf buf pnt).
Proof.
  intros Hb. unfold btree_write_fixed_portion_of_non_leaf_record_to_orbuf.
  destruct (writes_int pnt.2 buf ltac:(lia)) as (rc1 & b1 & -> & H1). cbn [snd].
  unfold or_beyond in H1. rewrite zlen_be in H1. replace (_ >? _) with false in H1 by lia. destruct H1 as [_ H1].
  pose proof H1 as (B1 & E1 & P1 & _). rewrite zlen_be in P1.
  destruct (writes_short pnt.1 b1 ltac:(lia)) as (rc2 & b2 & -> & H2). cbn [snd].
  unfold or_beyond in H2. rewrite zlen_be in H2. replace (_ >? _) with false in H2 by lia. destruct H2 as [_ H2].
  by eapply put_app.
Qed.

Lemma write_record_ok l pnt key m data :
  column_values l key -> Z.of_nat (length key) <= 1000 ->
  let len := zlen (record_bytes pnt key) in
  exists rc m', btree_write_record pnt key m data = Some (rc, m', if len <=? BTREE_MAX_KEYLEN then Some len else None)
    /\ (forall x, x < data \/ data + BTREE_MAX_KEYLEN <= x -> m' x = m x)
    /\ if len <=? BTREE_MAX_KEYLEN then rc = NO_ERROR /\ holds m' data (record_bytes pnt key)
       else rc = ER_TF_BUFFER_OVERFLOW.
Proof.
  intros Hk Hn len. destruct (bound_size_enough (length key)) as [_ Hs]. unfold btree_write_record.
  set (buf := or_init m data BTREE_MAX_KEYLEN).
  assert (exists b1, put_ok buf (child_bytes pnt) b1
    /\ (match pnt with Some pnt => btree_write_fixed_portion_of_non_leaf_record_to_orbuf buf pnt | None => buf end) = b1
    /\ zlen (child_bytes pnt) <= 6) as (b1 & Hput & -> & Hc).
  { destruct pnt as [pnt|]; eexists; (split; [|split; [reflexivity|]]); try (cbn; lia).
    - apply write_child. cbn. unfold BTREE_MAX_KEYLEN. lia.
    - unfold child_bytes. rewrite zlen_app, !zlen_be. lia.
    - split_and!; try done; [change (zlen (child_bytes None)) with 0; cbn; lia|]. intros a. by rewrite store_bytes_nil.
    - done. }
  pose proof Hput as (B & En & P & M). change (or_ptr buf) with data in *.
  change (or_endptr buf) with (data + BTREE_MAX_KEYLEN) in *. pose proof (put_holds _ _ _ Hput) as Hh.
  assert (BTREE_MAX_KEYLEN = 900) as E900 by done. pose proof (zlen_nonneg (child_bytes pnt)) as Hz.
  destruct (write_key_ok l key b1 Hk ltac:(lia)) as (rc & b2 & -> & Ho & H). cbn [mbind option_bind].
  assert (or_beyond b1 (zlen (key_bytes key)) = negb (len <=? BTREE_MAX_KEYLEN)) as Eb.
  { unfold len, record_bytes, or_beyond. rewrite zlen_app, P, En. lia. }
  rewrite Eb in H. exists rc, (or_mem b2). destruct (len <=? BTREE_MAX_KEYLEN) eqn:El; cbn [negb] in H.
  - destruct H as (-> & Hb2 & Hp2 & Hh2). cbn [Z.eqb NO_ERROR]. split_and!; try done.
    + do 3 f_equal. rewrite Hp2, P, Hb2, B. unfold len, record_bytes. rewrite zlen_app. cbn. lia.
    + intros x Hx. rewrite Ho by lia. rewrite M. apply store_bytes_outside. unfold zlen in *. lia.
    + apply holds_app. rewrite P in Hh2. split; [|done]. eapply holds_ext; [|exact Hh]. intros x Hx. apply Ho. cbn in Hx. lia.
  - subst rc. split_and!; try done. intros x Hx. rewrite Ho by lia. rewrite M. apply store_bytes_outside. unfold zlen in *. lia.
Qed.

Lemma save_keyval_ok l btid key m :
  column_values l key -> Z.of_nat (length key) <= 1000 ->
  exists m' len, btree_rv_save_keyval btid key m 0
    = Some (if zlen (key_bytes key) <=? BTREE_MAX_KEYLEN then NO_ERROR else ER_TF_BUFFER_OVERFLOW, m', len).
Proof.
  intros Hk Hn. destruct (bound_size_enough (length key)) as [_ Hs]. unfold btree_rv_save_keyval, or_pack_oid, or_pack_btid.
  destruct (write_key_ok l key (or_init
    (OR_PUT_SHORT (OR_PUT_INT (OR_PUT_INT (OR_PUT_OID m 0 (cls_oid btid)) (0 + OR_OID_SIZE) (root_pageid (sys_btid btid)))
       (0 + OR_OID_SIZE + 4) (vfid_fileid (sys_btid btid))) (0 + OR_OID_SIZE + 8) (vfid_volid (sys_btid btid)))
    (0 + OR_OID_SIZE + OR_BTID_ALIGNED_SIZE) BTREE_MAX_KEYLEN) Hk) as (rc & b2 & -> & _ & H).
  { unfold or_init, BTREE_MAX_KEYLEN. cbn. lia. }
  exists (or_mem b2), (or_ptr b2 - 0). cbn [mbind option_bind]. do 3 f_equal.
  unfold or_beyond, or_init, BTREE_MAX_KEYLEN in *. cbn in H. zcase; zcase; try lia; by destruct H.
Qed.

(** ** Reading *)

Lemma read_values_ok net copy l bb nb key i w buf :
  column_values l key -> holds (or_mem buf) bb (le_bytes nb w) -> w / 2 ^ i = bound_bits_of key ->
  0 <= i -> i + Z.of_nat (length key) <= 8 * Z.of_nat nb ->
  holds (or_mem buf) (or_ptr buf) (values_bytes key) -> or_ptr buf + zlen (values_bytes key) <= or_endptr buf ->
  read_values net copy true bb i l buf = Some (NO_ERROR, key, or_move buf (zlen (values_bytes key))).
Proof.
  intros Hk. revert i buf. induction Hk as [|c v l key Hv Hk IH]; intros i buf Hb Hw Hi Hl Hh He.
  { cbn. by rewrite or_move_0. }
  cbn [read_values length bound_bits_of] in *. rewrite (unbound_bit _ _ nb w i) by (done || lia).
  assert (Z.testbit w i = negb (VALUE_IS_NULL v)) as ->.
  { rewrite <- (Z.add_0_l i), <- Z.shiftr_spec, Z.shiftr_div_pow2, Hw by lia.
    destruct (VALUE_IS_NULL v); cbn [negb];
      [rewrite Z.add_0_l; apply Z.testbit_even_0|rewrite Z.add_comm; apply Z.testbit_odd_0]. }
  assert (w / 2 ^ (i + 1) = bound_bits_of key) as Hw'.
  { rewrite Z.pow_add_r, <- Z.div_div, Hw by lia. destruct (VALUE_IS_NULL v); dlia. }
  change (values_bytes (v :: key)) with (index_bytes v ++ values_bytes key) in *.
  rewrite holds_app in Hh. rewrite zlen_app in *. destruct Hh as [H1 H2]. pose proof (zlen_nonneg (values_bytes key)).
  destruct (column_value_ok c v Hv) as [->|[-> Hok]]; cbn [VALUE_IS_NULL negb].
  - change (zlen (index_bytes VNull)) with 0 in *. rewrite Z.add_0_r in H2. rewrite IH by (done || lia). done.
  - rewrite (index_reads net copy c v Hok true buf) by (done || lia). cbn [Z.eqb NO_ERROR mbind option_bind].
    rewrite IH by (done || (cbn; lia)). cbn [mbind option_bind]. by rewrite or_move_move.
Qed.

Definition vpid_fits (v : VPID) : Prop := - 2 ^ 15 <= v.1 < 2 ^ 15 /\ - 2 ^ 31 <= v.2 < 2 ^ 31.

Lemma read_child buf pnt :
  vpid_fits pnt -> holds (or_mem buf) (or_ptr buf) (child_bytes (Some pnt)) -> or_ptr buf + 6 <= or_endptr buf ->
  btree_read_fixed_portion_of_non_leaf_record_from_orbuf buf = (NO_ERROR, pnt, or_move buf 6).
Proof.
  intros [Hv Hp] Hh Hb. unfold child_bytes in Hh. rewrite holds_app, zlen_be in Hh. destruct Hh as [H1 H2].
  unfold btree_read_fixed_portion_of_non_leaf_record_from_orbuf, or_get_int, or_get_short, or_get, or_beyond.
  replace (_ >? _) with false by (unfold OR_INT_SIZE; lia). cbn [Z.eqb NO_ERROR].
  rewrite (get_int _ _ _ H1), swrap_small by lia. cbn [or_move or_mem or_ptr or_endptr or_buffer].
  replace (_ >? _) with false by (unfold OR_INT_SIZE, OR_SHORT_SIZE; lia).
  rewrite (get_short _ _ pnt.1) by done. rewrite swrap_small by lia. destruct pnt. unfold or_move. cbn. unfold OR_INT_SIZE, OR_SHORT_SIZE. do 2 f_equal. lia.
Qed.

Definition is_inner (pnt : option VPID) : bool := match pnt with Some _ => true | None => false end.

Lemma read_record_ok net copy indexp pnt key m data :
  index_ok indexp -> key_ok indexp key -> match pnt with Some v => vpid_fits v | None => True end ->
  zlen (record_bytes pnt key) <= BTREE_MAX_KEYLEN -> holds m data (record_bytes pnt key) ->
  btree_read_record net indexp (is_inner pnt) copy true m data (zlen (record_bytes pnt key))
  = Some (NO_ERROR, key, default (0, 0) pnt).
Proof.
  intros Hi Hk Hp Hl Hh. pose proof (key_length indexp key Hi Hk) as Hn. unfold BTREE_MAX_KEYLEN in Hl.
  assert (column_values (atts indexp ++ [oid_column]) key) as Hc.
  { rewrite <- specs_columns by done. by apply Forall2_fmap_l. }
  destruct (bound_size_enough (length key)) as [Es Hs]. unfold record_bytes in *. rewrite holds_app, zlen_app in *.
  destruct Hh as [H1 H2]. unfold key_bytes in Hl, H2. rewrite holds_app, zlen_app, zlen_le in *. destruct H2 as [H2 H3].
  pose proof (zlen_nonneg (values_bytes key)) as Hz. pose proof (zlen_nonneg (child_bytes pnt)) as Hz1.
  set (len := zlen (child_bytes pnt) + zlen (key_bytes key)).
  assert (len = zlen (child_bytes pnt) + Z.of_nat (bound_size (length key)) + zlen (values_bytes key)) as El.
  { unfold len, key_bytes. rewrite zlen_app, zlen_le. lia. }
  unfold btree_read_record. assert (or_init m data len = mkBuf m data data (data + len)) as ->.
  { unfold or_init, DB_INT32_MAX. replace (_ || _ || _) with false by lia. done. }
  assert ((if is_inner pnt then btree_read_fixed_portion_of_non_leaf_record_from_orbuf (mkBuf m data data (data + len))
           else (NO_ERROR, (0, 0), mkBuf m data data (data + len)))
          = (NO_ERROR, default (0, 0) pnt, mkBuf m data (data + zlen (child_bytes pnt)) (data + len))) as ->.
  { destruct pnt as [pnt|]; cbn [is_inner].
    - assert (zlen (child_bytes (Some pnt)) = 6) as E6 by (unfold child_bytes; by rewrite zlen_app, !zlen_be).
      rewrite (read_child _ pnt) by (done || (cbn; lia)). by rewrite E6.
    - by change (zlen (child_bytes None)) with 0; rewrite Z.add_0_r. }
  cbn [Z.eqb NO_ERROR negb or_ptr]. rewrite Nat.add_1_r, <- Hn, Es, advance_ok by (cbn; lia). cbn [Z.eqb NO_ERROR negb].
  rewrite (read_values_ok net copy _ _ (bound_size (length key)) key 0 (bound_bits_of key)); try done; try (cbn; lia).
  by rewrite Z.div_1_r.
Qed.

Lemma read_child_memory m p pnt rest :
  vpid_fits pnt -> holds m p (child_bytes (Some pnt) ++ rest) ->
  btree_read_fixed_portion_of_non_leaf_record m p = pnt.
Proof.
  intros [Hv Hp]. unfold child_bytes. rewrite !holds_app, zlen_be. intros [[H1 H2] _].
  unfold btree_read_fixed_portion_of_non_leaf_record, OR_INT_SIZE.
  rewrite (get_int m p pnt.2), (get_short m (p + 4) pnt.1), !swrap_small by (done || lia). by destruct pnt.
Qed.

(** ** The node header *)

Definition node_vpid_ok (v : NODE_VPID) : Prop :=
  - 2 ^ 31 <= nv_pageid v < 2 ^ 31 /\ - 2 ^ 15 <= nv_volid v < 2 ^ 15 /\ 0 <= nv_pad v < 2 ^ 16.

Definition header_ok (h : BTREE_NODE_HEADER) : Prop :=
  0 <= pivot h < 2 ^ 32 /\ - 2 ^ 31 <= index h < 2 ^ 31 /\ node_vpid_ok (next_vpid h)
  /\ node_vpid_ok (prev_vpid h) /\ - 2 ^ 15 <= key_cnt h < 2 ^ 15 /\ - 2 ^ 15 <= node_level h < 2 ^ 15.

Lemma copymem_signed n w m p x :
  w = 8 * Z.of_nat n -> (0 < n)%nat -> - 2 ^ (w - 1) <= x < 2 ^ (w - 1) -> holds m p (le_bytes n x) ->
  copymem n (swrap w) m p = x.
Proof. intros -> Hn Hx Hh. apply copymem_le; [|done]. by rewrite swrap_uwrap, swrap_small by lia. Qed.

Lemma copymem_unsigned n w m p x :
  w = 8 * Z.of_nat n -> 0 <= x < 2 ^ w -> holds m p (le_bytes n x) -> copymem n (uwrap w) m p = x.
Proof. intros -> Hx Hh. apply copymem_le; [|done]. by rewrite uwrap_uwrap, uwrap_small by lia. Qed.

Lemma read_vpid_ok m p v : node_vpid_ok v -> holds m p (vpid_bytes v) -> read_vpid m p = v.
Proof.
  intros (H1 & H2 & H3). unfold vpid_bytes. rewrite !holds_app, !zlen_le, <- !Z.add_assoc. intros (B1 & B2 & B3).
  unfold read_vpid. rewrite (copymem_signed 4 32 m p (nv_pageid v)), (copymem_signed 2 16 m _ (nv_volid v)),
    (copymem_unsigned 2 16 m _ (nv_pad v)) by (done || lia). by destruct v.
Qed.

Lemma zlen_vpid v : zlen (vpid_bytes v) = 8.
Proof. unfold vpid_bytes. by rewrite !zlen_app, !zlen_le. Qed.

Lemma zlen_header h : zlen (header_bytes h) = NODE_HEADER_SIZE.
Proof. unfold header_bytes. by rewrite !zlen_app, !zlen_le, !zlen_vpid. Qed.

Lemma read_header_ok m p h : header_ok h -> holds m p (header_bytes h) -> read_header m p = h.
Proof.
  intros (H1 & H2 & H3 & H4 & H5 & H6). unfold header_bytes.
  rewrite !holds_app, !zlen_le, !zlen_vpid, <- !Z.add_assoc. intros (B1 & B2 & B3 & B4 & B5 & B6).
  unfold read_header. rewrite (copymem_unsigned 4 32 m p (pivot h)), (copymem_signed 4 32 m _ (index h)),
    (read_vpid_ok m _ (next_vpid h)), (read_vpid_ok m _ (prev_vpid h)), (copymem_signed 2 16 m _ (key_cnt h)),
    (copymem_signed 2 16 m _ (node_level h)) by (done || lia). by destruct h.
Qed.
