(* ===== verification/BtreeSearch.v ===== *)
(** * The searches of a B+-tree page

    What a leaf and an inner page hold, and that the binary searches find the
    slot of a key among the sorted keys of a page. *)
From Stdlib Require Import ZArith Lia ZifyBool Sorting.Sorted.
From stdpp Require Import base list numbers sorting.
From S2P Require Import Prelude StorageCommon SpaceSaving SlottedPage SlottedPageInv SlottedPageDelete SlottedPageRead SlottedPageSpec SlottedPageProps.
From S2P Require Import NumericValue OrBuf OrBufSpec Collation Primitive PrimitiveDisk PrimitiveCompare.
From S2P Require Import Btree BtreeKey BtreeRecord.

(** ** Sorted keys *)

Section Keys.
Context `{Co : TP_COERCE} (indexp : OR_INDEX) (Hi : index_ok indexp).

Definition kcmp (k1 k2 : DB_IDXKEY) : Z := (key_compare (specs indexp) k1 k2).1.
(** The number of leading columns two keys agree on. *)
Definition agree_cols (k1 k2 : DB_IDXKEY) : nat := (key_compare (specs indexp) k1 k2).2.

Definition sorted (keys : list DB_IDXKEY) : Prop := StronglySorted (fun a b => kcmp a b < 0) keys.

Definition keys_ok (keys : list DB_IDXKEY) : Prop :=
  Forall (fun k => key_ok indexp k /\ zlen (key_bytes k) <= BTREE_MAX_KEYLEN) keys /\ sorted keys.

Lemma kcmp_laws : cmp_laws (key_ok indexp) kcmp.
Proof. apply key_compare_laws. Qed.

Lemma sorted_lookup keys i j a b :
  sorted keys -> keys !! i = Some a -> keys !! j = Some b -> (i < j)%nat -> kcmp a b < 0.
Proof.
  intros Hs. revert i j. induction Hs as [|k keys Hs IH Hk]; intros i j Ha Hb Hij; [done|].
  destruct j as [|j]; [lia|]. destruct i as [|i]; cbn in Ha, Hb.
  - injection Ha as <-. rewrite Forall_lookup in Hk. by apply (Hk j).
  - apply (IH i j); [done|done|lia].
Qed.

Lemma keys_lookup keys i k : keys_ok keys -> keys !! i = Some k -> key_ok indexp k.
Proof. intros [H _] Hk. rewrite Forall_lookup in H. by apply (H i). Qed.

(** The keys before a smaller key are smaller, and agree with the key on no
    more columns; the same behind a larger one. *)
Lemma smaller_before keys key i j a b :
  keys_ok keys -> key_ok indexp key -> keys !! i = Some a -> keys !! j = Some b -> (i <= j)%nat ->
  0 < kcmp key b -> 0 < kcmp key a /\ (agree_cols key a <= agree_cols key b)%nat.
Proof.
  intros Hk Hkey Ha Hb Hij Hc. pose proof (keys_lookup _ _ _ Hk Ha) as Ka. pose proof (keys_lookup _ _ _ Hk Hb) as Kb.
  destruct (decide (i = j)) as [->|Hne]; [rewrite Ha in Hb; by injection Hb as ->|].
  pose proof (sorted_lookup keys i j a b (proj2 Hk) Ha Hb ltac:(lia)) as Hab.
  pose proof (key_compare_opp (specs indexp) key a Hkey Ka) as [E1 E2].
  pose proof (key_compare_opp (specs indexp) key b Hkey Kb) as [E3 E4]. unfold kcmp, agree_cols in *.
  destruct (key_compare_mid (specs indexp) a b key Ka Kb Hkey) as [H1 H2]; [lia|lia|].
  pose proof (law_range _ _ kcmp_laws a key Ka Hkey). pose proof (law_range _ _ kcmp_laws b key Kb Hkey).
  pose proof (law_range _ _ kcmp_laws a b Ka Kb). pose proof (law_lt _ _ kcmp_laws a b key Ka Kb Hkey).
  unfold kcmp in *. lia.
Qed.

Lemma larger_behind keys key i j a b :
  keys_ok keys -> key_ok indexp key -> keys !! i = Some a -> keys !! j = Some b -> (i <= j)%nat ->
  kcmp key a < 0 -> kcmp key b < 0 /\ (agree_cols key b <= agree_cols key a)%nat.
Proof.
  intros Hk Hkey Ha Hb Hij Hc. pose proof (keys_lookup _ _ _ Hk Ha) as Ka. pose proof (keys_lookup _ _ _ Hk Hb) as Kb.
  destruct (decide (i = j)) as [->|Hne]; [rewrite Ha in Hb; by injection Hb as ->|].
  pose proof (sorted_lookup keys i j a b (proj2 Hk) Ha Hb ltac:(lia)) as Hab. unfold kcmp, agree_cols in *.
  destruct (key_compare_mid (specs indexp) key a b Hkey Ka Kb) as [H1 H2]; [lia|lia|].
  pose proof (law_range _ _ kcmp_laws key a Hkey Ka). pose proof (law_range _ _ kcmp_laws a b Ka Kb).
  pose proof (law_lt _ _ kcmp_laws key a b Hkey Ka Kb). unfold kcmp in *. lia.
Qed.

Lemma compare_key_cmp k1 k2 :
  key_ok indexp k1 -> key_ok indexp k2 ->
  btree_compare_key indexp k1 k2 = Some (kcmp k1 k2, Z.of_nat (agree_cols k1 k2)).
Proof. intros. by apply compare_key_ok. Qed.

(** All the columns agree exactly if the keys are equal. *)
Lemma agree_range k1 k2 :
  key_ok indexp k1 -> key_ok indexp k2 ->
  -1 <= kcmp k1 k2 <= 1 /\ (agree_cols k1 k2 <= S (n_atts indexp))%nat
  /\ (agree_cols k1 k2 = S (n_atts indexp) <-> kcmp k1 k2 = 0).
Proof. intros H1 H2. rewrite <- (length_specs indexp) by done. by apply key_compare_range. Qed.

(** ** Pages *)

(** The first record of a page is its header. *)
Definition has_header (p : PAGE) (h : BTREE_NODE_HEADER) (vs : list SLOT_VIEW) : Prop :=
  page_inv p /\ anchored p = false /\ header_ok h /\ exists t, views p = Rec t (header_bytes h) :: vs.

(** A leaf page with its keys. *)
Definition leaf_page (p : PAGE) (h : BTREE_NODE_HEADER) (keys : list DB_IDXKEY) : Prop :=
  has_header p h ((fun k => Rec REC_HOME (record_bytes None k)) <$> keys)
  /\ keys_ok keys /\ key_cnt h = Z.of_nat (length keys).

(** An inner page: every child with the largest key it may hold, and behind
    them the last child, whose key is not looked at. *)
Definition inner_page (p : PAGE) (h : BTREE_NODE_HEADER) (children : list (DB_IDXKEY * VPID)) (last : VPID) : Prop :=
  (exists rest, has_header p h
     (((fun r => Rec REC_HOME (record_bytes (Some r.2) r.1)) <$> children)
      ++ [Rec REC_HOME (child_bytes (Some last) ++ rest)]))
  /\ Forall (fun r => vpid_fits r.2 /\ zlen (record_bytes (Some r.2) r.1) <= BTREE_MAX_KEYLEN) children
  /\ keys_ok children.*1 /\ key_cnt h = Z.of_nat (length children) /\ vpid_fits last.

Lemma read_node_header er p h vs : has_header p h vs -> btree_read_node_header er p = (NO_ERROR, Some h).
Proof.
  intros ([[W _] _] & _ & Hh & t & Hv). unfold btree_read_node_header, HEADER.
  destruct (get_record_peek p 0 RECDES_INITIALIZER t (header_bytes h) W) as (off & -> & Hb); [done|by rewrite Hv|].
  cbn [negb Z.eqb S_SUCCESS]. unfold rec_data. cbn [data]. by rewrite (read_header_ok _ off h).
Qed.

Lemma peek_key_ok net p h vs t pnt key mid :
  has_header p h vs -> 1 <= mid -> vs !! Z.to_nat (mid - 1) = Some (Rec t (record_bytes pnt key)) ->
  key_ok indexp key -> match pnt with Some v => vpid_fits v | None => True end ->
  zlen (record_bytes pnt key) <= BTREE_MAX_KEYLEN ->
  peek_key net indexp (is_inner pnt) p mid = Some (NO_ERROR, key, default (0, 0) pnt).
Proof.
  intros ([[W _] _] & _ & _ & t0 & Hv) Hm Hr Hk Hp Hl. unfold peek_key.
  destruct (get_record_peek p mid RECDES_INITIALIZER t (record_bytes pnt key) W) as (off & -> & Hb); [lia| |].
  { rewrite Hv. replace (Z.to_nat mid) with (S (Z.to_nat (mid - 1))) by lia. done. }
  unfold rec_data. cbn [data length_]. by apply read_record_ok.
Qed.

(** ** Binary search *)

Section Loop.
Context (keys : list DB_IDXKEY) (key : DB_IDXKEY).
Context (Hkeys : keys_ok keys) (Hkey : key_ok indexp key).

(** The key of slot [i] is smaller, or larger; [md] bounds the columns it
    agrees on. *)
Definition smaller_at (md i : Z) : Prop :=
  exists k, keys !! Z.to_nat (i - 1) = Some k /\ 0 < kcmp key k /\ Z.of_nat (agree_cols key k) <= md.
Definition larger_at (md i : Z) : Prop :=
  exists k, keys !! Z.to_nat (i - 1) = Some k /\ kcmp key k < 0 /\ Z.of_nat (agree_cols key k) <= md.

Definition attained (md : Z) : Prop := exists i k, keys !! i = Some k /\ Z.of_nat (agree_cols key k) = md.

(** The slot where the key belongs: everything before it is smaller, everything
    from it on is larger. *)
Definition gap (md i : Z) : Prop :=
  1 <= i <= Z.of_nat (length keys) + 1 /\ (1 < i -> smaller_at md (i - 1))
  /\ (i <= Z.of_nat (length keys) -> larger_at md i).

Record searching (left right c mid md : Z) : Prop := {
  sg_range : 1 <= left <= right + 1 /\ right <= Z.of_nat (length keys);
  sg_left : 1 < left -> smaller_at md (left - 1);
  sg_right : right < Z.of_nat (length keys) -> larger_at md (right + 1);
  sg_last : left <= right \/ (c < 0 /\ mid = left) \/ (0 < c /\ mid + 1 = left) }.

Lemma at_mono md md' i : md <= md' -> (smaller_at md i -> smaller_at md' i) /\ (larger_at md i -> larger_at md' i).
Proof. intros H. split; intros (k & ? & ? & ?); exists k; (split_and!; [done|done|lia]). Qed.

Lemma middle left right :
  1 <= left <= right -> left <= CEIL_PTVDIV (left + right) 2 <= right.
Proof. intros H. unfold CEIL_PTVDIV. replace (_ =? 0) with false by lia. rewrite Z.quot_div_nonneg by lia. dlia. Qed.

(** One comparison with the key of a slot between the bounds. *)
Lemma searching_step left right c mid md i k :
  searching left right c mid md -> left <= i <= right -> keys !! Z.to_nat (i - 1) = Some k ->
  let md' := Z.max md (Z.of_nat (agree_cols key k)) in
  (kcmp key k < 0 -> searching left (i - 1) (kcmp key k) i md')
  /\ (0 < kcmp key k -> searching (i + 1) right (kcmp key k) i md').
Proof.
  intros [R L G _] Hik Hk md'. pose proof (at_mono md md') as M.
  split; intros Hc; split; try lia.
  - intros Hl. apply (M (left - 1)); [lia|]. by apply L.
  - intros _. exists k. replace (i - 1 + 1 - 1) with (i - 1) by lia. split_and!; [done|done|lia].
  - intros _. exists k. replace (i + 1 - 1 - 1) with (i - 1) by lia. split_and!; [done|done|lia].
  - intros Hr. apply (M (right + 1)); [lia|]. by apply G.
Qed.

Lemma searching_gap left right c mid md :
  searching left right c mid md -> right < left ->
  c <> 0 /\ gap md (if c <=? 0 then mid else mid + 1).
Proof.
  intros [R L G E] Hr. split; [lia|]. assert ((if c <=? 0 then mid else mid + 1) = left) as -> by (zcase; lia).
  split_and!; [lia|lia|done|]. intros Hl. assert (right + 1 = left) as <- by lia. apply G. lia.
Qed.

Lemma in_range i : 1 <= i <= Z.of_nat (length keys) -> exists k, keys !! Z.to_nat (i - 1) = Some k /\ key_ok indexp k.
Proof.
  intros Hr. destruct (lookup_lt_is_Some_2 keys (Z.to_nat (i - 1))) as [k E]; [lia|]. exists k. split; [done|].
  by apply (keys_lookup keys (Z.to_nat (i - 1))).
Qed.

Lemma attained_max md k i :
  md = -1 \/ attained md -> keys !! i = Some k -> attained (Z.max md (Z.of_nat (agree_cols key k))).
Proof.
  intros Ha Hk. destruct (Z.max_spec md (Z.of_nat (agree_cols key k))) as [[_ ->]|[H ->]]; [by exists i, k|].
  destruct Ha as [->|Ha]; [lia|done].
Qed.

Lemma attained_bound md : md = -1 \/ attained md -> md <= Z.of_nat (S (n_atts indexp)).
Proof.
  intros [->|(i & k & Hk & <-)]; [lia|]. destruct (agree_range key k Hkey) as (_ & ? & _); [|lia].
  by apply (keys_lookup keys i).
Qed.

(** How the searches end. *)
Definition found_at (md mid : Z) : Prop :=
  1 <= mid <= Z.of_nat (length keys)
  /\ exists k, keys !! Z.to_nat (mid - 1) = Some k /\ kcmp key k = 0 /\ md = Z.of_nat (agree_cols key k).

Definition search_end (c mid md : Z) : Prop :=
  (c = 0 /\ found_at md mid) \/ (c <> 0 /\ gap md (if c <=? 0 then mid else mid + 1) /\ attained md).

Lemma leaf_loop_ok net fuel p h left right lc rc c mid md :
  has_header p h ((fun k => Rec REC_HOME (record_bytes None k)) <$> keys) ->
  searching left right c mid md -> (left <= right -> md = -1 \/ attained md) -> (right < left -> attained md) ->
  lc < Z.of_nat (length key) -> rc < Z.of_nat (length key) -> right - left + 1 < Z.of_nat fuel ->
  exists c' mid' md', leaf_loop net fuel indexp p key left right lc rc c mid md
    = Some (SearchEnd c' mid' (0, 0) md') /\ search_end c' mid' md'.
Proof.
  intros Hp. revert left right lc rc c mid md.
  induction fuel as [|fuel IH]; intros left right lc rc c mid md Sg A1 A2 Hlc Hrc Hf.
  { pose proof (sg_range _ _ _ _ _ Sg). lia. }
  cbn [leaf_loop]. destruct (left <=? right) eqn:E; cbn [negb].
  2: { exists c, mid, md. split; [done|]. right. destruct (searching_gap _ _ _ _ _ Sg ltac:(lia)).
       split_and!; [done|done|]. apply A2. lia. }
  pose proof (sg_range _ _ _ _ _ Sg) as R. pose proof (middle left right ltac:(lia)) as Hm.
  set (i := CEIL_PTVDIV (left + right) 2) in *. destruct (in_range i ltac:(lia)) as (k & Hk & Kk).
  pose proof (peek_key_ok net p h _ REC_HOME None k i Hp) as Hpk. cbn [is_inner] in Hpk.
  rewrite Hpk; [|lia|by rewrite list_lookup_fmap, Hk|done|done|].
  2: { destruct Hkeys as [F _]. rewrite Forall_lookup in F. by apply (F (Z.to_nat (i - 1))). }
  cbn [mbind option_bind negb Z.eqb NO_ERROR]. replace (Z.min lc rc >=? Z.of_nat (length key)) with false by lia.
  rewrite compare_key_cmp by done. cbn [mbind option_bind]. destruct (agree_range key k Hkey Kk) as (Rc & Rd & Re).
  rewrite (key_length indexp key Hi Hkey) in *.
  replace (kcmp key k =? DB_UNK) with false by (unfold DB_UNK; lia).
  destruct (searching_step _ _ _ _ _ i k Sg ltac:(lia) Hk) as [SL SR].
  pose proof (attained_max md k _ (A1 ltac:(lia)) Hk) as A.
  destruct (kcmp key k =? 0) eqn:E0.
  { eexists _, _, _. split; [reflexivity|]. left. split; [lia|]. split; [lia|]. exists k. split_and!; [done|lia|].
    assert (md <= Z.of_nat (S (n_atts indexp))) by (apply attained_bound, A1; lia). lia. }
  destruct (kcmp key k <? 0) eqn:E1.
  - apply IH; [apply SL; lia|by right|done|done|lia|lia].
  - apply IH; [apply SR; lia|by right|done|lia|done|lia].
Qed.

(** The key belongs at position [i]: the keys before it are smaller, the others
    are larger. *)
Definition belongs (i : nat) : Prop :=
  (i <= length keys)%nat
  /\ (forall j k, keys !! j = Some k -> (j < i)%nat -> 0 < kcmp key k)
  /\ (forall j k, keys !! j = Some k -> (i <= j)%nat -> kcmp key k < 0).

Lemma gap_belongs md i :
  gap md i -> belongs (Z.to_nat (i - 1)) /\ forall j k, keys !! j = Some k -> Z.of_nat (agree_cols key k) <= md.
Proof.
  intros (R & L & G).
  assert (forall j k, keys !! j = Some k ->
    if (j <? Z.to_nat (i - 1))%nat then 0 < kcmp key k /\ Z.of_nat (agree_cols key k) <= md
    else kcmp key k < 0 /\ Z.of_nat (agree_cols key k) <= md) as Hall.
  { intros j k Hk. pose proof (lookup_lt_Some _ _ _ Hk). destruct (j <? Z.to_nat (i - 1))%nat eqn:E.
    - destruct (L ltac:(lia)) as (a & Ha & Hc & Hd).
      destruct (smaller_before keys key _ _ k a Hkeys Hkey Hk Ha ltac:(lia) Hc). lia.
    - destruct (G ltac:(lia)) as (b & Hb & Hc & Hd).
      destruct (larger_behind keys key _ _ b k Hkeys Hkey Hb Hk ltac:(lia) Hc). lia. }
  split; [split_and!; [lia|..]|]; intros j k Hk; specialize (Hall j k Hk).
  - intros Hj. replace (j <? _)%nat with true in Hall by lia. lia.
  - intros Hj. replace (j <? _)%nat with false in Hall by lia. lia.
  - destruct (j <? _)%nat; lia.
Qed.

Lemma searching_start n : n = Z.of_nat (length keys) -> 0 < n -> searching 1 n 0 0 (-1).
Proof. intros -> Hn. split; lia. Qed.

(** The answer of btree_search_leaf_page. *)
Definition leaf_answer (found : bool) (slot md : Z) : Prop :=
  if found then found_at md slot
  else 1 <= slot /\ belongs (Z.to_nat (slot - 1))
       /\ (forall j k, keys !! j = Some k -> Z.of_nat (agree_cols key k) <= md)
       /\ ((keys = [] /\ md = -1) \/ attained md).

Lemma search_leaf_ok net er p h :
  leaf_page p h keys ->
  exists found slot md, btree_search_leaf_page net er indexp p key = Some (found, slot, md)
    /\ leaf_answer found slot md.
Proof.
  intros (Hp & _ & Hc). unfold btree_search_leaf_page. rewrite (read_node_header er p h _ Hp), Hc.
  replace (_ <? 0) with false by lia. destruct (Z.of_nat (length keys) =? 0) eqn:E0.
  { assert (keys = []) as El by (apply nil_length_inv; lia). exists false, 1, (-1). split; [done|].
    unfold leaf_answer, belongs. rewrite El. split_and!; try done; try lia. by left. }
  destruct (leaf_loop_ok net (S (Z.to_nat (Z.of_nat (length keys)))) p h 1 (Z.of_nat (length keys)) 0 0 0 0 (-1) Hp)
    as (c & mid & md & -> & Hend).
  - apply searching_start; lia.
  - by left.
  - lia.
  - rewrite (key_length indexp key) by done. lia.
  - rewrite (key_length indexp key) by done. lia.
  - lia.
  - cbn [mbind option_bind]. destruct Hend as [[-> Hf]|(Hne & Hg & Ha)].
    + exists true, mid, md. by split.
    + replace (c =? 0) with false by lia. eexists false, _, md. split; [reflexivity|]. cbn.
      destruct (gap_belongs _ _ Hg). destruct Hg as (R & _). split_and!; [lia|done..|by right].
Qed.
End Loop.

(** ** Inner pages *)

Section Inner.
Context (children : list (DB_IDXKEY * VPID)) (key : DB_IDXKEY).
Context (Hkeys : keys_ok children.*1) (Hkey : key_ok indexp key).
Context (Hfits : Forall (fun r => vpid_fits r.2 /\ zlen (record_bytes (Some r.2) r.1) <= BTREE_MAX_KEYLEN) children).

Definition inner_end (c mid : Z) (pnt : VPID) : Prop :=
  (exists k, children !! Z.to_nat (mid - 1) = Some (k, pnt))
  /\ exists md, (c = 0 /\ found_at children.*1 key md mid)
                \/ (c <> 0 /\ gap children.*1 key md (if c <=? 0 then mid else mid + 1)).

Lemma nonleaf_loop_ok net fuel p h last left right c mid pnt :
  has_header p h (((fun r => Rec REC_HOME (record_bytes (Some r.2) r.1)) <$> children) ++ [last]) ->
  searching children.*1 key left right c mid (Z.of_nat (S (n_atts indexp))) ->
  (right < left -> exists k, children !! Z.to_nat (mid - 1) = Some (k, pnt)) ->
  right - left + 1 < Z.of_nat fuel ->
  exists c' mid' pnt', nonleaf_loop net fuel indexp p key left right c mid pnt
    = Some (SearchEnd c' mid' pnt' (-1)) /\ inner_end c' mid' pnt'.
Proof.
  intros Hp. revert left right c mid pnt.
  induction fuel as [|fuel IH]; intros left right c mid pnt Sg Hpnt Hf.
  { pose proof (sg_range _ _ _ _ _ _ _ Sg). lia. }
  cbn [nonleaf_loop]. destruct (left <=? right) eqn:E; cbn [negb].
  2: { exists c, mid, pnt. split; [done|]. destruct (searching_gap _ _ _ _ _ _ _ Sg ltac:(lia)).
       split; [apply Hpnt; lia|]. eexists. right. by split. }
  pose proof (sg_range _ _ _ _ _ _ _ Sg) as R. pose proof (middle left right ltac:(lia)) as Hm.
  set (i := CEIL_PTVDIV (left + right) 2) in *.
  destruct (in_range children.*1 Hkeys i ltac:(lia)) as (k & Hk & Kk). pose proof Hk as Hc.
  rewrite list_lookup_fmap in Hc. destruct (children !! Z.to_nat (i - 1)) as [[k' v]|] eqn:Hr; [|done].
  cbn in Hc. injection Hc as ->. rewrite Forall_lookup in Hfits. destruct (Hfits _ _ Hr) as [Hv Hl]. cbn in Hv, Hl.
  pose proof (peek_key_ok net p h _ REC_HOME (Some v) k i Hp) as Hpk. cbn [is_inner default] in Hpk.
  rewrite Hpk; [|lia| |done|done|done].
  2: { rewrite lookup_app_l; [by rewrite list_lookup_fmap, Hr|]. rewrite length_fmap. by eapply lookup_lt_Some. }
  cbn [mbind option_bind negb Z.eqb NO_ERROR]. rewrite compare_key_cmp by done. cbn [mbind option_bind].
  destruct (agree_range key k Hkey Kk) as (Rc & Rd & Re).
  replace (kcmp key k =? DB_UNK) with false by (unfold DB_UNK; lia).
  destruct (searching_step _ _ _ _ _ _ _ i k Sg ltac:(lia) Hk) as [SL SR]. rewrite Z.max_l in SL, SR by lia.
  destruct (kcmp key k =? 0) eqn:E0.
  { eexists _, _, _. split; [reflexivity|]. split; [by exists k|]. eexists. left. split; [lia|]. split; [lia|].
    exists k. split_and!; [done|lia|reflexivity]. }
  destruct (kcmp key k <? 0) eqn:E1.
  - apply IH; [apply SL; lia|by exists k|lia].
  - apply IH; [apply SR; lia|by exists k|lia].
Qed.

(** The child to be followed: its separator is the first that is not smaller
    than the key, or it is the last child. *)
Definition child_for (last : VPID) (i : nat) (v : VPID) : Prop :=
  (children.*2 ++ [last]) !! i = Some v
  /\ (forall j k, children.*1 !! j = Some k -> (j < i)%nat -> 0 < kcmp key k)
  /\ (forall j k, children.*1 !! j = Some k -> (i <= j)%nat -> kcmp key k <= 0).

Lemma found_child md mid :
  found_at children.*1 key md mid ->
  (forall j k, children.*1 !! j = Some k -> (j < Z.to_nat (mid - 1))%nat -> 0 < kcmp key k)
  /\ (forall j k, children.*1 !! j = Some k -> (Z.to_nat (mid - 1) <= j)%nat -> kcmp key k <= 0).
Proof.
  intros (R & k0 & Hk0 & Hc & _). pose proof (keys_lookup _ _ _ Hkeys Hk0) as K0.
  split; intros j k Hk Hj; pose proof (keys_lookup _ _ _ Hkeys Hk) as K.
  - pose proof (sorted_lookup _ _ _ _ _ (proj2 Hkeys) Hk Hk0 Hj). rewrite (law_eq_l _ _ kcmp_laws key k0 k) by done.
    rewrite (law_opp _ _ kcmp_laws k0 k) by done. lia.
  - rewrite (law_eq_l _ _ kcmp_laws key k0 k) by done. destruct (decide (j = Z.to_nat (mid - 1))) as [->|Hne].
    + rewrite Hk in Hk0. injection Hk0 as ->. by rewrite (law_refl _ _ kcmp_laws).
    + pose proof (sorted_lookup _ _ _ _ _ (proj2 Hkeys) Hk0 Hk ltac:(lia)). lia.
Qed.

Lemma child_of_ok p h t vs slot v rest :
  has_header p h vs -> 1 <= slot -> vs !! Z.to_nat (slot - 1) = Some (Rec t (child_bytes (Some v) ++ rest)) -> vpid_fits v ->
  child_of p slot = (NO_ERROR, slot, v).
Proof.
  intros ([[W _] _] & _ & _ & t0 & Hv) Hs Hr Hfit. unfold child_of.
  destruct (get_record_peek p slot RECDES_INITIALIZER t (child_bytes (Some v) ++ rest) W) as (off & -> & Hb); [lia| |].
  { rewrite Hv. replace (Z.to_nat slot) with (S (Z.to_nat (slot - 1))) by lia. done. }
  cbn [negb Z.eqb S_SUCCESS]. unfold rec_data. cbn [data]. by rewrite (read_child_memory _ off v rest).
Qed.

Lemma child_record last t rest i :
  (i <= length children)%nat ->
  exists t' v rest',
    (((fun r => Rec REC_HOME (record_bytes (Some r.2) r.1)) <$> children) ++ [Rec t (child_bytes (Some last) ++ rest)]) !! i
      = Some (Rec t' (child_bytes (Some v) ++ rest'))
    /\ (children.*2 ++ [last]) !! i = Some v /\ (vpid_fits last -> vpid_fits v).
Proof.
  intros Hlen. destruct (decide (i < length children)%nat) as [Hlt|Hge].
  - destruct (lookup_lt_is_Some_2 children i Hlt) as [[k v] Hr].
    exists REC_HOME, v, (key_bytes k). rewrite !lookup_app_l by (by rewrite length_fmap).
    rewrite !list_lookup_fmap, Hr. split_and!; [done|done|]. intros _. rewrite Forall_lookup in Hfits. by apply (Hfits i (k, v)).
  - assert (i = length children) as -> by lia. exists t, last, rest.
    rewrite !lookup_app_r by (by rewrite length_fmap). rewrite !length_fmap, Nat.sub_diag. done.
Qed.

Lemma search_nonleaf_ok net er p h last :
  inner_page p h children last ->
  exists slot v, btree_search_nonleaf_page net er indexp p key = Some (NO_ERROR, slot, v)
    /\ 1 <= slot /\ child_for last (Z.to_nat (slot - 1)) v.
Proof.
  intros ((rest & Hp) & _ & _ & Hc & Hlast). unfold btree_search_nonleaf_page, child_for. rewrite (read_node_header er p h _ Hp), Hc.
  assert (length (views p) = S (S (length children))) as Hlv.
  { destruct Hp as (_ & _ & _ & t0 & ->). cbn. rewrite length_app, length_fmap. cbn. lia. }
  assert (spage_number_of_records p = Z.of_nat (S (S (length children)))) as ->.
  { destruct Hp as ([W _] & Ha & _). unfold spage_number_of_records. rewrite <- Hlv, length_views.
    unfold anchored in Ha. pose proof (dense_counts p W ltac:(lia)). pose proof (wf_nslots _ (proj1 W)).
    unfold p_num_slots, p_num_records in *. lia. }
  replace (_ <=? 1) with false by lia.
  assert (forall i, (i <= length children)%nat -> exists v,
    child_of p (Z.of_nat i + 1) = (NO_ERROR, Z.of_nat i + 1, v) /\ (children.*2 ++ [last]) !! i = Some v) as Hchild.
  { intros i Hle. destruct (child_record last REC_HOME rest i Hle) as (t' & v & rest' & E1 & E2 & E3). exists v. split; [|done].
    apply (child_of_ok p h t' _ (Z.of_nat i + 1) v rest' Hp); [lia| |by apply E3].
    by replace (Z.to_nat (Z.of_nat i + 1 - 1)) with i by lia. }
  destruct (Z.of_nat (length children) =? 0) eqn:E0.
  { destruct (Hchild 0%nat ltac:(lia)) as (v & E & Hv). change (Z.of_nat 0 + 1) with 1 in E. exists 1, v. rewrite E.
    split_and!; [done|lia|done|..]; intros j k Hk; apply lookup_lt_Some in Hk; rewrite length_fmap in Hk; lia. }
  destruct (nonleaf_loop_ok net (S (Z.to_nat (Z.of_nat (length children)))) p h _ 1 (Z.of_nat (length children)) 0 0 (0, 0) Hp)
    as (c & mid & pnt & -> & [k0 Hr] & md & Hend).
  - split; rewrite ?length_fmap; lia.
  - lia.
  - lia.
  - cbn [mbind option_bind]. destruct Hend as [[-> Hf]|[Hne Hg]].
    + exists mid, pnt. destruct (found_child md mid Hf). destruct Hf as (R & _). split_and!; [done|lia| |done|done].
      rewrite lookup_app_l; [by rewrite list_lookup_fmap, Hr|]. rewrite length_fmap. by eapply lookup_lt_Some.
    + destruct (gap_belongs children.*1 key Hkeys Hkey _ _ Hg) as [(Hb1 & Hb2 & Hb3) _]. rewrite length_fmap in Hb1.
      destruct Hg as ((R & _) & _). destruct (c <=? 0) eqn:Ec.
      * exists mid, pnt. split_and!; [done|lia| |done|].
        -- rewrite lookup_app_l; [by rewrite list_lookup_fmap, Hr|]. rewrite length_fmap. by eapply lookup_lt_Some.
        -- intros j k Hk Hj. pose proof (Hb3 j k Hk Hj). lia.
      * destruct (Hchild (Z.to_nat (mid + 1 - 1)) Hb1) as (v & E & Hv).
        replace (Z.of_nat (Z.to_nat (mid + 1 - 1)) + 1) with (mid + 1) in E by lia. exists (mid + 1), v. rewrite E.
        split_and!; [done|lia|done|done|]. intros j k Hk Hj. pose proof (Hb3 j k Hk Hj). lia.
Qed.
End Inner.
End Keys.
