(* ===== verification/BtreeUpdate.v ===== *)
(** * Insertion and deletion in a leaf

    The changes of a leaf page keep its keys sorted and its header in step
    with them. *)
From Stdlib Require Import ZArith Lia ZifyBool Sorting.Sorted.
From stdpp Require Import base list numbers sorting.
From S2P Require Import Prelude StorageCommon Floats SpaceSaving SpaceSavingInv SlottedPage SlottedPageInv SlottedPageOps SlottedPageShift.
From S2P Require Import SlottedPageDelete SlottedPageRead SlottedPageSpec SlottedPageProps.
From S2P Require Import NumericValue OrBuf OrBufSpec Collation Primitive PrimitiveDisk PrimitiveCompare.
From S2P Require Import Btree BtreeKey BtreeRecord BtreeSearch.

(** ** The header *)

Lemma header_nonempty h : header_bytes h <> [].
Proof. intros E. pose proof (zlen_header h) as Hz. by rewrite E in Hz. Qed.

Lemma same_slots_inv p q : page_inv p -> p_hdr q = p_hdr p -> slots q = slots p -> solid q -> page_inv q.
Proof. intros [[W D] S] Hh Hs Sq. split; [split|done]; [by eapply page_ok_eq|by eapply dense_eq]. Qed.

Lemma write_node_header_ok er p h h' vs :
  has_header p h vs -> header_ok h' ->
  exists q, btree_write_node_header er p h' = (NO_ERROR, q) /\ has_header q h' vs /\ frame p q /\ p_hdr q = p_hdr p.
Proof.
  intros (I & Ha & Hh & t & Hv) Hh'. pose proof (proj1 (proj1 I)) as W. unfold btree_write_node_header, HEADER.
  destruct (views_Rec p 0 t (header_bytes h)) as (Hr & Hl & Ht & Hlen & Hb); [by rewrite Hv|done|].
  assert (forall x, length (header_bytes x) = Z.to_nat NODE_HEADER_SIZE) as Hz.
  { intros x. pose proof (zlen_header x) as Hx. unfold zlen in Hx. lia. }
  unfold spage_get_record. rewrite find_slot_Some by done. unfold spage_get_record_data, PEEK.
  cbn [negb Z.eqb S_SUCCESS]. unfold rec_data. cbn [data]. eexists. split; [reflexivity|].
  destruct (write_in_record p 0 (header_bytes h') W Hr Hl) as (Hs & Hf & Hvr).
  { rewrite Hlen, !Hz. lia. }
  set (q := set_mem p _) in *. rewrite Hlen, Nat2Z.id, Hb, drop_ge, app_nil_r, Hv in Hvr by (by rewrite !Hz).
  assert (views q = Rec t (header_bytes h') :: vs) as Hvq by (by rewrite Hvr, Ht). split; [|done].
  assert (solid q) as Sq.
  { unfold solid. rewrite Hvq. destruct I as [_ S]. unfold solid in S. rewrite Hv in S. apply list.Forall_cons in S as [_ S].
    constructor; [apply header_nonempty|done]. }
  split; [by apply (same_slots_inv p)|]. split; [done|]. split; [done|]. by eexists.
Qed.

Lemma dirty_header p h vs : has_header p h vs -> has_header (pgbuf_set_dirty p) h vs.
Proof. intros (I & H). split; [|done]. by apply (same_slots_inv p); [..|apply I]. Qed.

(** ** Records *)

Lemma header_slots p h vs :
  has_header p h vs -> p_num_slots p = Z.of_nat (length vs) + 1 /\ anchor_type (p_hdr p) <> ANCHORED.
Proof.
  intros ([[W _] _] & Ha & _ & t & Hv). pose proof (length_views p) as Hl. rewrite Hv in Hl. cbn in Hl.
  pose proof (wf_nslots _ W). unfold anchored in Ha. lia.
Qed.

(** A page without anchors has a free slot everywhere. *)
Lemma slot_free p h vs slot len :
  has_header p h vs -> 1 <= slot ->
  slot_taken p slot = false /\ need_at p slot len = DB_ALIGN len (alignment (p_hdr p)) + SPAGE_SLOT_SIZE
  /\ reused p slot = false.
Proof.
  intros Hp Hs. destruct (header_slots p h vs Hp) as [_ Hna]. destruct Hp as ([W _] & _).
  assert (reused p slot = false) as Hre.
  { destruct (decide (slot < p_num_slots p)) as [Hlt|]; [|unfold reused; lia].
    apply not_true_is_false. intros Hr. apply (reused_abs p slot (proj1 W) ltac:(lia)) in Hr.
    rewrite views_lookup in Hr by lia. unfold view in Hr. by rewrite (proj2 W Hna slot ltac:(lia)) in Hr. }
  unfold slot_taken, need_at. rewrite Hre. unfold ANCHORED in *. split_and!; try done; lia.
Qed.

Section Changes.
Context {ST : Type} `{SavedSpacesLaws ST} (th : THREAD_ENTRY).

Lemma page_insert_at (st : ST) p h vs slot m len :
  has_header p h vs -> saved_ok st -> 1 <= slot <= Z.of_nat (length vs) + 1 ->
  0 < len <= spage_max_space_for_new_record th st p ->
  exists rd', (exists q, spage_insert_at th st p slot (leaf_record m len) = (SP_SUCCESS, q, rd')
    /\ frame p q
    /\ has_header q h (take (Z.to_nat (slot - 1)) vs
         ++ Rec REC_HOME (load_bytes m 0 (Z.to_nat len)) :: drop (Z.to_nat (slot - 1)) vs))
  \/ (th_calloc th = false /\ spage_insert_at th st p slot (leaf_record m len) = (SP_ERROR, p, rd')).
Proof.
  intros Hp Hst Hslot Hlen. destruct (slot_free p h vs slot len Hp ltac:(lia)) as (Htk & Hneed & Hre).
  destruct (header_slots p h vs Hp) as [Hn _]. destruct Hp as (I & Ha & Hh & t & Hv). pose proof (proj1 I) as W.
  assert (recdes_ok (leaf_record m len)) as Hrd.
  { split_and!; cbn; try done; try lia. intros _. eexists. split; [done|]. rewrite length_load_bytes. lia. }
  destruct (max_space_fits th st p len Hst W Hlen) as [Hfit Hmax].
  destruct (spage_insert_at_cases th st Hst (leaf_record m len) Hrd p slot W ltac:(lia)) as [(? & _)|[(_ & Hc & _)|(_ & _ & _ & Hc)]].
  { cbn in *. lia. }
  { rewrite Htk in Hc. destruct Hc; [lia|done]. }
  cbn [length_ leaf_record] in Hc. rewrite Hneed, Hfit in Hc.
  destruct Hc as [(_ & q & bytes & E & Him & Hins)|[(? & _)|(_ & Hca & E)]]; [|done|].
  - eexists. left. exists q. split; [exact E|]. split; [apply Hins|].
    destruct Him as (_ & _ & Him). rewrite (Him ltac:(done) _ eq_refl) in Hins.
    change (type_ (norm_rd (leaf_record m len))) with REC_HOME in Hins. change (length_ (norm_rd (leaf_record m len))) with len in Hins.
    rewrite take_ge in Hins by (by rewrite length_load_bytes). set (bs := load_bytes m 0 (Z.to_nat len)) in *.
    assert (views q = Rec t (header_bytes h)
      :: take (Z.to_nat (slot - 1)) vs ++ Rec REC_HOME bs :: drop (Z.to_nat (slot - 1)) vs) as Hvq.
    { rewrite (ins_views _ _ _ _ _ _ _ Hins). unfold put_view_at. rewrite Hre, Hv.
      by replace (Z.to_nat slot) with (S (Z.to_nat (slot - 1))) by lia. }
    split; [split; [apply Hins|]|split; [|split; [done|by eexists]]].
    + unfold solid. rewrite Hvq. destruct I as [_ S]. unfold solid in S. rewrite Hv in S.
      apply list.Forall_cons in S as [S1 S2]. constructor; [done|]. apply solid_middle; [done|]. cbn.
      intros E0. pose proof (length_load_bytes m 0 (Z.to_nat len)) as El. fold bs in El. rewrite E0 in El. cbn in El. lia.
    + unfold anchored in *. by rewrite (ins_anchor _ _ _ _ _ _ _ Hins).
  - eexists. right. split; [done|exact E].
Qed.

Lemma page_delete_at (st : ST) p h vs slot :
  has_header p h vs -> saved_ok st -> 1 <= slot <= Z.of_nat (length vs) ->
  exists r q st', spage_delete th st p slot = (r, q, st') /\ saved_by th st st'
    /\ (r = slot \/ (r = NULL_SLOTID /\ th_malloc th = false))
    /\ frame p q /\ has_header q h (delete (Z.to_nat (slot - 1)) vs).
Proof.
  intros Hp Hst Hs. destruct (header_slots p h vs Hp) as [Hn Hna]. destruct Hp as (I & Ha & Hh & t & Hv). pose proof (proj1 I) as W.
  destruct (spage_delete_spec th st p slot W (proj2 I) ltac:(lia) (proj2 W Hna slot ltac:(lia))) as (q & D & ->).
  set (g := give_back th st p (freed p slot)).
  assert (has_header q h (delete (Z.to_nat (slot - 1)) vs)) as Hq.
  { assert (views q = Rec t (header_bytes h) :: delete (Z.to_nat (slot - 1)) vs) as Hvq.
    { rewrite (del_views _ _ _ D). unfold delete_view. replace (_ =? ANCHORED) with false by lia. rewrite Hv.
      by replace (Z.to_nat slot) with (S (Z.to_nat (slot - 1))) by lia. }
    split; [split; [apply D|]|split; [|split; [done|by eexists]]].
    - unfold solid. rewrite Hvq. destruct I as [_ S]. unfold solid in S. rewrite Hv in S.
      apply list.Forall_cons in S as [S1 S2]. constructor; [done|]. by apply Forall_delete.
    - unfold anchored in *. by rewrite (del_anchor _ _ _ D). }
  eexists _, _, _. split; [reflexivity|]. split; [|split; [|split]].
  - unfold g, give_back. destruct (is_saving (p_hdr p)); [right; by eexists _, _|by left].
  - destruct (g.1 =? NO_ERROR) eqn:Eg; [by left|right]. split; [done|]. apply not_true_is_false. intros Hm.
    assert (g.1 = NO_ERROR) as E; [|lia]. unfold g, give_back. destruct (is_saving (p_hdr p)); [|done].
    by apply save_space_status.
  - destruct (g.1 =? NO_ERROR); apply D.
  - destruct (g.1 =? NO_ERROR); [by apply dirty_header|done].
Qed.
End Changes.

(** ** Keys *)

Lemma keys_insert indexp keys key i :
  keys_ok indexp keys -> key_ok indexp key -> zlen (key_bytes key) <= BTREE_MAX_KEYLEN -> belongs indexp keys key i ->
  keys_ok indexp (take i keys ++ key :: drop i keys).
Proof.
  intros Hk Hkey Hl (Hi & Hb & Ha). destruct Hk as [F S]. pose proof F as F'. rewrite Forall_lookup in F'.
  split.
  - apply Forall_app. split; [by apply Forall_take|]. constructor; [done|by apply Forall_drop].
  - assert (forall k, k ∈ take i keys -> kcmp indexp k key < 0) as Hlt.
    { intros k (j & Hj)%list_elem_of_lookup. apply lookup_take_Some in Hj as [Hj Hji].
      pose proof (Hb j k Hj Hji). rewrite (law_opp _ _ (kcmp_laws indexp) k key); [lia| |done]. by apply (F' j). }
    assert (Forall (fun k => kcmp indexp key k < 0) (drop i keys)) as Hgt.
    { apply Forall_lookup. intros j k Hj. rewrite lookup_drop in Hj. apply (Ha (i + j)%nat); [done|lia]. }
    unfold sorted in *. pose proof S as S0. rewrite <- (take_drop i keys) in S. apply StronglySorted_app in S as (S1 & S2 & S3).
    apply StronglySorted_app. split_and!; [|done|by constructor].
    intros a b Hia [->|Hib]%elem_of_cons; [by apply Hlt|by apply S1].
Qed.

Lemma keys_delete indexp keys i : keys_ok indexp keys -> keys_ok indexp (delete i keys).
Proof.
  intros [F S]. split; [by apply Forall_delete|]. unfold sorted in *. rewrite delete_take_drop.
  rewrite <- (take_drop i keys) in S. apply StronglySorted_app in S as (S1 & S2 & S3).
  assert (drop (S i) keys = drop 1 (drop i keys)) as -> by (rewrite drop_drop; f_equal; lia).
  destruct (drop i keys) as [|x l]; cbn; [rewrite app_nil_r; done|].
  apply StronglySorted_inv in S3 as [S3 _]. apply StronglySorted_app. split_and!; [|done|done].
  intros a b Ha Hb. apply S1; [done|by right].
Qed.

Lemma key_bytes_pos key : 0 < zlen (key_bytes key) \/ key = [].
Proof.
  destruct key as [|v key]; [by right|left]. unfold key_bytes. rewrite zlen_app, zlen_le.
  pose proof (zlen_nonneg (values_bytes (v :: key))). destruct (bound_size_enough (length (v :: key))) as [_ Hs]. cbn [length] in *. lia.
Qed.

Lemma next_pivot_range pivot index v cnt :
  -1 <= cnt < 2 ^ 15 -> - 2 ^ 31 <= index < 2 ^ 31 ->
  0 <= (btree_split_next_pivot pivot index v cnt).1 < 2 ^ 32
  /\ - 2 ^ 31 <= (btree_split_next_pivot pivot index v cnt).2 < 2 ^ 31.
Proof.
  intros Hc Hx. unfold btree_split_next_pivot. cbn [fst snd]. split; [|lia].
  unfold bits_of_float, uwrap. apply Z.mod_pos_bound. lia.
Qed.

Lemma column_values_key indexp key :
  index_ok indexp -> key_ok indexp key -> column_values (atts indexp ++ [oid_column]) key.
Proof. intros Hi Hk. rewrite <- specs_columns by done. by apply Forall2_fmap_l. Qed.

(** The columns of an index fit its keys. *)
Definition few_columns (indexp : OR_INDEX) : Prop := (n_atts indexp < 1000)%nat.

(** The header after a key has been added or removed: the count changes, the
    neighbours and the level do not. *)
Definition counted (h h' : BTREE_NODE_HEADER) (n : Z) : Prop :=
  key_cnt h' = key_cnt h + n /\ next_vpid h' = next_vpid h /\ prev_vpid h' = prev_vpid h /\ node_level h' = node_level h.

Section Updates.
Context {ST : Type} `{SavedSpacesLaws ST} `{Co : TP_COERCE} (th : THREAD_ENTRY) (net er : Z).
Context (btid : BTID_INT) (Hi : index_ok (indexp btid)) (Hc : few_columns (indexp btid)).

Lemma leaf_count p h vs : has_header p h vs -> Z.of_nat (length vs) < 4096.
Proof.
  intros Hp. destruct (header_slots p h vs Hp) as [Hn _]. destruct Hp as ([[W _] _] & _).
  pose proof (wf_cont _ W). pose proof (wf_cont_pos _ W). pose proof (wf_off _ W). assert (DB_PAGESIZE <= 16384) by done. unfold SPAGE_HEADER_SIZE in *. lia.
Qed.

(** What the insertion of a key that is not in the leaf does. *)
Definition inserted_key (st : ST) (p : PAGE) (h : BTREE_NODE_HEADER) (keys : list DB_IDXKEY) (key : DB_IDXKEY)
    (ret : Z) (q : PAGE) : Prop :=
  if zlen (key_bytes key) >? BTREE_MAX_KEYLEN then ret = ER_TF_BUFFER_OVERFLOW /\ q = p
  else if zlen (key_bytes key) >? spage_max_space_for_new_record th st p then ret = ER_BTREE_NO_SPACE /\ q = p
  else (ret = NO_ERROR /\ frame p q /\ exists i h', belongs (indexp btid) keys key i
          /\ counted h h' 1 /\ leaf_page (indexp btid) q h' (take i keys ++ key :: drop i keys))
       \/ (th_calloc th = false /\ ret = error_or_failed er /\ q = p).

Lemma write_count p h vs h' n :
  has_header p h vs -> counted h h' n -> 0 <= pivot h' < 2 ^ 32 -> - 2 ^ 31 <= index h' < 2 ^ 31 -> - 2 ^ 15 <= key_cnt h + n < 2 ^ 15 ->
  exists q, btree_write_node_header er p h' = (NO_ERROR, q) /\ has_header q h' vs /\ frame p q /\ p_hdr q = p_hdr p.
Proof.
  intros Hp (E1 & E2 & E3 & E4) Hpi Hix Hn. apply (write_node_header_ok er p h); [done|].
  destruct Hp as (_ & _ & (H1 & H2 & H3 & H4 & H5 & H6) & _). split_and!; try congruence; lia.
Qed.

Lemma insert_new_key_ok rv_key rec_buf st p h keys key slot :
  leaf_page (indexp btid) p h keys -> key_ok (indexp btid) key -> saved_ok st -> 1 <= slot ->
  belongs (indexp btid) keys key (Z.to_nat (slot - 1)) ->
  exists ret q, btree_insert_new_key th er rv_key rec_buf st btid p key slot = Some (ret, q)
    /\ inserted_key st p h keys key ret q.
Proof.
  intros (Hp & Hk & Hn) Hkey Hst Hs Hb. pose proof (key_length _ _ Hi Hkey) as Hl. unfold few_columns in Hc.
  pose proof (column_values_key _ _ Hi Hkey) as Hcol. unfold btree_insert_new_key, inserted_key.
  destruct (save_keyval_ok _ btid key rv_key Hcol ltac:(lia)) as (m1 & len1 & ->). cbn [mbind option_bind].
  destruct (zlen (key_bytes key) <=? BTREE_MAX_KEYLEN) eqn:E.
  2: { replace (_ >? BTREE_MAX_KEYLEN) with true by lia. by eexists _, _. }
  replace (_ >? BTREE_MAX_KEYLEN) with false by lia.
  cbn [negb Z.eqb NO_ERROR].
  destruct (write_record_ok _ None key rec_buf 0 Hcol ltac:(lia)) as (rc & m & -> & _ & Hw). cbn zeta in Hw |- *.
  change (record_bytes None key) with (key_bytes key) in *. rewrite E in Hw |- *. destruct Hw as [-> Hh].
  cbn [mbind option_bind]. destruct (zlen (key_bytes key) >? _) eqn:Ef; [by eexists _, _|].
  destruct (key_bytes_pos key) as [Hpos| ->]; [|done].
  destruct (page_insert_at th st p h _ slot m (zlen (key_bytes key)) Hp Hst) as (rd' & [(q & -> & Fq & Hq)|[Hca ->]]).
  { rewrite length_fmap. destruct Hb. lia. }
  { lia. }
  2: { cbn. eexists _, _. split; [done|]. by right. }
  cbn [negb Z.eqb SP_SUCCESS]. rewrite (read_node_header er q h _ Hq).
  pose proof (leaf_count q h _ Hq) as Hcnt. rewrite length_app, length_cons, length_take, length_drop, length_fmap in Hcnt.
  destruct Hb as (Hb1 & Hb2). rewrite Nat.min_l in Hcnt by done. rewrite swrap_small by lia.
  destruct (next_pivot_range (pivot h) (index h) (fdiv (float_of slot) (float_of (key_cnt h + 1))) (key_cnt h + 1)) as [R1 R2];
    [lia|by destruct Hp as (_ & _ & Hh0 & _); apply Hh0|].
  destruct (btree_split_next_pivot _ _ _ _) as [pv ix]. cbn in R1, R2.
  set (h' := mkNodeHeader pv ix _ _ _ _). assert (counted h h' 1) as Hcd by done.
  destruct (write_count q h _ h' 1 Hq Hcd R1 R2 ltac:(lia)) as (r & -> & Hr & Fr & _). cbn [negb Z.eqb NO_ERROR].
  eexists _, _. split; [reflexivity|]. left. split; [done|]. split; [exact (frame_trans p q r Fq Fr)|].
  exists (Z.to_nat (slot - 1)), h'. split; [done|]. split; [done|]. split; [|split].
  - apply dirty_header. rewrite fmap_app, fmap_cons, fmap_take, fmap_drop.
    unfold holds, zlen in *. rewrite Nat2Z.id, Hh in Hr. exact Hr.
  - apply keys_insert; try done. lia.
  - unfold h'. cbn [key_cnt]. rewrite Hn, length_app, length_cons, length_take, length_drop. lia.
Qed.

(** ** The leaf operations *)

Definition present (keys : list DB_IDXKEY) (key : DB_IDXKEY) : Prop :=
  exists k, k ∈ keys /\ kcmp (indexp btid) key k = 0.

(** A key with the same attributes and another object. *)
Definition same_attributes (key k : DB_IDXKEY) : Prop :=
  forall j c v1 v2, atts (indexp btid) !! j = Some c -> key !! j = Some v1 -> k !! j = Some v2 -> null_compare c v1 v2 = 0.

Definition violates (keys : list DB_IDXKEY) (key : DB_IDXKEY) : Prop :=
  INDEX_IS_UNIQUE (indexp btid) = true /\ btree_key_is_null key = false
  /\ exists k, k ∈ keys /\ same_attributes key k.

Lemma same_attributes_agree key k :
  key_ok (indexp btid) key -> key_ok (indexp btid) k ->
  same_attributes key k <-> (n_atts (indexp btid) <= agree_cols (indexp btid) key k)%nat.
Proof.
  intros H1 H2. unfold agree_cols. rewrite key_compare_prefix by (done || (rewrite length_specs by done; lia)).
  unfold same_attributes, column_compare.
  assert (forall j s, specs (indexp btid) !! j = Some s -> (atts (indexp btid) ++ [oid_column]) !! j = Some s.1) as Hs.
  { intros j s Hs. rewrite <- specs_columns by done. by rewrite list_lookup_fmap, Hs. }
  split; intros Hall.
  - intros j s v1 v2 Hj Hsp Ha Hb. apply Hs in Hsp. rewrite lookup_app_l in Hsp by done.
    pose proof (Hall j s.1 v1 v2 Hsp Ha Hb). destruct s.2; lia.
  - intros j c v1 v2 Hat Ha Hb. pose proof (lookup_lt_Some _ _ _ Hat) as Hj. unfold n_atts in Hall.
    destruct (lookup_lt_is_Some_2 (specs (indexp btid)) j) as [s Hsp]; [rewrite length_specs by done; unfold n_atts; lia|].
    pose proof (Hs j s Hsp) as Hc1. rewrite lookup_app_l, Hat in Hc1 by done. injection Hc1 as ->.
    pose proof (Hall j s v1 v2 Hj Hsp Ha Hb). destruct s.2; lia.
Qed.

(** What btree_insert_into_leaf does. *)
Inductive insert_result (ddl : bool) (st : ST) (p : PAGE) (h : BTREE_NODE_HEADER) (keys : list DB_IDXKEY)
    (key : DB_IDXKEY) : Z -> PAGE -> Prop :=
| insert_present :
    present keys key ->
    insert_result ddl st p h keys key
      (if ddl || th_crash_recovery th then NO_ERROR else ER_BTREE_DUPLICATE_OID) p
| insert_violates :
    ~ present keys key -> violates keys key -> insert_result ddl st p h keys key ER_BTREE_UNIQUE_FAILED p
| insert_absent ret q :
    ~ present keys key -> ~ violates keys key -> inserted_key st p h keys key ret q ->
    insert_result ddl st p h keys key ret q.

(** The unique check looks at the last comparison column only. *)
Lemma unique_check keys key slot md :
  keys_ok (indexp btid) keys -> key_ok (indexp btid) key -> leaf_answer (indexp btid) keys key false slot md ->
  ~ present keys key
  /\ (md = Z.of_nat (length key) - 1 <-> exists k, k ∈ keys /\ same_attributes key k).
Proof.
  intros Hk Hkey (Hs & (Hb1 & Hb2 & Hb3) & Hmax & Hat). rewrite (key_length _ _ Hi Hkey).
  assert (forall j k, keys !! j = Some k -> kcmp (indexp btid) key k <> 0) as Hne.
  { intros j k Hj. destruct (decide (j < Z.to_nat (slot - 1))%nat) as [Hlt|Hge].
    - pose proof (Hb2 j k Hj Hlt). lia.
    - pose proof (Hb3 j k Hj ltac:(lia)). lia. }
  assert (forall j k, keys !! j = Some k ->
    (agree_cols (indexp btid) key k <= n_atts (indexp btid))%nat /\ key_ok (indexp btid) k) as Hle.
  { intros j k Hj. pose proof (keys_lookup _ _ _ _ Hk Hj) as Kk. destruct (agree_range _ Hi key k Hkey Kk) as (_ & ? & ?).
    pose proof (Hne j k Hj). split; [lia|done]. }
  split; [|split].
  - intros (k & (j & Hj)%list_elem_of_lookup & Hz). by apply (Hne j k).
  - intros Hmd. destruct Hat as [[-> ->]|(j & k & Hj & Ha)]; [lia|]. exists k. split; [by apply list_elem_of_lookup_2 in Hj|].
    apply same_attributes_agree; [done|by apply (Hle j)|lia].
  - intros (k & (j & Hj)%list_elem_of_lookup & Hsame). destruct (Hle j k Hj) as [_ Kk].
    apply same_attributes_agree in Hsame; [|done|done]. pose proof (Hmax j k Hj).
    destruct Hat as [[E _]|(j' & k' & Hj' & Ha)]; [by rewrite E in Hj|]. pose proof (Hle j' k' Hj'). lia.
Qed.

Lemma found_present keys key slot md :
  leaf_answer (indexp btid) keys key true slot md -> present keys key /\ 1 <= slot <= Z.of_nat (length keys).
Proof.
  intros (Hs & k & Hk & Hz & _). split; [|done]. exists k. split; [by apply list_elem_of_lookup_2 in Hk|done].
Qed.

Lemma insert_into_leaf_ok ddl rv_key rec_buf st p h keys key :
  leaf_page (indexp btid) p h keys -> key_ok (indexp btid) key -> saved_ok st ->
  exists ret q, btree_insert_into_leaf th net er ddl rv_key rec_buf st btid p key = Some (ret, q)
    /\ insert_result ddl st p h keys key ret q.
Proof.
  intros Hp Hkey Hst. pose proof Hp as (_ & Hk & _). unfold btree_insert_into_leaf.
  destruct (search_leaf_ok _ Hi keys key Hk Hkey net er p h Hp) as (found & slot & md & -> & Ha). cbn [mbind option_bind].
  destruct found.
  { destruct (found_present keys key slot md Ha) as [Hpr Hs]. unfold NULL_SLOTID. replace (slot =? -1) with false by lia.
    destruct (ddl || th_crash_recovery th) eqn:E; eexists _, _; (split; [reflexivity|]);
      pose proof (insert_present ddl st p h keys key Hpr) as R; by rewrite E in R. }
  destruct (unique_check keys key slot md Hk Hkey Ha) as [Hab Hu]. destruct Ha as (Hs & Hb & _).
  unfold NULL_SLOTID. replace (slot =? -1) with false by lia.
  destruct (INDEX_IS_UNIQUE (indexp btid) && (md =? Z.of_nat (length key) - 1) && negb (btree_key_is_null key)) eqn:E.
  - eexists _, _. split; [reflexivity|]. apply insert_violates; [done|]. split_and!; [|by destruct (btree_key_is_null key); lia|apply Hu; lia].
    by destruct (INDEX_IS_UNIQUE (indexp btid)).
  - destruct (insert_new_key_ok rv_key rec_buf st p h keys key slot Hp Hkey Hst Hs Hb) as (ret & q & -> & Hr).
    exists ret, q. split; [done|]. apply insert_absent; [done| |done].
    intros (V1 & V2 & V3). apply Hu in V3. rewrite V1, V2, V3, Z.eqb_refl in E. done.
Qed.

(** What btree_delete_from_leaf does: the status is NO_ERROR in every case. *)
Inductive delete_result (p : PAGE) (h : BTREE_NODE_HEADER) (keys : list DB_IDXKEY) (key : DB_IDXKEY) : PAGE -> Prop :=
| delete_absent : ~ present keys key -> delete_result p h keys key (pgbuf_set_dirty p)
| delete_too_long :
    present keys key -> BTREE_MAX_KEYLEN < zlen (key_bytes key) -> delete_result p h keys key p
| delete_present i k h' q :
    keys !! i = Some k -> kcmp (indexp btid) key k = 0 -> zlen (key_bytes key) <= BTREE_MAX_KEYLEN -> frame p q ->
    counted h h' (-1) -> leaf_page (indexp btid) q h' (delete i keys) -> delete_result p h keys key q.

Lemma delete_key_ok rv_key st p h keys key slot :
  leaf_page (indexp btid) p h keys -> key_ok (indexp btid) key -> saved_ok st -> th_malloc th = true ->
  1 <= slot <= Z.of_nat (length keys) -> zlen (key_bytes key) <= BTREE_MAX_KEYLEN ->
  exists q st' h', btree_delete_key_from_leaf th er rv_key st btid p key slot = Some (NO_ERROR, q, st')
    /\ saved_by th st st' /\ frame p q /\ counted h h' (-1)
    /\ leaf_page (indexp btid) q h' (delete (Z.to_nat (slot - 1)) keys).
Proof.
  intros (Hp & Hk & Hn) Hkey Hst Hm Hs Hlen. pose proof (key_length _ _ Hi Hkey) as Hl. unfold few_columns in Hc.
  pose proof (column_values_key _ _ Hi Hkey) as Hcol. unfold btree_delete_key_from_leaf.
  destruct (save_keyval_ok _ btid key rv_key Hcol ltac:(lia)) as (m1 & len1 & ->). cbn [mbind option_bind].
  replace (_ <=? BTREE_MAX_KEYLEN) with true by lia. cbn [negb Z.eqb NO_ERROR].
  destruct (page_delete_at th st p h _ slot Hp Hst) as (r & q & st' & -> & Hsv & Hr & Fq & Hq); [by rewrite length_fmap|].
  destruct Hr as [->|[_ Hf]]; [|congruence]. rewrite Z.eqb_refl. cbn [negb].
  rewrite (read_node_header er q h _ Hq). pose proof (leaf_count p h _ Hp) as Hcnt. rewrite length_fmap in Hcnt.
  rewrite swrap_small by lia. set (h' := mkNodeHeader _ _ _ _ _ _). assert (counted h h' (-1)) as Hcd by done.
  assert (header_ok h) as Hh by apply Hp.
  destruct (write_count q h _ h' (-1) Hq Hcd) as (t & -> & Ht & Ft & _); [apply Hh|apply Hh|lia|]. cbn [negb Z.eqb NO_ERROR].
  eexists _, _, h'. split; [reflexivity|]. split; [done|]. split; [exact (frame_trans p q t Fq Ft)|]. split; [done|].
  split; [|split].
  - apply dirty_header. by rewrite list_fmap_delete.
  - by apply keys_delete.
  - unfold h'. cbn [key_cnt]. rewrite Hn, length_delete by (apply lookup_lt_is_Some_2; lia). lia.
Qed.

Lemma delete_from_leaf_ok rv_key st p h keys key :
  leaf_page (indexp btid) p h keys -> key_ok (indexp btid) key -> saved_ok st -> th_malloc th = true ->
  exists q st', btree_delete_from_leaf th net er rv_key st btid p key = Some (NO_ERROR, q, st')
    /\ saved_by th st st' /\ delete_result p h keys key q.
Proof.
  intros Hp Hkey Hst Hm. pose proof Hp as (_ & Hk & _). unfold btree_delete_from_leaf.
  destruct (search_leaf_ok _ Hi keys key Hk Hkey net er p h Hp) as (found & slot & md & -> & Ha). cbn [mbind option_bind].
  destruct found; cbn [negb].
  - destruct (found_present keys key slot md Ha) as [Hpr Hs]. unfold NULL_SLOTID. replace (slot =? -1) with false by lia.
    destruct (decide (zlen (key_bytes key) <= BTREE_MAX_KEYLEN)) as [Hlen|Hlen].
    + destruct (delete_key_ok rv_key st p h keys key slot) as (q & st' & h' & -> & ? & ? & ? & ?); try done.
      exists q, st'. split_and!; [done|done|]. destruct Ha as (_ & k & Hkk & Hz & _). by eapply delete_present.
    + pose proof (key_length _ _ Hi Hkey) as Hl. unfold few_columns in Hc. unfold btree_delete_key_from_leaf.
      destruct (save_keyval_ok _ btid key rv_key (column_values_key _ _ Hi Hkey) ltac:(lia)) as (m1 & len1 & ->).
      cbn [mbind option_bind]. replace (_ <=? BTREE_MAX_KEYLEN) with false by lia. cbn.
      eexists _, _. split_and!; [done|by left|]. apply delete_too_long; [done|lia].
  - destruct (unique_check keys key slot md Hk Hkey Ha) as [Hab _]. destruct Ha as (Hs & _).
    unfold NULL_SLOTID. replace (slot =? -1) with false by lia. eexists _, _. split_and!; [done|by left|by constructor].
Qed.
End Updates.
