(* ===== verification/BtreeSplit.v ===== *)
(** * The split of a B+-tree node (src/storage/btree_insert.c)

    The separator of two keys, the point at which a node is split, and the
    split of a node into itself and a new page, with the change of its parent.

    The log records and the fault injection are left out; [alloc] says whether
    there is memory for the strings that are copied. *)
From Stdlib Require Import ZArith Lia ZifyBool SpecFloat.
From stdpp Require Import base list numbers.
From S2P Require Import Prelude StorageCommon Floats SpaceSaving SlottedPage.
From S2P Require Import NumericValue OrBuf Collation Primitive Btree.

Definition LEAFENTSZ (n : Z) : Z := n.

(** ** The separator of two keys *)

Definition db_idxkey_clone (alloc : bool) (src : DB_IDXKEY) : DB_IDXKEY :=
  (fun v => (pr_clone_value alloc v).2) <$> src.

Definition btree_get_prefix `{Co : TP_COERCE} (er : Z) (alloc : bool) (indexp : OR_INDEX) (key1 key2 : DB_IDXKEY)
    : option (Z * DB_IDXKEY) :=
  '(c, d) ← pr_idxkey_compare key1 key2 (-1) 0;
  let desc i := (i <? Z.of_nat (n_atts indexp)) && nth (Z.to_nat i) (asc_desc indexp) false in
  let differ := (c =? DB_LT) || (c =? DB_GT) in
  let dom_is_desc := differ && desc d in
  let next_dom_is_desc := differ && (d <? Z.of_nat (n_atts indexp)) && desc (d + 1) in
  let c := if dom_is_desc then (if c =? DB_GT then DB_LT else if c =? DB_LT then DB_GT else c) else c in
  if negb (c =? DB_LT) then Some (error_or_failed er, [])
  else
    let size := length key1 in
    let null_at key := match key !! Z.to_nat (d + 1) with Some v => VALUE_IS_NULL v | None => false end in
    if (d =? Z.of_nat size - 1) || (null_at key1 || null_at key2)
    then Some (NO_ERROR, db_idxkey_clone alloc key1)
    else
      let head := take (Z.to_nat (d + 1)) (if negb next_dom_is_desc then key2 else key1) in
      Some (NO_ERROR, db_idxkey_clone alloc head ++ replicate (size - Z.to_nat (d + 1)) VNull).

(** ** The split point *)

(** The space of the records from slot [i], for the next [n] of them. *)
Fixpoint record_spaces (p : PAGE) (i : Z) (n : nat) : Z :=
  match n with
  | O => 0
  | S n => spage_get_space_for_record p i + record_spaces p (i + 1) n
  end.

(** The loop that looks for the record at which [mid_size] is reached; [m] is
    the number of records that are left. *)
Fixpoint split_loop (p : PAGE) (mid_size i sum : Z) (m : nat) : Z :=
  match m with
  | O => i
  | S m => if sum <? mid_size then split_loop p mid_size (i + 1) (sum + spage_get_space_for_record p i) m else i
  end.

Definition BTREE_NODE_MAX_SPLIT_SIZE (p : PAGE) : Z :=
  DB_PAGESIZE - SPAGE_HEADER_SIZE - spage_get_space_for_record p HEADER.

Section Split.
Context {ST : Type} `{SavedSpaces ST} `{Co : TP_COERCE} (th : THREAD_ENTRY) (net er : Z) (alloc : bool).

(** The key of a record, copied. *)
Definition copy_key (indexp : OR_INDEX) (non_leaf : bool) (p : PAGE) (slot : Z) : option (Z * DB_IDXKEY) :=
  let '(status, rd) := spage_get_record p slot RECDES_INITIALIZER PEEK in
  if negb (status =? S_SUCCESS) then Some (error_or_failed er, [])
  else
    '(error, key, _) ← btree_read_record net indexp non_leaf true alloc (p_mem p) (rec_data rd) (length_ rd);
    Some (error, key).

(** The record the split is at: the status, the slot and the separator. *)
Definition btree_find_split_point (indexp : OR_INDEX) (p : PAGE) (key : DB_IDXKEY)
    : option (Z * Z * DB_IDXKEY) :=
  match btree_read_node_header er p with
  | (error, None) => Some (error, 0, [])
  | (_, Some node_header) =>
      let leaf := negb (node_level node_header >? 1) in
      let n := spage_number_of_records p - 1 in
      let failed := Some (error_or_failed er, 0, []) in
      if key_cnt node_header <=? 3 then failed
      else
        let key_len := btree_get_key_length key in
        '(found, slot_id, _) ←
          (if leaf then btree_search_leaf_page net er indexp p key else Some (false, NULL_SLOTID, -1));
        if leaf && ((slot_id =? NULL_SLOTID) || found) then failed
        else
          let tot_rec := record_spaces p 1 (Z.to_nat n) in
          let mid_size :=
            if leaf then
              let ent_size := LEAFENTSZ key_len in
              btree_split_find_pivot (tot_rec + ent_size) ent_size (pivot node_header)
            else btree_split_find_pivot tot_rec ONE_K (pivot node_header) in
          if mid_size >? BTREE_NODE_MAX_SPLIT_SIZE p then failed
          else
            let mid_slot := split_loop p mid_size 1 0 (Z.to_nat n) - 1 in
            let mid_slot := if mid_slot =? n then mid_slot - 1 else mid_slot in
            let mid_slot := if mid_slot =? 0 then mid_slot + 1 else mid_slot in
            '(error, mid_key) ←
              (if leaf && (mid_slot =? slot_id - 1) then Some (NO_ERROR, db_idxkey_clone alloc key)
               else copy_key indexp (negb leaf) p mid_slot);
            if negb (error =? NO_ERROR) then Some (error, mid_slot, [])
            else if negb leaf then Some (NO_ERROR, mid_slot, mid_key)
            else
              '(error, next_key) ← copy_key indexp false p (mid_slot + 1);
              if negb (error =? NO_ERROR) then Some (error, mid_slot, [])
              else
                '(error, prefix_key) ← btree_get_prefix er alloc indexp mid_key next_key;
                Some (error, mid_slot, if error =? NO_ERROR then prefix_key else [])
  end.

(** ** The pages of a split *)

Definition btree_insert_node_header (st : ST) (p : PAGE) (header : BTREE_NODE_HEADER) : Z * PAGE :=
  let rec := mkRecdes NODE_HEADER_SIZE NODE_HEADER_SIZE REC_HOME (Area (header_bytes header)) in
  let '(status, p, _) := spage_insert_at th st p HEADER rec in
  if negb (status =? SP_SUCCESS) then (error_or_failed er, p) else (NO_ERROR, p).

Definition BTREE_MAX_ALIGN : Z := INT_ALIGNMENT.
Definition RECSET_HEADER_SIZE : Z := 4.

(** The records from a slot on, each with its length and its type; the offset
    of the end, or None at a slot without a record. *)
Fixpoint save_records (n : nat) (p : PAGE) (slot : Z) (m : mem) (data offset : Z) : mem * option Z :=
  match n with
  | O => (m, Some offset)
  | S n =>
      let '(status, rd) := spage_get_record p slot RECDES_INITIALIZER PEEK in
      if negb (status =? S_SUCCESS) then (m, None)
      else
        let m := store_bytes m (data + offset) (le_bytes 2 (length_ rd)) in
        let m := store_bytes m (data + offset + 2) (le_bytes 2 (type_ rd)) in
        let m := store_bytes m (data + offset + 4) (load_bytes (p_mem p) (rec_data rd) (Z.to_nat (length_ rd))) in
        let offset := offset + 4 + length_ rd in
        save_records n p (slot + 1) m data (offset + DB_WASTED_ALIGN offset BTREE_MAX_ALIGN)
  end.

(** The status, the area and its length. *)
Definition btree_rv_util_save_page_records (p : PAGE) (first_slotid rec_cnt ins_slotid : Z) (m : mem) (data : Z)
    : Z * mem * Z :=
  let offset := RECSET_HEADER_SIZE + DB_WASTED_ALIGN RECSET_HEADER_SIZE BTREE_MAX_ALIGN in
  match save_records (Z.to_nat rec_cnt) p first_slotid m data offset with
  | (m, None) => (er, m, 0)
  | (m, Some offset) =>
      let m := store_bytes m data (le_bytes 2 rec_cnt) in
      (NO_ERROR, store_bytes m (data + 2) (le_bytes 2 ins_slotid), offset)
  end.

(** A record of one page that is inserted into another. *)
Definition record_of (p : PAGE) (rd : RECDES) : RECDES :=
  mkRecdes (area_size rd) (length_ rd) (type_ rd) (Area (load_bytes (p_mem p) (rec_data rd) (Z.to_nat (length_ rd)))).

(** The loop that moves [n] records at [slot] of Q behind record [i - 1] of R:
    the status, the next [i], and the pages. *)
Fixpoint move_records (n : nat) (i slot : Z) (st : ST) (Q R : PAGE) : Z * Z * PAGE * PAGE * ST :=
  match n with
  | O => (NO_ERROR, i, Q, R, st)
  | S n =>
      let '(status, rd) := spage_get_record Q slot RECDES_INITIALIZER PEEK in
      if negb (status =? S_SUCCESS) then (ER_FAILED, i, Q, R, st)
      else
        let '(status, R, _) := spage_insert_at th st R i (record_of Q rd) in
        if negb (status =? SP_SUCCESS) then (ER_FAILED, i, Q, R, st)
        else
          let '(r, Q, st) := spage_delete th st Q slot in
          if negb (r =? slot) then (ER_FAILED, i, Q, R, st) else move_records n (i + 1) slot st Q R
  end.

Definition error_or_generic (ret : Z) : Z := if ret =? NO_ERROR then ER_GENERIC_ERROR else ret.

Definition vpid_of (v : NODE_VPID) : VPID := (nv_volid v, nv_pageid v).

(** The bytes of a record of an inner page with another child. *)
Definition btree_write_fixed_portion_of_non_leaf_record (bs : list Z) (pnt : VPID) : list Z :=
  be_bytes 4 pnt.2 ++ be_bytes 2 pnt.1 ++ drop 6 bs.

(** The record of P that points to Q points to R from now on, and a record for
    Q with the separator is inserted before it; [rec_buf] is what the local
    buffer holds. *)
Definition split_parent (rec_buf : list Z) (st : ST) (P : PAGE) (p_slot_id : Z) (mid_key : DB_IDXKEY) (Q_vpid R_vpid : VPID)
    : option (Z * PAGE * ST) :=
  let '(status, rec) := spage_get_record P p_slot_id (mkRecdes DB_PAGESIZE (-1) REC_HOME (Area rec_buf)) COPY in
  if negb (status =? S_SUCCESS) then Some (error_or_generic er, P, st)
  else
    let bs := match data rec with Area bs => bs | InPage _ => [] end in
    let bs := btree_write_fixed_portion_of_non_leaf_record bs R_vpid in
    let '(status, P, st) :=
      spage_update th st P p_slot_id (mkRecdes (area_size rec) (length_ rec) (type_ rec) (Area bs)) in
    if negb (status =? SP_SUCCESS) then Some (error_or_generic er, P, st)
    else
      '(ret, m, len) ← btree_write_record (Some Q_vpid) mid_key (store_bytes (fun _ => 0) 0 bs) 0;
      match len with
      | None => Some (ret, P, st)
      | Some len =>
          let rec := mkRecdes DB_PAGESIZE len (type_ rec) (Area (load_bytes m 0 (Z.to_nat len))) in
          let '(status, P, _) := spage_insert_at th st P p_slot_id rec in
          if negb (status =? SP_SUCCESS) then Some (error_or_generic er, P, st)
          else
            match btree_read_node_header er P with
            | (ret, None) => Some (ret, P, st)
            | (_, Some h) =>
                let cnt := swrap 16 (key_cnt h + 1) in
                let '(pivot, index) :=
                  btree_split_next_pivot (pivot h) (index h) (fdiv (float_of p_slot_id) (float_of cnt)) cnt in
                let '(ret, P) :=
                  btree_write_node_header er P
                    (mkNodeHeader pivot index (next_vpid h) (prev_vpid h) cnt (node_level h)) in
                Some (ret, P, st)
            end
      end.

(** The headers of the two halves. *)
Definition vpid_null (v : NODE_VPID) : NODE_VPID := mkNodeVpid NULL_PAGEID (-1) (nv_pad v).

Definition left_header (h : BTREE_NODE_HEADER) (leaf : bool) (leftcnt : Z) (R_vpid : NODE_VPID) : BTREE_NODE_HEADER :=
  mkNodeHeader (pivot h) 1 (if leaf then R_vpid else vpid_null (next_vpid h)) (prev_vpid h) (swrap 16 leftcnt) (node_level h).

Definition right_header (pads : Z * Z) (h : BTREE_NODE_HEADER) (leaf : bool) (rightcnt : Z) (Q_vpid : NODE_VPID)
    : BTREE_NODE_HEADER :=
  let init := btree_init_node_header pads in
  mkNodeHeader (pivot h) 1 (next_vpid h) (if leaf then Q_vpid else vpid_null (prev_vpid init)) (swrap 16 rightcnt) (node_level h).

Definition btree_split_node (pads : Z * Z) (rec_buf : list Z) (recset_data : mem) (st : ST) (btid : BTID_INT)
    (P Q R : PAGE) (Q_vpid R_vpid : NODE_VPID) (p_slot_id : Z) (key : DB_IDXKEY)
    : option (Z * PAGE * PAGE * PAGE * ST * VPID) :=
  let fail ret (P Q R : PAGE) (st : ST) := Some (error_or_generic ret, P, Q, R, st, (-1, NULL_PAGEID)) in
  match btree_read_node_header er Q with
  | (ret, None) => fail ret P Q R st
  | (_, Some qheader) =>
      let leaf := negb (node_level qheader >? 1) in
      if key_cnt qheader <=? 0 then fail NO_ERROR P Q R st
      else
        '(ret, mid_slot_id, mid_key) ← btree_find_split_point (indexp btid) Q key;
        if negb (ret =? NO_ERROR) then fail ret P Q R st
        else
          let leftcnt := if leaf then mid_slot_id else mid_slot_id - 1 in
          let rightcnt := if leaf then key_cnt qheader - leftcnt else key_cnt qheader - leftcnt - 1 in
          let '(ret, Q) := btree_write_node_header er Q (left_header qheader leaf leftcnt R_vpid) in
          if negb (ret =? NO_ERROR) then fail ret P Q R st
          else
            let '(ret, R) := btree_insert_node_header st R (right_header pads qheader leaf rightcnt Q_vpid) in
            if negb (ret =? NO_ERROR) then fail ret P Q R st
            else
              let right := if leaf then rightcnt else rightcnt + 1 in
              let '(ret, recset_data, _) :=
                btree_rv_util_save_page_records Q (mid_slot_id + 1) right (mid_slot_id + 1) recset_data 0 in
              if negb (ret =? NO_ERROR) then fail ret P Q R st
              else
                let '(ret, i, Q, R, st) := move_records (Z.to_nat right) 1 (mid_slot_id + 1) st Q R in
                if negb (ret =? NO_ERROR) then
                  let '(ret, _, _) :=
                    if i >? 1 then btree_rv_util_save_page_records R 1 (i - 1) 1 recset_data 0
                    else (ret, recset_data, 0) in
                  fail ret P Q R st
                else
                  '(ret, P, st) ← split_parent rec_buf st P p_slot_id mid_key (vpid_of Q_vpid) (vpid_of R_vpid);
                  if negb (ret =? NO_ERROR) then fail ret P Q R st
                  else
                    '(c, _) ← btree_compare_key (indexp btid) key mid_key;
                    if c =? DB_UNK then fail NO_ERROR P Q R st
                    else Some (NO_ERROR, pgbuf_set_dirty P, pgbuf_set_dirty Q, pgbuf_set_dirty R, st,
                               vpid_of (if c <=? 0 then Q_vpid else R_vpid))
  end.
End Split.
