(* ===== verification/BtreeSplitSpec.v ===== *)
(** * The split of a leaf

    The separator lies between the two halves of the leaf, the records that
    are moved keep their order, and the parent leads to each half. *)
From Stdlib Require Import ZArith Lia ZifyBool Sorting.Sorted.
From stdpp Require Import base list numbers sorting.
From S2P Require Import Prelude StorageCommon Floats SpaceSaving SpaceSavingInv SlottedPage SlottedPageInv SlottedPageOps SlottedPageShift.
From S2P Require Import SlottedPageCompact SlottedPageDelete SlottedPageUpdate SlottedPageRead SlottedPageSpec SlottedPageProps.
From S2P Require Import NumericValue OrBuf OrBufSpec Collation Primitive PrimitiveDisk PrimitiveCompare.
From S2P Require Import Btree BtreeKey BtreeRecord BtreeSearch BtreeUpdate BtreeSplit.

(** ** Separators *)

Lemma clone_key l key : key_values l key -> db_idxkey_clone true key = key.
Proof.
  intros Hk. unfold db_idxkey_clone. induction Hk as [|s v l key Hv Hk IH]; [done|]. rewrite fmap_cons, IH.
  by rewrite (clone_value s.1 v) by (destruct Hv as [->|[Hv _]]; [by left|by right]).
Qed.

Definition nulls (n : nat) : DB_IDXKEY := replicate n VNull.

Lemma nulls_values l : key_values l (nulls (length l)).
Proof. induction l as [|s l IH]; constructor; [by left|done]. Qed.

Lemma cut_values l key n : key_values l key -> (n <= length l)%nat -> key_values l (take n key ++ nulls (length l - n)).
Proof.
  intros Hk. revert n. induction Hk as [|s v l key Hv Hk IH]; intros n Hn; [destruct n; [constructor|cbn in Hn; lia]|].
  destruct n as [|n]; [apply (nulls_values (s :: l))|]. cbn. constructor; [done|]. apply IH. cbn in Hn. lia.
Qed.

Lemma column_null_l (s : COLUMN * bool) v :
  VALUE_IS_NULL v = false -> column_compare s VNull v = if s.2 then 1 else -1.
Proof. intros Hv. unfold column_compare, null_compare. cbn. rewrite Hv. by destruct s.2. Qed.

Lemma column_null_r (s : COLUMN * bool) v :
  VALUE_IS_NULL v = false -> column_compare s v VNull = if s.2 then -1 else 1.
Proof. intros Hv. unfold column_compare, null_compare. cbn. rewrite Hv. by destruct s.2. Qed.

(** The key cut off behind the column that differs: of the larger key if the
    next column is ascending, of the smaller one if it is descending. *)
Lemma cut_between (l : list (COLUMN * bool)) (k1 k2 : DB_IDXKEY) d (s : COLUMN * bool) v1 v2 :
  key_values l k1 -> key_values l k2 -> key_compare l k1 k2 = (-1, d) -> l !! S d = Some s ->
  k1 !! S d = Some v1 -> k2 !! S d = Some v2 -> VALUE_IS_NULL v1 = false -> VALUE_IS_NULL v2 = false ->
  let sep := take (S d) (if s.2 then k1 else k2) ++ nulls (length l - S d) in
  (key_compare l k1 sep).1 = -1 /\ (key_compare l sep k2).1 = -1.
Proof.
  revert k1 k2 d. induction l as [|s0 l IH]; intros k1 k2 d H1 H2 Hc Hs E1 E2 N1 N2; [done|].
  apply key_values_cons in H1 as (a & k1' & -> & A & H1), H2 as (b & k2' & -> & B & H2).
  pose proof (column_compare_laws s0) as L. cbn [key_compare lookup list_lookup] in *. cbn [length Nat.sub].
  destruct d as [|d].
  - assert (column_compare s0 a b = -1) as Hab by (destruct (_ =? 0); [done|by injection Hc]).
    destruct l as [|s' l]; [done|]. injection Hs as ->.
    apply key_values_cons in H1 as (a' & k1'' & -> & A' & H1), H2 as (b' & k2'' & -> & B' & H2).
    injection E1 as ->. injection E2 as ->.
    destruct s.2 eqn:Es; cbn; rewrite ?(law_refl _ _ L a), ?(law_refl _ _ L b), ?Hab by done; cbn.
    + by rewrite column_null_r, Es by done.
    + by rewrite column_null_l, Es by done.
  - destruct (column_compare s0 a b =? 0) eqn:E0; [|done].
    assert (key_compare l k1' k2' = (-1, d)) as Hc' by (destruct (key_compare l k1' k2'); by injection Hc as -> ->).
    destruct (IH k1' k2' d H1 H2 Hc' Hs E1 E2 N1 N2) as [R1 R2].
    pose proof (law_opp _ _ L a b A B). destruct s.2; cbn.
    + rewrite (law_refl _ _ L a), E0 by done. cbn. done.
    + rewrite E0, (law_refl _ _ L b) by done. cbn. done.
Qed.

Lemma values_bytes_app a b : values_bytes (a ++ b) = values_bytes a ++ values_bytes b.
Proof. unfold values_bytes. by rewrite fmap_app, concat_app. Qed.

Lemma values_nulls n : values_bytes (nulls n) = [].
Proof. induction n as [|n IH]; [done|]. exact IH. Qed.

Lemma cut_length key n : zlen (key_bytes (take n key ++ nulls (length key - n))) <= zlen (key_bytes key).
Proof.
  unfold key_bytes. rewrite !zlen_app, !zlen_le, values_bytes_app, values_nulls, app_nil_r.
  rewrite length_app, length_take. unfold nulls. rewrite length_replicate.
  replace (n `min` length key + (length key - n))%nat with (length key) by lia.
  rewrite <- (take_drop n key) at 4. rewrite values_bytes_app, zlen_app. pose proof (zlen_nonneg (values_bytes (drop n key))). lia.
Qed.

Lemma raw_compare `{Co : TP_COERCE} indexp k1 k2 :
  index_ok indexp -> key_ok indexp k1 -> key_ok indexp k2 ->
  let r := key_compare (specs indexp) k1 k2 in
  pr_idxkey_compare k1 k2 (-1) 0
  = Some (if nth r.2 (asc_desc indexp ++ [false]) false then - r.1 else r.1, Z.of_nat r.2).
Proof.
  intros Hi H1 H2 r. unfold pr_idxkey_compare. rewrite (key_length indexp k1), (key_length indexp k2), Nat.eqb_refl by done.
  cbn [negb Z.gtb Z.compare]. rewrite <- (length_specs indexp) by done.
  rewrite (idxkey_loop_ok (specs indexp) k1 k2 0) by (done || by apply specs_orderable).
  by rewrite specs_directions.
Qed.

Lemma desc_nth indexp i :
  index_ok indexp ->
  (Z.of_nat i <? Z.of_nat (n_atts indexp)) && nth i (asc_desc indexp) false = nth i (asc_desc indexp ++ [false]) false.
Proof.
  intros [_ Hl]. destruct (Z.of_nat i <? _) eqn:E; cbn [andb].
  - by rewrite app_nth1 by lia.
  - rewrite app_nth2 by lia. by destruct (i - length (asc_desc indexp))%nat as [|[]].
Qed.

(** What a separator of two keys is. *)
Definition separates indexp (k1 k2 sep : DB_IDXKEY) : Prop :=
  key_ok indexp sep /\ kcmp indexp k1 sep <= 0 /\ kcmp indexp sep k2 < 0
  /\ zlen (key_bytes sep) <= Z.max (zlen (key_bytes k1)) (zlen (key_bytes k2)).

Lemma get_prefix_ok `{Co : TP_COERCE} er indexp k1 k2 :
  index_ok indexp -> key_ok indexp k1 -> key_ok indexp k2 -> kcmp indexp k1 k2 < 0 ->
  exists sep, btree_get_prefix er true indexp k1 k2 = Some (NO_ERROR, sep) /\ separates indexp k1 k2 sep.
Proof.
  intros Hi H1 H2 Hlt. unfold btree_get_prefix. rewrite (raw_compare indexp k1 k2) by done. cbn [mbind option_bind].
  pose proof (key_compare_range _ _ _ H1 H2) as (R & R2 & R3). unfold kcmp in Hlt.
  destruct (key_compare (specs indexp) k1 k2) as [c d] eqn:Ec. cbn [fst snd] in *. assert (c = -1) as -> by lia.
  rewrite length_specs in R2, R3 by done.
  set (dd := nth d (asc_desc indexp ++ [false]) false). unfold DB_LT, DB_GT.
  rewrite Nat2Z.id, desc_nth by done. fold dd.
  replace (((if dd then - (-1) else -1) =? -1) || ((if dd then - (-1) else -1) =? 1)) with true by (by destruct dd).
  cbn [andb]. replace (negb _) with false by (by destruct dd). cbn [negb].
  assert (forall k, key_ok indexp k -> db_idxkey_clone true k = k) as Hcl by (intros k Hk; by eapply clone_key).
  destruct ((Z.of_nat d =? Z.of_nat (length k1) - 1) || _) eqn:Eg.
  { exists k1. rewrite Hcl by done. split; [done|]. split; [done|]. rewrite (law_refl _ _ (kcmp_laws indexp)) by done.
    unfold kcmp. rewrite Ec. cbn [fst]. lia. }
  rewrite (key_length indexp k1) in Eg |- * by done. replace (Z.to_nat (Z.of_nat d + 1)) with (S d) in * by lia.
  assert (S d < length (specs indexp))%nat as Hd by (rewrite length_specs by done; lia).
  destruct (lookup_lt_is_Some_2 (specs indexp) (S d) Hd) as [s Hs]. rewrite length_specs in Hd by done.
  destruct (lookup_lt_is_Some_2 k1 (S d)) as [v1 E1]; [by rewrite (key_length indexp k1)|].
  destruct (lookup_lt_is_Some_2 k2 (S d)) as [v2 E2]; [by rewrite (key_length indexp k2)|].
  unfold DB_IDXKEY in *. rewrite E1, E2 in Eg.
  destruct (cut_between _ k1 k2 d s v1 v2 H1 H2 Ec Hs E1 E2) as [C1 C2]; [destruct (VALUE_IS_NULL v1); lia|destruct (VALUE_IS_NULL v2); lia|].
  assert ((Z.of_nat d <? Z.of_nat (n_atts indexp)) = true) as -> by lia. cbn [andb].
  replace (Z.of_nat d + 1) with (Z.of_nat (S d)) by lia. rewrite desc_nth by done.
  assert (nth (S d) (asc_desc indexp ++ [false]) false = s.2) as ->.
  { rewrite <- specs_directions by done. apply nth_lookup_Some. by rewrite list_lookup_fmap, Hs. }
  set (k := if s.2 then k1 else k2) in *. assert (key_ok indexp k) as Hk by (unfold k; by destruct s.2).
  replace (if negb s.2 then k2 else k1) with k by (unfold k; by destruct s.2).
  pose proof (cut_values _ k (S d) Hk ltac:(rewrite length_specs by done; lia)) as Hcut. rewrite length_specs in C1, C2, Hcut by done.
  eexists. split; [reflexivity|]. fold (nulls (S (n_atts indexp) - S d)).
  replace (db_idxkey_clone true (take (S d) k)) with (take (S d) k).
  2: { symmetry. apply (clone_key (take (S d) (specs indexp))). by apply Forall2_take. }
  split; [exact Hcut|]. unfold kcmp. rewrite C1, C2. split_and!; [lia|lia|].
  pose proof (cut_length k (S d)) as Hl. rewrite (key_length indexp k) in Hl by done. unfold k in *. destruct s.2; lia.
Qed.

(** ** Space *)

(** The space of a record with its slot. *)
Definition view_space (al : Z) (v : SLOT_VIEW) : Z :=
  match v with Rec _ bs => DB_ALIGN (zlen bs) al | Dead _ => 0 end + SPAGE_SLOT_SIZE.

Definition views_space (al : Z) (vs : list SLOT_VIEW) : Z := sumZ (view_space al <$> vs).

Lemma views_space_app al a b : views_space al (a ++ b) = views_space al a + views_space al b.
Proof. unfold views_space. by rewrite fmap_app, sumZ_app. Qed.

Lemma views_space_nonneg al vs : valid_alignment al -> 0 <= views_space al vs.
Proof.
  intros Hal. apply sumZ_nonneg, Forall_fmap, Forall_forall. intros v _. unfold view_space, SPAGE_SLOT_SIZE.
  destruct v as [t bs|t]; cbn; [|lia]. pose proof (DB_ALIGN_spec (zlen bs) al Hal). pose proof (zlen_nonneg bs). lia.
Qed.

Lemma page_space p :
  page_ok p ->
  total_free (p_hdr p) = DB_PAGESIZE - SPAGE_HEADER_SIZE - views_space (alignment (p_hdr p)) (views p).
Proof.
  intros W. rewrite (wf_total _ W). unfold views_space, views.
  assert (p_num_slots p = Z.of_nat (length (slots p))) as -> by (rewrite length_slots; pose proof (wf_nslots _ W); lia).
  assert (Forall slot_fits (slots p)) as F.
  { apply Forall_forall. intros s (i & [_ ->]%slots_lookup_Some)%list_elem_of_lookup. apply slot_slot_fits. }
  induction F as [|s l Hs F IH]; [done|]. rewrite !fmap_cons, length_cons. cbn [sumZ].
  assert (view_space (alignment (p_hdr p)) (view (p_mem p) s) = used (alignment (p_hdr p)) s + 4) as ->; [|lia].
  unfold view_space, view, used, alen, SPAGE_SLOT_SIZE. destruct (live s); [|done].
  unfold zlen. rewrite length_load_bytes. destruct Hs as (_ & ? & _). by rewrite Z2Nat.id by lia.
Qed.

Lemma total_free_pos p : page_ok p -> 0 <= total_free (p_hdr p).
Proof. intros W. pose proof (page_ok_cont_le_total p W). pose proof (wf_cont_pos _ W). lia. Qed.

Lemma record_space p id t bs :
  page_ok p -> 0 <= id -> views p !! Z.to_nat id = Some (Rec t bs) ->
  spage_get_space_for_record p id = view_space (alignment (p_hdr p)) (Rec t bs).
Proof.
  intros W Hid Hv. destruct (views_Rec p id t bs Hv Hid) as (Hr & Hl & _ & Hlen & _).
  unfold spage_get_space_for_record. rewrite find_slot_Some by done. rewrite align_waste, Hlen. done.
Qed.

Lemma record_spaces_ok p i vs :
  page_ok p -> 0 <= i -> (forall j v, vs !! j = Some v -> views p !! (Z.to_nat i + j)%nat = Some v /\ exists t bs, v = Rec t bs) ->
  record_spaces p i (length vs) = views_space (alignment (p_hdr p)) vs.
Proof.
  intros W. revert i. induction vs as [|v vs IH]; intros i Hi Hv; [done|]. cbn [length record_spaces].
  destruct (Hv 0%nat v eq_refl) as (E & t & bs & ->). rewrite Nat.add_0_r in E. rewrite (record_space p i t bs) by done.
  rewrite IH; [done|lia|]. intros j w Hw. replace (Z.to_nat (i + 1) + j)%nat with (Z.to_nat i + S j)%nat by lia. by apply Hv.
Qed.

Lemma split_loop_range p mid_size i sum m : i <= split_loop p mid_size i sum m <= i + Z.of_nat m.
Proof.
  revert i sum. induction m as [|m IH]; intros i sum; cbn [split_loop]; [lia|]. zcase; [|lia].
  specialize (IH (i + 1) (sum + spage_get_space_for_record p i)). lia.
Qed.

Lemma find_pivot_range total ent pivot :
  ent <= btree_split_find_pivot total ent pivot <= Z.max (total - ent) ent.
Proof. unfold btree_split_find_pivot. lia. Qed.

(** ** The split point of a leaf *)

Lemma copy_key_ok net er indexp p h vs t key slot :
  index_ok indexp -> has_header p h vs -> 1 <= slot -> vs !! Z.to_nat (slot - 1) = Some (Rec t (record_bytes None key)) ->
  key_ok indexp key -> zlen (key_bytes key) <= BTREE_MAX_KEYLEN ->
  copy_key net er true indexp false p slot = Some (NO_ERROR, key).
Proof.
  intros Hi ([[W _] _] & _ & _ & t0 & Hv) Hm Hr Hk Hl. unfold copy_key.
  destruct (get_record_peek p slot RECDES_INITIALIZER t (record_bytes None key) W) as (off & -> & Hb); [lia| |].
  { rewrite Hv. replace (Z.to_nat slot) with (S (Z.to_nat (slot - 1))) by lia. done. }
  cbn [negb Z.eqb S_SUCCESS]. unfold rec_data. cbn [data length_].
  pose proof (read_record_ok net true indexp None key (p_mem p) off Hi Hk I Hl Hb) as E. unfold zlen in E.
  cbn [is_inner] in E. rewrite E. done.
Qed.

(** A leaf is split behind its first [mid] keys; the separator lies between
    the halves. *)
Definition split_keys indexp (keys : list DB_IDXKEY) (mid : nat) (sep : DB_IDXKEY) (bound : Z) : Prop :=
  (0 < mid < length keys)%nat /\ key_ok indexp sep /\ zlen (key_bytes sep) <= bound
  /\ Forall (fun k => kcmp indexp k sep <= 0) (take mid keys) /\ Forall (fun k => kcmp indexp sep k < 0) (drop mid keys).

Section LeafSplit.
Context `{Co : TP_COERCE} (net er : Z) (indexp : OR_INDEX) (Hi : index_ok indexp).
Context (p : PAGE) (h : BTREE_NODE_HEADER) (keys : list DB_IDXKEY) (key : DB_IDXKEY).
Context (Hp : leaf_page indexp p h keys) (Hkey : key_ok indexp key) (Hfew : (4 <= length keys)%nat).
Context (Hlevel : node_level h <= 1) (Habsent : ~ exists k, k ∈ keys /\ kcmp indexp key k = 0).

#[local] Lemma leaf_mid_size :
  zlen (key_bytes key) <= BTREE_MAX_KEYLEN ->
  let ent := btree_get_key_length key in
  btree_split_find_pivot (record_spaces p 1 (Z.to_nat (spage_number_of_records p - 1)) + ent) ent (pivot h)
  <= BTREE_NODE_MAX_SPLIT_SIZE p.
Proof.
  intros Hl ent. destruct Hp as (Hh & _ & _). pose proof (header_slots p h _ Hh) as [Hn Hna].
  destruct Hh as ([W _] & _ & _ & t & Hv). rewrite length_fmap in Hn.
  unfold spage_number_of_records. pose proof (dense_counts p W Hna) as Hd. unfold p_num_records in Hd. rewrite Hd, Hn.
  replace (Z.to_nat (Z.of_nat (length keys) + 1 - 1)) with (length ((fun k => Rec REC_HOME (record_bytes None k)) <$> keys))
    by (rewrite length_fmap; lia).
  rewrite record_spaces_ok; [|apply W|done|].
  2: { intros j v Hj. rewrite Hv. split; [done|]. rewrite list_lookup_fmap in Hj. destruct (keys !! j); [|done].
       injection Hj as <-. by eexists _, _. }
  pose proof (page_space p (proj1 W)) as Hsp. pose proof (total_free_pos p (proj1 W)) as Hf. rewrite Hv in Hsp.
  unfold BTREE_NODE_MAX_SPLIT_SIZE, HEADER. rewrite (record_space p 0 t (header_bytes h)) by (apply W || done || by rewrite Hv).
  change (views_space ?al (?v :: ?vs)) with (view_space al v + views_space al vs) in Hsp.
  set (tot := views_space _ _) in *. pose proof (find_pivot_range (tot + ent) ent (pivot h)) as R.
  assert (ent <= 900) as He.
  { unfold ent. rewrite (key_length_bytes _ _ (column_values_key _ _ Hi Hkey)). exact Hl. }
  assert (view_space (alignment (p_hdr p)) (Rec t (header_bytes h)) <= 44) as Hh0.
  { unfold view_space, SPAGE_SLOT_SIZE. rewrite zlen_header. pose proof (wf_align _ (proj1 W)) as Hal.
    unfold NODE_HEADER_SIZE. by destruct Hal as [->|[->|[->| ->]]]. }
  assert (DB_PAGESIZE = 16376) as E1 by done. assert (SPAGE_HEADER_SIZE = 40) as E2 by done. lia.
Qed.

(** The separator of the halves, from the keys next to the split. *)
#[local] Lemma separated_halves (mid : nat) k1 k2 sep :
  (0 < mid < length keys)%nat -> keys !! mid = Some k2 -> separates indexp k1 k2 sep ->
  (forall j k, keys !! j = Some k -> (j < mid)%nat -> kcmp indexp k k1 <= 0) -> key_ok indexp k1 ->
  zlen (key_bytes k1) <= BTREE_MAX_KEYLEN -> split_keys indexp keys mid sep (Z.max (zlen (key_bytes k1)) (zlen (key_bytes k2))).
Proof.
  intros Hm H2 (S1 & S2 & S3 & S4) Hle K1 L1. destruct Hp as (_ & Hk & _). pose proof (kcmp_laws indexp) as L.
  pose proof (keys_lookup indexp keys mid k2 Hk H2) as K2. split; [done|]. split; [done|]. split; [done|]. split.
  - apply Forall_lookup. intros j k [Hj Hjm]%lookup_take_Some.
    apply (law_trans _ _ L k k1 sep); [by apply (keys_lookup indexp keys j)|done|done|by apply (Hle j)|done].
  - apply Forall_lookup. intros j k Hj. rewrite lookup_drop in Hj. pose proof (keys_lookup indexp keys _ k Hk Hj) as K.
    assert (kcmp indexp k2 k <= 0) as Hle2.
    { destruct j as [|j].
      - rewrite Nat.add_0_r, H2 in Hj. injection Hj as ->. rewrite (law_refl _ _ L) by done. done.
      - pose proof (sorted_lookup indexp keys mid _ k2 k (proj2 Hk) H2 Hj ltac:(lia)). lia. }
    pose proof (law_range _ _ L sep k2 S1 K2). pose proof (law_range _ _ L k2 k K2 K).
    destruct (decide (kcmp indexp k2 k = 0)) as [E|E].
    + rewrite (law_eq_r _ _ L sep k2 k) by done. lia.
    + rewrite (law_lt _ _ L sep k2 k) by (done || lia). lia.
Qed.

(** The larger of the keys that may become part of the separator. *)
Definition longest : Z := foldr (fun k n => Z.max (zlen (key_bytes k)) n) (zlen (key_bytes key)) keys.

Lemma longest_key : zlen (key_bytes key) <= longest.
Proof. unfold longest. clear. induction keys as [|k l IH]; cbn; lia. Qed.

Lemma longest_lookup i k : keys !! i = Some k -> zlen (key_bytes k) <= longest.
Proof.
  unfold longest. clear. revert i. induction keys as [|k0 l IH]; intros i Hk; [done|]. cbn [foldr].
  destruct i as [|i]; cbn in Hk; [injection Hk as ->; lia|]. specialize (IH i Hk). lia.
Qed.

#[local] Lemma copy_slot j k slot :
  slot = Z.of_nat j + 1 -> keys !! j = Some k -> copy_key net er true indexp false p slot = Some (NO_ERROR, k).
Proof.
  intros -> Hj. destruct Hp as (Hh & [F _] & _). rewrite Forall_lookup in F. destruct (F j k Hj) as [K Lk].
  apply (copy_key_ok net er indexp p h _ REC_HOME k _ Hi Hh); [lia| |done|done].
  replace (Z.to_nat (Z.of_nat j + 1 - 1)) with j by lia. by rewrite list_lookup_fmap, Hj.
Qed.

(** The key that is separated from the right half: the new key if it comes
    last in the left half, or the last key of that half. *)
#[local] Lemma mid_key_ok slot mid k2 :
  belongs indexp keys key (Z.to_nat (slot - 1)) -> zlen (key_bytes key) <= BTREE_MAX_KEYLEN -> 1 <= slot ->
  0 < mid < Z.of_nat (length keys) -> keys !! Z.to_nat mid = Some k2 ->
  exists k1, (if mid =? slot - 1 then Some (NO_ERROR, db_idxkey_clone true key) else copy_key net er true indexp false p mid)
    = Some (NO_ERROR, k1) /\ key_ok indexp k1 /\ kcmp indexp k1 k2 < 0 /\ zlen (key_bytes k1) <= BTREE_MAX_KEYLEN
    /\ zlen (key_bytes k1) <= longest
    /\ forall j k, keys !! j = Some k -> (j < Z.to_nat mid)%nat -> kcmp indexp k k1 <= 0.
Proof.
  intros (Hb1 & Hb2 & Hb3) Hl Hs Hm H2. pose proof (kcmp_laws indexp) as L. pose proof Hp as (_ & Hk & _).
  destruct (mid =? slot - 1) eqn:E.
  - exists key. rewrite (clone_key _ _ Hkey). split_and!; [done|done| |done|apply longest_key|].
    + apply (Hb3 (Z.to_nat mid)); [done|lia].
    + intros j k Hj Hjm. pose proof (Hb2 j k Hj ltac:(lia)). rewrite (law_opp _ _ L k key); [lia| |done].
      by apply (keys_lookup indexp keys j).
  - destruct (lookup_lt_is_Some_2 keys (Z.to_nat (mid - 1))) as [km Hkm]; [lia|]. exists km.
    pose proof (proj1 Hk) as F. rewrite Forall_lookup in F. destruct (F _ _ Hkm) as [Km Lm].
    split_and!; [apply (copy_slot (Z.to_nat (mid - 1))); [lia|done]|done| |done|by eapply longest_lookup|].
    + apply (sorted_lookup indexp keys (Z.to_nat (mid - 1)) (Z.to_nat mid)); [apply Hk|done|done|lia].
    + intros j k Hj Hjm. destruct (decide (j = Z.to_nat (mid - 1))) as [->|].
      * rewrite Hkm in Hj. injection Hj as ->. by rewrite (law_refl _ _ L).
      * pose proof (sorted_lookup indexp keys j (Z.to_nat (mid - 1)) k km (proj2 Hk) Hj Hkm ltac:(lia)). lia.
Qed.

#[local] Lemma last_slot : spage_number_of_records p - 1 = Z.of_nat (length keys).
Proof.
  destruct Hp as (Hh & _ & _). pose proof (header_slots p h _ Hh) as [Hns Hna]. destruct Hh as ([W _] & _).
  rewrite length_fmap in Hns. pose proof (dense_counts p W Hna) as Hd.
  unfold spage_number_of_records, p_num_records in *. lia.
Qed.

Lemma find_split_point_ok :
  zlen (key_bytes key) <= BTREE_MAX_KEYLEN ->
  exists mid sep, btree_find_split_point net er true indexp p key = Some (NO_ERROR, Z.of_nat mid, sep)
    /\ split_keys indexp keys mid sep longest.
Proof.
  intros Hl. pose proof (leaf_mid_size Hl) as Hms. cbn zeta in Hms. pose proof Hp as (Hh & Hk & Hn).
  unfold btree_find_split_point. rewrite (read_node_header er p h _ Hh). replace (node_level h >? 1) with false by lia.
  cbn [negb andb]. rewrite Hn. replace (_ <=? 3) with false by lia.
  destruct (search_leaf_ok indexp Hi keys key Hk Hkey net er p h Hp) as (found & slot & md & -> & Ha). cbn [mbind option_bind].
  destruct found.
  { exfalso. apply Habsent. destruct Ha as (_ & k & Hkk & Hz & _). exists k. split; [by apply list_elem_of_lookup_2 in Hkk|done]. }
  destruct Ha as (Hs & Hb & _). unfold NULL_SLOTID. replace (slot =? -1) with false by lia. cbn [orb].
  unfold LEAFENTSZ. replace (_ >? BTREE_NODE_MAX_SPLIT_SIZE p) with false by lia. rewrite last_slot.
  set (ms := btree_split_find_pivot _ _ _). pose proof (split_loop_range p ms 1 0 (Z.to_nat (Z.of_nat (length keys)))) as Hr.
  set (i := split_loop _ _ _ _ _) in *. set (j := if i - 1 =? Z.of_nat (length keys) then i - 1 - 1 else i - 1).
  set (mid := if j =? 0 then j + 1 else j).
  assert (0 < mid < Z.of_nat (length keys)) as Hm by (unfold mid, j; repeat zcase; lia). clearbody mid.
  destruct (lookup_lt_is_Some_2 keys (Z.to_nat mid)) as [k2 H2]; [lia|].
  destruct (mid_key_ok slot mid k2 Hb Hl Hs Hm H2) as (k1 & -> & K1 & C1 & L1 & B1 & A1).
  cbn [mbind option_bind negb Z.eqb NO_ERROR]. rewrite (copy_slot (Z.to_nat mid) k2 (mid + 1)) by (done || lia).
  cbn [mbind option_bind negb Z.eqb NO_ERROR].
  destruct (get_prefix_ok er indexp k1 k2 Hi K1 (keys_lookup _ _ _ _ Hk H2) C1) as (sep & -> & Hsep).
  cbn [mbind option_bind Z.eqb NO_ERROR]. exists (Z.to_nat mid), sep. rewrite Z2Nat.id by lia. split; [done|].
  destruct (separated_halves (Z.to_nat mid) k1 k2 sep) as (X1 & X2 & X3 & X4 & X5); try done; [lia|].
  pose proof (longest_lookup _ _ H2). split_and!; try done; lia.
Qed.
End LeafSplit.

(** ** Moving records *)

(** A page that does not save space. *)
Definition plain_page (p : PAGE) : Prop := page_inv p /\ anchored p = false /\ is_saving (p_hdr p) = false.

Definition same_kind (p q : PAGE) : Prop :=
  plain_page q /\ alignment (p_hdr q) = alignment (p_hdr p) /\ frame p q.

Lemma same_kind_trans p q r : same_kind p q -> same_kind q r -> same_kind p r.
Proof. intros (_ & E1 & F1) (H2 & E2 & F2). split; [done|]. split; [congruence|exact (frame_trans p q r F1 F2)]. Qed.

Lemma same_kind_refl p : plain_page p -> same_kind p p.
Proof. intros Hp. split; [done|]. split; [done|]. apply frame_refl. Qed.

Lemma num_slots_views p : plain_page p -> p_num_slots p = Z.of_nat (length (views p)).
Proof. intros ([[W _] _] & _). rewrite length_views. pose proof (wf_nslots _ W). lia. Qed.

Lemma save_records_ok p n id m data offset :
  plain_page p -> 0 <= id -> id + Z.of_nat n <= p_num_slots p ->
  exists m' offset', save_records n p id m data offset = (m', Some offset').
Proof.
  intros ([[Wp D] S] & Ha & _). revert id m offset. induction n as [|n IH]; intros id m offset Hs Hn; cbn [save_records].
  { by eexists _, _. }
  assert (live (slot p id) = true) as Hl by (apply D; [unfold anchored in Ha; lia|lia]).
  unfold spage_get_record. rewrite find_slot_Some by (done || lia). unfold spage_get_record_data, PEEK.
  cbn [negb Z.eqb S_SUCCESS]. apply IH; lia.
Qed.

Lemma save_page_records_ok er p first cnt ins m data :
  plain_page p -> 0 <= first -> 0 <= cnt -> first + cnt <= p_num_slots p ->
  exists m' len, btree_rv_util_save_page_records er p first cnt ins m data = (NO_ERROR, m', len).
Proof.
  intros Hp Hf Hc Hn. unfold btree_rv_util_save_page_records.
  destruct (save_records_ok p (Z.to_nat cnt) first m data
    (RECSET_HEADER_SIZE + DB_WASTED_ALIGN RECSET_HEADER_SIZE BTREE_MAX_ALIGN)) as (m' & off & ->); [done|done|lia|].
  by eexists _, _.
Qed.

Section Moves.
Context {ST : Type} `{SavedSpacesLaws ST} (th : THREAD_ENTRY) (er : Z) (st : ST).
Context (Hst : saved_ok st) (Hcalloc : th_calloc th = true).

Lemma plain_insert p slot a bs :
  plain_page p -> 0 <= slot <= p_num_slots p -> bs <> [] ->
  view_space (alignment (p_hdr p)) (Rec REC_HOME bs) <= total_free (p_hdr p) ->
  exists q rd', spage_insert_at th st p slot (mkRecdes a (zlen bs) REC_HOME (Area bs)) = (SP_SUCCESS, q, rd')
    /\ same_kind p q
    /\ views q = take (Z.to_nat slot) (views p) ++ Rec REC_HOME bs :: drop (Z.to_nat slot) (views p).
Proof.
  intros (I & Ha & Hsv) Hslot Hbs Hsp. pose proof (proj1 I) as W. pose proof (proj1 W) as Wp.
  assert (0 < zlen bs) as Hpos by (destruct bs; [done|rewrite zlen_cons; pose proof (zlen_nonneg bs); lia]).
  set (rd := mkRecdes a (zlen bs) REC_HOME (Area bs)).
  assert (recdes_ok rd) as Hrd.
  { split_and!; cbn; try done; try lia. intros _. by exists bs. }
  assert (anchor_type (p_hdr p) <> ANCHORED) as Hna by (unfold anchored in Ha; lia).
  assert (reused p slot = false) as Hre.
  { destruct (decide (slot < p_num_slots p)) as [Hlt|]; [|unfold reused; lia].
    apply not_true_is_false. intros Hr. apply (reused_abs p slot Wp ltac:(lia)) in Hr.
    rewrite views_lookup in Hr by lia. unfold view in Hr. by rewrite (proj2 W Hna slot ltac:(lia)) in Hr. }
  assert (need_at p slot (length_ rd) = view_space (alignment (p_hdr p)) (Rec REC_HOME bs)) as Hneed
    by (unfold need_at; by rewrite Hre).
  pose proof (page_space p Wp) as Htot. pose proof (views_space_nonneg _ (views p) (wf_align _ Wp)).
  pose proof (DB_ALIGN_spec (zlen bs) _ (wf_align _ Wp)) as Hal.
  destruct (spage_insert_at_cases th st Hst rd Hrd p slot W ltac:(lia)) as [(Hc & _)|[(_ & Hc & _)|(_ & _ & _ & Hc)]].
  { cbn in *. unfold view_space, spage_max_record_size, SPAGE_SLOT_SIZE in *. lia. }
  { unfold slot_taken in Hc. rewrite Hre in Hc. unfold ANCHORED in *. lia. }
  rewrite Hneed in Hc. assert (spage_has_enough_total_space th st p (view_space (alignment (p_hdr p)) (Rec REC_HOME bs)) = true) as Hen.
  { unfold spage_has_enough_total_space. rewrite Hsv. zcase; [done|lia]. }
  rewrite Hen in Hc. destruct Hc as [(_ & q & bytes & E & (_ & _ & Him) & Hins)|[(? & _)|(_ & Hca & E)]]; [|done|congruence].
  rewrite (Him ltac:(done) bs eq_refl) in Hins.
  change (length_ (norm_rd rd)) with (zlen bs) in Hins. rewrite take_ge in Hins by (unfold zlen; lia).
  assert (views q = take (Z.to_nat slot) (views p) ++ Rec REC_HOME bs :: drop (Z.to_nat slot) (views p)) as Hv.
  { rewrite (ins_views _ _ _ _ _ _ _ Hins). unfold put_view_at. by rewrite Hre. }
  exists q, (norm_rd rd). split; [exact E|]. split; [|done]. split; [split; [split; [apply Hins|]|split]|split].
  - unfold solid. rewrite Hv. apply solid_middle; [apply I|done].
  - unfold anchored in *. by rewrite (ins_anchor _ _ _ _ _ _ _ Hins).
  - by rewrite (ins_saving _ _ _ _ _ _ _ Hins).
  - apply Hins.
  - apply Hins.
Qed.

Lemma plain_delete p slot :
  plain_page p -> 0 <= slot < p_num_slots p ->
  exists q, spage_delete th st p slot = (slot, q, st) /\ same_kind p q /\ views q = delete (Z.to_nat slot) (views p).
Proof.
  intros (I & Ha & Hsv) Hs. pose proof (proj1 I) as W.
  assert (anchor_type (p_hdr p) <> ANCHORED) as Hna by (unfold anchored in Ha; lia).
  destruct (spage_delete_spec th st p slot W (proj2 I) Hs (proj2 W Hna slot Hs)) as (q & D & ->).
  unfold give_back. rewrite Hsv. cbn [fst snd Z.eqb NO_ERROR]. exists (pgbuf_set_dirty q). split; [done|].
  assert (views q = delete (Z.to_nat slot) (views p)) as Hv.
  { rewrite (del_views _ _ _ D). unfold delete_view. by replace (_ =? ANCHORED) with false by lia. }
  assert (page_inv q) as Iq.
  { split; [apply D|]. unfold solid. rewrite Hv. apply Forall_delete, I. }
  split; [|done]. split; [split; [|split]|split].
  - apply (same_slots_inv q); [done|done|done|apply Iq].
  - unfold anchored in *. cbn. by rewrite (del_anchor _ _ _ D).
  - cbn. by rewrite (del_saving _ _ _ D).
  - apply D.
  - apply D.
Qed.

Definition home_record (v : SLOT_VIEW) : Prop := exists bs, v = Rec REC_HOME bs /\ bs <> [].

Lemma move_records_ok moved pre vr i slot Q R :
  plain_page Q -> plain_page R -> views Q = pre ++ moved -> views R = vr ->
  slot = Z.of_nat (length pre) -> i = Z.of_nat (length vr) -> Forall home_record moved ->
  views_space (alignment (p_hdr R)) moved <= total_free (p_hdr R) ->
  exists Q' R', move_records th (length moved) i slot st Q R = (NO_ERROR, i + Z.of_nat (length moved), Q', R', st)
    /\ same_kind Q Q' /\ same_kind R R' /\ views Q' = pre /\ views R' = vr ++ moved.
Proof.
  revert vr i Q R. induction moved as [|v moved IH]; intros vr i Q R PQ PR VQ VR Hslot Hi Hh Hsp.
  { exists Q, R. rewrite app_nil_r in VQ |- *. split_and!; try done. cbn. do 4 f_equal. lia. }
  apply list.Forall_cons in Hh as [(bs & -> & Hbs) Hh]. cbn [length move_records].
  change (views_space ?al (?w :: ?vs)) with (view_space al w + views_space al vs) in Hsp.
  pose proof (views_space_nonneg (alignment (p_hdr R)) moved (wf_align _ (proj1 (proj1 (proj1 PR))))) as Hnn.
  destruct (get_record_peek Q slot RECDES_INITIALIZER REC_HOME bs (proj1 (proj1 (proj1 PQ)))) as (off & -> & Hb); [lia| |].
  { rewrite VQ, Hslot, Nat2Z.id. by rewrite lookup_app_r, Nat.sub_diag by done. }
  cbn [negb Z.eqb S_SUCCESS]. unfold record_of, rec_data. cbn [data length_ type_ area_size]. rewrite Nat2Z.id, Hb.
  fold (zlen bs). pose proof (num_slots_views R PR) as NR. rewrite VR in NR. pose proof (num_slots_views Q PQ) as NQ.
  rewrite VQ, length_app in NQ. cbn [length] in NQ.
  destruct (plain_insert R i (-1) bs PR ltac:(lia) Hbs ltac:(lia)) as (R1 & rd1 & -> & KR & V1). cbn [negb Z.eqb SP_SUCCESS].
  destruct (plain_delete Q slot PQ ltac:(lia)) as (Q1 & -> & KQ & V2). rewrite Z.eqb_refl. cbn [negb].
  rewrite VR, Hi, Nat2Z.id, take_ge, drop_ge in V1 by done.
  rewrite VQ, Hslot, Nat2Z.id in V2. rewrite delete_middle in V2.
  pose proof (page_space R (proj1 (proj1 (proj1 PR)))) as S0. pose proof (page_space R1 (proj1 (proj1 (proj1 (proj1 KR))))) as S1.
  destruct KR as (PR1 & AR & FR). rewrite VR in S0. rewrite V1, AR, views_space_app in S1.
  change (views_space ?al [?w]) with (view_space al w + 0) in S1.
  destruct (IH (vr ++ [Rec REC_HOME bs]) (i + 1) Q1 R1) as (Q' & R' & -> & K1 & K2 & E1 & E2); try done.
  - apply KQ.
  - rewrite length_app. cbn. lia.
  - rewrite AR. lia.
  - exists Q', R'. rewrite <- app_assoc in E2. split_and!; try done.
    + do 4 f_equal. lia.
    + by apply (same_kind_trans Q Q1).
    + by apply (same_kind_trans R R1).
Qed.

(** An update by a record of the same length. *)
Lemma plain_update p id a type' t bs old :
  plain_page p -> 0 <= id -> views p !! Z.to_nat id = Some (Rec t old) -> (length old <= length bs)%nat -> old <> [] ->
  exists q, spage_update th st p id (mkRecdes a (zlen old) type' (Area bs)) = (SP_SUCCESS, q, st)
    /\ same_kind p q /\ views q = <[Z.to_nat id := Rec t (take (length old) bs)]> (views p)
    /\ total_free (p_hdr q) = total_free (p_hdr p).
Proof.
  intros (I & Ha & Hsv) Hs Hv Hlen Hne. pose proof (proj1 I) as W. pose proof (proj1 W) as Wp.
  destruct (views_Rec p id t old Hv Hs) as (Hr & Hl & Ht & Hrl & _). set (rd := mkRecdes a (zlen old) type' (Area bs)).
  assert (growth p id (length_ rd) = 0) as Hg.
  { unfold growth, alen, rd. cbn [length_]. rewrite Hrl. unfold zlen. lia. }
  assert (zlen old <= spage_max_record_size) as Hmax.
  { pose proof (layout_slot _ _ _ _ (wf_layout _ Wp) Hr Hl) as (Ho & _ & He & _).
    pose proof (alen_ge (alignment (p_hdr p)) (slot p id) (wf_align _ Wp)) as Hag. rewrite Hrl in Hag. pose proof (wf_off _ Wp).
    unfold spage_max_record_size, SPAGE_SLOT_SIZE, zlen in *. lia. }
  destruct (spage_update_spec th st Hst p id rd bs W ltac:(cbn; unfold zlen; lia) (proj2 I) Hr Hl Hmax eq_refl ltac:(cbn; unfold zlen; lia))
    as [(Hf & _)|[(_ & q & U & E)|(_ & Hca & _)]]; [|..|congruence].
  { rewrite Hg in Hf. done. }
  unfold give_back in E. rewrite Hsv in E. cbn [fst snd Z.eqb NO_ERROR] in E.
  assert (views q = <[Z.to_nat id := Rec t (take (length old) bs)]> (views p)) as Hvq.
  { rewrite (up_views _ _ _ _ _ U), Ht. unfold rd. cbn [length_]. unfold zlen. by rewrite Nat2Z.id. }
  assert (page_inv q) as Iq.
  { split; [apply U|]. unfold solid. rewrite Hvq. apply solid_insert; [apply I|]. cbn. intros E0. apply Hne.
    apply nil_length_inv. apply (f_equal length) in E0. rewrite length_take in E0. cbn in E0. lia. }
  exists (pgbuf_set_dirty q). split; [exact E|]. split; [|split; [done|]].
  - split; [split; [by apply (same_slots_inv q); [..|apply Iq]|split]|split; [apply U|apply U]].
    + unfold anchored in *. cbn. by rewrite (up_anchor _ _ _ _ _ U).
    + cbn. by rewrite (up_saving _ _ _ _ _ U).
  - cbn. rewrite (up_total _ _ _ _ _ U), Hg. lia.
Qed.

(** The header of a fresh page. *)
Lemma insert_node_header_ok p hd :
  plain_page p -> views p = [] -> header_ok hd ->
  exists q, btree_insert_node_header th er st p hd = (NO_ERROR, q) /\ same_kind p q
    /\ views q = [Rec REC_HOME (header_bytes hd)] /\ has_header q hd [].
Proof.
  intros Hp Hv Hh. pose proof (num_slots_views p Hp) as Hn. rewrite Hv in Hn. cbn in Hn.
  pose proof (proj1 (proj1 (proj1 Hp))) as W.
  unfold btree_insert_node_header, HEADER. cbn zeta.
  replace (mkRecdes NODE_HEADER_SIZE NODE_HEADER_SIZE REC_HOME (Area (header_bytes hd)))
    with (mkRecdes NODE_HEADER_SIZE (zlen (header_bytes hd)) REC_HOME (Area (header_bytes hd))) by (by rewrite zlen_header).
  destruct (plain_insert p 0 NODE_HEADER_SIZE (header_bytes hd) Hp ltac:(lia) (header_nonempty hd)) as (q & rd' & -> & K & Vq).
  { rewrite (page_space p W), Hv. unfold view_space, SPAGE_SLOT_SIZE. rewrite zlen_header. cbn [views_space].
    change (views_space _ []) with 0. pose proof (wf_align _ W) as Hal. unfold NODE_HEADER_SIZE.
    by destruct Hal as [->|[->|[->| ->]]]. }
  cbn [negb Z.eqb SP_SUCCESS]. rewrite Hv in Vq. exists q. split; [done|]. split; [done|]. split; [done|].
  destruct K as ((I & Ha & _) & _). split; [done|]. split; [done|]. split; [done|]. exists REC_HOME. exact Vq.
Qed.
End Moves.
