(* ===== verification/BtreeSplitTree.v ===== *)
(** * The tree after a split

    The parent of the leaf that was split, and the split as a whole. *)
From Stdlib Require Import ZArith Lia ZifyBool Sorting.Sorted.
From stdpp Require Import base list numbers sorting.
From S2P Require Import Prelude StorageCommon Floats SpaceSaving SpaceSavingInv SlottedPage SlottedPageInv SlottedPageOps SlottedPageShift.
From S2P Require Import SlottedPageCompact SlottedPageDelete SlottedPageUpdate SlottedPageRead SlottedPageSpec SlottedPageProps.
From S2P Require Import NumericValue OrBuf OrBufSpec Collation Primitive PrimitiveDisk PrimitiveCompare.
From S2P Require Import Btree BtreeKey BtreeRecord BtreeSearch BtreeUpdate BtreeSplit BtreeSplitSpec.

Lemma size_zlen bs : Z.to_nat (zlen bs) = length bs.
Proof. unfold zlen. lia. Qed.

(** ** The records of the parent *)

Definition inner_view (r : DB_IDXKEY * VPID) : SLOT_VIEW := Rec REC_HOME (record_bytes (Some r.2) r.1).

(** The children of the parent when child [i] is split into itself, up to the
    separator, and the new page. *)
Definition split_children (children : list (DB_IDXKEY * VPID)) (last : VPID) (i : nat) (sep : DB_IDXKEY) (Q R : VPID)
    : list (DB_IDXKEY * VPID) * VPID :=
  match children !! i with
  | Some (k, _) => (take i children ++ (sep, Q) :: (k, R) :: drop (S i) children, last)
  | None => (children ++ [(sep, Q)], R)
  end.

(** The records around that of child [i]: it may be the last one. *)
Lemma parent_views children last rest i Q :
  (children.*2 ++ [last]) !! i = Some Q ->
  exists A tail B, (inner_view <$> children) ++ [Rec REC_HOME (child_bytes (Some last) ++ rest)]
      = A ++ Rec REC_HOME (child_bytes (Some Q) ++ tail) :: B /\ length A = i
    /\ forall sep R, exists rest', (inner_view <$> (split_children children last i sep Q R).1)
         ++ [Rec REC_HOME (child_bytes (Some (split_children children last i sep Q R).2) ++ rest')]
         = A ++ inner_view (sep, Q) :: Rec REC_HOME (child_bytes (Some R) ++ tail) :: B.
Proof.
  intros HQ. unfold split_children. destruct (children !! i) as [[k Q']|] eqn:E.
  - pose proof (lookup_lt_Some _ _ _ E) as Hlt. rewrite lookup_app_l, list_lookup_fmap, E in HQ by (by rewrite length_fmap).
    injection HQ as ->. exists (inner_view <$> take i children), (key_bytes k),
      ((inner_view <$> drop (S i) children) ++ [Rec REC_HOME (child_bytes (Some last) ++ rest)]).
    split_and!.
    + rewrite <- (take_drop_middle children i (k, Q) E) at 1. rewrite fmap_app, fmap_cons, <- app_assoc. done.
    + rewrite length_fmap, length_take. lia.
    + intros sep R. exists rest. cbn [fst snd]. rewrite fmap_app, !fmap_cons, <- app_assoc. done.
  - apply lookup_ge_None in E. assert (i = length children) as ->.
    { apply lookup_lt_Some in HQ. rewrite length_app, length_fmap in HQ. cbn in HQ. lia. }
    rewrite lookup_app_r, length_fmap, Nat.sub_diag in HQ by (by rewrite length_fmap). injection HQ as ->.
    exists (inner_view <$> children), rest, []. split_and!; [done|by rewrite length_fmap|].
    intros sep R. exists rest. cbn [fst snd]. rewrite fmap_app, <- app_assoc. done.
Qed.

Lemma insert_middle (A B : list SLOT_VIEW) x y z :
  take (length A) (<[length A := y]> (A ++ x :: B)) ++ z :: drop (length A) (<[length A := y]> (A ++ x :: B))
  = A ++ z :: y :: B.
Proof.
  replace (<[length A := y]> (A ++ x :: B)) with (A ++ y :: B).
  - by rewrite take_app_length, drop_app_length.
  - rewrite <- (Nat.add_0_r (length A)). by rewrite insert_app_r.
Qed.

(** ** The change of the parent *)

Section Parent.
Context {ST : Type} `{SavedSpacesLaws ST} (th : THREAD_ENTRY) (er : Z) (st : ST).
Context (Hst : saved_ok st) (Hcalloc : th_calloc th = true).

(** A page with a header, seen as a plain page. *)
Definition plain_node (p : PAGE) (h : BTREE_NODE_HEADER) (vs : list SLOT_VIEW) : Prop :=
  plain_page p /\ header_ok h /\ exists t, views p = Rec t (header_bytes h) :: vs.

Lemma node_header p h vs : plain_node p h vs <-> has_header p h vs /\ is_saving (p_hdr p) = false.
Proof. unfold plain_node, has_header, plain_page. tauto. Qed.

(** The bytes of the record with its new child. *)
Lemma repoint Q R tail rest :
  take (length (child_bytes (Some Q) ++ tail))
    (btree_write_fixed_portion_of_non_leaf_record ((child_bytes (Some Q) ++ tail) ++ rest) R)
  = child_bytes (Some R) ++ tail.
Proof.
  unfold btree_write_fixed_portion_of_non_leaf_record, child_bytes.
  assert (forall v : VPID, length (be_bytes 4 v.2 ++ be_bytes 2 v.1) = 6%nat) as H6
    by (intros v; by rewrite length_app, !length_be_bytes).
  rewrite <- (app_assoc (be_bytes 4 Q.2 ++ be_bytes 2 Q.1)), drop_app_length' by (by rewrite H6).
  rewrite (app_assoc (be_bytes 4 R.2)), app_assoc. rewrite take_app_length'; [done|].
  rewrite !length_app. rewrite <- !length_app. rewrite !length_app, !length_be_bytes. lia.
Qed.

(** The record of child [i] points to R. *)
Lemma parent_repoint rec_buf P h A tail B Q R :
  plain_node P h (A ++ Rec REC_HOME (child_bytes (Some Q) ++ tail) :: B) ->
  let slot := Z.of_nat (length A) + 1 in
  exists a len t bs P1, spage_get_record P slot (mkRecdes DB_PAGESIZE (-1) REC_HOME (Area rec_buf)) COPY
      = (S_SUCCESS, mkRecdes a len t (Area bs)) /\ t = REC_HOME
    /\ spage_update th st P slot (mkRecdes a len t (Area (btree_write_fixed_portion_of_non_leaf_record bs R)))
       = (SP_SUCCESS, P1, st)
    /\ same_kind P P1 /\ total_free (p_hdr P1) = total_free (p_hdr P)
    /\ plain_node P1 h (<[length A := Rec REC_HOME (child_bytes (Some R) ++ tail)]> (A ++ Rec REC_HOME (child_bytes (Some Q) ++ tail) :: B)).
Proof.
  intros (Hp & Hh & t0 & Hv) slot. set (old := child_bytes (Some Q) ++ tail) in *.
  assert (0 <= slot) as Hs by lia. pose proof (proj1 (proj1 (proj1 Hp))) as W.
  assert (views P !! Z.to_nat slot = Some (Rec REC_HOME old)) as Hlk.
  { rewrite Hv. replace (Z.to_nat slot) with (S (length A)) by lia. exact (list_lookup_middle A B _ _ eq_refl). }
  assert (old <> []) as Hne by (intros E; apply (f_equal length) in E; unfold old in E; rewrite length_app in E; cbn in E; lia).
  assert (Z.of_nat (length old) <= DB_PAGESIZE) as Hpg.
  { destruct (views_Rec P slot REC_HOME old Hlk Hs) as (Hr & Hl & _ & Hrl & _).
    pose proof (layout_slot _ _ _ _ (wf_layout _ W) Hr Hl) as (Ho & _ & He & _).
    pose proof (alen_ge (alignment (p_hdr P)) (SlottedPage.slot P slot) (wf_align _ W)) as Hag. rewrite Hrl in Hag.
    pose proof (wf_off _ W). unfold SPAGE_HEADER_SIZE in *. lia. }
  destruct (get_record_copy P slot (mkRecdes DB_PAGESIZE (-1) REC_HOME (Area rec_buf)) REC_HOME old W Hs Hlk Hpg) as (rest & E).
  destruct (plain_update th st Hst Hcalloc P slot DB_PAGESIZE REC_HOME REC_HOME
    (btree_write_fixed_portion_of_non_leaf_record (old ++ rest) R) old Hp Hs Hlk) as (P1 & E1 & K & V1 & T1); [|done|].
  { unfold btree_write_fixed_portion_of_non_leaf_record, old, child_bytes. rewrite !length_app, length_drop, !length_app, !length_be_bytes. lia. }
  eexists _, _, _, _, P1. split; [exact E|]. split; [done|]. split; [exact E1|]. split; [done|]. split; [done|].
  split; [apply K|]. split; [done|]. exists t0. rewrite V1. unfold old at 1 2. rewrite repoint, Hv.
  by replace (Z.to_nat slot) with (S (length A)) by lia.
Qed.

Lemma same_header p q h vs :
  plain_node p h vs -> has_header q h vs -> p_hdr q = p_hdr p -> frame p q -> plain_node q h vs /\ same_kind p q.
Proof.
  intros Hp Hq Eh F. apply node_header in Hp as [_ Hs].
  assert (is_saving (p_hdr q) = false) as Hsq by (by rewrite Eh). split; [by apply node_header|].
  destruct Hq as (I & Ha & _). split; [done|]. by rewrite Eh.
Qed.

(** The header of a node whose count has changed. *)
Lemma node_count p h vs h' n :
  plain_node p h vs -> counted h h' n -> 0 <= pivot h' < 2 ^ 32 -> - 2 ^ 31 <= index h' < 2 ^ 31 -> - 2 ^ 15 <= key_cnt h + n < 2 ^ 15 ->
  exists q, btree_write_node_header er p h' = (NO_ERROR, q) /\ plain_node q h' vs /\ same_kind p q.
Proof.
  intros Hp Hc H1 H2 H3. apply node_header in Hp as [Hh Hs].
  destruct (write_count er p h vs h' n Hh Hc H1 H2 H3) as (q & -> & Hq & F & Eh). exists q. split; [done|].
  assert (is_saving (p_hdr q) = false) as Hsq by (by rewrite Eh). split; [by apply node_header|].
  destruct Hq as (I & Ha & _). split; [done|]. by rewrite Eh.
Qed.

Lemma split_parent_views l rec_buf P h A tail B Q R sep :
  plain_node P h (A ++ Rec REC_HOME (child_bytes (Some Q) ++ tail) :: B) -> key_cnt h + 1 < 2 ^ 15 -> -1 <= key_cnt h ->
  column_values l sep -> Z.of_nat (length sep) <= 1000 ->
  zlen (record_bytes (Some Q) sep) <= BTREE_MAX_KEYLEN ->
  view_space (alignment (p_hdr P)) (inner_view (sep, Q)) <= total_free (p_hdr P) ->
  exists P' h', split_parent th er rec_buf st P (Z.of_nat (length A) + 1) sep Q R = Some (NO_ERROR, P', st)
    /\ same_kind P P' /\ counted h h' 1
    /\ plain_node P' h' (A ++ inner_view (sep, Q) :: Rec REC_HOME (child_bytes (Some R) ++ tail) :: B).
Proof.
  intros HP Hc1 Hc2 Hcol Hlen Hrec Hsp. unfold split_parent.
  destruct (parent_repoint rec_buf P h A tail B Q R HP) as (a & len & t & bs & P1 & -> & -> & E1 & K1 & T1 & N1).
  cbn [negb Z.eqb S_SUCCESS data area_size length_ type_]. rewrite E1. cbn [negb Z.eqb SP_SUCCESS].
  destruct (write_record_ok l (Some Q) sep (store_bytes (fun _ => 0) 0 (btree_write_fixed_portion_of_non_leaf_record bs R)) 0 Hcol Hlen)
    as (rc & m & -> & _ & Hw). cbn zeta in Hw |- *. replace (_ <=? BTREE_MAX_KEYLEN) with true in * by lia. destruct Hw as [-> Hh].
  cbn [mbind option_bind]. unfold holds in Hh. rewrite (size_zlen (record_bytes (Some Q) sep)), Hh.
  pose proof N1 as (PP1 & Hh1 & t1 & V1). pose proof (num_slots_views P1 PP1) as NS. rewrite V1 in NS. cbn [length] in NS.
  rewrite length_insert, length_app in NS.
  assert (record_bytes (Some Q) sep <> []) as Hne by (intros E; apply (f_equal length) in E; unfold record_bytes in E; rewrite length_app in E; cbn in E; lia).
  destruct (plain_insert th st Hst Hcalloc P1 (Z.of_nat (length A) + 1) DB_PAGESIZE (record_bytes (Some Q) sep) PP1) as (P2 & rd2 & -> & K2 & V2);
    [lia|done|rewrite T1; destruct K1 as (_ & -> & _); exact Hsp|].
  cbn [negb Z.eqb SP_SUCCESS]. rewrite V1 in V2. replace (Z.to_nat (Z.of_nat (length A) + 1)) with (S (length A)) in V2 by lia.
  cbn [take drop app] in V2. rewrite insert_middle in V2.
  assert (plain_node P2 h (A ++ inner_view (sep, Q) :: Rec REC_HOME (child_bytes (Some R) ++ tail) :: B)) as N2.
  { split; [apply K2|]. split; [done|]. by exists t1. }
  rewrite (read_node_header er P2 h _ (proj1 (proj1 (node_header _ _ _) N2))). rewrite swrap_small by lia.
  destruct (next_pivot_range (pivot h) (index h) (fdiv (float_of (Z.of_nat (length A) + 1)) (float_of (key_cnt h + 1))) (key_cnt h + 1)) as [R1 R2];
    [lia|apply Hh1|].
  destruct (btree_split_next_pivot _ _ _ _) as [pv ix]. cbn in R1, R2.
  set (h' := mkNodeHeader pv ix _ _ _ _). assert (counted h h' 1) as Hcd by done.
  destruct (node_count P2 h _ h' 1 N2 Hcd R1 R2 ltac:(lia)) as (P3 & -> & N3 & K3).
  exists P3, h'. split; [done|]. split; [|done]. exact (same_kind_trans _ _ _ (same_kind_trans _ _ _ K1 K2) K3).
Qed.
End Parent.

(** ** The halves *)

Lemma split_halves indexp keys mid sep b :
  keys_ok indexp keys -> split_keys indexp keys mid sep b ->
  keys_ok indexp (take mid keys) /\ keys_ok indexp (drop mid keys).
Proof.
  intros [F S] _. unfold sorted in *. rewrite <- (take_drop mid keys) in S. apply StronglySorted_app in S as (_ & S1 & S2).
  split; (split; [by apply Forall_take || by apply Forall_drop|done]).
Qed.

Lemma split_header_ok h leaf v pads n :
  header_ok h -> node_vpid_ok v -> 0 <= n < 2 ^ 15 -> leaf = true ->
  header_ok (left_header h leaf n v) /\ header_ok (right_header pads h leaf n v)
  /\ key_cnt (left_header h leaf n v) = n /\ key_cnt (right_header pads h leaf n v) = n.
Proof.
  intros (H1 & H2 & H3 & H4 & H5 & H6) Hv Hn ->. unfold left_header, right_header. cbn. rewrite swrap_small by lia.
  unfold header_ok. cbn. split_and!; try done; lia.
Qed.

Definition leaf_view (k : DB_IDXKEY) : SLOT_VIEW := Rec REC_HOME (record_bytes None k).

Lemma leaf_home indexp keys : index_ok indexp -> keys_ok indexp keys -> Forall home_record (leaf_view <$> keys).
Proof.
  intros Hi [F _]. apply Forall_fmap. eapply Forall_impl; [exact F|]. intros k [Hk _].
  exists (record_bytes None k). split; [done|]. change (record_bytes None k) with (key_bytes k).
  destruct (key_bytes_pos k) as [Hp| ->]; [intros E; by rewrite E in Hp|]. by apply (key_length indexp) in Hk.
Qed.

Section SplitNode.
Context {ST : Type} `{SavedSpacesLaws ST} (th : THREAD_ENTRY) (net er : Z) (st : ST).
Context (Hst : saved_ok st) (Hcalloc : th_calloc th = true).

(** The records of the right half fit into a fresh page. *)
Lemma halves_fit Q R h hr vl vr :
  plain_node Q h (vl ++ vr) -> plain_page R -> views R = [Rec REC_HOME (header_bytes hr)] ->
  alignment (p_hdr R) = alignment (p_hdr Q) -> views_space (alignment (p_hdr R)) vr <= total_free (p_hdr R).
Proof.
  intros (PQ & _ & t & VQ) PR VR Hal. pose proof (proj1 (proj1 (proj1 PQ))) as WQ. pose proof (proj1 (proj1 (proj1 PR))) as WR.
  pose proof (page_space Q WQ) as SQ. pose proof (page_space R WR) as SR. pose proof (total_free_pos Q WQ).
  rewrite VQ in SQ. rewrite VR, Hal in SR. rewrite Hal.
  change (views_space ?al (?v :: ?vs)) with (view_space al v + views_space al vs) in SQ, SR. rewrite views_space_app in SQ.
  pose proof (views_space_nonneg (alignment (p_hdr Q)) vl (wf_align _ WQ)).
  assert (view_space (alignment (p_hdr Q)) (Rec t (header_bytes h)) = view_space (alignment (p_hdr Q)) (Rec REC_HOME (header_bytes hr))) as E
    by (unfold view_space; by rewrite !zlen_header).
  change (views_space _ []) with 0 in SR. lia.
Qed.

(** The pages of a leaf that is split, before its parent is changed. *)
Lemma leaf_halves indexp pads recset Q R h keys mid sep b Q_vpid R_vpid :
  index_ok indexp -> leaf_page indexp Q h keys -> is_saving (p_hdr Q) = false -> plain_page R -> views R = [] ->
  alignment (p_hdr R) = alignment (p_hdr Q) -> node_vpid_ok Q_vpid -> node_vpid_ok R_vpid ->
  split_keys indexp keys mid sep b ->
  let hl := left_header h true (Z.of_nat mid) R_vpid in
  let hr := right_header pads h true (Z.of_nat (length keys - mid)) Q_vpid in
  exists Q1 R1 m len Q2 R2, btree_write_node_header er Q hl = (NO_ERROR, Q1)
    /\ btree_insert_node_header th er st R hr = (NO_ERROR, R1)
    /\ btree_rv_util_save_page_records er Q1 (Z.of_nat mid + 1) (Z.of_nat (length keys - mid)) (Z.of_nat mid + 1) recset 0
       = (NO_ERROR, m, len)
    /\ move_records th (length keys - mid) 1 (Z.of_nat mid + 1) st Q1 R1
       = (NO_ERROR, 1 + Z.of_nat (length keys - mid), Q2, R2, st)
    /\ same_kind Q Q2 /\ same_kind R R2
    /\ leaf_page indexp Q2 hl (take mid keys) /\ leaf_page indexp R2 hr (drop mid keys).
Proof.
  intros Hi HQ HsQ PR VR Hal OQ OR Hsplit hl hr. pose proof HQ as (Hh & Hk & Hn). pose proof Hsplit as (Hm & _).
  pose proof (leaf_count Q h _ Hh) as Hcnt. rewrite length_fmap in Hcnt. assert (header_ok h) as Ho by apply Hh.
  destruct (split_header_ok h true R_vpid pads (Z.of_nat mid) Ho OR ltac:(lia) eq_refl) as (L1 & _ & L3 & _).
  destruct (split_header_ok h true Q_vpid pads (Z.of_nat (length keys - mid)) Ho OQ ltac:(lia) eq_refl) as (_ & R1' & _ & R3).
  destruct (write_node_header_ok er Q h hl _ Hh L1) as (Q1 & E1 & Hh1 & F1 & Eh1).
  assert (plain_node Q1 hl (leaf_view <$> keys)) as N1 by (apply node_header; split; [done|by rewrite Eh1]).
  destruct (insert_node_header_ok th er st Hst Hcalloc R hr PR VR R1') as (R1 & E2 & KR & VR1 & _).
  pose proof N1 as (PQ1 & _ & t & VQ1). pose proof (num_slots_views Q1 PQ1) as NS. rewrite VQ1 in NS. cbn [length] in NS.
  rewrite length_fmap in NS.
  destruct (save_page_records_ok er Q1 (Z.of_nat mid + 1) (Z.of_nat (length keys - mid)) (Z.of_nat mid + 1) recset 0 PQ1)
    as (m & len & E3); [lia|lia|lia|].
  destruct (split_halves indexp keys mid sep b Hk Hsplit) as [Kl Kr].
  destruct (move_records_ok th st Hst Hcalloc (leaf_view <$> drop mid keys) (Rec t (header_bytes hl) :: (leaf_view <$> take mid keys))
    [Rec REC_HOME (header_bytes hr)] 1 (Z.of_nat mid + 1) Q1 R1 PQ1 (proj1 KR)) as (Q2 & R2 & E4 & KQ2 & KR2 & VQ2 & VR2).
  - rewrite VQ1. cbn. by rewrite <- fmap_app, take_drop.
  - done.
  - cbn. rewrite length_fmap, length_take. lia.
  - done.
  - by apply (leaf_home indexp).
  - apply (halves_fit Q1 R1 hl hr (leaf_view <$> take mid keys)); [by rewrite <- fmap_app, take_drop|apply KR|done|].
    destruct KR as (_ & -> & _). by rewrite Eh1.
  - rewrite length_fmap, length_drop in E4. exists Q1, R1, m, len, Q2, R2. split_and!; try done.
    + assert (same_kind Q Q1) as KQ1 by (split; [done|by rewrite Eh1]). exact (same_kind_trans _ _ _ KQ1 KQ2).
    + exact (same_kind_trans _ _ _ KR KR2).
    + split; [|split; [done|rewrite length_take, Nat.min_l by lia; exact L3]].
      destruct KQ2 as ((I2 & A2 & _) & _). split; [done|]. split; [done|]. split; [done|]. by exists t.
    + split; [|split; [done|rewrite length_drop; exact R3]].
      destruct KR2 as ((I2 & A2 & _) & _). split; [done|]. split; [done|]. split; [done|]. by exists REC_HOME.
Qed.
End SplitNode.

(** ** The parent of the halves *)

Definition inner_fits (r : DB_IDXKEY * VPID) : Prop :=
  vpid_fits r.2 /\ zlen (record_bytes (Some r.2) r.1) <= BTREE_MAX_KEYLEN.

Lemma zlen_inner v k : zlen (record_bytes (Some v) k) = 6 + zlen (key_bytes k).
Proof. unfold record_bytes, child_bytes. by rewrite !zlen_app, !zlen_be. Qed.

Lemma split_children_fits children last i sep Q R :
  Forall inner_fits children -> vpid_fits last -> vpid_fits Q -> vpid_fits R -> 6 + zlen (key_bytes sep) <= BTREE_MAX_KEYLEN ->
  Forall inner_fits (split_children children last i sep Q R).1 /\ vpid_fits (split_children children last i sep Q R).2.
Proof.
  intros F HL HQ HR Hs. unfold split_children. assert (inner_fits (sep, Q)) as Hsep by (split; [done|by rewrite zlen_inner]).
  destruct (children !! i) as [[k v]|] eqn:E; cbn [fst snd].
  - rewrite Forall_lookup in F. destruct (F i (k, v) E) as [_ Hk]. cbn [fst snd] in Hk. rewrite zlen_inner in Hk. rewrite <- Forall_lookup in F.
    split; [|done]. apply Forall_app. split; [by apply Forall_take|]. constructor; [done|].
    constructor; [split; [done|by rewrite zlen_inner]|by apply Forall_drop].
  - split; [|done]. apply Forall_app. split; [done|]. by constructor.
Qed.

Lemma split_children_length children last i sep Q R :
  (i <= length children)%nat -> length (split_children children last i sep Q R).1 = S (length children).
Proof.
  intros Hi. unfold split_children. destruct (children !! i) as [[k v]|] eqn:E; cbn [fst].
  - apply lookup_lt_Some in E. rewrite length_app, length_take. cbn [length]. rewrite length_drop. lia.
  - rewrite length_app. cbn. lia.
Qed.

(** The halves are the children [i] and [i + 1]. *)
Lemma split_children_pages children last i sep Q R :
  (i <= length children)%nat ->
  let c := split_children children last i sep Q R in
  (c.1.*2 ++ [c.2]) !! i = Some Q /\ (c.1.*2 ++ [c.2]) !! S i = Some R
  /\ c.1.*1 = take i children.*1 ++ sep :: drop i children.*1.
Proof.
  intros Hi c. unfold c, split_children. destruct (children !! i) as [[k v]|] eqn:E; cbn [fst snd].
  - pose proof (lookup_lt_Some _ _ _ E) as Hlt. rewrite !fmap_app, !fmap_cons, <- app_assoc.
    assert (length (take i children).*2 = i) as Hl by (rewrite length_fmap, length_take; lia). split_and!.
    + by apply list_lookup_middle.
    + rewrite lookup_app_r by lia. by replace (S i - length (take i children).*2)%nat with 1%nat by lia.
    + rewrite fmap_take, fmap_drop. cbn [fst]. do 2 f_equal. symmetry. apply drop_S. by rewrite list_lookup_fmap, E.
  - apply lookup_ge_None in E. assert (i = length children) as -> by lia. rewrite !fmap_app, <- app_assoc.
    assert (length children.*2 = length children) as Hl by (by rewrite length_fmap). split_and!.
    + by apply list_lookup_middle.
    + rewrite lookup_app_r by lia. by replace (S (length children) - length children.*2)%nat with 1%nat by lia.
    + rewrite take_ge, drop_ge by (by rewrite length_fmap). done.
Qed.

Lemma split_separators indexp children last i sep Q R :
  keys_ok indexp children.*1 -> key_ok indexp sep -> zlen (key_bytes sep) <= BTREE_MAX_KEYLEN ->
  (i <= length children)%nat ->
  (forall j k, children.*1 !! j = Some k -> (j < i)%nat -> kcmp indexp k sep < 0) ->
  (forall j k, children.*1 !! j = Some k -> (i <= j)%nat -> kcmp indexp sep k < 0) ->
  keys_ok indexp (split_children children last i sep Q R).1.*1.
Proof.
  intros Hk Hs Hl Hi Hb Ha.
  destruct (split_children_pages children last i sep Q R Hi) as (_ & _ & ->).
  apply keys_insert; try done. split_and!; [by rewrite length_fmap| |].
  - intros j k Hj Hji. pose proof (Hb j k Hj Hji). rewrite (law_opp _ _ (kcmp_laws indexp) sep k); [lia|done|].
    by apply (keys_lookup indexp children.*1 j).
  - intros j k Hj Hij. by apply (Ha j).
Qed.

(** A search of an inner page has one answer. *)
Lemma child_for_unique indexp children key last i j v w :
  child_for indexp children key last i v -> child_for indexp children key last j w -> i = j /\ v = w.
Proof.
  intros (E1 & S1 & L1) (E2 & S2 & L2).
  assert (forall a b u, (children.*2 ++ [last]) !! b = Some u -> (a < b)%nat -> exists k, children.*1 !! a = Some k) as Hex.
  { intros a b u Hb Hab. apply lookup_lt_Some in Hb. rewrite length_app, length_fmap in Hb. cbn in Hb.
    apply lookup_lt_is_Some_2. rewrite length_fmap. lia. }
  destruct (Nat.lt_total i j) as [Hlt|[->|Hlt]].
  - destruct (Hex i j w E2 Hlt) as [k Hk]. pose proof (L1 i k Hk (Nat.le_refl _)). pose proof (S2 i k Hk Hlt). lia.
  - split; [done|]. rewrite E1 in E2. by injection E2.
  - destruct (Hex j i v E1 Hlt) as [k Hk]. pose proof (L2 j k Hk (Nat.le_refl _)). pose proof (S1 j k Hk Hlt). lia.
Qed.

(** A key that was looked for in the child that was split is looked for in one
    of the halves. *)
Lemma split_leads indexp children last i sep Q R key v :
  (i <= length children)%nat -> child_for indexp children key last i v ->
  let c := split_children children last i sep Q R in
  child_for indexp c.1 key c.2 (if kcmp indexp key sep <=? 0 then i else S i) (if kcmp indexp key sep <=? 0 then Q else R).
Proof.
  intros Hi (_ & Hb & Ha) c. destruct (split_children_pages children last i sep Q R Hi) as (EQ & ER & Ek). fold c in EQ, ER, Ek.
  assert (length (take i children.*1) = i) as Hl by (rewrite length_take, length_fmap; lia).
  unfold child_for. rewrite Ek.
  assert (forall j k, (take i children.*1 ++ sep :: drop i children.*1) !! j = Some k ->
    ((j < i)%nat /\ 0 < kcmp indexp key k) \/ (j = i /\ k = sep) \/ ((i < j)%nat /\ kcmp indexp key k <= 0)) as Hcase.
  { intros j k Hj. destruct (Nat.lt_total j i) as [Hlt|[->|Hlt]].
    - left. split; [done|]. rewrite lookup_app_l in Hj by lia. apply lookup_take_Some in Hj as [Hj _]. by apply (Hb j).
    - right. left. split; [done|]. rewrite list_lookup_middle in Hj by done. by injection Hj.
    - right. right. split; [done|]. rewrite lookup_app_r in Hj by lia. rewrite Hl in Hj.
      destruct (j - i)%nat as [|d] eqn:Ed; [lia|]. change (drop i children.*1 !! d = Some k) in Hj. rewrite lookup_drop in Hj. apply (Ha (i + d)%nat); [done|lia]. }
  destruct (kcmp indexp key sep <=? 0) eqn:E; (split; [done|split]); intros j k Hj Hij;
    destruct (Hcase j k Hj) as [[? ?]|[[-> ->]|[? ?]]]; lia.
Qed.

Section SplitLeaf.
Context {ST : Type} `{SavedSpacesLaws ST} `{Co : TP_COERCE} (th : THREAD_ENTRY) (net er : Z) (st : ST).
Context (Hst : saved_ok st) (Hcalloc : th_calloc th = true).
Context (btid : BTID_INT) (Hi : index_ok (indexp btid)) (Hc : few_columns (indexp btid)).

Notation idx := (indexp btid).

(** A leaf, its parent, in which it is child [i], and a fresh page. *)
Record splittable (P Q R : PAGE) (hp hq : BTREE_NODE_HEADER) (children : list (DB_IDXKEY * VPID)) (last : VPID)
    (keys : list DB_IDXKEY) (i : nat) (key : DB_IDXKEY) (Q_vpid R_vpid : NODE_VPID) : Prop := {
  sp_leaf : leaf_page idx Q hq keys;
  sp_parent : inner_page idx P hp children last;
  sp_plain : is_saving (p_hdr Q) = false /\ is_saving (p_hdr P) = false;
  sp_fresh : plain_page R /\ views R = [] /\ alignment (p_hdr R) = alignment (p_hdr Q);
  sp_level : node_level hq <= 1;
  sp_many : (4 <= length keys)%nat;
  sp_key : key_ok idx key /\ ~ exists k, k ∈ keys /\ kcmp idx key k = 0;
  sp_child : child_for idx children key last i (vpid_of Q_vpid);
  sp_vpids : node_vpid_ok Q_vpid /\ node_vpid_ok R_vpid;
  sp_above : forall j k x, children.*1 !! j = Some k -> (j < i)%nat -> x ∈ keys -> kcmp idx k x < 0;
  sp_below : forall j k x, children.*1 !! j = Some k -> (i <= j)%nat -> x ∈ keys -> kcmp idx x k <= 0;
  sp_short : 6 + longest keys key <= BTREE_MAX_KEYLEN;
  sp_room : BTREE_MAX_KEYLEN <= spage_max_space_for_new_record th st P }.

(** The pages after the split, and the child to be followed. *)
Record split_done (P Q R : PAGE) (hp hq : BTREE_NODE_HEADER) (children : list (DB_IDXKEY * VPID)) (last : VPID)
    (keys : list DB_IDXKEY) (i : nat) (key : DB_IDXKEY) (Q_vpid R_vpid : NODE_VPID) (P' Q' R' : PAGE) (child : VPID) : Prop := {
  sd_kind : same_kind P P' /\ same_kind Q Q' /\ same_kind R R';
  sd_split : exists mid sep hl hr hp',
    split_keys idx keys mid sep (longest keys key)
    /\ leaf_page idx Q' hl (take mid keys) /\ leaf_page idx R' hr (drop mid keys)
    /\ inner_page idx P' hp' (split_children children last i sep (vpid_of Q_vpid) (vpid_of R_vpid)).1
         (split_children children last i sep (vpid_of Q_vpid) (vpid_of R_vpid)).2
    /\ (prev_vpid hl = prev_vpid hq /\ next_vpid hl = R_vpid /\ prev_vpid hr = Q_vpid /\ next_vpid hr = next_vpid hq)
    /\ (node_level hl = node_level hq /\ node_level hr = node_level hq /\ counted hp hp' 1)
    /\ child = vpid_of (if kcmp idx key sep <=? 0 then Q_vpid else R_vpid);
  sd_search : exists slot, btree_search_nonleaf_page net er idx P' key = Some (NO_ERROR, slot, child) }.

(** The parent has room for the separator. *)
Lemma separator_room P v sep :
  page_inv P -> is_saving (p_hdr P) = false -> BTREE_MAX_KEYLEN <= spage_max_space_for_new_record th st P ->
  6 + zlen (key_bytes sep) <= BTREE_MAX_KEYLEN ->
  view_space (alignment (p_hdr P)) (inner_view (sep, v)) <= total_free (p_hdr P).
Proof.
  intros [W _] Hsv Hroom Hs. pose proof (wf_align _ (proj1 W)) as Hal.
  pose proof (zlen_nonneg (key_bytes sep)) as Hz. set (len := 6 + zlen (key_bytes sep)) in *.
  destruct (max_space_fits th st P len Hst W ltac:(lia)) as [Hfit _]. unfold spage_has_enough_total_space in Hfit.
  rewrite Hsv in Hfit. unfold view_space, inner_view. rewrite zlen_inner. cbn [fst snd]. fold len.
  destruct (_ <=? 0) eqn:E; [|lia]. pose proof (total_free_pos P (proj1 W)). lia.
Qed.

Lemma split_parent_ok rec_buf P h children last i sep Q R :
  inner_page idx P h children last -> is_saving (p_hdr P) = false -> (children.*2 ++ [last]) !! i = Some Q ->
  vpid_fits Q -> vpid_fits R -> key_ok idx sep -> 6 + zlen (key_bytes sep) <= BTREE_MAX_KEYLEN ->
  BTREE_MAX_KEYLEN <= spage_max_space_for_new_record th st P ->
  (forall j k, children.*1 !! j = Some k -> (j < i)%nat -> kcmp idx k sep < 0) ->
  (forall j k, children.*1 !! j = Some k -> (i <= j)%nat -> kcmp idx sep k < 0) ->
  exists P' h', split_parent th er rec_buf st P (Z.of_nat i + 1) sep Q R = Some (NO_ERROR, P', st)
    /\ same_kind P P' /\ counted h h' 1
    /\ inner_page idx P' h' (split_children children last i sep Q R).1 (split_children children last i sep Q R).2.
Proof.
  intros ((rest & Hh) & Hfit & Hk & Hn & Hlast) Hsv HQ FQ FR Hsep Hlen Hroom Hb Ha.
  pose proof (zlen_nonneg (child_bytes (Some Q))) as Hz.
  assert (i <= length children)%nat as Hil.
  { apply lookup_lt_Some in HQ. rewrite length_app, length_fmap in HQ. cbn in HQ. lia. }
  pose proof (leaf_count P h _ Hh) as Hcnt. rewrite length_app, length_fmap in Hcnt. cbn [length] in Hcnt.
  destruct (parent_views children last rest i Q HQ) as (A & tail & B & Ev & El & Enew).
  assert (plain_node P h (A ++ Rec REC_HOME (child_bytes (Some Q) ++ tail) :: B)) as HP.
  { apply node_header. split; [|done]. rewrite <- Ev. exact Hh. }
  pose proof (key_length idx sep Hi Hsep) as Hsl. unfold few_columns in Hc.
  destruct (split_parent_views th er st Hst Hcalloc (atts idx ++ [oid_column]) rec_buf P h A tail B Q R sep HP) as (P' & h' & E & K & Hcd & N').
  - lia.
  - lia.
  - by apply column_values_key.
  - lia.
  - by rewrite zlen_inner.
  - by apply separator_room; [apply Hh|..].
  - rewrite El in E. exists P', h'. split; [done|]. split; [done|]. split; [done|].
    destruct (split_children_fits children last i sep Q R) as [F1 F2]; [exact Hfit|done|done|done|done|].
    split; [|split; [exact F1|split; [|split; [|done]]]].
    + destruct (Enew sep R) as [rest' Er]. exists rest'. apply node_header in N' as [N' _].
      change (fun r => Rec REC_HOME (record_bytes (Some r.2) r.1)) with inner_view. by rewrite Er.
    + apply split_separators; try done. lia.
    + destruct Hcd as (-> & _). rewrite Hn, split_children_length by done. lia.
Qed.

Lemma dirty_kind p q : same_kind p q -> same_kind p (pgbuf_set_dirty q).
Proof.
  intros ((I & Ha & Hs) & Hal & F). split; [split; [|by split]|by split].
  by apply (same_slots_inv q); [..|apply I].
Qed.

Lemma dirty_leaf p h keys : leaf_page idx p h keys -> leaf_page idx (pgbuf_set_dirty p) h keys.
Proof. intros (Hp & Hrest). split; [|done]. by apply dirty_header. Qed.

Lemma dirty_inner p h children last : inner_page idx p h children last -> inner_page idx (pgbuf_set_dirty p) h children last.
Proof. intros ((rest & Hp) & Hrest). split; [|done]. exists rest. by apply dirty_header. Qed.

Lemma vpid_of_fits v : node_vpid_ok v -> vpid_fits (vpid_of v).
Proof. intros (H1 & H2 & _). by split. Qed.

(** The separator of the halves lies between the separators of the parent. *)
Lemma separator_between P Q R hp hq children last keys i key Q_vpid R_vpid mid sep b :
  splittable P Q R hp hq children last keys i key Q_vpid R_vpid -> split_keys idx keys mid sep b ->
  (forall j k, children.*1 !! j = Some k -> (j < i)%nat -> kcmp idx k sep < 0)
  /\ (forall j k, children.*1 !! j = Some k -> (i <= j)%nat -> kcmp idx sep k < 0).
Proof.
  intros Sp (Hm & Hsep & _ & Fl & Fr). pose proof (kcmp_laws idx) as L.
  pose proof (sp_leaf _ _ _ _ _ _ _ _ _ _ _ _ Sp) as (_ & Hk & _). pose proof (sp_parent _ _ _ _ _ _ _ _ _ _ _ _ Sp) as (_ & _ & Hks & _).
  rewrite Forall_lookup in Fl, Fr. split; intros j k Hj Hij; pose proof (keys_lookup idx _ _ _ Hks Hj) as Kk.
  - destruct (lookup_lt_is_Some_2 keys 0) as [x Hx]; [lia|]. pose proof (keys_lookup idx keys _ _ Hk Hx) as Kx.
    pose proof (sp_above _ _ _ _ _ _ _ _ _ _ _ _ Sp j k x Hj Hij (list_elem_of_lookup_2 _ _ _ Hx)) as Hlt.
    pose proof (Fl 0%nat x ltac:(by rewrite lookup_take_lt by lia)) as Hle.
    pose proof (law_range _ _ L k x Kk Kx). pose proof (law_range _ _ L x sep Kx Hsep).
    destruct (decide (kcmp idx x sep = 0)) as [E|E].
    + rewrite (law_eq_r _ _ L k x sep) by done. lia.
    + rewrite (law_lt _ _ L k x sep) by (done || lia). lia.
  - destruct (lookup_lt_is_Some_2 keys mid) as [y Hy]; [lia|]. pose proof (keys_lookup idx keys _ _ Hk Hy) as Ky.
    pose proof (sp_below _ _ _ _ _ _ _ _ _ _ _ _ Sp j k y Hj Hij (list_elem_of_lookup_2 _ _ _ Hy)) as Hle.
    pose proof (Fr 0%nat y ltac:(by rewrite lookup_drop, Nat.add_0_r)) as Hlt.
    pose proof (law_range _ _ L sep y Hsep Ky). pose proof (law_range _ _ L y k Ky Kk).
    destruct (decide (kcmp idx y k = 0)) as [E|E].
    + rewrite (law_eq_r _ _ L sep y k) by done. lia.
    + rewrite (law_lt _ _ L sep y k) by (done || lia). lia.
Qed.

Lemma split_leaf_ok pads rec_buf recset P Q R hp hq children last keys i key Q_vpid R_vpid :
  splittable P Q R hp hq children last keys i key Q_vpid R_vpid ->
  exists P' Q' R' child,
    btree_split_node th net er true pads rec_buf recset st btid P Q R Q_vpid R_vpid (Z.of_nat i + 1) key
      = Some (NO_ERROR, P', Q', R', st, child)
    /\ split_done P Q R hp hq children last keys i key Q_vpid R_vpid P' Q' R' child.
Proof.
  intros Sp. pose proof Sp as [HQ HP [SQ SP] (PR & VR & AR) Hlv Hmany [Hkey Habs] Hch [OQ OR] _ _ Hshort Hroom].
  pose proof HQ as (Hh & _ & Hn). pose proof (longest_key keys key) as Hlk.
  unfold btree_split_node. rewrite (read_node_header er Q hq _ Hh). replace (node_level hq >? 1) with false by lia.
  cbn [negb]. rewrite Hn. replace (_ <=? 0) with false by lia.
  destruct (find_split_point_ok net er idx Hi Q hq keys key HQ Hkey Hmany Hlv Habs ltac:(lia)) as (mid & sep & -> & Hsplit).
  cbn [mbind option_bind negb Z.eqb NO_ERROR]. pose proof Hsplit as (Hm & Hsep & Hsl & _).
  replace (Z.of_nat (length keys) - Z.of_nat mid) with (Z.of_nat (length keys - mid)) by lia.
  destruct (leaf_halves th er st Hst Hcalloc idx pads recset Q R hq keys mid sep _ Q_vpid R_vpid Hi HQ SQ PR VR AR OQ OR Hsplit)
    as (Q1 & R1 & m & len & Q2 & R2 & -> & -> & -> & E4 & KQ & KR & LQ & LR).
  cbn [negb Z.eqb NO_ERROR]. rewrite Nat2Z.id, E4. cbn [negb Z.eqb NO_ERROR].
  destruct (separator_between _ _ _ _ _ _ _ _ _ _ _ _ _ _ _ Sp Hsplit) as [Hb Ha].
  destruct (split_parent_ok rec_buf P hp children last i sep (vpid_of Q_vpid) (vpid_of R_vpid) HP SP (proj1 Hch)) as (P2 & hp' & -> & KP & Hcd & HP2);
    try done; [by apply vpid_of_fits|by apply vpid_of_fits|lia|].
  cbn [mbind option_bind negb Z.eqb NO_ERROR]. rewrite (compare_key_cmp idx Hi) by done. cbn [mbind option_bind].
  destruct (agree_range idx Hi key sep Hkey Hsep) as (Rc & _). replace (_ =? DB_UNK) with false by (unfold DB_UNK; lia).
  eexists _, _, _, _. split; [reflexivity|].
  assert (i <= length children)%nat as Hil.
  { pose proof (lookup_lt_Some _ _ _ (proj1 Hch)) as Hlt. rewrite length_app, length_fmap in Hlt. cbn in Hlt. lia. }
  split.
  - split_and!; by apply dirty_kind.
  - exists mid, sep, (left_header hq true (Z.of_nat mid) R_vpid), (right_header pads hq true (Z.of_nat (length keys - mid)) Q_vpid), hp'. split_and!; [done|by apply dirty_leaf|by apply dirty_leaf|by apply dirty_inner|done..].
  - destruct (search_nonleaf_ok idx Hi _ key ltac:(apply HP2) Hkey ltac:(apply HP2) net er _ hp' _ (dirty_inner _ _ _ _ HP2))
      as (slot & v & E & _ & Hv). exists slot. rewrite E. do 2 f_equal.
    pose proof (split_leads idx children last i sep (vpid_of Q_vpid) (vpid_of R_vpid) key _ Hil Hch) as Hl. cbn zeta in Hl.
    destruct (child_for_unique _ _ _ _ _ _ _ _ Hv Hl) as [_ ->]. by destruct (kcmp idx key sep <=? 0).
Qed.
End SplitLeaf.
