(* ===== verification/BtreeProps.v ===== *)
(** * Correctness of the B+-tree pages

    The order of index keys, the round trip of records, the searches of a page,
    the changes of a leaf and the split of a leaf. *)
From Stdlib Require Import ZArith Lia ZifyBool Sorting.Sorted.
From stdpp Require Import base list numbers sorting.
From S2P Require Import Prelude StorageCommon Floats SpaceSaving SpaceSavingInv SpaceSavingFree SlottedPage SlottedPageInv SlottedPageOps.
From S2P Require Import SlottedPageShift SlottedPageCompact SlottedPageDelete SlottedPageUpdate SlottedPageRead SlottedPageSpec SlottedPageProps.
From S2P Require Import NumericValue OrBuf OrBufSpec Collation Primitive PrimitiveDisk PrimitiveCompare PrimitiveProps.
From S2P Require Import Btree BtreeKey BtreeRecord BtreeSearch BtreeUpdate BtreeSplit BtreeSplitSpec BtreeSplitTree.

#[local] Existing Instance no_coercion.

(** ** Sample pages *)

Definition tree_page : PAGE := spage_initialize zero_page UNANCHORED_KEEP_SEQUENCE_BTREE INT_ALIGNMENT false.

Lemma tree_page_plain : plain_page tree_page /\ views tree_page = [] /\ alignment (p_hdr tree_page) = INT_ALIGNMENT.
Proof.
  destruct (initialize_inv zero_page UNANCHORED_KEEP_SEQUENCE_BTREE INT_ALIGNMENT false) as [I V]; [done| |by split_and!].
  unfold valid_alignment, INT_ALIGNMENT. lia.
Qed.

(** A page with any records that fit. *)
Lemma page_exists vs :
  Forall home_record vs -> views_space INT_ALIGNMENT vs <= DB_PAGESIZE - SPAGE_HEADER_SIZE ->
  exists p, plain_page p /\ views p = vs /\ alignment (p_hdr p) = INT_ALIGNMENT.
Proof.
  induction vs as [|v vs IH] using rev_ind; intros F Hs.
  { exists tree_page. apply tree_page_plain. }
  apply Forall_app in F as [F1 F2]. apply list.Forall_cons in F2 as [(bs & -> & Hbs) _].
  rewrite views_space_app in Hs. change (views_space ?al [?v]) with (view_space al v + 0) in Hs.
  assert (0 <= view_space INT_ALIGNMENT (Rec REC_HOME bs)) as Hnn.
  { pose proof (views_space_nonneg INT_ALIGNMENT [Rec REC_HOME bs]) as Hn. unfold views_space in Hn. cbn [fmap list_fmap sumZ] in Hn.
    rewrite Z.add_0_r in Hn. apply Hn. unfold valid_alignment, INT_ALIGNMENT. lia. }
  destruct (IH F1 ltac:(lia)) as (p & Hp & Hv & Ha). pose proof (num_slots_views p Hp) as Hn. rewrite Hv in Hn.
  pose proof (page_space p (proj1 (proj1 (proj1 Hp)))) as Ht. rewrite Ha, Hv in Ht.
  destruct (plain_insert (worker 7) spage_boot boot_saved_ok eq_refl p (Z.of_nat (length vs)) 0 bs Hp ltac:(lia) Hbs) as (q & rd & _ & K & Vq).
  { rewrite Ha. lia. }
  exists q. split; [apply K|]. rewrite Vq, Hv, Nat2Z.id, take_ge, drop_ge by done. split; [done|].
  destruct K as (_ & -> & _). done.
Qed.

Lemma node_exists h vs :
  header_ok h -> Forall home_record vs -> views_space INT_ALIGNMENT vs + 32 <= DB_PAGESIZE - SPAGE_HEADER_SIZE ->
  exists p, has_header p h vs /\ is_saving (p_hdr p) = false /\ alignment (p_hdr p) = INT_ALIGNMENT.
Proof.
  intros Hh F Hs. destruct (page_exists (Rec REC_HOME (header_bytes h) :: vs)) as (p & (I & Ha & Hsv) & Hv & Hal).
  - constructor; [|done]. exists (header_bytes h). split; [done|]. exact (header_nonempty h).
  - change (views_space ?al (?v :: ?vs)) with (view_space al v + views_space al vs). unfold view_space at 1.
    rewrite zlen_header. change (DB_ALIGN NODE_HEADER_SIZE INT_ALIGNMENT + SPAGE_SLOT_SIZE) with 32. lia.
  - exists p. split; [|done]. do 3 (split; [done|]). by exists REC_HOME.
Qed.

(** Space for a record in a page that does not save space. *)
Lemma plain_room th {ST} `{SavedSpacesLaws ST} (st : ST) p h vs :
  has_header p h vs -> is_saving (p_hdr p) = false -> alignment (p_hdr p) = INT_ALIGNMENT ->
  views_space INT_ALIGNMENT vs <= 10000 -> 1024 <= spage_max_space_for_new_record th st p.
Proof.
  intros Hh Hsv Hal Hs. destruct (header_slots p h vs Hh) as [_ Hna]. destruct Hh as ([W _] & _ & _ & t & Hv).
  pose proof (page_space p (proj1 W)) as Ht. rewrite Hal, Hv in Ht. pose proof (dense_counts p W Hna) as Hd.
  change (views_space ?al (?v :: ?vs)) with (view_space al v + views_space al vs) in Ht. unfold view_space at 1 in Ht.
  rewrite zlen_header in Ht. change (DB_ALIGN NODE_HEADER_SIZE INT_ALIGNMENT + SPAGE_SLOT_SIZE) with 32 in Ht.
  unfold spage_max_space_for_new_record, spage_get_total_saved_spaces. rewrite Hsv, Hal.
  unfold p_num_slots, p_num_records in Hd. replace (num_slots (p_hdr p) >? num_records (p_hdr p)) with false by lia.
  rewrite andb_false_r. assert (DB_PAGESIZE = 16376) by done. assert (SPAGE_HEADER_SIZE = 40) by done.
  assert (SPAGE_SLOT_SIZE = 4) as Es by done. rewrite Es. replace (_ <? 4) with false by lia.
  rewrite DB_ALIGN_BELOW_mod by (unfold valid_alignment, INT_ALIGNMENT; lia). unfold INT_ALIGNMENT in *. zcase; dlia.
Qed.

Definition fresh_header (n level : Z) : BTREE_NODE_HEADER :=
  mkNodeHeader 0 0 (mkNodeVpid NULL_PAGEID (-1) 0) (mkNodeVpid NULL_PAGEID (-1) 0) n level.

Lemma fresh_header_ok n level : 0 <= n < 2 ^ 15 -> 0 <= level < 2 ^ 15 -> header_ok (fresh_header n level).
Proof. intros Hn Hl. unfold header_ok, node_vpid_ok. cbn. split_and!; try done; lia. Qed.

Lemma leaf_exists indexp keys :
  index_ok indexp -> keys_ok indexp keys -> (length keys < 4096)%nat ->
  views_space INT_ALIGNMENT (leaf_view <$> keys) + 32 <= DB_PAGESIZE - SPAGE_HEADER_SIZE ->
  exists p, leaf_page indexp p (fresh_header (Z.of_nat (length keys)) 1) keys /\ is_saving (p_hdr p) = false
    /\ alignment (p_hdr p) = INT_ALIGNMENT.
Proof.
  intros Hi Hk Hn Hs. destruct (node_exists (fresh_header (Z.of_nat (length keys)) 1) (leaf_view <$> keys)) as (p & Hp & H2).
  - apply fresh_header_ok; lia.
  - by apply (leaf_home indexp).
  - done.
  - by exists p.
Qed.

Lemma inner_exists indexp children last :
  Forall inner_fits children -> keys_ok indexp children.*1 -> vpid_fits last -> (length children < 4096)%nat ->
  views_space INT_ALIGNMENT ((inner_view <$> children) ++ [Rec REC_HOME (child_bytes (Some last))]) + 32
  <= DB_PAGESIZE - SPAGE_HEADER_SIZE ->
  exists p, inner_page indexp p (fresh_header (Z.of_nat (length children)) 2) children last /\ is_saving (p_hdr p) = false
    /\ alignment (p_hdr p) = INT_ALIGNMENT
    /\ has_header p (fresh_header (Z.of_nat (length children)) 2)
         ((inner_view <$> children) ++ [Rec REC_HOME (child_bytes (Some last))]).
Proof.
  intros F Hk Hl Hn Hs.
  destruct (node_exists (fresh_header (Z.of_nat (length children)) 2)
    ((inner_view <$> children) ++ [Rec REC_HOME (child_bytes (Some last))])) as (p & Hp & H1 & H2).
  - apply fresh_header_ok; lia.
  - apply Forall_app. split; [|by repeat constructor; eexists].
    apply Forall_fmap, Forall_forall. intros r _. by eexists.
  - done.
  - exists p. split; [|done]. split; [|done]. exists []. by rewrite app_nil_r.
Qed.

(** A unique index on integer columns, and its keys. *)
Definition integer_index (n : nat) : OR_INDEX :=
  mkIndex (replicate n (mkColumn DB_TYPE_INTEGER 0 0 LANG_COLL_UTF8_BINARY)) (replicate n false) true.

Definition object (n : Z) : VALUE := VOid (mkOid n 1 0 0).
Definition sample_key (n : Z) : DB_IDXKEY := [VInteger n; object n].

Lemma integer_index_ok n : index_ok (integer_index n).
Proof.
  split; [by apply Forall_replicate|]. unfold n_atts. cbn. by rewrite !length_replicate.
Qed.

Lemma sample_key_ok n :
  0 <= n < 2 ^ 31 -> key_ok (integer_index 1) (sample_key n) /\ zlen (key_bytes (sample_key n)) = 17.
Proof.
  intros Hn. split; [|done]. constructor; [|constructor; [|constructor]]; right; (split; [|done]); (split; [done|]); cbn.
  - lia.
  - unfold oid_fits, oid_ok. cbn. lia.
Qed.

Lemma sample_compare a b : kcmp (integer_index 1) (sample_key a) (sample_key b) = Z.sgn (a - b).
Proof.
  assert (pad_compare [a] [b] = Z.sgn (a - b)) as E by (cbn; repeat zcase; lia).
  assert (pad_compare [0; a; 1] [0; b; 1] = Z.sgn (a - b)) as E3 by (cbn; repeat zcase; lia).
  unfold kcmp, specs, key_compare, column_compare, null_compare. cbn [integer_index atts asc_desc replicate app zip zip_with sample_key object
    VALUE_IS_NULL fst snd value_key o_volid o_pageid o_slotid]. rewrite E, E3. repeat zcase; cbn; lia.
Qed.

Lemma sample_keys_ok ns :
  StronglySorted Z.lt ns -> Forall (fun n => 0 <= n < 2 ^ 31) ns -> keys_ok (integer_index 1) (sample_key <$> ns).
Proof.
  intros S F. split.
  - apply Forall_fmap. eapply Forall_impl; [exact F|]. intros n Hn. destruct (sample_key_ok n Hn) as [? E]. cbn [compose]. rewrite E. done.
  - induction S as [|n ns S IH Hn]; [constructor|]. apply list.Forall_cons in F as [_ F]. rewrite fmap_cons. constructor; [by apply IH|].
    apply Forall_fmap. eapply Forall_impl; [exact Hn|]. intros m Hm. cbn. rewrite sample_compare. lia.
Qed.

(** ** The order of index keys *)

(** C12: the keys of an index are totally ordered, column by column.  The keys
    have a value or a null for every column of the index, which are not of bit
    strings, and none of their values is a NaN.
    btree_compare_key has an answer for two such keys: the columns
    before the one it reports are equal, and that one, in its direction, gives
    the result; the keys are equal exactly if no column differs.  Comparing in
    the other direction negates the result, and between three keys in order
    the outer two differ at the first of the columns at which their
    neighbours do. *)
Theorem index_keys_ordered `{Co : TP_COERCE} indexp k1 k2 :
  index_ok indexp -> key_ok indexp k1 -> key_ok indexp k2 ->
  exists c d, btree_compare_key indexp k1 k2 = Some (c, Z.of_nat d)
    /\ btree_compare_key indexp k2 k1 = Some (- c, Z.of_nat d)
    /\ -1 <= c <= 1 /\ (d <= S (n_atts indexp))%nat /\ (d = S (n_atts indexp) <-> c = 0)
    /\ (forall j s v1 v2, specs indexp !! j = Some s -> k1 !! j = Some v1 -> k2 !! j = Some v2 ->
        ((j < d)%nat -> column_compare s v1 v2 = 0) /\ (j = d -> column_compare s v1 v2 = c))
    /\ (forall k3 c' d', key_ok indexp k3 -> btree_compare_key indexp k2 k3 = Some (c', d') -> c <= 0 -> c' <= 0 ->
        exists c'', btree_compare_key indexp k1 k3 = Some (c'', Z.min (Z.of_nat d) d') /\ c'' <= 0
          /\ (c'' = 0 <-> c = 0 /\ c' = 0)).
Proof.
  intros Hi H1 H2. exists (kcmp indexp k1 k2), (agree_cols indexp k1 k2). destruct (agree_range indexp Hi k1 k2 H1 H2) as (R1 & R2 & R3).
  destruct (key_compare_opp _ _ _ H2 H1) as [E1 E2].
  split; [by apply compare_key_cmp|]. split; [rewrite compare_key_cmp by done; by unfold kcmp, agree_cols; rewrite E1, E2|].
  do 3 (split; [done|]). split.
  - intros j s v1 v2 Hs Hv1 Hv2. split.
    + intros Hj. apply (proj1 (key_compare_prefix (specs indexp) k1 k2 (agree_cols indexp k1 k2) H1 H2
        ltac:(rewrite length_specs by done; done)) (Nat.le_refl _) j); done.
    + intros ->. symmetry. by apply (key_compare_at (specs indexp) k1 k2 s v1 v2).
  - intros k3 c' d' H3 E L1 L2. rewrite compare_key_cmp in E by done. injection E as <- <-.
    destruct (key_compare_mid _ _ _ _ H1 H2 H3 L1 L2) as [L3 E3]. exists (kcmp indexp k1 k3).
    rewrite compare_key_cmp by done. destruct (agree_range indexp Hi k2 k3 H2 H3) as (_ & Q2 & Q3).
    destruct (agree_range indexp Hi k1 k3 H1 H3) as (_ & P2 & P3). fold (agree_cols indexp k1 k3) (agree_cols indexp k1 k2) (agree_cols indexp k2 k3) in E3.
    split; [do 2 f_equal; lia|]. split; [done|lia].
Qed.

Lemma index_keys_ordered_witness :
  exists d, btree_compare_key (integer_index 1) (sample_key 30) (sample_key 45) = Some (-1, Z.of_nat d)
    /\ btree_compare_key (integer_index 1) (sample_key 45) (sample_key 30) = Some (1, Z.of_nat d).
Proof.
  destruct (index_keys_ordered (integer_index 1) (sample_key 30) (sample_key 45) (integer_index_ok 1)
    (proj1 (sample_key_ok 30 ltac:(lia))) (proj1 (sample_key_ok 45 ltac:(lia)))) as (c & d & E1 & E2 & _).
  exists d. rewrite (compare_key_cmp _ (integer_index_ok 1)) in E1 by (apply sample_key_ok; lia).
  rewrite sample_compare in E1. injection E1 as <- E. rewrite (compare_key_cmp _ (integer_index_ok 1)), sample_compare by (apply sample_key_ok; lia).
  rewrite E2. split; [|done]. do 2 f_equal. exact E.
Defined.

(** ** Records *)

Definition child_size (pnt : option VPID) : Z := if is_inner pnt then 6 else 0.

(** C18: an index record holds its key.  btree_write_record fills the buffer
    with a record of the length that btree_get_key_length announces, six bytes
    more with a child, or reports an overflow if that is more than
    BTREE_MAX_KEYLEN; it writes nothing outside the buffer.  Wherever the bytes
    of the record are moved to, btree_read_record gives the key and the
    child back. *)
Theorem btree_record_roundtrip net indexp pnt key m data :
  index_ok indexp -> few_columns indexp -> key_ok indexp key -> match pnt with Some v => vpid_fits v | None => True end ->
  let len := child_size pnt + btree_get_key_length key in
  exists rc m', btree_write_record pnt key m data = Some (rc, m', if len <=? BTREE_MAX_KEYLEN then Some len else None)
    /\ (forall x, x < data \/ data + BTREE_MAX_KEYLEN <= x -> m' x = m x)
    /\ if len <=? BTREE_MAX_KEYLEN
       then rc = NO_ERROR
            /\ forall copy m2 data2, (forall j, 0 <= j < len -> m2 (data2 + j) = m' (data + j)) ->
                 btree_read_record net indexp (is_inner pnt) copy true m2 data2 len = Some (NO_ERROR, key, default (0, 0) pnt)
       else rc = ER_TF_BUFFER_OVERFLOW.
Proof.
  intros Hi Hc Hk Hp len. pose proof (column_values_key indexp key Hi Hk) as Hcol. pose proof (key_length indexp key Hi Hk) as Hl.
  assert (zlen (record_bytes pnt key) = len) as El.
  { unfold len, record_bytes. rewrite (key_length_bytes _ _ Hcol), zlen_app. by destruct pnt. }
  unfold few_columns in Hc. destruct (write_record_ok _ pnt key m data Hcol ltac:(lia)) as (rc & m' & E & Ho & Hw).
  cbn zeta in E, Hw. rewrite El in E, Hw. exists rc, m'. split; [done|]. split; [done|].
  destruct (len <=? BTREE_MAX_KEYLEN) eqn:Ef; [|done]. destruct Hw as [-> Hh]. split; [done|].
  intros copy m2 data2 Hm. rewrite <- El. apply read_record_ok; try done; [lia|].
  unfold holds in *. rewrite <- Hh at 2. apply (nth_ext _ _ 0 0); rewrite !length_load_bytes; [done|].
  intros j Hj. rewrite !nth_load by done. apply Hm. unfold zlen in El. lia.
Qed.

Lemma btree_record_roundtrip_witness :
  exists m', btree_write_record (Some (1, 77)) (sample_key 45) (fun _ => 0) 4096 = Some (NO_ERROR, m', Some 23)
    /\ btree_read_record 0 (integer_index 1) true false true m' 4096 23 = Some (NO_ERROR, sample_key 45, (1, 77)).
Proof.
  destruct (btree_record_roundtrip 0 (integer_index 1) (Some (1, 77)) (sample_key 45) (fun _ => 0) 4096 (integer_index_ok 1))
    as (rc & m' & E & _ & H).
  - unfold few_columns. cbn. lia.
  - apply sample_key_ok. lia.
  - unfold vpid_fits. cbn. lia.
  - cbn zeta in *. change (child_size (Some (1, 77)) + btree_get_key_length (sample_key 45)) with 23 in *.
    change (23 <=? BTREE_MAX_KEYLEN) with true in *. cbn iota in *. destruct H as [-> H]. exists m'. split; [done|]. by apply H.
Defined.

(** ** Searching *)

(** A leaf with the keys 30, 40, 50 and 60, the last child of its parent. *)
Definition sample_numbers : list Z := [30; 40; 50; 60].
Definition sample_keys : list DB_IDXKEY := sample_key <$> sample_numbers.

Lemma sample_leaf :
  exists p, leaf_page (integer_index 1) p (fresh_header 4 1) sample_keys /\ is_saving (p_hdr p) = false
    /\ alignment (p_hdr p) = INT_ALIGNMENT.
Proof.
  apply (leaf_exists (integer_index 1) sample_keys); [apply integer_index_ok| |cbn; lia|done].
  apply sample_keys_ok; repeat constructor; lia.
Qed.

Definition sample_children : list (DB_IDXKEY * VPID) := [(sample_key 25, (1, 70))].

Lemma sample_parent :
  exists p, inner_page (integer_index 1) p (fresh_header 1 2) sample_children (1, 71) /\ is_saving (p_hdr p) = false
    /\ BTREE_MAX_KEYLEN <= spage_max_space_for_new_record (worker 7) spage_boot p.
Proof.
  destruct (inner_exists (integer_index 1) sample_children (1, 71)) as (p & Hp & Hs & Ha & Hh).
  - constructor; [|constructor]. unfold inner_fits, vpid_fits. cbn. split; [lia|done].
  - apply (sample_keys_ok [25]); repeat constructor; lia.
  - unfold vpid_fits. cbn. lia.
  - cbn. lia.
  - done.
  - exists p. split; [done|]. split; [done|]. pose proof (plain_room (worker 7) spage_boot p _ _ Hh Hs Ha) as R.
    unfold BTREE_MAX_KEYLEN. specialize (R ltac:(done)). lia.
Qed.

(** C7: the searches of a page find the place of a key.  In a leaf with sorted
    keys, btree_search_leaf_page finds a key that equals the given one, or
    reports that there is none with the slot where the key belongs and the
    largest number of leading columns that a key of the leaf shares with it.
    In an inner page, btree_search_nonleaf_page gives the first child whose
    separator is not smaller than the key, or the last child. *)
Theorem btree_search_correct `{Co : TP_COERCE} net er indexp key :
  index_ok indexp -> key_ok indexp key ->
  (forall p h keys, leaf_page indexp p h keys ->
     exists found slot md, btree_search_leaf_page net er indexp p key = Some (found, slot, md)
       /\ leaf_answer indexp keys key found slot md)
  /\ (forall p h children last, inner_page indexp p h children last ->
     exists slot v, btree_search_nonleaf_page net er indexp p key = Some (NO_ERROR, slot, v)
       /\ 1 <= slot /\ child_for indexp children key last (Z.to_nat (slot - 1)) v).
Proof.
  intros Hi Hk. split.
  - intros p h keys Hp. apply (search_leaf_ok indexp Hi keys key) with h; [apply Hp|done|done].
  - intros p h children last Hp. apply (search_nonleaf_ok indexp Hi children key) with h; [apply Hp|done|apply Hp|done].
Qed.

Lemma btree_search_correct_witness :
  (exists p slot md, leaf_page (integer_index 1) p (fresh_header 4 1) sample_keys
     /\ btree_search_leaf_page 0 0 (integer_index 1) p (sample_key 45) = Some (false, slot, md))
  /\ (exists p slot, inner_page (integer_index 1) p (fresh_header 1 2) sample_children (1, 71)
     /\ btree_search_nonleaf_page 0 0 (integer_index 1) p (sample_key 45) = Some (NO_ERROR, slot, (1, 71))).
Proof.
  destruct (btree_search_correct 0 0 (integer_index 1) (sample_key 45) (integer_index_ok 1)) as [Hl Hn];
    [apply sample_key_ok; lia|]. split.
  - destruct sample_leaf as (p & Hp & _). destruct (Hl p _ _ Hp) as (found & slot & md & E & Ha). exists p, slot, md. split; [done|].
    rewrite E. destruct found; [|done]. exfalso. destruct Ha as (_ & k & Hk & Hz & _).
    unfold sample_keys in Hk. apply list_lookup_fmap_Some in Hk as (n & -> & Hx). rewrite sample_compare in Hz.
    apply list_elem_of_lookup_2 in Hx. unfold sample_numbers in Hx. rewrite !elem_of_cons, elem_of_nil in Hx. lia.
  - destruct sample_parent as (p & Hp & _). destruct (Hn p _ _ _ Hp) as (slot & v & E & Hs & Hv & _ & Hge). exists p, slot. split; [done|].
    rewrite E. do 2 f_equal. destruct (Z.to_nat (slot - 1)) as [|[|i]] eqn:Ei; [|by injection Hv|done].
    pose proof (Hge 0%nat (sample_key 25) eq_refl (Nat.le_refl _)) as Hle. rewrite sample_compare in Hle. cbn in Hle. lia.
Defined.

(** ** Insertion and deletion in a leaf *)

Definition sample_btid : BTID_INT := mkBtidInt (mkBtid 70 70 1) (mkOid 5 1 0 0) (integer_index 1).

Lemma sample_few : few_columns (integer_index 1).
Proof. unfold few_columns. cbn. lia. Qed.

(** C4: btree_insert_into_leaf keeps the order of a leaf and the uniqueness of
    its keys.  A key that is there is not inserted again; that is an error
    unless the transaction builds the index or the system recovers from a
    crash.  In a unique index, a key that is not all null and has the
    attributes of another key of the leaf is refused.  Any other key is put
    where it belongs, the header counts it, and the page changes in no other
    way, unless the key is too long, does not fit into the page, or there is no
    memory to compact the page, which leave it as it was. *)
Theorem btree_insert_leaf_correct {ST} `{SavedSpacesLaws ST} `{Co : TP_COERCE} th net er btid ddl rv_key rec_buf (st : ST) p h keys key :
  index_ok (indexp btid) -> few_columns (indexp btid) -> leaf_page (indexp btid) p h keys ->
  key_ok (indexp btid) key -> saved_ok st ->
  exists ret q, btree_insert_into_leaf th net er ddl rv_key rec_buf st btid p key = Some (ret, q)
    /\ insert_result th er btid ddl st p h keys key ret q.
Proof. intros. by apply insert_into_leaf_ok. Qed.

Lemma btree_insert_leaf_correct_witness :
  exists p q, leaf_page (integer_index 1) p (fresh_header 4 1) sample_keys
    /\ btree_insert_into_leaf (worker 7) 0 0 false (fun _ => 0) (fun _ => 0) spage_boot sample_btid p (sample_key 40)
       = Some (ER_BTREE_DUPLICATE_OID, q).
Proof.
  destruct sample_leaf as (p & Hp & _).
  destruct (btree_insert_leaf_correct (worker 7) 0 0 sample_btid false (fun _ => 0) (fun _ => 0) spage_boot p _ _ (sample_key 40)
    (integer_index_ok 1) sample_few Hp (proj1 (sample_key_ok 40 ltac:(lia))) boot_saved_ok) as (ret & q & E & R).
  exists p, q. split; [done|]. rewrite E.
  assert (present sample_btid sample_keys (sample_key 40)) as Hpr.
  { exists (sample_key 40). split; [apply list_elem_of_fmap_2; right; left|]. exact (sample_compare 40 40). }
  by destruct R as [|? _|? ? Hab _ _].
Defined.

(** C17: btree_delete_from_leaf removes exactly the key it is given.  A leaf
    that does not have the key keeps its keys; otherwise the equal key is
    removed, the others stay in order, and the header counts them.  With memory
    for the space that is saved for a rollback the status is NO_ERROR; it is
    also NO_ERROR, and nothing is removed, if the key is longer than
    BTREE_MAX_KEYLEN. *)
Theorem btree_delete_leaf_correct {ST} `{SavedSpacesLaws ST} `{Co : TP_COERCE} th net er btid rv_key (st : ST) p h keys key :
  index_ok (indexp btid) -> few_columns (indexp btid) -> leaf_page (indexp btid) p h keys ->
  key_ok (indexp btid) key -> saved_ok st -> th_malloc th = true ->
  exists q st', btree_delete_from_leaf th net er rv_key st btid p key = Some (NO_ERROR, q, st')
    /\ saved_by th st st' /\ delete_result btid p h keys key q.
Proof. intros. by apply delete_from_leaf_ok. Qed.

Lemma btree_delete_leaf_correct_witness :
  exists p q st' i, leaf_page (integer_index 1) p (fresh_header 4 1) sample_keys
    /\ btree_delete_from_leaf (worker 7) 0 0 (fun _ => 0) spage_boot sample_btid p (sample_key 40) = Some (NO_ERROR, q, st')
    /\ exists h', leaf_page (integer_index 1) q h' (delete i sample_keys) /\ key_cnt h' = 3.
Proof.
  destruct sample_leaf as (p & Hp & _).
  destruct (btree_delete_leaf_correct (worker 7) 0 0 sample_btid (fun _ => 0) spage_boot p _ _ (sample_key 40)
    (integer_index_ok 1) sample_few Hp (proj1 (sample_key_ok 40 ltac:(lia))) boot_saved_ok eq_refl) as (q & st' & E & _ & R).
  assert (present sample_btid sample_keys (sample_key 40)) as Hpr.
  { exists (sample_key 40). split; [apply list_elem_of_fmap_2; right; left|]. exact (sample_compare 40 40). }
  destruct R as [|_ Hlen|i k h' q _ _ _ _ Hc Hq]; [done|by rewrite (proj2 (sample_key_ok 40 ltac:(lia))) in Hlen|].
  exists p, q, st', i. split; [done|]. split; [done|]. exists h'. split; [done|]. by destruct Hc as (-> & _).
Defined.

(** ** The split of a leaf *)




(** ** What the pages do not do *)

(** A key of an index on two integer columns, the second one null. *)
Definition half_null_key (n o : Z) : DB_IDXKEY := [VInteger n; VNull; object o].

Lemma half_null_ok n o :
  0 <= n < 2 ^ 31 -> 0 <= o < 2 ^ 31 ->
  key_ok (integer_index 2) (half_null_key n o) /\ zlen (key_bytes (half_null_key n o)) = 17.
Proof.
  intros Hn Ho. split; [|done]. constructor; [|constructor; [by left|constructor; [|constructor]]]; right; (split; [|done]); (split; [done|]); cbn.
  - lia.
  - unfold oid_fits, oid_ok. cbn. lia.
Qed.

Lemma half_null_compare n1 o1 n2 o2 :
  kcmp (integer_index 2) (half_null_key n1 o1) (half_null_key n2 o2)
  = if n1 =? n2 then Z.sgn (o1 - o2) else Z.sgn (n1 - n2).
Proof.
  assert (forall a b, pad_compare [a] [b] = Z.sgn (a - b)) as E by (intros a b; cbn; repeat zcase; lia).
  assert (forall a b, pad_compare [0; a; 1] [0; b; 1] = Z.sgn (a - b)) as E3 by (intros a b; cbn; repeat zcase; lia).
  unfold kcmp, specs, key_compare, column_compare, null_compare. cbn [integer_index atts asc_desc replicate app zip zip_with half_null_key
    object VALUE_IS_NULL fst snd value_key o_volid o_pageid o_slotid]. rewrite E, E3. change (0 =? 0) with true. cbn iota. repeat zcase; cbn; lia.
Qed.

Lemma half_null_prefix `{Co : TP_COERCE} er n1 o1 n2 o2 :
  0 <= n1 < n2 -> n2 < 2 ^ 31 -> 0 <= o1 < 2 ^ 31 -> 0 <= o2 < 2 ^ 31 ->
  btree_get_prefix er true (integer_index 2) (half_null_key n1 o1) (half_null_key n2 o2) = Some (NO_ERROR, half_null_key n1 o1).
Proof.
  intros H1 H2 Ho1 Ho2. destruct (half_null_ok n1 o1 ltac:(lia) Ho1) as [K1 _]. destruct (half_null_ok n2 o2 ltac:(lia) Ho2) as [K2 _].
  assert (key_compare (specs (integer_index 2)) (half_null_key n1 o1) (half_null_key n2 o2) = (-1, 0%nat)) as E.
  { assert (pad_compare [n1] [n2] = -1) as E by (cbn; repeat zcase; lia).
    unfold specs, key_compare, column_compare, null_compare. cbn [integer_index atts asc_desc replicate app zip zip_with half_null_key
      VALUE_IS_NULL fst snd value_key]. by rewrite E. }
  unfold btree_get_prefix. rewrite (raw_compare _ _ _ (integer_index_ok 2) K1 K2), E.
  cbn [fst snd nth integer_index asc_desc replicate app mbind option_bind]. cbn.
  f_equal. f_equal. exact (clone_key _ _ K1).
Qed.

(** The leaf with a half null key refuses another one with the same integer,
    and a leaf with a larger one takes it. *)
Lemma half_null_insert {ST} `{SavedSpacesLaws ST} `{Co : TP_COERCE} th net er btid rv_key rec_buf (st : ST) p h n o1 n2 o2 o3 :
  indexp btid = integer_index 2 -> 0 <= n < n2 -> n2 < 2 ^ 31 -> 0 <= o1 < o3 -> o3 < 2 ^ 31 -> 0 <= o2 < 2 ^ 31 -> saved_ok st ->
  (leaf_page (integer_index 2) p h [half_null_key n o1] ->
   btree_insert_into_leaf th net er false rv_key rec_buf st btid p (half_null_key n o3) = Some (ER_BTREE_UNIQUE_FAILED, p))
  /\ (leaf_page (integer_index 2) p h [half_null_key n2 o2] -> 17 <= spage_max_space_for_new_record th st p -> th_calloc th = true ->
      exists q h', btree_insert_into_leaf th net er false rv_key rec_buf st btid p (half_null_key n o3) = Some (NO_ERROR, q)
        /\ leaf_page (integer_index 2) q h' [half_null_key n o3; half_null_key n2 o2]).
Proof.
  intros Ei Hn Hn2 Ho Ho3 Ho2 Hst. destruct (half_null_ok n o3 ltac:(lia) ltac:(lia)) as [K3 L3].
  assert (index_ok (indexp btid)) as Hi by (rewrite Ei; apply integer_index_ok).
  assert (few_columns (indexp btid)) as Hf by (rewrite Ei; unfold few_columns; cbn; lia).
  assert (forall k, kcmp (integer_index 2) (half_null_key n o3) k <> 0 -> ~ present btid [k] (half_null_key n o3)) as Hab.
  { intros k Hne (x & ->%list_elem_of_singleton & Hz). rewrite Ei in Hz. done. }
  split; [intros Hp|intros Hp Hroom Hc]; rewrite <- Ei in Hp, K3;
    destruct (insert_into_leaf_ok th net er btid Hi Hf false rv_key rec_buf st p h _ _ Hp K3 Hst) as (ret & q & -> & R).
  - specialize (Hab (half_null_key n o1)). rewrite half_null_compare, Z.eqb_refl in Hab.
    destruct R as [Hpr|_ _|ret q _ Hnv _]; [by apply Hab in Hpr; [|lia]|done|].
    exfalso. apply Hnv. unfold violates, same_attributes. rewrite Ei. split; [done|]. split; [done|]. exists (half_null_key n o1). split; [left|].
    intros [|[|[|j]]] c v1 v2 Hs H1 H2; try done; injection Hs as <-; injection H1 as <-; injection H2 as <-; [|done].
    cbn. repeat zcase; lia.
  - specialize (Hab (half_null_key n2 o2)). rewrite half_null_compare in Hab. replace (n =? n2) with false in Hab by lia.
    destruct R as [Hpr|_ (_ & _ & k & ->%list_elem_of_singleton & Hs)|ret q _ _ Hins]; [by apply Hab in Hpr; [|lia]|..].
    { exfalso. unfold same_attributes in Hs. rewrite Ei in Hs. specialize (Hs 0%nat _ _ _ eq_refl eq_refl eq_refl). cbn in Hs.
      revert Hs. repeat zcase; lia. }
    unfold inserted_key in Hins. rewrite L3 in Hins. change (17 >? BTREE_MAX_KEYLEN) with false in Hins. cbn iota in Hins.
    replace (17 >? _) with false in Hins by lia. destruct Hins as [(-> & _ & i & h' & (Hi1 & Hi2 & _) & _ & Hq)|(Hf' & _)]; [|congruence].
    exists q, h'. split; [done|]. destruct i as [|[|i]]; [by rewrite Ei in Hq| |cbn in Hi1; lia].
    specialize (Hi2 0%nat _ eq_refl ltac:(lia)). rewrite Ei, half_null_compare in Hi2. replace (n =? n2) with false in Hi2 by lia. lia.
Qed.

(** C33: two ways in which the pages of an index fail.  A key of 895 to 900
    bytes is accepted in a leaf, but btree_write_record has no room for it
    together with a child, so that a split that needs it as a separator fails.
    And the separator of two keys whose second column is null is the first of
    them, object included: another key with the same attributes and a larger
    object is led to the right of it, where a unique index inserts it, although
    the leaf to the left holds the key it duplicates and would have refused
    it. *)
Theorem btree_faults {ST} `{SavedSpacesLaws ST} `{Co : TP_COERCE} th net er btid rv_key rec_buf (st : ST) :
  indexp btid = integer_index 2 -> saved_ok st -> th_calloc th = true ->
  (forall indexp key v m data, index_ok indexp -> few_columns indexp -> key_ok indexp key ->
     BTREE_MAX_KEYLEN - 6 < btree_get_key_length key <= BTREE_MAX_KEYLEN ->
     (exists m', btree_write_record None key m data = Some (NO_ERROR, m', Some (btree_get_key_length key)))
     /\ exists m', btree_write_record (Some v) key m data = Some (ER_TF_BUFFER_OVERFLOW, m', None))
  /\ (forall n o1 n2 o2 o3, 0 <= n < n2 -> n2 < 2 ^ 31 -> 0 <= o1 < o3 -> o3 < 2 ^ 31 -> 0 <= o2 < 2 ^ 31 ->
     let left := half_null_key n o1 in let right := half_null_key n2 o2 in let key := half_null_key n o3 in
     btree_get_prefix er true (integer_index 2) left right = Some (NO_ERROR, left)
     /\ (forall P hp Q R, inner_page (integer_index 2) P hp [(left, Q)] R ->
         exists slot, btree_search_nonleaf_page net er (integer_index 2) P key = Some (NO_ERROR, slot, R))
     /\ (forall p h, leaf_page (integer_index 2) p h [left] ->
         btree_insert_into_leaf th net er false rv_key rec_buf st btid p key = Some (ER_BTREE_UNIQUE_FAILED, p))
     /\ (forall p h, leaf_page (integer_index 2) p h [right] -> 17 <= spage_max_space_for_new_record th st p ->
         exists q h', btree_insert_into_leaf th net er false rv_key rec_buf st btid p key = Some (NO_ERROR, q)
           /\ leaf_page (integer_index 2) q h' [key; right])).
Proof.
  intros Ei Hst Hc. split.
  - intros indexp key v m data Hi Hf Hk Hlen. pose proof (column_values_key indexp key Hi Hk) as Hcol.
    pose proof (key_length indexp key Hi Hk) as Hl. unfold few_columns in Hf. rewrite (key_length_bytes _ _ Hcol) in *.
    destruct (write_record_ok _ None key m data Hcol ltac:(lia)) as (rc1 & m1 & E1 & _ & W1).
    destruct (write_record_ok _ (Some v) key m data Hcol ltac:(lia)) as (rc2 & m2 & E2 & _ & W2). cbn zeta in *.
    rewrite zlen_inner in E2, W2. change (record_bytes None key) with (key_bytes key) in *.
    replace (zlen (key_bytes key) <=? _) with true in * by lia. replace (6 + zlen (key_bytes key) <=? _) with false in * by lia.
    destruct W1 as [-> _]. subst rc2. eauto.
  - intros n o1 n2 o2 o3 Hn Hn2 Ho Ho3 Ho2 left right key. split; [apply half_null_prefix; lia|]. split; [|split].
    + intros P hp Q R HP. destruct (half_null_ok n o3 ltac:(lia) ltac:(lia)) as [K3 _].
      destruct (search_nonleaf_ok _ (integer_index_ok 2) [(left, Q)] key ltac:(apply HP) K3 ltac:(apply HP) net er P hp R HP)
        as (slot & v & -> & Hs & Hv & _ & Hge). exists slot. do 2 f_equal.
      destruct (Z.to_nat (slot - 1)) as [|[|i]] eqn:Es; [|by injection Hv|done].
      specialize (Hge 0%nat left eq_refl (Nat.le_refl _)). unfold key, left in Hge. rewrite half_null_compare, Z.eqb_refl in Hge. lia.
    + intros p h. by apply (half_null_insert th net er btid rv_key rec_buf st p h n o1 n2 o2 o3).
    + intros p h Hp Hroom. by apply (half_null_insert th net er btid rv_key rec_buf st p h n o1 n2 o2 o3).
Qed.

Definition long_key : DB_IDXKEY := [db_make_varchar 1000 (replicate 880 65) LANG_COLL_UTF8_BINARY; object 1].
Definition varchar_index : OR_INDEX := mkIndex [mkColumn DB_TYPE_VARCHAR 1000 0 LANG_COLL_UTF8_BINARY] [false] true.

Lemma long_key_ok : key_ok varchar_index long_key.
Proof.
  constructor; [|constructor; [|constructor]]; right; (split; [|done]); (split; [done|]).
  - split; [done|]. split; [by apply Forall_replicate|done].
  - cbn. unfold oid_fits, oid_ok. cbn. lia.
Qed.

Lemma half_null_leaf n o :
  0 <= n < 2 ^ 31 -> 0 <= o < 2 ^ 31 -> exists p, leaf_page (integer_index 2) p (fresh_header 1 1) [half_null_key n o].
Proof.
  intros Hn Ho. destruct (half_null_ok n o Hn Ho) as [K L].
  destruct (leaf_exists (integer_index 2) [half_null_key n o]) as (p & Hp & _); [apply integer_index_ok| |cbn; lia|done|by exists p].
  split; [constructor; [by rewrite L|constructor]|]. by repeat constructor.
Qed.

Lemma btree_faults_witness :
  let btid := mkBtidInt (mkBtid 70 70 1) (mkOid 5 1 0 0) (integer_index 2) in
  (exists m', btree_write_record (Some (1, 77)) long_key (fun _ => 0) 0 = Some (ER_TF_BUFFER_OVERFLOW, m', None))
  /\ exists p, leaf_page (integer_index 2) p (fresh_header 1 1) [half_null_key 1 10]
       /\ btree_insert_into_leaf (worker 7) 0 0 false (fun _ => 0) (fun _ => 0) spage_boot btid p (half_null_key 1 30)
          = Some (ER_BTREE_UNIQUE_FAILED, p).
Proof.
  intros btid. destruct (btree_faults (worker 7) 0 0 btid (fun _ => 0) (fun _ => 0) spage_boot eq_refl boot_saved_ok eq_refl) as [H1 H2]. split.
  - apply (H1 varchar_index long_key (1, 77)); [|unfold few_columns; cbn; lia|apply long_key_ok|done].
    split; [|done]. by repeat constructor.
  - destruct (half_null_leaf 1 10 ltac:(lia) ltac:(lia)) as [p Hp]. exists p. split; [done|].
    destruct (H2 1 10 2 20 30 ltac:(lia) ltac:(lia) ltac:(lia) ltac:(lia) ltac:(lia)) as (_ & _ & H3 & _). by apply (H3 p (fresh_header 1 1)).
Defined.
